(* ===== verification/_CoqProject ===== *)
-Q . S2P
Prelude.v
Wire.v
Types.v
Messages.v
Frame.v
Budget.v
Operations.v
Replica.v
ReplicaSpec.v
Utf8.v
Vt.v
Terminal.v
TerminalSpec.v
TerminalView.v
Subscription.v
Client.v
Resize.v
Input.v
InputSpec.v
PaneLease.v
Author.v
AuthorSpec.v
Conn.v
Outbox.v
Host.v
HostSpec.v
Pacing.v
Session.v
SessionSpec.v
SessionSync.v
SessionBook.v
RdCodec.v
RdPacket.v
RdMedia.v
RdFec.v
RdFraming.v
RdInput.v
RdInputSpec.v
RdControl.v
RdControlSpec.v
RdUdp.v
RdAssembly.v
RdAssemblySpec.v
RdQueue.v
RdRecovery.v
RdSender.v
RdVideo.v
RdSenderSpec.v
RdStream.v
RdRelay.v
RdRelaySpec.v
RdAgent.v
RdCode.v
RdGuest.v
RdGuestSpec.v
RdInjector.v
RdClipboard.v
RdServe.v
RdRoutes.v
VtStream.v
Retained.v
OutputHub.v
OutputHubSpec.v
RetainedSpec.v
RecorderSpec.v
ReplaySpec.v
MachineOutput.v
MachineSpec.v
