(* ===== verification/Prelude.v ===== *)
(** * Ferryx: a verification development

    ** The program

    Ferryx keeps terminal sessions alive in a host process and shows them in display
    clients that come and go, and it carries a remote desktop: pictures, input and
    control messages between a host and a client, directly or over a relay.  Its desktop
    application shows terminals and keeps their output for clients that reconnect.  This library
    models three parts of it.

    The session host (crates/fxsh, session-core, ferryx-host, ferryx-vt).  Host and clients
    speak FXSH, a framed binary protocol.  The session design
    (docs/session-restore/spec.md) asks of it: G2, a client that caught up shows exactly the
    host's terminal; G3, typed input is written in order and at most once, or
    reported; exclusive leases for input and size; bounded memory; idempotent operations.

    The remote desktop (crates/ferryx-rd).  Its design asks that a client decodes only
    pictures of the host's encoder, that lost packets are repaired or a key frame is asked
    for, that input is applied once and nothing stays pressed, and that a relay keeps its
    hosts apart.

    The terminal output of the desktop application (src-tauri/src/terminal).  A daemon numbers the
    output of each terminal and keeps it for clients that come back: a client is to get what it
    missed or be told of a gap, a new one a history that a terminal can read, in bounded memory.

    ** Files, parts and sources

    The session host:
    - [Prelude]: machine integers, [Result], [BTreeMap] and [BTreeSet] as stdpp
      maps with ordered iteration ([KeyOrd], [bt_iter], [bs_first]), lists, tactics.
    - [Wire], [Types], [Messages], [Frame] (crates/fxsh/src): the codec of every
      type as a [Codec] record (encoder, decoder, values a Rust type can hold), with
      the laws as the class [CodecOk]; one instance per type, found by resolution.
    - [Budget] (budget.rs), [Operations] (operations.rs): the snapshot budget and
      the table of idempotent operations of a host.
    - [Replica], [ReplicaSpec] (replica.rs): the terminal state, deltas, [diff],
      [merge], [apply_delta], eviction.
    - [Utf8], [Vt], [Terminal], [TerminalSpec], [TerminalView] (ferryx-vt/src/engine.rs): what the
      engine computes from libghostty-vt, the state kept in step with it and the deltas.
    - [Subscription] (subscription.rs): the delta queue and snapshot state machine of
      one subscriber, and the world of host, subscription and client in which G2
      is stated.
    - [Client] (client.rs): the replica of a display client.
    - [Resize] (resize.rs), [PaneLease] (pane_lease.rs): the resize lease on the host
      and on the client.
    - [Input], [InputSpec] (input.rs), [Author], [AuthorSpec] (author.rs): the input
      ledger of the host and the input author of the client.
    - [Conn] (ferryx-host/src/conn.rs): the receive loop of a connection.
    - [Outbox] (ferryx-host/src/outbox.rs): the send queue of a connection, with the
      interleavings of its atomic actions.
    - [Host], [HostSpec] (ferryx-host/src/host.rs): the session table, operations,
      reservations and dispatch.
    - [Pacing], [Session], [SessionSpec], [SessionSync], [SessionBook] (ferryx-host/src/session.rs):
      the actor of a session, its timers and mailbox gate, composed of the parts above.

    A connection ([Conn]) decodes frames ([Frame]) and hands them to the host ([Host]), which
    answers Spawn and Kill through [Operations], routes snapshot reservations of [Budget], and
    passes everything else to a session ([Session]).  A session applies leases ([Resize]) and
    input ([Input]) to its terminal ([Terminal]) and feeds each subscriber ([Subscription]),
    whose frames leave through the [Outbox] and reach a [Client].  On the client [Author]
    and [PaneLease] hold the leases.

    The remote desktop, in crates/ferryx-rd:
    - [RdCodec], [RdPacket], [RdMedia], [RdControl], [RdControlSpec] (ferryx-rd-proto/src): the wire
      primitives, packet headers, handshake and pairing, media packets, control messages; the laws
      of the trait are the classes [WireLaws] and [Canonical].
    - [RdFec] (fec.rs), [RdFraming] (framing.rs): parities, and frames on TCP.
    - [RdInput], [RdInputSpec] (input.rs, input_batch.rs, [send_inputs] of ferryx-rd-app/src/session.rs):
      input events, the journal of pointer motion and the order that applies it.
    - [RdUdp] (ferryx-rd-net/src/udp_gcm.rs): the datagram cipher and its replay window.
    - [RdAssembly], [RdAssemblySpec] (ferryx-rd-app/src/media.rs, media_recovery.rs): the assembler
      of pictures and its requests for missing chunks.
    - [RdQueue] (frame_queue.rs of the app): the queue before the decoder.
    - [RdRecovery] (ferryx-rd-host/src/transport_recovery.rs): the cache of sent chunks.
    - [RdSender], [RdSenderSpec] (ferryx-rd-host/src/session.rs, idr.rs): the host's sender thread.
    - [RdVideo], [RdStream] (video arms and receive path of ferryx-rd-app/src/session.rs): sender,
      cipher, network and assembler composed.
    - [RdRelay], [RdRelaySpec] (ferryx-rd-proto/src/relay.rs, ferryx-rd-relay/src/lib.rs): the relay
      server, its handlers interleaved at every touch of a shared table.  [RdCode] (relay.rs): the
      code a user pastes.
    - [RdAgent] (ferryx-rd-app/src/agent_input.rs, input.rs, agent_server.rs): a program's actions as
      input events, and the tracker that releases what it holds.
    - [RdServe] (session.rs of the host, ferryx-rd-net/src/tls_psk.rs): connections, permits and the
      lockout.  [RdGuest], [RdGuestSpec] (guests.rs, session.rs, udp_input.rs of the host): the store of
      pairings, the registry of guests, admission and permissions of a connection.  [RdRoutes]
      (udp_recovery.rs, session.rs): the UDP socket sessions share.  [RdInjector] (session.rs): the queue
      before the operating system.  A connection passes [RdServe], is admitted in [RdGuest], finds
      its client's datagrams through [RdRoutes] and hands input to [RdInjector].
    - [RdClipboard] (ferryx-rd-app/src/clipboard.rs, ferryx-rd-host/src/clipboard_image.rs): shared text and
      images.

    The terminal output, in src-tauri/src/terminal:
    - [VtStream] (vt_stream.rs): the splitter of output into whole sequences, text and images.
    - [Retained] (vt_state.rs, retained_history.rs): the history of these units under budgets, and the
      recorder of what evicted output set.
    - [OutputHub] (output_hub.rs): the ring of numbered output, replay after a number in pieces of one
      size, gaps, resizes, and the state handed to a successor.  Publishing feeds ring and history; a
      client that missed little is served from the ring, a new one from the history.
    - [OutputHubSpec] (ring, replay, successor), [RetainedSpec] (bounds), [RecorderSpec] (evicted state),
      [ReplaySpec] (order of a replay): the theorems.
    - [MachineOutput], [MachineSpec] (machine_output.rs): the bounded channel to a paired machine, beside
      the hub that publishes into it.

    ** Conventions

    State is explicit: a method [fn f(&mut self, a) -> r] is a function from [a] and
    the state to the new state and [r]; effects a method appends to a vector are
    in the result.  A Rust panic (a failed assertion, a slice out of range, an
    [unwrap] of nothing) is [None], and theorems that a handler returns prove it
    does not happen.  Integers are [Z] within their width; release builds do not
    check overflow, so additions and subtractions on them are [add64] and [sub64],
    which wrap.  Strings are their UTF-8 bytes (characters in [RdAgent]), UUIDs and digests
    lists of 16 bytes, 32-bit floats their bits, computed with the Standard Library's [SpecFloat].
    Code outside the sources is a parameter: [xxh3_128], [crc32c], HKDF, AES-GCM, HMAC, JSON
    and the text of a UUID, libghostty-vt, the order in which a hash set is drained; what
    the operating system, sockets and clocks answer is an environment ([Env], or the choices of
    a step relation).  Where a theorem relies on one of them, what it relies on is a named
    hypothesis ([tracked_ok] of the terminal library, the laws of the cipher, that draining a
    set gives all of it), shown to hold for a concrete instance by the theorem's witness.
    Atomics, locks and tasks appear where interleavings matter: [Outbox.step] interleaves the
    atomic actions of pushes and the writer, [Host] has one function per lock section,
    [RdRelaySpec.step], [RdGuestSpec.step], [RdServe.serve_step] and [RdInjector.injector_step]
    interleave the handlers of connections, [MachineOutput.world_step] publisher and client.

    ** Theorems

    - Protocol: [frame_roundtrip], [message_roundtrip], [decode_frame_sound],
      [decode_payload_sound]: encoding and decoding are inverse, and nothing else
      is accepted.  [conn_chunking_independent], [conn_delivers_frames],
      [conn_handshake_first]: the receive loop gives the frames that were sent,
      however they arrive, and nothing before the handshake.
    - Replication (G2): [terminal_mirrors_library], [terminal_delta_exact],
      [terminal_state_encodable] on the terminal; [diff_apply], [merge_apply],
      [evict_to_limit_fits] on states; [subscription_replicates], [subscription_bounded],
      [reservations_accounted] on the subscriber; [client_state_authentic],
      [snapshot_reassembled], [assembly_bounded] on the client; [session_replicates] composes them
      for the whole session, with [session_subscribers_bounded] and [session_flush_scheduled].
    - Input (G3): [input_delivery], [acked_write_in_stream], [write_retry_idempotent],
      [acquire_displaces], [input_ledger_bounded], [dead_reports_dropped] on the host;
      [author_conserves_input], [author_writes_consistent] on the client.
    - Leases of the size: [resize_applied_monotone], [displaced_resize_refused];
      [pane_lease_safe], [pane_size_sent], [pane_no_work_lost],
      [pane_resize_seq_increasing].
    - Host: [operation_at_most_once], [spawn_idempotent], [kill_idempotent],
      [host_invariant], [reservations_routed], [budget_invariant], [outbox_fifo],
      [outbox_release_reported], [outbox_bytes_exact], [compress_timer_single].
    - Remote desktop, wire: [control_wire_exact], [framing_delivers], [framing_reports_invalid],
      [fec_recovers_exactly], [fec_burst_repaired].
    - Pictures: [video_over_udp] (the whole path from encoder to decoder), from [udp_delivery],
      [assembler_exact], [assembler_completes], [assembler_bounded], [sender_sends_frame],
      [host_chain_intact], [queue_decodable], [queue_bounded], [retry_authentic], [retry_bounded].
    - Input of the remote desktop: [send_inputs_complete], [input_motion_exact]; of agents
      [agent_nothing_stuck], [agent_action_bounded].
    - Guests: [bootstrap_guesses_bounded] (guesses of the PIN), [guest_admitted] (who is let in),
      [guest_input_permitted], [guest_nothing_held], [permissions_take_effect] (what they may do),
      [routes_isolated] (datagrams), [injector_faithful], [echo_latest] (input in order, and the
      picture that shows it), [image_roundtrip], [image_authentic], [clipboard_no_echo].
    - Relay: [relay_isolation], [relay_admission], [relay_carries], [relay_token_exact],
      [relay_code_exact], [connect_rate_limited].
    - Terminal output: [replay_exact] (a client that comes back), [new_client_in_order] (one that starts
      from nothing), [prelude_restores] (what evicted output set), [segments_agree] (pieces of one size
      by two definitions), [handover_exact] (the successor), [session_bounded] (memory),
      [machine_stream] (a paired machine, in every interleaving).
    - Where the code departs from its design: [concurrent_spawn_runs_twice] (two connections
      execute one operation between the lock sections of [spawn]), [write_ignores_dead] (input
      accepted after the terminal's write end failed), [queue_forgets_request] and
      [queue_breaks_chain] (a key frame request lost, a frame decoded after a gap),
      [stale_host_drops_successor] and [session_limit_race] (handlers of the relay in each
      other's way), [agent_stuck_key] and [agent_loses_minus], [revoked_guest_becomes_owner] and
      [permissions_missed] (two accesses of the store, or of store and registry, with a change
      between them), [lockout_overrun] (handshakes under way are not counted), [output_lost_silently]
      (output missed without a gap), [cut_sequence_joins] (a sequence cut short by an image) and
      [machine_undercharged] (a replay larger than its charge).

    ** Bounds and fuel

    Loops over a list are structural.  Other loops use fuel: [Author.send_loop] runs
    [SEND_WINDOW / CHUNK + 1] rounds, enough because every round but the last sends a
    whole chunk of the window ([author_inflight_bounded]); [Conn.rounds] and [RdFraming.push_loop]
    run once per buffered byte, enough because every round drops a header ([rounds_fuel],
    [push_loop_fuel]); [Host.route_loop] runs once per grant or queued request, enough because each
    round uses one up ([route_loop_spec]); [RdInput.send_loop] runs once per event, and
    [RdSender.drain] once per packet of the frame and one more, which [send_inputs_complete]
    and [sender_sends_frame] show to be enough; the loops of [Utf8] and [Terminal.trim_loop]
    run once per byte or row, [Retained.sgr_fields] once per field and [OutputHub.scan_modes]
    once per byte.  Theorems on runs that count (request ids, revisions, epochs) bound the
    number of calls by the 64-bit range, which is where the code's counters would wrap.

    ** Not modelled

    Sockets, processes and signals of the operating system; the C library libghostty-vt; of the
    remote desktop: capture, encoders and decoders, sound, the cursor, bitrate control on [f64],
    the TLS handshake, HTTP and user interfaces; of the terminal output: the mirrored screen, program
    status, exit codes, channels and the table of sessions; the hub, the browser engine, the rest of
    the desktop application and the mobile clients.  They are mostly glue to the system, a database or a
    toolkit, or compute in [f64], where a faithful model would be one of that code.

    ** This file

    Shared definitions: machine integers, bytes, results, ordered maps, and the
    tactics and hint databases of the development. *)

From Stdlib Require Import ZArith Lia Strings.Byte.
From stdpp Require Import base gmap list sorting strings relations.

#[local] Open Scope Z_scope.

(** ** Results (Rust's [Result]) *)

Inductive Result (A E : Type) : Type :=
| Ok (a : A)
| Err (e : E).
Arguments Ok {A E} a.
Arguments Err {A E} e.

(** ** Machine integers

    A Rust [uN] is a [Z] in [0, 2^N).  [usize] is 64 bits wide.  Release
    builds of the workspace do not set [overflow-checks], so [+] and [-] wrap. *)

Definition u8_max : Z := 2 ^ 8 - 1.
Definition u16_max : Z := 2 ^ 16 - 1.
Definition u32_max : Z := 2 ^ 32 - 1.
Definition u64_max : Z := 2 ^ 64 - 1.

Definition in_range (lo hi z : Z) : bool := (lo <=? z) && (z <=? hi).
Definition is_u8 (z : Z) : bool := in_range 0 u8_max z.
Definition is_u16 (z : Z) : bool := in_range 0 u16_max z.
Definition is_u32 (z : Z) : bool := in_range 0 u32_max z.
Definition is_u64 (z : Z) : bool := in_range 0 u64_max z.
Definition is_i32 (z : Z) : bool := in_range (- 2 ^ 31) (2 ^ 31 - 1) z.

Definition wrap64 (z : Z) : Z := z mod 2 ^ 64.
Definition add64 (a b : Z) : Z := wrap64 (a + b).
Definition sub64 (a b : Z) : Z := wrap64 (a - b).
Definition mul64 (a b : Z) : Z := wrap64 (a * b).
(** [saturating_sub] and [checked_add]. *)
Definition sat_sub (a b : Z) : Z := Z.max 0 (a - b).
Definition checked_add64 (a b : Z) : option Z :=
  if a + b <=? u64_max then Some (a + b) else None.

(** [Vec::len] as an integer. *)
Definition zlen {A} (l : list A) : Z := Z.of_nat (length l).

(** ** Bytes *)

#[global] Instance byte_eq_dec : EqDecision byte := Byte.byte_eq_dec.
#[global] Program Instance byte_countable : Countable byte :=
  inj_countable Byte.to_N Byte.of_N _.
Next Obligation. intros x. apply Byte.of_to_N. Qed.

Definition bz (b : byte) : Z := Z.of_N (Byte.to_N b).
Definition zb (z : Z) : byte :=
  match Byte.of_N (Z.to_N (z mod 256)) with Some b => b | None => x00 end.

(** ** Ordered maps

    A Rust [BTreeMap<K, V>] is a [gmap K V] and a [BTreeSet<K>] a [gset K];
    where the program iterates, the entries come in ascending key order.  The
    order of a key type is an instance of [KeyOrd]. *)

Class KeyOrd (K : Type) `{Countable K} := {
  kle : relation K;
  kle_dec :: RelDecision kle;
  kle_trans :: Transitive kle;
  kle_total :: Total kle;
  kle_antisymm :: AntiSymm (=) kle;
}.

Section btree.
Context {K V : Type} `{KeyOrd K}.

(** [BTreeSet::iter] and [BTreeSet::first]. *)
Definition bs_iter (s : gset K) : list K := merge_sort kle (elements s).
Definition bs_first (s : gset K) : option K := head (bs_iter s).

(** [BTreeMap::keys], [BTreeMap::iter] and [BTreeMap::values]. *)
Definition bt_keys (m : gmap K V) : list K := bs_iter (dom m).
Definition bt_iter (m : gmap K V) : list (K * V) :=
  omap (λ k, pair k <$> m !! k) (bt_keys m).
Definition bt_values (m : gmap K V) : list V := snd <$> bt_iter m.
End btree.

(** [BTreeMap::retain]. *)
Definition bt_retain `{Countable K} {V} (f : K → V → bool) (m : gmap K V) : gmap K V :=
  filter (λ kv, f kv.1 kv.2 = true) m.

(** [u64] keys, pairs of them, and byte arrays (lexicographic). *)

#[global] Instance Z_keyord : KeyOrd Z := { kle := Z.le }.

Definition lex2 (a b : Z * Z) : Prop := a.1 < b.1 ∨ a.1 = b.1 ∧ a.2 <= b.2.
#[global] Program Instance ZZ_keyord : KeyOrd (Z * Z) := { kle := lex2 }.
Next Obligation. intros a b; unfold lex2; apply _. Defined.
Next Obligation. intros [] [] []; unfold lex2; simpl; lia. Qed.
Next Obligation. intros [] []; unfold lex2; simpl; lia. Qed.
Next Obligation. intros [] []; unfold lex2; simpl; intros; f_equal; lia. Qed.

Fixpoint bytes_leb (a b : list byte) : bool :=
  match a, b with
  | [], _ => true
  | _ :: _, [] => false
  | x :: a', y :: b' => (bz x <? bz y) || ((bz x =? bz y) && bytes_leb a' b')
  end.

(** ** Lemmas: bytes *)

Lemma bz_range b : 0 <= bz b < 256.
Proof. unfold bz. pose proof (Byte.to_N_bounded b). lia. Qed.

Lemma zb_bz b : zb (bz b) = b.
Proof.
  unfold zb. rewrite Z.mod_small by apply bz_range.
  unfold bz. by rewrite N2Z.id, Byte.of_to_N.
Qed.

Lemma bz_zb z : bz (zb z) = z mod 256.
Proof.
  unfold zb, bz. pose proof (Z.mod_pos_bound z 256 ltac:(lia)) as Hr.
  destruct (Byte.of_N _) as [b|] eqn:E.
  - apply Byte.to_of_N in E. rewrite E. lia.
  - apply Byte.of_N_None_iff in E. lia.
Qed.

Lemma bz_inj a b : bz a = bz b → a = b.
Proof. intros E. by rewrite <- (zb_bz a), E, zb_bz. Qed.

Lemma bytes_leb_total a b : bytes_leb a b = true ∨ bytes_leb b a = true.
Proof.
  revert b. induction a as [|x a IH]; intros [|y b]; simpl; auto.
  destruct (IH b) as [->| ->]; lia.
Qed.

Lemma bytes_leb_trans a b c : bytes_leb a b = true → bytes_leb b c = true → bytes_leb a c = true.
Proof.
  revert b c. induction a as [|x a IH]; intros [|y b] [|z c]; simpl; try done.
  specialize (IH b c). destruct (bytes_leb a b), (bytes_leb b c), (bytes_leb a c);
    simpl in *; intros; try lia; specialize (IH eq_refl eq_refl); done.
Qed.

Lemma bytes_leb_antisymm a b : bytes_leb a b = true → bytes_leb b a = true → a = b.
Proof.
  revert b. induction a as [|x a IH]; intros [|y b]; simpl; try done.
  intros H1 H2. assert (bz x = bz y) as E by lia.
  f_equal; [by apply bz_inj|].
  apply IH; [destruct (bytes_leb a b)|destruct (bytes_leb b a)]; simpl in *; lia.
Qed.

#[global] Program Instance bytes_keyord : KeyOrd (list byte) :=
  { kle a b := bytes_leb a b = true }.
Next Obligation. intros a b; apply bool_eq_dec. Defined.
Next Obligation. intros a b c; apply bytes_leb_trans. Qed.
Next Obligation. intros a b; apply bytes_leb_total. Qed.
Next Obligation. intros a b; apply bytes_leb_antisymm. Qed.

(** ** Lemmas: machine integers *)

Lemma in_range_iff lo hi z : in_range lo hi z = true ↔ lo <= z <= hi.
Proof. unfold in_range. lia. Qed.

Lemma wrap64_id z : 0 <= z <= u64_max → wrap64 z = z.
Proof. unfold wrap64, u64_max. intros. apply Z.mod_small. lia. Qed.

Lemma add64_id a b : 0 <= a + b <= u64_max → add64 a b = a + b.
Proof. apply wrap64_id. Qed.

Lemma sub64_id a b : 0 <= a - b <= u64_max → sub64 a b = a - b.
Proof. apply wrap64_id. Qed.

Lemma mul64_id a b : 0 <= a * b <= u64_max → mul64 a b = a * b.
Proof. apply wrap64_id. Qed.

Lemma wrap64_range z : 0 <= wrap64 z <= u64_max.
Proof. unfold wrap64, u64_max. pose proof (Z.mod_pos_bound z (2^64) ltac:(lia)). lia. Qed.

(** ** Lemmas: lists *)

Section lists.
Context {A : Type}.
Implicit Types l : list A.

Lemma zlen_nonneg l : 0 <= zlen l.
Proof. unfold zlen. lia. Qed.

Lemma zlen_nil : zlen (@nil A) = 0.
Proof. done. Qed.

Lemma zlen_cons x l : zlen (x :: l) = 1 + zlen l.
Proof. unfold zlen. simpl. lia. Qed.

Lemma zlen_app l k : zlen (l ++ k) = zlen l + zlen k.
Proof. unfold zlen. rewrite length_app. lia. Qed.

Lemma zlen_take n l : 0 <= n <= zlen l → zlen (take (Z.to_nat n) l) = n.
Proof. unfold zlen. rewrite length_take. lia. Qed.

Lemma zlen_drop n l : 0 <= n <= zlen l → zlen (drop (Z.to_nat n) l) = zlen l - n.
Proof. unfold zlen. rewrite length_drop. lia. Qed.

Lemma zlen_0_inv l : zlen l = 0 → l = [].
Proof. destruct l; [done|]. rewrite zlen_cons. pose proof (zlen_nonneg l). lia. Qed.

Lemma take_app_zlen l k : take (Z.to_nat (zlen l)) (l ++ k) = l.
Proof. unfold zlen. rewrite Nat2Z.id. apply take_app_length. Qed.

Lemma drop_app_zlen l k : drop (Z.to_nat (zlen l)) (l ++ k) = k.
Proof. unfold zlen. rewrite Nat2Z.id. apply drop_app_length. Qed.
End lists.

(** ** Lemmas: ordered maps *)

Section btree_lemmas.
Context {K V : Type} `{KeyOrd K}.
Implicit Types (m : gmap K V) (s : gset K).

Lemma elem_of_bs_iter k s : k ∈ bs_iter s ↔ k ∈ s.
Proof. unfold bs_iter. by rewrite merge_sort_Permutation, elem_of_elements. Qed.

Lemma NoDup_bs_iter s : NoDup (bs_iter s).
Proof. unfold bs_iter. rewrite merge_sort_Permutation. apply NoDup_elements. Qed.

Lemma bs_iter_sorted s : StronglySorted kle (bs_iter s).
Proof. apply StronglySorted_merge_sort; apply _. Qed.

(** The iteration order is determined by the elements. *)
Lemma bs_iter_unique s (l : list K) :
  StronglySorted kle l → NoDup l → (∀ k, k ∈ l ↔ k ∈ s) → bs_iter s = l.
Proof.
  intros Hs Hnd Hin. apply (StronglySorted_unique kle); [apply bs_iter_sorted|done|].
  apply NoDup_Permutation; [apply NoDup_bs_iter|done|].
  intros k. by rewrite elem_of_bs_iter, Hin.
Qed.

Lemma bs_first_None s : bs_first s = None ↔ s = ∅.
Proof.
  unfold bs_first. destruct (bs_iter s) as [|k l] eqn:E; simpl; split; try done.
  - intros _. apply set_eq. intros k. rewrite <- elem_of_bs_iter, E. set_solver.
  - intros ->. assert (k ∈ (∅ : gset K)) by (apply elem_of_bs_iter; rewrite E; set_solver).
    set_solver.
Qed.

Lemma bs_first_Some s k : bs_first s = Some k → k ∈ s.
Proof.
  unfold bs_first. intros E. apply elem_of_bs_iter.
  destruct (bs_iter s); simplify_eq/=. set_solver.
Qed.

Lemma elem_of_bt_keys k m : k ∈ bt_keys m ↔ is_Some (m !! k).
Proof. unfold bt_keys. by rewrite elem_of_bs_iter, elem_of_dom. Qed.

Lemma elem_of_bt_iter k v m : (k, v) ∈ bt_iter m ↔ m !! k = Some v.
Proof.
  unfold bt_iter. rewrite list_elem_of_omap. split.
  - intros (k' & _ & E). destruct (m !! k') eqn:E'; simplify_eq/=. done.
  - intros E. exists k. rewrite elem_of_bt_keys, E. eauto.
Qed.

Lemma bt_iter_keys m : (bt_iter m).*1 = bt_keys m.
Proof.
  unfold bt_iter. assert (∀ k, k ∈ bt_keys m → is_Some (m !! k)) as Hk
    by (intros k; by rewrite elem_of_bt_keys).
  induction (bt_keys m) as [|k l IH]; [done|]. simpl.
  destruct (Hk k) as [v Hv]; [set_solver|]. rewrite Hv. simpl.
  f_equal. apply IH. set_solver.
Qed.

Lemma NoDup_bt_iter m : NoDup (bt_iter m).
Proof. apply (NoDup_fmap_1 fst). rewrite bt_iter_keys. apply NoDup_bs_iter. Qed.

(** The entries of a map, listed in ascending key order, are determined. *)
Lemma bt_iter_unique m (l : list (K * V)) :
  StronglySorted kle l.*1 → NoDup l.*1 → (∀ k v, (k, v) ∈ l ↔ m !! k = Some v) → bt_iter m = l.
Proof.
  intros Hs Hnd Hin. unfold bt_iter, bt_keys. rewrite (bs_iter_unique _ l.*1 Hs Hnd).
  - assert (∀ k v, (k, v) ∈ l → m !! k = Some v) as Hl by (intros; by apply Hin).
    clear Hs Hnd Hin. induction l as [|[k v] l IH]; [done|]. cbn. rewrite (Hl k v) by set_solver.
    cbn. f_equal. apply IH. intros. apply Hl. set_solver.
  - intros k. rewrite elem_of_dom, list_elem_of_fmap. split.
    + intros ([k' v] & -> & H'). exists v. by apply Hin.
    + intros [v Hv]. exists (k, v). split; [done|]. by apply Hin.
Qed.

Lemma lookup_bt_retain f m k :
  bt_retain f m !! k = m !! k ≫= λ v, if f k v then Some v else None.
Proof.
  unfold bt_retain. destruct (m !! k) as [v|] eqn:E; simpl.
  - destruct (f k v) eqn:Ef.
    + by apply map_lookup_filter_Some.
    + apply map_lookup_filter_None. right. intros v' ?. simplify_eq/=. congruence.
  - apply map_lookup_filter_None. auto.
Qed.

Lemma bt_retain_Some f m k v :
  bt_retain f m !! k = Some v ↔ m !! k = Some v ∧ f k v = true.
Proof.
  rewrite lookup_bt_retain. destruct (m !! k) as [w|]; simpl; [|split; [done|by intros [? _]]].
  destruct (f k w) eqn:E; split;
    [by intros [= ->] | by intros [[= ->] _] | done | intros [[= ->] ?]; congruence].
Qed.
End btree_lemmas.

(** ** Lemmas: sums *)

Definition zsum (l : list Z) : Z := foldr Z.add 0 l.
#[global] Instance zsum_proper : Proper ((≡ₚ) ==> (=)) zsum.
Proof. intros l1 l2 H. unfold zsum. apply (foldr_permutation_proper (=) Z.add 0); [intros; lia|done]. Qed.
Lemma zsum_app l k : zsum (l ++ k) = zsum l + zsum k.
Proof. unfold zsum. induction l as [|x l IH]; cbn; lia. Qed.
Lemma zsum_nonneg l : Forall (λ x, 0 <= x) l → 0 <= zsum l.
Proof. unfold zsum. induction 1 as [|x l H _ IH]; cbn; lia. Qed.

(** ** Lemmas: step relations *)

Lemma rtc_keeps {S : Type} (I : S → Prop) (R : S → S → Prop) (x y : S) :
  (∀ a b, I a → R a b → I b) → rtc R x y → I x → I y.
Proof. intros HR Hr. induction Hr as [|a b c Hab _ IH]; [done|]. intros Ha. apply IH. by eapply HR. Qed.

(** ** Automation *)

(** Replace wrapping operations by exact ones where [lia] sees no overflow. *)
Ltac nowrap := rewrite ?add64_id, ?sub64_id, ?mul64_id by (unfold u64_max in *; first [lia | nia]).

Create Rewrite HintDb zl.
#[export] Hint Rewrite @zlen_nil @zlen_cons @zlen_app : zl.

(** Turn boolean hypotheses and goals into propositions. *)
Ltac bool_hyps :=
  repeat match goal with
  | H : (_ && _) = true |- _ => apply andb_true_iff in H as [? ?]
  | H : (_ || _) = false |- _ => apply orb_false_iff in H as [? ?]
  | H : negb _ = true |- _ => apply negb_true_iff in H
  | H : negb _ = false |- _ => apply negb_false_iff in H
  | H : bool_decide _ = true |- _ => apply bool_decide_eq_true in H
  | H : bool_decide _ = false |- _ => apply bool_decide_eq_false in H
  | H : in_range _ _ _ = true |- _ => apply in_range_iff in H
  end.
