(* ===== verification/Wire.v ===== *)
(** * Wire (crates/fxsh/src/wire.rs)

    The reader and writer primitives of the FXSH wire format and the codecs of
    the primitive and generic types.  A [Reader] is the unread suffix
    [buf[pos..]] of its buffer.  A [Codec] packs [Codec::enc], [Codec::dec] and
    the set [wf] of values that the Rust type can hold and the decoder's check
    accepts; [CodecOk] states that decoding inverts encoding and that a decoder
    accepts only canonical encodings. *)

From S2P Require Import Prelude.
From Stdlib Require Import ZArith Lia Strings.Byte.
From stdpp Require Import base list.

#[local] Open Scope Z_scope.

(** ** [Reason] and [DResult] *)

Inductive Reason : Type :=
| BadBool | BadUtf8 | OptCondition | BadEnum | BadTag | Truncated
| ChunkInconsistent | BadOrder | BadShape.

#[global] Instance Reason_eq_dec : EqDecision Reason.
Proof. solve_decision. Defined.

Definition Reason_to_u8 (r : Reason) : Z :=
  match r with
  | BadBool => 1 | BadUtf8 => 2 | OptCondition => 3 | BadEnum => 4 | BadTag => 5
  | Truncated => 6 | ChunkInconsistent => 7 | BadOrder => 8 | BadShape => 9
  end.

Definition Reason_from_u8 (v : Z) : option Reason :=
  match v with
  | 1 => Some BadBool | 2 => Some BadUtf8 | 3 => Some OptCondition
  | 4 => Some BadEnum | 5 => Some BadTag | 6 => Some Truncated
  | 7 => Some ChunkInconsistent | 8 => Some BadOrder | 9 => Some BadShape
  | _ => None
  end.

Definition DResult (T : Type) : Type := Result T Reason.

(** ** [Reader] *)

Definition Reader : Type := list byte.
Definition Rd (T : Type) : Type := Reader → DResult (T * Reader).

#[global] Instance Rd_ret : MRet Rd := λ T x r, Ok (x, r).
#[global] Instance Rd_bind : MBind Rd := λ T U k m r,
  match m r with
  | Ok (x, r') => k x r'
  | Err e => Err e
  end.
Definition rd_fail {T} (e : Reason) : Rd T := λ _, Err e.
(** [check(&v)?; Ok(v)], the end of a [record!] decoder *)
Definition rd_checked {T} (check : T → DResult unit) (v : T) : Rd T := λ r,
  match check v with Ok _ => Ok (v, r) | Err e => Err e end.

Definition remaining (r : Reader) : Z := zlen r.

Definition rd_take (n : Z) : Rd (list byte) := λ r,
  if remaining r <? n then Err Truncated
  else Ok (take (Z.to_nat n) r, drop (Z.to_nat n) r).

Definition rd_array (n : nat) : Rd (list byte) := rd_take (Z.of_nat n).

(** [from_be_bytes] and [to_be_bytes]. *)
Definition from_be (l : list byte) : Z := foldl (λ acc b, acc * 256 + bz b) 0 l.
Fixpoint to_be (n : nat) (v : Z) : list byte :=
  match n with
  | O => []
  | S n' => zb (v / 256 ^ Z.of_nat n') :: to_be n' v
  end.

Definition rd_uint (n : nat) : Rd Z := l ← rd_array n; mret (from_be l).
Definition rd_u8 : Rd Z := rd_uint 1.
Definition rd_u16 : Rd Z := rd_uint 2.
Definition rd_u32 : Rd Z := rd_uint 4.
Definition rd_u64 : Rd Z := rd_uint 8.
(** Two's complement. *)
Definition rd_i32 : Rd Z :=
  u ← rd_uint 4; mret (if u <? 2 ^ 31 then u else u - 2 ^ 32).

Definition rd_bool : Rd bool :=
  v ← rd_u8;
  match v with
  | 0 => mret false
  | 1 => mret true
  | _ => rd_fail BadBool
  end.

Definition rd_len_prefixed : Rd (list byte) := n ← rd_u32; rd_take n.

(** [std::str::from_utf8]: the well-formed byte sequences of the Unicode
    standard (no overlong forms, no surrogates, at most U+10FFFF). *)
Definition cont (b : byte) : bool := in_range 128 191 (bz b).
Fixpoint utf8_valid (l : list byte) : bool :=
  match l with
  | [] => true
  | a :: l1 =>
      let x := bz a in
      if x <? 128 then utf8_valid l1 else
      match l1 with
      | [] => false
      | b :: l2 =>
          if in_range 194 223 x then cont b && utf8_valid l2 else
          match l2 with
          | [] => false
          | c :: l3 =>
              if in_range 224 239 x then
                (if x =? 224 then in_range 160 191 (bz b)
                 else if x =? 237 then in_range 128 159 (bz b)
                 else cont b) && cont c && utf8_valid l3
              else
              match l3 with
              | [] => false
              | d :: l4 =>
                  if in_range 240 244 x then
                    (if x =? 240 then in_range 144 191 (bz b)
                     else if x =? 244 then in_range 128 143 (bz b)
                     else cont b) && cont c && cont d && utf8_valid l4
                  else false
              end
          end
      end
  end.

(** A [String] is its UTF-8 bytes. *)
Definition rd_string : Rd (list byte) :=
  raw ← rd_len_prefixed;
  if utf8_valid raw then mret raw else rd_fail BadUtf8.

Definition rd_uuid : Rd (list byte) := rd_array 16.

Definition rd_opt {T} (f : Rd T) : Rd (option T) :=
  v ← rd_u8;
  match v with
  | 0 => mret None
  | 1 => x ← f; mret (Some x)
  | _ => rd_fail BadTag
  end.

Fixpoint rd_repeat {T} (n : nat) (f : Rd T) : Rd (list T) :=
  match n with
  | O => mret []
  | S n' => x ← f; xs ← rd_repeat n' f; mret (x :: xs)
  end.
Definition rd_list {T} (f : Rd T) : Rd (list T) :=
  n ← rd_u32; rd_repeat (Z.to_nat n) f.

(** ** [Put] *)

Definition put_u8 (v : Z) : list byte := to_be 1 v.
Definition put_u16 (v : Z) : list byte := to_be 2 v.
Definition put_u32 (v : Z) : list byte := to_be 4 v.
Definition put_u64 (v : Z) : list byte := to_be 8 v.
Definition put_i32 (v : Z) : list byte := to_be 4 (v mod 2 ^ 32).
Definition put_bool (v : bool) : list byte := put_u8 (if v then 1 else 0).
Definition put_raw (v : list byte) : list byte := v.
Definition put_len_prefixed (v : list byte) : list byte := put_u32 (zlen v) ++ v.

(** Byte-string types: [Uuid], [Digest], [Bytes] and [String]. *)
Abbreviation Uuid := (list byte) (only parsing).
Abbreviation Digest := (list byte) (only parsing).
Abbreviation Bytes := (list byte) (only parsing).
Abbreviation String := (list byte) (only parsing).

(** ** [Codec] *)

Record Codec (A : Type) := {
  enc : A → list byte;
  dec : Rd A;
  wf : A → bool;
}.
Arguments enc {A} c x.
Arguments dec {A} c.
Arguments wf {A} c x.

Class CodecOk {A} (c : Codec A) : Prop := {
  dec_enc x k : wf c x = true → dec c (enc c x ++ k) = Ok (x, k);
  enc_dec b x k : dec c b = Ok (x, k) → wf c x = true ∧ b = enc c x ++ k;
}.

Definition c_u8 : Codec Z := {| enc := put_u8; dec := rd_u8; wf := is_u8 |}.
Definition c_u16 : Codec Z := {| enc := put_u16; dec := rd_u16; wf := is_u16 |}.
Definition c_u32 : Codec Z := {| enc := put_u32; dec := rd_u32; wf := is_u32 |}.
Definition c_u64 : Codec Z := {| enc := put_u64; dec := rd_u64; wf := is_u64 |}.
Definition c_i32 : Codec Z := {| enc := put_i32; dec := rd_i32; wf := is_i32 |}.
Definition c_bool : Codec bool := {| enc := put_bool; dec := rd_bool; wf := λ _, true |}.

Definition fits_u32 {A} (l : list A) : bool := zlen l <=? u32_max.

Definition c_string : Codec (list byte) :=
  {| enc := put_len_prefixed; dec := rd_string; wf s := fits_u32 s && utf8_valid s |}.
Definition c_uuid : Codec (list byte) :=
  {| enc := put_raw; dec := rd_uuid; wf u := zlen u =? 16 |}.
Definition c_bytes : Codec (list byte) :=
  {| enc := put_len_prefixed; dec := rd_len_prefixed; wf := fits_u32 |}.
Definition c_digest : Codec (list byte) :=
  {| enc := put_raw; dec := rd_array 16; wf d := zlen d =? 16 |}.

Definition c_option {A} (c : Codec A) : Codec (option A) := {|
  enc o := match o with None => put_u8 0 | Some v => put_u8 1 ++ enc c v end;
  dec := rd_opt (dec c);
  wf o := match o with None => true | Some v => wf c v end;
|}.

Definition c_vec {A} (c : Codec A) : Codec (list A) := {|
  enc l := put_u32 (zlen l) ++ concat (enc c <$> l);
  dec := rd_list (dec c);
  wf l := fits_u32 l && forallb (wf c) l;
|}.

Definition c_pair {A B} (ca : Codec A) (cb : Codec B) : Codec (A * B) := {|
  enc p := enc ca p.1 ++ enc cb p.2;
  dec := a ← dec ca; b ← dec cb; mret (a, b);
  wf p := wf ca p.1 && wf cb p.2;
|}.

(** The [u8_enum!] macro: a field-less enum through its discriminant. *)
Definition c_enum {A} (to_u8 : A → Z) (from_u8 : Z → option A) : Codec A := {|
  enc v := put_u8 (to_u8 v);
  dec := v ← rd_u8; match from_u8 v with Some x => mret x | None => rd_fail BadEnum end;
  wf _ := true;
|}.

Definition c_reason : Codec Reason := c_enum Reason_to_u8 Reason_from_u8.

(** Sequencing of checks with [?]. *)
Definition dr_and (a b : DResult unit) : DResult unit :=
  match a with Ok _ => b | Err e => Err e end.
Definition dr_if (bad : bool) (e : Reason) : DResult unit := if bad then Err e else Ok tt.

(** [strictly_ascending]: adjacent keys, left to right. *)
Fixpoint strictly_ascending {T} (key : T → Z) (items : list T) : DResult unit :=
  match items with
  | [] => Ok tt
  | a :: rest =>
      match rest with
      | [] => Ok tt
      | b :: _ => if key b <=? key a then Err BadOrder else strictly_ascending key rest
      end
  end.

(** ** Lemmas: the reader monad *)

Lemma rd_bind_ok {T U} (m : Rd T) (k : T → Rd U) r x r' :
  m r = Ok (x, r') → (m ≫= k) r = k x r'.
Proof. intros E. unfold mbind, Rd_bind. by rewrite E. Qed.

Lemma rd_bind_inv {T U} (m : Rd T) (k : T → Rd U) r y r' :
  (m ≫= k) r = Ok (y, r') → ∃ x r1, m r = Ok (x, r1) ∧ k x r1 = Ok (y, r').
Proof. unfold mbind, Rd_bind. destruct (m r) as [[x r1]|]; [eauto|done]. Qed.

Lemma rd_take_app l k : rd_take (zlen l) (l ++ k) = Ok (l, k).
Proof.
  unfold rd_take, remaining. pose proof (zlen_nonneg k). autorewrite with zl.
  destruct (Z.ltb_spec (zlen l + zlen k) (zlen l)); [lia|].
  by rewrite take_app_zlen, drop_app_zlen.
Qed.

Lemma rd_take_inv n r l k :
  rd_take n r = Ok (l, k) → r = l ++ k ∧ zlen l = Z.max 0 n.
Proof.
  unfold rd_take, remaining. destruct (Z.ltb_spec (zlen r) n); [done|].
  intros [= <- <-]. rewrite take_drop. split; [done|].
  destruct (Z.le_gt_cases 0 n).
  - rewrite zlen_take by lia. lia.
  - replace (Z.to_nat n) with O by lia. rewrite take_0, zlen_nil. lia.
Qed.

(** ** Lemmas: big-endian integers *)

Lemma length_to_be n v : length (to_be n v) = n.
Proof. induction n; simpl; auto. Qed.

Lemma zlen_to_be n v : zlen (to_be n v) = Z.of_nat n.
Proof. unfold zlen. by rewrite length_to_be. Qed.

Lemma foldl_be acc l :
  foldl (λ acc b, acc * 256 + bz b) acc l = acc * 256 ^ zlen l + from_be l.
Proof.
  unfold from_be. revert acc. induction l as [|b l IH]; intros acc; simpl.
  - rewrite zlen_nil. lia.
  - rewrite IH, (IH (0 * 256 + bz b)), zlen_cons, Z.pow_add_r by (pose proof (zlen_nonneg l); lia). lia.
Qed.

Lemma from_be_cons b l : from_be (b :: l) = bz b * 256 ^ zlen l + from_be l.
Proof. unfold from_be at 1. simpl. rewrite foldl_be. lia. Qed.

Lemma from_be_range l : 0 <= from_be l < 256 ^ zlen l.
Proof.
  induction l as [|b l IH]; [done|]. rewrite from_be_cons, zlen_cons.
  pose proof (zlen_nonneg l). pose proof (bz_range b). rewrite Z.pow_add_r by lia. nia.
Qed.

Lemma from_to_be n v : from_be (to_be n v) = v mod 256 ^ Z.of_nat n.
Proof.
  induction n as [|n IH]; simpl to_be.
  - change (from_be []) with 0. change (256 ^ Z.of_nat 0) with 1. by rewrite Z.mod_1_r.
  - rewrite from_be_cons, bz_zb, IH, zlen_to_be, Nat2Z.inj_succ, Z.pow_succ_r by lia.
    pose proof (Z.pow_pos_nonneg 256 (Z.of_nat n) ltac:(lia) ltac:(lia)).
    rewrite (Z.mul_comm 256), Z.rem_mul_r by lia. lia.
Qed.

Lemma to_from_be l : to_be (length l) (from_be l) = l.
Proof.
  induction l as [|b l IH]; [done|]. simpl to_be. fold (zlen l). rewrite from_be_cons.
  pose proof (from_be_range l). pose proof (bz_range b).
  rewrite Z.div_add_l, (Z.div_small (from_be l)), Z.add_0_r, zb_bz by lia. f_equal.
  etrans; [|exact IH]. clear IH.
  generalize (from_be l) as v. generalize (bz b) as c. intros c v.
  assert (∀ n v, (n <= length l)%nat → to_be n (c * 256 ^ zlen l + v) = to_be n v) as Hgen; [|by apply Hgen].
  clear. induction n as [|n IH]; intros v Hn; [done|]. simpl. rewrite IH by lia. f_equal.
  apply bz_inj. rewrite !bz_zb.
  replace (zlen l) with (1 + (zlen l - 1 - Z.of_nat n) + Z.of_nat n) by lia.
  unfold zlen in *. rewrite !Z.pow_add_r by lia.
  pose proof (Z.pow_pos_nonneg 256 (Z.of_nat n) ltac:(lia) ltac:(lia)).
  rewrite Z.mul_assoc, Z.div_add_l by lia.
  rewrite (Z.mul_comm (256 ^ 1)), Z.mul_assoc, Z.add_comm. by rewrite Z.mod_add.
Qed.

Lemma rd_uint_to_be n v k :
  0 <= v < 256 ^ Z.of_nat n → rd_uint n (to_be n v ++ k) = Ok (v, k).
Proof.
  intros Hv. unfold rd_uint, rd_array. rewrite <- (zlen_to_be n v) at 1.
  rewrite (rd_bind_ok _ _ _ _ _ (rd_take_app _ _)). unfold mret, Rd_ret.
  by rewrite from_to_be, Z.mod_small.
Qed.

Lemma rd_uint_inv n b v k :
  rd_uint n b = Ok (v, k) → 0 <= v < 256 ^ Z.of_nat n ∧ b = to_be n v ++ k.
Proof.
  unfold rd_uint, rd_array. intros (l & r1 & Ht & E)%rd_bind_inv.
  injection E as <- <-. apply rd_take_inv in Ht as [-> Hl].
  assert (zlen l = Z.of_nat n) as Hl' by lia. split.
  - rewrite <- Hl'. apply from_be_range.
  - f_equal. unfold zlen in Hl'. replace n with (length l) by lia. by rewrite to_from_be.
Qed.

(** ** Lemmas: codec laws *)

Ltac codec_split c := split; unfold c; cbn [enc dec wf].

Lemma dec_enc_bind {A T} (c : Codec A) `{!CodecOk c} (f : A → Rd T) x k :
  wf c x = true → (dec c ≫= f) (enc c x ++ k) = f x k.
Proof. intros. by apply rd_bind_ok, dec_enc. Qed.

Lemma dec_bind_inv {A T} (c : Codec A) `{!CodecOk c} (f : A → Rd T) b y k :
  (dec c ≫= f) b = Ok (y, k) →
  ∃ x r, wf c x = true ∧ b = enc c x ++ r ∧ f x r = Ok (y, k).
Proof.
  intros (x & r & Hd & Hf)%rd_bind_inv. apply enc_dec in Hd as [? ?]. eauto.
Qed.

Lemma rd_u8_put {T} (f : Z → Rd T) v k :
  is_u8 v = true → (rd_u8 ≫= f) (put_u8 v ++ k) = f v k.
Proof.
  intros Hv%in_range_iff. apply rd_bind_ok, rd_uint_to_be. unfold u8_max in *. lia.
Qed.

Lemma rd_u8_inv {T} (f : Z → Rd T) b y k :
  (rd_u8 ≫= f) b = Ok (y, k) →
  ∃ v r, is_u8 v = true ∧ b = put_u8 v ++ r ∧ f v r = Ok (y, k).
Proof.
  intros (v & r & Hd & Hf)%rd_bind_inv. apply rd_uint_inv in Hd as [? ->].
  exists v, r. split; [|done]. apply in_range_iff. unfold u8_max. lia.
Qed.

Lemma rd_checked_ok {T} (check : T → DResult unit) v r :
  check v = Ok tt → rd_checked check v r = Ok (v, r).
Proof. unfold rd_checked. by intros ->. Qed.

Lemma rd_checked_inv {T} (check : T → DResult unit) v r y k :
  rd_checked check v r = Ok (y, k) → check v = Ok tt ∧ y = v ∧ k = r.
Proof. unfold rd_checked. destruct (check v) as [[]|]; [by intros [= <- <-]|done]. Qed.

Definition is_ok {A E} (r : Result A E) : bool := match r with Ok _ => true | Err _ => false end.

Lemma is_ok_unit (c : DResult unit) : is_ok c = true ↔ c = Ok tt.
Proof. destruct c as [[]|]; done. Qed.

Lemma c_uint_ok n hi :
  hi = 256 ^ Z.of_nat n - 1 →
  CodecOk {| enc := to_be n; dec := rd_uint n; wf := in_range 0 hi |}.
Proof.
  intros ->. split; cbn [enc dec wf].
  - intros x k Hx%in_range_iff. apply rd_uint_to_be. lia.
  - intros b x k [? ->]%rd_uint_inv. split; [apply in_range_iff; lia|done].
Qed.

#[export] Instance c_u8_ok : CodecOk c_u8.
Proof. by apply (c_uint_ok 1). Qed.
#[export] Instance c_u16_ok : CodecOk c_u16.
Proof. by apply (c_uint_ok 2). Qed.
#[export] Instance c_u32_ok : CodecOk c_u32.
Proof. by apply (c_uint_ok 4). Qed.
#[export] Instance c_u64_ok : CodecOk c_u64.
Proof. by apply (c_uint_ok 8). Qed.

#[export] Instance c_i32_ok : CodecOk c_i32.
Proof.
  codec_split c_i32; unfold rd_i32, put_i32.
  - intros x k Hx%in_range_iff. pose proof (Z.mod_pos_bound x (2 ^ 32) ltac:(lia)).
    erewrite rd_bind_ok by (apply rd_uint_to_be; simpl Z.of_nat; lia).
    unfold mret, Rd_ret. do 2 f_equal.
    assert (x mod 2 ^ 32 = if x <? 0 then x + 2 ^ 32 else x) as ->.
    { symmetry. apply Z.mod_unique with (q := if x <? 0 then -1 else 0).
      - left. destruct (Z.ltb_spec x 0); lia.
      - destruct (Z.ltb_spec x 0); lia. }
    destruct (Z.ltb_spec x 0); [destruct (Z.ltb_spec (x + 2 ^ 32) (2 ^ 31))
                               |destruct (Z.ltb_spec x (2 ^ 31))]; lia.
  - intros b x k (u & r & Hu & E)%rd_bind_inv. injection E as <- <-.
    apply rd_uint_inv in Hu as [Hu ->]. change (256 ^ Z.of_nat 4) with (2 ^ 32) in Hu.
    unfold is_i32. rewrite in_range_iff. split.
    + destruct (Z.ltb_spec u (2 ^ 31)); lia.
    + do 2 f_equal. destruct (Z.ltb_spec u (2 ^ 31)).
      * by rewrite Z.mod_small.
      * apply Z.mod_unique with (q := -1); lia.
Qed.

#[export] Instance c_bool_ok : CodecOk c_bool.
Proof.
  codec_split c_bool; unfold rd_bool, put_bool.
  - intros [] k _; by rewrite rd_u8_put.
  - intros b x k (v & r & _ & -> & E)%rd_u8_inv. split; [done|].
    destruct v as [|[]|]; simplify_eq/=; try done; by injection E as <- <-.
Qed.

Lemma put_len_prefixed_fwd {T} (f : list byte → Rd T) v k :
  fits_u32 v = true → (rd_len_prefixed ≫= f) (put_len_prefixed v ++ k) = f v k.
Proof.
  unfold fits_u32. intros Hv%Z.leb_le. apply rd_bind_ok.
  unfold rd_len_prefixed, put_len_prefixed. rewrite <- app_assoc.
  erewrite rd_bind_ok by (apply rd_uint_to_be; unfold u32_max in *; pose proof (zlen_nonneg v); simpl; lia).
  apply rd_take_app.
Qed.

Lemma rd_len_prefixed_inv b v k :
  rd_len_prefixed b = Ok (v, k) → fits_u32 v = true ∧ b = put_len_prefixed v ++ k.
Proof.
  unfold rd_len_prefixed, put_len_prefixed, fits_u32.
  intros (n & r & Hn & Ht)%rd_bind_inv. apply rd_uint_inv in Hn as [Hn ->].
  apply rd_take_inv in Ht as [-> Hl]. simpl Z.of_nat in Hn. replace (Z.max 0 n) with n in Hl by lia.
  rewrite Hl, <- app_assoc. unfold u32_max. split; [lia|done].
Qed.

Lemma rd_bind_mret {T} (m : Rd T) r : (m ≫= mret) r = m r.
Proof. unfold mbind, Rd_bind, mret, Rd_ret. by destruct (m r) as [[]|]. Qed.

#[export] Instance c_bytes_ok : CodecOk c_bytes.
Proof.
  codec_split c_bytes.
  - intros x k Hx. by rewrite <- rd_bind_mret, put_len_prefixed_fwd.
  - apply rd_len_prefixed_inv.
Qed.

#[export] Instance c_string_ok : CodecOk c_string.
Proof.
  codec_split c_string; unfold rd_string.
  - intros x k [Hf Hu]%andb_true_iff. by rewrite put_len_prefixed_fwd, Hu by done.
  - intros b x k (raw & r & Hr & E)%rd_bind_inv. apply rd_len_prefixed_inv in Hr as [Hf ->].
    destruct (utf8_valid raw) eqn:Hu; [|done]. injection E as <- <-. by rewrite Hf, Hu.
Qed.

Lemma c_fixed_ok n :
  CodecOk {| enc := λ v : list byte, v; dec := rd_array n; wf v := zlen v =? Z.of_nat n |}.
Proof.
  unfold rd_array. split; cbn [enc dec wf].
  - intros x k <-%Z.eqb_eq. apply rd_take_app.
  - intros b x k [-> Hl]%rd_take_inv. split; [lia|done].
Qed.

#[export] Instance c_uuid_ok : CodecOk c_uuid := c_fixed_ok 16.
#[export] Instance c_digest_ok : CodecOk c_digest := c_fixed_ok 16.

#[export] Instance c_option_ok {A} (c : Codec A) `{!CodecOk c} : CodecOk (c_option c).
Proof.
  codec_split @c_option; unfold rd_opt.
  - intros [x|] k Hx; rewrite <- ?app_assoc, rd_u8_put by done; [|done].
    by rewrite dec_enc_bind.
  - intros b x k (v & r & _ & -> & E)%rd_u8_inv.
    destruct v as [|[]|]; try done.
    + by injection E as <- <-.
    + apply dec_bind_inv in E as (y & r' & Hw & -> & E); [|done].
      injection E as <- <-. by rewrite <- app_assoc.
Qed.

#[export] Instance c_pair_ok {A B} (ca : Codec A) (cb : Codec B) `{!CodecOk ca, !CodecOk cb} :
  CodecOk (c_pair ca cb).
Proof.
  codec_split @c_pair.
  - intros [x y] k [Hx Hy]%andb_true_iff. simpl. rewrite <- app_assoc.
    by rewrite !dec_enc_bind.
  - intros b z k (x & r & Hx & -> & E)%dec_bind_inv; [|done].
    apply dec_bind_inv in E as (y & r' & Hy & -> & E); [|done].
    injection E as <- <-. simpl. by rewrite Hx, Hy, <- app_assoc.
Qed.

Lemma rd_repeat_fwd {A} (c : Codec A) `{!CodecOk c} l k :
  forallb (wf c) l = true →
  rd_repeat (length l) (dec c) (concat (enc c <$> l) ++ k) = Ok (l, k).
Proof.
  induction l as [|x l IH]; [done|]. intros [Hx Hl]%andb_true_iff. cbn [length rd_repeat fmap list_fmap concat].
  rewrite <- app_assoc, dec_enc_bind by done.
  by rewrite (rd_bind_ok _ _ _ _ _ (IH Hl)).
Qed.

Lemma rd_repeat_inv {A} (c : Codec A) `{!CodecOk c} n b l k :
  rd_repeat n (dec c) b = Ok (l, k) →
  length l = n ∧ forallb (wf c) l = true ∧ b = concat (enc c <$> l) ++ k.
Proof.
  revert b l k. induction n as [|n IH]; intros b l k; simpl.
  - by intros [= <- <-].
  - intros (x & r & Hx & -> & E)%dec_bind_inv; [|done].
    apply rd_bind_inv in E as (l' & r' & (? & ? & ->)%IH & E). injection E as <- <-.
    simpl. rewrite Hx, <- app_assoc. auto.
Qed.

#[export] Instance c_vec_ok {A} (c : Codec A) `{!CodecOk c} : CodecOk (c_vec c).
Proof.
  codec_split @c_vec; unfold rd_list, fits_u32.
  - intros l k [Hf%Z.leb_le Hl]%andb_true_iff. rewrite <- app_assoc.
    erewrite rd_bind_ok by (apply rd_uint_to_be; unfold u32_max in *; pose proof (zlen_nonneg l); simpl; lia).
    unfold zlen. rewrite Nat2Z.id. by apply rd_repeat_fwd.
  - intros b l k (n & r & Hn & E)%rd_bind_inv. apply rd_uint_inv in Hn as [Hn ->].
    apply rd_repeat_inv in E as (Hl & Hw & ->); [|done]. simpl Z.of_nat in Hn.
    assert (zlen l = n) as <- by (unfold zlen; lia).
    rewrite Hw, <- app_assoc. unfold u32_max. split; [apply andb_true_iff; lia|done].
Qed.

Lemma c_enum_ok {A} (to_u8 : A → Z) (from_u8 : Z → option A) :
  (∀ x, is_u8 (to_u8 x) = true ∧ from_u8 (to_u8 x) = Some x) →
  (∀ v x, from_u8 v = Some x → to_u8 x = v) →
  CodecOk (c_enum to_u8 from_u8).
Proof.
  intros Hto Hfrom. codec_split @c_enum.
  - intros x k _. destruct (Hto x) as [Hu Hx]. by rewrite rd_u8_put, Hx.
  - intros b x k (v & r & _ & -> & E)%rd_u8_inv. destruct (from_u8 v) eqn:Ev; [|done].
    injection E as <- <-. by rewrite (Hfrom _ _ Ev).
Qed.

(** Enumerations with few constructors: both laws by case analysis. *)
Ltac solve_enum :=
  apply c_enum_ok; [by intros []|];
  intros v x; destruct v as [|v|v]; simpl; try done;
  repeat (destruct v as [v|v|]; simpl; try done); by intros [= <-].

#[export] Instance c_reason_ok : CodecOk c_reason.
Proof. solve_enum. Qed.

(** Codecs of structs: consume the fields left to right. *)
Ltac codec_fwd_step :=
  first [ rewrite dec_enc_bind by (first [apply _ | assumption | done])
        | rewrite rd_u8_put by done ].
Ltac codec_inv_step H :=
  match type of H with
  | (dec _ ≫= _) _ = Ok _ => apply dec_bind_inv in H as (? & ? & ? & -> & H); [|apply _]
  | (rd_u8 ≫= _) _ = Ok _ => apply rd_u8_inv in H as (? & ? & ? & -> & H)
  end.
Ltac codec_struct c :=
  codec_split c;
  [ let x := fresh "x" in let k := fresh "k" in let Hw := fresh "Hw" in
    intros x k Hw; rewrite ?andb_true_iff, ?is_ok_unit in Hw; destruct_and?;
    rewrite <- ?app_assoc; repeat codec_fwd_step;
    destruct x; first [done | by apply rd_checked_ok]
  | let H := fresh "H" in
    intros ? ? ? H; repeat codec_inv_step H;
    first [injection H as <- <- | apply rd_checked_inv in H as (? & -> & ->)];
    rewrite <- ?app_assoc, ?andb_true_iff, ?is_ok_unit; repeat split; assumption ].

(** Codecs of tagged unions: the tag selects the branch. *)
Ltac codec_sum c :=
  codec_split c;
  [ let x := fresh "x" in let k := fresh "k" in let Hw := fresh "Hw" in
    intros x k Hw; destruct x; rewrite ?andb_true_iff in Hw; destruct_and?;
    rewrite <- ?app_assoc; repeat codec_fwd_step;
    repeat match goal with H : _ = true |- _ => rewrite H end; done
  | let H := fresh "H" in let v := fresh "v" in
    intros ? ? ? H; apply rd_u8_inv in H as (v & ? & _ & -> & H);
    destruct v as [|v|v]; try discriminate H;
    repeat (destruct v as [v|v|]; try discriminate H);
    repeat codec_inv_step H; try (case_match; [|discriminate H]);
    injection H as <- <-; rewrite <- ?app_assoc, ?andb_true_iff; auto 10 ].
