(* ===== verification/Types.v ===== *)
(** * Types (crates/fxsh/src/types.rs)

    The data types carried by FXSH messages and their codecs.  A [record!] of
    the source is a record with one codec that writes the fields in order and,
    on decoding, runs the source's check; a [u8_enum!] is an inductive type
    coded by its discriminant.  Integer fields are [Z] at the width their codec
    gives. *)

From S2P Require Import Prelude Wire.
From Stdlib Require Import ZArith Lia Strings.Byte.
From stdpp Require Import base list option decidable.

#[local] Open Scope Z_scope.

(** ** Enumerations *)

Inductive ClientKind : Type :=
| ClientKind_GuiWindow
| ClientKind_RemoteClient
| ClientKind_PolicyDaemon.
#[global] Instance ClientKind_eq_dec : EqDecision ClientKind.
Proof. solve_decision. Defined.
Definition ClientKind_to_u8 (v : ClientKind) : Z :=
  match v with
  | ClientKind_GuiWindow => 1
  | ClientKind_RemoteClient => 2
  | ClientKind_PolicyDaemon => 3
  end.
Definition ClientKind_from_u8 (v : Z) : option ClientKind :=
  match v with
  | 1 => Some ClientKind_GuiWindow
  | 2 => Some ClientKind_RemoteClient
  | 3 => Some ClientKind_PolicyDaemon
  | _ => None
  end.
Definition c_ClientKind : Codec ClientKind := c_enum ClientKind_to_u8 ClientKind_from_u8.
#[export] Instance c_ClientKind_ok : CodecOk c_ClientKind.
Proof. solve_enum. Qed.

Inductive Supervisor : Type :=
| Supervisor_Launchd
| Supervisor_Systemd
| Supervisor_TaskScheduler.
#[global] Instance Supervisor_eq_dec : EqDecision Supervisor.
Proof. solve_decision. Defined.
Definition Supervisor_to_u8 (v : Supervisor) : Z :=
  match v with
  | Supervisor_Launchd => 1
  | Supervisor_Systemd => 2
  | Supervisor_TaskScheduler => 3
  end.
Definition Supervisor_from_u8 (v : Z) : option Supervisor :=
  match v with
  | 1 => Some Supervisor_Launchd
  | 2 => Some Supervisor_Systemd
  | 3 => Some Supervisor_TaskScheduler
  | _ => None
  end.
Definition c_Supervisor : Codec Supervisor := c_enum Supervisor_to_u8 Supervisor_from_u8.
#[export] Instance c_Supervisor_ok : CodecOk c_Supervisor.
Proof. solve_enum. Qed.

Inductive Scope : Type :=
| Scope_Input
| Scope_Resize.
#[global] Instance Scope_eq_dec : EqDecision Scope.
Proof. solve_decision. Defined.
Definition Scope_to_u8 (v : Scope) : Z :=
  match v with
  | Scope_Input => 1
  | Scope_Resize => 2
  end.
Definition Scope_from_u8 (v : Z) : option Scope :=
  match v with
  | 1 => Some Scope_Input
  | 2 => Some Scope_Resize
  | _ => None
  end.
Definition c_Scope : Codec Scope := c_enum Scope_to_u8 Scope_from_u8.
#[export] Instance c_Scope_ok : CodecOk c_Scope.
Proof. solve_enum. Qed.

Inductive Signal : Type :=
| Signal_Hangup
| Signal_Interrupt
| Signal_Terminate
| Signal_Kill.
#[global] Instance Signal_eq_dec : EqDecision Signal.
Proof. solve_decision. Defined.
Definition Signal_to_u8 (v : Signal) : Z :=
  match v with
  | Signal_Hangup => 1
  | Signal_Interrupt => 2
  | Signal_Terminate => 3
  | Signal_Kill => 4
  end.
Definition Signal_from_u8 (v : Z) : option Signal :=
  match v with
  | 1 => Some Signal_Hangup
  | 2 => Some Signal_Interrupt
  | 3 => Some Signal_Terminate
  | 4 => Some Signal_Kill
  | _ => None
  end.
Definition c_Signal : Codec Signal := c_enum Signal_to_u8 Signal_from_u8.
#[export] Instance c_Signal_ok : CodecOk c_Signal.
Proof. solve_enum. Qed.

Inductive OperationKind : Type :=
| OperationKind_Spawn
| OperationKind_Kill.
#[global] Instance OperationKind_eq_dec : EqDecision OperationKind.
Proof. solve_decision. Defined.
Definition OperationKind_to_u8 (v : OperationKind) : Z :=
  match v with
  | OperationKind_Spawn => 1
  | OperationKind_Kill => 2
  end.
Definition OperationKind_from_u8 (v : Z) : option OperationKind :=
  match v with
  | 1 => Some OperationKind_Spawn
  | 2 => Some OperationKind_Kill
  | _ => None
  end.
Definition c_OperationKind : Codec OperationKind := c_enum OperationKind_to_u8 OperationKind_from_u8.
#[export] Instance c_OperationKind_ok : CodecOk c_OperationKind.
Proof. solve_enum. Qed.

Inductive CursorStyle : Type :=
| CursorStyle_Block
| CursorStyle_Underline
| CursorStyle_Bar.
#[global] Instance CursorStyle_eq_dec : EqDecision CursorStyle.
Proof. solve_decision. Defined.
Definition CursorStyle_to_u8 (v : CursorStyle) : Z :=
  match v with
  | CursorStyle_Block => 0
  | CursorStyle_Underline => 1
  | CursorStyle_Bar => 2
  end.
Definition CursorStyle_from_u8 (v : Z) : option CursorStyle :=
  match v with
  | 0 => Some CursorStyle_Block
  | 1 => Some CursorStyle_Underline
  | 2 => Some CursorStyle_Bar
  | _ => None
  end.
Definition c_CursorStyle : Codec CursorStyle := c_enum CursorStyle_to_u8 CursorStyle_from_u8.
#[export] Instance c_CursorStyle_ok : CodecOk c_CursorStyle.
Proof. solve_enum. Qed.

Inductive MouseMode : Type :=
| MouseMode_Off
| MouseMode_X10
| MouseMode_Normal
| MouseMode_Button
| MouseMode_Any.
#[global] Instance MouseMode_eq_dec : EqDecision MouseMode.
Proof. solve_decision. Defined.
Definition MouseMode_to_u8 (v : MouseMode) : Z :=
  match v with
  | MouseMode_Off => 0
  | MouseMode_X10 => 1
  | MouseMode_Normal => 2
  | MouseMode_Button => 3
  | MouseMode_Any => 4
  end.
Definition MouseMode_from_u8 (v : Z) : option MouseMode :=
  match v with
  | 0 => Some MouseMode_Off
  | 1 => Some MouseMode_X10
  | 2 => Some MouseMode_Normal
  | 3 => Some MouseMode_Button
  | 4 => Some MouseMode_Any
  | _ => None
  end.
Definition c_MouseMode : Codec MouseMode := c_enum MouseMode_to_u8 MouseMode_from_u8.
#[export] Instance c_MouseMode_ok : CodecOk c_MouseMode.
Proof. solve_enum. Qed.

Inductive MouseEncoding : Type :=
| MouseEncoding_Default
| MouseEncoding_Utf8
| MouseEncoding_Sgr
| MouseEncoding_Urxvt
| MouseEncoding_SgrPixels.
#[global] Instance MouseEncoding_eq_dec : EqDecision MouseEncoding.
Proof. solve_decision. Defined.
Definition MouseEncoding_to_u8 (v : MouseEncoding) : Z :=
  match v with
  | MouseEncoding_Default => 0
  | MouseEncoding_Utf8 => 1
  | MouseEncoding_Sgr => 2
  | MouseEncoding_Urxvt => 3
  | MouseEncoding_SgrPixels => 4
  end.
Definition MouseEncoding_from_u8 (v : Z) : option MouseEncoding :=
  match v with
  | 0 => Some MouseEncoding_Default
  | 1 => Some MouseEncoding_Utf8
  | 2 => Some MouseEncoding_Sgr
  | 3 => Some MouseEncoding_Urxvt
  | 4 => Some MouseEncoding_SgrPixels
  | _ => None
  end.
Definition c_MouseEncoding : Codec MouseEncoding := c_enum MouseEncoding_to_u8 MouseEncoding_from_u8.
#[export] Instance c_MouseEncoding_ok : CodecOk c_MouseEncoding.
Proof. solve_enum. Qed.

Inductive ClipboardTarget : Type :=
| ClipboardTarget_Clipboard
| ClipboardTarget_Primary.
#[global] Instance ClipboardTarget_eq_dec : EqDecision ClipboardTarget.
Proof. solve_decision. Defined.
Definition ClipboardTarget_to_u8 (v : ClipboardTarget) : Z :=
  match v with
  | ClipboardTarget_Clipboard => 1
  | ClipboardTarget_Primary => 2
  end.
Definition ClipboardTarget_from_u8 (v : Z) : option ClipboardTarget :=
  match v with
  | 1 => Some ClipboardTarget_Clipboard
  | 2 => Some ClipboardTarget_Primary
  | _ => None
  end.
Definition c_ClipboardTarget : Codec ClipboardTarget := c_enum ClipboardTarget_to_u8 ClipboardTarget_from_u8.
#[export] Instance c_ClipboardTarget_ok : CodecOk c_ClipboardTarget.
Proof. solve_enum. Qed.

(** ** Cells, rows and screen state *)

Record OperationId := mk_OperationId {
  op_host_instance_id : Uuid;
  op_op_seq : Z;
}.
#[global] Instance OperationId_eq_dec : EqDecision OperationId.
Proof. solve_decision. Defined.
Definition c_OperationId : Codec OperationId := {|
  enc v :=
    enc c_uuid (op_host_instance_id v) ++
    enc c_u64 (op_op_seq v);
  dec :=
    host_instance_id ← dec c_uuid;
    op_seq ← dec c_u64;
    mret (mk_OperationId host_instance_id op_seq);
  wf v :=
    wf c_uuid (op_host_instance_id v) &&
    wf c_u64 (op_op_seq v);
|}.
#[export] Instance c_OperationId_ok : CodecOk c_OperationId.
Proof. codec_struct c_OperationId. Qed.

Inductive Color : Type :=
| Color_Default
| Color_Indexed (i : Z)
| Color_Rgb (r g b : Z).
#[global] Instance Color_eq_dec : EqDecision Color.
Proof. solve_decision. Defined.
Definition c_Color : Codec Color := {|
  enc v :=
    match v with
    | Color_Default => put_u8 0
    | Color_Indexed i => put_u8 1 ++ enc c_u8 i
    | Color_Rgb r g b => put_u8 2 ++ enc c_u8 r ++ enc c_u8 g ++ enc c_u8 b
    end;
  dec :=
    tag ← rd_u8;
    match tag with
    | 0 => mret Color_Default
    | 1 => i ← dec c_u8; mret (Color_Indexed i)
    | 2 => r ← dec c_u8; g ← dec c_u8; b ← dec c_u8; mret (Color_Rgb r g b)
    | _ => rd_fail BadTag
    end;
  wf v :=
    match v with
    | Color_Default => true
    | Color_Indexed i => wf c_u8 i
    | Color_Rgb r g b => wf c_u8 r && wf c_u8 g && wf c_u8 b
    end;
|}.
#[export] Instance c_Color_ok : CodecOk c_Color.
Proof. codec_sum c_Color. Qed.

Definition ATTR_MASK : Z := Z.shiftl 1 11 - 1.

Record Cell := mk_Cell {
  cell_codepoint : Z;
  cell_grapheme_extra : option String;
  cell_width : Z;
  cell_fg : Color;
  cell_bg : Color;
  cell_underline_color : Color;
  cell_attrs : Z;
  cell_hyperlink_id : Z;
}.
#[global] Instance Cell_eq_dec : EqDecision Cell.
Proof. solve_decision. Defined.
Definition Cell_check (v : Cell) : DResult unit :=
  dr_and (dr_if (2 <? cell_width v) BadEnum)
  (dr_and (dr_if (negb (Z.land (cell_attrs v) (Z.lnot ATTR_MASK) =? 0)) BadShape)
          (dr_if (match cell_grapheme_extra v with Some [] => true | _ => false end) OptCondition)).
Definition c_Cell : Codec Cell := {|
  enc v :=
    enc c_u32 (cell_codepoint v) ++
    enc (c_option c_string) (cell_grapheme_extra v) ++
    enc c_u8 (cell_width v) ++
    enc c_Color (cell_fg v) ++
    enc c_Color (cell_bg v) ++
    enc c_Color (cell_underline_color v) ++
    enc c_u16 (cell_attrs v) ++
    enc c_u32 (cell_hyperlink_id v);
  dec :=
    codepoint ← dec c_u32;
    grapheme_extra ← dec (c_option c_string);
    width ← dec c_u8;
    fg ← dec c_Color;
    bg ← dec c_Color;
    underline_color ← dec c_Color;
    attrs ← dec c_u16;
    hyperlink_id ← dec c_u32;
    rd_checked Cell_check (mk_Cell codepoint grapheme_extra width fg bg underline_color attrs hyperlink_id);
  wf v :=
    wf c_u32 (cell_codepoint v) &&
    wf (c_option c_string) (cell_grapheme_extra v) &&
    wf c_u8 (cell_width v) &&
    wf c_Color (cell_fg v) &&
    wf c_Color (cell_bg v) &&
    wf c_Color (cell_underline_color v) &&
    wf c_u16 (cell_attrs v) &&
    wf c_u32 (cell_hyperlink_id v) &&
    is_ok (Cell_check v);
|}.
#[export] Instance c_Cell_ok : CodecOk c_Cell.
Proof. codec_struct c_Cell. Qed.

Definition Cell_BLANK : Cell :=
  mk_Cell 0 None 1 Color_Default Color_Default Color_Default 0 0.

Record RowData := mk_RowData {
  row_wrapped : bool;
  row_cells : list Cell;
}.
#[global] Instance RowData_eq_dec : EqDecision RowData.
Proof. solve_decision. Defined.
Definition c_RowData : Codec RowData := {|
  enc v :=
    enc c_bool (row_wrapped v) ++
    enc (c_vec c_Cell) (row_cells v);
  dec :=
    wrapped ← dec c_bool;
    cells ← dec (c_vec c_Cell);
    mret (mk_RowData wrapped cells);
  wf v :=
    wf c_bool (row_wrapped v) &&
    wf (c_vec c_Cell) (row_cells v);
|}.
#[export] Instance c_RowData_ok : CodecOk c_RowData.
Proof. codec_struct c_RowData. Qed.

Record Cursor := mk_Cursor {
  cursor_row : Z;
  cursor_col : Z;
  cursor_style : CursorStyle;
  cursor_blinking : bool;
  cursor_visible : bool;
}.
#[global] Instance Cursor_eq_dec : EqDecision Cursor.
Proof. solve_decision. Defined.
Definition c_Cursor : Codec Cursor := {|
  enc v :=
    enc c_u16 (cursor_row v) ++
    enc c_u16 (cursor_col v) ++
    enc c_CursorStyle (cursor_style v) ++
    enc c_bool (cursor_blinking v) ++
    enc c_bool (cursor_visible v);
  dec :=
    row ← dec c_u16;
    col ← dec c_u16;
    style ← dec c_CursorStyle;
    blinking ← dec c_bool;
    visible ← dec c_bool;
    mret (mk_Cursor row col style blinking visible);
  wf v :=
    wf c_u16 (cursor_row v) &&
    wf c_u16 (cursor_col v) &&
    wf c_CursorStyle (cursor_style v) &&
    wf c_bool (cursor_blinking v) &&
    wf c_bool (cursor_visible v);
|}.
#[export] Instance c_Cursor_ok : CodecOk c_Cursor.
Proof. codec_struct c_Cursor. Qed.

Record Palette := mk_Palette {
  palette_default_fg : Color;
  palette_default_bg : Color;
  palette_cursor_color : option Color;
  palette_overrides : list (Z * (Z * (Z * Z)));
}.
#[global] Instance Palette_eq_dec : EqDecision Palette.
Proof. solve_decision. Defined.
Definition Palette_check (v : Palette) : DResult unit :=
  strictly_ascending fst (palette_overrides v).
Definition c_Palette : Codec Palette := {|
  enc v :=
    enc c_Color (palette_default_fg v) ++
    enc c_Color (palette_default_bg v) ++
    enc (c_option c_Color) (palette_cursor_color v) ++
    enc (c_vec (c_pair c_u8 (c_pair c_u8 (c_pair c_u8 c_u8)))) (palette_overrides v);
  dec :=
    default_fg ← dec c_Color;
    default_bg ← dec c_Color;
    cursor_color ← dec (c_option c_Color);
    overrides ← dec (c_vec (c_pair c_u8 (c_pair c_u8 (c_pair c_u8 c_u8))));
    rd_checked Palette_check (mk_Palette default_fg default_bg cursor_color overrides);
  wf v :=
    wf c_Color (palette_default_fg v) &&
    wf c_Color (palette_default_bg v) &&
    wf (c_option c_Color) (palette_cursor_color v) &&
    wf (c_vec (c_pair c_u8 (c_pair c_u8 (c_pair c_u8 c_u8)))) (palette_overrides v) &&
    is_ok (Palette_check v);
|}.
#[export] Instance c_Palette_ok : CodecOk c_Palette.
Proof. codec_struct c_Palette. Qed.

Record Hyperlink := mk_Hyperlink {
  hyperlink_id : Z;
  hyperlink_uri : String;
}.
#[global] Instance Hyperlink_eq_dec : EqDecision Hyperlink.
Proof. solve_decision. Defined.
Definition Hyperlink_check (v : Hyperlink) : DResult unit :=
  dr_if (hyperlink_id v =? 0) BadShape.
Definition c_Hyperlink : Codec Hyperlink := {|
  enc v :=
    enc c_u32 (hyperlink_id v) ++
    enc c_string (hyperlink_uri v);
  dec :=
    id ← dec c_u32;
    uri ← dec c_string;
    rd_checked Hyperlink_check (mk_Hyperlink id uri);
  wf v :=
    wf c_u32 (hyperlink_id v) &&
    wf c_string (hyperlink_uri v) &&
    is_ok (Hyperlink_check v);
|}.
#[export] Instance c_Hyperlink_ok : CodecOk c_Hyperlink.
Proof. codec_struct c_Hyperlink. Qed.

Record ExitInfo := mk_ExitInfo {
  exit_info_exit_code : option Z;
  exit_info_posix_signal : option Z;
}.
#[global] Instance ExitInfo_eq_dec : EqDecision ExitInfo.
Proof. solve_decision. Defined.
Definition c_ExitInfo : Codec ExitInfo := {|
  enc v :=
    enc (c_option c_i32) (exit_info_exit_code v) ++
    enc (c_option c_u8) (exit_info_posix_signal v);
  dec :=
    exit_code ← dec (c_option c_i32);
    posix_signal ← dec (c_option c_u8);
    mret (mk_ExitInfo exit_code posix_signal);
  wf v :=
    wf (c_option c_i32) (exit_info_exit_code v) &&
    wf (c_option c_u8) (exit_info_posix_signal v);
|}.
#[export] Instance c_ExitInfo_ok : CodecOk c_ExitInfo.
Proof. codec_struct c_ExitInfo. Qed.

Definition MODE_FLAG_MASK : Z := Z.shiftl 1 11 - 1.

Record Modes := mk_Modes {
  modes_flags : Z;
  modes_mouse_mode : MouseMode;
  modes_mouse_encoding : MouseEncoding;
}.
#[global] Instance Modes_eq_dec : EqDecision Modes.
Proof. solve_decision. Defined.
Definition Modes_check (v : Modes) : DResult unit :=
  dr_if (negb (Z.land (modes_flags v) (Z.lnot MODE_FLAG_MASK) =? 0)) BadShape.
Definition c_Modes : Codec Modes := {|
  enc v :=
    enc c_u32 (modes_flags v) ++
    enc c_MouseMode (modes_mouse_mode v) ++
    enc c_MouseEncoding (modes_mouse_encoding v);
  dec :=
    flags ← dec c_u32;
    mouse_mode ← dec c_MouseMode;
    mouse_encoding ← dec c_MouseEncoding;
    rd_checked Modes_check (mk_Modes flags mouse_mode mouse_encoding);
  wf v :=
    wf c_u32 (modes_flags v) &&
    wf c_MouseMode (modes_mouse_mode v) &&
    wf c_MouseEncoding (modes_mouse_encoding v) &&
    is_ok (Modes_check v);
|}.
#[export] Instance c_Modes_ok : CodecOk c_Modes.
Proof. codec_struct c_Modes. Qed.

(** ** UI events *)

Inductive UiEventKind : Type :=
| ClipboardWrite (target : ClipboardTarget) (text : String)
| Notification (title body : String)
| Bell.
#[global] Instance UiEventKind_eq_dec : EqDecision UiEventKind.
Proof. solve_decision. Defined.

Record UiEvent := mk_UiEvent {
  ui_event_id : Z;
  ui_kind : UiEventKind;
}.
#[global] Instance UiEvent_eq_dec : EqDecision UiEvent.
Proof. solve_decision. Defined.

Definition notification_ok (title body : String) : bool :=
  (zlen title <=? 256) && (zlen body <=? 4096).
Definition c_UiEventKind : Codec UiEventKind := {|
  enc v :=
    match v with
    | ClipboardWrite target text => put_u8 1 ++ enc c_ClipboardTarget target ++ enc c_string text
    | Notification title body => put_u8 2 ++ enc c_string title ++ enc c_string body
    | Bell => put_u8 3
    end;
  dec :=
    tag ← rd_u8;
    match tag with
    | 1 => target ← dec c_ClipboardTarget; text ← dec c_string; mret (ClipboardWrite target text)
    | 2 => title ← dec c_string; body ← dec c_string;
           if notification_ok title body then mret (Notification title body)
           else rd_fail BadShape
    | 3 => mret Bell
    | _ => rd_fail BadEnum
    end;
  wf v :=
    match v with
    | ClipboardWrite target text => wf c_ClipboardTarget target && wf c_string text
    | Notification title body => wf c_string title && wf c_string body && notification_ok title body
    | Bell => true
    end;
|}.
#[export] Instance c_UiEventKind_ok : CodecOk c_UiEventKind.
Proof. codec_sum c_UiEventKind. Qed.
Definition c_UiEvent : Codec UiEvent := {|
  enc v := enc c_u64 (ui_event_id v) ++ enc c_UiEventKind (ui_kind v);
  dec := event_id ← dec c_u64; kind ← dec c_UiEventKind; mret (mk_UiEvent event_id kind);
  wf v := wf c_u64 (ui_event_id v) && wf c_UiEventKind (ui_kind v);
|}.
#[export] Instance c_UiEvent_ok : CodecOk c_UiEvent.
Proof. codec_struct c_UiEvent. Qed.

(** ** Deltas and snapshots *)

Record Delta := mk_Delta {
  delta_subscription_id : Z;
  delta_base_revision : Z;
  delta_new_revision : Z;
  delta_size : option (Z * Z);
  delta_cursor : option Cursor;
  delta_modes : option Modes;
  delta_palette : option Palette;
  delta_title : option String;
  delta_dirty_rows : list (Z * RowData);
  delta_hyperlinks_added : list Hyperlink;
  delta_scrollback_appended : list (Z * RowData);
  delta_scrollback_evicted_before : option Z;
  delta_exit_info : option ExitInfo;
  delta_ui_events : list UiEvent;
}.
#[global] Instance Delta_eq_dec : EqDecision Delta.
Proof. solve_decision. Defined.
Definition Delta_check (v : Delta) : DResult unit :=
  dr_and (strictly_ascending fst (delta_dirty_rows v))
  (dr_and (strictly_ascending hyperlink_id (delta_hyperlinks_added v))
          (strictly_ascending fst (delta_scrollback_appended v))).
Definition c_Delta : Codec Delta := {|
  enc v :=
    enc c_u64 (delta_subscription_id v) ++
    enc c_u64 (delta_base_revision v) ++
    enc c_u64 (delta_new_revision v) ++
    enc (c_option (c_pair c_u16 c_u16)) (delta_size v) ++
    enc (c_option c_Cursor) (delta_cursor v) ++
    enc (c_option c_Modes) (delta_modes v) ++
    enc (c_option c_Palette) (delta_palette v) ++
    enc (c_option c_string) (delta_title v) ++
    enc (c_vec (c_pair c_u16 c_RowData)) (delta_dirty_rows v) ++
    enc (c_vec c_Hyperlink) (delta_hyperlinks_added v) ++
    enc (c_vec (c_pair c_u64 c_RowData)) (delta_scrollback_appended v) ++
    enc (c_option c_u64) (delta_scrollback_evicted_before v) ++
    enc (c_option c_ExitInfo) (delta_exit_info v) ++
    enc (c_vec c_UiEvent) (delta_ui_events v);
  dec :=
    subscription_id ← dec c_u64;
    base_revision ← dec c_u64;
    new_revision ← dec c_u64;
    size ← dec (c_option (c_pair c_u16 c_u16));
    cursor ← dec (c_option c_Cursor);
    modes ← dec (c_option c_Modes);
    palette ← dec (c_option c_Palette);
    title ← dec (c_option c_string);
    dirty_rows ← dec (c_vec (c_pair c_u16 c_RowData));
    hyperlinks_added ← dec (c_vec c_Hyperlink);
    scrollback_appended ← dec (c_vec (c_pair c_u64 c_RowData));
    scrollback_evicted_before ← dec (c_option c_u64);
    exit_info ← dec (c_option c_ExitInfo);
    ui_events ← dec (c_vec c_UiEvent);
    rd_checked Delta_check (mk_Delta subscription_id base_revision new_revision size cursor modes palette title dirty_rows hyperlinks_added scrollback_appended scrollback_evicted_before exit_info ui_events);
  wf v :=
    wf c_u64 (delta_subscription_id v) &&
    wf c_u64 (delta_base_revision v) &&
    wf c_u64 (delta_new_revision v) &&
    wf (c_option (c_pair c_u16 c_u16)) (delta_size v) &&
    wf (c_option c_Cursor) (delta_cursor v) &&
    wf (c_option c_Modes) (delta_modes v) &&
    wf (c_option c_Palette) (delta_palette v) &&
    wf (c_option c_string) (delta_title v) &&
    wf (c_vec (c_pair c_u16 c_RowData)) (delta_dirty_rows v) &&
    wf (c_vec c_Hyperlink) (delta_hyperlinks_added v) &&
    wf (c_vec (c_pair c_u64 c_RowData)) (delta_scrollback_appended v) &&
    wf (c_option c_u64) (delta_scrollback_evicted_before v) &&
    wf (c_option c_ExitInfo) (delta_exit_info v) &&
    wf (c_vec c_UiEvent) (delta_ui_events v) &&
    is_ok (Delta_check v);
|}.
#[export] Instance c_Delta_ok : CodecOk c_Delta.
Proof. codec_struct c_Delta. Qed.

Record SBody := mk_SBody {
  sbody_cols : Z;
  sbody_rows : Z;
  sbody_screen : list RowData;
  sbody_cursor : Cursor;
  sbody_modes : Modes;
  sbody_palette : Palette;
  sbody_title : String;
  sbody_hyperlinks : list Hyperlink;
  sbody_scrollback : list (Z * RowData);
  sbody_exit_info : option ExitInfo;
}.
#[global] Instance SBody_eq_dec : EqDecision SBody.
Proof. solve_decision. Defined.
Definition SBody_check (v : SBody) : DResult unit :=
  let width_ok row := zlen (row_cells row) =? sbody_cols v in
  dr_and (dr_if (negb (zlen (sbody_screen v) =? sbody_rows v)) BadShape)
  (dr_and (dr_if (negb (forallb width_ok (sbody_screen v))
                  || negb (forallb (λ p, width_ok p.2) (sbody_scrollback v))) BadShape)
  (dr_and (strictly_ascending hyperlink_id (sbody_hyperlinks v))
          (strictly_ascending fst (sbody_scrollback v)))).
Definition c_SBody : Codec SBody := {|
  enc v :=
    enc c_u16 (sbody_cols v) ++
    enc c_u16 (sbody_rows v) ++
    enc (c_vec c_RowData) (sbody_screen v) ++
    enc c_Cursor (sbody_cursor v) ++
    enc c_Modes (sbody_modes v) ++
    enc c_Palette (sbody_palette v) ++
    enc c_string (sbody_title v) ++
    enc (c_vec c_Hyperlink) (sbody_hyperlinks v) ++
    enc (c_vec (c_pair c_u64 c_RowData)) (sbody_scrollback v) ++
    enc (c_option c_ExitInfo) (sbody_exit_info v);
  dec :=
    cols ← dec c_u16;
    rows ← dec c_u16;
    screen ← dec (c_vec c_RowData);
    cursor ← dec c_Cursor;
    modes ← dec c_Modes;
    palette ← dec c_Palette;
    title ← dec c_string;
    hyperlinks ← dec (c_vec c_Hyperlink);
    scrollback ← dec (c_vec (c_pair c_u64 c_RowData));
    exit_info ← dec (c_option c_ExitInfo);
    rd_checked SBody_check (mk_SBody cols rows screen cursor modes palette title hyperlinks scrollback exit_info);
  wf v :=
    wf c_u16 (sbody_cols v) &&
    wf c_u16 (sbody_rows v) &&
    wf (c_vec c_RowData) (sbody_screen v) &&
    wf c_Cursor (sbody_cursor v) &&
    wf c_Modes (sbody_modes v) &&
    wf c_Palette (sbody_palette v) &&
    wf c_string (sbody_title v) &&
    wf (c_vec c_Hyperlink) (sbody_hyperlinks v) &&
    wf (c_vec (c_pair c_u64 c_RowData)) (sbody_scrollback v) &&
    wf (c_option c_ExitInfo) (sbody_exit_info v) &&
    is_ok (SBody_check v);
|}.
#[export] Instance c_SBody_ok : CodecOk c_SBody.
Proof. codec_struct c_SBody. Qed.

Record Body := mk_Body {
  body_revision : Z;
  body_state_digest : Digest;
  body_next_ui_event_id : Z;
  body_ui_event_gap : bool;
  body_state : SBody;
}.
#[global] Instance Body_eq_dec : EqDecision Body.
Proof. solve_decision. Defined.
Definition c_Body : Codec Body := {|
  enc v :=
    enc c_u64 (body_revision v) ++
    enc c_digest (body_state_digest v) ++
    enc c_u64 (body_next_ui_event_id v) ++
    enc c_bool (body_ui_event_gap v) ++
    enc c_SBody (body_state v);
  dec :=
    revision ← dec c_u64;
    state_digest ← dec c_digest;
    next_ui_event_id ← dec c_u64;
    ui_event_gap ← dec c_bool;
    state ← dec c_SBody;
    mret (mk_Body revision state_digest next_ui_event_id ui_event_gap state);
  wf v :=
    wf c_u64 (body_revision v) &&
    wf c_digest (body_state_digest v) &&
    wf c_u64 (body_next_ui_event_id v) &&
    wf c_bool (body_ui_event_gap v) &&
    wf c_SBody (body_state v);
|}.
#[export] Instance c_Body_ok : CodecOk c_Body.
Proof. codec_struct c_Body. Qed.

Inductive SnapshotPayload : Type :=
| Full (b : Body)
| Chunk (index total total_len : Z) (bytes : Bytes).
#[global] Instance SnapshotPayload_eq_dec : EqDecision SnapshotPayload.
Proof. solve_decision. Defined.

Record SnapshotFrame := mk_SnapshotFrame {
  snap_subscription_id : Z;
  snap_session_incarnation : Uuid;
  snap_snapshot_id : Z;
  snap_payload : SnapshotPayload;
}.
#[global] Instance SnapshotFrame_eq_dec : EqDecision SnapshotFrame.
Proof. solve_decision. Defined.

Definition chunk_ok (index total total_len : Z) (bytes : Bytes) : bool :=
  negb ((total =? 0) || (total <=? index) || (total_len <? zlen bytes)).
Definition c_SnapshotPayload : Codec SnapshotPayload := {|
  enc v :=
    match v with
    | Full b => put_u8 0 ++ enc c_Body b
    | Chunk index total total_len bytes =>
        put_u8 1 ++ enc c_u32 index ++ enc c_u32 total ++ enc c_u32 total_len ++ enc c_bytes bytes
    end;
  dec :=
    tag ← rd_u8;
    match tag with
    | 0 => b ← dec c_Body; mret (Full b)
    | 1 => index ← dec c_u32; total ← dec c_u32; total_len ← dec c_u32; bytes ← dec c_bytes;
           if chunk_ok index total total_len bytes then mret (Chunk index total total_len bytes)
           else rd_fail ChunkInconsistent
    | _ => rd_fail BadTag
    end;
  wf v :=
    match v with
    | Full b => wf c_Body b
    | Chunk index total total_len bytes =>
        wf c_u32 index && wf c_u32 total && wf c_u32 total_len && wf c_bytes bytes
        && chunk_ok index total total_len bytes
    end;
|}.
#[export] Instance c_SnapshotPayload_ok : CodecOk c_SnapshotPayload.
Proof. codec_sum c_SnapshotPayload. Qed.
Definition c_SnapshotFrame : Codec SnapshotFrame := {|
  enc v :=
    enc c_u64 (snap_subscription_id v) ++ enc c_uuid (snap_session_incarnation v) ++
    enc c_u64 (snap_snapshot_id v) ++ enc c_SnapshotPayload (snap_payload v);
  dec :=
    subscription_id ← dec c_u64; session_incarnation ← dec c_uuid; snapshot_id ← dec c_u64;
    payload ← dec c_SnapshotPayload;
    mret (mk_SnapshotFrame subscription_id session_incarnation snapshot_id payload);
  wf v :=
    wf c_u64 (snap_subscription_id v) && wf c_uuid (snap_session_incarnation v) &&
    wf c_u64 (snap_snapshot_id v) && wf c_SnapshotPayload (snap_payload v);
|}.
#[export] Instance c_SnapshotFrame_ok : CodecOk c_SnapshotFrame.
Proof. codec_struct c_SnapshotFrame. Qed.

(** ** Session state and inventory *)

Record SessionState := mk_SessionState {
  ss_session_incarnation : Uuid;
  ss_state_revision : Z;
  ss_state_digest : Digest;
  ss_input_epoch : Z;
  ss_input_accepted : Z;
  ss_input_committed : Z;
  ss_resize_epoch : Z;
  ss_resize_seq : Z;
  ss_cols : Z;
  ss_rows : Z;
  ss_child_running : bool;
  ss_exit_info : option ExitInfo;
  ss_pending_dropped_by_epoch : list (Z * Z);
  ss_vt_replies_dropped : Z;
  ss_creation_operation_id : OperationId;
}.
#[global] Instance SessionState_eq_dec : EqDecision SessionState.
Proof. solve_decision. Defined.
Definition SessionState_check (v : SessionState) : DResult unit :=
  dr_and (dr_if (eqb (ss_child_running v) (bool_decide (is_Some (ss_exit_info v)))) OptCondition)
         (dr_if (128 <? zlen (ss_pending_dropped_by_epoch v)) BadShape).
Definition c_SessionState : Codec SessionState := {|
  enc v :=
    enc c_uuid (ss_session_incarnation v) ++
    enc c_u64 (ss_state_revision v) ++
    enc c_digest (ss_state_digest v) ++
    enc c_u64 (ss_input_epoch v) ++
    enc c_u64 (ss_input_accepted v) ++
    enc c_u64 (ss_input_committed v) ++
    enc c_u64 (ss_resize_epoch v) ++
    enc c_u64 (ss_resize_seq v) ++
    enc c_u16 (ss_cols v) ++
    enc c_u16 (ss_rows v) ++
    enc c_bool (ss_child_running v) ++
    enc (c_option c_ExitInfo) (ss_exit_info v) ++
    enc (c_vec (c_pair c_u64 c_u64)) (ss_pending_dropped_by_epoch v) ++
    enc c_u64 (ss_vt_replies_dropped v) ++
    enc c_OperationId (ss_creation_operation_id v);
  dec :=
    session_incarnation ← dec c_uuid;
    state_revision ← dec c_u64;
    state_digest ← dec c_digest;
    input_epoch ← dec c_u64;
    input_accepted ← dec c_u64;
    input_committed ← dec c_u64;
    resize_epoch ← dec c_u64;
    resize_seq ← dec c_u64;
    cols ← dec c_u16;
    rows ← dec c_u16;
    child_running ← dec c_bool;
    exit_info ← dec (c_option c_ExitInfo);
    pending_dropped_by_epoch ← dec (c_vec (c_pair c_u64 c_u64));
    vt_replies_dropped ← dec c_u64;
    creation_operation_id ← dec c_OperationId;
    rd_checked SessionState_check (mk_SessionState session_incarnation state_revision state_digest input_epoch input_accepted input_committed resize_epoch resize_seq cols rows child_running exit_info pending_dropped_by_epoch vt_replies_dropped creation_operation_id);
  wf v :=
    wf c_uuid (ss_session_incarnation v) &&
    wf c_u64 (ss_state_revision v) &&
    wf c_digest (ss_state_digest v) &&
    wf c_u64 (ss_input_epoch v) &&
    wf c_u64 (ss_input_accepted v) &&
    wf c_u64 (ss_input_committed v) &&
    wf c_u64 (ss_resize_epoch v) &&
    wf c_u64 (ss_resize_seq v) &&
    wf c_u16 (ss_cols v) &&
    wf c_u16 (ss_rows v) &&
    wf c_bool (ss_child_running v) &&
    wf (c_option c_ExitInfo) (ss_exit_info v) &&
    wf (c_vec (c_pair c_u64 c_u64)) (ss_pending_dropped_by_epoch v) &&
    wf c_u64 (ss_vt_replies_dropped v) &&
    wf c_OperationId (ss_creation_operation_id v) &&
    is_ok (SessionState_check v);
|}.
#[export] Instance c_SessionState_ok : CodecOk c_SessionState.
Proof. codec_struct c_SessionState. Qed.

Record SessionEntry := mk_SessionEntry {
  se_session_id : Uuid;
  se_session_incarnation : Uuid;
  se_created_table_revision : Z;
  se_creation_operation_id : OperationId;
  se_child_running : bool;
  se_exit_info : option ExitInfo;
}.
#[global] Instance SessionEntry_eq_dec : EqDecision SessionEntry.
Proof. solve_decision. Defined.
Definition SessionEntry_check (v : SessionEntry) : DResult unit :=
  dr_if (eqb (se_child_running v) (bool_decide (is_Some (se_exit_info v)))) OptCondition.
Definition c_SessionEntry : Codec SessionEntry := {|
  enc v :=
    enc c_uuid (se_session_id v) ++
    enc c_uuid (se_session_incarnation v) ++
    enc c_u64 (se_created_table_revision v) ++
    enc c_OperationId (se_creation_operation_id v) ++
    enc c_bool (se_child_running v) ++
    enc (c_option c_ExitInfo) (se_exit_info v);
  dec :=
    session_id ← dec c_uuid;
    session_incarnation ← dec c_uuid;
    created_table_revision ← dec c_u64;
    creation_operation_id ← dec c_OperationId;
    child_running ← dec c_bool;
    exit_info ← dec (c_option c_ExitInfo);
    rd_checked SessionEntry_check (mk_SessionEntry session_id session_incarnation created_table_revision creation_operation_id child_running exit_info);
  wf v :=
    wf c_uuid (se_session_id v) &&
    wf c_uuid (se_session_incarnation v) &&
    wf c_u64 (se_created_table_revision v) &&
    wf c_OperationId (se_creation_operation_id v) &&
    wf c_bool (se_child_running v) &&
    wf (c_option c_ExitInfo) (se_exit_info v) &&
    is_ok (SessionEntry_check v);
|}.
#[export] Instance c_SessionEntry_ok : CodecOk c_SessionEntry.
Proof. codec_struct c_SessionEntry. Qed.

Record SessionList := mk_SessionList {
  sl_request_token : (Uuid * Z);
  sl_owner_instance_id : Uuid;
  sl_table_revision : Z;
  sl_complete : bool;
  sl_sessions : list SessionEntry;
}.
#[global] Instance SessionList_eq_dec : EqDecision SessionList.
Proof. solve_decision. Defined.
Definition c_SessionList : Codec SessionList := {|
  enc v :=
    enc (c_pair c_uuid c_u64) (sl_request_token v) ++
    enc c_uuid (sl_owner_instance_id v) ++
    enc c_u64 (sl_table_revision v) ++
    enc c_bool (sl_complete v) ++
    enc (c_vec c_SessionEntry) (sl_sessions v);
  dec :=
    request_token ← dec (c_pair c_uuid c_u64);
    owner_instance_id ← dec c_uuid;
    table_revision ← dec c_u64;
    complete ← dec c_bool;
    sessions ← dec (c_vec c_SessionEntry);
    mret (mk_SessionList request_token owner_instance_id table_revision complete sessions);
  wf v :=
    wf (c_pair c_uuid c_u64) (sl_request_token v) &&
    wf c_uuid (sl_owner_instance_id v) &&
    wf c_u64 (sl_table_revision v) &&
    wf c_bool (sl_complete v) &&
    wf (c_vec c_SessionEntry) (sl_sessions v);
|}.
#[export] Instance c_SessionList_ok : CodecOk c_SessionList.
Proof. codec_struct c_SessionList. Qed.

(** ** Canonical encoding and digest

    XXH3 is the [xxhash_rust] crate: its 128-bit function is a parameter. *)

Definition canonical_encode (s : SBody) : list byte := enc c_SBody s.

Section digest.
Context (xxh3_128 : list byte → Z).

Definition state_digest (s : SBody) : Digest := to_be 16 (xxh3_128 (canonical_encode s)).
End digest.
