(* ===== verification/Messages.v ===== *)
(** * Messages (crates/fxsh/src/messages.rs)

    The FXSH messages, their payload codecs, the command dispatch of
    [Message::decode_payload] and the typed error details. *)

From S2P Require Import Prelude Wire Types.
From Stdlib Require Import ZArith Lia Strings.Byte.
From stdpp Require Import base list option decidable.

#[local] Open Scope Z_scope.

(** ** Message records *)

Record Hello := mk_Hello {
  hello_major : Z;
  hello_minor : Z;
  hello_capabilities : Z;
  hello_client_kind : ClientKind;
  hello_client_instance_id : Uuid;
}.
#[global] Instance Hello_eq_dec : EqDecision Hello.
Proof. solve_decision. Defined.
Definition c_Hello : Codec Hello := {|
  enc v :=
    enc c_u16 (hello_major v) ++
    enc c_u16 (hello_minor v) ++
    enc c_u64 (hello_capabilities v) ++
    enc c_ClientKind (hello_client_kind v) ++
    enc c_uuid (hello_client_instance_id v);
  dec :=
    major ← dec c_u16;
    minor ← dec c_u16;
    capabilities ← dec c_u64;
    client_kind ← dec c_ClientKind;
    client_instance_id ← dec c_uuid;
    mret (mk_Hello major minor capabilities client_kind client_instance_id);
  wf v :=
    wf c_u16 (hello_major v) &&
    wf c_u16 (hello_minor v) &&
    wf c_u64 (hello_capabilities v) &&
    wf c_ClientKind (hello_client_kind v) &&
    wf c_uuid (hello_client_instance_id v);
|}.
#[export] Instance c_Hello_ok : CodecOk c_Hello.
Proof. codec_struct c_Hello. Qed.

Record HelloAck := mk_HelloAck {
  hack_major : Z;
  hack_minor : Z;
  hack_capabilities : Z;
  hack_host_instance_id : Uuid;
  hack_supervisor : Supervisor;
  hack_pid : Z;
  hack_process_start_time : Z;
  hack_host_version : String;
}.
#[global] Instance HelloAck_eq_dec : EqDecision HelloAck.
Proof. solve_decision. Defined.
Definition c_HelloAck : Codec HelloAck := {|
  enc v :=
    enc c_u16 (hack_major v) ++
    enc c_u16 (hack_minor v) ++
    enc c_u64 (hack_capabilities v) ++
    enc c_uuid (hack_host_instance_id v) ++
    enc c_Supervisor (hack_supervisor v) ++
    enc c_u32 (hack_pid v) ++
    enc c_u64 (hack_process_start_time v) ++
    enc c_string (hack_host_version v);
  dec :=
    major ← dec c_u16;
    minor ← dec c_u16;
    capabilities ← dec c_u64;
    host_instance_id ← dec c_uuid;
    supervisor ← dec c_Supervisor;
    pid ← dec c_u32;
    process_start_time ← dec c_u64;
    host_version ← dec c_string;
    mret (mk_HelloAck major minor capabilities host_instance_id supervisor pid process_start_time host_version);
  wf v :=
    wf c_u16 (hack_major v) &&
    wf c_u16 (hack_minor v) &&
    wf c_u64 (hack_capabilities v) &&
    wf c_uuid (hack_host_instance_id v) &&
    wf c_Supervisor (hack_supervisor v) &&
    wf c_u32 (hack_pid v) &&
    wf c_u64 (hack_process_start_time v) &&
    wf c_string (hack_host_version v);
|}.
#[export] Instance c_HelloAck_ok : CodecOk c_HelloAck.
Proof. codec_struct c_HelloAck. Qed.

Record Spawn := mk_Spawn {
  spawn_operation_id : OperationId;
  spawn_cols : Z;
  spawn_rows : Z;
  spawn_program : String;
  spawn_args : list String;
  spawn_env : list (String * String);
  spawn_cwd : String;
}.
#[global] Instance Spawn_eq_dec : EqDecision Spawn.
Proof. solve_decision. Defined.
Definition c_Spawn : Codec Spawn := {|
  enc v :=
    enc c_OperationId (spawn_operation_id v) ++
    enc c_u16 (spawn_cols v) ++
    enc c_u16 (spawn_rows v) ++
    enc c_string (spawn_program v) ++
    enc (c_vec c_string) (spawn_args v) ++
    enc (c_vec (c_pair c_string c_string)) (spawn_env v) ++
    enc c_string (spawn_cwd v);
  dec :=
    operation_id ← dec c_OperationId;
    cols ← dec c_u16;
    rows ← dec c_u16;
    program ← dec c_string;
    args ← dec (c_vec c_string);
    env ← dec (c_vec (c_pair c_string c_string));
    cwd ← dec c_string;
    mret (mk_Spawn operation_id cols rows program args env cwd);
  wf v :=
    wf c_OperationId (spawn_operation_id v) &&
    wf c_u16 (spawn_cols v) &&
    wf c_u16 (spawn_rows v) &&
    wf c_string (spawn_program v) &&
    wf (c_vec c_string) (spawn_args v) &&
    wf (c_vec (c_pair c_string c_string)) (spawn_env v) &&
    wf c_string (spawn_cwd v);
|}.
#[export] Instance c_Spawn_ok : CodecOk c_Spawn.
Proof. codec_struct c_Spawn. Qed.

Record SpawnResult := mk_SpawnResult {
  spr_operation_id : OperationId;
  spr_session_id : Uuid;
  spr_session_incarnation : Uuid;
  spr_pid : Z;
  spr_created : bool;
  spr_created_table_revision : Z;
}.
#[global] Instance SpawnResult_eq_dec : EqDecision SpawnResult.
Proof. solve_decision. Defined.
Definition c_SpawnResult : Codec SpawnResult := {|
  enc v :=
    enc c_OperationId (spr_operation_id v) ++
    enc c_uuid (spr_session_id v) ++
    enc c_uuid (spr_session_incarnation v) ++
    enc c_u32 (spr_pid v) ++
    enc c_bool (spr_created v) ++
    enc c_u64 (spr_created_table_revision v);
  dec :=
    operation_id ← dec c_OperationId;
    session_id ← dec c_uuid;
    session_incarnation ← dec c_uuid;
    pid ← dec c_u32;
    created ← dec c_bool;
    created_table_revision ← dec c_u64;
    mret (mk_SpawnResult operation_id session_id session_incarnation pid created created_table_revision);
  wf v :=
    wf c_OperationId (spr_operation_id v) &&
    wf c_uuid (spr_session_id v) &&
    wf c_uuid (spr_session_incarnation v) &&
    wf c_u32 (spr_pid v) &&
    wf c_bool (spr_created v) &&
    wf c_u64 (spr_created_table_revision v);
|}.
#[export] Instance c_SpawnResult_ok : CodecOk c_SpawnResult.
Proof. codec_struct c_SpawnResult. Qed.

Record AcquireLease := mk_AcquireLease {
  acq_client_instance_id : Uuid;
  acq_lease_request_id : Z;
  acq_scope : Scope;
}.
#[global] Instance AcquireLease_eq_dec : EqDecision AcquireLease.
Proof. solve_decision. Defined.
Definition c_AcquireLease : Codec AcquireLease := {|
  enc v :=
    enc c_uuid (acq_client_instance_id v) ++
    enc c_u64 (acq_lease_request_id v) ++
    enc c_Scope (acq_scope v);
  dec :=
    client_instance_id ← dec c_uuid;
    lease_request_id ← dec c_u64;
    scope ← dec c_Scope;
    mret (mk_AcquireLease client_instance_id lease_request_id scope);
  wf v :=
    wf c_uuid (acq_client_instance_id v) &&
    wf c_u64 (acq_lease_request_id v) &&
    wf c_Scope (acq_scope v);
|}.
#[export] Instance c_AcquireLease_ok : CodecOk c_AcquireLease.
Proof. codec_struct c_AcquireLease. Qed.

Record PriorEpoch := mk_PriorEpoch {
  prior_epoch : Z;
  prior_final_accepted : Z;
  prior_committed : Z;
}.
#[global] Instance PriorEpoch_eq_dec : EqDecision PriorEpoch.
Proof. solve_decision. Defined.
Definition c_PriorEpoch : Codec PriorEpoch := {|
  enc v :=
    enc c_u64 (prior_epoch v) ++
    enc c_u64 (prior_final_accepted v) ++
    enc c_u64 (prior_committed v);
  dec :=
    epoch ← dec c_u64;
    final_accepted ← dec c_u64;
    committed ← dec c_u64;
    mret (mk_PriorEpoch epoch final_accepted committed);
  wf v :=
    wf c_u64 (prior_epoch v) &&
    wf c_u64 (prior_final_accepted v) &&
    wf c_u64 (prior_committed v);
|}.
#[export] Instance c_PriorEpoch_ok : CodecOk c_PriorEpoch.
Proof. codec_struct c_PriorEpoch. Qed.

Record ResizeApplied := mk_ResizeApplied {
  rap_epoch : Z;
  rap_seq : Z;
  rap_cols : Z;
  rap_rows : Z;
}.
#[global] Instance ResizeApplied_eq_dec : EqDecision ResizeApplied.
Proof. solve_decision. Defined.
Definition c_ResizeApplied : Codec ResizeApplied := {|
  enc v :=
    enc c_u64 (rap_epoch v) ++
    enc c_u64 (rap_seq v) ++
    enc c_u16 (rap_cols v) ++
    enc c_u16 (rap_rows v);
  dec :=
    epoch ← dec c_u64;
    seq ← dec c_u64;
    cols ← dec c_u16;
    rows ← dec c_u16;
    mret (mk_ResizeApplied epoch seq cols rows);
  wf v :=
    wf c_u64 (rap_epoch v) &&
    wf c_u64 (rap_seq v) &&
    wf c_u16 (rap_cols v) &&
    wf c_u16 (rap_rows v);
|}.
#[export] Instance c_ResizeApplied_ok : CodecOk c_ResizeApplied.
Proof. codec_struct c_ResizeApplied. Qed.

Record LeaseGranted := mk_LeaseGranted {
  lg_client_instance_id : Uuid;
  lg_lease_request_id : Z;
  lg_scope : Scope;
  lg_epoch : Z;
  lg_prior : option PriorEpoch;
  lg_resize_applied : option ResizeApplied;
}.
#[global] Instance LeaseGranted_eq_dec : EqDecision LeaseGranted.
Proof. solve_decision. Defined.
Definition LeaseGranted_check (v : LeaseGranted) : DResult unit :=
  let input := bool_decide (lg_scope v = Scope_Input) in
  dr_if ((bool_decide (is_Some (lg_prior v)) && negb input)
         || eqb (bool_decide (is_Some (lg_resize_applied v))) input) OptCondition.
Definition c_LeaseGranted : Codec LeaseGranted := {|
  enc v :=
    enc c_uuid (lg_client_instance_id v) ++
    enc c_u64 (lg_lease_request_id v) ++
    enc c_Scope (lg_scope v) ++
    enc c_u64 (lg_epoch v) ++
    enc (c_option c_PriorEpoch) (lg_prior v) ++
    enc (c_option c_ResizeApplied) (lg_resize_applied v);
  dec :=
    client_instance_id ← dec c_uuid;
    lease_request_id ← dec c_u64;
    scope ← dec c_Scope;
    epoch ← dec c_u64;
    prior ← dec (c_option c_PriorEpoch);
    resize_applied ← dec (c_option c_ResizeApplied);
    rd_checked LeaseGranted_check (mk_LeaseGranted client_instance_id lease_request_id scope epoch prior resize_applied);
  wf v :=
    wf c_uuid (lg_client_instance_id v) &&
    wf c_u64 (lg_lease_request_id v) &&
    wf c_Scope (lg_scope v) &&
    wf c_u64 (lg_epoch v) &&
    wf (c_option c_PriorEpoch) (lg_prior v) &&
    wf (c_option c_ResizeApplied) (lg_resize_applied v) &&
    is_ok (LeaseGranted_check v);
|}.
#[export] Instance c_LeaseGranted_ok : CodecOk c_LeaseGranted.
Proof. codec_struct c_LeaseGranted. Qed.

Record ReleaseLease := mk_ReleaseLease {
  rel_client_instance_id : Uuid;
  rel_lease_request_id : Z;
  rel_scope : Scope;
  rel_epoch : Z;
}.
#[global] Instance ReleaseLease_eq_dec : EqDecision ReleaseLease.
Proof. solve_decision. Defined.
Definition c_ReleaseLease : Codec ReleaseLease := {|
  enc v :=
    enc c_uuid (rel_client_instance_id v) ++
    enc c_u64 (rel_lease_request_id v) ++
    enc c_Scope (rel_scope v) ++
    enc c_u64 (rel_epoch v);
  dec :=
    client_instance_id ← dec c_uuid;
    lease_request_id ← dec c_u64;
    scope ← dec c_Scope;
    epoch ← dec c_u64;
    mret (mk_ReleaseLease client_instance_id lease_request_id scope epoch);
  wf v :=
    wf c_uuid (rel_client_instance_id v) &&
    wf c_u64 (rel_lease_request_id v) &&
    wf c_Scope (rel_scope v) &&
    wf c_u64 (rel_epoch v);
|}.
#[export] Instance c_ReleaseLease_ok : CodecOk c_ReleaseLease.
Proof. codec_struct c_ReleaseLease. Qed.

Record LeaseReleased := mk_LeaseReleased {
  lrd_client_instance_id : Uuid;
  lrd_lease_request_id : Z;
  lrd_scope : Scope;
  lrd_epoch : Z;
  lrd_released : bool;
}.
#[global] Instance LeaseReleased_eq_dec : EqDecision LeaseReleased.
Proof. solve_decision. Defined.
Definition c_LeaseReleased : Codec LeaseReleased := {|
  enc v :=
    enc c_uuid (lrd_client_instance_id v) ++
    enc c_u64 (lrd_lease_request_id v) ++
    enc c_Scope (lrd_scope v) ++
    enc c_u64 (lrd_epoch v) ++
    enc c_bool (lrd_released v);
  dec :=
    client_instance_id ← dec c_uuid;
    lease_request_id ← dec c_u64;
    scope ← dec c_Scope;
    epoch ← dec c_u64;
    released ← dec c_bool;
    mret (mk_LeaseReleased client_instance_id lease_request_id scope epoch released);
  wf v :=
    wf c_uuid (lrd_client_instance_id v) &&
    wf c_u64 (lrd_lease_request_id v) &&
    wf c_Scope (lrd_scope v) &&
    wf c_u64 (lrd_epoch v) &&
    wf c_bool (lrd_released v);
|}.
#[export] Instance c_LeaseReleased_ok : CodecOk c_LeaseReleased.
Proof. codec_struct c_LeaseReleased. Qed.

Record LeaseRevoked := mk_LeaseRevoked {
  lrv_holder_instance_id : Uuid;
  lrv_scope : Scope;
  lrv_revoked_epoch : Z;
  lrv_new_epoch : Z;
}.
#[global] Instance LeaseRevoked_eq_dec : EqDecision LeaseRevoked.
Proof. solve_decision. Defined.
Definition c_LeaseRevoked : Codec LeaseRevoked := {|
  enc v :=
    enc c_uuid (lrv_holder_instance_id v) ++
    enc c_Scope (lrv_scope v) ++
    enc c_u64 (lrv_revoked_epoch v) ++
    enc c_u64 (lrv_new_epoch v);
  dec :=
    holder_instance_id ← dec c_uuid;
    scope ← dec c_Scope;
    revoked_epoch ← dec c_u64;
    new_epoch ← dec c_u64;
    mret (mk_LeaseRevoked holder_instance_id scope revoked_epoch new_epoch);
  wf v :=
    wf c_uuid (lrv_holder_instance_id v) &&
    wf c_Scope (lrv_scope v) &&
    wf c_u64 (lrv_revoked_epoch v) &&
    wf c_u64 (lrv_new_epoch v);
|}.
#[export] Instance c_LeaseRevoked_ok : CodecOk c_LeaseRevoked.
Proof. codec_struct c_LeaseRevoked. Qed.

Record Reclaim := mk_Reclaim {
  rcl_client_instance_id : Uuid;
  rcl_lease_request_id : Z;
  rcl_scope : Scope;
  rcl_epoch : Z;
}.
#[global] Instance Reclaim_eq_dec : EqDecision Reclaim.
Proof. solve_decision. Defined.
Definition c_Reclaim : Codec Reclaim := {|
  enc v :=
    enc c_uuid (rcl_client_instance_id v) ++
    enc c_u64 (rcl_lease_request_id v) ++
    enc c_Scope (rcl_scope v) ++
    enc c_u64 (rcl_epoch v);
  dec :=
    client_instance_id ← dec c_uuid;
    lease_request_id ← dec c_u64;
    scope ← dec c_Scope;
    epoch ← dec c_u64;
    mret (mk_Reclaim client_instance_id lease_request_id scope epoch);
  wf v :=
    wf c_uuid (rcl_client_instance_id v) &&
    wf c_u64 (rcl_lease_request_id v) &&
    wf c_Scope (rcl_scope v) &&
    wf c_u64 (rcl_epoch v);
|}.
#[export] Instance c_Reclaim_ok : CodecOk c_Reclaim.
Proof. codec_struct c_Reclaim. Qed.

Record InputProgress := mk_InputProgress {
  ip_accepted : Z;
  ip_committed : Z;
}.
#[global] Instance InputProgress_eq_dec : EqDecision InputProgress.
Proof. solve_decision. Defined.
Definition c_InputProgress : Codec InputProgress := {|
  enc v :=
    enc c_u64 (ip_accepted v) ++
    enc c_u64 (ip_committed v);
  dec :=
    accepted ← dec c_u64;
    committed ← dec c_u64;
    mret (mk_InputProgress accepted committed);
  wf v :=
    wf c_u64 (ip_accepted v) &&
    wf c_u64 (ip_committed v);
|}.
#[export] Instance c_InputProgress_ok : CodecOk c_InputProgress.
Proof. codec_struct c_InputProgress. Qed.

Record InputFinal := mk_InputFinal {
  ifin_final_accepted : Z;
  ifin_committed : Z;
  ifin_pending_dropped : Z;
}.
#[global] Instance InputFinal_eq_dec : EqDecision InputFinal.
Proof. solve_decision. Defined.
Definition c_InputFinal : Codec InputFinal := {|
  enc v :=
    enc c_u64 (ifin_final_accepted v) ++
    enc c_u64 (ifin_committed v) ++
    enc c_u64 (ifin_pending_dropped v);
  dec :=
    final_accepted ← dec c_u64;
    committed ← dec c_u64;
    pending_dropped ← dec c_u64;
    mret (mk_InputFinal final_accepted committed pending_dropped);
  wf v :=
    wf c_u64 (ifin_final_accepted v) &&
    wf c_u64 (ifin_committed v) &&
    wf c_u64 (ifin_pending_dropped v);
|}.
#[export] Instance c_InputFinal_ok : CodecOk c_InputFinal.
Proof. codec_struct c_InputFinal. Qed.

Record ReclaimResult := mk_ReclaimResult {
  rr_client_instance_id : Uuid;
  rr_lease_request_id : Z;
  rr_scope : Scope;
  rr_requested_epoch : Z;
  rr_ok : bool;
  rr_current_epoch : Z;
  rr_input : option InputProgress;
  rr_input_final : option InputFinal;
  rr_resize : option ResizeApplied;
}.
#[global] Instance ReclaimResult_eq_dec : EqDecision ReclaimResult.
Proof. solve_decision. Defined.
Definition ReclaimResult_check (v : ReclaimResult) : DResult unit :=
  let input := bool_decide (rr_scope v = Scope_Input) in
  dr_and (dr_if (negb (eqb (bool_decide (is_Some (rr_input v))) (input && rr_ok v))
                 || negb (eqb (bool_decide (is_Some (rr_input_final v))) (input && negb (rr_ok v)))
                 || negb (eqb (bool_decide (is_Some (rr_resize v))) (negb input))) OptCondition)
         (dr_if (rr_ok v && negb (rr_current_epoch v =? rr_requested_epoch v)) BadShape).
Definition c_ReclaimResult : Codec ReclaimResult := {|
  enc v :=
    enc c_uuid (rr_client_instance_id v) ++
    enc c_u64 (rr_lease_request_id v) ++
    enc c_Scope (rr_scope v) ++
    enc c_u64 (rr_requested_epoch v) ++
    enc c_bool (rr_ok v) ++
    enc c_u64 (rr_current_epoch v) ++
    enc (c_option c_InputProgress) (rr_input v) ++
    enc (c_option c_InputFinal) (rr_input_final v) ++
    enc (c_option c_ResizeApplied) (rr_resize v);
  dec :=
    client_instance_id ← dec c_uuid;
    lease_request_id ← dec c_u64;
    scope ← dec c_Scope;
    requested_epoch ← dec c_u64;
    ok ← dec c_bool;
    current_epoch ← dec c_u64;
    input ← dec (c_option c_InputProgress);
    input_final ← dec (c_option c_InputFinal);
    resize ← dec (c_option c_ResizeApplied);
    rd_checked ReclaimResult_check (mk_ReclaimResult client_instance_id lease_request_id scope requested_epoch ok current_epoch input input_final resize);
  wf v :=
    wf c_uuid (rr_client_instance_id v) &&
    wf c_u64 (rr_lease_request_id v) &&
    wf c_Scope (rr_scope v) &&
    wf c_u64 (rr_requested_epoch v) &&
    wf c_bool (rr_ok v) &&
    wf c_u64 (rr_current_epoch v) &&
    wf (c_option c_InputProgress) (rr_input v) &&
    wf (c_option c_InputFinal) (rr_input_final v) &&
    wf (c_option c_ResizeApplied) (rr_resize v) &&
    is_ok (ReclaimResult_check v);
|}.
#[export] Instance c_ReclaimResult_ok : CodecOk c_ReclaimResult.
Proof. codec_struct c_ReclaimResult. Qed.

Record WriteInput := mk_WriteInput {
  wi_client_instance_id : Uuid;
  wi_epoch : Z;
  wi_start : Z;
  wi_bytes : Bytes;
  wi_crc32c : Z;
}.
#[global] Instance WriteInput_eq_dec : EqDecision WriteInput.
Proof. solve_decision. Defined.
Definition c_WriteInput : Codec WriteInput := {|
  enc v :=
    enc c_uuid (wi_client_instance_id v) ++
    enc c_u64 (wi_epoch v) ++
    enc c_u64 (wi_start v) ++
    enc c_bytes (wi_bytes v) ++
    enc c_u32 (wi_crc32c v);
  dec :=
    client_instance_id ← dec c_uuid;
    epoch ← dec c_u64;
    start ← dec c_u64;
    bytes ← dec c_bytes;
    crc32c ← dec c_u32;
    mret (mk_WriteInput client_instance_id epoch start bytes crc32c);
  wf v :=
    wf c_uuid (wi_client_instance_id v) &&
    wf c_u64 (wi_epoch v) &&
    wf c_u64 (wi_start v) &&
    wf c_bytes (wi_bytes v) &&
    wf c_u32 (wi_crc32c v);
|}.
#[export] Instance c_WriteInput_ok : CodecOk c_WriteInput.
Proof. codec_struct c_WriteInput. Qed.

Record InputAck := mk_InputAck {
  ia_client_instance_id : Uuid;
  ia_epoch : Z;
  ia_accepted : Z;
  ia_committed : Z;
}.
#[global] Instance InputAck_eq_dec : EqDecision InputAck.
Proof. solve_decision. Defined.
Definition c_InputAck : Codec InputAck := {|
  enc v :=
    enc c_uuid (ia_client_instance_id v) ++
    enc c_u64 (ia_epoch v) ++
    enc c_u64 (ia_accepted v) ++
    enc c_u64 (ia_committed v);
  dec :=
    client_instance_id ← dec c_uuid;
    epoch ← dec c_u64;
    accepted ← dec c_u64;
    committed ← dec c_u64;
    mret (mk_InputAck client_instance_id epoch accepted committed);
  wf v :=
    wf c_uuid (ia_client_instance_id v) &&
    wf c_u64 (ia_epoch v) &&
    wf c_u64 (ia_accepted v) &&
    wf c_u64 (ia_committed v);
|}.
#[export] Instance c_InputAck_ok : CodecOk c_InputAck.
Proof. codec_struct c_InputAck. Qed.

Record GetEpochState := mk_GetEpochState {
  ges_client_instance_id : Uuid;
  ges_epoch : Z;
}.
#[global] Instance GetEpochState_eq_dec : EqDecision GetEpochState.
Proof. solve_decision. Defined.
Definition c_GetEpochState : Codec GetEpochState := {|
  enc v :=
    enc c_uuid (ges_client_instance_id v) ++
    enc c_u64 (ges_epoch v);
  dec :=
    client_instance_id ← dec c_uuid;
    epoch ← dec c_u64;
    mret (mk_GetEpochState client_instance_id epoch);
  wf v :=
    wf c_uuid (ges_client_instance_id v) &&
    wf c_u64 (ges_epoch v);
|}.
#[export] Instance c_GetEpochState_ok : CodecOk c_GetEpochState.
Proof. codec_struct c_GetEpochState. Qed.

Record EpochState := mk_EpochState {
  es_epoch : Z;
  es_final_accepted : Z;
  es_committed : Z;
  es_pending_dropped : Z;
  es_fenced : bool;
}.
#[global] Instance EpochState_eq_dec : EqDecision EpochState.
Proof. solve_decision. Defined.
Definition c_EpochState : Codec EpochState := {|
  enc v :=
    enc c_u64 (es_epoch v) ++
    enc c_u64 (es_final_accepted v) ++
    enc c_u64 (es_committed v) ++
    enc c_u64 (es_pending_dropped v) ++
    enc c_bool (es_fenced v);
  dec :=
    epoch ← dec c_u64;
    final_accepted ← dec c_u64;
    committed ← dec c_u64;
    pending_dropped ← dec c_u64;
    fenced ← dec c_bool;
    mret (mk_EpochState epoch final_accepted committed pending_dropped fenced);
  wf v :=
    wf c_u64 (es_epoch v) &&
    wf c_u64 (es_final_accepted v) &&
    wf c_u64 (es_committed v) &&
    wf c_u64 (es_pending_dropped v) &&
    wf c_bool (es_fenced v);
|}.
#[export] Instance c_EpochState_ok : CodecOk c_EpochState.
Proof. codec_struct c_EpochState. Qed.

Record Resize := mk_Resize {
  rz_resize_epoch : Z;
  rz_resize_seq : Z;
  rz_cols : Z;
  rz_rows : Z;
}.
#[global] Instance Resize_eq_dec : EqDecision Resize.
Proof. solve_decision. Defined.
Definition c_Resize : Codec Resize := {|
  enc v :=
    enc c_u64 (rz_resize_epoch v) ++
    enc c_u64 (rz_resize_seq v) ++
    enc c_u16 (rz_cols v) ++
    enc c_u16 (rz_rows v);
  dec :=
    resize_epoch ← dec c_u64;
    resize_seq ← dec c_u64;
    cols ← dec c_u16;
    rows ← dec c_u16;
    mret (mk_Resize resize_epoch resize_seq cols rows);
  wf v :=
    wf c_u64 (rz_resize_epoch v) &&
    wf c_u64 (rz_resize_seq v) &&
    wf c_u16 (rz_cols v) &&
    wf c_u16 (rz_rows v);
|}.
#[export] Instance c_Resize_ok : CodecOk c_Resize.
Proof. codec_struct c_Resize. Qed.

Record ResizeAck := mk_ResizeAck {
  rza_epoch : Z;
  rza_seq : Z;
  rza_cols : Z;
  rza_rows : Z;
}.
#[global] Instance ResizeAck_eq_dec : EqDecision ResizeAck.
Proof. solve_decision. Defined.
Definition c_ResizeAck : Codec ResizeAck := {|
  enc v :=
    enc c_u64 (rza_epoch v) ++
    enc c_u64 (rza_seq v) ++
    enc c_u16 (rza_cols v) ++
    enc c_u16 (rza_rows v);
  dec :=
    epoch ← dec c_u64;
    seq ← dec c_u64;
    cols ← dec c_u16;
    rows ← dec c_u16;
    mret (mk_ResizeAck epoch seq cols rows);
  wf v :=
    wf c_u64 (rza_epoch v) &&
    wf c_u64 (rza_seq v) &&
    wf c_u16 (rza_cols v) &&
    wf c_u16 (rza_rows v);
|}.
#[export] Instance c_ResizeAck_ok : CodecOk c_ResizeAck.
Proof. codec_struct c_ResizeAck. Qed.

Record Subscribe := mk_Subscribe {
  sub_subscriber_id : Uuid;
  sub_attach_seq : Z;
  sub_client_known_revision : option Z;
  sub_client_known_incarnation : option Uuid;
}.
#[global] Instance Subscribe_eq_dec : EqDecision Subscribe.
Proof. solve_decision. Defined.
Definition c_Subscribe : Codec Subscribe := {|
  enc v :=
    enc c_uuid (sub_subscriber_id v) ++
    enc c_u64 (sub_attach_seq v) ++
    enc (c_option c_u64) (sub_client_known_revision v) ++
    enc (c_option c_uuid) (sub_client_known_incarnation v);
  dec :=
    subscriber_id ← dec c_uuid;
    attach_seq ← dec c_u64;
    client_known_revision ← dec (c_option c_u64);
    client_known_incarnation ← dec (c_option c_uuid);
    mret (mk_Subscribe subscriber_id attach_seq client_known_revision client_known_incarnation);
  wf v :=
    wf c_uuid (sub_subscriber_id v) &&
    wf c_u64 (sub_attach_seq v) &&
    wf (c_option c_u64) (sub_client_known_revision v) &&
    wf (c_option c_uuid) (sub_client_known_incarnation v);
|}.
#[export] Instance c_Subscribe_ok : CodecOk c_Subscribe.
Proof. codec_struct c_Subscribe. Qed.

Record SubscribeAck := mk_SubscribeAck {
  suba_attach_seq : Z;
  suba_subscription_id : Z;
  suba_session_incarnation : Uuid;
  suba_revision : Z;
  suba_snapshot_follows : bool;
}.
#[global] Instance SubscribeAck_eq_dec : EqDecision SubscribeAck.
Proof. solve_decision. Defined.
Definition c_SubscribeAck : Codec SubscribeAck := {|
  enc v :=
    enc c_u64 (suba_attach_seq v) ++
    enc c_u64 (suba_subscription_id v) ++
    enc c_uuid (suba_session_incarnation v) ++
    enc c_u64 (suba_revision v) ++
    enc c_bool (suba_snapshot_follows v);
  dec :=
    attach_seq ← dec c_u64;
    subscription_id ← dec c_u64;
    session_incarnation ← dec c_uuid;
    revision ← dec c_u64;
    snapshot_follows ← dec c_bool;
    mret (mk_SubscribeAck attach_seq subscription_id session_incarnation revision snapshot_follows);
  wf v :=
    wf c_u64 (suba_attach_seq v) &&
    wf c_u64 (suba_subscription_id v) &&
    wf c_uuid (suba_session_incarnation v) &&
    wf c_u64 (suba_revision v) &&
    wf c_bool (suba_snapshot_follows v);
|}.
#[export] Instance c_SubscribeAck_ok : CodecOk c_SubscribeAck.
Proof. codec_struct c_SubscribeAck. Qed.

Record Resync := mk_Resync {
  rsy_subscription_id : Z;
}.
#[global] Instance Resync_eq_dec : EqDecision Resync.
Proof. solve_decision. Defined.
Definition c_Resync : Codec Resync := {|
  enc v :=
    enc c_u64 (rsy_subscription_id v);
  dec :=
    subscription_id ← dec c_u64;
    mret (mk_Resync subscription_id);
  wf v :=
    wf c_u64 (rsy_subscription_id v);
|}.
#[export] Instance c_Resync_ok : CodecOk c_Resync.
Proof. codec_struct c_Resync. Qed.

Record Unsubscribe := mk_Unsubscribe {
  uns_subscription_id : Z;
}.
#[global] Instance Unsubscribe_eq_dec : EqDecision Unsubscribe.
Proof. solve_decision. Defined.
Definition c_Unsubscribe : Codec Unsubscribe := {|
  enc v :=
    enc c_u64 (uns_subscription_id v);
  dec :=
    subscription_id ← dec c_u64;
    mret (mk_Unsubscribe subscription_id);
  wf v :=
    wf c_u64 (uns_subscription_id v);
|}.
#[export] Instance c_Unsubscribe_ok : CodecOk c_Unsubscribe.
Proof. codec_struct c_Unsubscribe. Qed.

Record ListSessions := mk_ListSessions {
  ls_request_token : (Uuid * Z);
}.
#[global] Instance ListSessions_eq_dec : EqDecision ListSessions.
Proof. solve_decision. Defined.
Definition c_ListSessions : Codec ListSessions := {|
  enc v :=
    enc (c_pair c_uuid c_u64) (ls_request_token v);
  dec :=
    request_token ← dec (c_pair c_uuid c_u64);
    mret (mk_ListSessions request_token);
  wf v :=
    wf (c_pair c_uuid c_u64) (ls_request_token v);
|}.
#[export] Instance c_ListSessions_ok : CodecOk c_ListSessions.
Proof. codec_struct c_ListSessions. Qed.

Record Kill := mk_Kill {
  kill_operation_id : OperationId;
  kill_signal : Signal;
}.
#[global] Instance Kill_eq_dec : EqDecision Kill.
Proof. solve_decision. Defined.
Definition c_Kill : Codec Kill := {|
  enc v :=
    enc c_OperationId (kill_operation_id v) ++
    enc c_Signal (kill_signal v);
  dec :=
    operation_id ← dec c_OperationId;
    signal ← dec c_Signal;
    mret (mk_Kill operation_id signal);
  wf v :=
    wf c_OperationId (kill_operation_id v) &&
    wf c_Signal (kill_signal v);
|}.
#[export] Instance c_Kill_ok : CodecOk c_Kill.
Proof. codec_struct c_Kill. Qed.

Record KillResult := mk_KillResult {
  kr_operation_id : OperationId;
  kr_delivered : bool;
}.
#[global] Instance KillResult_eq_dec : EqDecision KillResult.
Proof. solve_decision. Defined.
Definition c_KillResult : Codec KillResult := {|
  enc v :=
    enc c_OperationId (kr_operation_id v) ++
    enc c_bool (kr_delivered v);
  dec :=
    operation_id ← dec c_OperationId;
    delivered ← dec c_bool;
    mret (mk_KillResult operation_id delivered);
  wf v :=
    wf c_OperationId (kr_operation_id v) &&
    wf c_bool (kr_delivered v);
|}.
#[export] Instance c_KillResult_ok : CodecOk c_KillResult.
Proof. codec_struct c_KillResult. Qed.

Record ChildExited := mk_ChildExited {
  cx_session_incarnation : Uuid;
  cx_exit_code : option Z;
  cx_posix_signal : option Z;
  cx_table_revision : Z;
  cx_pending_dropped_by_epoch : list (Z * Z);
}.
#[global] Instance ChildExited_eq_dec : EqDecision ChildExited.
Proof. solve_decision. Defined.
Definition ChildExited_check (v : ChildExited) : DResult unit :=
  dr_if (128 <? zlen (cx_pending_dropped_by_epoch v)) BadShape.
Definition c_ChildExited : Codec ChildExited := {|
  enc v :=
    enc c_uuid (cx_session_incarnation v) ++
    enc (c_option c_i32) (cx_exit_code v) ++
    enc (c_option c_u8) (cx_posix_signal v) ++
    enc c_u64 (cx_table_revision v) ++
    enc (c_vec (c_pair c_u64 c_u64)) (cx_pending_dropped_by_epoch v);
  dec :=
    session_incarnation ← dec c_uuid;
    exit_code ← dec (c_option c_i32);
    posix_signal ← dec (c_option c_u8);
    table_revision ← dec c_u64;
    pending_dropped_by_epoch ← dec (c_vec (c_pair c_u64 c_u64));
    rd_checked ChildExited_check (mk_ChildExited session_incarnation exit_code posix_signal table_revision pending_dropped_by_epoch);
  wf v :=
    wf c_uuid (cx_session_incarnation v) &&
    wf (c_option c_i32) (cx_exit_code v) &&
    wf (c_option c_u8) (cx_posix_signal v) &&
    wf c_u64 (cx_table_revision v) &&
    wf (c_vec (c_pair c_u64 c_u64)) (cx_pending_dropped_by_epoch v) &&
    is_ok (ChildExited_check v);
|}.
#[export] Instance c_ChildExited_ok : CodecOk c_ChildExited.
Proof. codec_struct c_ChildExited. Qed.

Record ErrorFrame := mk_ErrorFrame {
  ef_code : Z;
  ef_message : String;
  ef_detail : Bytes;
}.
#[global] Instance ErrorFrame_eq_dec : EqDecision ErrorFrame.
Proof. solve_decision. Defined.
Definition c_ErrorFrame : Codec ErrorFrame := {|
  enc v :=
    enc c_u16 (ef_code v) ++
    enc c_string (ef_message v) ++
    enc c_bytes (ef_detail v);
  dec :=
    code ← dec c_u16;
    message ← dec c_string;
    detail ← dec c_bytes;
    mret (mk_ErrorFrame code message detail);
  wf v :=
    wf c_u16 (ef_code v) &&
    wf c_string (ef_message v) &&
    wf c_bytes (ef_detail v);
|}.
#[export] Instance c_ErrorFrame_ok : CodecOk c_ErrorFrame.
Proof. codec_struct c_ErrorFrame. Qed.

Record ReserveOperation := mk_ReserveOperation {
  ro_kind : OperationKind;
}.
#[global] Instance ReserveOperation_eq_dec : EqDecision ReserveOperation.
Proof. solve_decision. Defined.
Definition c_ReserveOperation : Codec ReserveOperation := {|
  enc v :=
    enc c_OperationKind (ro_kind v);
  dec :=
    kind ← dec c_OperationKind;
    mret (mk_ReserveOperation kind);
  wf v :=
    wf c_OperationKind (ro_kind v);
|}.
#[export] Instance c_ReserveOperation_ok : CodecOk c_ReserveOperation.
Proof. codec_struct c_ReserveOperation. Qed.

Record OperationReserved := mk_OperationReserved {
  ord_operation_id : OperationId;
}.
#[global] Instance OperationReserved_eq_dec : EqDecision OperationReserved.
Proof. solve_decision. Defined.
Definition c_OperationReserved : Codec OperationReserved := {|
  enc v :=
    enc c_OperationId (ord_operation_id v);
  dec :=
    operation_id ← dec c_OperationId;
    mret (mk_OperationReserved operation_id);
  wf v :=
    wf c_OperationId (ord_operation_id v);
|}.
#[export] Instance c_OperationReserved_ok : CodecOk c_OperationReserved.
Proof. codec_struct c_OperationReserved. Qed.

Record LeaseVacated := mk_LeaseVacated {
  lv_holder_instance_id : Uuid;
  lv_scope : Scope;
  lv_epoch : Z;
}.
#[global] Instance LeaseVacated_eq_dec : EqDecision LeaseVacated.
Proof. solve_decision. Defined.
Definition c_LeaseVacated : Codec LeaseVacated := {|
  enc v :=
    enc c_uuid (lv_holder_instance_id v) ++
    enc c_Scope (lv_scope v) ++
    enc c_u64 (lv_epoch v);
  dec :=
    holder_instance_id ← dec c_uuid;
    scope ← dec c_Scope;
    epoch ← dec c_u64;
    mret (mk_LeaseVacated holder_instance_id scope epoch);
  wf v :=
    wf c_uuid (lv_holder_instance_id v) &&
    wf c_Scope (lv_scope v) &&
    wf c_u64 (lv_epoch v);
|}.
#[export] Instance c_LeaseVacated_ok : CodecOk c_LeaseVacated.
Proof. codec_struct c_LeaseVacated. Qed.

(** ** [Message] *)

Inductive Message : Type :=
| Msg_Hello (m : Hello)
| Msg_HelloAck (m : HelloAck)
| Msg_Spawn (m : Spawn)
| Msg_SpawnResult (m : SpawnResult)
| Msg_AcquireLease (m : AcquireLease)
| Msg_LeaseGranted (m : LeaseGranted)
| Msg_ReleaseLease (m : ReleaseLease)
| Msg_LeaseReleased (m : LeaseReleased)
| Msg_LeaseRevoked (m : LeaseRevoked)
| Msg_Reclaim (m : Reclaim)
| Msg_ReclaimResult (m : ReclaimResult)
| Msg_WriteInput (m : WriteInput)
| Msg_InputAck (m : InputAck)
| Msg_GetEpochState (m : GetEpochState)
| Msg_EpochState (m : EpochState)
| Msg_Resize (m : Resize)
| Msg_ResizeAck (m : ResizeAck)
| Msg_Subscribe (m : Subscribe)
| Msg_SubscribeAck (m : SubscribeAck)
| Msg_SnapshotFrame (m : SnapshotFrame)
| Msg_Delta (m : Delta)
| Msg_Resync (m : Resync)
| Msg_Unsubscribe (m : Unsubscribe)
| Msg_SessionState (m : SessionState)
| Msg_ListSessions (m : ListSessions)
| Msg_SessionList (m : SessionList)
| Msg_Kill (m : Kill)
| Msg_KillResult (m : KillResult)
| Msg_ChildExited (m : ChildExited)
| Msg_Error (m : ErrorFrame)
| Msg_ReserveOperation (m : ReserveOperation)
| Msg_OperationReserved (m : OperationReserved)
| Msg_LeaseVacated (m : LeaseVacated)
| Msg_GetSessionState.
#[global] Instance Message_eq_dec : EqDecision Message.
Proof. solve_decision. Defined.

Definition command (m : Message) : Z :=
  match m with
  | Msg_Hello _ => 0x01
  | Msg_HelloAck _ => 0x02
  | Msg_Spawn _ => 0x03
  | Msg_SpawnResult _ => 0x04
  | Msg_AcquireLease _ => 0x05
  | Msg_LeaseGranted _ => 0x06
  | Msg_ReleaseLease _ => 0x07
  | Msg_LeaseReleased _ => 0x08
  | Msg_LeaseRevoked _ => 0x09
  | Msg_Reclaim _ => 0x0A
  | Msg_ReclaimResult _ => 0x0B
  | Msg_WriteInput _ => 0x0C
  | Msg_InputAck _ => 0x0D
  | Msg_GetEpochState _ => 0x0E
  | Msg_EpochState _ => 0x0F
  | Msg_Resize _ => 0x10
  | Msg_ResizeAck _ => 0x11
  | Msg_Subscribe _ => 0x12
  | Msg_SubscribeAck _ => 0x13
  | Msg_SnapshotFrame _ => 0x14
  | Msg_Delta _ => 0x15
  | Msg_Resync _ => 0x16
  | Msg_Unsubscribe _ => 0x17
  | Msg_SessionState _ => 0x19
  | Msg_ListSessions _ => 0x1A
  | Msg_SessionList _ => 0x1B
  | Msg_Kill _ => 0x1C
  | Msg_KillResult _ => 0x1D
  | Msg_ChildExited _ => 0x1E
  | Msg_Error _ => 0x1F
  | Msg_ReserveOperation _ => 0x20
  | Msg_OperationReserved _ => 0x21
  | Msg_LeaseVacated _ => 0x22
  | Msg_GetSessionState => 0x18
  end.

Definition encode_payload (m : Message) : list byte :=
  match m with
  | Msg_Hello m => enc c_Hello m
  | Msg_HelloAck m => enc c_HelloAck m
  | Msg_Spawn m => enc c_Spawn m
  | Msg_SpawnResult m => enc c_SpawnResult m
  | Msg_AcquireLease m => enc c_AcquireLease m
  | Msg_LeaseGranted m => enc c_LeaseGranted m
  | Msg_ReleaseLease m => enc c_ReleaseLease m
  | Msg_LeaseReleased m => enc c_LeaseReleased m
  | Msg_LeaseRevoked m => enc c_LeaseRevoked m
  | Msg_Reclaim m => enc c_Reclaim m
  | Msg_ReclaimResult m => enc c_ReclaimResult m
  | Msg_WriteInput m => enc c_WriteInput m
  | Msg_InputAck m => enc c_InputAck m
  | Msg_GetEpochState m => enc c_GetEpochState m
  | Msg_EpochState m => enc c_EpochState m
  | Msg_Resize m => enc c_Resize m
  | Msg_ResizeAck m => enc c_ResizeAck m
  | Msg_Subscribe m => enc c_Subscribe m
  | Msg_SubscribeAck m => enc c_SubscribeAck m
  | Msg_SnapshotFrame m => enc c_SnapshotFrame m
  | Msg_Delta m => enc c_Delta m
  | Msg_Resync m => enc c_Resync m
  | Msg_Unsubscribe m => enc c_Unsubscribe m
  | Msg_SessionState m => enc c_SessionState m
  | Msg_ListSessions m => enc c_ListSessions m
  | Msg_SessionList m => enc c_SessionList m
  | Msg_Kill m => enc c_Kill m
  | Msg_KillResult m => enc c_KillResult m
  | Msg_ChildExited m => enc c_ChildExited m
  | Msg_Error m => enc c_ErrorFrame m
  | Msg_ReserveOperation m => enc c_ReserveOperation m
  | Msg_OperationReserved m => enc c_OperationReserved m
  | Msg_LeaseVacated m => enc c_LeaseVacated m
  | Msg_GetSessionState => []
  end.

Inductive PayloadError : Type :=
| UnknownCommand (command : Z)
| Violation (r : Reason).
#[global] Instance PayloadError_eq_dec : EqDecision PayloadError.
Proof. solve_decision. Defined.

(** [<$t>::dec(&mut r).map_err(PayloadError::Violation)?]; bytes left over after
    the last known field are ignored. *)
Definition dec_as {A} (c : Codec A) (wrap : A → Message) (payload : list byte)
    : Result Message PayloadError :=
  match dec c payload with
  | Ok (v, _) => Ok (wrap v)
  | Err e => Err (Violation e)
  end.

Definition decode_payload (cmd : Z) (payload : list byte) : Result Message PayloadError :=
  match cmd with
  | 0x01 => dec_as c_Hello Msg_Hello payload
  | 0x02 => dec_as c_HelloAck Msg_HelloAck payload
  | 0x03 => dec_as c_Spawn Msg_Spawn payload
  | 0x04 => dec_as c_SpawnResult Msg_SpawnResult payload
  | 0x05 => dec_as c_AcquireLease Msg_AcquireLease payload
  | 0x06 => dec_as c_LeaseGranted Msg_LeaseGranted payload
  | 0x07 => dec_as c_ReleaseLease Msg_ReleaseLease payload
  | 0x08 => dec_as c_LeaseReleased Msg_LeaseReleased payload
  | 0x09 => dec_as c_LeaseRevoked Msg_LeaseRevoked payload
  | 0x0A => dec_as c_Reclaim Msg_Reclaim payload
  | 0x0B => dec_as c_ReclaimResult Msg_ReclaimResult payload
  | 0x0C => dec_as c_WriteInput Msg_WriteInput payload
  | 0x0D => dec_as c_InputAck Msg_InputAck payload
  | 0x0E => dec_as c_GetEpochState Msg_GetEpochState payload
  | 0x0F => dec_as c_EpochState Msg_EpochState payload
  | 0x10 => dec_as c_Resize Msg_Resize payload
  | 0x11 => dec_as c_ResizeAck Msg_ResizeAck payload
  | 0x12 => dec_as c_Subscribe Msg_Subscribe payload
  | 0x13 => dec_as c_SubscribeAck Msg_SubscribeAck payload
  | 0x14 => dec_as c_SnapshotFrame Msg_SnapshotFrame payload
  | 0x15 => dec_as c_Delta Msg_Delta payload
  | 0x16 => dec_as c_Resync Msg_Resync payload
  | 0x17 => dec_as c_Unsubscribe Msg_Unsubscribe payload
  | 0x19 => dec_as c_SessionState Msg_SessionState payload
  | 0x1A => dec_as c_ListSessions Msg_ListSessions payload
  | 0x1B => dec_as c_SessionList Msg_SessionList payload
  | 0x1C => dec_as c_Kill Msg_Kill payload
  | 0x1D => dec_as c_KillResult Msg_KillResult payload
  | 0x1E => dec_as c_ChildExited Msg_ChildExited payload
  | 0x1F => dec_as c_ErrorFrame Msg_Error payload
  | 0x20 => dec_as c_ReserveOperation Msg_ReserveOperation payload
  | 0x21 => dec_as c_OperationReserved Msg_OperationReserved payload
  | 0x22 => dec_as c_LeaseVacated Msg_LeaseVacated payload
  | 0x18 => Ok Msg_GetSessionState
  | other => Err (UnknownCommand other)
  end.

(** The values a Rust [Message] can hold whose decoder checks pass. *)
Definition wf_message (m : Message) : bool :=
  match m with
  | Msg_Hello m => wf c_Hello m
  | Msg_HelloAck m => wf c_HelloAck m
  | Msg_Spawn m => wf c_Spawn m
  | Msg_SpawnResult m => wf c_SpawnResult m
  | Msg_AcquireLease m => wf c_AcquireLease m
  | Msg_LeaseGranted m => wf c_LeaseGranted m
  | Msg_ReleaseLease m => wf c_ReleaseLease m
  | Msg_LeaseReleased m => wf c_LeaseReleased m
  | Msg_LeaseRevoked m => wf c_LeaseRevoked m
  | Msg_Reclaim m => wf c_Reclaim m
  | Msg_ReclaimResult m => wf c_ReclaimResult m
  | Msg_WriteInput m => wf c_WriteInput m
  | Msg_InputAck m => wf c_InputAck m
  | Msg_GetEpochState m => wf c_GetEpochState m
  | Msg_EpochState m => wf c_EpochState m
  | Msg_Resize m => wf c_Resize m
  | Msg_ResizeAck m => wf c_ResizeAck m
  | Msg_Subscribe m => wf c_Subscribe m
  | Msg_SubscribeAck m => wf c_SubscribeAck m
  | Msg_SnapshotFrame m => wf c_SnapshotFrame m
  | Msg_Delta m => wf c_Delta m
  | Msg_Resync m => wf c_Resync m
  | Msg_Unsubscribe m => wf c_Unsubscribe m
  | Msg_SessionState m => wf c_SessionState m
  | Msg_ListSessions m => wf c_ListSessions m
  | Msg_SessionList m => wf c_SessionList m
  | Msg_Kill m => wf c_Kill m
  | Msg_KillResult m => wf c_KillResult m
  | Msg_ChildExited m => wf c_ChildExited m
  | Msg_Error m => wf c_ErrorFrame m
  | Msg_ReserveOperation m => wf c_ReserveOperation m
  | Msg_OperationReserved m => wf c_OperationReserved m
  | Msg_LeaseVacated m => wf c_LeaseVacated m
  | Msg_GetSessionState => true
  end.

(** ** [ErrorDetail] *)

Inductive ErrorDetail : Type :=
| StaleLease (scope : Scope) (current_epoch epoch_final_accepted : Z)
| InputGap (accepted : Z)
| InputDiverged (epoch accepted committed : Z)
| InputUnverifiable (epoch accepted committed retained_start : Z)
| InputBackpressure (accepted : Z)
| CorruptFrame
| StaleResize (applied_epoch applied_seq cols rows : Z)
| SessionNotFound
| OperationConflict (id : OperationId)
| OperationExpired (id : OperationId)
| OperationUnknown (id : OperationId)
| SlowConsumer (subscription_id : Z)
| VersionUnsupported (host_major host_minor : Z)
| UnsupportedCapability (capability_bit : Z)
| UnknownCommandDetail (command : Z)
| LimitExceeded (limit_kind limit : Z)
| ProtocolViolation (reason : Reason)
| StaleViewport
| StaleSubscribe (current_attach_seq : Z)
| EpochUnknown (epoch : Z)
| InstanceRetired
| OwnerUnreachable
| SpawnFailed.
#[global] Instance ErrorDetail_eq_dec : EqDecision ErrorDetail.
Proof. solve_decision. Defined.

Definition error_code (d : ErrorDetail) : Z :=
  match d with
  | StaleLease _ _ _ => 1
  | InputGap _ => 2
  | InputDiverged _ _ _ => 3
  | InputUnverifiable _ _ _ _ => 4
  | InputBackpressure _ => 5
  | CorruptFrame => 6
  | StaleResize _ _ _ _ => 7
  | SessionNotFound => 8
  | OperationConflict _ => 9
  | OperationExpired _ => 10
  | OperationUnknown _ => 11
  | SlowConsumer _ => 12
  | VersionUnsupported _ _ => 13
  | UnsupportedCapability _ => 14
  | UnknownCommandDetail _ => 15
  | LimitExceeded _ _ => 16
  | ProtocolViolation _ => 17
  | StaleViewport => 18
  | StaleSubscribe _ => 19
  | EpochUnknown _ => 20
  | InstanceRetired => 21
  | OwnerUnreachable => 22
  | SpawnFailed => 23
  end.

Definition encode_detail (d : ErrorDetail) : list byte :=
  match d with
  | StaleLease scope ce fa => enc c_Scope scope ++ enc c_u64 ce ++ enc c_u64 fa
  | InputGap a | InputBackpressure a => enc c_u64 a
  | InputDiverged e a c => enc c_u64 e ++ enc c_u64 a ++ enc c_u64 c
  | InputUnverifiable e a c rs => enc c_u64 e ++ enc c_u64 a ++ enc c_u64 c ++ enc c_u64 rs
  | StaleResize ae as_ cols rows => enc c_u64 ae ++ enc c_u64 as_ ++ enc c_u16 cols ++ enc c_u16 rows
  | OperationConflict id | OperationExpired id | OperationUnknown id => enc c_OperationId id
  | SlowConsumer s => enc c_u64 s
  | VersionUnsupported ma mi => enc c_u16 ma ++ enc c_u16 mi
  | UnsupportedCapability b => enc c_u8 b
  | UnknownCommandDetail c => enc c_u16 c
  | LimitExceeded k l => enc c_u8 k ++ enc c_u64 l
  | ProtocolViolation r => enc c_reason r
  | StaleSubscribe s => enc c_u64 s
  | EpochUnknown e => enc c_u64 e
  | CorruptFrame | SessionNotFound | StaleViewport | InstanceRetired | OwnerUnreachable
  | SpawnFailed => []
  end.

Definition rd_detail (code : Z) : Rd ErrorDetail :=
  match code with
  | 1 => s ← dec c_Scope; a ← dec c_u64; b ← dec c_u64; mret (StaleLease s a b)
  | 2 => a ← dec c_u64; mret (InputGap a)
  | 3 => e ← dec c_u64; a ← dec c_u64; c ← dec c_u64; mret (InputDiverged e a c)
  | 4 => e ← dec c_u64; a ← dec c_u64; c ← dec c_u64; rs ← dec c_u64; mret (InputUnverifiable e a c rs)
  | 5 => a ← dec c_u64; mret (InputBackpressure a)
  | 6 => mret CorruptFrame
  | 7 => e ← dec c_u64; s ← dec c_u64; c ← dec c_u16; r ← dec c_u16; mret (StaleResize e s c r)
  | 8 => mret SessionNotFound
  | 9 => i ← dec c_OperationId; mret (OperationConflict i)
  | 10 => i ← dec c_OperationId; mret (OperationExpired i)
  | 11 => i ← dec c_OperationId; mret (OperationUnknown i)
  | 12 => s ← dec c_u64; mret (SlowConsumer s)
  | 13 => a ← dec c_u16; b ← dec c_u16; mret (VersionUnsupported a b)
  | 14 => b ← dec c_u8; mret (UnsupportedCapability b)
  | 15 => c ← dec c_u16; mret (UnknownCommandDetail c)
  | 16 => k ← dec c_u8; l ← dec c_u64; mret (LimitExceeded k l)
  | 17 => r ← dec c_reason; mret (ProtocolViolation r)
  | 18 => mret StaleViewport
  | 19 => s ← dec c_u64; mret (StaleSubscribe s)
  | 20 => e ← dec c_u64; mret (EpochUnknown e)
  | 21 => mret InstanceRetired
  | 22 => mret OwnerUnreachable
  | 23 => mret SpawnFailed
  | _ => rd_fail BadEnum
  end.
Definition decode_detail (code : Z) (detail : list byte) : DResult ErrorDetail :=
  match rd_detail code detail with
  | Ok (d, _) => Ok d
  | Err e => Err e
  end.

Definition to_frame (d : ErrorDetail) (message : String) : ErrorFrame :=
  mk_ErrorFrame (error_code d) message (encode_detail d).

(** The field values a Rust [ErrorDetail] can hold. *)
Definition wf_detail (d : ErrorDetail) : bool :=
  match d with
  | StaleLease _ a b => is_u64 a && is_u64 b
  | InputGap a | InputBackpressure a | SlowConsumer a | StaleSubscribe a | EpochUnknown a => is_u64 a
  | InputDiverged a b c => is_u64 a && is_u64 b && is_u64 c
  | InputUnverifiable a b c d => is_u64 a && is_u64 b && is_u64 c && is_u64 d
  | StaleResize a b c d => is_u64 a && is_u64 b && is_u16 c && is_u16 d
  | OperationConflict i | OperationExpired i | OperationUnknown i => wf c_OperationId i
  | VersionUnsupported a b => is_u16 a && is_u16 b
  | UnsupportedCapability b => is_u8 b
  | UnknownCommandDetail c => is_u16 c
  | LimitExceeded k l => is_u8 k && is_u64 l
  | _ => true
  end.

(** ** Lemmas *)

Lemma dec_as_enc {A} (c : Codec A) `{!CodecOk c} wrap x k :
  wf c x = true → dec_as c wrap (enc c x ++ k) = Ok (wrap x).
Proof. intros Hx. unfold dec_as. by rewrite dec_enc. Qed.

Lemma dec_as_inv {A} (c : Codec A) `{!CodecOk c} wrap payload m :
  dec_as c wrap payload = Ok m →
  ∃ x k, wf c x = true ∧ payload = enc c x ++ k ∧ m = wrap x.
Proof.
  unfold dec_as. destruct (dec c payload) as [[x k]|] eqn:E; [|done].
  intros [= <-]. apply enc_dec in E as [? ?]. eauto.
Qed.

(** Residual bytes after the known fields do not change the decoded message. *)
Lemma decode_encode_payload m k :
  wf_message m = true → decode_payload (command m) (encode_payload m ++ k) = Ok m.
Proof. destruct m; cbn [wf_message command encode_payload decode_payload]; intros H;
  first [done | apply dec_as_enc; first [apply _ | exact H]]. Qed.

(** A decoded message is well formed, has the command it was decoded for, and
    the payload starts with its encoding. *)
Lemma decode_payload_inv cmd payload m :
  decode_payload cmd payload = Ok m →
  wf_message m = true ∧ command m = cmd ∧ ∃ k, payload = encode_payload m ++ k.
Proof.
  destruct cmd as [|p|p]; try done;
    repeat (destruct p as [p|p|]; try done); cbn [decode_payload]; intros H;
    first [ apply dec_as_inv in H as (x & k & Hx & -> & ->); [|apply _]; cbn; eauto
          | injection H as <-; cbn; eauto ].
Qed.

(** ** Properties *)

(** C37: every well-formed message survives its payload encoding, also when a
    newer peer has appended fields after the known ones. *)
Theorem message_roundtrip m residual :
  wf_message m = true →
  decode_payload (command m) (encode_payload m ++ residual) = Ok m.
Proof. apply decode_encode_payload. Qed.

Lemma message_roundtrip_witness :
  decode_payload 0x0D (encode_payload (Msg_InputAck (mk_InputAck (replicate 16 x07) 3 10 4)) ++ [xff]) =
    Ok (Msg_InputAck (mk_InputAck (replicate 16 x07) 3 10 4)).
Proof. exact (message_roundtrip (Msg_InputAck (mk_InputAck (replicate 16 x07) 3 10 4)) [xff] eq_refl). Defined.

(** A payload is decoded to at most one message and only from its canonical
    encoding: the message is well formed (its checks hold), answers the command
    asked for, and its encoding is a prefix of the payload. *)
Theorem decode_payload_sound cmd payload m :
  decode_payload cmd payload = Ok m →
  wf_message m = true ∧ command m = cmd ∧ ∃ residual, payload = encode_payload m ++ residual.
Proof. apply decode_payload_inv. Qed.

Lemma decode_payload_sound_witness :
  command (Msg_Resync (mk_Resync 5)) = 0x16.
Proof. exact (proj1 (proj2 (decode_payload_sound 0x16 (put_u64 5) (Msg_Resync (mk_Resync 5)) eq_refl))). Defined.

(** An error frame carries its detail: decoding the detail bytes under the
    frame's code gives the detail back. *)
Theorem error_detail_roundtrip d message :
  wf_detail d = true →
  decode_detail (ef_code (to_frame d message)) (ef_detail (to_frame d message)) = Ok d.
Proof.
  intros Hd. unfold decode_detail, to_frame. cbn [ef_code ef_detail].
  rewrite <- (app_nil_r (encode_detail d)).
  destruct d; cbn [error_code encode_detail rd_detail wf_detail] in *; bool_hyps;
    rewrite <- ?app_assoc; repeat (rewrite dec_enc_bind by (first [apply _ | assumption | by apply in_range_iff | done])); done.
Qed.

Lemma error_detail_roundtrip_witness :
  decode_detail 4 (encode_detail (InputUnverifiable 9 100 50 20)) = Ok (InputUnverifiable 9 100 50 20).
Proof. exact (error_detail_roundtrip (InputUnverifiable 9 100 50 20) [] eq_refl). Defined.
