(* ===== verification/Frame.v ===== *)
(** * Frames (crates/fxsh/src/frame.rs)

    The 40-byte frame header, [Frame::encode] and the incremental
    [decode_frame] that a connection runs on its receive buffer. *)

From S2P Require Import Prelude Wire Types Messages.
From Stdlib Require Import ZArith Lia Strings.Byte.
From stdpp Require Import base list option decidable.

#[local] Open Scope Z_scope.

Definition MAGIC : Z := 0x46585348.
Definition MAJOR : Z := 1.
Definition MINOR : Z := 0.
Definition HEADER_LEN : Z := 40.
Definition MAX_PAYLOAD : Z := 16 * 1024 * 1024.

Definition FLAG_RESPONSE : Z := Z.shiftl 1 0.
Definition FLAG_ERROR : Z := Z.shiftl 1 1.
Definition FLAG_EVENT : Z := Z.shiftl 1 2.
Definition FLAG_DEFINED : Z := Z.lor (Z.lor FLAG_RESPONSE FLAG_ERROR) FLAG_EVENT.

Record Header := mk_Header {
  h_major : Z;
  h_minor : Z;
  h_command : Z;
  h_flags : Z;
  h_session_id : Uuid;
  h_request_id : Z;
  h_payload_len : Z;
}.
#[global] Instance Header_eq_dec : EqDecision Header.
Proof. solve_decision. Defined.

Inductive FatalFrameError : Type :=
| BadMagic
| PayloadTooLarge (n : Z)
| UndefinedFlags (f : Z)
| FrameTruncated.
#[global] Instance FatalFrameError_eq_dec : EqDecision FatalFrameError.
Proof. solve_decision. Defined.

Definition Header_encode (h : Header) : list byte :=
  put_u32 MAGIC ++ put_u16 (h_major h) ++ put_u16 (h_minor h) ++ put_u16 (h_command h) ++
  put_u16 (h_flags h) ++ put_raw (h_session_id h) ++ put_u64 (h_request_id h) ++
  put_u32 (h_payload_len h).

(** [&b[o..o + n]] *)
Definition slice (b : list byte) (o n : nat) : list byte := take n (drop o b).

(** [b] is an array of [HEADER_LEN] bytes. *)
Definition Header_decode (b : list byte) : Result Header FatalFrameError :=
  let u16_at o := from_be (slice b o 2) in
  let u32_at o := from_be (slice b o 4) in
  if negb (u32_at 0%nat =? MAGIC) then Err BadMagic else
  let flags := u16_at 10%nat in
  if negb (Z.land flags (Z.lnot FLAG_DEFINED) =? 0) then Err (UndefinedFlags flags) else
  let payload_len := u32_at 36%nat in
  if MAX_PAYLOAD <? payload_len then Err (PayloadTooLarge payload_len) else
  Ok (mk_Header (u16_at 4%nat) (u16_at 6%nat) (u16_at 8%nat) flags (slice b 12 16)
        (from_be (slice b 28 8)) payload_len).

Record Frame := mk_Frame {
  f_session_id : Uuid;
  f_request_id : Z;
  f_flags : Z;
  f_message : Message;
}.
#[global] Instance Frame_eq_dec : EqDecision Frame.
Proof. solve_decision. Defined.

(** The header [Frame::encode] writes for a payload of [payload_len] bytes. *)
Definition frame_header (f : Frame) (payload_len : Z) : Header :=
  mk_Header MAJOR MINOR (command (f_message f)) (f_flags f) (f_session_id f)
    (f_request_id f) payload_len.

(** [None] is the panic on a payload over 16 MiB. *)
Definition Frame_encode (f : Frame) : option (list byte) :=
  let payload := encode_payload (f_message f) in
  if MAX_PAYLOAD <? zlen payload then None
  else Some (Header_encode (frame_header f (zlen payload)) ++ payload).

Inductive Decoded : Type :=
| NeedMore
| DFrame (consumed : Z) (header : Header) (frame : Frame)
| Rejected (consumed : Z) (header : Header) (error : PayloadError).
#[global] Instance Decoded_eq_dec : EqDecision Decoded.
Proof. solve_decision. Defined.

Definition decode_frame (buf : list byte) : Result Decoded FatalFrameError :=
  if zlen buf <? HEADER_LEN then Ok NeedMore else
  match Header_decode (take (Z.to_nat HEADER_LEN) buf) with
  | Err e => Err e
  | Ok header =>
      let total := HEADER_LEN + h_payload_len header in
      if zlen buf <? total then Ok NeedMore else
      let payload := slice buf (Z.to_nat HEADER_LEN) (Z.to_nat (h_payload_len header)) in
      match decode_payload (h_command header) payload with
      | Ok message =>
          Ok (DFrame total header
                (mk_Frame (h_session_id header) (h_request_id header) (h_flags header) message))
      | Err error => Ok (Rejected total header error)
      end
  end.

Definition decode_complete_frame (buf : list byte) : Result Decoded FatalFrameError :=
  match decode_frame buf with
  | Ok NeedMore => Err FrameTruncated
  | r => r
  end.

(** Header fields within their widths, with only defined flags and an
    admissible payload length. *)
Definition wf_header (h : Header) : bool :=
  is_u16 (h_major h) && is_u16 (h_minor h) && is_u16 (h_command h) && is_u16 (h_flags h) &&
  (Z.land (h_flags h) (Z.lnot FLAG_DEFINED) =? 0) && (zlen (h_session_id h) =? 16) &&
  is_u64 (h_request_id h) && is_u32 (h_payload_len h) && (h_payload_len h <=? MAX_PAYLOAD).

Definition wf_frame (f : Frame) : bool :=
  is_u16 (f_flags f) && (Z.land (f_flags f) (Z.lnot FLAG_DEFINED) =? 0) &&
  (zlen (f_session_id f) =? 16) && is_u64 (f_request_id f) && wf_message (f_message f).

(** ** Lemmas *)

Lemma zlen_Header_encode h : zlen (h_session_id h) = 16 → zlen (Header_encode h) = HEADER_LEN.
Proof.
  intros H. unfold Header_encode, put_u32, put_u16, put_u64, put_raw.
  autorewrite with zl. rewrite !zlen_to_be, H. done.
Qed.

(** A list of known length, element by element. *)
Ltac explode l H :=
  repeat match type of H with
  | length l = S _ => let b := fresh "b" in destruct l as [|b l]; [discriminate H|injection H as H]
  end;
  try (match type of H with length l = O => destruct l; [clear H|discriminate H] end).

Ltac pow256 :=
  change (256 ^ Z.of_nat 2) with (2 ^ 16) in *; change (256 ^ Z.of_nat 4) with (2 ^ 32) in *;
  change (256 ^ Z.of_nat 8) with (2 ^ 64) in *.

(** The header fields lie at the offsets the decoder reads. *)
Lemma Header_slices h :
  length (h_session_id h) = 16%nat →
  let b := Header_encode h in
  slice b 0 4 = to_be 4 MAGIC ∧ slice b 4 2 = to_be 2 (h_major h) ∧
  slice b 6 2 = to_be 2 (h_minor h) ∧ slice b 8 2 = to_be 2 (h_command h) ∧
  slice b 10 2 = to_be 2 (h_flags h) ∧ slice b 12 16 = h_session_id h ∧
  slice b 28 8 = to_be 8 (h_request_id h) ∧ slice b 36 4 = to_be 4 (h_payload_len h).
Proof.
  destruct h as [ma mi c f sid r p]. cbn [h_session_id]. intros H. explode sid H.
  repeat split.
Qed.

Lemma Header_decode_encode h :
  wf_header h = true → Header_decode (Header_encode h) = Ok h.
Proof.
  unfold wf_header, is_u16, is_u32, is_u64. intros H. bool_hyps.
  destruct (Header_slices h) as (E1 & E2 & E3 & E4 & E5 & E6 & E7 & E8); [unfold zlen in *; lia|].
  unfold Header_decode. rewrite E1, E2, E3, E4, E5, E6, E7, E8, !from_to_be.
  unfold u16_max, u32_max, u64_max in *. pow256.
  rewrite !Z.mod_small by (unfold MAGIC; lia). rewrite Z.eqb_refl. cbn [negb].
  match goal with H : (Z.land _ _ =? 0) = true |- _ => rewrite H end. cbn [negb].
  destruct (Z.ltb_spec MAX_PAYLOAD (h_payload_len h)); [lia|]. by destruct h.
Qed.

Lemma Header_decode_inv b h :
  zlen b = HEADER_LEN → Header_decode b = Ok h → wf_header h = true ∧ b = Header_encode h.
Proof.
  unfold zlen, HEADER_LEN. intros Hl. assert (length b = 40%nat) as Hb by lia. clear Hl.
  unfold Header_decode. destruct (Z.eqb_spec (from_be (slice b 0 4)) MAGIC) as [Hm|]; [|done].
  destruct (Z.land _ _ =? 0) eqn:Hf; [|done].
  destruct (Z.ltb_spec MAX_PAYLOAD (from_be (slice b 36 4))) as [|Hp]; [done|].
  cbn [negb]. intros [= <-].
  assert (∀ o n, (o + n <= 40)%nat → length (slice b o n) = n) as Hlen
    by (intros; unfold slice; rewrite length_take, length_drop; lia).
  assert (∀ o n, (o + n <= 40)%nat → 0 <= from_be (slice b o n) < 256 ^ Z.of_nat n) as Hr.
  { intros o n Hon. pose proof (from_be_range (slice b o n)) as Hr. unfold zlen in Hr.
    by rewrite (Hlen o n Hon) in Hr. }
  assert (∀ o n, (o + n <= 40)%nat → to_be n (from_be (slice b o n)) = slice b o n) as Ht.
  { intros o n Hon. rewrite <- (Hlen o n Hon) at 1. apply to_from_be. }
  pose proof (Hr 4%nat 2%nat ltac:(lia)). pose proof (Hr 6%nat 2%nat ltac:(lia)).
  pose proof (Hr 8%nat 2%nat ltac:(lia)). pose proof (Hr 10%nat 2%nat ltac:(lia)).
  pose proof (Hr 28%nat 8%nat ltac:(lia)). pose proof (Hr 36%nat 4%nat ltac:(lia)).
  pose proof (Hlen 12%nat 16%nat ltac:(lia)).
  pow256. split.
  - unfold wf_header, is_u16, is_u32, is_u64, u16_max, u32_max, u64_max, zlen.
    cbn [h_major h_minor h_command h_flags h_session_id h_request_id h_payload_len].
    rewrite Hf, !andb_true_iff, !in_range_iff. lia.
  - unfold Header_encode, put_u32, put_u16, put_u64, put_raw.
    cbn [h_major h_minor h_command h_flags h_session_id h_request_id h_payload_len].
    rewrite <- Hm, !Ht by lia. clear - Hb. explode b Hb. done.
Qed.

Lemma decode_frame_app b h payload k :
  zlen b = HEADER_LEN → Header_decode b = Ok h → zlen payload = h_payload_len h →
  decode_frame (b ++ payload ++ k) =
    let total := HEADER_LEN + h_payload_len h in
    Ok match decode_payload (h_command h) payload with
       | Ok m => DFrame total h (mk_Frame (h_session_id h) (h_request_id h) (h_flags h) m)
       | Err e => Rejected total h e
       end.
Proof.
  intros Hb Hd Hp. unfold decode_frame. autorewrite with zl. rewrite <- Hb.
  pose proof (zlen_nonneg payload). pose proof (zlen_nonneg k).
  destruct (Z.ltb_spec (zlen b + (zlen payload + zlen k)) (zlen b)); [lia|].
  rewrite take_app_zlen, Hd, <- Hp.
  destruct (Z.ltb_spec (zlen b + (zlen payload + zlen k)) (zlen b + zlen payload)); [lia|].
  unfold slice. rewrite drop_app_zlen, take_app_zlen.
  by destruct (decode_payload _ _).
Qed.

(** A decision other than [NeedMore] is taken on a header and a payload that are
    a prefix of the buffer. *)
Lemma decode_frame_cases buf :
  (zlen buf < HEADER_LEN ∧ decode_frame buf = Ok NeedMore) ∨
  ∃ b rest, buf = b ++ rest ∧ zlen b = HEADER_LEN ∧
    ((∃ e, Header_decode b = Err e ∧ decode_frame buf = Err e) ∨
     ∃ h, Header_decode b = Ok h ∧
       ((zlen rest < h_payload_len h ∧ decode_frame buf = Ok NeedMore) ∨
        ∃ payload k, rest = payload ++ k ∧ zlen payload = h_payload_len h)).
Proof.
  destruct (Z.lt_ge_cases (zlen buf) HEADER_LEN) as [Hl|Hl].
  { left. unfold decode_frame. destruct (Z.ltb_spec (zlen buf) HEADER_LEN); [done|lia]. }
  right. set (n := Z.to_nat HEADER_LEN). exists (take n buf), (drop n buf).
  rewrite take_drop. split; [done|].
  assert (zlen (take n buf) = HEADER_LEN) as Hb by (apply zlen_take; unfold HEADER_LEN in *; lia).
  assert (zlen (drop n buf) = zlen buf - HEADER_LEN) as Hr by (apply zlen_drop; unfold HEADER_LEN in *; lia).
  split; [done|]. unfold decode_frame. fold n.
  destruct (Z.ltb_spec (zlen buf) HEADER_LEN); [lia|].
  destruct (Header_decode (take n buf)) as [h|e] eqn:Hd; [right; exists h|left; by exists e].
  split; [done|]. destruct (Z.ltb_spec (zlen buf) (HEADER_LEN + h_payload_len h)).
  { left. split; [lia|done]. }
  right. apply Header_decode_inv in Hd as [Hw _]; [|done]. unfold wf_header, is_u32 in Hw. bool_hyps.
  exists (take (Z.to_nat (h_payload_len h)) (drop n buf)), (drop (Z.to_nat (h_payload_len h)) (drop n buf)).
  rewrite take_drop, zlen_take by lia. done.
Qed.

(** The header [Frame::encode] writes is well formed. *)
Lemma frame_header_wf f :
  wf_frame f = true → zlen (encode_payload (f_message f)) <= MAX_PAYLOAD →
  wf_header (frame_header f (zlen (encode_payload (f_message f)))) = true.
Proof.
  unfold wf_frame, wf_header, frame_header, is_u16, is_u32, is_u64. intros H Hp. bool_hyps.
  cbn [h_major h_minor h_command h_flags h_session_id h_request_id h_payload_len].
  pose proof (zlen_nonneg (encode_payload (f_message f))).
  assert (0 <= command (f_message f) <= u16_max) by (destruct (f_message f); cbn; unfold u16_max; lia).
  rewrite !andb_true_iff, !in_range_iff. unfold u16_max, u32_max, MAX_PAYLOAD, MAJOR, MINOR in *. lia.
Qed.

Lemma decode_frame_encode f bytes rest :
  wf_frame f = true → Frame_encode f = Some bytes →
  decode_frame (bytes ++ rest) =
    Ok (DFrame (zlen bytes) (frame_header f (zlen (encode_payload (f_message f)))) f).
Proof.
  unfold Frame_encode. intros Hw.
  destruct (Z.ltb_spec MAX_PAYLOAD (zlen (encode_payload (f_message f)))); [done|]. intros <-%(inj Some).
  pose proof (frame_header_wf f Hw ltac:(lia)) as Hh. set (h := frame_header f _) in *.
  assert (zlen (Header_encode h) = HEADER_LEN) as Hl
    by (apply zlen_Header_encode; unfold wf_header in Hh; bool_hyps; lia).
  rewrite <- app_assoc, (decode_frame_app _ h) by (try done; by apply Header_decode_encode).
  unfold wf_frame in Hw. bool_hyps.
  assert (decode_payload (command (f_message f)) (encode_payload (f_message f)) = Ok (f_message f)) as Hm
    by (rewrite <- (app_nil_r (encode_payload _)); by apply decode_encode_payload).
  cbn zeta. change (h_command h) with (command (f_message f)). rewrite Hm.
  autorewrite with zl. rewrite Hl. by destruct f.
Qed.

Lemma decode_frame_prefix f bytes n :
  wf_frame f = true → Frame_encode f = Some bytes → (n < length bytes)%nat →
  decode_frame (take n bytes) = Ok NeedMore.
Proof.
  intros Hw He Hn. destruct (decode_frame_cases (take n bytes)) as [[_ ?]|(b & rest & Eb & Hb & Hc)]; [done|].
  unfold Frame_encode in He.
  destruct (Z.ltb_spec MAX_PAYLOAD (zlen (encode_payload (f_message f)))); [done|]. apply (inj Some) in He as <-.
  pose proof (frame_header_wf f Hw ltac:(lia)) as Hh. set (h := frame_header f _) in *.
  assert (zlen (Header_encode h) = HEADER_LEN) as Hl
    by (apply zlen_Header_encode; unfold wf_header in Hh; bool_hyps; lia).
  assert (b = Header_encode h ∧ rest = take (n - length (Header_encode h)) (encode_payload (f_message f))
          ∧ (length (Header_encode h) <= n)%nat) as (-> & -> & Hge).
  { rewrite take_app in Eb. assert (length (take n (Header_encode h)) = length b).
    { rewrite length_take. apply (f_equal zlen) in Eb. unfold zlen in *. rewrite !length_app, !length_take in Eb. lia. }
    apply app_inj_1 in Eb as [Eb ->]; [|done].
    assert (length (Header_encode h) <= n)%nat
      by (rewrite <- Eb in Hb; unfold zlen in *; rewrite length_take in Hb; lia).
    by rewrite <- Eb, firstn_all2. }
  rewrite Header_decode_encode in Hc by done.
  destruct Hc as [(e & ? & _)|(h' & [= <-] & [[_ ?]|(payload & k & Er & Hp)])]; [done|done|exfalso].
  apply (f_equal length) in Er. rewrite length_take, length_app in Er. rewrite length_app in Hn.
  unfold zlen in *. change (h_payload_len h) with (Z.of_nat (length (encode_payload (f_message f)))) in Hp. lia.
Qed.

Lemma decode_frame_later buf rest r :
  decode_frame buf = r → r ≠ Ok NeedMore → decode_frame (buf ++ rest) = r.
Proof.
  intros <- Hn. destruct (decode_frame_cases buf) as [[_ ?]|(b & r & -> & Hb & Hc)]; [done|].
  destruct Hc as [(e & He & Hd)|(h & Hh & [[_ ?]|(payload & k & -> & Hp)])]; [|done|].
  - rewrite Hd. unfold decode_frame. rewrite <- app_assoc. autorewrite with zl.
    pose proof (zlen_nonneg r). pose proof (zlen_nonneg rest).
    destruct (Z.ltb_spec (zlen b + (zlen r + zlen rest)) HEADER_LEN); [lia|].
    by rewrite <- Hb, take_app_zlen, He.
  - rewrite <- !app_assoc. by rewrite !(decode_frame_app b h).
Qed.

(** A decided frame lies within the buffer and is at least a header long. *)
Lemma decode_frame_consumed buf d :
  decode_frame buf = Ok d →
  match d with NeedMore => True | DFrame n _ _ | Rejected n _ _ => HEADER_LEN <= n <= zlen buf end.
Proof.
  intros Hd. destruct (decode_frame_cases buf) as [[_ E]|(b & r & -> & Hb & Hc)];
    [rewrite E in Hd; by injection Hd as <-|].
  destruct Hc as [(e & He & E)|(h & Hh & [[_ E]|(payload & k & -> & Hp)])];
    [congruence|rewrite E in Hd; by injection Hd as <-|].
  rewrite (decode_frame_app b h) in Hd by done. cbn zeta in Hd. autorewrite with zl.
  pose proof (zlen_nonneg payload). pose proof (zlen_nonneg k).
  destruct (decode_payload _ _); injection Hd as <-; lia.
Qed.

Lemma decode_frame_inv buf n h f :
  decode_frame buf = Ok (DFrame n h f) →
  wf_frame f = true ∧ wf_header h = true ∧
  h_command h = command (f_message f) ∧
  ∃ residual rest,
    buf = Header_encode h ++ (encode_payload (f_message f) ++ residual) ++ rest ∧
    h_payload_len h = zlen (encode_payload (f_message f) ++ residual) ∧
    n = HEADER_LEN + h_payload_len h.
Proof.
  intros Hd. destruct (decode_frame_cases buf) as [[_ E]|(b & r & -> & Hb & Hc)]; [congruence|].
  destruct Hc as [(e & He & E)|(h' & Hh & [[_ E]|(payload & k & -> & Hp)])]; [congruence|congruence|].
  rewrite (decode_frame_app b h') in Hd by done. cbn zeta in Hd.
  destruct (decode_payload (h_command h') payload) as [m|] eqn:Em; [|done].
  injection Hd as <- <- <-. apply decode_payload_inv in Em as (Hm & Hcmd & res & ->).
  apply Header_decode_inv in Hh as [Hwh ->]; [|done].
  split; [|split; [done|split; [done|]]].
  - unfold wf_header in Hwh. bool_hyps. unfold wf_frame. cbn.
    rewrite !andb_true_iff. repeat split; assumption.
  - by exists res, k.
Qed.

(** ** Properties *)

(** A frame that [Frame::encode] produces decodes, whatever follows it in
    the buffer, to the same frame, under the header that was written, and
    consumes exactly the encoded bytes. *)
Theorem frame_roundtrip f bytes rest :
  wf_frame f = true → Frame_encode f = Some bytes →
  decode_frame (bytes ++ rest) =
    Ok (DFrame (zlen bytes) (frame_header f (zlen (encode_payload (f_message f)))) f).
Proof. apply decode_frame_encode. Qed.

Definition hello_frame : Frame :=
  mk_Frame (replicate 16 x00) 7 0 (Msg_Hello (mk_Hello 1 0 31 ClientKind_GuiWindow (replicate 16 x01))).

Lemma frame_roundtrip_witness :
  decode_frame (default [] (Frame_encode hello_frame) ++ [x2a]) =
    Ok (DFrame 69 (frame_header hello_frame 29) hello_frame).
Proof. exact (frame_roundtrip hello_frame (default [] (Frame_encode hello_frame)) [x2a] eq_refl eq_refl). Defined.

(** Every proper prefix of an encoded frame makes [decode_frame] ask for
    more bytes: it never reports an error or a frame early. *)
Theorem frame_prefix_need_more f bytes n :
  wf_frame f = true → Frame_encode f = Some bytes → (n < length bytes)%nat →
  decode_frame (take n bytes) = Ok NeedMore.
Proof. apply decode_frame_prefix. Qed.

Lemma frame_prefix_need_more_witness :
  decode_frame (take 68 (default [] (Frame_encode hello_frame))) = Ok NeedMore.
Proof.
  exact (frame_prefix_need_more hello_frame (default [] (Frame_encode hello_frame)) 68
           eq_refl eq_refl ltac:(vm_compute; lia)).
Defined.

(** Bytes that arrive later never change a decision [decode_frame] has
    already taken, be it a frame, a rejection or a fatal error. *)
Theorem decode_frame_stable buf rest r :
  decode_frame buf = r → r ≠ Ok NeedMore → decode_frame (buf ++ rest) = r.
Proof. apply decode_frame_later. Qed.

Lemma decode_frame_stable_witness :
  decode_frame (replicate 40 x00 ++ [x01]) = Err BadMagic.
Proof. exact (decode_frame_stable (replicate 40 x00) [x01] (Err BadMagic) eq_refl ltac:(discriminate)). Defined.

(** A frame [decode_frame] accepts is well formed, and the consumed bytes
    are its header, the canonical encoding of its message, and the residual
    bytes of a newer minor version, which are ignored. *)
Theorem decode_frame_sound buf n h f :
  decode_frame buf = Ok (DFrame n h f) →
  wf_frame f = true ∧ wf_header h = true ∧
  h_command h = command (f_message f) ∧
  ∃ residual rest,
    buf = Header_encode h ++ (encode_payload (f_message f) ++ residual) ++ rest ∧
    h_payload_len h = zlen (encode_payload (f_message f) ++ residual) ∧
    n = HEADER_LEN + h_payload_len h.
Proof. apply decode_frame_inv. Qed.

Lemma decode_frame_sound_witness :
  wf_frame hello_frame = true.
Proof.
  exact (proj1 (decode_frame_sound (default [] (Frame_encode hello_frame)) 69
           (frame_header hello_frame 29) hello_frame eq_refl)).
Defined.

(** [decode_complete_frame] on a stored frame returns that frame, and on a
    proper prefix of it reports truncation. *)
Theorem decode_complete_frame_spec f bytes n :
  wf_frame f = true → Frame_encode f = Some bytes →
  decode_complete_frame (take n bytes) =
    if decide (n < length bytes)%nat then Err FrameTruncated
    else Ok (DFrame (zlen bytes) (frame_header f (zlen (encode_payload (f_message f)))) f).
Proof.
  intros Hw He. unfold decode_complete_frame. case_decide.
  - by rewrite (decode_frame_prefix f bytes).
  - rewrite firstn_all2 by lia. by rewrite <- (app_nil_r bytes) at 1; rewrite (decode_frame_encode f).
Qed.

Lemma decode_complete_frame_spec_witness :
  decode_complete_frame (take 69 (default [] (Frame_encode hello_frame))) =
    Ok (DFrame 69 (frame_header hello_frame 29) hello_frame).
Proof.
  exact (decode_complete_frame_spec hello_frame (default [] (Frame_encode hello_frame)) 69 eq_refl eq_refl).
Defined.
