(* ===== verification/Budget.v ===== *)
(** * Snapshot budget (crates/session-core/src/budget.rs)

    The host-wide allocator of snapshot reservations: a FIFO of requests, at
    most one per subscription, served while the reserved bytes fit the budget. *)

From S2P Require Import Prelude.
From Stdlib Require Import ZArith Lia Strings.Byte.
From stdpp Require Import base gmap list option sorting.

#[local] Open Scope Z_scope.

Record RequestKey := mk_RequestKey {
  rk_session : list byte;
  rk_subscription_id : Z;
  rk_request_seq : Z;
}.
#[global] Instance RequestKey_eq_dec : EqDecision RequestKey.
Proof. solve_decision. Defined.

Record Grant := mk_Grant {
  g_key : RequestKey;
  g_reservation_id : Z;
}.

Record Allocator := mk_Allocator {
  al_budget : Z;
  al_reservation_size : Z;
  al_queue : list RequestKey;
  al_issued : gmap Z RequestKey;
  al_next_reservation : Z;
}.

(** [None] is the failed assertion. *)
Definition alloc_new (budget reservation_size : Z) : option Allocator :=
  if (0 <? reservation_size) && (reservation_size <=? budget)
  then Some (mk_Allocator budget reservation_size [] ∅ 1)
  else None.

Definition issued_count (a : Allocator) : Z := Z.of_nat (size (al_issued a)).
Definition issued_bytes (a : Allocator) : Z := mul64 (issued_count a) (al_reservation_size a).

(** One turn of the [while let] of [pump] on the head of the queue. *)
Definition issue (head : RequestKey) (rest : list RequestKey) (a : Allocator) : Allocator :=
  mk_Allocator (al_budget a) (al_reservation_size a) rest
    (<[al_next_reservation a := head]> (al_issued a)) (add64 (al_next_reservation a) 1).
Definition budget_full (a : Allocator) : bool :=
  al_budget a <? add64 (issued_bytes a) (al_reservation_size a).

(** The loop runs over the queue it starts with: every turn pops one entry. *)
Fixpoint pump_loop (queue : list RequestKey) (a : Allocator) : Allocator * list Grant :=
  match queue with
  | [] => (a, [])
  | head :: rest =>
      if budget_full a then (a, [])
      else let '(a', out) := pump_loop rest (issue head rest a) in
           (a', mk_Grant head (al_next_reservation a) :: out)
  end.
Definition pump (a : Allocator) : Allocator * list Grant := pump_loop (al_queue a) a.

Definition with_queue (q : list RequestKey) (a : Allocator) : Allocator :=
  mk_Allocator (al_budget a) (al_reservation_size a) q (al_issued a) (al_next_reservation a).

Definition same_subscription (key k : RequestKey) : bool :=
  bool_decide (rk_session k = rk_session key) && (rk_subscription_id k =? rk_subscription_id key).

Definition request (key : RequestKey) (a : Allocator) : Allocator * list Grant :=
  let dup := existsb (same_subscription key) (al_queue a) in
  pump (if dup then a else with_queue (al_queue a ++ [key]) a).

Definition cancel (key : RequestKey) (a : Allocator) : Allocator * list Grant :=
  pump (with_queue (filter (λ k, k ≠ key) (al_queue a)) a).

Definition give_back (reservation_id : Z) (a : Allocator) : Allocator * list Grant :=
  pump (mk_Allocator (al_budget a) (al_reservation_size a) (al_queue a)
          (delete reservation_id (al_issued a)) (al_next_reservation a)).

(** ** Traces of calls *)

Inductive AllocOp : Type :=
| OpRequest (key : RequestKey)
| OpCancel (key : RequestKey)
| OpGiveBack (reservation_id : Z).

Definition alloc_step (op : AllocOp) (a : Allocator) : Allocator * list Grant :=
  match op with
  | OpRequest key => request key a
  | OpCancel key => cancel key a
  | OpGiveBack id => give_back id a
  end.

Fixpoint alloc_run (ops : list AllocOp) (a : Allocator) : Allocator * list Grant :=
  match ops with
  | [] => (a, [])
  | op :: ops' =>
      let '(a1, g1) := alloc_step op a in
      let '(a2, g2) := alloc_run ops' a1 in
      (a2, g1 ++ g2)
  end.

(** ** Invariant *)

Definition sub_key (k : RequestKey) : list byte * Z := (rk_session k, rk_subscription_id k).

Record alloc_inv (a : Allocator) : Prop := {
  ai_sizes : 0 < al_reservation_size a <= al_budget a ∧ al_budget a + al_reservation_size a <= u64_max;
  ai_budget : issued_count a * al_reservation_size a <= al_budget a;
  ai_ids : ∀ id, is_Some (al_issued a !! id) → 0 < id < al_next_reservation a;
  ai_next : 0 < al_next_reservation a;
  ai_queue : NoDup (sub_key <$> al_queue a);
}.

(** No request waits while a reservation would fit. *)
Definition work_conserving (a : Allocator) : Prop :=
  al_queue a = [] ∨ al_budget a < (issued_count a + 1) * al_reservation_size a.

(** No request id left to issue wraps around. *)
Definition ids_left (a : Allocator) : Prop :=
  al_next_reservation a + zlen (al_queue a) <= u64_max.

Lemma issued_bytes_exact a :
  alloc_inv a → issued_bytes a = issued_count a * al_reservation_size a.
Proof.
  intros [[? ?] Hb _ _ _]. unfold issued_bytes. apply mul64_id.
  unfold issued_count in *. nia.
Qed.

Lemma budget_full_iff a :
  alloc_inv a →
  budget_full a = true ↔ al_budget a < (issued_count a + 1) * al_reservation_size a.
Proof.
  intros Hi. unfold budget_full. rewrite issued_bytes_exact by done.
  destruct Hi as [[? ?] Hb _ _ _]. unfold issued_count in *.
  rewrite add64_id by nia. lia.
Qed.

Lemma issue_count a head rest :
  alloc_inv a → issued_count (issue head rest a) = issued_count a + 1.
Proof.
  intros Hi. unfold issued_count, issue. cbn [al_issued]. rewrite map_size_insert_None; [lia|].
  destruct (al_issued a !! al_next_reservation a) eqn:E; [|done].
  destruct (ai_ids a Hi (al_next_reservation a)); [eauto|lia].
Qed.

Lemma issue_inv a head rest :
  alloc_inv a → al_queue a = head :: rest → budget_full a = false → ids_left a →
  alloc_inv (issue head rest a) ∧ ids_left (issue head rest a).
Proof.
  intros Hi Hq Hf Hl. assert (¬ budget_full a = true) as Hn by congruence.
  rewrite budget_full_iff in Hn by done. pose proof (issue_count a head rest Hi) as Hc.
  unfold ids_left in *. rewrite Hq, zlen_cons in Hl. pose proof (zlen_nonneg rest).
  destruct Hi as [Hs Hb Hids Hnx Hnd].
  assert (al_next_reservation (issue head rest a) = al_next_reservation a + 1) as En
    by (unfold issue; cbn; apply add64_id; lia).
  split; [split|]; rewrite ?En, ?Hc; cbn [issue al_budget al_reservation_size al_queue al_issued]; try lia.
  - intros id. rewrite lookup_insert. case_decide; [lia|]. intros Hid%Hids. lia.
  - rewrite Hq in Hnd. by apply NoDup_cons in Hnd as [_ ?].
Qed.

(** The specification of [pump]: grants go to a prefix of the queue, in order,
    with consecutive fresh ids, until the queue is empty or the budget full. *)
Record pump_spec (a a' : Allocator) (out : list Grant) : Prop := {
  ps_inv : alloc_inv a';
  ps_left : ids_left a';
  ps_prefix : al_queue a = (g_key <$> out) ++ al_queue a';
  ps_ids : g_reservation_id <$> out = seqZ (al_next_reservation a) (zlen out);
  ps_next : al_next_reservation a' = al_next_reservation a + zlen out;
  ps_issued : al_issued a' = list_to_map ((λ g, (g_reservation_id g, g_key g)) <$> out) ∪ al_issued a;
  ps_params : al_budget a' = al_budget a ∧ al_reservation_size a' = al_reservation_size a;
  ps_work : work_conserving a';
}.

Lemma pump_loop_spec queue a :
  al_queue a = queue → alloc_inv a → ids_left a →
  pump_spec a (pump_loop queue a).1 (pump_loop queue a).2.
Proof.
  revert a. induction queue as [|head rest IH]; intros a Hq Hi Hl; cbn [pump_loop].
  { split; cbn; rewrite ?zlen_nil, ?Z.add_0_r, ?seqZ_nil, ?map_empty_union; try done. by left. }
  destruct (budget_full a) eqn:Hf.
  { split; cbn; rewrite ?zlen_nil, ?Z.add_0_r, ?seqZ_nil, ?map_empty_union; try done.
    right. by apply budget_full_iff. }
  destruct (issue_inv a head rest Hi Hq Hf Hl) as [Hi' Hl'].
  specialize (IH (issue head rest a) eq_refl Hi' Hl').
  destruct (pump_loop rest (issue head rest a)) as [a' out]. cbn [fst snd] in *.
  assert (al_next_reservation (issue head rest a) = al_next_reservation a + 1) as En.
  { cbn. apply add64_id. destruct Hi. unfold ids_left in Hl. rewrite Hq, zlen_cons in Hl.
    pose proof (zlen_nonneg rest). lia. }
  destruct IH as [Pi Pl Pp Pids Pn Pm Pp' Pw]. cbn [issue al_queue al_issued al_budget al_reservation_size] in *.
  rewrite En in Pids, Pn. split; try done.
  - by rewrite Hq, Pp.
  - rewrite zlen_cons. pose proof (zlen_nonneg out). rewrite seqZ_cons by lia.
    cbn. f_equal. rewrite Pids. f_equal; lia.
  - rewrite Pn, zlen_cons. lia.
  - rewrite Pm. cbn. rewrite <- insert_union_r; [by rewrite insert_union_l|].
    apply not_elem_of_list_to_map_1. rewrite <- list_fmap_compose.
    change (fst ∘ _) with g_reservation_id. rewrite Pids, elem_of_seqZ. lia.
Qed.

Lemma pump_ok a : alloc_inv a → ids_left a → pump_spec a (pump a).1 (pump a).2.
Proof. intros. by apply pump_loop_spec. Qed.

(** ** Operations preserve the invariant *)

Lemma with_queue_inv q a :
  alloc_inv a → NoDup (sub_key <$> q) → alloc_inv (with_queue q a).
Proof. intros [] ?. by split. Qed.

Lemma same_subscription_iff key k :
  same_subscription key k = true ↔ sub_key k = sub_key key.
Proof.
  unfold same_subscription, sub_key. rewrite andb_true_iff, bool_decide_eq_true, Z.eqb_eq.
  split; [by intros [-> ->]|by intros [= -> ->]].
Qed.

(** What an operation hands to [pump]. *)
Definition before_pump (op : AllocOp) (a : Allocator) : Allocator :=
  match op with
  | OpRequest key =>
      if existsb (same_subscription key) (al_queue a) then a
      else with_queue (al_queue a ++ [key]) a
  | OpCancel key => with_queue (filter (λ k, k ≠ key) (al_queue a)) a
  | OpGiveBack id =>
      mk_Allocator (al_budget a) (al_reservation_size a) (al_queue a)
        (delete id (al_issued a)) (al_next_reservation a)
  end.

Lemma alloc_step_pump op a : alloc_step op a = pump (before_pump op a).
Proof. by destruct op. Qed.

Lemma before_pump_inv op a :
  alloc_inv a →
  alloc_inv (before_pump op a) ∧
  al_next_reservation (before_pump op a) = al_next_reservation a ∧
  zlen (al_queue (before_pump op a)) <= zlen (al_queue a) + 1.
Proof.
  intros Hi. destruct op as [key|key|id]; cbn [before_pump].
  - destruct (existsb _ _) eqn:E; [split; [done|split; [done|lia]]|].
    split; [|split; [done|cbn; rewrite zlen_app; done]]. apply with_queue_inv; [done|].
    rewrite fmap_app. apply NoDup_app. split; [apply Hi|split; [|apply NoDup_singleton]].
    intros k (k' & -> & Hk')%list_elem_of_fmap Hin. apply list_elem_of_singleton in Hin.
    enough (existsb (same_subscription key) (al_queue a) = true) by congruence.
    apply existsb_exists. exists k'. rewrite <- list_elem_of_In. split; [done|].
    by apply same_subscription_iff.
  - split; [|split; [done|]].
    + apply with_queue_inv; [done|]. apply (sublist_NoDup _ (sub_key <$> al_queue a)); [apply Hi|].
      apply fmap_sublist, sublist_filter.
    + unfold zlen. cbn. pose proof (length_filter (λ k, k ≠ key) (al_queue a)). lia.
  - split; [|split; [done|cbn; lia]]. destruct Hi as [Hs Hb Hids Hn Hq].
    split; cbn; try done.
    + unfold issued_count in *. cbn.
      rewrite map_size_delete. destruct (al_issued a !! id); simpl; nia.
    + intros j Hj. apply Hids. rewrite lookup_delete in Hj. case_decide; [by destruct Hj|done].
Qed.

Lemma alloc_step_spec op a n :
  alloc_inv a → al_next_reservation a + zlen (al_queue a) <= n → n < u64_max →
  pump_spec (before_pump op a) (alloc_step op a).1 (alloc_step op a).2 ∧
  al_next_reservation (alloc_step op a).1 + zlen (al_queue (alloc_step op a).1) <= n + 1.
Proof.
  intros Hi Hn Hlt. destruct (before_pump_inv op a Hi) as (Hb & En & Hz).
  rewrite alloc_step_pump.
  pose proof (pump_ok _ Hb ltac:(unfold ids_left; lia)) as Hp. split; [done|].
  destruct Hp as [_ _ Pp _ Pn _ _ _]. apply (f_equal zlen) in Pp.
  rewrite zlen_app in Pp. unfold zlen in Pp at 2. rewrite length_fmap in Pp. fold (zlen (pump (before_pump op a)).2) in Pp.
  lia.
Qed.

Lemma alloc_run_spec ops a n :
  alloc_inv a → work_conserving a →
  al_next_reservation a + zlen (al_queue a) <= n → n + zlen ops <= u64_max →
  let '(a', out) := alloc_run ops a in
  alloc_inv a' ∧ work_conserving a' ∧
  g_reservation_id <$> out = seqZ (al_next_reservation a) (zlen out) ∧
  al_next_reservation a' = al_next_reservation a + zlen out.
Proof.
  revert a n. induction ops as [|op ops IH]; intros a n Hi Hw Hn Hlt; cbn [alloc_run].
  { rewrite zlen_nil, seqZ_nil, Z.add_0_r by lia. done. }
  rewrite zlen_cons in Hlt. pose proof (zlen_nonneg ops).
  destruct (alloc_step_spec op a n Hi Hn ltac:(lia)) as [Hp Hn'].
  destruct (before_pump_inv op a Hi) as (_ & En & _).
  destruct (alloc_step op a) as [a1 g1]. cbn [fst snd] in *. destruct Hp.
  specialize (IH a1 (n + 1) ps_inv0 ps_work0 Hn' ltac:(lia)).
  destruct (alloc_run ops a1) as [a2 g2]. destruct IH as (? & ? & Hids & Hnx).
  rewrite En in *. split; [done|split; [done|]].
  rewrite fmap_app, ps_ids0, Hids, ps_next0, zlen_app. split; [|lia].
  by rewrite seqZ_app by apply zlen_nonneg.
Qed.

Lemma pump_loop_params q a :
  al_budget (pump_loop q a).1 = al_budget a ∧
  al_reservation_size (pump_loop q a).1 = al_reservation_size a.
Proof.
  revert a. induction q as [|h q IH]; intros a; [done|]. cbn [pump_loop].
  destruct (budget_full a); [done|]. specialize (IH (issue h q a)).
  by destruct (pump_loop q (issue h q a)).
Qed.

Lemma alloc_run_params ops a :
  al_budget (alloc_run ops a).1 = al_budget a ∧
  al_reservation_size (alloc_run ops a).1 = al_reservation_size a.
Proof.
  revert a. induction ops as [|op ops IH]; intros a; [done|]. cbn [alloc_run].
  assert (al_budget (alloc_step op a).1 = al_budget a ∧
          al_reservation_size (alloc_step op a).1 = al_reservation_size a) as [<- <-].
  { rewrite alloc_step_pump. unfold pump. rewrite !(proj1 (pump_loop_params _ _)), !(proj2 (pump_loop_params _ _)).
    destruct op; cbn; by try case_match. }
  destruct (alloc_step op a) as [a1 g1]. specialize (IH a1). cbn in *.
  by destruct (alloc_run ops a1).
Qed.

Lemma alloc_new_inv budget rs a :
  alloc_new budget rs = Some a → budget + rs <= u64_max → alloc_inv a ∧ work_conserving a.
Proof.
  unfold alloc_new. case_match; [|done]. intros [= <-] Hm. bool_hyps.
  split; [split; cbn; try done|by left]; try lia.
  - unfold issued_count. cbn [al_issued]. rewrite map_size_empty. lia.
  - intros id [x Hx]. by rewrite lookup_empty in Hx.
  - constructor.
Qed.

Lemma pump_size a a' out :
  alloc_inv a → pump_spec a a' out → issued_count a' = issued_count a + zlen out.
Proof.
  intros Hi Hp. destruct Hp as [_ _ _ Pids _ Pm _ _]. unfold issued_count. rewrite Pm.
  assert (NoDup ((λ g, (g_reservation_id g, g_key g)) <$> out).*1) as Hnd.
  { rewrite <- list_fmap_compose. change (fst ∘ _) with g_reservation_id. rewrite Pids. apply NoDup_seqZ. }
  rewrite map_size_disj_union.
  - rewrite map_size_list_to_map, length_fmap by done. unfold zlen. lia.
  - apply map_disjoint_spec. intros i x y Hx Hy. apply elem_of_list_to_map_2 in Hx.
    assert (i ∈ g_reservation_id <$> out) as Hin'.
    { apply list_elem_of_fmap in Hx as (g & [= -> ->] & ?). apply list_elem_of_fmap. eauto. }
    rewrite Pids, elem_of_seqZ in Hin'. destruct (ai_ids a Hi i); [eauto|]. lia.
Qed.

Lemma pump_count a a' out :
  alloc_inv a → pump_spec a a' out →
  zlen out = Z.min (zlen (al_queue a)) ((al_budget a - issued_bytes a) / al_reservation_size a).
Proof.
  intros Hi Hp. pose proof (pump_size a a' out Hi Hp) as Hsz.
  rewrite issued_bytes_exact by done.
  destruct Hp as [Pi _ Pp _ _ _ [Eb Es] Pw].
  apply (f_equal zlen) in Pp. rewrite zlen_app in Pp. unfold zlen in Pp at 2.
  rewrite length_fmap in Pp. fold (zlen out) in Pp.
  pose proof (ai_sizes a Hi) as [Hrs _]. pose proof (ai_budget a' Pi) as Hb.
  rewrite Eb, Es, Hsz in Hb. pose proof (zlen_nonneg (al_queue a')).
  set (rs := al_reservation_size a) in *. set (c := issued_count a) in *.
  assert (zlen out <= (al_budget a - c * rs) / rs) by (apply Z.div_le_lower_bound; nia).
  destruct Pw as [Pw|Pw].
  - rewrite Pw, zlen_nil in Pp. lia.
  - rewrite Eb, Es, Hsz in Pw.
    assert ((al_budget a - c * rs) / rs < zlen out + 1) by (apply Z.div_lt_upper_bound; nia). lia.
Qed.

(** ** Properties *)

(** Over any sequence of requests, cancellations and returns, the bytes
    reserved never exceed the budget, no reservation id is issued twice (the
    ids handed out are 1, 2, 3, ...), at most one request per subscription
    waits, and no request waits while a reservation would fit. *)
Theorem budget_invariant budget rs a ops a' grants :
  alloc_new budget rs = Some a → budget + rs <= u64_max → zlen ops < u64_max →
  alloc_run ops a = (a', grants) →
  issued_bytes a' <= budget ∧
  g_reservation_id <$> grants = seqZ 1 (zlen grants) ∧
  NoDup (sub_key <$> al_queue a') ∧
  (al_queue a' = [] ∨ budget < issued_bytes a' + rs).
Proof.
  intros Hnew Hm Hlen Hrun. destruct (alloc_new_inv _ _ _ Hnew Hm) as [Hi Hw].
  unfold alloc_new in Hnew. case_match; [|done]. injection Hnew as <-.
  pose proof (alloc_run_spec ops _ 1 Hi Hw ltac:(done) ltac:(lia)) as Hs.
  rewrite Hrun in Hs. destruct Hs as (Hi' & Hw' & Hids & _).
  assert (al_budget a' = budget ∧ al_reservation_size a' = rs) as [Eb Es].
  { pose proof (alloc_run_params ops (mk_Allocator budget rs [] ∅ 1)) as Hp. rewrite Hrun in Hp. done. }
  rewrite issued_bytes_exact, <- Eb, <- Es by done. split; [apply Hi'|].
  split; [done|split; [apply Hi'|]]. destruct Hw' as [?|?]; [by left|right; lia].
Qed.

Definition demo_key (sub : Z) : RequestKey := mk_RequestKey (replicate 16 x00) sub 1.
Definition demo_ops : list AllocOp :=
  [OpRequest (demo_key 1); OpRequest (demo_key 2); OpRequest (demo_key 3);
   OpRequest (demo_key 3); OpGiveBack 1].

Lemma budget_invariant_witness :
  issued_bytes (alloc_run demo_ops (mk_Allocator 10 5 [] ∅ 1)).1 <= 10.
Proof.
  exact (proj1 (budget_invariant 10 5 _ demo_ops _ _ eq_refl ltac:(vm_compute; discriminate)
                  ltac:(vm_compute; reflexivity) (surjective_pairing _))).
Defined.

(** [pump] terminates having granted, in arrival order and with fresh
    consecutive ids, exactly the longest prefix of the queue that fits into the
    remaining budget; everything else is untouched. *)
Theorem pump_grants_prefix a :
  alloc_inv a → ids_left a →
  let '(a', out) := pump a in
  let room := (al_budget a - issued_bytes a) / al_reservation_size a in
  zlen out = Z.min (zlen (al_queue a)) room ∧
  al_queue a = (g_key <$> out) ++ al_queue a' ∧
  g_reservation_id <$> out = seqZ (al_next_reservation a) (zlen out) ∧
  al_issued a' = list_to_map ((λ g, (g_reservation_id g, g_key g)) <$> out) ∪ al_issued a.
Proof.
  intros Hi Hl. pose proof (pump_ok a Hi Hl) as Hp.
  destruct (pump a) as [a' out]. cbn [fst snd] in Hp.
  split; [by apply (pump_count a a')|]. by destruct Hp.
Qed.

Lemma pump_grants_prefix_witness :
  zlen (pump (mk_Allocator 10 5 [demo_key 1; demo_key 2; demo_key 3] ∅ 1)).2 = 2.
Proof.
  refine (proj1 (pump_grants_prefix (mk_Allocator 10 5 [demo_key 1; demo_key 2; demo_key 3] ∅ 1) _ _)).
  - split; [cbn; unfold u64_max; lia|vm_compute; discriminate| |cbn; lia|].
    + intros id [x Hx]. cbn in Hx. by rewrite lookup_empty in Hx.
    + apply (bool_decide_unpack _). vm_compute. done.
  - vm_compute. discriminate.
Defined.
