(* ===== verification/Operations.v ===== *)
(** * Operation table (crates/session-core/src/operations.rs)

    Idempotency of Spawn and Kill: an operation id is reserved, executed once,
    and its stored result replayed to retries until it is evicted. *)

From S2P Require Import Prelude Wire Types.
From Stdlib Require Import ZArith Lia Strings.Byte.
From stdpp Require Import base gmap list option.

#[local] Open Scope Z_scope.

Definition RESERVED_TTL_MS : Z := 24 * 3600 * 1000.
Definition COMPLETED_TTL_MS : Z := 25 * 3600 * 1000.

Inductive Stored : Type :=
| Reserved (at_ms : Z)
| Completed (hash : Z) (result : list byte) (session : option (list byte)) (done_ms : Z).

Inductive Decision : Type :=
| Execute
| Replay (result : list byte)
| Unknown
| Expired
| Conflict.

Record OperationTable := mk_OperationTable {
  ot_host : Uuid;
  ot_max_issued : Z;
  ot_entries : gmap Z (OperationKind * Stored);
}.

(** [xxh3_128] is the [xxhash_rust] crate. *)
Definition request_hash (xxh3_128 : list byte → Z) (command : Z) (session_id payload : list byte) : Z :=
  xxh3_128 (to_be 2 command ++ session_id ++ payload).

Definition ops_new (host : Uuid) : OperationTable := mk_OperationTable host 0 ∅.

Definition reserve (kind : OperationKind) (now_ms : Z) (t : OperationTable)
    : OperationTable * OperationId :=
  let m := add64 (ot_max_issued t) 1 in
  (mk_OperationTable (ot_host t) m (<[m := (kind, Reserved now_ms)]> (ot_entries t)),
   mk_OperationId (ot_host t) m).

Definition is_reserved (s : Stored) : bool :=
  match s with Reserved _ => true | _ => false end.
Definition reserved_count (t : OperationTable) : Z :=
  zlen (filter (λ e, is_reserved e.2 = true) (bt_values (ot_entries t))).

Definition decide_op (id : OperationId) (kind : OperationKind) (hash : Z) (t : OperationTable)
    : Decision :=
  if bool_decide (op_host_instance_id id ≠ ot_host t)
     || (ot_max_issued t <? op_op_seq id) || (op_op_seq id =? 0)
  then Unknown
  else match ot_entries t !! op_op_seq id with
  | None => Expired
  | Some (k, s) =>
      if bool_decide (k ≠ kind) then Conflict
      else match s with
      | Reserved _ => Execute
      | Completed h result _ _ => if h =? hash then Replay result else Conflict
      end
  end.

Definition complete (id : OperationId) (hash : Z) (result : list byte)
    (session : option (list byte)) (now_ms : Z) (t : OperationTable) : OperationTable :=
  mk_OperationTable (ot_host t) (ot_max_issued t)
    (alter (λ e, (e.1, Completed hash result session now_ms)) (op_op_seq id) (ot_entries t)).

(** Whether [evict] keeps an entry; [live_session] gives the end time of the
    session an operation spawned, [None] while it lives. *)
Definition keep_entry (now_ms : Z) (live_session : list byte → option Z)
    (e : OperationKind * Stored) : bool :=
  match e.2 with
  | Reserved at_ms => now_ms <? add64 at_ms RESERVED_TTL_MS
  | Completed _ _ session done_ms =>
      match session, e.1 with
      | Some sid, OperationKind_Spawn =>
          match live_session sid with
          | None => true
          | Some ended_ms => now_ms <? add64 (Z.max ended_ms done_ms) COMPLETED_TTL_MS
          end
      | _, _ => now_ms <? add64 done_ms COMPLETED_TTL_MS
      end
  end.

Definition evict (now_ms : Z) (live_session : list byte → option Z) (t : OperationTable)
    : OperationTable :=
  mk_OperationTable (ot_host t) (ot_max_issued t)
    (bt_retain (λ _ e, keep_entry now_ms live_session e) (ot_entries t)).

(** ** Traces: the host's calls on the table *)

Inductive OpCall : Type :=
| CReserve (kind : OperationKind) (now_ms : Z)
| CComplete (id : OperationId) (hash : Z) (result : list byte) (session : option (list byte)) (now_ms : Z)
| CEvict (now_ms : Z) (live_session : list byte → option Z).

Definition op_step (c : OpCall) (t : OperationTable) : OperationTable :=
  match c with
  | CReserve kind now => (reserve kind now t).1
  | CComplete id hash result session now => complete id hash result session now t
  | CEvict now live => evict now live t
  end.

Definition op_run (cs : list OpCall) (t : OperationTable) : OperationTable :=
  foldl (λ t c, op_step c t) t cs.

(** ** Invariant *)

Record ops_inv (n : Z) (t : OperationTable) : Prop := {
  oi_max : 0 <= ot_max_issued t <= n;
  oi_seq : ∀ s, is_Some (ot_entries t !! s) → 0 < s <= ot_max_issued t;
}.

Lemma ops_new_inv host : ops_inv 0 (ops_new host).
Proof. split; cbn; [lia|]. intros s [x Hx]. by rewrite lookup_empty in Hx. Qed.

Lemma op_step_inv c n t : ops_inv n t → n < u64_max → ops_inv (n + 1) (op_step c t).
Proof.
  intros [Hm Hs] Hn. destruct c as [kind now|id h r se now|now live]; unfold op_step, reserve, complete, evict; cbn [fst].
  - split; cbn [ot_max_issued ot_entries]; rewrite add64_id by lia; [lia|].
    intros s. rewrite lookup_insert. case_decide; [intros _; lia|]. intros ?%Hs. lia.
  - split; cbn [ot_max_issued ot_entries]; [lia|]. intros s Hx. apply Hs.
    rewrite lookup_alter in Hx. case_decide; [subst|done]. by apply fmap_is_Some in Hx.
  - split; cbn [ot_max_issued ot_entries]; [lia|]. intros s [x Hx].
    apply bt_retain_Some in Hx as [Hx _]. eauto.
Qed.

(** An operation is settled when no later [decide] can ask to execute it: its
    number was issued and its entry, if still there, is completed. *)
Definition settled (seq : Z) (t : OperationTable) : Prop :=
  0 < seq <= ot_max_issued t ∧
  match ot_entries t !! seq with Some (_, Reserved _) => False | _ => True end.

Lemma settled_step c n seq t :
  ops_inv n t → n < u64_max → settled seq t → settled seq (op_step c t).
Proof.
  intros [Hm Hs] Hn [Hseq He]. destruct c as [kind now|id h r se now|now live];
    unfold settled, op_step, reserve, complete, evict; cbn [fst ot_max_issued ot_entries].
  - rewrite add64_id by lia. split; [lia|]. by rewrite lookup_insert_ne by lia.
  - split; [done|]. rewrite lookup_alter. case_decide; [subst|done]. revert He.
    by destruct (ot_entries t !! _).
  - split; [done|]. rewrite lookup_bt_retain. revert He.
    destruct (ot_entries t !! seq) as [e|]; [|done]. cbn [mbind option_bind].
    intros He. by destruct (keep_entry now live e).
Qed.

Lemma op_run_inv cs n t :
  ops_inv n t → n + zlen cs <= u64_max → ops_inv (n + zlen cs) (op_run cs t).
Proof.
  revert n t. induction cs as [|c cs IH]; intros n t Hi Hn.
  { by rewrite zlen_nil, Z.add_0_r. }
  rewrite zlen_cons in *. pose proof (zlen_nonneg cs).
  replace (n + (1 + zlen cs)) with ((n + 1) + zlen cs) by lia.
  apply IH; [apply op_step_inv; [done|lia]|lia].
Qed.

Lemma settled_run cs n seq t :
  ops_inv n t → n + zlen cs <= u64_max → settled seq t → settled seq (op_run cs t).
Proof.
  revert n t. induction cs as [|c cs IH]; intros n t Hi Hn Hs; [done|].
  rewrite zlen_cons in *. pose proof (zlen_nonneg cs).
  apply (IH (n + 1)); [apply op_step_inv; [done|lia]|lia|apply (settled_step c n); [done|lia|done]].
Qed.

Lemma settled_not_execute id kind hash t :
  settled (op_op_seq id) t → decide_op id kind hash t ≠ Execute.
Proof.
  intros [_ He]. unfold decide_op. destruct (_ || _); [done|]. revert He.
  destruct (ot_entries t !! _) as [[k [|]]|]; [by intros []| |done]. intros _.
  destruct (bool_decide _); [done|]. by destruct (_ =? _).
Qed.

Lemma op_run_app cs cs' t : op_run (cs ++ cs') t = op_run cs' (op_run cs t).
Proof. apply foldl_app. Qed.

(** ** Properties *)

(** C35: at most once. When an operation is executed and completed, no later
    [decide] for the same id asks to execute it again, with any kind or hash,
    after any further reservations, completions and evictions. *)
Theorem operation_at_most_once host cs id hash result session now cs' kind' hash' :
  zlen cs + zlen cs' + 1 < u64_max →
  0 < op_op_seq id <= ot_max_issued (op_run cs (ops_new host)) →
  decide_op id kind' hash'
    (op_run (cs ++ CComplete id hash result session now :: cs') (ops_new host)) ≠ Execute.
Proof.
  intros Hn Hid. pose proof (zlen_nonneg cs). pose proof (zlen_nonneg cs').
  pose proof (op_run_inv cs 0 _ (ops_new_inv host) ltac:(lia)) as Hi. rewrite Z.add_0_l in Hi.
  rewrite op_run_app. set (t := op_run cs (ops_new host)) in *.
  cbn [op_run foldl]. apply settled_not_execute.
  apply (settled_run cs' (zlen cs + 1)); [|lia|].
  - apply (op_step_inv (CComplete id hash result session now)); [done|lia].
  - unfold settled, op_step, complete. cbn [ot_max_issued ot_entries]. split; [done|].
    rewrite lookup_alter_eq. by destruct (ot_entries t !! _).
Qed.

Definition demo_op_id : OperationId := mk_OperationId (replicate 16 x01) 1.
Lemma operation_at_most_once_witness :
  decide_op demo_op_id OperationKind_Spawn 42
    (op_run ([CReserve OperationKind_Spawn 0] ++ CComplete demo_op_id 42 [x07] None 5 ::
             [CEvict 100 (λ _, None)]) (ops_new (replicate 16 x01))) ≠ Execute.
Proof.
  exact (operation_at_most_once (replicate 16 x01) [CReserve OperationKind_Spawn 0] demo_op_id 42 [x07]
           None 5 [CEvict 100 (λ _, None)] OperationKind_Spawn 42
           ltac:(vm_compute; done) ltac:(vm_compute; done)).
Defined.

(** The answer of [decide] on every branch: a foreign or never issued id is
    unknown, an evicted one expired, another kind or another request a
    conflict, a reserved one is executed, and a completed one replays exactly
    the stored result. *)
Theorem decide_op_spec id kind hash t :
  let seq := op_op_seq id in
  let issued := op_host_instance_id id = ot_host t ∧ seq <= ot_max_issued t ∧ seq ≠ 0 in
  (decide_op id kind hash t = Unknown ↔ ¬ issued) ∧
  (decide_op id kind hash t = Expired ↔ issued ∧ ot_entries t !! seq = None) ∧
  (decide_op id kind hash t = Execute ↔
     issued ∧ ∃ at_ms, ot_entries t !! seq = Some (kind, Reserved at_ms)) ∧
  (∀ r, decide_op id kind hash t = Replay r ↔
     issued ∧ ∃ session done_ms, ot_entries t !! seq = Some (kind, Completed hash r session done_ms)) ∧
  (decide_op id kind hash t = Conflict ↔
     issued ∧ ∃ k s, ot_entries t !! seq = Some (k, s) ∧
       (k ≠ kind ∨ ∃ h r session done_ms, s = Completed h r session done_ms ∧ h ≠ hash)).
Proof.
  cbn zeta. unfold decide_op.
  assert ((bool_decide (op_host_instance_id id ≠ ot_host t) || (ot_max_issued t <? op_op_seq id)
           || (op_op_seq id =? 0)) = false ↔
          op_host_instance_id id = ot_host t ∧ op_op_seq id <= ot_max_issued t ∧ op_op_seq id ≠ 0) as Hiss.
  { rewrite !orb_false_iff, bool_decide_eq_false, Z.ltb_ge, Z.eqb_neq.
    destruct (decide (op_host_instance_id id = ot_host t)); tauto. }
  destruct (bool_decide _ || _ || _) eqn:E.
  { assert (¬ (op_host_instance_id id = ot_host t ∧ op_op_seq id <= ot_max_issued t ∧ op_op_seq id ≠ 0)) as Hn
      by (intros Hn; apply Hiss in Hn; done).
    naive_solver. }
  pose proof (proj1 Hiss eq_refl) as Hy. clear Hiss E.
  destruct (ot_entries t !! op_op_seq id) as [[k s]|] eqn:El.
  2: { naive_solver. }
  destruct (decide (k = kind)) as [->|Hk].
  - rewrite (bool_decide_eq_false_2 (kind ≠ kind)) by tauto.
    destruct s as [at_ms|h r se dn].
    + naive_solver.
    + destruct (Z.eqb_spec h hash) as [->|Hh].
      * naive_solver.
      * naive_solver.
  - rewrite (bool_decide_eq_true_2 (k ≠ kind)) by done.
    naive_solver.
Qed.
