(* ===== verification/Replica.v ===== *)
(** * Replica (crates/session-core/src/replica.rs)

    The replicated terminal state, its encoding as a snapshot body, the delta
    between two states, the merge of consecutive deltas and their application. *)

From S2P Require Import Prelude Wire Types.
From Stdlib Require Import ZArith Lia Strings.Byte.
From stdpp Require Import base gmap list option sorting.

#[local] Open Scope Z_scope.

Definition S_MAX : Z := 64 * 1024 * 1024.
Definition MAX_COLS : Z := 1024.
Definition MAX_ROWS : Z := 512.

(** [u16::clamp]. *)
Definition clamp (lo hi v : Z) : Z := Z.max lo (Z.min hi v).
Definition normalize_size (cols rows : Z) : Z * Z := (clamp 1 MAX_COLS cols, clamp 1 MAX_ROWS rows).

Definition blank_row (cols : Z) : RowData := mk_RowData false (replicate (Z.to_nat cols) Cell_BLANK).
Definition default_cursor : Cursor := mk_Cursor 0 0 CursorStyle_Block false true.
Definition default_modes : Modes :=
  mk_Modes (Z.lor (Z.shiftl 1 6) (Z.shiftl 1 9)) MouseMode_Off MouseEncoding_Default.
Definition default_palette : Palette := mk_Palette Color_Default Color_Default None [].

Record Replica := mk_Replica {
  rp_cols : Z;
  rp_rows : Z;
  rp_screen : list RowData;
  rp_cursor : Cursor;
  rp_modes : Modes;
  rp_palette : Palette;
  rp_title : String;
  rp_hyperlinks : gmap Z String;
  rp_scrollback : list (Z * RowData);
  rp_exit_info : option ExitInfo;
}.

Inductive DiffError : Type := ScrollbackRewritten.

Definition replica_new (cols rows : Z) : Replica :=
  let '(cols, rows) := normalize_size cols rows in
  mk_Replica cols rows (replicate (Z.to_nat rows) (blank_row cols)) default_cursor default_modes
    default_palette [] ∅ [] None.

(** [collect] into a [BTreeMap]: a later entry replaces an earlier one. *)
Definition collect_links (m : gmap Z String) (l : list Hyperlink) : gmap Z String :=
  foldl (λ m h, <[hyperlink_id h := hyperlink_uri h]> m) m l.

Definition from_body (b : SBody) : Replica :=
  mk_Replica (sbody_cols b) (sbody_rows b) (sbody_screen b) (sbody_cursor b) (sbody_modes b)
    (sbody_palette b) (sbody_title b) (collect_links ∅ (sbody_hyperlinks b))
    (sbody_scrollback b) (sbody_exit_info b).

Definition to_body (r : Replica) : SBody :=
  mk_SBody (rp_cols r) (rp_rows r) (rp_screen r) (rp_cursor r) (rp_modes r) (rp_palette r)
    (rp_title r) ((λ p, mk_Hyperlink p.1 p.2) <$> bt_iter (rp_hyperlinks r))
    (rp_scrollback r) (rp_exit_info r).

Definition referenced_links (r : Replica) : gset Z :=
  let rows := rp_screen r ++ (snd <$> rp_scrollback r) in
  list_to_set (filter (λ id, id ≠ 0) (rows ≫= λ row, cell_hyperlink_id <$> row_cells row)).

Definition prune_hyperlinks (r : Replica) : Replica :=
  let keep := referenced_links r in
  mk_Replica (rp_cols r) (rp_rows r) (rp_screen r) (rp_cursor r) (rp_modes r) (rp_palette r)
    (rp_title r) (bt_retain (λ id _, bool_decide (id ∈ keep)) (rp_hyperlinks r))
    (rp_scrollback r) (rp_exit_info r).

Definition last_line_id (sb : list (Z * RowData)) : option Z := fst <$> last sb.
Definition first_line_id (sb : list (Z * RowData)) : option Z := fst <$> head sb.

(** [o.is_some_and(|f| f <= x)] and [o.map_or(true, |l| l < x)]. *)
Definition some_le (o : option Z) (x : Z) : bool :=
  match o with Some f => f <=? x | None => false end.
Definition none_or_lt (o : option Z) (x : Z) : bool :=
  match o with Some l => l <? x | None => true end.

(** [Vec::resize]. *)
Definition vec_resize {A} (n : Z) (x : A) (l : list A) : list A :=
  take (Z.to_nat n) l ++ replicate (Z.to_nat n - length l) x.

Definition resize_row (cols : Z) (row : RowData) : RowData :=
  mk_RowData (row_wrapped row) (vec_resize cols Cell_BLANK (row_cells row)).
Definition resize_screen (cols rows : Z) (screen : list RowData) : list RowData :=
  resize_row cols <$> vec_resize rows (blank_row cols) screen.

(** [while first_line_id() < before { pop_front }]. *)
Fixpoint evict_before (before : Z) (sb : list (Z * RowData)) : list (Z * RowData) :=
  match sb with
  | (id, row) :: sb' => if id <? before then evict_before before sb' else sb
  | [] => []
  end.

(** The appended rows whose id is above the last one. *)
Definition append_row (sb : list (Z * RowData)) (p : Z * RowData) : list (Z * RowData) :=
  if none_or_lt (last_line_id sb) p.1 then sb ++ [p] else sb.

Definition set_dirty (screen : list RowData) (p : Z * RowData) : list RowData :=
  <[Z.to_nat p.1 := p.2]> screen.

Definition apply_delta (d : Delta) (r : Replica) : Replica * list UiEvent :=
  let '(cols, rows, screen) :=
    match delta_size d with
    | Some (cols, rows) => (cols, rows, resize_screen cols rows (rp_screen r))
    | None => (rp_cols r, rp_rows r, rp_screen r)
    end in
  let scrollback :=
    match delta_scrollback_evicted_before d with
    | Some before => evict_before before (rp_scrollback r)
    | None => rp_scrollback r
    end in
  (prune_hyperlinks
     (mk_Replica cols rows
        (foldl set_dirty screen (delta_dirty_rows d))
        (default (rp_cursor r) (delta_cursor d))
        (default (rp_modes r) (delta_modes d))
        (default (rp_palette r) (delta_palette d))
        (default (rp_title r) (delta_title d))
        (collect_links (rp_hyperlinks r) (delta_hyperlinks_added d))
        (foldl append_row scrollback (delta_scrollback_appended d))
        (match delta_exit_info d with Some e => Some e | None => rp_exit_info r end)),
   delta_ui_events d).

Definition encoded_len (r : Replica) : Z := zlen (enc c_SBody (to_body r)).

(** The loop of [evict_to_limit]: the remaining rows and the last evicted id. *)
Fixpoint evict_loop (limit total : Z) (sb : list (Z * RowData)) (evicted : option Z)
    : list (Z * RowData) * option Z :=
  if limit <? total then
    match sb with
    | [] => ([], evicted)
    | (id, row) :: sb' =>
        evict_loop limit (sub64 total (zlen (enc (c_pair c_u64 c_RowData) (id, row)))) sb'
          (Some (add64 id 1))
    end
  else (sb, evicted).

Definition evict_to_limit (limit : Z) (r : Replica) : Replica * option Z :=
  let '(sb, evicted) := evict_loop limit (encoded_len r) (rp_scrollback r) None in
  let r' := mk_Replica (rp_cols r) (rp_rows r) (rp_screen r) (rp_cursor r) (rp_modes r)
              (rp_palette r) (rp_title r) (rp_hyperlinks r) sb (rp_exit_info r) in
  (match evicted with Some _ => prune_hyperlinks r' | None => r' end, evicted).

(** [cond.then_some(x)] *)
Definition then_some {A} (cond : bool) (x : A) : option A := if cond then Some x else None.

(** [next_by_id.get(id)]: a later duplicate id replaces an earlier one. *)
Definition row_by_id (sb : list (Z * RowData)) (id : Z) : option RowData :=
  foldl (λ acc p, if p.1 =? id then Some p.2 else acc) None sb.

(** The dirty rows of a screen against the previous one, from row [i] on; the
    row number is an [u16]. *)
Fixpoint dirty_from (i : nat) (size_changed : bool) (prev next : list RowData) : list (Z * RowData) :=
  match next with
  | [] => []
  | row :: next' =>
      let rest := dirty_from (S i) size_changed prev next' in
      if size_changed || bool_decide (prev !! i ≠ Some row)
      then (Z.of_nat i mod 2 ^ 16, row) :: rest
      else rest
  end.

Definition diff (prev next : Replica) (subscription_id base new : Z) : Result Delta DiffError :=
  let psb := rp_scrollback prev in
  let nsb := rp_scrollback next in
  let scroll_common :=
    filter (λ p, some_le (first_line_id nsb) p.1 = true) psb in
  if negb (forallb (λ p, bool_decide (row_by_id nsb p.1 = Some p.2)) scroll_common)
  then Err ScrollbackRewritten else
  let prev_last := last_line_id psb in
  let appended :=
    filter (λ p, none_or_lt prev_last p.1 = true) nsb in
  if match prev_last, first_line_id nsb with
     | Some pl, Some nf => (nf <=? pl) && negb (existsb (λ p, p.1 =? nf) psb)
     | _, _ => false
     end
  then Err ScrollbackRewritten else
  let evicted_before :=
    match first_line_id psb, first_line_id nsb with
    | Some pf, Some nf => if pf <? nf then Some nf else None
    | Some _, None =>
        Some (Z.max (match prev_last with Some l => add64 l 1 | None => 0 end)
                    (match last_line_id nsb with Some l => add64 l 1 | None => 0 end))
    | None, _ => None
    end in
  let size_changed := negb (rp_cols prev =? rp_cols next) || negb (rp_rows prev =? rp_rows next) in
  Ok (mk_Delta subscription_id base new
    (then_some size_changed (rp_cols next, rp_rows next))
    (then_some (bool_decide (rp_cursor prev ≠ rp_cursor next)) (rp_cursor next))
    (then_some (bool_decide (rp_modes prev ≠ rp_modes next)) (rp_modes next))
    (then_some (bool_decide (rp_palette prev ≠ rp_palette next)) (rp_palette next))
    (then_some (bool_decide (rp_title prev ≠ rp_title next)) (rp_title next))
    (dirty_from 0 size_changed (rp_screen prev) (rp_screen next))
    ((λ p, mk_Hyperlink p.1 p.2) <$>
       filter (λ p, rp_hyperlinks prev !! p.1 ≠ Some p.2) (bt_iter (rp_hyperlinks next)))
    appended
    evicted_before
    (if bool_decide (rp_exit_info prev ≠ rp_exit_info next) then rp_exit_info next else None)
    []).

(** [if d.x.is_some() { out.x = d.x }] *)
Definition override {A} (acc d : option A) : option A :=
  match d with Some _ => d | None => acc end.

Definition merge_evicted (a b : option Z) : option Z :=
  match a, b with
  | Some a, Some b => Some (Z.max a b)
  | Some a, None => Some a
  | None, b => b
  end.

(** The accumulator of [merge]: the delta under construction, the dirty rows
    and the added links by key. *)
Record MergeAcc := mk_MergeAcc {
  ma_out : Delta;
  ma_rows : gmap Z RowData;
  ma_links : gmap Z String;
}.

Definition merge_step (acc : MergeAcc) (d : Delta) : MergeAcc :=
  let out := ma_out acc in
  mk_MergeAcc
    (mk_Delta (delta_subscription_id out) (delta_base_revision out) (delta_new_revision out)
       (override (delta_size out) (delta_size d))
       (override (delta_cursor out) (delta_cursor d))
       (override (delta_modes out) (delta_modes d))
       (override (delta_palette out) (delta_palette d))
       (override (delta_title out) (delta_title d))
       [] []
       (delta_scrollback_appended out ++ delta_scrollback_appended d)
       (merge_evicted (delta_scrollback_evicted_before out) (delta_scrollback_evicted_before d))
       (override (delta_exit_info out) (delta_exit_info d))
       (delta_ui_events out ++ delta_ui_events d))
    (foldl (λ m p, <[p.1 := p.2]> m) (ma_rows acc) (delta_dirty_rows d))
    (collect_links (ma_links acc) (delta_hyperlinks_added d)).

Definition merge_finish (acc : MergeAcc) : Delta :=
  let out := ma_out acc in
  let rows :=
    match delta_size out with
    | Some (_, final_rows) => bt_retain (λ r _, r <? final_rows) (ma_rows acc)
    | None => ma_rows acc
    end in
  let appended :=
    match delta_scrollback_evicted_before out with
    | Some before => filter (λ p, (before <=? p.1) = true) (delta_scrollback_appended out)
    | None => delta_scrollback_appended out
    end in
  mk_Delta (delta_subscription_id out) (delta_base_revision out) (delta_new_revision out)
    (delta_size out) (delta_cursor out) (delta_modes out) (delta_palette out) (delta_title out)
    (bt_iter rows) ((λ p, mk_Hyperlink p.1 p.2) <$> bt_iter (ma_links acc))
    appended (delta_scrollback_evicted_before out) (delta_exit_info out) (delta_ui_events out).

Definition merge (deltas : list Delta) : option Delta :=
  match head deltas, last deltas with
  | Some first, Some last_d =>
      let out := mk_Delta (delta_subscription_id first) (delta_base_revision first)
                   (delta_new_revision last_d) None None None None None [] [] [] None None [] in
      Some (merge_finish (foldl merge_step (mk_MergeAcc out ∅ ∅) deltas))
  | _, _ => None
  end.

Definition delta_encoded_len (d : Delta) : Z := zlen (enc c_Delta d).

(** ** Lemmas *)

Lemma normalize_size_bounds cols rows :
  1 <= (normalize_size cols rows).1 <= MAX_COLS ∧ 1 <= (normalize_size cols rows).2 <= MAX_ROWS.
Proof. unfold normalize_size, clamp, MAX_COLS, MAX_ROWS. cbn. lia. Qed.
