(* ===== verification/ReplicaSpec.v ===== *)
(** * Replication: correctness of deltas

    What [Replica] promises a display client: applying the delta between two
    states to the first yields the second, applying the merge of a run of deltas
    yields the last state of the run, a snapshot body restores the state, and
    eviction brings a state under its size limit. *)

From S2P Require Import Prelude Wire Types Replica.
From Stdlib Require Import ZArith Lia Strings.Byte.
From stdpp Require Import base gmap list option sorting.

#[local] Open Scope Z_scope.

(** ** Scrollback: lines in the order of their ids *)

Abbreviation Line := (Z * RowData)%type (only parsing).

Definition line_lt (p q : Line) : Prop := p.1 < q.1.
Definition lines_sorted (sb : list Line) : Prop := StronglySorted line_lt sb.
(** Line ids are consecutive. *)
Definition contiguous (sb : list Line) : Prop := ∃ a, sb.*1 = seqZ a (zlen sb).

#[global] Instance line_lt_antisymm : AntiSymm (=) line_lt.
Proof. intros p q. unfold line_lt. lia. Qed.

Lemma line_lt_trans p q r : line_lt p q → line_lt q r → line_lt p r.
Proof. unfold line_lt. lia. Qed.

Lemma contiguous_sorted sb : contiguous sb → lines_sorted sb.
Proof.
  intros [a Ha]. revert a Ha. induction sb as [|[i row] sb IH]; intros a Ha; [constructor|].
  rewrite zlen_cons, seqZ_cons in Ha by (pose proof (zlen_nonneg sb); lia).
  cbn in Ha. injection Ha as -> Ha. replace (Z.pred (1 + zlen sb)) with (zlen sb) in Ha by lia.
  constructor; [by eapply IH|]. apply Forall_forall. intros [j row'] Hj. unfold line_lt. cbn.
  apply (list_elem_of_fmap_2 fst) in Hj. rewrite Ha in Hj. apply elem_of_seqZ in Hj. cbn in Hj. lia.
Qed.

Lemma sorted_NoDup sb : lines_sorted sb → NoDup sb.
Proof.
  induction 1 as [|p sb Hs IH Hp]; [apply NoDup_nil_2|]. apply NoDup_cons. split; [|done].
  intros Hin. eapply Forall_forall in Hp; [|done]. unfold line_lt in Hp. lia.
Qed.

Lemma sorted_unique sb i row row' :
  lines_sorted sb → (i, row) ∈ sb → (i, row') ∈ sb → row = row'.
Proof.
  induction 1 as [|p sb Hs IH Hp]; [set_solver|]. rewrite !elem_of_cons.
  rewrite Forall_forall in Hp. unfold line_lt in Hp.
  intros [H1|H1] [H2|H2]; [congruence| | |auto]; subst.
  - specialize (Hp _ H2). cbn in Hp. lia.
  - specialize (Hp _ H1). cbn in Hp. lia.
Qed.

Lemma sorted_ext sb sb' :
  lines_sorted sb → lines_sorted sb' → (∀ p, p ∈ sb ↔ p ∈ sb') → sb = sb'.
Proof.
  intros H1 H2 H. apply (StronglySorted_unique line_lt); [done|done|].
  apply NoDup_Permutation; [by apply sorted_NoDup..|done].
Qed.

Lemma sorted_app sb sb' :
  lines_sorted sb → lines_sorted sb' → (∀ p q, p ∈ sb → q ∈ sb' → p.1 < q.1) → lines_sorted (sb ++ sb').
Proof.
  intros H1 H2 H. induction H1 as [|p sb Hs IH Hp]; [done|]. cbn. constructor.
  - apply IH. intros. apply H; set_solver.
  - apply Forall_app. split; [done|]. apply Forall_forall. intros q Hq. apply H; set_solver.
Qed.

Lemma sorted_filter P `{!∀ x, Decision (P x)} sb : lines_sorted sb → lines_sorted (filter P sb).
Proof.
  induction 1 as [|p sb Hs IH Hp]; [constructor|]. rewrite filter_cons. case_decide; [|done].
  constructor; [done|]. apply Forall_forall. intros q Hq. apply list_elem_of_filter in Hq as [_ Hq].
  by eapply Forall_forall in Hp.
Qed.

Lemma sorted_app_inv sb sb' :
  lines_sorted (sb ++ sb') →
  lines_sorted sb ∧ lines_sorted sb' ∧ (∀ p q, p ∈ sb → q ∈ sb' → p.1 < q.1).
Proof.
  induction sb as [|p sb IH]; cbn; intros H.
  - split_and!; [constructor|done|set_solver].
  - apply StronglySorted_inv in H as [H Hp]. destruct (IH H) as (H1 & H2 & H3).
    apply Forall_app in Hp as [Hp Hp']. split_and!; [by constructor|done|].
    intros a b [->|Ha]%elem_of_cons Hb; [by eapply Forall_forall in Hp'|by apply H3].
Qed.

Definition above (e : option Z) (p : Line) : Prop :=
  match e with Some b => b <= p.1 | None => True end.
#[global] Instance above_dec e p : Decision (above e p).
Proof. destruct e; cbn; apply _. Defined.

Lemma evict_before_filter b sb : lines_sorted sb → evict_before b sb = filter (above (Some b)) sb.
Proof.
  induction 1 as [|[i row] sb Hs IH Hp]; [done|]. cbn [evict_before]. rewrite filter_cons. cbn [above fst].
  destruct (i <? b) eqn:E.
  - rewrite decide_False by lia. done.
  - rewrite decide_True by lia. f_equal. symmetry. clear IH. induction Hs as [|q sb Hs IH Hq]; [done|].
    apply Forall_cons in Hp as [Hpq Hp]. rewrite filter_cons. unfold line_lt in Hpq. cbn in *.
    rewrite decide_True by lia. f_equal. auto.
Qed.

Lemma append_row_above sb p : (∀ q, q ∈ sb → q.1 < p.1) → append_row sb p = sb ++ [p].
Proof.
  intros H. unfold append_row, none_or_lt, last_line_id. destruct (last sb) as [q|] eqn:E; cbn; [|done].
  apply last_Some in E as [sb' ->]. specialize (H q ltac:(set_solver)).
  case_match; [done|lia].
Qed.

Lemma append_rows_sorted sb l : lines_sorted (sb ++ l) → foldl append_row sb l = sb ++ l.
Proof.
  revert sb. induction l as [|p l IH]; intros sb H; cbn; [by rewrite app_nil_r|].
  rewrite append_row_above.
  - rewrite IH; rewrite <- app_assoc; done.
  - intros q Hq. apply sorted_app_inv in H as (_ & _ & H). apply H; set_solver.
Qed.

Lemma row_by_id_Some sb i row : row_by_id sb i = Some row → (i, row) ∈ sb.
Proof.
  unfold row_by_id.
  assert (∀ acc, foldl (λ acc p, if p.1 =? i then Some p.2 else acc) acc sb = Some row →
    acc = Some row ∨ (i, row) ∈ sb) as H.
  { induction sb as [|[j r] sb IH]; intros acc H; [by left|]. cbn in H. apply IH in H as [H|H]; [|set_solver].
    destruct (j =? i) eqn:E; [|by left]. right. simplify_eq. assert (j = i) as -> by lia. set_solver. }
  intros E. apply H in E as [?|?]; done.
Qed.

Lemma contiguous_mid sb i j k row :
  contiguous sb → (i, row) ∈ sb → k ∈ sb.*1 → i <= j <= k → ∃ row', (j, row') ∈ sb.
Proof.
  intros [a Ha] Hi Hk Hj. apply (list_elem_of_fmap_2 fst) in Hi. rewrite Ha in Hi, Hk.
  apply elem_of_seqZ in Hi, Hk. cbn in Hi.
  assert (j ∈ sb.*1) as Hin by (rewrite Ha; apply elem_of_seqZ; lia).
  apply list_elem_of_fmap in Hin as ([j' r] & -> & ?). eauto.
Qed.

Lemma first_line_le sb f p : lines_sorted sb → first_line_id sb = Some f → p ∈ sb → f <= p.1.
Proof.
  intros Hs Hf Hp. destruct sb as [|q sb]; [done|]. injection Hf as <-.
  apply elem_of_cons in Hp as [->|Hp]; [lia|].
  apply StronglySorted_inv in Hs as [_ Hq]. eapply Forall_forall in Hq; [|done]. unfold line_lt in Hq. lia.
Qed.

Lemma last_line_ge sb m p : lines_sorted sb → last_line_id sb = Some m → p ∈ sb → p.1 <= m.
Proof.
  unfold last_line_id. intros Hs Hl Hp. destruct (last sb) as [q|] eqn:E; [|done]. injection Hl as <-.
  apply last_Some in E as [sb' ->]. apply sorted_app_inv in Hs as (_ & _ & H).
  apply elem_of_app in Hp as [Hp|Hp]; [|apply list_elem_of_singleton in Hp as ->; lia].
  specialize (H p q Hp ltac:(set_solver)). lia.
Qed.

Lemma first_line_in sb f : first_line_id sb = Some f → ∃ row, (f, row) ∈ sb.
Proof. destruct sb as [|[i row] sb]; [done|]. intros [= <-]. exists row. set_solver. Qed.

Lemma last_line_in sb m : last_line_id sb = Some m → m ∈ sb.*1.
Proof.
  unfold last_line_id. destruct (last sb) as [q|] eqn:E; [|done]. intros [= <-].
  apply last_Some in E as [sb' ->]. rewrite fmap_app. set_solver.
Qed.

Lemma line_ids_empty sb : first_line_id sb = None ↔ sb = [].
Proof. destruct sb; split; done. Qed.

Lemma last_line_None sb : last_line_id sb = None ↔ sb = [].
Proof.
  unfold last_line_id. destruct (last sb) eqn:E; [|apply last_None in E; done].
  apply last_Some in E as [? ->]. by destruct x.
Qed.

(** ** The scrollback part of [diff] *)

Section diff_scroll.
Context (prev next : list Line).
Context (Hcp : contiguous prev) (Hcn : contiguous next).
(** The two checks [diff] makes. *)
Context (Hcommon : ∀ p, p ∈ prev → some_le (first_line_id next) p.1 = true →
  row_by_id next p.1 = Some p.2).
Context (Hfirst : ∀ pl nf, last_line_id prev = Some pl → first_line_id next = Some nf →
  nf <= pl → ∃ row, (nf, row) ∈ prev).

Definition appended_lines : list Line :=
  filter (λ p, none_or_lt (last_line_id prev) p.1 = true) next.
Definition evicted_bound : option Z :=
  match first_line_id prev, first_line_id next with
  | Some pf, Some nf => if pf <? nf then Some nf else None
  | Some _, None =>
      Some (Z.max (match last_line_id prev with Some l => add64 l 1 | None => 0 end)
                  (match last_line_id next with Some l => add64 l 1 | None => 0 end))
  | None, _ => None
  end.

Lemma appended_above p q : p ∈ prev → q ∈ appended_lines → p.1 < q.1.
Proof.
  intros Hp Hq. apply list_elem_of_filter in Hq as [Hq _]. unfold none_or_lt in Hq.
  destruct (last_line_id prev) as [m|] eqn:E.
  - pose proof (last_line_ge _ _ _ (contiguous_sorted _ Hcp) E Hp). lia.
  - apply last_line_None in E. rewrite E in Hp. by apply not_elem_of_nil in Hp.
Qed.

Lemma kept_in_next p :
  (∀ q, q ∈ prev → 0 <= q.1 < u64_max) → p ∈ prev → above evicted_bound p → p ∈ next.
Proof.
  intros Hu Hp Ha. assert (∃ pf pl, first_line_id prev = Some pf ∧ last_line_id prev = Some pl)
    as (pf & pl & Epf & Epl).
  { destruct (first_line_id prev) eqn:E1; [|apply line_ids_empty in E1; rewrite E1 in Hp; by apply not_elem_of_nil in Hp].
    destruct (last_line_id prev) eqn:E2; [|apply last_line_None in E2; rewrite E2 in Hp; by apply not_elem_of_nil in Hp]. eauto. }
  pose proof (first_line_le _ _ _ (contiguous_sorted _ Hcp) Epf Hp).
  pose proof (last_line_ge _ _ _ (contiguous_sorted _ Hcp) Epl Hp).
  unfold evicted_bound in Ha. rewrite Epf, Epl in Ha.
  destruct p as [i row]. destruct (first_line_id next) as [nf|] eqn:Enf.
  - apply row_by_id_Some. apply (Hcommon (i, row)); [done|]. cbn.
    destruct (pf <? nf) eqn:E; cbn in *; lia.
  - exfalso. apply last_line_in in Epl. apply list_elem_of_fmap in Epl as (q & -> & Hq).
    specialize (Hu q Hq). cbn in Ha. rewrite add64_id in Ha by lia. cbn in *. lia.
Qed.

Lemma next_in_kept p : p ∈ next → p ∉ appended_lines → p ∈ prev ∧ above evicted_bound p.
Proof.
  intros Hp Hna. destruct (last_line_id prev) as [pl|] eqn:Epl.
  2:{ exfalso. apply Hna, list_elem_of_filter. by rewrite Epl. }
  assert (p.1 <= pl) as Hle.
  { destruct (decide (p.1 <= pl)); [done|]. exfalso. apply Hna, list_elem_of_filter.
    rewrite Epl. cbn. split; [lia|done]. }
  destruct (first_line_id next) as [nf|] eqn:Enf; [|apply line_ids_empty in Enf; rewrite Enf in Hp; by apply not_elem_of_nil in Hp].
  pose proof (first_line_le _ _ _ (contiguous_sorted _ Hcn) Enf Hp) as Hnf.
  destruct (Hfirst pl nf eq_refl eq_refl ltac:(lia)) as [row Hrow].
  destruct p as [i r]. cbn in *.
  destruct (contiguous_mid prev nf i pl row Hcp Hrow (last_line_in _ _ Epl) ltac:(lia)) as [r' Hr'].
  assert (row_by_id next i = Some r') as Hby by (apply (Hcommon (i, r')); [done|cbn; lia]).
  apply row_by_id_Some in Hby.
  assert (r = r') as -> by (by eapply sorted_unique; [apply contiguous_sorted, Hcn|..]).
  split; [done|]. unfold evicted_bound. destruct (first_line_id prev) as [pf|] eqn:Epf; [|done].
  rewrite Enf. case_match; cbn; [lia|done].
Qed.

Lemma diff_scroll :
  (∀ q, q ∈ prev → 0 <= q.1 < u64_max) →
  next = filter (above evicted_bound) prev ++ appended_lines.
Proof.
  intros Hu. pose proof (contiguous_sorted _ Hcp). pose proof (contiguous_sorted _ Hcn).
  apply sorted_ext; [done| |].
  - apply sorted_app; [by apply sorted_filter..|]. intros p q Hp Hq.
    apply list_elem_of_filter in Hp as [_ Hp]. by apply appended_above.
  - intros p. rewrite elem_of_app, list_elem_of_filter. split.
    + intros Hp. destruct (decide (p ∈ appended_lines)); [by right|]. left.
      destruct (next_in_kept p); done.
    + intros [[Ha Hp]|Hp]; [by apply kept_in_next|]. by apply list_elem_of_filter in Hp as [_ ?].
Qed.
End diff_scroll.

(** ** What a delta promises *)

(** The map a list of entries builds, later entries replacing earlier ones. *)
Definition build {V} (m : gmap Z V) (l : list (Z * V)) : gmap Z V :=
  foldl (λ m p, <[p.1 := p.2]> m) m l.

Record wf_replica (r : Replica) : Prop := {
  wr_rows : 0 <= rp_rows r <= u16_max;
  wr_screen : zlen (rp_screen r) = rp_rows r;
  wr_links : dom (rp_hyperlinks r) = referenced_links r;
  wr_lines : contiguous (rp_scrollback r);
  wr_ids : ∀ p, p ∈ rp_scrollback r → 0 <= p.1 < u64_max;
}.

(** The fields that are overwritten or kept. *)
Definition fields_rel (size : option (Z * Z)) (cursor : option Cursor) (modes : option Modes)
    (palette : option Palette) (title : option String) (exit : option ExitInfo) (r r' : Replica) : Prop :=
  match size with
  | Some (c, w) => c = rp_cols r' ∧ w = rp_rows r'
  | None => rp_cols r' = rp_cols r ∧ rp_rows r' = rp_rows r
  end ∧
  default (rp_cursor r) cursor = rp_cursor r' ∧ default (rp_modes r) modes = rp_modes r' ∧
  default (rp_palette r) palette = rp_palette r' ∧ default (rp_title r) title = rp_title r' ∧
  override (rp_exit_info r) exit = rp_exit_info r'.

(** Every row of the new screen is in the map, or unchanged if the size is. *)
Definition rows_rel (size : option (Z * Z)) (rows : gmap Z RowData) (r r' : Replica) : Prop :=
  ∀ i, (Z.of_nat i < rp_rows r') →
    match rows !! Z.of_nat i with
    | Some row => rp_screen r' !! i = Some row
    | None => size = None ∧ rp_screen r' !! i = rp_screen r !! i
    end.

(** Every link of the new state is in the map, or was there before. *)
Definition links_rel (links : gmap Z String) (r r' : Replica) : Prop :=
  ∀ id, id ∈ dom (rp_hyperlinks r') → (links ∪ rp_hyperlinks r) !! id = rp_hyperlinks r' !! id.

Record delta_rel (d : Delta) (r r' : Replica) : Prop := {
  dr_fields : fields_rel (delta_size d) (delta_cursor d) (delta_modes d) (delta_palette d)
    (delta_title d) (delta_exit_info d) r r';
  dr_nonneg : Forall (λ p, 0 <= p.1) (delta_dirty_rows d);
  dr_rows : rows_rel (delta_size d) (build ∅ (delta_dirty_rows d)) r r';
  dr_links : links_rel (collect_links ∅ (delta_hyperlinks_added d)) r r';
  dr_sorted : lines_sorted (rp_scrollback r ++ delta_scrollback_appended d);
  dr_scroll : rp_scrollback r' =
    filter (above (delta_scrollback_evicted_before d)) (rp_scrollback r) ++ delta_scrollback_appended d;
}.

(** ** Lemmas: maps built from lists *)

Lemma build_union {V} (m : gmap Z V) l : build m l = build ∅ l ∪ m.
Proof.
  unfold build. revert m. induction l as [|[i v] l IH] using rev_ind; intros m; cbn.
  - by rewrite (left_id_L ∅ (∪)).
  - rewrite !foldl_app. cbn. rewrite IH. by rewrite insert_union_l.
Qed.

Lemma build_lookup {V} (l : list (Z * V)) i v :
  NoDup l.*1 → build ∅ l !! i = Some v ↔ (i, v) ∈ l.
Proof.
  induction l as [|[j w] l IH] using rev_ind; intros Hnd.
  - unfold build; cbn. rewrite lookup_empty. split; [done|by intros ?%not_elem_of_nil].
  - unfold build. rewrite foldl_app. cbn. rewrite fmap_app in Hnd.
    apply NoDup_app in Hnd as (Hnd & Hx & _). rewrite elem_of_app, list_elem_of_singleton.
    destruct (decide (i = j)) as [->|Hne].
    + rewrite lookup_insert_eq. split; [intros [= ->]; by right|]. intros [Hin|[= ->]]; [|done].
      exfalso. apply (Hx j); [by apply (list_elem_of_fmap_2 fst) in Hin|set_solver].
    + rewrite lookup_insert_ne by done. unfold build in IH. rewrite (IH Hnd). naive_solver.
Qed.

(** An ordered map is built again from its entries. *)
Lemma build_bt_iter {V} (m : gmap Z V) : build ∅ (bt_iter m) = m.
Proof.
  apply map_eq. intros i. apply option_eq. intros v.
  rewrite build_lookup, elem_of_bt_iter; [done|]. rewrite bt_iter_keys. apply NoDup_bs_iter.
Qed.

Lemma collect_links_build m l :
  collect_links m l = build m ((λ h, (hyperlink_id h, hyperlink_uri h)) <$> l).
Proof.
  unfold collect_links, build. revert m. induction l as [|h l IH]; intros m; [done|]. cbn. by rewrite IH.
Qed.

Lemma collect_links_union m l : collect_links m l = collect_links ∅ l ∪ m.
Proof. rewrite !collect_links_build. apply build_union. Qed.

Lemma collect_links_entries l :
  collect_links ∅ ((λ p, mk_Hyperlink p.1 p.2) <$> l) = build ∅ l.
Proof.
  rewrite collect_links_build, <- list_fmap_compose. f_equal.
  rewrite <- (list_fmap_id l) at 2. apply list_fmap_ext. by intros ? [] ?.
Qed.

(** ** Applying a delta *)

Lemma length_set_dirty l screen : length (foldl set_dirty screen l) = length screen.
Proof.
  revert screen. induction l as [|p l IH]; intros screen; [done|]. cbn. rewrite IH. apply length_insert.
Qed.

Lemma set_dirty_lookup l screen i :
  Forall (λ p, 0 <= p.1) l → (i < length screen)%nat →
  foldl set_dirty screen l !! i =
    match build ∅ l !! Z.of_nat i with Some row => Some row | None => screen !! i end.
Proof.
  intros Hnn Hi. induction l as [|[j row] l IH] using rev_ind.
  { unfold build; cbn. by rewrite lookup_empty. }
  apply Forall_app in Hnn as [Hnn Hj]. apply Forall_cons in Hj as [Hj _]. cbn in Hj.
  specialize (IH Hnn). unfold build. rewrite !foldl_app. cbn. unfold set_dirty at 1. cbn.
  destruct (decide (j = Z.of_nat i)) as [->|Hne].
  - rewrite lookup_insert_eq, Nat2Z.id. by rewrite list_lookup_insert_eq by (rewrite length_set_dirty; lia).
  - rewrite lookup_insert_ne by done. rewrite list_lookup_insert_ne by lia. done.
Qed.

Lemma length_vec_resize {A} n (x : A) l : length (vec_resize n x l) = Z.to_nat n.
Proof. unfold vec_resize. rewrite length_app, length_take, length_replicate. lia. Qed.

(** The screen a delta yields. *)
Lemma apply_screen d r r' :
  wf_replica r → wf_replica r' → delta_rel d r r' →
  foldl set_dirty
    (match delta_size d with Some (c, w) => resize_screen c w (rp_screen r) | None => rp_screen r end)
    (delta_dirty_rows d) = rp_screen r'.
Proof.
  intros Hw Hw' Hd. set (sc := match delta_size d with Some (c, w) => _ | None => _ end).
  pose proof (dr_fields _ _ _ Hd) as (Hsz & _). pose proof (dr_rows _ _ _ Hd) as Hr.
  pose proof (wr_screen _ Hw). pose proof (wr_screen _ Hw'). pose proof (wr_rows _ Hw').
  assert (length sc = length (rp_screen r')) as Hlen.
  { subst sc. destruct (delta_size d) as [[c w]|].
    - unfold resize_screen. rewrite length_fmap, length_vec_resize. destruct Hsz as [_ ->]. unfold zlen in *. lia.
    - destruct Hsz. unfold zlen in *. lia. }
  apply list_eq. intros i. destruct (decide (i < length sc)%nat) as [Hi|Hi].
  - rewrite (set_dirty_lookup _ sc i (dr_nonneg _ _ _ Hd) Hi).
    specialize (Hr i ltac:(unfold zlen in *; lia)). destruct (build ∅ _ !! Z.of_nat i); [done|].
    destruct Hr as [Hs ->]. subst sc. by rewrite Hs.
  - rewrite !lookup_ge_None_2; [done|lia|rewrite length_set_dirty; lia].
Qed.

Lemma apply_scroll d r r' :
  wf_replica r → delta_rel d r r' →
  foldl append_row
    (match delta_scrollback_evicted_before d with
     | Some before => evict_before before (rp_scrollback r) | None => rp_scrollback r end)
    (delta_scrollback_appended d) = rp_scrollback r'.
Proof.
  intros Hw Hd. pose proof (dr_sorted _ _ _ Hd) as Hs. rewrite (dr_scroll _ _ _ Hd).
  pose proof (contiguous_sorted _ (wr_lines _ Hw)) as Hsr.
  assert (match delta_scrollback_evicted_before d with
     | Some before => evict_before before (rp_scrollback r) | None => rp_scrollback r end
     = filter (above (delta_scrollback_evicted_before d)) (rp_scrollback r)) as ->.
  { destruct (delta_scrollback_evicted_before d); [by apply evict_before_filter|].
    clear. induction (rp_scrollback r) as [|p l IH]; [done|]. rewrite filter_cons, decide_True by done.
    by f_equal. }
  apply append_rows_sorted. apply sorted_app_inv in Hs as (_ & Ha & Hlt).
  apply sorted_app; [by apply sorted_filter|done|]. intros p q Hp Hq.
  apply list_elem_of_filter in Hp as [_ Hp]. by apply Hlt.
Qed.

Lemma apply_delta_rel d r r' :
  wf_replica r → wf_replica r' → delta_rel d r r' → apply_delta d r = (r', delta_ui_events d).
Proof.
  intros Hw Hw' Hd. pose proof (apply_screen d r r' Hw Hw' Hd) as Hsc.
  pose proof (apply_scroll d r r' Hw Hd) as Hsb.
  pose proof (dr_fields _ _ _ Hd) as (Hsz & Hc & Hm & Hp & Ht & He).
  unfold apply_delta. rewrite collect_links_union.
  assert (∀ cols rows screen, cols = rp_cols r' → rows = rp_rows r' →
    foldl set_dirty screen (delta_dirty_rows d) = rp_screen r' →
    prune_hyperlinks (mk_Replica cols rows (foldl set_dirty screen (delta_dirty_rows d))
      (default (rp_cursor r) (delta_cursor d)) (default (rp_modes r) (delta_modes d))
      (default (rp_palette r) (delta_palette d)) (default (rp_title r) (delta_title d))
      (collect_links ∅ (delta_hyperlinks_added d) ∪ rp_hyperlinks r)
      (foldl append_row (match delta_scrollback_evicted_before d with
         | Some before => evict_before before (rp_scrollback r) | None => rp_scrollback r end)
         (delta_scrollback_appended d))
      (match delta_exit_info d with Some e => Some e | None => rp_exit_info r end)) = r') as H.
  { intros cols rows screen -> -> ->. rewrite Hsb, Hc, Hm, Hp, Ht.
    replace (match delta_exit_info d with Some e => Some e | None => rp_exit_info r end)
      with (rp_exit_info r') by (rewrite <- He; by destruct (delta_exit_info d)).
    unfold prune_hyperlinks. cbn [rp_cols rp_rows rp_screen rp_cursor rp_modes rp_palette rp_title
      rp_hyperlinks rp_scrollback rp_exit_info].
    unfold referenced_links; cbn [rp_screen rp_scrollback]. fold (referenced_links r').
    replace (bt_retain _ _) with (rp_hyperlinks r'); [by destruct r'|].
    apply map_eq. intros id. rewrite lookup_bt_retain. case_bool_decide as Hin.
    - rewrite <- (wr_links _ Hw') in Hin. rewrite (dr_links _ _ _ Hd id Hin).
      by destruct (rp_hyperlinks r' !! id).
    - rewrite <- (wr_links _ Hw') in Hin. apply not_elem_of_dom in Hin. rewrite Hin.
      by destruct ((_ ∪ _) !! id). }
  destruct (delta_size d) as [[c w]|]; f_equal; destruct Hsz; by apply H.
Qed.

(** ** The delta [diff] computes *)

Lemma NoDup_keys_filter {V} (P : Z * V → Prop) `{!∀ x, Decision (P x)} (l : list (Z * V)) :
  NoDup l.*1 → NoDup (filter P l).*1.
Proof.
  induction l as [|x l IH]; [done|]. rewrite fmap_cons. intros [Hx Hnd]%NoDup_cons. rewrite filter_cons.
  case_decide; [|auto]. cbn. apply NoDup_cons. split; [|auto]. intros Hin. apply Hx.
  apply list_elem_of_fmap in Hin as (y & -> & Hy). apply list_elem_of_filter in Hy as [_ Hy].
  by apply (list_elem_of_fmap_2 fst) in Hy.
Qed.


Lemma elem_of_dirty_from j row size_changed prev next k :
  Z.of_nat k + zlen next <= 2 ^ 16 →
  (j, row) ∈ dirty_from k size_changed prev next ↔
  ∃ i, next !! i = Some row ∧ j = Z.of_nat (k + i) ∧
    (size_changed = true ∨ prev !! (k + i)%nat ≠ Some row).
Proof.
  revert k. induction next as [|x next IH]; intros k Hk; cbn [dirty_from].
  { rewrite elem_of_nil. split; [done|]. by intros (i & ? & _). }
  rewrite zlen_cons in Hk. pose proof (zlen_nonneg next).
  specialize (IH (S k) ltac:(lia)). rewrite Z.mod_small by lia.
  assert ((j, row) ∈ dirty_from (S k) size_changed prev next ↔
    ∃ i, (x :: next) !! S i = Some row ∧ j = Z.of_nat (k + S i) ∧
      (size_changed = true ∨ prev !! (k + S i)%nat ≠ Some row)) as IH'.
  { rewrite IH. cbn. by setoid_rewrite Nat.add_succ_r. }
  assert ((∃ i, (x :: next) !! i = Some row ∧ j = Z.of_nat (k + i) ∧
      (size_changed = true ∨ prev !! (k + i)%nat ≠ Some row)) ↔
    (x = row ∧ j = Z.of_nat k ∧ (size_changed = true ∨ prev !! k ≠ Some row)) ∨
    ∃ i, (x :: next) !! S i = Some row ∧ j = Z.of_nat (k + S i) ∧
      (size_changed = true ∨ prev !! (k + S i)%nat ≠ Some row)) as ->.
  { split.
    - intros ([|i] & H1 & H2 & H3); [left|right; eauto]. rewrite Nat.add_0_r in *. by simplify_eq/=.
    - intros [(-> & H2 & H3)|(i & Hi)]; [|by exists (S i)]. exists 0%nat. rewrite Nat.add_0_r. done. }
  rewrite <- IH'. destruct size_changed; cbn [orb].
  - rewrite elem_of_cons. naive_solver.
  - case_bool_decide; [rewrite elem_of_cons|]; naive_solver.
Qed.

Lemma dirty_from_keys size_changed prev next k :
  Z.of_nat k + zlen next <= 2 ^ 16 → NoDup (dirty_from k size_changed prev next).*1.
Proof.
  revert k. induction next as [|x next IH]; intros k Hk; cbn [dirty_from]; [apply NoDup_nil_2|].
  rewrite zlen_cons in Hk. pose proof (zlen_nonneg next). specialize (IH (S k) ltac:(lia)).
  case_match; [|done]. cbn. apply NoDup_cons. split; [|done]. rewrite Z.mod_small by lia.
  intros Hin. apply list_elem_of_fmap in Hin as ([j row] & E & Hin).
  apply elem_of_dirty_from in Hin as (i & _ & -> & _); cbn in *; lia.
Qed.

(** The checks behind a successful [diff], as used by [diff_scroll]. *)
Lemma diff_Ok_checks prev next s b n d :
  diff prev next s b n = Ok d →
  (∀ p, p ∈ rp_scrollback prev → some_le (first_line_id (rp_scrollback next)) p.1 = true →
     row_by_id (rp_scrollback next) p.1 = Some p.2) ∧
  (∀ pl nf, last_line_id (rp_scrollback prev) = Some pl → first_line_id (rp_scrollback next) = Some nf →
     nf <= pl → ∃ row, (nf, row) ∈ rp_scrollback prev).
Proof.
  unfold diff. intros H. case_match eqn:E1; [done|]. case_match eqn:E2; [done|]. clear H.
  apply negb_false_iff, forallb_forall in E1 || (apply negb_false_iff in E1; rewrite forallb_forall in E1).
  split.
  - intros p Hp Hle. specialize (E1 p). apply bool_decide_eq_true in E1; [done|].
    apply list_elem_of_In, list_elem_of_filter. done.
  - intros pl nf Epl Enf Hle. rewrite Epl, Enf in E2. rewrite (proj2 (Z.leb_le _ _) Hle) in E2. cbn in E2.
    apply negb_false_iff, existsb_exists in E2 as ([j row] & Hin & Hj).
    exists row. apply list_elem_of_In in Hin. cbn in Hj. by assert (j = nf) as -> by lia.
Qed.

(** The dirty rows lead from one screen to the next. *)
Lemma dirty_rows_rel sc (size : option (Z * Z)) prev next :
  zlen (rp_screen next) = rp_rows next → rp_rows next <= u16_max → (sc = false → size = None) →
  Forall (λ p, 0 <= p.1) (dirty_from 0 sc (rp_screen prev) (rp_screen next)) ∧
  rows_rel size (build ∅ (dirty_from 0 sc (rp_screen prev) (rp_screen next))) prev next.
Proof.
  intros Hscn Hrn Hsize. unfold u16_max in Hrn. split.
  - apply Forall_forall. intros [j row] Hin. apply elem_of_dirty_from in Hin as (i & _ & -> & _); cbn; lia.
  - intros i Hi. destruct (build ∅ _ !! Z.of_nat i) as [row|] eqn:E.
    + apply build_lookup, elem_of_dirty_from in E as (i' & Hi' & Hii & _); [|lia|apply dirty_from_keys; lia].
      by assert (i = i') as -> by lia.
    + assert (∃ row, rp_screen next !! i = Some row) as [row Hrow]
        by (apply lookup_lt_is_Some_2; unfold zlen in *; lia).
      assert ((Z.of_nat i, row) ∉ dirty_from 0 sc (rp_screen prev) (rp_screen next)) as Hno.
      { intros Hin. apply build_lookup in Hin; [congruence|apply dirty_from_keys; lia]. }
      rewrite elem_of_dirty_from in Hno by lia.
      destruct sc; [exfalso; apply Hno; exists i; auto|]. split; [by apply Hsize|].
      destruct (decide (rp_screen prev !! i = Some row)) as [->|Hne]; [done|].
      exfalso. apply Hno. exists i. auto.
Qed.

(** The links a delta adds complete the old table. *)
Lemma added_links_lookup (mp mn : gmap Z String) id u :
  mn !! id = Some u →
  (collect_links ∅ ((λ p, mk_Hyperlink p.1 p.2) <$> filter (λ p, mp !! p.1 ≠ Some p.2) (bt_iter mn)) ∪ mp) !! id
  = Some u.
Proof.
  intros Hu. rewrite collect_links_entries.
  set (added := filter _ (bt_iter mn)).
  assert (NoDup added.*1) as Hnd.
  { apply NoDup_keys_filter. rewrite bt_iter_keys. apply NoDup_bs_iter. }
  rewrite lookup_union. destruct (build ∅ added !! id) as [v|] eqn:E.
  - apply build_lookup, list_elem_of_filter in E as [_ E]; [|done]. apply elem_of_bt_iter in E.
    rewrite Hu in E. simplify_eq. by destruct (mp !! id).
  - destruct (decide (mp !! id = Some u)) as [->|Hne]; [done|]. exfalso.
    assert ((id, u) ∈ added) as Ha by (apply list_elem_of_filter; split; [done|by apply elem_of_bt_iter]).
    apply build_lookup in Ha; [congruence|done].
Qed.

Lemma diff_rel prev next s b n d :
  wf_replica prev → wf_replica next → (is_Some (rp_exit_info prev) → is_Some (rp_exit_info next)) →
  diff prev next s b n = Ok d → delta_rel d prev next ∧ delta_ui_events d = [].
Proof.
  intros Hwp Hwn Hex Hd. destruct (diff_Ok_checks _ _ _ _ _ _ Hd) as [Hc1 Hc2].
  pose proof (diff_scroll _ _ (wr_lines _ Hwp) (wr_lines _ Hwn) Hc1 Hc2 (wr_ids _ Hwp)) as Hsb.
  pose proof (appended_above (rp_scrollback prev) (rp_scrollback next) (wr_lines _ Hwp)) as Happ.
  unfold diff in Hd. do 2 (case_match; [done|]).
  pose proof (wr_screen _ Hwn) as Hscn. pose proof (wr_rows _ Hwn) as Hrn. unfold u16_max in Hrn.
  simplify_eq. split; [|done].
  set (sc := negb (rp_cols prev =? rp_cols next) || negb (rp_rows prev =? rp_rows next)).
  split; cbn [delta_size delta_cursor delta_modes delta_palette delta_title delta_exit_info
    delta_dirty_rows delta_hyperlinks_added delta_scrollback_appended delta_scrollback_evicted_before].
  - unfold fields_rel, then_some. split_and!; try (by case_bool_decide).
    + destruct sc eqn:E; [done|]. unfold sc in E. bool_hyps. lia.
    + case_bool_decide as Hne; [|done].
      destruct (rp_exit_info next); [done|]. destruct (rp_exit_info prev); [|done].
      by destruct Hex.
  - apply (dirty_rows_rel sc None prev next Hscn); [unfold u16_max; lia|done].
  - apply (dirty_rows_rel sc _ prev next Hscn); [unfold u16_max; lia|]. by intros ->.
  - intros id Hin. apply elem_of_dom in Hin as [u Hu]. rewrite Hu. by apply added_links_lookup.
  - apply sorted_app; [by apply contiguous_sorted, Hwp| |exact (Happ Hc2)].
    apply sorted_filter, contiguous_sorted, Hwn.
  - exact Hsb.
Qed.

(** ** Merging deltas *)

(** The new lines of a delta have ids from [c] on, below [c'], and none is
    evicted by the delta itself. *)
Definition lines_fresh (c c' : Z) (d : Delta) : Prop :=
  c <= c' ∧
  (∀ p, p ∈ delta_scrollback_appended d →
     c <= p.1 < c' ∧ above (delta_scrollback_evicted_before d) p) ∧
  (∀ e, delta_scrollback_evicted_before d = Some e → e <= c').

(** The accumulator of [merge] takes [r] to [r']; line ids are below [c]. *)
Record acc_rel (acc : MergeAcc) (c : Z) (r r' : Replica) : Prop := {
  ar_fields : fields_rel (delta_size (ma_out acc)) (delta_cursor (ma_out acc)) (delta_modes (ma_out acc))
    (delta_palette (ma_out acc)) (delta_title (ma_out acc)) (delta_exit_info (ma_out acc)) r r';
  ar_keys : ∀ i, is_Some (ma_rows acc !! i) → 0 <= i;
  ar_rows : rows_rel (delta_size (ma_out acc)) (ma_rows acc) r r';
  ar_links : links_rel (ma_links acc) r r';
  ar_sorted : lines_sorted (rp_scrollback r ++ delta_scrollback_appended (ma_out acc));
  ar_scroll : rp_scrollback r' = filter (above (delta_scrollback_evicted_before (ma_out acc)))
    (rp_scrollback r ++ delta_scrollback_appended (ma_out acc));
  ar_ids : ∀ p, p ∈ rp_scrollback r ++ delta_scrollback_appended (ma_out acc) → p.1 < c;
  ar_evicted : ∀ e, delta_scrollback_evicted_before (ma_out acc) = Some e → e <= c;
}.

Lemma filter_all {A} (P : A → Prop) `{!∀ x, Decision (P x)} (l : list A) : (∀ x, x ∈ l → P x) → filter P l = l.
Proof.
  induction l as [|x l IH]; intros Hx; [done|]. rewrite filter_cons, decide_True by set_solver.
  f_equal. set_solver.
Qed.

Lemma above_merge a b p : above (merge_evicted a b) p ↔ above a p ∧ above b p.
Proof. destruct a, b; cbn; lia || tauto. Qed.

Lemma filter_above_merge a b (l : list Line) :
  filter (above (merge_evicted a b)) l = filter (above b) (filter (above a) l).
Proof.
  induction l as [|p l IH]; [done|]. rewrite !filter_cons.
  destruct (decide (above a p)) as [Ha|Ha].
  - rewrite filter_cons. destruct (decide (above b p)) as [Hb|Hb];
      [rewrite decide_True by (by apply above_merge); by rewrite IH|].
    rewrite decide_False by (by rewrite above_merge; intros []). done.
  - rewrite decide_False by (by rewrite above_merge; intros []). done.
Qed.

Lemma fields_rel_step d out r r1 r2 :
  fields_rel (delta_size out) (delta_cursor out) (delta_modes out) (delta_palette out)
    (delta_title out) (delta_exit_info out) r r1 →
  fields_rel (delta_size d) (delta_cursor d) (delta_modes d) (delta_palette d)
    (delta_title d) (delta_exit_info d) r1 r2 →
  fields_rel (override (delta_size out) (delta_size d)) (override (delta_cursor out) (delta_cursor d))
    (override (delta_modes out) (delta_modes d)) (override (delta_palette out) (delta_palette d))
    (override (delta_title out) (delta_title d)) (override (delta_exit_info out) (delta_exit_info d)) r r2.
Proof.
  intros (S1 & C1 & M1 & P1 & T1 & E1) (S2 & C2 & M2 & P2 & T2 & E2).
  unfold fields_rel. split_and!.
  - destruct (delta_size d) as [[]|]; cbn; [done|]. destruct (delta_size out) as [[]|]; intuition congruence.
  - destruct (delta_cursor d); cbn in *; congruence.
  - destruct (delta_modes d); cbn in *; congruence.
  - destruct (delta_palette d); cbn in *; congruence.
  - destruct (delta_title d); cbn in *; congruence.
  - destruct (delta_exit_info d); cbn in *; congruence.
Qed.

Lemma rows_rel_step d out rows r r1 r2 :
  rows_rel (delta_size out) rows r r1 → delta_rel d r1 r2 →
  rows_rel (override (delta_size out) (delta_size d)) (build rows (delta_dirty_rows d)) r r2.
Proof.
  intros Hr Hd i Hi. rewrite build_union, lookup_union.
  pose proof (dr_rows _ _ _ Hd i Hi) as H2. destruct (build ∅ _ !! Z.of_nat i) as [row|].
  - by destruct (rows !! Z.of_nat i).
  - destruct H2 as [Hs Hsc]. pose proof (dr_fields _ _ _ Hd) as (Hsz & _). rewrite Hs in Hsz |- *.
    specialize (Hr i ltac:(lia)). rewrite (left_id_L None (∪)).
    destruct (rows !! Z.of_nat i); rewrite Hsc; done.
Qed.

Lemma links_rel_step d links r r1 r2 :
  links_rel links r r1 → delta_rel d r1 r2 →
  links_rel (collect_links links (delta_hyperlinks_added d)) r r2.
Proof.
  intros Hl Hd id Hid. pose proof (dr_links _ _ _ Hd id Hid) as H2.
  rewrite collect_links_union. rewrite !lookup_union in *.
  destruct (collect_links ∅ _ !! id) as [u|].
  - rewrite <- H2. by destruct (links !! id), (rp_hyperlinks r !! id), (rp_hyperlinks r1 !! id).
  - rewrite (left_id_L None (∪)) in H2 |- *. apply elem_of_dom in Hid as [u Hu].
    assert (id ∈ dom (rp_hyperlinks r1)) as Hid1 by (apply elem_of_dom; rewrite H2; eauto).
    specialize (Hl id Hid1). rewrite lookup_union in Hl. congruence.
Qed.

Lemma merge_step_rel acc c c' d r r1 r2 :
  acc_rel acc c r r1 → delta_rel d r1 r2 → lines_fresh c c' d → acc_rel (merge_step acc d) c' r r2.
Proof.
  intros Ha Hd (Hc & Hf & He).
  split; cbn [merge_step ma_out ma_rows ma_links delta_size delta_cursor delta_modes delta_palette
    delta_title delta_exit_info delta_scrollback_appended delta_scrollback_evicted_before].
  - eapply fields_rel_step; [apply Ha|apply Hd].
  - intros i. change (foldl _ _ _) with (build (ma_rows acc) (delta_dirty_rows d)).
    rewrite build_union, lookup_union. intros [row Hrow].
    destruct (build ∅ (delta_dirty_rows d) !! i) as [row'|] eqn:E.
    + clear Hrow. pose proof (dr_nonneg _ _ _ Hd) as Hnn. revert E.
      induction (delta_dirty_rows d) as [|[j x] l IH] using rev_ind; [done|].
      apply Forall_app in Hnn as [Hnn Hj]. apply Forall_cons in Hj as [Hj _].
      unfold build. rewrite foldl_app. cbn. intros E.
      destruct (decide (i = j)) as [->|Hne]; [done|]. rewrite lookup_insert_ne in E by done. by apply IH.
    + rewrite (left_id_L None (∪)) in Hrow. by apply (ar_keys _ _ _ _ Ha); eexists.
  - eapply rows_rel_step; [apply Ha|done].
  - eapply links_rel_step; [apply Ha|done].
  - rewrite app_assoc. apply sorted_app; [apply Ha| |].
    + by destruct (sorted_app_inv _ _ (dr_sorted _ _ _ Hd)) as (_ & ? & _).
    + intros p q Hp Hq. pose proof (ar_ids _ _ _ _ Ha p Hp). destruct (Hf q Hq). lia.
  - rewrite (dr_scroll _ _ _ Hd), (ar_scroll _ _ _ _ Ha), app_assoc.
    generalize (rp_scrollback r ++ delta_scrollback_appended (ma_out acc)). intros h.
    rewrite filter_app, filter_above_merge.
    f_equal. symmetry. apply filter_all. intros p Hp. destruct (Hf p Hp) as [Hpc Hpe].
    apply above_merge. split; [|done].
    destruct (delta_scrollback_evicted_before (ma_out acc)) eqn:E; cbn; [|done].
    apply (ar_evicted _ _ _ _ Ha) in E. lia.
  - intros p. rewrite app_assoc, elem_of_app. intros [Hp|Hp].
    + pose proof (ar_ids _ _ _ _ Ha p Hp). lia.
    + destruct (Hf p Hp). lia.
  - intros e. pose proof (ar_evicted _ _ _ _ Ha) as He0.
    destruct (delta_scrollback_evicted_before (ma_out acc)) as [a|], (delta_scrollback_evicted_before d) as [b|];
      cbn; intros [= <-]; try specialize (He0 _ eq_refl); try specialize (He _ eq_refl); lia.
Qed.

Lemma filter_true_eq (b : Z) (l : list Line) :
  filter (λ p, (b <=? p.1) = true) l = filter (above (Some b)) l.
Proof.
  induction l as [|p l IH]; [done|]. rewrite !filter_cons. cbn [above].
  destruct (decide (b <= p.1)); [rewrite decide_True by lia|rewrite decide_False by lia]; by rewrite IH.
Qed.

Lemma merge_finish_rel acc c r r' : acc_rel acc c r r' → delta_rel (merge_finish acc) r r'.
Proof.
  intros Ha. pose proof (ar_fields _ _ _ _ Ha) as (Hsz & _).
  set (rows := match delta_size (ma_out acc) with
    | Some (_, f) => bt_retain (λ r _, r <? f) (ma_rows acc) | None => ma_rows acc end).
  assert (∀ i, Z.of_nat i < rp_rows r' → rows !! Z.of_nat i = ma_rows acc !! Z.of_nat i) as Hrows.
  { intros i Hi. subst rows. destruct (delta_size (ma_out acc)) as [[c0 f]|]; [|done].
    destruct Hsz as [_ ->]. rewrite lookup_bt_retain. rewrite (proj2 (Z.ltb_lt _ _) Hi).
    by destruct (ma_rows acc !! Z.of_nat i). }
  assert (match delta_scrollback_evicted_before (ma_out acc) with
    | Some before => filter (λ p, (before <=? p.1) = true) (delta_scrollback_appended (ma_out acc))
    | None => delta_scrollback_appended (ma_out acc) end
    = filter (above (delta_scrollback_evicted_before (ma_out acc))) (delta_scrollback_appended (ma_out acc)))
    as Happ.
  { destruct (delta_scrollback_evicted_before (ma_out acc)); [apply filter_true_eq|].
    symmetry. by apply filter_all. }
  split; cbn [merge_finish delta_size delta_cursor delta_modes delta_palette delta_title delta_exit_info
    delta_dirty_rows delta_hyperlinks_added delta_scrollback_appended delta_scrollback_evicted_before];
    fold rows; rewrite ?Happ.
  - apply Ha.
  - apply Forall_forall. intros [i row] Hin. apply elem_of_bt_iter in Hin. cbn.
    apply (ar_keys _ _ _ _ Ha). subst rows. destruct (delta_size (ma_out acc)) as [[]|]; [|by eexists].
    apply bt_retain_Some in Hin as [Hin _]. by eexists.
  - intros i Hi. rewrite build_bt_iter, (Hrows i Hi). by apply (ar_rows _ _ _ _ Ha).
  - rewrite collect_links_entries, build_bt_iter. apply Ha.
  - destruct (sorted_app_inv _ _ (ar_sorted _ _ _ _ Ha)) as (H1 & H2 & H3).
    apply sorted_app; [done|by apply sorted_filter|]. intros p q Hp Hq.
    apply list_elem_of_filter in Hq as [_ Hq]. by apply H3.
  - rewrite (ar_scroll _ _ _ _ Ha). apply filter_app.
Qed.

Lemma merge_init_rel first last_d c r :
  wf_replica r → (∀ p, p ∈ rp_scrollback r → p.1 < c) →
  acc_rel (mk_MergeAcc (mk_Delta (delta_subscription_id first) (delta_base_revision first)
    (delta_new_revision last_d) None None None None None [] [] [] None None []) ∅ ∅) c r r.
Proof.
  intros Hw Hc. split; cbn; try done.
  - intros i [? Hi]. by rewrite lookup_empty in Hi.
  - intros id Hid. by rewrite (left_id_L ∅ (∪)).
  - rewrite app_nil_r. apply contiguous_sorted, Hw.
  - rewrite app_nil_r. symmetry. by apply filter_all.
  - by rewrite app_nil_r.
Qed.

(** ** A run of states *)

Definition with_events (ev : list UiEvent) (d : Delta) : Delta :=
  mk_Delta (delta_subscription_id d) (delta_base_revision d) (delta_new_revision d) (delta_size d)
    (delta_cursor d) (delta_modes d) (delta_palette d) (delta_title d) (delta_dirty_rows d)
    (delta_hyperlinks_added d) (delta_scrollback_appended d) (delta_scrollback_evicted_before d)
    (delta_exit_info d) ev.

(** [delta_step r c d r' c']: a published delta takes [r] to [r']; line ids are
    handed out from a counter, [c] before the step and [c'] after it. *)
Definition delta_step (r : Replica) (c : Z) (d : Delta) (r' : Replica) (c' : Z) : Prop :=
  delta_rel d r r' ∧ wf_replica r' ∧ lines_fresh c c' d.

Inductive delta_run : Replica → Z → list Delta → Replica → Z → Prop :=
| run_nil r c : delta_run r c [] r c
| run_cons r c d r1 c1 ds r2 c2 :
    delta_step r c d r1 c1 → delta_run r1 c1 ds r2 c2 → delta_run r c (d :: ds) r2 c2.

Lemma diff_fresh r r1 c c1 s b n d ev :
  wf_replica r → wf_replica r1 → diff r r1 s b n = Ok d → c <= c1 →
  (∀ p, p ∈ rp_scrollback r → p.1 < c) →
  (∀ p, p ∈ rp_scrollback r1 → (p ∈ rp_scrollback r ∨ c <= p.1) ∧ p.1 < c1) →
  lines_fresh c c1 (with_events ev d).
Proof.
  intros Hw Hw1 Hd Hc Hids Hnew. destruct (diff_Ok_checks _ _ _ _ _ _ Hd) as [_ Hc2].
  assert (delta_scrollback_appended d = appended_lines (rp_scrollback r) (rp_scrollback r1) ∧
    delta_scrollback_evicted_before d = evicted_bound (rp_scrollback r) (rp_scrollback r1)) as [Ha He]
    by (unfold diff in Hd; do 2 (case_match; [done|]); by simplify_eq).
  unfold lines_fresh; cbn [with_events delta_scrollback_appended delta_scrollback_evicted_before].
  rewrite Ha, He. split; [done|].
  assert (∀ p, p ∈ rp_scrollback r1 → ∀ nf, first_line_id (rp_scrollback r1) = Some nf → nf <= p.1) as Hfirst.
  { intros p Hp nf Hnf. by eapply first_line_le; [apply contiguous_sorted, Hw1|..]. }
  split.
  - intros p Hp. pose proof Hp as Hp'. apply list_elem_of_filter in Hp' as [_ Hin].
    destruct (Hnew p Hin) as [[Hold|Hge] Hlt].
    { pose proof (appended_above _ _ (wr_lines _ Hw) Hc2 p p Hold Hp). lia. }
    split; [lia|]. unfold evicted_bound. destruct (first_line_id (rp_scrollback r)); [|done].
    destruct (first_line_id (rp_scrollback r1)) as [nf|] eqn:Enf.
    + case_match; cbn; [|done]. by apply Hfirst.
    + apply line_ids_empty in Enf. rewrite Enf in Hin. by apply not_elem_of_nil in Hin.
  - intros e. unfold evicted_bound. destruct (first_line_id (rp_scrollback r)) as [pf|] eqn:Epf; [|done].
    destruct (first_line_id (rp_scrollback r1)) as [nf|] eqn:Enf.
    + case_match; [|done]. intros [= <-]. destruct (first_line_in _ _ Enf) as [row Hrow].
      destruct (Hnew _ Hrow) as [_ Hlt]. cbn in Hlt. lia.
    + apply line_ids_empty in Enf. rewrite Enf. cbn. intros [= <-].
      destruct (last_line_id (rp_scrollback r)) as [pl|] eqn:Epl.
      * apply last_line_in, list_elem_of_fmap in Epl as (q & -> & Hq).
        pose proof (wr_ids _ Hw q Hq). specialize (Hids q Hq). rewrite add64_id by lia. lia.
      * apply last_line_None in Epl. rewrite Epl in Epf. done.
Qed.

Lemma delta_rel_events ev d r r' : delta_rel d r r' → delta_rel (with_events ev d) r r'.
Proof. by intros []. Qed.

Lemma merge_events_foldl ds acc :
  delta_ui_events (ma_out (foldl merge_step acc ds)) = delta_ui_events (ma_out acc) ++ (ds ≫= delta_ui_events).
Proof.
  revert acc. induction ds as [|d ds IH]; intros acc; cbn [foldl]; [by rewrite app_nil_r|].
  rewrite IH. cbn. by rewrite <- app_assoc.
Qed.

(** The deltas [diff] computes, with the events of the step, are such steps. *)
Lemma diff_step r r1 c c1 s b n d ev :
  wf_replica r → wf_replica r1 → (is_Some (rp_exit_info r) → is_Some (rp_exit_info r1)) →
  diff r r1 s b n = Ok d → c <= c1 → (∀ p, p ∈ rp_scrollback r → p.1 < c) →
  (∀ p, p ∈ rp_scrollback r1 → (p ∈ rp_scrollback r ∨ c <= p.1) ∧ p.1 < c1) →
  delta_step r c (with_events ev d) r1 c1.
Proof.
  intros Hw Hw1 Hex Hd Hc Hids Hnew. destruct (diff_rel _ _ _ _ _ _ Hw Hw1 Hex Hd) as [Hrel _].
  split; [by apply delta_rel_events|]. split; [done|]. by apply (diff_fresh r r1 c c1 s b n).
Qed.

Lemma run_acc_rel r c ds r' c' :
  delta_run r c ds r' c' → ∀ acc r0, acc_rel acc c r0 r → wf_replica r →
  acc_rel (foldl merge_step acc ds) c' r0 r' ∧ wf_replica r'.
Proof.
  induction 1 as [r c|r c d r1 c1 ds r2 c2 (Hd & Hw1 & Hf) Hrun IH]; intros acc r0 Ha Hw; [done|].
  cbn [foldl]. apply IH; [|done]. by eapply merge_step_rel.
Qed.

Lemma run_snoc r c ds r1 c1 d r2 c2 :
  delta_run r c ds r1 c1 → delta_step r1 c1 d r2 c2 → delta_run r c (ds ++ [d]) r2 c2.
Proof.
  induction 1 as [|r c d' r' c' ds r1 c1 Hs Hr IH]; intros Hstep; cbn.
  - econstructor; [done|constructor].
  - econstructor; [done|auto].
Qed.

Lemma run_ids r c ds r' c' :
  delta_run r c ds r' c' → (∀ p, p ∈ rp_scrollback r → p.1 < c) → ∀ p, p ∈ rp_scrollback r' → p.1 < c'.
Proof.
  induction 1 as [|r c d r1 c1 ds r2 c2 (Hd & _ & Hc & Hf & _) Hrun IH]; intros Hids; [done|].
  apply IH. intros p. rewrite (dr_scroll _ _ _ Hd), elem_of_app, list_elem_of_filter.
  intros [[_ Hp]|Hp]; [specialize (Hids p Hp); lia|]. destruct (Hf p Hp). lia.
Qed.

Lemma merge_cons d ds : Replica.merge (d :: ds) =
  Some (merge_finish (foldl merge_step
    (mk_MergeAcc (mk_Delta (delta_subscription_id d) (delta_base_revision d)
       (delta_new_revision (default d (last (d :: ds)))) None None None None None [] [] [] None None []) ∅ ∅)
    (d :: ds))).
Proof.
  unfold Replica.merge. destruct (last (d :: ds)) as [l|] eqn:E; [done|]. by apply last_None in E.
Qed.

(** ** Snapshots *)

Lemma from_to_body r : from_body (to_body r) = r.
Proof. unfold from_body, to_body. cbn. rewrite collect_links_entries, build_bt_iter. by destruct r. Qed.

(** ** Eviction *)

Lemma zlen_put_u32 z : zlen (put_u32 z) = 4.
Proof. done. Qed.

Definition enc_sum {A} (c : Codec A) (l : list A) : Z := zlen (concat (enc c <$> l)).

Lemma enc_sum_nil {A} (c : Codec A) : enc_sum c [] = 0.
Proof. done. Qed.

Lemma enc_sum_cons {A} (c : Codec A) x l : enc_sum c (x :: l) = zlen (enc c x) + enc_sum c l.
Proof. unfold enc_sum. cbn. apply zlen_app. Qed.

Lemma enc_sum_filter {A} (c : Codec A) (P : A → Prop) `{!∀ x, Decision (P x)} (l : list A) :
  enc_sum c (filter P l) <= enc_sum c l.
Proof.
  induction l as [|x l IH]; [done|]. rewrite filter_cons, (enc_sum_cons c x l).
  pose proof (zlen_nonneg (enc c x)). case_decide; rewrite ?enc_sum_cons; lia.
Qed.

Abbreviation c_Line := (c_pair c_u64 c_RowData) (only parsing).

(** The encoded size of everything but the scrollback and the links. *)
Definition base_len (r : Replica) : Z :=
  zlen (enc c_u16 (rp_cols r)) + zlen (enc c_u16 (rp_rows r)) + zlen (enc (c_vec c_RowData) (rp_screen r))
  + zlen (enc c_Cursor (rp_cursor r)) + zlen (enc c_Modes (rp_modes r))
  + zlen (enc c_Palette (rp_palette r)) + zlen (enc c_string (rp_title r))
  + zlen (enc (c_option c_ExitInfo) (rp_exit_info r)) + 8.

Lemma encoded_len_split r :
  encoded_len r = base_len r
    + enc_sum c_Hyperlink ((λ p, mk_Hyperlink p.1 p.2) <$> bt_iter (rp_hyperlinks r))
    + enc_sum c_Line (rp_scrollback r).
Proof.
  unfold encoded_len, base_len, to_body, enc_sum. cbn [c_SBody enc sbody_cols sbody_rows sbody_screen
    sbody_cursor sbody_modes sbody_palette sbody_title sbody_hyperlinks sbody_scrollback sbody_exit_info].
  rewrite !zlen_app. cbn [c_vec enc]. rewrite !zlen_app, !zlen_put_u32. lia.
Qed.

Lemma bt_iter_retain (m : gmap Z String) (f : Z → String → bool) :
  bt_iter (bt_retain f m) = filter (λ p, f p.1 p.2 = true) (bt_iter m).
Proof.
  assert (∀ l : list (Z * String), StronglySorted Z.le l.*1 →
    StronglySorted Z.le (filter (λ p, f p.1 p.2 = true) l).*1) as Hs.
  { intros l Hl. induction l as [|p l IH]; [done|]. rewrite fmap_cons in Hl. rewrite filter_cons.
    apply StronglySorted_inv in Hl as [Hl Hp]. case_decide; [|auto]. cbn. constructor; [auto|].
    apply Forall_forall. intros k Hk. apply list_elem_of_fmap in Hk as (q & -> & Hq).
    apply list_elem_of_filter in Hq as [_ Hq]. apply (list_elem_of_fmap_2 fst) in Hq.
    by eapply Forall_forall in Hp. }
  apply bt_iter_unique.
  - apply Hs. rewrite bt_iter_keys. exact (bs_iter_sorted (dom m)).
  - apply NoDup_keys_filter. rewrite bt_iter_keys. apply NoDup_bs_iter.
  - intros k v. rewrite list_elem_of_filter, elem_of_bt_iter, bt_retain_Some. tauto.
Qed.

Lemma fmap_filter_enc_le (l : list (Z * String)) (P : Z * String → Prop) `{!∀ x, Decision (P x)} :
  enc_sum c_Hyperlink ((λ p, mk_Hyperlink p.1 p.2) <$> filter P l)
  <= enc_sum c_Hyperlink ((λ p, mk_Hyperlink p.1 p.2) <$> l).
Proof.
  induction l as [|x l IH]; [done|]. rewrite filter_cons, fmap_cons, (enc_sum_cons _ (mk_Hyperlink _ _)).
  pose proof (zlen_nonneg (enc c_Hyperlink (mk_Hyperlink x.1 x.2))).
  case_decide; rewrite ?fmap_cons, ?enc_sum_cons; lia.
Qed.

(** Pruning links never grows a state. *)
Lemma prune_encoded_len r : encoded_len (prune_hyperlinks r) <= encoded_len r.
Proof.
  rewrite !encoded_len_split.
  change (base_len (prune_hyperlinks r)) with (base_len r).
  change (rp_scrollback (prune_hyperlinks r)) with (rp_scrollback r).
  cbn [prune_hyperlinks rp_hyperlinks]. rewrite bt_iter_retain.
  pose proof (fmap_filter_enc_le (bt_iter (rp_hyperlinks r))
    (λ p, bool_decide (p.1 ∈ referenced_links r) = true)). lia.
Qed.

(** The loop drops a shortest prefix of the scrollback that brings the total
    under the limit, if one does. *)
Lemma evict_loop_spec limit total sb ev :
  enc_sum c_Line sb <= total <= u64_max →
  let '(sb', ev') := evict_loop limit total sb ev in
  ∃ gone, sb = gone ++ sb' ∧
    (total - enc_sum c_Line gone <= limit ∨ sb' = []) ∧
    (gone = [] → ev' = ev) ∧
    (∀ p, last gone = Some p → ev' = Some (add64 p.1 1)).
Proof.
  revert total ev. induction sb as [|[id row] sb IH]; intros total ev Ht; cbn [evict_loop].
  { destruct (limit <? total); exists []; (split; [done|]); (split; [by right|]); split; done. }
  rewrite enc_sum_cons in Ht. pose proof (zlen_nonneg (enc c_Line (id, row))).
  assert (0 <= enc_sum c_Line sb) by apply zlen_nonneg.
  destruct (limit <? total) eqn:E.
  - rewrite sub64_id by lia.
    specialize (IH (total - zlen (enc c_Line (id, row))) (Some (add64 id 1)) ltac:(lia)).
    destruct (evict_loop _ _ sb _) as [sb' ev']. destruct IH as (gone & -> & Hlim & Hev & Hlast).
    exists ((id, row) :: gone). split; [done|]. rewrite enc_sum_cons.
    split; [destruct Hlim; [left; lia|by right]|]. split; [done|].
    intros p Hp. destruct gone as [|q gone]; [|by apply Hlast]. injection Hp as <-. by apply Hev.
  - exists []. split; [done|]. split; [left; rewrite enc_sum_nil; lia|]. done.
Qed.

Lemma enc_sum_app {A} (c : Codec A) l k : enc_sum c (l ++ k) = enc_sum c l + enc_sum c k.
Proof. unfold enc_sum. by rewrite fmap_app, concat_app, zlen_app. Qed.

Lemma evict_to_limit_spec limit r :
  encoded_len r <= u64_max →
  let '(r', ev) := evict_to_limit limit r in
  ∃ gone, rp_scrollback r = gone ++ rp_scrollback r' ∧
    (encoded_len r' <= limit ∨ rp_scrollback r' = []) ∧
    (gone = [] → r' = r ∧ ev = None) ∧ (∀ p, last gone = Some p → ev = Some (add64 p.1 1)).
Proof.
  intros Hu. unfold evict_to_limit.
  pose proof (evict_loop_spec limit (encoded_len r) (rp_scrollback r) None) as H.
  rewrite encoded_len_split in Hu, H at 1.
  assert (0 <= base_len r) by (unfold base_len; repeat apply Z.add_nonneg_nonneg; lia || apply zlen_nonneg).
  assert (0 <= enc_sum c_Hyperlink ((λ p, mk_Hyperlink p.1 p.2) <$> bt_iter (rp_hyperlinks r)))
    by apply zlen_nonneg.
  specialize (H ltac:(rewrite encoded_len_split; lia)).
  destruct (evict_loop _ _ _ _) as [sb ev]. destruct H as (gone & Hsb & Hlim & Hnil & Hlast).
  set (r' := mk_Replica _ _ _ _ _ _ _ _ sb _).
  assert (encoded_len r' = encoded_len r - enc_sum c_Line gone) as Hlen.
  { rewrite !encoded_len_split. change (base_len r') with (base_len r).
    change (rp_hyperlinks r') with (rp_hyperlinks r). cbn [rp_scrollback r'].
    rewrite Hsb, enc_sum_app. lia. }
  exists gone. destruct ev as [e|].
  - change (rp_scrollback (prune_hyperlinks r')) with sb. split; [done|].
    pose proof (prune_encoded_len r'). split; [destruct Hlim; [left; lia|by right]|].
    split; [intros Hg; by specialize (Hnil Hg)|done].
  - split; [done|]. split; [destruct Hlim; [left; lia|by right]|]. split; [|done].
    intros ->. split; [|done]. unfold r'. cbn in Hsb. rewrite <- Hsb. by destruct r.
Qed.

Lemma merge_run r c ds r' c' :
  wf_replica r → (∀ p, p ∈ rp_scrollback r → p.1 < c) → delta_run r c ds r' c' → ds ≠ [] →
  ∃ d, Replica.merge ds = Some d ∧ apply_delta d r = (r', ds ≫= delta_ui_events).
Proof.
  intros Hw Hids Hrun Hne. destruct ds as [|d0 ds]; [done|]. rewrite merge_cons. eexists. split; [done|].
  set (init := mk_MergeAcc _ _ _).
  destruct (run_acc_rel _ _ _ _ _ Hrun init r (merge_init_rel _ _ _ _ Hw Hids) Hw) as [Ha Hw'].
  rewrite (apply_delta_rel _ _ _ Hw Hw' (merge_finish_rel _ _ _ _ Ha)). f_equal.
  apply (merge_events_foldl (d0 :: ds) init).
Qed.

(** ** Theorems *)

(** A snapshot body restores the state it was made from. *)
Theorem body_roundtrip r : from_body (to_body r) = r.
Proof. apply from_to_body. Qed.

(** C9: Applying the delta between two states to the first one yields the
    second: a client at revision [base] that applies a [diff] is at the host's
    next state. *)
Theorem diff_apply prev next s b n d :
  wf_replica prev → wf_replica next → (is_Some (rp_exit_info prev) → is_Some (rp_exit_info next)) →
  diff prev next s b n = Ok d → apply_delta d prev = (next, []).
Proof.
  intros Hp Hn Hex Hd. destruct (diff_rel _ _ _ _ _ _ Hp Hn Hex Hd) as [Hrel Hev].
  rewrite <- Hev. by apply apply_delta_rel.
Qed.

(** C8: Merging is sound: applying the merge of the deltas of a run to its
    first state yields its last state, with all events in order. *)
Theorem merge_apply r c ds r' c' :
  wf_replica r → (∀ p, p ∈ rp_scrollback r → p.1 < c) → delta_run r c ds r' c' → ds ≠ [] →
  ∃ d, Replica.merge ds = Some d ∧ apply_delta d r = (r', ds ≫= delta_ui_events).
Proof. apply merge_run. Qed.

(** Eviction to a limit drops oldest lines only, as reported, until the
    encoded state fits or no line is left. *)
Theorem evict_to_limit_fits limit r r' ev :
  encoded_len r <= u64_max → evict_to_limit limit r = (r', ev) →
  ∃ gone, rp_scrollback r = gone ++ rp_scrollback r' ∧
    (encoded_len r' <= limit ∨ rp_scrollback r' = []) ∧
    (gone = [] → r' = r ∧ ev = None) ∧ (∀ p, last gone = Some p → ev = Some (add64 p.1 1)).
Proof.
  intros Hu He. pose proof (evict_to_limit_spec limit r Hu) as H. by rewrite He in H.
Qed.

(** ** Witnesses *)

Definition demo_row (link : Z) : RowData :=
  mk_RowData false [mk_Cell 97 None 1 Color_Default Color_Default Color_Default 0 link; Cell_BLANK].
Definition demo0 : Replica := replica_new 2 2.
(** A linked row appears on the screen. *)
Definition demo1 : Replica :=
  mk_Replica 2 2 [demo_row 1; blank_row 2] default_cursor default_modes default_palette [] {[1 := [x75]]} [] None.
(** It scrolls off and the title changes. *)
Definition demo2 : Replica :=
  mk_Replica 2 2 [blank_row 2; blank_row 2] default_cursor default_modes default_palette [x74]
    {[1 := [x75]]} [(0, demo_row 1)] None.

Definition diff_of (a b : Replica) : Delta :=
  match diff a b 1 0 1 with Ok d => d
  | Err _ => mk_Delta 0 0 0 None None None None None [] [] [] None None [] end.

Lemma demo_wf0 : wf_replica demo0.
Proof.
  split; [by vm_compute|done|by vm_compute|by exists 0|]. by intros p Hp%not_elem_of_nil.
Qed.

Lemma demo_wf1 : wf_replica demo1.
Proof.
  split; [by vm_compute|done|by vm_compute|by exists 0|]. by intros p Hp%not_elem_of_nil.
Qed.

Lemma demo_wf2 : wf_replica demo2.
Proof.
  split; [by vm_compute|done|by vm_compute|by exists 0|]. intros p ->%list_elem_of_singleton. by vm_compute.
Qed.

Lemma diff_apply_witness : apply_delta (diff_of demo1 demo2) demo1 = (demo2, []).
Proof.
  apply (diff_apply demo1 demo2 1 0 1 (diff_of demo1 demo2) demo_wf1 demo_wf2); [by intros [? [=]]|done].
Defined.

Lemma demo_delta_run :
  delta_run demo0 0 [with_events [] (diff_of demo0 demo1); with_events [] (diff_of demo1 demo2)] demo2 1.
Proof.
  apply (run_cons demo0 0 _ demo1 0).
  { apply (diff_step demo0 demo1 0 0 1 0 1); [exact demo_wf0|exact demo_wf1|by intros [? [=]]|by vm_compute|
      lia|by intros p Hp%not_elem_of_nil|by intros p Hp%not_elem_of_nil]. }
  apply (run_cons demo1 0 _ demo2 1); [|constructor].
  apply (diff_step demo1 demo2 0 1 1 0 1); [exact demo_wf1|exact demo_wf2|by intros [? [=]]|by vm_compute|
    lia|by intros p Hp%not_elem_of_nil|].
  intros p ->%list_elem_of_singleton. cbn. split; [right|]; lia.
Qed.

Lemma merge_apply_witness :
  ∃ d, Replica.merge [with_events [] (diff_of demo0 demo1); with_events [] (diff_of demo1 demo2)] = Some d ∧
    apply_delta d demo0 = (demo2, []).
Proof.
  apply (merge_apply demo0 0 [with_events [] (diff_of demo0 demo1); with_events [] (diff_of demo1 demo2)]
    demo2 1 demo_wf0); [by intros p Hp%not_elem_of_nil|exact demo_delta_run|done].
Defined.

Lemma evict_to_limit_fits_witness :
  ∃ gone, rp_scrollback demo2 = gone ++ rp_scrollback (evict_to_limit 100 demo2).1 ∧
    (encoded_len (evict_to_limit 100 demo2).1 <= 100 ∨ rp_scrollback (evict_to_limit 100 demo2).1 = []).
Proof.
  destruct (evict_to_limit_fits 100 demo2 (evict_to_limit 100 demo2).1 (evict_to_limit 100 demo2).2)
    as (gone & H1 & H2 & _); [by vm_compute|by vm_compute|exists gone; split; [exact H1|exact H2]].
Defined.
