(* ===== verification/Utf8.v ===== *)
(** * Utf8: strings of the standard library

    What the engine uses of Rust's [char] and [String]: the encoding of a
    character, [from_utf8_lossy] and [pop], with the fact that the results are valid
    UTF-8 of bounded length. *)

From S2P Require Import Prelude Wire.
From Stdlib Require Import ZArith Lia Strings.Byte.
From stdpp Require Import base list.

#[local] Open Scope Z_scope.

(** ** Strings of the standard library *)

(** [char::from_u32], [char::len_utf8] and [String::push]. *)
Definition char_from_u32 (cp : Z) : option Z :=
  if (in_range 0 0xD7FF cp) || (in_range 0xE000 0x10FFFF cp) then Some cp else None.
Definition len_utf8 (ch : Z) : Z :=
  if ch <? 0x80 then 1 else if ch <? 0x800 then 2 else if ch <? 0x10000 then 3 else 4.
Definition utf8_char (ch : Z) : list byte :=
  if ch <? 0x80 then [zb ch]
  else if ch <? 0x800 then [zb (0xC0 + ch / 64); zb (0x80 + ch mod 64)]
  else if ch <? 0x10000 then
    [zb (0xE0 + ch / 4096); zb (0x80 + ch / 64 mod 64); zb (0x80 + ch mod 64)]
  else
    [zb (0xF0 + ch / 262144); zb (0x80 + ch / 4096 mod 64); zb (0x80 + ch / 64 mod 64); zb (0x80 + ch mod 64)].

(** The bytes that may follow a lead byte of a three or four byte sequence. *)
Definition second_ok (a b : byte) : bool :=
  let x := bz a in
  if x =? 224 then in_range 160 191 (bz b)
  else if x =? 237 then in_range 128 159 (bz b)
  else if x =? 240 then in_range 144 191 (bz b)
  else if x =? 244 then in_range 128 143 (bz b)
  else cont b.

(** The replacement character U+FFFD. *)
Definition replacement : list byte := [xef; xbf; xbd].

(** [n]: how many leading bytes of [l] form one character ([true]) or one
    maximal invalid sequence ([false]). *)
Definition utf8_step (l : list byte) : bool * nat :=
  match l with
  | [] => (false, 1%nat)
  | a :: l1 =>
      let x := bz a in
      if x <? 128 then (true, 1%nat)
      else if in_range 194 223 x then
        match l1 with b :: _ => if cont b then (true, 2%nat) else (false, 1%nat) | [] => (false, 1%nat) end
      else if in_range 224 239 x then
        match l1 with
        | b :: l2 =>
            if second_ok a b then
              match l2 with c :: _ => if cont c then (true, 3%nat) else (false, 2%nat) | [] => (false, 2%nat) end
            else (false, 1%nat)
        | [] => (false, 1%nat)
        end
      else if in_range 240 244 x then
        match l1 with
        | b :: l2 =>
            if second_ok a b then
              match l2 with
              | c :: l3 =>
                  if cont c then
                    match l3 with d :: _ => if cont d then (true, 4%nat) else (false, 3%nat) | [] => (false, 3%nat) end
                  else (false, 2%nat)
              | [] => (false, 2%nat)
              end
            else (false, 1%nat)
        | [] => (false, 1%nat)
        end
      else (false, 1%nat)
  end.

(** [String::from_utf8_lossy]: the characters of the result; one step per byte is
    enough. *)
Fixpoint lossy_chars (fuel : nat) (l : list byte) : list (list byte) :=
  match fuel, l with
  | S fuel', _ :: _ =>
      let '(valid, n) := utf8_step l in
      (if valid then take n l else replacement) :: lossy_chars fuel' (drop n l)
  | _, _ => []
  end.
Definition from_utf8_lossy (l : list byte) : String := concat (lossy_chars (length l) l).

(** [String::pop]: the last character starts at the last byte that is no
    continuation byte. *)
Fixpoint drop_conts (rev_s : list byte) : list byte :=
  match rev_s with
  | b :: s' => if cont b then drop_conts s' else s'
  | [] => []
  end.
Definition pop_char (s : String) : String := reverse (drop_conts (reverse s)).
(** [while s.len() > max { s.pop(); }] *)
Fixpoint pop_while (fuel : nat) (max : Z) (s : String) : String :=
  match fuel with
  | O => s
  | S fuel' => if max <? zlen s then pop_while fuel' max (pop_char s) else s
  end.
(** [String::from_utf8_lossy(&b[..b.len().min(max)])], popped down to [max] bytes. *)
Definition cut_lossy (max : Z) (b : list byte) : String :=
  let t := from_utf8_lossy (take (Z.to_nat (Z.min (zlen b) max)) b) in
  pop_while (length t) max t.

(** ** Lemmas *)

(** One character. *)
Definition is_char (c : list byte) : bool :=
  match utf8_step c with (valid, n) => valid && (n =? length c)%nat end.

Ltac step_cases :=
  repeat match goal with
  | |- context [match ?l with [] => _ | _ :: _ => _ end] => is_var l; destruct l; cbn in *
  | |- context [if ?b then _ else _] => destruct b eqn:?; cbn in *
  end.

Lemma utf8_step_length l n : utf8_step l = (true, n) → (1 <= n <= length l)%nat.
Proof. unfold utf8_step. step_cases; intros; simplify_eq/=; lia. Qed.

Lemma utf8_step_pos l : (1 <= (utf8_step l).2)%nat.
Proof. unfold utf8_step. step_cases; cbn; lia. Qed.

(** A character is decided by its own bytes. *)
Lemma utf8_step_app l n k : utf8_step l = (true, n) → utf8_step (l ++ k) = (true, n).
Proof.
  unfold utf8_step. destruct l as [|a l]; [done|]. cbn [app].
  repeat match goal with
  | |- context [match ?l with [] => _ | _ :: _ => _ end] => is_var l; destruct l; cbn [app]
  | |- context [if ?b then _ else _] => destruct b eqn:?
  end; done.
Qed.

Lemma utf8_step_take l n : utf8_step l = (true, n) → is_char (take n l) = true.
Proof.
  intros H. pose proof (utf8_step_length l n H) as Hl. unfold is_char.
  assert (utf8_step (take n l) = (true, n)) as ->.
  { revert H. clear Hl. unfold utf8_step. destruct l as [|a l]; [done|].
    repeat match goal with
    | |- context [match ?l with [] => _ | _ :: _ => _ end] => is_var l; destruct l
    | |- context [if ?b then _ else _] => destruct b eqn:?
    end; intros; simplify_eq; cbn; repeat (case_match; try done); simplify_eq/=; congruence. }
  rewrite length_take. cbn. apply Nat.eqb_eq. lia.
Qed.

Lemma utf8_valid_step l n : utf8_step l = (true, n) → utf8_valid l = utf8_valid (drop n l).
Proof.
  unfold utf8_step. destruct l as [|a l]; [done|]. cbn [utf8_valid]. cbv zeta.
  destruct (bz a <? 128) eqn:E1; [by intros [= <-]|].
  destruct (in_range 194 223 (bz a)) eqn:E2.
  { destruct l as [|b l]; [done|]. destruct (cont b); [|done]. by intros [= <-]. }
  destruct (in_range 224 239 (bz a)) eqn:E3.
  { destruct l as [|b l]; [done|]. destruct (second_ok a b) eqn:Es; [|done].
    destruct l as [|c l]; [done|]. destruct (cont c); [|done]. intros [= <-].
    unfold second_ok in Es. bool_hyps. destruct (bz a =? 224); [by rewrite Es|].
    destruct (bz a =? 237); [by rewrite Es|].
    replace (bz a =? 240) with false in Es by lia. replace (bz a =? 244) with false in Es by lia. by rewrite Es. }
  destruct (in_range 240 244 (bz a)) eqn:E4; [|done].
  destruct l as [|b l]; [done|]. destruct (second_ok a b) eqn:Es; [|done].
  destruct l as [|c l]; [done|]. destruct (cont c); [|done].
  destruct l as [|d l]; [done|]. destruct (cont d); [|done]. intros [= <-].
  unfold second_ok in Es. bool_hyps.
  replace (bz a =? 224) with false in Es by lia. replace (bz a =? 237) with false in Es by lia.
  destruct (bz a =? 240); [by rewrite Es|]. destruct (bz a =? 244); by rewrite Es.
Qed.

Lemma is_char_step c k : is_char c = true → utf8_step (c ++ k) = (true, length c).
Proof.
  unfold is_char. destruct (utf8_step c) as [v n] eqn:E. intros H. bool_hyps.
  apply Nat.eqb_eq in H0 as <-. destruct v; [|done]. by apply utf8_step_app.
Qed.

Lemma valid_chars cs : Forall (λ c, is_char c = true) cs → utf8_valid (concat cs) = true.
Proof.
  induction 1 as [|c cs Hc _ IH]; [done|]. cbn.
  rewrite (utf8_valid_step _ _ (is_char_step c _ Hc)). by rewrite drop_app_length.
Qed.

Lemma lossy_chars_ok fuel l : Forall (λ c, is_char c = true) (lossy_chars fuel l).
Proof.
  revert l. induction fuel as [|fuel IH]; intros [|b l]; try constructor.
  cbn [lossy_chars]. destruct (utf8_step (b :: l)) as [v n] eqn:E. constructor; [|apply IH].
  destruct v; [by apply utf8_step_take|by vm_compute].
Qed.

Lemma char_lead c : is_char c = true → ∃ b conts, c = b :: conts ∧ cont b = false ∧ Forall (λ x, cont x = true) conts.
Proof.
  unfold is_char, utf8_step. destruct c as [|a c]; [done|]. intros H.
  exists a, c. split; [done|].
  assert (∀ a b, second_ok a b = true → cont b = true) as Hs.
  { intros x y. unfold second_ok, cont. rewrite in_range_iff.
    repeat case_match; rewrite ?in_range_iff; lia. }
  unfold cont at 1. assert (bz a < 128 ∨ 194 <= bz a → in_range 128 191 (bz a) = false) as Hr
    by (intros; apply not_true_iff_false; rewrite in_range_iff; lia).
  revert H. destruct (bz a <? 128) eqn:E1; [intros H; destruct c; [|done]; split; [apply Hr; lia|constructor]|].
  destruct (in_range 194 223 (bz a)) eqn:E2; bool_hyps.
  { destruct c as [|b [|]]; try done; destruct (cont b) eqn:?; try done. split; [apply Hr; lia|by constructor]. }
  destruct (in_range 224 239 (bz a)) eqn:E3; bool_hyps.
  { destruct c as [|b [|x [|]]]; try done; destruct (second_ok a b) eqn:Eb; try done;
      destruct (cont x) eqn:?; try done. split; [apply Hr; lia|]. repeat constructor; eauto. }
  destruct (in_range 240 244 (bz a)) eqn:E4; [|done]. bool_hyps.
  destruct c as [|b [|x [|y [|]]]]; try done; destruct (second_ok a b) eqn:Eb; try done;
    destruct (cont x) eqn:?; try done; destruct (cont y) eqn:?; try done.
  split; [apply Hr; lia|]. repeat constructor; eauto.
Qed.

Lemma pop_last_char s c : is_char c = true → pop_char (s ++ c) = s.
Proof.
  intros (b & conts & -> & Hb & Hc)%char_lead. unfold pop_char. rewrite reverse_app, reverse_cons, <- app_assoc.
  assert (∀ k l, Forall (λ x, cont x = true) l → drop_conts (l ++ [b] ++ k) = k) as Hd.
  { intros k l. induction 1 as [|x l Hx _ IH]; cbn; [by rewrite Hb|by rewrite Hx]. }
  rewrite Hd by (by apply Forall_reverse). apply reverse_involutive.
Qed.

(** Popping characters until the string fits. *)
Lemma pop_while_ok max cs fuel :
  0 <= max → Forall (λ c, is_char c = true) cs → (length cs <= fuel)%nat →
  utf8_valid (pop_while fuel max (concat cs)) = true ∧ zlen (pop_while fuel max (concat cs)) <= max.
Proof.
  intros Hm. revert fuel. induction cs as [|c cs IH] using rev_ind; intros fuel Hcs Hf.
  { assert ((max <? zlen (concat (@nil (list byte)))) = false) as E by (change (zlen (concat (@nil (list byte)))) with 0; apply Z.ltb_ge; exact Hm).
    destruct fuel; cbn [pop_while]; rewrite ?E; by split. }
  apply Forall_app in Hcs as [Hcs Hc]. apply Forall_cons in Hc as [Hc _]. rewrite length_app in Hf. cbn in Hf.
  destruct fuel as [|fuel]; [lia|]. cbn [pop_while].
  assert (concat (cs ++ [c]) = concat cs ++ c) as -> by (by rewrite concat_app; cbn; rewrite app_nil_r).
  destruct (max <? zlen (concat cs ++ c)) eqn:E.
  - rewrite pop_last_char by done. apply IH; [done|lia].
  - split; [|lia]. rewrite <- (app_nil_r c) at 1. change (c ++ []) with (concat [c]).
    rewrite <- concat_app. apply valid_chars. apply Forall_app. split; [done|]. by constructor.
Qed.

Lemma length_chars cs : Forall (λ c, is_char c = true) cs → (length cs <= length (concat cs))%nat.
Proof.
  induction 1 as [|c cs Hc _ IH]; [done|]. cbn. rewrite length_app.
  apply char_lead in Hc as (b & conts & -> & _). cbn. lia.
Qed.

(** The strings the engine cuts are valid and fit. *)
Lemma cut_lossy_ok max b : 0 <= max → utf8_valid (cut_lossy max b) = true ∧ zlen (cut_lossy max b) <= max.
Proof.
  intros Hm. unfold cut_lossy, from_utf8_lossy. apply pop_while_ok; [done|apply lossy_chars_ok|].
  apply length_chars, lossy_chars_ok.
Qed.

(** The encoding of a character. *)
Lemma utf8_char_ok cp ch :
  char_from_u32 cp = Some ch → is_char (utf8_char ch) = true ∧ zlen (utf8_char ch) = len_utf8 ch.
Proof.
  unfold char_from_u32. intros H. case_match; [|done]. simplify_eq. unfold utf8_char, len_utf8.
  assert (0 <= ch <= 0xD7FF ∨ 0xE000 <= ch <= 0x10FFFF) as Hr.
  { apply orb_true_iff in H0. rewrite !in_range_iff in H0. lia. }
  assert (∀ z, 0 <= z < 256 → bz (zb z) = z) as Hz by (intros; rewrite bz_zb; by apply Z.mod_small).
  pose proof (Z.mod_pos_bound ch 64 ltac:(lia)). pose proof (Z.mod_pos_bound (ch / 64) 64 ltac:(lia)).
  pose proof (Z.mod_pos_bound (ch / 4096) 64 ltac:(lia)). pose proof (Z.div_mod ch 64 ltac:(lia)).
  pose proof (Z.div_mod (ch / 64) 64 ltac:(lia)) as H64. rewrite Z.div_div in H64 by lia. change (64 * 64) with 4096 in H64.
  pose proof (Z.div_mod (ch / 4096) 64 ltac:(lia)) as H4k. rewrite Z.div_div in H4k by lia. change (4096 * 64) with 262144 in H4k.
  assert (∀ z, 0 <= z < 64 → cont (zb (0x80 + z)) = true) as Hc
    by (intros; unfold cont; rewrite Hz by lia; apply in_range_iff; lia).
  destruct (ch <? 128) eqn:E1; [split; [|done]; unfold is_char, utf8_step; rewrite Hz by lia; by rewrite E1|].
  destruct (ch <? 2048) eqn:E2.
  { split; [|done]. unfold is_char, utf8_step. rewrite Hz, Hc by lia.
    replace (192 + ch / 64 <? 128) with false by lia.
    replace (in_range 194 223 (192 + ch / 64)) with true by (symmetry; apply in_range_iff; lia). done. }
  assert (∀ lo hi z, z < lo ∨ hi < z → in_range lo hi z = false) as Hf
    by (intros; apply not_true_iff_false; rewrite in_range_iff; lia).
  destruct (ch <? 65536) eqn:E3; (split; [|done]).
  - unfold is_char, utf8_step. rewrite Hz, !Hc by lia.
    replace (224 + ch / 4096 <? 128) with false by lia. rewrite (Hf 194) by lia.
    replace (in_range 224 239 (224 + ch / 4096)) with true by (symmetry; apply in_range_iff; lia).
    replace (second_ok _ _) with true; [done|]. unfold second_ok. rewrite !Hz by lia.
    replace (224 + ch / 4096 =? 240) with false by lia. replace (224 + ch / 4096 =? 244) with false by lia.
    destruct (224 + ch / 4096 =? 224) eqn:?; [symmetry; apply in_range_iff; lia|].
    destruct (224 + ch / 4096 =? 237) eqn:?; [symmetry; apply in_range_iff; lia|]. by rewrite Hc.
  - unfold is_char, utf8_step. rewrite Hz, !Hc by lia.
    replace (240 + ch / 262144 <? 128) with false by lia. rewrite (Hf 194), (Hf 224) by lia.
    replace (in_range 240 244 (240 + ch / 262144)) with true by (symmetry; apply in_range_iff; lia).
    replace (second_ok _ _) with true; [done|]. unfold second_ok. rewrite !Hz by lia.
    replace (240 + ch / 262144 =? 224) with false by lia. replace (240 + ch / 262144 =? 237) with false by lia.
    destruct (240 + ch / 262144 =? 240) eqn:?; [symmetry; apply in_range_iff; lia|].
    destruct (240 + ch / 262144 =? 244) eqn:?; [symmetry; apply in_range_iff; lia|]. by rewrite Hc.
Qed.
