(* ===== verification/Vt.v ===== *)
(** * Vt (crates/ferryx-vt/src/engine.rs, the terminal engine)

    The engine wraps libghostty-vt, a C library.  The library is the environment:
    a [Vt] holds what its getters answer in one state, and every call that changes
    the terminal leads to a new [Vt].  Calls whose result the code passes to
    [check] are answered (a failure aborts the session); calls whose failure the
    code handles answer an [option].  Modelled here is all the code computes from the
    answers: cells, rows, modes, colours, cursor and title, the table of
    hyperlinks, the callbacks, and the detector of rewritten scrollback. *)

From S2P Require Import Prelude Wire Types Replica Utf8.
From Stdlib Require Import ZArith Lia Strings.Byte.
From stdpp Require Import base gmap list option.

#[local] Open Scope Z_scope.

Definition GRAPHEME_EXTRA_MAX : Z := 32.
Definition TITLE_MAX : Z := 4096.
Definition URI_MAX : Z := 2048.
Definition LINKS_MAX : Z := 1024.
Definition DEFAULT_SCROLLBACK_LINES : Z := 50000.

(** ** Answers of the library *)

(** [StyleColor]: a tag and the fields of the union. *)
Record StyleColor := mk_StyleColor { sc_tag : Z; sc_palette : Z; sc_rgb : Z * Z * Z }.
Definition STYLE_COLOR_PALETTE : Z := 1.
Definition STYLE_COLOR_RGB : Z := 2.

Record Style := mk_Style {
  st_fg : StyleColor; st_bg : StyleColor; st_underline_color : StyleColor;
  st_bold : bool; st_italic : bool; st_faint : bool; st_blink : bool; st_inverse : bool;
  st_invisible : bool; st_strikethrough : bool; st_overline : bool; st_underline : Z;
}.

Definition WIDE_WIDE : Z := 1.
Definition WIDE_SPACER_TAIL : Z := 2.

(** A cell: its width class, the number of code points ([None] for OUT_OF_SPACE) and
    the buffer of 64 code points, its style, and its hyperlink if it has one. *)
Record RawCell := mk_RawCell {
  ce_wide : Z;
  ce_graphemes : option Z * list Z;
  ce_style : Style;
  ce_uri : option (list byte);
}.
Record RawRow := mk_RawRow { rr_wrap : bool; rr_cells : list RawCell }.

(** The getters in one state of the terminal: rows of the history and of the
    active area, modes and colours by key, the cursor, the title. *)
Record Vt := mk_Vt {
  vt_cols : Z;
  vt_rows : Z;
  vt_screen : Z;
  vt_history : list RawRow;
  vt_active : list RawRow;
  vt_mode : Z → option bool;
  vt_color : Z → option (Z * Z * Z);
  vt_palette : list (Z * Z * Z);
  vt_palette_default : list (Z * Z * Z);
  vt_cursor_style : option Z;
  vt_cursor_visible : option bool;
  vt_cursor_blinking : option bool;
  vt_cursor_x : Z;
  vt_cursor_y : Z;
  vt_title : option (list byte);
}.

Definition DATA_COLOR_FOREGROUND : Z := 18.
Definition DATA_COLOR_BACKGROUND : Z := 19.
Definition DATA_COLOR_CURSOR : Z := 20.
Definition DATA_COLOR_FOREGROUND_DEFAULT : Z := 22.
Definition DATA_COLOR_BACKGROUND_DEFAULT : Z := 23.
Definition DATA_COLOR_CURSOR_DEFAULT : Z := 24.

Definition dec_mode (v : Z) : Z := Z.land v 0x7FFF.
Definition ansi_mode (v : Z) : Z := Z.lor (Z.land v 0x7FFF) 0x8000.

(** ** Hyperlinks *)

Record LinkTable := mk_LinkTable {
  lt_by_uri : gmap String Z;
  lt_uris : gmap Z String;
  lt_next : Z;
}.
Definition link_table_default : LinkTable := mk_LinkTable ∅ ∅ 0.

Definition intern (uri : String) (t : LinkTable) : LinkTable * Z :=
  match lt_by_uri t !! uri with
  | Some id => (t, id)
  | None =>
      if LINKS_MAX <=? Z.of_nat (size (lt_uris t)) then (t, 0)
      else
        let next := (lt_next t + 1) mod 2 ^ 32 in
        (mk_LinkTable (<[uri := next]> (lt_by_uri t)) (<[next := uri]> (lt_uris t)) next, next)
  end.

Definition retain_referenced (referenced : gset Z) (t : LinkTable) : LinkTable :=
  mk_LinkTable (bt_retain (λ _ id, bool_decide (id ∈ referenced)) (lt_by_uri t))
    (bt_retain (λ id _, bool_decide (id ∈ referenced)) (lt_uris t)) (lt_next t).

(** ** Reading cells and rows *)

Definition color (c : StyleColor) : Color :=
  if sc_tag c =? STYLE_COLOR_PALETTE then Color_Indexed (sc_palette c)
  else if sc_tag c =? STYLE_COLOR_RGB then let '(r, g, b) := sc_rgb c in Color_Rgb r g b
  else Color_Default.

(** The loop over the code points after the first. *)
Fixpoint grapheme_loop (cps : list Z) (s : String) : String :=
  match cps with
  | [] => s
  | cp :: cps' =>
      match char_from_u32 cp with
      | Some ch =>
          if GRAPHEME_EXTRA_MAX <? zlen s + len_utf8 ch then s
          else grapheme_loop cps' (s ++ utf8_char ch)
      | None => grapheme_loop cps' s
      end
  end.

(** [set(b, bit, &mut attrs)] *)
Definition set_attr (b : bool) (bit attrs : Z) : Z := if b then Z.lor attrs (Z.shiftl 1 bit) else attrs.

Definition read_attrs (st : Style) : Z :=
  let attrs := set_attr (st_italic st) 2 (set_attr (st_faint st) 1 (set_attr (st_bold st) 0 0)) in
  let attrs :=
    match st_underline st with
    | 0 => attrs
    | 2 => Z.lor attrs (Z.shiftl 1 4)
    | 3 => Z.lor attrs (Z.shiftl 1 5)
    | _ => Z.lor attrs (Z.shiftl 1 3)
    end in
  set_attr (st_overline st) 10 (set_attr (st_strikethrough st) 9 (set_attr (st_invisible st) 8
    (set_attr (st_inverse st) 7 (set_attr (st_blink st) 6 attrs)))).

Definition read_cell (c : RawCell) (links : LinkTable) : Cell * LinkTable :=
  let cps := (ce_graphemes c).2 in
  let n := match (ce_graphemes c).1 with Some n => n | None => 64 end in
  let codepoint := if 0 <? n then default 0 (cps !! 0%nat) else 0 in
  let extra := if 1 <? n then Some (grapheme_loop (drop 1 (take (Z.to_nat n) cps)) []) else None in
  let extra := match extra with Some [] => None | e => e end in
  let width := if ce_wide c =? WIDE_WIDE then 2 else if ce_wide c =? WIDE_SPACER_TAIL then 0 else 1 in
  let st := ce_style c in
  let '(links, hyperlink_id) :=
    match ce_uri c with
    | Some (b :: u) => if utf8_valid (b :: u) then intern (b :: u) links else (links, 0)
    | _ => (links, 0)
    end in
  (mk_Cell codepoint extra width (color (st_fg st)) (color (st_bg st)) (color (st_underline_color st))
     (read_attrs st) hyperlink_id, links).

Fixpoint read_cells (cs : list RawCell) (links : LinkTable) : list Cell * LinkTable :=
  match cs with
  | [] => ([], links)
  | c :: cs' =>
      let '(cell, links) := read_cell c links in
      let '(cells, links) := read_cells cs' links in (cell :: cells, links)
  end.
Definition read_row (row : RawRow) (links : LinkTable) : RowData * LinkTable :=
  let '(cells, links) := read_cells (rr_cells row) links in (mk_RowData (rr_wrap row) cells, links).
Fixpoint read_rows (rows : list RawRow) (links : LinkTable) : list RowData * LinkTable :=
  match rows with
  | [] => ([], links)
  | r :: rows' =>
      let '(row, links) := read_row r links in
      let '(rest, links) := read_rows rows' links in (row :: rest, links)
  end.

(** ** Modes, colours, cursor, title *)

Definition mode (v : Vt) (m : Z) : bool := default false (vt_mode v m).

Definition mode_bits : list (Z * Z) :=
  [(dec_mode 1049, 0); (dec_mode 1, 1); (dec_mode 66, 2); (dec_mode 2004, 3); (dec_mode 1004, 4);
   (dec_mode 6, 5); (dec_mode 7, 6); (dec_mode 5, 7); (ansi_mode 4, 8); (dec_mode 25, 9); (dec_mode 2026, 10)].

Definition modes (v : Vt) : Modes :=
  let flags := foldl (λ flags p, if mode v p.1 then Z.lor flags (Z.shiftl 1 p.2) else flags) 0 mode_bits in
  let flags := if vt_screen v =? 1 then Z.lor flags 1 else flags in
  let mouse_mode :=
    if mode v (dec_mode 1003) then MouseMode_Any
    else if mode v (dec_mode 1002) then MouseMode_Button
    else if mode v (dec_mode 1000) then MouseMode_Normal
    else if mode v (dec_mode 9) then MouseMode_X10
    else MouseMode_Off in
  let mouse_encoding :=
    if mode v (dec_mode 1016) then MouseEncoding_SgrPixels
    else if mode v (dec_mode 1006) then MouseEncoding_Sgr
    else if mode v (dec_mode 1015) then MouseEncoding_Urxvt
    else if mode v (dec_mode 1005) then MouseEncoding_Utf8
    else MouseEncoding_Default in
  mk_Modes flags mouse_mode mouse_encoding.

Definition rgb (v : Vt) (key default_key : Z) : Color :=
  match vt_color v key, vt_color v default_key with
  | Some cur, Some def =>
      if bool_decide (cur = def) then Color_Default else let '(r, g, b) := cur in Color_Rgb r g b
  | Some (r, g, b), None => Color_Rgb r g b
  | None, _ => Color_Default
  end.

(** The indices from [i] on at which the two palettes differ. *)
Fixpoint palette_overrides_from (i : Z) (cur def : list (Z * Z * Z)) : list (Z * (Z * (Z * Z))) :=
  match cur, def with
  | (r, g, b) :: cur', d :: def' =>
      (if bool_decide ((r, g, b) = d) then [] else [(i, (r, (g, b)))]) ++ palette_overrides_from (i + 1) cur' def'
  | _, _ => []
  end.

Definition palette (v : Vt) : Palette :=
  let overrides := palette_overrides_from 0 (vt_palette v) (vt_palette_default v) in
  let cursor_color :=
    match rgb v DATA_COLOR_CURSOR DATA_COLOR_CURSOR_DEFAULT with Color_Default => None | c => Some c end in
  mk_Palette (rgb v DATA_COLOR_FOREGROUND DATA_COLOR_FOREGROUND_DEFAULT)
    (rgb v DATA_COLOR_BACKGROUND DATA_COLOR_BACKGROUND_DEFAULT) cursor_color overrides.

Definition cursor (cols rows : Z) (v : Vt) : Cursor :=
  let style := match default 1 (vt_cursor_style v) with
    | 0 => CursorStyle_Bar | 2 => CursorStyle_Underline | _ => CursorStyle_Block end in
  mk_Cursor (Z.min (vt_cursor_y v) (sat_sub rows 1)) (Z.min (vt_cursor_x v) (sat_sub cols 1)) style
    (default false (vt_cursor_blinking v)) (default true (vt_cursor_visible v)).

Definition title (v : Vt) : String :=
  match vt_title v with Some b => cut_lossy TITLE_MAX b | None => [] end.

(** ** Callbacks *)

Inductive VtEffect : Type :=
| VtReply (b : list byte)
| Ui (kind : UiEventKind).

(** A call of the library into the engine; [contents] are pairs of MIME type and data. *)
Inductive Callback : Type :=
| CbWritePty (data : list byte)
| CbBell
| CbClipboardWrite (location : Z) (contents : list (list byte * list byte))
| CbNotification (title body : list byte).

Definition CLIPBOARD_SELECTION : Z := 1.
Definition CLIPBOARD_PRIMARY : Z := 2.

Definition on_write_pty (data : list byte) : list VtEffect :=
  match data with [] => [] | _ => [VtReply data] end.

Definition text_plain : list byte := [x74; x65; x78; x74; x2f; x70; x6c; x61; x69; x6e].
Definition starts_with (p l : list byte) : bool := bool_decide (take (length p) l = p).

(** The text of a clipboard write: the first text/plain entry, or the first one. *)
Definition clipboard_text (contents : list (list byte * list byte)) : option (list byte) :=
  c ← (match list_find (λ c, starts_with text_plain c.1 = true) contents with
       | Some (_, c) => Some c | None => head contents end);
  if utf8_valid c.2 then Some c.2 else None.

Definition on_clipboard_write (location : Z) (contents : list (list byte * list byte)) : list VtEffect :=
  let target := if (location =? CLIPBOARD_SELECTION) || (location =? CLIPBOARD_PRIMARY)
                then ClipboardTarget_Primary else ClipboardTarget_Clipboard in
  match clipboard_text contents with
  | Some text => [Ui (ClipboardWrite target text)]
  | None => []
  end.

Definition on_notification (title body : list byte) : list VtEffect :=
  [Ui (Notification (cut_lossy 256 title) (cut_lossy 4096 body))].

Definition on_callback (c : Callback) : list VtEffect :=
  match c with
  | CbWritePty data => on_write_pty data
  | CbBell => [Ui Bell]
  | CbClipboardWrite location contents => on_clipboard_write location contents
  | CbNotification title body => on_notification title body
  end.

(** ** The engine *)

Inductive Step : Type :=
| Appended (evicted appended : Z)
| Rewritten.
#[global] Instance Step_eq_dec : EqDecision Step.
Proof. solve_decision. Defined.

Record Anchor := mk_Anchor { an_hash : Z; an_y : Z }.

Record VtEngine := mk_VtEngine {
  ve_vt : Vt;
  ve_effects : list VtEffect;
  ve_sb_rows : Z;
  ve_cols : Z;
  ve_rows : Z;
  ve_screen : Z;
  ve_anchor : option Anchor;
}.

Record ScreenState := mk_ScreenState {
  ss_cols : Z; ss_rows : Z; ss_screen : list RowData; ss_cursor : Cursor; ss_modes : Modes;
  ss_palette : Palette; ss_title : String;
}.

Section engine.
Context (xxh3_64 : list byte → Z).

(** The row is read with a link table of its own, so its hash covers the URIs. *)
Definition row_hash (row : RawRow) : Z :=
  let '(data, links) := read_row row link_table_default in
  xxh3_64 (enc c_RowData data ++ concat (bt_values (lt_uris links))).

(** [arm]: [DATA_SCROLLBACK_ROWS] is the length of the history; the anchor is its
    newest row, which the history must have. *)
Definition arm (v : Vt) (effects : list VtEffect) : option VtEngine :=
  let sb := zlen (vt_history v) in
  anchor ← (if sb =? 0 then Some None
            else
              let y := (sb - 1) mod 2 ^ 32 in
              row ← vt_history v !! Z.to_nat y;
              Some (Some (mk_Anchor (row_hash row) y)));
  Some (mk_VtEngine v effects sb (vt_cols v) (vt_rows v) (vt_screen v) anchor).

Definition engine_new (v : Vt) : option VtEngine := arm v [].

(** [observe]: [tracked] is the library's answer for the tracked reference, the
    row of the history it is on now, if any. *)
Definition observe (tracked : option Z) (v : Vt) (effects : list VtEffect) (e : VtEngine)
    : option (VtEngine * Step) :=
  let before := ve_sb_rows e in
  let sb := zlen (vt_history v) in
  step ←
    (if negb (vt_cols v =? ve_cols e) || negb (vt_rows v =? ve_rows e) || negb (vt_screen v =? ve_screen e)
     then Some Rewritten
     else match ve_anchor e with
     | None => Some (if before =? 0 then Appended 0 sb else Rewritten)
     | Some a =>
         match tracked with
         | None => Some Rewritten
         | Some y =>
             if (an_y a <? y) || (sb <=? y) then Some Rewritten
             else
               let evicted := an_y a - y in
               if sb + evicted <? before then Some Rewritten
               else
                 row ← vt_history v !! Z.to_nat y;
                 Some (if negb (row_hash row =? an_hash a) then Rewritten
                       else Appended evicted (sb + evicted - before))
         end
     end);
  e' ← arm v effects;
  Some (e', step).

(** [feed] and [resize]: the library moves to [v], having called back with [cbs]. *)
Definition engine_call (v : Vt) (cbs : list Callback) (tracked : option Z) (e : VtEngine)
    : option (VtEngine * Step) :=
  observe tracked v (ve_effects e ++ (cbs ≫= on_callback)) e.

Definition take_effects (e : VtEngine) : list VtEffect * VtEngine :=
  (ve_effects e, mk_VtEngine (ve_vt e) [] (ve_sb_rows e) (ve_cols e) (ve_rows e) (ve_screen e) (ve_anchor e)).

Definition read_screen (e : VtEngine) (links : LinkTable) : ScreenState * LinkTable :=
  let v := ve_vt e in
  let '(screen, links) := read_rows (vt_active v) links in
  (mk_ScreenState (ve_cols e) (ve_rows e) screen (cursor (ve_cols e) (ve_rows e) v) (modes v) (palette v) (title v),
   links).

Definition scrollback_rows (e : VtEngine) : Z := ve_sb_rows e.

Definition read_scrollback (from : Z) (e : VtEngine) (links : LinkTable) : list RowData * LinkTable :=
  read_rows (drop (Z.to_nat from) (vt_history (ve_vt e))) links.
End engine.
