(* ===== verification/Terminal.v ===== *)
(** * Terminal (crates/ferryx-vt/src/engine.rs, [HostTerminal])

    The host's terminal: the engine, the replicated state kept in step with it, and
    the deltas it publishes.  After every input the engine reports either how many
    rows left and entered its history, or that the history was rewritten; in the
    first case the state is updated row by row, in the second it is rebuilt. *)

From S2P Require Import Prelude Wire Types Replica Vt.
From Stdlib Require Import ZArith Lia Strings.Byte.
From stdpp Require Import base gmap list option.

#[local] Open Scope Z_scope.

Record HostTerminal := mk_HostTerminal {
  ht_engine : VtEngine;
  ht_replica : Replica;
  ht_links : LinkTable;
  ht_next_line_id : Z;
  ht_next_event_id : Z;
  ht_row_bytes : list Z;
  ht_scrollback_bytes : Z;
  ht_trimmed : Z;
}.

(** Field assignment. *)
Definition with_engine (v : VtEngine) (t : HostTerminal) : HostTerminal :=
  mk_HostTerminal v (ht_replica t) (ht_links t) (ht_next_line_id t) (ht_next_event_id t)
    (ht_row_bytes t) (ht_scrollback_bytes t) (ht_trimmed t).
Definition with_replica (v : Replica) (t : HostTerminal) : HostTerminal :=
  mk_HostTerminal (ht_engine t) v (ht_links t) (ht_next_line_id t) (ht_next_event_id t)
    (ht_row_bytes t) (ht_scrollback_bytes t) (ht_trimmed t).
Definition with_links (v : LinkTable) (t : HostTerminal) : HostTerminal :=
  mk_HostTerminal (ht_engine t) (ht_replica t) v (ht_next_line_id t) (ht_next_event_id t)
    (ht_row_bytes t) (ht_scrollback_bytes t) (ht_trimmed t).
Definition with_next_event_id (v : Z) (t : HostTerminal) : HostTerminal :=
  mk_HostTerminal (ht_engine t) (ht_replica t) (ht_links t) (ht_next_line_id t) v
    (ht_row_bytes t) (ht_scrollback_bytes t) (ht_trimmed t).
Definition with_trimmed (v : Z) (t : HostTerminal) : HostTerminal :=
  mk_HostTerminal (ht_engine t) (ht_replica t) (ht_links t) (ht_next_line_id t) (ht_next_event_id t)
    (ht_row_bytes t) (ht_scrollback_bytes t) v.
Definition with_scrollback (v : list (Z * RowData)) (r : Replica) : Replica :=
  mk_Replica (rp_cols r) (rp_rows r) (rp_screen r) (rp_cursor r) (rp_modes r) (rp_palette r)
    (rp_title r) (rp_hyperlinks r) v (rp_exit_info r).

(** [encoded_len(&row) + 8] *)
Definition row_len (row : RowData) : Z := zlen (enc c_RowData row) + 8.

Definition push_back_row (row : RowData) (t : HostTerminal) : HostTerminal :=
  let n := row_len row in
  let r := ht_replica t in
  mk_HostTerminal (ht_engine t) (with_scrollback (rp_scrollback r ++ [(ht_next_line_id t, row)]) r)
    (ht_links t) (add64 (ht_next_line_id t) 1) (ht_next_event_id t) (ht_row_bytes t ++ [n])
    (add64 (ht_scrollback_bytes t) n) (ht_trimmed t).

Definition pop_front_row (t : HostTerminal) : HostTerminal :=
  let r := ht_replica t in
  let '(bytes, total) :=
    match ht_row_bytes t with
    | n :: bytes => (bytes, sub64 (ht_scrollback_bytes t) n)
    | [] => ([], ht_scrollback_bytes t)
    end in
  mk_HostTerminal (ht_engine t) (with_scrollback (tail (rp_scrollback r)) r) (ht_links t)
    (ht_next_line_id t) (ht_next_event_id t) bytes total (ht_trimmed t).

Definition push_back_rows (rows : list RowData) (t : HostTerminal) : HostTerminal :=
  foldl (λ t row, push_back_row row t) t rows.

Definition rebuild (scrollback : bool) (t : HostTerminal) : HostTerminal :=
  let '(s, links) := read_screen (ht_engine t) (ht_links t) in
  let t := with_links links t in
  let t :=
    if scrollback then
      let '(rows, links) := read_scrollback 0 (ht_engine t) (ht_links t) in
      push_back_rows rows
        (mk_HostTerminal (ht_engine t) (with_scrollback [] (ht_replica t)) links (ht_next_line_id t)
           (ht_next_event_id t) [] 0 0)
    else t in
  let r := ht_replica t in
  let r := mk_Replica (ss_cols s) (ss_rows s) (ss_screen s) (ss_cursor s) (ss_modes s) (ss_palette s)
             (ss_title s) (rp_hyperlinks r) (rp_scrollback r) (rp_exit_info r) in
  let links := retain_referenced (referenced_links r) (ht_links t) in
  with_links links (with_replica
    (mk_Replica (rp_cols r) (rp_rows r) (rp_screen r) (rp_cursor r) (rp_modes r) (rp_palette r)
       (rp_title r) (lt_uris links) (rp_scrollback r) (rp_exit_info r)) t).

Definition terminal_new (e : VtEngine) : HostTerminal :=
  rebuild true (mk_HostTerminal e (replica_new (ve_cols e) (ve_rows e)) link_table_default 1 1 [] 0 0).

(** The part of the state before a step that the delta is computed from. *)
Record Light := mk_Light {
  li_screen : list RowData;
  li_cursor : Cursor;
  li_modes : Modes;
  li_palette : Palette;
  li_title : String;
  li_links : gmap Z String;
  li_had_scrollback : bool;
}.
Definition light (t : HostTerminal) : Light :=
  let r := ht_replica t in
  mk_Light (rp_screen r) (rp_cursor r) (rp_modes r) (rp_palette r) (rp_title r) (rp_hyperlinks r)
    (bool_decide (rp_scrollback r ≠ [])).

Definition sum_Z (l : list Z) : Z := foldr Z.add 0 l.

Definition non_scrollback_len (t : HostTerminal) : Z :=
  let r := ht_replica t in
  let screen := sum_Z ((λ row, zlen (enc c_RowData row)) <$> rp_screen r) in
  let links := sum_Z ((λ p, 8 + zlen p.2) <$> bt_iter (rp_hyperlinks r)) in
  256 + screen + zlen (enc c_Cursor (rp_cursor r)) + zlen (enc c_Modes (rp_modes r))
    + zlen (enc c_Palette (rp_palette r)) + 4 + zlen (rp_title r) + links.

(** The loop of [enforce_limit]; one round per row is enough. *)
Fixpoint trim_loop (fuel : nat) (fixed : Z) (t : HostTerminal) : HostTerminal * bool :=
  match fuel with
  | O => (t, false)
  | S fuel' =>
      if (S_MAX <? fixed + ht_scrollback_bytes t) && bool_decide (rp_scrollback (ht_replica t) ≠ []) then
        let t := pop_front_row t in
        ((trim_loop fuel' fixed (with_trimmed (add64 (ht_trimmed t) 1) t)).1, true)
      else (t, false)
  end.

(** [first_line_id().unwrap_or(next_line_id)] *)
Definition first_kept (t : HostTerminal) : Z :=
  default (ht_next_line_id t) (first_line_id (rp_scrollback (ht_replica t))).

Definition enforce_limit (appended : list (Z * RowData)) (t : HostTerminal)
    : HostTerminal * list (Z * RowData) * bool :=
  let '(t, evicted) := trim_loop (length (rp_scrollback (ht_replica t))) (non_scrollback_len t) t in
  (t, if evicted then filter (λ p, (first_kept t <=? p.1) = true) appended else appended, evicted).

Definition build_delta (li : Light) (appended : list (Z * RowData)) (evicted : bool) (ui_events : list UiEvent)
    (t : HostTerminal) : Delta :=
  let r := ht_replica t in
  mk_Delta 0 0 0 None
    (then_some (bool_decide (li_cursor li ≠ rp_cursor r)) (rp_cursor r))
    (then_some (bool_decide (li_modes li ≠ rp_modes r)) (rp_modes r))
    (then_some (bool_decide (li_palette li ≠ rp_palette r)) (rp_palette r))
    (then_some (bool_decide (li_title li ≠ rp_title r)) (rp_title r))
    (dirty_from 0 false (li_screen li) (rp_screen r))
    ((λ p, mk_Hyperlink p.1 p.2) <$> filter (λ p, li_links li !! p.1 ≠ Some p.2) (bt_iter (rp_hyperlinks r)))
    appended
    (if evicted && li_had_scrollback li then Some (first_kept t) else None)
    None ui_events.

Definition state_changed (d : Delta) : bool :=
  bool_decide (is_Some (delta_size d)) || bool_decide (is_Some (delta_cursor d))
  || bool_decide (is_Some (delta_modes d)) || bool_decide (is_Some (delta_palette d))
  || bool_decide (is_Some (delta_title d)) || bool_decide (delta_dirty_rows d ≠ [])
  || bool_decide (delta_hyperlinks_added d ≠ []) || bool_decide (delta_scrollback_appended d ≠ [])
  || bool_decide (is_Some (delta_scrollback_evicted_before d)) || bool_decide (is_Some (delta_exit_info d)).

Record Advance := mk_Advance {
  ad_rewritten : bool;
  ad_changed : bool;
  ad_delta : option Delta;
  ad_vt_replies : list (list byte);
  ad_ui_events : list UiEvent;
}.

(** The loop over the engine's effects. *)
Fixpoint split_effects (fx : list VtEffect) (next : Z) : list (list byte) * list UiEvent * Z :=
  match fx with
  | [] => ([], [], next)
  | VtReply b :: fx' => let '(rs, us, n) := split_effects fx' next in (b :: rs, us, n)
  | Ui kind :: fx' =>
      let '(rs, us, n) := split_effects fx' (add64 next 1) in (rs, mk_UiEvent next kind :: us, n)
  end.

(** Rows leave the state: those trimmed before are gone already. *)
Definition pop_evicted (evicted : Z) (t : HostTerminal) : HostTerminal * bool :=
  let from_trimmed := Z.min evicted (ht_trimmed t) in
  let t := with_trimmed (ht_trimmed t - from_trimmed) t in
  let n := Z.to_nat (Z.min (evicted - from_trimmed) (zlen (rp_scrollback (ht_replica t)))) in
  (Nat.iter n pop_front_row t, negb (n =? 0)%nat).

(** Ids for the rows that were read, in order. *)
Fixpoint number_rows (next : Z) (rows : list RowData) : list (Z * RowData) :=
  match rows with [] => [] | row :: rows' => (next, row) :: number_rows (add64 next 1) rows' end.

(** [advance] up to the effects: the new state, the appended rows, whether rows
    were evicted, and whether the scrollback was rewritten. *)
Definition follow (step : Step) (t : HostTerminal) : HostTerminal * list (Z * RowData) * bool * bool :=
  match step with
  | Rewritten => (rebuild true t, [], false, true)
  | Appended evicted appended =>
      let '(t, evicted_any) := pop_evicted evicted t in
      let sb := scrollback_rows (ht_engine t) in
      let '(rows, links) := read_scrollback (sat_sub sb appended) (ht_engine t) (ht_links t) in
      let appended_rows := number_rows (ht_next_line_id t) rows in
      let t := push_back_rows rows (with_links links t) in
      if negb (zlen (rp_scrollback (ht_replica t)) + ht_trimmed t =? sb)
      then (rebuild true t, appended_rows, evicted_any, true)
      else (rebuild false t, appended_rows, evicted_any, false)
  end.

Definition advance (step : Step) (li : Light) (t : HostTerminal) : HostTerminal * Advance :=
  let '(t, appended_rows, evicted_any, rewritten) := follow step t in
  let '(fx, engine) := take_effects (ht_engine t) in
  let '(vt_replies, ui_events, next) := split_effects fx (ht_next_event_id t) in
  let t := with_next_event_id next (with_engine engine t) in
  let '(t, appended_rows, trimmed) := enforce_limit appended_rows t in
  let delta := if rewritten then None
               else Some (build_delta li appended_rows (evicted_any || trimmed) ui_events t) in
  let changed := rewritten || match delta with Some d => state_changed d | None => false end in
  (t, mk_Advance rewritten changed delta vt_replies ui_events).

Section calls.
Context (xxh3_64 : list byte → Z).

(** [feed] and [resize]: the library moved to [v] and called back with [cbs]; its
    tracked reference is on row [tracked]. *)
Definition terminal_call (v : Vt) (cbs : list Callback) (tracked : option Z) (t : HostTerminal)
    : option (HostTerminal * Advance) :=
  let li := light t in
  '(e, step) ← engine_call xxh3_64 v cbs tracked (ht_engine t);
  Some (advance step li (with_engine e t)).
End calls.

Definition set_exit (exit : ExitInfo) (t : HostTerminal) : HostTerminal :=
  let r := ht_replica t in
  with_replica (mk_Replica (rp_cols r) (rp_rows r) (rp_screen r) (rp_cursor r) (rp_modes r) (rp_palette r)
    (rp_title r) (rp_hyperlinks r) (rp_scrollback r) (Some exit)) t.
