(* ===== verification/TerminalSpec.v ===== *)
(** * TerminalSpec: theorems about [Vt] and [Terminal]

    The invariant of the host's terminal, the deltas it publishes against the
    replica it keeps, and the bound on its encoded size. *)

From S2P Require Import Prelude Wire Types Replica ReplicaSpec Utf8 Vt Terminal.
From Stdlib Require Import ZArith Lia Strings.Byte.
From stdpp Require Import base gmap list option sorting.

#[local] Open Scope Z_scope.

(** ** What the library answers

    A terminal has between one and [MAX_COLS] columns and [MAX_ROWS] rows (the
    engine asks for no other size), every row has a cell per column, and values
    are in the range of their C types. *)

Definition rgb_ok (c : Z * Z * Z) : Prop := 0 <= c.1.1 <= 255 ∧ 0 <= c.1.2 <= 255 ∧ 0 <= c.2 <= 255.

Record cell_answers (c : RawCell) : Prop := {
  ca_count : ∀ n, (ce_graphemes c).1 = Some n → 0 <= n <= 64;
  ca_buffer : length (ce_graphemes c).2 = 64%nat ∧ Forall (λ cp, 0 <= cp <= u32_max) (ce_graphemes c).2;
  ca_colors : Forall (λ s, 0 <= sc_palette s <= 255 ∧ rgb_ok (sc_rgb s))
    [st_fg (ce_style c); st_bg (ce_style c); st_underline_color (ce_style c)];
  ca_uri : ∀ u, ce_uri c = Some u → zlen u <= URI_MAX;
}.

Record row_answers (cols : Z) (row : RawRow) : Prop := {
  ra_width : zlen (rr_cells row) = cols;
  ra_cells : Forall cell_answers (rr_cells row);
}.

Record vt_answers (v : Vt) : Prop := {
  va_cols : 1 <= vt_cols v <= MAX_COLS;
  va_rows : zlen (vt_active v) = vt_rows v ∧ 1 <= vt_rows v <= MAX_ROWS;
  va_history : zlen (vt_history v) <= u32_max;
  va_cells : Forall (row_answers (vt_cols v)) (vt_history v ++ vt_active v);
  va_colors : ∀ k c, vt_color v k = Some c → rgb_ok c;
  va_palette : length (vt_palette v) = 256%nat ∧ length (vt_palette_default v) = 256%nat ∧
    Forall rgb_ok (vt_palette v);
  va_cursor : 0 <= vt_cursor_x v <= u16_max ∧ 0 <= vt_cursor_y v <= u16_max;
}.

(** ** The table of hyperlinks *)

Record links_ok (t : LinkTable) : Prop := {
  lo_inverse : ∀ u id, lt_by_uri t !! u = Some id ↔ lt_uris t !! id = Some u;
  lo_ids : ∀ id u, lt_uris t !! id = Some u → 0 < id <= lt_next t;
  lo_uris : ∀ id u, lt_uris t !! id = Some u → utf8_valid u = true ∧ zlen u <= URI_MAX;
  lo_size : Z.of_nat (size (lt_uris t)) <= LINKS_MAX;
  lo_next : 0 <= lt_next t <= u32_max;
}.

(** Reading at most [n] cells took the table from [t] to [t']. *)
Record grown (n : Z) (t t' : LinkTable) : Prop := {
  gr_ok : links_ok t';
  gr_sub : lt_uris t ⊆ lt_uris t';
  gr_next : lt_next t' <= lt_next t + n;
}.

Lemma links_default_ok : links_ok link_table_default.
Proof. split; try done; intros *; rewrite ?lookup_empty; done. Qed.

Lemma grown_refl t : links_ok t → grown 0 t t.
Proof. intros. split; [done|done|lia]. Qed.

Lemma grown_trans n m t1 t2 t3 : grown n t1 t2 → grown m t2 t3 → grown (n + m) t1 t3.
Proof. intros [] []. split; [done|by etrans|lia]. Qed.

Lemma grown_weaken n m t t' : n <= m → grown n t t' → grown m t t'.
Proof. intros ? []. split; [done|done|lia]. Qed.

Lemma intern_spec uri t :
  links_ok t → lt_next t + 1 <= u32_max → utf8_valid uri = true → zlen uri <= URI_MAX →
  let '(t', id) := intern uri t in
  grown 1 t t' ∧ (id = 0 ∨ lt_uris t' !! id = Some uri).
Proof.
  intros Ho Hn Hu Hl. unfold intern. destruct (lt_by_uri t !! uri) as [id|] eqn:E.
  - split; [apply (grown_weaken 0); [lia|by apply grown_refl]|]. right. by apply lo_inverse in E.
  - destruct (LINKS_MAX <=? _) eqn:Em.
    { split; [apply (grown_weaken 0); [lia|by apply grown_refl]|by left]. }
    pose proof (lo_next _ Ho). pose proof Hn. unfold u32_max in Hn. rewrite Z.mod_small by lia.
    assert (lt_uris t !! (lt_next t + 1) = None) as Hf.
    { destruct (lt_uris t !! (lt_next t + 1)) eqn:E'; [|done]. apply (lo_ids _ Ho) in E'. lia. }
    split; [|right; cbn; by rewrite lookup_insert_eq].
    split; [|cbn; by apply insert_subseteq|cbn; lia].
    split; cbn.
    + intros u id. rewrite !lookup_insert_Some.
      split.
      * intros [[<- <-]|[Hne Hx]]; [by left|]. right. split; [|by apply (lo_inverse _ Ho)].
        intros <-. apply (lo_inverse _ Ho) in Hx. by rewrite Hf in Hx.
      * intros [[<- <-]|[Hne Hx]]; [by left|]. right. split; [|by apply (lo_inverse _ Ho)].
        intros <-. apply (lo_inverse _ Ho) in Hx. by rewrite E in Hx.
    + intros id u. rewrite lookup_insert_Some. intros [[<- _]|[_ Hx]]; [lia|].
      apply (lo_ids _ Ho) in Hx. lia.
    + intros id u. rewrite lookup_insert_Some. intros [[_ <-]|[_ Hx]]; [done|]. by apply (lo_uris _ Ho) in Hx.
    + rewrite map_size_insert_None by done. lia.
    + lia.
Qed.

Lemma retain_ok s t : links_ok t → links_ok (retain_referenced s t).
Proof.
  intros Ho. split; cbn.
  - intros u id. rewrite !bt_retain_Some, (lo_inverse _ Ho). done.
  - intros id u [H _]%bt_retain_Some. by apply (lo_ids _ Ho) in H.
  - intros id u [H _]%bt_retain_Some. by apply (lo_uris _ Ho) in H.
  - etrans; [|apply (lo_size _ Ho)]. apply Nat2Z.inj_le. apply map_subseteq_size, map_filter_subseteq.
  - apply (lo_next _ Ho).
Qed.

(** ** Rows *)

(** The nonzero hyperlink ids of a row. *)
Definition row_ids (row : RowData) : list Z := filter (λ id, id ≠ 0) (cell_hyperlink_id <$> row_cells row).

Lemma referenced_rows r id :
  id ∈ referenced_links r ↔ ∃ row, row ∈ rp_screen r ++ (snd <$> rp_scrollback r) ∧ id ∈ row_ids row.
Proof.
  unfold referenced_links. rewrite elem_of_list_to_set, list_elem_of_filter, list_elem_of_bind.
  split.
  - intros [Hn (row & Hid & Hrow)]. exists row. split; [done|]. by apply list_elem_of_filter.
  - intros (row & Hrow & Hid). apply list_elem_of_filter in Hid as [Hn Hid]. split; [done|]. by exists row.
Qed.

Definition row_linked (t : LinkTable) (row : RowData) : Prop := ∀ id, id ∈ row_ids row → is_Some (lt_uris t !! id).

Lemma row_linked_sub t t' row : lt_uris t ⊆ lt_uris t' → row_linked t row → row_linked t' row.
Proof. intros Hs Hr id Hid. destruct (Hr id Hid) as [u Hu]. exists u. by eapply lookup_weaken. Qed.

(** [cells_in t cs]: every link of the cells is in the table. *)
Definition cell_linked (t : LinkTable) (c : Cell) : Prop :=
  cell_hyperlink_id c = 0 ∨ is_Some (lt_uris t !! cell_hyperlink_id c).

Lemma row_linked_cells t wrapped cells : Forall (cell_linked t) cells → row_linked t (mk_RowData wrapped cells).
Proof.
  intros Hc id Hid. unfold row_ids in Hid. cbn in Hid. apply list_elem_of_filter in Hid as [Hn Hid].
  apply list_elem_of_fmap in Hid as (c & -> & Hin). rewrite Forall_forall in Hc. by destruct (Hc c Hin).
Qed.

Lemma read_cell_grown c t :
  cell_answers c → links_ok t → lt_next t + 1 <= u32_max →
  grown 1 t (read_cell c t).2 ∧ cell_linked (read_cell c t).2 (read_cell c t).1.
Proof.
  intros Hc Ho Hn. assert (grown 1 t t) as Hg by (apply (grown_weaken 0); [lia|by apply grown_refl]).
  unfold read_cell, cell_linked. destruct (ce_uri c) as [[|b u]|] eqn:E; [by auto| |by auto].
  destruct (utf8_valid (b :: u)) eqn:Eu; [|by auto].
  pose proof (intern_spec (b :: u) t Ho Hn Eu (ca_uri _ Hc _ E)) as Hi.
  destruct (intern (b :: u) t) as [t' id]. cbn. destruct Hi as [Hi [->|Hid]]; [by auto|].
  split; [done|]. right. by eexists.
Qed.

Lemma read_cells_grown cs t :
  Forall cell_answers cs → links_ok t → lt_next t + zlen cs <= u32_max →
  grown (zlen cs) t (read_cells cs t).2 ∧ Forall (cell_linked (read_cells cs t).2) (read_cells cs t).1 ∧
  zlen (read_cells cs t).1 = zlen cs.
Proof.
  intros Hcs. revert t. induction Hcs as [|c cs Hc Hcs IH]; intros t Ho Hn; cbn.
  { split; [by apply grown_refl|by split]. }
  rewrite zlen_cons in Hn |- *. pose proof (zlen_nonneg cs).
  destruct (read_cell_grown c t Hc Ho ltac:(lia)) as [Hg Hl].
  destruct (read_cell c t) as [cell t1]. cbn in *. pose proof (gr_next _ _ _ Hg).
  destruct (IH t1 (gr_ok _ _ _ Hg) ltac:(lia)) as (Hg' & Hls & Hz).
  destruct (read_cells cs t1) as [cells t2]. cbn in *. split_and!.
  - by eapply grown_trans.
  - constructor; [|done]. destruct Hl as [Hl|[u Hu]]; [by left|]. right. exists u.
    by eapply lookup_weaken, (gr_sub _ _ _ Hg').
  - rewrite zlen_cons. lia.
Qed.

(** The cells of some rows. *)
Definition cell_count (rows : list RawRow) : Z := sum_Z ((λ r, zlen (rr_cells r)) <$> rows).

Lemma cell_count_nonneg rows : 0 <= cell_count rows.
Proof.
  unfold cell_count, sum_Z. induction rows as [|r rows IH]; cbn; [lia|].
  pose proof (zlen_nonneg (rr_cells r)). lia.
Qed.

Lemma cell_count_app l k : cell_count (l ++ k) = cell_count l + cell_count k.
Proof. unfold cell_count, sum_Z. rewrite fmap_app. induction l as [|r l IH]; cbn in *; lia. Qed.

Lemma cell_count_drop n rows : cell_count (drop n rows) <= cell_count rows.
Proof.
  rewrite <- (take_drop n rows) at 2. rewrite cell_count_app. pose proof (cell_count_nonneg (take n rows)). lia.
Qed.

Lemma read_rows_grown cols rows t :
  Forall (row_answers cols) rows → links_ok t → lt_next t + cell_count rows <= u32_max →
  grown (cell_count rows) t (read_rows rows t).2 ∧
  Forall (λ row, row_linked (read_rows rows t).2 row ∧ zlen (row_cells row) = cols) (read_rows rows t).1 ∧
  length (read_rows rows t).1 = length rows.
Proof.
  intros Hrs. revert t. induction Hrs as [|r rows Hr Hrs IH]; intros t Ho Hn; cbn.
  { split; [by apply grown_refl|by split]. }
  change (cell_count (r :: rows)) with (zlen (rr_cells r) + cell_count rows) in Hn |- *.
  pose proof (cell_count_nonneg rows). unfold read_row.
  destruct (read_cells_grown (rr_cells r) t (ra_cells _ _ Hr) Ho ltac:(lia)) as (Hg & Hl & Hz).
  destruct (read_cells (rr_cells r) t) as [cells t1]. cbn in *. pose proof (gr_next _ _ _ Hg).
  destruct (IH t1 (gr_ok _ _ _ Hg) ltac:(lia)) as (Hg' & Hls & Hlen).
  destruct (read_rows rows t1) as [rest t2]. cbn in *. split_and!.
  - by eapply grown_trans.
  - constructor; [|done]. cbn. split; [|rewrite Hz; apply (ra_width _ _ Hr)].
    apply (row_linked_sub t1); [apply (gr_sub _ _ _ Hg')|]. by apply row_linked_cells.
  - by rewrite Hlen.
Qed.

(** ** Cells and rows are values of the wire format *)

Definition CELL_MAX : Z := 60.
Definition ROW_MAX : Z := 5 + CELL_MAX * MAX_COLS.

Lemma grapheme_loop_ok cps cs :
  Forall (λ c, is_char c = true) cs → zlen (concat cs) <= GRAPHEME_EXTRA_MAX →
  utf8_valid (grapheme_loop cps (concat cs)) = true ∧ zlen (grapheme_loop cps (concat cs)) <= GRAPHEME_EXTRA_MAX.
Proof.
  revert cs. induction cps as [|cp cps IH]; intros cs Hcs Hl; cbn [grapheme_loop].
  { split; [by apply valid_chars|done]. }
  destruct (char_from_u32 cp) as [ch|] eqn:E; [|by apply IH].
  destruct (_ <? _) eqn:El; [split; [by apply valid_chars|done]|].
  destruct (utf8_char_ok _ _ E) as [Hc Hz].
  replace (concat cs ++ utf8_char ch) with (concat (cs ++ [utf8_char ch]))
    by (rewrite concat_app; cbn; by rewrite app_nil_r).
  apply IH; [apply Forall_app; split; [done|by constructor]|].
  rewrite concat_app, zlen_app. cbn. rewrite app_nil_r. lia.
Qed.

(** Words of eleven bits. *)
Lemma set_attr_range b bit a : 0 <= a < 2 ^ 11 → 0 <= bit < 11 → 0 <= set_attr b bit a < 2 ^ 11.
Proof.
  intros Ha Hb. unfold set_attr. destruct b; [|done]. rewrite Z.shiftl_1_l.
  assert (0 <= Z.lor a (2 ^ bit)) by (apply Z.lor_nonneg; split; [lia|apply Z.pow_nonneg; lia]).
  split; [done|]. apply Z.log2_lt_cancel. rewrite Z.log2_lor, Z.log2_pow2 by (try apply Z.pow_nonneg; lia).
  change (Z.log2 (2 ^ 11)) with 11. apply Z.max_lub_lt; [|lia].
  destruct (decide (a = 0)) as [->|]; [done|]. apply Z.log2_lt_pow2; lia.
Qed.

Lemma read_attrs_range st : 0 <= read_attrs st < 2 ^ 11.
Proof.
  unfold read_attrs. set (a := set_attr (st_italic st) 2 _).
  assert (0 <= a < 2 ^ 11) as Ha by (repeat (apply set_attr_range; [|lia]); lia).
  do 5 (apply set_attr_range; [|lia]).
  pose proof (set_attr_range true 4 a Ha ltac:(lia)). pose proof (set_attr_range true 5 a Ha ltac:(lia)).
  pose proof (set_attr_range true 3 a Ha ltac:(lia)). unfold set_attr in *. by repeat case_match.
Qed.

Lemma low_bits a : 0 <= a < 2 ^ 11 → Z.land a (Z.lnot (Z.shiftl 1 11 - 1)) = 0.
Proof.
  intros Ha. change (Z.shiftl 1 11 - 1) with (Z.ones 11). rewrite <- Z.ldiff_land.
  apply Z.ldiff_ones_r_low; [lia|]. destruct (decide (a = 0)) as [->|]; [done|]. apply Z.log2_lt_pow2; lia.
Qed.

Lemma color_ok s :
  0 <= sc_palette s <= 255 ∧ rgb_ok (sc_rgb s) → wf c_Color (color s) = true ∧ zlen (enc c_Color (color s)) <= 4.
Proof.
  intros [Hp (H1 & H2 & H3)]. unfold color. destruct (sc_rgb s) as [[r g] b]. cbn in *.
  destruct (_ =? _); [|destruct (_ =? _); [|done]]; cbn; unfold is_u8, in_range, u8_max; (split; [lia|done]).
Qed.

Definition row_good (cols : Z) (row : RowData) : Prop :=
  zlen (row_cells row) = cols ∧ wf c_RowData row = true ∧ zlen (enc c_RowData row) <= 5 + CELL_MAX * cols.

Definition cell_good (c : Cell) : Prop := wf c_Cell c = true ∧ zlen (enc c_Cell c) <= CELL_MAX.

Lemma read_cell_good c t :
  cell_answers c → links_ok t → lt_next t + 1 <= u32_max → cell_good (read_cell c t).1.
Proof.
  intros Hc Ho Hn. destruct (read_cell_grown c t Hc Ho Hn) as [Hg Hl].
  assert (0 <= cell_hyperlink_id (read_cell c t).1 <= u32_max) as Hid.
  { pose proof (gr_next _ _ _ Hg). destruct Hl as [->|[u Hu]]; [by vm_compute|].
    apply (lo_ids _ (gr_ok _ _ _ Hg)) in Hu. lia. }
  clear Hg Hl Ho Hn. unfold read_cell in *.
  destruct (match ce_uri c with Some (b :: u) => _ | _ => _ end) as [t' id]. cbn [fst snd cell_hyperlink_id] in *.
  match goal with |- cell_good (mk_Cell ?a ?b ?c _ _ _ _ _) => set (cp := a); set (extra := b); set (width := c) end.
  destruct (ca_buffer _ Hc) as [Hlen Hcps].
  assert (0 <= cp <= u32_max) as Hcp.
  { subst cp. destruct (0 <? _); [|by vm_compute]. destruct ((ce_graphemes c).2 !! 0%nat) eqn:E; [|by vm_compute].
    cbn. rewrite Forall_forall in Hcps. by apply Hcps, (list_elem_of_lookup_2 _ 0). }
  assert (match extra with Some s => s ≠ [] ∧ utf8_valid s = true ∧ zlen s <= 32 | None => True end) as He.
  { subst extra. destruct (1 <? _); [|done].
    destruct (grapheme_loop_ok (drop 1 (take (Z.to_nat (match (ce_graphemes c).1 with Some n => n | None => 64 end))
      (ce_graphemes c).2)) [] ltac:(constructor) ltac:(by vm_compute)) as [Hv Hz].
    cbn [concat] in Hv, Hz. by destruct (grapheme_loop _ []). }
  assert (0 <= width <= 2) as Hw by (subst width; repeat case_match; lia).
  pose proof (ca_colors _ Hc) as Hcol. rewrite !Forall_cons in Hcol. destruct Hcol as (Hf & Hb & Hu & _).
  apply color_ok in Hf as [Hf1 Hf2], Hb as [Hb1 Hb2], Hu as [Hu1 Hu2].
  pose proof (read_attrs_range (ce_style c)) as Ha. pose proof (low_bits _ Ha) as Hlow.
  split.
  - unfold c_Cell at 1. cbn [wf cell_codepoint cell_grapheme_extra cell_width cell_fg cell_bg cell_underline_color
      cell_attrs cell_hyperlink_id]. rewrite Hf1, Hb1, Hu1.
    unfold Cell_check, ATTR_MASK. cbn [cell_width cell_attrs cell_grapheme_extra]. rewrite Hlow.
    replace (2 <? width) with false by lia.
    assert (wf (c_option c_string) extra = true ∧ (match extra with Some [] => true | _ => false end) = false) as [-> ->].
    { destruct extra as [[|x s]|]; [by destruct He| |done]. split; [|done]. destruct He as (_ & Hv & Hz).
      cbn [wf c_option c_string]. rewrite Hv. unfold fits_u32, u32_max. lia. }
    cbn -[is_u32 is_u8 is_u16]. unfold is_u32, is_u8, is_u16, in_range, u8_max, u16_max. lia.
  - unfold c_Cell, CELL_MAX. cbn [enc cell_codepoint cell_grapheme_extra cell_width cell_fg cell_bg cell_underline_color
      cell_attrs cell_hyperlink_id]. rewrite !zlen_app.
    assert (zlen (enc (c_option c_string) extra) <= 37) as Hex.
    { destruct extra as [s|]; [|done]. destruct He as (_ & _ & Hz). cbn [enc c_option c_string].
      unfold put_len_prefixed. rewrite !zlen_app. change (zlen (put_u8 1)) with 1.
      change (zlen (put_u32 (zlen s))) with 4. lia. }
    change (zlen (enc c_u32 cp)) with 4. change (zlen (enc c_u8 width)) with 1.
    change (zlen (enc c_u16 (read_attrs (ce_style c)))) with 2. change (zlen (enc c_u32 id)) with 4. lia.
Qed.

Lemma read_cells_good cs t :
  Forall cell_answers cs → links_ok t → lt_next t + zlen cs <= u32_max → Forall cell_good (read_cells cs t).1.
Proof.
  intros Hcs. revert t. induction Hcs as [|c cs Hc Hcs IH]; intros t Ho Hn; cbn; [constructor|].
  rewrite zlen_cons in Hn. pose proof (zlen_nonneg cs).
  destruct (read_cell_grown c t Hc Ho ltac:(lia)) as [Hg _].
  pose proof (read_cell_good c t Hc Ho ltac:(lia)) as Hgood.
  destruct (read_cell c t) as [cell t1]. cbn in *. pose proof (gr_next _ _ _ Hg).
  specialize (IH t1 (gr_ok _ _ _ Hg) ltac:(lia)). destruct (read_cells cs t1). cbn. by constructor.
Qed.

Lemma cells_good_row wrapped cells : Forall cell_good cells → zlen cells <= u32_max → row_good (zlen cells) (mk_RowData wrapped cells).
Proof.
  intros Hc Hl. split; [done|]. split.
  - cbn [wf c_RowData c_vec row_cells]. unfold fits_u32. cbn [wf c_bool]. cbn [andb].
    apply andb_true_iff. split; [lia|]. apply forallb_forall. intros x Hx%list_elem_of_In.
    rewrite Forall_forall in Hc. by apply Hc.
  - cbn [enc c_RowData c_vec row_cells row_wrapped c_bool]. rewrite !zlen_app.
    change (zlen (put_bool wrapped)) with 1. change (zlen (put_u32 (zlen cells))) with 4. clear Hl.
    assert (zlen (concat (enc c_Cell <$> cells)) <= CELL_MAX * zlen cells); [|lia].
    induction Hc as [|x cells [_ Hx] _ IH]; [done|].
    change (concat (enc c_Cell <$> x :: cells)) with (enc c_Cell x ++ concat (enc c_Cell <$> cells)).
    rewrite zlen_app, zlen_cons. lia.
Qed.

Lemma read_rows_good cols rows t :
  Forall (row_answers cols) rows → links_ok t → lt_next t + cell_count rows <= u32_max → cols <= MAX_COLS →
  Forall (row_good cols) (read_rows rows t).1.
Proof.
  intros Hrs. revert t. induction Hrs as [|r rows Hr Hrs IH]; intros t Ho Hn Hcols; cbn; [constructor|].
  change (cell_count (r :: rows)) with (zlen (rr_cells r) + cell_count rows) in Hn.
  pose proof (cell_count_nonneg rows). unfold read_row.
  destruct (read_cells_grown (rr_cells r) t (ra_cells _ _ Hr) Ho ltac:(lia)) as (Hg & _ & Hz).
  pose proof (read_cells_good (rr_cells r) t (ra_cells _ _ Hr) Ho ltac:(lia)) as Hgood.
  destruct (read_cells (rr_cells r) t) as [cells t1]. cbn in *. pose proof (gr_next _ _ _ Hg).
  specialize (IH t1 (gr_ok _ _ _ Hg) ltac:(lia) Hcols). destruct (read_rows rows t1). cbn. constructor; [|done].
  rewrite <- (ra_width _ _ Hr), <- Hz. apply cells_good_row; [done|].
  rewrite Hz, (ra_width _ _ Hr). unfold MAX_COLS, u32_max in *. lia.
Qed.

(** ** The scrollback of the state *)

Abbreviation sb t := (rp_scrollback (ht_replica t)).

(** Line ids are consecutive and end below the next one; the recorded sizes are
    those of the rows. *)
Record scroll_ok (cols : Z) (t : HostTerminal) : Prop := {
  so_ids : (sb t).*1 = seqZ (ht_next_line_id t - zlen (sb t)) (zlen (sb t));
  so_pos : 1 <= ht_next_line_id t - zlen (sb t);
  so_bytes : ht_row_bytes t = row_len <$> (sb t).*2;
  so_total : ht_scrollback_bytes t = sum_Z (ht_row_bytes t);
  so_rows : Forall (row_good cols) (sb t).*2;
}.

Lemma sum_app l k : sum_Z (l ++ k) = sum_Z l + sum_Z k.
Proof. unfold sum_Z. induction l as [|x l IH]; cbn; lia. Qed.

Lemma sum_rows_bound cols rows :
  cols <= MAX_COLS → Forall (row_good cols) rows →
  0 <= sum_Z (row_len <$> rows) <= zlen rows * (ROW_MAX + 8).
Proof.
  intros Hc. induction 1 as [|r rows (_ & _ & Hr) _ IH]; [done|]. rewrite zlen_cons.
  change (sum_Z (row_len <$> r :: rows)) with (row_len r + sum_Z (row_len <$> rows)).
  unfold row_len at 1 3. pose proof (zlen_nonneg (enc c_RowData r)). unfold ROW_MAX, CELL_MAX, MAX_COLS in *. lia.
Qed.

Lemma number_rows_ids next rows :
  0 <= next → next + zlen rows <= u64_max → (number_rows next rows).*1 = seqZ next (zlen rows).
Proof.
  revert next. induction rows as [|r rows IH]; intros next Hn Hb; [done|].
  rewrite zlen_cons in *. pose proof (zlen_nonneg rows). cbn [number_rows]. rewrite add64_id by lia.
  rewrite fmap_cons, seqZ_cons, IH by lia. cbn [fst]. f_equal. by replace (Z.pred (1 + zlen rows)) with (zlen rows) by lia.
Qed.

Lemma number_rows_rows next rows : (number_rows next rows).*2 = rows.
Proof. revert next. induction rows as [|r rows IH]; intros next; [done|]. cbn. f_equal. apply IH. Qed.

Lemma number_rows_len next rows : zlen (number_rows next rows) = zlen rows.
Proof. unfold zlen. f_equal. rewrite <- (number_rows_rows next rows) at 2. by rewrite length_fmap. Qed.

(** Pushing rows: the state is the old one with rows, sizes and ids appended. *)
Lemma push_back_rows_eq cols rows t :
  scroll_ok cols t → Forall (row_good cols) rows → cols <= MAX_COLS →
  ht_next_line_id t + zlen rows <= u64_max → zlen (sb t) + zlen rows <= 2 * u32_max →
  push_back_rows rows t =
    mk_HostTerminal (ht_engine t) (with_scrollback (sb t ++ number_rows (ht_next_line_id t) rows) (ht_replica t))
      (ht_links t) (ht_next_line_id t + zlen rows) (ht_next_event_id t) (ht_row_bytes t ++ (row_len <$> rows))
      (ht_scrollback_bytes t + sum_Z (row_len <$> rows)) (ht_trimmed t) ∧
  scroll_ok cols (push_back_rows rows t).
Proof.
  intros Hs Hrows Hc. revert t Hs. induction Hrows as [|r rows Hr Hrows IH]; intros t Hs Hn Hz.
  { split; [|done]. cbn [push_back_rows foldl number_rows]. rewrite zlen_nil.
    change (sum_Z (row_len <$> [])) with 0. cbn [fmap list_fmap]. rewrite !app_nil_r, !Z.add_0_r. by destruct t as [? []]. }
  rewrite zlen_cons in Hn, Hz. pose proof (zlen_nonneg rows). pose proof (zlen_nonneg (sb t)).
  pose proof (sum_rows_bound cols (sb t).*2 Hc (so_rows _ _ Hs)) as Hsum. rewrite <- (so_bytes _ _ Hs), <- (so_total _ _ Hs) in Hsum.
  pose proof (sum_rows_bound cols [r] Hc ltac:(by constructor)) as Hr1. change (sum_Z (row_len <$> [r])) with (row_len r + 0) in Hr1.
  assert (zlen (sb t).*2 = zlen (sb t)) as Hl2 by (unfold zlen; by rewrite length_fmap).
  rewrite Hl2 in Hsum. change (zlen [r]) with 1 in Hr1. pose proof (so_pos _ _ Hs).
  set (t1 := push_back_row r t).
  assert (t1 = mk_HostTerminal (ht_engine t) (with_scrollback (sb t ++ [(ht_next_line_id t, r)]) (ht_replica t))
    (ht_links t) (ht_next_line_id t + 1) (ht_next_event_id t) (ht_row_bytes t ++ [row_len r])
    (ht_scrollback_bytes t + row_len r) (ht_trimmed t)) as E1.
  { unfold t1, push_back_row. rewrite !add64_id; [done| |lia]. unfold ROW_MAX, CELL_MAX, MAX_COLS, u32_max, u64_max in *. lia. }
  assert (scroll_ok cols t1) as Hs1.
  { rewrite E1. split; cbn [ht_replica with_scrollback rp_scrollback ht_next_line_id ht_row_bytes ht_scrollback_bytes];
      rewrite ?zlen_app, ?fmap_app; change (zlen [(ht_next_line_id t, r)]) with 1; cbn [fmap list_fmap fst snd].
    - rewrite (so_ids _ _ Hs), seqZ_app by lia.
      replace (ht_next_line_id t + 1 - (zlen (sb t) + 1)) with (ht_next_line_id t - zlen (sb t)) by lia. f_equal.
      rewrite (seqZ_cons _ 1) by lia. cbn. f_equal. lia.
    - lia.
    - by rewrite (so_bytes _ _ Hs).
    - rewrite sum_app, (so_total _ _ Hs). cbn. lia.
    - apply Forall_app. split; [apply (so_rows _ _ Hs)|by constructor]. }
  change (push_back_rows (r :: rows) t) with (push_back_rows rows t1).
  assert (zlen (sb t1) = zlen (sb t) + 1) as Hz1 by (rewrite E1; cbn; by rewrite zlen_app).
  assert (ht_next_line_id t1 = ht_next_line_id t + 1) as Hn1 by (by rewrite E1).
  destruct (IH t1 Hs1 ltac:(lia) ltac:(lia)) as [-> Hok]. split; [|done].
  rewrite E1. cbn [ht_engine ht_replica with_scrollback rp_scrollback ht_links ht_next_line_id ht_next_event_id ht_row_bytes
    ht_scrollback_bytes ht_trimmed number_rows]. rewrite zlen_cons, add64_id, <- !app_assoc by lia.
  change (sum_Z (row_len <$> r :: rows)) with (row_len r + sum_Z (row_len <$> rows)).
  cbn [app fmap list_fmap]. f_equal; lia.
Qed.

(** Popping rows. *)
Lemma pop_rows_eq cols n t :
  scroll_ok cols t → cols <= MAX_COLS → (n <= length (sb t))%nat → zlen (sb t) <= 2 * u32_max →
  Nat.iter n pop_front_row t =
    mk_HostTerminal (ht_engine t) (with_scrollback (drop n (sb t)) (ht_replica t)) (ht_links t)
      (ht_next_line_id t) (ht_next_event_id t) (drop n (ht_row_bytes t))
      (sum_Z (drop n (ht_row_bytes t))) (ht_trimmed t) ∧
  scroll_ok cols (Nat.iter n pop_front_row t).
Proof.
  intros Hs Hc. induction n as [|n IH]; intros Hn Hz.
  { split; [|done]. cbn. rewrite !drop_0, <- (so_total _ _ Hs). by destruct t as [? []]. }
  destruct (IH ltac:(lia) Hz) as [E Hok]. change (Nat.iter (S n) pop_front_row t) with (pop_front_row (Nat.iter n pop_front_row t)).
  set (t1 := Nat.iter n pop_front_row t) in *.
  assert (length (ht_row_bytes t) = length (sb t)) as Hlb by (rewrite (so_bytes _ _ Hs), !length_fmap; done).
  destruct (drop n (ht_row_bytes t)) as [|b bs] eqn:Eb; [apply (f_equal length) in Eb; rewrite length_drop in Eb; cbn in Eb; lia|].
  destruct (drop n (sb t)) as [|[i row] rest] eqn:Er; [apply (f_equal length) in Er; rewrite length_drop in Er; cbn in Er; lia|].
  assert (drop (S n) (ht_row_bytes t) = bs) as Eb' by (by rewrite <- (Nat.add_1_r n), <- drop_drop, Eb).
  assert (drop (S n) (sb t) = rest) as Er' by (by rewrite <- (Nat.add_1_r n), <- drop_drop, Er).
  assert (sb t1 = (i, row) :: rest) as Esb by (by rewrite E).
  pose proof (sum_rows_bound cols (sb t1).*2 Hc (so_rows _ _ Hok)) as Hsum.
  pose proof (so_rows _ _ Hok) as Hgood. rewrite Esb, fmap_cons in Hgood. apply Forall_cons in Hgood as [Hg1 Hgood].
  pose proof (sum_rows_bound cols rest.*2 Hc Hgood) as Hsum'.
  pose proof (so_bytes _ _ Hok) as Hb1. rewrite Esb, E, !fmap_cons in Hb1. cbn [ht_row_bytes snd] in Hb1.
  injection Hb1 as Hb1 Hbs1.
  assert (pop_front_row t1 = mk_HostTerminal (ht_engine t) (with_scrollback rest (ht_replica t)) (ht_links t)
    (ht_next_line_id t) (ht_next_event_id t) bs (sum_Z bs) (ht_trimmed t)) as E1.
  { rewrite E. unfold pop_front_row. cbn [ht_row_bytes ht_replica with_scrollback rp_scrollback tail ht_scrollback_bytes
      ht_engine ht_links ht_next_line_id ht_next_event_id ht_trimmed]. f_equal.
    change (sum_Z (b :: bs)) with (b + sum_Z bs). rewrite sub64_id; [lia|].
    replace (b + sum_Z bs - b) with (sum_Z bs) by lia.
    assert (zlen rest.*2 <= 2 * u32_max).
    { unfold zlen in *. rewrite length_fmap. apply (f_equal length) in Er'. rewrite length_drop in Er'. lia. }
    rewrite Hbs1. unfold ROW_MAX, CELL_MAX, MAX_COLS, u32_max, u64_max in *. lia. }
  rewrite Eb', Er'. split; [done|]. rewrite E1.
  pose proof (so_ids _ _ Hok) as Hids. pose proof (so_pos _ _ Hok) as Hpos.
  rewrite Esb in Hids, Hpos. rewrite E in Hids, Hpos. cbn [ht_next_line_id] in Hids, Hpos. rewrite zlen_cons in *.
  pose proof (zlen_nonneg rest).
  split; cbn [ht_replica with_scrollback rp_scrollback ht_next_line_id ht_row_bytes ht_scrollback_bytes]; try done.
  - rewrite fmap_cons, seqZ_cons in Hids by lia. injection Hids as _ Hids. rewrite Hids. f_equal; lia.
  - lia.
Qed.

(** ** What is read of the screen is of the wire format *)

Lemma modes_ok v : wf c_Modes (modes v) = true.
Proof.
  assert (0 <= modes_flags (modes v) < 2 ^ 11) as Hf.
  { unfold modes. cbn [modes_flags].
    assert (∀ f (l : list (Z * Z)), Forall (λ p, 0 <= p.2 < 11) l → 0 <= f < 2 ^ 11 →
      0 <= foldl (λ flags p, if mode v p.1 then Z.lor flags (Z.shiftl 1 p.2) else flags) f l < 2 ^ 11) as Hl.
    { intros f l Hl. revert f. induction Hl as [|p l Hp _ IH]; intros f Hf; [done|]. cbn [foldl]. apply IH.
      pose proof (set_attr_range (mode v p.1) p.2 f Hf Hp). unfold set_attr in *. by destruct (mode v p.1). }
    specialize (Hl 0 mode_bits ltac:(by repeat constructor) ltac:(lia)).
    pose proof (set_attr_range (vt_screen v =? 1) 0 _ Hl ltac:(lia)) as H. unfold set_attr in H.
    rewrite Z.shiftl_1_l in H. exact H. }
  pose proof (low_bits _ Hf) as Hlow. cbn [wf c_Modes]. unfold Modes_check, MODE_FLAG_MASK. rewrite Hlow.
  assert (is_u32 (modes_flags (modes v)) = true) as Hu by (unfold is_u32, in_range, u32_max; lia).
  change (wf c_u32 (modes_flags (modes v))) with (is_u32 (modes_flags (modes v))). rewrite Hu.
  destruct (modes_mouse_mode (modes v)), (modes_mouse_encoding (modes v)); done.
Qed.

Lemma rgb_wf v k d : (∀ k c, vt_color v k = Some c → rgb_ok c) → wf c_Color (rgb v k d) = true.
Proof.
  intros Hc. unfold rgb. destruct (vt_color v k) as [[[r g] b]|] eqn:E; [|done].
  destruct (Hc _ _ E) as (H1 & H2 & H3). cbn in *.
  assert (wf c_Color (Color_Rgb r g b) = true) as Hw by (cbn; unfold is_u8, in_range, u8_max; lia).
  destruct (vt_color v d); [|done]. by case_bool_decide.
Qed.

Lemma overrides_ok i cur def :
  Forall rgb_ok cur → 0 <= i → i + zlen cur <= 256 →
  forallb (wf (c_pair c_u8 (c_pair c_u8 (c_pair c_u8 c_u8)))) (palette_overrides_from i cur def) = true ∧
  strictly_ascending fst (palette_overrides_from i cur def) = Ok tt ∧
  Forall (λ p, i <= p.1) (palette_overrides_from i cur def) ∧
  zlen (palette_overrides_from i cur def) <= zlen cur.
Proof.
  intros Hc. revert i def. induction Hc as [|[[r g] b] cur (H1 & H2 & H3) Hc IH]; intros i def Hi Hb; [done|].
  rewrite zlen_cons in *. pose proof (zlen_nonneg cur). destruct def as [|d def]; [cbn; unfold zlen; cbn; split_and!; [done..|lia]|].
  destruct (IH (i + 1) def ltac:(lia) ltac:(lia)) as (Hw & Ha & Hf & Hz). cbn [palette_overrides_from].
  assert (Forall (λ p, i <= p.1) (palette_overrides_from (i + 1) cur def)) as Hf'
    by (eapply Forall_impl; [exact Hf|]; cbn; lia).
  case_bool_decide; cbn [app]; [split_and!; [done..|lia]|]. split_and!.
  - cbn [forallb]. rewrite Hw. cbn in *. unfold is_u8, in_range, u8_max. lia.
  - destruct (palette_overrides_from (i + 1) cur def) as [|[j x] l]; [done|]. cbn [strictly_ascending fst].
    apply Forall_cons in Hf as [Hj _]. cbn in Hj. by replace (j <=? i) with false by lia.
  - constructor; [cbn; lia|done].
  - rewrite zlen_cons. lia.
Qed.

Lemma palette_ok v : vt_answers v → wf c_Palette (palette v) = true.
Proof.
  intros Hv. destruct (va_palette _ Hv) as (Hl & _ & Hp). pose proof (va_colors _ Hv) as Hc.
  destruct (overrides_ok 0 (vt_palette v) (vt_palette_default v) Hp ltac:(lia)) as (Hw & Ha & _ & Hz);
    [unfold zlen; lia|].
  unfold palette. cbn [wf c_Palette palette_default_fg palette_default_bg palette_cursor_color palette_overrides].
  unfold Palette_check. cbn [palette_overrides]. rewrite Ha, !rgb_wf by done.
  assert (wf (c_vec (c_pair c_u8 (c_pair c_u8 (c_pair c_u8 c_u8))))
    (palette_overrides_from 0 (vt_palette v) (vt_palette_default v)) = true) as ->.
  { change (fits_u32 (palette_overrides_from 0 (vt_palette v) (vt_palette_default v)) &&
      forallb (wf (c_pair c_u8 (c_pair c_u8 (c_pair c_u8 c_u8)))) (palette_overrides_from 0 (vt_palette v) (vt_palette_default v)) = true).
    rewrite Hw. unfold fits_u32, u32_max. unfold zlen in *. rewrite Hl in Hz. lia. }
  pose proof (rgb_wf v DATA_COLOR_CURSOR DATA_COLOR_CURSOR_DEFAULT Hc) as Hcur.
  destruct (rgb v DATA_COLOR_CURSOR DATA_COLOR_CURSOR_DEFAULT); cbn in *; rewrite ?Hcur; done.
Qed.

Lemma cursor_ok v cols rows :
  vt_answers v → 0 <= cols <= u16_max → 0 <= rows <= u16_max → wf c_Cursor (cursor cols rows v) = true.
Proof.
  intros Hv Hc Hr. destruct (va_cursor _ Hv). unfold cursor.
  set (st := match default 1 (vt_cursor_style v) with 0 => _ | 2 => _ | _ => _ end).
  cbn [wf c_Cursor cursor_row cursor_col cursor_style cursor_blinking cursor_visible]. 
  change (is_u16 (Z.min (vt_cursor_y v) (sat_sub rows 1)) && is_u16 (Z.min (vt_cursor_x v) (sat_sub cols 1)) &&
    wf c_CursorStyle st && true && true = true).
  assert (wf c_CursorStyle st = true) as -> by (by destruct st). unfold is_u16, in_range, sat_sub. lia.
Qed.

Lemma title_ok v : utf8_valid (title v) = true ∧ zlen (title v) <= TITLE_MAX.
Proof. unfold title. destruct (vt_title v); [by apply cut_lossy_ok|done]. Qed.

(** ** The invariant *)

Record term_inv (t : HostTerminal) : Prop := {
  ti_vt : vt_answers (ve_vt (ht_engine t));
  ti_armed : ve_sb_rows (ht_engine t) = zlen (vt_history (ve_vt (ht_engine t))) ∧
    ve_cols (ht_engine t) = vt_cols (ve_vt (ht_engine t)) ∧ ve_rows (ht_engine t) = vt_rows (ve_vt (ht_engine t));
  ti_size : rp_cols (ht_replica t) = ve_cols (ht_engine t) ∧ rp_rows (ht_replica t) = ve_rows (ht_engine t) ∧
    zlen (rp_screen (ht_replica t)) = rp_rows (ht_replica t);
  ti_screen : Forall (row_good (rp_cols (ht_replica t))) (rp_screen (ht_replica t));
  ti_misc : wf c_Cursor (rp_cursor (ht_replica t)) = true ∧ wf c_Modes (rp_modes (ht_replica t)) = true ∧
    wf c_Palette (rp_palette (ht_replica t)) = true ∧ utf8_valid (rp_title (ht_replica t)) = true ∧
    zlen (rp_title (ht_replica t)) <= TITLE_MAX;
  ti_exit : wf (c_option c_ExitInfo) (rp_exit_info (ht_replica t)) = true;
  ti_scroll : scroll_ok (rp_cols (ht_replica t)) t;
  ti_count : zlen (sb t) + ht_trimmed t = ve_sb_rows (ht_engine t) ∧ 0 <= ht_trimmed t;
  ti_links : links_ok (ht_links t) ∧ rp_hyperlinks (ht_replica t) = lt_uris (ht_links t);
  ti_refs : referenced_links (ht_replica t) ⊆ dom (lt_uris (ht_links t));
}.

(** Every link of the state is referenced. *)
Definition clean (t : HostTerminal) : Prop :=
  dom (rp_hyperlinks (ht_replica t)) = referenced_links (ht_replica t).

(** An engine that was just armed. *)
Definition armed (e : VtEngine) : Prop :=
  vt_answers (ve_vt e) ∧ ve_sb_rows e = zlen (vt_history (ve_vt e)) ∧ ve_cols e = vt_cols (ve_vt e) ∧
  ve_rows e = vt_rows (ve_vt e).

Lemma arm_armed xxh v fx e : vt_answers v → arm xxh v fx = Some e → armed e ∧ ve_vt e = v ∧ ve_effects e = fx.
Proof.
  intros Hv. unfold arm. intros H. apply bind_Some in H as (a & _ & H). by simplify_eq/=.
Qed.

(** The anchor row always exists, so arming never fails. *)
Lemma arm_total xxh v fx : vt_answers v → ∃ e, arm xxh v fx = Some e.
Proof.
  intros Hv. unfold arm. destruct (zlen (vt_history v) =? 0) eqn:E; [by eexists|].
  pose proof (va_history _ Hv) as Hh. pose proof (zlen_nonneg (vt_history v)). unfold u32_max in Hh.
  rewrite Z.mod_small by lia.
  destruct (lookup_lt_is_Some_2 (vt_history v) (Z.to_nat (zlen (vt_history v) - 1))) as [row ->];
    [unfold zlen in *; lia|]. by eexists.
Qed.

Lemma observe_armed xxh tr v fx e e' step :
  vt_answers v → observe xxh tr v fx e = Some (e', step) → armed e' ∧ ve_vt e' = v ∧ ve_effects e' = fx.
Proof.
  intros Hv H. unfold observe in H. apply bind_Some in H as (s & _ & H). apply bind_Some in H as (e1 & H1 & H).
  simplify_eq. by eapply arm_armed.
Qed.

(** Rows that left or entered the history are counted, on a terminal of the same
    size. *)
Lemma observe_appended xxh tr v fx e e' ev ap :
  armed e → observe xxh tr v fx e = Some (e', Appended ev ap) → (∀ y, tr = Some y → 0 <= y) →
  0 <= ev ∧ 0 <= ap ∧ vt_cols v = ve_cols e ∧ vt_rows v = ve_rows e.
Proof.
  intros (Hv & Hsb & _) H Htr. unfold observe in H. apply bind_Some in H as (s & Hs & H).
  apply bind_Some in H as (e1 & _ & H). injection H as _ ->.
  destruct (negb (vt_cols v =? _) || _ || _) eqn:E; [done|]. bool_hyps.
  pose proof (zlen_nonneg (vt_history v)).
  destruct (ve_anchor e) as [a|].
  - destruct tr as [y|]; [|done]. specialize (Htr y eq_refl). destruct (_ || _) eqn:E2; [done|]. bool_hyps.
    case_match; [done|]. apply bind_Some in Hs as (row & _ & Hs). case_match; [done|]. simplify_eq. lia.
  - case_match; [|done]. simplify_eq. lia.
Qed.

(** ** Rebuilding *)

Lemma retain_dom s t : s ⊆ dom (lt_uris t) → dom (lt_uris (retain_referenced s t)) = s.
Proof.
  intros Hs. apply set_eq. intros id. rewrite elem_of_dom. cbn. split.
  - intros [u [_ Hb]%bt_retain_Some]. by bool_hyps.
  - intros Hid. destruct (elem_of_dom (lt_uris t) id) as [[u Hu] _]; [by apply Hs|]. exists u.
    apply bt_retain_Some. split; [done|]. by apply bool_decide_true.
Qed.

Lemma linked_refs r t :
  Forall (row_linked t) (rp_screen r) → Forall (row_linked t) (rp_scrollback r).*2 →
  referenced_links r ⊆ dom (lt_uris t).
Proof.
  intros H1 H2 id Hid. apply referenced_rows in Hid as (row & Hrow & Hid). apply elem_of_dom.
  assert (Forall (row_linked t) (rp_screen r ++ (snd <$> rp_scrollback r))) as Hall by (by apply Forall_app).
  rewrite Forall_forall in Hall. by apply (Hall row).
Qed.

Lemma refs_linked r t :
  referenced_links r ⊆ dom (lt_uris t) →
  Forall (row_linked t) (rp_screen r) ∧ Forall (row_linked t) (rp_scrollback r).*2.
Proof.
  intros H. apply Forall_app, Forall_forall. intros row Hrow id Hid. apply elem_of_dom, H, referenced_rows. by exists row.
Qed.

(** What [rebuild] needs of the state: with [scrollback] only the counters, without
    it the scrollback as well. *)
Record rebuild_pre (scrollback : bool) (t : HostTerminal) : Prop := {
  rb_armed : armed (ht_engine t);
  rb_links : links_ok (ht_links t);
  rb_room : lt_next (ht_links t) + cell_count (vt_active (ve_vt (ht_engine t)))
    + (if scrollback then cell_count (vt_history (ve_vt (ht_engine t))) else 0) <= u32_max;
  rb_exit : wf (c_option c_ExitInfo) (rp_exit_info (ht_replica t)) = true;
  rb_scroll : if scrollback
    then 1 <= ht_next_line_id t ∧ ht_next_line_id t + zlen (vt_history (ve_vt (ht_engine t))) <= u64_max
    else scroll_ok (ve_cols (ht_engine t)) t ∧ zlen (sb t) + ht_trimmed t = ve_sb_rows (ht_engine t) ∧
      0 <= ht_trimmed t ∧ Forall (row_linked (ht_links t)) (sb t).*2;
}.

(** The state after [rebuild]. *)
Record rebuilt (scrollback : bool) (t t' : HostTerminal) : Prop := {
  rd_inv : term_inv t';
  rd_clean : clean t';
  rd_engine : ht_engine t' = ht_engine t;
  rd_event : ht_next_event_id t' = ht_next_event_id t;
  rd_exit : rp_exit_info (ht_replica t') = rp_exit_info (ht_replica t);
  rd_next : ht_next_line_id t <= ht_next_line_id t' <= ht_next_line_id t + zlen (vt_history (ve_vt (ht_engine t)));
  rd_links : lt_next (ht_links t') <= lt_next (ht_links t) + cell_count (vt_active (ve_vt (ht_engine t)))
    + (if scrollback then cell_count (vt_history (ve_vt (ht_engine t))) else 0);
  rd_same : scrollback = false → sb t' = sb t ∧ ht_next_line_id t' = ht_next_line_id t;
}.

Lemma armed_parts e : armed e →
  Forall (row_answers (ve_cols e)) (vt_history (ve_vt e)) ∧ Forall (row_answers (ve_cols e)) (vt_active (ve_vt e)) ∧
  1 <= ve_cols e <= MAX_COLS ∧ 1 <= ve_rows e <= MAX_ROWS ∧ zlen (vt_active (ve_vt e)) = ve_rows e.
Proof.
  intros (Hv & _ & -> & ->). pose proof (va_cells _ Hv) as Hc. apply Forall_app in Hc as [Hh Ha].
  destruct (va_rows _ Hv). pose proof (va_cols _ Hv). done.
Qed.

(** The last part of [rebuild]: a screen read with the table [links], over a
    scrollback whose rows are linked. *)
Lemma rebuilt_inv t links screen :
  armed (ht_engine t) → links_ok links → wf (c_option c_ExitInfo) (rp_exit_info (ht_replica t)) = true →
  Forall (λ row, row_linked links row ∧ zlen (row_cells row) = ve_cols (ht_engine t)) screen →
  Forall (row_good (ve_cols (ht_engine t))) screen → zlen screen = ve_rows (ht_engine t) →
  scroll_ok (ve_cols (ht_engine t)) t → zlen (sb t) + ht_trimmed t = ve_sb_rows (ht_engine t) → 0 <= ht_trimmed t →
  Forall (row_linked links) (sb t).*2 →
  let e := ht_engine t in
  let r := mk_Replica (ve_cols e) (ve_rows e) screen (cursor (ve_cols e) (ve_rows e) (ve_vt e)) (modes (ve_vt e))
             (palette (ve_vt e)) (title (ve_vt e)) (rp_hyperlinks (ht_replica t)) (sb t) (rp_exit_info (ht_replica t)) in
  let links' := retain_referenced (referenced_links r) links in
  let t' := with_links links' (with_replica
    (mk_Replica (rp_cols r) (rp_rows r) (rp_screen r) (rp_cursor r) (rp_modes r) (rp_palette r)
       (rp_title r) (lt_uris links') (rp_scrollback r) (rp_exit_info r)) t) in
  term_inv t' ∧ clean t'.
Proof.
  intros Ha Hl Hex Hlk Hgood Hz Hs Hcount Htr Hsl e r links' t'.
  destruct (armed_parts _ Ha) as (_ & _ & Hcols & Hrows & _).
  assert (referenced_links r ⊆ dom (lt_uris links)) as Hrefs.
  { apply linked_refs; [|done]. eapply Forall_impl; [exact Hlk|]. by intros row [? _]. }
  assert (dom (lt_uris links') = referenced_links r) as Hdom by (by apply retain_dom).
  split; [|exact Hdom]. destruct Ha as (Hv & Hsb & Hc & Hr). split.
  - exact Hv.
  - done.
  - done.
  - exact Hgood.
  - cbn. split_and!; [|apply modes_ok|by apply palette_ok|apply title_ok|apply title_ok].
    apply cursor_ok; [done|unfold e, MAX_COLS, u16_max in *; lia|unfold e, MAX_ROWS, u16_max in *; lia].
  - exact Hex.
  - destruct Hs. by split.
  - done.
  - split; [by apply retain_ok|done].
  - change (referenced_links r ⊆ dom (lt_uris links')). by rewrite Hdom.
Qed.

Lemma rebuild_spec s t : rebuild_pre s t → rebuilt s t (rebuild s t).
Proof.
  intros [Ha Hl Hroom Hex Hs]. pose proof (armed_parts _ Ha) as (Hh & Hact & Hcols & Hrows & Hz).
  pose proof (cell_count_nonneg (vt_history (ve_vt (ht_engine t)))) as Hh0.
  assert (lt_next (ht_links t) + cell_count (vt_active (ve_vt (ht_engine t))) <= u32_max) as Hroom1 by (destruct s; lia).
  destruct (read_rows_grown _ _ _ Hact Hl Hroom1) as (Hg & Hlk & Hlen).
  pose proof (read_rows_good _ _ _ Hact Hl Hroom1 ltac:(lia)) as Hgood.
  unfold rebuild, read_screen. destruct (read_rows (vt_active (ve_vt (ht_engine t))) (ht_links t)) as [screen links1].
  cbn [fst snd] in *. pose proof (gr_next _ _ _ Hg) as Hn1. pose proof (gr_ok _ _ _ Hg) as Hl1.
  assert (zlen screen = ve_rows (ht_engine t)) as Hz1 by (unfold zlen in *; lia).
  destruct s.
  - (* the scrollback is read again *)
    destruct Hs as [Hp Hnx].
    destruct (read_rows_grown _ _ links1 Hh Hl1 ltac:(lia)) as (Hg2 & Hlk2 & Hlen2).
    pose proof (read_rows_good _ _ links1 Hh Hl1 ltac:(lia) ltac:(lia)) as Hgood2.
    unfold read_scrollback. cbn [ht_engine with_links ht_links]. rewrite drop_0.
    destruct (read_rows (vt_history (ve_vt (ht_engine t))) links1) as [rows links2]. cbn [fst snd] in *.
    pose proof (gr_next _ _ _ Hg2) as Hn2.
    assert (zlen rows = zlen (vt_history (ve_vt (ht_engine t)))) as Hzr by (unfold zlen; lia).
    set (t0 := mk_HostTerminal _ (with_scrollback [] _) links2 _ _ [] 0 0).
    pose proof (va_history _ (proj1 Ha)) as Hh32. pose proof (zlen_nonneg rows) as Hr0.
    assert (scroll_ok (ve_cols (ht_engine t)) t0) as Hs0 by (split; try done; cbn; unfold zlen; cbn; lia).
    destruct (push_back_rows_eq (ve_cols (ht_engine t)) rows t0 Hs0 Hgood2 ltac:(lia)) as [E Hs1];
      [change (ht_next_line_id t + zlen rows <= u64_max); lia|unfold t0; cbn [ht_replica with_scrollback rp_scrollback]; rewrite zlen_nil; unfold u32_max in *; lia|].
    assert (sb (push_back_rows rows t0) = number_rows (ht_next_line_id t) rows) as Esb by (by rewrite E).
    set (t1 := push_back_rows rows t0) in *.
    assert (ht_engine t1 = ht_engine t ∧ ht_links t1 = links2 ∧ ht_next_event_id t1 = ht_next_event_id t ∧
      ht_trimmed t1 = 0 ∧ ht_next_line_id t1 = ht_next_line_id t + zlen rows ∧
      rp_exit_info (ht_replica t1) = rp_exit_info (ht_replica t)) as (E1 & E2 & E3 & E4 & E5 & E6) by (by rewrite E).
    destruct (rebuilt_inv t1 links2 screen) as [Hi Hcl]; rewrite ?E1, ?E6; try done.
    + apply (gr_ok _ _ _ Hg2).
    + eapply Forall_impl; [exact Hlk|]. intros row [? ?]. split; [|done]. eapply row_linked_sub; [apply (gr_sub _ _ _ Hg2)|done].
    + rewrite Esb, number_rows_len, E4, Hzr. destruct Ha as (_ & -> & _). lia.
    + by rewrite E4.
    + rewrite Esb, number_rows_rows. eapply Forall_impl; [exact Hlk2|]. by intros row [? _].
    + rewrite E1, E2, E6 in *. split; try done; cbn [ht_next_line_id ht_links with_links with_replica retain_referenced lt_next ht_engine]; lia.
  - (* only the screen is *)
    destruct Hs as (Hs & Hc & Ht & Hsl).
    destruct (rebuilt_inv (with_links links1 t) links1 screen) as [Hi Hcl]; try done.
    + destruct Hs. by split.
    + eapply Forall_impl; [exact Hsl|]. intros row. apply row_linked_sub, (gr_sub _ _ _ Hg).
    + pose proof (zlen_nonneg (vt_history (ve_vt (ht_engine t)))).
      split; try done; cbn [ht_next_line_id ht_links with_links with_replica retain_referenced lt_next ht_engine]; lia.
Qed.

(** ** Trimming to the size limit *)

Lemma pop_with_trimmed k n t :
  Nat.iter n pop_front_row (with_trimmed k t) = with_trimmed k (Nat.iter n pop_front_row t).
Proof.
  induction n as [|n IH]; [done|]. rewrite !Nat.iter_succ, IH. destruct (Nat.iter n pop_front_row t) as [? ? ? ? ? bytes].
  unfold pop_front_row. cbn. by destruct bytes.
Qed.

Lemma scroll_with_trimmed cols k t : scroll_ok cols t → scroll_ok cols (with_trimmed k t).
Proof. intros []. by split. Qed.

Lemma trim_loop_spec cols fuel fixed t :
  scroll_ok cols t → cols <= MAX_COLS → 0 <= ht_trimmed t → zlen (sb t) + ht_trimmed t <= u32_max →
  (length (sb t) <= fuel)%nat →
  ∃ n, (n <= length (sb t))%nat ∧
    trim_loop fuel fixed t = (with_trimmed (ht_trimmed t + Z.of_nat n) (Nat.iter n pop_front_row t), negb (n =? 0)%nat) ∧
    (fixed + ht_scrollback_bytes (Nat.iter n pop_front_row t) <= S_MAX ∨ sb (Nat.iter n pop_front_row t) = []).
Proof.
  intros Hs Hc. revert t Hs. induction fuel as [|fuel IH]; intros t Hs Ht Hz Hf.
  { exists 0%nat. split; [lia|]. cbn. rewrite Z.add_0_r. split; [by destruct t|]. right. apply nil_length_inv. lia. }
  cbn [trim_loop]. destruct (S_MAX <? _) eqn:E; cbn [andb]; [case_bool_decide as Hne|].
  - destruct (pop_rows_eq cols 1 t Hs Hc) as [E1 Hs1];
      [destruct (sb t); [done|cbn; lia]|unfold u32_max in *; lia|]. cbn [Nat.iter nat_rect] in E1, Hs1.
    set (t1 := pop_front_row t) in *. rewrite add64_id by (rewrite E1; cbn; unfold u32_max, u64_max in *; pose proof (zlen_nonneg (sb t)); lia).
    assert (length (sb t1) = (length (sb t) - 1)%nat) as Hl1 by (rewrite E1; cbn; by rewrite length_drop).
    assert (0 < length (sb t))%nat as Hpos by (destruct (sb t); [done|cbn; lia]).
    assert (ht_trimmed t1 = ht_trimmed t) as Htr1 by (by rewrite E1).
    destruct (IH (with_trimmed (ht_trimmed t1 + 1) t1)) as (n & Hn & En & Hend);
      [by apply scroll_with_trimmed|cbn; lia|cbn; unfold zlen in *; lia|cbn; lia|].
    exists (S n). cbn [with_trimmed ht_replica ht_trimmed] in *. rewrite En. rewrite pop_with_trimmed in *.
    rewrite Nat.iter_succ_r. fold t1. split_and!; [lia| |done].
    cbn [fst]. f_equal. rewrite Htr1. replace (ht_trimmed t + Z.of_nat (S n)) with (ht_trimmed t + 1 + Z.of_nat n) by lia.
    by destruct (Nat.iter n pop_front_row t1).
  - exists 0%nat. split; [lia|]. cbn. rewrite Z.add_0_r. split; [by destruct t|]. right. by destruct (sb t); [|destruct Hne].
  - exists 0%nat. split; [lia|]. cbn. rewrite Z.add_0_r. split; [by destruct t|]. left. lia.
Qed.

(** [t'] is [t] without its oldest [n] rows. *)
Record trimmed_by (n : nat) (t t' : HostTerminal) : Prop := {
  tb_inv : term_inv t';
  tb_sb : sb t' = drop n (sb t);
  tb_same : ht_engine t' = ht_engine t ∧ ht_links t' = ht_links t ∧ ht_next_line_id t' = ht_next_line_id t ∧
    ht_next_event_id t' = ht_next_event_id t ∧
    ∃ v, ht_replica t' = with_scrollback v (ht_replica t);
  tb_fits : non_scrollback_len t + ht_scrollback_bytes t' <= S_MAX ∨ sb t' = [];
  tb_clean : n = 0%nat → clean t → clean t';
}.

Lemma referenced_drop n r : referenced_links (with_scrollback (drop n (rp_scrollback r)) r) ⊆ referenced_links r.
Proof.
  intros id (row & Hrow & Hid)%referenced_rows. apply referenced_rows. exists row. split; [|done].
  apply elem_of_app in Hrow as [Hrow|Hrow]; apply elem_of_app; [by left|right].
  apply list_elem_of_fmap in Hrow as (p & -> & Hp). apply list_elem_of_fmap. exists p. split; [done|].
  cbn in Hp. by eapply subseteq_drop.
Qed.

Lemma trim_spec t :
  term_inv t →
  ∃ n t', (n <= length (sb t))%nat ∧
    trim_loop (length (sb t)) (non_scrollback_len t) t = (t', negb (n =? 0)%nat) ∧ trimmed_by n t t'.
Proof.
  intros Hi. destruct (ti_count _ Hi) as [Hc Ht]. destruct (ti_size _ Hi) as (Hcols & _ & _).
  destruct (armed_parts (ht_engine t)) as (_ & _ & Hcb & _); [split; [apply Hi|apply Hi]|].
  pose proof (va_history _ (ti_vt _ Hi)) as Hh. destruct (ti_armed _ Hi) as [Hsb _].
  destruct (trim_loop_spec (rp_cols (ht_replica t)) (length (sb t)) (non_scrollback_len t) t (ti_scroll _ Hi)
    ltac:(lia) Ht ltac:(lia) ltac:(lia)) as (n & Hn & En & Hend).
  destruct (pop_rows_eq _ n t (ti_scroll _ Hi) ltac:(lia) Hn ltac:(unfold u32_max in *; lia)) as [Ep Hsp].
  eexists n, _. split; [done|]. split; [exact En|].
  split.
  - assert (zlen (drop n (sb t)) = zlen (sb t) - Z.of_nat n) as Hz by (unfold zlen; rewrite length_drop; lia).
    rewrite Ep in Hsp. rewrite Ep. destruct Hi. split; cbn [ht_engine with_trimmed ht_replica with_scrollback
      rp_cols rp_rows rp_screen rp_cursor rp_modes rp_palette rp_title rp_exit_info rp_scrollback rp_hyperlinks ht_links ht_trimmed]; try done.
    + by apply scroll_with_trimmed.
    + lia.
    + etrans; [apply referenced_drop|done].
  - by rewrite Ep.
  - rewrite Ep. cbn. split_and!; try done. by eexists.
  - done.
  - intros -> Hcl. rewrite Ep, drop_0. unfold clean in *. destruct t as [? []]; done.
Qed.

(** ** Following the engine *)

(** The counters have room for the rows and links of the library's state [v]. *)
Definition call_room (v : Vt) (t : HostTerminal) : Prop :=
  ht_next_line_id t + 2 * zlen (vt_history v) <= u64_max ∧
  lt_next (ht_links t) + 2 * cell_count (vt_history v) + cell_count (vt_active v) <= u32_max.

(** [follow] took [t], whose engine moved on, to [t']. *)
Record followed (t t' : HostTerminal) (app : list (Z * RowData)) (evicted rewritten : bool) : Prop := {
  fo_inv : term_inv t';
  fo_clean : clean t';
  fo_engine : ht_engine t' = ht_engine t;
  fo_event : ht_next_event_id t' = ht_next_event_id t;
  fo_exit : rp_exit_info (ht_replica t') = rp_exit_info (ht_replica t);
  fo_next : ht_next_line_id t <= ht_next_line_id t' <= ht_next_line_id t + 2 * zlen (vt_history (ve_vt (ht_engine t)));
  fo_links : lt_next (ht_links t') <= lt_next (ht_links t) + 2 * cell_count (vt_history (ve_vt (ht_engine t)))
    + cell_count (vt_active (ve_vt (ht_engine t)));
  fo_rows : rewritten = false → ∃ k rows, (k <= length (sb t))%nat ∧ evicted = negb (k =? 0)%nat ∧
    app = number_rows (ht_next_line_id t) rows ∧ sb t' = drop k (sb t) ++ app ∧
    ht_next_line_id t' = ht_next_line_id t + zlen rows;
}.

Lemma rebuilt_followed t0 t app ev :
  rebuild_pre true t → ht_engine t = ht_engine t0 → ht_next_event_id t = ht_next_event_id t0 →
  rp_exit_info (ht_replica t) = rp_exit_info (ht_replica t0) →
  ht_next_line_id t0 <= ht_next_line_id t <= ht_next_line_id t0 + zlen (vt_history (ve_vt (ht_engine t0))) →
  lt_next (ht_links t) <= lt_next (ht_links t0) + cell_count (vt_history (ve_vt (ht_engine t0))) →
  followed t0 (rebuild true t) app ev true.
Proof.
  intros Hp He Hev Hex Hn Hl. destruct (rebuild_spec true t Hp) as [Hi Hcl He' Hev' Hex' Hn' Hl' _].
  rewrite He in *. split; try done; try congruence; lia.
Qed.

Lemma pop_evicted_spec cols ev t :
  scroll_ok cols t → cols <= MAX_COLS → 0 <= ev → 0 <= ht_trimmed t → zlen (sb t) <= u32_max →
  ∃ k, (k <= length (sb t))%nat ∧ (pop_evicted ev t).2 = negb (k =? 0)%nat ∧
    sb (pop_evicted ev t).1 = drop k (sb t) ∧ scroll_ok cols (pop_evicted ev t).1 ∧
    0 <= ht_trimmed (pop_evicted ev t).1 ∧
    ht_engine (pop_evicted ev t).1 = ht_engine t ∧ ht_links (pop_evicted ev t).1 = ht_links t ∧
    ht_next_line_id (pop_evicted ev t).1 = ht_next_line_id t ∧
    ht_next_event_id (pop_evicted ev t).1 = ht_next_event_id t ∧
    ∃ v, ht_replica (pop_evicted ev t).1 = with_scrollback v (ht_replica t).
Proof.
  intros Hs Hc Hev Ht Hz. unfold pop_evicted. set (t1 := with_trimmed _ t). set (k := Z.to_nat _).
  assert (k <= length (sb t))%nat as Hk by (unfold k, t1; cbn; unfold zlen; lia).
  destruct (pop_rows_eq cols k t1 (scroll_with_trimmed _ _ _ Hs) Hc Hk) as [E Hs']; [cbn; unfold u32_max in *; lia|].
  exists k. split; [done|]. split; [done|]. cbn [fst]. rewrite E in *. cbn in *. split_and!; try done; [lia|by eexists].
Qed.

Lemma follow_appended e' ev ap t :
  term_inv t → armed e' → ve_cols e' = ve_cols (ht_engine t) → ve_rows e' = ve_rows (ht_engine t) →
  0 <= ev → 0 <= ap → call_room (ve_vt e') t →
  let t0 := with_engine e' t in
  let '(t', app, evicted, rewritten) := follow (Appended ev ap) t0 in followed t0 t' app evicted rewritten.
Proof.
  intros Hi He Hcols Hrows Hev Hap [Hnx Hlx] t0. destruct (ti_size _ Hi) as (Hrc & _ & _).
  pose proof (armed_parts _ He) as (Hh & _ & Hcb & _). pose proof (ti_count _ Hi) as [Hcount Htr].
  pose proof (va_history _ (ti_vt _ Hi)) as Hh32. destruct (ti_armed _ Hi) as [Hsbr _].
  pose proof (va_history _ (proj1 He)) as Hh32'.
  assert (scroll_ok (ve_cols e') t0) as Hs0 by (rewrite Hcols, <- Hrc; destruct (ti_scroll _ Hi); by split).
  destruct (pop_evicted_spec (ve_cols e') ev t0 Hs0 ltac:(lia) Hev Htr ltac:(cbn; lia))
    as (k & Hk & Eev & Esb & Hs1 & Htr1 & Ee & El & En & Eev' & (v & Er)).
  unfold follow. destruct (pop_evicted ev t0) as [t1 evicted]. cbn [fst snd] in *. subst evicted.
  unfold scrollback_rows, read_scrollback. rewrite Ee, El.
  change (ht_engine t0) with e'. change (ht_links t0) with (ht_links t).
  set (from := Z.to_nat (sat_sub (ve_sb_rows e') ap)).
  assert (Forall (row_answers (ve_cols e')) (drop from (vt_history (ve_vt e')))) as Hd by (by apply Forall_drop).
  pose proof (cell_count_drop from (vt_history (ve_vt e'))) as Hcc.
  pose proof (cell_count_nonneg (vt_history (ve_vt e'))) as Hc0. pose proof (cell_count_nonneg (vt_active (ve_vt e'))) as Ha0.
  destruct (read_rows_grown _ _ (ht_links t) Hd (proj1 (ti_links _ Hi)) ltac:(lia)) as (Hg & Hlk & Hlen).
  pose proof (read_rows_good _ _ (ht_links t) Hd (proj1 (ti_links _ Hi)) ltac:(lia) ltac:(lia)) as Hgood.
  destruct (read_rows (drop from _) (ht_links t)) as [rows links]. cbn [fst snd] in *.
  assert (zlen rows <= zlen (vt_history (ve_vt e'))) as Hzr by (unfold zlen; rewrite Hlen, length_drop; lia).
  pose proof (gr_next _ _ _ Hg) as Hgn.
  assert (length (sb t1) <= length (sb t))%nat as Hlsb by (rewrite Esb, length_drop; cbn; lia).
  destruct (push_back_rows_eq (ve_cols e') rows (with_links links t1)) as [E Hs2];
    [destruct Hs1; by split|done|lia|cbn [with_links ht_next_line_id]; rewrite En; change (ht_next_line_id t + zlen rows <= u64_max); pose proof (zlen_nonneg rows); lia
    |cbn [with_links ht_replica]; unfold zlen in *; unfold u32_max in *; lia|].
  set (t2 := push_back_rows rows (with_links links t1)) in *.
  assert (ht_engine t2 = e' ∧ ht_links t2 = links ∧ ht_next_event_id t2 = ht_next_event_id t ∧
    ht_next_line_id t2 = ht_next_line_id t + zlen rows ∧ ht_trimmed t2 = ht_trimmed t1 ∧
    rp_exit_info (ht_replica t2) = rp_exit_info (ht_replica t)) as (F1 & F2 & F3 & F4 & F5 & F6).
  { rewrite E. cbn [with_links ht_engine ht_links ht_next_event_id ht_next_line_id ht_trimmed ht_replica with_scrollback rp_exit_info].
    rewrite Ee, Eev', En, Er. done. }
  assert (sb t2 = drop k (sb t) ++ number_rows (ht_next_line_id t) rows) as F7.
  { rewrite E. cbn [with_links ht_replica with_scrollback rp_scrollback ht_next_line_id]. by rewrite Esb, En. }
  pose proof (so_pos _ _ (ti_scroll _ Hi)) as Hpos. pose proof (zlen_nonneg (sb t)).
  pose proof (zlen_nonneg rows). rewrite En. change (ht_next_line_id t0) with (ht_next_line_id t).
  destruct (negb (zlen (sb t2) + ht_trimmed t2 =? ve_sb_rows e')) eqn:Echk.
  - apply rebuilt_followed; rewrite ?F1, ?F2, ?F3, ?F4, ?F6; try done; [|cbn; lia|cbn; lia].
    split; rewrite ?F1, ?F2, ?F4, ?F6; try done; [apply Hg|lia|apply (ti_exit _ Hi)|lia].
  - assert (rebuild_pre false t2) as Hp.
    { split; rewrite ?F1, ?F2, ?F6; try done; [apply Hg|lia|apply (ti_exit _ Hi)|].
      split_and!; [done|lia|by rewrite F5|]. rewrite F7, fmap_app, number_rows_rows. apply Forall_app. split.
      - rewrite fmap_drop. apply Forall_drop. eapply Forall_impl; [apply (refs_linked _ _ (ti_refs _ Hi))|].
        intros row. apply row_linked_sub, Hg.
      - eapply Forall_impl; [exact Hlk|]. by intros row [? _]. }
    destruct (rebuild_spec false t2 Hp) as [Hi' Hcl He' Hev2 Hex' Hn' Hl' Hsame]. destruct (Hsame eq_refl) as [Hsb' Hnx'].
    rewrite F1, F2, F3, F4, F6 in *.
    split; try done; [cbn; lia|cbn; lia|]. intros _. exists k, rows. split_and!; try done. by rewrite Hsb', F7.
Qed.

Lemma follow_rewritten e' t :
  term_inv t → armed e' → call_room (ve_vt e') t →
  let t0 := with_engine e' t in
  let '(t', app, evicted, rewritten) := follow Rewritten t0 in followed t0 t' app evicted rewritten.
Proof.
  intros Hi He [Hnx Hlx] t0. cbn [follow]. pose proof (zlen_nonneg (vt_history (ve_vt e'))).
  pose proof (cell_count_nonneg (vt_history (ve_vt e'))) as Hc0. pose proof (cell_count_nonneg (vt_active (ve_vt e'))).
  pose proof (so_pos _ _ (ti_scroll _ Hi)) as Hpos. pose proof (zlen_nonneg (sb t)).
  apply rebuilt_followed; try done; [|cbn; lia|cbn; lia].
  split; try done; cbn; [apply Hi|lia|apply (ti_exit _ Hi)|lia].
Qed.

(** ** The published delta *)

(** Dropping the oldest lines keeps those from the first kept one on. *)
Lemma drop_sorted_filter m c (l : list (Z * RowData)) :
  lines_sorted l → (∀ p, p ∈ l → p.1 < c) →
  drop m l = filter (λ p, default c (first_line_id (drop m l)) <= p.1) l.
Proof.
  intros Hs. revert m. induction Hs as [|[i row] l Hs IH Hp]; intros m Hc; [by destruct m|].
  destruct m as [|m].
  - cbn [drop first_line_id head fmap option_fmap option_map default]. symmetry. apply filter_all.
    intros p Hin. apply elem_of_cons in Hin as [->|Hin]; [cbn; lia|]. rewrite Forall_forall in Hp.
    specialize (Hp p Hin). unfold line_lt in Hp. cbn in *. lia.
  - assert (∀ p, p ∈ l → p.1 < c) as Hc' by (intros p Hin; apply Hc; by apply elem_of_cons; right).
    cbn [drop]. rewrite filter_cons, decide_False; [by apply IH|]. cbn [fst].
    destruct (drop m l) as [|q rest] eqn:E; cbn.
    + specialize (Hc (i, row) ltac:(set_solver)). cbn in Hc. lia.
    + rewrite Forall_forall in Hp. assert (q ∈ l) as Hq by (eapply subseteq_drop; rewrite E; set_solver).
      specialize (Hp q Hq). unfold line_lt in Hp. cbn in Hp. lia.
Qed.

Lemma scroll_delta (old app : list (Z * RowData)) k n c :
  lines_sorted (old ++ app) → (∀ p, p ∈ old ++ app → p.1 < c) → (k <= length old)%nat →
  let new := drop n (drop k old ++ app) in
  let f := default c (first_line_id new) in
  let evicted := negb (k =? 0)%nat || negb (n =? 0)%nat in
  let app' := if negb (n =? 0)%nat then filter (λ p, (f <=? p.1) = true) app else app in
  let ev := if evicted && bool_decide (old ≠ []) then Some f else None in
  new = filter (above ev) old ++ app' ∧ (∀ p, p ∈ app' → p ∈ app ∧ above ev p) ∧ (∀ e, ev = Some e → e <= c).
Proof.
  intros Hs Hc Hk new f evicted app' ev.
  assert (new = drop (k + n) (old ++ app)) as Hnew by (unfold new; rewrite <- drop_drop, (drop_app_le old) by done; done).
  pose proof (drop_sorted_filter (k + n) c (old ++ app) Hs Hc) as Hf. rewrite <- Hnew in Hf. fold f in Hf.
  assert (∀ p, p ∈ new → f <= p.1) as Hge.
  { intros p Hp. rewrite Hf in Hp. by apply list_elem_of_filter in Hp as [? _]. }
  assert (f <= c) as Hfc.
  { unfold f. destruct new as [|q rest] eqn:E; [cbn; lia|]. cbn. 
    assert (q ∈ old ++ app) as Hq by (eapply subseteq_drop; rewrite <- Hnew; set_solver). specialize (Hc q Hq). lia. }
  assert (app' = if negb (n =? 0)%nat then filter (λ p, f <= p.1) app else app) as Happ'
    by (unfold app'; by rewrite filter_true_eq).
  assert (n = 0%nat → filter (λ p, f <= p.1) app = app) as Hn0.
  { intros ->. apply filter_all. intros p Hp. apply Hge. unfold new. rewrite drop_0. set_solver. }
  assert (app' = filter (λ p, f <= p.1) app) as Happ2.
  { rewrite Happ'. destruct (n =? 0)%nat eqn:E; [|done]. apply Nat.eqb_eq in E. by rewrite Hn0. }
  rewrite filter_app in Hf. split_and!.
  - unfold ev. destruct evicted eqn:Eev; cbn [andb].
    + rewrite Happ2. case_bool_decide as Ho; [exact Hf|]. rewrite Hf. by destruct old.
    + unfold evicted in Eev. apply orb_false_iff in Eev as [Ek En]. apply negb_false_iff, Nat.eqb_eq in Ek, En. subst.
      unfold new. rewrite !drop_0. rewrite Happ2, Hn0 by done. f_equal. symmetry. by apply filter_all.
  - intros p Hp. rewrite Happ2 in Hp. apply list_elem_of_filter in Hp as [H1 H2]. split; [done|].
    unfold ev. by destruct (_ && _).
  - unfold ev. destruct (_ && _); [|done]. by intros e [= <-].
Qed.

Lemma scroll_contiguous cols t : scroll_ok cols t → contiguous (sb t) ∧ ∀ p, p ∈ sb t → 1 <= p.1 < ht_next_line_id t.
Proof.
  intros Hs. split; [eexists; apply (so_ids _ _ Hs)|]. intros p Hp.
  assert (p.1 ∈ (sb t).*1) as Hin by (apply list_elem_of_fmap; eauto).
  rewrite (so_ids _ _ Hs), elem_of_seqZ in Hin. pose proof (so_pos _ _ Hs). lia.
Qed.

Lemma pruned_wf t : term_inv t → ht_next_line_id t <= u64_max → wf_replica (prune_hyperlinks (ht_replica t)).
Proof.
  intros Hi Hn. destruct (ti_size _ Hi) as (_ & Hr & Hz). destruct (scroll_contiguous _ _ (ti_scroll _ Hi)) as [Hc Hids].
  destruct (armed_parts (ht_engine t)) as (_ & _ & _ & Hrows & _); [split; apply Hi|].
  split; cbn.
  - rewrite Hr. unfold MAX_ROWS, u16_max in *. lia.
  - done.
  - destruct (ti_links _ Hi) as [_ ->]. exact (retain_dom _ _ (ti_refs _ Hi)).
  - done.
  - intros p Hp. specialize (Hids p Hp). lia.
Qed.

Lemma prune_wf r : dom (rp_hyperlinks r) = referenced_links r → prune_hyperlinks r = r.
Proof.
  intros Hc. unfold prune_hyperlinks.
  assert (bt_retain (λ id _, bool_decide (id ∈ referenced_links r)) (rp_hyperlinks r) = rp_hyperlinks r) as ->; [|by destruct r].
  apply map_eq. intros id. rewrite lookup_bt_retain. destruct (rp_hyperlinks r !! id) as [u|] eqn:E; [|done].
  cbn. rewrite bool_decide_true; [done|]. rewrite <- Hc. by apply elem_of_dom_2 in E.
Qed.

Lemma clean_pruned t : clean t → prune_hyperlinks (ht_replica t) = ht_replica t.
Proof. apply prune_wf. Qed.

Lemma then_some_changed {A} `{EqDecision A} (a b : A) : default a (then_some (bool_decide (a ≠ b)) b) = b.
Proof. unfold then_some. case_bool_decide as E; [done|exact E]. Qed.

Lemma delta_published cols t t1 t2 app k rows n ui :
  scroll_ok cols t → term_inv t2 → trimmed_by n t1 t2 →
  rp_cols (ht_replica t1) = rp_cols (ht_replica t) → rp_rows (ht_replica t1) = rp_rows (ht_replica t) →
  rp_exit_info (ht_replica t1) = rp_exit_info (ht_replica t) →
  app = number_rows (ht_next_line_id t) rows → (k <= length (sb t))%nat → sb t1 = drop k (sb t) ++ app →
  ht_next_line_id t1 = ht_next_line_id t + zlen rows → ht_next_line_id t1 <= u64_max →
  delta_step (ht_replica t) (ht_next_line_id t)
    (build_delta (light t)
       (if negb (n =? 0)%nat then filter (λ p, (first_kept t2 <=? p.1) = true) app else app)
       (negb (k =? 0)%nat || negb (n =? 0)%nat) ui t2)
    (prune_hyperlinks (ht_replica t2)) (ht_next_line_id t2).
Proof.
  intros Hs Hi2 [_ Hsb (He & Hl & Hn & Hev & v & Hrep) _ _] Hcols Hrows Hex Happ Hk Hsb1 Hn1 Hu.
  destruct (scroll_contiguous _ _ Hs) as [Hc Hids]. pose proof (zlen_nonneg rows).
  assert (app.*1 = seqZ (ht_next_line_id t) (zlen rows)) as Hai.
  { rewrite Happ. apply number_rows_ids; [|lia]. pose proof (so_pos _ _ Hs). pose proof (zlen_nonneg (sb t)). lia. }
  assert (∀ p, p ∈ app → ht_next_line_id t <= p.1 < ht_next_line_id t1) as Hain.
  { intros p Hp. assert (p.1 ∈ app.*1) as Hin by (apply list_elem_of_fmap; eauto). rewrite Hai, elem_of_seqZ in Hin. lia. }
  assert (lines_sorted (sb t ++ app)) as Hsort.
  { apply sorted_app; [by apply contiguous_sorted|apply contiguous_sorted; exists (ht_next_line_id t)|].
    - rewrite Hai. f_equal. by rewrite Happ, number_rows_len.
    - intros p q Hp Hq. specialize (Hids p Hp). specialize (Hain q Hq). unfold line_lt. lia. }
  destruct (scroll_delta (sb t) app k n (ht_next_line_id t2) Hsort) as (Hnew & Hin & Hle); [|done|].
  { intros p [Hp|Hp]%elem_of_app; [specialize (Hids p Hp)|specialize (Hain p Hp)]; lia. }
  rewrite <- Hsb1, <- Hsb in Hnew, Hin, Hle. fold (first_kept t2) in Hnew, Hin, Hle.
  pose proof (pruned_wf t2 Hi2 ltac:(lia)) as Hwf.
  split; [|split; [exact Hwf|]].
  - destruct (dirty_rows_rel false None (ht_replica t) (prune_hyperlinks (ht_replica t2)) (wr_screen _ Hwf)
      ltac:(apply (wr_rows _ Hwf)) ltac:(done)) as [Hd1 Hd2].
    split; [|exact Hd1|exact Hd2| |cbn|exact Hnew].
    + unfold fields_rel. cbn. rewrite Hrep. cbn. rewrite Hcols, Hrows, Hex, !then_some_changed. done.
    + intros id Hid. cbn [build_delta delta_hyperlinks_added light li_links].
      apply elem_of_dom in Hid as [u Hu']. rewrite Hu'. apply added_links_lookup. by apply bt_retain_Some in Hu' as [Hu' _].
    + apply sorted_app_inv in Hsort as (S1 & S2 & S3). apply sorted_app; [done| |].
      * destruct (negb (n =? 0)%nat); [by apply sorted_filter|done].
      * intros p q Hp Hq. apply S3; [done|]. by apply Hin.
  - split; [lia|]. split; cbn [build_delta delta_scrollback_appended delta_scrollback_evicted_before light li_had_scrollback].
    + intros p Hp. destruct (Hin p Hp) as [Hp' Habove]. specialize (Hain p Hp'). split; [lia|exact Habove].
    + exact Hle.
Qed.

(** ** One call *)

Lemma inv_effects e t n :
  term_inv t → ve_vt e = ve_vt (ht_engine t) → ve_sb_rows e = ve_sb_rows (ht_engine t) →
  ve_cols e = ve_cols (ht_engine t) → ve_rows e = ve_rows (ht_engine t) →
  term_inv (with_next_event_id n (with_engine e t)).
Proof.
  intros [] Hv Hs Hc Hr. destruct ti_scroll0. split; cbn; rewrite ?Hv, ?Hs, ?Hc, ?Hr; try done; by split.
Qed.

(** The outcome of [advance]: what [follow] did, then [n] rows trimmed. *)
Record advanced (t t' : HostTerminal) (a : Advance) : Prop := {
  av_inv : term_inv t';
  av_vt : ve_vt (ht_engine t') = ve_vt (ht_engine t);
  av_exit : rp_exit_info (ht_replica t') = rp_exit_info (ht_replica t);
  av_next : ht_next_line_id t <= ht_next_line_id t' <= ht_next_line_id t + 2 * zlen (vt_history (ve_vt (ht_engine t)));
  av_links : lt_next (ht_links t') <= lt_next (ht_links t) + 2 * cell_count (vt_history (ve_vt (ht_engine t)))
    + cell_count (vt_active (ve_vt (ht_engine t)));
  av_fits : non_scrollback_len t' + ht_scrollback_bytes t' <= S_MAX ∨ sb t' = [];
  av_clean : ht_trimmed t' = 0 → clean t';
}.

Lemma non_scrollback_with t t' v :
  ht_replica t' = with_scrollback v (ht_replica t) → non_scrollback_len t' = non_scrollback_len t.
Proof. intros E. unfold non_scrollback_len. by rewrite E. Qed.

Lemma advance_spec cols li step t0 :
  scroll_ok cols t0 → li = light t0 →
  (let '(t1, app, ev, rw) := follow step t0 in
   followed t0 t1 app ev rw ∧ ht_next_line_id t1 <= u64_max ∧
   (rw = false → rp_cols (ht_replica t1) = rp_cols (ht_replica t0) ∧ rp_rows (ht_replica t1) = rp_rows (ht_replica t0))) →
  let '(t', a) := advance step li t0 in
  advanced t0 t' a ∧
  (ad_rewritten a = false → ∃ d, ad_delta a = Some d ∧ delta_ui_events d = ad_ui_events a ∧
     delta_step (ht_replica t0) (ht_next_line_id t0) d (prune_hyperlinks (ht_replica t')) (ht_next_line_id t')).
Proof.
  intros Hs -> Hf. unfold advance. destruct (follow step t0) as [[[t1 app] ev] rw]. destruct Hf as (Hf & Hnx & Hsize).
  cbn [take_effects]. destruct (split_effects (ve_effects (ht_engine t1)) (ht_next_event_id t1)) as [[replies ui] next].
  set (t2 := with_next_event_id next _).
  assert (term_inv t2) as Hi2 by (apply inv_effects; try done; apply Hf).
  destruct (trim_spec t2 Hi2) as (n & t3 & Hn & Etrim & Htb). unfold enforce_limit. rewrite Etrim.
  pose proof (tb_same _ _ _ Htb) as (He & Hl & Hnl & Hne & v & Hrep).
  assert (non_scrollback_len t3 = non_scrollback_len t2) as Hns by (by eapply non_scrollback_with).
  split.
  - split; cbn [fst snd].
    + apply Htb.
    + rewrite He. cbn. by rewrite (fo_engine _ _ _ _ _ Hf).
    + rewrite Hrep. cbn. apply (fo_exit _ _ _ _ _ Hf).
    + rewrite Hnl. apply (fo_next _ _ _ _ _ Hf).
    + rewrite Hl. cbn. apply (fo_links _ _ _ _ _ Hf).
    + rewrite Hns. apply (tb_fits _ _ _ Htb).
    + intros Htr. assert (n = 0%nat) as ->.
      { pose proof (ti_count _ Hi2) as [Hc2 Ht2]. pose proof (ti_count _ (tb_inv _ _ _ Htb)) as [Hc3 _].
        rewrite Htr, He, (tb_sb _ _ _ Htb) in Hc3. unfold zlen in *. rewrite length_drop in Hc3. lia. }
      apply (tb_clean _ _ _ Htb); [done|]. apply (fo_clean _ _ _ _ _ Hf).
  - cbn [ad_rewritten ad_delta ad_ui_events]. intros ->. eexists. split; [done|]. split; [done|].
    destruct (Hsize eq_refl) as [Hc Hr]. destruct (fo_rows _ _ _ _ _ Hf eq_refl) as (k & rows & Hk & -> & Happ & Hsb & Hnx1).
    apply (delta_published cols t0 t2 t3 app k rows n ui Hs (tb_inv _ _ _ Htb) Htb); try done.
    apply (fo_exit _ _ _ _ _ Hf).
Qed.

Lemma follow_spec xxh v fx tr t e step :
  term_inv t → vt_answers v → call_room v t → (∀ y, tr = Some y → 0 <= y) →
  observe xxh tr v fx (ht_engine t) = Some (e, step) →
  let t0 := with_engine e t in
  let '(t1, app, ev, rw) := follow step t0 in
  followed t0 t1 app ev rw ∧ ht_next_line_id t1 <= u64_max ∧ (rw = false →
    rp_cols (ht_replica t1) = rp_cols (ht_replica t0) ∧ rp_rows (ht_replica t1) = rp_rows (ht_replica t0)).
Proof.
  intros Hi Hv Hroom Htr Eo t0. destruct (observe_armed _ _ _ _ _ _ _ Hv Eo) as (He & Hev & _).
  assert (armed (ht_engine t)) as Hae by (split; [apply Hi|apply Hi]).
  rewrite <- Hev in Hroom. pose proof (zlen_nonneg (vt_history (ve_vt e))) as Hz0.
  assert (let '(t1, app, ev, rw) := follow step t0 in followed t0 t1 app ev rw ∧ (rw = false →
    ve_cols e = ve_cols (ht_engine t) ∧ ve_rows e = ve_rows (ht_engine t))) as H.
  { destruct step as [evn ap|].
    - destruct (observe_appended _ _ _ _ _ _ _ _ Hae Eo Htr) as (H1 & H2 & H3 & H4).
      destruct He as (Ha1 & Ha2 & Ha3 & Ha4). rewrite Hev in Ha3, Ha4.
      pose proof (follow_appended e evn ap t Hi (conj Ha1 (conj Ha2 (conj (eq_trans Ha3 (f_equal vt_cols (eq_sym Hev)))
        (eq_trans Ha4 (f_equal vt_rows (eq_sym Hev)))))) ltac:(congruence) ltac:(congruence) H1 H2 Hroom) as Hf.
      cbv zeta in Hf. fold t0 in Hf. destruct (follow _ t0) as [[[? ?] ?] ?]. split; [done|]. intros _. split; congruence.
    - pose proof (follow_rewritten e t Hi He Hroom) as Hf. cbv zeta in Hf. fold t0 in Hf. cbn [follow] in *. by split. }
  destruct (follow step t0) as [[[t1 app] ev] rw]. destruct H as [Hf Hsz]. split; [done|].
  destruct (ti_size _ (fo_inv _ _ _ _ _ Hf)) as (Hc1 & Hr1 & _). destruct (ti_size _ Hi) as (Hc0 & Hr0 & _).
  rewrite (fo_engine _ _ _ _ _ Hf) in Hc1, Hr1. split; [|intros Hrw; destruct (Hsz Hrw); split; cbn in *; congruence].
  pose proof (fo_next _ _ _ _ _ Hf) as Hnx. destruct Hroom as [Hroom _]. cbn in Hnx. lia.
Qed.

Lemma terminal_call_spec xxh v cbs tr t :
  term_inv t → vt_answers v → call_room v t → (∀ y, tr = Some y → 0 <= y) →
  ∃ t' a, terminal_call xxh v cbs tr t = Some (t', a) ∧ term_inv t' ∧ ve_vt (ht_engine t') = v ∧
    rp_exit_info (ht_replica t') = rp_exit_info (ht_replica t) ∧
    ht_next_line_id t <= ht_next_line_id t' <= u64_max ∧
    (non_scrollback_len t' + ht_scrollback_bytes t' <= S_MAX ∨ sb t' = []) ∧
    (ht_trimmed t' = 0 → clean t') ∧
    (ad_rewritten a = false → ∃ d, ad_delta a = Some d ∧ delta_ui_events d = ad_ui_events a ∧
       delta_step (ht_replica t) (ht_next_line_id t) d (prune_hyperlinks (ht_replica t')) (ht_next_line_id t')).
Proof.
  intros Hi Hv Hroom Htr. unfold terminal_call, engine_call.
  assert (∃ e step, observe xxh tr v (ve_effects (ht_engine t) ++ (cbs ≫= on_callback)) (ht_engine t) = Some (e, step))
    as (e & step & Eo).
  { unfold observe. destruct (arm_total xxh v (ve_effects (ht_engine t) ++ (cbs ≫= on_callback)) Hv) as [e Ee].
    destruct (negb _ || _ || _); cbn; [rewrite Ee; by eauto|].
    destruct (ve_anchor (ht_engine t)) as [a|]; [|rewrite Ee; by eauto]. destruct tr as [y|]; [|rewrite Ee; by eauto].
    specialize (Htr y eq_refl). destruct ((an_y a <? y) || (zlen (vt_history v) <=? y)) eqn:E; [cbn; rewrite Ee; by eauto|].
    bool_hyps. case_match; [cbn; rewrite Ee; by eauto|].
    destruct (lookup_lt_is_Some_2 (vt_history v) (Z.to_nat y)) as [row ->]; [unfold zlen in *; lia|]. cbn. rewrite Ee. by eauto. }
  rewrite Eo. cbn [mbind option_bind].
  destruct (observe_armed _ _ _ _ _ _ _ Hv Eo) as (He & Hev & _).
  assert (armed (ht_engine t)) as Hae by (split; [apply Hi|apply Hi]).
  set (t0 := with_engine e t).
  assert (scroll_ok (rp_cols (ht_replica t)) t0) as Hs0 by (destruct (ti_scroll _ Hi); by split).
  pose proof (advance_spec (rp_cols (ht_replica t)) (light t) step t0 Hs0 eq_refl) as Hadv.
  pose proof (follow_spec xxh v _ tr t e step Hi Hv Hroom Htr Eo) as Hfo. cbv zeta in Hfo. fold t0 in Hfo.
  specialize (Hadv Hfo). destruct (advance step (light t) t0) as [t' a]. destruct Hadv as [[] Hd].
  exists t', a. rewrite av_vt0. rewrite <- Hev in Hroom. destruct Hroom as [Hroom _].
  change (ht_engine t0) with e in *. change (ht_next_line_id t0) with (ht_next_line_id t) in *.
  split_and!; try done; lia.
Qed.

(** ** Size and shape of the encoded state *)

Lemma enc_sum_rows cols rows :
  Forall (row_good cols) rows → 0 <= cols →
  enc_sum c_RowData rows = sum_Z ((λ row, zlen (enc c_RowData row)) <$> rows) ∧
  enc_sum c_RowData rows <= zlen rows * (5 + CELL_MAX * cols).
Proof.
  intros Hr Hc. induction Hr as [|r rows (_ & _ & Hr) _ [IH1 IH2]]; [done|].
  rewrite enc_sum_cons, zlen_cons. split; [rewrite IH1; done|]. lia.
Qed.

Lemma enc_sum_links (l : list (Z * String)) :
  enc_sum c_Hyperlink ((λ p, mk_Hyperlink p.1 p.2) <$> l) = sum_Z ((λ p, 8 + zlen p.2) <$> l).
Proof.
  induction l as [|[id u] l IH]; [done|]. rewrite !fmap_cons, enc_sum_cons, IH.
  change (sum_Z (8 + zlen (id, u).2 :: ((λ p, 8 + zlen p.2) <$> l))) with (8 + zlen u + sum_Z ((λ p, 8 + zlen p.2) <$> l)).
  cbn [enc c_Hyperlink hyperlink_id hyperlink_uri c_string]. unfold put_len_prefixed. rewrite !zlen_app, !zlen_put_u32.
  change (zlen (enc c_u32 (id, u).1)) with 4. cbn [fst snd]. lia.
Qed.

Lemma enc_sum_lines (l : list (Z * RowData)) : enc_sum c_Line l = sum_Z (row_len <$> l.*2).
Proof.
  induction l as [|[id row] l IH]; [done|]. rewrite !fmap_cons, enc_sum_cons, IH.
  change (sum_Z (row_len (id, row).2 :: (row_len <$> l.*2))) with (row_len row + sum_Z (row_len <$> l.*2)).
  assert (zlen (enc c_Line (id, row)) = row_len row) as ->; [|done].
  unfold row_len, c_Line. cbn [enc c_pair fst snd]. rewrite zlen_app. change (zlen (enc c_u64 id)) with 8. lia.
Qed.

Lemma exit_len o : zlen (enc (c_option c_ExitInfo) o) <= 8.
Proof.
  destruct o as [[[c|] [s|]]|]; cbn [enc c_option c_ExitInfo exit_info_exit_code exit_info_posix_signal]; done.
Qed.

(** The size the limit is enforced on bounds the encoded size. *)
Lemma encoded_le t :
  term_inv t → encoded_len (ht_replica t) <= non_scrollback_len t + ht_scrollback_bytes t.
Proof.
  intros Hi. destruct (armed_parts (ht_engine t)) as (_ & _ & Hcols & _); [split; apply Hi|].
  destruct (ti_size _ Hi) as (Hc & _). rewrite encoded_len_split, enc_sum_links, enc_sum_lines.
  rewrite (so_total _ _ (ti_scroll _ Hi)), (so_bytes _ _ (ti_scroll _ Hi)).
  destruct (enc_sum_rows _ _ (ti_screen _ Hi) ltac:(lia)) as [Hsum _].
  unfold non_scrollback_len, base_len. rewrite <- Hsum. pose proof (exit_len (rp_exit_info (ht_replica t))).
  change (zlen (enc (c_vec c_RowData) (rp_screen (ht_replica t)))) with
    (zlen (put_u32 (zlen (rp_screen (ht_replica t))) ++ concat (enc c_RowData <$> rp_screen (ht_replica t)))).
  change (zlen (enc c_string (rp_title (ht_replica t)))) with
    (zlen (put_u32 (zlen (rp_title (ht_replica t))) ++ rp_title (ht_replica t))).
  rewrite !zlen_app, !zlen_put_u32. fold (enc_sum c_RowData (rp_screen (ht_replica t))).
  change (zlen (enc c_u16 (rp_cols (ht_replica t)))) with 2. change (zlen (enc c_u16 (rp_rows (ht_replica t)))) with 2. lia.
Qed.

Lemma color_len c : zlen (enc c_Color c) <= 4.
Proof. by destruct c. Qed.

Lemma palette_len p : wf c_Palette p = true → zlen (palette_overrides p) <= 256 → zlen (enc c_Palette p) <= 1100.
Proof.
  intros _ Ho. cbn [enc c_Palette]. rewrite !zlen_app. pose proof (color_len (palette_default_fg p)).
  pose proof (color_len (palette_default_bg p)).
  assert (zlen (enc (c_option c_Color) (palette_cursor_color p)) <= 5).
  { destruct (palette_cursor_color p) as [c|]; [|done]. cbn [enc c_option]. rewrite zlen_app. pose proof (color_len c).
    change (zlen (put_u8 1)) with 1. lia. }
  cbn [enc c_vec]. rewrite zlen_app, zlen_put_u32.
  assert (zlen (concat (enc (c_pair c_u8 (c_pair c_u8 (c_pair c_u8 c_u8))) <$> palette_overrides p)) = 4 * zlen (palette_overrides p)) as ->; [|lia].
  clear. induction (palette_overrides p) as [|x l IH]; [done|]. rewrite fmap_cons, zlen_cons. cbn [concat].
  rewrite zlen_app, IH. change (zlen (enc (c_pair c_u8 (c_pair c_u8 (c_pair c_u8 c_u8))) x)) with 4. lia.
Qed.

(** Strictly ascending bytes are at most 256. *)
Lemma ascending_bytes (l : list (Z * (Z * (Z * Z)))) lo :
  forallb (wf (c_pair c_u8 (c_pair c_u8 (c_pair c_u8 c_u8)))) l = true → strictly_ascending fst l = Ok tt →
  (∀ p, head l = Some p → lo <= p.1) → lo <= 256 → zlen l <= 256 - lo.
Proof.
  revert lo. induction l as [|[i x] l IH]; intros lo Hw Ha Hlo Hb; [unfold zlen; cbn; lia|].
  cbn [forallb] in Hw. bool_hyps. rewrite zlen_cons. specialize (Hlo _ eq_refl). cbn in Hlo.
  assert (0 <= i <= 255) as Hi by (cbn in H; unfold is_u8, in_range, u8_max in H; lia).
  specialize (IH (i + 1) H0). cbn [strictly_ascending] in Ha. destruct l as [|[j y] l]; [unfold zlen; cbn; lia|].
  cbn [fst] in Ha. destruct (j <=? i) eqn:E; [done|].
  specialize (IH Ha ltac:(intros p [= <-]; cbn; lia) ltac:(lia)). lia.
Qed.

Lemma palette_wf_len p : wf c_Palette p = true → zlen (enc c_Palette p) <= 1100.
Proof.
  intros Hw. apply palette_len; [done|]. cbn [wf c_Palette] in Hw. bool_hyps.
  destruct (Palette_check p) as [[]|] eqn:Ec; [|done]. unfold Palette_check in Ec.
  change (fits_u32 (palette_overrides p) && forallb (wf (c_pair c_u8 (c_pair c_u8 (c_pair c_u8 c_u8)))) (palette_overrides p) = true) in H1.
  bool_hyps. pose proof (ascending_bytes (palette_overrides p) 0 ltac:(done) Ec) as Hl. rewrite Z.sub_0_r in Hl. apply Hl; [|lia].
  intros q Hq. destruct (palette_overrides p) as [|q' l]; [done|]. injection Hq as ->. cbn [forallb] in *. bool_hyps.
  destruct q as [i ?]. cbn in *. unfold is_u8, in_range in *. lia.
Qed.

Lemma length_links m : length (bt_iter (m : gmap Z String)) = size m.
Proof.
  assert (bt_iter m ≡ₚ map_to_list m) as ->; [|apply length_map_to_list].
  apply NoDup_Permutation; [apply NoDup_bt_iter|apply NoDup_map_to_list|]. intros [id u].
  by rewrite elem_of_bt_iter, elem_of_map_to_list.
Qed.

(** A screen, its links and its title always fit. *)
Lemma non_scrollback_fits t : term_inv t → non_scrollback_len t <= S_MAX.
Proof.
  intros Hi. destruct (armed_parts (ht_engine t)) as (_ & _ & Hcols & Hrows & _); [split; apply Hi|].
  destruct (ti_size _ Hi) as (Hc & Hr & Hz). destruct (ti_misc _ Hi) as (_ & _ & Hp & _ & Ht).
  destruct (ti_links _ Hi) as [Hl Hh].
  destruct (enc_sum_rows _ _ (ti_screen _ Hi) ltac:(lia)) as [Hsum Hle]. rewrite Hsum in Hle.
  assert (sum_Z ((λ p, 8 + zlen p.2) <$> bt_iter (rp_hyperlinks (ht_replica t))) <= LINKS_MAX * (8 + URI_MAX)) as Hlinks.
  { rewrite Hh. assert (zlen (bt_iter (lt_uris (ht_links t))) <= LINKS_MAX) as Hn.
    { unfold zlen. rewrite length_links. apply (lo_size _ Hl). }
    assert (∀ p, p ∈ bt_iter (lt_uris (ht_links t)) → zlen p.2 <= URI_MAX) as Hu.
    { intros [id u] Hin. apply elem_of_bt_iter in Hin. apply (lo_uris _ Hl _ _ Hin). }
    transitivity (zlen (bt_iter (lt_uris (ht_links t))) * (8 + URI_MAX)); [|unfold LINKS_MAX, URI_MAX in *; lia].
    clear -Hu. induction (bt_iter (lt_uris (ht_links t))) as [|p l IH]; [done|].
    rewrite fmap_cons, zlen_cons.
    change (sum_Z (8 + zlen p.2 :: ((λ p, 8 + zlen p.2) <$> l))) with (8 + zlen p.2 + sum_Z ((λ p, 8 + zlen p.2) <$> l)).
    pose proof (Hu p ltac:(set_solver)). specialize (IH ltac:(intros; apply Hu; set_solver)). lia. }
  pose proof (palette_wf_len _ Hp). unfold non_scrollback_len.
  change (zlen (enc c_Cursor (rp_cursor (ht_replica t)))) with 7.
  change (zlen (enc c_Modes (rp_modes (ht_replica t)))) with 6.
  rewrite Hc, Hz, Hr in Hle. unfold S_MAX, LINKS_MAX, URI_MAX, CELL_MAX, TITLE_MAX, MAX_COLS, MAX_ROWS in *. nia.
Qed.

Lemma terminal_encoded_fits t :
  term_inv t → (non_scrollback_len t + ht_scrollback_bytes t <= S_MAX ∨ sb t = []) →
  encoded_len (ht_replica t) <= S_MAX.
Proof.
  intros Hi Hf. etrans; [by apply encoded_le|]. destruct Hf as [Hf|Hf]; [done|].
  pose proof (non_scrollback_fits t Hi). rewrite (so_total _ _ (ti_scroll _ Hi)), (so_bytes _ _ (ti_scroll _ Hi)), Hf.
  cbn. lia.
Qed.

Lemma ascending_seqZ (l : list (Z * RowData)) a : l.*1 = seqZ a (zlen l) → strictly_ascending fst l = Ok tt.
Proof.
  revert a. induction l as [|[i row] l IH]; intros a E; [done|]. rewrite fmap_cons, zlen_cons in E.
  pose proof (zlen_nonneg l). rewrite seqZ_cons in E by lia. injection E as -> E.
  replace (Z.pred (1 + zlen l)) with (zlen l) in E by lia. cbn [strictly_ascending].
  destruct l as [|[j row'] l]; [done|]. rewrite (IH _ E). rewrite fmap_cons, zlen_cons in E.
  pose proof (zlen_nonneg l). rewrite seqZ_cons in E by lia. injection E as -> _. cbn [fst].
  case_match eqn:Ele; [apply Z.leb_le in Ele; lia|done].
Qed.

Lemma ascending_links (m : gmap Z String) :
  strictly_ascending hyperlink_id ((λ p, mk_Hyperlink p.1 p.2) <$> bt_iter m) = Ok tt.
Proof.
  assert (StronglySorted Z.le (bt_iter m).*1 ∧ NoDup (bt_iter m).*1) as [Hs Hn].
  { rewrite bt_iter_keys. split; [exact (bs_iter_sorted (dom m))|apply NoDup_bs_iter]. }
  induction (bt_iter m) as [|[i u] l IH]; [done|]. cbn in Hs, Hn. apply StronglySorted_inv in Hs as [Hs Hi].
  apply NoDup_cons in Hn as [Hni Hn]. specialize (IH Hs Hn). destruct l as [|[j w] l]; [done|].
  cbn in Hi, Hni. apply Forall_cons in Hi as [Hij _]. 
  change (strictly_ascending hyperlink_id ((λ p, mk_Hyperlink p.1 p.2) <$> (j, w) :: l) = Ok tt) in IH.
  change ((if j <=? i then Err BadOrder
    else strictly_ascending hyperlink_id ((λ p, mk_Hyperlink p.1 p.2) <$> (j, w) :: l)) = Ok tt).
  rewrite IH. destruct (j <=? i) eqn:E; [|done]. apply Z.leb_le in E. exfalso. apply Hni. apply elem_of_cons. left. lia.
Qed.

(** The body of a snapshot is a value of the wire format. *)
Lemma body_wf t : term_inv t → ht_next_line_id t <= u64_max → wf c_SBody (to_body (ht_replica t)) = true.
Proof.
  intros Hi Hn. destruct (armed_parts (ht_engine t)) as (_ & _ & Hcols & Hrows & _); [split; apply Hi|].
  destruct (ti_size _ Hi) as (Hc & Hr & Hz). destruct (ti_misc _ Hi) as (Hcur & Hm & Hp & Ht & Htl).
  destruct (ti_links _ Hi) as [Hl Hh]. pose proof (ti_scroll _ Hi) as Hs.
  destruct (scroll_contiguous _ _ Hs) as [_ Hids].
  destruct (ti_count _ Hi) as [Hcount Htr]. destruct (ti_armed _ Hi) as [Hsb _].
  pose proof (va_history _ (ti_vt _ Hi)) as Hh32.
  assert (∀ c rows, Forall (row_good c) rows → forallb (wf c_RowData) rows = true ∧
    forallb (λ row, zlen (row_cells row) =? c) rows = true) as Hrg.
  { intros c rows. induction 1 as [|row rows (H1 & H2 & _) _ [IH1 IH2]]; [done|]. cbn [forallb].
    rewrite IH1, IH2, H2, H1, Z.eqb_refl. done. }
  destruct (Hrg _ _ (ti_screen _ Hi)) as [Hs1 Hs2].
  assert (forallb (λ p : Z * RowData, zlen (row_cells p.2) =? rp_cols (ht_replica t)) (sb t) = true ∧
    forallb (wf (c_pair c_u64 c_RowData)) (sb t) = true) as [Hs5 Hs6].
  { pose proof (so_rows _ _ Hs) as Hrows'. rewrite Forall_forall in Hrows'.
    split; apply forallb_forall; intros p Hin%list_elem_of_In;
      destruct (Hrows' p.2 (list_elem_of_fmap_2 snd _ _ Hin)) as (Hw & Hwf & _); [by apply Z.eqb_eq|].
    cbn [wf c_pair]. rewrite Hwf, andb_true_r. specialize (Hids p Hin). cbn. unfold is_u64, in_range. lia. }
  assert (forallb (wf c_Hyperlink) ((λ p, mk_Hyperlink p.1 p.2) <$> bt_iter (rp_hyperlinks (ht_replica t))) = true ∧
    fits_u32 ((λ p, mk_Hyperlink p.1 p.2) <$> bt_iter (rp_hyperlinks (ht_replica t))) = true) as [Hl1 Hl2].
  { rewrite Hh. split.
    - apply forallb_forall. intros h Hin%list_elem_of_In. apply list_elem_of_fmap in Hin as ([id u] & -> & Hin).
      apply elem_of_bt_iter in Hin. pose proof (lo_ids _ Hl _ _ Hin). pose proof (lo_next _ Hl). pose proof (lo_uris _ Hl _ _ Hin) as [Hu Hul].
      cbn [wf c_Hyperlink hyperlink_id hyperlink_uri c_string fst snd]. unfold Hyperlink_check. cbn [hyperlink_id].
      replace (id =? 0) with false by lia. rewrite Hu. change (wf c_u32 id) with (is_u32 id).
      unfold fits_u32, is_u32, in_range, URI_MAX, u32_max in *. repeat (apply andb_true_iff; split); try done; apply Z.leb_le; lia.
    - unfold fits_u32, zlen. rewrite length_fmap, length_links. pose proof (lo_size _ Hl). apply Z.leb_le.
      unfold LINKS_MAX, u32_max in *. lia. }
  unfold to_body. cbn [wf c_SBody sbody_cols sbody_rows sbody_screen sbody_cursor sbody_modes sbody_palette sbody_title
    sbody_hyperlinks sbody_scrollback sbody_exit_info c_vec c_string]. rewrite Hcur, Hm, Hp, (ti_exit _ Hi), Hs1, Hl1, Hl2, Hs6, Ht.
  unfold SBody_check. cbn [sbody_cols sbody_rows sbody_screen sbody_hyperlinks sbody_scrollback].
  rewrite Hs2, Hs5, Hz, Z.eqb_refl, ascending_links, (ascending_seqZ _ _ (so_ids _ _ Hs)).
  cbn [andb negb orb dr_and dr_if is_ok]. rewrite !andb_true_r. unfold fits_u32, TITLE_MAX, MAX_COLS, MAX_ROWS, u32_max in *.
  change (wf c_u16 (rp_cols (ht_replica t))) with (is_u16 (rp_cols (ht_replica t))).
  change (wf c_u16 (rp_rows (ht_replica t))) with (is_u16 (rp_rows (ht_replica t))).
  unfold is_u16, in_range, u16_max. repeat (apply andb_true_iff; split); try done; apply Z.leb_le; lia.
Qed.

(** ** Runs *)

(** The library's answers to one call, or the exit of the child. *)
Inductive TermCall : Type :=
| TCall (v : Vt) (cbs : list Callback) (tracked : option Z)
| TExit (e : ExitInfo).

Section runs.
Context (xxh3_64 : list byte → Z).

Definition term_step (c : TermCall) (t : HostTerminal) : option HostTerminal :=
  match c with
  | TCall v cbs tracked => fst <$> terminal_call xxh3_64 v cbs tracked t
  | TExit e => Some (set_exit e t)
  end.
Fixpoint term_run (cs : list TermCall) (t : HostTerminal) : option HostTerminal :=
  match cs with [] => Some t | c :: cs' => t' ← term_step c t; term_run cs' t' end.

(** The library answers as documented, and the counters of lines and links do not
    reach their width. *)
Definition term_call_ok (c : TermCall) (t : HostTerminal) : Prop :=
  match c with
  | TCall v _ tracked => vt_answers v ∧ call_room v t ∧ (∀ y, tracked = Some y → 0 <= y)
  | TExit e => wf c_ExitInfo e = true
  end.
Fixpoint term_valid (cs : list TermCall) (t : HostTerminal) : Prop :=
  match cs with
  | [] => True
  | c :: cs' => term_call_ok c t ∧ ∀ t', term_step c t = Some t' → term_valid cs' t'
  end.

(** A terminal on a fresh library state. *)
Definition term_start (v : Vt) : option HostTerminal := terminal_new <$> engine_new xxh3_64 v.
End runs.

Definition term_ok (t : HostTerminal) : Prop :=
  term_inv t ∧ ht_next_line_id t <= u64_max ∧
  (non_scrollback_len t + ht_scrollback_bytes t <= S_MAX ∨ sb t = []).

Lemma term_step_ok xxh c t :
  term_ok t → term_call_ok c t → ∃ t', term_step xxh c t = Some t' ∧ term_ok t'.
Proof.
  intros (Hi & Hn & Hf) Hc. destruct c as [v cbs tr|e].
  - destruct Hc as (Hv & Hr & Htr).
    destruct (terminal_call_spec xxh v cbs tr t Hi Hv Hr Htr) as (t' & a & E & Hi' & _ & _ & Hn' & Hf' & _).
    exists t'. cbn [term_step]. rewrite E. split; [done|]. split; [done|]. split; [lia|done].
  - exists (set_exit e t). split; [done|]. destruct Hi. split; [|done]. split; try done. destruct ti_scroll0. by split.
Qed.

Lemma term_run_ok xxh cs t : term_ok t → term_valid xxh cs t → ∃ t', term_run xxh cs t = Some t' ∧ term_ok t'.
Proof.
  revert t. induction cs as [|c cs IH]; intros t Ht Hv; [by exists t|]. destruct Hv as [Hc Hv].
  destruct (term_step_ok xxh c t Ht Hc) as (t1 & E & Ht1). cbn. rewrite E. cbn. auto.
Qed.

Lemma cell_count_width cols rows : Forall (row_answers cols) rows → cell_count rows = zlen rows * cols.
Proof.
  induction 1 as [|r rows Hr _ IH]; [done|]. rewrite zlen_cons.
  change (cell_count (r :: rows)) with (zlen (rr_cells r) + cell_count rows). rewrite (ra_width _ _ Hr), IH. lia.
Qed.

Lemma term_start_ok xxh v :
  vt_answers v → vt_history v = [] → ∃ t, term_start xxh v = Some t ∧ term_ok t ∧ clean t.
Proof.
  intros Hv Hh. unfold term_start, engine_new. destruct (arm_total xxh v [] Hv) as [e E]. rewrite E.
  destruct (arm_armed _ _ _ _ Hv E) as (Ha & Hve & _). eexists. split; [done|].
  unfold terminal_new. set (t0 := mk_HostTerminal _ _ _ _ _ _ _ _).
  destruct (armed_parts _ Ha) as (_ & Hact & Hcols & Hrows & Hz).
  assert (rebuild_pre true t0) as Hp.
  { split; cbn [t0 ht_engine ht_links ht_replica ht_next_line_id]; [done|apply links_default_ok| |done|].
    - rewrite (cell_count_width _ _ Hact), Hz, Hve, Hh. change (cell_count []) with 0. cbn [lt_next link_table_default].
      unfold MAX_COLS, MAX_ROWS, u32_max in *. nia.
    - rewrite Hve, Hh. done. }
  destruct (rebuild_spec true t0 Hp) as [Hi Hcl He _ _ Hn _ _]. split; [|done]. split; [done|].
  cbn in Hn. rewrite Hve, Hh in Hn. change (zlen []) with 0 in Hn. split; [unfold u64_max; lia|]. right.
  destruct (ti_count _ Hi) as [Hc Ht]. destruct (ti_armed _ Hi) as [Hs _]. rewrite Hs, He in Hc. cbn in Hc.
  rewrite Hve, Hh in Hc. change (zlen []) with 0 in Hc. apply zlen_0_inv. pose proof (zlen_nonneg (sb (rebuild true t0))). lia.
Qed.

(** ** Theorems *)

(** C38: In every run the terminal's state is a well-formed snapshot body of at
    most [S_MAX] (64 MiB) encoded bytes, whatever the child writes: cells, titles, links and
    modes are values of the wire format, and trimming keeps the size. *)
Theorem terminal_state_encodable xxh v cs t0 :
  vt_answers v → vt_history v = [] → term_start xxh v = Some t0 → term_valid xxh cs t0 →
  ∃ t, term_run xxh cs t0 = Some t ∧ wf c_SBody (to_body (ht_replica t)) = true ∧
    encoded_len (ht_replica t) <= 67108864.
Proof.
  intros Hv Hh Hs Hc. destruct (term_start_ok xxh v Hv Hh) as (t1 & E & Ht & _). rewrite Hs in E. simplify_eq.
  destruct (term_run_ok xxh cs t1 Ht Hc) as (t & Er & Hi & Hn & Hf). exists t. split; [done|].
  split; [by apply body_wf|]. by apply terminal_encoded_fits.
Qed.

(** A call that does not rewrite the scrollback publishes a delta that takes a
    client from the state before the call to the state after it: applied to the
    old state it gives the new one without its unreferenced links, and the new one
    itself when no row was trimmed. *)
Theorem terminal_delta_exact xxh v cs t0 t w cbs tr :
  vt_answers v → vt_history v = [] → term_start xxh v = Some t0 → term_valid xxh cs t0 →
  term_run xxh cs t0 = Some t → clean t → term_call_ok (TCall w cbs tr) t →
  ∃ t' a, terminal_call xxh w cbs tr t = Some (t', a) ∧
    (ad_rewritten a = false → ∃ d, ad_delta a = Some d ∧
       apply_delta d (ht_replica t) = (prune_hyperlinks (ht_replica t'), ad_ui_events a)) ∧
    (ht_trimmed t' = 0 → clean t' ∧ prune_hyperlinks (ht_replica t') = ht_replica t').
Proof.
  intros Hv Hh Hs Hc Hr Hcl (Hw & Hroom & Htr). destruct (term_start_ok xxh v Hv Hh) as (t1 & E & Ht & _).
  rewrite Hs in E. simplify_eq. destruct (term_run_ok xxh cs t1 Ht Hc) as (t2 & Er & Hi & Hn & _). rewrite Hr in Er. simplify_eq.
  destruct (terminal_call_spec xxh w cbs tr t2 Hi Hw Hroom Htr) as (t' & a & Ec & Hi' & _ & _ & Hn' & _ & Hcl' & Hd).
  exists t', a. split; [done|]. split.
  - intros Hrw. destruct (Hd Hrw) as (d & Ed & Hui & Hrel & _). exists d. split; [done|]. rewrite <- Hui.
    apply apply_delta_rel; [|apply pruned_wf; [done|lia]|done].
    rewrite <- (clean_pruned t2 Hcl). by apply pruned_wf.
  - intros Htm. split; [by apply Hcl'|]. by apply clean_pruned, Hcl'.
Qed.

(** ** Witnesses *)

Definition demo_style : Style :=
  mk_Style (mk_StyleColor 1 7 (0, 0, 0)) (mk_StyleColor 2 0 (1, 2, 3)) (mk_StyleColor 0 0 (0, 0, 0))
    true false false false false false false false 3.
Definition demo_raw (uri : option (list byte)) : RawRow :=
  mk_RawRow false [mk_RawCell 0 (Some 2, 97 :: 769 :: replicate 62 0) demo_style uri].
Definition demo_vt (history : list RawRow) (uri : option (list byte)) : Vt :=
  mk_Vt 1 1 0 history [demo_raw uri] (λ m, Some (m =? 25)) (λ _, None) (replicate 256 (0, 0, 0))
    ((9, 9, 9) :: replicate 255 (0, 0, 0)) (Some 0) None (Some true) 0 5 (Some [x74; xff]).
Definition demo_uri : list byte := [x68; x3a].
Definition demo_start : option HostTerminal := term_start (λ _, 0) (demo_vt [] None).
Definition demo_term : HostTerminal :=
  default (terminal_new (mk_VtEngine (demo_vt [] None) [] 0 1 1 0 None)) demo_start.
(** A row with a link scrolls into the history and the bell rings. *)
Definition demo_term_calls : list TermCall := [TCall (demo_vt [demo_raw (Some demo_uri)] None) [CbBell] None].

Lemma demo_answers history uri :
  Forall (λ r, r = demo_raw None ∨ r = demo_raw (Some demo_uri)) history → zlen history <= 9 →
  uri = None ∨ uri = Some demo_uri → vt_answers (demo_vt history uri).
Proof.
  intros Hh Hl Hu.
  assert (∀ u, u = None ∨ u = Some demo_uri → row_answers 1 (demo_raw u)) as Hrow.
  { intros u Hu'. split; [done|]. constructor; [|constructor]. split.
    - intros n [= <-]. lia.
    - split; [done|]. repeat (constructor; [by vm_compute|]). constructor.
    - repeat constructor; by vm_compute.
    - intros w Hw. cbn in Hw. destruct Hu' as [->| ->]; [done|]. by simplify_eq. }
  split; cbn; try done.
  - unfold u32_max. lia.
  - apply Forall_app. split; [|constructor; [by apply Hrow|constructor]].
    eapply Forall_impl; [exact Hh|]. intros r [->| ->]; apply Hrow; [by left|by right].
  - split; [done|]. split; [done|]. change (Forall rgb_ok (replicate 256 (0, 0, 0))). apply Forall_replicate. by vm_compute.
Qed.

Lemma demo_term_valid : term_valid (λ _, 0) demo_term_calls demo_term.
Proof.
  split; [|done]. split; [apply demo_answers; [constructor; [by right|constructor]|done|by left]|].
  split; [|done]. split; by vm_compute.
Qed.

Lemma terminal_state_encodable_witness :
  ∃ t, term_run (λ _, 0) demo_term_calls demo_term = Some t ∧ encoded_len (ht_replica t) <= 67108864.
Proof.
  destruct (terminal_state_encodable (λ _, 0) (demo_vt [] None) demo_term_calls demo_term) as (t & H1 & _ & H2).
  - apply demo_answers; [constructor|done|by left].
  - reflexivity.
  - by vm_compute.
  - exact demo_term_valid.
  - exists t. split; [exact H1|exact H2].
Defined.

(** The next call shows a link on the screen and scrolls another row out. *)
Definition demo_term1 : HostTerminal := default demo_term (term_run (λ _, 0) demo_term_calls demo_term).
Definition demo_vt1 : Vt := demo_vt [demo_raw (Some demo_uri); demo_raw None] (Some demo_uri).

Lemma terminal_delta_exact_witness :
  ∃ t' a d, terminal_call (λ _, 0) demo_vt1 [CbBell] (Some 0) demo_term1 = Some (t', a) ∧
    ad_delta a = Some d ∧ apply_delta d (ht_replica demo_term1) = (ht_replica t', ad_ui_events a).
Proof.
  destruct (terminal_delta_exact (λ _, 0) (demo_vt [] None) demo_term_calls demo_term demo_term1
    demo_vt1 [CbBell] (Some 0)) as (t' & a & E & Hd & Htr).
  - apply demo_answers; [constructor|done|by left].
  - reflexivity.
  - by vm_compute.
  - exact demo_term_valid.
  - by vm_compute.
  - by vm_compute.
  - split; [apply demo_answers; [constructor; [by right|constructor; [by left|constructor]]|done|by right]|].
    split; [split; by vm_compute|]. by intros y [= <-].
  - assert ((λ p : HostTerminal * Advance, (ad_rewritten p.2, ht_trimmed p.1)) <$>
      terminal_call (λ _, 0) demo_vt1 [CbBell] (Some 0) demo_term1 = Some (false, 0)) as Hp by (by vm_compute).
    rewrite E in Hp. injection Hp as Hrw Ht0.
    destruct (Hd Hrw) as (d & Ed & Ha). destruct (Htr Ht0) as [_ Hpr]. rewrite Hpr in Ha.
    exists t', a, d. split_and!; [exact E|exact Ed|exact Ha].
Defined.
