(* ===== verification/TerminalView.v ===== *)
(** * TerminalView: the state shows what the library holds

    Up to hyperlink ids, the rows of the replicated state are the rows of the
    library: the screen is the active area, and the scrollback is the history
    without the rows trimmed to the size limit.  Incremental updates rely on the
    library's tracked reference; what it promises is [tracked_ok]. *)

From S2P Require Import Prelude Wire Types Replica ReplicaSpec Utf8 Vt Terminal TerminalSpec.
From Stdlib Require Import ZArith Lia Strings.Byte.
From stdpp Require Import base gmap list option.

#[local] Open Scope Z_scope.

(** ** Rows without link ids *)

Definition erase_cell (c : Cell) : Cell :=
  mk_Cell (cell_codepoint c) (cell_grapheme_extra c) (cell_width c) (cell_fg c) (cell_bg c) (cell_underline_color c)
    (cell_attrs c) 0.
Definition erase_row (r : RowData) : RowData := mk_RowData (row_wrapped r) (erase_cell <$> row_cells r).

(** A row of the library as the wire format shows it. *)
Definition plain_row (r : RawRow) : RowData := erase_row (read_row r link_table_default).1.

Lemma read_cells_erase cs t t' : erase_cell <$> (read_cells cs t).1 = erase_cell <$> (read_cells cs t').1.
Proof.
  revert t t'. induction cs as [|c cs IH]; intros t t'; [done|]. cbn.
  assert (erase_cell (read_cell c t).1 = erase_cell (read_cell c t').1) as Hc.
  { unfold read_cell. destruct (match ce_uri c with Some (b :: u) => _ | _ => (t, 0) end).
    by destruct (match ce_uri c with Some (b :: u) => _ | _ => (t', 0) end). }
  destruct (read_cell c t) as [a l], (read_cell c t') as [a' l']. specialize (IH l l').
  destruct (read_cells cs l), (read_cells cs l'). cbn in *. by rewrite Hc, IH.
Qed.

Lemma read_rows_plain rows t : erase_row <$> (read_rows rows t).1 = plain_row <$> rows.
Proof.
  revert t. induction rows as [|r rows IH]; intros t; [done|]. cbn. unfold plain_row at 1, read_row.
  pose proof (read_cells_erase (rr_cells r) t link_table_default) as Hc.
  destruct (read_cells (rr_cells r) t) as [cs l], (read_cells (rr_cells r) link_table_default). specialize (IH l).
  destruct (read_rows rows l). cbn in *. unfold erase_row at 1 3. cbn. unfold fmap in *. by rewrite Hc, IH.
Qed.

(** ** The view *)

Record mirrors (t : HostTerminal) : Prop := {
  mi_scroll : erase_row <$> (sb t).*2 = plain_row <$> drop (Z.to_nat (ht_trimmed t)) (vt_history (ve_vt (ht_engine t)));
  mi_screen : erase_row <$> rp_screen (ht_replica t) = plain_row <$> vt_active (ve_vt (ht_engine t));
  mi_cursor : rp_cursor (ht_replica t) = cursor (vt_cols (ve_vt (ht_engine t))) (vt_rows (ve_vt (ht_engine t))) (ve_vt (ht_engine t));
  mi_rest : rp_modes (ht_replica t) = modes (ve_vt (ht_engine t)) ∧ rp_palette (ht_replica t) = palette (ve_vt (ht_engine t)) ∧
    rp_title (ht_replica t) = title (ve_vt (ht_engine t));
}.

Section view.
Context (xxh3_64 : list byte → Z).

(** The anchor is on the newest row of the history. *)
Definition anchored (e : VtEngine) : Prop :=
  ∀ a, ve_anchor e = Some a → an_y a = zlen (vt_history (ve_vt e)) - 1 ∧ vt_history (ve_vt e) ≠ [].

(** What a tracked reference promises: when the row it was set on is still in the
    history, at [y] and with the content it was set on, the rows up to it are the old
    ones, those evicted from the front apart. *)
Definition tracked_ok (e : VtEngine) (v : Vt) (tracked : option Z) : Prop :=
  ∀ a y row, ve_anchor e = Some a → tracked = Some y → 0 <= y <= an_y a →
    vt_cols v = ve_cols e → vt_rows v = ve_rows e → vt_screen v = ve_screen e →
    vt_history v !! Z.to_nat y = Some row → row_hash xxh3_64 row = an_hash a →
    take (S (Z.to_nat y)) (vt_history v) = drop (Z.to_nat (an_y a - y)) (vt_history (ve_vt e)).

Lemma arm_anchored v fx e : vt_answers v → arm xxh3_64 v fx = Some e → anchored e.
Proof.
  intros Hv. unfold arm. intros H. apply bind_Some in H as (a & Ha & H). simplify_eq. intros a' E. cbn in *. subst a.
  pose proof (va_history _ Hv). pose proof (zlen_nonneg (vt_history v)). unfold u32_max in *.
  destruct (zlen (vt_history v) =? 0) eqn:E0; [done|]. apply bind_Some in Ha as (row & _ & Ha). simplify_eq. cbn.
  apply Z.eqb_neq in E0. rewrite Z.mod_small by lia. split; [done|]. intros En. by rewrite En in E0.
Qed.

(** Rows reported as appended are the end of the history; the rest is the old
    history without the evicted rows. *)
Lemma appended_split tr v fx e e' ev ap :
  armed e → anchored e → observe xxh3_64 tr v fx e = Some (e', Appended ev ap) → tracked_ok e v tr →
  (∀ y, tr = Some y → 0 <= y) → (ve_anchor e = None → ve_sb_rows e = 0) →
  ∃ new, vt_history v = drop (Z.to_nat ev) (vt_history (ve_vt e)) ++ new ∧ zlen new = ap ∧
    0 <= ev <= zlen (vt_history (ve_vt e)).
Proof.
  intros (Hv & Hsb & _) Han H Hok Htr Hnone. unfold observe in H. apply bind_Some in H as (s & Hs & H).
  apply bind_Some in H as (e1 & _ & H). injection H as _ ->.
  destruct (negb (vt_cols v =? _) || _ || _) eqn:E; [done|].
  apply orb_false_iff in E as [[E1 E2]%orb_false_iff E3]. apply negb_false_iff, Z.eqb_eq in E1, E2, E3.
  pose proof (zlen_nonneg (vt_history (ve_vt e))) as Hz0.
  destruct (ve_anchor e) as [a|] eqn:Ea.
  - destruct tr as [y|]; [|done]. specialize (Htr y eq_refl).
    destruct ((an_y a <? y) || (zlen (vt_history v) <=? y)) eqn:E4; [done|].
    apply orb_false_iff in E4 as [E4%Z.ltb_ge E5%Z.leb_gt]. case_match eqn:E6; [done|].
    apply bind_Some in Hs as (row & Hrow & Hs).
    destruct (negb (row_hash xxh3_64 row =? an_hash a)) eqn:Eh; [done|]. apply negb_false_iff, Z.eqb_eq in Eh. simplify_eq.
    destruct (Han a Ea) as [Hy Hne].
    pose proof (Hok a y row Ea eq_refl ltac:(lia) E1 E2 E3 Hrow Eh) as Ht.
    exists (drop (S (Z.to_nat y)) (vt_history v)). rewrite <- Ht. split; [symmetry; apply take_drop|]. split; [|lia].
    unfold zlen in *. rewrite length_drop. lia.
  - specialize (Hnone eq_refl). rewrite Hnone in Hs, Hsb. cbn in Hs. simplify_eq.
    exists (vt_history v). split; [|split; [done|lia]]. symmetry in Hsb. apply zlen_0_inv in Hsb. by rewrite Hsb.
Qed.

(** ** Row by row *)

Lemma push_rows_view rows t :
  (sb (push_back_rows rows t)).*2 = (sb t).*2 ++ rows ∧ ht_trimmed (push_back_rows rows t) = ht_trimmed t ∧
  ht_engine (push_back_rows rows t) = ht_engine t.
Proof.
  revert t. induction rows as [|r rows IH]; intros t; [by rewrite app_nil_r|].
  change (push_back_rows (r :: rows) t) with (push_back_rows rows (push_back_row r t)).
  destruct (IH (push_back_row r t)) as (E1 & E2 & E3). rewrite E1, E2, E3. cbn. rewrite fmap_app, <- app_assoc. done.
Qed.

Lemma pop_row_view t :
  sb (pop_front_row t) = tail (sb t) ∧ ht_trimmed (pop_front_row t) = ht_trimmed t ∧
  ht_engine (pop_front_row t) = ht_engine t.
Proof. unfold pop_front_row. by destruct (ht_row_bytes t). Qed.

Lemma pop_rows_view n t :
  sb (Nat.iter n pop_front_row t) = drop n (sb t) ∧ ht_trimmed (Nat.iter n pop_front_row t) = ht_trimmed t ∧
  ht_engine (Nat.iter n pop_front_row t) = ht_engine t.
Proof.
  induction n as [|n (E1 & E2 & E3)]; [done|]. rewrite Nat.iter_succ.
  destruct (pop_row_view (Nat.iter n pop_front_row t)) as (-> & -> & ->). rewrite E1, E2, E3. split; [|done].
  rewrite <- (Nat.add_1_r n), <- drop_drop. by destruct (drop n (sb t)).
Qed.

Lemma rebuild_mirrors s t :
  armed (ht_engine t) →
  (s = false → erase_row <$> (sb t).*2 = plain_row <$> drop (Z.to_nat (ht_trimmed t)) (vt_history (ve_vt (ht_engine t)))) →
  mirrors (rebuild s t) ∧ ht_engine (rebuild s t) = ht_engine t.
Proof.
  intros (_ & _ & Hc & Hr) Hs. unfold rebuild, read_screen.
  pose proof (read_rows_plain (vt_active (ve_vt (ht_engine t))) (ht_links t)) as Hscr.
  destruct (read_rows (vt_active (ve_vt (ht_engine t))) (ht_links t)) as [screen links1]. cbn [fst] in Hscr.
  destruct s.
  - unfold read_scrollback. cbn [ht_engine with_links ht_links]. rewrite drop_0.
    pose proof (read_rows_plain (vt_history (ve_vt (ht_engine t))) links1) as Hsb.
    destruct (read_rows (vt_history (ve_vt (ht_engine t))) links1) as [rows links2]. cbn [fst] in Hsb.
    set (t0 := mk_HostTerminal _ _ links2 _ _ [] 0 0). destruct (push_rows_view rows t0) as (E1 & E2 & E3).
    split; [|exact E3]. split; cbn [ht_replica ht_engine with_links with_replica rp_scrollback rp_screen rp_cursor
      rp_modes rp_palette rp_title ht_trimmed ss_screen ss_cursor ss_modes ss_palette ss_title ss_cols ss_rows]; rewrite ?E1, ?E2, ?E3; cbn; try done.
    by rewrite Hc, Hr.
  - split; [|done]. split; cbn; try done; [by apply Hs|by rewrite Hc, Hr].
Qed.

(** What a step of the engine reports about the history. *)
Definition step_honest (e : VtEngine) (v : Vt) (step : Step) : Prop :=
  match step with
  | Rewritten => True
  | Appended ev ap => ∃ new, vt_history v = drop (Z.to_nat ev) (vt_history (ve_vt e)) ++ new ∧ zlen new = ap ∧
      0 <= ev <= zlen (vt_history (ve_vt e))
  end.

Lemma follow_mirrors e' step t :
  mirrors t → term_inv t → armed e' → step_honest (ht_engine t) (ve_vt e') step →
  let '(t', _, _, _) := follow step (with_engine e' t) in mirrors t'.
Proof.
  intros Hm Hi He Hst. destruct step as [ev ap|]; [|by apply rebuild_mirrors].
  destruct Hst as (new & Hh & Hap & Hev). unfold follow, pop_evicted.
  destruct (ti_count _ Hi) as [Hcount Htr]. destruct (ti_armed _ Hi) as [Hsb _]. pose proof (zlen_nonneg (sb t)) as Hz.
  set (t0 := with_trimmed _ (with_engine e' t)). set (k := Z.to_nat _).
  destruct (pop_rows_view k t0) as (P1 & P2 & P3). set (t1 := Nat.iter k pop_front_row t0) in *.
  unfold scrollback_rows, read_scrollback. rewrite P3. change (ht_engine t0) with e'.
  set (from := Z.to_nat _). pose proof (read_rows_plain (drop from (vt_history (ve_vt e'))) (ht_links t1)) as Hrows.
  destruct (read_rows (drop from _) (ht_links t1)) as [rows links]. cbn [fst] in Hrows.
  destruct (push_rows_view rows (with_links links t1)) as (Q1 & Q2 & Q3).
  set (t2 := push_back_rows rows (with_links links t1)) in *.
  assert (ht_engine t2 = e') as E2 by (rewrite Q3; cbn; by rewrite P3).
  destruct (negb _); [apply rebuild_mirrors; [by rewrite E2|done]|].
  apply rebuild_mirrors; [by rewrite E2|]. intros _. rewrite E2, Q1, Q2. cbn [with_links ht_replica ht_trimmed].
  rewrite P1, P2, fmap_app, Hrows. change (sb t0) with (sb t).
  change (ht_trimmed t0) with (ht_trimmed t - Z.min ev (ht_trimmed t)).
  assert (from = length (drop (Z.to_nat ev) (vt_history (ve_vt (ht_engine t))))) as Hfrom.
  { unfold from. destruct He as (_ & -> & _). rewrite Hh. unfold sat_sub, zlen in *. rewrite length_app, length_drop. lia. }
  assert (drop from (vt_history (ve_vt e')) = new) as -> by (rewrite Hfrom, Hh; apply drop_app_length).
  rewrite Hh, drop_app_le by (rewrite length_drop; unfold zlen in *; lia). rewrite !fmap_app. f_equal.
  rewrite !fmap_drop, (mi_scroll _ Hm), !fmap_drop, !drop_drop. f_equal.
  unfold k. change (sb t0) with (sb t). unfold zlen in *. cbn [ht_trimmed with_engine]. lia.
Qed.

Lemma call_mirrors v cbs tr t t' a :
  mirrors t → term_inv t → anchored (ht_engine t) → (ve_anchor (ht_engine t) = None → ve_sb_rows (ht_engine t) = 0) →
  vt_answers v → call_room v t → (∀ y, tr = Some y → 0 <= y) → tracked_ok (ht_engine t) v tr →
  terminal_call xxh3_64 v cbs tr t = Some (t', a) →
  mirrors t' ∧ anchored (ht_engine t') ∧ (ve_anchor (ht_engine t') = None → ve_sb_rows (ht_engine t') = 0).
Proof.
  intros Hm Hi Han Hnone Hv Hroom Htr Hok Hcall. unfold terminal_call, engine_call in Hcall.
  apply bind_Some in Hcall as ([e step] & Eo & Hcall). injection Hcall as Hadv.
  destruct (observe_armed _ _ _ _ _ _ _ Hv Eo) as (He & Hev & _).
  assert (armed (ht_engine t)) as Hae by (split; [apply Hi|apply Hi]).
  assert (step_honest (ht_engine t) (ve_vt e) step) as Hst.
  { destruct step as [ev ap|]; [|done]. rewrite Hev. by eapply appended_split. }
  assert (anchored e ∧ (ve_anchor e = None → ve_sb_rows e = 0)) as [Han' Hnone'].
  { unfold observe in Eo. apply bind_Some in Eo as (s & _ & Eo). apply bind_Some in Eo as (e1 & Ea & Eo).
    injection Eo as -> _. split; [by eapply arm_anchored|]. intros Hn. unfold arm in Ea.
    apply bind_Some in Ea as (an & Ha & Ea). injection Ea as <-. cbn in Hn |- *. subst an.
    destruct (_ =? 0) eqn:E0; [by apply Z.eqb_eq|]. by apply bind_Some in Ha as (row & _ & Ha). }
  pose proof (follow_mirrors e step t Hm Hi He Hst) as Hf.
  pose proof (follow_spec _ _ _ _ _ _ _ Hi Hv Hroom Htr Eo) as Hfo. cbv zeta in Hfo.
  unfold advance in Hadv. destruct (follow step (with_engine e t)) as [[[t1 app] evd] rw].
  destruct Hfo as (Hfo & _ & _). pose proof (fo_engine _ _ _ _ _ Hfo) as Hen. cbn in Hen.
  cbn [take_effects] in Hadv. destruct (split_effects _ _) as [[replies ui] next].
  set (t2 := with_next_event_id next _) in *.
  assert (term_inv t2) as Hi2 by (apply inv_effects; try done; apply Hfo).
  assert (mirrors t2) as Hm2 by (destruct Hf; by split).
  unfold enforce_limit in Hadv. destruct (trim_spec t2 Hi2) as (n & t3 & Hn & Etr & Htb). rewrite Etr in Hadv.
  injection Hadv as <- _. destruct (tb_same _ _ _ Htb) as (He3 & _ & _ & _ & w & Hrep).
  assert (ve_anchor (ht_engine t3) = ve_anchor e ∧ ve_sb_rows (ht_engine t3) = ve_sb_rows e ∧
    ve_vt (ht_engine t3) = ve_vt e) as (A1 & A2 & A3) by (rewrite He3; cbn; by rewrite Hen).
  split; [|split; [intros a'; rewrite A1, A3; apply Han'|by rewrite A1, A2]].
  destruct (ti_count _ Hi2) as [C2 T2]. destruct (ti_count _ (tb_inv _ _ _ Htb)) as [C3 T3].
  rewrite (tb_sb _ _ _ Htb), He3 in C3.
  destruct Hm2 as [M1 M2 M3 M4]. split; rewrite ?He3.
  - rewrite (tb_sb _ _ _ Htb), !fmap_drop, M1, !fmap_drop, drop_drop. f_equal.
    unfold zlen in *. rewrite length_drop in C3. lia.
  - by rewrite Hrep.
  - by rewrite Hrep.
  - by rewrite Hrep.
Qed.
End view.

(** ** Runs *)

(** The tracked reference keeps its promise in every call of a run. *)
Fixpoint tracked_run (xxh : list byte → Z) (cs : list TermCall) (t : HostTerminal) : Prop :=
  match cs with
  | [] => True
  | c :: cs' =>
      match c with TCall v _ tracked => tracked_ok xxh (ht_engine t) v tracked | TExit _ => True end ∧
      ∀ t', term_step xxh c t = Some t' → tracked_run xxh cs' t'
  end.

(** What [call_mirrors] carries along. *)
Definition view_ok (t : HostTerminal) : Prop :=
  mirrors t ∧ anchored (ht_engine t) ∧ (ve_anchor (ht_engine t) = None → ve_sb_rows (ht_engine t) = 0).

Lemma start_view xxh v t : vt_answers v → term_start xxh v = Some t → view_ok t.
Proof.
  intros Hv H. unfold term_start, engine_new in H. apply fmap_Some in H as (e & Ea & ->).
  destruct (arm_armed _ _ _ _ Hv Ea) as (He & _). unfold terminal_new. set (t0 := mk_HostTerminal _ _ _ _ _ _ _ _).
  destruct (rebuild_mirrors true t0 He ltac:(done)) as [Hm Hen]. change (ht_engine t0) with e in Hen.
  split; [exact Hm|]. rewrite Hen. split; [by eapply arm_anchored|]. intros Hn. unfold arm in Ea.
  apply bind_Some in Ea as (an & Ha & Ea). injection Ea as <-. cbn in Hn |- *. subst an.
  destruct (_ =? 0) eqn:E0; [by apply Z.eqb_eq|]. by apply bind_Some in Ha as (row & _ & Ha).
Qed.

Lemma run_view xxh cs t t' :
  term_ok t → view_ok t → term_valid xxh cs t → tracked_run xxh cs t → term_run xxh cs t = Some t' → view_ok t'.
Proof.
  revert t. induction cs as [|c cs IH]; intros t Ht Hm Hv Hk Hr; [by simplify_eq/=|].
  destruct Hv as [Hc Hv]. destruct Hk as [Hk1 Hk]. destruct (term_step_ok xxh c t Ht Hc) as (t1 & E & Ht1).
  cbn in Hr. rewrite E in Hr. cbn in Hr. apply (IH t1); auto. destruct c as [v cbs tr|e].
  - destruct Hc as (Hv' & Hroom & Htr). cbn in E. apply fmap_Some in E as ([t2 a] & E & ->).
    destruct Hm as (Hm & Han & Hno). exact (call_mirrors xxh v cbs tr t t2 a Hm (proj1 Ht) Han Hno Hv' Hroom Htr Hk1 E).
  - injection E as <-. destruct Hm as ([M1 M2 M3 M4] & Han & Hno). split; [by split|done].
Qed.


(** ** Witness: the second call of the run reads one scrolled row *)

Definition demo_view_calls : list TermCall := demo_term_calls ++ [TCall demo_vt1 [CbBell] (Some 0)].

Lemma demo_view_step t : term_step (λ _, 0) (TCall (demo_vt [demo_raw (Some demo_uri)] None) [CbBell] None) demo_term = Some t →
  t = demo_term1.
Proof.
  intros H. unfold demo_term1, demo_term_calls. cbn [term_run]. rewrite H. done.
Qed.

