(* ===== verification/Subscription.v ===== *)
(** * Subscription (crates/session-core/src/subscription.rs)

    The host's side of one display subscription: deltas are queued, merged and
    sent; when the client falls behind, the queue is dropped and a snapshot is
    sent under a reservation of the snapshot budget.  Every operation returns the
    effects it adds to the session's list. *)

From S2P Require Import Prelude Wire Types Messages Replica ReplicaSpec.
From Stdlib Require Import ZArith Lia Strings.Byte.
From stdpp Require Import base gmap list option sorting.

#[local] Open Scope Z_scope.

Definition QUEUE_BYTES_LIMIT : Z := 4 * 1024 * 1024.
Definition QUEUE_MSG_LIMIT : Z := 256.
Definition SLOW_RESYNC_LIMIT : Z := 3.
Definition SEND_DEADLINE_MS : Z := 30000.

Inductive BudgetState : Type :=
| Idle
| Waiting (request_seq : Z)
| Sending (reservation_id snapshot_id deadline_ms : Z)
| Draining (reservation_id snapshot_id deadline_ms : Z)
| Closed.
#[global] Instance BudgetState_eq_dec : EqDecision BudgetState.
Proof. solve_decision. Defined.

Inductive Effect : Type :=
| SendAck (a : SubscribeAck)
| SendDelta (d : Delta)
| RequestReservation (subscription_id request_seq : Z)
| CancelRequest (subscription_id request_seq : Z)
| ReturnReservation (reservation_id : Z)
| BuildSnapshot (subscription_id snapshot_id reservation_id : Z)
| DropPending (subscription_id snapshot_id : Z)
| ArmDeadline (subscription_id reservation_id snapshot_id at_ms : Z)
| CancelDeadline (subscription_id : Z)
| CloseSlowConsumer (subscription_id : Z).

Record Subscription := mk_Subscription {
  su_id : Z;
  su_subscriber_id : Uuid;
  su_attach_seq : Z;
  su_base : Z;
  su_resync_pending : bool;
  su_resync_count : Z;
  su_request_seq : Z;
  su_next_snapshot_id : Z;
  su_budget : BudgetState;
  su_queue : list Delta;
  su_queue_bytes : Z;
  su_unreturned : list Z;
}.

(** Field assignment. *)
Definition with_id (v : Z) (s : Subscription) : Subscription :=
  mk_Subscription v (su_subscriber_id s) (su_attach_seq s) (su_base s) (su_resync_pending s)
    (su_resync_count s) (su_request_seq s) (su_next_snapshot_id s) (su_budget s) (su_queue s)
    (su_queue_bytes s) (su_unreturned s).
Definition with_subscriber_id (v : Uuid) (s : Subscription) : Subscription :=
  mk_Subscription (su_id s) v (su_attach_seq s) (su_base s) (su_resync_pending s)
    (su_resync_count s) (su_request_seq s) (su_next_snapshot_id s) (su_budget s) (su_queue s)
    (su_queue_bytes s) (su_unreturned s).
Definition with_attach_seq (v : Z) (s : Subscription) : Subscription :=
  mk_Subscription (su_id s) (su_subscriber_id s) v (su_base s) (su_resync_pending s)
    (su_resync_count s) (su_request_seq s) (su_next_snapshot_id s) (su_budget s) (su_queue s)
    (su_queue_bytes s) (su_unreturned s).
Definition with_base (v : Z) (s : Subscription) : Subscription :=
  mk_Subscription (su_id s) (su_subscriber_id s) (su_attach_seq s) v (su_resync_pending s)
    (su_resync_count s) (su_request_seq s) (su_next_snapshot_id s) (su_budget s) (su_queue s)
    (su_queue_bytes s) (su_unreturned s).
Definition with_resync_pending (v : bool) (s : Subscription) : Subscription :=
  mk_Subscription (su_id s) (su_subscriber_id s) (su_attach_seq s) (su_base s) v
    (su_resync_count s) (su_request_seq s) (su_next_snapshot_id s) (su_budget s) (su_queue s)
    (su_queue_bytes s) (su_unreturned s).
Definition with_resync_count (v : Z) (s : Subscription) : Subscription :=
  mk_Subscription (su_id s) (su_subscriber_id s) (su_attach_seq s) (su_base s)
    (su_resync_pending s) v (su_request_seq s) (su_next_snapshot_id s) (su_budget s) (su_queue s)
    (su_queue_bytes s) (su_unreturned s).
Definition with_request_seq (v : Z) (s : Subscription) : Subscription :=
  mk_Subscription (su_id s) (su_subscriber_id s) (su_attach_seq s) (su_base s)
    (su_resync_pending s) (su_resync_count s) v (su_next_snapshot_id s) (su_budget s) (su_queue s)
    (su_queue_bytes s) (su_unreturned s).
Definition with_next_snapshot_id (v : Z) (s : Subscription) : Subscription :=
  mk_Subscription (su_id s) (su_subscriber_id s) (su_attach_seq s) (su_base s)
    (su_resync_pending s) (su_resync_count s) (su_request_seq s) v (su_budget s) (su_queue s)
    (su_queue_bytes s) (su_unreturned s).
Definition with_budget (v : BudgetState) (s : Subscription) : Subscription :=
  mk_Subscription (su_id s) (su_subscriber_id s) (su_attach_seq s) (su_base s)
    (su_resync_pending s) (su_resync_count s) (su_request_seq s) (su_next_snapshot_id s) v
    (su_queue s) (su_queue_bytes s) (su_unreturned s).
Definition with_queue (v : list Delta) (s : Subscription) : Subscription :=
  mk_Subscription (su_id s) (su_subscriber_id s) (su_attach_seq s) (su_base s)
    (su_resync_pending s) (su_resync_count s) (su_request_seq s) (su_next_snapshot_id s)
    (su_budget s) v (su_queue_bytes s) (su_unreturned s).
Definition with_queue_bytes (v : Z) (s : Subscription) : Subscription :=
  mk_Subscription (su_id s) (su_subscriber_id s) (su_attach_seq s) (su_base s)
    (su_resync_pending s) (su_resync_count s) (su_request_seq s) (su_next_snapshot_id s)
    (su_budget s) (su_queue s) v (su_unreturned s).
Definition with_unreturned (v : list Z) (s : Subscription) : Subscription :=
  mk_Subscription (su_id s) (su_subscriber_id s) (su_attach_seq s) (su_base s)
    (su_resync_pending s) (su_resync_count s) (su_request_seq s) (su_next_snapshot_id s)
    (su_budget s) (su_queue s) (su_queue_bytes s) v.

Definition subscription_new (id : Z) (subscriber_id : Uuid) (attach_seq : Z) : Subscription :=
  mk_Subscription id subscriber_id attach_seq 0 false 0 0 1 Idle [] 0 [].

Definition is_closed (s : Subscription) : bool := bool_decide (su_budget s = Closed).

Definition clear_queue (s : Subscription) : Subscription := with_queue_bytes 0 (with_queue [] s).

Definition request (s : Subscription) : Subscription * list Effect :=
  let q := add64 (su_request_seq s) 1 in
  (with_budget (Waiting q) (with_request_seq q s), [RequestReservation (su_id s) q]).

Definition resync (s : Subscription) : Subscription * list Effect :=
  if is_closed s then (s, []) else
  let s := with_resync_pending true (clear_queue s) in
  match su_budget s with
  | Sending r sn dl => (with_budget (Draining r sn dl) s, [DropPending (su_id s) sn])
  | Idle => request s
  | _ => (s, [])
  end.

Definition start_with_ack (incarnation : Uuid) (revision : Z) (known : option (Z * Uuid)) (s : Subscription)
    : Subscription * list Effect :=
  if bool_decide (known = Some (revision, incarnation)) then
    (with_base revision s,
     [SendAck (mk_SubscribeAck (su_attach_seq s) (su_id s) incarnation revision false)])
  else
    let '(s', fx) := resync s in
    (s', SendAck (mk_SubscribeAck (su_attach_seq s) (su_id s) incarnation 0 true) :: fx).

Definition on_budget_available (request_seq reservation_id revision now_ms : Z) (s : Subscription)
    : Subscription * list Effect :=
  match su_budget s with
  | Waiting q =>
      if q =? request_seq then
        let snapshot_id := su_next_snapshot_id s in
        let deadline_ms := add64 now_ms SEND_DEADLINE_MS in
        let s := with_resync_pending false (with_base revision
                   (with_next_snapshot_id (add64 snapshot_id 1) s)) in
        (with_budget (Sending reservation_id snapshot_id deadline_ms) s,
         [BuildSnapshot (su_id s) snapshot_id reservation_id;
          ArmDeadline (su_id s) reservation_id snapshot_id deadline_ms])
      else (s, [ReturnReservation reservation_id])
  | _ => (s, [ReturnReservation reservation_id])
  end.

Definition matches (reservation_id snapshot_id : Z) (s : Subscription) : bool :=
  match su_budget s with
  | Sending r sn _ | Draining r sn _ => (r =? reservation_id) && (sn =? snapshot_id)
  | _ => false
  end.

Definition on_frame_written (reservation_id snapshot_id : Z) (last : bool) (s : Subscription)
    : Subscription * list Effect :=
  if negb last || negb (matches reservation_id snapshot_id s) then (s, []) else
  match su_budget s with
  | Sending r sn dl => (with_resync_count 0 (with_budget (Draining r sn dl) s), [CancelDeadline (su_id s)])
  | _ => (s, [])
  end.

Definition close (s : Subscription) : Subscription * list Effect :=
  let '(s', fx) :=
    match su_budget s with
    | Sending r sn _ | Draining r sn _ =>
        (with_unreturned (su_unreturned s ++ [r]) s, [DropPending (su_id s) sn])
    | Waiting q => (s, [CancelRequest (su_id s) q])
    | Idle | Closed => (s, [])
    end in
  (with_budget Closed (clear_queue s'), fx).

(** [iter().position(..)] and [Vec::remove]. *)
Fixpoint remove_first (x : Z) (l : list Z) : option (list Z) :=
  match l with
  | [] => None
  | y :: l' => if y =? x then Some l' else cons y <$> remove_first x l'
  end.

Definition on_buffer_released (reservation_id snapshot_id : Z) (s : Subscription)
    : Subscription * list Effect :=
  match remove_first reservation_id (su_unreturned s) with
  | Some rest => (with_unreturned rest s, [ReturnReservation reservation_id])
  | None =>
      if negb (matches reservation_id snapshot_id s) then (s, []) else
      match su_budget s with
      | Draining _ _ _ =>
          if su_resync_pending s
          then let '(s', fx) := request s in (s', ReturnReservation reservation_id :: fx)
          else (with_budget Idle s, [ReturnReservation reservation_id])
      | Sending _ _ _ =>
          let '(s', fx) := close (with_budget Idle s) in (s', ReturnReservation reservation_id :: fx)
      | _ => (s, [ReturnReservation reservation_id])
      end
  end.

Definition on_deadline (reservation_id snapshot_id : Z) (s : Subscription) : Subscription * list Effect :=
  if matches reservation_id snapshot_id s then
    let '(s', fx) := close s in (s', CloseSlowConsumer (su_id s) :: fx)
  else (s, []).

Definition set_subscription_id (id : Z) (d : Delta) : Delta :=
  mk_Delta id (delta_base_revision d) (delta_new_revision d) (delta_size d) (delta_cursor d)
    (delta_modes d) (delta_palette d) (delta_title d) (delta_dirty_rows d) (delta_hyperlinks_added d)
    (delta_scrollback_appended d) (delta_scrollback_evicted_before d) (delta_exit_info d) (delta_ui_events d).

(** [matches!(self.budget, Idle | Draining { .. } | Sending { .. })] *)
Definition takes_deltas (s : Subscription) : bool :=
  match su_budget s with Idle | Draining _ _ _ | Sending _ _ _ => true | _ => false end.

Definition push_delta (d : Delta) (s : Subscription) : Subscription * list Effect :=
  if is_closed s || su_resync_pending s || negb (takes_deltas s) then (s, []) else
  let d := set_subscription_id (su_id s) d in
  let s := with_queue (su_queue s ++ [d])
             (with_queue_bytes (add64 (su_queue_bytes s) (delta_encoded_len d)) s) in
  if (QUEUE_BYTES_LIMIT <? su_queue_bytes s) || (QUEUE_MSG_LIMIT <? zlen (su_queue s)) then
    let s := with_resync_count ((su_resync_count s + 1) mod 2 ^ 32) s in
    if SLOW_RESYNC_LIMIT <=? su_resync_count s
    then let '(s', fx) := close s in (s', CloseSlowConsumer (su_id s) :: fx)
    else resync s
  else (s, []).

Definition drain_to_wire (s : Subscription) : Subscription * list Effect :=
  if su_resync_pending s || is_closed s then (s, []) else
  let '(s', fx) :=
    match Replica.merge (su_queue s) with
    | Some merged => (with_base (delta_new_revision merged) s, [SendDelta merged])
    | None => (s, [])
    end in
  (clear_queue s', fx).

(** ** The host, the subscription and its client

    [World] holds the host's state and revision next to the subscription, and
    what the client holds once everything sent so far has arrived. *)

Record World := mk_World {
  w_sub : Subscription;
  w_rev : Z;
  w_rep : Replica;
  w_line : Z;
  w_client : option (Z * Replica);
}.

(** What an effect means for the client; [None] if it cannot be applied. *)
Definition client_step (rev : Z) (rep : Replica) (c : option (Z * Replica)) (e : Effect)
    : option (option (Z * Replica)) :=
  match e with
  | BuildSnapshot _ _ _ => Some (Some (rev, from_body (to_body rep)))
  | SendDelta d =>
      match c with
      | Some (r, rc) =>
          if r =? delta_base_revision d
          then Some (Some (delta_new_revision d, (apply_delta d rc).1)) else None
      | None => None
      end
  | SendAck a => Some (if suba_snapshot_follows a then None else c)
  | _ => Some c
  end.

Fixpoint client_run (rev : Z) (rep : Replica) (c : option (Z * Replica)) (fx : list Effect)
    : option (option (Z * Replica)) :=
  match fx with
  | [] => Some c
  | e :: fx' => c' ← client_step rev rep c e; client_run rev rep c' fx'
  end.

(** What can happen to a subscription: the host publishes a delta to the state
    [r] (the line counter moves to [c]) or rewrites its scrollback, the client asks for a
    resync, the budget, the writer and the deadline report back, the connection
    closes, or the flush timer drains the queue. *)
Inductive WEvent : Type :=
| WPush (d : Delta) (r : Replica) (c : Z)
| WRewrite (r : Replica) (c : Z)
| WResync
| WBudget (request_seq reservation_id now_ms : Z)
| WFrame (reservation_id snapshot_id : Z) (last : bool)
| WReleased (reservation_id snapshot_id : Z)
| WDeadline (reservation_id snapshot_id : Z)
| WClose
| WDrain.

Definition sub_step (e : WEvent) (rev : Z) (s : Subscription) : Subscription * list Effect :=
  match e with
  | WPush d _ _ => push_delta d s
  | WRewrite _ _ | WResync => resync s
  | WBudget q r now => on_budget_available q r rev now s
  | WFrame r sn l => on_frame_written r sn l s
  | WReleased r sn => on_buffer_released r sn s
  | WDeadline r sn => on_deadline r sn s
  | WClose => close s
  | WDrain => drain_to_wire s
  end.

(** The host's state after the event. *)
Definition host_step (e : WEvent) (w : World) : Z * Replica * Z :=
  match e with
  | WPush d r c => (delta_new_revision d, r, c)
  | WRewrite r c => (w_rev w + 1, r, c)
  | _ => (w_rev w, w_rep w, w_line w)
  end.

Definition world_step (e : WEvent) (w : World) : option World :=
  let '(rev, rep, line) := host_step e w in
  let '(s, fx) := sub_step e rev (w_sub w) in
  c ← client_run rev rep (w_client w) fx;
  Some (mk_World s rev rep line c).

(** A published delta takes the host's state to its next one. *)
Definition valid (e : WEvent) (w : World) : Prop :=
  match e with
  | WPush d r c => delta_step (w_rep w) (w_line w) d r c ∧ delta_base_revision d = w_rev w ∧
      delta_encoded_len (set_subscription_id (su_id (w_sub w)) d) <= u64_max - QUEUE_BYTES_LIMIT
  | WRewrite r c => wf_replica r ∧ ∀ p, p ∈ rp_scrollback r → p.1 < c
  | _ => True
  end.

Fixpoint world_run (es : list WEvent) (w : World) : option World :=
  match es with [] => Some w | e :: es' => w' ← world_step e w; world_run es' w' end.
Fixpoint run_valid (es : list WEvent) (w : World) : Prop :=
  match es with
  | [] => True
  | e :: es' => valid e w ∧ ∀ w', world_step e w = Some w' → run_valid es' w'
  end.

(** ** Invariant *)

Fixpoint revs_chain (b : Z) (q : list Delta) (r : Z) : Prop :=
  match q with
  | [] => b = r
  | d :: q' => delta_base_revision d = b ∧ revs_chain (delta_new_revision d) q' r
  end.

Definition queue_sum (q : list Delta) : Z := foldr (λ d n, delta_encoded_len d + n) 0 q.

(** The client holds the state at [base], from which the queued deltas lead to
    the host's. *)
Definition in_step (w : World) : Prop :=
  ∃ rc c0, w_client w = Some (su_base (w_sub w), rc) ∧ wf_replica rc ∧
    (∀ p, p ∈ rp_scrollback rc → p.1 < c0) ∧
    delta_run rc c0 (su_queue (w_sub w)) (w_rep w) (w_line w) ∧
    revs_chain (su_base (w_sub w)) (su_queue (w_sub w)) (w_rev w).

Record world_inv (w : World) : Prop := {
  wi_rep : wf_replica (w_rep w);
  wi_ids : ∀ p, p ∈ rp_scrollback (w_rep w) → p.1 < w_line w;
  wi_len : zlen (su_queue (w_sub w)) <= QUEUE_MSG_LIMIT;
  wi_bytes : su_queue_bytes (w_sub w) = queue_sum (su_queue (w_sub w)) ∧
    su_queue_bytes (w_sub w) <= QUEUE_BYTES_LIMIT;
  wi_state : match su_budget (w_sub w) with
    | Closed => su_queue (w_sub w) = []
    | Waiting _ => su_resync_pending (w_sub w) = true ∧ su_queue (w_sub w) = []
    | Idle | Sending _ _ _ => su_resync_pending (w_sub w) = false ∧ in_step w
    | Draining _ _ _ =>
        if su_resync_pending (w_sub w) then su_queue (w_sub w) = [] else in_step w
    end;
}.

(** ** Lemmas *)

Lemma delta_step_sub id r c d r' c' :
  delta_step r c d r' c' → delta_step r c (set_subscription_id id d) r' c'.
Proof. intros ([] & Hw & Hf). by split. Qed.

Lemma revs_chain_snoc b q r d :
  revs_chain b q r → delta_base_revision d = r → revs_chain b (q ++ [d]) (delta_new_revision d).
Proof. revert b. induction q as [|x q IH]; intros b; cbn; [|naive_solver]. by intros -> ->. Qed.

Lemma queue_sum_snoc q d : queue_sum (q ++ [d]) = queue_sum q + delta_encoded_len d.
Proof. unfold queue_sum. induction q as [|x q IH]; cbn [app foldr]; [lia|]. rewrite IH. lia. Qed.

Lemma queue_sum_nonneg q : 0 <= queue_sum q.
Proof.
  induction q as [|x q IH]; [done|]. unfold queue_sum in *. cbn [foldr].
  assert (0 <= delta_encoded_len x) by apply zlen_nonneg. lia.
Qed.

Lemma revs_chain_merge b q r d :
  revs_chain b q r → Replica.merge q = Some d → delta_base_revision d = b ∧ delta_new_revision d = r.
Proof.
  intros Hc Hm. destruct q as [|d0 q]; [done|]. rewrite merge_cons in Hm. injection Hm as <-.
  assert (∀ acc ds, delta_base_revision (ma_out (foldl merge_step acc ds)) = delta_base_revision (ma_out acc) ∧
    delta_new_revision (ma_out (foldl merge_step acc ds)) = delta_new_revision (ma_out acc)) as Hf.
  { intros acc ds. revert acc. induction ds as [|x ds IH]; intros acc; [done|]. cbn [foldl].
    destruct (IH (merge_step acc x)) as [-> ->]. done. }
  set (init := mk_MergeAcc _ _ _). destruct (Hf init (d0 :: q)) as [Hb Hn].
  change (delta_base_revision (ma_out (foldl merge_step init (d0 :: q))) = b ∧
    delta_new_revision (ma_out (foldl merge_step init (d0 :: q))) = r).
  rewrite Hb, Hn. cbn [init ma_out delta_base_revision delta_new_revision].
  destruct Hc as [-> Hc]. split; [done|]. clear Hf Hb Hn init. revert d0 Hc.
  induction q as [|x q IH]; intros d0 Hc; [done|]. destruct Hc as [_ Hc]. rewrite last_cons_cons. 
  specialize (IH x Hc). destruct (last (x :: q)) eqn:E; [done|]. by apply last_None in E.
Qed.

(** A subscription that was reset: the queue is empty and no state is promised. *)
Lemma closed_inv s rev rep line c :
  wf_replica rep → (∀ p, p ∈ rp_scrollback rep → p.1 < line) →
  world_inv (mk_World (with_budget Closed (clear_queue s)) rev rep line c).
Proof. intros Hw Hids. split; try done. Qed.

Lemma close_spec s : (close s).1 = with_budget Closed (clear_queue
    (match su_budget s with
     | Sending r _ _ | Draining r _ _ => with_unreturned (su_unreturned s ++ [r]) s
     | _ => s end)) ∧
  ∀ rev rep c, client_run rev rep c (close s).2 = Some c.
Proof. unfold close. destruct (su_budget s); by split. Qed.

Lemma close_world s rev rep line c :
  wf_replica rep → (∀ p, p ∈ rp_scrollback rep → p.1 < line) →
  world_inv (mk_World (close s).1 rev rep line c) ∧ client_run rev rep c (close s).2 = Some c.
Proof.
  intros Hw Hids. destruct (close_spec s) as [-> Hc]. split; [by apply closed_inv|apply Hc].
Qed.

Lemma resync_world s rev rep line c :
  wf_replica rep → (∀ p, p ∈ rp_scrollback rep → p.1 < line) →
  (su_budget s = Closed → su_queue s = [] ∧ su_queue_bytes s = 0) →
  world_inv (mk_World (resync s).1 rev rep line c) ∧ client_run rev rep c (resync s).2 = Some c.
Proof.
  intros Hw Hids Hcl. unfold resync, is_closed. case_bool_decide as Hc.
  - destruct (Hcl Hc) as [Hq Hb]. split; [|done]. cbn [fst].
    split; cbn [w_sub w_rep w_line w_rev]; rewrite ?Hq, ?Hb, ?Hc; done.
  - destruct (su_budget s) eqn:E; cbn; rewrite E; try done; (split; [|done]); split; try done; cbn; try rewrite E; done.
Qed.

Lemma inv_closed w : world_inv w → su_budget (w_sub w) = Closed → su_queue (w_sub w) = [] ∧ su_queue_bytes (w_sub w) = 0.
Proof.
  intros Hi Hc. pose proof (wi_state _ Hi) as Hs. rewrite Hc in Hs. destruct (wi_bytes _ Hi) as [Hb _].
  rewrite Hs in Hb. done.
Qed.

(** Changes of the subscription that keep what the invariant is about. *)
Lemma inv_keep w s :
  world_inv w → su_queue s = su_queue (w_sub w) → su_queue_bytes s = su_queue_bytes (w_sub w) →
  su_base s = su_base (w_sub w) → su_resync_pending s = su_resync_pending (w_sub w) →
  (su_budget s = su_budget (w_sub w) ∨
   (su_resync_pending s = false ∧ in_step w ∧
    match su_budget s with Idle | Sending _ _ _ | Draining _ _ _ => True | _ => False end)) →
  world_inv (mk_World s (w_rev w) (w_rep w) (w_line w) (w_client w)).
Proof.
  intros Hi Hq Hb Hba Hp Hbu. destruct Hi. split; cbn [w_sub w_rev w_rep w_line w_client];
    rewrite ?Hq, ?Hb; try done.
  assert (in_step w ↔ in_step (mk_World s (w_rev w) (w_rep w) (w_line w) (w_client w))) as Hin
    by (unfold in_step; cbn; by rewrite Hq, Hba).
  destruct Hbu as [->|(Hpf & Hstep & Hm)].
  - rewrite Hp. destruct (su_budget (w_sub w)); try done; [by rewrite <- Hin..|].
    case_match; [done|by rewrite <- Hin].
  - rewrite Hpf. apply Hin in Hstep. by destruct (su_budget s).
Qed.

(** The state of a subscription that accepts deltas. *)
Lemma taking_in_step w :
  world_inv w → su_resync_pending (w_sub w) = false → is_closed (w_sub w) = false → in_step w.
Proof.
  intros Hi Hp Hc. pose proof (wi_state _ Hi) as Hs. unfold is_closed in Hc. rewrite Hp in Hs.
  destruct (su_budget (w_sub w)) eqn:E; try (by destruct Hs); done.
Qed.

Definition stepped (e : WEvent) (w : World) : Prop := ∃ w', world_step e w = Some w' ∧ world_inv w'.

Lemma stepped_intro e w s fx c :
  sub_step e (host_step e w).1.1 (w_sub w) = (s, fx) →
  client_run (host_step e w).1.1 (host_step e w).1.2 (w_client w) fx = Some c →
  world_inv (mk_World s (host_step e w).1.1 (host_step e w).1.2 (host_step e w).2 c) → stepped e w.
Proof.
  intros Hs Hc Hi. unfold stepped, world_step. destruct (host_step e w) as [[rev rep] line]. cbn in *.
  rewrite Hs, Hc. cbn. eauto.
Qed.

Lemma drain_inv w : world_inv w → stepped WDrain w.
Proof.
  intros Hi.
  assert (drain_to_wire (w_sub w) = (w_sub w, []) → stepped WDrain w) as Hnop.
  { intros E. eapply stepped_intro; [exact E|done|]. by destruct w. }
  unfold drain_to_wire in Hnop. destruct (su_resync_pending (w_sub w)) eqn:Hp; [by apply Hnop|].
  destruct (is_closed (w_sub w)) eqn:Hc; [by apply Hnop|]. clear Hnop.
  destruct (taking_in_step w Hi Hp Hc) as (rc & c0 & Hcl & Hwr & Hids & Hrun & Hrev).
  assert (∀ base, world_inv (mk_World (clear_queue (with_base base (w_sub w))) (w_rev w) (w_rep w) (w_line w)
    (Some (w_rev w, w_rep w))) ∨ base ≠ w_rev w) as Hdone.
  { intros base. destruct (decide (base = w_rev w)) as [->|]; [left|by right]. destruct Hi. split; try done.
    cbn. assert (in_step (mk_World (clear_queue (with_base (w_rev w) (w_sub w))) (w_rev w) (w_rep w) (w_line w)
      (Some (w_rev w, w_rep w)))) as Hin.
    { exists (w_rep w), (w_line w). split_and!; try done. constructor. }
    rewrite Hp in *. destruct (su_budget (w_sub w)) eqn:E; try done; by destruct wi_state0. }
  destruct (su_queue (w_sub w)) as [|d0 q] eqn:Eq.
  - eapply stepped_intro; cbn; [unfold drain_to_wire; by rewrite Hp, Hc, Eq|done|].
    inversion Hrun; subst. cbn in Hrev. destruct (Hdone (su_base (w_sub w))) as [H|]; [|done].
    rewrite Hcl. replace (clear_queue (w_sub w)) with (clear_queue (with_base (su_base (w_sub w)) (w_sub w)))
      by (by destruct (w_sub w)). by rewrite Hrev in *.
  - destruct (merge_run _ _ _ _ _ Hwr Hids Hrun ltac:(done)) as (d & Hm & Happ).
    destruct (revs_chain_merge _ _ _ _ Hrev Hm) as [Hb Hn].
    eapply stepped_intro; cbn; [unfold drain_to_wire; by rewrite Hp, Hc, Eq, Hm|
      cbn; rewrite Hcl, Hb, Z.eqb_refl; done|].
    rewrite Happ, Hn. by destruct (Hdone (w_rev w)).
Qed.

Lemma push_inv d r c w : world_inv w → valid (WPush d r c) w → stepped (WPush d r c) w.
Proof.
  intros Hi (Hstep & Hbase & Hlen). pose proof Hstep as (Hrel & Hwr & _).
  assert (∀ p, p ∈ rp_scrollback r → p.1 < c) as Hids
    by (apply (run_ids (w_rep w) (w_line w) [d]); [econstructor; [done|constructor]|apply (wi_ids _ Hi)]).
  destruct (is_closed (w_sub w) || su_resync_pending (w_sub w) || negb (takes_deltas (w_sub w))) eqn:Hskip.
  { eapply stepped_intro; cbn; [unfold push_delta; by rewrite Hskip|done|].
    destruct Hi. split; cbn [w_sub w_rep w_line w_rev]; try done.
    unfold takes_deltas, is_closed in Hskip.
    destruct (su_budget (w_sub w)) eqn:E; try done; rewrite bool_decide_false in Hskip by done;
      cbn in Hskip; rewrite orb_false_r in Hskip; rewrite Hskip in *; try done; by destruct wi_state0. }
  apply orb_false_iff in Hskip as [[Hc Hp]%orb_false_iff Ht]. apply negb_false_iff in Ht.
  pose proof (taking_in_step w Hi Hp Hc) as (rc & c0 & Hcl & Hwc & Hidc & Hrun & Hrev).
  set (d' := set_subscription_id (su_id (w_sub w)) d) in *.
  destruct (wi_bytes _ Hi) as [Hbs Hbl]. pose proof (queue_sum_nonneg (su_queue (w_sub w))).
  assert (0 <= delta_encoded_len d') by apply zlen_nonneg.
  set (s1 := with_queue (su_queue (w_sub w) ++ [d'])
    (with_queue_bytes (su_queue_bytes (w_sub w) + delta_encoded_len d') (w_sub w))).
  assert (push_delta d (w_sub w) =
    if (QUEUE_BYTES_LIMIT <? su_queue_bytes s1) || (QUEUE_MSG_LIMIT <? zlen (su_queue s1)) then
      let s := with_resync_count ((su_resync_count s1 + 1) mod 2 ^ 32) s1 in
      if SLOW_RESYNC_LIMIT <=? su_resync_count s
      then let '(s', fx) := close s in (s', CloseSlowConsumer (su_id s) :: fx) else resync s
    else (s1, [])) as Hpush.
  { unfold push_delta. rewrite Hc, Hp, Ht. cbn [orb negb]. fold d'. rewrite add64_id by lia. done. }
  assert (su_budget s1 ≠ Closed) as Hnc by (unfold is_closed in Hc; by apply bool_decide_eq_false in Hc).
  destruct ((QUEUE_BYTES_LIMIT <? su_queue_bytes s1) || (QUEUE_MSG_LIMIT <? zlen (su_queue s1))) eqn:Hover.
  - cbv zeta in Hpush. set (s2 := with_resync_count _ s1) in *.
    destruct (SLOW_RESYNC_LIMIT <=? su_resync_count s2).
    + destruct (close_world s2 (delta_new_revision d) r c (w_client w) Hwr Hids) as [Hi' Hc'].
      destruct (close s2) as [s3 fx]. by eapply stepped_intro; [exact Hpush|cbn; exact Hc'|].
    + destruct (resync_world s2 (delta_new_revision d) r c (w_client w) Hwr Hids) as [Hi' Hc']; [by intros ?|].
      destruct (resync s2) as [s3 fx]. by eapply stepped_intro; [exact Hpush|cbn; exact Hc'|].
  - bool_hyps. eapply stepped_intro; [exact Hpush|done|]. cbn [host_step fst snd].
    assert (in_step (mk_World s1 (delta_new_revision d) r c (w_client w))) as Hin.
    { exists rc, c0. split_and!; try done; cbn.
      - eapply run_snoc; [done|]. by apply delta_step_sub.
      - by apply (revs_chain_snoc _ _ (w_rev w) d'). }
    split; cbn [w_sub w_rep w_line w_rev w_client]; try done.
    + lia.
    + cbn. rewrite queue_sum_snoc. cbn in *. lia.
    + change (su_budget s1) with (su_budget (w_sub w)).
      change (su_resync_pending s1) with (su_resync_pending (w_sub w)). rewrite Hp.
      unfold takes_deltas in Ht. by destruct (su_budget (w_sub w)).
Qed.

Lemma budget_inv q rid now w : world_inv w → stepped (WBudget q rid now) w.
Proof.
  intros Hi.
  assert (on_budget_available q rid (w_rev w) now (w_sub w) = (w_sub w, [ReturnReservation rid]) →
    stepped (WBudget q rid now) w) as Hret.
  { intros E. eapply stepped_intro; [exact E|done|]. by destruct w. }
  destruct (su_budget (w_sub w)) as [|q'| | |] eqn:Eb;
    try (apply Hret; unfold on_budget_available; by rewrite Eb).
  destruct (q' =? q) eqn:Eq; [|apply Hret; unfold on_budget_available; by rewrite Eb, Eq].
  eapply stepped_intro; cbn [sub_step host_step fst snd];
    [unfold on_budget_available; rewrite Eb, Eq; done|done|].
  pose proof (wi_state _ Hi) as Hs. rewrite Eb in Hs. destruct Hs as [_ Hq].
  destruct Hi. split; try done. cbn. split; [done|]. rewrite from_to_body.
  exists (w_rep w), (w_line w). cbn. rewrite Hq. split_and!; try done. constructor.
Qed.

Lemma frame_inv rid sn last w : world_inv w → stepped (WFrame rid sn last) w.
Proof.
  intros Hi.
  assert (on_frame_written rid sn last (w_sub w) = (w_sub w, []) → stepped (WFrame rid sn last) w) as Hnop.
  { intros E. eapply stepped_intro; [exact E|done|]. by destruct w. }
  unfold on_frame_written in Hnop. destruct (negb last || _) eqn:E; [by apply Hnop|].
  pose proof (wi_state _ Hi) as Hs.
  destruct (su_budget (w_sub w)) eqn:Eb; try (by apply Hnop).
  eapply stepped_intro; cbn [sub_step]; [unfold on_frame_written; by rewrite E, Eb|done|].
  destruct Hs as [Hp Hin]. apply inv_keep; try done. right. cbn. by rewrite Hp.
Qed.

Lemma released_inv rid sn w : world_inv w → stepped (WReleased rid sn) w.
Proof.
  intros Hi.
  assert (∀ s fx, on_buffer_released rid sn (w_sub w) = (s, fx) →
    client_run (w_rev w) (w_rep w) (w_client w) fx = Some (w_client w) →
    world_inv (mk_World s (w_rev w) (w_rep w) (w_line w) (w_client w)) →
    stepped (WReleased rid sn) w) as Hfin by (intros; by eapply stepped_intro).
  unfold on_buffer_released in Hfin. destruct (remove_first rid _) as [rest|].
  { eapply Hfin; [done|done|]. apply inv_keep; auto. }
  destruct (negb (matches rid sn (w_sub w))) eqn:Em; [eapply Hfin; [done|done|by destruct w]|].
  pose proof (wi_state _ Hi) as Hs. unfold matches in Em.
  destruct (su_budget (w_sub w)) eqn:Eb; try done.
  - destruct (close_world (with_budget Idle (w_sub w)) (w_rev w) (w_rep w) (w_line w) (w_client w)
      (wi_rep _ Hi) (wi_ids _ Hi)) as [Hi' Hc'].
    destruct (close _) as [s' fx]. by eapply Hfin.
  - destruct (su_resync_pending (w_sub w)) eqn:Hp.
    + eapply Hfin; [done|done|]. destruct Hi. by split.
    + eapply Hfin; [done|done|]. apply inv_keep; try done. right. cbn. by rewrite Hp.
Qed.

Lemma world_step_inv e w : world_inv w → valid e w → stepped e w.
Proof.
  intros Hi Hv. destruct e; auto using push_inv, drain_inv, budget_inv, frame_inv, released_inv.
  - destruct Hv as [Hw Hids].
    destruct (resync_world (w_sub w) (w_rev w + 1) r c (w_client w) Hw Hids (inv_closed w Hi)) as [Hi' Hc'].
    destruct (resync (w_sub w)) as [s fx] eqn:E. by eapply stepped_intro; [exact E|..].
  - destruct (resync_world (w_sub w) (w_rev w) (w_rep w) (w_line w) (w_client w) (wi_rep _ Hi) (wi_ids _ Hi)
      (inv_closed w Hi)) as [Hi' Hc'].
    destruct (resync (w_sub w)) as [s fx] eqn:E. by eapply stepped_intro; [exact E|..].
  - destruct (matches reservation_id snapshot_id (w_sub w)) eqn:Em.
    + destruct (close_world (w_sub w) (w_rev w) (w_rep w) (w_line w) (w_client w) (wi_rep _ Hi) (wi_ids _ Hi))
        as [Hi' Hc'].
      destruct (close (w_sub w)) as [s fx] eqn:E.
      eapply stepped_intro; [cbn; unfold on_deadline; by rewrite Em, E|exact Hc'|done].
    + eapply stepped_intro; [cbn; unfold on_deadline; by rewrite Em|done|by destruct w].
  - destruct (close_world (w_sub w) (w_rev w) (w_rep w) (w_line w) (w_client w) (wi_rep _ Hi) (wi_ids _ Hi))
      as [Hi' Hc'].
    destruct (close (w_sub w)) as [s fx] eqn:E. by eapply stepped_intro; [exact E|..].
Qed.

Lemma world_run_inv es w :
  world_inv w → run_valid es w → ∃ w', world_run es w = Some w' ∧ world_inv w'.
Proof.
  revert w. induction es as [|e es IH]; intros w Hi Hv; [by exists w|]. destruct Hv as [Hv Hvs].
  destruct (world_step_inv e w Hi Hv) as (w1 & E & Hi1). cbn. rewrite E. cbn. auto.
Qed.

(** ** Attaching *)

(** A subscription to a host in state [rep] at revision [rev]; a client that
    knows this very revision of this incarnation holds its state already. *)
Definition attach (id : Z) (who : Uuid) (seq : Z) (incarnation : Uuid) (rev : Z) (rep : Replica) (line : Z)
    (known : option (Z * Uuid)) : option World :=
  let '(s, fx) := start_with_ack incarnation rev known (subscription_new id who seq) in
  c ← client_run rev rep (if bool_decide (known = Some (rev, incarnation)) then Some (rev, rep) else None) fx;
  Some (mk_World s rev rep line c).

Lemma attach_inv id who seq inc rev rep line known :
  wf_replica rep → (∀ p, p ∈ rp_scrollback rep → p.1 < line) →
  ∃ w, attach id who seq inc rev rep line known = Some w ∧ world_inv w.
Proof.
  intros Hw Hids. unfold attach, start_with_ack. case_bool_decide; cbn; (eexists; split; [done|]).
  - split; try done. cbn. split; [done|]. exists rep, line. split_and!; try done. constructor.
  - by split.
Qed.

(** ** Reservations of the snapshot budget *)

Definition given (e : WEvent) : list Z := match e with WBudget _ r _ => [r] | _ => [] end.
Definition returned (fx : list Effect) : list Z :=
  omap (λ e, match e with ReturnReservation r => Some r | _ => None end) fx.
(** The reservations a subscription has not given back. *)
Definition held (s : Subscription) : list Z :=
  match su_budget s with Sending r _ _ | Draining r _ _ => [r] | _ => [] end ++ su_unreturned s.

Fixpoint sub_run (es : list (WEvent * Z)) (s : Subscription) : Subscription * list Effect :=
  match es with
  | [] => (s, [])
  | (e, rev) :: es' =>
      let '(s1, fx1) := sub_step e rev s in
      let '(s2, fx2) := sub_run es' s1 in (s2, fx1 ++ fx2)
  end.

Lemma remove_first_perm x l rest : remove_first x l = Some rest → l ≡ₚ x :: rest.
Proof.
  revert rest. induction l as [|y l IH]; intros rest H; [done|]. cbn in H.
  destruct (y =? x) eqn:E; [simplify_eq; by assert (y = x) as -> by lia|].
  destruct (remove_first x l) as [r|] eqn:Er; [|done]. injection H as <-. rewrite (IH r eq_refl).
  apply Permutation_swap.
Qed.

Lemma close_held s : held (close s).1 ++ returned (close s).2 ≡ₚ held s.
Proof.
  unfold close, held. destruct (su_budget s); cbn; rewrite app_nil_r; try done;
    symmetry; apply Permutation_cons_append.
Qed.

Lemma resync_held s : held (resync s).1 ++ returned (resync s).2 ≡ₚ held s.
Proof.
  unfold resync, is_closed. case_bool_decide as Hc; [by rewrite app_nil_r|].
  unfold held. cbn. destruct (su_budget s) eqn:E; cbn; rewrite ?E, app_nil_r; done.
Qed.

Lemma step_held e rev s :
  let '(s', fx) := sub_step e rev s in held s' ++ returned fx ≡ₚ held s ++ given e.
Proof.
  destruct e as [d r c|r c| |q r now|r sn l|r sn|r sn| |]; cbn [sub_step given]; rewrite ?app_nil_r.
  - unfold push_delta. destruct (_ || _ || _); [by rewrite app_nil_r|]. cbv zeta.
    set (s1 := with_queue _ _). destruct (_ || _); [|by rewrite app_nil_r].
    set (s2 := with_resync_count _ s1). change (held s) with (held s2). destruct (_ <=? _).
    + pose proof (close_held s2). by destruct (close s2).
    + pose proof (resync_held s2). by destruct (resync s2).
  - pose proof (resync_held s). by destruct (resync s).
  - pose proof (resync_held s). by destruct (resync s).
  - unfold on_budget_available. destruct (su_budget s) eqn:E; try done.
    destruct (_ =? _); [|done]. unfold held. rewrite E. cbn. rewrite app_nil_r. apply Permutation_cons_append.
  - unfold on_frame_written. destruct (_ || _); [by rewrite app_nil_r|].
    destruct (su_budget s) eqn:E; unfold held; cbn; rewrite E, app_nil_r; done.
  - unfold on_buffer_released. destruct (remove_first r (su_unreturned s)) as [rest|] eqn:Er.
    + apply remove_first_perm in Er. unfold held. cbn. rewrite Er, <- app_assoc. apply Permutation_app_head.
      symmetry. apply Permutation_cons_append.
    + destruct (negb (matches r sn s)) eqn:Em; [by rewrite app_nil_r|].
      unfold matches in Em. destruct (su_budget s) as [|?|r' sn' dl|r' sn' dl|] eqn:E; try done;
        bool_hyps; assert (r' = r) as -> by lia.
      * unfold held. cbn. rewrite E. cbn. symmetry. apply Permutation_cons_append.
      * destruct (su_resync_pending s); unfold held; cbn; rewrite E; cbn; symmetry; apply Permutation_cons_append.
  - unfold on_deadline. destruct (matches r sn s); [|by rewrite app_nil_r].
    pose proof (close_held s). by destruct (close s).
  - pose proof (close_held s). by destruct (close s).
  - unfold drain_to_wire. destruct (_ || _); [by rewrite app_nil_r|].
    destruct (Replica.merge (su_queue s)); cbn; by rewrite app_nil_r.
Qed.

Lemma run_held es s :
  held (sub_run es s).1 ++ returned (sub_run es s).2 ≡ₚ held s ++ (es.*1 ≫= given).
Proof.
  revert s. induction es as [|[e rev] es IH]; intros s; [done|]. cbn [sub_run].
  pose proof (step_held e rev s) as Hs. destruct (sub_step e rev s) as [s1 fx1]. specialize (IH s1).
  destruct (sub_run es s1) as [s2 fx2]. cbn in *. unfold returned in *. rewrite omap_app.
  rewrite (Permutation_app_comm (omap _ fx1)), app_assoc, IH, <- app_assoc,
    (Permutation_app_comm (_ ≫= _)), app_assoc, Hs. by rewrite <- app_assoc.
Qed.

(** ** Theorems *)


(** The delta queue is bounded by 256 deltas and 4 MiB of encoded size,
    and [queue_bytes] is that size; while a resync is pending on an open
    subscription the queue is empty and either a reservation has been requested
    or an earlier snapshot's buffers are still to be released. *)
Theorem subscription_bounded id who seq inc rev rep line known es w0 w :
  wf_replica rep → (∀ p, p ∈ rp_scrollback rep → p.1 < line) →
  attach id who seq inc rev rep line known = Some w0 → run_valid es w0 → world_run es w0 = Some w →
  zlen (su_queue (w_sub w)) <= 256 ∧
  su_queue_bytes (w_sub w) = queue_sum (su_queue (w_sub w)) ∧ su_queue_bytes (w_sub w) <= 4194304 ∧
  (is_closed (w_sub w) = false → su_resync_pending (w_sub w) = true →
     su_queue (w_sub w) = [] ∧
     ((∃ q, su_budget (w_sub w) = Waiting q) ∨ (∃ r sn dl, su_budget (w_sub w) = Draining r sn dl))).
Proof.
  intros Hw Hids Ha Hv Hr. destruct (attach_inv id who seq inc rev rep line known Hw Hids) as (w1 & Ha' & Hi).
  rewrite Ha in Ha'. simplify_eq. destruct (world_run_inv es w1 Hi Hv) as (w' & Hr' & Hi').
  rewrite Hr in Hr'. simplify_eq. destruct (wi_bytes _ Hi'). split; [apply Hi'|]. split; [done|]. split; [done|].
  intros Hc Hp. pose proof (wi_state _ Hi') as Hs. unfold is_closed in Hc. rewrite Hp in Hs.
  destruct (su_budget (w_sub w')) eqn:E; try (by destruct Hs); [destruct Hs; eauto|eauto 10].
Qed.

(** Every reservation handed to a subscription is returned to the allocator
    at most once, and the ones not yet returned are exactly the ones it holds
    (for a snapshot in flight or buffers still to be released). *)
Theorem reservations_accounted es id who seq :
  let '(s, fx) := sub_run es (subscription_new id who seq) in
  es.*1 ≫= given ≡ₚ held s ++ returned fx.
Proof.
  pose proof (run_held es (subscription_new id who seq)) as H.
  destruct (sub_run es _) as [s fx]. cbn in H. by rewrite H.
Qed.

(** ** Witnesses *)

Definition demo_push : Delta :=
  mk_Delta 1 7 8 None None None None (Some [x74]) [] [] [] None None [].
Definition demo_next : Replica :=
  mk_Replica 2 2 (rp_screen demo0) default_cursor default_modes default_palette [x74] ∅ [] None.
Definition demo_world : World :=
  mk_World (with_base 7 (subscription_new 1 [] 0)) 7 demo0 1 (Some (7, demo0)).
Definition demo_course : list WEvent := [WPush demo_push demo_next 1; WDrain].

Lemma demo_next_wf : wf_replica demo_next.
Proof.
  split; [by vm_compute|done|by vm_compute|by exists 0|]. by intros p Hp%not_elem_of_nil.
Qed.

Lemma demo_step : delta_step demo0 1 demo_push demo_next 1.
Proof.
  split; [|split; [exact demo_next_wf|]].
  - split; [done|by constructor| | |constructor|done].
    + intros i Hi. unfold build; cbn [foldl delta_dirty_rows demo_push]. by rewrite lookup_empty.
    + intros id Hid. apply elem_of_dom in Hid as [u Hu]. cbn in Hu. by rewrite lookup_empty in Hu.
  - split; [lia|]. split; [by intros p Hp%not_elem_of_nil|done].
Qed.

Lemma demo_valid : run_valid demo_course demo_world.
Proof.
  split; [split; [exact demo_step|split; [done|by vm_compute]]|]. intros w' _. split; [done|]. done.
Qed.

Lemma demo0_ids : ∀ p, p ∈ rp_scrollback demo0 → p.1 < 1.
Proof. by intros p Hp%not_elem_of_nil. Qed.


Lemma subscription_bounded_witness :
  su_queue_bytes (w_sub (default demo_world (world_run demo_course demo_world))) <= 4194304.
Proof.
  apply (subscription_bounded 1 [] 0 [] 7 demo0 1 (Some (7, [])) demo_course demo_world
    (default demo_world (world_run demo_course demo_world)) demo_wf0 demo0_ids);
    [by vm_compute|exact demo_valid|by vm_compute].
Defined.
