(* ===== verification/Client.v ===== *)
(** * Replica client (crates/session-core/src/client.rs)

    The display client's side of a subscription: it reassembles snapshots from
    chunks, buffers deltas while a snapshot is under way, and applies deltas in
    revision order, asking for a resync when one does not fit. *)

From S2P Require Import Prelude Wire Types Replica ReplicaSpec.
From Stdlib Require Import ZArith Lia Strings.Byte.
From stdpp Require Import base gmap list option sorting.

#[local] Open Scope Z_scope.

Definition MAX_BODY : Z := S_MAX + 1024 * 1024.

Inductive ClientOut : Type :=
| OutResync
| OutApplied (revision : Z) (events : list UiEvent) (ui_event_gap : bool)
| OutDigestMismatch.

Record Assembly := mk_Assembly {
  as_snapshot_id : Z;
  as_total : Z;
  as_total_len : Z;
  as_next_index : Z;
  as_bytes : list byte;
}.

Record ReplicaClient := mk_ReplicaClient {
  rc_incarnation : Uuid;
  rc_subscription_id : option Z;
  rc_replica : option Replica;
  rc_local_revision : Z;
  rc_last_applied_snapshot : Z;
  rc_discarded_snapshot : Z;
  rc_resync_requested : bool;
  rc_assembly : option Assembly;
  rc_awaiting_first : bool;
  rc_buffered : list Delta;
  rc_last_ui_event_id : Z;
}.

(** Field assignment. *)
Definition with_incarnation (v : Uuid) (c : ReplicaClient) : ReplicaClient :=
  mk_ReplicaClient v (rc_subscription_id c) (rc_replica c) (rc_local_revision c)
    (rc_last_applied_snapshot c) (rc_discarded_snapshot c) (rc_resync_requested c) (rc_assembly c)
    (rc_awaiting_first c) (rc_buffered c) (rc_last_ui_event_id c).
Definition with_subscription_id (v : option Z) (c : ReplicaClient) : ReplicaClient :=
  mk_ReplicaClient (rc_incarnation c) v (rc_replica c) (rc_local_revision c)
    (rc_last_applied_snapshot c) (rc_discarded_snapshot c) (rc_resync_requested c) (rc_assembly c)
    (rc_awaiting_first c) (rc_buffered c) (rc_last_ui_event_id c).
Definition with_replica (v : option Replica) (c : ReplicaClient) : ReplicaClient :=
  mk_ReplicaClient (rc_incarnation c) (rc_subscription_id c) v (rc_local_revision c)
    (rc_last_applied_snapshot c) (rc_discarded_snapshot c) (rc_resync_requested c) (rc_assembly c)
    (rc_awaiting_first c) (rc_buffered c) (rc_last_ui_event_id c).
Definition with_local_revision (v : Z) (c : ReplicaClient) : ReplicaClient :=
  mk_ReplicaClient (rc_incarnation c) (rc_subscription_id c) (rc_replica c) v
    (rc_last_applied_snapshot c) (rc_discarded_snapshot c) (rc_resync_requested c) (rc_assembly c)
    (rc_awaiting_first c) (rc_buffered c) (rc_last_ui_event_id c).
Definition with_last_applied_snapshot (v : Z) (c : ReplicaClient) : ReplicaClient :=
  mk_ReplicaClient (rc_incarnation c) (rc_subscription_id c) (rc_replica c) (rc_local_revision c)
    v (rc_discarded_snapshot c) (rc_resync_requested c) (rc_assembly c) (rc_awaiting_first c)
    (rc_buffered c) (rc_last_ui_event_id c).
Definition with_discarded_snapshot (v : Z) (c : ReplicaClient) : ReplicaClient :=
  mk_ReplicaClient (rc_incarnation c) (rc_subscription_id c) (rc_replica c) (rc_local_revision c)
    (rc_last_applied_snapshot c) v (rc_resync_requested c) (rc_assembly c) (rc_awaiting_first c)
    (rc_buffered c) (rc_last_ui_event_id c).
Definition with_resync_requested (v : bool) (c : ReplicaClient) : ReplicaClient :=
  mk_ReplicaClient (rc_incarnation c) (rc_subscription_id c) (rc_replica c) (rc_local_revision c)
    (rc_last_applied_snapshot c) (rc_discarded_snapshot c) v (rc_assembly c) (rc_awaiting_first c)
    (rc_buffered c) (rc_last_ui_event_id c).
Definition with_assembly (v : option Assembly) (c : ReplicaClient) : ReplicaClient :=
  mk_ReplicaClient (rc_incarnation c) (rc_subscription_id c) (rc_replica c) (rc_local_revision c)
    (rc_last_applied_snapshot c) (rc_discarded_snapshot c) (rc_resync_requested c) v
    (rc_awaiting_first c) (rc_buffered c) (rc_last_ui_event_id c).
Definition with_awaiting_first (v : bool) (c : ReplicaClient) : ReplicaClient :=
  mk_ReplicaClient (rc_incarnation c) (rc_subscription_id c) (rc_replica c) (rc_local_revision c)
    (rc_last_applied_snapshot c) (rc_discarded_snapshot c) (rc_resync_requested c) (rc_assembly c)
    v (rc_buffered c) (rc_last_ui_event_id c).
Definition with_buffered (v : list Delta) (c : ReplicaClient) : ReplicaClient :=
  mk_ReplicaClient (rc_incarnation c) (rc_subscription_id c) (rc_replica c) (rc_local_revision c)
    (rc_last_applied_snapshot c) (rc_discarded_snapshot c) (rc_resync_requested c) (rc_assembly c)
    (rc_awaiting_first c) v (rc_last_ui_event_id c).
Definition with_last_ui_event_id (v : Z) (c : ReplicaClient) : ReplicaClient :=
  mk_ReplicaClient (rc_incarnation c) (rc_subscription_id c) (rc_replica c) (rc_local_revision c)
    (rc_last_applied_snapshot c) (rc_discarded_snapshot c) (rc_resync_requested c) (rc_assembly c)
    (rc_awaiting_first c) (rc_buffered c) v.

Definition client_new (incarnation : Uuid) : ReplicaClient :=
  mk_ReplicaClient incarnation None None 0 0 0 false None false [] 0.

Definition adopt (subscription_id : Z) (snapshot_follows : bool) (revision : Z) (c : ReplicaClient)
    : ReplicaClient :=
  let c := with_subscription_id (Some subscription_id) c in
  let c := with_buffered [] (with_assembly None c) in
  let c := with_resync_requested false (with_discarded_snapshot 0 (with_last_applied_snapshot 0 c)) in
  let c := with_awaiting_first snapshot_follows c in
  if negb snapshot_follows then with_local_revision revision c else c.

Definition assembling (c : ReplicaClient) : bool :=
  rc_awaiting_first c || rc_resync_requested c || bool_decide (is_Some (rc_assembly c)).

Definition discard (snapshot_id : Z) (c : ReplicaClient) : ReplicaClient * ClientOut :=
  let c := with_assembly None c in
  let c := with_discarded_snapshot (Z.max (rc_discarded_snapshot c) snapshot_id) c in
  (with_resync_requested true c, OutResync).

(** The events above the last one seen, and the last one then. *)
Fixpoint fresh_events (last : Z) (all : list UiEvent) : Z * list UiEvent :=
  match all with
  | [] => (last, [])
  | e :: all' =>
      if last <? ui_event_id e
      then let '(l, es) := fresh_events (ui_event_id e) all' in (l, e :: es)
      else fresh_events last all'
  end.

Definition apply (d : Delta) (c : ReplicaClient) : ReplicaClient * option ClientOut :=
  if negb (delta_base_revision d =? rc_local_revision c)
  then (with_resync_requested true c, Some OutResync)
  else match rc_replica c with
  | None => (c, None)
  | Some replica =>
      let '(replica', all) := apply_delta d replica in
      let c := with_local_revision (delta_new_revision d) (with_replica (Some replica') c) in
      let '(last, events) := fresh_events (rc_last_ui_event_id c) all in
      (with_last_ui_event_id last c, Some (OutApplied (delta_new_revision d) events false))
  end.

(** [sort_by_key(|d| d.base_revision)], a stable sort. *)
Fixpoint insert_delta (d : Delta) (l : list Delta) : list Delta :=
  match l with
  | [] => [d]
  | x :: l' => if delta_base_revision d <=? delta_base_revision x then d :: l else x :: insert_delta d l'
  end.
Definition sort_deltas (l : list Delta) : list Delta := foldr insert_delta [] l.

(** The loop over the buffered deltas: the collected events, or the output of
    the delta that stopped it. *)
Fixpoint apply_all (ds : list Delta) (events : list UiEvent) (c : ReplicaClient)
    : ReplicaClient * Result (list UiEvent) ClientOut :=
  match ds with
  | [] => (c, Ok events)
  | d :: ds' =>
      match apply d c with
      | (c', Some (OutApplied _ e _)) => apply_all ds' (events ++ e) c'
      | (c', Some other) => (c', Err other)
      | (c', None) => apply_all ds' events c'
      end
  end.

Section client.
Context (xxh3_128 : list byte → Z).

Definition install (snapshot_id : Z) (body : Body) (c : ReplicaClient) : ReplicaClient * ClientOut :=
  let c := with_resync_requested false (with_awaiting_first false (with_assembly None c)) in
  let c := with_last_applied_snapshot snapshot_id c in
  let c := with_replica (Some (from_body (body_state body))) c in
  let c := with_local_revision (body_revision body) c in
  let c := with_last_ui_event_id (sat_sub (body_next_ui_event_id body) 1) c in
  if bool_decide (state_digest xxh3_128 (body_state body) ≠ body_state_digest body)
  then (with_resync_requested true (with_buffered [] c), OutDigestMismatch)
  else
    let sorted := sort_deltas (filter (λ d, body_revision body <= delta_base_revision d) (rc_buffered c)) in
    match apply_all sorted [] (with_buffered [] c) with
    | (c', Ok events) => (c', OutApplied (rc_local_revision c') events (body_ui_event_gap body))
    | (c', Err other) => (c', other)
    end.

(** The assembly a frame finds: a newer snapshot replaces an older one.
    [None]: the frame belongs to an older snapshot and is ignored. *)
Definition supersede (snapshot_id : Z) (c : ReplicaClient) : option ReplicaClient :=
  match rc_assembly c with
  | Some a =>
      if snapshot_id <? as_snapshot_id a then None
      else if as_snapshot_id a <? snapshot_id then Some (with_buffered [] (with_assembly None c))
      else Some c
  | None => Some c
  end.

Definition on_chunk (sid index total total_len : Z) (bytes : list byte) (c : ReplicaClient)
    : ReplicaClient * option ClientOut :=
  let a := default (mk_Assembly sid total total_len 0 []) (rc_assembly c) in
  let c := with_assembly (Some a) c in
  let consistent :=
    (as_total a =? total) && (as_total_len a =? total_len) && (as_next_index a =? index)
    && (total_len <=? MAX_BODY) && (add64 (zlen (as_bytes a)) (zlen bytes) <=? total_len) in
  if negb consistent then let '(c', o) := discard sid c in (c', Some o) else
  let a := mk_Assembly (as_snapshot_id a) (as_total a) (as_total_len a)
             ((as_next_index a + 1) mod 2 ^ 32) (as_bytes a ++ bytes) in
  let c := with_assembly (Some a) c in
  if as_next_index a <? as_total a then (c, None) else
  let c := with_assembly None c in
  if negb (zlen (as_bytes a) =? as_total_len a) then let '(c', o) := discard sid c in (c', Some o) else
  match dec c_Body (as_bytes a) with
  | Ok (body, _) => let '(c', o) := install sid body c in (c', Some o)
  | Err _ => let '(c', o) := discard sid c in (c', Some o)
  end.

Definition on_snapshot (f : SnapshotFrame) (c : ReplicaClient) : ReplicaClient * option ClientOut :=
  if bool_decide (Some (snap_subscription_id f) ≠ rc_subscription_id c)
     || bool_decide (snap_session_incarnation f ≠ rc_incarnation c) then (c, None)
  else if snap_snapshot_id f <=? Z.max (rc_last_applied_snapshot c) (rc_discarded_snapshot c)
  then (c, None)
  else match supersede (snap_snapshot_id f) c with
  | None => (c, None)
  | Some c =>
      match snap_payload f with
      | Full body => let '(c', o) := install (snap_snapshot_id f) body c in (c', Some o)
      | Chunk index total total_len bytes => on_chunk (snap_snapshot_id f) index total total_len bytes c
      end
  end.
End client.

Definition on_delta (d : Delta) (c : ReplicaClient) : ReplicaClient * option ClientOut :=
  if bool_decide (Some (delta_subscription_id d) ≠ rc_subscription_id c) then (c, None)
  else if assembling c then (with_buffered (rc_buffered c ++ [d]) c, None)
  else apply d c.

(** ** The host's history

    [H rev r]: the host's replicated state at revision [rev] was [r].
    [chunks sub sid]: the chunks the host cut snapshot [sid] of subscription
    [sub] into.  A client may receive authentic frames in any order, repeated or
    with some missing. *)

Section history.
Context (xxh3_128 : list byte → Z) (H : Z → Replica → Prop) (chunks : Z → Z → list (list byte)).

Definition good_delta (d : Delta) : Prop :=
  ∀ r, H (delta_base_revision d) r → H (delta_new_revision d) (apply_delta d r).1.
Definition good_body (b : Body) : Prop := H (body_revision b) (from_body (body_state b)).
Definition good_frame (f : SnapshotFrame) : Prop :=
  match snap_payload f with
  | Full b => good_body b
  | Chunk i total total_len bytes =>
      let cs := chunks (snap_subscription_id f) (snap_snapshot_id f) in
      0 <= i ∧ cs !! Z.to_nat i = Some bytes ∧ total = zlen cs ∧ total_len = zlen (concat cs) ∧
      zlen cs < 2 ^ 32 ∧ ∃ b, concat cs = enc c_Body b ∧ wf c_Body b = true ∧ good_body b
  end.

Inductive ClientEvent : Type :=
| EvAdopt (subscription_id : Z) (snapshot_follows : bool) (revision : Z)
| EvSnapshot (f : SnapshotFrame)
| EvDelta (d : Delta).

Definition client_event (e : ClientEvent) (c : ReplicaClient) : ReplicaClient :=
  match e with
  | EvAdopt s f r => adopt s f r c
  | EvSnapshot f => (on_snapshot xxh3_128 f c).1
  | EvDelta d => (on_delta d c).1
  end.

(** A host that sends no snapshot has checked that the client holds the
    revision it names. *)
Definition good_event (e : ClientEvent) (c : ReplicaClient) : Prop :=
  match e with
  | EvAdopt _ follows rev => follows = false → ∀ r, rc_replica c = Some r → H rev r
  | EvSnapshot f => good_frame f
  | EvDelta d => good_delta d
  end.

Fixpoint good_events (es : list ClientEvent) (c : ReplicaClient) : Prop :=
  match es with
  | [] => True
  | e :: es' => good_event e c ∧ good_events es' (client_event e c)
  end.
Definition client_events (es : list ClientEvent) (c : ReplicaClient) : ReplicaClient :=
  foldl (λ c e, client_event e c) c es.

(** ** Invariant *)

Record client_inv (c : ReplicaClient) : Prop := {
  ci_state : ∀ r, rc_replica c = Some r → H (rc_local_revision c) r;
  ci_buffered : Forall good_delta (rc_buffered c);
  ci_assembly : ∀ a, rc_assembly c = Some a → ∃ sub, rc_subscription_id c = Some sub ∧
    0 <= as_next_index a < 2 ^ 32 ∧ as_total_len a <= MAX_BODY ∧
    zlen (as_bytes a) <= as_total_len a ∧
    as_bytes a = concat (take (Z.to_nat (as_next_index a)) (chunks sub (as_snapshot_id a)));
}.

(** ** Lemmas *)

Lemma apply_inv d c : client_inv c → good_delta d → client_inv (apply d c).1.
Proof.
  intros [Hs Hb Ha] Hd. unfold apply. destruct (negb _) eqn:E; [by split|].
  destruct (rc_replica c) as [r|] eqn:Er; [|split; cbn; rewrite ?Er; done].
  specialize (Hd r). destruct (apply_delta d r) as [r' all]. cbn in Hd.
  cbv zeta. destruct (fresh_events _ all) as [last evs]. split; try done. cbn.
  intros r0 [= <-]. apply Hd. apply negb_false_iff in E.
  replace (delta_base_revision d) with (rc_local_revision c) by lia. auto.
Qed.

Lemma apply_all_inv ds evs c :
  client_inv c → Forall good_delta ds → client_inv (apply_all ds evs c).1.
Proof.
  revert evs c. induction ds as [|d ds IH]; intros evs c Hc Hds; [done|].
  apply Forall_cons in Hds as [Hd Hds]. cbn [apply_all]. pose proof (apply_inv d c Hc Hd) as Hc'.
  destruct (apply d c) as [c' o]. cbn in Hc'. destruct o as [[| |]|]; cbn; auto.
Qed.

Lemma insert_delta_Forall (P : Delta → Prop) d l : P d → Forall P l → Forall P (insert_delta d l).
Proof.
  intros Hd. induction l as [|x l IH]; intros Hl; cbn; [by constructor|].
  pose proof Hl as Hl'. apply Forall_cons in Hl' as [Hx Hl']. case_match; constructor; auto.
Qed.

Lemma sort_deltas_Forall (P : Delta → Prop) l : Forall P l → Forall P (sort_deltas l).
Proof.
  intros Hl. induction l as [|x l IH]; [done|]. apply Forall_cons in Hl as [Hx Hl].
  cbn. apply insert_delta_Forall; auto.
Qed.

Lemma install_inv sid b c :
  good_body b → Forall good_delta (rc_buffered c) → client_inv (install xxh3_128 sid b c).1.
Proof.
  intros Hb Hbuf. unfold install. cbv zeta. set (c1 := with_last_ui_event_id _ _).
  assert (client_inv (with_buffered [] c1)) as Hc1.
  { split; [|by constructor|done]. cbn. by intros r [= <-]. }
  destruct (bool_decide _); [destruct Hc1; by split|].
  pose proof (apply_all_inv (sort_deltas (filter (λ d, body_revision b <= delta_base_revision d)
    (rc_buffered c1))) [] _ Hc1) as Hall.
  destruct (apply_all _ _ _) as [c' res]. cbn in Hall.
  assert (client_inv c') as Hc'.
  { apply Hall, sort_deltas_Forall, Forall_forall. intros d Hd. apply list_elem_of_filter in Hd as [_ Hd].
    by eapply Forall_forall in Hbuf. }
  by destruct res.
Qed.

Lemma discard_inv sid c :
  (∀ r, rc_replica c = Some r → H (rc_local_revision c) r) → Forall good_delta (rc_buffered c) →
  client_inv (discard sid c).1.
Proof. intros Hs Hb. by split. Qed.

Lemma supersede_inv sid c c' :
  client_inv c → supersede sid c = Some c' → client_inv c' ∧
  rc_subscription_id c' = rc_subscription_id c ∧
  (∀ a, rc_assembly c' = Some a → as_snapshot_id a = sid).
Proof.
  intros Hc. unfold supersede. destruct (rc_assembly c) as [a|] eqn:Ea.
  - destruct (sid <? _) eqn:E1; [done|]. destruct (_ <? sid) eqn:E2; intros [= <-].
    + split; [|by split]. destruct Hc. by split.
    + split; [done|]. split; [done|]. intros a' Ha'. rewrite Ea in Ha'. simplify_eq. lia.
  - intros [= <-]. split; [done|]. split; [done|]. congruence.
Qed.

Lemma take_snoc_concat (cs : list (list byte)) i x :
  cs !! i = Some x → concat (take (S i) cs) = concat (take i cs) ++ x.
Proof. intros Hx. rewrite (take_S_r _ _ _ Hx), concat_app. cbn. by rewrite app_nil_r. Qed.

Lemma zlen_concat_take (cs : list (list byte)) i : zlen (concat (take i cs)) <= zlen (concat cs).
Proof.
  rewrite <- (take_drop i cs) at 2. rewrite concat_app, zlen_app.
  pose proof (zlen_nonneg (concat (drop i cs))). lia.
Qed.

Lemma on_chunk_inv sub sid i total total_len bytes c :
  client_inv c → rc_subscription_id c = Some sub →
  (∀ a, rc_assembly c = Some a → as_snapshot_id a = sid) →
  good_frame (mk_SnapshotFrame sub (rc_incarnation c) sid (Chunk i total total_len bytes)) →
  client_inv (on_chunk xxh3_128 sid i total total_len bytes c).1.
Proof.
  intros Hc Hsub Hsid (Hi & Hx & Ht & Htl & Hu & b & Hcs & Hwf & Hgb). cbn [snap_subscription_id snap_snapshot_id] in Hx, Ht, Htl, Hcs, Hu.
  set (cs := chunks sub sid) in *.
  pose proof (ci_state _ Hc) as Hst. pose proof (ci_buffered _ Hc) as Hbuf.
  unfold on_chunk. cbv zeta. set (a := default _ (rc_assembly c)).
  assert (as_snapshot_id a = sid ∧ 0 <= as_next_index a < 2 ^ 32 ∧
    as_bytes a = concat (take (Z.to_nat (as_next_index a)) cs)) as (Has & Han & Hab).
  { subst a. destruct (rc_assembly c) as [a|] eqn:Ea; cbn; [|done].
    destruct (ci_assembly _ Hc a Ea) as (sub' & Hs' & Hn & _ & _ & Hb). specialize (Hsid a eq_refl).
    rewrite Hsub in Hs'. simplify_eq. done. }
  destruct (negb (_ && _)) eqn:Econ; [apply discard_inv; done|].
  apply negb_false_iff in Econ. bool_hyps.
  assert (as_next_index a = i) as Hni by lia.
  pose proof (lookup_lt_Some _ _ _ Hx) as Hlt.
  rewrite (Z.mod_small (as_next_index a + 1)) by (unfold zlen in Hu; lia).
  assert (as_bytes a ++ bytes = concat (take (Z.to_nat (as_next_index a + 1)) cs)) as Hbytes.
  { rewrite Hab, Hni. replace (Z.to_nat (i + 1)) with (S (Z.to_nat i)) by lia. symmetry. by apply take_snoc_concat. }
  pose proof (zlen_concat_take cs (Z.to_nat (as_next_index a + 1))) as Hlen. rewrite <- Hbytes in Hlen.
  cbn [as_next_index as_total as_bytes as_total_len as_snapshot_id].
  destruct (as_next_index a + 1 <? as_total a) eqn:Emore.
  - split; try done. cbn. intros a' [= <-]. cbn. exists sub. rewrite Has.
    split_and!; try done; try lia; unfold zlen in *; lia.
  - destruct (negb (zlen (as_bytes a ++ bytes) =? as_total_len a)); [apply discard_inv; done|].
    assert (as_bytes a ++ bytes = enc c_Body b ++ []) as ->.
    { rewrite app_nil_r, <- Hcs, Hbytes. f_equal. apply take_ge. unfold zlen in *. lia. }
    rewrite dec_enc by done.
    match goal with |- context [install xxh3_128 sid b ?c0] =>
      pose proof (install_inv sid b c0 Hgb Hbuf) as Hin; by destruct (install xxh3_128 sid b c0) end.
Qed.

Lemma on_snapshot_inv f c : client_inv c → good_frame f → client_inv (on_snapshot xxh3_128 f c).1.
Proof.
  intros Hc Hf. unfold on_snapshot. destruct (bool_decide _ || bool_decide _) eqn:E; [done|].
  apply orb_false_iff in E as [Hsub Hinc]. apply bool_decide_eq_false, dec_stable in Hsub, Hinc.
  case_match; [done|]. destruct (supersede _ c) as [c'|] eqn:Es; [|done].
  destruct (supersede_inv _ _ _ Hc Es) as (Hc' & Hs' & Ha').
  destruct f as [sub inc sid [b|i total tl bytes]]; cbn [snap_subscription_id snap_session_incarnation
    snap_snapshot_id snap_payload] in *.
  - pose proof (install_inv sid b c' Hf (ci_buffered _ Hc')) as Hin.
    by destruct (install xxh3_128 sid b c').
  - apply (on_chunk_inv sub); [done|by rewrite Hs'|done|exact Hf].
Qed.

Lemma client_event_inv e c : client_inv c → good_event e c → client_inv (client_event e c).
Proof.
  intros Hc He. destruct e as [sub follows rev|f|d]; cbn [client_event].
  - destruct Hc. cbn in He. unfold adopt. destruct follows; cbn [negb]; split; try done; try by constructor.
    cbn. auto.
  - by apply on_snapshot_inv.
  - unfold on_delta. case_match; [done|]. case_match; [|by apply apply_inv].
    destruct Hc. split; try done. cbn. apply Forall_app. split; [done|]. by constructor.
Qed.

Lemma client_events_inv es c : client_inv c → good_events es c → client_inv (client_events es c).
Proof.
  revert c. induction es as [|e es IH]; intros c Hc Hes; [done|]. destruct Hes as [He Hes].
  apply IH; [by apply client_event_inv|done].
Qed.

Lemma client_new_inv inc : client_inv (client_new inc).
Proof. by split. Qed.
End history.

(** ** Reassembly *)

(** The frames of a snapshot, and a client that receives them in order. *)
Definition chunk_frames (sub : Z) (inc : Uuid) (sid : Z) (cs : list (list byte)) : list SnapshotFrame :=
  imap (λ i bytes, mk_SnapshotFrame sub inc sid (Chunk (Z.of_nat i) (zlen cs) (zlen (concat cs)) bytes)) cs.

Section reassembly.
Context (xxh3_128 : list byte → Z).

Definition receive (fs : list SnapshotFrame) (c : ReplicaClient) : ReplicaClient :=
  foldl (λ c f, (on_snapshot xxh3_128 f c).1) c fs.

(** The client after the first [i] chunks of [cs]. *)
Definition part_way (sid : Z) (cs : list (list byte)) (i : nat) (c0 c : ReplicaClient) : Prop :=
  c = with_assembly (Some (mk_Assembly sid (zlen cs) (zlen (concat cs)) (Z.of_nat i) (concat (take i cs)))) c0.

Definition ready (sub : Z) (inc : Uuid) (sid : Z) (c : ReplicaClient) : Prop :=
  rc_subscription_id c = Some sub ∧ rc_incarnation c = inc ∧ rc_assembly c = None ∧
  rc_last_applied_snapshot c < sid ∧ rc_discarded_snapshot c < sid.

Lemma on_chunk_frame sub inc sid total tl i bytes c :
  rc_subscription_id c = Some sub → rc_incarnation c = inc →
  rc_last_applied_snapshot c < sid → rc_discarded_snapshot c < sid →
  (∀ a, rc_assembly c = Some a → as_snapshot_id a = sid) →
  on_snapshot xxh3_128 (mk_SnapshotFrame sub inc sid (Chunk i total tl bytes)) c
  = on_chunk xxh3_128 sid i total tl bytes c.
Proof.
  intros Hs Hi Hl Hd Ha. unfold on_snapshot. cbn [snap_subscription_id snap_session_incarnation
    snap_snapshot_id snap_payload]. rewrite Hs, Hi, !bool_decide_false by (intros H; by apply H). cbn [orb].
  rewrite (proj2 (Z.leb_gt _ _)) by lia. unfold supersede.
  destruct (rc_assembly c) as [a|] eqn:Ea; [|done]. rewrite (Ha a eq_refl), !Z.ltb_irrefl. done.
Qed.

Lemma with_assembly_twice a b c : with_assembly a (with_assembly b c) = with_assembly a c.
Proof. done. Qed.

(** One chunk further, and the last one. *)
Lemma chunk_step sid cs i bytes c0 c :
  cs !! i = Some bytes → zlen cs < 2 ^ 32 → zlen (concat cs) <= MAX_BODY →
  (i = 0%nat ∧ rc_assembly c0 = None ∧ c = c0 ∨ part_way sid cs i c0 c) →
  on_chunk xxh3_128 sid (Z.of_nat i) (zlen cs) (zlen (concat cs)) bytes c =
    if Z.of_nat i + 1 <? zlen cs
    then (with_assembly (Some (mk_Assembly sid (zlen cs) (zlen (concat cs)) (Z.of_nat (S i))
            (concat (take (S i) cs)))) c0, None)
    else match dec c_Body (concat cs) with
    | Ok (body, _) => let '(c', o) := install xxh3_128 sid body (with_assembly None c0) in (c', Some o)
    | Err _ => let '(c', o) := discard sid (with_assembly None c0) in (c', Some o)
    end.
Proof.
  intros Hx Hn Hm Hc. pose proof (lookup_lt_Some _ _ _ Hx) as Hlt.
  unfold on_chunk. cbv zeta.
  assert (default (mk_Assembly sid (zlen cs) (zlen (concat cs)) 0 []) (rc_assembly c)
    = mk_Assembly sid (zlen cs) (zlen (concat cs)) (Z.of_nat i) (concat (take i cs)) ∧
    ∀ a, with_assembly a c = with_assembly a c0) as [-> Hw].
  { destruct Hc as [(-> & Ha & ->)| ->]; [by rewrite Ha|done]. }
  cbn [as_total as_total_len as_next_index as_bytes as_snapshot_id]. rewrite !Hw, !with_assembly_twice.
  pose proof (zlen_concat_take cs (S i)) as Hlen. rewrite (take_snoc_concat _ _ _ Hx), zlen_app in Hlen.
  pose proof (zlen_nonneg (concat (take i cs))). pose proof (zlen_nonneg bytes).
  unfold MAX_BODY, S_MAX in Hm. rewrite add64_id by (unfold u64_max; lia).
  rewrite !Z.eqb_refl, (proj2 (Z.leb_le _ _)) by (unfold MAX_BODY, S_MAX; lia).
  rewrite (proj2 (Z.leb_le _ _)) by lia. cbn [andb negb].
  rewrite Z.mod_small by (unfold zlen in *; lia).
  destruct (Z.of_nat i + 1 <? zlen cs) eqn:E.
  - do 4 f_equal; [lia|]. symmetry. by apply take_snoc_concat.
  - assert (concat (take i cs) ++ bytes = concat cs) as ->.
    { rewrite <- (take_snoc_concat _ _ _ Hx). f_equal. apply take_ge. unfold zlen in *. lia. }
    by rewrite Z.eqb_refl.
Qed.

Lemma frame_lookup sub inc sid cs i bytes :
  cs !! i = Some bytes →
  drop i (chunk_frames sub inc sid cs) =
    mk_SnapshotFrame sub inc sid (Chunk (Z.of_nat i) (zlen cs) (zlen (concat cs)) bytes)
    :: drop (S i) (chunk_frames sub inc sid cs).
Proof. intros Hx. apply drop_S. unfold chunk_frames. by rewrite list_lookup_imap, Hx. Qed.

Lemma receive_from sub inc sid cs b c0 :
  concat cs = enc c_Body b → wf c_Body b = true → zlen cs < 2 ^ 32 → zlen (concat cs) <= MAX_BODY →
  ready sub inc sid c0 →
  ∀ n i c, (length cs = i + S n)%nat → (i = 0%nat ∧ c = c0 ∨ part_way sid cs i c0 c) →
  receive (drop i (chunk_frames sub inc sid cs)) c = (install xxh3_128 sid b c0).1.
Proof.
  intros Hb Hwf Hn Hm (Hs & Hi & Ha & Hl & Hd) n. induction n as [|n IH]; intros i c Hlen Hc.
  all: destruct (lookup_lt_is_Some_2 cs i) as [bytes Hx]; [lia|];
    rewrite (frame_lookup _ _ _ _ _ _ Hx); unfold receive; cbn [foldl];
    rewrite on_chunk_frame by (destruct Hc as [[_ ->]| ->]; cbn; naive_solver);
    rewrite (chunk_step sid cs i bytes c0 c) by naive_solver.
  - rewrite (proj2 (Z.ltb_ge _ _)) by (unfold zlen; lia).
    rewrite Hb, <- (app_nil_r (enc c_Body b)), dec_enc by done.
    replace (with_assembly None c0) with c0 by (destruct c0; cbn in *; by rewrite Ha).
    rewrite drop_ge by (unfold chunk_frames; rewrite length_imap; lia).
    by destruct (install xxh3_128 sid b c0).
  - rewrite (proj2 (Z.ltb_lt _ _)) by (unfold zlen; lia). apply IH; [lia|]. by right.
Qed.
End reassembly.

(** ** Bounds *)

Definition asm_ok (c : ReplicaClient) : Prop :=
  ∀ a, rc_assembly c = Some a → zlen (as_bytes a) <= as_total_len a ∧ as_total_len a <= MAX_BODY.

Lemma apply_assembly d c : rc_assembly (apply d c).1 = rc_assembly c.
Proof.
  unfold apply. destruct (negb _); [done|]. destruct (rc_replica c); [|done].
  destruct (apply_delta d r) as [r' all]. cbv zeta. by destruct (fresh_events _ all).
Qed.

Lemma apply_all_assembly ds evs c : rc_assembly (apply_all ds evs c).1 = rc_assembly c.
Proof.
  revert evs c. induction ds as [|d ds IH]; intros evs c; [done|]. cbn [apply_all].
  pose proof (apply_assembly d c) as Ha. destruct (apply d c) as [c' o]. cbn in Ha. rewrite <- Ha.
  destruct o as [[| |]|]; cbn; auto.
Qed.

Section bounds.
Context (xxh3_128 : list byte → Z).

Lemma install_assembly sid b c : rc_assembly (install xxh3_128 sid b c).1 = None.
Proof.
  unfold install. cbv zeta. case_bool_decide; [done|].
  match goal with |- context [apply_all ?ds ?evs ?c0] =>
    pose proof (apply_all_assembly ds evs c0) as Ha; by destruct (apply_all ds evs c0) as [c' [|]] end.
Qed.

Lemma on_chunk_asm sid i total tl bytes c :
  asm_ok c → zlen bytes <= u32_max → asm_ok (on_chunk xxh3_128 sid i total tl bytes c).1.
Proof.
  intros Hc Hb. assert (∀ c' : ReplicaClient, rc_assembly c' = None → asm_ok c') as Hnone
    by (intros c' E a Ha; congruence).
  unfold on_chunk. cbv zeta. set (a := default _ (rc_assembly c)).
  destruct (negb (_ && _)) eqn:Econ; [by apply Hnone|]. apply negb_false_iff in Econ. bool_hyps.
  cbn [as_next_index as_total as_bytes as_total_len as_snapshot_id].
  assert (0 <= zlen (as_bytes a) <= MAX_BODY) as Ha0.
  { split; [apply zlen_nonneg|]. subst a. destruct (rc_assembly c) as [a|] eqn:Ea.
    - specialize (Hc a Ea). change (zlen (as_bytes a) <= MAX_BODY). lia.
    - by vm_compute. }
  rewrite add64_id in * by (pose proof (zlen_nonneg bytes);
    unfold MAX_BODY, S_MAX, u32_max, u64_max in *; lia).
  destruct (_ <? as_total a).
  - intros a' [= <-]. cbn [as_bytes as_total_len]. rewrite zlen_app. lia.
  - destruct (negb (zlen _ =? _)); [by apply Hnone|].
    destruct (dec c_Body _) as [[body rest]|]; [|by apply Hnone].
    apply Hnone. match goal with |- context [install xxh3_128 sid body ?c0] =>
      pose proof (install_assembly sid body c0) as Hi; by destruct (install xxh3_128 sid body c0) end.
Qed.

Lemma on_snapshot_asm f c : asm_ok c → wf c_SnapshotFrame f = true → asm_ok (on_snapshot xxh3_128 f c).1.
Proof.
  intros Hc Hf. unfold on_snapshot. case_match; [done|]. case_match; [done|].
  destruct (supersede _ c) as [c'|] eqn:Es; [|done].
  assert (asm_ok c') as Hc'.
  { unfold supersede in Es. repeat case_match; simplify_eq; done. }
  destruct f as [sub inc sid [b|i total tl bytes]]; cbn [snap_payload snap_snapshot_id].
  - pose proof (install_assembly sid b c') as Hi. destruct (install xxh3_128 sid b c').
    intros a Ha. cbn in *. congruence.
  - apply on_chunk_asm; [done|]. cbn [c_SnapshotFrame wf snap_payload c_SnapshotPayload] in Hf.
    cbn [c_bytes wf] in Hf. unfold fits_u32 in Hf. bool_hyps. lia.
Qed.

Lemma receive_asm fs c :
  asm_ok c → Forall (λ f, wf c_SnapshotFrame f = true) fs → asm_ok (receive xxh3_128 fs c).
Proof.
  revert c. induction fs as [|f fs IH]; intros c Hc Hfs; [done|]. apply Forall_cons in Hfs as [Hf Hfs].
  apply IH; [by apply on_snapshot_asm|done].
Qed.
End bounds.

(** Receiving a snapshot in chunks is receiving it whole. *)
Lemma chunks_received xxh3_128 sub inc sid cs b c :
  cs ≠ [] → concat cs = enc c_Body b → wf c_Body b = true → zlen cs < 2 ^ 32 →
  zlen (concat cs) <= MAX_BODY → ready sub inc sid c →
  receive xxh3_128 (chunk_frames sub inc sid cs) c
  = (on_snapshot xxh3_128 (mk_SnapshotFrame sub inc sid (Full b)) c).1.
Proof.
  intros Hne Hb Hwf Hn Hm Hr. pose proof Hr as (Hs & Hi & Ha & Hl & Hd).
  rewrite <- (drop_0 (chunk_frames sub inc sid cs)).
  rewrite (receive_from xxh3_128 sub inc sid cs b c Hb Hwf Hn Hm Hr (pred (length cs)) 0 c);
    [|destruct cs; [done|cbn; lia]|by left].
  unfold on_snapshot. cbn [snap_subscription_id snap_session_incarnation snap_snapshot_id snap_payload].
  rewrite Hs, Hi, !bool_decide_false by (intros H; by apply H). cbn [orb].
  rewrite (proj2 (Z.leb_gt _ _)) by lia. unfold supersede. rewrite Ha.
  by destruct (install xxh3_128 sid b c).
Qed.

(** ** Theorems *)

(** C13: A client's state is authentic (the safety half of G2): whatever
    authentic frames it received, in whatever order, repeated or with gaps, the
    state it holds is the host's at the revision it claims. *)
Theorem client_state_authentic xxh3_128 H chunks inc es r :
  good_events xxh3_128 H chunks es (client_new inc) →
  let c := client_events xxh3_128 es (client_new inc) in
  rc_replica c = Some r → H (rc_local_revision c) r.
Proof.
  intros Hes c. apply (ci_state H chunks). apply client_events_inv; [apply client_new_inv|done].
Qed.

(** Receiving a snapshot in chunks is the same as receiving it whole: the
    client installs exactly the body that was cut up. *)
Theorem snapshot_reassembled xxh3_128 sub inc sid cs b c :
  cs ≠ [] → concat cs = enc c_Body b → wf c_Body b = true → zlen cs < 2 ^ 32 →
  zlen (concat cs) <= MAX_BODY → ready sub inc sid c →
  receive xxh3_128 (chunk_frames sub inc sid cs) c
  = (on_snapshot xxh3_128 (mk_SnapshotFrame sub inc sid (Full b)) c).1.
Proof. apply chunks_received. Qed.

(** A client under reassembly holds at most 65 MiB of chunk bytes, whatever
    frames it receives. *)
Theorem assembly_bounded xxh3_128 fs inc sub follows rev a :
  Forall (λ f, wf c_SnapshotFrame f = true) fs →
  rc_assembly (receive xxh3_128 fs (adopt sub follows rev (client_new inc))) = Some a →
  zlen (as_bytes a) <= 68157440.
Proof.
  intros Hfs Ha. assert (asm_ok (adopt sub follows rev (client_new inc))) as H0 by (by destruct follows).
  destruct (receive_asm xxh3_128 fs _ H0 Hfs a Ha) as [H1 H2]. unfold MAX_BODY, S_MAX in H2. lia.
Qed.

(** ** Witnesses *)

Definition demo_hash (_ : list byte) : Z := 0.
Definition demo_inc : Uuid := replicate 16 x07.
Definition demo_body : Body := mk_Body 5 (replicate 16 x00) 1 false (to_body demo0).
Definition demo_chunks : list (list byte) :=
  [take 10 (enc c_Body demo_body); drop 10 (enc c_Body demo_body)].
Definition demo_frames : list SnapshotFrame := chunk_frames 1 demo_inc 1 demo_chunks.
Definition demo_history (rev : Z) (r : Replica) : Prop := rev = 5 ∧ r = demo0.

Lemma demo_body_wf : wf c_Body demo_body = true.
Proof. by vm_compute. Qed.

Lemma client_state_authentic_witness :
  demo_history (rc_local_revision (client_events demo_hash
    (EvAdopt 1 true 0 :: (EvSnapshot <$> demo_frames)) (client_new demo_inc))) demo0.
Proof.
  apply (client_state_authentic demo_hash demo_history (λ _ _, demo_chunks) demo_inc
    (EvAdopt 1 true 0 :: (EvSnapshot <$> demo_frames)) demo0); [|by vm_compute].
  assert (∀ i, (i < 2)%nat → ∀ f, demo_frames !! i = Some f → good_frame demo_history (λ _ _, demo_chunks) f) as Hg.
  { intros i Hi f Hf. destruct i as [|[|i]]; [| |lia]; injection Hf as <-;
      (split; [done|]; split; [done|]; split; [done|]; split; [done|]; split; [done|];
       exists demo_body; split; [by vm_compute|]; split; [exact demo_body_wf|done]). }
  split; [done|]. split; [by apply (Hg 0%nat); [lia|]|]. split; [by apply (Hg 1%nat); [lia|]|]. done.
Defined.

Lemma snapshot_reassembled_witness :
  receive demo_hash demo_frames (adopt 1 true 0 (client_new demo_inc))
  = (on_snapshot demo_hash (mk_SnapshotFrame 1 demo_inc 1 (Full demo_body)) (adopt 1 true 0 (client_new demo_inc))).1.
Proof.
  apply (snapshot_reassembled demo_hash 1 demo_inc 1 demo_chunks demo_body
    (adopt 1 true 0 (client_new demo_inc))); [done|by vm_compute|exact demo_body_wf|by vm_compute|
    by vm_compute|by vm_compute].
Defined.

Lemma assembly_bounded_witness :
  zlen (as_bytes (mk_Assembly 1 2 (zlen (concat demo_chunks)) 1 (take 10 (enc c_Body demo_body)))) <= 68157440.
Proof.
  apply (assembly_bounded demo_hash (take 1 demo_frames) demo_inc 1 true 0).
  - constructor; [by vm_compute|constructor].
  - by vm_compute.
Defined.
