(* ===== verification/Resize.v ===== *)
(** * Resize lease (crates/session-core/src/resize.rs)

    One client at a time may resize the terminal; each grant starts a new
    epoch, and within an epoch only increasing sequence numbers are applied. *)

From S2P Require Import Prelude Replica.
From Stdlib Require Import ZArith Lia Strings.Byte.
From stdpp Require Import base gmap list option sorting.

#[local] Open Scope Z_scope.

(** [input::Holder] *)
Abbreviation Holder := (list byte) (only parsing).

Record Applied := mk_Applied {
  ap_epoch : Z;
  ap_seq : Z;
  ap_cols : Z;
  ap_rows : Z;
}.

Inductive ResizeError : Type :=
| RStaleLease (current_epoch : Z)
| RStaleResize (a : Applied).

Record ResizeLease := mk_ResizeLease {
  rl_epoch : Z;
  rl_holder : option Holder;
  rl_applied : Applied;
  rl_revokees : list Holder;
  rl_last_request : gmap Holder Z;
}.

Definition resize_new (cols rows : Z) : ResizeLease :=
  let '(cols, rows) := normalize_size cols rows in
  mk_ResizeLease 0 None (mk_Applied 0 0 cols rows) [] ∅.

Definition current (l : ResizeLease) : Z * option Holder := (rl_epoch l, rl_holder l).

(** [entry(who).or_insert(0)], then compare: the entry is created either way. *)
Definition resize_fresh (who : Holder) (request_id : Z) (l : ResizeLease) : ResizeLease * bool :=
  let last := default 0 (rl_last_request l !! who) in
  let set v := mk_ResizeLease (rl_epoch l) (rl_holder l) (rl_applied l) (rl_revokees l)
                 (<[who := v]> (rl_last_request l)) in
  if request_id <=? last then (set last, false) else (set request_id, true).

Definition resize_acquire (who : Holder) (l : ResizeLease)
    : ResizeLease * (Z * Applied * option (Holder * Z)) :=
  let epoch := add64 (rl_epoch l) 1 in
  let kept := filter (λ h, h ≠ who) (rl_revokees l) in
  let '(revokees, revoked) :=
    match rl_holder l with
    | Some h => if bool_decide (h ≠ who) then (kept ++ [h], Some (h, rl_epoch l)) else (kept, None)
    | None => (kept, None)
    end in
  (mk_ResizeLease epoch (Some who) (rl_applied l) revokees (rl_last_request l),
   (epoch, rl_applied l, revoked)).

Definition resize_release (who : Holder) (epoch : Z) (l : ResizeLease)
    : ResizeLease * (bool * list Holder) :=
  if ((epoch =? 0) || (epoch =? rl_epoch l)) && bool_decide (rl_holder l = Some who)
  then (mk_ResizeLease (rl_epoch l) None (rl_applied l) [] (rl_last_request l),
        (true, rl_revokees l))
  else (l, (false, [])).

Definition held_by_other (holder : option Holder) (who : Holder) : bool :=
  match holder with Some h => bool_decide (h ≠ who) | None => false end.
Definition epoch_or_0 (l : ResizeLease) : Z :=
  match rl_holder l with Some _ => rl_epoch l | None => 0 end.

Definition resize_reclaim (who : Holder) (epoch : Z) (l : ResizeLease)
    : ResizeLease * (bool * Z * Applied) :=
  if (epoch =? rl_epoch l) && bool_decide (rl_holder l = Some who)
  then (l, (true, epoch, rl_applied l))
  else
    let revokees :=
      if held_by_other (rl_holder l) who && bool_decide (who ∉ rl_revokees l)
      then rl_revokees l ++ [who] else rl_revokees l in
    (mk_ResizeLease (rl_epoch l) (rl_holder l) (rl_applied l) revokees (rl_last_request l),
     (false, epoch_or_0 l, rl_applied l)).

Definition pair_le (a b : Z * Z) : bool := (a.1 <? b.1) || ((a.1 =? b.1) && (a.2 <=? b.2)).

Definition do_resize (who : Holder) (epoch seq cols rows : Z) (l : ResizeLease)
    : ResizeLease * Result Applied ResizeError :=
  if negb (epoch =? rl_epoch l) || bool_decide (rl_holder l ≠ Some who)
  then (l, Err (RStaleLease (epoch_or_0 l)))
  else if pair_le (epoch, seq) (ap_epoch (rl_applied l), ap_seq (rl_applied l))
  then (l, Err (RStaleResize (rl_applied l)))
  else
    let '(cols, rows) := normalize_size cols rows in
    let applied := mk_Applied epoch seq cols rows in
    (mk_ResizeLease (rl_epoch l) (rl_holder l) applied (rl_revokees l) (rl_last_request l),
     Ok applied).

(** ** Traces *)

Inductive ResizeCall : Type :=
| RFresh (who : Holder) (request_id : Z)
| RAcquire (who : Holder)
| RRelease (who : Holder) (epoch : Z)
| RReclaim (who : Holder) (epoch : Z)
| RResize (who : Holder) (epoch seq cols rows : Z).

(** The new state and the size applied to the terminal, if any. *)
Definition resize_step (c : ResizeCall) (l : ResizeLease) : ResizeLease * option Applied :=
  match c with
  | RFresh who id => ((resize_fresh who id l).1, None)
  | RAcquire who => ((resize_acquire who l).1, None)
  | RRelease who e => ((resize_release who e l).1, None)
  | RReclaim who e => ((resize_reclaim who e l).1, None)
  | RResize who e s c r =>
      let '(l', res) := do_resize who e s c r l in
      (l', match res with Ok a => Some a | Err _ => None end)
  end.

Fixpoint resize_run (cs : list ResizeCall) (l : ResizeLease) : ResizeLease * list Applied :=
  match cs with
  | [] => (l, [])
  | c :: cs' =>
      let '(l1, a) := resize_step c l in
      let '(l2, as_) := resize_run cs' l1 in
      (l2, option_list a ++ as_)
  end.

(** Strict lexicographic order on (epoch, seq). *)
Definition applied_lt (a b : Applied) : Prop :=
  ap_epoch a < ap_epoch b ∨ (ap_epoch a = ap_epoch b ∧ ap_seq a < ap_seq b).

Definition size_ok (a : Applied) : Prop :=
  1 <= ap_cols a <= MAX_COLS ∧ 1 <= ap_rows a <= MAX_ROWS.

Record resize_inv (n : Z) (l : ResizeLease) : Prop := {
  ri_epoch : 0 <= rl_epoch l <= n;
  ri_applied : ap_epoch (rl_applied l) <= rl_epoch l;
  ri_size : size_ok (rl_applied l);
  ri_revokees : NoDup (rl_revokees l);
  ri_holder : ∀ h, rl_holder l = Some h → h ∉ rl_revokees l;
}.

Lemma resize_new_inv cols rows : resize_inv 0 (resize_new cols rows).
Proof.
  unfold resize_new. pose proof (normalize_size_bounds cols rows) as [? ?].
  destruct (normalize_size cols rows). split; cbn in *; try lia; try done. constructor.
Qed.

Lemma pair_le_false a b : pair_le a b = false ↔ b.1 < a.1 ∨ (a.1 = b.1 ∧ b.2 < a.2).
Proof. unfold pair_le. lia. Qed.

Lemma do_resize_ok who epoch seq cols rows l l' a :
  do_resize who epoch seq cols rows l = (l', Ok a) →
  rl_holder l = Some who ∧ epoch = rl_epoch l ∧ applied_lt (rl_applied l) a ∧
  size_ok a ∧ ap_epoch a = epoch ∧ ap_seq a = seq ∧
  l' = mk_ResizeLease (rl_epoch l) (rl_holder l) a (rl_revokees l) (rl_last_request l).
Proof.
  unfold do_resize. destruct (Z.eqb_spec epoch (rl_epoch l)) as [->|]; [|done].
  destruct (decide (rl_holder l = Some who)) as [Hh|Hh];
    [rewrite (bool_decide_eq_false_2 (rl_holder l ≠ Some who)) by tauto
    |rewrite (bool_decide_eq_true_2 (rl_holder l ≠ Some who)) by done; done].
  cbn [negb orb]. destruct (pair_le _ _) eqn:Ep; [done|].
  apply pair_le_false in Ep. cbn [fst snd] in Ep.
  pose proof (normalize_size_bounds cols rows) as [? ?].
  destruct (normalize_size cols rows) as [c r]. intros [= <- <-].
  split; [done|]. split; [done|]. split; [unfold applied_lt; cbn; lia|].
  split; [unfold size_ok; cbn in *; lia|done].
Qed.

Lemma do_resize_err who epoch seq cols rows l l' e :
  do_resize who epoch seq cols rows l = (l', Err e) → l' = l.
Proof.
  unfold do_resize. do 2 (case_match; [by intros [= <- _]|]).
  by destruct (normalize_size cols rows).
Qed.

Lemma resize_step_inv c n l :
  resize_inv n l → n < u64_max → resize_inv (n + 1) (resize_step c l).1.
Proof.
  intros Hi Hn. pose proof Hi as [He Ha Hs Hnd Hh].
  assert (resize_inv (n + 1) l) as Hl by (split; [lia|done..]).
  destruct c as [who id|who|who e|who e|who e s cols rows]; cbn [resize_step fst].
  - unfold resize_fresh. case_match; by split; cbn; [lia|..].
  - unfold resize_acquire.
    assert (NoDup (filter (λ h, h ≠ who) (rl_revokees l))) as Hnd' by by apply NoDup_filter.
    destruct (rl_holder l) as [h|] eqn:Eh; [destruct (decide (h = who)) as [->|Hne]|].
    + rewrite bool_decide_eq_false_2 by tauto. split; cbn; rewrite ?add64_id by lia; try lia; try done.
      intros ? [= <-]. rewrite list_elem_of_filter. tauto.
    + rewrite bool_decide_eq_true_2 by done. split; cbn; rewrite ?add64_id by lia; try lia; try done.
      * apply NoDup_app. split; [done|]. split; [|apply NoDup_singleton].
        intros x [_ Hx]%list_elem_of_filter ->%list_elem_of_singleton. by apply (Hh h).
      * intros ? [= <-]. rewrite elem_of_app, list_elem_of_filter, list_elem_of_singleton. naive_solver.
    + split; cbn; rewrite ?add64_id by lia; try lia; try done.
      intros ? [= <-]. rewrite list_elem_of_filter. tauto.
  - unfold resize_release. case_match; [|done]. split; cbn; try done; [lia|constructor].
  - unfold resize_reclaim. case_match; [done|]. split; cbn; try done; [lia|..].
    + case_match; [|done]. bool_hyps. apply NoDup_app. split; [done|].
      split; [|apply NoDup_singleton]. by intros x Hx ->%list_elem_of_singleton.
    + intros h E. case_match; [|by apply Hh]. bool_hyps. unfold held_by_other in *.
      rewrite E in *. bool_hyps. rewrite elem_of_app, list_elem_of_singleton.
      specialize (Hh h eq_refl). naive_solver.
  - destruct (do_resize who e s cols rows l) as [l' [a|er]] eqn:E; cbn [fst].
    + apply do_resize_ok in E as (? & -> & ? & ? & ? & ? & ->). split; cbn; try done; lia.
    + by apply do_resize_err in E as ->.
Qed.

(** Each step leaves the applied size alone or replaces it by a later one. *)
Lemma resize_step_applied c l :
  let '(l', a) := resize_step c l in
  match a with
  | Some a => rl_applied l' = a ∧ applied_lt (rl_applied l) a
  | None => rl_applied l' = rl_applied l
  end.
Proof.
  destruct c as [who id|who|who e|who e|who e s cols rows]; cbn [resize_step].
  - unfold resize_fresh. by case_match.
  - unfold resize_acquire. by repeat case_match; simplify_eq/=.
  - unfold resize_release. by case_match.
  - unfold resize_reclaim. by case_match.
  - destruct (do_resize who e s cols rows l) as [l' [a|er]] eqn:E.
    + apply do_resize_ok in E as (? & -> & ? & ? & ? & ? & ->). done.
    + by apply do_resize_err in E as ->.
Qed.

Lemma applied_lt_trans a b c : applied_lt a b → applied_lt b c → applied_lt a c.
Proof. unfold applied_lt. lia. Qed.

Lemma resize_run_applied cs l :
  let '(l', as_) := resize_run cs l in
  Forall (applied_lt (rl_applied l)) as_ ∧ StronglySorted applied_lt as_ ∧
  rl_applied l' = default (rl_applied l) (last as_).
Proof.
  revert l. induction cs as [|c cs IH]; intros l; cbn [resize_run].
  { split; [constructor|]. split; [constructor|done]. }
  pose proof (resize_step_applied c l) as Hs. destruct (resize_step c l) as [l1 a].
  specialize (IH l1). destruct (resize_run cs l1) as [l2 as_]. destruct IH as (Hf & Hst & Hl).
  destruct a as [a|]; [change (option_list (Some a) ++ as_) with (a :: as_)|change (option_list None ++ as_) with as_].
  - destruct Hs as [<- Hlt]. split; [|split].
    + constructor; [done|]. eapply Forall_impl; [exact Hf|]. intros x. by apply applied_lt_trans.
    + by constructor.
    + rewrite Hl, last_cons. by destruct (last as_).
  - rewrite Hs in *. done.
Qed.

Lemma resize_run_inv cs n l :
  resize_inv n l → n + zlen cs <= u64_max → resize_inv (n + zlen cs) (resize_run cs l).1.
Proof.
  revert n l. induction cs as [|c cs IH]; intros n l Hi Hn.
  { by rewrite zlen_nil, Z.add_0_r. }
  rewrite zlen_cons in *. pose proof (zlen_nonneg cs). cbn [resize_run].
  pose proof (resize_step_inv c n l Hi ltac:(lia)) as Hi1. destruct (resize_step c l) as [l1 a].
  specialize (IH (n + 1) l1 Hi1 ltac:(lia)). destruct (resize_run cs l1). cbn in *.
  by replace (n + (1 + zlen cs)) with (n + 1 + zlen cs) by lia.
Qed.

(** The epoch never decreases. *)
Lemma resize_step_epoch c n l :
  resize_inv n l → n < u64_max → rl_epoch l <= rl_epoch (resize_step c l).1.
Proof.
  intros [He _ _ _ _] Hn. destruct c as [who id|who|who e|who e|who e s cols rows]; cbn [resize_step fst].
  - unfold resize_fresh. case_match; cbn; lia.
  - unfold resize_acquire. repeat case_match; simplify_eq/=; rewrite add64_id by lia; lia.
  - unfold resize_release. case_match; cbn; lia.
  - unfold resize_reclaim. case_match; cbn; lia.
  - unfold do_resize. repeat case_match; simplify_eq/=; lia.
Qed.

Lemma resize_run_epoch cs n l :
  resize_inv n l → n + zlen cs <= u64_max → rl_epoch l <= rl_epoch (resize_run cs l).1.
Proof.
  revert n l. induction cs as [|c cs IH]; intros n l Hi Hn; [done|].
  rewrite zlen_cons in *. pose proof (zlen_nonneg cs). cbn [resize_run].
  pose proof (resize_step_inv c n l Hi ltac:(lia)) as Hi1.
  pose proof (resize_step_epoch c n l Hi ltac:(lia)). destruct (resize_step c l) as [l1 a].
  specialize (IH (n + 1) l1 Hi1 ltac:(lia)). destruct (resize_run cs l1). cbn in *. lia.
Qed.

Lemma resize_run_app cs cs' l :
  (resize_run (cs ++ cs') l).1 = (resize_run cs' (resize_run cs l).1).1.
Proof.
  revert l. induction cs as [|c cs IH]; intros l; [done|]. cbn [resize_run app].
  destruct (resize_step c l) as [l1 a]. specialize (IH l1).
  destruct (resize_run cs l1) as [l2 b], (resize_run (cs ++ cs') l1). cbn in *.
  by rewrite IH.
Qed.

(** ** Properties *)

(** Whatever the clients send and in whatever order, the sizes applied to
    the terminal carry strictly increasing (epoch, seq) pairs, the lease
    remembers the last of them, and it stays within 1..1024 columns and
    1..512 rows. *)
Theorem resize_applied_monotone cols rows cs l applied :
  zlen cs <= u64_max →
  resize_run cs (resize_new cols rows) = (l, applied) →
  StronglySorted applied_lt applied ∧
  rl_applied l = default (rl_applied (resize_new cols rows)) (last applied) ∧
  size_ok (rl_applied l) ∧ ap_epoch (rl_applied l) <= rl_epoch l.
Proof.
  intros Hn Hrun. pose proof (resize_run_applied cs (resize_new cols rows)) as Ha.
  pose proof (resize_run_inv cs 0 _ (resize_new_inv cols rows) ltac:(lia)) as Hi.
  rewrite Hrun in Ha, Hi. destruct Ha as (_ & ? & ?). destruct Hi. done.
Qed.

Definition alice : Holder := replicate 16 x0a.
Definition bob : Holder := replicate 16 x0b.
Definition demo_resizes : list ResizeCall :=
  [RAcquire alice; RResize alice 1 1 80 24; RResize alice 1 1 90 30; RAcquire bob;
   RResize alice 1 2 10 10; RResize bob 2 1 9999 0].

Lemma resize_applied_monotone_witness :
  rl_applied (resize_run demo_resizes (resize_new 0 0)).1 = mk_Applied 2 1 1024 1.
Proof.
  exact (proj1 (proj2 (resize_applied_monotone 0 0 demo_resizes _ _ ltac:(vm_compute; discriminate)
                         (surjective_pairing _)))).
Defined.

(** Exclusion. Once another client acquires the lease, every resize of the
    displaced epoch is refused as stale, whatever happens in between. *)
Theorem displaced_resize_refused cols rows cs who cs' old epoch seq c r :
  zlen cs + zlen cs' + 1 <= u64_max →
  epoch <= rl_epoch (resize_run cs (resize_new cols rows)).1 →
  let l := (resize_run (cs ++ RAcquire who :: cs') (resize_new cols rows)).1 in
  do_resize old epoch seq c r l = (l, Err (RStaleLease (epoch_or_0 l))).
Proof.
  intros Hn He. pose proof (zlen_nonneg cs). pose proof (zlen_nonneg cs').
  pose proof (resize_run_inv cs 0 _ (resize_new_inv cols rows) ltac:(lia)) as Hi.
  rewrite resize_run_app. set (l0 := (resize_run cs _).1) in *. rewrite Z.add_0_l in Hi.
  cbn zeta. assert (epoch < rl_epoch (resize_run (RAcquire who :: cs') l0).1) as Hlt.
  { cbn [resize_run]. pose proof (resize_step_inv (RAcquire who) (zlen cs) l0 Hi ltac:(lia)) as Hi1.
    assert (rl_epoch (resize_step (RAcquire who) l0).1 = rl_epoch l0 + 1) as E1.
    { destruct Hi. cbn. unfold resize_acquire. repeat case_match; simplify_eq/=; apply add64_id; lia. }
    destruct (resize_step (RAcquire who) l0) as [l1 a]. cbn [fst] in *.
    pose proof (resize_run_epoch cs' (zlen cs + 1) l1 Hi1 ltac:(lia)).
    destruct (resize_run cs' l1). cbn in *. lia. }
  unfold do_resize. destruct (Z.eqb_spec epoch (rl_epoch (resize_run (RAcquire who :: cs') l0).1)); [lia|done].
Qed.

Lemma displaced_resize_refused_witness :
  let l := (resize_run ([RAcquire alice] ++ RAcquire bob :: [RRelease bob 2]) (resize_new 80 24)).1 in
  do_resize alice 1 5 80 25 l = (l, Err (RStaleLease 0)).
Proof.
  exact (displaced_resize_refused 80 24 [RAcquire alice] bob [RRelease bob 2] alice 1 5 80 25
           ltac:(vm_compute; discriminate) ltac:(vm_compute; discriminate)).
Defined.

(** Giving up the lease. A release takes effect exactly for the current
    holder naming its epoch (or 0); it then vacates the lease and reports every
    client that was displaced from it or asked for it back, each once and never
    the holder itself. *)
Theorem release_reports_revokees n who epoch l l' released revokees :
  resize_inv n l →
  resize_release who epoch l = (l', (released, revokees)) →
  (released = true ↔ rl_holder l = Some who ∧ (epoch = 0 ∨ epoch = rl_epoch l)) ∧
  (released = true → rl_holder l' = None ∧ rl_revokees l' = [] ∧
                     revokees = rl_revokees l ∧ NoDup revokees ∧ who ∉ revokees) ∧
  (released = false → l' = l ∧ revokees = []).
Proof.
  intros Hi. unfold resize_release. destruct (_ && _) eqn:E; intros [= <- <- <-]; bool_hyps.
  - split; [|split; [|done]].
    + split; [intros _|done]. split; [done|]. lia.
    + intros _. split; [done|]. split; [done|]. split; [done|]. split; [apply Hi|].
      by apply (ri_holder n l Hi).
  - split; [|split; [done|done]]. split; [done|]. intros [Hh He].
    rewrite Hh, bool_decide_eq_true_2 in E by done. lia.
Qed.

Lemma release_reports_revokees_witness :
  resize_release bob 2 (mk_ResizeLease 2 (Some bob) (mk_Applied 0 0 1 1) [alice] ∅) =
    (mk_ResizeLease 2 None (mk_Applied 0 0 1 1) [] ∅, (true, [alice])) ∧ bob ∉ [alice].
Proof.
  split; [reflexivity|].
  refine (proj2 (proj2 (proj2 (proj2 (proj1 (proj2 (release_reports_revokees 2 bob 2
            (mk_ResizeLease 2 (Some bob) (mk_Applied 0 0 1 1) [alice] ∅) _ true [alice] _ eq_refl)) eq_refl))))).
  split; cbn; try lia; [unfold size_ok, MAX_COLS, MAX_ROWS; cbn; lia|apply NoDup_singleton|].
  intros h [= <-]. apply (bool_decide_unpack _). vm_compute. done.
Defined.
