(* ===== verification/Input.v ===== *)
(** * Input ledger (crates/session-core/src/input.rs)

    The host side of terminal input: one client at a time holds the input
    lease; each grant starts an epoch with its own byte offsets.  Accepted bytes
    are queued, written to the PTY in order, and retained so that
    retransmissions can be compared.  [None] as a result is a Rust panic. *)

From S2P Require Import Prelude.
From Stdlib Require Import ZArith Lia Strings.Byte.
From stdpp Require Import base gmap list option sorting.

#[local] Open Scope Z_scope.

Definition RETAINED_BYTES : Z := 4 * 1024 * 1024.
Definition INPUT_QUEUE_LIMIT : Z := 1024 * 1024.
Definition VT_REPLY_LIMIT : Z := 64 * 1024.
Definition MAX_CHUNK : Z := 64 * 1024.
Definition RECENT_EPOCHS : Z := 64.
Definition MAX_UNWRITTEN_EPOCHS : Z := 64.

Abbreviation Holder := (list byte) (only parsing).

Record EpochLedger := mk_EpochLedger {
  el_holder : Holder;
  el_accepted : Z;
  el_committed : Z;
  el_pending_dropped : Z;
  el_fenced : bool;
}.

Inductive Item : Type :=
| IInput (epoch : Z) (bytes : list byte) (written : Z)
| IVt (bytes : list byte) (written : Z).

Inductive WriteError : Type :=
| WStaleLease (current_epoch epoch_final_accepted : Z)
| WTooLarge
| WCorruptFrame
| WOffsetOverflow
| WGap (accepted : Z)
| WDiverged (epoch accepted committed : Z)
| WUnverifiable (epoch accepted committed retained_start : Z)
| WBackpressure (accepted : Z).

Record Ack := mk_Ack {
  ack_holder : Holder;
  ack_epoch : Z;
  ack_accepted : Z;
  ack_committed : Z;
}.

Record Revoke := mk_Revoke {
  rv_holder : Holder;
  rv_revoked_epoch : Z;
  rv_new_epoch : Z;
}.

Record InputLedger := mk_InputLedger {
  il_current : Z;
  il_holder : option Holder;
  il_epochs : gmap Z EpochLedger;
  il_retained : list byte;
  il_retained_start : Z;
  il_queue : list Item;
  il_input_bytes : Z;
  il_vt_bytes : Z;
  il_vt_replies_dropped : Z;
  il_revokees : list Holder;
  il_dead : bool;
  il_last_request : gmap Holder Z;
}.

Inductive GrantError : Type := TooManyUnwrittenEpochs.

Record Granted := mk_Granted {
  gr_epoch : Z;
  gr_prior : option (Z * Z * Z);
  gr_revoked : option Revoke;
}.

(** ** Field updates *)

Definition set_holder (h : option Holder) (l : InputLedger) : InputLedger :=
  mk_InputLedger (il_current l) h (il_epochs l) (il_retained l) (il_retained_start l) (il_queue l)
    (il_input_bytes l) (il_vt_bytes l) (il_vt_replies_dropped l) (il_revokees l) (il_dead l)
    (il_last_request l).
Definition set_epochs (e : gmap Z EpochLedger) (l : InputLedger) : InputLedger :=
  mk_InputLedger (il_current l) (il_holder l) e (il_retained l) (il_retained_start l) (il_queue l)
    (il_input_bytes l) (il_vt_bytes l) (il_vt_replies_dropped l) (il_revokees l) (il_dead l)
    (il_last_request l).
Definition set_revokees (r : list Holder) (l : InputLedger) : InputLedger :=
  mk_InputLedger (il_current l) (il_holder l) (il_epochs l) (il_retained l) (il_retained_start l)
    (il_queue l) (il_input_bytes l) (il_vt_bytes l) (il_vt_replies_dropped l) r (il_dead l)
    (il_last_request l).
Definition set_queue (q : list Item) (input_bytes vt_bytes : Z) (l : InputLedger) : InputLedger :=
  mk_InputLedger (il_current l) (il_holder l) (il_epochs l) (il_retained l) (il_retained_start l)
    q input_bytes vt_bytes (il_vt_replies_dropped l) (il_revokees l) (il_dead l)
    (il_last_request l).
Definition set_retained (r : list byte) (start : Z) (l : InputLedger) : InputLedger :=
  mk_InputLedger (il_current l) (il_holder l) (il_epochs l) r start (il_queue l)
    (il_input_bytes l) (il_vt_bytes l) (il_vt_replies_dropped l) (il_revokees l) (il_dead l)
    (il_last_request l).

Definition set_fenced (l : EpochLedger) : EpochLedger :=
  mk_EpochLedger (el_holder l) (el_accepted l) (el_committed l) (el_pending_dropped l) true.
Definition set_accepted (a : Z) (l : EpochLedger) : EpochLedger :=
  mk_EpochLedger (el_holder l) a (el_committed l) (el_pending_dropped l) (el_fenced l).
Definition set_committed (c : Z) (l : EpochLedger) : EpochLedger :=
  mk_EpochLedger (el_holder l) (el_accepted l) c (el_pending_dropped l) (el_fenced l).
Definition add_dropped (n : Z) (l : EpochLedger) : EpochLedger :=
  mk_EpochLedger (el_holder l) (el_accepted l) (el_committed l)
    (add64 (el_pending_dropped l) n) (el_fenced l).

(** ** Operations *)

Definition ledger_new : InputLedger := mk_InputLedger 0 None ∅ [] 0 [] 0 0 0 [] false ∅.

Definition item_epoch (i : Item) : option Z :=
  match i with IInput e _ _ => Some e | IVt _ _ => None end.

(** [Vec::dedup]: drop repetitions of the element before. *)
Fixpoint dedup (l : list Z) : list Z :=
  match l with
  | x :: l' =>
      match dedup l' with
      | y :: r => if x =? y then y :: r else x :: y :: r
      | [] => [x]
      end
  | [] => []
  end.

Definition unwritten_epochs (l : InputLedger) : Z := zlen (dedup (omap item_epoch (il_queue l))).

Definition fence_current (l : InputLedger) : InputLedger :=
  set_holder None (set_epochs (alter set_fenced (il_current l) (il_epochs l)) l).

Definition ledger_fresh (who : Holder) (request_id : Z) (l : InputLedger) : InputLedger * bool :=
  let last := default 0 (il_last_request l !! who) in
  let set v :=
    mk_InputLedger (il_current l) (il_holder l) (il_epochs l) (il_retained l) (il_retained_start l)
      (il_queue l) (il_input_bytes l) (il_vt_bytes l) (il_vt_replies_dropped l) (il_revokees l)
      (il_dead l) (<[who := v]> (il_last_request l)) in
  if request_id <=? last then (set last, false) else (set request_id, true).

Definition prune (l : InputLedger) : InputLedger :=
  let unwritten := omap item_epoch (il_queue l) in
  let recent_floor := sat_sub (il_current l) (RECENT_EPOCHS - 1) in
  set_epochs (bt_retain (λ e _, (e =? il_current l) || (recent_floor <=? e)
                                || bool_decide (e ∈ unwritten)) (il_epochs l)) l.

Definition acquire (who : Holder) (l : InputLedger) : InputLedger * Result Granted GrantError :=
  if MAX_UNWRITTEN_EPOCHS <=? unwritten_epochs l then (l, Err TooManyUnwrittenEpochs) else
  let prev_epoch := il_current l in
  let prev_holder := il_holder l in
  let prior := (λ e, (prev_epoch, el_accepted e, el_committed e)) <$> il_epochs l !! prev_epoch in
  let l1 := fence_current l in
  let cur := add64 (il_current l1) 1 in
  let kept := filter (λ h, h ≠ who) (il_revokees l1) in
  let '(revokees, revoked) :=
    match prev_holder with
    | Some h =>
        if bool_decide (h ≠ who) then (kept ++ [h], Some (mk_Revoke h prev_epoch cur)) else (kept, None)
    | None => (kept, None)
    end in
  let l2 :=
    mk_InputLedger cur (Some who)
      (<[cur := mk_EpochLedger who 0 0 0 false]> (il_epochs l1)) [] 0 (il_queue l1)
      (il_input_bytes l1) (il_vt_bytes l1) (il_vt_replies_dropped l1) revokees (il_dead l1)
      (il_last_request l1) in
  (prune l2, Ok (mk_Granted cur prior revoked)).

Definition unfenced (e : Z) (l : InputLedger) : bool :=
  match il_epochs l !! e with Some el => negb (el_fenced el) | None => false end.

Definition release (who : Holder) (epoch : Z) (l : InputLedger) : InputLedger * (bool * list Holder) :=
  let epoch := if epoch =? 0 then il_current l else epoch in
  if (epoch =? il_current l) && bool_decide (il_holder l = Some who) && unfenced epoch l
  then (set_revokees [] (fence_current l), (true, il_revokees l))
  else (l, (false, [])).

Definition active_epoch (l : InputLedger) : Z :=
  match il_holder l with Some _ => il_current l | None => 0 end.
Definition other_holds (who : Holder) (l : InputLedger) : bool :=
  match il_holder l with Some h => bool_decide (h ≠ who) | None => false end.

Definition reclaim (who : Holder) (epoch : Z) (l : InputLedger)
    : InputLedger * Result (Result (Z * Z) (Z * Z * Z * Z)) unit :=
  match il_epochs l !! epoch with
  | None => (l, Err tt)
  | Some el =>
      if (epoch =? il_current l) && bool_decide (il_holder l = Some who) && negb (el_fenced el)
      then (l, Ok (Ok (el_accepted el, el_committed el)))
      else
        (if other_holds who l && bool_decide (who ∉ il_revokees l)
         then set_revokees (il_revokees l ++ [who]) l else l,
         Ok (Err (active_epoch l, el_accepted el, el_committed el, el_pending_dropped el)))
  end.

Definition epoch_state (epoch : Z) (l : InputLedger) : option (Z * Z * Z * bool) :=
  (λ el, (el_accepted el, el_committed el, el_pending_dropped el, el_fenced el)) <$> il_epochs l !! epoch.

(** [while retained.len() > RETAINED_BYTES { pop_front; retained_start += 1 }] *)
Fixpoint trim_retained (r : list byte) (start : Z) : list byte * Z :=
  match r with
  | [] => ([], start)
  | _ :: r' => if RETAINED_BYTES <? zlen r then trim_retained r' (add64 start 1) else (r, start)
  end.

(** [seq.range(off..off + n)], [None] when out of bounds. *)
Definition range (off n : Z) (s : list byte) : option (list byte) :=
  if (0 <=? off) && (0 <=? n) && (off + n <=? zlen s)
  then Some (take (Z.to_nat n) (drop (Z.to_nat off) s)) else None.

Definition WriteResult : Type := Result Ack (WriteError * option (Revoke * list Holder)).

Section write.
(** The [crc32c] crate. *)
Context (crc32c : list byte → Z).

(** The comparison of the overlap with the retained bytes: [None] is a panic,
    [Some None] no error. *)
Definition check_overlap (epoch start overlap_end accepted committed : Z) (bytes : list byte)
    (l : InputLedger) : option (option WriteError) :=
  if start <? overlap_end then
    if start <? il_retained_start l
    then Some (Some (WUnverifiable epoch accepted committed (il_retained_start l)))
    else
      let off := sub64 start (il_retained_start l) in
      let n := sub64 overlap_end start in
      r ← range off n (il_retained l);
      b ← range 0 n bytes;
      Some (if bool_decide (r = b) then None else Some (WDiverged epoch accepted committed))
  else Some None.

(** Acceptance of the bytes beyond [accepted]. *)
Definition accept_suffix (epoch start end_ accepted : Z) (bytes : list byte) (l : InputLedger)
    : option (InputLedger * option WriteError) :=
  if accepted <? end_ then
    let k := sub64 accepted start in
    suffix ← range k (zlen bytes - k) bytes;
    if INPUT_QUEUE_LIMIT <? add64 (il_input_bytes l) (zlen suffix)
    then Some (l, Some (WBackpressure accepted))
    else
      let l1 := set_queue (il_queue l ++ [IInput epoch suffix 0])
                  (add64 (il_input_bytes l) (zlen suffix)) (il_vt_bytes l) l in
      let '(retained, start') := trim_retained (il_retained l1 ++ suffix) (il_retained_start l1) in
      let l2 := set_retained retained start' l1 in
      Some (set_epochs (alter (set_accepted end_) epoch (il_epochs l2)) l2, None)
  else Some (l, None).

Definition write (who : Holder) (epoch start : Z) (bytes : list byte) (crc : Z) (l : InputLedger)
    : option (InputLedger * WriteResult) :=
  let current_ok :=
    (epoch =? il_current l) && bool_decide (il_holder l = Some who) && unfenced epoch l in
  if negb current_ok then
    let fa := match il_epochs l !! epoch with Some el => el_accepted el | None => 0 end in
    Some (l, Err (WStaleLease (active_epoch l) fa, None))
  else if MAX_CHUNK <? zlen bytes then Some (l, Err (WTooLarge, None))
  else if negb (crc32c bytes =? crc) then Some (l, Err (WCorruptFrame, None))
  else match checked_add64 start (zlen bytes) with
  | None => Some (l, Err (WOffsetOverflow, None))
  | Some end_ =>
      el ← il_epochs l !! epoch;
      let accepted := el_accepted el in
      let committed := el_committed el in
      if accepted <? start then Some (l, Err (WGap accepted, None))
      else
        err ← check_overlap epoch start (Z.min end_ accepted) accepted committed bytes l;
        match err with
        | Some e =>
            Some (set_revokees [] (fence_current l),
                  Err (e, Some (mk_Revoke who epoch 0, il_revokees l)))
        | None =>
            '(l1, bp) ← accept_suffix epoch start end_ accepted bytes l;
            match bp with
            | Some e => Some (l1, Err (e, None))
            | None =>
                el1 ← il_epochs l1 !! epoch;
                Some (l1, Ok (mk_Ack who epoch (el_accepted el1) (el_committed el1)))
            end
        end
  end.
End write.

Definition push_vt_reply (bytes : list byte) (l : InputLedger) : InputLedger * bool :=
  if il_dead l || (VT_REPLY_LIMIT <? add64 (il_vt_bytes l) (zlen bytes))
  then (mk_InputLedger (il_current l) (il_holder l) (il_epochs l) (il_retained l)
          (il_retained_start l) (il_queue l) (il_input_bytes l) (il_vt_bytes l)
          (add64 (il_vt_replies_dropped l) 1) (il_revokees l) (il_dead l) (il_last_request l), false)
  else (set_queue (il_queue l ++ [IVt bytes 0]) (il_input_bytes l)
          (add64 (il_vt_bytes l) (zlen bytes)) l, true).

(** [&bytes[written..]] *)
Definition item_rest (i : Item) : list byte :=
  match i with IInput _ bytes written | IVt bytes written => drop (Z.to_nat written) bytes end.
Definition head_bytes (l : InputLedger) : option (list byte) := item_rest <$> head (il_queue l).

Definition on_written (n : Z) (l : InputLedger) : option (InputLedger * option Ack) :=
  match il_queue l with
  | [] => Some (l, None)
  | IInput epoch bytes written :: q =>
      let n := Z.min n (sub64 (zlen bytes) written) in
      let written' := add64 written n in
      el ← il_epochs l !! epoch;
      let el' := set_committed (add64 (el_committed el) n) el in
      let done := written' =? zlen bytes in
      let l1 := set_epochs (<[epoch := el']> (il_epochs l))
                  (set_queue (if done then q else IInput epoch bytes written' :: q)
                     (sub64 (il_input_bytes l) n) (il_vt_bytes l) l) in
      Some (if done then prune l1 else l1,
            Some (mk_Ack (el_holder el') epoch (el_accepted el') (el_committed el')))
  | IVt bytes written :: q =>
      let n := Z.min n (sub64 (zlen bytes) written) in
      let written' := add64 written n in
      let done := written' =? zlen bytes in
      let l1 := set_queue (if done then q else IVt bytes written' :: q)
                  (il_input_bytes l) (sub64 (il_vt_bytes l) n) l in
      Some (if done then prune l1 else l1, None)
  end.

Definition drop_item (m : gmap Z EpochLedger) (i : Item) : gmap Z EpochLedger :=
  match i with
  | IInput epoch bytes written => alter (add_dropped (sub64 (zlen bytes) written)) epoch m
  | IVt _ _ => m
  end.

Definition on_dead (l : InputLedger) : InputLedger :=
  mk_InputLedger (il_current l) (il_holder l) (foldl drop_item (il_epochs l) (il_queue l))
    (il_retained l) (il_retained_start l) [] 0 0 (il_vt_replies_dropped l) (il_revokees l) true
    (il_last_request l).

Definition pending_dropped_by_epoch (l : InputLedger) : list (Z * Z) :=
  (λ p, (p.1, el_pending_dropped p.2)) <$>
    filter (λ p, 0 < el_pending_dropped p.2) (bt_iter (il_epochs l)).
