(* ===== verification/InputSpec.v ===== *)
(** * Input delivery: specification and refinement

    What the input ledger of [Input] promises: the bytes of an epoch form one
    stream; accepted bytes leave the write queue in acceptance order, each
    exactly once, either written to the PTY or reported as dropped.  The
    specification state [Log] records acceptance and fate of every byte; the
    invariant [ledger_ok] ties it to the concrete ledger, and every operation
    preserves it. *)

From S2P Require Import Prelude Input.
From Stdlib Require Import ZArith Lia Strings.Byte.
From stdpp Require Import base gmap list option sorting.

#[local] Open Scope Z_scope.

(** ** Specification state *)

Inductive Fate : Type := Written | Dropped.
#[global] Instance Fate_eq_dec : EqDecision Fate.
Proof. solve_decision. Defined.

(** [lg_accepted]: every accepted byte with its epoch, in acceptance order;
    [lg_settled]: the ones that left the queue, with their fate, in order. *)
Record Log := mk_Log {
  lg_accepted : list (Z * byte);
  lg_settled : list (Z * byte * Fate);
}.

(** The byte stream of an epoch. *)
Definition stream (e : Z) (log : list (Z * byte)) : list byte :=
  snd <$> filter (λ p, p.1 = e) log.
Definition fate_count (f : Fate) (e : Z) (s : list (Z * byte * Fate)) : Z :=
  zlen (filter (λ p, p.1.1 = e ∧ p.2 = f) s).

(** The input bytes still waiting in the queue, and the waiting VT replies. *)
Definition item_pending (i : Item) : list (Z * byte) :=
  match i with
  | IInput e bytes written => pair e <$> drop (Z.to_nat written) bytes
  | IVt _ _ => []
  end.
Definition pending (q : list Item) : list (Z * byte) := q ≫= item_pending.
Definition item_vt (i : Item) : list byte :=
  match i with IInput _ _ _ => [] | IVt bytes written => drop (Z.to_nat written) bytes end.
Definition vt_pending (q : list Item) : list byte := q ≫= item_vt.

(** ** Calls and their effect on the specification state *)

Inductive InputCall : Type :=
| CFresh (who : list byte) (request_id : Z)
| CAcquire (who : list byte)
| CRelease (who : list byte) (epoch : Z)
| CReclaim (who : list byte) (epoch : Z)
| CWrite (who : list byte) (epoch start : Z) (bytes : list byte) (crc : Z)
| CVtReply (bytes : list byte)
| CWritten (n : Z)
| CDead.

Section calls.
Context (crc32c : list byte → Z).

Definition input_step (c : InputCall) (l : InputLedger) : option InputLedger :=
  match c with
  | CFresh who id => Some (ledger_fresh who id l).1
  | CAcquire who => Some (acquire who l).1
  | CRelease who e => Some (release who e l).1
  | CReclaim who e => Some (reclaim who e l).1
  | CWrite who e start bytes crc => fst <$> write crc32c who e start bytes crc l
  | CVtReply bytes => Some (push_vt_reply bytes l).1
  | CWritten n => fst <$> on_written n l
  | CDead => Some (on_dead l)
  end.

(** The bytes a call accepts: the part of an acknowledged write beyond what
    the epoch had accepted. *)
Definition newly_accepted (c : InputCall) (l : InputLedger) : list (Z * byte) :=
  match c with
  | CWrite who e start bytes crc =>
      match write crc32c who e start bytes crc l, il_epochs l !! e with
      | Some (_, Ok _), Some el => pair e <$> drop (Z.to_nat (el_accepted el - start)) bytes
      | _, _ => []
      end
  | _ => []
  end.

(** The bytes a call settles: the prefix of the queue head the PTY took, or
    the whole queue when the write end is dead. *)
Definition newly_settled (c : InputCall) (l : InputLedger) : list (Z * byte * Fate) :=
  match c with
  | CWritten n =>
      match il_queue l with
      | i :: _ => (λ p, (p, Written)) <$> take (Z.to_nat n) (item_pending i)
      | [] => []
      end
  | CDead => (λ p, (p, Dropped)) <$> pending (il_queue l)
  | _ => []
  end.

Definition log_step (c : InputCall) (l : InputLedger) (g : Log) : Log :=
  mk_Log (lg_accepted g ++ newly_accepted c l) (lg_settled g ++ newly_settled c l).

Fixpoint input_run (cs : list InputCall) (l : InputLedger) (g : Log) : option (InputLedger * Log) :=
  match cs with
  | [] => Some (l, g)
  | c :: cs' => l' ← input_step c l; input_run cs' l' (log_step c l g)
  end.
End calls.

(** ** Invariant *)

Definition item_ok (l : InputLedger) (i : Item) : Prop :=
  match i with
  | IInput e bytes written => is_Some (il_epochs l !! e) ∧ 0 <= written < zlen bytes ∧ zlen bytes <= MAX_CHUNK
  | IVt bytes written => 0 <= written <= zlen bytes ∧ zlen bytes <= VT_REPLY_LIMIT
  end.

Definition entry_ok (g : Log) (e : Z) (el : EpochLedger) : Prop :=
  el_accepted el = zlen (stream e (lg_accepted g)) ∧
  el_committed el = fate_count Written e (lg_settled g) ∧
  el_pending_dropped el = fate_count Dropped e (lg_settled g) ∧
  el_accepted el <= u64_max.

Definition retained_ok (l : InputLedger) (g : Log) : Prop :=
  0 <= il_retained_start l <= zlen (stream (il_current l) (lg_accepted g)) ∧
  il_retained l = drop (Z.to_nat (il_retained_start l)) (stream (il_current l) (lg_accepted g)) ∧
  zlen (il_retained l) <= RETAINED_BYTES.

Record ledger_ok (n : Z) (l : InputLedger) (g : Log) : Prop := {
  lo_cur : 0 <= il_current l <= n;
  lo_dom : ∀ e, is_Some (il_epochs l !! e) → 0 < e <= il_current l;
  lo_curin : 0 < il_current l → is_Some (il_epochs l !! il_current l);
  lo_holder : ∀ h, il_holder l = Some h →
    ∃ el, il_epochs l !! il_current l = Some el ∧ el_holder el = h ∧ el_fenced el = false;
  lo_unfenced : ∀ e el, il_epochs l !! e = Some el → el_fenced el = false →
    e = il_current l ∧ il_holder l = Some (el_holder el);
  lo_items : ∀ i, i ∈ il_queue l → item_ok l i;
  lo_sorted : StronglySorted Z.le (omap item_epoch (il_queue l));
  lo_input : il_input_bytes l = zlen (pending (il_queue l)) ∧ il_input_bytes l <= INPUT_QUEUE_LIMIT;
  lo_vt : il_vt_bytes l = zlen (vt_pending (il_queue l)) ∧ il_vt_bytes l <= VT_REPLY_LIMIT;
  lo_revokees : NoDup (il_revokees l) ∧ ∀ h, il_holder l = Some h → h ∉ il_revokees l;
  lo_log : lg_accepted g = (lg_settled g).*1 ++ pending (il_queue l);
  lo_entries : ∀ e el, il_epochs l !! e = Some el → entry_ok g e el;
  lo_retained : retained_ok l g;
  lo_past : ∀ e, il_current l < e → stream e (lg_accepted g) = [];
}.

(** ** Lemmas: streams and counts *)

Lemma stream_app e a b : stream e (a ++ b) = stream e a ++ stream e b.
Proof. unfold stream. by rewrite filter_app, fmap_app. Qed.

Lemma stream_pair e l : stream e (pair e <$> l) = l.
Proof. unfold stream. induction l as [|x l IH]; [done|]. cbn. rewrite decide_True by done. cbn. by f_equal. Qed.

Lemma stream_pair_ne e e' (l : list byte) : e ≠ e' → stream e (pair e' <$> l) = [].
Proof.
  intros Hne. unfold stream. induction l as [|x l IH]; [done|]. cbn.
  rewrite decide_False by (cbn; congruence). done.
Qed.

Lemma fate_count_app f e a b : fate_count f e (a ++ b) = fate_count f e a + fate_count f e b.
Proof. unfold fate_count. by rewrite filter_app, zlen_app. Qed.

Lemma fate_count_nonneg f e s : 0 <= fate_count f e s.
Proof. apply zlen_nonneg. Qed.

Lemma stream_cons e p l : stream e (p :: l) = (if decide (p.1 = e) then [p.2] else []) ++ stream e l.
Proof. unfold stream. rewrite filter_cons. by case_decide. Qed.

Lemma fate_count_cons f e p s :
  fate_count f e (p :: s) = (if decide (p.1.1 = e ∧ p.2 = f) then 1 else 0) + fate_count f e s.
Proof. unfold fate_count. rewrite filter_cons. case_decide; [by rewrite zlen_cons | done]. Qed.

Lemma fate_count_map f f' e l :
  fate_count f e ((λ p, (p, f')) <$> l) = if decide (f = f') then zlen (stream e l) else 0.
Proof.
  induction l as [|[e' x] l IH]; [by case_decide|].
  rewrite fmap_cons, fate_count_cons, stream_cons, zlen_app, IH. cbn.
  repeat case_decide; try (exfalso; naive_solver); autorewrite with zl; lia.
Qed.

Lemma fate_count_split e s :
  zlen (stream e s.*1) = fate_count Written e s + fate_count Dropped e s.
Proof.
  induction s as [|[[e' x] f] s IH]; [done|].
  rewrite fmap_cons, stream_cons, zlen_app, !fate_count_cons, IH. cbn.
  destruct f; repeat case_decide; try (exfalso; naive_solver); autorewrite with zl; lia.
Qed.

Lemma pending_app q q' : pending (q ++ q') = pending q ++ pending q'.
Proof. apply bind_app. Qed.

Lemma vt_pending_app q q' : vt_pending (q ++ q') = vt_pending q ++ vt_pending q'.
Proof. apply bind_app. Qed.

Lemma pending_cons i q : pending (i :: q) = item_pending i ++ pending q.
Proof. done. Qed.

Lemma vt_pending_cons i q : vt_pending (i :: q) = item_vt i ++ vt_pending q.
Proof. done. Qed.

Lemma zlen_pair (e : Z) (l : list byte) : zlen (pair e <$> l) = zlen l.
Proof. unfold zlen. by rewrite length_fmap. Qed.

(** Every accepted byte of an epoch is written, dropped or pending. *)
Lemma accepted_split n l g e :
  ledger_ok n l g →
  zlen (stream e (lg_accepted g)) =
    fate_count Written e (lg_settled g) + fate_count Dropped e (lg_settled g)
    + zlen (stream e (pending (il_queue l))).
Proof.
  intros Hok. by rewrite (lo_log _ _ _ Hok), stream_app, zlen_app, fate_count_split.
Qed.

Lemma fate_count_le n l g f e :
  ledger_ok n l g → fate_count f e (lg_settled g) <= zlen (stream e (lg_accepted g)).
Proof.
  intros Hok. rewrite (accepted_split _ _ _ e Hok).
  pose proof (fate_count_nonneg Written e (lg_settled g)).
  pose proof (fate_count_nonneg Dropped e (lg_settled g)).
  pose proof (zlen_nonneg (stream e (pending (il_queue l)))). destruct f; lia.
Qed.

(** ** Lemmas: the lease operations *)

Lemma queued_epoch l i e : i ∈ il_queue l → item_epoch i = Some e → e ∈ omap item_epoch (il_queue l).
Proof. rewrite list_elem_of_omap. eauto. Qed.

Lemma prune_Some l e el :
  il_epochs (prune l) !! e = Some el ↔
  il_epochs l !! e = Some el ∧
  (e = il_current l ∨ sat_sub (il_current l) (RECENT_EPOCHS - 1) <= e ∨ e ∈ omap item_epoch (il_queue l)).
Proof.
  unfold prune, set_epochs; cbn [il_epochs il_current il_queue].
  rewrite bt_retain_Some, !orb_true_iff, bool_decide_eq_true, Z.eqb_eq, Z.leb_le. tauto.
Qed.

Lemma item_ok_mono l l' i :
  (∀ e, item_epoch i = Some e → is_Some (il_epochs l !! e) → is_Some (il_epochs l' !! e)) →
  item_ok l i → item_ok l' i.
Proof. destruct i; cbn; [|done]. intros H (? & ? & ?). eauto. Qed.

Lemma prune_ok n l g : ledger_ok n l g → ledger_ok n (prune l) g.
Proof.
  intros Hok. destruct Hok. split; try done.
  - intros e [el He]. apply prune_Some in He as [He _]. apply lo_dom0. eauto.
  - intros Hc. destruct (lo_curin0 Hc) as [el Hel]. exists el. apply prune_Some. eauto.
  - intros h Hh. destruct (lo_holder0 h Hh) as (el & Hel & ?). exists el.
    split; [|done]. apply prune_Some. eauto.
  - intros e el He. apply prune_Some in He as [He _]. eauto.
  - intros i Hi. apply (item_ok_mono l); [|by apply lo_items0].
    intros e Hie [el He]. exists el. apply prune_Some. eauto using queued_epoch.
  - intros e el He. apply prune_Some in He as [He _]. eauto.
Qed.

Lemma fence_Some l e el :
  il_epochs (fence_current l) !! e = Some el ↔
  ∃ el0, il_epochs l !! e = Some el0 ∧ el = if decide (e = il_current l) then set_fenced el0 else el0.
Proof.
  unfold fence_current, set_holder, set_epochs; cbn [il_epochs il_current].
  destruct (decide (e = il_current l)) as [->|Hne].
  - rewrite lookup_alter_eq. destruct (il_epochs l !! il_current l); cbn; naive_solver.
  - rewrite lookup_alter_ne by done. naive_solver.
Qed.

Lemma fence_is_Some l e : is_Some (il_epochs (fence_current l) !! e) ↔ is_Some (il_epochs l !! e).
Proof.
  split; intros [el He].
  - apply fence_Some in He as (? & ? & _). eauto.
  - eexists. apply fence_Some. eauto.
Qed.

Lemma fence_ok n l g r :
  ledger_ok n l g → (NoDup r) → ledger_ok n (set_revokees r (fence_current l)) g.
Proof.
  intros [] Hr. split; try done.
  - intros e He. apply (fence_is_Some l) in He. exact (lo_dom0 e He).
  - intros Hc. apply fence_is_Some. auto.
  - intros e el He Hf. apply fence_Some in He as (el0 & He & ->). exfalso.
    case_decide; [done|]. by destruct (lo_unfenced0 e el0 He Hf).
  - intros i Hi. apply (item_ok_mono l); [|by apply lo_items0].
    intros. by apply fence_is_Some.
  - intros e el He. apply fence_Some in He as (el0 & He & ->).
    specialize (lo_entries0 e el0 He). by case_decide.
Qed.

Lemma revoke_list_ok (who : list byte) r h :
  NoDup r → (∀ h', h = Some h' → h' ∉ r) →
  NoDup (filter (λ x, x ≠ who) r ++
         match h with Some h' => if bool_decide (h' ≠ who) then [h'] else [] | None => [] end) ∧
  who ∉ filter (λ x, x ≠ who) r ++
         match h with Some h' => if bool_decide (h' ≠ who) then [h'] else [] | None => [] end.
Proof.
  intros Hnd Hh. split.
  - apply NoDup_app. split_and!; [by apply NoDup_filter| |repeat case_match; auto using NoDup_nil_2, NoDup_singleton].
    intros x Hx. apply list_elem_of_filter in Hx as [_ Hx].
    repeat case_match; set_solver.
  - rewrite elem_of_app, list_elem_of_filter. intros [[? _]|Hin]; [done|].
    repeat case_match; bool_hyps; set_solver.
Qed.

(** The state after a grant, before the final [prune]. *)
Definition granted (who : list byte) (l : InputLedger) : InputLedger :=
  let l1 := fence_current l in
  mk_InputLedger (il_current l + 1) (Some who)
    (<[il_current l + 1 := mk_EpochLedger who 0 0 0 false]> (il_epochs l1)) [] 0 (il_queue l)
    (il_input_bytes l) (il_vt_bytes l) (il_vt_replies_dropped l)
    (filter (λ h, h ≠ who) (il_revokees l) ++
      match il_holder l with Some h => if bool_decide (h ≠ who) then [h] else [] | None => [] end)
    (il_dead l) (il_last_request l).

Lemma acquire_state who l :
  0 <= il_current l < u64_max →
  (acquire who l).1 =
    if MAX_UNWRITTEN_EPOCHS <=? unwritten_epochs l then l else prune (granted who l).
Proof.
  intros Hc. unfold acquire. case_match; [done|]. cbn [il_current fence_current set_holder set_epochs].
  rewrite add64_id by lia. unfold granted.
  destruct (il_holder l) as [h|]; [case_bool_decide|]; cbn; by rewrite ?app_nil_r.
Qed.

Lemma granted_Some who l e el :
  il_epochs (granted who l) !! e = Some el ↔
  e = il_current l + 1 ∧ el = mk_EpochLedger who 0 0 0 false ∨
  e ≠ il_current l + 1 ∧ il_epochs (fence_current l) !! e = Some el.
Proof.
  unfold granted; cbn [il_epochs]. destruct (decide (e = il_current l + 1)) as [->|Hne].
  - rewrite lookup_insert_eq. naive_solver.
  - rewrite lookup_insert_ne by done. naive_solver.
Qed.

Lemma granted_ok n who l g :
  ledger_ok n l g → ledger_ok (n + 1) (granted who l) g.
Proof.
  intros Hok. pose proof (λ f e, fate_count_le n l g f e Hok) as Hfc. destruct Hok.
  assert (stream (il_current l + 1) (lg_accepted g) = []) as Hnew by (apply lo_past0; lia).
  destruct (revoke_list_ok who (il_revokees l) (il_holder l)) as [Hr1 Hr2]; [apply lo_revokees0..|].
  split; try done; cbn [granted il_current il_holder il_queue].
  - lia.
  - intros e [el He]. apply granted_Some in He as [[-> _]|[_ He]]; [lia|].
    apply fence_Some in He as (el0 & He & _). assert (0 < e <= il_current l) by eauto. lia.
  - intros _. eexists. apply granted_Some. eauto.
  - intros h [= <-]. eexists. rewrite granted_Some. eauto.
  - intros e el He Hf. apply granted_Some in He as [[-> ->]|[_ He]]; [done|].
    apply fence_Some in He as (el0 & He & ->). exfalso.
    case_decide; [done|]. by destruct (lo_unfenced0 e el0 He Hf).
  - intros i Hi. apply (item_ok_mono l); [|by apply lo_items0].
    intros e Hie He. apply (fence_is_Some l) in He as [el He].
    destruct (decide (e = il_current l + 1)) as [->|Hne]; eexists; apply granted_Some; eauto.
  - split; [done|]. by intros h [= <-].
  - intros e el He. apply granted_Some in He as [[-> ->]|[_ He]].
    + pose proof (Hfc Written (il_current l + 1)). pose proof (Hfc Dropped (il_current l + 1)).
      pose proof (fate_count_nonneg Written (il_current l + 1) (lg_settled g)).
      pose proof (fate_count_nonneg Dropped (il_current l + 1) (lg_settled g)).
      unfold entry_ok; cbn. rewrite Hnew in *. autorewrite with zl in *.
      unfold u64_max. lia.
    + apply fence_Some in He as (el0 & He & ->). specialize (lo_entries0 e el0 He). by case_decide.
  - unfold retained_ok; cbn. rewrite Hnew. autorewrite with zl. unfold RETAINED_BYTES. repeat split; lia || done.
  - intros e He. apply lo_past0. lia.
Qed.

Lemma ledger_ok_weaken n m l g : n <= m → ledger_ok n l g → ledger_ok m l g.
Proof. intros Hle []. split; try done. lia. Qed.

Lemma acquire_ok n who l g :
  n < u64_max → ledger_ok n l g → ledger_ok (n + 1) (acquire who l).1 g.
Proof.
  intros Hn Hok. rewrite acquire_state by (pose proof (lo_cur _ _ _ Hok); lia).
  case_match; [apply (ledger_ok_weaken n); [lia|done]|]. by apply prune_ok, granted_ok.
Qed.

Lemma release_ok n who e l g : ledger_ok n l g → ledger_ok n (release who e l).1 g.
Proof. intros Hok. unfold release. case_match; [|done]. apply fence_ok; [done|constructor]. Qed.

Lemma reclaim_ok n who e l g : ledger_ok n l g → ledger_ok n (reclaim who e l).1 g.
Proof.
  intros Hok. unfold reclaim. case_match; [|done]. case_match; [done|]. cbn [fst].
  destruct (other_holds who l) eqn:Ho; [|done]; rewrite andb_true_l. destruct (bool_decide (who ∉ il_revokees l)) eqn:Hin; [|done]; bool_hyps.
  unfold other_holds in Ho. destruct Hok, lo_revokees0 as [Hnd Hh]. split; try done. cbn. split.
  - apply NoDup_app. split_and!; [done|set_solver|apply NoDup_singleton].
  - intros h Eh. rewrite Eh in Ho. bool_hyps. specialize (Hh h Eh). set_solver.
Qed.

Lemma fresh_ok n who r l g : ledger_ok n l g → ledger_ok n (ledger_fresh who r l).1 g.
Proof. intros []. unfold ledger_fresh. case_match; by split. Qed.

(** ** Lemmas: writes *)

Lemma trim_retained_spec r s :
  0 <= s → s + zlen r <= u64_max →
  trim_retained r s = (drop (Z.to_nat (zlen r - RETAINED_BYTES)) r, s + Z.max 0 (zlen r - RETAINED_BYTES)).
Proof.
  revert s. induction r as [|x r IH]; intros s Hs Hu.
  { cbn. by rewrite Z.add_0_r. }
  cbn [trim_retained]. pose proof (zlen_nonneg r). autorewrite with zl in *.
  destruct (RETAINED_BYTES <? _) eqn:E; unfold RETAINED_BYTES in *.
  - nowrap. rewrite IH by lia.
    replace (Z.to_nat (1 + zlen r - _)) with (S (Z.to_nat (zlen r - 4 * 1024 * 1024))) by lia.
    cbn [drop]. f_equal. lia.
  - replace (Z.to_nat (1 + zlen r - _)) with 0%nat by lia. cbn [drop]. f_equal. lia.
Qed.

Lemma range_Some off n s : 0 <= off → 0 <= n → off + n <= zlen s →
  range off n s = Some (take (Z.to_nat n) (drop (Z.to_nat off) s)).
Proof. intros. unfold range. case_match; [done|lia]. Qed.

Lemma range_all_from k s : 0 <= k <= zlen s → range k (zlen s - k) s = Some (drop (Z.to_nat k) s).
Proof.
  intros. rewrite range_Some by lia. f_equal. apply take_ge. rewrite length_drop. unfold zlen. lia.
Qed.

(** The state after [suffix] was accepted for the current epoch. *)
Definition enqueued (e : Z) (suffix : list byte) (accepted : Z) (l : InputLedger) : InputLedger :=
  let r := il_retained l ++ suffix in
  mk_InputLedger (il_current l) (il_holder l) (alter (set_accepted accepted) e (il_epochs l))
    (drop (Z.to_nat (zlen r - RETAINED_BYTES)) r)
    (il_retained_start l + Z.max 0 (zlen r - RETAINED_BYTES))
    (il_queue l ++ [IInput e suffix 0]) (il_input_bytes l + zlen suffix) (il_vt_bytes l)
    (il_vt_replies_dropped l) (il_revokees l) (il_dead l) (il_last_request l).

Definition log_accept (e : Z) (suffix : list byte) (g : Log) : Log :=
  mk_Log (lg_accepted g ++ (pair e <$> suffix)) (lg_settled g).

Lemma enqueued_Some e suffix a l e' el :
  il_epochs (enqueued e suffix a l) !! e' = Some el ↔
  ∃ el0, il_epochs l !! e' = Some el0 ∧ el = if decide (e' = e) then set_accepted a el0 else el0.
Proof.
  unfold enqueued; cbn [il_epochs]. destruct (decide (e' = e)) as [->|Hne].
  - rewrite lookup_alter_eq. destruct (il_epochs l !! e); cbn; naive_solver.
  - rewrite lookup_alter_ne by done. naive_solver.
Qed.

Lemma retained_len n l g el :
  ledger_ok n l g → il_epochs l !! il_current l = Some el →
  zlen (il_retained l) = el_accepted el - il_retained_start l.
Proof.
  intros Hok Hel. destruct (lo_retained _ _ _ Hok) as (? & -> & _).
  destruct (lo_entries _ _ _ Hok _ _ Hel) as (-> & _). apply zlen_drop. lia.
Qed.

Lemma sorted_snoc (q : list Z) x :
  StronglySorted Z.le q → (∀ y, y ∈ q → y <= x) → StronglySorted Z.le (q ++ [x]).
Proof.
  induction 1 as [|y q Hs IH Hy]; intros Hx; cbn; constructor.
  - constructor.
  - constructor.
  - apply IH. set_solver.
  - apply Forall_app. split; [done|]. constructor; [apply Hx; set_solver|constructor].
Qed.

Lemma queue_epochs_le n l g e :
  ledger_ok n l g → e ∈ omap item_epoch (il_queue l) → e <= il_current l.
Proof.
  intros Hok. rewrite list_elem_of_omap. intros (i & Hi & Hie).
  pose proof (lo_items _ _ _ Hok i Hi) as Hio. destruct i; simplify_eq/=.
  destruct Hio as (Hs & _). apply (lo_dom _ _ _ Hok) in Hs. lia.
Qed.

Lemma drop_app_ge_le {A} (k m : nat) (s t : list A) :
  (k <= length s)%nat → drop m (drop k s ++ t) = drop (k + m) (s ++ t).
Proof. intros. rewrite <- drop_drop. by rewrite (drop_app_le s t k). Qed.

Lemma enqueued_retained n l g el suffix :
  ledger_ok n l g → il_epochs l !! il_current l = Some el →
  retained_ok (enqueued (il_current l) suffix (el_accepted el + zlen suffix) l)
    (log_accept (il_current l) suffix g).
Proof.
  intros Hok Hel. pose proof (retained_len _ _ _ _ Hok Hel) as Hlen.
  destruct (lo_retained _ _ _ Hok) as (Hs & Hr & Hb).
  unfold retained_ok, log_accept, enqueued;
    cbn [il_current il_retained il_retained_start lg_accepted].
  rewrite stream_app, stream_pair. autorewrite with zl.
  destruct (lo_entries _ _ _ Hok _ _ Hel) as (Ha & _). rewrite <- Ha in *.
  pose proof (zlen_nonneg suffix). pose proof (zlen_nonneg (il_retained l)). unfold RETAINED_BYTES in *.
  split; [lia|]. split.
  - rewrite Hr at 2. rewrite drop_app_ge_le by (unfold zlen in *; lia). f_equal. lia.
  - unfold zlen in *. rewrite length_drop, length_app. lia.
Qed.

Lemma enqueued_ok n l g el suffix :
  ledger_ok n l g → il_epochs l !! il_current l = Some el →
  0 < zlen suffix <= MAX_CHUNK →
  il_input_bytes l + zlen suffix <= INPUT_QUEUE_LIMIT →
  el_accepted el + zlen suffix <= u64_max →
  ledger_ok n (enqueued (il_current l) suffix (el_accepted el + zlen suffix) l)
    (log_accept (il_current l) suffix g).
Proof.
  intros Hok Hel Hs Hi Hu.
  pose proof (enqueued_retained _ _ _ _ suffix Hok Hel) as Hret.
  pose proof (λ e, queue_epochs_le n l g e Hok) as Hq. destruct Hok.
  assert (∀ e, is_Some (il_epochs (enqueued (il_current l) suffix (el_accepted el + zlen suffix) l) !! e)
               ↔ is_Some (il_epochs l !! e)) as Hdom.
  { intros e. split; intros [x Hx]; [apply enqueued_Some in Hx as (? & ? & _); eauto|].
    eexists. apply enqueued_Some. eauto. }
  split; try done; cbn [enqueued il_current il_holder il_queue il_input_bytes il_vt_bytes
    log_accept lg_accepted lg_settled].
  - intros e He. apply Hdom in He. eauto.
  - intros Hc. apply Hdom. eauto.
  - intros h Hh. destruct (lo_holder0 h Hh) as (el0 & He & ? & ?).
    exists (set_accepted (el_accepted el + zlen suffix) el0). split; [|done].
    apply enqueued_Some. exists el0. by rewrite decide_True.
  - intros e x Hx Hf. apply enqueued_Some in Hx as (el0 & He & ->).
    case_decide; cbn in *; by apply lo_unfenced0.
  - intros i Hin. apply elem_of_app in Hin as [Hin|Hin].
    + apply (item_ok_mono l); [|by apply lo_items0]. intros. by apply Hdom.
    + apply list_elem_of_singleton in Hin as ->. cbn. rewrite Hdom, Hel. split; [eauto|lia].
  - rewrite omap_app. cbn. by apply sorted_snoc.
  - rewrite pending_app, pending_cons. cbn [item_pending]. rewrite !zlen_app, zlen_pair.
    change (drop (Z.to_nat 0) suffix) with suffix. change (zlen (pending [])) with 0. lia.
  - rewrite vt_pending_app, vt_pending_cons. cbn. by rewrite app_nil_r.
  - rewrite lo_log0, pending_app, pending_cons. cbn. by rewrite app_nil_r, <- app_assoc.
  - intros e x Hx. apply enqueued_Some in Hx as (el0 & He & ->).
    destruct (lo_entries0 e el0 He) as (? & ? & ? & ?).
    unfold entry_ok, log_accept; cbn [lg_accepted lg_settled].
    rewrite stream_app, zlen_app. case_decide; cbn [set_accepted el_accepted el_committed el_pending_dropped]; simplify_eq.
    + rewrite stream_pair. lia.
    + rewrite stream_pair_ne by done. autorewrite with zl. lia.
  - intros e He. rewrite stream_app, stream_pair_ne by lia. by rewrite lo_past0, app_nil_r.
Qed.

Lemma log_accept_nil e g : log_accept e [] g = g.
Proof. destruct g. unfold log_accept; cbn. by rewrite app_nil_r. Qed.

(** The overlap of a chunk with the accepted bytes is compared without panic,
    and passes exactly if the retained bytes cover it and the chunk repeats them. *)
Lemma check_overlap_spec n l g el start bytes :
  ledger_ok n l g → il_epochs l !! il_current l = Some el → 0 <= start <= el_accepted el →
  let m := Z.min (start + zlen bytes) (el_accepted el) in
  ∃ o, check_overlap (il_current l) start m (el_accepted el) (el_committed el) bytes l = Some o ∧
    (o = None ↔ (start < m → il_retained_start l <= start ∧
       take (Z.to_nat (m - start)) bytes
       = take (Z.to_nat (m - start)) (drop (Z.to_nat start) (stream (il_current l) (lg_accepted g))))).
Proof.
  intros Hok Hel Hs m. pose proof (retained_len _ _ _ _ Hok Hel) as Hlen.
  destruct (lo_entries _ _ _ Hok _ _ Hel) as (Ha & _ & _ & Hu).
  destruct (lo_retained _ _ _ Hok) as (Hr & Hre & _). rewrite <- Ha in Hr.
  pose proof (zlen_nonneg bytes) as Hb. unfold check_overlap.
  destruct (start <? m) eqn:E1; [|exists None; split; [done|]; split; [lia|done]].
  destruct (start <? il_retained_start l) eqn:E2; [eexists; split; [done|]; split; [done|lia]|].
  nowrap. rewrite range_Some by lia. cbn [mbind option_bind].
  rewrite range_Some by lia. cbn [mbind option_bind]. eexists. split; [done|].
  change (drop (Z.to_nat 0) bytes) with bytes. rewrite Hre, drop_drop.
  replace (Z.to_nat (il_retained_start l) + Z.to_nat (start - il_retained_start l))%nat
    with (Z.to_nat start) by lia.
  case_bool_decide as Heq; split; try done; [split; [lia|done]|].
  intros H. destruct H; [lia|congruence].
Qed.

Lemma accept_suffix_spec n l g el start bytes :
  ledger_ok n l g → il_epochs l !! il_current l = Some el → 0 <= start <= el_accepted el →
  zlen bytes <= MAX_CHUNK → start + zlen bytes <= u64_max →
  let suffix := drop (Z.to_nat (el_accepted el - start)) bytes in
  ∃ l' o, accept_suffix (il_current l) start (start + zlen bytes) (el_accepted el) bytes l = Some (l', o) ∧
    match o with
    | Some _ => l' = l
    | None => ledger_ok n l' (log_accept (il_current l) suffix g) ∧
        l' = if el_accepted el <? start + zlen bytes
             then enqueued (il_current l) suffix (start + zlen bytes) l else l
    end.
Proof.
  intros Hok Hel Hs Hc Hu suffix. unfold accept_suffix.
  destruct (el_accepted el <? _) eqn:E1.
  2:{ exists l, None. split; [done|]. subst suffix. rewrite drop_ge by (unfold zlen in *; lia).
      by rewrite log_accept_nil. }
  nowrap. rewrite range_all_from by lia. cbn [mbind option_bind]. fold suffix.
  assert (zlen suffix = zlen bytes - (el_accepted el - start)) as Hsl by (apply zlen_drop; lia).
  destruct (lo_input _ _ _ Hok) as [Hin1 Hin2].
  pose proof (zlen_nonneg (pending (il_queue l))).
  unfold MAX_CHUNK, INPUT_QUEUE_LIMIT, u64_max in *. nowrap.
  case_match; [by eexists _, _|].
  cbn [set_queue il_retained il_retained_start].
  pose proof (retained_len _ _ _ _ Hok Hel) as Hlen.
  destruct (lo_retained _ _ _ Hok) as (Hr & _).
  rewrite trim_retained_spec by (rewrite ?zlen_app; unfold u64_max; lia).
  eexists _, None. split; [done|]. split; [|done].
  replace (start + zlen bytes) with (el_accepted el + zlen suffix) by lia.
  apply (enqueued_ok n l g el suffix); unfold MAX_CHUNK, INPUT_QUEUE_LIMIT, u64_max; done || lia.
Qed.

Lemma suffix_epoch l el start (bytes : list byte) suffix :
  il_epochs l !! il_current l = Some el →
  il_epochs (if el_accepted el <? start + zlen bytes
             then enqueued (il_current l) suffix (start + zlen bytes) l else l) !! il_current l =
    Some (set_accepted (Z.max (el_accepted el) (start + zlen bytes)) el).
Proof.
  intros Hel. case_match eqn:E.
  - apply enqueued_Some. exists el. rewrite decide_True by done. split; [done|]. f_equal. lia.
  - rewrite Hel, Z.max_l by lia. by destruct el.
Qed.

Section write_spec.
Context (crc32c : list byte → Z).

(** What an acknowledged write implies. *)
Definition write_accepts (n : Z) (who : list byte) (e start : Z) (bytes : list byte) (crc : Z)
    (l : InputLedger) (g : Log) (l' : InputLedger) (a : Ack) (el : EpochLedger) : Prop :=
  let m := Z.min (start + zlen bytes) (el_accepted el) in
  let suffix := drop (Z.to_nat (el_accepted el - start)) bytes in
  (e = il_current l ∧ il_holder l = Some who ∧ unfenced e l = true ∧ il_epochs l !! e = Some el) ∧
  (start <= el_accepted el ∧ start + zlen bytes <= u64_max ∧ zlen bytes <= MAX_CHUNK ∧
   crc32c bytes = crc) ∧
  (start < m → il_retained_start l <= start ∧
     take (Z.to_nat (m - start)) bytes
     = take (Z.to_nat (m - start)) (drop (Z.to_nat start) (stream e (lg_accepted g)))) ∧
  ledger_ok n l' (log_accept e suffix g) ∧
  l' = (if el_accepted el <? start + zlen bytes then enqueued e suffix (start + zlen bytes) l else l) ∧
  a = mk_Ack who e (Z.max (el_accepted el) (start + zlen bytes)) (el_committed el).

Lemma write_spec n who e start bytes crc l g :
  ledger_ok n l g → 0 <= start →
  ∃ l' r, write crc32c who e start bytes crc l = Some (l', r) ∧
  match r with
  | Err (_, None) => l' = l
  | Err (_, Some (rv, hs)) =>
      l' = set_revokees [] (fence_current l) ∧ rv = mk_Revoke who e 0 ∧ hs = il_revokees l
  | Ok a => ∃ el, write_accepts n who e start bytes crc l g l' a el
  end.
Proof.
  intros Hok Hs. unfold write. case_match eqn:Hcur; [by eexists _, _|].
  case_match eqn:Hlen; [by eexists _, _|]. case_match eqn:Hcrc; [by eexists _, _|].
  unfold checked_add64. case_match eqn:Hadd; [|by eexists _, _]. case_match; simplify_eq.
  apply negb_false_iff in Hcur, Hcrc. bool_hyps.
  assert (e = il_current l) as -> by lia.
  destruct (il_epochs l !! il_current l) as [el|] eqn:Hel; [|by unfold unfenced in *; rewrite Hel in *].
  cbn [mbind option_bind]. case_match eqn:Hgap; [by eexists _, _|].
  destruct (check_overlap_spec n l g el start bytes) as (o & -> & Ho); [done..|lia|].
  cbn [mbind option_bind]. destruct o; [by eexists _, _|].
  destruct (accept_suffix_spec n l g el start bytes) as (l' & bp & -> & Hbp); [done|done|lia..|].
  cbn [mbind option_bind]. destruct bp; [subst; by eexists _, _|]. destruct Hbp as [Hok' Hl'].
  assert (il_epochs l' !! il_current l =
    Some (set_accepted (Z.max (el_accepted el) (start + zlen bytes)) el)) as Hel'
    by (rewrite Hl'; by apply suffix_epoch).
  rewrite Hel'. cbn [mbind option_bind]. eexists _, _. split; [done|]. exists el.
  unfold write_accepts. split_and!; try done; try lia. by apply Ho.
Qed.

Lemma write_ok n who e start bytes crc l g :
  ledger_ok n l g → 0 <= start →
  ∃ l' r, write crc32c who e start bytes crc l = Some (l', r) ∧
    ledger_ok n l' (log_step crc32c (CWrite who e start bytes crc) l g).
Proof.
  intros Hok Hs. destruct (write_spec n who e start bytes crc l g) as (l' & r & Hw & Hr); [done..|].
  exists l', r. split; [done|]. unfold log_step, newly_accepted, newly_settled. rewrite Hw, app_nil_r.
  destruct r as [a|[err [[rv hs]|]]].
  - destruct Hr as (el & (-> & _ & _ & Hel) & _ & _ & Hok' & _). by rewrite Hel.
  - rewrite app_nil_r. destruct Hr as (-> & _), g. apply fence_ok; [done|apply NoDup_nil_2].
  - rewrite app_nil_r. subst. by destruct g.
Qed.
End write_spec.

(** ** Lemmas: the queue *)

Lemma vt_reply_ok n bytes l g :
  ledger_ok n l g → zlen bytes <= u64_max - VT_REPLY_LIMIT → ledger_ok n (push_vt_reply bytes l).1 g.
Proof.
  intros Hok Hb. pose proof (zlen_nonneg bytes).
  pose proof (zlen_nonneg (vt_pending (il_queue l))). pose proof (lo_vt _ _ _ Hok) as [Hv1 Hv2].
  unfold push_vt_reply. rewrite add64_id by lia.
  case_match eqn:E; cbn [fst]; destruct Hok; split; try done; bool_hyps; cbn [set_queue il_queue].
  - intros i Hi. apply elem_of_app in Hi as [Hi|Hi].
    + apply (item_ok_mono l); [done|]. by apply lo_items0.
    + apply list_elem_of_singleton in Hi as ->. cbn. lia.
  - rewrite omap_app. cbn. by rewrite app_nil_r.
  - rewrite pending_app. cbn. by rewrite app_nil_r.
  - rewrite vt_pending_app, vt_pending_cons. cbn [item_vt].
    change (drop (Z.to_nat 0) bytes) with bytes. cbn [set_queue il_vt_bytes]. rewrite !zlen_app.
    change (zlen (vt_pending [])) with 0. lia.
  - rewrite pending_app. cbn. by rewrite app_nil_r.
Qed.

(** The queue after the PTY took [m] bytes of its head. *)
Definition advanced (i : Item) (q : list Item) (m : Z) : list Item :=
  match i with
  | IInput e bytes w => if w + m =? zlen bytes then q else IInput e bytes (w + m) :: q
  | IVt bytes w => if w + m =? zlen bytes then q else IVt bytes (w + m) :: q
  end.

Lemma advanced_spec l i q m :
  (∀ j, j ∈ i :: q → item_ok l j) → StronglySorted Z.le (omap item_epoch (i :: q)) →
  0 <= m <= zlen (item_rest i) →
  (∀ j, j ∈ advanced i q m → item_ok l j) ∧
  StronglySorted Z.le (omap item_epoch (advanced i q m)) ∧
  pending (advanced i q m) = drop (Z.to_nat m) (item_pending i) ++ pending q ∧
  vt_pending (advanced i q m) = drop (Z.to_nat m) (item_vt i) ++ vt_pending q.
Proof.
  intros Hio Hs Hm. pose proof (Hio i ltac:(set_solver)) as Hi.
  assert (∀ j, j ∈ q → item_ok l j) as Hq by set_solver.
  destruct i as [e bytes w|bytes w]; cbn [item_ok item_rest] in *;
    rewrite zlen_drop in Hm by lia; cbn [advanced]; case_match eqn:E;
    cbn [omap list_omap item_epoch] in *; rewrite ?pending_cons, ?vt_pending_cons;
    cbn [item_pending item_vt]; rewrite ?drop_nil, <- ?fmap_drop, ?drop_drop.
  - apply StronglySorted_inv in Hs as [? _]. rewrite drop_ge by (unfold zlen in *; lia). done.
  - split_and!; [|done| |done].
    + intros j Hj. apply elem_of_cons in Hj as [->|Hj]; [cbn; split_and!; tauto || lia|by apply Hq].
    + do 3 f_equal. lia.
  - rewrite drop_ge by (unfold zlen in *; lia). done.
  - split_and!; [|done|done|].
    + intros j Hj. apply elem_of_cons in Hj as [->|Hj]; [cbn; lia|by apply Hq].
    + do 2 f_equal. lia.
Qed.

(** Writing [m] bytes of the queue head [i]: the pending bytes [m] long leave
    the queue in order. *)
Lemma settle_ok n l g i q m (ep : gmap Z EpochLedger) ib vb :
  ledger_ok n l g → il_queue l = i :: q → 0 <= m <= zlen (item_rest i) →
  let s := take (Z.to_nat m) (item_pending i) in
  ib = il_input_bytes l - zlen s → vb = il_vt_bytes l - zlen (take (Z.to_nat m) (item_vt i)) →
  (∀ e, ep !! e = (λ el, set_committed (el_committed el + zlen (stream e s)) el) <$> il_epochs l !! e) →
  ledger_ok n (set_epochs ep (set_queue (advanced i q m) ib vb l))
    (mk_Log (lg_accepted g) (lg_settled g ++ ((λ p, (p, Written)) <$> s))).
Proof.
  intros Hok Hq Hm s -> -> Hep.
  destruct (advanced_spec l i q m) as (Hi & Hs & Hp & Hv);
    [rewrite <- Hq; apply (lo_items _ _ _ Hok)|rewrite <- Hq; apply (lo_sorted _ _ _ Hok)|done|].
  assert (pending (il_queue l) = s ++ pending (advanced i q m)) as Hps.
  { unfold s. rewrite Hq, pending_cons, Hp, app_assoc. by rewrite take_drop. }
  assert (zlen (vt_pending (il_queue l))
          = zlen (take (Z.to_nat m) (item_vt i)) + zlen (vt_pending (advanced i q m))) as Hvs.
  { rewrite Hq, vt_pending_cons, Hv, <- zlen_app, app_assoc. by rewrite take_drop. }
  pose proof (zlen_nonneg s). pose proof (zlen_nonneg (take (Z.to_nat m) (item_vt i))).
  assert (∀ e, is_Some (ep !! e) ↔ is_Some (il_epochs l !! e)) as Hdom
    by (intros e; rewrite Hep; apply fmap_is_Some).
  destruct Hok. split; try done; cbn [set_epochs set_queue il_epochs il_queue il_current il_holder
    il_input_bytes il_vt_bytes lg_accepted lg_settled].
  - intros e He. apply Hdom in He. eauto.
  - intros Hc. apply Hdom. eauto.
  - intros h Hh. destruct (lo_holder0 h Hh) as (el & He & ? & ?). rewrite Hep, He. cbn. eauto.
  - intros e el He Hf. rewrite Hep in He. apply fmap_Some in He as (el0 & He & ->).
    by apply (lo_unfenced0 e el0).
  - intros j Hj. apply (item_ok_mono l); [|by apply Hi]. intros. by apply Hdom.
  - rewrite Hps, zlen_app in lo_input0. lia.
  - lia.
  - rewrite lo_log0, fmap_app, <- app_assoc, Hps. f_equal.
    rewrite <- list_fmap_compose. cbn. by rewrite list_fmap_id.
  - intros e el He. rewrite Hep in He. apply fmap_Some in He as (el0 & He & ->).
    destruct (lo_entries0 e el0 He) as (? & ? & ? & ?). unfold entry_ok.
    cbn [set_committed el_accepted el_committed el_pending_dropped lg_accepted lg_settled].
    rewrite !fate_count_app, !fate_count_map. rewrite decide_True, decide_False by done. lia.
Qed.

Lemma committed_room n l g i q e el m :
  ledger_ok n l g → il_queue l = i :: q → il_epochs l !! e = Some el →
  el_committed el + zlen (stream e (take m (item_pending i))) <= el_accepted el.
Proof.
  intros Hok Hq He. destruct (lo_entries _ _ _ Hok e el He) as (-> & -> & _).
  rewrite (accepted_split _ _ _ e Hok), Hq, pending_cons, stream_app, zlen_app.
  rewrite <- (take_drop m (item_pending i)) at 2. rewrite stream_app, zlen_app.
  pose proof (fate_count_nonneg Dropped e (lg_settled g)).
  pose proof (zlen_nonneg (stream e (drop m (item_pending i)))).
  pose proof (zlen_nonneg (stream e (pending q))). lia.
Qed.

Lemma take_min {A} k (l : list A) : take (Z.to_nat k) l = take (Z.to_nat (Z.min k (zlen l))) l.
Proof.
  destruct (decide (k <= zlen l)); [by rewrite Z.min_l by lia|].
  by rewrite Z.min_r, !take_ge by (unfold zlen in *; lia).
Qed.

Lemma on_written_input n k l g e bytes w q :
  ledger_ok n l g → 0 <= k <= u64_max → il_queue l = IInput e bytes w :: q →
  ∃ l' a, on_written k l = Some (l', a) ∧
    ledger_ok n l' (mk_Log (lg_accepted g)
      (lg_settled g ++ ((λ p, (p, Written)) <$> take (Z.to_nat k) (item_pending (IInput e bytes w))))).
Proof.
  intros Hok Hk Hq.
  assert (item_ok l (IInput e bytes w)) as ([el Hel] & Hw & Hc)
    by (apply (lo_items _ _ _ Hok); rewrite Hq; set_solver).
  destruct (lo_input _ _ _ Hok) as [Hin1 Hin2].
  rewrite Hq, pending_cons, zlen_app in Hin1. cbn [item_pending] in Hin1.
  rewrite zlen_pair, zlen_drop in Hin1 by lia. pose proof (zlen_nonneg (pending q)).
  rewrite take_min. cbn [item_pending]. rewrite zlen_pair, zlen_drop by lia.
  set (m := Z.min k (zlen bytes - w)).
  pose proof (committed_room n l g _ q e el (Z.to_nat m) Hok Hq Hel) as Hroom.
  cbn [item_pending] in Hroom. rewrite <- fmap_take, stream_pair, zlen_take in Hroom
    by (rewrite zlen_drop by lia; lia).
  destruct (lo_entries _ _ _ Hok e el Hel) as (_ & Hcom & _ & Hu).
  pose proof (fate_count_nonneg Written e (lg_settled g)).
  unfold MAX_CHUNK, INPUT_QUEUE_LIMIT in *.
  unfold on_written. rewrite Hq, Hel. cbn [mbind option_bind]. nowrap. fold m.
  rewrite !add64_id by (unfold u64_max in *; lia).
  eexists _, _. split; [done|].
  assert (ledger_ok n (set_epochs (<[e := set_committed (el_committed el + m) el]> (il_epochs l))
    (set_queue (advanced (IInput e bytes w) q m) (il_input_bytes l - m) (il_vt_bytes l) l))
    (mk_Log (lg_accepted g) (lg_settled g ++ ((λ p, (p, Written)) <$> take (Z.to_nat m)
       (item_pending (IInput e bytes w)))))) as Hs.
  { apply settle_ok; cbn [item_pending item_vt item_rest];
      rewrite ?zlen_drop, <- ?fmap_take, ?zlen_pair, ?take_nil by lia; try done; try lia.
    - rewrite zlen_take by (rewrite zlen_drop by lia; lia). done.
    - rewrite zlen_nil. lia.
    - intros e'. destruct (decide (e' = e)) as [->|Hne].
      + rewrite lookup_insert_eq, Hel, stream_pair. cbn.
        rewrite zlen_take by (rewrite zlen_drop by lia; lia). done.
      + rewrite lookup_insert_ne, stream_pair_ne by done. destruct (il_epochs l !! e') as [el'|]; [|done].
        cbn. rewrite Z.add_0_r. by destruct el'. }
  unfold advanced in Hs. case_match; [by apply prune_ok|done].
Qed.

Lemma on_written_vt n k l g bytes w q :
  ledger_ok n l g → 0 <= k <= u64_max → il_queue l = IVt bytes w :: q →
  ∃ l' a, on_written k l = Some (l', a) ∧ ledger_ok n l' g.
Proof.
  intros Hok Hk Hq.
  assert (item_ok l (IVt bytes w)) as (Hw & Hc)
    by (apply (lo_items _ _ _ Hok); rewrite Hq; set_solver).
  destruct (lo_vt _ _ _ Hok) as [Hv1 Hv2].
  rewrite Hq, vt_pending_cons, zlen_app in Hv1. cbn [item_vt] in Hv1.
  rewrite zlen_drop in Hv1 by lia. pose proof (zlen_nonneg (vt_pending q)).
  unfold VT_REPLY_LIMIT in *.
  unfold on_written. rewrite Hq. nowrap. set (m := Z.min k (zlen bytes - w)).
  rewrite ?add64_id, ?sub64_id by (unfold u64_max in *; lia).
  eexists _, _. split; [done|].
  assert (ledger_ok n (set_epochs (il_epochs l)
    (set_queue (advanced (IVt bytes w) q m) (il_input_bytes l) (il_vt_bytes l - m) l))
    (mk_Log (lg_accepted g) (lg_settled g ++ ((λ p, (p, Written)) <$> take (Z.to_nat m)
       (item_pending (IVt bytes w)))))) as Hs.
  { apply settle_ok; cbn [item_pending item_vt item_rest];
      rewrite ?zlen_drop, ?take_nil by lia; try done; try lia.
    - rewrite zlen_nil. lia.
    - rewrite zlen_take by (rewrite zlen_drop by lia; lia). done.
    - intros e'. destruct (il_epochs l !! e') as [el'|]; [|done].
      cbn. rewrite Z.add_0_r. by destruct el'. }
  cbn [item_pending] in Hs. rewrite take_nil, app_nil_r in Hs. destruct g.
  unfold advanced in Hs. case_match; [by apply prune_ok|done].
Qed.

Lemma on_written_ok crc32c n k l g :
  ledger_ok n l g → 0 <= k <= u64_max →
  ∃ l' a, on_written k l = Some (l', a) ∧ ledger_ok n l' (log_step crc32c (CWritten k) l g).
Proof.
  intros Hok Hk. unfold log_step, newly_accepted, newly_settled. rewrite app_nil_r.
  destruct (il_queue l) as [|[e bytes w|bytes w] q] eqn:Hq.
  - unfold on_written. rewrite Hq. eexists _, _. split; [done|]. rewrite app_nil_r. by destruct g.
  - by apply (on_written_input n k l g e bytes w q).
  - cbn [item_pending]. rewrite take_nil, app_nil_r. destruct g. by apply (on_written_vt n k _ _ bytes w q).
Qed.

Definition plus_dropped (k : Z) (el : EpochLedger) : EpochLedger :=
  mk_EpochLedger (el_holder el) (el_accepted el) (el_committed el) (el_pending_dropped el + k) (el_fenced el).

Lemma drop_item_lookup m i e :
  (∀ el, m !! e = Some el →
     0 <= el_pending_dropped el + zlen (stream e (item_pending i)) <= u64_max) →
  (match i with IInput _ bytes w | IVt bytes w => 0 <= w <= zlen bytes ∧ zlen bytes <= u64_max end) →
  drop_item m i !! e = plus_dropped (zlen (stream e (item_pending i))) <$> m !! e.
Proof.
  intros Hu Hw. destruct i as [e' bytes w|bytes w]; cbn [drop_item item_pending] in *.
  - destruct (decide (e = e')) as [->|Hne].
    + rewrite lookup_alter_eq. destruct (m !! e') as [el|]; [|done]. cbn.
      specialize (Hu el eq_refl). rewrite stream_pair in *. rewrite zlen_drop in * by lia.
      unfold add_dropped, plus_dropped. rewrite sub64_id, add64_id by lia. done.
    + rewrite lookup_alter_ne, stream_pair_ne by done.
      destruct (m !! e) as [[]|]; cbn; [|done]. unfold plus_dropped. cbn. by rewrite Z.add_0_r.
  - destruct (m !! e) as [[]|]; cbn; [|done]. unfold plus_dropped. cbn. by rewrite Z.add_0_r.
Qed.

Lemma on_dead_epochs q m e :
  (∀ i, i ∈ q → match i with IInput _ bytes w | IVt bytes w => 0 <= w <= zlen bytes ∧ zlen bytes <= u64_max end) →
  (∀ el, m !! e = Some el →
     0 <= el_pending_dropped el ∧ el_pending_dropped el + zlen (stream e (pending q)) <= u64_max) →
  foldl drop_item m q !! e = plus_dropped (zlen (stream e (pending q))) <$> m !! e.
Proof.
  revert m. induction q as [|i q IH]; intros m Hi Hu; cbn [foldl].
  - destruct (m !! e) as [[]|]; cbn; [|done]. unfold plus_dropped. cbn. by rewrite Z.add_0_r.
  - rewrite pending_cons, stream_app, zlen_app in *.
    pose proof (zlen_nonneg (stream e (item_pending i))). pose proof (zlen_nonneg (stream e (pending q))).
    assert (drop_item m i !! e = plus_dropped (zlen (stream e (item_pending i))) <$> m !! e) as Hd.
    { apply drop_item_lookup; [|apply Hi; set_solver]. intros el He. specialize (Hu el He). lia. }
    rewrite IH; [|set_solver|].
    + rewrite Hd. destruct (m !! e) as [el|]; [|done]. cbn. unfold plus_dropped. cbn. do 2 f_equal. lia.
    + intros el. rewrite Hd. destruct (m !! e) as [el0|] eqn:He; [|done].
      specialize (Hu el0 eq_refl). intros [= <-]. cbn. lia.
Qed.

Lemma on_dead_lookup n l g e :
  ledger_ok n l g →
  il_epochs (on_dead l) !! e
    = plus_dropped (zlen (stream e (pending (il_queue l)))) <$> il_epochs l !! e.
Proof.
  intros Hok. apply on_dead_epochs.
  - intros i Hi. pose proof (lo_items _ _ _ Hok i Hi) as Hio.
    destruct i; cbn in Hio; unfold MAX_CHUNK, VT_REPLY_LIMIT, u64_max in *; lia.
  - intros el He. destruct (lo_entries _ _ _ Hok e el He) as (Ha & _ & -> & Hu).
    rewrite (accepted_split _ _ _ e Hok) in Ha.
    pose proof (fate_count_nonneg Written e (lg_settled g)).
    pose proof (fate_count_nonneg Dropped e (lg_settled g)). lia.
Qed.

Lemma on_dead_ok crc32c n l g :
  ledger_ok n l g → ledger_ok n (on_dead l) (log_step crc32c CDead l g).
Proof.
  intros Hok. pose proof (λ e, on_dead_lookup n l g e Hok) as Hep.
  assert (∀ e, is_Some (il_epochs (on_dead l) !! e) ↔ is_Some (il_epochs l !! e)) as Hdom
    by (intros e; rewrite Hep; apply fmap_is_Some).
  unfold log_step; cbn [newly_accepted newly_settled]. rewrite app_nil_r.
  destruct Hok. split; try done; cbn [on_dead il_current il_holder il_queue lg_accepted lg_settled].
  - intros e He. apply Hdom in He. eauto.
  - intros Hc. apply Hdom. eauto.
  - intros h Hh. destruct (lo_holder0 h Hh) as (el & He & ? & ?). rewrite Hep, He. cbn. eauto.
  - intros e el He Hf. rewrite Hep in He. apply fmap_Some in He as (el0 & He & ->).
    by apply (lo_unfenced0 e el0).
  - intros i Hi. set_solver.
  - constructor.
  - rewrite lo_log0, fmap_app, <- list_fmap_compose. cbn. by rewrite list_fmap_id, app_nil_r.
  - intros e el He. rewrite Hep in He. apply fmap_Some in He as (el0 & He & ->).
    destruct (lo_entries0 e el0 He) as (? & ? & ? & ?). unfold entry_ok, plus_dropped.
    cbn [el_accepted el_committed el_pending_dropped lg_accepted lg_settled].
    rewrite !fate_count_app, !fate_count_map. rewrite decide_False, decide_True by done. lia.
Qed.

(** ** The refinement *)

Definition wf_call (c : InputCall) : Prop :=
  match c with
  | CWrite _ _ start _ _ => 0 <= start <= u64_max
  | CVtReply bytes => zlen bytes <= u64_max - VT_REPLY_LIMIT
  | CWritten k => 0 <= k <= u64_max
  | _ => True
  end.

Definition log_empty : Log := mk_Log [] [].

Lemma ledger_new_ok : ledger_ok 0 ledger_new log_empty.
Proof.
  split; cbn; try done; try lia; try set_solver.
  - intros e [? He]. by rewrite lookup_empty in He.
  - constructor.
  - split; [apply NoDup_nil_2|done].
Qed.

Section traces.
Context (crc32c : list byte → Z).

Lemma input_step_ok n c l g :
  ledger_ok n l g → wf_call c → n < u64_max →
  ∃ l', input_step crc32c c l = Some l' ∧ ledger_ok (n + 1) l' (log_step crc32c c l g).
Proof.
  intros Hok Hwf Hn.
  assert (mk_Log (lg_accepted g ++ []) (lg_settled g ++ []) = g) as Hg
    by (rewrite !app_nil_r; by destruct g).
  destruct c as [who r|who|who e|who e|who e start bytes crc|bytes|k|]; cbn [input_step].
  1-4, 6: eexists; split; [done|]; unfold log_step; cbn [newly_accepted newly_settled]; rewrite Hg.
  - apply (ledger_ok_weaken n); [lia|]. by apply fresh_ok.
  - by apply acquire_ok.
  - apply (ledger_ok_weaken n); [lia|]. by apply release_ok.
  - apply (ledger_ok_weaken n); [lia|]. by apply reclaim_ok.
  - apply (ledger_ok_weaken n); [lia|]. by apply vt_reply_ok.
  - destruct (write_ok crc32c n who e start bytes crc l g) as (l' & r & -> & ?); [done|apply Hwf|].
    eexists. split; [done|]. apply (ledger_ok_weaken n); [lia|done].
  - destruct (on_written_ok crc32c n k l g) as (l' & a & -> & ?); [done|done|].
    eexists. split; [done|]. apply (ledger_ok_weaken n); [lia|done].
  - eexists. split; [done|]. apply (ledger_ok_weaken n); [lia|]. by apply on_dead_ok.
Qed.

Lemma input_run_ok cs n l g :
  ledger_ok n l g → Forall wf_call cs → n + zlen cs <= u64_max →
  ∃ l' g', input_run crc32c cs l g = Some (l', g') ∧ ledger_ok (n + zlen cs) l' g'.
Proof.
  revert n l g. induction cs as [|c cs IH]; intros n l g Hok Hwf Hn.
  - exists l, g. split; [done|]. by rewrite Z.add_0_r.
  - autorewrite with zl in Hn. pose proof (zlen_nonneg cs). inversion Hwf; subst.
    destruct (input_step_ok n c l g) as (l1 & Hl1 & Hok1); [done|done|lia|].
    cbn [input_run]. rewrite Hl1. cbn [mbind option_bind].
    destruct (IH (n + 1) l1 (log_step crc32c c l g)) as (l2 & g2 & ? & Hok2); [done|done|lia|].
    exists l2, g2. split; [done|]. rewrite zlen_cons, Z.add_assoc. done.
Qed.
End traces.

(** ** Lemmas: the number of retained ledgers *)

Lemma elem_of_dedup x l : x ∈ dedup l ↔ x ∈ l.
Proof.
  induction l as [|y l IH]; [done|]. cbn. destruct (dedup l) as [|z r] eqn:E.
  - destruct l as [|w l]; [set_solver|]. exfalso. cbn in E. repeat case_match; done.
  - rewrite elem_of_cons, <- IH. case_match; [|set_solver]. assert (y = z) as -> by lia. set_solver.
Qed.

Lemma dedup_lb l : StronglySorted Z.le l → StronglySorted Z.lt (dedup l).
Proof.
  induction 1 as [|x l Hs IH Hx]; [constructor|]. cbn.
  assert (∀ y, y ∈ dedup l → x <= y) as Hle.
  { intros y. rewrite elem_of_dedup. by apply Forall_forall. }
  destruct (dedup l) as [|z r]; [repeat constructor|]. case_match; [done|].
  constructor; [done|]. pose proof (Hle z ltac:(set_solver)).
  apply StronglySorted_inv in IH as [_ IH]. apply Forall_cons. split; [lia|].
  eapply Forall_impl; [exact IH|]. cbn. lia.
Qed.

(** The queue holds epochs in ascending order, so [dedup] counts them. *)
Lemma unwritten_epochs_spec n l g :
  ledger_ok n l g →
  unwritten_epochs l = Z.of_nat (size (list_to_set (omap item_epoch (il_queue l)) : gset Z)).
Proof.
  intros Hok. unfold unwritten_epochs, zlen.
  assert (NoDup (dedup (omap item_epoch (il_queue l)))) as Hnd.
  { pose proof (dedup_lb _ (lo_sorted _ _ _ Hok)) as Hs.
    induction Hs as [|x r Hs IH Hx]; constructor; [|done].
    intros Hin. eapply Forall_forall in Hx; [|done]. lia. }
  rewrite <- (size_list_to_set (C := gset Z) _ Hnd). do 2 f_equal.
  apply set_eq. intros x. by rewrite !elem_of_list_to_set, elem_of_dedup.
Qed.

Lemma prune_size n l g :
  ledger_ok n l g → 
  Z.of_nat (size (il_epochs (prune l))) <= RECENT_EPOCHS + unwritten_epochs l.
Proof.
  intros Hok. rewrite (unwritten_epochs_spec _ _ _ Hok), <- size_dom.
  pose proof (lo_cur _ _ _ Hok). set (q := list_to_set (omap item_epoch (il_queue l)) : gset Z).
  set (lo := sat_sub (il_current l) (RECENT_EPOCHS - 1)).
  set (rec := list_to_set (seqZ lo (il_current l - lo + 1)) : gset Z).
  assert (size rec <= 64)%nat as Hrec.
  { unfold rec. rewrite (size_list_to_set (C := gset Z) _ (NoDup_seqZ _ _)), length_seqZ.
    unfold lo, sat_sub, RECENT_EPOCHS. lia. }
  assert (dom (il_epochs (prune l)) ⊆ rec ∪ q) as Hsub.
  { intros e. rewrite elem_of_dom. intros [el He]. apply prune_Some in He as [He Hc].
    apply mk_is_Some, (lo_dom _ _ _ Hok) in He. subst rec q.
    rewrite elem_of_union, !elem_of_list_to_set, elem_of_seqZ.
    assert (lo <= il_current l) by (unfold lo, sat_sub, RECENT_EPOCHS; lia).
    destruct Hc as [->|[Hc|Hc]]; [left; lia|left; fold lo in Hc; lia|auto]. }
  pose proof (subseteq_size _ _ Hsub). pose proof (size_union_alt rec q).
  pose proof (subseteq_size (q ∖ rec) q ltac:(set_solver)). unfold RECENT_EPOCHS. lia.
Qed.

Lemma dom_fence l : dom (il_epochs (fence_current l)) = dom (il_epochs l).
Proof. apply dom_alter_L. Qed.

Lemma dom_prune l : dom (il_epochs (prune l)) ⊆ dom (il_epochs l).
Proof. intros e. rewrite !elem_of_dom. intros [el He]. apply prune_Some in He as [He _]. eauto. Qed.

Lemma dom_drop_items q m : dom (foldl drop_item m q) = dom m.
Proof.
  revert m. induction q as [|[] q IH]; intros m; cbn; [done| |by rewrite IH].
  rewrite IH. apply dom_alter_L.
Qed.

Section sizes.
Context (crc32c : list byte → Z).

Lemma dom_write who e start bytes crc l l' r :
  write crc32c who e start bytes crc l = Some (l', r) → dom (il_epochs l') = dom (il_epochs l).
Proof.
  unfold write, accept_suffix. intros Hw.
  repeat (case_match || simplify_option_eq || destruct_or?); try done; try apply dom_fence.
  all: destruct_and?; simplify_eq/=; try done; try apply dom_alter_L.
Qed.

Lemma dom_on_written k l l' a :
  on_written k l = Some (l', a) → dom (il_epochs l') ⊆ dom (il_epochs l).
Proof.
  unfold on_written. intros Hw.
  destruct (il_queue l) as [|[e bytes w|bytes w] q]; [by simplify_eq| |].
  - destruct (il_epochs l !! e) as [el|] eqn:He; cbn in Hw; [|done].
    apply elem_of_dom_2 in He.
    assert (dom (<[e := set_committed (add64 (el_committed el)
      (Z.min k (sub64 (zlen bytes) w))) el]> (il_epochs l)) ⊆ dom (il_epochs l)) as Hd by set_solver.
    case_match; simplify_eq; [etrans; [apply dom_prune|]|]; done.
  - case_match; simplify_eq; [etrans; [apply dom_prune|]|]; done.
Qed.

Lemma step_size n c l l' g :
  ledger_ok n l g → n < u64_max → input_step crc32c c l = Some l' →
  Z.of_nat (size (il_epochs l)) <= RECENT_EPOCHS + MAX_UNWRITTEN_EPOCHS →
  Z.of_nat (size (il_epochs l')) <= RECENT_EPOCHS + MAX_UNWRITTEN_EPOCHS.
Proof.
  intros Hok Hn Hstep Hsz.
  assert (dom (il_epochs l') ⊆ dom (il_epochs l) →
          Z.of_nat (size (il_epochs l')) <= RECENT_EPOCHS + MAX_UNWRITTEN_EPOCHS) as Hsub.
  { intros Hd. apply subseteq_size in Hd. rewrite !size_dom in Hd. lia. }
  destruct c as [who r|who|who e|who e|who e start bytes crc|bytes|k|]; cbn [input_step] in Hstep; simplify_eq.
  - apply Hsub. unfold ledger_fresh. by case_match.
  - rewrite acquire_state by (pose proof (lo_cur _ _ _ Hok); lia). case_match eqn:E; [done|].
    pose proof (prune_size _ _ _ (granted_ok n who l g Hok)) as Hp.
    change (unwritten_epochs (granted who l)) with (unwritten_epochs l) in Hp. lia.
  - apply Hsub. unfold release. case_match; [|done]. cbn. by rewrite dom_alter_L.
  - apply Hsub. unfold reclaim. repeat case_match; done.
  - destruct (write crc32c who e start bytes crc l) as [[l1 r]|] eqn:Hw; simplify_eq/=.
    apply Hsub. by rewrite (dom_write _ _ _ _ _ _ _ _ Hw).
  - apply Hsub. unfold push_vt_reply. by case_match.
  - destruct (on_written k l) as [[l1 r]|] eqn:Hw; simplify_eq/=. by eapply Hsub, dom_on_written.
  - apply Hsub. cbn. by rewrite dom_drop_items.
Qed.

Lemma input_run_size cs n l g l' g' :
  ledger_ok n l g → Forall wf_call cs → n + zlen cs <= u64_max →
  Z.of_nat (size (il_epochs l)) <= RECENT_EPOCHS + MAX_UNWRITTEN_EPOCHS →
  input_run crc32c cs l g = Some (l', g') →
  Z.of_nat (size (il_epochs l')) <= RECENT_EPOCHS + MAX_UNWRITTEN_EPOCHS.
Proof.
  revert n l g. induction cs as [|c cs IH]; intros n l g Hok Hwf Hn Hsz Hrun; [by simplify_eq/=|].
  autorewrite with zl in Hn. pose proof (zlen_nonneg cs). inversion Hwf; subst.
  destruct (input_step_ok crc32c n c l g) as (l1 & Hl1 & Hok1); [done|done|lia|].
  cbn [input_run] in Hrun. rewrite Hl1 in Hrun. cbn [mbind option_bind] in Hrun.
  apply (IH (n + 1) l1 (log_step crc32c c l g)); [done|done|lia| |done].
  by eapply (step_size n c l l1 g); [done|lia|..].
Qed.
End sizes.

(** ** Lemmas: acknowledged writes *)

Lemma overlap_extends (old bytes : list byte) start :
  0 <= start <= zlen old →
  let m := Z.min (start + zlen bytes) (zlen old) in
  (start < m → take (Z.to_nat (m - start)) bytes
               = take (Z.to_nat (m - start)) (drop (Z.to_nat start) old)) →
  take (length bytes) (drop (Z.to_nat start) (old ++ drop (Z.to_nat (zlen old - start)) bytes)) = bytes.
Proof.
  intros Hs m Ho. pose proof (zlen_nonneg bytes).
  assert (take (Z.to_nat (m - start)) bytes = take (Z.to_nat (m - start)) (drop (Z.to_nat start) old)) as Ho'.
  { destruct (decide (start < m)); [auto|]. by replace (Z.to_nat (m - start)) with 0%nat by lia. }
  rewrite drop_app_le by (unfold zlen in *; lia).
  destruct (decide (start + zlen bytes <= zlen old)).
  - rewrite (drop_ge bytes) by (unfold zlen in *; lia). rewrite app_nil_r.
    replace (Z.to_nat (m - start)) with (length bytes) in Ho' by (unfold zlen in *; lia).
    rewrite <- Ho'. by apply take_ge.
  - replace (Z.to_nat (m - start)) with (Z.to_nat (zlen old - start)) in Ho' by lia.
    rewrite (take_ge (drop _ old)) in Ho' by (rewrite length_drop; unfold zlen in *; lia).
    rewrite <- Ho', take_drop. by apply take_ge.
Qed.

Lemma accepts_stream crc32c n who e start bytes crc l g l' a el :
  ledger_ok n l g → 0 <= start → write_accepts crc32c n who e start bytes crc l g l' a el →
  let g' := log_accept e (drop (Z.to_nat (el_accepted el - start)) bytes) g in
  take (length bytes) (drop (Z.to_nat start) (stream e (lg_accepted g'))) = bytes ∧
  ack_accepted a = zlen (stream e (lg_accepted g')).
Proof.
  intros Hok Hs ((-> & _ & _ & Hel) & (Hst & _) & Ho & _ & _ & ->) g'.
  destruct (lo_entries _ _ _ Hok _ _ Hel) as (Ha & _). unfold g', log_accept; cbn [lg_accepted].
  rewrite stream_app, stream_pair, zlen_app. rewrite Ha in *. split.
  - apply overlap_extends; [lia|]. intros Hm. by apply Ho.
  - cbn [ack_accepted]. pose proof (zlen_nonneg bytes). unfold zlen in *. rewrite length_drop. lia.
Qed.

(** The retained bytes still cover a chunk that was just accepted. *)
Lemma enqueued_covers n l g el start bytes :
  ledger_ok n l g → il_epochs l !! il_current l = Some el → 0 <= start <= el_accepted el →
  zlen bytes <= MAX_CHUNK →
  (start < el_accepted el → il_retained_start l <= start) →
  el_accepted el < start + zlen bytes →
  il_retained_start (enqueued (il_current l) (drop (Z.to_nat (el_accepted el - start)) bytes)
    (start + zlen bytes) l) <= start.
Proof.
  intros Hok Hel Hs Hc Hr Hlt. pose proof (retained_len _ _ _ _ Hok Hel) as Hlen.
  destruct (lo_retained _ _ _ Hok) as (Hr0 & _). destruct (lo_entries _ _ _ Hok _ _ Hel) as (Ha & _).
  cbn [enqueued il_retained_start]. rewrite zlen_app, zlen_drop by lia.
  unfold RETAINED_BYTES, MAX_CHUNK in *. lia.
Qed.

Lemma accepts_retry crc32c n who e start bytes crc l g l' a el :
  ledger_ok n l g → 0 <= start → write_accepts crc32c n who e start bytes crc l g l' a el →
  write crc32c who e start bytes crc l' = Some (l', Ok a).
Proof.
  intros Hok Hs Hacc. destruct (accepts_stream _ _ _ _ _ _ _ _ _ _ _ _ Hok Hs Hacc) as [Hst Hal].
  destruct Hacc as ((-> & Hh & Hunf & Hel) & (Hsa & Hu & Hc & Hcrc) & Ho & Hok' & Hl' & ->).
  set (suffix := drop (Z.to_nat (el_accepted el - start)) bytes) in *.
  pose proof (zlen_nonneg bytes) as Hb.
  assert (il_epochs l' !! il_current l =
    Some (set_accepted (Z.max (el_accepted el) (start + zlen bytes)) el)) as Hel'
    by (rewrite Hl'; by apply suffix_epoch).
  assert (il_current l' = il_current l ∧ il_holder l' = il_holder l) as [Hc' Hh']
    by (rewrite Hl'; by case_match).
  assert (el_fenced el = false) as Hf by (unfold unfenced in Hunf; rewrite Hel in Hunf; by apply negb_true_iff).
  unfold write, unfenced. rewrite Hc', Hh', Hh, Hel'. cbn [set_accepted el_fenced]. rewrite Hf, Z.eqb_refl.
  rewrite bool_decide_true by done. cbn [andb negb].
  rewrite (proj2 (Z.ltb_ge _ _) Hc), Hcrc, Z.eqb_refl. cbn [negb]. unfold checked_add64.
  rewrite (proj2 (Z.leb_le _ _) Hu). cbn [mbind option_bind el_accepted el_committed].
  set (el' := set_accepted (Z.max (el_accepted el) (start + zlen bytes)) el) in *.
  change (Z.max (el_accepted el) (start + zlen bytes)) with (el_accepted el') in Hal |- *.
  assert (start + zlen bytes <= el_accepted el') by (cbn; lia).
  rewrite (proj2 (Z.ltb_ge _ _)) by lia.
  rewrite <- Hc' in Hel'. destruct (check_overlap_spec n l' _ el' start bytes Hok' Hel') as (o & Hov & Hiff); [lia|].
  rewrite Hc' in Hov. change (el_committed el) with (el_committed el'). rewrite Hov. cbn [mbind option_bind].
  assert (o = None) as ->.
  { apply Hiff. intros Hm. rewrite Hc'. rewrite Z.min_l in * by lia.
    replace (Z.to_nat (start + zlen bytes - start)) with (length bytes) by (unfold zlen; lia).
    split; [|by rewrite Hst, take_ge].
    rewrite Hl'. case_match.
    - apply (enqueued_covers n l g el); [done|done|lia|done| |lia]. intros. apply Ho; lia.
    - apply Ho. lia. }
  unfold accept_suffix. rewrite (proj2 (Z.ltb_ge _ _)) by lia. cbn [mbind option_bind].
  rewrite <- Hc', Hel'. done.
Qed.

Lemma length_filter_le {A} (P : A → Prop) `{!∀ x, Decision (P x)} (l : list A) :
  (length (filter P l) <= length l)%nat.
Proof. induction l as [|x l IH]; [done|]. rewrite filter_cons. case_decide; cbn; lia. Qed.

Lemma length_bt_iter `{KeyOrd K} {V} (m : gmap K V) : length (bt_iter m) = size m.
Proof.
  rewrite <- (length_fmap fst), bt_iter_keys, <- size_dom. unfold bt_keys, bs_iter.
  by rewrite merge_sort_Permutation.
Qed.

Lemma reachable_ok crc32c cs l g :
  Forall wf_call cs → zlen cs <= u64_max → input_run crc32c cs ledger_new log_empty = Some (l, g) →
  ledger_ok (zlen cs) l g.
Proof.
  intros Hwf Hn Hrun.
  destruct (input_run_ok crc32c cs 0 _ _ ledger_new_ok Hwf) as (l' & g' & Hr & Hok); [lia|].
  by simplify_eq.
Qed.

(** ** Theorems *)

Section theorems.
Context (crc32c : list byte → Z).


(** C14: An acknowledged write places its bytes in the epoch's stream at
    [start]: what the chunk overlaps is what was accepted there before, and the
    acknowledged count is the length of the stream. *)
Theorem acked_write_in_stream cs l g who e start bytes crc l' a :
  Forall wf_call cs → zlen cs <= u64_max →
  input_run crc32c cs ledger_new log_empty = Some (l, g) → 0 <= start <= u64_max →
  write crc32c who e start bytes crc l = Some (l', Ok a) →
  let g' := log_step crc32c (CWrite who e start bytes crc) l g in
  il_holder l = Some who ∧
  take (length bytes) (drop (Z.to_nat start) (stream e (lg_accepted g'))) = bytes ∧
  stream e (lg_accepted g) `prefix_of` stream e (lg_accepted g') ∧
  ack_accepted a = zlen (stream e (lg_accepted g')).
Proof.
  intros Hwf Hn Hrun Hs Hw g'. pose proof (reachable_ok _ _ _ _ Hwf Hn Hrun) as Hok.
  destruct (write_spec crc32c _ who e start bytes crc l g Hok) as (l1 & r & Hw' & Hr); [lia|].
  rewrite Hw in Hw'. simplify_eq. destruct Hr as (el & Hacc).
  destruct (accepts_stream _ _ _ _ _ _ _ _ _ _ _ _ Hok (proj1 Hs) Hacc) as [H1 H2].
  unfold g', log_step, newly_accepted. destruct Hacc as ((-> & Hh & _ & Hel) & _). rewrite Hw, Hel.
  split_and!; [done|done| |done]. cbn [lg_accepted]. rewrite stream_app. by eexists.
Qed.

(** Retransmission is idempotent: repeating an acknowledged write is
    acknowledged again with the same offsets and changes nothing. *)
Theorem write_retry_idempotent cs l g who e start bytes crc l' a :
  Forall wf_call cs → zlen cs <= u64_max →
  input_run crc32c cs ledger_new log_empty = Some (l, g) → 0 <= start <= u64_max →
  write crc32c who e start bytes crc l = Some (l', Ok a) →
  write crc32c who e start bytes crc l' = Some (l', Ok a).
Proof.
  intros Hwf Hn Hrun Hs Hw. pose proof (reachable_ok _ _ _ _ Hwf Hn Hrun) as Hok.
  destruct (write_spec crc32c _ who e start bytes crc l g Hok) as (l1 & r & Hw' & Hr); [lia|].
  rewrite Hw in Hw'. simplify_eq. destruct Hr as (el & Hacc).
  by eapply accepts_retry; [done|lia|].
Qed.

(** Only the newest grant can write: after [acquire] succeeds, every
    write with another epoch or by another client is refused as stale, with the
    ledger unchanged, and the granted epoch is reported. *)
Theorem acquire_displaces cs l g who who' gr e start bytes crc :
  Forall wf_call cs → zlen cs < u64_max →
  input_run crc32c cs ledger_new log_empty = Some (l, g) →
  (acquire who l).2 = Ok gr → who' ≠ who ∨ e ≠ gr_epoch gr →
  let l' := (acquire who l).1 in
  gr_epoch gr = il_current l + 1 ∧
  ∃ fa, write crc32c who' e start bytes crc l'
    = Some (l', Err (WStaleLease (gr_epoch gr) fa, None)).
Proof.
  intros Hwf Hn Hrun Hacq Hne l'. pose proof (reachable_ok _ _ _ _ Hwf ltac:(lia) Hrun) as Hok.
  pose proof (lo_cur _ _ _ Hok) as Hcur.
  assert (gr_epoch gr = il_current l + 1) as Hgr.
  { unfold acquire in Hacq. case_match; [done|]. cbn [fence_current set_holder set_epochs il_current] in Hacq.
    rewrite add64_id in Hacq by lia.
    destruct (il_holder l); [destruct (bool_decide _)|]; cbn in Hacq; by simplify_eq. }
  split; [done|].
  assert (il_current l' = gr_epoch gr ∧ il_holder l' = Some who) as [Hc Hh].
  { subst l'. rewrite acquire_state by lia. rewrite Hgr. unfold acquire in Hacq. by case_match. }
  unfold write, active_epoch. rewrite Hc, Hh.
  assert ((e =? gr_epoch gr) && bool_decide (Some who = Some who') && unfenced e l' = false) as ->.
  { destruct Hne; [rewrite bool_decide_false by congruence|rewrite (proj2 (Z.eqb_neq _ _)) by done];
      by rewrite ?andb_false_r. }
  by eexists.
Qed.

(** The ledger is bounded: at most 1 MiB of queued input, 64 KiB of queued
    replies, 4 MiB of retained bytes, 128 epoch ledgers, and so at most 128
    entries in a [pending_dropped_by_epoch] report. *)
Theorem input_ledger_bounded cs l g :
  Forall wf_call cs → zlen cs <= u64_max →
  input_run crc32c cs ledger_new log_empty = Some (l, g) →
  zlen (pending (il_queue l)) <= 1048576 ∧ zlen (vt_pending (il_queue l)) <= 65536 ∧
  zlen (il_retained l) <= 4194304 ∧ Z.of_nat (size (il_epochs l)) <= 128 ∧
  zlen (pending_dropped_by_epoch l) <= 128.
Proof.
  intros Hwf Hn Hrun. pose proof (reachable_ok _ _ _ _ Hwf Hn Hrun) as Hok.
  pose proof (input_run_size crc32c cs 0 _ _ l g ledger_new_ok Hwf ltac:(lia) ltac:(done) Hrun) as Hsz.
  destruct (lo_input _ _ _ Hok), (lo_vt _ _ _ Hok), (lo_retained _ _ _ Hok) as (_ & _ & ?).
  unfold INPUT_QUEUE_LIMIT, VT_REPLY_LIMIT, RETAINED_BYTES, RECENT_EPOCHS, MAX_UNWRITTEN_EPOCHS in *.
  split_and!; try lia. unfold pending_dropped_by_epoch, zlen. rewrite length_fmap.
  etrans; [apply Nat2Z.inj_le, length_filter_le|]. rewrite length_bt_iter. lia.
Qed.

(** When the write end dies, the queue empties and the report lists
    exactly the retained epochs with dropped bytes, each with the number of
    its accepted bytes that were never written. *)
Theorem dead_reports_dropped cs l g e k :
  Forall wf_call cs → zlen cs <= u64_max →
  input_run crc32c cs ledger_new log_empty = Some (l, g) →
  il_queue (on_dead l) = [] ∧
  ((e, k) ∈ pending_dropped_by_epoch (on_dead l) ↔
    is_Some (il_epochs l !! e) ∧ 0 < k ∧
    k = zlen (stream e (lg_accepted g)) - fate_count Written e (lg_settled g)).
Proof.
  intros Hwf Hn Hrun. pose proof (reachable_ok _ _ _ _ Hwf Hn Hrun) as Hok. split; [done|].
  unfold pending_dropped_by_epoch. rewrite list_elem_of_fmap.
  rewrite (accepted_split _ _ _ e Hok). split.
  - intros ([e' el] & [= -> ->] & Hin). apply list_elem_of_filter in Hin as [Hpos Hin].
    apply elem_of_bt_iter in Hin. cbn in *. rewrite (on_dead_lookup _ _ _ _ Hok) in Hin.
    apply fmap_Some in Hin as (el0 & Hel & ->). destruct (lo_entries _ _ _ Hok _ _ Hel) as (_ & _ & Hd & _).
    cbn in *. rewrite Hd in *. split_and!; [eauto|done|lia].
  - intros ([el Hel] & Hpos & ->). destruct (lo_entries _ _ _ Hok _ _ Hel) as (_ & _ & Hd & _).
    eexists (e, plus_dropped (zlen (stream e (pending (il_queue l)))) el).
    rewrite list_elem_of_filter, elem_of_bt_iter, (on_dead_lookup _ _ _ _ Hok), Hel.
    cbn [fst snd plus_dropped el_pending_dropped]. rewrite Hd. split; [f_equal; lia|]. by split; [lia|].
Qed.
End theorems.

(** ** Witnesses *)

Definition crc_const (_ : list byte) : Z := 0.
Definition demo_calls : list InputCall :=
  [CAcquire [x01]; CWrite [x01] 1 0 [x61; x62; x63] 0; CVtReply [x1b]; CWritten 2;
   CAcquire [x02]; CWrite [x02] 2 0 [x64] 0].

Lemma demo_calls_wf : Forall wf_call demo_calls.
Proof. repeat constructor; cbn; done. Qed.


Definition demo_end : option (InputLedger * Log) := input_run crc_const demo_calls ledger_new log_empty.
Definition demo_ledger : InputLedger := default ledger_new (fst <$> demo_end).
Definition demo_log : Log := default log_empty (snd <$> demo_end).

Lemma demo_run : input_run crc_const demo_calls ledger_new log_empty = Some (demo_ledger, demo_log).
Proof. by vm_compute. Qed.

(** A retransmission that overlaps the accepted byte and extends it. *)
Definition demo_write := write crc_const [x02] 2 0 [x64; x65] 0 demo_ledger.
Definition demo_written : InputLedger :=
  match demo_write with Some (l, _) => l | None => ledger_new end.

Lemma demo_write_ok : demo_write = Some (demo_written, Ok (mk_Ack [x02] 2 2 0)).
Proof. by vm_compute. Qed.

Lemma acked_write_in_stream_witness :
  take 2 (drop 0 (stream 2 (lg_accepted (log_step crc_const (CWrite [x02] 2 0 [x64; x65] 0)
    demo_ledger demo_log)))) = [x64; x65].
Proof.
  apply (acked_write_in_stream crc_const demo_calls demo_ledger demo_log [x02] 2 0 [x64; x65] 0
    demo_written (mk_Ack [x02] 2 2 0) demo_calls_wf ltac:(by vm_compute) demo_run ltac:(by vm_compute)
    demo_write_ok).
Defined.

Lemma write_retry_idempotent_witness :
  write crc_const [x02] 2 0 [x64; x65] 0 demo_written = Some (demo_written, Ok (mk_Ack [x02] 2 2 0)).
Proof.
  apply (write_retry_idempotent crc_const demo_calls demo_ledger demo_log [x02] 2 0 [x64; x65] 0
    demo_written (mk_Ack [x02] 2 2 0) demo_calls_wf ltac:(by vm_compute) demo_run ltac:(by vm_compute)
    demo_write_ok).
Defined.

Lemma acquire_displaces_witness :
  let l' := (acquire [x03] demo_ledger).1 in
  ∃ fa, write crc_const [x02] 2 1 [x65] 0 l' = Some (l', Err (WStaleLease 3 fa, None)).
Proof.
  refine (proj2 (acquire_displaces crc_const demo_calls demo_ledger demo_log [x03] [x02]
    (mk_Granted 3 (Some (2, 1, 0)) (Some (mk_Revoke [x02] 2 3))) 2 1 [x65] 0 demo_calls_wf
    _ demo_run _ (or_introl _))); [by vm_compute|by vm_compute|done].
Defined.

Lemma input_ledger_bounded_witness : zlen (pending_dropped_by_epoch demo_ledger) <= 128.
Proof.
  apply (input_ledger_bounded crc_const demo_calls demo_ledger demo_log demo_calls_wf
    ltac:(by vm_compute) demo_run).
Defined.

Lemma dead_reports_dropped_witness : (1, 1) ∈ pending_dropped_by_epoch (on_dead demo_ledger).
Proof.
  apply (dead_reports_dropped crc_const demo_calls demo_ledger demo_log 1 1 demo_calls_wf
    ltac:(by vm_compute) demo_run). vm_compute. split_and!; eauto.
Defined.

(** ** A dead ledger still accepts *)

Definition set_dead (b : bool) (l : InputLedger) : InputLedger :=
  mk_InputLedger (il_current l) (il_holder l) (il_epochs l) (il_retained l) (il_retained_start l) (il_queue l)
    (il_input_bytes l) (il_vt_bytes l) (il_vt_replies_dropped l) (il_revokees l) b (il_last_request l).

(** [write] does not look at [dead], which only [push_vt_reply] does: whether or
    not the write end of the terminal was declared dead, the same writes are
    accepted, acknowledged and queued, with the same changes to the ledger. *)
Theorem write_ignores_dead (crc32c : list byte → Z) b who e start bytes crc l :
  write crc32c who e start bytes crc (set_dead b l) =
  (λ p, (set_dead b p.1, p.2)) <$> write crc32c who e start bytes crc l.
Proof.
  unfold write, unfenced, active_epoch. cbn [set_dead il_current il_holder il_epochs].
  destruct (negb _); [done|]. destruct (_ <? _); [done|]. destruct (negb _); [done|].
  destruct (checked_add64 _ _) as [end_|]; [|done]. destruct (il_epochs l !! e) as [el|] eqn:Ee; [|done].
  cbn [mbind option_bind]. destruct (_ <? _); [done|].
  change (check_overlap e start (end_ `min` el_accepted el) (el_accepted el) (el_committed el) bytes (set_dead b l))
    with (check_overlap e start (end_ `min` el_accepted el) (el_accepted el) (el_committed el) bytes l).
  destruct (check_overlap _ _ _ _ _ _ _) as [[err|]|]; cbn [mbind option_bind]; [| |done].
  { unfold fence_current, set_revokees. cbn. by destruct (il_epochs l !! il_current l). }
  assert (accept_suffix e start end_ (el_accepted el) bytes (set_dead b l) =
    (λ p, (set_dead b p.1, p.2)) <$> accept_suffix e start end_ (el_accepted el) bytes l) as ->.
  { unfold accept_suffix. destruct (_ <? _); [|done]. destruct (range _ _ _); [|done]. cbn [mbind option_bind].
    cbn [set_dead il_input_bytes]. destruct (_ <? _); [done|].
    cbn [set_queue set_dead il_retained il_retained_start]. by destruct (trim_retained _ _). }
  destruct (accept_suffix _ _ _ _ _ l) as [[l1 [err|]]|]; cbn [mbind option_bind fmap option_fmap option_map fst snd]; [done| |done].
  cbn [set_dead il_epochs]. by destruct (il_epochs l1 !! e).
Qed.

(** What follows: the PTY writer holds the three bytes of the first chunk when
    the end is declared dead; the client's next chunk is acknowledged and queued,
    and the completion of the write in flight is then counted for it: two bytes
    that were never written are committed, and the three that were are reported
    dropped. *)
Definition dead_calls : list InputCall :=
  [CAcquire [x01]; CWrite [x01] 1 0 [x61; x62; x63] 0; CDead; CWrite [x01] 1 3 [x64; x65] 0; CWritten 3].

Example write_after_dead_miscounts :
  (λ p, (il_dead p.1, pending_dropped_by_epoch p.1, epoch_state 1 p.1)) <$>
    input_run crc_const dead_calls ledger_new log_empty
  = Some (true, [(1, 3)], Some (5, 2, 3, false)).
Proof. by vm_compute. Qed.
