(* ===== verification/PaneLease.v ===== *)
(** * Resize lease of a pane (crates/session-core/src/pane_lease.rs)

    The display client's side of the resize lease: a pane that is visible,
    focused and ready acquires the lease of its bound session, sends its size
    under it, and gives it back when it stops being eligible.  Each public
    method of [PaneLease] is an event; the requests it emits are appended to
    [out]. *)

From S2P Require Import Prelude Replica.
From Stdlib Require Import ZArith Lia.
From stdpp Require Import base gmap list option sorting.

#[local] Open Scope Z_scope.

Inductive PendingKind : Type := KAcquire | KReclaim | KProbe | KRelease.
#[global] Instance PendingKind_eq_dec : EqDecision PendingKind.
Proof. solve_decision. Defined.

Record Pending := mk_Pending {
  p_id : Z;
  p_kind : PendingKind;
  p_session : Z;
  p_generation : Z;
  p_requested_epoch : Z;
}.

Record Lease := mk_Lease {
  l_session : Z;
  l_generation : Z;
  l_epoch : Z;
}.

Inductive Out : Type :=
| OAcquire (id session : Z)
| OReclaim (id session epoch : Z)
| ORelease (id session epoch : Z)
| OResize (session epoch seq cols rows : Z).

Record Policy := mk_Policy {
  po_bound_session : option Z;
  po_generation : Z;
  po_visible_focused : bool;
  po_visible_applied_generation : option Z;
  po_gpu_ready : bool;
  po_tombstoned : bool;
}.

Record PaneLease := mk_PaneLease {
  pl_policy : Policy;
  pl_lease : option Lease;
  pl_needs_reclaim : bool;
  pl_needs_probe : bool;
  pl_pending : option Pending;
  pl_retry_timer : bool;
  pl_suppressed : bool;
  pl_suppressed_epoch : Z;
  pl_next_seq : Z;
  pl_latest_sent : option (Z * Z * Z);
  pl_pty_acked : option Z;
  pl_pty_desired : option (Z * Z);
  pl_disowned : gset Z;
  pl_next_request_id : Z;
  pl_out : list Out;
}.

(** Field assignment. *)
Definition with_policy (v : Policy) (s : PaneLease) : PaneLease :=
  mk_PaneLease v (pl_lease s) (pl_needs_reclaim s) (pl_needs_probe s) (pl_pending s)
    (pl_retry_timer s) (pl_suppressed s) (pl_suppressed_epoch s) (pl_next_seq s)
    (pl_latest_sent s) (pl_pty_acked s) (pl_pty_desired s) (pl_disowned s) (pl_next_request_id s)
    (pl_out s).
Definition with_lease (v : option Lease) (s : PaneLease) : PaneLease :=
  mk_PaneLease (pl_policy s) v (pl_needs_reclaim s) (pl_needs_probe s) (pl_pending s)
    (pl_retry_timer s) (pl_suppressed s) (pl_suppressed_epoch s) (pl_next_seq s)
    (pl_latest_sent s) (pl_pty_acked s) (pl_pty_desired s) (pl_disowned s) (pl_next_request_id s)
    (pl_out s).
Definition with_needs_reclaim (v : bool) (s : PaneLease) : PaneLease :=
  mk_PaneLease (pl_policy s) (pl_lease s) v (pl_needs_probe s) (pl_pending s) (pl_retry_timer s)
    (pl_suppressed s) (pl_suppressed_epoch s) (pl_next_seq s) (pl_latest_sent s) (pl_pty_acked s)
    (pl_pty_desired s) (pl_disowned s) (pl_next_request_id s) (pl_out s).
Definition with_needs_probe (v : bool) (s : PaneLease) : PaneLease :=
  mk_PaneLease (pl_policy s) (pl_lease s) (pl_needs_reclaim s) v (pl_pending s) (pl_retry_timer s)
    (pl_suppressed s) (pl_suppressed_epoch s) (pl_next_seq s) (pl_latest_sent s) (pl_pty_acked s)
    (pl_pty_desired s) (pl_disowned s) (pl_next_request_id s) (pl_out s).
Definition with_pending (v : option Pending) (s : PaneLease) : PaneLease :=
  mk_PaneLease (pl_policy s) (pl_lease s) (pl_needs_reclaim s) (pl_needs_probe s) v
    (pl_retry_timer s) (pl_suppressed s) (pl_suppressed_epoch s) (pl_next_seq s)
    (pl_latest_sent s) (pl_pty_acked s) (pl_pty_desired s) (pl_disowned s) (pl_next_request_id s)
    (pl_out s).
Definition with_retry_timer (v : bool) (s : PaneLease) : PaneLease :=
  mk_PaneLease (pl_policy s) (pl_lease s) (pl_needs_reclaim s) (pl_needs_probe s) (pl_pending s) v
    (pl_suppressed s) (pl_suppressed_epoch s) (pl_next_seq s) (pl_latest_sent s) (pl_pty_acked s)
    (pl_pty_desired s) (pl_disowned s) (pl_next_request_id s) (pl_out s).
Definition with_suppressed (v : bool) (s : PaneLease) : PaneLease :=
  mk_PaneLease (pl_policy s) (pl_lease s) (pl_needs_reclaim s) (pl_needs_probe s) (pl_pending s)
    (pl_retry_timer s) v (pl_suppressed_epoch s) (pl_next_seq s) (pl_latest_sent s)
    (pl_pty_acked s) (pl_pty_desired s) (pl_disowned s) (pl_next_request_id s) (pl_out s).
Definition with_suppressed_epoch (v : Z) (s : PaneLease) : PaneLease :=
  mk_PaneLease (pl_policy s) (pl_lease s) (pl_needs_reclaim s) (pl_needs_probe s) (pl_pending s)
    (pl_retry_timer s) (pl_suppressed s) v (pl_next_seq s) (pl_latest_sent s) (pl_pty_acked s)
    (pl_pty_desired s) (pl_disowned s) (pl_next_request_id s) (pl_out s).
Definition with_next_seq (v : Z) (s : PaneLease) : PaneLease :=
  mk_PaneLease (pl_policy s) (pl_lease s) (pl_needs_reclaim s) (pl_needs_probe s) (pl_pending s)
    (pl_retry_timer s) (pl_suppressed s) (pl_suppressed_epoch s) v (pl_latest_sent s)
    (pl_pty_acked s) (pl_pty_desired s) (pl_disowned s) (pl_next_request_id s) (pl_out s).
Definition with_latest_sent (v : option (Z * Z * Z)) (s : PaneLease) : PaneLease :=
  mk_PaneLease (pl_policy s) (pl_lease s) (pl_needs_reclaim s) (pl_needs_probe s) (pl_pending s)
    (pl_retry_timer s) (pl_suppressed s) (pl_suppressed_epoch s) (pl_next_seq s) v
    (pl_pty_acked s) (pl_pty_desired s) (pl_disowned s) (pl_next_request_id s) (pl_out s).
Definition with_pty_acked (v : option Z) (s : PaneLease) : PaneLease :=
  mk_PaneLease (pl_policy s) (pl_lease s) (pl_needs_reclaim s) (pl_needs_probe s) (pl_pending s)
    (pl_retry_timer s) (pl_suppressed s) (pl_suppressed_epoch s) (pl_next_seq s)
    (pl_latest_sent s) v (pl_pty_desired s) (pl_disowned s) (pl_next_request_id s) (pl_out s).
Definition with_pty_desired (v : option (Z * Z)) (s : PaneLease) : PaneLease :=
  mk_PaneLease (pl_policy s) (pl_lease s) (pl_needs_reclaim s) (pl_needs_probe s) (pl_pending s)
    (pl_retry_timer s) (pl_suppressed s) (pl_suppressed_epoch s) (pl_next_seq s)
    (pl_latest_sent s) (pl_pty_acked s) v (pl_disowned s) (pl_next_request_id s) (pl_out s).
Definition with_disowned (v : gset Z) (s : PaneLease) : PaneLease :=
  mk_PaneLease (pl_policy s) (pl_lease s) (pl_needs_reclaim s) (pl_needs_probe s) (pl_pending s)
    (pl_retry_timer s) (pl_suppressed s) (pl_suppressed_epoch s) (pl_next_seq s)
    (pl_latest_sent s) (pl_pty_acked s) (pl_pty_desired s) v (pl_next_request_id s) (pl_out s).
Definition with_next_request_id (v : Z) (s : PaneLease) : PaneLease :=
  mk_PaneLease (pl_policy s) (pl_lease s) (pl_needs_reclaim s) (pl_needs_probe s) (pl_pending s)
    (pl_retry_timer s) (pl_suppressed s) (pl_suppressed_epoch s) (pl_next_seq s)
    (pl_latest_sent s) (pl_pty_acked s) (pl_pty_desired s) (pl_disowned s) v (pl_out s).
Definition with_out (v : list Out) (s : PaneLease) : PaneLease :=
  mk_PaneLease (pl_policy s) (pl_lease s) (pl_needs_reclaim s) (pl_needs_probe s) (pl_pending s)
    (pl_retry_timer s) (pl_suppressed s) (pl_suppressed_epoch s) (pl_next_seq s)
    (pl_latest_sent s) (pl_pty_acked s) (pl_pty_desired s) (pl_disowned s) (pl_next_request_id s)
    v.

(** [PaneLease::default]. *)
Definition policy_default : Policy := mk_Policy None 0 false None false false.
Definition pane_new : PaneLease :=
  mk_PaneLease policy_default None false false None false false 0 0 None None None ∅ 0 [].

Definition push (o : Out) (s : PaneLease) : PaneLease := with_out (pl_out s ++ [o]) s.
Definition take_out (s : PaneLease) : PaneLease * list Out := (with_out [] s, pl_out s).

Definition eligible (s : PaneLease) : bool :=
  let p := pl_policy s in
  negb (po_tombstoned p) && bool_decide (is_Some (po_bound_session p)) && po_visible_focused p
  && po_gpu_ready p && negb (pl_suppressed s)
  && bool_decide (po_visible_applied_generation p = Some (po_generation p)).

Definition new_id (s : PaneLease) : PaneLease * Z :=
  let id := add64 (pl_next_request_id s) 1 in (with_next_request_id id s, id).

Definition invalidate (s : PaneLease) : PaneLease :=
  let s :=
    match pl_lease s, pl_pending s with
    | Some l, Some p =>
        if bool_decide (p_kind p = KReclaim) && (p_requested_epoch p =? l_epoch l)
        then with_pending None s else s
    | _, _ => s
    end in
  with_pty_acked None (with_latest_sent None (with_needs_reclaim false (with_lease None s))).

Definition suppress (epoch : Z) (s : PaneLease) : PaneLease :=
  with_suppressed_epoch epoch (with_suppressed true s).
Definition unsuppress (s : PaneLease) : PaneLease := with_needs_probe false (with_suppressed false s).

Definition insert_disowned (session : Z) (s : PaneLease) : PaneLease :=
  with_disowned ({[session]} ∪ pl_disowned s) s.
Definition remove_disowned (session : Z) (s : PaneLease) : PaneLease :=
  with_disowned (pl_disowned s ∖ {[session]}) s.

(** [self.pending.filter(|p| p.kind == PendingKind::Acquire)] *)
Definition pending_acquire (s : PaneLease) : option Pending :=
  p ← pl_pending s; if decide (p_kind p = KAcquire) then Some p else None.

Definition relinquish (s : PaneLease) : PaneLease :=
  let s :=
    match pl_lease s with
    | Some l =>
        let '(s, id) := new_id s in
        invalidate (insert_disowned (l_session l) (push (ORelease id (l_session l) (l_epoch l)) s))
    | None => s
    end in
  match pending_acquire s with
  | Some p => with_pending None (insert_disowned (p_session p) s)
  | None => s
  end.

Definition send (kind : PendingKind) (session generation requested_epoch : Z) (s : PaneLease) : PaneLease :=
  let '(s, id) := new_id s in
  let s := with_pending (Some (mk_Pending id kind session generation requested_epoch)) s in
  push (match kind with
        | KAcquire => OAcquire id session
        | KReclaim | KProbe => OReclaim id session requested_epoch
        | KRelease => ORelease id session 0
        end) s.

Definition reevaluate (s : PaneLease) : PaneLease :=
  let s := if negb (eligible s) && bool_decide (is_Some (pl_lease s)) then relinquish s else s in
  if bool_decide (is_Some (pl_pending s)) || pl_retry_timer s then s else
  let generation := po_generation (pl_policy s) in
  match pl_lease s, pl_needs_reclaim s with
  | Some l, true => send KReclaim (l_session l) (l_generation l) (l_epoch l) s
  | lease, _ =>
      match lease, pl_suppressed s, pl_needs_probe s, po_bound_session (pl_policy s) with
      | None, true, true, Some session => send KProbe session generation (pl_suppressed_epoch s) s
      | _, _, _, bound =>
          if eligible s && bool_decide (lease = None)
          then match bound with Some b => send KAcquire b generation 0 s | None => s end
          else match bs_first (pl_disowned s) with
          | Some session => send KRelease session generation 0 s
          | None => s
          end
      end
  end.

Definition pty_sync (s : PaneLease) : PaneLease :=
  match pl_lease s, pl_pty_desired s with
  | Some l, Some (cols, rows) =>
      if pl_needs_reclaim s || negb (eligible s)
         || negb (l_generation l =? po_generation (pl_policy s)) then s
      else if match pl_latest_sent s with Some (_, c, r) => (c =? cols) && (r =? rows) | None => false end
      then s
      else
        let seq := add64 (pl_next_seq s) 1 in
        let s := with_latest_sent (Some (seq, cols, rows)) (with_next_seq seq s) in
        push (OResize (l_session l) (l_epoch l) seq cols rows) s
  | _, _ => s
  end.

Definition set_policy (p : Policy) (user_intent : bool) (s : PaneLease) : PaneLease :=
  let rebound := bool_decide (po_bound_session p ≠ po_bound_session (pl_policy s))
                 || negb (po_generation p =? po_generation (pl_policy s)) in
  let s := with_policy p s in
  let s := if user_intent then unsuppress s else s in
  let s := if rebound then relinquish s else s in
  reevaluate s.

Definition visible_applied (p : Policy) : Policy :=
  mk_Policy (po_bound_session p) (po_generation p) (po_visible_focused p)
    (Some (po_generation p)) (po_gpu_ready p) (po_tombstoned p).

Definition on_visible_applied (cols rows : Z) (s : PaneLease) : PaneLease :=
  let s := with_policy (visible_applied (pl_policy s)) s in
  let s := with_pty_desired (Some (normalize_size cols rows)) s in
  reevaluate (pty_sync s).

Definition on_retry_timer (s : PaneLease) : PaneLease := reevaluate (with_retry_timer false s).

(** [self.pending.filter(|p| p.id == id)] *)
Definition pending_id (id : Z) (s : PaneLease) : option Pending :=
  p ← pl_pending s; if decide (p_id p = id) then Some p else None.

Definition on_request_failed (id : Z) (s : PaneLease) : PaneLease :=
  let s :=
    match pending_id id s with
    | Some p =>
        let s := if bool_decide (p_kind p = KAcquire) then insert_disowned (p_session p) s else s in
        with_retry_timer true (with_pending None s)
    | None => s
    end in
  reevaluate s.

(** [self.lease.is_some_and(|l| l.session == session)] *)
Definition leases (session : Z) (s : PaneLease) : bool :=
  match pl_lease s with Some l => l_session l =? session | None => false end.
(** [self.lease.is_some_and(|l| l.session == session && l.epoch == epoch)] *)
Definition leases_at (session epoch : Z) (s : PaneLease) : bool :=
  match pl_lease s with Some l => (l_session l =? session) && (l_epoch l =? epoch) | None => false end.

Definition release_grant (session epoch : Z) (s : PaneLease) : PaneLease :=
  let '(s, id) := new_id s in
  let s := push (ORelease id session epoch) s in
  if negb (leases session s) then insert_disowned session s else s.

Definition on_released (id : Z) (s : PaneLease) : PaneLease :=
  let s :=
    match pending_id id s with
    | Some p =>
        if bool_decide (p_kind p = KRelease) then remove_disowned (p_session p) (with_pending None s) else s
    | None => s
    end in
  reevaluate s.

Definition on_reconnect (s : PaneLease) : PaneLease :=
  let s := match pending_acquire s with Some p => insert_disowned (p_session p) s | None => s end in
  let s := with_retry_timer false (with_pending None s) in
  let s := if bool_decide (is_Some (pl_lease s)) then with_needs_reclaim true s else s in
  let s := if pl_suppressed s then with_needs_probe true s else s in
  reevaluate s.

Definition on_granted (id session epoch applied_seq : Z) (s : PaneLease) : PaneLease :=
  let s :=
    match pending_acquire s with
    | Some p =>
        if p_id p =? id then
          let s := with_pending None s in
          if (p_session p =? session) && bool_decide (po_bound_session (pl_policy s) = Some (p_session p))
             && (po_generation (pl_policy s) =? p_generation p) && eligible s
          then
            let s := with_lease (Some (mk_Lease session (p_generation p) epoch)) s in
            let s := unsuppress (with_needs_reclaim false (remove_disowned session s)) in
            pty_sync (with_pty_acked None (with_latest_sent None (with_next_seq applied_seq s)))
          else release_grant session epoch s
        else release_grant session epoch s
    | None => release_grant session epoch s
    end in
  reevaluate s.

Definition on_reclaim_result (id : Z) (ok : bool) (current_epoch applied_seq : Z) (s : PaneLease) : PaneLease :=
  match pending_id id s with
  | Some p =>
      if bool_decide (p_kind p = KReclaim ∨ p_kind p = KProbe) then
        let s := with_pending None s in
        let s :=
          if bool_decide (p_kind p = KProbe) then
            let s := with_needs_probe false s in
            if current_epoch =? 0 then unsuppress s else s
          else
            match pl_lease s with
            | Some l =>
                if (l_epoch l =? p_requested_epoch p) && (l_generation l =? p_generation p)
                   && (l_session l =? p_session p) then
                  if ok && (current_epoch =? l_epoch l) then
                    let s := with_next_seq (Z.max (pl_next_seq s) applied_seq) (with_needs_reclaim false s) in
                    pty_sync (with_latest_sent None s)
                  else
                    let s := invalidate s in
                    if negb (current_epoch =? 0) then suppress (p_requested_epoch p) s else s
                else s
            | None => s
            end in
        reevaluate s
      else reevaluate s
  | None => reevaluate s
  end.

Definition on_revoked (session revoked_epoch new_epoch : Z) (s : PaneLease) : PaneLease :=
  let s :=
    if leases_at session revoked_epoch s then
      let s := invalidate s in
      if negb (new_epoch =? 0) then suppress revoked_epoch s else s
    else s in
  reevaluate s.

Definition on_vacated (s : PaneLease) : PaneLease := reevaluate (unsuppress s).

Definition on_resize_ack (session epoch seq : Z) (s : PaneLease) : PaneLease :=
  let s :=
    if leases_at session epoch s && match pl_pty_acked s with Some a => a <? seq | None => true end
    then with_pty_acked (Some seq) s else s in
  reevaluate (pty_sync s).

Definition on_stale_resize (applied_epoch applied_seq : Z) (s : PaneLease) : PaneLease :=
  let s :=
    if match pl_lease s with Some l => l_epoch l =? applied_epoch | None => false end
    then pty_sync (with_latest_sent None (with_next_seq (Z.max (pl_next_seq s) applied_seq) s))
    else s in
  reevaluate s.

Definition on_stale_lease (session epoch current_epoch : Z) (s : PaneLease) : PaneLease :=
  let s :=
    if leases_at session epoch s then
      let s := invalidate s in
      if negb (current_epoch =? 0) then suppress epoch s else s
    else s in
  reevaluate s.

Definition on_unacked_timeout (s : PaneLease) : PaneLease :=
  let s :=
    if match pl_latest_sent s with
       | Some (q, _, _) => match pl_pty_acked s with Some a => a <? q | None => true end
       | None => false
       end
    then pty_sync (with_latest_sent None s) else s in
  reevaluate s.

(** ** Events and runs *)

Inductive Event : Type :=
| ESetPolicy (p : Policy) (user_intent : bool)
| EVisibleApplied (cols rows : Z)
| ERetryTimer
| ERequestFailed (id : Z)
| EReleased (id : Z)
| EReconnect
| EGranted (id session epoch applied_seq : Z)
| EReclaimResult (id : Z) (ok : bool) (current_epoch applied_seq : Z)
| ERevoked (session revoked_epoch new_epoch : Z)
| EVacated
| EResizeAck (session epoch seq : Z)
| EStaleResize (applied_epoch applied_seq : Z)
| EStaleLease (session epoch current_epoch : Z)
| EUnackedTimeout.

Definition pane_step (e : Event) (s : PaneLease) : PaneLease :=
  match e with
  | ESetPolicy p u => set_policy p u s
  | EVisibleApplied c r => on_visible_applied c r s
  | ERetryTimer => on_retry_timer s
  | ERequestFailed id => on_request_failed id s
  | EReleased id => on_released id s
  | EReconnect => on_reconnect s
  | EGranted id se ep sq => on_granted id se ep sq s
  | EReclaimResult id ok ce sq => on_reclaim_result id ok ce sq s
  | ERevoked se re ne => on_revoked se re ne s
  | EVacated => on_vacated s
  | EResizeAck se ep sq => on_resize_ack se ep sq s
  | EStaleResize ep sq => on_stale_resize ep sq s
  | EStaleLease se ep ce => on_stale_lease se ep ce s
  | EUnackedTimeout => on_unacked_timeout s
  end.

Definition pane_run (es : list Event) (s : PaneLease) : PaneLease := foldl (λ s e, pane_step e s) s es.

(** ** Invariants *)

(** The desired size has been sent under the lease. *)
Definition synced (s : PaneLease) : Prop :=
  pl_needs_reclaim s = false → ∀ c r, pl_pty_desired s = Some (c, r) →
  ∃ q, pl_latest_sent s = Some (q, c, r).

(** Holds between the steps of an event. *)
Record pane_pre (s : PaneLease) : Prop := {
  pp_lease : ∀ l, pl_lease s = Some l →
    (l_session l ∉ pl_disowned s) ∧ po_bound_session (pl_policy s) = Some (l_session l) ∧
    l_generation l = po_generation (pl_policy s) ∧ synced s;
  pp_pending : ∀ l p, pl_lease s = Some l → pl_pending s = Some p →
    p_kind p ≠ KAcquire ∧ (p_kind p = KRelease → p_session p ≠ l_session l);
}.

(** Nothing to do is left undone. *)
Definition idle (s : PaneLease) : Prop :=
  pl_pending s = None → pl_retry_timer s = false →
  (∀ l, pl_lease s = Some l → pl_needs_reclaim s = false) ∧
  (pl_lease s = None → eligible s = false) ∧
  (pl_lease s = None → pl_suppressed s = true → pl_needs_probe s = true →
     po_bound_session (pl_policy s) = None) ∧
  pl_disowned s = ∅.

(** Holds after every event. *)
Definition pane_inv (s : PaneLease) : Prop :=
  pane_pre s ∧ (∀ l, pl_lease s = Some l → eligible s = true) ∧ idle s.

(** ** Lemmas *)

Lemma pre_no_lease s : pl_lease s = None → pane_pre s.
Proof. intros H. split; intros; congruence. Qed.

Lemma invalidate_no_lease s : pl_lease (invalidate s) = None.
Proof. done. Qed.

Lemma relinquish_no_lease s : pl_lease (relinquish s) = None.
Proof.
  unfold relinquish. destruct (pl_lease s) eqn:E; cbn [new_id].
  - by destruct (pending_acquire _).
  - by destruct (pending_acquire s).
Qed.

Lemma eligible_bound s : eligible s = true → is_Some (po_bound_session (pl_policy s)).
Proof. unfold eligible. intros. bool_hyps. done. Qed.

Lemma send_pre k se ge ep s :
  pane_pre s →
  (k = KAcquire → pl_lease s = None) →
  (k = KRelease → ∀ l, pl_lease s = Some l → se ≠ l_session l) →
  pane_pre (send k se ge ep s).
Proof.
  intros [Hl _] Ha Hr. split; [exact Hl|]. cbn. intros l p Hls [= <-]. cbn.
  split; [intros ->; by rewrite Ha in Hls|]. intros ->. by eapply Hr.
Qed.

Lemma send_pending k se ge ep s : is_Some (pl_pending (send k se ge ep s)).
Proof. by eexists. Qed.

Lemma send_eligible k se ge ep s : eligible (send k se ge ep s) = eligible s.
Proof. done. Qed.

Lemma send_inv k se ge ep s :
  pane_pre s → (∀ l, pl_lease s = Some l → eligible s = true) →
  (k = KAcquire → pl_lease s = None) →
  (k = KRelease → ∀ l, pl_lease s = Some l → se ≠ l_session l) →
  pane_inv (send k se ge ep s).
Proof. intros Hp He Ha Hr. split; [by apply send_pre|]. split; [exact He|]. by intros H. Qed.

Lemma reevaluate_inv s : pane_pre s → pane_inv (reevaluate s).
Proof.
  intros Hpre. unfold reevaluate.
  set (s1 := if negb (eligible s) && bool_decide (is_Some (pl_lease s)) then relinquish s else s).
  assert (pane_pre s1 ∧ ∀ l, pl_lease s1 = Some l → eligible s1 = true) as [Hp He].
  { subst s1. destruct (eligible s) eqn:E; cbn [negb andb]; [done|].
    case_bool_decide as Hl.
    - rewrite relinquish_no_lease. split; [apply pre_no_lease, relinquish_no_lease|done].
    - split; [done|]. intros l El. exfalso. apply Hl. by eexists. }
  clearbody s1. clear Hpre.
  destruct (bool_decide (is_Some (pl_pending s1)) || pl_retry_timer s1) eqn:Ew.
  { split; [done|]. split; [done|]. intros H1 H2. rewrite H1, H2 in Ew. done. }
  bool_hyps. assert (pl_pending s1 = None) as Hpn by (by apply eq_None_not_Some).
  destruct (pl_lease s1) as [l|] eqn:El.
  - rewrite andb_false_r. destruct (pl_needs_reclaim s1) eqn:Er.
    + apply send_inv; [done| |done|done]. rewrite El. eauto.
    + destruct (bs_first (pl_disowned s1)) as [se|] eqn:Ef.
      * apply send_inv; [done| |done|]; rewrite El; [eauto|].
        intros _ l' [= <-] ->. apply bs_first_Some in Ef. by destruct (pp_lease _ Hp l El).
      * apply bs_first_None in Ef. split; [done|]. rewrite El. split; [eauto|].
        intros _ _. rewrite El. split_and!; try done.
  - assert (∀ se, pane_inv (send KProbe se (po_generation (pl_policy s1)) (pl_suppressed_epoch s1) s1)) as Hprobe.
    { intros se. apply send_inv; [done| |done|done]. by rewrite El. }
    assert (pane_inv (if eligible s1 && bool_decide (@None Lease = None)
      then match po_bound_session (pl_policy s1) with
           | Some b => send KAcquire b (po_generation (pl_policy s1)) 0 s1 | None => s1 end
      else match bs_first (pl_disowned s1) with
           | Some session => send KRelease session (po_generation (pl_policy s1)) 0 s1 | None => s1 end)
      ∨ (pl_suppressed s1 = true ∧ pl_needs_probe s1 = true ∧ is_Some (po_bound_session (pl_policy s1)))) as Hacq.
    { rewrite bool_decide_true, andb_true_r by done. destruct (eligible s1) eqn:Ee.
      - destruct (eligible_bound s1 Ee) as [b Hb]. rewrite Hb. left.
        apply send_inv; [done| |done|done]. by rewrite El.
      - destruct (bs_first (pl_disowned s1)) as [se|] eqn:Ef.
        + left. apply send_inv; [done| |done|]; by rewrite El.
        + apply bs_first_None in Ef.
          destruct (pl_suppressed s1) eqn:E1, (pl_needs_probe s1) eqn:E2,
            (po_bound_session (pl_policy s1)) eqn:E3; try (right; by eauto); left;
          (split; [done|]; rewrite El; split; [done|]; intros _ _;
           rewrite El, ?E1, ?E2, ?E3; split_and!; done). }
    destruct (pl_suppressed s1), (pl_needs_probe s1), (po_bound_session (pl_policy s1)) eqn:Eb; auto;
      destruct Hacq as [?|(? & ? & [? ?])]; done.
Qed.

(** [pty_sync] brings an eligible lease up to the desired size. *)
Lemma pty_sync_pre s :
  (∀ l, pl_lease s = Some l →
    (l_session l ∉ pl_disowned s) ∧ po_bound_session (pl_policy s) = Some (l_session l) ∧
    l_generation l = po_generation (pl_policy s) ∧ eligible s = true) →
  (∀ l p, pl_lease s = Some l → pl_pending s = Some p →
    p_kind p ≠ KAcquire ∧ (p_kind p = KRelease → p_session p ≠ l_session l)) →
  pane_pre (pty_sync s).
Proof.
  intros Hl Hp. unfold pty_sync. destruct (pl_lease s) as [l|] eqn:El; [|by apply pre_no_lease].
  destruct (Hl l eq_refl) as (Hd & Hb & Hg & He). rewrite He, Hg, Z.eqb_refl.
  assert (synced s → pane_pre s) as Hsync.
  { intros Hs. split; rewrite El; [|done]. intros l' [= <-]. done. }
  destruct (pl_pty_desired s) as [[c r]|] eqn:Ed; [|apply Hsync; intros _ ?; congruence].
  destruct (pl_needs_reclaim s) eqn:Er; cbn [orb negb]; [apply Hsync; intros ?; congruence|].
  destruct (pl_latest_sent s) as [[[q c'] r']|] eqn:Es.
  - case_match eqn:Ec.
    + bool_hyps. apply Hsync. intros _ c0 r0 Hd0. exists q. rewrite Hd0 in Ed. simplify_eq.
      rewrite Es. do 3 f_equal; lia.
    + split; cbn; rewrite El; [|done]. intros l' [= <-]. split_and!; try done.
      intros _ c0 r0 Hd0. cbn in *. rewrite Ed in Hd0. simplify_eq. eauto.
  - split; cbn; rewrite El; [|done]. intros l' [= <-]. split_and!; try done.
    intros _ c0 r0 Hd0. cbn in *. rewrite Ed in Hd0. simplify_eq. eauto.
Qed.

(** The facts about a lease that a following [pty_sync] needs. *)
Lemma inv_lease_facts s :
  pane_inv s → ∀ l, pl_lease s = Some l →
    (l_session l ∉ pl_disowned s) ∧ po_bound_session (pl_policy s) = Some (l_session l) ∧
    l_generation l = po_generation (pl_policy s) ∧ eligible s = true.
Proof. intros (Hp & He & _) l El. destruct (pp_lease _ Hp l El) as (? & ? & ? & _). eauto. Qed.

Lemma pending_acquire_Some s p :
  pending_acquire s = Some p ↔ pl_pending s = Some p ∧ p_kind p = KAcquire.
Proof. unfold pending_acquire. destruct (pl_pending s); cbn; [case_decide|]; naive_solver. Qed.

Lemma pending_id_Some id s p : pending_id id s = Some p ↔ pl_pending s = Some p ∧ p_id p = id.
Proof. unfold pending_id. destruct (pl_pending s); cbn; [case_decide|]; naive_solver. Qed.

(** While an acquire is pending there is no lease. *)
Lemma pending_acquire_no_lease s p :
  pane_pre s → pl_pending s = Some p → p_kind p = KAcquire → pl_lease s = None.
Proof.
  intros Hp Hs Hk. destruct (pl_lease s) as [l|] eqn:El; [|done].
  by destruct (pp_pending _ Hp l p El Hs).
Qed.

Lemma release_grant_pre se ep s : pane_pre s → pane_pre (release_grant se ep s).
Proof.
  intros [Hl Hp]. unfold release_grant, leases. cbn [new_id push with_out pl_lease with_next_request_id].
  destruct (pl_lease s) as [l|] eqn:El; [|by apply pre_no_lease].
  destruct (Hl l eq_refl) as (Hd & ? & ? & ?).
  destruct (l_session l =? se) eqn:Ese; cbn [negb]; split; cbn; rewrite El; try done;
    intros l' [= <-]; split_and!; try done. set_solver by lia.
Qed.

Ltac pane_simpl := cbn [with_policy with_lease with_needs_reclaim with_needs_probe with_pending
  with_retry_timer with_suppressed with_suppressed_epoch with_next_seq with_latest_sent with_pty_acked
  with_pty_desired with_disowned with_next_request_id with_out insert_disowned remove_disowned
  unsuppress suppress
  pl_policy pl_lease pl_needs_reclaim pl_needs_probe pl_pending pl_retry_timer pl_suppressed
  pl_suppressed_epoch pl_next_seq pl_latest_sent pl_pty_acked pl_pty_desired pl_disowned
  pl_next_request_id pl_out].

(** A change of fields the invariant does not read, or that weakens it. *)
Lemma pre_weaken s s' :
  pane_pre s → pl_lease s' = pl_lease s → pl_policy s' = pl_policy s →
  pl_disowned s' ⊆ pl_disowned s → (pl_pending s' = pl_pending s ∨ pl_pending s' = None) →
  (synced s → synced s') → pane_pre s'.
Proof.
  intros [Hl Hp] El Epo Ed Epe Hs. split.
  - intros l. rewrite El, Epo. intros H. destruct (Hl l H) as (? & ? & ? & ?). split_and!; auto.
  - intros l p. rewrite El. destruct Epe as [->| ->]; [apply Hp|done].
Qed.

Lemma set_policy_inv p u s : pane_inv s → pane_inv (set_policy p u s).
Proof.
  intros (Hp & He & _). apply reevaluate_inv.
  destruct (bool_decide _ || _) eqn:Er.
  { apply pre_no_lease, relinquish_no_lease. }
  bool_hyps. apply dec_stable in H.
  assert (pane_pre (with_policy p s)) as Hw.
  { destruct Hp as [Hl Hpe]. split; [|exact Hpe]. cbn. intros l El.
    destruct (Hl l El) as (? & ? & ? & ?). split_and!; [done|congruence|lia|done]. }
  destruct u; [|done]. apply (pre_weaken (with_policy p s)); auto.
Qed.

Lemma visible_applied_inv c r s : pane_inv s → pane_inv (on_visible_applied c r s).
Proof.
  intros Hinv. apply reevaluate_inv, pty_sync_pre.
  - cbn. intros l El. destruct (inv_lease_facts s Hinv l El) as (? & ? & ? & He). split_and!; try done.
    unfold eligible in *. bool_hyps. cbn. rewrite bool_decide_true by done.
    rewrite !andb_true_r, !andb_true_iff, !negb_true_iff, bool_decide_eq_true. done.
  - apply (pp_pending _ (proj1 Hinv)).
Qed.

Lemma request_failed_inv id s : pane_inv s → pane_inv (on_request_failed id s).
Proof.
  intros (Hp & _). apply reevaluate_inv. destruct (pending_id id s) as [p|] eqn:Ep; [|done].
  apply pending_id_Some in Ep as [Ep _]. case_bool_decide as Hk.
  - apply pre_no_lease. exact (pending_acquire_no_lease s p Hp Ep Hk).
  - apply (pre_weaken s); auto.
Qed.

Lemma pane_released_inv id s : pane_inv s → pane_inv (on_released id s).
Proof.
  intros (Hp & _). apply reevaluate_inv. destruct (pending_id id s) as [p|]; [|done].
  case_match; [|done]. apply (pre_weaken s); auto. cbn. set_solver.
Qed.

Lemma reconnect_inv s : pane_inv s → pane_inv (on_reconnect s).
Proof.
  intros (Hp & _). apply reevaluate_inv.
  assert (pane_pre (with_retry_timer false (with_pending None
    (match pending_acquire s with Some p => insert_disowned (p_session p) s | None => s end)))) as H1.
  { destruct (pending_acquire s) as [p|] eqn:Ea.
    - apply pending_acquire_Some in Ea as [Ep Hk]. apply pre_no_lease. exact (pending_acquire_no_lease s p Hp Ep Hk).
    - apply (pre_weaken s); auto. }
  set (s1 := with_retry_timer _ _) in *. clearbody s1.
  assert (pane_pre (if bool_decide (is_Some (pl_lease s1)) then with_needs_reclaim true s1 else s1)) as H2.
  { case_bool_decide; [|done]. apply (pre_weaken s1); auto. by intros _ [=]. }
  set (s2 := if bool_decide (is_Some (pl_lease s1)) then with_needs_reclaim true s1 else s1) in *.
  clearbody s2. case_match; [|done]. apply (pre_weaken s2); auto.
Qed.

Lemma granted_inv id se ep sq s : pane_inv s → pane_inv (on_granted id se ep sq s).
Proof.
  intros Hinv. pose proof Hinv as (Hp & _). apply reevaluate_inv.
  destruct (pending_acquire s) as [p|] eqn:Ea; [|by apply release_grant_pre].
  apply pending_acquire_Some in Ea as [Ep Hk]. destruct (p_id p =? id); [|by apply release_grant_pre].
  pose proof (pending_acquire_no_lease s p Hp Ep Hk) as Hnl.
  cbv zeta. destruct (_ && _ && _ && eligible _) eqn:Eg; [|by apply release_grant_pre, pre_no_lease].
  bool_hyps. apply pty_sync_pre; pane_simpl; [|done].
  intros l [= <-]. cbn in *. split_and!; [set_solver|rewrite H2; f_equal; lia|lia|].
  unfold eligible in *. cbn in *. bool_hyps.
  rewrite !andb_true_iff, !negb_true_iff, !bool_decide_eq_true. done.
Qed.

Lemma invalidate_suppress_pre b ep s : pane_pre (if negb b then suppress ep (invalidate s) else invalidate s).
Proof. apply pre_no_lease. by destruct b. Qed.

Lemma reclaim_result_inv id ok ce sq s : pane_inv s → pane_inv (on_reclaim_result id ok ce sq s).
Proof.
  intros Hinv. pose proof Hinv as (Hp & _). unfold on_reclaim_result.
  destruct (pending_id id s) as [p|] eqn:Ep; [|by apply reevaluate_inv].
  apply pending_id_Some in Ep as [Ep _].
  case_bool_decide as Hk; [|by apply reevaluate_inv]. apply reevaluate_inv. case_bool_decide.
  { destruct (ce =? 0); apply (pre_weaken s); auto. }
  change (pl_lease (with_pending None s)) with (pl_lease s).
  destruct (pl_lease s) as [l|] eqn:El; [|by apply pre_no_lease].
  destruct ((l_epoch l =? _) && _ && _); [|apply (pre_weaken s); auto].
  destruct (ok && _); [|apply invalidate_suppress_pre].
  apply pty_sync_pre; pane_simpl; [|done]. apply (inv_lease_facts s Hinv).
Qed.

Lemma pane_step_inv e s : pane_inv s → pane_inv (pane_step e s).
Proof.
  intros Hinv. pose proof Hinv as (Hp & _).
  destruct e; cbn [pane_step]; auto using set_policy_inv, visible_applied_inv, request_failed_inv,
    pane_released_inv, reconnect_inv, granted_inv, reclaim_result_inv; apply reevaluate_inv.
  - by apply (pre_weaken s); auto.
  - case_match; [apply invalidate_suppress_pre|done].
  - by apply (pre_weaken s); auto.
  - assert (∀ v, pane_pre (pty_sync (with_pty_acked v s))) as Hv.
    { intros v. apply pty_sync_pre; [apply (inv_lease_facts s Hinv)|apply (pp_pending _ Hp)]. }
    case_match; [apply Hv|]. apply pty_sync_pre; [apply (inv_lease_facts s Hinv)|apply (pp_pending _ Hp)].
  - case_match; [|done]. apply pty_sync_pre; [apply (inv_lease_facts s Hinv)|apply (pp_pending _ Hp)].
  - case_match; [apply invalidate_suppress_pre|done].
  - case_match; [|done]. apply pty_sync_pre; [apply (inv_lease_facts s Hinv)|apply (pp_pending _ Hp)].
Qed.

Lemma pane_new_inv : pane_inv pane_new.
Proof. split; [by apply pre_no_lease|]. split; [done|]. intros _ _. done. Qed.

Lemma pane_run_inv es s : pane_inv s → pane_inv (pane_run es s).
Proof. revert s. induction es as [|e es IH]; intros s Hs; [done|]. apply IH, pane_step_inv, Hs. Qed.

(** ** Lemmas: emitted requests *)

Definition resize_seq (o : Out) : option Z :=
  match o with OResize _ _ seq _ _ => Some seq | _ => None end.
Definition out_id (o : Out) : option Z :=
  match o with OAcquire id _ | OReclaim id _ _ | ORelease id _ _ => Some id | OResize _ _ _ _ _ => None end.
Definition seqs (o : list Out) : list Z := omap resize_seq o.

(** [s'] follows [s] with requests emitted, none of them a resize, and without
    a new lease or a new size sent. *)
Definition sent_moves (s s' : PaneLease) : Prop :=
  pl_latest_sent s' = None ∨ pl_lease s' = None ∨
  (pl_latest_sent s' = pl_latest_sent s ∧ pl_lease s' = pl_lease s).
Definition quiet (s s' : PaneLease) : Prop :=
  (∃ new, pl_out s' = pl_out s ++ new ∧ seqs new = []) ∧ sent_moves s s'.

#[global] Instance quiet_preorder : PreOrder quiet.
Proof.
  split.
  - intros s. split; [|by right; right]. exists []. by rewrite app_nil_r.
  - intros s1 s2 s3 [(n1 & E1 & Q1) M1] [(n2 & E2 & Q2) M2]. split.
    + exists (n1 ++ n2). unfold seqs in *. by rewrite E2, E1, <- app_assoc, omap_app, Q1, Q2.
    + unfold sent_moves in *. intuition congruence.
Qed.

Lemma quiet_same s s' : pl_out s' = pl_out s → sent_moves s s' → quiet s s'.
Proof. intros E M. split; [|done]. exists []. by rewrite E, app_nil_r. Qed.

Lemma quiet_push o s s' :
  pl_out s' = pl_out s ++ [o] → resize_seq o = None → sent_moves s s' → quiet s s'.
Proof. intros E Ho M. split; [|done]. exists [o]. split; [done|]. unfold seqs. cbn. by rewrite Ho. Qed.

Ltac solve_quiet :=
  first [done | apply quiet_same; [done|unfold sent_moves; cbn; tauto]].

Lemma invalidate_out s : pl_out (invalidate s) = pl_out s.
Proof. unfold invalidate. destruct (pl_lease s), (pl_pending s); try case_match; done. Qed.

Lemma invalidate_seq s : pl_next_seq (invalidate s) = pl_next_seq s.
Proof. unfold invalidate. destruct (pl_lease s), (pl_pending s); try case_match; done. Qed.

Lemma relinquish_quiet s : quiet s (relinquish s) ∧ pl_next_seq (relinquish s) = pl_next_seq s.
Proof.
  unfold relinquish. destruct (pl_lease s) as [l|]; cbn [new_id].
  - set (s1 := insert_disowned _ _).
    assert (quiet s (invalidate s1) ∧ pl_next_seq (invalidate s1) = pl_next_seq s) as [Hq Hs].
    { rewrite invalidate_seq. split; [|done]. eapply quiet_push; [by rewrite invalidate_out|done|by left]. }
    destruct (pending_acquire _); [|done]. split; [|done]. etrans; [exact Hq|]. solve_quiet.
  - destruct (pending_acquire _); split; try done; solve_quiet.
Qed.

Lemma send_quiet k se ge ep s : quiet s (send k se ge ep s).
Proof. eapply quiet_push; [done|by destruct k|by right; right]. Qed.

(** [reevaluate] emits no resize and keeps an eligible lease as it is. *)
Definition keeps (s s' : PaneLease) : Prop :=
  pl_lease s' = pl_lease s ∧ pl_pty_desired s' = pl_pty_desired s ∧
  pl_latest_sent s' = pl_latest_sent s ∧ eligible s' = eligible s.

Lemma reevaluate_quiet s :
  quiet s (reevaluate s) ∧ pl_next_seq (reevaluate s) = pl_next_seq s ∧
  (eligible s = true → keeps s (reevaluate s)).
Proof.
  assert (∀ k se ge ep s0, quiet s0 (send k se ge ep s0) ∧
    pl_next_seq (send k se ge ep s0) = pl_next_seq s0 ∧ keeps s0 (send k se ge ep s0)) as Hsend.
  { intros. split; [apply send_quiet|]. split; done. }
  unfold reevaluate.
  set (s1 := if negb (eligible s) && bool_decide (is_Some (pl_lease s)) then relinquish s else s).
  assert (quiet s s1 ∧ pl_next_seq s1 = pl_next_seq s ∧ (eligible s = true → s1 = s)) as (Hq & Hs & He).
  { subst s1. destruct (eligible s); cbn [negb andb]; [done|].
    case_bool_decide; [|done]. destruct (relinquish_quiet s). done. }
  clearbody s1.
  assert (∀ s2, quiet s1 s2 ∧ pl_next_seq s2 = pl_next_seq s1 ∧ keeps s1 s2 →
    quiet s s2 ∧ pl_next_seq s2 = pl_next_seq s ∧ (eligible s = true → keeps s s2)) as Hfin.
  { intros s2 (H1 & H2 & H3). split; [by etrans|]. split; [congruence|]. intros E. by rewrite <- (He E). }
  assert (quiet s1 s1 ∧ pl_next_seq s1 = pl_next_seq s1 ∧ keeps s1 s1) as Hid by done.
  repeat case_match; apply Hfin; auto.
Qed.

Lemma pty_sync_spec s :
  pty_sync s = s ∨
  ∃ l c r, let seq := add64 (pl_next_seq s) 1 in
    pl_lease s = Some l ∧ pl_pty_desired s = Some (c, r) ∧ eligible s = true ∧
    pl_needs_reclaim s = false ∧ l_generation l = po_generation (pl_policy s) ∧
    pty_sync s = push (OResize (l_session l) (l_epoch l) seq c r)
      (with_latest_sent (Some (seq, c, r)) (with_next_seq seq s)).
Proof.
  unfold pty_sync. destruct (pl_lease s) as [l|] eqn:El; [|auto].
  destruct (pl_pty_desired s) as [[c r]|] eqn:Ed; [|auto].
  destruct (pl_needs_reclaim s || negb (eligible s) || negb (l_generation l =? _)) eqn:E; [auto|].
  bool_hyps. case_match; [auto|]. right. exists l, c, r. split_and!; try done. lia.
Qed.

(** How [next_seq] moves before the resize of an event. *)
Definition seq_moves (e : Event) (s s1 : PaneLease) : Prop :=
  pl_next_seq s1 = pl_next_seq s ∨
  match e with
  | EGranted _ _ _ q => pl_next_seq s1 = q
  | EReclaimResult _ _ _ q | EStaleResize _ q => pl_next_seq s1 = Z.max (pl_next_seq s) q
  | _ => False
  end.

Lemma release_grant_quiet se ep s :
  quiet s (release_grant se ep s) ∧ pl_next_seq (release_grant se ep s) = pl_next_seq s.
Proof.
  unfold release_grant. cbn [new_id]. split; [|by case_match].
  eapply (quiet_push (ORelease _ se ep)); [case_match; done|done|case_match; by right; right].
Qed.

Lemma invalidate_quiet (b : bool) ep s :
  let s' := if b then suppress ep (invalidate s) else invalidate s in
  quiet s s' ∧ pl_next_seq s' = pl_next_seq s.
Proof.
  destruct b; (split; [apply quiet_same; [apply invalidate_out|by left]|apply invalidate_seq]).
Qed.

(** Every event is some quiet steps, possibly a [pty_sync], and [reevaluate]. *)
Lemma step_decompose e s :
  ∃ s1 s2, pane_step e s = reevaluate s2 ∧ quiet s s1 ∧ seq_moves e s s1 ∧ (s2 = s1 ∨ s2 = pty_sync s1).
Proof.
  assert (∀ s1, quiet s s1 → pl_next_seq s1 = pl_next_seq s → ∃ s1' s2, reevaluate s1 = reevaluate s2 ∧
    quiet s s1' ∧ seq_moves e s s1' ∧ (s2 = s1' ∨ s2 = pty_sync s1')) as Hq.
  { intros s1 H1 H2. exists s1, s1. split_and!; auto. by left. }
  assert (∀ s1, quiet s s1 → seq_moves e s s1 → ∃ s1' s2, reevaluate (pty_sync s1) = reevaluate s2 ∧
    quiet s s1' ∧ seq_moves e s s1' ∧ (s2 = s1' ∨ s2 = pty_sync s1')) as Hsync.
  { intros s1 H1 H2. exists s1, (pty_sync s1). auto. }
  destruct e; cbn [pane_step]; unfold set_policy, on_visible_applied, on_retry_timer, on_request_failed,
    on_released, on_reconnect, on_granted, on_reclaim_result, on_revoked, on_vacated, on_resize_ack,
    on_stale_resize, on_stale_lease, on_unacked_timeout; cbv zeta.
  - set (s0 := if user_intent then unsuppress (with_policy p s) else with_policy p s).
    assert (quiet s s0 ∧ pl_next_seq s0 = pl_next_seq s) as [H1 H2]
      by (subst s0; destruct user_intent; split; try done; solve_quiet).
    destruct (relinquish_quiet s0) as [H3 H4].
    apply Hq; case_match; [by etrans|done|congruence|done].
  - apply Hsync; [solve_quiet|by left].
  - by apply Hq; [solve_quiet|].
  - apply Hq; repeat case_match; try done; solve_quiet.
  - apply Hq; repeat case_match; try done; solve_quiet.
  - apply Hq; repeat case_match; try done; solve_quiet.
  - destruct (pending_acquire s) as [p|]; [|by apply Hq; apply release_grant_quiet].
    destruct (p_id p =? id); [|by apply Hq; apply release_grant_quiet].
    destruct (_ && _ && _ && eligible _).
    + apply Hsync; [solve_quiet|by right].
    + apply Hq; [|by rewrite (proj2 (release_grant_quiet _ _ _))].
      etrans; [|apply release_grant_quiet]. solve_quiet.
  - destruct (pending_id id s) as [p|]; [|by apply Hq].
    case_bool_decide; [|by apply Hq]. case_bool_decide.
    { apply Hq; repeat case_match; try done; solve_quiet. }
    destruct (pl_lease (with_pending None s)) as [l|]; [|by apply Hq; [solve_quiet|]].
    destruct ((l_epoch l =? _) && _ && _); [|by apply Hq; [solve_quiet|]].
    destruct (ok && _).
    + apply Hsync; [solve_quiet|by right].
    + destruct (invalidate_quiet (negb (current_epoch =? 0)) (p_requested_epoch p) (with_pending None s)).
      by apply Hq; [etrans; [solve_quiet|]|].
  - destruct (invalidate_quiet (negb (new_epoch =? 0)) revoked_epoch s).
    destruct (leases_at session revoked_epoch s); by apply Hq.
  - by apply Hq; [solve_quiet|].
  - apply Hsync; case_match; [solve_quiet|done|by left|by left].
  - case_match; [|by apply Hq]. apply Hsync; [solve_quiet|by right].
  - destruct (invalidate_quiet (negb (current_epoch =? 0)) epoch s).
    destruct (leases_at session epoch s); by apply Hq.
  - case_match; [|by apply Hq]. apply Hsync; [solve_quiet|by left].
Qed.

(** The size recorded as sent was requested under the lease held. *)
Definition sent_ok (s : PaneLease) : Prop :=
  ∀ l q c r, pl_lease s = Some l → pl_latest_sent s = Some (q, c, r) →
  OResize (l_session l) (l_epoch l) q c r ∈ pl_out s.

Lemma quiet_sent_ok s s' : quiet s s' → sent_ok s → sent_ok s'.
Proof.
  intros [(new & E & _) M] Hs l q c r El Eq. rewrite E.
  destruct M as [M|[M|[M1 M2]]]; [congruence|congruence|]. apply elem_of_app. left.
  apply Hs; congruence.
Qed.

Lemma pane_step_sent_ok e s : sent_ok s → sent_ok (pane_step e s).
Proof.
  intros Hs. destruct (step_decompose e s) as (s1 & s2 & -> & Hq & _ & H2).
  apply (quiet_sent_ok s2); [apply reevaluate_quiet|].
  pose proof (quiet_sent_ok _ _ Hq Hs) as Hs1. destruct H2 as [->| ->]; [done|].
  destruct (pty_sync_spec s1) as [->|(l & c & r & El & _ & _ & _ & _ & ->)]; [done|].
  intros l' q' c' r'. cbn. rewrite El. intros [= <-] [= <- <- <-]. apply elem_of_app. right.
  by apply list_elem_of_singleton.
Qed.

Lemma pane_run_sent_ok es s : sent_ok s → sent_ok (pane_run es s).
Proof. revert s. induction es as [|e es IH]; intros s Hs; [done|]. apply IH, pane_step_sent_ok, Hs. Qed.

(** ** Lemmas: the order of resizes *)

Definition not_grant (m : Z) (e : Event) : Prop :=
  match e with
  | EGranted _ _ _ _ => False
  | EReclaimResult _ _ _ q | EStaleResize _ q => q <= m
  | _ => True
  end.

Lemma step_seqs m e s :
  not_grant m e → 0 <= pl_next_seq s <= m → m < u64_max →
  ∃ new, pl_out (pane_step e s) = pl_out s ++ new ∧
    StronglySorted Z.lt (pl_next_seq s :: seqs new) ∧
    Forall (λ q, q <= pl_next_seq (pane_step e s)) (pl_next_seq s :: seqs new) ∧
    0 <= pl_next_seq (pane_step e s) <= m + 1.
Proof.
  intros Hng Hs Hm. destruct (step_decompose e s) as (s1 & s2 & -> & [(n1 & E1 & Q1) _] & Hmv & H2).
  destruct (reevaluate_quiet s2) as ([(n3 & E3 & Q3) _] & Eseq & _). rewrite Eseq, E3.
  assert (pl_next_seq s <= pl_next_seq s1 <= m) as Hs1.
  { destruct Hmv as [->|Hmv]; [lia|]. destruct e; cbn in Hng; try done; rewrite Hmv; lia. }
  assert (∀ n, seqs (n1 ++ n ++ n3) = seqs n) as Hseqs.
  { intros n. unfold seqs in *. by rewrite !omap_app, Q1, Q3, app_nil_r. }
  assert (pl_out s1 = pl_out s ++ n1 ++ []) as E1' by (by rewrite app_nil_r).
  assert (s2 = s1 ∨ ∃ o q, pl_out s2 = pl_out s1 ++ [o] ∧ resize_seq o = Some q ∧
    q = pl_next_seq s1 + 1 ∧ pl_next_seq s2 = q) as [->|(o & q & E2 & Eo & Eq & Es2)].
  { destruct H2 as [->| ->]; [auto|].
    destruct (pty_sync_spec s1) as [->|(l & c & r & _ & _ & _ & _ & _ & ->)]; [auto|].
    right. rewrite add64_id by lia. by eexists _, _. }
  - exists (n1 ++ [] ++ n3). rewrite Hseqs, E1, <- app_assoc. split; [done|].
    split; [repeat constructor|]. split; [repeat constructor; lia|lia].
  - exists (n1 ++ [o] ++ n3). rewrite Hseqs, E2, E1, <- !app_assoc. split; [done|].
    unfold seqs. cbn. rewrite Eo. split; [repeat constructor; lia|]. split; [repeat constructor; lia|lia].
Qed.

Lemma sorted_join x y l k :
  StronglySorted Z.lt (x :: l) → StronglySorted Z.lt (y :: k) → Forall (λ q, q <= y) (x :: l) →
  StronglySorted Z.lt (x :: l ++ k).
Proof.
  intros Hl Hk Hle. apply StronglySorted_inv in Hk as [Hk Hky].
  assert (∀ a, a <= y → Forall (Z.lt a) k) as Ha.
  { intros a ?. eapply Forall_impl; [exact Hky|]. cbn. lia. }
  change (x :: l ++ k) with ((x :: l) ++ k). induction Hl as [|a l' Hs IH Hal]; [done|].
  inversion Hle; subst. cbn. constructor; [auto|]. apply Forall_app. auto.
Qed.

Lemma run_seqs es m s :
  Forall (not_grant m) es → 0 <= pl_next_seq s <= m → m + zlen es <= u64_max →
  ∃ new, pl_out (pane_run es s) = pl_out s ++ new ∧ StronglySorted Z.lt (pl_next_seq s :: seqs new).
Proof.
  revert m s. induction es as [|e es IH]; intros m s Hng Hs Hm.
  { exists []. cbn. rewrite app_nil_r. split; [done|]. repeat constructor. }
  autorewrite with zl in Hm. pose proof (zlen_nonneg es). inversion Hng; subst.
  destruct (step_seqs m e s) as (n1 & E1 & S1 & F1 & B1); [done|lia|lia|].
  destruct (IH (m + 1) (pane_step e s)) as (n2 & E2 & S2).
  { eapply Forall_impl; [done|]. intros []; cbn; lia. }
  { lia. } { lia. }
  exists (n1 ++ n2). cbn [pane_run foldl]. unfold pane_run in E2. rewrite E2, E1, <- app_assoc.
  split; [done|]. unfold seqs in *. rewrite omap_app. by eapply sorted_join.
Qed.

(** ** Theorems *)

(** C33: A lease is held only while the pane is eligible, for the session and
    generation it is bound to; the session is not in [disowned] (the code's
    [debug_assert]), and no acquire of any session and no release of this one is
    pending meanwhile. *)
Theorem pane_lease_safe es l :
  let s := pane_run es pane_new in
  pl_lease s = Some l →
  eligible s = true ∧ po_bound_session (pl_policy s) = Some (l_session l) ∧
  l_generation l = po_generation (pl_policy s) ∧ (l_session l ∉ pl_disowned s) ∧
  (∀ p, pl_pending s = Some p →
     p_kind p ≠ KAcquire ∧ (p_kind p = KRelease → p_session p ≠ l_session l)).
Proof.
  intros s El. pose proof (pane_run_inv es _ pane_new_inv) as (Hp & He & _).
  destruct (pp_lease _ Hp l El) as (? & ? & ? & _). split_and!; [by eapply He|done..|].
  intros p Ep. by apply (pp_pending _ Hp).
Qed.

(** Under a lease that needs no reclaim, the pane's latest desired size has
    been requested from the host: it is the last size sent, in a [Resize] with
    the lease's session and epoch. *)
Theorem pane_size_sent es l c r :
  let s := pane_run es pane_new in
  pl_lease s = Some l → pl_needs_reclaim s = false → pl_pty_desired s = Some (c, r) →
  ∃ q, pl_latest_sent s = Some (q, c, r) ∧ OResize (l_session l) (l_epoch l) q c r ∈ pl_out s.
Proof.
  intros s El Er Ed. pose proof (pane_run_inv es _ pane_new_inv) as (Hp & _).
  destruct (pp_lease _ Hp l El) as (_ & _ & _ & Hs). destruct (Hs Er c r Ed) as [q Hq].
  exists q. split; [done|]. by apply (pane_run_sent_ok es pane_new).
Qed.

(** No work is forgotten: when no request is outstanding and no retry timer
    runs, the pane is either ineligible or holds a lease that needs no reclaim,
    has no session left to release, and no suppression left to probe. *)
Theorem pane_no_work_lost es :
  let s := pane_run es pane_new in
  pl_pending s = None → pl_retry_timer s = false →
  (∀ l, pl_lease s = Some l → pl_needs_reclaim s = false) ∧
  (pl_lease s = None → eligible s = false) ∧
  (pl_lease s = None → pl_suppressed s = true → pl_needs_probe s = true →
     po_bound_session (pl_policy s) = None) ∧
  pl_disowned s = ∅.
Proof. intros s. by destruct (pane_run_inv es _ pane_new_inv) as (_ & _ & Hi). Qed.

(** Between grants the resizes a pane emits carry strictly increasing
    sequence numbers, all above the sequence number it started from. *)
Theorem pane_resize_seq_increasing es m s :
  Forall (not_grant m) es → 0 <= pl_next_seq s <= m → m + zlen es <= u64_max →
  ∃ new, pl_out (pane_run es s) = pl_out s ++ new ∧ StronglySorted Z.lt (pl_next_seq s :: seqs new).
Proof. apply run_seqs. Qed.

(** A [Resize] is emitted only by an eligible holder of the lease it names,
    and carries the pane's desired size at that time. *)
Theorem pane_resize_only_holder e s se ep q c r :
  (∃ pre post, pl_out (pane_step e s) = pl_out s ++ pre ++ OResize se ep q c r :: post) →
  let s' := pane_step e s in
  eligible s' = true ∧ pl_pty_desired s' = Some (c, r) ∧ pl_latest_sent s' = Some (q, c, r) ∧
  ∃ l, pl_lease s' = Some l ∧ l_session l = se ∧ l_epoch l = ep.
Proof.
  intros (pre & post & E) s'. subst s'.
  destruct (step_decompose e s) as (s1 & s2 & Estep & [(n1 & E1 & Q1) _] & _ & H2). rewrite Estep in *.
  destruct (reevaluate_quiet s2) as ([(n3 & E3 & Q3) _] & _ & Hk). rewrite E3 in E.
  assert (∀ n, pl_out s2 = pl_out s1 ++ n → OResize se ep q c r ∈ n) as Hin.
  { intros n En. rewrite En, E1, <- !app_assoc in E. apply app_inv_head in E.
    assert (OResize se ep q c r ∈ n1 ++ n ++ n3) as Hi by (rewrite E; set_solver).
    assert (∀ k, seqs k = [] → OResize se ep q c r ∉ k) as Hno.
    { intros k Hk0 Hi0. assert (q ∈ seqs k) as Hq by (apply list_elem_of_omap; by eexists).
      rewrite Hk0 in Hq. set_solver. }
    rewrite !elem_of_app in Hi. destruct Hi as [Hi|[Hi|Hi]]; [by apply Hno in Hi|done|by apply Hno in Hi]. }
  assert (s2 ≠ s1) as Hne by (intros ->; specialize (Hin [] ltac:(by rewrite app_nil_r)); set_solver).
  destruct H2 as [->|E2]; [done|].
  destruct (pty_sync_spec s1) as [Eid|(l & c0 & r0 & El & Ed & Ee & _ & _ & Ep)]; [congruence|].
  rewrite Ep in E2. specialize (Hin [OResize (l_session l) (l_epoch l) (add64 (pl_next_seq s1) 1) c0 r0]).
  assert (eligible s2 = true) as Ee2 by (by rewrite E2). destruct (Hk Ee2) as (K1 & K2 & K3 & K4).
  rewrite K1, K2, K3, K4, E2 in *. cbn in *. specialize (Hin eq_refl).
  apply list_elem_of_singleton in Hin. simplify_eq. rewrite Ed. eauto 10.
Qed.

(** ** Witnesses *)

Definition demo_policy : Policy := mk_Policy (Some 7) 1 true None true false.
Definition demo_events : list Event :=
  [ESetPolicy demo_policy true; EVisibleApplied 80 24; EGranted 1 7 5 3; EVisibleApplied 100 30].
Definition demo_lease : Lease := mk_Lease 7 1 5.

Lemma pane_lease_safe_witness : 7 ∉ pl_disowned (pane_run demo_events pane_new).
Proof.
  destruct (pane_lease_safe demo_events demo_lease) as (_ & _ & _ & H & _); [by vm_compute|exact H].
Defined.

Lemma pane_size_sent_witness :
  ∃ q, pl_latest_sent (pane_run demo_events pane_new) = Some (q, 100, 30) ∧
    OResize 7 5 q 100 30 ∈ pl_out (pane_run demo_events pane_new).
Proof. apply (pane_size_sent demo_events demo_lease 100 30); by vm_compute. Defined.

Lemma pane_no_work_lost_witness : pl_disowned (pane_run demo_events pane_new) = ∅.
Proof. apply (pane_no_work_lost demo_events); by vm_compute. Defined.

Lemma pane_resize_seq_increasing_witness :
  ∃ new, pl_out (pane_run [EVisibleApplied 90 40; EVisibleApplied 91 40] (pane_run demo_events pane_new))
      = pl_out (pane_run demo_events pane_new) ++ new ∧ StronglySorted Z.lt (5 :: seqs new).
Proof.
  apply (pane_resize_seq_increasing [EVisibleApplied 90 40; EVisibleApplied 91 40] 10
    (pane_run demo_events pane_new)); [by repeat constructor|by vm_compute|by vm_compute].
Defined.

Lemma pane_resize_only_holder_witness :
  eligible (pane_step (EVisibleApplied 90 40) (pane_run demo_events pane_new)) = true.
Proof.
  apply (pane_resize_only_holder (EVisibleApplied 90 40) (pane_run demo_events pane_new) 7 5 6 90 40).
  exists [], []. by vm_compute.
Defined.
