(* ===== verification/Author.v ===== *)
(** * Input author (crates/session-core/src/author.rs)

    The display client's side of terminal input: typed bytes wait until a lease
    is granted, are assigned to the epoch of the grant, sent in chunks within a
    window, and, when the lease is lost, classified by what the host reports of
    the epoch.  A result [None] is a Rust panic (a slice out of range). *)

From S2P Require Import Prelude.
From Stdlib Require Import ZArith Lia Strings.Byte.
From stdpp Require Import base gmap list option sorting.

#[local] Open Scope Z_scope.

Definition SEND_WINDOW : Z := 1024 * 1024.
Definition CHUNK : Z := 64 * 1024.
Definition MAX_INFLIGHT : Z := 4.

Inductive Status : Type :=
| Written
| AcceptedPendingWrite
| AcceptedThenDropped
| NotDelivered
| OutcomeUnknown.
#[global] Instance Status_eq_dec : EqDecision Status.
Proof. solve_decision. Defined.

Inductive Out : Type :=
| OAcquire (id session : Z)
| OReclaim (id session epoch : Z)
| ORelease (id session epoch : Z)
| OWrite (attempt session epoch start : Z) (bytes : list byte)
| OGetEpochState (id session epoch : Z)
| OClassified (session epoch first_offset : Z) (bytes : list byte) (statuses : list Status).

Abbreviation EpochKey := (Z * Z)%type (only parsing).

Record Segment := mk_Segment {
  sg_base : Z;
  sg_bytes : list byte;
}.

Record Cur := mk_Cur {
  cu_session : Z;
  cu_epoch : Z;
  cu_accepted : Z;
  cu_committed : Z;
  cu_seg : Segment;
}.

Record Finalizing := mk_Finalizing {
  fz_seg : Segment;
  fz_query : option Z;
  fz_retry : bool;
  fz_high_accepted : Z;
  fz_high_committed : Z;
}.

Inductive PendingKind : Type := KAcquire | KReclaim (epoch : Z) | KProbe | KRelease.
#[global] Instance PendingKind_eq_dec : EqDecision PendingKind.
Proof. solve_decision. Defined.

Record Pending := mk_Pending {
  p_id : Z;
  p_kind : PendingKind;
  p_session : Z;
}.

Record Author := mk_Author {
  au_session : Z;
  au_focused : bool;
  au_typing : bool;
  au_suppressed : bool;
  au_suppressed_epoch : Z;
  au_needs_probe : bool;
  au_needs_reclaim : bool;
  au_retry_timer : bool;
  au_send_timer : bool;
  au_pending : option Pending;
  au_cur : option Cur;
  au_unassigned : list byte;
  au_finalizing : gmap EpochKey Finalizing;
  au_inflight : gmap Z (Z * Z);
  au_disowned : gset Z;
  au_next_id : Z;
  au_out : list Out;
}.

(** Field assignment. *)
Definition with_session (v : Z) (a : Author) : Author :=
  mk_Author v (au_focused a) (au_typing a) (au_suppressed a) (au_suppressed_epoch a)
    (au_needs_probe a) (au_needs_reclaim a) (au_retry_timer a) (au_send_timer a) (au_pending a)
    (au_cur a) (au_unassigned a) (au_finalizing a) (au_inflight a) (au_disowned a) (au_next_id a)
    (au_out a).
Definition with_focused (v : bool) (a : Author) : Author :=
  mk_Author (au_session a) v (au_typing a) (au_suppressed a) (au_suppressed_epoch a)
    (au_needs_probe a) (au_needs_reclaim a) (au_retry_timer a) (au_send_timer a) (au_pending a)
    (au_cur a) (au_unassigned a) (au_finalizing a) (au_inflight a) (au_disowned a) (au_next_id a)
    (au_out a).
Definition with_typing (v : bool) (a : Author) : Author :=
  mk_Author (au_session a) (au_focused a) v (au_suppressed a) (au_suppressed_epoch a)
    (au_needs_probe a) (au_needs_reclaim a) (au_retry_timer a) (au_send_timer a) (au_pending a)
    (au_cur a) (au_unassigned a) (au_finalizing a) (au_inflight a) (au_disowned a) (au_next_id a)
    (au_out a).
Definition with_suppressed (v : bool) (a : Author) : Author :=
  mk_Author (au_session a) (au_focused a) (au_typing a) v (au_suppressed_epoch a)
    (au_needs_probe a) (au_needs_reclaim a) (au_retry_timer a) (au_send_timer a) (au_pending a)
    (au_cur a) (au_unassigned a) (au_finalizing a) (au_inflight a) (au_disowned a) (au_next_id a)
    (au_out a).
Definition with_suppressed_epoch (v : Z) (a : Author) : Author :=
  mk_Author (au_session a) (au_focused a) (au_typing a) (au_suppressed a) v (au_needs_probe a)
    (au_needs_reclaim a) (au_retry_timer a) (au_send_timer a) (au_pending a) (au_cur a)
    (au_unassigned a) (au_finalizing a) (au_inflight a) (au_disowned a) (au_next_id a) (au_out a).
Definition with_needs_probe (v : bool) (a : Author) : Author :=
  mk_Author (au_session a) (au_focused a) (au_typing a) (au_suppressed a) (au_suppressed_epoch a)
    v (au_needs_reclaim a) (au_retry_timer a) (au_send_timer a) (au_pending a) (au_cur a)
    (au_unassigned a) (au_finalizing a) (au_inflight a) (au_disowned a) (au_next_id a) (au_out a).
Definition with_needs_reclaim (v : bool) (a : Author) : Author :=
  mk_Author (au_session a) (au_focused a) (au_typing a) (au_suppressed a) (au_suppressed_epoch a)
    (au_needs_probe a) v (au_retry_timer a) (au_send_timer a) (au_pending a) (au_cur a)
    (au_unassigned a) (au_finalizing a) (au_inflight a) (au_disowned a) (au_next_id a) (au_out a).
Definition with_retry_timer (v : bool) (a : Author) : Author :=
  mk_Author (au_session a) (au_focused a) (au_typing a) (au_suppressed a) (au_suppressed_epoch a)
    (au_needs_probe a) (au_needs_reclaim a) v (au_send_timer a) (au_pending a) (au_cur a)
    (au_unassigned a) (au_finalizing a) (au_inflight a) (au_disowned a) (au_next_id a) (au_out a).
Definition with_send_timer (v : bool) (a : Author) : Author :=
  mk_Author (au_session a) (au_focused a) (au_typing a) (au_suppressed a) (au_suppressed_epoch a)
    (au_needs_probe a) (au_needs_reclaim a) (au_retry_timer a) v (au_pending a) (au_cur a)
    (au_unassigned a) (au_finalizing a) (au_inflight a) (au_disowned a) (au_next_id a) (au_out a).
Definition with_pending (v : option Pending) (a : Author) : Author :=
  mk_Author (au_session a) (au_focused a) (au_typing a) (au_suppressed a) (au_suppressed_epoch a)
    (au_needs_probe a) (au_needs_reclaim a) (au_retry_timer a) (au_send_timer a) v (au_cur a)
    (au_unassigned a) (au_finalizing a) (au_inflight a) (au_disowned a) (au_next_id a) (au_out a).
Definition with_cur (v : option Cur) (a : Author) : Author :=
  mk_Author (au_session a) (au_focused a) (au_typing a) (au_suppressed a) (au_suppressed_epoch a)
    (au_needs_probe a) (au_needs_reclaim a) (au_retry_timer a) (au_send_timer a) (au_pending a) v
    (au_unassigned a) (au_finalizing a) (au_inflight a) (au_disowned a) (au_next_id a) (au_out a).
Definition with_unassigned (v : list byte) (a : Author) : Author :=
  mk_Author (au_session a) (au_focused a) (au_typing a) (au_suppressed a) (au_suppressed_epoch a)
    (au_needs_probe a) (au_needs_reclaim a) (au_retry_timer a) (au_send_timer a) (au_pending a)
    (au_cur a) v (au_finalizing a) (au_inflight a) (au_disowned a) (au_next_id a) (au_out a).
Definition with_finalizing (v : gmap EpochKey Finalizing) (a : Author) : Author :=
  mk_Author (au_session a) (au_focused a) (au_typing a) (au_suppressed a) (au_suppressed_epoch a)
    (au_needs_probe a) (au_needs_reclaim a) (au_retry_timer a) (au_send_timer a) (au_pending a)
    (au_cur a) (au_unassigned a) v (au_inflight a) (au_disowned a) (au_next_id a) (au_out a).
Definition with_inflight (v : gmap Z (Z * Z)) (a : Author) : Author :=
  mk_Author (au_session a) (au_focused a) (au_typing a) (au_suppressed a) (au_suppressed_epoch a)
    (au_needs_probe a) (au_needs_reclaim a) (au_retry_timer a) (au_send_timer a) (au_pending a)
    (au_cur a) (au_unassigned a) (au_finalizing a) v (au_disowned a) (au_next_id a) (au_out a).
Definition with_disowned (v : gset Z) (a : Author) : Author :=
  mk_Author (au_session a) (au_focused a) (au_typing a) (au_suppressed a) (au_suppressed_epoch a)
    (au_needs_probe a) (au_needs_reclaim a) (au_retry_timer a) (au_send_timer a) (au_pending a)
    (au_cur a) (au_unassigned a) (au_finalizing a) (au_inflight a) v (au_next_id a) (au_out a).
Definition with_next_id (v : Z) (a : Author) : Author :=
  mk_Author (au_session a) (au_focused a) (au_typing a) (au_suppressed a) (au_suppressed_epoch a)
    (au_needs_probe a) (au_needs_reclaim a) (au_retry_timer a) (au_send_timer a) (au_pending a)
    (au_cur a) (au_unassigned a) (au_finalizing a) (au_inflight a) (au_disowned a) v (au_out a).
Definition with_out (v : list Out) (a : Author) : Author :=
  mk_Author (au_session a) (au_focused a) (au_typing a) (au_suppressed a) (au_suppressed_epoch a)
    (au_needs_probe a) (au_needs_reclaim a) (au_retry_timer a) (au_send_timer a) (au_pending a)
    (au_cur a) (au_unassigned a) (au_finalizing a) (au_inflight a) (au_disowned a) (au_next_id a)
    v.

Definition author_new (session : Z) : Author :=
  mk_Author session false false false 0 false false false false None None [] ∅ ∅ ∅ 0 [].

(** The caller takes the outputs after each handler; no handler reads them. *)
Definition take_out (a : Author) : Author * list Out := (with_out [] a, au_out a).
Definition unassigned_len (a : Author) : Z := zlen (au_unassigned a).
Definition finalizing_epochs (a : Author) : list EpochKey := bt_keys (au_finalizing a).

Definition push (o : Out) (a : Author) : Author := with_out (au_out a ++ [o]) a.
Definition current (a : Author) : option (Z * Z) := (λ c, (cu_session c, cu_epoch c)) <$> au_cur a.
Definition seg_end (s : Segment) : Z := add64 (sg_base s) (zlen (sg_bytes s)).
Definition unaccepted_len (a : Author) : Z :=
  match au_cur a with Some c => sub64 (seg_end (cu_seg c)) (cu_accepted c) | None => 0 end.

Definition new_id (a : Author) : Author * Z :=
  let id := add64 (au_next_id a) 1 in (with_next_id id a, id).

Definition holds (session epoch : Z) (a : Author) : bool :=
  match au_cur a with Some c => (cu_session c =? session) && (cu_epoch c =? epoch) | None => false end.

Definition acquire_cond (a : Author) : bool :=
  au_focused a && negb (au_suppressed a) && (negb (bool_decide (au_unassigned a = [])) || au_typing a).

Definition request (kind : PendingKind) (session : Z) (a : Author) : Author :=
  let '(a, id) := new_id a in
  let a := with_pending (Some (mk_Pending id kind session)) a in
  push (match kind with
        | KAcquire => OAcquire id session
        | KReclaim epoch => OReclaim id session epoch
        | KProbe => OReclaim id session (au_suppressed_epoch a)
        | KRelease => ORelease id session 0
        end) a.

Definition unsuppress (a : Author) : Author := with_needs_probe false (with_suppressed false a).

(** [for f in finalizing.values_mut()]. *)
Definition map_finalizing (f : Finalizing → Finalizing) (a : Author) : Author :=
  with_finalizing (f <$> au_finalizing a) a.
Definition set_query (q : option Z) (f : Finalizing) : Finalizing :=
  mk_Finalizing (fz_seg f) q (fz_retry f) (fz_high_accepted f) (fz_high_committed f).
Definition set_retry (b : bool) (f : Finalizing) : Finalizing :=
  mk_Finalizing (fz_seg f) (fz_query f) b (fz_high_accepted f) (fz_high_committed f).

(** The status of the byte at [off]; [finals] is what the host reported:
    accepted, committed and dropped bytes of the epoch. *)
Definition byte_status (finals : option (Z * Z * Z)) (high_committed off : Z) : Status :=
  match finals with
  | None => if off <? high_committed then Written else OutcomeUnknown
  | Some (fa, cm, pd) =>
      if off <? cm then Written
      else if off <? sat_sub fa pd then AcceptedPendingWrite
      else if off <? fa then AcceptedThenDropped
      else NotDelivered
  end.
Definition statuses_of (finals : option (Z * Z * Z)) (f : Finalizing) : list Status :=
  imap (λ i _, byte_status finals (fz_high_committed f) (add64 (sg_base (fz_seg f)) (Z.of_nat i)))
    (sg_bytes (fz_seg f)).

Definition classify (session epoch : Z) (finals : option (Z * Z * Z)) (a : Author) : Author :=
  match au_finalizing a !! (session, epoch) with
  | None => a
  | Some f =>
      push (OClassified session epoch (sg_base (fz_seg f)) (sg_bytes (fz_seg f)) (statuses_of finals f))
        (with_finalizing (delete (session, epoch) (au_finalizing a)) a)
  end.

Definition lose (session epoch : Z) (finals : option (Z * Z * Z)) (other : bool) (a : Author) : Author :=
  if negb (holds session epoch a) then a else
  match au_cur a with
  | None => a
  | Some c =>
      let a := with_cur None a in
      let a := with_send_timer false (with_needs_reclaim false (with_inflight ∅ a)) in
      let a :=
        match au_pending a with
        | Some p =>
            if (p_session p =? session) && bool_decide (p_kind p = KReclaim epoch)
            then with_pending None a else a
        | None => a
        end in
      let a := with_finalizing (<[(session, epoch) :=
                 mk_Finalizing (cu_seg c) None false (cu_accepted c) (cu_committed c)]> (au_finalizing a)) a in
      let a := if other then with_suppressed_epoch epoch (with_suppressed true a) else a in
      match finals with Some _ => classify session epoch finals a | None => a end
  end.

Definition release_cur (a : Author) : Author :=
  match current a with
  | None => a
  | Some (session, epoch) =>
      let '(a, id) := new_id a in lose session epoch None false (push (ORelease id session epoch) a)
  end.

Definition max_end (m : gmap Z (Z * Z)) : option Z :=
  foldr (λ v acc, match acc with Some x => Some (Z.max v.2 x) | None => Some v.2 end) None (bt_values m).

(** [&bytes[from..to]], [None] when out of range. *)
Definition slice (from to : Z) (l : list byte) : option (list byte) :=
  if (from <=? to) && (to <=? zlen l)
  then Some (take (Z.to_nat (to - from)) (drop (Z.to_nat from) l)) else None.

(** The sending loop.  Every round but the last sends a whole chunk of a
    window of [SEND_WINDOW] bytes, so [SEND_WINDOW / CHUNK + 1] rounds suffice. *)
Fixpoint send_loop (fuel : nat) (session epoch window_end next : Z) (seg : Segment) (a : Author)
    : option Author :=
  match fuel with
  | O => Some a
  | S fuel' =>
      if (Z.of_nat (size (au_inflight a)) <? MAX_INFLIGHT) && (next <? window_end) then
        let stop := Z.min window_end (add64 next CHUNK) in
        bytes ← slice (sub64 next (sg_base seg)) (sub64 stop (sg_base seg)) (sg_bytes seg);
        let '(a, attempt) := new_id a in
        let a := with_inflight (<[attempt := (next, stop)]> (au_inflight a)) a in
        send_loop fuel' session epoch window_end stop seg (push (OWrite attempt session epoch next bytes) a)
      else Some a
  end.
Definition send_fuel : nat := Z.to_nat (SEND_WINDOW / CHUNK + 1).

Definition send (a : Author) : option Author :=
  if au_needs_reclaim a || au_send_timer a then Some a else
  match au_cur a with
  | None => Some a
  | Some c =>
      let window_end := Z.min (seg_end (cu_seg c)) (add64 (cu_accepted c) SEND_WINDOW) in
      let next := Z.max (default (cu_accepted c) (max_end (au_inflight a))) (cu_accepted c) in
      send_loop send_fuel (cu_session c) (cu_epoch c) window_end next (cu_seg c) a
  end.

(** The state queries of the epochs that wait for one. *)
Definition query_due (a : Author) (k : EpochKey) : Author :=
  let '(a, id) := new_id a in
  push (OGetEpochState id k.1 k.2) (with_finalizing (alter (set_query (Some id)) k (au_finalizing a)) a).
Definition due (a : Author) : list EpochKey :=
  fst <$> filter (λ p, fz_query p.2 = None ∧ fz_retry p.2 = false) (bt_iter (au_finalizing a)).

Definition next_request (a : Author) : Author :=
  match au_cur a, au_needs_reclaim a with
  | Some c, true => request (KReclaim (cu_epoch c)) (cu_session c) a
  | cur, _ =>
      if bool_decide (cur = None) && au_suppressed a && au_needs_probe a then request KProbe (au_session a) a
      else if bool_decide (cur = None) && acquire_cond a then request KAcquire (au_session a) a
      else match bs_first (au_disowned a) with
      | Some session => request KRelease session a
      | None => a
      end
  end.

Definition reevaluate (a : Author) : option Author :=
  let a := foldl query_due a (due a) in
  let a :=
    if bool_decide (is_Some (au_cur a)) && negb (au_focused a) && (unaccepted_len a =? 0)
       && bool_decide (au_inflight a = ∅)
    then release_cur a else a in
  let a := if bool_decide (au_pending a = None) && negb (au_retry_timer a) then next_request a else a in
  send a.

Definition extend_seg (b : list byte) (c : Cur) : Cur :=
  mk_Cur (cu_session c) (cu_epoch c) (cu_accepted c) (cu_committed c)
    (mk_Segment (sg_base (cu_seg c)) (sg_bytes (cu_seg c) ++ b)).

Definition type_bytes (b : list byte) (a : Author) : option Author :=
  let a := unsuppress (with_typing true a) in
  reevaluate
    (match au_cur a with
     | Some c => with_cur (Some (extend_seg b c)) a
     | None => with_unassigned (au_unassigned a ++ b) a
     end).

Definition set_focus (focused : bool) (a : Author) : option Author :=
  let a := with_focused focused a in
  reevaluate (if focused then unsuppress a else with_typing false a).

Definition insert_disowned (session : Z) (a : Author) : Author :=
  with_disowned ({[session]} ∪ au_disowned a) a.
Definition remove_disowned (session : Z) (a : Author) : Author :=
  with_disowned (au_disowned a ∖ {[session]}) a.

Definition rebind (session : Z) (a : Author) : option Author :=
  let old := au_session a in
  let a := release_cur a in
  let a :=
    match au_pending a with
    | Some p =>
        match p_kind p with
        | KAcquire => with_pending None (insert_disowned (p_session p) a)
        | KProbe => with_pending None a
        | _ => a
        end
    | None => a
    end in
  let a :=
    if bool_decide (au_unassigned a ≠ []) then
      let bytes := au_unassigned a in
      push (OClassified old 0 0 bytes (replicate (length bytes) NotDelivered)) (with_unassigned [] a)
    else a in
  reevaluate (unsuppress (with_typing false (with_session session a))).

Definition release_grant (session epoch : Z) (a : Author) : Author :=
  let '(a, id) := new_id a in
  let a := push (ORelease id session epoch) a in
  if negb (match au_cur a with Some c => cu_session c =? session | None => false end)
  then insert_disowned session a else a.

Definition on_granted (id session epoch : Z) (a : Author) : option Author :=
  reevaluate
    (match au_pending a with
     | Some p =>
         if (p_id p =? id) && bool_decide (p_kind p = KAcquire) then
           let a := with_pending None a in
           if (p_session p =? session) && (session =? au_session a) && au_focused a && negb (au_suppressed a)
           then
             let bytes := au_unassigned a in
             let a := with_cur (Some (mk_Cur session epoch 0 0 (mk_Segment 0 bytes))) (with_unassigned [] a) in
             remove_disowned session (with_inflight ∅ a)
           else release_grant session epoch a
         else release_grant session epoch a
     | None => release_grant session epoch a
     end).

(** [self.pending.filter(|p| p.id == id)] *)
Definition pending_id (id : Z) (a : Author) : option Pending :=
  p ← au_pending a; if decide (p_id p = id) then Some p else None.

Definition on_released (id : Z) (a : Author) : option Author :=
  reevaluate
    (match pending_id id a with
     | Some p =>
         if bool_decide (p_kind p = KRelease)
         then remove_disowned (p_session p) (with_pending None a) else a
     | None => a
     end).

(** The segment after [accepted] was acknowledged. *)
Definition ack_cur (accepted committed : Z) (c : Cur) : Cur :=
  let acc := Z.max (cu_accepted c) accepted in
  let seg := cu_seg c in
  let consumed := sub64 acc (sg_base seg) in
  let seg :=
    if 0 <? consumed
    then mk_Segment acc (drop (Z.to_nat (Z.min consumed (zlen (sg_bytes seg)))) (sg_bytes seg))
    else seg in
  mk_Cur (cu_session c) (cu_epoch c) acc (Z.max (cu_committed c) committed) seg.

Definition ack_finalizing (accepted committed : Z) (f : Finalizing) : Finalizing :=
  mk_Finalizing (fz_seg f) (fz_query f) (fz_retry f) (Z.max (fz_high_accepted f) accepted)
    (Z.max (fz_high_committed f) committed).

Definition ack (session epoch accepted committed : Z) (a : Author) : Author * bool :=
  match au_cur a with
  | Some c =>
      if (cu_session c =? session) && (cu_epoch c =? epoch) then
        (with_cur (Some (ack_cur accepted committed c)) a,
         (cu_accepted c <? accepted) || (cu_committed c <? committed))
      else (with_finalizing (alter (ack_finalizing accepted committed) (session, epoch) (au_finalizing a)) a, false)
  | None =>
      (with_finalizing (alter (ack_finalizing accepted committed) (session, epoch) (au_finalizing a)) a, false)
  end.

Definition on_input_ack (attempt : option Z) (session epoch accepted committed : Z) (a : Author)
    : option Author :=
  let a :=
    match attempt with
    | Some t => if holds session epoch a then with_inflight (delete t (au_inflight a)) a else a
    | None => a
    end in
  let '(a, grew) := ack session epoch accepted committed a in
  reevaluate
    (if grew then
       let acc := match au_cur a with Some c => cu_accepted c | None => 0 end in
       with_inflight (bt_retain (λ _ v, acc <? v.2) (au_inflight a)) (with_send_timer false a)
     else a).

Definition on_write_retryable (attempt session epoch : Z) (gap_accepted : option Z) (a : Author)
    : option Author :=
  if negb (holds session epoch a) || bool_decide (au_inflight a !! attempt = None) then Some a else
  let a := match gap_accepted with Some g => (ack session epoch g 0 a).1 | None => a end in
  reevaluate (with_send_timer true (with_inflight ∅ a)).

Definition on_send_timer (a : Author) : option Author := reevaluate (with_send_timer false a).

Definition on_lease_lost (session epoch new_epoch_or_current : Z) (a : Author) : option Author :=
  reevaluate (lose session epoch None (negb (new_epoch_or_current =? 0)) a).

Definition on_vacated (session : Z) (a : Author) : option Author :=
  reevaluate (if session =? au_session a then unsuppress a else a).

Definition on_reclaim_result (id : Z) (ok : bool) (current_epoch accepted committed : Z)
    (finals : option (Z * Z * Z)) (a : Author) : option Author :=
  match pending_id id a with
  | None => Some a
  | Some p =>
      match p_kind p with
      | KProbe =>
          let a := with_pending None a in
          reevaluate
            (if p_session p =? au_session a then
               let a := with_needs_probe false a in
               if current_epoch =? 0 then with_suppressed false a else a
             else a)
      | KReclaim e =>
          let a := with_pending None a in
          reevaluate
            (if holds (p_session p) e a then
               if ok && (current_epoch =? e)
               then (ack (p_session p) e accepted committed (with_inflight ∅ (with_needs_reclaim false a))).1
               else lose (p_session p) e finals (negb (current_epoch =? 0)) a
             else a)
      | _ => Some a
      end
  end.

Definition on_reclaim_epoch_unknown (id : Z) (a : Author) : option Author :=
  match pending_id id a with
  | None => Some a
  | Some p =>
      let a := with_pending None a in
      reevaluate (match p_kind p with KReclaim e => lose (p_session p) e None true a | _ => a end)
  end.

Definition on_epoch_state (id session epoch fa cm pd : Z) (fenced : bool) (a : Author) : option Author :=
  match au_finalizing a !! (session, epoch) with
  | None => Some a
  | Some f =>
      if bool_decide (fz_query f = Some id) then
        let a := with_finalizing (<[(session, epoch) := set_query None f]> (au_finalizing a)) a in
        reevaluate
          (if fenced then classify session epoch (Some (fa, cm, pd)) a
           else
             let a := with_finalizing (alter (set_retry true) (session, epoch) (au_finalizing a)) a in
             let '(a, rid) := new_id a in push (ORelease rid session epoch) a)
      else Some a
  end.

Definition on_epoch_unknown (session epoch : Z) (a : Author) : option Author :=
  reevaluate (classify session epoch None a).

Definition fail_query (id : Z) (f : Finalizing) : Finalizing :=
  if bool_decide (fz_query f = Some id) then set_retry true (set_query None f) else f.

Definition on_request_failed (id : Z) (a : Author) : option Author :=
  let a :=
    match pending_id id a with
    | Some p =>
        let a := if bool_decide (p_kind p = KAcquire) then insert_disowned (p_session p) a else a in
        with_retry_timer true (with_pending None a)
    | None => a
    end in
  reevaluate (map_finalizing (fail_query id) a).

Definition on_retry_timer (a : Author) : option Author :=
  reevaluate (map_finalizing (set_retry false) (with_retry_timer false a)).

Definition on_reconnect (a : Author) : option Author :=
  let a :=
    match au_pending a with
    | Some p => if bool_decide (p_kind p = KAcquire) then insert_disowned (p_session p) a else a
    | None => a
    end in
  let a := with_inflight ∅ (with_retry_timer false (with_pending None a)) in
  let a := if bool_decide (is_Some (au_cur a)) then with_needs_reclaim true a else a in
  let a := if au_suppressed a then with_needs_probe true a else a in
  reevaluate (map_finalizing (set_query None) a).

Definition on_owner_lost (session : Z) (a : Author) : option Author :=
  let a :=
    match current a with
    | Some (s, e) => if s =? session then lose s e None false a else a
    | None => a
    end in
  let lost := filter (λ k, k.1 = session) (bt_keys (au_finalizing a)) in
  let a := foldl (λ a k, classify k.1 k.2 None a) a lost in
  let a := remove_disowned session a in
  reevaluate
    (match au_pending a with
     | Some p => if p_session p =? session then with_pending None a else a
     | None => a
     end).
