(* ===== verification/AuthorSpec.v ===== *)
(** * Input author: specification

    What [Author] promises the person typing: every typed byte is assigned to
    the stream of one epoch (or reported undelivered), every chunk sent is a
    piece of its epoch's stream at the offset it names, and every byte of a
    stream is acknowledged by the host, still held, or reported with a status.
    The specification state [Ghost] records the streams; [ok] ties it to the
    program state.  The outputs of a run are kept in [au_out]: [take_out] only
    hands them to the caller, and no handler reads them. *)

From S2P Require Import Prelude Author.
From Stdlib Require Import ZArith Lia Strings.Byte.
From stdpp Require Import base gmap list option sorting.

#[local] Open Scope Z_scope.

(** ** Specification state *)

(** Where typed bytes went, in order: into an epoch's stream, or nowhere. *)
Inductive Seg : Type :=
| SEpoch (k : Z * Z)
| SUndelivered (bytes : list byte).

Record Ghost := mk_Ghost {
  gh_typed : list byte;
  gh_segs : list Seg;
  gh_streams : gmap (Z * Z) (list byte);
  (** The highest [accepted] the host reported of an epoch. *)
  gh_acked : gmap (Z * Z) Z;
}.

Definition stream (g : Ghost) (k : Z * Z) : list byte := default [] (gh_streams g !! k).
Definition acked (g : Ghost) (k : Z * Z) : Z := Z.max 0 (default 0 (gh_acked g !! k)).
Definition content (g : Ghost) (s : Seg) : list byte :=
  match s with SEpoch k => stream g k | SUndelivered b => b end.

Definition cur_key (c : Cur) : Z * Z := (cu_session c, cu_epoch c).
Definition fin_segs (a : Author) : gmap (Z * Z) Segment := fz_seg <$> au_finalizing a.

(** A segment holds its stream from [base] on. *)
Definition seg_ok (g : Ghost) (k : Z * Z) (s : Segment) : Prop :=
  0 <= sg_base s <= zlen (stream g k) ∧ sg_base s <= acked g k ∧
  sg_bytes s = drop (Z.to_nat (sg_base s)) (stream g k).

(** The rest of an epoch's stream was reported, with one status per byte. *)
Definition reported (g : Ghost) (out : list Out) (k : Z * Z) : Prop :=
  ∃ off st, OClassified k.1 k.2 off (drop (Z.to_nat off) (stream g k)) st ∈ out ∧
    0 <= off <= acked g k ∧ length st = length (drop (Z.to_nat off) (stream g k)).

Definition write_ok (g : Ghost) (o : Out) : Prop :=
  match o with
  | OWrite _ se ep start bytes =>
      0 <= start ∧ 0 < zlen bytes <= CHUNK ∧ start + zlen bytes <= zlen (stream g (se, ep)) ∧
      bytes = take (length bytes) (drop (Z.to_nat start) (stream g (se, ep)))
  | _ => True
  end.

(** ** Invariant *)

Section core.
Context (cur : option Cur) (unassigned : list byte) (fin : gmap (Z * Z) Segment) (out : list Out)
  (pending : option Pending) (g : Ghost).

Record core_ok : Prop := {
  ok_typed : gh_typed g = (gh_segs g ≫= content g) ++ unassigned;
  ok_cur : ∀ c, cur = Some c →
    unassigned = [] ∧ last (gh_segs g) = Some (SEpoch (cur_key c)) ∧ fin !! cur_key c = None ∧
    seg_ok g (cur_key c) (cu_seg c) ∧ cu_accepted c = sg_base (cu_seg c);
  ok_pending : is_Some cur → ∀ p, pending = Some p → p_kind p ≠ KAcquire;
  ok_fin : ∀ k s, fin !! k = Some s → seg_ok g k s ∧ SEpoch k ∈ gh_segs g;
  ok_epochs : ∀ k, SEpoch k ∈ gh_segs g →
    (∃ c, cur = Some c ∧ cur_key c = k) ∨ is_Some (fin !! k) ∨ reported g out k;
  ok_undelivered : ∀ b, SUndelivered b ∈ gh_segs g →
    ∃ se, OClassified se 0 0 b (replicate (length b) NotDelivered) ∈ out;
  ok_writes : Forall (write_ok g) out;
  ok_nodup : NoDup (gh_segs g ≫= λ s, match s with SEpoch k => [k] | SUndelivered _ => [] end);
  ok_keys : ∀ k, is_Some (gh_streams g !! k) ↔ SEpoch k ∈ gh_segs g;
  ok_len : zlen (gh_typed g) < 2 ^ 62;
}.
End core.

Definition ok (a : Author) (g : Ghost) : Prop :=
  core_ok (au_cur a) (au_unassigned a) (fin_segs a) (au_out a) (au_pending a) g.

(** ** Lemmas: the parts that do not touch the streams *)

Definition harmless (o : Out) : Prop := match o with OWrite _ _ _ _ _ => False | _ => True end.

Lemma core_out_app cur una fin out out' pend g :
  core_ok cur una fin out pend g → Forall (write_ok g) out' → core_ok cur una fin (out ++ out') pend g.
Proof.
  intros [] Hw. split; try done.
  - intros k Hk. destruct (ok_epochs0 k Hk) as [?|[?|(off & st & ? & ?)]]; [by auto..|].
    right; right. exists off, st. split; [set_solver|done].
  - intros b Hb. destruct (ok_undelivered0 b Hb) as [se ?]. exists se. set_solver.
  - by apply Forall_app.
Qed.

Lemma ok_push o a g : ok a g → harmless o → ok (push o a) g.
Proof.
  intros Hok Ho. apply core_out_app; [done|]. constructor; [|constructor]. by destruct o.
Qed.

Lemma ok_no_pending a g : ok a g → ok (with_pending None a) g.
Proof. intros []. by split. Qed.

Lemma ok_request k se a g : ok a g → (k = KAcquire → au_cur a = None) → ok (request k se a) g.
Proof.
  intros Hok Hk. unfold request. cbn [new_id]. apply ok_push; [|by destruct k].
  destruct Hok. split; try done. cbn. intros [c Hc] p [= <-]. cbn. intros ->. by rewrite Hk in Hc.
Qed.

Lemma fin_segs_alter (f : Finalizing → Finalizing) (k : Z * Z) (m : gmap (Z * Z) Finalizing) :
  (∀ x, fz_seg (f x) = fz_seg x) → fz_seg <$> alter f k m = fz_seg <$> m.
Proof.
  intros Hf. apply map_eq. intros k'. rewrite !lookup_fmap. destruct (decide (k = k')) as [->|Hne].
  - rewrite lookup_alter_eq. destruct (m !! k'); cbn; [by rewrite Hf|done].
  - by rewrite lookup_alter_ne.
Qed.

Lemma fin_segs_fmap (f : Finalizing → Finalizing) (m : gmap (Z * Z) Finalizing) :
  (∀ x, fz_seg (f x) = fz_seg x) → fz_seg <$> (f <$> m) = fz_seg <$> m.
Proof. intros Hf. rewrite <- map_fmap_compose. apply map_fmap_ext. intros. apply Hf. Qed.

Lemma ok_finalizing (m : gmap (Z * Z) Finalizing) a g :
  fz_seg <$> m = fin_segs a → ok a g → ok (with_finalizing m a) g.
Proof. intros Hm Hok. unfold ok, fin_segs in *. cbn. by rewrite Hm. Qed.

Lemma ok_query_due k a g : ok a g → ok (query_due a k) g.
Proof.
  intros Hok. unfold query_due. cbn [new_id]. apply ok_push; [|done].
  apply (ok_finalizing _ (with_next_id (add64 (au_next_id a) 1) a)); [|done]. cbn. by apply fin_segs_alter.
Qed.

Lemma ok_queries ks a g : ok a g → ok (foldl query_due a ks) g.
Proof. revert a. induction ks as [|k ks IH]; intros a Hok; [done|]. by apply IH, ok_query_due. Qed.

Lemma statuses_length finals f : length (statuses_of finals f) = length (sg_bytes (fz_seg f)).
Proof. apply length_imap. Qed.

Lemma ok_classify se ep finals a g : ok a g → ok (classify se ep finals a) g.
Proof.
  intros Hok. unfold classify. destruct (au_finalizing a !! (se, ep)) as [f|] eqn:Ef; [|done].
  assert (fin_segs a !! (se, ep) = Some (fz_seg f)) as Hf by (unfold fin_segs; by rewrite lookup_fmap, Ef).
  pose proof (ok_fin _ _ _ _ _ _ Hok _ _ Hf) as [(Hb & Hba & Hs) _].
  assert (fin_segs (with_finalizing (delete (se, ep) (au_finalizing a)) a) = delete (se, ep) (fin_segs a)) as Hd
    by apply fmap_delete.
  pose proof (core_out_app _ _ _ _ [OClassified se ep (sg_base (fz_seg f)) (sg_bytes (fz_seg f))
    (statuses_of finals f)] _ _ Hok ltac:(by repeat constructor)) as Hok'.
  unfold ok. cbn [push with_out with_finalizing au_cur au_unassigned au_out au_pending fin_segs au_finalizing].
  unfold fin_segs in Hd. cbn in Hd. unfold fin_segs. cbn. rewrite Hd.
  destruct Hok'. split; try done.
  - intros c Hc. destruct (ok_cur0 c Hc) as (? & ? & Hn & ?). split_and!; try done; try tauto.
    by apply lookup_delete_None; right.
  - intros k s Hk. apply lookup_delete_Some in Hk as [_ Hk]. eauto.
  - intros k Hk. destruct (ok_epochs0 k Hk) as [?|[Hin|?]]; [by auto| |by auto].
    destruct (decide ((se, ep) = k)) as [<-|Hne]; [|by rewrite lookup_delete_ne; auto].
    right; right. exists (sg_base (fz_seg f)), (statuses_of finals f). cbn. rewrite <- Hs, statuses_length.
    split; [set_solver|lia].
Qed.

(** ** Lemmas: losing a lease *)

Lemma holds_cur se ep a c : au_cur a = Some c → holds se ep a = true → cur_key c = (se, ep).
Proof. intros Hc. unfold holds. rewrite Hc. intros. bool_hyps. unfold cur_key. f_equal; lia. Qed.

(** The current segment moves to the finalizing ones. *)
Lemma core_lose c k seg una fin out pend pend' g :
  core_ok (Some c) una fin out pend g → cur_key c = k → cu_seg c = seg →
  core_ok None una (<[k := seg]> fin) out pend' g.
Proof.
  intros [] <- <-. split; try done.
  - intros k s. destruct (decide (cur_key c = k)) as [<-|Hne].
    + rewrite lookup_insert_eq. intros [= <-]. destruct (ok_cur0 c eq_refl) as (_ & Hl & _ & ? & _).
      split; [done|]. apply last_Some in Hl as [l ->]. set_solver.
    + rewrite lookup_insert_ne by done. auto.
  - intros k Hk. destruct (decide (cur_key c = k)) as [<-|Hne].
    + right; left. rewrite lookup_insert_eq. eauto.
    + rewrite lookup_insert_ne by done. destruct (ok_epochs0 k Hk) as [(c' & [= <-] & ?)|?]; [done|auto].
Qed.

Lemma ok_lose se ep finals other a g : ok a g → ok (lose se ep finals other a) g.
Proof.
  intros Hok. unfold lose. destruct (holds se ep a) eqn:Hh; cbn [negb]; [|done].
  destruct (au_cur a) as [c|] eqn:Hc; [|done]. cbv zeta.
  pose proof (holds_cur _ _ _ _ Hc Hh) as Hk.
  set (a1 := with_send_timer false (with_needs_reclaim false (with_inflight ∅ (with_cur None a)))).
  set (a2 := match au_pending a1 with Some p => _ | None => a1 end).
  assert (au_cur a2 = None ∧ au_unassigned a2 = au_unassigned a ∧ au_finalizing a2 = au_finalizing a ∧
    au_out a2 = au_out a) as (E1 & E2 & E3 & E4).
  { subst a2. destruct (au_pending a1) as [p|]; [|done]. by destruct (_ && _). }
  assert (ok (with_finalizing (<[(se, ep) :=
    mk_Finalizing (cu_seg c) None false (cu_accepted c) (cu_committed c)]> (au_finalizing a2)) a2) g) as Hok2.
  { unfold ok, fin_segs. cbn. rewrite E1, E2, E3, E4, fmap_insert. cbn. unfold ok in Hok. rewrite Hc in Hok.
    by apply (core_lose c _ _ _ _ _ (au_pending a)). }
  set (a3 := with_finalizing _ a2) in *.
  assert (ok (if other then with_suppressed_epoch ep (with_suppressed true a3) else a3) g) as Hok3
    by (by destruct other).
  destruct finals; [by apply ok_classify|done].
Qed.

Lemma ok_release_cur a g : ok a g → ok (release_cur a) g.
Proof.
  intros Hok. unfold release_cur. destruct (current a) as [[se ep]|]; [|done]. cbn [new_id].
  apply ok_lose. by apply ok_push.
Qed.

Lemma ok_next_request a g : ok a g → ok (next_request a) g.
Proof.
  intros Hok. unfold next_request. destruct (au_cur a) as [c|] eqn:Hc.
  - destruct (au_needs_reclaim a); [by apply ok_request|]. cbn.
    destruct (bs_first _); [by apply ok_request|done].
  - rewrite bool_decide_true by done. cbn [andb].
    destruct (_ && _); [by apply ok_request|]. destruct (acquire_cond a); [by apply ok_request|].
    destruct (bs_first _); [by apply ok_request|done].
Qed.

(** ** Lemmas: sending *)

Lemma send_loop_spec fuel se ep window_end next seg a g c :
  ok a g → au_cur a = Some c → cur_key c = (se, ep) → cu_seg c = seg →
  sg_base seg <= next → window_end <= seg_end seg →
  ∃ a', send_loop fuel se ep window_end next seg a = Some a' ∧ ok a' g ∧
    au_cur a' = au_cur a ∧ (Z.of_nat (size (au_inflight a)) <= MAX_INFLIGHT →
      Z.of_nat (size (au_inflight a')) <= MAX_INFLIGHT).
Proof.
  intros Hok Hc Hk Hseg. revert next a Hok Hc. induction fuel as [|fuel IH]; intros next a Hok Hc Hn Hw.
  { by exists a. }
  cbn [send_loop]. destruct (_ && _) eqn:E; [|by exists a]. apply andb_true_iff in E as [Hsz Hlt].
  pose proof (ok_cur _ _ _ _ _ _ Hok c Hc) as (_ & _ & _ & (Hb & _ & Hs) & _). rewrite Hseg in Hb, Hs.
  pose proof (ok_len _ _ _ _ _ _ Hok) as Hlen.
  assert (zlen (stream g (cur_key c)) <= zlen (gh_typed g)) as Hst.
  { rewrite (ok_typed _ _ _ _ _ _ Hok), zlen_app.
    pose proof (ok_cur _ _ _ _ _ _ Hok c Hc) as (_ & Hl & _). apply last_Some in Hl as [l ->].
    rewrite bind_app, zlen_app. cbn. rewrite app_nil_r.
    pose proof (zlen_nonneg (l ≫= content g)). pose proof (zlen_nonneg (au_unassigned a)). lia. }
  pose proof (zlen_nonneg (sg_bytes seg)).
  assert (zlen (sg_bytes seg) = zlen (stream g (cur_key c)) - sg_base seg) as Hlb
    by (rewrite Hs; by apply zlen_drop).
  unfold seg_end in Hw. unfold CHUNK, u64_max in *. rewrite add64_id in Hw by (unfold u64_max; lia).
  rewrite (add64_id next) by (unfold u64_max; lia).
  set (stop := Z.min window_end (next + 64 * 1024)).
  rewrite !sub64_id by (unfold u64_max; lia). unfold slice.
  rewrite (proj2 (Z.leb_le _ _)), (proj2 (Z.leb_le _ _)) by lia. cbn [andb mbind option_bind new_id].
  set (bytes := take _ _). cbv zeta.
  assert (zlen bytes = stop - next) as Hbl.
  { subst bytes. unfold zlen in *. rewrite length_take, length_drop. lia. }
  match goal with |- context [send_loop fuel se ep window_end stop seg ?x] => set (a1 := x) end.
  assert (ok a1 g) as Hok1.
  { apply (core_out_app _ _ _ _ [OWrite _ se ep next bytes]); [exact Hok|]. constructor; [|constructor].
    cbn. rewrite <- Hk. unfold CHUNK. split_and!; try lia.
    subst bytes. rewrite Hs, drop_drop. unfold zlen in Hbl. replace (length _) with (Z.to_nat (stop - next)).
    - f_equal; [lia|]. f_equal. lia.
    - rewrite <- (Nat2Z.id (length _)). f_equal. rewrite <- Hbl, Hs, drop_drop. done. }
  destruct (IH stop a1 Hok1 Hc ltac:(lia) ltac:(unfold seg_end; rewrite add64_id by (unfold u64_max; lia); lia))
    as (a' & -> & Hok' & Hc' & Hsz').
  exists a'. split_and!; try done. intros _. apply Hsz'. unfold a1. cbn.
  rewrite map_size_insert. unfold MAX_INFLIGHT in *. case_match; cbn; lia.
Qed.

Lemma ok_send a g :
  ok a g → Z.of_nat (size (au_inflight a)) <= MAX_INFLIGHT →
  ∃ a', send a = Some a' ∧ ok a' g ∧ Z.of_nat (size (au_inflight a')) <= MAX_INFLIGHT.
Proof.
  intros Hok Hsz. unfold send. destruct (_ || _); [by exists a|].
  destruct (au_cur a) as [c|] eqn:Hc; [|by exists a].
  destruct (send_loop_spec send_fuel (cu_session c) (cu_epoch c)
    (Z.min (seg_end (cu_seg c)) (add64 (cu_accepted c) SEND_WINDOW))
    (Z.max (default (cu_accepted c) (max_end (au_inflight a))) (cu_accepted c)) (cu_seg c) a g c)
    as (a' & Hs & Hok' & _ & Hsz'); try done; try lia.
  - pose proof (ok_cur _ _ _ _ _ _ Hok c Hc) as (_ & _ & _ & _ & ->). lia.
  - exists a'. auto.
Qed.

Lemma inflight_queries ks a : au_inflight (foldl query_due a ks) = au_inflight a.
Proof. revert a. induction ks as [|k ks IH]; intros a; [done|]. cbn [foldl]. by rewrite IH. Qed.

Lemma inflight_classify se ep f a : au_inflight (classify se ep f a) = au_inflight a.
Proof. unfold classify. by destruct (_ !! _). Qed.

Lemma inflight_lose se ep f o a :
  au_inflight (lose se ep f o a) = au_inflight a ∨ au_inflight (lose se ep f o a) = ∅.
Proof.
  unfold lose. destruct (negb _); [by left|]. destruct (au_cur a) as [c|]; [|by left]. right. cbv zeta.
  set (a1 := with_send_timer _ _). set (a2 := match au_pending a1 with Some p => _ | None => a1 end).
  assert (au_inflight a2 = ∅) as E by (subst a2; destruct (au_pending a1); [by destruct (_ && _)|done]).
  set (a3 := with_finalizing _ a2).
  assert (au_inflight (if o then with_suppressed_epoch ep (with_suppressed true a3) else a3) = ∅) as E3
    by (by destruct o).
  destruct f; [by rewrite inflight_classify|done].
Qed.

Lemma inflight_release_cur a :
  au_inflight (release_cur a) = au_inflight a ∨ au_inflight (release_cur a) = ∅.
Proof.
  unfold release_cur. destruct (current a) as [[se ep]|]; [|by left]. cbn [new_id].
  match goal with |- context [lose se ep None false ?x] => apply (inflight_lose se ep None false x) end.
Qed.

Lemma inflight_next_request a : au_inflight (next_request a) = au_inflight a.
Proof. unfold next_request. repeat case_match; done. Qed.

(** The invariant with the bound on chunks in flight. *)
Definition okb (a : Author) (g : Ghost) : Prop := ok a g ∧ Z.of_nat (size (au_inflight a)) <= MAX_INFLIGHT.

Lemma okb_inflight a a' g :
  ok a' g → okb a g → au_inflight a' = au_inflight a ∨ au_inflight a' = ∅ → okb a' g.
Proof. intros Hok [_ Hsz] [E|E]; split; try done; rewrite E; [done|]. by rewrite map_size_empty. Qed.

Lemma ok_reevaluate a g : okb a g → ∃ a', reevaluate a = Some a' ∧ okb a' g.
Proof.
  intros Hok. unfold reevaluate. cbv zeta.
  assert (okb (foldl query_due a (due a)) g) as H1.
  { eapply okb_inflight; [apply ok_queries, Hok|done|]. left. apply inflight_queries. }
  set (a1 := foldl query_due a (due a)) in *. clearbody a1.
  set (a2 := if bool_decide (is_Some (au_cur a1)) && _ && _ && _ then release_cur a1 else a1).
  assert (okb a2 g) as H2.
  { subst a2. case_match; [|done]. eapply okb_inflight; [apply ok_release_cur, H1|done|apply inflight_release_cur]. }
  clearbody a2.
  set (a3 := if bool_decide (au_pending a2 = None) && negb (au_retry_timer a2) then next_request a2 else a2).
  assert (okb a3 g) as [H3 Hsz].
  { subst a3. case_match; [|done]. eapply okb_inflight; [apply ok_next_request, H2|done|].
    left. apply inflight_next_request. }
  destruct (ok_send a3 g H3 Hsz) as (a' & E & ?). exists a'. split; [exact E|]. done.
Qed.

(** ** Events *)

Inductive Event : Type :=
| EType (b : list byte)
| EFocus (focused : bool)
| ERebind (session : Z)
| EGranted (id session epoch : Z)
| EReleased (id : Z)
| EInputAck (attempt : option Z) (session epoch accepted committed : Z)
| EWriteRetryable (attempt session epoch : Z) (gap_accepted : option Z)
| ESendTimer
| ELeaseLost (session epoch new_epoch : Z)
| EVacated (session : Z)
| EReclaimResult (id : Z) (ok : bool) (current_epoch accepted committed : Z) (finals : option (Z * Z * Z))
| EReclaimEpochUnknown (id : Z)
| EEpochState (id session epoch fa cm pd : Z) (fenced : bool)
| EEpochUnknown (session epoch : Z)
| ERequestFailed (id : Z)
| ERetryTimer
| EReconnect
| EOwnerLost (session : Z).

Definition author_step (e : Event) (a : Author) : option Author :=
  match e with
  | EType b => type_bytes b a
  | EFocus f => set_focus f a
  | ERebind s => rebind s a
  | EGranted id s ep => on_granted id s ep a
  | EReleased id => on_released id a
  | EInputAck t s ep acc com => on_input_ack t s ep acc com a
  | EWriteRetryable t s ep gap => on_write_retryable t s ep gap a
  | ESendTimer => on_send_timer a
  | ELeaseLost s ep n => on_lease_lost s ep n a
  | EVacated s => on_vacated s a
  | EReclaimResult id okb ce acc com fin => on_reclaim_result id okb ce acc com fin a
  | EReclaimEpochUnknown id => on_reclaim_epoch_unknown id a
  | EEpochState id s ep fa cm pd fenced => on_epoch_state id s ep fa cm pd fenced a
  | EEpochUnknown s ep => on_epoch_unknown s ep a
  | ERequestFailed id => on_request_failed id a
  | ERetryTimer => on_retry_timer a
  | EReconnect => on_reconnect a
  | EOwnerLost s => on_owner_lost s a
  end.

(** A grant starts a stream with the waiting bytes. *)
Definition grant_taken (id session epoch : Z) (a : Author) : bool :=
  match au_pending a with
  | Some p => (p_id p =? id) && bool_decide (p_kind p = KAcquire) && (p_session p =? session)
              && (session =? au_session a) && au_focused a && negb (au_suppressed a)
  | None => false
  end.

Definition add_acked (k : Z * Z) (n : Z) (g : Ghost) : Ghost :=
  mk_Ghost (gh_typed g) (gh_segs g) (gh_streams g) (<[k := Z.max (acked g k) n]> (gh_acked g)).

(** What the host acknowledges with an event. *)
Definition event_ack (e : Event) (a : Author) : option (Z * Z * Z) :=
  match e with
  | EInputAck _ s ep acc _ => Some (s, ep, acc)
  | EWriteRetryable _ s ep (Some gap) => Some (s, ep, gap)
  | EReclaimResult id true ce acc _ _ =>
      match pending_id id a with
      | Some (mk_Pending _ (KReclaim ep) s) => if ce =? ep then Some (s, ep, acc) else None
      | _ => None
      end
  | _ => None
  end.

Definition ghost_step (e : Event) (a : Author) (g : Ghost) : Ghost :=
  match e with
  | EType b =>
      mk_Ghost (gh_typed g ++ b) (gh_segs g)
        (match au_cur a with
         | Some c => <[cur_key c := stream g (cur_key c) ++ b]> (gh_streams g)
         | None => gh_streams g
         end) (gh_acked g)
  | EGranted id s ep =>
      if grant_taken id s ep a
      then mk_Ghost (gh_typed g) (gh_segs g ++ [SEpoch (s, ep)])
             (<[(s, ep) := au_unassigned a]> (gh_streams g)) (gh_acked g)
      else g
  | ERebind _ =>
      match au_unassigned a with
      | [] => g
      | b => mk_Ghost (gh_typed g) (gh_segs g ++ [SUndelivered b]) (gh_streams g) (gh_acked g)
      end
  | _ => match event_ack e a with Some (k, n) => add_acked k n g | None => g end
  end.

(** The host grants an epoch once, and acknowledges no more than was typed into
    it. *)
Definition good_event (e : Event) (a : Author) (g : Ghost) : Prop :=
  match e with
  | EType b => zlen (gh_typed g ++ b) < 2 ^ 62
  | EGranted id s ep => grant_taken id s ep a = true → gh_streams g !! (s, ep) = None
  | _ => match event_ack e a with
         | Some (k, n) => ∀ c, au_cur a = Some c → cur_key c = k → 0 <= n <= zlen (stream g k)
         | None => True
         end
  end.

Fixpoint author_run (es : list Event) (a : Author) (g : Ghost) : option (Author * Ghost) :=
  match es with
  | [] => Some (a, g)
  | e :: es' => a' ← author_step e a; author_run es' a' (ghost_step e a g)
  end.
Fixpoint good_run (es : list Event) (a : Author) (g : Ghost) : Prop :=
  match es with
  | [] => True
  | e :: es' => good_event e a g ∧ ∀ a', author_step e a = Some a' → good_run es' a' (ghost_step e a g)
  end.

Definition ghost_empty : Ghost := mk_Ghost [] [] ∅ ∅.

(** ** Lemmas: how the specification state moves *)

Lemma stream_insert_eq typed segs g k s acks :
  stream (mk_Ghost typed segs (<[k := s]> (gh_streams g)) acks) k = s.
Proof. unfold stream. cbn. by rewrite lookup_insert_eq. Qed.

Lemma stream_insert_ne typed segs g k s acks k' :
  k ≠ k' → stream (mk_Ghost typed segs (<[k := s]> (gh_streams g)) acks) k' = stream g k'.
Proof. intros. unfold stream. cbn. by rewrite lookup_insert_ne. Qed.

Lemma acked_mono k n g k' : acked g k' <= acked (add_acked k n g) k'.
Proof.
  unfold acked, add_acked. cbn [gh_acked]. destruct (decide (k = k')) as [->|Hne].
  - rewrite lookup_insert_eq. cbn. unfold acked. lia.
  - by rewrite lookup_insert_ne.
Qed.

Lemma acked_add k n g : n <= acked (add_acked k n g) k.
Proof. unfold acked, add_acked. cbn [gh_acked]. rewrite lookup_insert_eq. cbn. lia. Qed.

Lemma ok_acked k n a g : ok a g → ok a (add_acked k n g).
Proof.
  intros [].
  assert (∀ k' s, seg_ok g k' s → seg_ok (add_acked k n g) k' s) as Hseg.
  { intros k' s (? & ? & ?). split; [done|]. split; [|done]. etrans; [done|apply acked_mono]. }
  split; try done.
  - intros c Hc. destruct (ok_cur0 c Hc) as (? & ? & ? & ? & ?). split_and!; auto.
  - intros k' s Hs. destruct (ok_fin0 k' s Hs). auto.
  - intros k' Hk. destruct (ok_epochs0 k' Hk) as [?|[?|(off & st & ? & ? & ?)]]; [by auto..|].
    right; right. exists off, st. split; [done|]. split; [|done].
    pose proof (acked_mono k n g k'). lia.
Qed.

(** Streams only grow at the end. *)
Lemma write_ok_grow g g' o :
  (∀ k, stream g k `prefix_of` stream g' k) → write_ok g o → write_ok g' o.
Proof.
  intros Hp. destruct o; cbn; try done. intros (H1 & H2 & H3 & H4).
  destruct (Hp (session, epoch)) as [t ->]. rewrite zlen_app. pose proof (zlen_nonneg t).
  split_and!; try done; try lia. rewrite drop_app_le by (unfold zlen in *; lia).
  rewrite take_app_le by (rewrite length_drop; unfold zlen in *; lia). done.
Qed.

Definition keys (l : list Seg) : list (Z * Z) :=
  l ≫= λ s, match s with SEpoch k => [k] | SUndelivered _ => [] end.

Lemma elem_of_keys k l : k ∈ keys l ↔ SEpoch k ∈ l.
Proof.
  unfold keys. rewrite list_elem_of_bind. split.
  - intros ([k'|b] & Hk & Hin); [|set_solver]. apply list_elem_of_singleton in Hk as ->. done.
  - intros Hin. exists (SEpoch k). split; [set_solver|done].
Qed.

Lemma content_ext g g' l :
  (∀ k, SEpoch k ∈ l → stream g' k = stream g k) → l ≫= content g' = l ≫= content g.
Proof.
  induction l as [|s l IH]; intros H; [done|]. cbn. rewrite IH by set_solver. f_equal.
  destruct s; cbn; [|done]. apply H. set_solver.
Qed.

(** Typing into the current epoch. *)
Lemma ok_type_cur b c a g :
  ok a g → au_cur a = Some c → zlen (gh_typed g ++ b) < 2 ^ 62 →
  ok (with_cur (Some (extend_seg b c)) a) (ghost_step (EType b) a g).
Proof.
  intros Hok Hc Hlen. cbn [ghost_step]. rewrite Hc. unfold ok in *. rewrite Hc in Hok.
  set (k := cur_key c). set (g' := mk_Ghost _ _ _ _).
  assert (stream g' k = stream g k ++ b) as Hk by apply stream_insert_eq.
  assert (∀ k', k ≠ k' → stream g' k' = stream g k') as Hne by (intros; by apply stream_insert_ne).
  destruct Hok. destruct (ok_cur0 c eq_refl) as (Hu & Hl & Hf & (Hb & Hba & Hs) & Hacc).
  assert (∀ k' s, k ≠ k' → seg_ok g k' s → seg_ok g' k' s) as Hseg.
  { intros k' s Hn (? & ? & ?). unfold seg_ok. by rewrite Hne. }
  assert (SEpoch k ∈ gh_segs g) as Hin by (apply last_Some in Hl as [l ->]; set_solver).
  split; cbn [au_cur au_unassigned au_out au_pending with_cur]; try done.
  - change (gh_typed g ++ b = (gh_segs g ≫= content g') ++ au_unassigned a).
    rewrite ok_typed0, Hu, !app_nil_r. apply last_Some in Hl as [l Hl]. rewrite Hl in *.
    rewrite !bind_app. cbn. rewrite !app_nil_r. fold k. rewrite Hk, app_assoc. do 2 f_equal.
    symmetry. apply content_ext. intros k' Hk'. apply Hne. intros <-.
    change (NoDup (keys (l ++ [SEpoch k]))) in ok_nodup0. unfold keys in ok_nodup0. rewrite bind_app in ok_nodup0.
    apply NoDup_app in ok_nodup0 as (_ & Hx & _). apply (Hx k); [by apply elem_of_keys|cbn; set_solver].
  - intros c' [= <-]. change (cur_key (extend_seg b c)) with k. split_and!; try done.
    unfold seg_ok. cbn [extend_seg cu_seg sg_base sg_bytes]. fold k in Hb, Hs, Hba. rewrite Hk, zlen_app.
    pose proof (zlen_nonneg b). split; [lia|]. split; [done|].
    rewrite Hs, drop_app_le by (unfold zlen in *; lia). done.
  - intros _ p Hp. by apply ok_pending0.
  - intros k' s Hs'. destruct (ok_fin0 k' s Hs') as [? ?]. split; [|done]. apply Hseg; [|done].
    intros <-. change (fin_segs a !! cur_key c = Some s) in Hs'. congruence.
  - intros k' Hk'. destruct (decide (k = k')) as [<-|Hn]; [left; by eexists|].
    destruct (ok_epochs0 k' Hk') as [(c' & [= <-] & ?)|[?|(off & st & ?)]]; [done|by auto|].
    right; right. exists off, st. by rewrite Hne.
  - eapply Forall_impl; [done|]. intros o. apply write_ok_grow. intros k'.
    destruct (decide (k = k')) as [<-|Hn]; [rewrite Hk; by eexists|by rewrite Hne].
  - intros k'. cbn. rewrite <- ok_keys0. destruct (decide (k = k')) as [<-|Hn].
    + rewrite lookup_insert_eq. split; [|eauto]. intros _. by apply ok_keys0.
    + by rewrite lookup_insert_ne.
Qed.

(** Typing without a lease. *)
Lemma ok_type_wait b a g :
  ok a g → au_cur a = None → zlen (gh_typed g ++ b) < 2 ^ 62 →
  ok (with_unassigned (au_unassigned a ++ b) a) (ghost_step (EType b) a g).
Proof.
  intros Hok Hc Hlen. cbn [ghost_step]. rewrite Hc. unfold ok in *. cbn [with_unassigned au_cur].
  rewrite Hc in *. destruct Hok. split; try done. cbn. rewrite ok_typed0. by rewrite <- app_assoc.
Qed.

Lemma acked_nonneg g k : 0 <= acked g k.
Proof. unfold acked. lia. Qed.

(** A grant opens a stream with the waiting bytes. *)
Lemma core_grant k com una fin out pend g :
  core_ok None una fin out pend g → gh_streams g !! k = None →
  core_ok (Some (mk_Cur k.1 k.2 0 com (mk_Segment 0 una))) [] fin out None
    (mk_Ghost (gh_typed g) (gh_segs g ++ [SEpoch k]) (<[k := una]> (gh_streams g)) (gh_acked g)).
Proof.
  intros Hok Hk. set (g' := mk_Ghost _ _ _ _). set (c := mk_Cur _ _ _ _ _).
  assert (cur_key c = k) as Hck by (by destruct k).
  assert (stream g' k = una) as Hst by apply stream_insert_eq.
  assert (∀ k', k ≠ k' → stream g' k' = stream g k') as Hne by (intros; by apply stream_insert_ne).
  destruct Hok. assert (SEpoch k ∉ gh_segs g) as Hnin.
  { intros Hin. apply ok_keys0 in Hin as [? ?]. congruence. }
  assert (∀ k', SEpoch k' ∈ gh_segs g → k ≠ k') as Hdiff by (intros k' Hin <-; done).
  split.
  - cbn [gh_typed gh_segs g']. rewrite bind_app. cbn. rewrite !app_nil_r. fold g'. rewrite Hst, ok_typed0.
    f_equal. symmetry. apply content_ext. intros k' Hk'. apply Hne. auto.
  - intros c' [= <-]. rewrite Hck. split_and!; try done.
    + cbn. by rewrite last_snoc.
    + destruct (fin !! k) as [s|] eqn:E; [|done]. destruct (ok_fin0 k s E). done.
    + unfold seg_ok. rewrite Hst. cbn. pose proof (zlen_nonneg una). pose proof (acked_nonneg g' k). done.
  - intros _ p [=].
  - intros k' s Hs. destruct (ok_fin0 k' s Hs) as [(? & ? & ?) Hin]. split; [|set_solver].
    unfold seg_ok. by rewrite Hne by auto.
  - intros k' Hk'. apply elem_of_app in Hk' as [Hk'|Hk'].
    + right. destruct (ok_epochs0 k' Hk') as [(? & [=] & _)|[?|(off & st & ?)]]; [by left|]. right.
      exists off, st. by rewrite Hne by auto.
    + left. apply list_elem_of_singleton in Hk'. exists c. split; [done|]. congruence.
  - intros b Hb. apply ok_undelivered0. cbn in Hb. set_solver.
  - eapply Forall_impl; [done|]. intros o. apply write_ok_grow. intros k'.
    destruct (decide (k = k')) as [<-|Hn]; [|by rewrite Hne].
    unfold stream at 1. rewrite Hk. apply prefix_nil.
  - cbn [gh_segs g']. rewrite bind_app. apply NoDup_app. split; [done|]. split; [|apply NoDup_singleton].
    intros k' Hk'. apply elem_of_keys in Hk'. cbn. specialize (Hdiff k' Hk'). set_solver.
  - intros k'. cbn. rewrite elem_of_app, <- ok_keys0, list_elem_of_singleton.
    destruct (decide (k = k')) as [<-|Hn].
    + rewrite lookup_insert_eq. split; [by right|]. eauto.
    + rewrite lookup_insert_ne by done. split; [by left|]. intros [?|[= ->]]; done.
  - done.
Qed.

(** Bytes that never reached an epoch are reported undelivered. *)
Lemma core_undelivered se una fin out pend g :
  core_ok None una fin out pend g →
  core_ok None [] fin (out ++ [OClassified se 0 0 una (replicate (length una) NotDelivered)]) pend
    (mk_Ghost (gh_typed g) (gh_segs g ++ [SUndelivered una]) (gh_streams g) (gh_acked g)).
Proof.
  intros Hok. apply (core_out_app _ _ _ _ [OClassified se 0 0 una (replicate (length una) NotDelivered)]) in Hok;
    [|by repeat constructor].
  destruct Hok. split; try done.
  - cbn [gh_typed gh_segs]. rewrite bind_app. cbn. rewrite !app_nil_r. done.
  - intros k s Hs. destruct (ok_fin0 k s Hs). split; [done|]. cbn. set_solver.
  - intros k Hk. apply ok_epochs0. cbn in Hk. set_solver.
  - intros b Hb. apply elem_of_app in Hb as [Hb|Hb]; [by apply ok_undelivered0|].
    apply list_elem_of_singleton in Hb as [= ->]. exists se. set_solver.
  - cbn [gh_segs]. rewrite bind_app. cbn. by rewrite app_nil_r.
  - intros k. cbn. rewrite ok_keys0. set_solver.
Qed.

(** An acknowledgement advances the segment along its stream. *)
Lemma ack_cur_ok g k acc com c :
  seg_ok g k (cu_seg c) → cu_accepted c = sg_base (cu_seg c) → zlen (stream g k) < 2 ^ 62 →
  0 <= acc <= zlen (stream g k) → acc <= acked g k →
  seg_ok g k (cu_seg (ack_cur acc com c)) ∧
  cu_accepted (ack_cur acc com c) = sg_base (cu_seg (ack_cur acc com c)).
Proof.
  intros (Hb & Hba & Hs) Ha Hl Hacc Hak. unfold ack_cur. cbv zeta. rewrite Ha.
  rewrite sub64_id by (unfold u64_max; lia).
  destruct (0 <? _) eqn:E; cbn [cu_seg cu_accepted sg_base sg_bytes].
  - split; [|done]. unfold seg_ok. cbn [sg_base sg_bytes]. split; [lia|]. split; [lia|].
    rewrite Hs, drop_drop. f_equal. rewrite zlen_drop by lia. lia.
  - split; [by unfold seg_ok|]. lia.
Qed.

Lemma stream_short a g k : ok a g → zlen (stream g k) < 2 ^ 62.
Proof.
  intros Hok. destruct (gh_streams g !! k) as [s|] eqn:E; [|unfold stream; rewrite E; done].
  assert (SEpoch k ∈ gh_segs g) as Hin by (apply (ok_keys _ _ _ _ _ _ Hok); eauto).
  pose proof (ok_len _ _ _ _ _ _ Hok) as Hl. rewrite (ok_typed _ _ _ _ _ _ Hok) in Hl.
  apply list_elem_of_split in Hin as (l1 & l2 & Hl12). rewrite Hl12, bind_app in Hl. cbn in Hl.
  rewrite !zlen_app in Hl.
  pose proof (zlen_nonneg (l1 ≫= content g)). pose proof (zlen_nonneg (l2 ≫= content g)).
  pose proof (zlen_nonneg (au_unassigned a)). unfold mbind in *. lia.
Qed.

Lemma ok_ack se ep acc com a g :
  ok a g → (∀ c, au_cur a = Some c → cur_key c = (se, ep) → 0 <= acc <= zlen (stream g (se, ep))) →
  ok (ack se ep acc com a).1 (add_acked (se, ep) acc g).
Proof.
  intros Hok Hv. apply (ok_acked (se, ep) acc) in Hok. set (g' := add_acked _ _ _) in *.
  assert (ok (with_finalizing (alter (ack_finalizing acc com) (se, ep) (au_finalizing a)) a) g') as Hfin
    by (apply ok_finalizing; [by apply fin_segs_alter|done]).
  unfold ack. destruct (au_cur a) as [c|] eqn:Hc; [|done].
  destruct (_ && _) eqn:E; [|done]. bool_hyps. cbn [fst].
  assert (cur_key c = (se, ep)) as Hk by (unfold cur_key; f_equal; lia).
  pose proof (stream_short a g' (se, ep) Hok) as Hsh. unfold ok in *. rewrite Hc in Hok.
  destruct Hok. destruct (ok_cur0 c eq_refl) as (Hu & Hl & Hf & Hs & Ha). rewrite Hk in *.
  destruct (ack_cur_ok g' (se, ep) acc com c) as [Hs' Ha']; try done; [by apply (Hv c)|apply acked_add|].
  split; try done; cbn [au_cur with_cur au_unassigned au_out au_pending].
  - intros c' [= <-]. change (cur_key (ack_cur acc com c)) with (cur_key c). rewrite Hk. done.
  - intros _ p Hp. by apply ok_pending0.
  - intros k' Hk'. destruct (ok_epochs0 k' Hk') as [(c' & [= <-] & <-)|?]; [left; by eexists|auto].
Qed.

(** ** Lemmas: every event keeps the invariant *)

(** Fields the invariant reads. *)
Definition same_view (a a' : Author) : Prop :=
  au_cur a' = au_cur a ∧ au_unassigned a' = au_unassigned a ∧ fin_segs a' = fin_segs a ∧ au_out a' = au_out a ∧
  (au_pending a' = au_pending a ∨ au_pending a' = None).

Lemma ok_view a a' g : same_view a a' → ok a g → ok a' g.
Proof.
  intros (E1 & E2 & E3 & E4 & E5) Hok. unfold ok in *. rewrite E1, E2, E3, E4.
  destruct E5 as [->| ->]; [done|]. destruct Hok. by split.
Qed.

Lemma okb_view a a' g :
  same_view a a' → au_inflight a' = au_inflight a ∨ au_inflight a' = ∅ → okb a g → okb a' g.
Proof. intros Hv Hi Hok. eapply okb_inflight; [|exact Hok|exact Hi]. eapply ok_view; [done|apply Hok]. Qed.

Lemma size_bt_retain (f : Z → Z * Z → bool) (m : gmap Z (Z * Z)) :
  (size (bt_retain f m) <= size m)%nat.
Proof. apply map_subseteq_size. apply map_filter_subseteq. Qed.

Lemma size_delete_le (k : Z) (m : gmap Z (Z * Z)) : (size (delete k m) <= size m)%nat.
Proof. apply map_subseteq_size, delete_subseteq. Qed.

Lemma okb_shrink a m g : okb a g → (size m <= size (au_inflight a))%nat → okb (with_inflight m a) g.
Proof. intros [Hok Hsz] Hm. split; [exact Hok|]. cbn. lia. Qed.

Lemma okb_lose se ep f o a g : okb a g → okb (lose se ep f o a) g.
Proof. intros Hok. eapply okb_inflight; [apply ok_lose, Hok|done|apply inflight_lose]. Qed.

Lemma okb_classify se ep f a g : okb a g → okb (classify se ep f a) g.
Proof. intros Hok. eapply okb_inflight; [apply ok_classify, Hok|done|left; apply inflight_classify]. Qed.

Lemma okb_release_cur a g : okb a g → okb (release_cur a) g.
Proof. intros Hok. eapply okb_inflight; [apply ok_release_cur, Hok|done|apply inflight_release_cur]. Qed.

Lemma okb_push o a g : harmless o → okb a g → okb (push o a) g.
Proof. intros Ho [Hok Hsz]. split; [by apply ok_push|done]. Qed.

Lemma okb_map_finalizing f a g : (∀ x, fz_seg (f x) = fz_seg x) → okb a g → okb (map_finalizing f a) g.
Proof.
  intros Hf [Hok Hsz]. split; [|done]. apply ok_finalizing; [|done]. by apply fin_segs_fmap.
Qed.

Lemma ack_inflight se ep acc com a : au_inflight (ack se ep acc com a).1 = au_inflight a.
Proof. unfold ack. destruct (au_cur a); [by destruct (_ && _)|done]. Qed.

Lemma okb_ack se ep acc com a g :
  okb a g → (∀ c, au_cur a = Some c → cur_key c = (se, ep) → 0 <= acc <= zlen (stream g (se, ep))) →
  okb (ack se ep acc com a).1 (add_acked (se, ep) acc g).
Proof. intros [Hok Hsz] Hv. split; [by apply ok_ack|]. by rewrite ack_inflight. Qed.

Lemma okb_acked k n a g : okb a g → okb a (add_acked k n g).
Proof. intros [Hok Hsz]. split; [by apply ok_acked|done]. Qed.

Ltac view := apply okb_view; [by repeat split; auto|by auto].

Section events.
Context (a : Author) (g : Ghost) (Hok : okb a g).

Lemma type_ok b : good_event (EType b) a g →
  ∃ a', type_bytes b a = Some a' ∧ okb a' (ghost_step (EType b) a g).
Proof.
  intros Hg. unfold type_bytes. apply ok_reevaluate.
  set (a1 := unsuppress (with_typing true a)).
  assert (okb a1 g) as [Hok1 Hsz1] by (revert Hok; view).
  change (ghost_step (EType b) a g) with (ghost_step (EType b) a1 g).
  destruct (au_cur a1) as [c|] eqn:Hc; (split; [|done]); [by apply ok_type_cur|by apply ok_type_wait].
Qed.

Lemma focus_ok f : ∃ a', set_focus f a = Some a' ∧ okb a' g.
Proof. unfold set_focus. apply ok_reevaluate. destruct f; revert Hok; view. Qed.

Lemma lose_cur se ep f o x : holds se ep x = true → au_cur (lose se ep f o x) = None.
Proof.
  intros Hh. unfold lose. rewrite Hh. cbn [negb]. destruct (au_cur x) as [c|] eqn:Hc; [|done]. cbv zeta.
  set (a1 := with_send_timer _ _). set (a2 := match au_pending a1 with Some p => _ | None => a1 end).
  assert (au_cur a2 = None) as E by (subst a2; destruct (au_pending a1); [by destruct (_ && _)|done]).
  destruct o, f; unfold classify; cbn; try case_match; done.
Qed.

Lemma lose_unassigned se ep f o x : au_unassigned (lose se ep f o x) = au_unassigned x.
Proof.
  unfold lose. destruct (negb _); [done|]. destruct (au_cur x) as [c|] eqn:Hc; [|done]. cbv zeta.
  set (a1 := with_send_timer _ _). set (a2 := match au_pending a1 with Some p => _ | None => a1 end).
  assert (au_unassigned a2 = au_unassigned x) as E
    by (subst a2; destruct (au_pending a1); [by destruct (_ && _)|done]).
  destruct o, f; unfold classify; cbn; try case_match; done.
Qed.

Lemma release_cur_None x :
  au_cur (release_cur x) = None ∧ au_unassigned (release_cur x) = au_unassigned x.
Proof.
  unfold release_cur, current. destruct (au_cur x) as [c|] eqn:Hc; cbn [fmap option_fmap option_map]; [|done].
  cbn [new_id]. rewrite lose_unassigned. split; [|done]. apply lose_cur. unfold holds. cbn. rewrite Hc.
  by rewrite !Z.eqb_refl.
Qed.

Lemma rebind_ok s : ∃ a', rebind s a = Some a' ∧ okb a' (ghost_step (ERebind s) a g).
Proof.
  unfold rebind. apply ok_reevaluate. cbv zeta.
  destruct (release_cur_None a) as [Hc Hu].
  pose proof (okb_release_cur a g Hok) as H1. set (a1 := release_cur a) in *. clearbody a1.
  set (a2 := match au_pending a1 with Some p => _ | None => a1 end).
  assert (okb a2 g ∧ au_cur a2 = None ∧ au_unassigned a2 = au_unassigned a) as (H2 & Hc2 & Hu2).
  { subst a2. destruct (au_pending a1) as [p|]; [|done]. destruct (p_kind p); (split; [|done]);
      revert H1; view. }
  clearbody a2. cbn [ghost_step]. rewrite <- Hu2.
  assert (∀ x g', okb x g' → okb (unsuppress (with_typing false (with_session s x))) g') as Hfin
    by (intros x g'; view).
  apply Hfin. destruct (au_unassigned a2) as [|b0 bs] eqn:Eu; [rewrite bool_decide_false by auto; done|].
  rewrite bool_decide_true by done. destruct H2 as [H2 Hs2]. split; [|exact Hs2].
  unfold ok in *. rewrite Hc2, Eu in H2. apply (core_undelivered (au_session a)) in H2.
  cbn. rewrite Hc2. exact H2.
Qed.

Lemma release_grant_ok s ep x : okb x g → okb (release_grant s ep x) g.
Proof.
  intros Hx. unfold release_grant. cbn [new_id].
  set (a1 := push _ _). assert (okb a1 g) as H1.
  { apply okb_push; [done|]. revert Hx; view. }
  destruct (negb _); [revert H1; view|done].
Qed.

Lemma author_granted_ok id s ep : good_event (EGranted id s ep) a g →
  ∃ a', on_granted id s ep a = Some a' ∧ okb a' (ghost_step (EGranted id s ep) a g).
Proof.
  intros Hg. unfold on_granted. apply ok_reevaluate. cbn [ghost_step good_event] in *.
  unfold grant_taken in *. destruct (au_pending a) as [p|] eqn:Hp; [|by apply release_grant_ok].
  destruct ((p_id p =? id) && _) eqn:E1; cbn [andb] in *; [|by apply release_grant_ok].
  cbv zeta. change (au_session (with_pending None a)) with (au_session a).
  change (au_focused (with_pending None a)) with (au_focused a).
  change (au_suppressed (with_pending None a)) with (au_suppressed a).
  destruct ((p_session p =? s) && _ && _ && _) eqn:E2.
  - specialize (Hg eq_refl). destruct Hok as [Ho Hsz]. split; [|cbn; done].
    apply andb_true_iff in E1 as [_ E1]. apply bool_decide_eq_true in E1.
    assert (au_cur a = None) as Hc.
    { destruct (au_cur a) eqn:Hc; [|done]. exfalso.
      apply (ok_pending _ _ _ _ _ _ Ho) with p; [by rewrite Hc|done|done]. }
    unfold ok in Ho. rewrite Hc in Ho. apply (core_grant (s, ep) 0 _ _ _ _ _ Ho Hg).
  - apply release_grant_ok. revert Hok; view.
Qed.

Lemma released_ok id : ∃ a', on_released id a = Some a' ∧ okb a' g.
Proof.
  unfold on_released. apply ok_reevaluate. destruct (pending_id id a) as [p|]; [|done].
  case_bool_decide; [revert Hok; view|done].
Qed.

Lemma input_ack_ok t s ep acc com : good_event (EInputAck t s ep acc com) a g →
  ∃ a', on_input_ack t s ep acc com a = Some a' ∧ okb a' (ghost_step (EInputAck t s ep acc com) a g).
Proof.
  intros Hg. cbn in Hg. unfold on_input_ack. cbv zeta.
  set (a1 := match t with Some _ => _ | None => a end).
  assert (okb a1 g ∧ au_cur a1 = au_cur a) as [H1 Hc1].
  { subst a1. destruct t; [|done]. destruct (holds s ep a); [|done].
    split; [|done]. apply okb_shrink; [done|apply size_delete_le]. }
  clearbody a1. rewrite <- Hc1 in Hg.
  pose proof (okb_ack s ep acc com a1 g H1 Hg) as H2.
  destruct (ack s ep acc com a1) as [a2 grew]. cbn [fst] in H2. apply ok_reevaluate. cbn [ghost_step event_ack].
  destruct grew; [|done]. apply okb_shrink; [|apply size_bt_retain]. revert H2; view.
Qed.

Lemma write_retryable_ok t s ep gap : good_event (EWriteRetryable t s ep gap) a g →
  ∃ a', on_write_retryable t s ep gap a = Some a' ∧ okb a' (ghost_step (EWriteRetryable t s ep gap) a g).
Proof.
  intros Hg. unfold on_write_retryable.
  destruct (_ || _).
  { exists a. split; [done|]. cbn. destruct gap; [by apply okb_acked|done]. }
  apply ok_reevaluate. cbn in *. destruct gap as [n|]; [|revert Hok; view].
  pose proof (okb_ack s ep n 0 a g Hok Hg) as H1. revert H1; view.
Qed.

Lemma author_pending_id_Some id p : pending_id id a = Some p → au_pending a = Some p.
Proof.
  unfold pending_id. destruct (au_pending a) as [q|]; [|done]. cbn. case_decide; [|done]. congruence.
Qed.

Lemma okb_no_pending : okb (with_pending None a) g.
Proof. revert Hok; view. Qed.

Lemma reclaim_result_ok id b ce acc com fin : good_event (EReclaimResult id b ce acc com fin) a g →
  ∃ a', on_reclaim_result id b ce acc com fin a = Some a' ∧
    okb a' (ghost_step (EReclaimResult id b ce acc com fin) a g).
Proof.
  intros Hg. unfold on_reclaim_result. unfold good_event, ghost_step, event_ack in *.
  destruct (pending_id id a) as [[pid k ps]|] eqn:Hp; cbn [p_kind p_session];
    [|destruct b; by exists a].
  destruct k as [|e| |]; [destruct b; by exists a| | |destruct b; by exists a].
  - apply ok_reevaluate. pose proof okb_no_pending as Hn.
    destruct b; cbn [andb]; [|destruct (holds _ _ _); [by apply okb_lose|done]].
    destruct (ce =? e) eqn:Ee.
    + destruct (holds _ _ _) eqn:Hh; [|by apply okb_acked].
      apply okb_ack; [|exact Hg]. revert Hn; view.
    + destruct (holds _ _ _); [by apply okb_lose|done].
  - assert (∀ x, okb x g → okb x (match (if b then None else None) : option (Z * Z * Z) with
      | Some (k, n) => add_acked k n g | None => g end)) as Hx by (by destruct b).
    destruct b; apply ok_reevaluate; cbv zeta; repeat case_match; revert Hok; view.
Qed.

Lemma reclaim_epoch_unknown_ok id : ∃ a', on_reclaim_epoch_unknown id a = Some a' ∧ okb a' g.
Proof.
  unfold on_reclaim_epoch_unknown. destruct (pending_id id a) as [p|]; [|by exists a].
  apply ok_reevaluate. pose proof okb_no_pending. destruct (p_kind p); try done. by apply okb_lose.
Qed.

Lemma epoch_state_ok id s ep fa cm pd fenced :
  ∃ a', on_epoch_state id s ep fa cm pd fenced a = Some a' ∧ okb a' g.
Proof.
  unfold on_epoch_state. destruct (au_finalizing a !! (s, ep)) as [f|] eqn:Ef; [|by exists a].
  case_bool_decide; [|by exists a]. apply ok_reevaluate. cbv zeta.
  assert (okb (with_finalizing (<[(s, ep) := set_query None f]> (au_finalizing a)) a) g) as [H1 Hs1].
  { split; [|apply Hok]. apply ok_finalizing; [|apply Hok]. rewrite fmap_insert. cbn.
    apply insert_id. unfold fin_segs. by rewrite lookup_fmap, Ef. }
  set (a1 := with_finalizing _ a) in *. clearbody a1.
  destruct fenced; [apply okb_classify; by split|]. cbn [new_id]. apply okb_push; [done|].
  split; [|exact Hs1]. apply (ok_finalizing (alter (set_retry true) (s, ep) (au_finalizing a1)) a1) in H1;
    [exact H1|by apply fin_segs_alter].
Qed.

Lemma request_failed_ok id : ∃ a', on_request_failed id a = Some a' ∧ okb a' g.
Proof.
  unfold on_request_failed. apply ok_reevaluate. apply okb_map_finalizing.
  { intros x. unfold fail_query. by case_bool_decide. }
  destruct (pending_id id a); [|done]. case_bool_decide; revert Hok; view.
Qed.

Lemma retry_timer_ok : ∃ a', on_retry_timer a = Some a' ∧ okb a' g.
Proof. unfold on_retry_timer. apply ok_reevaluate, okb_map_finalizing; [done|]. revert Hok; view. Qed.

Lemma reconnect_ok : ∃ a', on_reconnect a = Some a' ∧ okb a' g.
Proof.
  unfold on_reconnect. apply ok_reevaluate. cbv zeta. apply okb_map_finalizing; [done|].
  repeat case_match; revert Hok; view.
Qed.

Lemma owner_lost_ok s : ∃ a', on_owner_lost s a = Some a' ∧ okb a' g.
Proof.
  unfold on_owner_lost. apply ok_reevaluate. cbv zeta.
  set (a1 := match current a with Some _ => _ | None => a end).
  assert (okb a1 g) as H1.
  { subst a1. destruct (current a) as [[s' e']|]; [|done]. destruct (_ =? _); [by apply okb_lose|done]. }
  clearbody a1. set (lost := filter _ _). clearbody lost.
  assert (okb (foldl (λ a k, classify k.1 k.2 None a) a1 lost) g) as H2.
  { revert a1 H1. induction lost as [|k l IH]; intros x Hx; [done|]. by apply IH, okb_classify. }
  set (a2 := foldl _ a1 lost) in *. clearbody a2. repeat case_match; revert H2; view.
Qed.
End events.

(** No event panics, and every event keeps the invariant. *)
Lemma author_step_ok e a g :
  okb a g → good_event e a g → ∃ a', author_step e a = Some a' ∧ okb a' (ghost_step e a g).
Proof.
  intros Hok Hg. destruct e; cbn [author_step].
  - by apply type_ok.
  - by apply focus_ok.
  - by apply rebind_ok.
  - by apply author_granted_ok.
  - by apply released_ok.
  - by apply input_ack_ok.
  - by apply write_retryable_ok.
  - apply ok_reevaluate. revert Hok; view.
  - by apply ok_reevaluate, okb_lose.
  - apply ok_reevaluate. case_match; [revert Hok; view|done].
  - by apply reclaim_result_ok.
  - by apply reclaim_epoch_unknown_ok.
  - by apply epoch_state_ok.
  - by apply ok_reevaluate, okb_classify.
  - by apply request_failed_ok.
  - by apply retry_timer_ok.
  - by apply reconnect_ok.
  - by apply owner_lost_ok.
Qed.

Lemma author_run_ok es a g :
  okb a g → good_run es a g → ∃ a' g', author_run es a g = Some (a', g') ∧ okb a' g'.
Proof.
  revert a g. induction es as [|e es IH]; intros a g Hok Hg; [by exists a, g|].
  destruct Hg as [He Hg]. destruct (author_step_ok e a g Hok He) as (a1 & E & H1).
  cbn [author_run]. rewrite E. cbn. apply IH; [done|]. by apply Hg.
Qed.

Lemma okb_new s : okb (author_new s) ghost_empty.
Proof.
  split; [|done]. split; cbn; try done; try constructor; try (intros; set_solver).
  by intros [? ?].
Qed.

(** ** What was typed *)

Definition event_bytes (e : Event) : list byte := match e with EType b => b | _ => [] end.
Definition typed (es : list Event) : list byte := es ≫= event_bytes.

Lemma ghost_step_typed e a g : gh_typed (ghost_step e a g) = gh_typed g ++ event_bytes e.
Proof.
  destruct e; cbn [event_bytes]; rewrite ?app_nil_r; unfold ghost_step; repeat case_match; done.
Qed.

Lemma author_run_typed es a g a' g' :
  author_run es a g = Some (a', g') → gh_typed g' = gh_typed g ++ typed es.
Proof.
  revert a g. induction es as [|e es IH]; intros a g; cbn [author_run].
  - intros [= <- <-]. cbn. by rewrite app_nil_r.
  - destruct (author_step e a) as [a1|]; [|done]. cbn. intros H. apply IH in H as ->.
    rewrite ghost_step_typed. by rewrite <- app_assoc.
Qed.

(** Where the bytes of an epoch's stream are: the current segment, a segment
    waiting for the host's verdict, or a report. *)
Definition accounted (a : Author) (g : Ghost) (k : Z * Z) : Prop :=
  (∃ c, au_cur a = Some c ∧ cur_key c = k ∧ seg_ok g k (cu_seg c)) ∨
  (∃ f, au_finalizing a !! k = Some f ∧ seg_ok g k (fz_seg f)) ∨
  reported g (au_out a) k.

Lemma ok_accounted a g k : ok a g → SEpoch k ∈ gh_segs g → accounted a g k.
Proof.
  intros Hok Hk. destruct (ok_epochs _ _ _ _ _ _ Hok k Hk) as [(c & Hc & <-)|[[s Hs]|?]]; [| |by right; right].
  - left. exists c. split_and!; try done. apply (ok_cur _ _ _ _ _ _ Hok c Hc).
  - right; left. unfold fin_segs in Hs. rewrite lookup_fmap in Hs.
    destruct (au_finalizing a !! k) as [f|] eqn:E; [|done]. exists f. split; [done|].
    apply (ok_fin _ _ _ _ _ _ Hok k). unfold fin_segs. by rewrite lookup_fmap, E.
Qed.

(** The bytes of a write are those of the stream at the offsets it names. *)
Lemma write_ok_lookup g t se ep start bytes i b :
  write_ok g (OWrite t se ep start bytes) → bytes !! i = Some b →
  stream g (se, ep) !! (Z.to_nat start + i)%nat = Some b.
Proof.
  intros (_ & _ & _ & Hb) Hi. rewrite Hb in Hi. apply lookup_take_Some in Hi as [Hi _].
  by rewrite lookup_drop in Hi.
Qed.

(** ** The sending loop's fuel *)

Lemma send_loop_fuel fuel extra se ep we next seg a :
  0 <= next → we <= 2 ^ 63 → we - next <= Z.of_nat fuel * CHUNK →
  send_loop (fuel + extra) se ep we next seg a = send_loop fuel se ep we next seg a.
Proof.
  unfold CHUNK. revert next a. induction fuel as [|fuel IH]; intros next a Hn Hw Hf.
  - destruct extra; [done|]. cbn. rewrite (proj2 (Z.ltb_ge next we)) by lia. by rewrite andb_false_r.
  - cbn [send_loop Nat.add]. destruct (_ && _) eqn:E; [|done]. apply andb_true_iff in E as [_ E].
    unfold CHUNK. rewrite add64_id by (unfold u64_max; lia).
    destruct (slice _ _ _); [|done]. cbn [mbind option_bind new_id]. apply IH; lia.
Qed.

(** ** Theorems *)

(** C7: however keystrokes, focus changes, grants, acknowledgements, losses,
    reconnects and timers interleave, no handler of the author panics, and no
    typed byte is lost: what was typed is, in order, the streams of the granted
    epochs and the bytes reported undelivered at a rebind, then the bytes still
    waiting for a grant; and each epoch's stream beyond what the host
    acknowledged is held by the current segment, held by a segment that waits for
    the host's verdict, or reported with one status per byte.  Hypotheses: an
    epoch is granted once, and the host acknowledges no more than was typed into
    the current epoch. *)
Theorem author_conserves_input (session : Z) (es : list Event) :
  good_run es (author_new session) ghost_empty →
  ∃ a g, author_run es (author_new session) ghost_empty = Some (a, g) ∧
    typed es = (gh_segs g ≫= content g) ++ au_unassigned a ∧
    NoDup (keys (gh_segs g)) ∧
    (∀ k, SEpoch k ∈ gh_segs g → accounted a g k) ∧
    (∀ b, SUndelivered b ∈ gh_segs g →
      ∃ se, OClassified se 0 0 b (replicate (length b) NotDelivered) ∈ au_out a).
Proof.
  intros Hg. destruct (author_run_ok _ _ _ (okb_new session) Hg) as (a & g & Hr & [Hok _]).
  exists a, g. pose proof (author_run_typed _ _ _ _ _ Hr) as Ht. cbn in Ht. rewrite <- Ht.
  split_and!; [done|apply Hok..| |apply Hok]. intros k. by apply ok_accounted.
Qed.

(** Every chunk the author sends is at most 64 KiB and is exactly the bytes
    of its epoch's stream at the offset it names, so two sends of one epoch, a
    retransmission included, never give different bytes for an offset. *)
Theorem author_writes_consistent (session : Z) (es : list Event) (a : Author) (g : Ghost) :
  good_run es (author_new session) ghost_empty →
  author_run es (author_new session) ghost_empty = Some (a, g) →
  Forall (write_ok g) (au_out a) ∧
  ∀ t1 t2 se ep s1 s2 b1 b2 i1 i2 x1 x2,
    OWrite t1 se ep s1 b1 ∈ au_out a → OWrite t2 se ep s2 b2 ∈ au_out a →
    b1 !! i1 = Some x1 → b2 !! i2 = Some x2 →
    s1 + Z.of_nat i1 = s2 + Z.of_nat i2 → x1 = x2.
Proof.
  intros Hg Hr. destruct (author_run_ok _ _ _ (okb_new session) Hg) as (a' & g' & Hr' & [Hok _]).
  rewrite Hr in Hr'. injection Hr' as <- <-. pose proof (ok_writes _ _ _ _ _ _ Hok) as Hw. split; [done|].
  intros * H1 H2 Hi1 Hi2 Heq. rewrite Forall_forall in Hw. apply Hw in H1, H2.
  pose proof (write_ok_lookup _ _ _ _ _ _ _ _ H1 Hi1) as E1.
  pose proof (write_ok_lookup _ _ _ _ _ _ _ _ H2 Hi2) as E2.
  destruct H1 as [? _], H2 as [? _].
  replace (Z.to_nat s2 + i2)%nat with (Z.to_nat s1 + i1)%nat in E2 by lia. congruence.
Qed.

(** The author never has more than four chunks in flight, and the fuel of
    its sending loop is enough: a send with more fuel is the same send. *)
Theorem author_inflight_bounded (session : Z) (es : list Event) (a : Author) (g : Ghost) :
  good_run es (author_new session) ghost_empty →
  author_run es (author_new session) ghost_empty = Some (a, g) →
  Z.of_nat (size (au_inflight a)) <= MAX_INFLIGHT ∧
  ∀ c extra, au_cur a = Some c →
    let window_end := Z.min (seg_end (cu_seg c)) (add64 (cu_accepted c) SEND_WINDOW) in
    let next := Z.max (default (cu_accepted c) (max_end (au_inflight a))) (cu_accepted c) in
    send_loop (send_fuel + extra) (cu_session c) (cu_epoch c) window_end next (cu_seg c) a =
    send_loop send_fuel (cu_session c) (cu_epoch c) window_end next (cu_seg c) a.
Proof.
  intros Hg Hr. destruct (author_run_ok _ _ _ (okb_new session) Hg) as (a' & g' & Hr' & [Hok Hsz]).
  rewrite Hr in Hr'. injection Hr' as <- <-. split; [done|]. intros c extra Hc. cbv zeta.
  destruct (ok_cur _ _ _ _ _ _ Hok c Hc) as (_ & _ & _ & (Hb & _) & Ha).
  pose proof (stream_short a g (cur_key c) Hok). unfold SEND_WINDOW.
  rewrite (add64_id (cu_accepted c)) by (unfold u64_max; lia).
  apply send_loop_fuel; [lia|lia|]. change (Z.of_nat send_fuel * CHUNK) with 1114112. lia.
Qed.

(** A session typed into before and after its grant, then lost and classified. *)
Definition author_demo : list Event :=
  [EFocus true; EType [x68; x69]; EGranted 1 7 3; EType [x21]; EInputAck (Some 2) 7 3 2 2;
   ELeaseLost 7 3 9; EType [x0a]; EEpochState 4 7 3 3 2 1 true].

Lemma author_demo_good : good_run author_demo (author_new 7) ghost_empty.
Proof.
  unfold author_demo.
  repeat (split; [vm_compute; try done; try (intros c [= <-]; by vm_compute)
    |let a := fresh "a" in let H := fresh in intros a H; vm_compute in H; injection H as <-]).
  all: done.
Qed.

Definition author_demo_end : Author * Ghost :=
  default (author_new 7, ghost_empty) (author_run author_demo (author_new 7) ghost_empty).

Lemma author_conserves_input_witness :
  good_run author_demo (author_new 7) ghost_empty ∧ typed author_demo ≠ [] ∧
  ∃ a g, author_run author_demo (author_new 7) ghost_empty = Some (a, g) ∧
    typed author_demo = (gh_segs g ≫= content g) ++ au_unassigned a.
Proof.
  split; [exact author_demo_good|]. split; [done|].
  destruct (author_conserves_input 7 author_demo author_demo_good) as (a & g & Hr & Ht & _).
  exact (ex_intro _ a (ex_intro _ g (conj Hr Ht))).
Defined.

Lemma author_writes_consistent_witness :
  au_out author_demo_end.1 =
    [OAcquire 1 7; OWrite 2 7 3 0 [x68; x69]; OWrite 3 7 3 2 [x21]; OGetEpochState 4 7 3; OAcquire 5 7;
     OClassified 7 3 2 [x21] [AcceptedThenDropped]] ∧
  Forall (write_ok author_demo_end.2) (au_out author_demo_end.1).
Proof.
  split; [by vm_compute|].
  destruct (author_writes_consistent 7 author_demo author_demo_end.1 author_demo_end.2) as [H _];
    [exact author_demo_good|by vm_compute|exact H].
Defined.

Lemma author_inflight_bounded_witness :
  good_run author_demo (author_new 7) ghost_empty ∧
  Z.of_nat (size (au_inflight author_demo_end.1)) <= MAX_INFLIGHT.
Proof.
  split; [exact author_demo_good|].
  destruct (author_inflight_bounded 7 author_demo author_demo_end.1 author_demo_end.2) as [H _];
    [exact author_demo_good|by vm_compute|exact H].
Defined.
