(* ===== verification/Conn.v ===== *)
(** * Connections (crates/ferryx-host/src/conn.rs)

    The receive side of a host connection: bytes are appended to a buffer,
    complete frames are decoded and, after a Hello handshake, handed to the host.
    The environment decides how the bytes are cut into reads. *)

From S2P Require Import Prelude Wire Types Messages Frame.
From Stdlib Require Import ZArith Lia Strings.Byte Strings.String.
From stdpp Require Import base list option decidable.

#[local] Open Scope Z_scope.

(** ** Capabilities (crates/fxsh/src/lib.rs) *)

Definition CAP_INPUT_LEASE : Z := Z.shiftl 1 0.
Definition CAP_RESIZE_LEASE : Z := Z.shiftl 1 1.
Definition CAP_SNAPSHOT_DELTA : Z := Z.shiftl 1 2.
Definition CAP_UI_EVENTS : Z := Z.shiftl 1 3.
Definition CAP_EPOCH_STATE : Z := Z.shiftl 1 4.
Definition CAP_V1_REQUIRED : Z :=
  Z.lor (Z.lor (Z.lor (Z.lor CAP_INPUT_LEASE CAP_RESIZE_LEASE) CAP_SNAPSHOT_DELTA) CAP_UI_EVENTS) CAP_EPOCH_STATE.

(** ** State *)

Record HostInfo := mk_HostInfo {
  hi_supervisor : Supervisor;
  hi_pid : Z;
  hi_process_start_time : Z;
  hi_version : list byte;
}.

(** [cn_open] is false once the loop was left; the buffer is dropped then. *)
Record Conn := mk_Conn {
  cn_buf : list byte;
  cn_hello_done : bool;
  cn_open : bool;
}.

(** What a connection does: frames pushed to its outbox (encoded there by
    [Frame::encode]), frames handed to [HostShared::handle], and the cleanup after
    the loop ([conn_closed] on the host and [close] on the outbox). *)
Inductive ConnOut : Type :=
| CSend (f : Frame)
| CHandle (f : Frame)
| CClosed.

Definition conn_new : Conn := mk_Conn [] false true.
Definition text (s : string) : list byte := list_byte_of_string s.

Definition send_error (session : list byte) (rid flags : Z) (d : ErrorDetail) (t : string) : ConnOut :=
  CSend (mk_Frame session rid (Z.lor flags FLAG_ERROR) (Msg_Error (to_frame d (text t)))).

Definition nil_uuid : list byte := replicate 16 x00.

(** [(0..5u8).find(|b| CAP_V1_REQUIRED & (1 << b) != 0 && capabilities & (1 << b) == 0)] *)
Definition missing_capability (capabilities : Z) : option Z :=
  head (filter (λ b, Z.land CAP_V1_REQUIRED (Z.shiftl 1 b) ≠ 0 ∧ Z.land capabilities (Z.shiftl 1 b) = 0)
          [0; 1; 2; 3; 4]).

Section serve.
Context (instance_id : list byte) (info : HostInfo).

Definition hello_ack (rid : Z) : Frame :=
  mk_Frame nil_uuid rid FLAG_RESPONSE
    (Msg_HelloAck (mk_HelloAck MAJOR MINOR CAP_V1_REQUIRED instance_id (hi_supervisor info) (hi_pid info)
       (hi_process_start_time info) (hi_version info))).

(** The first frame: the outputs, and whether the connection goes on. *)
Definition on_hello (header : Header) (frame : Frame) : list ConnOut * bool :=
  match f_message frame with
  | Msg_Hello h =>
      if negb (hello_major h =? MAJOR) then
        ([send_error nil_uuid (h_request_id header) FLAG_RESPONSE (VersionUnsupported MAJOR MINOR)
            "unsupported major version"], false)
      else match missing_capability (hello_capabilities h) with
      | Some bit =>
          ([send_error nil_uuid (h_request_id header) FLAG_RESPONSE (UnsupportedCapability bit)
              "client lacks a required capability"], false)
      | None => ([CSend (hello_ack (h_request_id header))], true)
      end
  | _ =>
      ([send_error (h_session_id header) (h_request_id header) FLAG_RESPONSE (ProtocolViolation BadOrder)
          "Hello must be the first frame"], false)
  end.

(** A frame after the handshake. *)
Definition on_frame (header : Header) (frame : Frame) : list ConnOut * bool :=
  match f_message frame with
  | Msg_Hello _ =>
      ([send_error (h_session_id header) (h_request_id header) FLAG_RESPONSE (ProtocolViolation BadOrder)
          "duplicate Hello"], false)
  | _ => ([CHandle frame], true)
  end.

(** One round of the inner loop; [None] leaves it to read more. *)
Definition round (c : Conn) : option (Conn * list ConnOut) :=
  let after consumed hello '(out, go) :=
    Some (if go : bool then mk_Conn (drop (Z.to_nat consumed) (cn_buf c)) hello true else mk_Conn [] hello false, out) in
  match decode_frame (cn_buf c) with
  | Ok NeedMore => None
  | Ok (Rejected consumed header error) =>
      let detail :=
        match error with
        | UnknownCommand command => UnknownCommandDetail command
        | Violation reason => ProtocolViolation reason
        end in
      let fatal := match error with Violation _ => true | _ => false end in
      after consumed (cn_hello_done c)
        ([send_error (h_session_id header) (h_request_id header) FLAG_RESPONSE detail "rejected frame"], negb fatal)
  | Ok (DFrame consumed header frame) =>
      if negb (cn_hello_done c)
      then let r := on_hello header frame in after consumed r.2 r
      else after consumed true (on_frame header frame)
  | Err _ => Some (mk_Conn [] (cn_hello_done c) false, [])
  end.

(** The inner loop.  Every round drops at least a header from the buffer, so
    one round per buffered byte is enough. *)
Fixpoint rounds (fuel : nat) (c : Conn) : Conn * list ConnOut :=
  match fuel with
  | O => (c, [])
  | S fuel' =>
      if negb (cn_open c) then (c, [])
      else match round c with
      | None => (c, [])
      | Some (c', out) => let '(c'', out') := rounds fuel' c' in (c'', out ++ out')
      end
  end.
Definition decode_all (c : Conn) : Conn * list ConnOut := rounds (S (length (cn_buf c))) c.

(** One turn of the outer loop: the outbox may have been closed by the writer,
    the read gives [None] at an error, no bytes at the end of the stream, or bytes. *)
Definition serve_turn (outbox_closed : bool) (read : option (list byte)) (c : Conn) : Conn * list ConnOut :=
  if negb (cn_open c) then (c, []) else
  match outbox_closed, read with
  | false, Some (b :: bs) =>
      let '(c', out) := decode_all (mk_Conn (cn_buf c ++ b :: bs) (cn_hello_done c) true) in
      (c', if cn_open c' then out else out ++ [CClosed])
  | _, _ => (mk_Conn [] (cn_hello_done c) false, [CClosed])
  end.

(** [serve_connection] over the reads of a connection whose outbox stays open. *)
Fixpoint serve (reads : list (list byte)) (c : Conn) : Conn * list ConnOut :=
  match reads with
  | [] => (c, [])
  | r :: rs =>
      let '(c1, o1) := serve_turn false (Some r) c in
      let '(c2, o2) := serve rs c1 in (c2, o1 ++ o2)
  end.

(** ** Lemmas: the decoding loop *)

Lemma round_shrinks c c' out :
  cn_open c = true → round c = Some (c', out) → (length (cn_buf c') < S (length (cn_buf c)))%nat ∧
  (cn_open c' = true → (length (cn_buf c') < length (cn_buf c))%nat).
Proof.
  intros Ho. unfold round. destruct (decode_frame (cn_buf c)) as [d|e] eqn:Ed; [|intros [= <- <-]; cbn; split; [lia|done]].
  pose proof (decode_frame_consumed _ _ Ed) as Hc. unfold HEADER_LEN, zlen in Hc.
  destruct d as [|n h f|n h e]; [done| |].
  - destruct (cn_hello_done c); cbn [negb].
    + destruct (on_frame h f) as [o [|]]; intros [= <- <-]; cbn; [rewrite length_drop|]; split; intros; try done; lia.
    + destruct (on_hello h f) as [o [|]]; intros [= <- <-]; cbn; [rewrite length_drop|]; split; intros; try done; lia.
  - destruct e; intros [= <- <-]; cbn; [rewrite length_drop|]; split; intros; try done; lia.
Qed.

Lemma rounds_fuel n m c :
  (length (cn_buf c) < n)%nat → (length (cn_buf c) < m)%nat → rounds n c = rounds m c.
Proof.
  revert m c. induction n as [|n IH]; intros m c Hn Hm; [lia|]. destruct m as [|m]; [lia|]. cbn.
  destruct (cn_open c) eqn:Ho; [|done]. cbn. destruct (round c) as [[c' out]|] eqn:E; [|done].
  destruct (round_shrinks c c' out Ho E) as [H1 H2].
  destruct (cn_open c') eqn:Ho'.
  - rewrite (IH m c') by (specialize (H2 eq_refl); lia). done.
  - destruct n, m; cbn; rewrite ?Ho'; done.
Qed.

Lemma decode_all_unfold c :
  cn_open c = true →
  decode_all c = match round c with
                 | None => (c, [])
                 | Some (c', out) => let '(c'', out') := decode_all c' in (c'', out ++ out')
                 end.
Proof.
  intros Ho. unfold decode_all at 1. cbn. rewrite Ho. cbn. destruct (round c) as [[c' out]|] eqn:E; [|done].
  destruct (round_shrinks c c' out Ho E) as [H1 H2]. destruct (cn_open c') eqn:Ho'.
  - specialize (H2 eq_refl). unfold decode_all.
    rewrite (rounds_fuel (length (cn_buf c)) (S (length (cn_buf c'))) c') by lia.
    cbn [rounds]. by rewrite Ho'.
  - destruct (length (cn_buf c)); cbn; by rewrite ?Ho'.
Qed.

Lemma decode_all_closed c : cn_open c = false → decode_all c = (c, []).
Proof. intros Ho. unfold decode_all. cbn. by rewrite Ho. Qed.

(** More bytes behind the buffer do not change a round. *)
Definition extend (bs : list byte) (c : Conn) : Conn :=
  if cn_open c then mk_Conn (cn_buf c ++ bs) (cn_hello_done c) true else c.

Lemma round_extend bs c c' out :
  cn_open c = true → round c = Some (c', out) → round (extend bs c) = Some (extend bs c', out).
Proof.
  intros Ho Hr. unfold extend. rewrite Ho. unfold round in *. cbn [cn_buf cn_hello_done].
  destruct (decode_frame (cn_buf c)) as [d|e] eqn:Ed.
  2: { rewrite (decode_frame_later _ bs _ Ed) by done. by injection Hr as <- <-. }
  pose proof (decode_frame_consumed _ _ Ed) as Hc. unfold HEADER_LEN, zlen in Hc.
  destruct d as [|n h f|n h e]; [done| |]; rewrite (decode_frame_later _ bs _ Ed) by done.
  - destruct (cn_hello_done c); cbn [negb] in *.
    + destruct (on_frame h f) as [o [|]]; injection Hr as <- <-; cbn; [|done]. by rewrite drop_app_le by lia.
    + destruct (on_hello h f) as [o [|]]; injection Hr as <- <-; cbn; [|done]. by rewrite drop_app_le by lia.
  - destruct e; injection Hr as <- <-; cbn; [|done]. by rewrite drop_app_le by lia.
Qed.

Lemma rounds_open_mono fuel c : cn_open (rounds fuel c).1 = true → cn_open c = true.
Proof.
  destruct fuel; cbn; [done|]. destruct (cn_open c) eqn:E; [done|]. cbn. congruence.
Qed.

(** Decoding a buffer that grew is decoding it, then decoding what was left. *)
Lemma decode_all_app bs c :
  cn_open c = true →
  decode_all (extend bs c) =
    let '(c1, o1) := decode_all c in let '(c2, o2) := decode_all (extend bs c1) in (c2, o1 ++ o2).
Proof.
  remember (length (cn_buf c)) as n eqn:Hn. revert c Hn.
  induction n as [n IH] using lt_wf_ind; intros c Hn Ho. rewrite (decode_all_unfold c Ho).
  destruct (round c) as [[c' out]|] eqn:E; [|by destruct (decode_all (extend bs c))].
  assert (cn_open (extend bs c) = true) as Hoe by (unfold extend; by rewrite Ho).
  rewrite (decode_all_unfold _ Hoe), (round_extend bs c c' out Ho E).
  destruct (cn_open c') eqn:Ho'.
  - destruct (round_shrinks c c' out Ho E) as [_ H2]. specialize (H2 Ho').
    rewrite (IH (length (cn_buf c')) ltac:(lia) c' eq_refl Ho').
    destruct (decode_all c') as [c1 o1]. destruct (decode_all (extend bs c1)) as [c2 o2]. by rewrite app_assoc.
  - assert (extend bs c' = c') as Hx by (unfold extend; by rewrite Ho').
    rewrite Hx, (decode_all_closed c' Ho'). cbv beta iota.
    by rewrite app_nil_r, Hx, (decode_all_closed c' Ho'), app_nil_r.
Qed.

(** ** Lemmas: turns *)

(** A turn on an open connection, as the loop on the grown buffer. *)
Definition finish (r : Conn * list ConnOut) : Conn * list ConnOut :=
  (r.1, if cn_open r.1 then r.2 else r.2 ++ [CClosed]).

Lemma serve_turn_read bs c :
  cn_open c = true → bs ≠ [] → serve_turn false (Some bs) c = finish (decode_all (extend bs c)).
Proof.
  intros Ho Hb. unfold serve_turn, extend. rewrite Ho. cbn [negb]. destruct bs as [|b bs]; [done|].
  by destruct (decode_all _).
Qed.

Lemma serve_closed reads c : cn_open c = false → serve reads c = (c, []).
Proof. intros Ho. induction reads as [|r rs IH]; [done|]. cbn. unfold serve_turn. rewrite Ho. cbn. by rewrite IH. Qed.

(** After a turn there is nothing left to decode. *)
Definition drained (c : Conn) : Prop := cn_open c = true → round c = None.

Lemma decode_all_drained c : drained (decode_all c).1.
Proof.
  remember (length (cn_buf c)) as n eqn:Hn. revert c Hn.
  induction n as [n IH] using lt_wf_ind; intros c Hn. destruct (cn_open c) eqn:Ho.
  2: { rewrite decode_all_closed by done. intros ?. cbn in *. congruence. }
  rewrite (decode_all_unfold c Ho). destruct (round c) as [[c' out]|] eqn:E; [|by intros _].
  destruct (round_shrinks c c' out Ho E) as [_ H2]. destruct (cn_open c') eqn:Ho'.
  - specialize (IH (length (cn_buf c')) ltac:(specialize (H2 eq_refl); lia) c' eq_refl).
    by destruct (decode_all c').
  - rewrite decode_all_closed by done. intros ?. cbn in *. congruence.
Qed.

(** All reads of a connection are one decoding of all its bytes. *)
Lemma serve_concat reads c :
  cn_open c = true → drained c → Forall (λ r, r ≠ []) reads →
  serve reads c = finish (decode_all (extend (concat reads) c)).
Proof.
  intros Ho Hd Hr. revert c Ho Hd. induction Hr as [|r rs Hr _ IH]; intros c Ho Hd.
  - cbn [serve concat]. unfold extend. rewrite Ho, app_nil_r. destruct c as [b h o]. cbn in Ho. subst o.
    rewrite decode_all_unfold by done. unfold drained in Hd. cbn [cn_buf cn_hello_done]. rewrite Hd by done. done.
  - cbn [serve concat]. rewrite (serve_turn_read r c Ho Hr).
    assert (extend (r ++ concat rs) c = extend (concat rs) (extend r c)) as ->
      by (unfold extend; rewrite Ho; cbn; by rewrite app_assoc).
    assert (cn_open (extend r c) = true) as Hoe by (unfold extend; by rewrite Ho).
    rewrite (decode_all_app (concat rs) _ Hoe).
    pose proof (decode_all_drained (extend r c)) as Hd1.
    destruct (decode_all (extend r c)) as [c1 o1]. cbn [fst] in Hd1. unfold finish at 1. cbn [fst snd].
    destruct (cn_open c1) eqn:Ho1.
    + rewrite (IH c1 Ho1 Hd1). destruct (decode_all (extend (concat rs) c1)) as [c2 o2].
      unfold finish. cbn. destruct (cn_open c2); by rewrite ?app_assoc.
    + rewrite (serve_closed rs c1 Ho1). unfold extend. rewrite Ho1, (decode_all_closed c1 Ho1).
      unfold finish. cbn. by rewrite Ho1, !app_nil_r.
Qed.

(** ** Lemmas: streams of frames *)

Definition is_hello (f : Frame) : bool := match f_message f with Msg_Hello _ => true | _ => false end.

(** The bytes of a sequence of frames. *)
Fixpoint encode_all (fs : list Frame) : option (list byte) :=
  match fs with
  | [] => Some []
  | f :: fs' => b ← Frame_encode f; bs ← encode_all fs'; Some (b ++ bs)
  end.

Lemma round_frame f b bs hello :
  wf_frame f = true → Frame_encode f = Some b →
  round (mk_Conn (b ++ bs) hello true) =
    let h := frame_header f (zlen (encode_payload (f_message f))) in
    let '(out, go) := if hello then on_frame h f else on_hello h f in
    Some (if go then mk_Conn bs true true else mk_Conn [] hello false, out).
Proof.
  intros Hw He. unfold round. cbn [cn_buf cn_hello_done]. rewrite (decode_frame_encode f b bs Hw He).
  destruct hello; cbn [negb].
  - destruct (on_frame _ f) as [o [|]]; [by rewrite drop_app_zlen|done].
  - cbv zeta. destruct (on_hello _ f) as [o [|]]; [by rewrite drop_app_zlen|done].
Qed.

Lemma decode_frames fs bs :
  Forall (λ f, wf_frame f = true ∧ is_hello f = false) fs → encode_all fs = Some bs →
  decode_all (mk_Conn bs true true) = (mk_Conn [] true true, CHandle <$> fs).
Proof.
  intros Hf. revert bs. induction Hf as [|f fs [Hw Hh] _ IH]; intros bs; cbn [encode_all].
  - intros [= <-]. done.
  - destruct (Frame_encode f) as [b|] eqn:Eb; [|done]. cbn [mbind option_bind].
    destruct (encode_all fs) as [bs'|]; [|done]. cbn [mbind option_bind]. intros [= <-]. rewrite decode_all_unfold by done. rewrite (round_frame f b bs' true Hw Eb).
    assert (on_frame (frame_header f (zlen (encode_payload (f_message f)))) f = ([CHandle f], true)) as Hon
      by (unfold on_frame; unfold is_hello in Hh; by destruct (f_message f)).
    cbv zeta. rewrite Hon. by rewrite (IH bs' eq_refl).
Qed.

(** ** Theorems *)

(** How the peer's bytes are cut into reads does not matter: any sequence of
    non-empty reads has the same frames handled, the same replies sent and the
    same final state as one read of all the bytes. *)
Theorem conn_chunking_independent (reads : list (list byte)) :
  Forall (λ r, r ≠ []) reads → concat reads ≠ [] →
  serve reads conn_new = serve [concat reads] conn_new.
Proof.
  intros Hr Hc. rewrite !serve_concat; try done.
  - cbn [concat]. by rewrite app_nil_r.
  - by apply Forall_singleton.
Qed.

(** C30: a client that sends a Hello of this major version with the required
    capabilities and then well-formed frames, none of them a Hello, gets the
    HelloAck as the only reply of the connection itself, and the host is handed
    exactly those frames, in order, however the bytes are cut into reads; the
    connection stays open with an empty buffer. *)
Theorem conn_delivers_frames (hello : Frame) (h : Hello) (fs : list Frame) (reads : list (list byte)) (bytes : list byte) :
  wf_frame hello = true → f_message hello = Msg_Hello h →
  hello_major h = MAJOR → missing_capability (hello_capabilities h) = None →
  Forall (λ f, wf_frame f = true ∧ is_hello f = false) fs →
  encode_all (hello :: fs) = Some bytes → concat reads = bytes → Forall (λ r, r ≠ []) reads →
  serve reads conn_new = (mk_Conn [] true true, CSend (hello_ack (f_request_id hello)) :: (CHandle <$> fs)).
Proof.
  intros Hw Hm Hma Hcap Hf He Hc Hr. rewrite serve_concat by done. rewrite Hc. cbn [encode_all] in He.
  destruct (Frame_encode hello) as [b|] eqn:Eb; [|done]. cbn in He.
  destruct (encode_all fs) as [bs|] eqn:Ebs; [|done]. cbn in He. injection He as <-.
  unfold extend. cbn [cn_open conn_new cn_buf cn_hello_done app].
  rewrite decode_all_unfold by done. rewrite (round_frame hello b bs false Hw Eb). cbv zeta.
  unfold on_hello. rewrite Hm, Hma, Hcap, Z.eqb_refl. cbn [negb].
  by rewrite (decode_frames fs bs Hf Ebs).
Qed.

(** Any turns: closed outboxes, read errors and ends of the stream included. *)
Fixpoint serve_turns (turns : list (bool * option (list byte))) (c : Conn) : list ConnOut :=
  match turns with
  | [] => []
  | (closed, read) :: ts => let '(c', out) := serve_turn closed read c in out ++ serve_turns ts c'
  end.

(** A trace in which frames are handed over only once a HelloAck was sent, no
    Hello is ever handed over, and nothing follows the end of the connection. *)
Definition is_hello_ack (f : Frame) : bool := match f_message f with Msg_HelloAck _ => true | _ => false end.
Fixpoint handshake_ok (acked : bool) (out : list ConnOut) : bool :=
  match out with
  | [] => true
  | CSend f :: out' => handshake_ok (acked || is_hello_ack f) out'
  | CHandle f :: out' => acked && negb (is_hello f) && handshake_ok acked out'
  | CClosed :: out' => bool_decide (length out' = O)
  end.

Lemma round_handshake c c' out tail :
  round c = Some (c', out) → handshake_ok (cn_hello_done c') tail = true →
  handshake_ok (cn_hello_done c) (out ++ tail) = true.
Proof.
  unfold round. destruct (decode_frame (cn_buf c)) as [[|n h f|n h e]|e]; [done| | |by intros [= <- <-]].
  - destruct (cn_hello_done c); cbn [negb].
    + unfold on_frame, is_hello. destruct (f_message f) eqn:Em; intros [= <- <-]; cbn; unfold is_hello; by rewrite ?Em.
    + unfold on_hello. destruct (f_message f) eqn:Em; try (intros [= <- <-]; done).
      destruct (negb _); [by intros [= <- <-]|]. destruct (missing_capability _); by intros [= <- <-].
  - destruct e; intros [= <- <-]; cbn; by rewrite orb_false_r.
Qed.

Lemma decode_all_handshake c tail :
  cn_open c = true → handshake_ok (cn_hello_done (decode_all c).1) tail = true →
  handshake_ok (cn_hello_done c) ((decode_all c).2 ++ tail) = true.
Proof.
  remember (length (cn_buf c)) as n eqn:Hn. revert c Hn tail.
  induction n as [n IH] using lt_wf_ind; intros c Hn tail Ho. rewrite (decode_all_unfold c Ho).
  destruct (round c) as [[c' out]|] eqn:E; [|done].
  destruct (round_shrinks c c' out Ho E) as [_ H2]. destruct (cn_open c') eqn:Ho'.
  - specialize (IH (length (cn_buf c')) ltac:(specialize (H2 eq_refl); lia) c' eq_refl tail Ho').
    destruct (decode_all c') as [c2 o2]. cbn [fst snd] in *. intros Ht. rewrite <- app_assoc.
    by apply (round_handshake c c'), IH.
  - rewrite (decode_all_closed c' Ho'). cbn [fst snd]. rewrite app_nil_r. by apply (round_handshake c c').
Qed.

Lemma turns_handshake turns c :
  handshake_ok (cn_hello_done c) (serve_turns turns c) = true ∧
  (cn_open c = false → serve_turns turns c = []).
Proof.
  revert c. induction turns as [|[closed read] ts IH]; intros c; [done|]. cbn [serve_turns]. unfold serve_turn.
  destruct (cn_open c) eqn:Ho; cbn [negb].
  2: { destruct (IH c) as [? H]. rewrite (H Ho). done. }
  split; [|done].
  assert (handshake_ok (cn_hello_done c) ([CClosed] ++ serve_turns ts (mk_Conn [] (cn_hello_done c) false)) = true) as Hend
    by (rewrite (proj2 (IH _)) by done; done).
  destruct closed; [exact Hend|]. destruct read as [[|b bs]|]; [exact Hend| |exact Hend].
  set (c0 := mk_Conn _ _ true). change (cn_hello_done c) with (cn_hello_done c0).
  destruct (decode_all c0) as [c' out] eqn:E.
  assert (∀ tail, handshake_ok (cn_hello_done c') tail = true → handshake_ok (cn_hello_done c0) (out ++ tail) = true) as Hd.
  { intros tail. pose proof (decode_all_handshake c0 tail eq_refl) as H. by rewrite E in H. }
  destruct (cn_open c') eqn:Ho'; [apply Hd, IH|]. rewrite <- app_assoc. apply Hd.
  by rewrite (proj2 (IH c')).
Qed.

(** Whatever a peer sends, however it is cut into reads, and whenever the
    connection ends: the host is handed frames only after the connection sent a
    HelloAck, is never handed a Hello, and the connection does nothing after its
    single cleanup. *)
Theorem conn_handshake_first (turns : list (bool * option (list byte))) :
  handshake_ok false (serve_turns turns conn_new) = true.
Proof. apply (turns_handshake turns conn_new). Qed.
End serve.

(** ** Witnesses *)

Definition demo_info : HostInfo := mk_HostInfo Supervisor_Systemd 42 0 (text "0.1.0").
Definition demo_list : Frame := mk_Frame (replicate 16 x00) 8 0 (Msg_ListSessions (mk_ListSessions (replicate 16 x02, 5))).
Definition demo_bytes : list byte := default [] (encode_all [hello_frame; demo_list]).
(** The two frames in three reads, cut inside both frames. *)
Definition demo_reads : list (list byte) :=
  [take 10 demo_bytes; take 80 (drop 10 demo_bytes); drop 90 demo_bytes].

Lemma conn_chunking_independent_witness :
  serve (replicate 16 x07) demo_info demo_reads conn_new =
  serve (replicate 16 x07) demo_info [concat demo_reads] conn_new.
Proof.
  apply (conn_chunking_independent (replicate 16 x07) demo_info demo_reads).
  - repeat constructor; vm_compute; discriminate.
  - vm_compute. discriminate.
Defined.

Lemma conn_delivers_frames_witness :
  serve (replicate 16 x07) demo_info demo_reads conn_new =
    (mk_Conn [] true true, [CSend (hello_ack (replicate 16 x07) demo_info 7); CHandle demo_list]).
Proof.
  apply (conn_delivers_frames (replicate 16 x07) demo_info hello_frame
    (mk_Hello 1 0 31 ClientKind_GuiWindow (replicate 16 x01)) [demo_list] demo_reads demo_bytes).
  - reflexivity.
  - reflexivity.
  - reflexivity.
  - vm_compute. reflexivity.
  - apply Forall_singleton. split; vm_compute; reflexivity.
  - vm_compute. reflexivity.
  - vm_compute. reflexivity.
  - repeat constructor; vm_compute; discriminate.
Defined.
