(* ===== verification/Outbox.v ===== *)
(** * Outbox (crates/ferryx-host/src/outbox.rs)

    The send queue of one connection.  Sessions and the host push frames and
    snapshot chunks, one writer task writes them; the buffer of a snapshot is
    released when its last chunk was written, dropped or failed.  The queue is
    behind a mutex, while the byte counter and the closed flag are atomics, so
    [push] and [pop] are sequences of atomic actions that interleave. *)

From S2P Require Import Prelude.
From Stdlib Require Import ZArith Lia Strings.Byte.
From stdpp Require Import base gmap list option relations.

#[local] Open Scope Z_scope.

(** [si_session] names the session whose channel the item carries. *)
Record SnapItem := mk_SnapItem {
  si_subscription_id : Z;
  si_reservation_id : Z;
  si_snapshot_id : Z;
  si_session : list byte;
  si_bytes : list byte;
  si_last : bool;
}.
#[global] Instance SnapItem_eq_dec : EqDecision SnapItem.
Proof. solve_decision. Defined.

Inductive Item : Type :=
| IFrame (b : list byte)
| ISnap (s : SnapItem).
#[global] Instance Item_eq_dec : EqDecision Item.
Proof. solve_decision. Defined.

Definition item_len (i : Item) : Z :=
  match i with IFrame b => zlen b | ISnap s => zlen (si_bytes s) end.

Record Outbox := mk_Outbox {
  ob_queue : list Item;
  ob_bytes : Z;
  ob_closed : bool;
}.

(** What the outbox sends to a session's channel. *)
Inductive SessionEvent : Type :=
| EvFrameWritten (session : list byte) (subscription_id reservation_id snapshot_id : Z) (last : bool)
| EvReleased (session : list byte) (subscription_id reservation_id snapshot_id : Z).

Definition outbox_default : Outbox := mk_Outbox [] 0 false.

Definition release (s : SnapItem) : SessionEvent :=
  EvReleased (si_session s) (si_subscription_id s) (si_reservation_id s) (si_snapshot_id s).
Definition frame_written (s : SnapItem) : SessionEvent :=
  EvFrameWritten (si_session s) (si_subscription_id s) (si_reservation_id s) (si_snapshot_id s) (si_last s).

(** ** The atomic actions *)

Definition add_bytes (n : Z) (o : Outbox) : Outbox :=
  mk_Outbox (ob_queue o) (add64 (ob_bytes o) n) (ob_closed o).
Definition sub_bytes (n : Z) (o : Outbox) : Outbox :=
  mk_Outbox (ob_queue o) (sub64 (ob_bytes o) n) (ob_closed o).
Definition push_back (i : Item) (o : Outbox) : Outbox :=
  mk_Outbox (ob_queue o ++ [i]) (ob_bytes o) (ob_closed o).
Definition set_closed (o : Outbox) : Outbox := mk_Outbox (ob_queue o) (ob_bytes o) true.

(** ** The operations, as sequences of the actions *)

Definition push_frame (bytes : list byte) (o : Outbox) : Outbox :=
  if ob_closed o then o else push_back (IFrame bytes) (add_bytes (zlen bytes) o).

Definition push_snap (s : SnapItem) (o : Outbox) : Outbox * list SessionEvent :=
  if ob_closed o then (o, [release s])
  else (push_back (ISnap s) (add_bytes (zlen (si_bytes s)) o), []).

Definition queued_bytes (o : Outbox) : Z := ob_bytes o.
Definition is_closed (o : Outbox) : bool := ob_closed o.
Definition close (o : Outbox) : Outbox := set_closed o.

(** Whether [drop_pending] removes an item. *)
Definition drops (subscription_id snapshot_id : Z) (i : Item) : bool :=
  match i with
  | ISnap s => (si_subscription_id s =? subscription_id) && (si_snapshot_id s =? snapshot_id)
  | IFrame _ => false
  end.

(** The loop over the queue: the kept items, the byte counter, and the last
    item removed.  It runs under the queue's lock. *)
Fixpoint drop_loop (sub snap : Z) (q : list Item) (kept : list Item) (bytes : Z) (removed : option SnapItem)
    : list Item * Z * option SnapItem :=
  match q with
  | [] => (kept, bytes, removed)
  | i :: q' =>
      match i with
      | ISnap s =>
          if (si_subscription_id s =? sub) && (si_snapshot_id s =? snap)
          then drop_loop sub snap q' kept (sub64 bytes (zlen (si_bytes s))) (Some s)
          else drop_loop sub snap q' (kept ++ [i]) bytes removed
      | IFrame _ => drop_loop sub snap q' (kept ++ [i]) bytes removed
      end
  end.
Definition drop_pending (sub snap : Z) (o : Outbox) : Outbox * list SessionEvent :=
  let '(kept, bytes, removed) := drop_loop sub snap (ob_queue o) [] (ob_bytes o) None in
  (mk_Outbox kept bytes (ob_closed o), match removed with Some s => [release s] | None => [] end).

Definition pop (o : Outbox) : option (Item * Outbox) :=
  match ob_queue o with
  | [] => None
  | i :: q => Some (i, sub_bytes (item_len i) (mk_Outbox q (ob_bytes o) (ob_closed o)))
  end.

(** The releases of [drain_snapshots]: one per snapshot. *)
Definition snap_key (s : SnapItem) : Z * Z * Z := (si_subscription_id s, si_reservation_id s, si_snapshot_id s).
Fixpoint drain_loop (items : list Item) (seen : list (Z * Z * Z)) : list SessionEvent :=
  match items with
  | [] => []
  | ISnap s :: items' =>
      if bool_decide (snap_key s ∈ seen) then drain_loop items' seen
      else release s :: drain_loop items' (seen ++ [snap_key s])
  | IFrame _ :: items' => drain_loop items' seen
  end.
Definition drain_snapshots (o : Outbox) : Outbox * list SessionEvent :=
  (mk_Outbox [] 0 (ob_closed o), drain_loop (ob_queue o) []).

(** The events of a finished [write_all], and whether the writer goes on. *)
Definition on_write (ok : bool) (i : Item) : list SessionEvent * bool :=
  match i with
  | IFrame _ => ([], ok)
  | ISnap s =>
      if ok then (frame_written s :: (if si_last s then [release s] else []), true)
      else ([release s], false)
  end.

(** ** The outbox with its pushers and its writer *)

Inductive Writer : Type :=
| WIdle                      (* about to pop *)
| WPopped (i : Item)         (* taken from the queue, not yet subtracted *)
| WWriting (i : Item)        (* in [write_all] *)
| WExit                      (* left the loop, about to close *)
| WClosed                    (* closed, about to drain *)
| WDrained                   (* took the queue, about to reset the counter *)
| WDone.

(** [checked] passed the closed check of a push, [counted] were added to the
    byte counter; [offered], [enqueued] and [wire] record what was handed to
    [push], what entered the queue and what was written. *)
Record World := mk_World {
  ob : Outbox;
  checked : list Item;
  counted : list Item;
  writer : Writer;
  offered : list Item;
  enqueued : list Item;
  wire : list Item;
  events : list SessionEvent;
}.

(** Chunks of one snapshot carry one reservation and one session. *)
Definition same_snapshot (i j : Item) : Prop :=
  match i, j with
  | ISnap s, ISnap t =>
      si_subscription_id s = si_subscription_id t → si_snapshot_id s = si_snapshot_id t →
      si_reservation_id s = si_reservation_id t ∧ si_session s = si_session t
  | _, _ => True
  end.

Inductive step : World → World → Prop :=
| st_refused i w :
    ob_closed (ob w) = true → Forall (same_snapshot i) (offered w) →
    step w (mk_World (ob w) (checked w) (counted w) (writer w) (offered w ++ [i]) (enqueued w) (wire w)
              (events w ++ match i with ISnap s => [release s] | IFrame _ => [] end))
| st_check i w :
    ob_closed (ob w) = false → Forall (same_snapshot i) (offered w) →
    step w (mk_World (ob w) (i :: checked w) (counted w) (writer w) (offered w ++ [i]) (enqueued w) (wire w) (events w))
| st_count i l l' w :
    checked w = l ++ i :: l' →
    step w (mk_World (add_bytes (item_len i) (ob w)) (l ++ l') (i :: counted w) (writer w) (offered w)
              (enqueued w) (wire w) (events w))
| st_enqueue i l l' w :
    counted w = l ++ i :: l' →
    step w (mk_World (push_back i (ob w)) (checked w) (l ++ l') (writer w) (offered w)
              (enqueued w ++ [i]) (wire w) (events w))
| st_drop sub snap o evs w :
    drop_pending sub snap (ob w) = (o, evs) →
    step w (mk_World o (checked w) (counted w) (writer w) (offered w) (enqueued w) (wire w) (events w ++ evs))
| st_close w :
    step w (mk_World (set_closed (ob w)) (checked w) (counted w) (writer w) (offered w) (enqueued w) (wire w) (events w))
| st_pop i q w :
    writer w = WIdle → ob_queue (ob w) = i :: q →
    step w (mk_World (mk_Outbox q (ob_bytes (ob w)) (ob_closed (ob w))) (checked w) (counted w) (WPopped i)
              (offered w) (enqueued w) (wire w) (events w))
| st_popped i w :
    writer w = WPopped i →
    step w (mk_World (sub_bytes (item_len i) (ob w)) (checked w) (counted w) (WWriting i)
              (offered w) (enqueued w) (wire w) (events w))
| st_empty w :
    writer w = WIdle → ob_queue (ob w) = [] → ob_closed (ob w) = true →
    step w (mk_World (ob w) (checked w) (counted w) WExit (offered w) (enqueued w) (wire w) (events w))
| st_written i ok evs go w :
    writer w = WWriting i → on_write ok i = (evs, go) →
    step w (mk_World (ob w) (checked w) (counted w) (if go : bool then WIdle else WExit) (offered w) (enqueued w)
              (if ok then wire w ++ [i] else wire w) (events w ++ evs))
| st_exit w :
    writer w = WExit →
    step w (mk_World (set_closed (ob w)) (checked w) (counted w) WClosed (offered w) (enqueued w) (wire w) (events w))
| st_drain w :
    writer w = WClosed →
    step w (mk_World (mk_Outbox [] (ob_bytes (ob w)) (ob_closed (ob w))) (checked w) (counted w) WDrained
              (offered w) (enqueued w) (wire w) (events w ++ drain_loop (ob_queue (ob w)) []))
| st_reset w :
    writer w = WDrained →
    step w (mk_World (mk_Outbox (ob_queue (ob w)) 0 (ob_closed (ob w))) (checked w) (counted w) WDone
              (offered w) (enqueued w) (wire w) (events w)).

Definition world0 : World := mk_World outbox_default [] [] WIdle [] [] [] [].

(** ** Invariants *)

Definition total (l : list Item) : Z := foldr (λ i n, item_len i + n) 0 l.

(** Items the writer holds: subtracted from the counter or not. *)
Definition holding (wr : Writer) : list Item := match wr with WPopped i | WWriting i => [i] | _ => [] end.
Definition unsubtracted (wr : Writer) : list Item := match wr with WPopped i => [i] | _ => [] end.
Definition draining (wr : Writer) : bool := match wr with WDrained | WDone => true | _ => false end.
Definition left_loop (wr : Writer) : bool := match wr with WExit | WClosed | WDrained | WDone => true | _ => false end.
Definition is_frame (i : Item) : bool := match i with IFrame _ => true | _ => false end.

Definition in_transit (w : World) : list Item := checked w ++ counted w ++ ob_queue (ob w) ++ holding (writer w).

Record inv (w : World) : Prop := {
  i_range : 0 <= ob_bytes (ob w) <= u64_max;
  i_count : draining (writer w) = false →
    wrap64 (ob_bytes (ob w)) =
    wrap64 (total (ob_queue (ob w)) + total (counted w) + total (unsubtracted (writer w)));
  i_order : wire w ++ holding (writer w) ++ ob_queue (ob w) `sublist_of` enqueued w;
  i_frames : left_loop (writer w) = false →
    filter is_frame (wire w ++ holding (writer w) ++ ob_queue (ob w)) = filter is_frame (enqueued w);
  i_source : ∀ i, i ∈ in_transit w → i ∈ offered w;
  i_same : ∀ i j, i ∈ offered w → j ∈ offered w → same_snapshot i j;
  i_release : ∀ s, ISnap s ∈ offered w → si_last s = true →
    ISnap s ∈ in_transit w ∨ release s ∈ events w;
}.

(** ** Lemmas *)

Lemma outbox_total_app l k : total (l ++ k) = total l + total k.
Proof. induction l; cbn; [done|]. unfold total in *. lia. Qed.

Lemma wrap64_cong a b c : wrap64 a = wrap64 b → wrap64 (a + c) = wrap64 (b + c).
Proof. unfold wrap64. intros H. by rewrite <- Z.add_mod_idemp_l, H, Z.add_mod_idemp_l by lia. Qed.

Lemma wrap64_wrap a : wrap64 (wrap64 a) = wrap64 a.
Proof. unfold wrap64. by rewrite Z.mod_mod by lia. Qed.

Lemma drop_loop_spec sub snap q kept bytes removed :
  let dropped := filter (λ i, drops sub snap i = true) q in
  ∃ kept' bytes' removed', drop_loop sub snap q kept bytes removed = (kept', bytes', removed') ∧
    kept' = kept ++ filter (λ i, drops sub snap i = false) q ∧
    wrap64 bytes' = wrap64 (bytes - total dropped) ∧
    (0 <= bytes <= u64_max → 0 <= bytes' <= u64_max) ∧
    (match removed' with
     | Some s => removed = Some s ∨ ISnap s ∈ dropped
     | None => removed = None ∧ dropped = []
     end).
Proof.
  cbv zeta. revert kept bytes removed. induction q as [|i q IH]; intros kept bytes removed.
  { eexists _, _, _. split; [done|]. cbn. rewrite app_nil_r. split_and!; try done; [f_equal; lia|].
    destruct removed; auto. }
  cbn [drop_loop].
  assert (drops sub snap i = false → ∃ kept' bytes' removed',
    drop_loop sub snap q (kept ++ [i]) bytes removed = (kept', bytes', removed') ∧
    kept' = kept ++ filter (λ i, drops sub snap i = false) (i :: q) ∧
    wrap64 bytes' = wrap64 (bytes - total (filter (λ i, drops sub snap i = true) (i :: q))) ∧
    (0 <= bytes <= u64_max → 0 <= bytes' <= u64_max) ∧
    match removed' with
    | Some s => removed = Some s ∨ ISnap s ∈ filter (λ i, drops sub snap i = true) (i :: q)
    | None => removed = None ∧ filter (λ i, drops sub snap i = true) (i :: q) = []
    end) as Hkeep.
  { intros Hd. destruct (IH (kept ++ [i]) bytes removed) as (k & b & r & E & Hk & H). exists k, b, r.
    rewrite E, !filter_cons, Hd, decide_True, decide_False by done. split; [done|]. split; [|done].
    by rewrite Hk, <- app_assoc. }
  destruct i as [b|s]; [by apply Hkeep|]. destruct (_ && _) eqn:Hd; [|by apply Hkeep].
  destruct (IH kept (sub64 bytes (zlen (si_bytes s))) (Some s)) as (k & b & r & E & Hk & Hb & Hr & Hs).
  exists k, b, r. rewrite E, !filter_cons. change (drops sub snap (ISnap s)) with
    ((si_subscription_id s =? sub) && (si_snapshot_id s =? snap)).
  rewrite Hd, decide_False, decide_True by done. split; [done|]. split; [done|]. split; [|split].
  - rewrite Hb. unfold sub64. rewrite <- !Z.add_opp_r. rewrite (wrap64_cong _ (bytes + - zlen (si_bytes s)))
      by apply wrap64_wrap. f_equal. unfold total. cbn. lia.
  - intros _. apply Hr. apply wrap64_range.
  - destruct r as [t|]; [|by destruct Hs]. destruct Hs as [[= <-]|Hs]; right; set_solver.
Qed.

Lemma total_filter sub snap q :
  total q = total (filter (λ i, drops sub snap i = true) q) + total (filter (λ i, drops sub snap i = false) q).
Proof.
  induction q as [|i q IH]; [done|]. rewrite !filter_cons. unfold total in *. cbn [foldr]. rewrite IH.
  destruct (drops sub snap i); [rewrite decide_True, decide_False by done|rewrite decide_False, decide_True by done];
    cbn [foldr]; lia.
Qed.

(** Dropping chunks keeps every frame. *)
Lemma filter_frames_drop sub snap (q : list Item) :
  filter is_frame (filter (λ i, drops sub snap i = false) q) = filter is_frame q.
Proof.
  rewrite list_filter_filter. apply list_filter_iff. intros [b|s]; cbn; [|by split; [intros [? _]|]].
  split; [by intros [? _]|]. done.
Qed.

Lemma drain_loop_spec items seen s :
  ISnap s ∈ items →
  snap_key s ∈ seen ∨ ∃ t, ISnap t ∈ items ∧ snap_key t = snap_key s ∧ release t ∈ drain_loop items seen.
Proof.
  revert seen. induction items as [|i items IH]; intros seen Hin; [by apply elem_of_nil in Hin|]. cbn [drain_loop].
  apply elem_of_cons in Hin as [<-|Hin].
  { case_bool_decide; [by left|]. right. exists s. rewrite !elem_of_cons. auto. }
  assert (∀ seen', (snap_key s ∈ seen' → snap_key s ∈ seen ∨ ∃ t, i = ISnap t ∧ snap_key t = snap_key s) →
    snap_key s ∈ seen ∨ (∃ t, i = ISnap t ∧ snap_key t = snap_key s) ∨
    ∃ t, ISnap t ∈ items ∧ snap_key t = snap_key s ∧ release t ∈ drain_loop items seen') as H.
  { intros seen' Hs. destruct (IH seen' Hin) as [?|?]; [destruct (Hs H); auto|auto]. }
  destruct i as [b|t]; [|case_bool_decide].
  - destruct (H seen) as [?|[(t & ? & _)|(t & ? & ? & ?)]]; [by auto|by left|done|].
    right. exists t. rewrite !elem_of_cons. auto.
  - destruct (H seen) as [?|[(u & [= <-] & Hk)|(u & ? & ? & ?)]]; [by auto|by left|by left; rewrite <- Hk|].
    right. exists u. rewrite !elem_of_cons. auto.
  - destruct (H (seen ++ [snap_key t])) as [?|[(u & [= <-] & Hk)|(u & ? & ? & ?)]]; [|by left|..].
    + rewrite elem_of_app, list_elem_of_singleton. intros [?|E]; [by left|right]. by exists t.
    + right. exists t. rewrite !elem_of_cons. auto.
    + right. exists u. rewrite !elem_of_cons. auto.
Qed.

Lemma same_release w s t :
  inv w → ISnap s ∈ offered w → ISnap t ∈ offered w →
  si_subscription_id t = si_subscription_id s → si_snapshot_id t = si_snapshot_id s → release t = release s.
Proof.
  intros Hi Hs Ht E1 E2. destruct (i_same w Hi _ _ Ht Hs E1 E2) as [E3 E4]. unfold release. by rewrite E1, E2, E3, E4.
Qed.

(** ** Lemmas: every step keeps the invariant *)

Lemma outbox_inv0 : inv world0.
Proof. split; cbn; try done; try (intros; set_solver). Qed.

Ltac transit := unfold in_transit in *; cbn [checked counted ob_queue ob_bytes ob_closed ob writer offered events wire enqueued holding
  push_back add_bytes sub_bytes set_closed app] in *.

Section steps.
Context (w : World) (Hi : inv w).

(** A new item is offered: it enters the transit, or its release is sent. *)
Lemma same_offered i : Forall (same_snapshot i) (offered w) →
  ∀ x y, x ∈ offered w ++ [i] → y ∈ offered w ++ [i] → same_snapshot x y.
Proof.
  intros Hf x y Hx Hy. rewrite Forall_forall in Hf.
  assert (∀ a b, same_snapshot a b → same_snapshot b a) as Hsym.
  { intros [x0|a] [y0|b]; cbn; try done. intros H E1 E2. destruct (H (eq_sym E1) (eq_sym E2)). done. }
  apply elem_of_app in Hx as [Hx|Hx%list_elem_of_singleton]; apply elem_of_app in Hy as [Hy|Hy%list_elem_of_singleton];
    subst; [by apply (i_same w Hi)|by apply Hsym, Hf|by apply Hf|by destruct i].
Qed.

Lemma refused_inv i :
  Forall (same_snapshot i) (offered w) →
  inv (mk_World (ob w) (checked w) (counted w) (writer w) (offered w ++ [i]) (enqueued w) (wire w)
         (events w ++ match i with ISnap s => [release s] | IFrame _ => [] end)).
Proof.
  intros Hf. pose proof (same_offered i Hf) as Hs. destruct Hi. split; try done.
  - intros j Hj. apply elem_of_app. left. by apply i_source0.
  - intros s Hin Hl. apply elem_of_app in Hin as [Hin|Hin%list_elem_of_singleton].
    + destruct (i_release0 s Hin Hl) as [?|?]; [by left|right]. cbn. set_solver.
    + subst i. right. cbn. set_solver.
Qed.

Lemma check_inv i :
  Forall (same_snapshot i) (offered w) →
  inv (mk_World (ob w) (i :: checked w) (counted w) (writer w) (offered w ++ [i]) (enqueued w) (wire w) (events w)).
Proof.
  intros Hf. pose proof (same_offered i Hf) as Hs. destruct Hi. split; try done; transit.
  - intros j Hj. apply elem_of_cons in Hj as [->|Hj]; [set_solver|]. apply elem_of_app. left. by apply i_source0.
  - intros s Hin Hl. apply elem_of_app in Hin as [Hin|Hin%list_elem_of_singleton].
    + destruct (i_release0 s Hin Hl) as [?|?]; [left; set_solver|by right].
    + subst i. left. set_solver.
Qed.

Lemma count_inv i l l' :
  checked w = l ++ i :: l' →
  inv (mk_World (add_bytes (item_len i) (ob w)) (l ++ l') (i :: counted w) (writer w) (offered w)
            (enqueued w) (wire w) (events w)).
Proof.
  intros E. destruct Hi. split; try done; transit; rewrite ?E in *.
  - apply wrap64_range.
  - intros Hd. unfold add64. cbn [ob_bytes]. rewrite wrap64_wrap, (wrap64_cong _ _ _ (i_count0 Hd)).
    f_equal. unfold total. cbn. lia.
  - intros j Hj. apply i_source0. set_solver.
  - intros s Hin Hl. destruct (i_release0 s Hin Hl) as [?|?]; [left; set_solver|by right].
Qed.

Lemma enqueue_inv i l l' :
  counted w = l ++ i :: l' →
  inv (mk_World (push_back i (ob w)) (checked w) (l ++ l') (writer w) (offered w)
            (enqueued w ++ [i]) (wire w) (events w)).
Proof.
  intros E. destruct Hi.
  assert (wire w ++ holding (writer w) ++ ob_queue (ob w) ++ [i] =
    (wire w ++ holding (writer w) ++ ob_queue (ob w)) ++ [i]) as Hassoc by (by rewrite <- !app_assoc).
  split; try done; transit; rewrite ?E, ?Hassoc in *.
  - intros Hd. cbn [ob_bytes]. rewrite (i_count0 Hd). f_equal. rewrite !outbox_total_app. unfold total. cbn. lia.
  - by apply sublist_app.
  - intros Hl. rewrite !(filter_app _ _ [i]). by rewrite i_frames0.
  - intros j Hj. apply i_source0. set_solver.
  - intros s Hin Hl. destruct (i_release0 s Hin Hl) as [?|?]; [left; set_solver|by right].
Qed.

Lemma drop_inv sub snap o evs :
  drop_pending sub snap (ob w) = (o, evs) →
  inv (mk_World o (checked w) (counted w) (writer w) (offered w) (enqueued w) (wire w) (events w ++ evs)).
Proof.
  unfold drop_pending. destruct (drop_loop_spec sub snap (ob_queue (ob w)) [] (ob_bytes (ob w)) None)
    as (kept & bytes & removed & -> & -> & Hb & Hr & Hrem). intros [= <- <-].
  set (d := filter (λ i, drops sub snap i = true)  (ob_queue (ob w))) in *.
  set (k := filter (λ i, drops sub snap i = false)  (ob_queue (ob w))) in *.
  assert (k `sublist_of` ob_queue (ob w)) as Hsub by apply sublist_filter.
  pose proof (total_filter sub snap (ob_queue (ob w))) as Ht. fold d k in Ht.
  pose proof (λ s t, same_release w s t Hi) as Hrel.
  destruct Hi. split; try done; transit.
  - by apply Hr.
  - intros Hd. cbn [ob_bytes]. rewrite Hb. specialize (i_count0 Hd).
    apply (wrap64_cong _ _ (- total d)) in i_count0. rewrite <- Z.add_opp_r, i_count0. f_equal. lia.
  - etrans; [|exact i_order0]. apply sublist_app; [done|]. by apply sublist_app.
  - intros Hl. rewrite <- (i_frames0 Hl), !filter_app. unfold k. by rewrite filter_frames_drop.
  - intros j Hj. apply i_source0. rewrite !elem_of_app in *. unfold k in Hj. rewrite list_elem_of_filter in Hj. tauto.
  - intros s Hin Hl. destruct (i_release0 s Hin Hl) as [Htr|?]; [|right; set_solver].
    destruct (decide (ISnap s ∈ d)) as [Hd|Hd].
    + right. apply elem_of_app. right. unfold d in Hd. apply list_elem_of_filter in Hd as [Hd Hq].
      destruct removed as [t|]; [|destruct Hrem as [_ Hrem]; unfold d in Hrem].
      * destruct Hrem as [?|Ht'%list_elem_of_filter]; [done|]. destruct Ht' as [Ht' Hq'].
        cbn in Hd, Ht'. bool_hyps. apply list_elem_of_singleton. symmetry. apply Hrel; try lia; [done|].
        apply i_source0. rewrite !elem_of_app. tauto.
      * exfalso. assert (ISnap s ∈ filter (λ i, drops sub snap i = true) (ob_queue (ob w))) as Hx by by apply list_elem_of_filter.
        rewrite Hrem in Hx. set_solver.
    + left. rewrite !elem_of_app in *. unfold k, d in *. rewrite list_elem_of_filter in *.
      destruct (drops sub snap (ISnap s)) eqn:Ed; [|tauto]. naive_solver.
Qed.

Lemma close_inv : inv (mk_World (set_closed (ob w)) (checked w) (counted w) (writer w) (offered w) (enqueued w)
                         (wire w) (events w)).
Proof. by destruct Hi. Qed.

Lemma pop_inv i q :
  writer w = WIdle → ob_queue (ob w) = i :: q →
  inv (mk_World (mk_Outbox q (ob_bytes (ob w)) (ob_closed (ob w))) (checked w) (counted w) (WPopped i)
         (offered w) (enqueued w) (wire w) (events w)).
Proof.
  intros Ew Eq. destruct Hi. split; try done; transit; rewrite Ew, Eq in *; cbn [holding unsubtracted app] in *.
  - intros _. rewrite (i_count0 eq_refl). f_equal. unfold total. cbn. lia.
  - done.
  - done.
  - intros j Hj. apply i_source0. set_solver.
  - intros s Hin Hl. destruct (i_release0 s Hin Hl); [left; set_solver|by right].
Qed.

Lemma popped_inv i :
  writer w = WPopped i →
  inv (mk_World (sub_bytes (item_len i) (ob w)) (checked w) (counted w) (WWriting i)
         (offered w) (enqueued w) (wire w) (events w)).
Proof.
  intros Ew. destruct Hi. split; try done; transit; rewrite Ew in *; cbn [holding unsubtracted] in *; try done.
  - apply wrap64_range.
  - intros _. unfold sub64. rewrite wrap64_wrap, <- Z.add_opp_r, (wrap64_cong _ _ _ (i_count0 eq_refl)).
    f_equal. unfold total. cbn. lia.
Qed.

Lemma empty_inv :
  writer w = WIdle → inv (mk_World (ob w) (checked w) (counted w) WExit (offered w) (enqueued w) (wire w) (events w)).
Proof. intros Ew. destruct Hi. split; try done; transit; by rewrite Ew in *. Qed.

Lemma written_inv i ok evs go :
  writer w = WWriting i → on_write ok i = (evs, go) →
  inv (mk_World (ob w) (checked w) (counted w) (if go : bool then WIdle else WExit) (offered w) (enqueued w)
         (if ok then wire w ++ [i] else wire w) (events w ++ evs)).
Proof.
  intros Ew Eo. destruct Hi.
  assert (go = ok ∧ ∀ s, i = ISnap s → si_last s = true → release s ∈ evs) as [-> Hrel].
  { unfold on_write in Eo. destruct i as [b|s]; [by injection Eo as <- <-|].
    destruct ok; injection Eo as <- <-; (split; [done|]); intros t [= <-] Hl; [rewrite Hl|]; set_solver. }
  assert (holding (if ok then WIdle else WExit) = [] ∧ unsubtracted (if ok then WIdle else WExit) = [])
    as [E1 E2] by (by destruct ok).
  split; try done; transit; rewrite ?E1, ?E2, ?Ew in *; cbn [holding unsubtracted app] in *.
  - intros _. by apply i_count0.
  - destruct ok; [by rewrite <- app_assoc|]. etrans; [|exact i_order0]. apply sublist_app; [done|].
    by apply sublist_cons.
  - destruct ok; [|done]. intros _. rewrite <- app_assoc. by apply i_frames0.
  - intros j Hj. apply i_source0. set_solver.
  - intros s Hin Hl. destruct (i_release0 s Hin Hl) as [Ht|?]; [|right; set_solver].
    rewrite !elem_of_app in *. destruct Ht as [?|[?|[?|Hh]]]; [by auto..|]. apply list_elem_of_singleton in Hh.
    right. right. by apply Hrel.
Qed.

Lemma exit_inv :
  writer w = WExit →
  inv (mk_World (set_closed (ob w)) (checked w) (counted w) WClosed (offered w) (enqueued w) (wire w) (events w)).
Proof. intros Ew. destruct Hi. split; try done; transit; by rewrite Ew in *. Qed.

Lemma outbox_drain_inv :
  writer w = WClosed →
  inv (mk_World (mk_Outbox [] (ob_bytes (ob w)) (ob_closed (ob w))) (checked w) (counted w) WDrained
         (offered w) (enqueued w) (wire w) (events w ++ drain_loop (ob_queue (ob w)) [])).
Proof.
  intros Ew. pose proof (λ s t, same_release w s t Hi) as Hrel. destruct Hi.
  split; try done; transit; rewrite ?Ew in *; cbn [holding app] in *.
  - etrans; [|exact i_order0]. rewrite app_nil_r. by apply sublist_inserts_r.
  - intros j Hj. apply i_source0. set_solver.
  - intros s Hin Hl. destruct (i_release0 s Hin Hl) as [Ht|?]; [|right; set_solver].
    rewrite !elem_of_app in Ht. destruct Ht as [?|[?|[Hq|?]]]; [left; set_solver|left; set_solver| |set_solver].
    right. apply elem_of_app. right.
    destruct (drain_loop_spec _ [] s Hq) as [?|(t & Ht & Hk & Hr)]; [set_solver|].
    injection Hk as ? ? ?. rewrite <- (Hrel s t); try done. apply i_source0. set_solver.
Qed.

Lemma reset_inv :
  writer w = WDrained →
  inv (mk_World (mk_Outbox (ob_queue (ob w)) 0 (ob_closed (ob w))) (checked w) (counted w) WDone
         (offered w) (enqueued w) (wire w) (events w)).
Proof. intros Ew. destruct Hi. split; try done; transit; by rewrite Ew in *. Qed.
End steps.

Lemma outbox_step_inv w w' : inv w → step w w' → inv w'.
Proof.
  intros Hi Hs. destruct Hs.
  - by apply refused_inv.
  - by apply check_inv.
  - by apply count_inv.
  - by apply enqueue_inv.
  - by eapply drop_inv.
  - by apply close_inv.
  - by apply pop_inv.
  - by apply popped_inv.
  - by apply empty_inv.
  - by eapply written_inv.
  - by apply exit_inv.
  - by apply outbox_drain_inv.
  - by apply reset_inv.
Qed.

Lemma outbox_reachable_inv w : rtc step world0 w → inv w.
Proof. intros Hr. apply (rtc_keeps inv step world0); [apply outbox_step_inv|done|apply outbox_inv0]. Qed.

(** The operations are runs of their actions. *)
Lemma push_steps i w :
  ob_closed (ob w) = false → Forall (same_snapshot i) (offered w) →
  rtc step w (mk_World (push_back i (add_bytes (item_len i) (ob w))) (checked w) (counted w) (writer w)
                (offered w ++ [i]) (enqueued w ++ [i]) (wire w) (events w)).
Proof.
  intros Hc Hf. eapply rtc_l; [by apply (st_check i w)|].
  eapply rtc_l; [by apply (st_count i [] (checked w))|].
  apply rtc_once. by eapply (st_enqueue i [] (counted w)).
Qed.

Lemma push_snap_steps s w :
  Forall (same_snapshot (ISnap s)) (offered w) →
  let r := push_snap s (ob w) in
  ∃ w', rtc step w w' ∧ ob w' = r.1 ∧ events w' = events w ++ r.2 ∧ offered w' = offered w ++ [ISnap s].
Proof.
  intros Hf. unfold push_snap. destruct (ob_closed (ob w)) eqn:Hc; cbn zeta; cbn [fst snd].
  - eexists. split; [by apply rtc_once, (st_refused (ISnap s) w)|done].
  - eexists. split; [by apply push_steps|]. cbn. by rewrite app_nil_r.
Qed.

Lemma pop_steps i o w :
  writer w = WIdle → pop (ob w) = Some (i, o) →
  rtc step w (mk_World o (checked w) (counted w) (WWriting i) (offered w) (enqueued w) (wire w) (events w)).
Proof.
  intros Hw. unfold pop. destruct (ob_queue (ob w)) as [|j q] eqn:Eq; [done|]. intros [= -> <-].
  eapply rtc_l; [by apply (st_pop i q w)|]. apply rtc_once.
  by apply (st_popped i (mk_World (mk_Outbox q (ob_bytes (ob w)) (ob_closed (ob w))) (checked w) (counted w) (WPopped i)
    (offered w) (enqueued w) (wire w) (events w))).
Qed.

Lemma drain_steps w :
  writer w = WClosed →
  let r := drain_snapshots (ob w) in
  rtc step w (mk_World r.1 (checked w) (counted w) WDone (offered w) (enqueued w) (wire w) (events w ++ r.2)).
Proof.
  intros Hw. eapply rtc_l; [by apply (st_drain w)|]. apply rtc_once.
  by apply (st_reset (mk_World (mk_Outbox [] (ob_bytes (ob w)) (ob_closed (ob w))) (checked w) (counted w) WDrained
    (offered w) (enqueued w) (wire w) (events w ++ drain_loop (ob_queue (ob w)) []))).
Qed.

(** ** Theorems *)

(** C34: under every interleaving of pushes, drops, closes and the writer, what is
    on the wire is a part of what entered the queue, in that order; and until the
    writer leaves its loop no frame is lost or reordered: written, being written
    and queued frames together are exactly the frames that were enqueued. *)
Theorem outbox_fifo (w : World) :
  rtc step world0 w →
  wire w `sublist_of` enqueued w ∧
  (left_loop (writer w) = false →
   filter is_frame (wire w ++ holding (writer w) ++ ob_queue (ob w)) = filter is_frame (enqueued w)).
Proof.
  intros Hr. destruct (outbox_reachable_inv w Hr). split; [|done].
  etrans; [|exact i_order0]. by apply sublist_inserts_r.
Qed.

(** The release of a snapshot buffer is never lost: the last chunk of every
    snapshot handed to the outbox is still on its way into or in the queue or at
    the writer, or its release was reported to the session, whether the chunk was
    written, dropped, drained at the end, refused by a closed outbox, or failed. *)
Theorem outbox_release_reported (w : World) (s : SnapItem) :
  rtc step world0 w → ISnap s ∈ offered w → si_last s = true →
  ISnap s ∈ in_transit w ∨ release s ∈ events w.
Proof. intros Hr. by apply (i_release w (outbox_reachable_inv w Hr)). Qed.

(** The byte counter of an outbox never wraps below zero: until the queue is
    drained at the end it is exactly the bytes queued, plus those counted by a
    push that has not enqueued yet and those the writer took and has not
    subtracted yet (as long as these fit 64 bits). *)
Theorem outbox_bytes_exact (w : World) :
  rtc step world0 w → draining (writer w) = false →
  total (ob_queue (ob w)) + total (counted w) + total (unsubtracted (writer w)) <= u64_max →
  queued_bytes (ob w) = total (ob_queue (ob w)) + total (counted w) + total (unsubtracted (writer w)).
Proof.
  intros Hr Hd Hle. destruct (outbox_reachable_inv w Hr). specialize (i_count0 Hd). unfold queued_bytes.
  assert (∀ l, 0 <= total l) as Hnn.
  { intros l. unfold total. induction l as [|i l IH]; cbn; [done|]. destruct i; cbn; unfold zlen; lia. }
  pose proof (Hnn (ob_queue (ob w))). pose proof (Hnn (counted w)). pose proof (Hnn (unsubtracted (writer w))).
  by rewrite !wrap64_id in i_count0 by lia.
Qed.

(** ** Witnesses: a snapshot's last chunk is pushed, popped, and written. *)

Definition demo_snap : SnapItem := mk_SnapItem 1 2 3 (replicate 16 x00) [x41; x42] true.
Definition demo_w2 : World :=
  mk_World (mk_Outbox [ISnap demo_snap] 2 false) [] [] WIdle [ISnap demo_snap] [ISnap demo_snap] [] [].
Definition demo_w3 : World :=
  mk_World (mk_Outbox [] 0 false) [] [] WIdle [ISnap demo_snap] [ISnap demo_snap] [ISnap demo_snap]
    [frame_written demo_snap; release demo_snap].

Lemma demo_w2_reachable : rtc step world0 demo_w2.
Proof.
  eapply rtc_l; [apply (st_check (ISnap demo_snap) world0); [done|constructor]|].
  eapply rtc_l; [apply (st_count (ISnap demo_snap) [] []); done|].
  apply rtc_once. by apply (st_enqueue (ISnap demo_snap) [] [] (mk_World (mk_Outbox [] 2 false) [] [ISnap demo_snap]
    WIdle [ISnap demo_snap] [] [] [])).
Qed.

Lemma demo_w3_reachable : rtc step world0 demo_w3.
Proof.
  etrans; [exact demo_w2_reachable|].
  eapply rtc_l; [by apply (st_pop (ISnap demo_snap) [] demo_w2)|].
  eapply rtc_l; [by apply (st_popped (ISnap demo_snap))|].
  apply rtc_once. by apply (st_written (ISnap demo_snap) true [frame_written demo_snap; release demo_snap] true
    (mk_World (mk_Outbox [] 0 false) [] [] (WWriting (ISnap demo_snap)) [ISnap demo_snap] [ISnap demo_snap] [] [])).
Qed.

Lemma outbox_fifo_witness : rtc step world0 demo_w3 ∧ wire demo_w3 `sublist_of` enqueued demo_w3.
Proof. split; [exact demo_w3_reachable|]. exact (proj1 (outbox_fifo demo_w3 demo_w3_reachable)). Defined.

Lemma outbox_release_reported_witness :
  in_transit demo_w3 = [] ∧ (ISnap demo_snap ∈ in_transit demo_w3 ∨ release demo_snap ∈ events demo_w3).
Proof.
  split; [reflexivity|]. apply (outbox_release_reported demo_w3 demo_snap demo_w3_reachable); [|reflexivity].
  by apply list_elem_of_here.
Defined.

Lemma outbox_bytes_exact_witness : queued_bytes (ob demo_w2) = 2.
Proof. exact (outbox_bytes_exact demo_w2 demo_w2_reachable eq_refl ltac:(vm_compute; discriminate)). Defined.
