(* ===== verification/Host.v ===== *)
(** * Host (crates/ferryx-host/src/host.rs)

    The shared state of a session host: the session table, the operation table,
    the snapshot budget and the connections, and the handling of a client's
    frames: reservations of operations, spawns, kills, listings and the routing of
    everything else to a session.  Every [lock()] section is one function; the
    functions that take the lock several times are compositions of those, so that
    sequences of steps of several connections can be stated.

    Outside the sources are the operating system (opening a PTY and starting the
    child, [PtyOutcome]; delivering a signal; the clock), the random session ids,
    and the [xxh3_128] hash. *)

From S2P Require Import Prelude Wire Types Messages Frame Budget Operations Replica Conn.
From Stdlib Require Import ZArith Lia Strings.Byte Strings.String.
From stdpp Require Import base gmap list option sorting.

#[local] Open Scope Z_scope.

Definition SNAPSHOT_BUDGET : Z := 512 * 1024 * 1024.
Definition RESERVATION_SIZE : Z := S_MAX + 1024 * 1024.
Definition MAX_SESSIONS : Z := 1024.
Definition MAX_SPAWN_ARGS : Z := 1024 * 1024.

(** The handles [killer] and [tx] of an entry are the outputs [HSignal] and
    [HSession] of its session. *)
Record Entry := mk_Entry {
  en_pid : Z;
  en_incarnation : list byte;
  en_creation_op : OperationId;
  en_created_table_revision : Z;
  en_exit : option ExitInfo;
  en_ended_ms : option Z;
}.

Record Host := mk_Host {
  ho_instance_id : list byte;
  ho_next_conn : Z;
  ho_sessions : gmap (list byte) Entry;
  ho_table_revision : Z;
  ho_ops : OperationTable;
  ho_alloc : Allocator;
  ho_conns : gset Z;
}.

(** Events the host sends to a session's channel. *)
Inductive ToSession : Type :=
| SRequest (conn request_id : Z) (message : Message)
| SConnClosed (conn : Z)
| SBudgetAvailable (subscription_id request_seq reservation_id : Z).

Inductive HostOut : Type :=
| HPush (conn : Z) (bytes : list byte)
| HSession (id : list byte) (ev : ToSession)
| HStart (id incarnation : list byte) (creation_op : OperationId) (cols rows : Z)
| HSignal (pid : Z) (signal : Signal).

(** What the operating system answers when a session is started: a failed PTY
    or spawn with the text of the error, or the process and fresh ids. *)
Inductive PtyOutcome : Type :=
| PtyFailed (what : list byte)
| PtyStarted (id incarnation : list byte) (pid : Z).

Definition with_sessions (m : gmap (list byte) Entry) (h : Host) : Host :=
  mk_Host (ho_instance_id h) (ho_next_conn h) m (ho_table_revision h) (ho_ops h) (ho_alloc h) (ho_conns h).
Definition with_revision (r : Z) (h : Host) : Host :=
  mk_Host (ho_instance_id h) (ho_next_conn h) (ho_sessions h) r (ho_ops h) (ho_alloc h) (ho_conns h).
Definition with_ops (t : OperationTable) (h : Host) : Host :=
  mk_Host (ho_instance_id h) (ho_next_conn h) (ho_sessions h) (ho_table_revision h) t (ho_alloc h) (ho_conns h).
Definition with_alloc (a : Allocator) (h : Host) : Host :=
  mk_Host (ho_instance_id h) (ho_next_conn h) (ho_sessions h) (ho_table_revision h) (ho_ops h) a (ho_conns h).
Definition with_conns (c : gset Z) (h : Host) : Host :=
  mk_Host (ho_instance_id h) (ho_next_conn h) (ho_sessions h) (ho_table_revision h) (ho_ops h) (ho_alloc h) c.

(** [None] is the assertion of [Allocator::new]. *)
Definition host_new (instance_id : list byte) : option Host :=
  a ← alloc_new SNAPSHOT_BUDGET RESERVATION_SIZE;
  Some (mk_Host instance_id 1 ∅ 0 (ops_new instance_id) a ∅).

Definition next_conn_id (h : Host) : Host * Z :=
  (mk_Host (ho_instance_id h) (add64 (ho_next_conn h) 1) (ho_sessions h) (ho_table_revision h) (ho_ops h)
     (ho_alloc h) (ho_conns h), ho_next_conn h).
Definition register_conn (id : Z) (h : Host) : Host := with_conns ({[id]} ∪ ho_conns h) h.
Definition connections (h : Host) : list Z := bs_iter (ho_conns h).
Definition conn_closed (id : Z) (h : Host) : Host * list HostOut :=
  (with_conns (ho_conns h ∖ {[id]}) h, (λ s, HSession s (SConnClosed id)) <$> bt_keys (ho_sessions h)).

Definition set_exit (info : ExitInfo) (now : Z) (e : Entry) : Entry :=
  mk_Entry (en_pid e) (en_incarnation e) (en_creation_op e) (en_created_table_revision e) (Some info) (Some now).
Definition mark_exited (id : list byte) (info : ExitInfo) (now : Z) (h : Host) : Host * Z :=
  let rev := add64 (ho_table_revision h) 1 in
  (with_sessions (alter (set_exit info now) id (ho_sessions h)) (with_revision rev h), rev).

(** ** Snapshot reservations *)

(** [route] sends a grant to its session; the grant of a session that is not in
    the table is given back, which may grant more.  The recursion runs depth first,
    so its pending grants are a work list; each round takes one grant off it and
    [give_back] moves grants from the allocator's queue, so the fuel suffices. *)
Fixpoint route_loop (fuel : nat) (grants : list Grant) (h : Host) : Host * list HostOut :=
  match fuel, grants with
  | S fuel', g :: rest =>
      let k := g_key g in
      match ho_sessions h !! rk_session k with
      | Some _ =>
          let '(h', out) := route_loop fuel' rest h in
          (h', HSession (rk_session k)
                 (SBudgetAvailable (rk_subscription_id k) (rk_request_seq k) (g_reservation_id g)) :: out)
      | None =>
          let '(a, more) := Budget.give_back (g_reservation_id g) (ho_alloc h) in
          route_loop fuel' (more ++ rest) (with_alloc a h)
      end
  | _, _ => (h, [])
  end.
Definition route (grants : list Grant) (h : Host) : Host * list HostOut :=
  route_loop (length grants + length (al_queue (ho_alloc h))) grants h.

Definition request_reservation (key : RequestKey) (h : Host) : Host * list HostOut :=
  let '(a, grants) := Budget.request key (ho_alloc h) in route grants (with_alloc a h).
Definition cancel_reservation (key : RequestKey) (h : Host) : Host * list HostOut :=
  let '(a, grants) := Budget.cancel key (ho_alloc h) in route grants (with_alloc a h).
Definition return_reservation (id : Z) (h : Host) : Host * list HostOut :=
  let '(a, grants) := Budget.give_back id (ho_alloc h) in route grants (with_alloc a h).

(** ** Replies *)

(** [None] is a panic: [Frame::encode] on a payload over 16 MiB, or a slice out
    of range. *)
Definition push (conn : Z) (f : Frame) : option (list HostOut) := b ← Frame_encode f; Some [HPush conn b].
Definition reply (conn : Z) (session : list byte) (rid : Z) (m : Message) : option (list HostOut) :=
  push conn (mk_Frame session rid FLAG_RESPONSE m).
Definition error_reply (session : list byte) (rid : Z) (d : ErrorDetail) (t : list byte) : Frame :=
  mk_Frame session rid (Z.lor FLAG_RESPONSE FLAG_ERROR) (Msg_Error (to_frame d t)).
Definition reply_err (conn : Z) (session : list byte) (rid : Z) (d : ErrorDetail) (t : list byte)
    : option (list HostOut) :=
  push conn (error_reply session rid d t).

(** A stored response with its session and request ids overwritten. *)
Definition stored_frame (stored : list byte) (session : list byte) (rid : Z) : option (list byte) :=
  if 36 <=? zlen stored then Some (take 12 stored ++ session ++ to_be 8 rid ++ drop 36 stored) else None.

Definition replay_spawn (stored : list byte) : option (list byte * SpawnResult) :=
  match decode_complete_frame stored with
  | Ok (DFrame _ _ frame) =>
      match f_message frame with Msg_SpawnResult r => Some (f_session_id frame, r) | _ => None end
  | _ => None
  end.

(** [None] when the operation is to be executed, else the answer to its request. *)
Definition reject (conn : Z) (session : list byte) (rid : Z) (d : Operations.Decision) (id : OperationId)
    : option (option (list HostOut)) :=
  let err d := Some (reply_err conn session rid d (text "operation rejected")) in
  match d with
  | Execute => None
  | Replay stored => Some (b ← stored_frame stored session rid; Some [HPush conn b])
  | Unknown => err (OperationUnknown id)
  | Expired => err (OperationExpired id)
  | Conflict => err (OperationConflict id)
  end.

Section ops.
Context (xxh3_128 : list byte → Z).

Definition spawn_hash (session : list byte) (s : Spawn) : Z :=
  request_hash xxh3_128 0x03 session (enc c_Spawn s).
Definition kill_hash (session : list byte) (k : Kill) : Z :=
  request_hash xxh3_128 0x1C session (enc c_Kill k).

(** ** Spawn *)

Definition sum_len (l : list (list byte)) : Z := foldr (λ s n, zlen s + n) 0 l.
Definition args_len (s : Spawn) : Z :=
  zlen (spawn_program s) + zlen (spawn_cwd s) + sum_len (spawn_args s) +
  sum_len ((λ e, e.1 ++ e.2) <$> spawn_env s).

(** The first lock section: the decision, and the answer unless it is [Execute]. *)
Definition spawn_decide (conn : Z) (session : list byte) (rid : Z) (s : Spawn) (h : Host)
    : option (option (list HostOut)) :=
  let decision := decide_op (spawn_operation_id s) OperationKind_Spawn (spawn_hash session s) (ho_ops h) in
  match decision with
  | Replay stored =>
      Some (match replay_spawn stored with
            | Some (sid, r) => push conn (mk_Frame sid rid FLAG_RESPONSE (Msg_SpawnResult r))
            | None => b ← stored_frame stored session rid; Some [HPush conn b]
            end)
  | _ => reject conn session rid decision (spawn_operation_id s)
  end.

Definition start_session (os : PtyOutcome) (s : Spawn) (h : Host)
    : Host * list HostOut * Result (list byte * SpawnResult) (ErrorDetail * list byte) :=
  let '(cols, rows) := normalize_size (spawn_cols s) (spawn_rows s) in
  match os with
  | PtyFailed what => (h, [], Err (SpawnFailed, what))
  | PtyStarted id incarnation pid =>
      let rev := add64 (ho_table_revision h) 1 in
      let e := mk_Entry pid incarnation (spawn_operation_id s) rev None None in
      (with_sessions (<[id := e]> (ho_sessions h)) (with_revision rev h),
       [HStart id incarnation (spawn_operation_id s) cols rows],
       Ok (id, mk_SpawnResult (spawn_operation_id s) id incarnation pid true rev))
  end.

(** The execution after the decision: the limits, the start, and the completion
    of the operation. *)
Definition spawn_execute (now : Z) (os : PtyOutcome) (conn : Z) (session : list byte) (rid : Z) (s : Spawn) (h : Host)
    : option (Host * list HostOut) :=
  let hash := spawn_hash session s in
  let '(h, started, outcome) :=
    if MAX_SPAWN_ARGS <? args_len s then
      (h, [], Err (LimitExceeded 2 MAX_SPAWN_ARGS, text "spawn arguments too large"))
    else if MAX_SESSIONS <=? Z.of_nat (size (ho_sessions h)) then
      (h, [], Err (LimitExceeded 3 MAX_SESSIONS, text "too many sessions"))
    else start_session os s h in
  match outcome with
  | Ok (sid, result) =>
      let stored := mk_SpawnResult (spr_operation_id result) (spr_session_id result) (spr_session_incarnation result)
                      (spr_pid result) false (spr_created_table_revision result) in
      b ← Frame_encode (mk_Frame sid 0 FLAG_RESPONSE (Msg_SpawnResult stored));
      let h := with_ops (complete (spawn_operation_id s) hash b (Some sid) now (ho_ops h)) h in
      out ← push conn (mk_Frame sid rid FLAG_RESPONSE (Msg_SpawnResult result));
      Some (h, started ++ out)
  | Err (detail, t) =>
      b ← Frame_encode (error_reply session 0 detail t);
      let h := with_ops (complete (spawn_operation_id s) hash b None now (ho_ops h)) h in
      out ← reply_err conn session rid detail t;
      Some (h, started ++ out)
  end.

Definition spawn (now : Z) (os : PtyOutcome) (conn : Z) (session : list byte) (rid : Z) (s : Spawn) (h : Host)
    : option (Host * list HostOut) :=
  match spawn_decide conn session rid s h with
  | Some answer => out ← answer; Some (h, out)
  | None => spawn_execute now os conn session rid s h
  end.

(** ** Kill *)

(** [deliver] is the operating system's answer to a signal. *)
Definition kill (now : Z) (deliver : Z → Signal → bool) (conn : Z) (session : list byte) (rid : Z) (k : Kill) (h : Host)
    : option (Host * list HostOut) :=
  let hash := kill_hash session k in
  match reject conn session rid (decide_op (kill_operation_id k) OperationKind_Kill hash (ho_ops h)) (kill_operation_id k) with
  | Some answer => out ← answer; Some (h, out)
  | None =>
      let '(signalled, delivered) :=
        match ho_sessions h !! session with
        | Some e =>
            if bool_decide (en_exit e = None)
            then ([HSignal (en_pid e) (kill_signal k)], deliver (en_pid e) (kill_signal k))
            else ([], false)
        | None => ([], false)
        end in
      let result := Msg_KillResult (mk_KillResult (kill_operation_id k) delivered) in
      b ← Frame_encode (mk_Frame session 0 FLAG_RESPONSE result);
      let h := with_ops (complete (kill_operation_id k) hash b None now (ho_ops h)) h in
      out ← reply conn session rid result;
      Some (h, signalled ++ out)
  end.

(** ** Dispatch *)

Definition session_entry (p : list byte * Entry) : SessionEntry :=
  let '(id, e) := p in
  mk_SessionEntry id (en_incarnation e) (en_created_table_revision e) (en_creation_op e)
    (bool_decide (en_exit e = None)) (en_exit e).
Definition list_sessions (l : ListSessions) (h : Host) : SessionList :=
  mk_SessionList (ls_request_token l) (ho_instance_id h) (ho_table_revision h) true
    (session_entry <$> bt_iter (ho_sessions h)).

Definition handle (now : Z) (os : PtyOutcome) (deliver : Z → Signal → bool) (conn : Z) (f : Frame) (h : Host)
    : option (Host * list HostOut) :=
  let session := f_session_id f in
  let rid := f_request_id f in
  match f_message f with
  | Msg_ReserveOperation r =>
      let '(t, id) := reserve (ro_kind r) now (ho_ops h) in
      out ← reply conn session rid (Msg_OperationReserved (mk_OperationReserved id));
      Some (with_ops t h, out)
  | Msg_Spawn s => spawn now os conn session rid s h
  | Msg_Kill k => kill now deliver conn session rid k h
  | Msg_ListSessions l =>
      out ← reply conn session rid (Msg_SessionList (list_sessions l h)); Some (h, out)
  | other =>
      match ho_sessions h !! session with
      | Some _ => Some (h, [HSession session (SRequest conn rid other)])
      | None => out ← reply_err conn session rid SessionNotFound (text "session not found"); Some (h, out)
      end
  end.
End ops.
