(* ===== verification/HostSpec.v ===== *)
(** * Host: specification

    Operations are idempotent (a repeated Spawn or Kill is answered from the
    operation table), no handler panics, and the session table and the snapshot
    reservations keep their invariants over any sequence of calls.  The last
    section shows what two connections can do between the lock sections. *)

From S2P Require Import Prelude Wire Types Messages Frame Budget Operations Replica Conn Host.
From Stdlib Require Import ZArith Lia Strings.Byte Strings.String.
From stdpp Require Import base gmap list option sorting.

#[local] Open Scope Z_scope.

(** ** Lemmas: stored responses *)

Definition readdress (session : list byte) (rid : Z) (f : Frame) : Frame :=
  mk_Frame session rid (f_flags f) (f_message f).

Lemma Frame_encode_Some f b :
  Frame_encode f = Some b →
  b = Header_encode (frame_header f (zlen (encode_payload (f_message f)))) ++ encode_payload (f_message f) ∧
  zlen (encode_payload (f_message f)) <= MAX_PAYLOAD.
Proof.
  unfold Frame_encode. destruct (Z.ltb_spec MAX_PAYLOAD (zlen (encode_payload (f_message f)))); [done|].
  intros [= <-]. split; [done|lia].
Qed.

Lemma Frame_encode_len f b : zlen (f_session_id f) = 16 → Frame_encode f = Some b → HEADER_LEN <= zlen b.
Proof.
  intros Hs [-> _]%Frame_encode_Some. rewrite zlen_app, zlen_Header_encode by done.
  pose proof (zlen_nonneg (encode_payload (f_message f))). lia.
Qed.

(** Overwriting the ids of an encoded frame gives the encoding of the frame with
    these ids. *)
Lemma stored_frame_encode f b session rid :
  zlen (f_session_id f) = 16 → Frame_encode f = Some b →
  stored_frame b session rid = Frame_encode (readdress session rid f).
Proof.
  intros Hs Hb. pose proof (Frame_encode_len f b Hs Hb) as Hl. unfold HEADER_LEN in Hl.
  unfold stored_frame. rewrite (proj2 (Z.leb_le _ _)) by lia.
  apply Frame_encode_Some in Hb as [-> Hp]. unfold Frame_encode. cbn [readdress f_message].
  rewrite (proj2 (Z.ltb_ge _ _)) by done. f_equal.
  unfold Header_encode, put_u32, put_u16, put_u64, put_raw, frame_header.
  cbn [h_major h_minor h_command h_flags h_session_id h_request_id h_payload_len readdress f_flags f_session_id
       f_request_id f_message].
  set (p := encode_payload _). set (a := to_be 4 MAGIC ++ to_be 2 MAJOR ++ to_be 2 MINOR ++
    to_be 2 (command (f_message f)) ++ to_be 2 (f_flags f)).
  assert (length a = 12%nat) as Ha by reflexivity.
  assert (length (f_session_id f ++ to_be 8 (f_request_id f)) = 24%nat) as Hi.
  { rewrite length_app. pose proof (zlen_to_be 8 (f_request_id f)) as H8. unfold zlen in *. lia. }
  assert (∀ x y, (to_be 4 MAGIC ++ to_be 2 MAJOR ++ to_be 2 MINOR ++ to_be 2 (command (f_message f)) ++
    to_be 2 (f_flags f) ++ x) ++ y = a ++ x ++ y) as Hass by (intros; unfold a; by rewrite <- !app_assoc).
  rewrite !Hass, take_app_length' by done. f_equal. rewrite <- !app_assoc. do 2 f_equal.
  rewrite (app_assoc (f_session_id f)), app_assoc, drop_app_length'; [done|]. rewrite length_app, Ha, Hi. done.
Qed.

(** ** Lemmas: sizes of the replies *)

Lemma encode_total f : zlen (encode_payload (f_message f)) <= MAX_PAYLOAD → ∃ b, Frame_encode f = Some b.
Proof. intros H. unfold Frame_encode. rewrite (proj2 (Z.ltb_ge _ _)) by done. eauto. Qed.

Lemma push_total conn f : zlen (encode_payload (f_message f)) <= MAX_PAYLOAD → ∃ out, push conn f = Some out.
Proof. intros [b Hb]%encode_total. unfold push. rewrite Hb. cbn. eauto. Qed.

Definition op_id_ok (id : OperationId) : Prop := zlen (op_host_instance_id id) = 16.

Ltac sizes :=
  cbn [encode_payload enc c_OperationReserved c_OperationId c_SpawnResult c_KillResult c_ErrorFrame c_uuid c_u64 c_u32
       c_u16 c_u8 c_i32 c_bool c_string c_bytes c_SessionList c_SessionEntry c_ExitInfo c_pair c_vec c_option c_Scope c_enum
       c_reason to_frame ef_code ef_message ef_detail encode_detail];
  unfold put_u64, put_u32, put_u16, put_u8, put_i32, put_bool, put_raw, put_len_prefixed, put_u8, put_u32, op_id_ok in *;
  autorewrite with zl; rewrite ?zlen_to_be.

Lemma size_spawn_result r :
  op_id_ok (spr_operation_id r) → zlen (spr_session_id r) = 16 → zlen (spr_session_incarnation r) = 16 →
  zlen (encode_payload (Msg_SpawnResult r)) <= MAX_PAYLOAD.
Proof. intros. sizes. unfold MAX_PAYLOAD. lia. Qed.

Lemma size_kill_result r : op_id_ok (kr_operation_id r) → zlen (encode_payload (Msg_KillResult r)) <= MAX_PAYLOAD.
Proof. intros. sizes. unfold MAX_PAYLOAD. lia. Qed.

Lemma size_reserved r : op_id_ok (ord_operation_id r) → zlen (encode_payload (Msg_OperationReserved r)) <= MAX_PAYLOAD.
Proof. intros. sizes. unfold MAX_PAYLOAD. lia. Qed.

Definition detail_ok (d : ErrorDetail) : Prop :=
  match d with OperationConflict i | OperationExpired i | OperationUnknown i => op_id_ok i | _ => True end.

Lemma size_error d t : detail_ok d → zlen t <= 2 ^ 20 → zlen (encode_payload (Msg_Error (to_frame d t))) <= MAX_PAYLOAD.
Proof. intros Hd Ht. unfold MAX_PAYLOAD. destruct d; cbn [detail_ok] in Hd; sizes; lia. Qed.

Lemma size_session_entry id e :
  zlen id = 16 → zlen (en_incarnation e) = 16 → op_id_ok (en_creation_op e) →
  zlen (enc c_SessionEntry (session_entry (id, e))) <= 100.
Proof.
  intros H1 H2 H3. cbn [session_entry]. sizes. destruct (en_exit e) as [[[c|] [s|]]|]; sizes; cbn; sizes; lia.
Qed.

Lemma zlen_concat_le {A} (f : A → list byte) (l : list A) (m : Z) :
  (∀ x, x ∈ l → zlen (f x) <= m) → zlen (concat (f <$> l)) <= zlen l * m.
Proof.
  induction l as [|x l IH]; intros H; [done|]. change (concat (f <$> x :: l)) with (f x ++ concat (f <$> l)).
  rewrite zlen_app, zlen_cons.
  pose proof (H x ltac:(by apply list_elem_of_here)). specialize (IH ltac:(intros; apply H; by apply list_elem_of_further)).
  lia.
Qed.

Lemma size_session_list l h :
  zlen (ls_request_token l).1 = 16 → zlen (ho_instance_id h) = 16 →
  (∀ id e, ho_sessions h !! id = Some e → zlen id = 16 ∧ zlen (en_incarnation e) = 16 ∧ op_id_ok (en_creation_op e)) →
  Z.of_nat (size (ho_sessions h)) <= MAX_SESSIONS →
  zlen (encode_payload (Msg_SessionList (list_sessions l h))) <= MAX_PAYLOAD.
Proof.
  intros Ht Hi Hs Hn. unfold list_sessions. cbn [encode_payload enc c_SessionList sl_sessions sl_request_token
    sl_owner_instance_id sl_table_revision sl_complete c_vec].
  assert (zlen (session_entry <$> bt_iter (ho_sessions h)) = Z.of_nat (size (ho_sessions h))) as Hl.
  { unfold zlen. rewrite length_fmap. f_equal. rewrite <- (length_fmap fst), bt_iter_keys. unfold bt_keys, bs_iter.
    rewrite merge_sort_Permutation. by rewrite <- size_dom. }
  assert (zlen (concat (enc c_SessionEntry <$> (session_entry <$> bt_iter (ho_sessions h)))) <=
    zlen (session_entry <$> bt_iter (ho_sessions h)) * 100) as Hc.
  { apply zlen_concat_le. intros x ([id e] & -> & Hin)%list_elem_of_fmap. apply elem_of_bt_iter in Hin.
    destruct (Hs id e Hin) as (? & ? & ?). by apply size_session_entry. }
  rewrite Hl in Hc. set (c := concat _) in *. clearbody c. sizes. unfold MAX_PAYLOAD, MAX_SESSIONS in *. lia.
Qed.

(** ** Lemmas: routing reservations *)

Definition live (h : Host) (k : RequestKey) : Prop := is_Some (ho_sessions h !! rk_session k).
Definition told (out : list HostOut) (r : Z) (k : RequestKey) : Prop :=
  HSession (rk_session k) (SBudgetAvailable (rk_subscription_id k) (rk_request_seq k) r) ∈ out.
Definition alloc_room (n : Z) (a : Allocator) : Prop :=
  alloc_inv a ∧ al_next_reservation a + zlen (al_queue a) <= n ∧
  al_budget a = SNAPSHOT_BUDGET ∧ al_reservation_size a = RESERVATION_SIZE.

Lemma pump_sum a a' out :
  pump_spec a a' out →
  al_next_reservation a' + zlen (al_queue a') = al_next_reservation a + zlen (al_queue a) ∧
  (length out + length (al_queue a') = length (al_queue a))%nat.
Proof.
  intros [_ _ Pp _ Pn _ _ _]. rewrite Pn, Pp. unfold zlen. rewrite length_app, length_fmap. lia.
Qed.

Lemma give_back_room r n a :
  alloc_room n a → n < u64_max →
  pump_spec (before_pump (OpGiveBack r) a) (give_back r a).1 (give_back r a).2 ∧ alloc_room n (give_back r a).1 ∧
  (length (give_back r a).2 + length (al_queue (give_back r a).1) = length (al_queue a))%nat.
Proof.
  intros (Hi & Hn & Hpar) Hlt. destruct (before_pump_inv (OpGiveBack r) a Hi) as (Hb & En & _).
  pose proof (pump_ok _ Hb ltac:(unfold ids_left; cbn in *; lia)) as Hp.
  change (pump (before_pump (OpGiveBack r) a)) with (give_back r a) in Hp.
  destruct (pump_sum _ _ _ Hp) as [Hs Hlen]. cbn [before_pump al_queue al_next_reservation] in *.
  split; [done|]. split; [|done]. split; [apply Hp|]. split; [lia|].
  destruct Hp as [_ _ _ _ _ _ [Pb Pr] _]. by rewrite Pb, Pr.
Qed.

(** The entries of an allocator after a pump: old ones, or granted just now. *)
Lemma pump_issued a a' out r k :
  pump_spec a a' out → al_issued a' !! r = Some k →
  al_issued a !! r = Some k ∨ ∃ g, g ∈ out ∧ g_reservation_id g = r ∧ g_key g = k.
Proof.
  intros [_ _ _ _ _ Pm _ _] Hr. rewrite Pm in Hr. apply lookup_union_Some_raw in Hr as [Hr|[_ Hr]]; [right|by left].
  apply elem_of_list_to_map_2 in Hr. apply list_elem_of_fmap in Hr as (g & [= -> ->] & Hg). eauto.
Qed.

Lemma route_loop_spec fuel grants h (D : Z → RequestKey → Prop) n :
  alloc_room n (ho_alloc h) → n < u64_max → (length grants + length (al_queue (ho_alloc h)) <= fuel)%nat →
  (∀ r k, al_issued (ho_alloc h) !! r = Some k →
    (D r k ∧ live h k) ∨ ∃ g, g ∈ grants ∧ g_reservation_id g = r ∧ g_key g = k) →
  let '(h', out) := route_loop fuel grants h in
  alloc_room n (ho_alloc h') ∧ h' = with_alloc (ho_alloc h') h ∧
  (∀ r k, al_issued (ho_alloc h') !! r = Some k → live h k ∧ (D r k ∨ told out r k)).
Proof.
  revert D grants h. induction fuel as [|fuel IH]; intros D grants h Hroom Hn Hf Hold.
  { destruct grants; [|cbn in Hf; lia]. cbn. split; [done|]. split; [by destruct h|].
    intros r k Hr. destruct (Hold r k Hr) as [[? ?]|(g & Hg & _)]; [auto|by apply elem_of_nil in Hg]. }
  destruct grants as [|g rest]; cbn [route_loop].
  { split; [done|]. split; [by destruct h|].
    intros r k Hr. destruct (Hold r k Hr) as [[? ?]|(g & Hg & _)]; [auto|by apply elem_of_nil in Hg]. }
  cbn [length] in Hf. destruct (ho_sessions h !! rk_session (g_key g)) as [e|] eqn:Es.
  - specialize (IH (λ r k, D r k ∨ r = g_reservation_id g ∧ k = g_key g) rest h Hroom Hn ltac:(lia)).
    destruct (route_loop fuel rest h) as [h' out]. destruct IH as (Hr & Hh & Ht).
    { intros r k Hr. destruct (Hold r k Hr) as [[? ?]|(g' & Hg & <- & <-)]; [auto|].
      apply elem_of_cons in Hg as [->|Hg]; [left; split; [by auto|unfold live; eauto]|right; eauto]. }
    split; [done|]. split; [done|]. intros r k Hi. destruct (Ht r k Hi) as [Hl [[?|[-> ->]]|Hto]];
      (split; [done|]); [by auto|right; by apply list_elem_of_here|right; by apply list_elem_of_further].
  - destruct (give_back_room (g_reservation_id g) n (ho_alloc h) Hroom Hn) as (Hp & Hroom' & Hlen).
    destruct (give_back (g_reservation_id g) (ho_alloc h)) as [a more]. cbn [fst snd] in *.
    specialize (IH D (more ++ rest) (with_alloc a h) Hroom' Hn ltac:(cbn; rewrite length_app; lia)).
    destruct (route_loop fuel (more ++ rest) (with_alloc a h)) as [h' out]. apply IH.
    intros r k Hr. cbn [with_alloc ho_alloc] in Hr. destruct (pump_issued _ _ _ r k Hp Hr) as [Hb|(g' & Hg & H')].
    + cbn in Hb. apply lookup_delete_Some in Hb as [Hne Hb].
      destruct (Hold r k Hb) as [?|(g' & Hg & Hid & Hk)]; [by left|right].
      apply elem_of_cons in Hg as [->|Hg]; [done|]. exists g'. split; [apply elem_of_app; auto|done].
    + right. exists g'. split; [apply elem_of_app; auto|done].
Qed.

(** One call on the allocator, with its grants routed. *)
Definition alloc_call (op : AllocOp) (h : Host) : Host * list HostOut :=
  match op with
  | OpRequest key => request_reservation key h
  | OpCancel key => cancel_reservation key h
  | OpGiveBack id => return_reservation id h
  end.

Lemma alloc_call_spec op h n :
  alloc_room n (ho_alloc h) → n + 1 < u64_max → (∀ r k, al_issued (ho_alloc h) !! r = Some k → live h k) →
  let '(h', out) := alloc_call op h in
  alloc_room (n + 1) (ho_alloc h') ∧ h' = with_alloc (ho_alloc h') h ∧
  (∀ r k, al_issued (ho_alloc h') !! r = Some k →
    live h k ∧ (al_issued (ho_alloc h) !! r = Some k ∨ told out r k)).
Proof.
  intros (Hi & Hs & Hpar) Hn Hlive. destruct (alloc_step_spec op (ho_alloc h) n Hi Hs ltac:(lia)) as [Hp Hs'].
  assert (alloc_call op h = let '(a, grants) := alloc_step op (ho_alloc h) in route grants (with_alloc a h)) as ->
    by (by destruct op).
  destruct (alloc_step op (ho_alloc h)) as [a grants]. cbn [fst snd] in *. unfold route.
  assert (∀ r k, al_issued a !! r = Some k →
    (al_issued (ho_alloc h) !! r = Some k ∧ live h k) ∨ ∃ g, g ∈ grants ∧ g_reservation_id g = r ∧ g_key g = k) as Hold.
  { intros r k Hr. destruct (pump_issued _ _ _ r k Hp Hr) as [Hb|?]; [|by right]. left.
    assert (al_issued (ho_alloc h) !! r = Some k); [|eauto].
    destruct op as [key|key|id]; cbn in Hb; [by destruct (existsb _ _)|done|].
    by apply lookup_delete_Some in Hb as [_ Hb]. }
  apply (route_loop_spec _ grants (with_alloc a h) (λ r k, al_issued (ho_alloc h) !! r = Some k)); try done.
  split; [apply Hp|]. split; [done|]. destruct Hp as [_ _ _ _ _ _ [Pb Pr] _]. cbn. rewrite Pb, Pr.
  by destruct op; cbn; [destruct (existsb _ _)|..].
Qed.

(** ** Runs of the host *)

(** The calls on the shared state, one after the other. *)
Inductive HostCall : Type :=
| CallFrame (now : Z) (os : PtyOutcome) (deliver : Z → Signal → bool) (conn : Z) (f : Frame)
| CallExited (id : list byte) (info : ExitInfo) (now : Z)
| CallAlloc (op : AllocOp)
| CallConnect
| CallConnClosed (id : Z).

Section runs.
Context (xxh3_128 : list byte → Z).

Definition host_step (c : HostCall) (h : Host) : option (Host * list HostOut) :=
  match c with
  | CallFrame now os deliver conn f => handle xxh3_128 now os deliver conn f h
  | CallExited id info now => Some ((mark_exited id info now h).1, [])
  | CallAlloc op => Some (alloc_call op h)
  | CallConnect => let '(h, id) := next_conn_id h in Some (register_conn id h, [])
  | CallConnClosed id => Some (conn_closed id h)
  end.

Fixpoint host_run (cs : list HostCall) (h : Host) : option (Host * list HostOut) :=
  match cs with
  | [] => Some (h, [])
  | c :: cs' =>
      '(h1, o1) ← host_step c h;
      '(h2, o2) ← host_run cs' h1;
      Some (h2, o1 ++ o2)
  end.

(** Frames come from the decoder, so they are well formed; ids of sessions are
    UUIDs, and an error text of the operating system is at most 1 MiB. *)
Definition os_ok (os : PtyOutcome) : Prop :=
  match os with
  | PtyFailed what => zlen what <= 2 ^ 20
  | PtyStarted id incarnation pid => zlen id = 16 ∧ zlen incarnation = 16 ∧ is_u32 pid = true
  end.
Definition good_call (c : HostCall) : Prop :=
  match c with
  | CallFrame _ os _ _ f => wf_frame f = true ∧ os_ok os
  | _ => True
  end.

Record host_inv (n : Z) (h : Host) : Prop := {
  hi_instance : zlen (ho_instance_id h) = 16;
  hi_host : ot_host (ho_ops h) = ho_instance_id h;
  hi_ops : ops_inv n (ho_ops h);
  hi_stored : ∀ seq k hash r se d, ot_entries (ho_ops h) !! seq = Some (k, Completed hash r se d) → HEADER_LEN <= zlen r;
  hi_entries : ∀ id e, ho_sessions h !! id = Some e →
    zlen id = 16 ∧ zlen (en_incarnation e) = 16 ∧ op_id_ok (en_creation_op e) ∧
    0 < en_created_table_revision e <= ho_table_revision h;
  hi_revision : 0 <= ho_table_revision h <= n;
  hi_distinct : ∀ id1 id2 e1 e2, ho_sessions h !! id1 = Some e1 → ho_sessions h !! id2 = Some e2 →
    en_created_table_revision e1 = en_created_table_revision e2 → id1 = id2;
  hi_size : Z.of_nat (size (ho_sessions h)) <= MAX_SESSIONS;
  hi_alloc : alloc_room (n + 1) (ho_alloc h);
  hi_live : ∀ r k, al_issued (ho_alloc h) !! r = Some k → live h k;
}.

Lemma host_new_inv instance : zlen instance = 16 → ∃ h, host_new instance = Some h ∧ host_inv 0 h.
Proof.
  intros Hi. eexists. split; [reflexivity|]. split; cbn; try done.
  - apply ops_new_inv.
  - split; [|done]. apply (alloc_new_inv SNAPSHOT_BUDGET RESERVATION_SIZE); try done.
Qed.

Lemma host_inv_mono n h : host_inv n h → host_inv (n + 1) h.
Proof.
  intros []. split; try done; [|lia|].
  - destruct hi_ops0. split; [lia|done].
  - destruct hi_alloc0 as (? & ? & ?). split; [done|]. split; [lia|done].
Qed.

(** Calls that only change the operation table. *)
Lemma with_ops_inv n t h :
  host_inv n h → ot_host t = ho_instance_id h → ops_inv (n + 1) t →
  (∀ seq k hash r se d, ot_entries t !! seq = Some (k, Completed hash r se d) → HEADER_LEN <= zlen r) →
  host_inv (n + 1) (with_ops t h).
Proof. intros Hi Hh Ht Hs. apply host_inv_mono in Hi. destruct Hi. by split. Qed.

Lemma complete_inv n id hash f b se now h :
  host_inv n h → n < u64_max → zlen (f_session_id f) = 16 → Frame_encode f = Some b →
  host_inv (n + 1) (with_ops (complete id hash b se now (ho_ops h)) h).
Proof.
  intros Hi Hn Hf Hb. pose proof (Frame_encode_len f b Hf Hb) as Hl. apply with_ops_inv; [done|apply Hi| |].
  - apply (op_step_inv (CComplete id hash b se now)); [apply Hi|done].
  - intros seq k h' r se' d. cbn. rewrite lookup_alter. case_decide; [subst|apply Hi].
    destruct (ot_entries (ho_ops h) !! _) as [[k0 s0]|]; [|done]. cbn. intros [= <- <- <- <- <-]. done.
Qed.

Lemma decide_replay id k hash t r :
  decide_op id k hash t = Replay r → ∃ se d, ot_entries t !! op_op_seq id = Some (k, Completed hash r se d).
Proof.
  unfold decide_op. destruct (_ || _); [done|].
  destruct (ot_entries t !! op_op_seq id) as [[k' [at_|h r' se d]]|]; [by destruct (bool_decide _)| |done].
  destruct (decide (k' = k)) as [->|Hne]; [rewrite bool_decide_false by tauto|by rewrite bool_decide_true].
  destruct (Z.eqb_spec h hash); [|done]. intros [= ->]. subst. eauto.
Qed.

(** A request that is not executed is answered without a panic. *)
Lemma reject_total conn session rid id k hash n h :
  host_inv n h → op_id_ok id →
  match reject conn session rid (decide_op id k hash (ho_ops h)) id with
  | None => decide_op id k hash (ho_ops h) = Execute
  | Some answer => ∃ out, answer = Some out
  end.
Proof.
  intros Hi Hid.
  assert (∀ d, detail_ok d → ∃ out, reply_err conn session rid d (text "operation rejected") = Some out) as Herr.
  { intros d Hd. apply push_total. by apply size_error. }
  destruct (decide_op id k hash (ho_ops h)) as [|r| | |] eqn:Ed; cbn [reject]; [done| |by apply Herr..].
  destruct (decide_replay _ _ _ _ _ Ed) as (se & d & Hr). apply (hi_stored n h Hi) in Hr. unfold HEADER_LEN in Hr.
  unfold stored_frame. rewrite (proj2 (Z.leb_le _ _)) by lia. cbn. eauto.
Qed.

Lemma spawn_decide_total conn session rid s n h :
  host_inv n h → op_id_ok (spawn_operation_id s) →
  match spawn_decide xxh3_128 conn session rid s h with
  | None => decide_op (spawn_operation_id s) OperationKind_Spawn (spawn_hash xxh3_128 session s) (ho_ops h) = Execute
  | Some answer => ∃ out, answer = Some out
  end.
Proof.
  intros Hi Hid. unfold spawn_decide.
  pose proof (reject_total conn session rid _ OperationKind_Spawn (spawn_hash xxh3_128 session s) n h Hi Hid) as Hr.
  destruct (decide_op _ _ _ _) as [|r| | |] eqn:Ed; try done.
  destruct (replay_spawn r) as [[sid res]|] eqn:Er; [|exact Hr].
  unfold replay_spawn, decode_complete_frame in Er. destruct (decode_frame r) as [[|m hd f|]|] eqn:Ef; try done.
  destruct (f_message f) eqn:Em; try done. injection Er as <- <-.
  destruct (decode_frame_inv _ _ _ _ Ef) as (Hw & _). unfold wf_frame in Hw. rewrite Em in Hw. cbn in Hw. bool_hyps.
  apply push_total. apply size_spawn_result; unfold op_id_ok; lia.
Qed.

Lemma size_insert_le (id : list byte) (e : Entry) (m : gmap (list byte) Entry) :
  (size (<[id := e]> m) <= S (size m))%nat.
Proof. rewrite map_size_insert. case_match; cbn; lia. Qed.

(** A started session enters the table under a new revision. *)
Lemma start_inv n id inc pid s h :
  host_inv n h → n < u64_max → zlen id = 16 → zlen inc = 16 → op_id_ok (spawn_operation_id s) →
  Z.of_nat (size (ho_sessions h)) < MAX_SESSIONS →
  let rev := add64 (ho_table_revision h) 1 in
  host_inv (n + 1) (with_sessions (<[id := mk_Entry pid inc (spawn_operation_id s) rev None None]> (ho_sessions h))
    (with_revision rev h)).
Proof.
  intros Hi Hn Hid Hinc Hop Hsz rev. apply host_inv_mono in Hi as Hi'. destruct Hi, Hi'.
  assert (rev = ho_table_revision h + 1) as Er by (apply add64_id; lia). clearbody rev.
  split; cbn [with_sessions with_revision ho_instance_id ho_ops ho_sessions ho_table_revision ho_alloc]; try done.
  - intros id' e'. rewrite lookup_insert. case_decide; [subst; intros [= <-]; cbn; split_and!; try done; lia|].
    intros He. destruct (hi_entries0 id' e' He) as (? & ? & ? & ?). split_and!; try done; lia.
  - lia.
  - intros id1 id2 e1 e2 H1 H2 He. apply lookup_insert_Some in H1, H2.
    destruct H1 as [[<- <-]|[Hn1 H1]], H2 as [[<- <-]|[Hn2 H2]]; cbn in He; [done| | |eauto].
    + destruct (hi_entries0 id2 e2 H2) as (_ & _ & _ & ?). lia.
    + destruct (hi_entries0 id1 e1 H1) as (_ & _ & _ & ?). lia.
  - pose proof (size_insert_le id (mk_Entry pid inc (spawn_operation_id s) rev None None) (ho_sessions h)). lia.
  - intros r k Hr. unfold live. cbn. rewrite lookup_insert. case_decide; [eauto|]. by apply (hi_live0 r).
Qed.

Lemma spawn_execute_total now os conn session rid s n h :
  host_inv n h → n + 1 < u64_max → os_ok os → zlen session = 16 → op_id_ok (spawn_operation_id s) →
  ∃ h' out, spawn_execute xxh3_128 now os conn session rid s h = Some (h', out) ∧ host_inv (n + 2) h'.
Proof.
  intros Hi Hn Hos Hse Hop. unfold spawn_execute. cbv zeta. replace (n + 2) with (n + 1 + 1) by lia.
  assert (∀ d t, detail_ok d → zlen t <= 2 ^ 20 → ∃ h' out,
    (b ← Frame_encode (error_reply session 0 d t);
     out ← reply_err conn session rid d t;
     Some (with_ops (complete (spawn_operation_id s) (spawn_hash xxh3_128 session s) b None now (ho_ops h)) h,
           [] ++ out)) = Some (h', out) ∧ host_inv (n + 1 + 1) h') as Herr.
  { intros d t Hd Ht. destruct (encode_total (error_reply session 0 d t) (size_error d t Hd Ht)) as [b Hb].
    destruct (push_total conn (error_reply session rid d t) (size_error d t Hd Ht)) as [out Ho].
    unfold reply_err. rewrite Hb, Ho. cbn. eexists _, _. split; [done|].
    eapply host_inv_mono, complete_inv; [done|lia| |exact Hb]. done. }
  destruct (MAX_SPAWN_ARGS <? args_len s); [by apply Herr|].
  destruct (Z.leb_spec MAX_SESSIONS (Z.of_nat (size (ho_sessions h)))) as [|Hsz]; [by apply Herr|].
  unfold start_session. destruct (normalize_size _ _) as [cols rows].
  destruct os as [what|id inc pid]; [by apply Herr|]. destruct Hos as (Hid & Hinc & _).
  pose proof (start_inv n id inc pid s h Hi ltac:(lia) Hid Hinc Hop Hsz) as Hi1. cbv zeta in Hi1.
  set (h1 := with_sessions _ _) in *. clearbody h1.
  assert (∀ created rev rid', zlen (encode_payload (f_message (mk_Frame id rid' FLAG_RESPONSE
    (Msg_SpawnResult (mk_SpawnResult (spawn_operation_id s) id inc pid created rev))))) <= MAX_PAYLOAD) as Hsize
    by (intros; by apply size_spawn_result).
  cbn [spr_operation_id spr_session_id spr_session_incarnation spr_pid spr_created_table_revision].
  destruct (encode_total _ (Hsize false (add64 (ho_table_revision h) 1) 0)) as [b Hb].
  destruct (push_total conn _ (Hsize true (add64 (ho_table_revision h) 1) rid)) as [out Ho].
  rewrite Hb. cbn [mbind option_bind]. rewrite Ho. cbn. eexists _, _. split; [done|].
  eapply complete_inv; [done|lia| |exact Hb]. done.
Qed.

Lemma kill_total now deliver conn session rid k n h :
  host_inv n h → n < u64_max → zlen session = 16 → op_id_ok (kill_operation_id k) →
  ∃ h' out, kill xxh3_128 now deliver conn session rid k h = Some (h', out) ∧ host_inv (n + 1) h'.
Proof.
  intros Hi Hn Hse Hop. unfold kill. cbv zeta.
  pose proof (reject_total conn session rid _ OperationKind_Kill (kill_hash xxh3_128 session k) n h Hi Hop) as Hr.
  destruct (reject _ _ _ _ _) as [answer|]; [destruct Hr as [out ->]; cbn; eexists _, _; split; [done|by apply host_inv_mono]|].
  destruct (match ho_sessions h !! session with Some _ => _ | None => _ end) as [signalled delivered].
  assert (∀ rid', zlen (encode_payload (f_message (mk_Frame session rid' FLAG_RESPONSE
    (Msg_KillResult (mk_KillResult (kill_operation_id k) delivered))))) <= MAX_PAYLOAD) as Hsize
    by (intros; by apply size_kill_result).
  destruct (encode_total _ (Hsize 0)) as [b Hb]. destruct (push_total conn _ (Hsize rid)) as [out Ho].
  unfold reply. rewrite Hb. cbn [mbind option_bind]. rewrite Ho. cbn. eexists _, _. split; [done|].
  eapply complete_inv; [done|done| |exact Hb]. done.
Qed.

Lemma reserve_inv kind now n h :
  host_inv n h → n < u64_max → host_inv (n + 1) (with_ops (reserve kind now (ho_ops h)).1 h).
Proof.
  intros Hi Hn. apply with_ops_inv; [done|apply Hi| |].
  - apply (op_step_inv (CReserve kind now)); [apply Hi|done].
  - intros seq k hash r se d Hr. cbn in Hr. apply lookup_insert_Some in Hr as [[_ ?]|[_ Hr]]; [done|].
    by apply (hi_stored n h Hi) in Hr.
Qed.

Lemma handle_total now os deliver conn f n h :
  host_inv n h → n + 1 < u64_max → wf_frame f = true → os_ok os →
  ∃ h' out, handle xxh3_128 now os deliver conn f h = Some (h', out) ∧ host_inv (n + 2) h'.
Proof.
  intros Hi Hn Hw Hos. unfold wf_frame in Hw. bool_hyps.
  assert (zlen (f_session_id f) = 16) as Hse by lia.
  assert (host_inv (n + 2) h) as Hi2.
  { replace (n + 2) with (n + 1 + 1) by lia. by do 2 apply host_inv_mono. }
  assert (∀ m, ∃ h' out, match ho_sessions h !! f_session_id f with
      | Some _ => Some (h, [HSession (f_session_id f) (SRequest conn (f_request_id f) m)])
      | None => out ← reply_err conn (f_session_id f) (f_request_id f) SessionNotFound (text "session not found");
                Some (h, out)
      end = Some (h', out) ∧ host_inv (n + 2) h') as Hother.
  { intros m. destruct (ho_sessions h !! _); [eauto|].
    destruct (push_total conn (error_reply (f_session_id f) (f_request_id f) SessionNotFound (text "session not found")))
      as [out Ho]; [by apply size_error|]. unfold reply_err. rewrite Ho. cbn. eauto. }
  unfold handle. cbv zeta. destruct (f_message f) as [| |s| | | | | | | | | | | | | | | | | | | | | |l| |k| | | |r| | |] eqn:Em; try apply Hother;
    match goal with H : wf_message _ = true |- _ => cbn in H; bool_hyps end.
  - unfold spawn. pose proof (spawn_decide_total conn (f_session_id f) (f_request_id f) s n h Hi ltac:(unfold op_id_ok; lia)) as Hd.
    destruct (spawn_decide _ _ _ _ _ _) as [answer|]; [destruct Hd as [out ->]; cbn; eauto|].
    apply spawn_execute_total; try done. unfold op_id_ok; lia.
  - destruct (push_total conn (mk_Frame (f_session_id f) (f_request_id f) FLAG_RESPONSE
      (Msg_SessionList (list_sessions l h)))) as [out Ho].
    { apply size_session_list; [lia|apply Hi| |apply Hi]. intros id e He.
      destruct (hi_entries n h Hi id e He) as (? & ? & ? & _). done. }
    unfold reply. rewrite Ho. cbn. eauto.
  - destruct (kill_total now deliver conn (f_session_id f) (f_request_id f) k n h) as (h' & out & E & Hi'); try done;
      [lia|unfold op_id_ok; lia|]. exists h', out. split; [done|].
    replace (n + 2) with (n + 1 + 1) by lia. by apply host_inv_mono.
  - pose proof (reserve_inv (ro_kind r) now n h Hi ltac:(lia)) as Hr. unfold reserve in *. cbn [fst] in Hr.
    destruct (push_total conn (mk_Frame (f_session_id f) (f_request_id f) FLAG_RESPONSE
      (Msg_OperationReserved (mk_OperationReserved (mk_OperationId (ot_host (ho_ops h)) (add64 (ot_max_issued (ho_ops h)) 1))))))
      as [out Ho].
    { apply size_reserved. unfold op_id_ok. cbn. rewrite (hi_host n h Hi). apply Hi. }
    unfold reply. rewrite Ho. cbn [mbind option_bind]. eexists _, _. split; [done|].
    replace (n + 2) with (n + 1 + 1) by lia. by apply host_inv_mono.
Qed.

Lemma host_step_total c n h :
  host_inv n h → n + 2 < u64_max → good_call c →
  ∃ h' out, host_step c h = Some (h', out) ∧ host_inv (n + 2) h'.
Proof.
  intros Hi Hn Hg. assert (∀ h', host_inv (n + 1) h' → host_inv (n + 2) h') as Hup.
  { intros h' H. replace (n + 2) with (n + 1 + 1) by lia. by apply host_inv_mono. }
  destruct c as [now os deliver conn f|id info now|op| |id]; cbn [host_step good_call] in *.
  - destruct Hg. apply handle_total; try done. lia.
  - eexists _, _. split; [done|]. apply Hup. apply host_inv_mono in Hi as Hi1. destruct Hi, Hi1.
    assert (add64 (ho_table_revision h) 1 = ho_table_revision h + 1) as Er by (apply add64_id; lia).
    unfold mark_exited. cbn [fst]. rewrite Er.
    assert (∀ id' e', alter (set_exit info now) id (ho_sessions h) !! id' = Some e' → ∃ e, ho_sessions h !! id' = Some e ∧
      en_incarnation e' = en_incarnation e ∧ en_creation_op e' = en_creation_op e ∧
      en_created_table_revision e' = en_created_table_revision e) as Halter.
    { intros id' e' He. rewrite lookup_alter in He. case_decide; [subst|eauto].
      destruct (ho_sessions h !! id') as [e|] eqn:Ee; [|done]. injection He as <-. eauto. }
    split; cbn [with_sessions with_revision ho_instance_id ho_ops ho_sessions ho_table_revision ho_alloc]; try done.
    + intros id' e' (e & He & -> & -> & ->)%Halter. destruct (hi_entries0 id' e He) as (? & ? & ? & ?).
      split_and!; try done; lia.
    + lia.
    + intros id1 id2 e1 e2 (x1 & H1 & _ & _ & ->)%Halter (x2 & H2 & _ & _ & ->)%Halter. by apply hi_distinct0.
    + by rewrite <- (size_dom (alter _ _ _)), dom_alter_L, size_dom.
    + intros r k Hr. unfold live. cbn. rewrite lookup_alter. pose proof (hi_live0 r k Hr) as Hl.
      case_decide; [subst; by apply fmap_is_Some|done].
  - eexists _, _. split; [by rewrite <- surjective_pairing|]. apply Hup.
    pose proof (alloc_call_spec op h (n + 1) (hi_alloc n h Hi) ltac:(lia) (hi_live n h Hi)) as Hs.
    destruct (alloc_call op h) as [h' out]. destruct Hs as (Hroom & -> & Hr). cbn [fst] in *.
    apply host_inv_mono in Hi. destruct Hi. split; try done. intros r k Hk. by destruct (Hr r k Hk).
  - eexists _, _. split; [done|]. apply Hup. apply host_inv_mono in Hi. by destruct Hi.
  - eexists _, _. split; [done|]. apply Hup. apply host_inv_mono in Hi. by destruct Hi.
Qed.

Lemma host_run_total cs n h :
  host_inv n h → n + 2 * zlen cs + 2 < u64_max → Forall good_call cs →
  ∃ h' out, host_run cs h = Some (h', out) ∧ host_inv (n + 2 * zlen cs) h'.
Proof.
  intros Hi Hn Hg. revert n h Hi Hn. induction Hg as [|c cs Hc _ IH]; intros n h Hi Hn.
  { eexists _, _. split; [done|]. change (zlen []) with 0. by rewrite Z.mul_0_r, Z.add_0_r. }
  rewrite zlen_cons in *. pose proof (zlen_nonneg cs). cbn [host_run].
  destruct (host_step_total c n h Hi ltac:(lia) Hc) as (h1 & o1 & E1 & Hi1). rewrite E1. cbn.
  destruct (IH (n + 2) h1 Hi1 ltac:(lia)) as (h2 & o2 & E2 & Hi2). rewrite E2. cbn.
  eexists _, _. split; [done|]. by replace (n + 2 * (1 + zlen cs)) with (n + 2 + 2 * zlen cs) by lia.
Qed.

(** ** Lemmas: idempotence *)

(** What stays true of a completed operation until it is evicted. *)
Definition remembers (id : OperationId) (h h' : Host) : Prop :=
  ot_host (ho_ops h') = ot_host (ho_ops h) ∧ ot_max_issued (ho_ops h) <= ot_max_issued (ho_ops h') ∧
  ot_entries (ho_ops h') !! op_op_seq id = ot_entries (ho_ops h) !! op_op_seq id.

Lemma decide_execute id k hash t :
  decide_op id k hash t = Execute →
  op_host_instance_id id = ot_host t ∧ op_op_seq id <= ot_max_issued t ∧ op_op_seq id ≠ 0 ∧
  ∃ at_, ot_entries t !! op_op_seq id = Some (k, Reserved at_).
Proof.
  unfold decide_op. destruct (_ || _) eqn:E; [done|]. apply orb_false_iff in E as [E E3].
  apply orb_false_iff in E as [E1 E2]. apply bool_decide_eq_false in E1. apply dec_stable in E1.
  destruct (ot_entries t !! op_op_seq id) as [[k' [at_|h r' se d]]|] eqn:El; [| |done].
  - destruct (decide (k' = k)) as [->|Hne]; [|by rewrite bool_decide_true]. intros _. split_and!; try lia; eauto.
  - destruct (bool_decide _); [done|]. by destruct (h =? hash).
Qed.

Lemma decide_completed id k hash r se now t t2 :
  decide_op id k hash t = Execute →
  ot_host t2 = ot_host t → ot_max_issued t <= ot_max_issued t2 →
  ot_entries t2 !! op_op_seq id = ot_entries (complete id hash r se now t) !! op_op_seq id →
  decide_op id k hash t2 = Replay r.
Proof.
  intros (E1 & E2 & E3 & at_ & El)%decide_execute Hh Hm Hl. cbn in Hl. rewrite lookup_alter_eq, El in Hl. cbn in Hl.
  unfold decide_op. rewrite Hl, Hh, E1, bool_decide_false by tauto.
  rewrite (proj2 (Z.ltb_ge _ _)), (proj2 (Z.eqb_neq _ _)) by lia. cbn [orb].
  rewrite bool_decide_false by tauto. by rewrite Z.eqb_refl.
Qed.

Definition result_frame (sid : list byte) (rid : Z) (r : SpawnResult) : Frame :=
  mk_Frame sid rid FLAG_RESPONSE (Msg_SpawnResult r).
Definition created (b : bool) (r : SpawnResult) : SpawnResult :=
  mk_SpawnResult (spr_operation_id r) (spr_session_id r) (spr_session_incarnation r) (spr_pid r) b
    (spr_created_table_revision r).

Lemma replay_spawn_encode sid rid r b :
  wf_frame (result_frame sid rid r) = true → Frame_encode (result_frame sid rid r) = Some b →
  replay_spawn b = Some (sid, r).
Proof.
  intros Hw He. pose proof (decode_frame_encode _ b [] Hw He) as Hd. rewrite app_nil_r in Hd.
  unfold replay_spawn, decode_complete_frame. by rewrite Hd.
Qed.

(** ** Theorems *)


(** Whenever a call on the snapshot budget issues a reservation, the session
    it belongs to is told in the same call; one whose session is not in the table
    is given back and passed on. *)
Theorem reservations_routed (instance : list byte) (cs : list HostCall) (h0 h : Host) (out : list HostOut) (op : AllocOp) :
  zlen instance = 16 → Forall good_call cs → 2 * zlen cs + 3 < u64_max →
  host_new instance = Some h0 → host_run cs h0 = Some (h, out) →
  ∀ r k, al_issued (ho_alloc (alloc_call op h).1) !! r = Some k →
    is_Some (ho_sessions h !! rk_session k) ∧
    (al_issued (ho_alloc h) !! r = Some k ∨ told (alloc_call op h).2 r k).
Proof.
  intros Hin Hg Hn E0 Er r k Hr. destruct (host_new_inv instance Hin) as (h0' & E0' & H0).
  rewrite E0 in E0'. injection E0' as <-.
  destruct (host_run_total cs 0 h0 H0 ltac:(lia) Hg) as (h' & out' & Er' & Hi).
  rewrite Er in Er'. injection Er' as <- <-. pose proof (zlen_nonneg cs).
  pose proof (alloc_call_spec op h _ (hi_alloc _ h Hi) ltac:(lia) (hi_live _ h Hi)) as Hs.
  destruct (alloc_call op h) as [h1 out1]. destruct Hs as (_ & _ & Hs). by apply Hs.
Qed.

Lemma spawn_decide_None conn session rid s h :
  spawn_decide xxh3_128 conn session rid s h = None →
  decide_op (spawn_operation_id s) OperationKind_Spawn (spawn_hash xxh3_128 session s) (ho_ops h) = Execute.
Proof. unfold spawn_decide, reject. by destruct (decide_op _ _ _ _). Qed.

Lemma spawn_replayed conn session rid s h sid r b :
  decide_op (spawn_operation_id s) OperationKind_Spawn (spawn_hash xxh3_128 session s) (ho_ops h) = Replay b →
  replay_spawn b = Some (sid, r) →
  spawn_decide xxh3_128 conn session rid s h = Some (push conn (result_frame sid rid r)).
Proof. intros Hd Hr. unfold spawn_decide. by rewrite Hd, Hr. Qed.

(** C15: Spawn is idempotent.  Once a Spawn started a session, sending it again
    with the same operation id, on any connection, after any further calls as
    long as the operation was not evicted, starts nothing and leaves the host
    unchanged: it is answered with the same session, incarnation, process and
    revision, marked as not created, whatever the operating system would do. *)
Theorem spawn_idempotent now conn session rid s id incarnation pid h h1 out h2 now2 os2 conn2 rid2 :
  let result := mk_SpawnResult (spawn_operation_id s) id incarnation pid true (add64 (ho_table_revision h) 1) in
  wf c_OperationId (spawn_operation_id s) = true → zlen id = 16 → zlen incarnation = 16 → is_u32 pid = true →
  is_u64 rid2 = true → args_len s <= MAX_SPAWN_ARGS → Z.of_nat (size (ho_sessions h)) < MAX_SESSIONS →
  spawn_decide xxh3_128 conn session rid s h = None →
  spawn xxh3_128 now (PtyStarted id incarnation pid) conn session rid s h = Some (h1, out) →
  remembers (spawn_operation_id s) h1 h2 →
  ∃ b b2, Frame_encode (result_frame id rid result) = Some b ∧ HPush conn b ∈ out ∧
    Frame_encode (result_frame id rid2 (created false result)) = Some b2 ∧
    spawn xxh3_128 now2 os2 conn2 session rid2 s h2 = Some (h2, [HPush conn2 b2]).
Proof.
  intros result Hop Hid Hinc Hpid Hrid2 Hargs Hsz Hdec Hsp (Rh & Rm & Re).
  assert (op_id_ok (spawn_operation_id s)) as Hop' by (cbn in Hop; bool_hyps; unfold op_id_ok; lia).
  assert (∀ c r, zlen (encode_payload (f_message (result_frame id r (created c result)))) <= MAX_PAYLOAD) as Hsize
    by (intros; by apply size_spawn_result).
  unfold spawn in Hsp. rewrite Hdec in Hsp. apply spawn_decide_None in Hdec.
  unfold spawn_execute in Hsp. rewrite (proj2 (Z.ltb_ge _ _)), (proj2 (Z.leb_gt _ _)) in Hsp by lia.
  unfold start_session in Hsp. destruct (normalize_size _ _) as [cols rows]. cbv zeta in Hsp.
  fold result in Hsp. change (mk_SpawnResult (spr_operation_id result) _ _ _ false _) with (created false result) in Hsp.
  fold (result_frame id 0 (created false result)) in Hsp. fold (result_frame id rid result) in Hsp.
  destruct (encode_total _ (Hsize false 0)) as [b0 Hb0]. rewrite Hb0 in Hsp. cbn [mbind option_bind] in Hsp.
  destruct (encode_total _ (Hsize true rid)) as [b Hb]. change (created true result) with result in Hb.
  unfold push in Hsp. rewrite Hb in Hsp. cbn [mbind option_bind] in Hsp. injection Hsp as <- <-.
  destruct (encode_total _ (Hsize false rid2)) as [b2 Hb2]. exists b, b2.
  split; [done|]. split; [by apply list_elem_of_further, list_elem_of_here|]. split; [done|].
  cbn [with_ops ho_ops with_sessions with_revision] in Rh, Rm, Re.
  pose proof (decide_completed _ _ _ b0 (Some id) now _ (ho_ops h2) Hdec Rh Rm Re) as Hd2.
  unfold spawn. rewrite (spawn_replayed _ _ _ _ _ id (created false result) b0 Hd2).
  - unfold push. by rewrite Hb2.
  - apply (replay_spawn_encode id 0); [|done]. unfold wf_frame. cbn in Hop |- *. unfold is_u64, in_range.
    pose proof (wrap64_range (ho_table_revision h + 1)). rewrite !andb_true_iff in Hop. unfold is_u64, in_range in Hop.
    unfold is_u32 in Hpid. bool_hyps. unfold add64, u32_max, is_u32, in_range. rewrite !andb_true_iff. split_and!; try done; lia.
Qed.

(** Kill is idempotent.  A Kill that was executed and is sent again delivers no
    second signal and leaves the host unchanged: the stored result is sent,
    addressed to the new request. *)
Theorem kill_idempotent now deliver conn session rid k h h1 out h2 now2 deliver2 conn2 rid2 :
  op_id_ok (kill_operation_id k) → zlen session = 16 →
  decide_op (kill_operation_id k) OperationKind_Kill (kill_hash xxh3_128 session k) (ho_ops h) = Execute →
  kill xxh3_128 now deliver conn session rid k h = Some (h1, out) →
  remembers (kill_operation_id k) h1 h2 →
  ∃ delivered b b2,
    let frame r := mk_Frame session r FLAG_RESPONSE (Msg_KillResult (mk_KillResult (kill_operation_id k) delivered)) in
    Frame_encode (frame rid) = Some b ∧ HPush conn b ∈ out ∧ Frame_encode (frame rid2) = Some b2 ∧
    kill xxh3_128 now2 deliver2 conn2 session rid2 k h2 = Some (h2, [HPush conn2 b2]).
Proof.
  intros Hop Hse Hdec Hk (Rh & Rm & Re). unfold kill in Hk. cbv zeta in Hk. rewrite Hdec in Hk. cbn [reject] in Hk.
  destruct (match ho_sessions h !! session with Some _ => _ | None => _ end) as [signalled delivered].
  exists delivered. set (frame := λ r, mk_Frame session r FLAG_RESPONSE (Msg_KillResult (mk_KillResult (kill_operation_id k) delivered))).
  assert (∀ r, zlen (encode_payload (f_message (frame r))) <= MAX_PAYLOAD) as Hsize by (intros; by apply size_kill_result).
  destruct (encode_total _ (Hsize 0)) as [b0 Hb0], (encode_total _ (Hsize rid)) as [b Hb],
    (encode_total _ (Hsize rid2)) as [b2 Hb2].
  fold (frame 0) in Hk. rewrite Hb0 in Hk. unfold reply, push in Hk. fold (frame rid) in Hk.
  cbn [mbind option_bind] in Hk. rewrite Hb in Hk. cbn [mbind option_bind] in Hk. injection Hk as <- <-.
  exists b, b2. cbv zeta. split; [done|]. split; [apply elem_of_app; right; by apply list_elem_of_here|]. split; [done|].
  pose proof (decide_completed _ _ _ b0 None now _ (ho_ops h2) Hdec Rh Rm Re) as Hd2.
  unfold kill. cbv zeta. rewrite Hd2. cbn [reject].
  rewrite (stored_frame_encode (frame 0) b0 session rid2 Hse Hb0).
  change (readdress session rid2 (frame 0)) with (frame rid2). by rewrite Hb2.
Qed.
End runs.

(** ** Two connections between the lock sections *)

(** A Spawn that is executed within the limits starts a session. *)
Lemma spawn_execute_started xxh3_128 now id incarnation pid conn session rid s h :
  op_id_ok (spawn_operation_id s) → zlen id = 16 → zlen incarnation = 16 →
  args_len s <= MAX_SPAWN_ARGS → Z.of_nat (size (ho_sessions h)) < MAX_SESSIONS →
  ∃ h' out, spawn_execute xxh3_128 now (PtyStarted id incarnation pid) conn session rid s h = Some (h', out) ∧
    ho_sessions h' = <[id := mk_Entry pid incarnation (spawn_operation_id s) (add64 (ho_table_revision h) 1) None None]>
      (ho_sessions h).
Proof.
  intros Hop Hid Hinc Hargs Hsz. unfold spawn_execute.
  rewrite (proj2 (Z.ltb_ge _ _)), (proj2 (Z.leb_gt _ _)) by lia.
  unfold start_session. destruct (normalize_size _ _) as [cols rows]. cbv zeta.
  cbn [spr_operation_id spr_session_id spr_session_incarnation spr_pid spr_created_table_revision].
  assert (∀ c r rev, zlen (encode_payload (f_message (result_frame id r
    (mk_SpawnResult (spawn_operation_id s) id incarnation pid c rev)))) <= MAX_PAYLOAD) as Hsize
    by (intros; by apply size_spawn_result).
  destruct (encode_total _ (Hsize false 0 (add64 (ho_table_revision h) 1))) as [b Hb].
  destruct (push_total conn _ (Hsize true rid (add64 (ho_table_revision h) 1))) as [out Ho].
  unfold result_frame in Hb, Ho. rewrite Hb. cbn [mbind option_bind]. rewrite Ho. cbn. eauto.
Qed.

(** The decision of a Spawn and its completion are different lock sections of
    the operation table, and the session is started in between.  When two
    connections send one reserved operation and both decide before either
    completes, both execute it, and the host ends with two sessions created by
    that operation. *)
Theorem concurrent_spawn_runs_twice xxh3_128 now conn1 conn2 session rid1 rid2 s id1 id2 inc1 inc2 pid1 pid2 h :
  op_id_ok (spawn_operation_id s) → zlen id1 = 16 → zlen id2 = 16 → zlen inc1 = 16 → zlen inc2 = 16 → id1 ≠ id2 →
  args_len s <= MAX_SPAWN_ARGS → Z.of_nat (size (ho_sessions h)) + 1 < MAX_SESSIONS →
  spawn_decide xxh3_128 conn1 session rid1 s h = None → spawn_decide xxh3_128 conn2 session rid2 s h = None →
  ∃ h1 out1 h2 out2,
    spawn_execute xxh3_128 now (PtyStarted id1 inc1 pid1) conn1 session rid1 s h = Some (h1, out1) ∧
    spawn_execute xxh3_128 now (PtyStarted id2 inc2 pid2) conn2 session rid2 s h1 = Some (h2, out2) ∧
    en_creation_op <$> ho_sessions h2 !! id1 = Some (spawn_operation_id s) ∧
    en_creation_op <$> ho_sessions h2 !! id2 = Some (spawn_operation_id s).
Proof.
  intros Hop H1 H2 Hi1 Hi2 Hne Hargs Hsz _ _.
  destruct (spawn_execute_started xxh3_128 now id1 inc1 pid1 conn1 session rid1 s h Hop H1 Hi1 Hargs ltac:(lia))
    as (h1 & out1 & E1 & Hs1).
  pose proof (size_insert_le id1 (mk_Entry pid1 inc1 (spawn_operation_id s) (add64 (ho_table_revision h) 1) None None)
    (ho_sessions h)) as Hle. rewrite <- Hs1 in Hle.
  destruct (spawn_execute_started xxh3_128 now id2 inc2 pid2 conn2 session rid2 s h1 Hop H2 Hi2 Hargs ltac:(lia))
    as (h2 & out2 & E2 & Hs2).
  exists h1, out1, h2, out2. split; [done|]. split; [done|]. rewrite Hs2, Hs1.
  rewrite lookup_insert_ne, !lookup_insert_eq by done. done.
Qed.

(** ** Witnesses *)

(** A concrete hash in the place of [xxh3_128]. *)
Definition demo_hash (l : list byte) : Z := foldl (λ acc b, (acc * 31 + bz b) mod 2 ^ 128) 7 l.
Definition demo_instance : list byte := replicate 16 x01.
Definition demo_id (b : byte) : list byte := replicate 16 b.
Definition demo_spawn_op : OperationId := mk_OperationId demo_instance 1.
Definition demo_spawn : Spawn := mk_Spawn demo_spawn_op 80 24 (text "sh") [] [] [].
Definition demo_kill_op : OperationId := mk_OperationId demo_instance 2.
Definition demo_kill : Kill := mk_Kill demo_kill_op Signal_Terminate.
Definition demo_frame (sid : list byte) (rid : Z) (m : Message) : Frame := mk_Frame sid rid 0 m.
Definition no_os : PtyOutcome := PtyFailed [].
Definition demo_deliver (pid : Z) (s : Signal) : bool := true.

(** Two operations reserved, a session spawned, and snapshot space requested by
    it and by a session that does not exist. *)
Definition demo_calls : list HostCall :=
  [CallConnect;
   CallFrame 5 no_os demo_deliver 1 (demo_frame nil_uuid 1 (Msg_ReserveOperation (mk_ReserveOperation OperationKind_Spawn)));
   CallFrame 6 no_os demo_deliver 1 (demo_frame nil_uuid 2 (Msg_ReserveOperation (mk_ReserveOperation OperationKind_Kill)));
   CallFrame 7 (PtyStarted (demo_id x0a) (demo_id x0b) 77) demo_deliver 1 (demo_frame nil_uuid 3 (Msg_Spawn demo_spawn));
   CallAlloc (OpRequest (mk_RequestKey (demo_id x0a) 1 1));
   CallAlloc (OpRequest (mk_RequestKey (demo_id x0c) 1 1))].

Definition demo_host0 : Host := default (mk_Host [] 0 ∅ 0 (ops_new []) (mk_Allocator 0 0 [] ∅ 0) ∅) (host_new demo_instance).
Definition run_to (cs : list HostCall) : Host := default demo_host0 (fst <$> host_run demo_hash cs demo_host0).
Definition demo_reserved : Host := run_to (take 3 demo_calls).
Definition demo_spawned : Host := run_to demo_calls.

Lemma demo_calls_good : Forall good_call demo_calls.
Proof. repeat apply Forall_cons_2; try apply Forall_nil_2; cbn [good_call]; try done; split; vm_compute; done. Qed.


Lemma reservations_routed_witness :
  al_issued (ho_alloc demo_spawned) !! 3 = None ∧
  al_issued (ho_alloc (alloc_call (OpRequest (mk_RequestKey (demo_id x0a) 2 1)) demo_spawned).1) !! 3 =
    Some (mk_RequestKey (demo_id x0a) 2 1) ∧
  is_Some (ho_sessions demo_spawned !! demo_id x0a).
Proof.
  split; [vm_compute; reflexivity|]. split; [vm_compute; reflexivity|].
  refine (proj1 (reservations_routed demo_hash demo_instance demo_calls demo_host0 demo_spawned
    (default [] (snd <$> host_run demo_hash demo_calls demo_host0)) (OpRequest (mk_RequestKey (demo_id x0a) 2 1))
    _ demo_calls_good _ _ _ 3 (mk_RequestKey (demo_id x0a) 2 1) _)); vm_compute; reflexivity.
Defined.

Definition demo_after_spawn : Host :=
  default demo_host0 (fst <$> spawn demo_hash 7 (PtyStarted (demo_id x0a) (demo_id x0b) 77) 1 nil_uuid 3 demo_spawn demo_reserved).
Definition demo_spawn_out : list HostOut :=
  default [] (snd <$> spawn demo_hash 7 (PtyStarted (demo_id x0a) (demo_id x0b) 77) 1 nil_uuid 3 demo_spawn demo_reserved).

Lemma spawn_idempotent_witness :
  ∃ b2, Frame_encode (result_frame (demo_id x0a) 9
    (mk_SpawnResult demo_spawn_op (demo_id x0a) (demo_id x0b) 77 false 1)) = Some b2 ∧
  spawn demo_hash 8 (PtyStarted (demo_id x0c) (demo_id x0d) 78) 2 nil_uuid 9 demo_spawn demo_spawned =
    Some (demo_spawned, [HPush 2 b2]).
Proof.
  destruct (spawn_idempotent demo_hash 7 1 nil_uuid 3 demo_spawn (demo_id x0a) (demo_id x0b) 77 demo_reserved
    demo_after_spawn demo_spawn_out demo_spawned 8 (PtyStarted (demo_id x0c) (demo_id x0d) 78) 2 9)
    as (b & b2 & _ & _ & H1 & H2); try (vm_compute; reflexivity).
  - vm_compute. discriminate.
  - repeat split; vm_compute; first [reflexivity | discriminate].
  - exists b2. split; [exact H1|exact H2].
Defined.

Definition demo_after_kill : Host :=
  default demo_host0 (fst <$> kill demo_hash 9 demo_deliver 1 (demo_id x0a) 4 demo_kill demo_spawned).
Definition demo_kill_out : list HostOut :=
  default [] (snd <$> kill demo_hash 9 demo_deliver 1 (demo_id x0a) 4 demo_kill demo_spawned).

Lemma kill_idempotent_witness :
  HSignal 77 Signal_Terminate ∈ demo_kill_out ∧
  ∃ b2, kill demo_hash 10 demo_deliver 2 (demo_id x0a) 6 demo_kill demo_after_kill = Some (demo_after_kill, [HPush 2 b2]).
Proof.
  split; [by apply list_elem_of_here|].
  destruct (kill_idempotent demo_hash 9 demo_deliver 1 (demo_id x0a) 4 demo_kill demo_spawned demo_after_kill demo_kill_out
    demo_after_kill 10 demo_deliver 2 6) as (d & b & b2 & _ & _ & _ & H); try (vm_compute; reflexivity).
  - repeat split; vm_compute; first [reflexivity | discriminate].
  - exists b2. exact H.
Defined.

Lemma concurrent_spawn_runs_twice_witness :
  spawn_decide demo_hash 1 nil_uuid 3 demo_spawn demo_reserved = None ∧
  ∃ h1 out1 h2 out2,
    spawn_execute demo_hash 7 (PtyStarted (demo_id x0a) (demo_id x0b) 77) 1 nil_uuid 3 demo_spawn demo_reserved =
      Some (h1, out1) ∧
    spawn_execute demo_hash 7 (PtyStarted (demo_id x0c) (demo_id x0d) 78) 2 nil_uuid 4 demo_spawn h1 = Some (h2, out2) ∧
    en_creation_op <$> ho_sessions h2 !! demo_id x0a = Some demo_spawn_op ∧
    en_creation_op <$> ho_sessions h2 !! demo_id x0c = Some demo_spawn_op.
Proof.
  split; [vm_compute; reflexivity|].
  apply (concurrent_spawn_runs_twice demo_hash 7 1 2 nil_uuid 3 4 demo_spawn (demo_id x0a) (demo_id x0c) (demo_id x0b)
    (demo_id x0d) 77 78 demo_reserved); vm_compute; first [reflexivity | discriminate].
Defined.
