(* ===== verification/Pacing.v ===== *)
(** * Session pacing (crates/ferryx-host/src/session.rs)

    Two small state machines of a host session: [CompressTimer] decides when an
    idle compression step runs, with at most one timer task alive, and
    [ByteGate] bounds the terminal output a session has not processed yet.
    Instants and durations are [Z] nanoseconds. *)

From S2P Require Import Prelude.
From Stdlib Require Import ZArith Lia.
From stdpp Require Import base list option relations.

#[local] Open Scope Z_scope.

Module Compress.

Definition COMPRESS_IDLE_DELAY : Z := 2 * 1000000000.
Definition COMPRESS_STEP_INTERVAL : Z := 1 * 1000000.

(** crates/ferryx-vt/src/engine.rs *)
Inductive CompressStep : Type := Unsupported | Pending | Complete.

Record CompressTimer := mk_CompressTimer {
  in_flight : bool;
  last_output : option Z;
  stepping : bool;
  unsupported : bool;
}.

Inductive CompressFire : Type :=
| Step
| Wait (remaining : Z)
| Idle.

Definition timer_default : CompressTimer := mk_CompressTimer false None false false.

Definition start (delay : Z) (t : CompressTimer) : CompressTimer * option Z :=
  if unsupported t || in_flight t then (t, None)
  else (mk_CompressTimer true (last_output t) (stepping t) (unsupported t), Some delay).

Definition on_output (now : Z) (t : CompressTimer) : CompressTimer * option Z :=
  if unsupported t then (t, None)
  else start COMPRESS_IDLE_DELAY (mk_CompressTimer (in_flight t) (Some now) false (unsupported t)).

Definition fire (now : Z) (t : CompressTimer) : CompressTimer * CompressFire :=
  let t := mk_CompressTimer false (last_output t) (stepping t) (unsupported t) in
  match (if negb (unsupported t) then last_output t else None) with
  | None => (t, Idle)
  | Some last =>
      let due := last + COMPRESS_IDLE_DELAY in
      if negb (stepping t) && (now <? due) then
        let '(t, r) := start (due - now) t in
        (t, match r with Some d => Wait d | None => Idle end)
      else (t, Step)
  end.

Definition after_step (step : CompressStep) (t : CompressTimer) : CompressTimer * option Z :=
  match step with
  | Pending => start COMPRESS_STEP_INTERVAL (mk_CompressTimer (in_flight t) (last_output t) true (unsupported t))
  | Complete => (mk_CompressTimer (in_flight t) None false (unsupported t), None)
  | Unsupported => (mk_CompressTimer (in_flight t) (last_output t) (stepping t) true, None)
  end.

(** The session's handler of a fired timer: the timer to start next, and
    whether a compression step ran.  [compress_step] is the engine's answer. *)
Definition on_compress (now : Z) (compress_step : CompressStep) (t : CompressTimer)
    : CompressTimer * option Z * bool :=
  match fire now t with
  | (t, Step) => let '(t, next) := after_step compress_step t in (t, next, true)
  | (t, Wait remaining) => (t, Some remaining, false)
  | (t, Idle) => (t, None, false)
  end.

(** ** The session with its timer tasks *)

(** [tasks] are the instants at which the sleeping timer tasks wake up;
    [heard] is the instant of the latest output. *)
Record World := mk_World {
  timer : CompressTimer;
  tasks : list Z;
  clock : Z;
  heard : option Z;
}.

Inductive label : Type :=
| LOutput
| LFired (ran_step : bool).

Inductive step : label → World → World → Prop :=
| step_output now t next w :
    clock w <= now → on_output now (timer w) = (t, next) →
    step LOutput w (mk_World t (tasks w ++ option_list (Z.add now <$> next)) now (Some now))
| step_fired now due answer t next ran before after w :
    clock w <= now → tasks w = before ++ due :: after → due <= now →
    on_compress now answer (timer w) = (t, next, ran) →
    step (LFired ran) w (mk_World t (before ++ after ++ option_list (Z.add now <$> next)) now (heard w)).

Definition world0 : World := mk_World timer_default [] 0 None.
Definition any_step (w w' : World) : Prop := ∃ l, step l w w'.

Record inv (w : World) : Prop := {
  inv_tasks : length (tasks w) = if in_flight (timer w) then 1%nat else 0%nat;
  inv_alive : unsupported (timer w) = false → is_Some (last_output (timer w)) → in_flight (timer w) = true;
  inv_heard : unsupported (timer w) = false → is_Some (last_output (timer w)) → last_output (timer w) = heard w;
  inv_stepping : unsupported (timer w) = false → stepping (timer w) = true →
    ∃ last, heard w = Some last ∧ last + COMPRESS_IDLE_DELAY <= clock w;
}.

Lemma compress_inv0 : inv world0.
Proof. by split; cbn; [|intros _ [? ?]| |]. Qed.

Lemma compress_step_inv l w w' : inv w → step l w w' → inv w'.
Proof.
  intros [Ht Ha Hh Hs] Hst. destruct Hst as [now t next w Hc E|now due answer t next ran before after w Hc E Hd Eo].
  - unfold on_output, start in E. destruct (timer w) as [fl lo st un]. cbn in *.
    destruct un; [|destruct fl]; injection E as <- <-; split; cbn; rewrite ?app_nil_r, ?length_app; cbn; try done; lia.
  - rewrite E in Ht. rewrite length_app in Ht. cbn in Ht. unfold on_compress, fire, start in Eo.
    destruct (timer w) as [fl lo st un]. cbn in *.
    assert (length before = 0%nat ∧ length after = 0%nat ∧ fl = true) as (Hb & Haf & ->) by (destruct fl; lia).
    destruct un; cbn in Eo.
    { injection Eo as <- <- <-. split; cbn; try done. rewrite !length_app. cbn. lia. }
    destruct lo as [last|]; cbn in Eo.
    2: { injection Eo as <- <- <-. split; cbn; try (by intros _ [? ?]); [rewrite !length_app; cbn; lia|].
         intros _ ->. destruct (Hs eq_refl eq_refl) as (last & ? & ?). exists last. split; [done|lia]. }
    specialize (Hh eq_refl ltac:(eauto)).
    destruct (negb st && (now <? last + COMPRESS_IDLE_DELAY)) eqn:Ew.
    { injection Eo as <- <- <-. apply andb_true_iff in Ew as [Ew _]. apply negb_true_iff in Ew as ->.
      split; cbn; try done. rewrite !length_app. cbn. lia. }
    assert (last + COMPRESS_IDLE_DELAY <= now) as Hidle.
    { destruct st; [|cbn in Ew; lia]. destruct (Hs eq_refl eq_refl) as (last' & Hl & ?).
      rewrite <- Hh in Hl. injection Hl as <-. lia. }
    destruct answer; cbn in Eo; injection Eo as <- <- <-; split; cbn; try done;
      rewrite ?length_app; cbn; try lia; try by intros _ [? ?].
    intros _ _. exists last. split; [done|lia].
Qed.

Lemma compress_reachable_inv w : rtc any_step world0 w → inv w.
Proof. intros Hr. apply (rtc_keeps inv any_step world0); [|done|apply compress_inv0]. intros x y Hx [l Hl]. by eapply compress_step_inv. Qed.

(** Whatever output arrives and whenever timers fire, a session has at most
    one compression timer task; while output waits for a compression pass (and
    the platform supports one) a task is always alive, so the pass is never
    forgotten; and a compression step only ever runs when the latest output is at
    least [COMPRESS_IDLE_DELAY] old. *)
Theorem compress_timer_single w l w' :
  rtc any_step world0 w → step l w w' →
  (length (tasks w') <= 1)%nat ∧
  (unsupported (timer w') = false → is_Some (last_output (timer w')) → tasks w' ≠ []) ∧
  (l = LFired true → ∃ last, heard w = Some last ∧ last + COMPRESS_IDLE_DELAY <= clock w').
Proof.
  intros Hr Hst. pose proof (compress_reachable_inv w Hr) as Hi. pose proof (compress_step_inv l w w' Hi Hst) as Hi'.
  split; [|split].
  - rewrite (inv_tasks _ Hi'). destruct (in_flight _); lia.
  - intros Hu Hl. pose proof (inv_tasks _ Hi') as Ht. rewrite (inv_alive _ Hi' Hu Hl) in Ht. by destruct (tasks w').
  - intros ->. destruct Hi as [_ _ Hh Hs].
    inversion Hst as [|now due answer t next ran before after w0 Hc E Hd Eo]; subst. cbn.
    unfold on_compress, fire, start in Eo. destruct (timer w) as [fl lo st un]. cbn in *.
    destruct un; [done|]. destruct lo as [last|]; [|done]. cbn in Eo. exists last.
    specialize (Hh eq_refl ltac:(eauto)). split; [done|].
    destruct st; cbn in Eo.
    + destruct (Hs eq_refl eq_refl) as (last' & Hl & ?). rewrite <- Hh in Hl. injection Hl as <-. lia.
    + destruct (now <? last + COMPRESS_IDLE_DELAY) eqn:Ew; [done|lia].
Qed.

(** Output at instant 5, then the idle timer fires and a step runs. *)
Definition w_armed : World :=
  mk_World (mk_CompressTimer true (Some 5) false false) [5 + COMPRESS_IDLE_DELAY] 5 (Some 5).
Definition w_stepped : World :=
  mk_World (mk_CompressTimer true (Some 5) true false) [5 + COMPRESS_IDLE_DELAY + COMPRESS_STEP_INTERVAL]
    (5 + COMPRESS_IDLE_DELAY) (Some 5).

Lemma w_armed_step : step LOutput world0 w_armed.
Proof. apply (step_output 5 (mk_CompressTimer true (Some 5) false false) (Some COMPRESS_IDLE_DELAY) world0); done. Qed.

Lemma w_stepped_step : step (LFired true) w_armed w_stepped.
Proof.
  apply (step_fired (5 + COMPRESS_IDLE_DELAY) (5 + COMPRESS_IDLE_DELAY) Pending
    (mk_CompressTimer true (Some 5) true false) (Some COMPRESS_STEP_INTERVAL) true [] [] w_armed); done.
Qed.

Lemma compress_timer_single_witness :
  rtc any_step world0 w_armed ∧ step (LFired true) w_armed w_stepped ∧
  ∃ last, heard w_armed = Some last ∧ last + COMPRESS_IDLE_DELAY <= clock w_stepped.
Proof.
  assert (rtc any_step world0 w_armed) as Hr by (apply rtc_once; exists LOutput; apply w_armed_step).
  split; [exact Hr|]. split; [exact w_stepped_step|].
  destruct (compress_timer_single w_armed (LFired true) w_stepped Hr w_stepped_step) as (_ & _ & H). exact (H eq_refl).
Defined.

End Compress.

Module Gate.

Definition MAILBOX_LIMIT : Z := 8 * 1024 * 1024.
(** The reader thread's buffer. *)
Definition READ_BUFFER : Z := 64 * 1024.

Record ByteGate := mk_ByteGate {
  used : Z;
  closed : bool;
}.

Definition gate_default : ByteGate := mk_ByteGate 0 false.

(** The wait condition of [acquire]: the thread sleeps while it holds. *)
Definition must_wait (n : Z) (g : ByteGate) : bool :=
  (0 <? used g) && (MAILBOX_LIMIT <? add64 (used g) n) && negb (closed g).
(** [None] while the caller waits on the condition variable. *)
Definition acquire (n : Z) (g : ByteGate) : option ByteGate :=
  if must_wait n g then None else Some (mk_ByteGate (add64 (used g) n) (closed g)).
Definition release (n : Z) (g : ByteGate) : ByteGate := mk_ByteGate (sat_sub (used g) n) (closed g).
Definition close (g : ByteGate) : ByteGate := mk_ByteGate (used g) true.

(** The reader thread acquires for each chunk it sends to the session's mailbox,
    and the session releases each chunk it takes from it. *)
Record Mailbox := mk_Mailbox {
  gate : ByteGate;
  chunks : list Z;
}.

Inductive step : Mailbox → Mailbox → Prop :=
| step_read n g m :
    0 < n <= READ_BUFFER → acquire n (gate m) = Some g → step m (mk_Mailbox g (chunks m ++ [n]))
| step_take n rest m :
    chunks m = n :: rest → step m (mk_Mailbox (release n (gate m)) rest).

Definition total (l : list Z) : Z := foldr Z.add 0 l.
Definition mailbox0 : Mailbox := mk_Mailbox gate_default [].

Record inv (m : Mailbox) : Prop := {
  inv_used : used (gate m) = total (chunks m);
  inv_sizes : Forall (λ n, 0 < n <= READ_BUFFER) (chunks m);
  inv_limit : used (gate m) <= MAILBOX_LIMIT;
  inv_open : closed (gate m) = false;
}.

Lemma gate_total_app l k : total (l ++ k) = total l + total k.
Proof. unfold total. induction l; cbn; lia. Qed.

Lemma total_nonneg l : Forall (λ n, 0 < n <= READ_BUFFER) l → 0 <= total l.
Proof. unfold total. induction 1; cbn; lia. Qed.

Lemma gate_step_inv m m' : inv m → step m m' → inv m'.
Proof.
  intros [Hu Hs Hl Ho] Hst. destruct Hst as [n g m Hn Ha|n rest m Hc]; pose proof (total_nonneg _ Hs).
  - unfold acquire, must_wait in Ha. rewrite Ho in Ha. unfold MAILBOX_LIMIT, READ_BUFFER in *.
    rewrite add64_id in Ha by (unfold u64_max; lia).
    destruct (_ && _) eqn:E; [done|]. injection Ha as <-.
    split; cbn; [rewrite gate_total_app; cbn; lia|apply Forall_app_2; [done|by apply Forall_singleton]| |done].
    cbn [negb] in E. rewrite andb_true_r in E. unfold MAILBOX_LIMIT. apply andb_false_iff in E. lia.
  - rewrite Hc in *. inversion Hs as [|? ? Hn Hr]; subst. cbn in *.
    pose proof (total_nonneg _ Hr). unfold total in *. cbn in *.
    split; cbn; unfold sat_sub; try done; lia.
Qed.

(** In every reachable state of a session's mailbox the gate counts exactly
    the bytes of the unprocessed output chunks, those are at most
    [MAILBOX_LIMIT], and the reader is never blocked while the mailbox is empty
    (so reader and session cannot deadlock). *)
Theorem mailbox_bounded m :
  rtc step mailbox0 m →
  used (gate m) = total (chunks m) ∧ total (chunks m) <= MAILBOX_LIMIT ∧
  ∀ n, 0 < n <= READ_BUFFER → chunks m = [] → is_Some (acquire n (gate m)).
Proof.
  intros Hr. assert (inv m) as [Hu Hs Hl Ho] by (apply (rtc_keeps inv step mailbox0); [apply gate_step_inv|done|done]).
  split_and!; [done|lia|]. intros n Hn Hc. unfold acquire, must_wait. rewrite Hu, Hc. cbn. eauto.
Qed.

Lemma mailbox_bounded_witness :
  rtc step mailbox0 (mk_Mailbox (mk_ByteGate 300 false) [100; 200]) ∧
  total [100; 200] <= MAILBOX_LIMIT.
Proof.
  assert (rtc step mailbox0 (mk_Mailbox (mk_ByteGate 300 false) [100; 200])) as Hr.
  { apply rtc_l with (mk_Mailbox (mk_ByteGate 100 false) [100]);
      [apply (step_read 100 (mk_ByteGate 100 false) mailbox0); done|].
    apply rtc_once, (step_read 200 (mk_ByteGate 300 false) (mk_Mailbox (mk_ByteGate 100 false) [100])); done. }
  split; [exact Hr|]. destruct (mailbox_bounded _ Hr) as (_ & H & _). exact H.
Defined.

End Gate.
