(* ===== verification/Session.v ===== *)
(** * Session actor (crates/ferryx-host/src/session.rs)

    One session: a terminal with its revision, the input ledger, the resize lease
    and the subscriptions, driven by the events of its channel.  [on_event] is the
    body of the actor's loop.  An action maps the state to the next one and to
    what it asks of its surroundings, in order: frames for the connections'
    outboxes, bytes for the writer thread, requests to the host, timers.  What
    the surroundings answer within one event is in [Env]: clocks, the outboxes'
    queued bytes, whether the writer thread is there, the terminal library.

    A frame in [OFrame] or [OSnap] stands for its encoding ([out_bytes]).  [None] is a panic. *)

From S2P Require Import Prelude Wire Types Messages Frame Budget Replica Utf8 Vt Terminal Subscription Resize Input Conn Pacing.
From Stdlib Require Import ZArith Lia Strings.Byte Strings.String.
From stdpp Require Import base gmap list option sorting.

#[local] Open Scope Z_scope.

Definition SNAPSHOT_CHUNK : Z := 1024 * 1024.
Definition MAX_SUBSCRIBERS : Z := 64.
Definition FLUSH_BACKLOG : Z := 1024 * 1024.

(** The [Event] channel. *)
Inductive Event : Type :=
| EvRequest (conn request_id : Z) (message : Message)
| EvConnClosed (conn_id : Z)
| EvPtyOutput (bytes : list byte)
| EvPtyEof
| EvWritten (n : Z)
| EvWriteFailed
| EvChildExited (info : ExitInfo)
| EvDrainDone
| EvBudgetAvailable (subscription_id request_seq reservation_id : Z)
| EvFrameWritten (subscription_id reservation_id snapshot_id : Z) (last : bool)
| EvReleased (subscription_id reservation_id snapshot_id : Z)
| EvDeadline (subscription_id reservation_id snapshot_id : Z)
| EvFlush
| EvCompress.

(** A subscription of the session; [sub_deadline] is the event its deadline
    task would send. *)
Record Sub := mk_Sub {
  sub_s : Subscription;
  sub_conn : Z;
  sub_deadline : option (Z * Z * Z);
  sub_last_sent_event : Z;
  sub_snapshots_built : Z;
}.

(** Connections are their ids; [host], [tx], [gate], [master] and [writer_tx]
    are the outputs below. *)
Record Session := mk_Session {
  se_id : list byte;
  se_incarnation : list byte;
  se_creation_op : OperationId;
  se_term : HostTerminal;
  se_revision : Z;
  se_ledger : InputLedger;
  se_resize : ResizeLease;
  se_subs : gmap Z Sub;
  se_next_sub_id : Z;
  se_holders : gmap (list byte) Z;
  se_write_inflight : bool;
  se_exit : option ExitInfo;
  se_pending_exit : option ExitInfo;
  se_flush_scheduled : bool;
  se_compress : Compress.CompressTimer;
}.

Inductive SessOut : Type :=
| OFrame (conn : Z) (f : Frame)
| OSnap (conn subscription_id reservation_id snapshot_id : Z) (f : Frame) (last : bool)
| ODropPending (conn subscription_id snapshot_id : Z)
| OCloseOutbox (conn : Z)
| OWrite (bytes : list byte)
| OPtyResize (cols rows : Z)
| OGateRelease (n : Z)
| ORequest (key : RequestKey)
| OCancel (key : RequestKey)
| OReturn (reservation_id : Z)
| OMarkExited (info : ExitInfo)
| OFlushTimer
| ODrainTimer
| OCompressTimer (delay : Z)
| ODeadlineTimer (task : Z * Z * Z) (wait_ms : Z)
| OAbort (task : Z * Z * Z).

(** What [push_frame] and [push_snap] are given. *)
Definition out_bytes (o : SessOut) : option (list byte) :=
  match o with OFrame _ f | OSnap _ _ _ _ f _ => Frame_encode f | _ => Some [] end.

(** [env_queued] answers [queued_bytes] per subscription, [env_vt] is the
    library after a [feed] or [resize] with its callbacks and tracked row. *)
Record Env := mk_Env {
  env_now_ms : Z;
  env_instant : Z;
  env_queued : Z → Z;
  env_writer : bool;
  env_table_revision : Z;
  env_connections : list Z;
  env_vt : Vt * list Callback * option Z;
  env_compress : Compress.CompressStep;
}.

(** ** Field updates *)

Definition with_term (v : HostTerminal) (s : Session) : Session :=
  mk_Session (se_id s) (se_incarnation s) (se_creation_op s) v (se_revision s) (se_ledger s) (se_resize s) (se_subs s)
    (se_next_sub_id s) (se_holders s) (se_write_inflight s) (se_exit s) (se_pending_exit s) (se_flush_scheduled s)
    (se_compress s).
Definition with_revision (v : Z) (s : Session) : Session :=
  mk_Session (se_id s) (se_incarnation s) (se_creation_op s) (se_term s) v (se_ledger s) (se_resize s) (se_subs s)
    (se_next_sub_id s) (se_holders s) (se_write_inflight s) (se_exit s) (se_pending_exit s) (se_flush_scheduled s)
    (se_compress s).
Definition with_ledger (v : InputLedger) (s : Session) : Session :=
  mk_Session (se_id s) (se_incarnation s) (se_creation_op s) (se_term s) (se_revision s) v (se_resize s) (se_subs s)
    (se_next_sub_id s) (se_holders s) (se_write_inflight s) (se_exit s) (se_pending_exit s) (se_flush_scheduled s)
    (se_compress s).
Definition with_resize (v : ResizeLease) (s : Session) : Session :=
  mk_Session (se_id s) (se_incarnation s) (se_creation_op s) (se_term s) (se_revision s) (se_ledger s) v (se_subs s)
    (se_next_sub_id s) (se_holders s) (se_write_inflight s) (se_exit s) (se_pending_exit s) (se_flush_scheduled s)
    (se_compress s).
Definition with_subs (v : gmap Z Sub) (s : Session) : Session :=
  mk_Session (se_id s) (se_incarnation s) (se_creation_op s) (se_term s) (se_revision s) (se_ledger s) (se_resize s) v
    (se_next_sub_id s) (se_holders s) (se_write_inflight s) (se_exit s) (se_pending_exit s) (se_flush_scheduled s)
    (se_compress s).
Definition with_next_sub_id (v : Z) (s : Session) : Session :=
  mk_Session (se_id s) (se_incarnation s) (se_creation_op s) (se_term s) (se_revision s) (se_ledger s) (se_resize s)
    (se_subs s) v (se_holders s) (se_write_inflight s) (se_exit s) (se_pending_exit s) (se_flush_scheduled s)
    (se_compress s).
Definition with_holders (v : gmap (list byte) Z) (s : Session) : Session :=
  mk_Session (se_id s) (se_incarnation s) (se_creation_op s) (se_term s) (se_revision s) (se_ledger s) (se_resize s)
    (se_subs s) (se_next_sub_id s) v (se_write_inflight s) (se_exit s) (se_pending_exit s) (se_flush_scheduled s)
    (se_compress s).
Definition with_write_inflight (v : bool) (s : Session) : Session :=
  mk_Session (se_id s) (se_incarnation s) (se_creation_op s) (se_term s) (se_revision s) (se_ledger s) (se_resize s)
    (se_subs s) (se_next_sub_id s) (se_holders s) v (se_exit s) (se_pending_exit s) (se_flush_scheduled s)
    (se_compress s).
Definition with_exit (v : option ExitInfo) (s : Session) : Session :=
  mk_Session (se_id s) (se_incarnation s) (se_creation_op s) (se_term s) (se_revision s) (se_ledger s) (se_resize s)
    (se_subs s) (se_next_sub_id s) (se_holders s) (se_write_inflight s) v (se_pending_exit s) (se_flush_scheduled s)
    (se_compress s).
Definition with_pending_exit (v : option ExitInfo) (s : Session) : Session :=
  mk_Session (se_id s) (se_incarnation s) (se_creation_op s) (se_term s) (se_revision s) (se_ledger s) (se_resize s)
    (se_subs s) (se_next_sub_id s) (se_holders s) (se_write_inflight s) (se_exit s) v (se_flush_scheduled s)
    (se_compress s).
Definition with_flush_scheduled (v : bool) (s : Session) : Session :=
  mk_Session (se_id s) (se_incarnation s) (se_creation_op s) (se_term s) (se_revision s) (se_ledger s) (se_resize s)
    (se_subs s) (se_next_sub_id s) (se_holders s) (se_write_inflight s) (se_exit s) (se_pending_exit s) v
    (se_compress s).
Definition with_compress (v : Compress.CompressTimer) (s : Session) : Session :=
  mk_Session (se_id s) (se_incarnation s) (se_creation_op s) (se_term s) (se_revision s) (se_ledger s) (se_resize s)
    (se_subs s) (se_next_sub_id s) (se_holders s) (se_write_inflight s) (se_exit s) (se_pending_exit s)
    (se_flush_scheduled s) v.

Definition set_sub_s (v : Subscription) (x : Sub) : Sub :=
  mk_Sub v (sub_conn x) (sub_deadline x) (sub_last_sent_event x) (sub_snapshots_built x).
Definition set_sub_deadline (v : option (Z * Z * Z)) (x : Sub) : Sub :=
  mk_Sub (sub_s x) (sub_conn x) v (sub_last_sent_event x) (sub_snapshots_built x).
Definition set_sub_events (last built : Z) (x : Sub) : Sub :=
  mk_Sub (sub_s x) (sub_conn x) (sub_deadline x) last built.

(** ** Actions *)

Definition Act : Type := Session → Session * list SessOut.
Definition skip : Act := λ s, (s, []).
Definition emit (o : SessOut) : Act := λ s, (s, [o]).
Definition update (f : Session → Session) : Act := λ s, (f s, []).
Definition andthen (a b : Act) : Act := λ s, let '(s1, o1) := a s in let '(s2, o2) := b s1 in (s2, o1 ++ o2).
Declare Scope act_scope.
Delimit Scope act_scope with act.
Notation "a ;; b" := (andthen a b) (at level 100, b at level 200, right associativity) : act_scope.
#[local] Open Scope act_scope.
Definition for_each {A} (l : list A) (f : A → Act) : Act := foldr (λ x k, f x ;; k) skip l.

Definition empty_delta : Delta := mk_Delta 0 0 0 None None None None None [] [] [] None None [].

(** ** Frames *)

Definition frame (s : Session) (request_id flags : Z) (m : Message) : Frame := mk_Frame (se_id s) request_id flags m.
Definition reply (conn request_id : Z) (m : Message) : Act :=
  λ s, emit (OFrame conn (frame s request_id FLAG_RESPONSE m)) s.
Definition reply_err (conn request_id : Z) (d : ErrorDetail) (t : string) : Act :=
  λ s, emit (OFrame conn (frame s request_id (Z.lor FLAG_RESPONSE FLAG_ERROR) (Msg_Error (to_frame d (text t))))) s.
Definition event_to (conn : Z) (m : Message) : Act := λ s, emit (OFrame conn (frame s 0 FLAG_EVENT m)) s.
Definition send_holder (holder : list byte) (m : Message) : Act := λ s,
  match se_holders s !! holder with Some conn => event_to conn m s | None => skip s end.

(** ** Snapshots *)

(** [slice::chunks]; the length is fuel enough. *)
Fixpoint chunks_of (fuel : nat) (n : nat) (l : list byte) : list (list byte) :=
  match fuel, l with
  | S fuel', _ :: _ => take n l :: chunks_of fuel' n (drop n l)
  | _, _ => []
  end.
Definition chunks (n : Z) (l : list byte) : list (list byte) := chunks_of (length l) (Z.to_nat n) l.

Definition snapshot_payloads (body : Body) : list SnapshotPayload :=
  let bytes := enc c_Body body in
  if zlen bytes <=? SNAPSHOT_CHUNK then [Full body]
  else
    let total := (zlen bytes + SNAPSHOT_CHUNK - 1) / SNAPSHOT_CHUNK mod 2 ^ 32 in
    imap (λ i c, Chunk (Z.of_nat i mod 2 ^ 32) total (zlen bytes mod 2 ^ 32) c) (chunks SNAPSHOT_CHUNK bytes).

Section session.
Context (xxh3_64 xxh3_128 crc32c : list byte → Z) (env : Env).

Definition build_snapshot (sub_id snapshot_id reservation_id : Z) : Act := λ s,
  let state := to_body (ht_replica (se_term s)) in
  let digest := state_digest xxh3_128 state in
  let next := ht_next_event_id (se_term s) in
  match se_subs s !! sub_id with
  | None => skip s
  | Some sub =>
      let gap := (0 <? sub_snapshots_built sub) && (sub_last_sent_event sub <? sat_sub next 1) in
      let sub' := set_sub_events (sat_sub next 1) (add64 (sub_snapshots_built sub) 1) sub in
      let body := mk_Body (se_revision s) digest next gap state in
      let payloads := snapshot_payloads body in
      let n := length payloads in
      (update (with_subs (<[sub_id := sub']> (se_subs s))) ;;
       for_each (imap pair payloads) (λ '(i, payload),
         emit (OSnap (sub_conn sub) sub_id reservation_id snapshot_id
           (mk_Frame (se_id s) 0 FLAG_EVENT
              (Msg_SnapshotFrame (mk_SnapshotFrame sub_id (se_incarnation s) snapshot_id payload)))
           (S i =? n)%nat))) s
  end.

(** ** Effects of a subscription *)

Definition key_of (s : Session) (subscription_id request_seq : Z) : RequestKey :=
  mk_RequestKey (se_id s) subscription_id request_seq.

(** [d.ui_events.iter().map(|e| e.event_id).max()] *)
Definition max_event (d : Delta) : option Z :=
  foldl (λ m e, Some (match m with Some x => Z.max x (ui_event_id e) | None => ui_event_id e end)) None (delta_ui_events d).

Definition apply_effect (sub_id : Z) (reply_to : option Z) (e : Effect) : Act := λ s,
  match e with
  | SendAck ack =>
      match se_subs s !! sub_id with
      | Some sub => reply (sub_conn sub) (default 0 reply_to) (Msg_SubscribeAck ack) s
      | None => skip s
      end
  | SendDelta d =>
      match se_subs s !! sub_id with
      | Some sub =>
          let last := match max_event d with
                      | Some m => Z.max (sub_last_sent_event sub) m
                      | None => sub_last_sent_event sub end in
          (update (with_subs (<[sub_id := set_sub_events last (sub_snapshots_built sub) sub]> (se_subs s))) ;;
           event_to (sub_conn sub) (Msg_Delta d)) s
      | None => skip s
      end
  | RequestReservation sid seq => emit (ORequest (key_of s sid seq)) s
  | CancelRequest sid seq => emit (OCancel (key_of s sid seq)) s
  | ReturnReservation rid => emit (OReturn rid) s
  | BuildSnapshot sid snap rid => build_snapshot sid snap rid s
  | DropPending sid snap =>
      match se_subs s !! sub_id with
      | Some sub => emit (ODropPending (sub_conn sub) sid snap) s
      | None => skip s
      end
  | ArmDeadline sid rid snap at_ms =>
      let wait := sat_sub at_ms (env_now_ms env) in
      (emit (ODeadlineTimer (sid, rid, snap) wait) ;;
       match se_subs s !! sub_id with
       | Some sub =>
           update (with_subs (<[sub_id := set_sub_deadline (Some (sid, rid, snap)) sub]> (se_subs s))) ;;
           match sub_deadline sub with Some old => emit (OAbort old) | None => skip end
       | None => skip
       end) s
  | CancelDeadline _ =>
      match se_subs s !! sub_id with
      | Some sub =>
          (update (with_subs (<[sub_id := set_sub_deadline None sub]> (se_subs s))) ;;
           match sub_deadline sub with Some h => emit (OAbort h) | None => skip end) s
      | None => skip s
      end
  | CloseSlowConsumer sid =>
      match se_subs s !! sub_id with
      | Some sub =>
          emit (OFrame (sub_conn sub) (frame s 0 (Z.lor FLAG_EVENT FLAG_ERROR)
            (Msg_Error (to_frame (SlowConsumer sid) (text "subscription closed: slow consumer"))))) s
      | None => skip s
      end
  end.

Definition reap (sub_id : Z) : Act := λ s,
  match se_subs s !! sub_id with
  | Some sub =>
      if Subscription.is_closed (sub_s sub) && bool_decide (su_unreturned (sub_s sub) = [])
      then (update (with_subs (delete sub_id (se_subs s))) ;;
            match sub_deadline sub with Some h => emit (OAbort h) | None => skip end) s
      else skip s
  | None => skip s
  end.

Definition apply (sub_id : Z) (fx : list Effect) (reply_to : option Z) : Act :=
  for_each fx (apply_effect sub_id reply_to) ;; reap sub_id.

(** [let mut fx = ..; if let Some(sub) = self.subs.get_mut(&id) { .. } self.apply(id, fx, ..)] *)
Definition on_sub (id : Z) (f : Subscription → Subscription * list Effect) (reply_to : option Z) : Act := λ s,
  match se_subs s !! id with
  | Some sub =>
      let '(s', fx) := f (sub_s sub) in
      apply id fx reply_to (with_subs (<[id := set_sub_s s' sub]> (se_subs s)) s)
  | None => apply id [] reply_to s
  end.

(** ** Output of the terminal *)

Definition pump_write : Act := λ s,
  if se_write_inflight s then skip s else
  match head_bytes (se_ledger s) with
  | Some h => if env_writer env then (emit (OWrite h) ;; update (with_write_inflight true)) s else skip s
  | None => skip s
  end.

Definition schedule_flush : Act := λ s,
  if se_flush_scheduled s then skip s else (update (with_flush_scheduled true) ;; emit OFlushTimer) s.

Definition sub_ids (s : Session) : list Z := bt_keys (se_subs s).

Definition push_delta (delta : Delta) : Act :=
  (λ s, for_each (sub_ids s) (λ id, on_sub id (Subscription.push_delta delta) None) s) ;; schedule_flush.

Definition set_revisions (base new : Z) (d : Delta) : Delta :=
  mk_Delta (delta_subscription_id d) base new (delta_size d) (delta_cursor d)
    (delta_modes d) (delta_palette d) (delta_title d) (delta_dirty_rows d) (delta_hyperlinks_added d)
    (delta_scrollback_appended d) (delta_scrollback_evicted_before d) (delta_exit_info d) (delta_ui_events d).

Definition publish (adv : Advance) : Act :=
  for_each (ad_vt_replies adv) (λ r, update (λ s, with_ledger (push_vt_reply r (se_ledger s)).1 s)) ;;
  pump_write ;;
  λ s,
  if ad_rewritten adv then
    let s := with_revision (add64 (se_revision s) 1) s in
    for_each (sub_ids s) (λ id, on_sub id Subscription.resync None) s
  else match ad_delta adv with
  | None => skip s
  | Some delta =>
      let changed := state_changed delta in
      if negb changed && bool_decide (delta_ui_events delta = []) then skip s else
      let base := se_revision s in
      let s := if changed then with_revision (add64 (se_revision s) 1) s else s in
      push_delta (set_revisions base (se_revision s) delta) s
  end.

(** The loop of [flush_deltas] with its [backlog] flag. *)
Fixpoint flush_loop (ids : list Z) (backlog : bool) (s : Session) : Session * list SessOut * bool :=
  match ids with
  | [] => (s, [], backlog)
  | id :: ids' =>
      let '(s1, o1, backlog) :=
        match se_subs s !! id with
        | Some sub =>
            if env_queued env id <? FLUSH_BACKLOG
            then (on_sub id Subscription.drain_to_wire None s, backlog)
            else (apply id [] None s, backlog || bool_decide (su_queue (sub_s sub) ≠ []))
        | None => (apply id [] None s, backlog)
        end in
      let '(s2, o2, backlog) := flush_loop ids' backlog s1 in (s2, o1 ++ o2, backlog)
  end.
Definition flush_deltas : Act := λ s,
  let '(s1, o1, backlog) := flush_loop (sub_ids s) false s in
  let '(s2, o2) := (if backlog : bool then schedule_flush else skip) s1 in (s2, o1 ++ o2).

Definition finish_child (info : option ExitInfo) : Act := λ s,
  match se_exit s with
  | Some _ => skip s
  | None =>
      match (match info with Some i => Some i | None => se_pending_exit s end) with
      | None => skip s
      | Some info =>
          let s := with_exit (Some info) s in
          let s := with_term (set_exit info (se_term s)) s in
          let s := with_ledger (on_dead (se_ledger s)) s in
          let s := with_revision (add64 (se_revision s) 1) s in
          let delta := mk_Delta 0 (sub64 (se_revision s) 1) (se_revision s) None None None None None [] [] [] None
                         (Some info) [] in
          (push_delta delta ;; emit (OMarkExited info) ;; λ s,
           let msg := Msg_ChildExited (mk_ChildExited (se_incarnation s) (exit_info_exit_code info) (exit_info_posix_signal info)
                        (env_table_revision env) (take 128 (pending_dropped_by_epoch (se_ledger s)))) in
           for_each (env_connections env) (λ conn, event_to conn msg) s) s
      end
  end.

Definition start_compress_timer (delay : option Z) : Act :=
  match delay with Some d => emit (OCompressTimer d) | None => skip end.

(** [self.compress.on_output(Instant::now())] and its timer. *)
Definition compress_on_output : Act := λ s,
  let '(t, next) := Compress.on_output (env_instant env) (se_compress s) in
  (update (with_compress t) ;; start_compress_timer next) s.

Definition on_conn_closed (conn_id : Z) : Act := λ s,
  let s := with_holders (filter (λ p, p.2 ≠ conn_id) (se_holders s)) s in
  let ids := (filter (λ p, sub_conn p.2 = conn_id) (bt_iter (se_subs s))).*1 in
  for_each ids (λ id, on_sub id Subscription.close None) s.

(** ** Requests *)

Definition register_holder (who : list byte) (conn : Z) (s : Session) : Session :=
  with_holders (<[who := conn]> (se_holders s)) s.

Definition lease_fresh (scope : Scope) (who : list byte) (request_id : Z) (s : Session) : Session * bool :=
  match scope with
  | Scope_Input => let '(l, ok) := ledger_fresh who request_id (se_ledger s) in (with_ledger l s, ok)
  | Scope_Resize => let '(l, ok) := resize_fresh who request_id (se_resize s) in (with_resize l s, ok)
  end.

Definition wire_applied (a : Applied) : ResizeApplied := mk_ResizeApplied (ap_epoch a) (ap_seq a) (ap_cols a) (ap_rows a).

Definition acquire (conn rid : Z) (a : AcquireLease) : Act := λ s,
  let who := acq_client_instance_id a in
  let s := register_holder who conn s in
  let '(s, ok) := lease_fresh (acq_scope a) who (acq_lease_request_id a) s in
  if negb ok then skip s else
  match acq_scope a with
  | Scope_Input =>
      let '(l, r) := Input.acquire who (se_ledger s) in
      let s := with_ledger l s in
      match r with
      | Ok g =>
          let prior := (λ '(e, fa, c), mk_PriorEpoch e fa c) <$> gr_prior g in
          (reply conn rid (Msg_LeaseGranted
             (mk_LeaseGranted who (acq_lease_request_id a) Scope_Input (gr_epoch g) prior None)) ;;
           match gr_revoked g with
           | Some r => send_holder (rv_holder r)
               (Msg_LeaseRevoked (mk_LeaseRevoked (rv_holder r) Scope_Input (rv_revoked_epoch r) (rv_new_epoch r)))
           | None => skip
           end) s
      | Err _ => reply_err conn rid (LimitExceeded 8 MAX_UNWRITTEN_EPOCHS) "too many epochs with unwritten input" s
      end
  | Scope_Resize =>
      let '(l, (epoch, applied, revoked)) := resize_acquire who (se_resize s) in
      let s := with_resize l s in
      (reply conn rid (Msg_LeaseGranted
         (mk_LeaseGranted who (acq_lease_request_id a) Scope_Resize epoch None (Some (wire_applied applied)))) ;;
       match revoked with
       | Some (holder, prev_epoch) =>
           send_holder holder (Msg_LeaseRevoked (mk_LeaseRevoked holder Scope_Resize prev_epoch epoch))
       | None => skip
       end) s
  end.

Definition release (conn rid : Z) (r : ReleaseLease) : Act := λ s,
  let who := rel_client_instance_id r in
  let s := register_holder who conn s in
  let '(s, ok) := lease_fresh (rel_scope r) who (rel_lease_request_id r) s in
  if negb ok then skip s else
  let '(s, epoch, released, revokees) :=
    match rel_scope r with
    | Scope_Input =>
        let epoch := if rel_epoch r =? 0 then il_current (se_ledger s) else rel_epoch r in
        let '(l, (ok, rv)) := Input.release who (rel_epoch r) (se_ledger s) in (with_ledger l s, epoch, ok, rv)
    | Scope_Resize =>
        let epoch := if rel_epoch r =? 0 then (current (se_resize s)).1 else rel_epoch r in
        let '(l, (ok, rv)) := resize_release who (rel_epoch r) (se_resize s) in (with_resize l s, epoch, ok, rv)
    end in
  (reply conn rid (Msg_LeaseReleased (mk_LeaseReleased who (rel_lease_request_id r) (rel_scope r) epoch released)) ;;
   if released : bool
   then for_each revokees (λ h, send_holder h (Msg_LeaseVacated (mk_LeaseVacated h (rel_scope r) epoch)))
   else skip) s.

Definition reclaim (conn rid : Z) (r : Reclaim) : Act := λ s,
  let who := rcl_client_instance_id r in
  let s := register_holder who conn s in
  let '(s, ok) := lease_fresh (rcl_scope r) who (rcl_lease_request_id r) s in
  if negb ok then skip s else
  let result ok current input final resize :=
    Msg_ReclaimResult (mk_ReclaimResult who (rcl_lease_request_id r) (rcl_scope r) (rcl_epoch r) ok current
      input final resize) in
  match rcl_scope r with
  | Scope_Input =>
      let '(l, res) := Input.reclaim who (rcl_epoch r) (se_ledger s) in
      let s := with_ledger l s in
      match res with
      | Err _ => reply_err conn rid (EpochUnknown (rcl_epoch r)) "epoch unknown" s
      | Ok (Ok (accepted, committed)) =>
          reply conn rid (result true (rcl_epoch r) (Some (mk_InputProgress accepted committed)) None None) s
      | Ok (Err (cur, final_accepted, committed, pending_dropped)) =>
          reply conn rid
            (result false cur None (Some (mk_InputFinal final_accepted committed pending_dropped)) None) s
      end
  | Scope_Resize =>
      let '(l, (ok, cur, applied)) := resize_reclaim who (rcl_epoch r) (se_resize s) in
      let s := with_resize l s in
      reply conn rid (result ok cur None None (Some (wire_applied applied))) s
  end.

Definition write_error (e : WriteError) : ErrorDetail * string :=
  match e with
  | WStaleLease cur fa => (StaleLease Scope_Input cur fa, "stale input lease"%string)
  | WTooLarge => (LimitExceeded 7 MAX_CHUNK, "input chunk too large"%string)
  | WCorruptFrame => (CorruptFrame, "input checksum mismatch"%string)
  | WOffsetOverflow => (LimitExceeded 6 u64_max, "input offset overflow"%string)
  | WGap accepted => (InputGap accepted, "input gap"%string)
  | WDiverged epoch accepted committed => (InputDiverged epoch accepted committed, "retransmitted input differs"%string)
  | WUnverifiable epoch accepted committed start =>
      (InputUnverifiable epoch accepted committed start, "retransmitted input cannot be verified"%string)
  | WBackpressure accepted => (InputBackpressure accepted, "input queue full"%string)
  end.

Definition write_input (conn rid : Z) (w : WriteInput) (s : Session) : option (Session * list SessOut) :=
  let who := wi_client_instance_id w in
  let s := register_holder who conn s in
  '(l, res) ← write crc32c who (wi_epoch w) (wi_start w) (Messages.wi_bytes w) (wi_crc32c w) (se_ledger s);
  let s := with_ledger l s in
  Some (match res with
  | Ok ack =>
      (reply conn rid (Msg_InputAck (mk_InputAck who (ack_epoch ack) (ack_accepted ack) (ack_committed ack))) ;;
       pump_write) s
  | Err (err, revoke) =>
      let '(detail, t) := write_error err in
      (reply_err conn rid detail t ;;
       match revoke with
       | Some (rv, revokees) =>
           send_holder (rv_holder rv)
             (Msg_LeaseRevoked (mk_LeaseRevoked (rv_holder rv) Scope_Input (rv_revoked_epoch rv) (rv_new_epoch rv))) ;;
           for_each revokees (λ h, send_holder h (Msg_LeaseVacated (mk_LeaseVacated h Scope_Input (rv_revoked_epoch rv))))
       | None => skip
       end) s
  end).

(** [feed] and [resize] of the terminal, then [publish] and the compression timer. *)
Definition feed_terminal (s : Session) : option (Session * list SessOut) :=
  let '(v, cbs, tracked) := env_vt env in
  '(t, adv) ← terminal_call xxh3_64 v cbs tracked (se_term s);
  Some ((publish adv ;; compress_on_output) (with_term t s)).

Definition do_resize (conn rid : Z) (r : Messages.Resize) (s : Session) : option (Session * list SessOut) :=
  let who := default (replicate 16 x00) (current (se_resize s)).2 in
  let '(l, res) := Resize.do_resize who (rz_resize_epoch r) (rz_resize_seq r) (rz_cols r) (rz_rows r) (se_resize s) in
  let s := with_resize l s in
  match res with
  | Ok applied =>
      '(s, out) ← feed_terminal s;
      let '(s, out') := reply conn rid
        (Msg_ResizeAck (mk_ResizeAck (ap_epoch applied) (ap_seq applied) (ap_cols applied) (ap_rows applied))) s in
      Some (s, OPtyResize (ap_cols applied) (ap_rows applied) :: out ++ out')
  | Err (RStaleLease cur) => Some (reply_err conn rid (StaleLease Scope_Resize cur 0) "stale resize lease" s)
  | Err (RStaleResize a) =>
      Some (reply_err conn rid (StaleResize (ap_epoch a) (ap_seq a) (ap_cols a) (ap_rows a)) "stale resize" s)
  end.

(** The entry [subs.iter().find(..)] of an open subscription of this subscriber. *)
Definition existing (who : Uuid) (s : Session) : option (Z * Sub) :=
  head (filter (λ p, su_subscriber_id (sub_s p.2) = who ∧ Subscription.is_closed (sub_s p.2) = false) (bt_iter (se_subs s))).
Definition open_count (s : Session) : Z :=
  zlen (filter (λ p, Subscription.is_closed (sub_s p.2) = false) (bt_iter (se_subs s))).

(** The part of [subscribe] after an older subscription was closed. *)
Definition subscribe_new (conn rid : Z) (r : Subscribe) : Act := λ s,
  if MAX_SUBSCRIBERS <=? open_count s
  then reply_err conn rid (LimitExceeded 4 MAX_SUBSCRIBERS) "too many subscribers" s
  else
    let id := se_next_sub_id s in
    let s := with_next_sub_id (add64 (se_next_sub_id s) 1) s in
    let known := match sub_client_known_revision r, sub_client_known_incarnation r with
                 | Some rev, Some i => Some (rev, i)
                 | _, _ => None
                 end in
    let sub := mk_Sub (subscription_new id (sub_subscriber_id r) (sub_attach_seq r)) conn None 0 0 in
    let s := with_subs (<[id := sub]> (se_subs s)) s in
    on_sub id (start_with_ack (se_incarnation s) (se_revision s) known) (Some rid) s.

Definition subscribe (conn rid : Z) (r : Subscribe) : Act := λ s,
  match existing (sub_subscriber_id r) s with
  | Some (old_id, x) =>
      if sub_attach_seq r <=? su_attach_seq (sub_s x)
      then reply_err conn rid (StaleSubscribe (su_attach_seq (sub_s x))) "stale attach_seq" s
      else (on_sub old_id Subscription.close None ;; subscribe_new conn rid r) s
  | None => subscribe_new conn rid r s
  end.

Definition session_state (s : Session) : SessionState :=
  let e := il_current (se_ledger s) in
  let '(a, c, _, _) := default (0, 0, 0, false) (epoch_state e (se_ledger s)) in
  let r := ht_replica (se_term s) in
  mk_SessionState (se_incarnation s) (se_revision s) (state_digest xxh3_128 (to_body r)) e a c
    (ap_epoch (rl_applied (se_resize s))) (ap_seq (rl_applied (se_resize s))) (rp_cols r) (rp_rows r)
    (bool_decide (se_exit s = None)) (se_exit s) (take 128 (pending_dropped_by_epoch (se_ledger s)))
    (il_vt_replies_dropped (se_ledger s)) (se_creation_op s).

Definition on_request (conn rid : Z) (m : Message) (s : Session) : option (Session * list SessOut) :=
  match m with
  | Msg_AcquireLease a => Some (acquire conn rid a s)
  | Msg_ReleaseLease r => Some (release conn rid r s)
  | Msg_Reclaim r => Some (reclaim conn rid r s)
  | Msg_WriteInput w => write_input conn rid w s
  | Msg_GetEpochState g =>
      Some (match epoch_state (ges_epoch g) (se_ledger s) with
            | Some (fa, c, pd, fenced) =>
                reply conn rid (Msg_EpochState (mk_EpochState (ges_epoch g) fa c pd fenced)) s
            | None => reply_err conn rid (EpochUnknown (ges_epoch g)) "epoch unknown" s
            end)
  | Msg_Resize r => do_resize conn rid r s
  | Msg_Subscribe r => Some (subscribe conn rid r s)
  | Msg_Resync r => Some (on_sub (rsy_subscription_id r) Subscription.resync None s)
  | Msg_Unsubscribe u => Some (on_sub (uns_subscription_id u) Subscription.close None s)
  | Msg_GetSessionState => Some (reply conn rid (Msg_SessionState (session_state s)) s)
  | other => Some (reply_err conn rid (UnknownCommandDetail (command other)) "not a session command" s)
  end.

(** ** The actor *)

(** The [Deadline] event: the connection of a subscription that missed it is closed. *)
Definition on_deadline_event (sub_id reservation_id snapshot_id : Z) : Act := λ s,
  let conn := sub_conn <$> se_subs s !! sub_id in
  let slow := match se_subs s !! sub_id with
              | Some sub => existsb (λ e, match e with CloseSlowConsumer _ => true | _ => false end)
                              (on_deadline reservation_id snapshot_id (sub_s sub)).2
              | None => false
              end in
  (on_sub sub_id (on_deadline reservation_id snapshot_id) None ;;
   match slow, conn with true, Some c => emit (OCloseOutbox c) | _, _ => skip end) s.

Definition on_event (ev : Event) (s : Session) : option (Session * list SessOut) :=
  match ev with
  | EvRequest conn rid m => on_request conn rid m s
  | EvConnClosed conn => Some (on_conn_closed conn s)
  | EvPtyOutput bytes =>
      '(s, out) ← feed_terminal s;
      Some (s, OGateRelease (zlen bytes) :: out)
  | EvPtyEof => Some (finish_child None s)
  | EvWritten n =>
      let s := with_write_inflight false s in
      '(l, ack) ← on_written n (se_ledger s);
      let s := with_ledger l s in
      Some (((match ack with
              | Some a => send_holder (ack_holder a)
                  (Msg_InputAck (mk_InputAck (ack_holder a) (ack_epoch a) (ack_accepted a) (ack_committed a)))
              | None => skip
              end) ;; pump_write) s)
  | EvWriteFailed =>
      let s := with_write_inflight false s in
      Some (with_ledger (on_dead (se_ledger s)) s, [])
  | EvChildExited info => Some (with_pending_exit (Some info) s, [ODrainTimer])
  | EvDrainDone => Some (finish_child None s)
  | EvBudgetAvailable sid seq rid =>
      Some (match se_subs s !! sid with
            | Some _ => on_sub sid (on_budget_available seq rid (se_revision s) (env_now_ms env)) None s
            | None => (emit (OReturn rid) ;; apply sid [] None) s
            end)
  | EvFrameWritten sid rid snap last => Some (on_sub sid (on_frame_written rid snap last) None s)
  | EvReleased sid rid snap => Some (on_sub sid (on_buffer_released rid snap) None s)
  | EvDeadline sid rid snap => Some (on_deadline_event sid rid snap s)
  | EvFlush => Some (flush_deltas (with_flush_scheduled false s))
  | EvCompress =>
      let '(t, next, _) := Compress.on_compress (env_instant env) (env_compress env) (se_compress s) in
      Some ((update (with_compress t) ;; start_compress_timer next) s)
  end.
End session.

(** [start]: the fields of a new session. *)
Definition session_new (id incarnation : list byte) (op : OperationId) (cols rows : Z) (e : VtEngine) : Session :=
  let '(cols, rows) := normalize_size cols rows in
  mk_Session id incarnation op (terminal_new e) 1 ledger_new (resize_new cols rows) ∅ 1 ∅ false None None false
    Compress.timer_default.
