(* ===== verification/SessionSpec.v ===== *)
(** * Session: what the actor keeps and what its clients see

    The components of a session composed: whatever events arrive, in whatever
    order, every open subscription keeps its client in step with the terminal; the
    client is the one of [Client], fed with the frames the session sends.  The
    bookkeeping invariants of the actor (subscribers, the flush timer, the write
    pump, reservations, the exit) are here too. *)

From S2P Require Import Prelude Wire Types Messages Frame Budget Replica ReplicaSpec Utf8 Vt Terminal TerminalSpec Subscription Client Resize Input InputSpec Conn Pacing Session.
From Stdlib Require Import ZArith Lia Strings.Byte.
From stdpp Require Import base gmap list option sorting.

#[local] Open Scope Z_scope.

(** ** Sequences of actions *)

Lemma andthen_eq a b s s1 o1 s2 o2 : a s = (s1, o1) → b s1 = (s2, o2) → andthen a b s = (s2, o1 ++ o2).
Proof. unfold andthen. by intros -> ->. Qed.

Lemma for_each_cons {A} (x : A) l f s :
  for_each (x :: l) f s = let '(s1, o1) := f x s in let '(s2, o2) := for_each l f s1 in (s2, o1 ++ o2).
Proof. done. Qed.

(** A loop of [emit]. *)
Lemma for_each_emit {A} (l : list A) (g : A → SessOut) s : for_each l (λ x, emit (g x)) s = (s, g <$> l).
Proof. induction l as [|x l IH]; [done|]. rewrite for_each_cons. cbn [emit]. by rewrite IH. Qed.

(** ** What the outputs mean for a client *)

Section deliver.
Context (xxh3_128 : list byte → Z).

(** The client of subscription [i] receives its frames. *)
Definition deliver1 (i : Z) (c : ReplicaClient) (o : SessOut) : ReplicaClient :=
  match o with
  | OFrame _ f =>
      match f_message f with
      | Msg_SubscribeAck a =>
          if suba_subscription_id a =? i then adopt i (suba_snapshot_follows a) (suba_revision a) c else c
      | Msg_Delta d => if delta_subscription_id d =? i then (on_delta d c).1 else c
      | _ => c
      end
  | OSnap _ _ _ _ f _ =>
      match f_message f with
      | Msg_SnapshotFrame sf => if snap_subscription_id sf =? i then (on_snapshot xxh3_128 sf c).1 else c
      | _ => c
      end
  | _ => c
  end.
Definition deliver (i : Z) (out : list SessOut) (c : ReplicaClient) : ReplicaClient := foldl (deliver1 i) c out.

Lemma deliver_app i o1 o2 c : deliver i (o1 ++ o2) c = deliver i o2 (deliver i o1 c).
Proof. apply foldl_app. Qed.
End deliver.

(** The reservations given back, the exits reported, and the buffers handed to
    the writer. *)
Definition out_returned (out : list SessOut) : list Z :=
  omap (λ o, match o with OReturn r => Some r | _ => None end) out.
Definition out_exits (out : list SessOut) : list ExitInfo :=
  omap (λ o, match o with OMarkExited i => Some i | _ => None end) out.
Definition out_writes (out : list SessOut) : list (list byte) :=
  omap (λ o, match o with OWrite b => Some b | _ => None end) out.

(** An effect of subscription [id]. *)
Definition addressed (id : Z) (e : Effect) : Prop :=
  match e with
  | SendAck a => suba_subscription_id a = id
  | SendDelta d => delta_subscription_id d = id
  | BuildSnapshot sid _ _ => sid = id
  | _ => True
  end.

(** Outputs of an action on subscription [id]: nothing for other subscriptions,
    the writer or the host's table. *)
Record sub_outs (xxh3_128 : list byte → Z) (id : Z) (returns : list Z) (out : list SessOut) : Prop := {
  so_others : ∀ j c, j ≠ id → deliver xxh3_128 j out c = c;
  so_returns : out_returned out = returns;
  so_quiet : out_exits out = [] ∧ out_writes out = [];
}.

Lemma sub_outs_nil xxh id : sub_outs xxh id [] [].
Proof. by split. Qed.

Lemma sub_outs_app xxh id r1 r2 o1 o2 :
  sub_outs xxh id r1 o1 → sub_outs xxh id r2 o2 → sub_outs xxh id (r1 ++ r2) (o1 ++ o2).
Proof.
  intros [A1 A2 [A3 A4]] [B1 B2 [B3 B4]]. split.
  - intros j c Hj. by rewrite deliver_app, A1, B1.
  - unfold out_returned in *. by rewrite omap_app, A2, B2.
  - unfold out_exits, out_writes in *. by rewrite !omap_app, A3, A4, B3, B4.
Qed.

Lemma with_subs_eta s : with_subs (se_subs s) s = s.
Proof. by destruct s. Qed.
Lemma with_subs_twice m m' s : with_subs m (with_subs m' s) = with_subs m s.
Proof. done. Qed.

(** ** One effect *)

Section effects.
Context (xxh3_128 : list byte → Z) (env : Env).

(** The frames of a snapshot. *)
Definition snap_out (s : Session) (conn sub_id rid sid : Z) (payload : SnapshotPayload) (last : bool) : SessOut :=
  OSnap conn sub_id rid sid
    (mk_Frame (se_id s) 0 FLAG_EVENT (Msg_SnapshotFrame (mk_SnapshotFrame sub_id (se_incarnation s) sid payload))) last.

(** The body [build_snapshot] encodes. *)
Definition snapshot_body (s : Session) (x : Sub) : Body :=
  let next := ht_next_event_id (se_term s) in
  mk_Body (se_revision s) (state_digest xxh3_128 (to_body (ht_replica (se_term s)))) next
    ((0 <? sub_snapshots_built x) && (sub_last_sent_event x <? sat_sub next 1)) (to_body (ht_replica (se_term s))).

Lemma build_snapshot_eq id sid rid s x :
  se_subs s !! id = Some x →
  build_snapshot xxh3_128 id sid rid s =
    (with_subs (<[id := set_sub_events (sat_sub (ht_next_event_id (se_term s)) 1) (add64 (sub_snapshots_built x) 1) x]> (se_subs s)) s,
     (λ p, snap_out s (sub_conn x) id rid sid p.2 (S p.1 =? length (snapshot_payloads (snapshot_body s x)))%nat) <$>
       imap pair (snapshot_payloads (snapshot_body s x))).
Proof.
  intros Hx. unfold build_snapshot. rewrite Hx. unfold snapshot_body, andthen, update.
  set (ps := snapshot_payloads _). generalize (length ps) as n. intros n.
  assert (∀ (l : list (nat * SnapshotPayload)) s', for_each l (λ '(i, payload), emit
    (snap_out s (sub_conn x) id rid sid payload (S i =? n)%nat)) s'
    = (s', (λ p, snap_out s (sub_conn x) id rid sid p.2 (S p.1 =? n)%nat) <$> l)) as Hl.
  { intros l s'. unfold for_each. induction l as [|[i p] l IH]; [done|]. cbn [foldr]. unfold andthen at 1. cbn [emit]. by rewrite IH. }
  unfold snap_out in *. rewrite Hl. done.
Qed.

(** What an effect other than a snapshot or acknowledgement means for its client. *)
Definition effect_client (e : Effect) (c : ReplicaClient) : ReplicaClient :=
  match e with SendDelta d => (on_delta d c).1 | _ => c end.

Definition plain (e : Effect) : Prop := match e with SendAck _ | BuildSnapshot _ _ _ => False | _ => True end.

(** An effect no client sees. *)
Definition silent (e : Effect) : Prop :=
  match e with SendAck _ | BuildSnapshot _ _ _ | SendDelta _ => False | _ => True end.

Lemma apply_effect_plain id rt e s x :
  se_subs s !! id = Some x → addressed id e → plain e →
  ∃ x' out, apply_effect xxh3_128 env id rt e s = (with_subs (<[id := x']> (se_subs s)) s, out) ∧
    sub_s x' = sub_s x ∧ sub_conn x' = sub_conn x ∧ sub_outs xxh3_128 id (returned [e]) out ∧
    ∀ c, deliver xxh3_128 id out c = effect_client e c.
Proof.
  intros Hx Ha Hp.
  assert (∀ out, sub_outs xxh3_128 id (returned [e]) out → (∀ c, deliver xxh3_128 id out c = effect_client e c) →
    ∃ x' out', (s, out) = (with_subs (<[id := x']> (se_subs s)) s, out') ∧
      sub_s x' = sub_s x ∧ sub_conn x' = sub_conn x ∧ sub_outs xxh3_128 id (returned [e]) out' ∧
      ∀ c, deliver xxh3_128 id out' c = effect_client e c) as Hsame.
  { intros out Ho Hd. exists x, out. rewrite insert_id, with_subs_eta by done. done. }
  destruct e as [a|d|q1 q2|q1 q2|r|i1 i2 i3|i1 i2|i1 i2 i3 at_ms|i1|i1]; try done; cbn [apply_effect]; rewrite ?Hx.
  - cbn in Ha. eexists _, _. split; [done|]. split; [done|]. split; [done|]. cbn [frame].
    split; [|intros c; cbn; by rewrite Ha, Z.eqb_refl]. split; try done. intros j c Hj. cbn.
    rewrite (proj2 (Z.eqb_neq _ _)) by congruence. done.
  - by apply Hsame.
  - by apply Hsame.
  - by apply Hsame.
  - by apply Hsame.
  - unfold andthen, emit, update. destruct (sub_deadline x); eexists _, _; by (split; [done|]).
  - unfold andthen, update. destruct (sub_deadline x); eexists _, _; by (split; [done|]).
  - by apply Hsame.
Qed.
Lemma deliver_snaps id rid sid s conn (ps : list SnapshotPayload) (last : nat → bool) c :
  deliver xxh3_128 id ((λ p, snap_out s conn id rid sid p.2 (last p.1)) <$> imap pair ps) c =
  receive xxh3_128 (mk_SnapshotFrame id (se_incarnation s) sid <$> ps) c.
Proof.
  assert (∀ (l : list (nat * SnapshotPayload)) c,
    deliver xxh3_128 id ((λ p, snap_out s conn id rid sid p.2 (last p.1)) <$> l) c =
    receive xxh3_128 (mk_SnapshotFrame id (se_incarnation s) sid <$> l.*2) c) as Hl.
  { intros l. unfold deliver, receive. induction l as [|[i p] l IH]; intros c'; [done|].
    rewrite !fmap_cons. cbn [foldl]. rewrite IH. cbn. by rewrite Z.eqb_refl. }
  rewrite Hl. f_equal. f_equal. rewrite fmap_imap. clear. induction ps as [|p ps IH] using rev_ind; [done|].
  rewrite imap_app, IH. done.
Qed.
End effects.

(** ** Chunks *)

Lemma chunks_of_spec fuel n (l : list byte) :
  (0 < n)%nat → (length l ≤ fuel)%nat →
  concat (chunks_of fuel n l) = l ∧ length (chunks_of fuel n l) = ((length l + n - 1) / n)%nat.
Proof.
  intros Hn. revert l. induction fuel as [|fuel IH]; intros l Hl.
  { destruct l; [|cbn in Hl; lia]. split; [done|]. cbn. symmetry. apply Nat.div_small. lia. }
  destruct l as [|x l]; [split; [done|]; cbn; symmetry; apply Nat.div_small; lia|].
  cbn [chunks_of]. destruct (IH (drop n (x :: l))) as [H1 H2]; [rewrite length_drop; cbn in *; lia|].
  cbn [concat length]. rewrite H1, H2, take_drop, length_drop. split; [done|]. cbn [length].
  destruct (decide (n ≤ S (length l))%nat).
  - replace (S (length l) + n - 1)%nat with ((S (length l) - n + n - 1) + 1 * n)%nat by lia.
    rewrite Nat.div_add by lia. lia.
  - replace (S (length l) - n + n - 1)%nat with (n - 1)%nat by lia. rewrite Nat.div_small by lia.
    replace (S (length l) + n - 1)%nat with (length l + 1 * n)%nat by lia. rewrite Nat.div_add, Nat.div_small by lia. lia.
Qed.

Lemma chunks_spec n l :
  0 < n → concat (chunks n l) = l ∧ zlen (chunks n l) = (zlen l + n - 1) / n.
Proof.
  intros Hn. unfold chunks. destruct (chunks_of_spec (length l) (Z.to_nat n) l ltac:(lia) (le_n _)) as [H1 H2].
  split; [done|]. unfold zlen. rewrite H2, Nat2Z.inj_div, Nat2Z.inj_sub, Nat2Z.inj_add by lia.
  rewrite Z2Nat.id by lia. done.
Qed.

Section snapshots.
Context (xxh3_128 : list byte → Z) (env : Env).

(** The frames of a snapshot are received like the whole body. *)
Lemma payloads_received id inc sid body c :
  wf c_Body body = true → zlen (enc c_Body body) <= MAX_BODY → ready id inc sid c →
  receive xxh3_128 (mk_SnapshotFrame id inc sid <$> snapshot_payloads body) c
  = (on_snapshot xxh3_128 (mk_SnapshotFrame id inc sid (Full body)) c).1.
Proof.
  intros Hw Hm Hr. unfold snapshot_payloads. destruct (Z.leb_spec (zlen (enc c_Body body)) SNAPSHOT_CHUNK); [done|].
  set (cs := chunks SNAPSHOT_CHUNK (enc c_Body body)).
  destruct (chunks_spec SNAPSHOT_CHUNK (enc c_Body body) ltac:(done)) as [Hc Hl]. fold cs in Hc, Hl.
  unfold MAX_BODY, S_MAX, SNAPSHOT_CHUNK in *.
  assert (zlen cs <= 66) as Hn by (rewrite Hl; apply Z.div_le_upper_bound; lia).
  assert (1 <= zlen cs) as Hn1 by (rewrite Hl; apply Z.div_le_lower_bound; lia).
  rewrite <- (chunks_received xxh3_128 id inc sid cs body c); try done; try lia.
  - f_equal. unfold chunk_frames. rewrite Hc, <- Hl, fmap_imap, !Z.mod_small by lia. apply imap_ext.
    intros i b Hi. cbn. apply lookup_lt_Some in Hi. rewrite Z.mod_small; [done|]. unfold zlen in *. lia.
  - unfold MAX_BODY, S_MAX. rewrite Hc. lia.
Qed.
End snapshots.

(** ** A subscription and its client *)

(** The client of subscription [i] has no work under way and has seen snapshots
    below [next] only. *)
Record synced (i : Z) (inc : Uuid) (next : Z) (c : ReplicaClient) : Prop := {
  sy_sub : rc_subscription_id c = Some i;
  sy_inc : rc_incarnation c = inc;
  sy_idle : rc_assembly c = None ∧ rc_buffered c = [] ∧ rc_resync_requested c = false;
  sy_ids : rc_last_applied_snapshot c < next ∧ rc_discarded_snapshot c < next;
}.

(** The state the client can apply deltas to. *)
Definition cview (c : ReplicaClient) : option (Z * Replica) :=
  if rc_awaiting_first c then None else pair (rc_local_revision c) <$> rc_replica c.

Lemma synced_mono i inc n m c : n <= m → synced i inc n c → synced i inc m c.
Proof. intros Hn [? ? ? [? ?]]. split; try done. lia. Qed.

Lemma full_delivered xxh i inc sid body c :
  synced i inc sid c → state_digest xxh (body_state body) = body_state_digest body →
  let c' := (on_snapshot xxh (mk_SnapshotFrame i inc sid (Full body)) c).1 in
  synced i inc (sid + 1) c' ∧ cview c' = Some (body_revision body, from_body (body_state body)).
Proof.
  intros [Hs Hi (Ha & Hb & Hr) [Hl Hd]] Hdig. cbv zeta. unfold on_snapshot.
  cbn [snap_subscription_id snap_session_incarnation snap_snapshot_id snap_payload].
  rewrite Hs, Hi, !bool_decide_false by (intros H; by apply H). cbn [orb].
  rewrite (proj2 (Z.leb_gt _ _)) by lia. unfold supersede. rewrite Ha. unfold install. cbv zeta.
  rewrite bool_decide_false by (intros H; by apply H). cbn [rc_buffered with_last_ui_event_id with_local_revision
    with_replica with_last_applied_snapshot with_resync_requested with_awaiting_first with_assembly].
  rewrite Hb. cbn. split; [|done]. split; cbn; try done. lia.
Qed.

Lemma delta_delivered i inc n d c rc :
  synced i inc n c → cview c = Some (delta_base_revision d, rc) → delta_subscription_id d = i →
  synced i inc n (on_delta d c).1 ∧ cview (on_delta d c).1 = Some (delta_new_revision d, (apply_delta d rc).1).
Proof.
  intros [Hs Hi (Ha & Hb & Hr) Hids] Hv Hd. unfold on_delta. rewrite Hd, Hs.
  rewrite bool_decide_false by (intros H; by apply H). unfold cview in Hv.
  destruct (rc_awaiting_first c) eqn:Ew; [done|]. unfold assembling. rewrite Ew, Hr, Ha. cbn [orb].
  rewrite bool_decide_false by (by intros [? ?]). unfold Client.apply.
  destruct (rc_replica c) as [r|] eqn:Er; [|done]. cbn in Hv. injection Hv as Hl ->.
  rewrite Hl, Z.eqb_refl. cbn [negb]. destruct (apply_delta d rc) as [r' all]. destruct (fresh_events _ all) as [last ev].
  cbn. split; [split; cbn; done|]. unfold cview. cbn. by rewrite Ew.
Qed.

(** ** Operations of a subscription *)

Definition sub_addr (id : Z) (x : Subscription) : Prop :=
  su_id x = id ∧ Forall (λ d, delta_subscription_id d = id) (su_queue x) ∧ 0 < su_next_snapshot_id x.

(** The effects of one operation: a snapshot and its deadline, or none. *)
Definition fx_shape (id : Z) (x x' : Subscription) (fx : list Effect) : Prop :=
  Forall (addressed id) fx ∧
  ((∃ rid e, fx = [BuildSnapshot id (su_next_snapshot_id x) rid; e] ∧ plain e ∧ returned [e] = [] ∧
      su_next_snapshot_id x' = su_next_snapshot_id x + 1)
   ∨ (Forall plain fx ∧ su_next_snapshot_id x' = su_next_snapshot_id x)).

Definition op_keeps (id : Z) (x x' : Subscription) (fx : list Effect) : Prop :=
  sub_addr id x' ∧ su_subscriber_id x' = su_subscriber_id x ∧ su_attach_seq x' = su_attach_seq x ∧ fx_shape id x x' fx.

Lemma op_keeps_plain id x x' fx :
  sub_addr id x → su_id x' = su_id x → su_next_snapshot_id x' = su_next_snapshot_id x →
  su_subscriber_id x' = su_subscriber_id x → su_attach_seq x' = su_attach_seq x →
  (su_queue x' = [] ∨ su_queue x' = su_queue x) → Forall (addressed id) fx → Forall plain fx → op_keeps id x x' fx.
Proof.
  intros (H1 & H2 & H3) E1 E2 E3 E4 Hq Ha Hp. split; [|split; [done|split; [done|split; [done|right; done]]]].
  split; [congruence|]. split; [destruct Hq as [->| ->]; [constructor|done]|lia].
Qed.

Lemma close_keeps id x : sub_addr id x → op_keeps id x (Subscription.close x).1 (Subscription.close x).2.
Proof.
  intros Hx. unfold Subscription.close. destruct (su_budget x); apply op_keeps_plain; try done; first [by left | by repeat constructor].
Qed.

Lemma resync_keeps id x : sub_addr id x → op_keeps id x (resync x).1 (resync x).2.
Proof.
  intros Hx. unfold resync. case_match; [apply op_keeps_plain; auto|].
  cbn [su_budget with_resync_pending clear_queue with_queue_bytes with_queue].
  destruct (su_budget x); apply op_keeps_plain; try done; first [by left | by repeat constructor].
Qed.

(** An operation after one that keeps what matters. *)
Lemma op_keeps_from id x y x' fx fx0 :
  op_keeps id y x' fx → su_subscriber_id y = su_subscriber_id x → su_attach_seq y = su_attach_seq x →
  su_next_snapshot_id y = su_next_snapshot_id x → Forall plain fx → Forall plain fx0 → Forall (addressed id) fx0 →
  op_keeps id x x' (fx0 ++ fx).
Proof.
  intros (H1 & H2 & H3 & Ha & Hs) E1 E2 E3 Hp Hp0 Ha0. split; [done|]. split; [congruence|]. split; [congruence|].
  split; [by apply Forall_app|]. right. split; [by apply Forall_app|].
  destruct Hs as [(rid & e & -> & _)|[_ ?]]; [by inversion Hp|congruence].
Qed.

Lemma close_plain x : Forall plain (Subscription.close x).2.
Proof. unfold Subscription.close. destruct (su_budget x); repeat constructor. Qed.
Lemma resync_plain x : Forall plain (resync x).2.
Proof. unfold resync. case_match; [constructor|]. cbn. destruct (su_budget x); repeat constructor. Qed.

Lemma merge_subscription q d id :
  Forall (λ d, delta_subscription_id d = id) q → Replica.merge q = Some d → delta_subscription_id d = id.
Proof.
  intros Hq Hm. destruct q as [|d0 q]; [done|]. rewrite merge_cons in Hm. injection Hm as <-.
  apply Forall_cons in Hq as [Hd _].
  assert (∀ acc ds, delta_subscription_id (ma_out (foldl merge_step acc ds)) = delta_subscription_id (ma_out acc)) as Hf.
  { intros acc ds. revert acc. induction ds as [|y ds IH]; intros acc; [done|]. cbn [foldl]. by rewrite IH. }
  unfold merge_finish. cbn [delta_subscription_id]. rewrite Hf. done.
Qed.

Lemma sub_step_keeps e rev x id :
  sub_addr id x → su_next_snapshot_id x < u64_max → op_keeps id x (sub_step e rev x).1 (sub_step e rev x).2.
Proof.
  intros Hx Hn. pose proof Hx as (Hid & Hq & Hs).
  destruct e as [d r c|r c| |q r now|r sn l|r sn|r sn| |]; cbn [sub_step].
  - unfold Subscription.push_delta. destruct (_ || _ || _); [apply op_keeps_plain; auto|]. cbv zeta.
    set (x1 := with_queue _ _).
    assert (sub_addr id x1) as H1.
    { split; [done|]. split; [|done]. cbn. apply Forall_app. split; [done|]. by constructor. }
    destruct (_ || _).
    2: { split; [done|]. split; [done|]. split; [done|]. split; [constructor|right; split; [constructor|done]]. }
    set (x2 := with_resync_count _ x1). assert (sub_addr id x2) as H2 by done. destruct (_ <=? _).
    + pose proof (close_keeps id x2 H2) as Hk. pose proof (close_plain x2) as Hp. destruct (Subscription.close x2) as [x3 fx].
      apply (op_keeps_from id x x2 x3 fx [CloseSlowConsumer (su_id x2)]); try done; by repeat constructor.
    + pose proof (resync_keeps id x2 H2) as Hk. pose proof (resync_plain x2) as Hp. destruct (resync x2) as [x3 fx].
      apply (op_keeps_from id x x2 x3 fx []); try done; by repeat constructor.
  - by apply resync_keeps.
  - by apply resync_keeps.
  - unfold on_budget_available. destruct (su_budget x); try (apply op_keeps_plain; auto; by repeat constructor).
    destruct (_ =? _); [|apply op_keeps_plain; auto; by repeat constructor].
    cbn [fst snd]. split; [|split; [done|split; [done|]]].
    + split; [done|]. split; [done|]. cbn. rewrite add64_id; unfold u64_max in *; lia.
    + split; [by repeat constructor|]. left. eexists _, _. split; [cbn; by rewrite Hid|]. split; [done|]. split; [done|].
      cbn. rewrite add64_id; unfold u64_max in *; lia.
  - unfold on_frame_written. destruct (_ || _); [apply op_keeps_plain; auto|].
    destruct (su_budget x); apply op_keeps_plain; auto; by repeat constructor.
  - unfold on_buffer_released. destruct (remove_first r _); [apply op_keeps_plain; auto; by repeat constructor|].
    destruct (negb _); [apply op_keeps_plain; auto|].
    destruct (su_budget x); try (apply op_keeps_plain; auto; by repeat constructor).
    destruct (su_resync_pending x); apply op_keeps_plain; auto; by repeat constructor.
  - unfold on_deadline. destruct (matches _ _ x); [|apply op_keeps_plain; auto].
    pose proof (close_keeps id x Hx) as Hk. pose proof (close_plain x) as Hp. destruct (Subscription.close x) as [x3 fx].
    apply (op_keeps_from id x x x3 fx [CloseSlowConsumer (su_id x)]); try done; by repeat constructor.
  - by apply close_keeps.
  - unfold drain_to_wire. destruct (_ || _); [apply op_keeps_plain; auto|].
    destruct (Replica.merge (su_queue x)) as [d|] eqn:Em; cbn; apply op_keeps_plain; auto; repeat constructor.
    by eapply merge_subscription.
Qed.

(** ** One operation on one subscription of the session *)

Definition gone (x : Subscription) : bool := Subscription.is_closed x && bool_decide (su_unreturned x = []).

Section on_sub.
Context (xxh3_128 : list byte → Z) (env : Env).
#[local] Abbreviation deliver := (deliver xxh3_128).
#[local] Abbreviation apply_effect := (apply_effect xxh3_128 env).

Lemma effects_plain id rt fx s x :
  se_subs s !! id = Some x → Forall (addressed id) fx → Forall plain fx →
  ∃ x' out, for_each fx (apply_effect id rt) s = (with_subs (<[id := x']> (se_subs s)) s, out) ∧
    sub_s x' = sub_s x ∧ sub_conn x' = sub_conn x ∧ sub_outs xxh3_128 id (returned fx) out ∧
    ∀ c, deliver id out c = foldl (λ c e, effect_client e c) c fx.
Proof.
  revert s x. induction fx as [|e fx IH]; intros s x Hx Ha Hp.
  { exists x, []. rewrite insert_id, with_subs_eta by done. split_and!; by try split. }
  apply Forall_cons in Ha as [Ha1 Ha]. apply Forall_cons in Hp as [Hp1 Hp]. rewrite for_each_cons.
  destruct (apply_effect_plain xxh3_128 env id rt e s x Hx Ha1 Hp1) as (x1 & o1 & -> & E1 & C1 & Ho1 & D1).
  destruct (IH (with_subs (<[id := x1]> (se_subs s)) s) x1) as (x2 & o2 & -> & E2 & C2 & Ho2 & D2);
    [by cbn; rewrite lookup_insert_eq|done|done|].
  exists x2, (o1 ++ o2). cbn [se_subs with_subs]. rewrite insert_insert_eq, with_subs_twice. split; [done|].
  split; [congruence|]. split; [congruence|]. split.
  - change (returned (e :: fx)) with (returned ([e] ++ fx)). unfold returned. rewrite omap_app. by apply sub_outs_app.
  - intros c. by rewrite deliver_app, D1, D2.
Qed.

Lemma reap_spec id s x :
  se_subs s !! id = Some x →
  ∃ out, reap id s = (with_subs (if gone (sub_s x) then delete id (se_subs s) else se_subs s) s, out) ∧
    sub_outs xxh3_128 id [] out ∧ ∀ c, deliver id out c = c.
Proof.
  intros Hx. unfold reap. rewrite Hx. unfold gone. destruct (_ && _).
  - unfold andthen, update. destruct (sub_deadline x); eexists; by (split; [done|]).
  - exists []. rewrite with_subs_eta. split; [done|]. split; [by split|done].
Qed.

(** The frames of a snapshot are for their subscription. *)
Lemma snap_outs id rid sid conn s (ps : list SnapshotPayload) (last : nat → bool) :
  sub_outs xxh3_128 id [] ((λ p, snap_out s conn id rid sid p.2 (last p.1)) <$> imap pair ps).
Proof.
  generalize (imap pair ps) as l. intros l. induction l as [|p l IH]; [by split|]. rewrite fmap_cons.
  apply (sub_outs_app xxh3_128 id [] [] [_]); [|done]. split; try done. intros j c Hj. cbn.
  rewrite (proj2 (Z.eqb_neq _ _)) by congruence. done.
Qed.

(** The snapshot the session would send is one a client can install. *)
Definition body_ok (s : Session) : Prop :=
  ∀ x, wf c_Body (snapshot_body xxh3_128 s x) = true ∧ zlen (enc c_Body (snapshot_body xxh3_128 s x)) <= MAX_BODY.

Lemma plain_client rev rep id inc n fx c v :
  synced id inc n c → Forall (addressed id) fx → Forall plain fx → client_run rev rep (cview c) fx = Some v →
  synced id inc n (foldl (λ c e, effect_client e c) c fx) ∧ cview (foldl (λ c e, effect_client e c) c fx) = v.
Proof.
  revert c. induction fx as [|e fx IH]; intros c Hs Ha Hp Hr; [by injection Hr as <-|].
  apply Forall_cons in Ha as [Ha1 Ha]. apply Forall_cons in Hp as [Hp1 Hp]. cbn [foldl].
  cbn [client_run] in Hr. apply bind_Some in Hr as (w & Hw & Hr).
  destruct e as [a|d|q1 q2|q1 q2|r|i1 i2 i3|i1 i2|i1 i2 i3 at_ms|i1|i1]; try done;
    try (injection Hw as <-; by apply IH).
  cbn in Hw. destruct (cview c) as [[r rc]|] eqn:Ev; [|done]. destruct (Z.eqb_spec r (delta_base_revision d)) as [->|]; [|done].
  injection Hw as <-. destruct (delta_delivered id inc n d c rc Hs Ev Ha1) as [Hs' Hv']. cbn [effect_client].
  apply IH; [done..|by rewrite Hv'].
Qed.

(** The whole of [on_sub]: the entry of the subscription, the outputs, and its client. *)
Lemma on_sub_spec id f s x σ fx :
  se_subs s !! id = Some x → f (sub_s x) = (σ, fx) → fx_shape id (sub_s x) σ fx →
  ∃ x' out, on_sub xxh3_128 env id f None s =
      (with_subs (if gone σ then delete id (se_subs s) else <[id := x']> (se_subs s)) s, out) ∧
    sub_s x' = σ ∧ sub_conn x' = sub_conn x ∧ sub_outs xxh3_128 id (returned fx) out ∧
    ∀ c v, body_ok s → synced id (se_incarnation s) (su_next_snapshot_id (sub_s x)) c →
      client_run (se_revision s) (ht_replica (se_term s)) (cview c) fx = Some v →
      synced id (se_incarnation s) (su_next_snapshot_id σ) (deliver id out c) ∧ cview (deliver id out c) = v ∧
      (Forall silent fx → deliver id out c = c).
Proof.
  intros Hx Hf [Ha Hsh]. unfold on_sub. rewrite Hx, Hf.
  set (s0 := with_subs (<[id := set_sub_s σ x]> (se_subs s)) s).
  assert (se_subs s0 !! id = Some (set_sub_s σ x)) as Hx0 by (by cbn; rewrite lookup_insert_eq).
  unfold Session.apply.
  assert (∃ x' out, for_each fx (apply_effect id None) s0 = (with_subs (<[id := x']> (se_subs s)) s, out) ∧
    sub_s x' = σ ∧ sub_conn x' = sub_conn x ∧ sub_outs xxh3_128 id (returned fx) out ∧
    ∀ c v, body_ok s → synced id (se_incarnation s) (su_next_snapshot_id (sub_s x)) c →
      client_run (se_revision s) (ht_replica (se_term s)) (cview c) fx = Some v →
      synced id (se_incarnation s) (su_next_snapshot_id σ) (deliver id out c) ∧ cview (deliver id out c) = v ∧
      (Forall silent fx → deliver id out c = c))
    as (x1 & o1 & E1 & S1 & C1 & Ho1 & D1).
  { destruct Hsh as [(rid & e & -> & He & Hre & Hnx)|[Hp Hnx]].
    - apply Forall_cons in Ha as [_ Ha]. apply Forall_cons in Ha as [Ha _]. rewrite for_each_cons. cbn [Session.apply_effect].
      rewrite (build_snapshot_eq xxh3_128 _ _ _ _ _ Hx0). set (x1 := set_sub_events _ _ _). set (o1 := _ <$> imap pair _).
      destruct (effects_plain id None [e] (with_subs (<[id := x1]> (se_subs s0)) s0) x1) as (x2 & o2 & -> & S2 & C2 & Ho2 & D2);
        [by cbn; rewrite lookup_insert_eq|by constructor|by constructor|].
      exists x2, (o1 ++ o2). split; [by cbn; rewrite !insert_insert_eq|]. split; [by rewrite S2|]. split; [by rewrite C2|].
      split; [change (returned (BuildSnapshot _ _ rid :: [e])) with ([] ++ returned [e]); apply sub_outs_app; [exact (snap_outs id rid _ _ s0 _ (λ i, (S i =? _)%nat))|done]|].
      intros c v Hb Hs Hr. rewrite deliver_app. unfold o1. rewrite (deliver_snaps xxh3_128 id rid _ s0 _ _ (λ i, (S i =? _)%nat)).
      destruct (Hb (set_sub_s σ x)) as [Hw Hl].
      assert (snapshot_body xxh3_128 s0 (set_sub_s σ x) = snapshot_body xxh3_128 s (set_sub_s σ x)) as -> by done.
      change (se_incarnation s0) with (se_incarnation s).
      pose proof Hs as [Y1 Y2 (Y3 & _) [Y4 Y5]].
      rewrite payloads_received by done.
      destruct (full_delivered xxh3_128 id (se_incarnation s) (su_next_snapshot_id (sub_s x))
        (snapshot_body xxh3_128 s (set_sub_s σ x)) c Hs eq_refl) as [Hs1 Hv1].
      rewrite D2, Hnx. destruct (plain_client (se_revision s) (ht_replica (se_term s)) id (se_incarnation s)
        (su_next_snapshot_id (sub_s x) + 1) [e] _ v Hs1) as [Hs2 Hv2]; [by constructor|by constructor| |].
      { rewrite Hv1. cbn [client_run] in Hr. cbn in Hr |- *. exact Hr. }
      split; [exact Hs2|]. split; [exact Hv2|]. intros Hsi. by inversion Hsi.
    - destruct (effects_plain id None fx s0 _ Hx0 Ha Hp) as (x1 & o1 & -> & S1 & C1 & Ho1 & D1).
      exists x1, o1. cbn [se_subs s0 with_subs]. rewrite insert_insert_eq. split; [done|]. split; [by rewrite S1|].
      split; [by rewrite C1|]. split; [done|]. intros c v _ Hs Hr. rewrite D1, Hnx.
      destruct (plain_client _ _ _ _ _ _ _ _ Hs Ha Hp Hr) as [Hs2 Hv2]. split; [done|]. split; [done|].
      clear. revert c. induction fx as [|e fx IH]; intros c Hsi; [done|]. apply Forall_cons in Hsi as [He Hsi]. cbn.
      rewrite IH by done. by destruct e. }
  destruct (reap_spec id (with_subs (<[id := x1]> (se_subs s)) s) x1) as (o2 & E2 & Ho2 & D2); [by cbn; rewrite lookup_insert_eq|].
  exists x1, (o1 ++ o2). rewrite (andthen_eq _ _ _ _ _ _ _ E1 E2). cbn [se_subs with_subs]. rewrite with_subs_twice, S1.
  split; [by destruct (gone σ); rewrite ?delete_insert_eq|]. split; [done|]. split; [done|]. split.
  - rewrite <- (app_nil_r (returned fx)). by apply sub_outs_app.
  - intros c v Hb Hs Hr. rewrite deliver_app, D2. by apply D1.
Qed.

Lemma on_sub_none id f rt s : se_subs s !! id = None → on_sub xxh3_128 env id f rt s = (s, []).
Proof. intros Hx. unfold on_sub, Session.apply, andthen, for_each, reap. rewrite Hx. cbn. by rewrite Hx. Qed.
End on_sub.
