(* ===== verification/SessionSync.v ===== *)
(** * Session: clients in step

    Composition of the terminal, the subscriptions and the client: in every run
    of a session each open subscription's client, fed with the frames the session
    sends, holds the terminal's state whenever nothing is queued for it.  The
    history [H] maps each revision to the state the terminal had. *)

From S2P Require Import Prelude Wire Types Messages Frame Budget Replica ReplicaSpec Utf8 Vt Terminal TerminalSpec Subscription Client Resize Input InputSpec Conn Pacing Session SessionSpec.
From Stdlib Require Import ZArith Lia Strings.Byte.
From stdpp Require Import base gmap list option sorting.

#[local] Open Scope Z_scope.

(** ** Lemmas: worlds *)

(** The counter of lines may run ahead. *)
Lemma delta_run_weaken r c q r' c' c'' :
  delta_run r c q r' c' → c' <= c'' → ∃ c0, c <= c0 ∧ delta_run r c0 q r' c''.
Proof.
  intros Hr. revert c''. induction Hr as [r c|r c d r1 c1 ds r2 c2 Hd Hr IH]; intros c'' Hc.
  - exists c''. split; [done|constructor].
  - destruct (IH c'' Hc) as (c0 & Hc0 & Hr'). exists c. split; [lia|]. econstructor; [|exact Hr'].
    destruct Hd as (H1 & H2 & H3 & H4 & H5). split; [done|]. split; [done|]. split; [lia|]. split.
    + intros p Hp. destruct (H4 p Hp). split; [lia|done].
    + intros e He. specialize (H5 e He). lia.
Qed.

Lemma world_line s rev rep line line' c :
  world_inv (mk_World s rev rep line c) → line <= line' → world_inv (mk_World s rev rep line' c).
Proof.
  intros [] Hl. cbn in *. split; cbn; try done.
  - intros p Hp. specialize (wi_ids p Hp). lia.
  - assert (in_step (mk_World s rev rep line c) → in_step (mk_World s rev rep line' c)) as Hin.
    { intros (rc & c0 & H1 & H2 & H3 & H4 & H5). cbn in *.
      destruct (delta_run_weaken _ _ _ _ _ line' H4 Hl) as (c1 & Hc1 & Hr). exists rc, c1. cbn. split_and!; try done.
      intros p Hp. specialize (H3 p Hp). lia. }
    destruct (su_budget s); try done; [destruct wi_state; auto..|]. case_match; auto.
Qed.

(** A step a client sees leaves it with nothing queued. *)
Lemma loud_step e w w' :
  world_inv w → valid e w → world_step e w = Some w' →
  Forall silent (sub_step e (host_step e w).1.1 (w_sub w)).2 ∨ w_client w' = Some (w_rev w', w_rep w').
Proof.
  intros Hi Hv Hs. destruct (world_step_inv e w Hi Hv) as (w1 & Hs1 & Hi1). rewrite Hs in Hs1. injection Hs1 as <-.
  assert (su_queue (w_sub w') = [] → su_resync_pending (w_sub w') = false → Subscription.is_closed (w_sub w') = false →
    w_client w' = Some (w_rev w', w_rep w')) as Hdone.
  { intros Hq Hp Hc. destruct (taking_in_step w' Hi1 Hp Hc) as (rc & c0 & Hcl & _ & _ & Hrun & Hrev).
    rewrite Hq in Hrun, Hrev. inversion Hrun; subst. cbn in Hrev. by rewrite Hcl, Hrev. }
  assert (∀ x, Forall silent (Subscription.close x).2) as Hclose.
  { intros x. unfold Subscription.close. destruct (su_budget x); repeat constructor. }
  assert (∀ x, Forall silent (resync x).2) as Hresync.
  { intros x. unfold resync. case_match; [constructor|]. cbn. destruct (su_budget x); repeat constructor. }
  unfold world_step in Hs. destruct (host_step e w) as [[rev rep] line] eqn:Eh. cbn [fst].
  destruct (sub_step e rev (w_sub w)) as [σ fx] eqn:Es. cbn [snd]. apply bind_Some in Hs as (c' & Hc' & Hw').
  injection Hw' as <-. cbn [w_sub w_rev w_rep w_client] in *.
  destruct e as [d r c|r c| |q r now|r sn l|r sn|r sn| |]; cbn [sub_step] in Es.
  - left. unfold Subscription.push_delta in Es. destruct (_ || _ || _); [injection Es as <- <-; constructor|]. cbv zeta in Es.
    destruct (_ || _); [|injection Es as <- <-; constructor]. destruct (_ <=? _).
    + match type of Es with context [Subscription.close ?y] => pose proof (Hclose y); destruct (Subscription.close y) end.
      injection Es as <- <-. by constructor.
    + match type of Es with context [resync ?y] => pose proof (Hresync y); destruct (resync y) end. by injection Es as <- <-.
  - left. pose proof (Hresync (w_sub w)) as H. by rewrite Es in H.
  - left. pose proof (Hresync (w_sub w)) as H. by rewrite Es in H.
  - unfold on_budget_available in Es. pose proof (wi_state _ Hi) as Hst.
    destruct (su_budget (w_sub w)); try (left; injection Es as <- <-; by repeat constructor).
    destruct (_ =? _); [|left; injection Es as <- <-; by repeat constructor].
    right. injection Es as <- <-. destruct Hst as [_ Hq]. by apply Hdone.
  - left. unfold on_frame_written in Es. destruct (_ || _); [injection Es as <- <-; constructor|].
    destruct (su_budget (w_sub w)); injection Es as <- <-; by repeat constructor.
  - left. unfold on_buffer_released in Es. destruct (remove_first r _); [injection Es as <- <-; by repeat constructor|].
    destruct (negb _); [injection Es as <- <-; constructor|].
    destruct (su_budget (w_sub w)); try (injection Es as <- <-; by repeat constructor).
    destruct (su_resync_pending (w_sub w)); injection Es as <- <-; by repeat constructor.
  - left. unfold on_deadline in Es. destruct (matches _ _ _); [|injection Es as <- <-; constructor].
    pose proof (Hclose (w_sub w)). destruct (Subscription.close (w_sub w)). injection Es as <- <-. by constructor.
  - left. pose proof (Hclose (w_sub w)) as H. by rewrite Es in H.
  - unfold drain_to_wire in Es. destruct (_ || _) eqn:Ep; [left; injection Es as <- <-; constructor|].
    apply orb_false_iff in Ep as [Ep Ecl]. right. apply Hdone; destruct (Replica.merge _); by injection Es as <- <-.
Qed.

(** ** Lemmas: event ids of the terminal *)

Lemma push_rows_event rows t : ht_next_event_id (push_back_rows rows t) = ht_next_event_id t.
Proof. unfold push_back_rows. revert t. induction rows as [|r rows IH]; intros t; [done|]. cbn [foldl]. by rewrite IH. Qed.

Lemma pop_row_event t : ht_next_event_id (pop_front_row t) = ht_next_event_id t.
Proof. unfold pop_front_row. by destruct (ht_row_bytes t). Qed.

Lemma rebuild_event b t : ht_next_event_id (rebuild b t) = ht_next_event_id t.
Proof.
  unfold rebuild. destruct (read_screen _ _) as [s links]. destruct b; [|done].
  destruct (read_scrollback _ _ _) as [rows links2]. cbn. by rewrite push_rows_event.
Qed.

Lemma follow_event step t : let '(t', _, _, _) := follow step t in ht_next_event_id t' = ht_next_event_id t.
Proof.
  destruct step as [ev ap|]; [|apply rebuild_event]. unfold follow, pop_evicted. set (t0 := with_trimmed _ t).
  assert (∀ k, ht_next_event_id (Nat.iter k pop_front_row t0) = ht_next_event_id t) as Hp.
  { intros k. induction k as [|k IH]; [done|]. by rewrite Nat.iter_succ, pop_row_event. }
  destruct (read_scrollback _ _ _) as [rows links].
  destruct (negb _); rewrite rebuild_event, push_rows_event; apply Hp.
Qed.

Lemma trim_event fuel fixed t : ht_next_event_id (trim_loop fuel fixed t).1 = ht_next_event_id t.
Proof.
  revert t. induction fuel as [|fuel IH]; intros t; [done|]. cbn [trim_loop]. destruct (_ && _); [|done]. cbn [fst].
  rewrite IH. apply pop_row_event.
Qed.

Lemma split_event fx next : 0 <= next <= u64_max → 0 <= (split_effects fx next).2 <= u64_max.
Proof.
  revert next. induction fx as [|[b|k] fx IH]; intros next Hn; [done| |]; cbn.
  - specialize (IH next Hn). by destruct (split_effects fx next) as [[? ?] ?].
  - specialize (IH (add64 next 1) (wrap64_range _)). by destruct (split_effects fx (add64 next 1)) as [[? ?] ?].
Qed.

Lemma call_event xxh v cbs tr t t' a :
  terminal_call xxh v cbs tr t = Some (t', a) → 0 <= ht_next_event_id t <= u64_max → 0 <= ht_next_event_id t' <= u64_max.
Proof.
  intros Hc Ht. unfold terminal_call in Hc. apply bind_Some in Hc as ([e step] & _ & Hc). injection Hc as Hc.
  unfold advance in Hc. pose proof (follow_event step (with_engine e t)) as Hf.
  destruct (follow step (with_engine e t)) as [[[t1 app] ev] rw]. cbn [take_effects] in Hc.
  pose proof (split_event (ve_effects (ht_engine t1)) (ht_next_event_id t1)) as Hs.
  destruct (split_effects _ _) as [[replies ui] next]. unfold enforce_limit in Hc.
  match type of Hc with context [trim_loop ?f ?x ?y] => pose proof (trim_event f x y) as Htr; destruct (trim_loop f x y) as [t3 b] end.
  injection Hc as <- _. cbn in *. rewrite Htr. apply Hs. by rewrite Hf.
Qed.

(** ** Subscriptions of a session *)

Section sync.
Context (xxh3_128 : list byte → Z).
#[local] Abbreviation deliver := (deliver xxh3_128).

(** Subscription [i] with its client, against a terminal state. *)
Record link (inc : Uuid) (n : Z) (rev : Z) (rep : Replica) (line : Z) (i : Z) (c : ReplicaClient) (x : Subscription) : Prop := {
  lk_world : world_inv (mk_World x rev rep line (cview c));
  lk_sync : synced i inc (su_next_snapshot_id x) c;
  lk_addr : sub_addr i x;
  lk_room : su_next_snapshot_id x <= n;
}.

Lemma link_mono inc n m rev rep line i c x : n <= m → link inc n rev rep line i c x → link inc m rev rep line i c x.
Proof. intros Hn []. split; try done. lia. Qed.

(** What a client holds is what the terminal showed at that revision. *)
Definition authentic (inc : Uuid) (H : gmap Z Replica) (c : ReplicaClient) : Prop :=
  rc_incarnation c = inc ∧ ∀ r, rc_replica c = Some r → H !! rc_local_revision c = Some r.

(** The state of a session, for the subscriptions. *)
Definition state_of (s : Session) : Z * Replica * Z :=
  (se_revision s, ht_replica (se_term s), ht_next_line_id (se_term s)).

(** Event [e] happens to every subscription of [ids]; those links that are not in
    [ids] are with the current state of the session already. *)
Definition ready_for (n : Z) (ids : list Z) (e : Z → WEvent) (s : Session) (cl : Z → ReplicaClient) : Prop :=
  ∀ i x, se_subs s !! i = Some x →
    if decide (i ∈ ids) then
      ∃ rev rep line, link (se_incarnation s) n rev rep line i (cl i) (sub_s x) ∧
        valid (e i) (mk_World (sub_s x) rev rep line (cview (cl i))) ∧
        host_step (e i) (mk_World (sub_s x) rev rep line (cview (cl i))) = state_of s
    else link (se_incarnation s) (n + 1) (se_revision s) (ht_replica (se_term s)) (ht_next_line_id (se_term s)) i (cl i) (sub_s x).

(** The result of a loop over subscriptions. *)
Record linked (n : Z) (ids : list Z) (e : Z → WEvent) (s s' : Session) (H : gmap Z Replica) (cl cl' : Z → ReplicaClient) : Prop := {
  ld_frame : ∃ m, s' = with_subs m s;
  ld_links : ∀ i x, se_subs s' !! i = Some x →
    link (se_incarnation s) (n + 1) (se_revision s) (ht_replica (se_term s)) (ht_next_line_id (se_term s)) i (cl' i) (sub_s x);
  ld_from : ∀ i x', se_subs s' !! i = Some x' → ∃ x, se_subs s !! i = Some x ∧
    sub_s x' = if decide (i ∈ ids) then (sub_step (e i) (se_revision s) (sub_s x)).1 else sub_s x;
  ld_auth : ∀ i, authentic (se_incarnation s) H (cl i) → authentic (se_incarnation s) H (cl' i);
}.

Context (env : Env).
#[local] Abbreviation on_sub := (on_sub xxh3_128 env).

Lemma on_sub_link n id e s cl H x rev rep line s' out :
  se_subs s !! id = Some x → n < u64_max → body_ok xxh3_128 s → H !! se_revision s = Some (ht_replica (se_term s)) →
  link (se_incarnation s) n rev rep line id (cl id) (sub_s x) →
  valid e (mk_World (sub_s x) rev rep line (cview (cl id))) →
  host_step e (mk_World (sub_s x) rev rep line (cview (cl id))) = state_of s →
  on_sub id (sub_step e (se_revision s)) None s = (s', out) →
  ∃ m, s' = with_subs m s ∧ (∀ j, j ≠ id → m !! j = se_subs s !! j ∧ deliver j out (cl j) = cl j) ∧
    (∀ x', m !! id = Some x' →
      link (se_incarnation s) (n + 1) (se_revision s) (ht_replica (se_term s)) (ht_next_line_id (se_term s)) id
        (deliver id out (cl id)) (sub_s x') ∧
      sub_s x' = (sub_step e (se_revision s) (sub_s x)).1) ∧
    (authentic (se_incarnation s) H (cl id) → authentic (se_incarnation s) H (deliver id out (cl id))).
Proof.
  intros Hx Hn Hb Hh [Hw Hsy Ha Hro] Hv Hhs Hon.
  destruct (world_step_inv _ _ Hw Hv) as (w' & Hstep & Hw').
  pose proof (loud_step _ _ _ Hw Hv Hstep) as Hloud.
  unfold world_step in Hstep. rewrite Hhs in Hstep, Hloud. unfold state_of in *. cbn [fst w_sub] in *.
  destruct (sub_step e (se_revision s) (sub_s x)) as [σ fx] eqn:Es. apply bind_Some in Hstep as (v & Hv' & E).
  injection E as <-. cbn [w_client] in *.
  pose proof (sub_step_keeps e (se_revision s) (sub_s x) id Ha ltac:(lia)) as Hk. rewrite Es in Hk.
  destruct Hk as (Ha' & Hsub & Hatt & Hsh). cbn [fst snd] in *.
  destruct (on_sub_spec xxh3_128 env id _ s x σ fx Hx Es Hsh) as (x' & out' & Eo & Sx & Cx & Ho & Hd).
  rewrite Hon in Eo. injection Eo as -> <-.
  destruct (Hd (cl id) v Hb Hsy Hv') as (Hsy' & Hcv & Hsil).
  eexists. split; [done|]. split; [|split].
  - intros j Hj. split; [destruct (gone σ); [by rewrite lookup_delete_ne|by rewrite lookup_insert_ne]|]. by apply Ho.
  - intros x2 Hx2. destruct (gone σ); [by rewrite lookup_delete_eq in Hx2|]. rewrite lookup_insert_eq in Hx2. injection Hx2 as <-.
    rewrite Sx. split; [|done]. split; [by rewrite Hcv|done|done|].
    destruct Hsh as [_ [(? & ? & _ & _ & _ & Hnx)|[_ Hnx]]]; rewrite Hnx; lia.
  - intros [Hinc Hau]. destruct Hloud as [Hl|Hl]; [by rewrite Hsil|]. cbn [snd w_client w_rev w_rep] in Hl. rewrite Hl in Hcv.
    split; [apply Hsy'|]. unfold cview in Hcv. destruct (rc_awaiting_first _); [done|].
    intros r Hr. rewrite Hr in Hcv. injection Hcv as -> ->. done.
Qed.

(** A loop over subscriptions, each visited once. *)
Lemma subs_loop n ids e s cl H s' out :
  NoDup ids → n < u64_max → body_ok xxh3_128 s → H !! se_revision s = Some (ht_replica (se_term s)) →
  ready_for n ids e s cl →
  for_each ids (λ id, on_sub id (sub_step (e id) (se_revision s)) None) s = (s', out) →
  linked n ids e s s' H cl (λ i, deliver i out (cl i)).
Proof.
  revert s cl s' out. induction ids as [|id ids IH]; intros s cl s' out Hnd Hn Hb Hh Hr Hf.
  { injection Hf as <- <-. split.
    - exists (se_subs s). by rewrite with_subs_eta.
    - intros i x Hx. apply (Hr i x Hx).
    - intros i x Hx. exists x. split; [done|]. by rewrite decide_False by apply not_elem_of_nil.
    - done. }
  apply NoDup_cons in Hnd as [Hni Hnd]. rewrite for_each_cons in Hf.
  destruct (on_sub id (sub_step (e id) (se_revision s)) None s) as [s1 o1] eqn:E1.
  assert (∃ m, s1 = with_subs m s ∧ (∀ j, j ≠ id → m !! j = se_subs s !! j ∧ deliver j o1 (cl j) = cl j) ∧
    (∀ x', m !! id = Some x' → link (se_incarnation s) (n + 1) (se_revision s) (ht_replica (se_term s))
        (ht_next_line_id (se_term s)) id (deliver id o1 (cl id)) (sub_s x') ∧ ∃ x, se_subs s !! id = Some x ∧
      sub_s x' = (sub_step (e id) (se_revision s) (sub_s x)).1) ∧
    (authentic (se_incarnation s) H (cl id) → authentic (se_incarnation s) H (deliver id o1 (cl id))))
    as (m & -> & Hoth & Hid & Hau).
  { destruct (se_subs s !! id) as [x|] eqn:Hx.
    - specialize (Hr id x Hx). rewrite decide_True in Hr by (by left). destruct Hr as (rev & rep & line & Hl & Hv & Hhs).
      destruct (on_sub_link n id (e id) s cl H x rev rep line s1 o1 Hx Hn Hb Hh Hl Hv Hhs E1) as (m & -> & H1 & H2 & H3).
      exists m. split; [done|]. split; [done|]. split; [|done]. intros x' Hx'. destruct (H2 x' Hx'). eauto.
    - rewrite on_sub_none in E1 by done. injection E1 as <- <-. exists (se_subs s). rewrite with_subs_eta.
      split; [done|]. split; [done|]. split; [|done]. by rewrite Hx. }
  destruct (for_each ids _ (with_subs m s)) as [s2 o2] eqn:E2. injection Hf as <- <-.
  destruct (IH (with_subs m s) (λ i, deliver i o1 (cl i)) s2 o2 Hnd Hn Hb Hh) as [[m2 ->] L2 F2 A2].
  { intros j x Hj. cbn [se_subs with_subs se_incarnation se_revision se_term state_of] in *.
    destruct (decide (j = id)) as [->|Hne].
    - rewrite decide_False by done. by apply Hid.
    - destruct (Hoth j Hne) as [Ej Dj]. rewrite Ej in Hj. specialize (Hr j x Hj). rewrite Dj.
      destruct (decide (j ∈ ids)); [rewrite decide_True in Hr by (by right)|rewrite decide_False in Hr by (by intros [|]%elem_of_cons)]; exact Hr. }
  { exact E2. }
  split.
  - by exists m2.
  - intros i x Hx. rewrite deliver_app. by apply L2.
  - intros i x' Hx'. destruct (F2 i x' Hx') as (x1 & Hx1 & E3). cbn in Hx1. destruct (decide (i = id)) as [->|Hne].
    + destruct (Hid x1 Hx1) as (_ & x & Hx & E4). exists x. split; [done|]. rewrite decide_False in E3 by done.
      rewrite decide_True by (by left). congruence.
    + destruct (Hoth i Hne) as [Ei _]. rewrite Ei in Hx1. exists x1. split; [done|]. rewrite E3.
      destruct (decide (i ∈ ids)); [by rewrite decide_True by (by right)|by rewrite decide_False by (by intros [|]%elem_of_cons)].
  - intros i Hi. rewrite deliver_app. apply A2. destruct (decide (i = id)) as [->|Hne]; [by apply Hau|].
    by rewrite (proj2 (Hoth i Hne)).
Qed.
End sync.

(** ** The invariant *)

Record core (n : Z) (s : Session) (H : gmap Z Replica) : Prop := {
  co_term : term_ok (se_term s) ∧ clean (se_term s) ∧ 0 <= ht_next_event_id (se_term s) <= u64_max;
  co_rev : 1 <= se_revision s <= n;
  co_hist : H !! se_revision s = Some (ht_replica (se_term s));
  co_past : ∀ r, is_Some (H !! r) → r <= se_revision s;
  co_ledger : ∃ g, ledger_ok n (se_ledger s) g;
  co_next : 1 <= se_next_sub_id s <= n;
  co_exit : ∀ info, se_pending_exit s = Some info → wf c_ExitInfo info = true;
}.

Record sess_inv (n : Z) (s : Session) (H : gmap Z Replica) (cl : Z → ReplicaClient) : Prop := {
  si_core : core n s H;
  si_links : ∀ i x, se_subs s !! i = Some x →
    link (se_incarnation s) n (se_revision s) (ht_replica (se_term s)) (ht_next_line_id (se_term s)) i (cl i) (sub_s x) ∧
    0 < i < se_next_sub_id s;
  si_auth : ∀ i, authentic (se_incarnation s) H (cl i);
}.

(** Actions the invariant does not see. *)
Definition same_core (s s' : Session) : Prop :=
  se_term s' = se_term s ∧ se_revision s' = se_revision s ∧ se_ledger s' = se_ledger s ∧ se_subs s' = se_subs s ∧
  se_next_sub_id s' = se_next_sub_id s ∧ se_incarnation s' = se_incarnation s ∧ se_pending_exit s' = se_pending_exit s.
Lemma same_core_trans s1 s2 s3 : same_core s1 s2 → same_core s2 s3 → same_core s1 s3.
Proof. unfold same_core. intros (? & ? & ? & ? & ? & ? & ?) (? & ? & ? & ? & ? & ? & ?). split_and!; congruence. Qed.
Definition neutral (xxh3_128 : list byte → Z) (out : list SessOut) : Prop := ∀ i c, deliver xxh3_128 i out c = c.

Lemma neutral_nil xxh : neutral xxh [].
Proof. done. Qed.
Lemma neutral_app xxh o1 o2 : neutral xxh o1 → neutral xxh o2 → neutral xxh (o1 ++ o2).
Proof. intros H1 H2 i c. by rewrite deliver_app, H1, H2. Qed.

Lemma inv_mono n m s H cl : n <= m → sess_inv n s H cl → sess_inv m s H cl.
Proof.
  intros Hn [[] Hl Ha]. split; [split; try done; try lia| |done].
  - destruct co_ledger0 as [g Hg]. exists g. by apply (ledger_ok_weaken n).
  - intros i x Hx. destruct (Hl i x Hx). split; [by apply (link_mono _ n)|done].
Qed.

Lemma inv_same xxh n s s' H cl out :
  sess_inv n s H cl → same_core s s' → neutral xxh out → sess_inv n s' H (λ i, deliver xxh i out (cl i)).
Proof.
  intros [[] Hl Ha] (E1 & E2 & E3 & E4 & E5 & E6 & E7) Ho. split.
  - split; rewrite ?E1, ?E2, ?E3, ?E5, ?E7; done.
  - rewrite E4. intros i x Hx. rewrite Ho, E1, E2, E5, E6. by apply Hl.
  - intros i. rewrite Ho, E6. apply Ha.
Qed.

Lemma inv_ext n s H cl cl' : sess_inv n s H cl → (∀ i, cl' i = cl i) → sess_inv n s H cl'.
Proof.
  intros [Hc Hl Ha] He. split; [done| |].
  - intros i x Hx. rewrite He. by apply Hl.
  - intros i. rewrite He. apply Ha.
Qed.

(** An action the invariant does not see, after other outputs. *)
Lemma inv_then xxh n s s' H cl o1 o2 :
  sess_inv n s H (λ i, deliver xxh i o1 (cl i)) → same_core s s' → neutral xxh o2 →
  sess_inv n s' H (λ i, deliver xxh i (o1 ++ o2) (cl i)).
Proof.
  intros Hi Hs Ho. eapply inv_ext; [exact (inv_same xxh n s s' H _ o2 Hi Hs Ho)|]. intros i. apply deliver_app.
Qed.

Lemma inv_ledger xxh n s l H cl out :
  sess_inv n s H cl → (∃ g, ledger_ok n l g) → neutral xxh out →
  sess_inv n (with_ledger l s) H (λ i, deliver xxh i out (cl i)).
Proof.
  intros [[] Hl Ha] Hg Ho. split; [by split| |].
  - intros i x Hx. rewrite Ho. by apply Hl.
  - intros i. rewrite Ho. apply Ha.
Qed.

Lemma authentic_mono inc H H' c : H ⊆ H' → authentic inc H c → authentic inc H' c.
Proof. intros Hs [H1 H2]. split; [done|]. intros r Hr. eapply lookup_weaken; eauto. Qed.

Lemma core_body xxh n s H : core n s H → n <= u64_max → body_ok xxh s.
Proof.
  intros [(Ht & Hc & He) Hr _ _ _ _ _] Hn x. destruct Ht as (Hi & Hl & Hf). unfold snapshot_body.
  pose proof (terminal_encoded_fits _ Hi Hf) as Hfit. pose proof (body_wf _ Hi Hl) as Hw. split.
  - cbn [wf c_Body body_revision body_state_digest body_next_ui_event_id body_ui_event_gap body_state].
    rewrite Hw. unfold state_digest. cbn [wf c_u64 c_digest c_bool]. rewrite zlen_to_be. unfold is_u64, in_range, u64_max in *.
    rewrite !andb_true_iff, !Z.leb_le. split_and!; try done; lia.
  - cbn [enc c_Body body_revision body_state_digest body_next_ui_event_id body_ui_event_gap body_state].
    rewrite !zlen_app. unfold state_digest. cbn [enc c_u64 c_digest c_bool]. unfold put_raw, put_u64. rewrite !zlen_to_be.
    assert (∀ b, zlen (put_bool b) = 1) as -> by (by intros []). unfold encoded_len, MAX_BODY in *; unfold S_MAX in *. lia.
Qed.

(** ** Publishing *)

Section publish.
Context (xxh3_128 : list byte → Z) (env : Env).
#[local] Abbreviation deliver := (deliver xxh3_128).

Lemma replies_loop n l s g :
  ledger_ok n (se_ledger s) g → Forall (λ r, zlen r <= 2 ^ 62) l →
  ∃ led, for_each l (λ r, update (λ s, with_ledger (push_vt_reply r (se_ledger s)).1 s)) s = (with_ledger led s, []) ∧
    ledger_ok n led g.
Proof.
  revert s. induction l as [|r l IH]; intros s Hg Hl; [exists (se_ledger s); split; [by destruct s|done]|].
  apply Forall_cons in Hl as [Hr Hl]. rewrite for_each_cons. cbn [update].
  destruct (IH (with_ledger (push_vt_reply r (se_ledger s)).1 s)) as (led & E & Hled); [|done|].
  { cbn. apply vt_reply_ok; [done|]. unfold VT_REPLY_LIMIT, u64_max. lia. }
  exists led. rewrite E. split; [done|done].
Qed.

Lemma pump_same s : same_core s (pump_write env s).1 ∧ neutral xxh3_128 (pump_write env s).2.
Proof. unfold pump_write. repeat case_match; split; done. Qed.

Lemma schedule_same s : same_core s (schedule_flush s).1 ∧ neutral xxh3_128 (schedule_flush s).2.
Proof. unfold schedule_flush. case_match; split; done. Qed.

Lemma compress_same s : same_core s (compress_on_output env s).1 ∧ neutral xxh3_128 (compress_on_output env s).2.
Proof. unfold compress_on_output. destruct (Compress.on_output _ _) as [t [d|]]; split; done. Qed.

Lemma sub_ids_spec s i : i ∈ sub_ids s ↔ is_Some (se_subs s !! i).
Proof. apply elem_of_bt_keys. Qed.
Lemma sub_ids_NoDup s : NoDup (sub_ids s).
Proof. apply NoDup_bs_iter. Qed.

(** All subscriptions see event [e], which takes the terminal's old state to the
    session's current one. *)
Lemma all_subs n s H cl e s' out rev rep line :
  n < u64_max → core (n + 1) s H →
  (∀ i x, se_subs s !! i = Some x → 0 < i < se_next_sub_id s ∧
     link (se_incarnation s) n rev rep line i (cl i) (sub_s x) ∧
     valid e (mk_World (sub_s x) rev rep line (cview (cl i))) ∧
     host_step e (mk_World (sub_s x) rev rep line (cview (cl i))) = state_of s) →
  (∀ i, authentic (se_incarnation s) H (cl i)) →
  for_each (sub_ids s) (λ id, on_sub xxh3_128 env id (sub_step e (se_revision s)) None) s = (s', out) →
  (∃ m, s' = with_subs m s) ∧ sess_inv (n + 1) s' H (λ i, deliver i out (cl i)).
Proof.
  intros Hn Hc Hl Ha Hf.
  destruct (subs_loop xxh3_128 env n (sub_ids s) (λ _, e) s cl H s' out (sub_ids_NoDup s) Hn) as [[m ->] L F A].
  - apply (core_body _ (n + 1) _ H); [done|lia].
  - apply Hc.
  - intros i x Hx. rewrite decide_True by (apply sub_ids_spec; eauto). destruct (Hl i x Hx) as (_ & ? & ? & ?). eauto 10.
  - exact Hf.
  - split; [by exists m|]. split; [by destruct Hc|..].
    + intros i x Hx. split; [by apply L|]. destruct (F i x Hx) as (x0 & Hx0 & _). apply (Hl i x0 Hx0).
    + intros i. apply A, Ha.
Qed.

(** The delta that is published. *)
Lemma set_revisions_step base new r c d r' c' :
  delta_step r c d r' c' → delta_step r c (set_revisions base new d) r' c'.
Proof. intros ([] & Hw & Hf). by split. Qed.

Lemma delta_len_revisions i base new d :
  delta_encoded_len (set_subscription_id i (set_revisions base new d)) = delta_encoded_len d.
Proof.
  unfold delta_encoded_len. cbn [enc c_Delta set_subscription_id set_revisions delta_subscription_id delta_base_revision
    delta_new_revision delta_size delta_cursor delta_modes delta_palette delta_title delta_dirty_rows delta_hyperlinks_added
    delta_scrollback_appended delta_scrollback_evicted_before delta_exit_info delta_ui_events].
  rewrite !zlen_app. cbn [enc c_u64]. unfold put_u64. by rewrite !zlen_to_be.
Qed.

(** A delta without changes keeps the state. *)
Lemma unchanged_state r c d r' c' :
  wf_replica r → delta_step r c d r' c' → state_changed d = false → r' = r.
Proof.
  intros Hw (Hd & Hw' & _) Hs. pose proof (apply_delta_rel d r r' Hw Hw' Hd) as Ha. unfold state_changed in Hs.
  repeat (apply orb_false_iff in Hs as [Hs ?]). rewrite bool_decide_eq_false in *.
  destruct d as [? ? ? sz cu mo pa ti dr ha sa se ex ui]. cbn in *.
  assert (sz = None) as -> by (destruct sz; [exfalso; eauto|done]).
  assert (cu = None) as -> by (destruct cu; [exfalso; eauto|done]).
  assert (mo = None) as -> by (destruct mo; [exfalso; eauto|done]).
  assert (pa = None) as -> by (destruct pa; [exfalso; eauto|done]).
  assert (ti = None) as -> by (destruct ti; [exfalso; eauto|done]).
  assert (se = None) as -> by (destruct se; [exfalso; eauto|done]).
  assert (ex = None) as -> by (destruct ex; [exfalso; eauto|done]).
  assert (dr = []) as -> by (by destruct dr; [|exfalso; auto]).
  assert (ha = []) as -> by (by destruct ha; [|exfalso; auto]).
  assert (sa = []) as -> by (by destruct sa; [|exfalso; auto]).
  unfold apply_delta in Ha. cbn in Ha. injection Ha as <-. rewrite prune_wf; [by destruct r|apply Hw].
Qed.
(** The terminal moved on: its new state is entered into the history. *)
Lemma core_next n s H s' :
  core n s H → term_ok (se_term s') → clean (se_term s') → 0 <= ht_next_event_id (se_term s') <= u64_max →
  (se_revision s' = se_revision s + 1 ∨ se_revision s' = se_revision s ∧ ht_replica (se_term s') = ht_replica (se_term s)) →
  (∃ g, ledger_ok (n + 1) (se_ledger s') g) → se_next_sub_id s' = se_next_sub_id s →
  (se_pending_exit s' = se_pending_exit s) →
  core (n + 1) s' (<[se_revision s' := ht_replica (se_term s')]> H) ∧ H ⊆ <[se_revision s' := ht_replica (se_term s')]> H.
Proof.
  intros [] Ht Hc He Hr Hg Hn Hp. split.
  - split; try done.
    + lia.
    + by rewrite lookup_insert_eq.
    + intros r Hs. destruct (decide (r = se_revision s')) as [->|Hne]; [lia|]. rewrite lookup_insert_ne in Hs by done.
      specialize (co_past0 r Hs). lia.
    + lia.
    + by rewrite Hp.
  - destruct Hr as [Hr|[Hr Hrep]].
    + apply insert_subseteq. destruct (H !! se_revision s') eqn:E; [|done]. specialize (co_past0 (se_revision s') ltac:(eauto)). lia.
    + rewrite Hr, Hrep, insert_id by done. done.
Qed.

Lemma wf_current t : term_ok t → clean t → wf_replica (ht_replica t) ∧ ∀ p, p ∈ rp_scrollback (ht_replica t) → p.1 < ht_next_line_id t.
Proof.
  intros (Hi & Hn & _) Hc. split; [rewrite <- (clean_pruned t Hc); by apply pruned_wf|].
  intros p Hp. apply (scroll_contiguous _ _ (ti_scroll _ Hi)) in Hp. lia.
Qed.

(** What [publish] is given: the terminal after a call, and what the call reports. *)
Record published (t t' : HostTerminal) (a : Advance) : Prop := {
  pb_term : term_ok t' ∧ clean t' ∧ 0 <= ht_next_event_id t' <= u64_max;
  pb_line : ht_next_line_id t <= ht_next_line_id t';
  pb_delta : ad_rewritten a = false → ∃ d, ad_delta a = Some d ∧ delta_encoded_len d <= 2 ^ 62 ∧
    delta_step (ht_replica t) (ht_next_line_id t) d (ht_replica t') (ht_next_line_id t');
  pb_replies : Forall (λ r, zlen r <= 2 ^ 62) (ad_vt_replies a);
}.

Lemma push_delta_inv n s s0 H cl d s' out :
  n < u64_max → sess_inv n s H cl → core (n + 1) s0 (<[se_revision s0 := ht_replica (se_term s0)]> H) →
  H ⊆ <[se_revision s0 := ht_replica (se_term s0)]> H →
  se_subs s0 = se_subs s → se_incarnation s0 = se_incarnation s → se_next_sub_id s0 = se_next_sub_id s →
  delta_step (ht_replica (se_term s)) (ht_next_line_id (se_term s)) d (ht_replica (se_term s0)) (ht_next_line_id (se_term s0)) →
  delta_encoded_len d <= 2 ^ 62 →
  push_delta xxh3_128 env (set_revisions (se_revision s) (se_revision s0) d) s0 = (s', out) →
  se_term s' = se_term s0 ∧ se_revision s' = se_revision s0 ∧
  sess_inv (n + 1) s' (<[se_revision s0 := ht_replica (se_term s0)]> H) (λ i, deliver i out (cl i)).
Proof.
  intros Hn Hi Hc Hsub Es Ei En Hd Hlen Hp. unfold push_delta, andthen in Hp.
  set (d' := set_revisions (se_revision s) (se_revision s0) d) in *.
  destruct (for_each (sub_ids s0) _ s0) as [s1 o1] eqn:E1.
  destruct (all_subs n s0 (<[se_revision s0 := ht_replica (se_term s0)]> H) cl
    (WPush d' (ht_replica (se_term s0)) (ht_next_line_id (se_term s0))) s1 o1
    (se_revision s) (ht_replica (se_term s)) (ht_next_line_id (se_term s))) as [[m ->] Hi1]; try done.
  - rewrite Es, Ei, En. intros i x Hx. destruct (si_links _ _ _ _ Hi i x Hx) as [Hl Hr]. split; [done|]. split; [done|].
    split; [|done]. cbn [valid w_rep w_line w_rev w_sub]. split; [by apply set_revisions_step|]. split; [done|].
    unfold d'. rewrite delta_len_revisions. unfold u64_max, QUEUE_BYTES_LIMIT. lia.
  - rewrite Ei. intros i. eapply authentic_mono; [exact Hsub|]. apply Hi.
  - destruct (schedule_same (with_subs m s0)) as [Hsame Hneu]. destruct (schedule_flush _) as [s2 o2]. injection Hp as <- <-. cbn [fst snd] in *.
    split; [by destruct Hsame as (-> & _)|]. split; [by destruct Hsame as (_ & -> & _)|]. by eapply inv_then.
Qed.

Lemma publish_inv n s H cl t' a s' out :
  n < u64_max → sess_inv n s H cl → published (se_term s) t' a → publish xxh3_128 env a (with_term t' s) = (s', out) →
  se_term s' = t' ∧ H ⊆ <[se_revision s' := ht_replica t']> H ∧
  sess_inv (n + 1) s' (<[se_revision s' := ht_replica t']> H) (λ i, deliver i out (cl i)).
Proof.
  intros Hn Hi [(Ht & Hcl & Hev) Hline Hd Hr] Hp. pose proof (si_core _ _ _ _ Hi) as Hc.
  destruct (co_ledger _ _ _ Hc) as [g Hg]. unfold publish, andthen in Hp.
  destruct (replies_loop n (ad_vt_replies a) (with_term t' s) g Hg Hr) as (led & El & Hled). rewrite El in Hp.
  set (s1 := with_ledger led (with_term t' s)) in *.
  destruct (pump_same s1) as [Hs2 Hn2]. destruct (pump_write env s1) as [s2 o2]. cbn [fst snd] in Hs2, Hn2.
  destruct Hs2 as (T1 & T2 & T3 & T4 & T5 & T6 & T7). cbn in T1, T2, T3, T4, T5, T6, T7.
  pose proof (co_rev _ _ _ Hc) as Hrev. destruct (wf_current t' Ht Hcl) as [Hw Hids].
  assert (∃ g, ledger_ok (n + 1) led g) as Hled' by (exists g; apply (ledger_ok_weaken n); [lia|done]).
  assert (∀ s'' o'', se_term s'' = t' → H ⊆ <[se_revision s'' := ht_replica t']> H →
    sess_inv (n + 1) s'' (<[se_revision s'' := ht_replica t']> H) (λ i, deliver i o'' (cl i)) →
    (s'', [] ++ o2 ++ o'') = (s', out) → se_term s' = t' ∧ H ⊆ <[se_revision s' := ht_replica t']> H ∧
    sess_inv (n + 1) s' (<[se_revision s' := ht_replica t']> H) (λ i, deliver i out (cl i))) as Hfin.
  { intros s'' o'' E1 E2 E3 [= <- <-]. split; [done|]. split; [done|]. eapply inv_ext; [exact E3|].
    intros i. cbn beta. rewrite deliver_app, Hn2. done. }
  destruct (ad_rewritten a) eqn:Erw.
  - set (s3 := with_revision (add64 (se_revision s2) 1) s2) in *.
    assert (se_revision s3 = se_revision s + 1) as R3 by (cbn; rewrite T2, add64_id; unfold u64_max in *; lia).
    destruct (core_next n s H s3 Hc) as [Hc3 Hsub]; try (cbn [s3 with_revision se_term se_ledger]; rewrite ?T1, ?T3; done); [by left|].
    change (se_term s3) with (se_term s2) in Hc3, Hsub. rewrite T1 in Hc3, Hsub.
    destruct (for_each (sub_ids s3) _ s3) as [s4 o4] eqn:E4.
    destruct (all_subs n s3 (<[se_revision s3 := ht_replica t']> H) cl (WRewrite (ht_replica t') (ht_next_line_id t')) s4 o4
      (se_revision s) (ht_replica (se_term s)) (ht_next_line_id (se_term s))) as [[m ->] Hi4]; try done.
    + change (se_subs s3) with (se_subs s2). change (se_incarnation s3) with (se_incarnation s2).
      change (se_next_sub_id s3) with (se_next_sub_id s2). rewrite T4, T5, T6. intros i x Hx.
      destruct (si_links _ _ _ _ Hi i x Hx) as [Hl Hb]. split; [done|]. split; [done|]. split; [done|].
      unfold state_of. cbn [host_step w_rev]. rewrite R3. cbn. by rewrite T1.
    + change (se_incarnation s3) with (se_incarnation s2). rewrite T6. intros i.
      eapply authentic_mono; [exact Hsub|]. apply Hi.
    + by apply (Hfin (with_subs m s3) o4).
  - destruct (Hd eq_refl) as (d & Ed & Hlen & Hstep). rewrite Ed in Hp.
    destruct (wf_current (se_term s)) as [Hw0 _]; [apply Hc..|].
    destruct (negb (state_changed d) && bool_decide (delta_ui_events d = [])) eqn:Eno.
    + apply andb_true_iff in Eno as [Eno _]. apply negb_true_iff in Eno.
      pose proof (unchanged_state _ _ _ _ _ Hw0 Hstep Eno) as Erep.
      destruct (core_next n s H s2 Hc) as [Hc3 Hsub]; rewrite ?T1, ?T3; try done; [by right|]. rewrite T1 in Hc3, Hsub.
      apply (Hfin s2 []); try done. split; [done|..].
      * rewrite T1, T2, T4, T5, T6. intros i x Hx. destruct (si_links _ _ _ _ Hi i x Hx) as [[L1 L2 L3 L4] Hb].
        split; [|done]. split; try done; [|lia]. rewrite Erep. by eapply world_line.
      * rewrite T6. intros i. eapply authentic_mono; [exact Hsub|]. apply Hi.
    + set (s3 := if state_changed d then with_revision (add64 (se_revision s2) 1) s2 else s2) in *.
      assert (se_term s3 = t' ∧ se_ledger s3 = led ∧ se_subs s3 = se_subs s ∧ se_incarnation s3 = se_incarnation s ∧
        se_next_sub_id s3 = se_next_sub_id s ∧ se_pending_exit s3 = se_pending_exit s) as (U1 & U2 & U3 & U4 & U5 & U6)
        by (unfold s3; destruct (state_changed d); cbn; done).
      destruct (core_next n s H s3 Hc) as [Hc3 Hsub]; rewrite ?U1, ?U2; try done.
      { unfold s3. destruct (state_changed d) eqn:Esc; [left; cbn; rewrite T2, add64_id; unfold u64_max in *; lia|].
        right. rewrite T2. split; [done|]. by apply (unchanged_state _ _ _ _ _ Hw0 Hstep). }
      rewrite U1 in Hc3, Hsub. rewrite T2 in Hp.
      destruct (push_delta xxh3_128 env (set_revisions (se_revision s) (se_revision s3) d) s3) as [s4 o4] eqn:E4.
      destruct (push_delta_inv n s s3 H cl d s4 o4) as (V1 & V2 & V3); rewrite ?U1; try done.
      rewrite U1 in V1, V3. rewrite <- V2 in V3, Hsub. by apply (Hfin s4 o4).
Qed.

(** [finish_child] publishes the exit. *)
Definition exit_delta (info : ExitInfo) : Delta :=
  mk_Delta 0 0 0 None None None None None [] [] [] None (Some info) [].

Lemma exit_step t info :
  term_ok t → clean t → wf c_ExitInfo info = true →
  term_ok (set_exit info t) ∧ clean (set_exit info t) ∧
  delta_step (ht_replica t) (ht_next_line_id t) (exit_delta info) (ht_replica (set_exit info t)) (ht_next_line_id t) ∧
  delta_encoded_len (exit_delta info) <= 2 ^ 62.
Proof.
  intros Ht Hc Hw. destruct (term_step_ok (λ _, 0) (TExit info) t Ht Hw) as (t' & E & Ht'). injection E as <-.
  split; [done|]. split; [done|]. destruct (wf_current _ Ht' Hc) as [Hw' _]. destruct (wf_current _ Ht Hc) as [Hw0 Hids].
  split; [split; [|split; [done|]]|].
  - split; [done|by constructor| | | |]; cbn.
    + intros i Hi. unfold build; cbn [foldl]. by rewrite lookup_empty.
    + intros id Hid. unfold collect_links; cbn [foldl]. by rewrite (left_id_L ∅ (∪)).
    + rewrite app_nil_r. apply contiguous_sorted, Hw0.
    + rewrite app_nil_r. clear. induction (rp_scrollback (ht_replica t)) as [|p l IH]; [done|]. rewrite filter_cons_True by done. by f_equal.
  - split; [done|]. split; [by intros p Hp%not_elem_of_nil|done].
  - destruct info as [[c|] [sg|]]; by vm_compute.
Qed.

(** Events of single subscriptions. *)
Definition host_neutral (e : WEvent) : Prop := match e with WPush _ _ _ | WRewrite _ _ => False | _ => True end.

Lemma some_subs n ids e s H cl s' out :
  n < u64_max → sess_inv n s H cl → NoDup ids → (∀ i, host_neutral (e i)) →
  for_each ids (λ id, on_sub xxh3_128 env id (sub_step (e id) (se_revision s)) None) s = (s', out) →
  (∃ m, s' = with_subs m s) ∧ sess_inv (n + 1) s' H (λ i, deliver i out (cl i)).
Proof.
  intros Hn Hi Hnd He Hf. pose proof (si_core _ _ _ _ (inv_mono n (n + 1) s H cl ltac:(lia) Hi)) as Hc.
  destruct (subs_loop xxh3_128 env n ids e s cl H s' out Hnd Hn) as [[m ->] L F A]; try done.
  - apply (core_body _ (n + 1) _ H); [done|lia].
  - apply Hc.
  - intros i x Hx. destruct (si_links _ _ _ _ Hi i x Hx) as [Hl _]. case_decide; [|apply (link_mono _ n); [lia|done]].
    eexists _, _, _. split; [exact Hl|]. specialize (He i). by destruct (e i).
  - split; [by exists m|]. split; [by destruct Hc|..].
    + intros i x Hx. split; [by apply L|]. destruct (F i x Hx) as (x0 & Hx0 & _). apply (si_links _ _ _ _ Hi i x0 Hx0).
    + intros i. apply A, Hi.
Qed.

Lemma one_sub n id e s H cl s' out :
  n < u64_max → sess_inv n s H cl → host_neutral e →
  on_sub xxh3_128 env id (sub_step e (se_revision s)) None s = (s', out) →
  (∃ m, s' = with_subs m s) ∧ sess_inv (n + 1) s' H (λ i, deliver i out (cl i)).
Proof.
  intros Hn Hi He Ho. apply (some_subs n [id] (λ _, e)); try done.
  - apply NoDup_singleton.
  - rewrite for_each_cons, Ho. cbn. by rewrite app_nil_r.
Qed.

(** A subscription that is left alone is visited all the same. *)
Lemma apply_nil id rev s :
  Session.apply xxh3_128 env id [] None s = on_sub xxh3_128 env id (sub_step (WFrame 0 0 false) rev) None s.
Proof.
  unfold on_sub. destruct (se_subs s !! id) as [x|] eqn:Hx; [|done]. cbn.
  assert (with_subs (<[id := set_sub_s (sub_s x) x]> (se_subs s)) s = s) as ->; [|done].
  assert (set_sub_s (sub_s x) x = x) as -> by (by destruct x). by rewrite insert_id, with_subs_eta.
Qed.

Definition flush_event (id : Z) : WEvent := if env_queued env id <? FLUSH_BACKLOG then WDrain else WFrame 0 0 false.

Lemma flush_loop_eq rev ids b s :
  let '(s', out, _) := flush_loop xxh3_128 env ids b s in
  for_each ids (λ id, on_sub xxh3_128 env id (sub_step (flush_event id) rev) None) s = (s', out).
Proof.
  revert b s. induction ids as [|id ids IH]; intros b s; [done|]. cbn [flush_loop]. rewrite for_each_cons.
  assert (∃ b', match se_subs s !! id with
    | Some sub => if env_queued env id <? FLUSH_BACKLOG
        then (on_sub xxh3_128 env id Subscription.drain_to_wire None s, b)
        else (Session.apply xxh3_128 env id [] None s, b || bool_decide (su_queue (sub_s sub) ≠ []))
    | None => (Session.apply xxh3_128 env id [] None s, b) end =
    (on_sub xxh3_128 env id (sub_step (flush_event id) rev) None s, b')) as [b' ->].
  { unfold flush_event. destruct (se_subs s !! id) as [x|] eqn:Hx.
    - destruct (env_queued env id <? FLUSH_BACKLOG); [by exists b|]. rewrite (apply_nil id rev). eauto.
    - rewrite (apply_nil id rev), !on_sub_none by done. eauto. }
  destruct (on_sub _ _ _ _ _ s) as [s1 o1]. specialize (IH b' s1).
  destruct (flush_loop xxh3_128 env ids b' s1) as [[s2 o2] b2]. by rewrite IH.
Qed.

Lemma flush_inv n s H cl s' out :
  n < u64_max → sess_inv n s H cl → flush_deltas xxh3_128 env s = (s', out) →
  se_term s' = se_term s ∧ se_revision s' = se_revision s ∧ sess_inv (n + 1) s' H (λ i, deliver i out (cl i)).
Proof.
  intros Hn Hi Hf. unfold flush_deltas in Hf. pose proof (flush_loop_eq (se_revision s) (sub_ids s) false s) as Hl.
  destruct (flush_loop xxh3_128 env (sub_ids s) false s) as [[s1 o1] b].
  destruct (some_subs n (sub_ids s) flush_event s H cl s1 o1 Hn Hi (sub_ids_NoDup s)) as [[m ->] Hi1]; [|done|].
  { intros i. unfold flush_event. by destruct (_ <? _). }
  assert (same_core (with_subs m s) ((if b then schedule_flush else skip) (with_subs m s)).1 ∧
    neutral xxh3_128 ((if b then schedule_flush else skip) (with_subs m s)).2) as [Hs Ho]
    by (destruct b; [apply schedule_same|done]).
  destruct ((if b then schedule_flush else skip) (with_subs m s)) as [s2 o2]. injection Hf as <- <-. cbn [fst snd] in *.
  split; [apply Hs|]. split; [apply Hs|]. by eapply inv_then.
Qed.

(** Frames that are not for a subscription's client. *)
Definition other_message (m : Message) : Prop :=
  match m with Msg_SubscribeAck _ | Msg_Delta _ | Msg_SnapshotFrame _ => False | _ => True end.

Lemma frame_neutral conn f : other_message (f_message f) → neutral xxh3_128 [OFrame conn f].
Proof. intros Hm i c. cbn. by destruct (f_message f). Qed.

Lemma events_same {A} (l : list A) (f : A → Act) s :
  (∀ x s, same_core s (f x s).1 ∧ neutral xxh3_128 (f x s).2) →
  same_core s (for_each l f s).1 ∧ neutral xxh3_128 (for_each l f s).2.
Proof.
  intros Hf. revert s. induction l as [|x l IH]; intros s; [done|]. rewrite for_each_cons.
  destruct (Hf x s) as [H1 H2]. destruct (f x s) as [s1 o1]. specialize (IH s1). destruct (for_each l f s1) as [s2 o2].
  cbn in *. destruct IH as [H3 H4]. split; [|by apply neutral_app].
  by eapply same_core_trans.
Qed.

Lemma send_holder_same h m s :
  other_message m → same_core s (send_holder h m s).1 ∧ neutral xxh3_128 (send_holder h m s).2.
Proof. intros Hm. unfold send_holder. case_match; [|done]. split; [done|]. by apply frame_neutral. Qed.

Lemma event_to_same conn m s :
  other_message m → same_core s (event_to conn m s).1 ∧ neutral xxh3_128 (event_to conn m s).2.
Proof. intros Hm. split; [done|]. by apply frame_neutral. Qed.

Lemma then_same (a b : Act) s :
  (∀ s, same_core s (a s).1 ∧ neutral xxh3_128 (a s).2) → (∀ s, same_core s (b s).1 ∧ neutral xxh3_128 (b s).2) →
  same_core s (andthen a b s).1 ∧ neutral xxh3_128 (andthen a b s).2.
Proof.
  intros Ha Hb. unfold andthen. destruct (Ha s) as [H1 H2]. destruct (a s) as [s1 o1]. destruct (Hb s1) as [H3 H4].
  destruct (b s1) as [s2 o2]. cbn in *. split; [|by apply neutral_app].
  by eapply same_core_trans.
Qed.

Lemma finish_inv n s H cl s' out :
  n < u64_max → sess_inv n s H cl → finish_child xxh3_128 env None s = (s', out) →
  H ⊆ <[se_revision s' := ht_replica (se_term s')]> H ∧
  sess_inv (n + 1) s' (<[se_revision s' := ht_replica (se_term s')]> H) (λ i, deliver i out (cl i)).
Proof.
  intros Hn Hi Hf. pose proof (si_core _ _ _ _ Hi) as Hc.
  assert (∀ s, (s, []) = (s', out) → sess_inv n s H cl → H ⊆ <[se_revision s' := ht_replica (se_term s')]> H ∧
    sess_inv (n + 1) s' (<[se_revision s' := ht_replica (se_term s')]> H) (λ i, deliver i out (cl i))) as Hskip.
  { intros s0 [= <- <-] Hi0. rewrite insert_id by apply Hi0. split; [done|]. apply (inv_mono n); [lia|done]. }
  unfold finish_child in Hf. destruct (se_exit s); [by apply (Hskip s)|].
  destruct (se_pending_exit s) as [info|] eqn:Ep; [|by apply (Hskip s)]. clear Hskip.
  cbn [with_exit with_term with_ledger with_revision se_revision se_term se_ledger] in Hf.
  set (s0 := with_revision _ _) in Hf.
  pose proof (co_rev _ _ _ Hc) as Hrev. destruct (co_ledger _ _ _ Hc) as [g Hg].
  destruct (co_term _ _ _ Hc) as (Ht & Hcl & Hev).
  destruct (exit_step (se_term s) info Ht Hcl (co_exit _ _ _ Hc _ Ep)) as (Ht' & Hcl' & Hst & Hlen).
  assert (se_revision s0 = se_revision s + 1) as R0 by (cbn; apply add64_id; unfold u64_max in *; lia).
  destruct (core_next n s H s0 Hc) as [Hc0 Hsub]; try done; [by left| |].
  { eexists. apply (ledger_ok_weaken n); [lia|]. exact (on_dead_ok (λ _, 0) n (se_ledger s) g Hg). }
  assert (mk_Delta 0 (sub64 (add64 (se_revision s) 1) 1) (add64 (se_revision s) 1) None None None None None [] [] [] None (Some info) []
    = set_revisions (se_revision s) (se_revision s0) (exit_delta info)) as Ed.
  { cbn. rewrite add64_id, sub64_id by (unfold u64_max in *; lia). unfold set_revisions, exit_delta. cbn. f_equal. lia. }
  rewrite Ed in Hf. unfold andthen at 1 in Hf.
  destruct (push_delta xxh3_128 env _ s0) as [s1 o1] eqn:E1.
  destruct (push_delta_inv n s s0 H cl (exit_delta info) s1 o1) as (V1 & V2 & V3); try done.
  match type of Hf with context [andthen ?a ?b s1] =>
    destruct (then_same a b s1) as [Hs Ho]; [done| |destruct (andthen a b s1) as [s2 o2]] end.
  { intros s2. apply events_same. intros conn s3. by apply event_to_same. }
  injection Hf as <- <-. cbn [fst snd] in *. destruct Hs as (T1 & T2 & T3). rewrite T1, T2, V1, V2. split; [done|].
  eapply inv_then; [exact V3| |done]. by split.
Qed.

(** ** Requests on the leases *)

(** The session after an action on the ledger, its holders or the resize lease. *)
Definition lease_done (n : Z) (s : Session) (r : Session * list SessOut) : Prop :=
  (∃ l, same_core (with_ledger l s) r.1) ∧ (∃ g, ledger_ok n (se_ledger r.1) g) ∧ neutral xxh3_128 r.2.

Lemma lease_inv n s H cl r :
  sess_inv n s H cl → lease_done (n + 1) s r → sess_inv (n + 1) r.1 H (λ i, deliver i r.2 (cl i)).
Proof.
  intros Hi ([l Hs] & Hg & Hn). destruct r as [s' out]. cbn in *.
  assert (se_ledger s' = l) as El by apply Hs. rewrite El in Hg.
  apply (inv_same xxh3_128 (n + 1) (with_ledger l s) s' H cl out); [|done|done].
  eapply inv_ext; [apply (inv_ledger xxh3_128 (n + 1) s l H cl []); [by apply (inv_mono n); [lia|]|done|done]|done].
Qed.

(** Replies after the ledger was updated. *)
Lemma lease_replies n s s1 s2 out :
  (∃ l, same_core (with_ledger l s) s1) → (∃ g, ledger_ok n (se_ledger s1) g) → same_core s1 s2 → neutral xxh3_128 out →
  lease_done n s (s2, out).
Proof.
  intros [l Hl] Hg Hs Hn. split; [exists l; by eapply same_core_trans|]. split; [|done].
  cbn [fst]. by destruct Hs as (_ & _ & -> & _).
Qed.

Lemma fresh_led n scope who rid s :
  (∃ g, ledger_ok n (se_ledger s) g) →
  (∃ l, same_core (with_ledger l s) (lease_fresh scope who rid s).1) ∧ ∃ g, ledger_ok n (se_ledger (lease_fresh scope who rid s).1) g.
Proof.
  intros [g Hg]. unfold lease_fresh. destruct scope.
  - pose proof (fresh_ok n who rid (se_ledger s) g Hg) as Hf. destruct (ledger_fresh who rid (se_ledger s)) as [l ok].
    split; [by exists l|by exists g].
  - destruct (resize_fresh who rid (se_resize s)) as [l ok]. split; [exists (se_ledger s); done|by exists g].
Qed.

Lemma with_ledger_trans s s1 s2 l :
  (∃ l0, same_core (with_ledger l0 s) s1) → same_core (with_ledger l s1) s2 → ∃ l1, same_core (with_ledger l1 s) s2.
Proof.
  intros [l0 (E1 & E2 & E3 & E4 & E5 & E6 & E7)] (F1 & F2 & F3 & F4 & F5 & F6 & F7). exists l. cbn in *.
  unfold same_core. cbn. split_and!; congruence.
Qed.

Lemma reply_same conn rid m s :
  other_message m → same_core s (reply conn rid m s).1 ∧ neutral xxh3_128 (reply conn rid m s).2.
Proof. intros Hm. split; [done|]. by apply frame_neutral. Qed.

Lemma reply_err_same conn rid d t s :
  same_core s (reply_err conn rid d t s).1 ∧ neutral xxh3_128 (reply_err conn rid d t s).2.
Proof. split; [done|]. by apply frame_neutral. Qed.

Lemma skip_same s : same_core s (skip s).1 ∧ neutral xxh3_128 (skip s).2.
Proof. done. Qed.

Lemma acquire_led n conn rid a s :
  n < u64_max → (∃ g, ledger_ok n (se_ledger s) g) → lease_done (n + 1) s (acquire conn rid a s).
Proof.
  intros Hn Hg. unfold acquire. set (who := acq_client_instance_id a). set (s0 := register_holder who conn s).
  destruct (fresh_led n (acq_scope a) who (acq_lease_request_id a) s0 Hg) as [Hs1 [g1 Hg1]].
  destruct (lease_fresh (acq_scope a) who (acq_lease_request_id a) s0) as [s1 ok]. cbn [fst] in *.
  assert (∃ g, ledger_ok (n + 1) (se_ledger s1) g) as Hg1' by (exists g1; apply (ledger_ok_weaken n); [lia|done]).
  destruct ok; cbn [negb]; [|by apply (lease_replies _ _ s1)].
  destruct (acq_scope a).
  - pose proof (acquire_ok n who (se_ledger s1) g1 Hn Hg1) as Hacq. destruct (Input.acquire who (se_ledger s1)) as [l r].
    cbn [fst] in Hacq. assert (∃ l1, same_core (with_ledger l1 s) (with_ledger l s1)) as Hs2
      by (apply (with_ledger_trans s s1 _ l); done).
    destruct r as [gr|e].
    + match goal with |- lease_done _ _ (andthen ?f ?k ?s2) => destruct (then_same f k s2) as [Ha Hb];
        [intros ?; by apply reply_same| |destruct (andthen f k s2) as [s3 o3]] end.
      { intros s3. destruct (gr_revoked gr); [by apply send_holder_same|apply skip_same]. }
      apply (lease_replies _ _ (with_ledger l s1)); try done. by exists g1.
    + match goal with |- lease_done _ _ (reply_err ?c ?i ?d ?t ?s2) => destruct (reply_err_same c i d t s2) as [Ha Hb];
        destruct (reply_err c i d t s2) end. apply (lease_replies _ _ (with_ledger l s1)); try done. by exists g1.
  - destruct (resize_acquire who (se_resize s1)) as [l [[epoch applied] revoked]].
    match goal with |- lease_done _ _ (andthen ?f ?k ?s2) => destruct (then_same f k s2) as [Ha Hb];
      [intros ?; by apply reply_same| |destruct (andthen f k s2) as [s3 o3]] end.
    { intros s3. destruct revoked as [[h e]|]; [by apply send_holder_same|apply skip_same]. }
    by apply (lease_replies _ _ (with_resize l s1)).
Qed.

Lemma release_led n conn rid r s :
  (∃ g, ledger_ok n (se_ledger s) g) → lease_done n s (release conn rid r s).
Proof.
  intros Hg. unfold release. set (who := rel_client_instance_id r). set (s0 := register_holder who conn s).
  destruct (fresh_led n (rel_scope r) who (rel_lease_request_id r) s0 Hg) as [Hs1 [g1 Hg1]].
  destruct (lease_fresh (rel_scope r) who (rel_lease_request_id r) s0) as [s1 ok]. cbn [fst] in *.
  destruct ok; cbn [negb]; [|apply (lease_replies _ _ s1); try done; by exists g1].
  set (r2 := match rel_scope r with Scope_Input => _ | Scope_Resize => _ end).
  assert ((∃ l, same_core (with_ledger l s) r2.1.1.1) ∧ ∃ g, ledger_ok n (se_ledger r2.1.1.1) g) as [Hs2 Hg2].
  { unfold r2. destruct (rel_scope r).
    - pose proof (release_ok n who (rel_epoch r) (se_ledger s1) g1 Hg1) as Hr. destruct (Input.release who _ _) as [l [b rv]].
      cbn. split; [by apply (with_ledger_trans s s1 _ l)|by exists g1].
    - destruct (resize_release who _ _) as [l [b rv]]. cbn. split; [|by exists g1].
      apply (with_ledger_trans s s1 _ (se_ledger s1)); done. }
  destruct r2 as [[[s2 epoch] released] revokees]. cbn [fst] in *.
  match goal with |- lease_done _ _ (andthen ?f ?k ?s2) => destruct (then_same f k s2) as [Ha Hb];
    [intros ?; by apply reply_same| |destruct (andthen f k s2) as [s3 o3]] end.
  { intros s3. destruct released; [|apply skip_same]. apply events_same. intros h s4. by apply send_holder_same. }
  by apply (lease_replies _ _ s2).
Qed.

Lemma reclaim_led n conn rid r s :
  (∃ g, ledger_ok n (se_ledger s) g) → lease_done n s (reclaim conn rid r s).
Proof.
  intros Hg. unfold reclaim. set (who := rcl_client_instance_id r). set (s0 := register_holder who conn s).
  destruct (fresh_led n (rcl_scope r) who (rcl_lease_request_id r) s0 Hg) as [Hs1 [g1 Hg1]].
  destruct (lease_fresh (rcl_scope r) who (rcl_lease_request_id r) s0) as [s1 ok]. cbn [fst] in *.
  destruct ok; cbn [negb]; [|apply (lease_replies _ _ s1); try done; by exists g1]. destruct (rcl_scope r).
  - pose proof (reclaim_ok n who (rcl_epoch r) (se_ledger s1) g1 Hg1) as Hr.
    destruct (Input.reclaim who _ _) as [l res]. cbn [fst] in Hr.
    assert (∃ l1, same_core (with_ledger l1 s) (with_ledger l s1)) as Hs2 by (by apply (with_ledger_trans s s1 _ l)).
    destruct res as [[[? ?]|[[[? ?] ?] ?]]|?]; (eapply lease_replies; [exact Hs2|by exists g1|done|by apply frame_neutral]).
  - destruct (resize_reclaim who _ _) as [l [[ok cur] ap]].
    apply (lease_replies _ _ (with_resize l s1)); [|by exists g1|done|by apply frame_neutral].
    by apply (with_ledger_trans s s1 _ (se_ledger s1)).
Qed.

(** ** Subscribing *)

(** The client names the state it holds, if any. *)
Definition honest (r : Subscribe) (c : ReplicaClient) : Prop :=
  ∀ rev inc, sub_client_known_revision r = Some rev → sub_client_known_incarnation r = Some inc →
    rc_local_revision c = rev ∧ rc_incarnation c = inc ∧ is_Some (rc_replica c).

(** The effects of a new subscription. *)
Lemma on_sub_start id f rid s x σ a (follows : bool) q :
  se_subs s !! id = Some x → gone σ = false →
  f (sub_s x) = (σ, SendAck a :: (if follows then [RequestReservation id q] else [])) →
  on_sub xxh3_128 env id f (Some rid) s =
    (with_subs (<[id := set_sub_s σ x]> (se_subs s)) s,
     OFrame (sub_conn x) (mk_Frame (se_id s) rid FLAG_RESPONSE (Msg_SubscribeAck a)) ::
       (if follows then [ORequest (mk_RequestKey (se_id s) id q)] else [])).
Proof.
  intros Hx Hg Hf. unfold on_sub. rewrite Hx, Hf. set (s0 := with_subs _ s).
  assert (se_subs s0 !! id = Some (set_sub_s σ x)) as Hx0 by (by cbn; rewrite lookup_insert_eq).
  assert (reap id s0 = (s0, [])) as Hr.
  { unfold reap. rewrite Hx0. cbn [sub_s set_sub_s]. unfold gone in Hg. by rewrite Hg. }
  unfold Session.apply. destruct follows.
  - apply (andthen_eq _ _ s0 s0 [_; _] s0 []); [|done]. rewrite for_each_cons. cbn [apply_effect]. by rewrite Hx0.
  - apply (andthen_eq _ _ s0 s0 [_] s0 []); [|done]. rewrite for_each_cons. cbn [apply_effect]. by rewrite Hx0.
Qed.

Lemma subscribe_new_inv n s H cl conn rid r s' out :
  n < u64_max → sess_inv n s H cl → honest r (cl (se_next_sub_id s)) →
  subscribe_new xxh3_128 env conn rid r s = (s', out) →
  se_term s' = se_term s ∧ se_revision s' = se_revision s ∧ sess_inv (n + 1) s' H (λ i, deliver i out (cl i)).
Proof.
  intros Hn Hi Hho Hs. pose proof (inv_mono n (n + 1) s H cl ltac:(lia) Hi) as Hi'. unfold subscribe_new in Hs.
  destruct (MAX_SUBSCRIBERS <=? open_count s).
  { injection Hs as <- <-. split; [done|]. split; [done|]. by apply (inv_same xxh3_128 (n + 1) s s). }
  pose proof (si_core _ _ _ _ Hi) as Hc. pose proof (co_next _ _ _ Hc) as Hnx.
  set (id := se_next_sub_id s) in *. rewrite add64_id in Hs by (unfold u64_max in *; lia).
  set (known := match sub_client_known_revision r with Some _ => _ | None => _ end) in Hs.
  set (sub := mk_Sub (subscription_new id (sub_subscriber_id r) (sub_attach_seq r)) conn None 0 0) in Hs.
  set (s0 := with_subs _ _) in Hs. assert (se_subs s0 !! id = Some sub) as Hx0 by (by cbn; rewrite lookup_insert_eq).
  destruct (co_term _ _ _ Hc) as (Ht & Hcl & Hev). destruct (wf_current _ Ht Hcl) as [Hw Hids].
  destruct (attach_inv id (sub_subscriber_id r) (sub_attach_seq r) (se_incarnation s) (se_revision s) (ht_replica (se_term s))
    (ht_next_line_id (se_term s)) known Hw Hids) as (w & Hat & Hwi).
  assert (∃ (follows : bool) rev' σ, start_with_ack (se_incarnation s) (se_revision s) known (sub_s sub) =
      (σ, SendAck (mk_SubscribeAck (sub_attach_seq r) id (se_incarnation s) rev' follows) ::
          (if follows then [RequestReservation id 1] else [])) ∧
    (follows = false → rev' = se_revision s ∧ known = Some (se_revision s, se_incarnation s)) ∧
    w = mk_World σ (se_revision s) (ht_replica (se_term s)) (ht_next_line_id (se_term s))
          (if follows then None else Some (se_revision s, ht_replica (se_term s))) ∧
    su_next_snapshot_id σ = 1 ∧ sub_addr id σ ∧ gone σ = false)
    as (follows & rev' & σ & Est & Hrev' & -> & Hns & Haddr & Hg).
  { unfold attach in Hat. unfold start_with_ack in *. cbn [sub_s sub] in *. unfold sub_addr.
    case_bool_decide; [exists false|exists true]; eexists _, _; (split; [done|]); (split; [done|]);
      (split; [by injection Hat as <-|]); by repeat (split; [done|]). }
  change (se_incarnation s0) with (se_incarnation s) in Hs. change (se_revision s0) with (se_revision s) in Hs.
  rewrite (on_sub_start id _ rid s0 sub σ _ follows 1 Hx0 Hg Est) in Hs. injection Hs as <- <-.
  set (a := mk_SubscribeAck _ _ _ _ _).
  assert (∀ i c, deliver i (OFrame (sub_conn sub) (mk_Frame (se_id s0) rid FLAG_RESPONSE (Msg_SubscribeAck a)) ::
    (if follows then [ORequest (mk_RequestKey (se_id s0) id 1)] else [])) c =
    if id =? i then adopt id follows rev' c else c) as Hdel.
  { intros i c. destruct (Z.eqb_spec id i) as [<-|Hne]; destruct follows; cbn; rewrite ?Z.eqb_refl, ?(proj2 (Z.eqb_neq _ _)) by done; done. }
  split; [done|]. split; [done|]. destruct (si_auth _ _ _ _ Hi id) as [Hinc Hau].
  assert (follows = false → rc_replica (cl id) = Some (ht_replica (se_term s))) as Hres.
  { intros Hf. destruct (Hrev' Hf) as [_ Hk]. unfold known in Hk.
    destruct (sub_client_known_revision r) as [kr|] eqn:Er; [|done]. destruct (sub_client_known_incarnation r) as [ki|] eqn:Ei; [|done].
    injection Hk as -> ->. destruct (Hho _ _ Er Ei) as (Hr1 & Hr2 & [x Hx]). specialize (Hau x Hx). rewrite Hr1 in Hau.
    pose proof (co_hist _ _ _ Hc) as Hh. rewrite Hh in Hau. by injection Hau as ->. }
  split; [|intros i x Hx; rewrite Hdel; cbn in Hx|intros i; rewrite Hdel].
  - destruct (si_core _ _ _ _ Hi'). split; try done. cbn. lia.
  - destruct (Z.eqb_spec id i) as [<-|Hne].
    + rewrite insert_insert_eq, lookup_insert_eq in Hx. injection Hx as <-. cbn [sub_s set_sub_s]. split; [|cbn; lia].
      split; [|rewrite Hns|done|rewrite Hns; lia].
      * assert (cview (adopt id follows rev' (cl id)) =
          if follows then None else Some (se_revision s, ht_replica (se_term s))) as ->; [|done].
        destruct follows; [done|]. unfold cview. cbn. rewrite Hres by done. cbn. by rewrite (proj1 (Hrev' eq_refl)).
      * split; [by destruct follows|by destruct follows|by destruct follows|destruct follows; cbn; lia].
    + rewrite insert_insert_eq, lookup_insert_ne in Hx by done. destruct (si_links _ _ _ _ Hi' i x Hx) as [Hl Hb]. split; [done|]. cbn. lia.
  - destruct (Z.eqb_spec id i) as [<-|Hne]; [|apply Hi]. split; [by destruct follows|]. intros x Hx.
    destruct follows; [by apply Hau|]. cbn in Hx |- *. rewrite Hres in Hx by done. injection Hx as <-.
    rewrite (proj1 (Hrev' eq_refl)). apply Hc.
Qed.

Lemma existing_Some who s old x : existing who s = Some (old, x) → se_subs s !! old = Some x ∧ su_subscriber_id (sub_s x) = who.
Proof.
  unfold existing. intros Hh. apply head_Some_elem_of in Hh. apply list_elem_of_filter in Hh as [[Hw _] Hin].
  split; [by apply elem_of_bt_iter|done].
Qed.

(** Closing a subscription is not seen by other clients. *)
Lemma close_others n s H cl old x s' out :
  sess_inv n s H cl → se_subs s !! old = Some x → on_sub xxh3_128 env old Subscription.close None s = (s', out) →
  ∀ j c, j ≠ old → deliver j out c = c.
Proof.
  intros Hi Hx Ho. destruct (si_links _ _ _ _ Hi old x Hx) as [Hl _]. pose proof (close_keeps old (sub_s x) (lk_addr _ _ _ _ _ _ _ _ Hl)) as Hk.
  destruct (Subscription.close (sub_s x)) as [σ fx] eqn:Ec. destruct Hk as (_ & _ & _ & Hsh).
  destruct (on_sub_spec xxh3_128 env old _ s x σ fx Hx Ec Hsh) as (x' & out' & E & _ & _ & Hout & _).
  rewrite Ho in E. injection E as _ <-. intros j c Hj. by apply Hout.
Qed.

Lemma subscribe_inv n s H cl conn rid r s' out :
  n + 1 < u64_max → sess_inv n s H cl → honest r (cl (se_next_sub_id s)) →
  subscribe xxh3_128 env conn rid r s = (s', out) →
  se_term s' = se_term s ∧ se_revision s' = se_revision s ∧ sess_inv (n + 2) s' H (λ i, deliver i out (cl i)).
Proof.
  intros Hn Hi Hho Hs. unfold subscribe in Hs. destruct (existing (sub_subscriber_id r) s) as [[old x]|] eqn:Ex.
  - destruct (sub_attach_seq r <=? su_attach_seq (sub_s x)).
    { injection Hs as <- <-. split; [done|]. split; [done|]. apply (inv_same xxh3_128 (n + 2) s s); try done.
      apply (inv_mono n); [lia|done]. }
    unfold andthen in Hs. destruct (on_sub xxh3_128 env old Subscription.close None s) as [s1 o1] eqn:E1.
    destruct (existing_Some _ _ _ _ Ex) as [Hx _]. pose proof (close_others n s H cl old x s1 o1 Hi Hx E1) as Hoth.
    destruct (si_links _ _ _ _ Hi old x Hx) as [_ Hold].
    destruct (one_sub n old WClose s H cl s1 o1 ltac:(lia) Hi I E1) as [[m ->] Hi1].
    destruct (subscribe_new xxh3_128 env conn rid r (with_subs m s)) as [s2 o2] eqn:E2. injection Hs as <- <-.
    destruct (subscribe_new_inv (n + 1) (with_subs m s) H _ conn rid r s2 o2 Hn Hi1) as (T1 & T2 & Hi2); [|done|].
    { cbn. rewrite Hoth by lia. exact Hho. }
    split; [done|]. split; [done|]. replace (n + 2) with (n + 1 + 1) by lia. eapply inv_ext; [exact Hi2|].
    intros i. apply deliver_app.
  - destruct (subscribe_new_inv n s H cl conn rid r s' out ltac:(lia) Hi Hho Hs) as (T1 & T2 & Hi1).
    split; [done|]. split; [done|]. apply (inv_mono (n + 1)); [lia|done].
Qed.
End publish.

(** ** Runs *)

Section runs.
Context (xxh3_64 xxh3_128 crc32c : list byte → Z).
#[local] Abbreviation deliver := (deliver xxh3_128).

(** An event with its surroundings; [sv_resume] is the earlier subscription whose
    client sends a [Subscribe]. *)
Record SEvent := mk_SEvent {
  sv_env : Env;
  sv_event : Event;
  sv_resume : option Z;
}.

(** A session, the states its terminal had, and the clients by subscription. *)
Record Run := mk_Run {
  ru_s : Session;
  ru_hist : gmap Z Replica;
  ru_cl : Z → ReplicaClient;
}.

Definition subscribing (ev : Event) : option Subscribe :=
  match ev with EvRequest _ _ (Msg_Subscribe r) => Some r | _ => None end.

(** The client that will receive the next subscription. *)
Definition attaching (e : SEvent) (g : Run) (i : Z) : ReplicaClient :=
  match subscribing (sv_event e) with
  | Some _ =>
      if i =? se_next_sub_id (ru_s g)
      then match sv_resume e with Some j => ru_cl g j | None => client_new (se_incarnation (ru_s g)) end
      else ru_cl g i
  | None => ru_cl g i
  end.

Definition run_step (e : SEvent) (g : Run) : option Run :=
  '(s, out) ← on_event xxh3_64 xxh3_128 crc32c (sv_env e) (sv_event e) (ru_s g);
  Some (mk_Run s (<[se_revision s := ht_replica (se_term s)]> (ru_hist g)) (λ i, deliver i out (attaching e g i))).

Fixpoint run (es : list SEvent) (g : Run) : option Run :=
  match es with [] => Some g | e :: es' => g' ← run_step e g; run es' g' end.

(** The library answers as documented, no link is orphaned by trimming, and what
    one call produces fits in memory. *)
Definition feed_ok (env : Env) (s : Session) : Prop :=
  let '(v, cbs, tr) := env_vt env in
  term_call_ok (TCall v cbs tr) (se_term s) ∧
  ∀ t' a, terminal_call xxh3_64 v cbs tr (se_term s) = Some (t', a) →
    clean t' ∧ Forall (λ r, zlen r <= 2 ^ 62) (ad_vt_replies a) ∧ ∀ d, ad_delta a = Some d → delta_encoded_len d <= 2 ^ 62.

Definition event_ok (e : SEvent) (g : Run) : Prop :=
  match sv_event e with
  | EvRequest _ _ (Msg_Resize _) | EvPtyOutput _ => feed_ok (sv_env e) (ru_s g)
  | EvRequest _ _ (Msg_WriteInput w) => 0 <= wi_start w <= u64_max
  | EvRequest _ _ (Msg_Subscribe r) => honest r (attaching e g (se_next_sub_id (ru_s g)))
  | EvWritten k => 0 <= k <= u64_max
  | EvChildExited info => wf c_ExitInfo info = true
  | _ => True
  end.

Fixpoint events_ok (es : list SEvent) (g : Run) : Prop :=
  match es with
  | [] => True
  | e :: es' => event_ok e g ∧ ∀ g', run_step e g = Some g' → events_ok es' g'
  end.

Definition run_inv (n : Z) (g : Run) : Prop := sess_inv n (ru_s g) (ru_hist g) (ru_cl g).

Lemma feed_inv n env s H cl :
  n < u64_max → sess_inv n s H cl → feed_ok env s →
  ∃ s' out, feed_terminal xxh3_64 xxh3_128 env s = Some (s', out) ∧
    sess_inv (n + 1) s' (<[se_revision s' := ht_replica (se_term s')]> H) (λ i, deliver i out (cl i)).
Proof.
  intros Hn Hi Hf. pose proof (si_core _ _ _ _ Hi) as Hc. destruct (co_term _ _ _ Hc) as (Ht & Hcl & Hev).
  unfold feed_ok in Hf. unfold feed_terminal. destruct (env_vt env) as [[v cbs] tr]. destruct Hf as [(Hv & Hroom & Htr) Hcall].
  destruct (terminal_call_spec xxh3_64 v cbs tr (se_term s) (proj1 Ht) Hv Hroom Htr)
    as (t' & a & E & Hi' & _ & _ & Hl & Hfit & _ & Hd). rewrite E. cbn [mbind option_bind].
  destruct (Hcall t' a E) as (Hclean & Hrep & Hlen).
  assert (published (se_term s) t' a) as Hp.
  { split; [split; [split; [done|split; [lia|done]]|split; [done|by eapply call_event]]|lia| |done].
    intros Hrw. destruct (Hd Hrw) as (d & Ed & _ & Hst). exists d. split; [done|]. split; [by apply Hlen|].
    by rewrite <- (clean_pruned t' Hclean). }
  unfold andthen. destruct (publish xxh3_128 env a (with_term t' s)) as [s1 o1] eqn:E1.
  destruct (publish_inv xxh3_128 env n s H cl t' a s1 o1 Hn Hi Hp E1) as (T1 & _ & Hi1).
  destruct (compress_same xxh3_128 env s1) as [Hs Ho]. destruct (compress_on_output env s1) as [s2 o2].
  eexists _, _. split; [done|]. cbn [fst snd] in *. pose proof Hs as (U1 & U2 & _). rewrite U1, U2, T1. by eapply inv_then.
Qed.

Lemma write_led n env conn rid w s :
  (∃ g, ledger_ok n (se_ledger s) g) → 0 <= wi_start w →
  ∃ r, write_input crc32c env conn rid w s = Some r ∧ lease_done xxh3_128 n s r.
Proof.
  intros [g Hg] Hst. unfold write_input. set (s0 := register_holder _ conn s).
  destruct (write_ok crc32c n (wi_client_instance_id w) (wi_epoch w) (wi_start w) (Messages.wi_bytes w) (wi_crc32c w)
    (se_ledger s) g Hg Hst) as (l & res & E & Hl).
  change (se_ledger s0) with (se_ledger s). rewrite E. cbn [mbind option_bind]. eexists. split; [done|].
  assert (same_core (with_ledger l s) (with_ledger l s0)) as Hs0 by done.
  destruct res as [ack|[err revoke]].
  - match goal with |- lease_done _ _ _ (andthen ?f ?k ?s2) => destruct (then_same xxh3_128 f k s2) as [Ha Hb];
      [intros ?; by apply reply_same|intros ?; apply pump_same|destruct (andthen f k s2) as [s3 o3]] end.
    apply (lease_replies _ _ _ (with_ledger l s0)); try done; eauto.
  - destruct (write_error err) as [d t].
    match goal with |- lease_done _ _ _ (andthen ?f ?k ?s2) => destruct (then_same xxh3_128 f k s2) as [Ha Hb];
      [intros ?; apply reply_err_same| |destruct (andthen f k s2) as [s3 o3]] end.
    { intros s3. destruct revoke as [[rv hs]|]; [|apply skip_same]. apply then_same.
      - intros s4. by apply send_holder_same.
      - intros s4. apply events_same. intros h s5. by apply send_holder_same. }
    apply (lease_replies _ _ _ (with_ledger l s0)); try done; eauto.
Qed.

Lemma keep_hist m s H cl :
  sess_inv m s H cl → sess_inv m s (<[se_revision s := ht_replica (se_term s)]> H) cl.
Proof. intros Hi. rewrite insert_id; [done|]. apply Hi. Qed.

Lemma attaching_inv n e g : run_inv n g → sess_inv n (ru_s g) (ru_hist g) (attaching e g).
Proof.
  intros [Hc Hl Ha]. unfold attaching. destruct (subscribing (sv_event e)); [|by split]. split; [done|..].
  - intros i x Hx. destruct (Hl i x Hx) as [H1 H2]. by rewrite (proj2 (Z.eqb_neq i _)) by lia.
  - intros i. destruct (i =? _); [|apply Ha]. destruct (sv_resume e); [apply Ha|by split].
Qed.

Lemma lease_step n s H cl r :
  n < u64_max → sess_inv n s H cl → lease_done xxh3_128 (n + 1) s r →
  sess_inv (n + 2) r.1 (<[se_revision r.1 := ht_replica (se_term r.1)]> H) (λ i, deliver i r.2 (cl i)).
Proof. intros Hn Hi Hd. apply keep_hist, (inv_mono (n + 1)); [lia|]. by eapply lease_inv. Qed.

Lemma lease_weaken s r n : lease_done xxh3_128 n s r → lease_done xxh3_128 (n + 1) s r.
Proof. intros (H1 & [g H2] & H3). split; [done|]. split; [|done]. exists g. apply (ledger_ok_weaken n); [lia|done]. Qed.

Lemma same_step n s s' H cl out :
  sess_inv n s H cl → same_core s s' → neutral xxh3_128 out →
  sess_inv (n + 2) s' (<[se_revision s' := ht_replica (se_term s')]> H) (λ i, deliver i out (cl i)).
Proof. intros Hi Hs Ho. apply keep_hist, (inv_mono n); [lia|]. by eapply inv_same. Qed.

Lemma sub_event_step n env s H cl id e s' out :
  n < u64_max → sess_inv n s H cl → host_neutral e →
  on_sub xxh3_128 env id (sub_step e (se_revision s)) None s = (s', out) →
  sess_inv (n + 2) s' (<[se_revision s' := ht_replica (se_term s')]> H) (λ i, deliver i out (cl i)).
Proof.
  intros Hn Hi He Ho. destruct (one_sub xxh3_128 env n id e s H cl s' out Hn Hi He Ho) as [_ Hi1].
  apply keep_hist, (inv_mono (n + 1)); [lia|done].
Qed.

(** The result of an event. *)
Definition stepped_to (n : Z) (H : gmap Z Replica) (cl : Z → ReplicaClient) (r : option (Session * list SessOut)) : Prop :=
  ∃ s' out, r = Some (s', out) ∧
    sess_inv (n + 2) s' (<[se_revision s' := ht_replica (se_term s')]> H) (λ i, deliver i out (cl i)).

Lemma request_inv n env conn rid m s H cl :
  n + 1 < u64_max → sess_inv n s H cl →
  match m with
  | Msg_Resize _ => feed_ok env s
  | Msg_WriteInput w => 0 <= wi_start w <= u64_max
  | Msg_Subscribe r => honest r (cl (se_next_sub_id s))
  | _ => True
  end →
  stepped_to n H cl (on_request xxh3_64 xxh3_128 crc32c env conn rid m s).
Proof.
  intros Hn Hi Hok. pose proof (co_ledger _ _ _ (si_core _ _ _ _ Hi)) as Hg. unfold stepped_to.
  assert (∀ r, lease_done xxh3_128 (n + 1) s r → ∃ s' out, Some r = Some (s', out) ∧
    sess_inv (n + 2) s' (<[se_revision s' := ht_replica (se_term s')]> H) (λ i, deliver i out (cl i))) as Hlease.
  { intros [s' out] Hr. eexists _, _. split; [done|]. apply (lease_step n s H cl (s', out) ltac:(lia) Hi Hr). }
  assert (∀ d t, ∃ s' out, Some (reply_err conn rid d t s) = Some (s', out) ∧
    sess_inv (n + 2) s' (<[se_revision s' := ht_replica (se_term s')]> H) (λ i, deliver i out (cl i))) as Herr.
  { intros d t. eexists _, _. split; [done|]. by apply (same_step n s). }
  destruct m; cbn [on_request]; try (by apply Herr).
  - apply Hlease, acquire_led; [lia|done].
  - by apply Hlease, lease_weaken, release_led.
  - by apply Hlease, lease_weaken, reclaim_led.
  - destruct (write_led n env conn rid m s Hg (proj1 Hok)) as (r & -> & Hr). by apply Hlease, lease_weaken.
  - destruct (epoch_state _ _) as [[[[fa c] pd] fe]|]; [|apply Herr]. eexists _, _. split; [done|].
    apply (same_step n s); [done|done|]. by apply frame_neutral.
  - unfold Session.do_resize. destruct (Resize.do_resize _ _ _ _ _ _) as [l res]. set (s0 := with_resize l s).
    assert (sess_inv n s0 H cl) as Hi0 by (by apply (inv_same xxh3_128 n s s0 H cl [])).
    destruct res as [ap|[cur|a]]; [|eexists _, _; (split; [done|]); by apply (same_step n s0)..].
    destruct (feed_inv n env s0 H cl ltac:(lia) Hi0 Hok) as (s1 & o1 & -> & Hi1). cbn [mbind option_bind].
    eexists _, _. split; [done|]. apply (inv_mono (n + 1)); [lia|]. eapply inv_ext; [exact Hi1|].
    intros i. cbn beta. rewrite app_comm_cons, deliver_app. done.
  - destruct (subscribe xxh3_128 env conn rid m s) as [s' out] eqn:E.
    destruct (subscribe_inv xxh3_128 env n s H cl conn rid m s' out Hn Hi Hok E) as (_ & _ & Hi1).
    eexists _, _. split; [done|]. by apply keep_hist.
  - destruct (on_sub xxh3_128 env (rsy_subscription_id m) Subscription.resync None s) as [s' out] eqn:E.
    eexists _, _. split; [done|]. by apply (sub_event_step n env s H cl (rsy_subscription_id m) WResync); [lia|..].
  - destruct (on_sub xxh3_128 env (uns_subscription_id m) Subscription.close None s) as [s' out] eqn:E.
    eexists _, _. split; [done|]. by apply (sub_event_step n env s H cl (uns_subscription_id m) WClose); [lia|..].
  - eexists _, _. split; [done|]. apply (same_step n s); [done|done|]. by apply frame_neutral.
Qed.

Lemma run_step_inv n e g :
  n + 1 < u64_max → run_inv n g → event_ok e g → ∃ g', run_step e g = Some g' ∧ run_inv (n + 2) g'.
Proof.
  intros Hn Hr Hok. pose proof (attaching_inv n e g Hr) as Hi. unfold run_step. set (s := ru_s g) in *.
  set (H := ru_hist g) in *. set (cl := attaching e g) in *.
  assert (stepped_to n H cl (on_event xxh3_64 xxh3_128 crc32c (sv_env e) (sv_event e) s)) as (s' & out & -> & Hs').
  2: { eexists. split; [done|]. exact Hs'. }
  assert (∀ f id, host_neutral f → stepped_to n H cl
    (Some (on_sub xxh3_128 (sv_env e) id (sub_step f (se_revision s)) None s))) as Hsub.
  { intros f id Hf. destruct (on_sub _ _ _ _ _ s) as [s' out] eqn:E. eexists _, _. split; [done|].
    by apply (sub_event_step n (sv_env e) s H cl id f); [lia|..]. }
  assert (stepped_to n H cl (Some (finish_child xxh3_128 (sv_env e) None s))) as Hfin.
  { destruct (finish_child xxh3_128 (sv_env e) None s) as [s' out] eqn:E. eexists _, _. split; [done|].
    destruct (finish_inv xxh3_128 (sv_env e) n s H cl s' out ltac:(lia) Hi E) as [_ Hi1]. apply (inv_mono (n + 1)); [lia|done]. }
  unfold event_ok in Hok. destruct (sv_event e) as [conn rid m|conn|bytes| |k| |info| |sid q rid|sid rid sn l|sid rid sn|sid rid sn| |] eqn:Eev;
    cbn [on_event]; try done.
  - apply request_inv; [done|done|]. unfold cl, attaching in *. rewrite Eev in *. by destruct m.
  - unfold on_conn_closed. set (s0 := with_holders _ s). assert (sess_inv n s0 H cl) as Hi0 by (by apply (inv_same xxh3_128 n s s0 H cl [])).
    set (ids := (filter _ (bt_iter (se_subs s0))).*1). destruct (for_each ids _ s0) as [s' out] eqn:E. eexists _, _. split; [done|].
    destruct (some_subs xxh3_128 (sv_env e) n ids (λ _, WClose) s0 H cl s' out ltac:(lia) Hi0) as [_ Hi1]; [|done|exact E|].
    { apply NoDup_fmap_fst; [|apply NoDup_filter, NoDup_bt_iter]. intros i x y Hx Hy.
      apply list_elem_of_filter in Hx as [_ Hx], Hy as [_ Hy]. apply elem_of_bt_iter in Hx, Hy. congruence. }
    apply keep_hist, (inv_mono (n + 1)); [lia|done].
  - destruct (feed_inv n (sv_env e) s H cl ltac:(lia) Hi Hok) as (s1 & o1 & -> & Hi1). cbn [mbind option_bind].
    eexists _, _. split; [done|]. apply (inv_mono (n + 1)); [lia|]. eapply inv_ext; [exact Hi1|]. done.
  - destruct (co_ledger _ _ _ (si_core _ _ _ _ Hi)) as [lg Hg].
    destruct (on_written_ok crc32c n k (se_ledger s) lg Hg Hok) as (l & a & E & Hl). cbn [with_write_inflight se_ledger].
    rewrite E. cbn [mbind option_bind].
    match goal with |- stepped_to _ _ _ (Some (andthen ?f ?b ?s2)) => destruct (then_same xxh3_128 f b s2) as [Ha Hb];
      [|intros ?; apply pump_same|destruct (andthen f b s2) as [s3 o3]] end.
    { intros s3. destruct a; [by apply send_holder_same|apply skip_same]. }
    eexists _, _. split; [done|]. apply (lease_step n s H cl (s3, o3) ltac:(lia) Hi).
    apply lease_weaken, (lease_replies xxh3_128 n s (with_ledger l (with_write_inflight false s)) s3 o3); [by exists l| |exact Ha|exact Hb].
    eexists; exact Hl.
  - eexists _, _. split; [done|]. apply (lease_step n s H cl (_, []) ltac:(lia) Hi). split; [by eexists|]. split; [|done].
    destruct (co_ledger _ _ _ (si_core _ _ _ _ Hi)) as [lg Hg]. eexists. apply (ledger_ok_weaken n); [lia|].
    exact (on_dead_ok (λ _, 0) n (se_ledger s) lg Hg).
  - eexists _, _. split; [done|]. apply keep_hist, (inv_mono n); [lia|]. destruct Hi as [[] Hl Ha].
    split; [split; try done|done|done]. intros i [= ->]. done.
  - destruct (se_subs s !! sid) as [x|] eqn:Hx; [by apply (Hsub (WBudget q rid (env_now_ms (sv_env e))))|].
    eexists _, _. split; [unfold Session.apply, andthen, emit, for_each, reap; cbn; by rewrite Hx|]. by apply (same_step n s).
  - by apply (Hsub (WFrame rid sn l)).
  - by apply (Hsub (WReleased rid sn)).
  - unfold on_deadline_event. destruct (Hsub (WDeadline rid sn) sid I) as (s1 & o1 & E1 & Hi1). injection E1 as E1.
    change (sub_step (WDeadline rid sn) (se_revision s)) with (on_deadline rid sn) in E1. unfold andthen. rewrite E1. set (k := match _ with true => _ | false => _ end).
    assert (same_core s1 (k s1).1 ∧ neutral xxh3_128 (k s1).2) as [Hs Ho] by (unfold k; repeat case_match; done).
    destruct (k s1) as [s2 o2]. eexists _, _. split; [done|]. cbn [fst snd] in *. pose proof Hs as (U1 & U2 & _). rewrite U1, U2.
    by eapply inv_then.
  - set (s0 := with_flush_scheduled false s). assert (sess_inv n s0 H cl) as Hi0 by (by apply (inv_same xxh3_128 n s s0 H cl [])).
    destruct (flush_deltas xxh3_128 (sv_env e) s0) as [s' out] eqn:E. eexists _, _. split; [done|].
    destruct (flush_inv xxh3_128 (sv_env e) n s0 H cl s' out ltac:(lia) Hi0 E) as (_ & _ & Hi1).
    apply keep_hist, (inv_mono (n + 1)); [lia|done].
  - destruct (Compress.on_compress _ _ _) as [[t next] ran].
    destruct next; eexists _, _; (split; [done|]); by apply (same_step n s).
Qed.

Lemma events_run_ok es n g :
  n + 2 * zlen es <= u64_max → run_inv n g → events_ok es g →
  ∃ g', run es g = Some g' ∧ run_inv (n + 2 * zlen es) g'.
Proof.
  revert n g. induction es as [|e es IH]; intros n g Hn Hi Hok; [exists g; split; [done|]; by rewrite Z.add_0_r|].
  rewrite zlen_cons in *. pose proof (zlen_nonneg es). destruct Hok as [He Hok].
  destruct (run_step_inv n e g) as (g1 & E & Hi1); [lia|done|done|]. cbn [run]. rewrite E. cbn [mbind option_bind].
  destruct (IH (n + 2) g1) as (g2 & Er & Hi2); [lia|done|by apply Hok|]. exists g2. split; [done|].
  by replace (n + 2 * (1 + zlen es)) with (n + 2 + 2 * zlen es) by lia.
Qed.

(** A session on a fresh terminal. *)
Definition start_run (id inc : list byte) (op : OperationId) (cols rows : Z) (e : VtEngine) : Run :=
  let s := session_new id inc op cols rows e in
  mk_Run s {[se_revision s := ht_replica (se_term s)]} (λ _, client_new inc).

Lemma start_run_inv id inc op cols rows v e :
  vt_answers v → vt_history v = [] → engine_new xxh3_64 v = Some e → run_inv 1 (start_run id inc op cols rows e).
Proof.
  intros Hv Hh He. destruct (term_start_ok xxh3_64 v Hv Hh) as (t & E & Ht & Hcl). unfold term_start in E. rewrite He in E.
  injection E as E. unfold run_inv, start_run, session_new. destruct (normalize_size cols rows) as [c r].
  cbn [ru_s ru_hist ru_cl se_revision se_term]. rewrite E. split; [split|..]; cbn; try done.
  - split; [done|]. split; [done|]. rewrite <- E. unfold terminal_new. rewrite rebuild_event. done.
  - intros r0 Hr0. destruct (decide (r0 = 1)) as [->|Hne]; [done|]. rewrite lookup_singleton_ne in Hr0 by done. by destruct Hr0.
  - exists log_empty. apply (ledger_ok_weaken 0); [lia|apply ledger_new_ok].
Qed.

Lemma in_sync n g i x :
  run_inv n g → se_subs (ru_s g) !! i = Some x → Subscription.is_closed (sub_s x) = false →
  su_resync_pending (sub_s x) = false → su_queue (sub_s x) = [] →
  rc_replica (ru_cl g i) = Some (ht_replica (se_term (ru_s g))) ∧ rc_local_revision (ru_cl g i) = se_revision (ru_s g).
Proof.
  intros Hi Hx Hc Hp Hq. destruct (si_links _ _ _ _ Hi i x Hx) as [[Hw _ _ _] _].
  destruct (taking_in_step _ Hw Hp Hc) as (rc & c0 & Hcl & _ & _ & Hrun & Hrev). cbn in *. rewrite Hq in Hrun, Hrev.
  inversion Hrun; subst. cbn in Hrev. unfold cview in Hcl. destruct (rc_awaiting_first _); [done|].
  destruct (rc_replica _) as [r|]; [|done]. cbn in Hcl. injection Hcl as Hl Hr. split; congruence.
Qed.

(** ** Theorems *)


(** A flush that finds the outboxes below the backlog limit brings every
    client up to date: afterwards each open subscription without a pending resync has an empty
    queue and its client holds the terminal's state. *)
Theorem session_flush_synchronises id inc op cols rows v e es g env :
  vt_answers v → vt_history v = [] → engine_new xxh3_64 v = Some e → 2 * zlen es + 2 < u64_max →
  events_ok es (start_run id inc op cols rows e) → run es (start_run id inc op cols rows e) = Some g →
  (∀ i, env_queued env i < 1048576) →
  ∃ g', run_step (mk_SEvent env EvFlush None) g = Some g' ∧ se_term (ru_s g') = se_term (ru_s g) ∧
    ∀ i x, se_subs (ru_s g') !! i = Some x → Subscription.is_closed (sub_s x) = false → su_resync_pending (sub_s x) = false →
      su_queue (sub_s x) = [] ∧ rc_replica (ru_cl g' i) = Some (ht_replica (se_term (ru_s g))).
Proof.
  intros Hv Hh He Hn Hok Hr Hq.
  destruct (events_run_ok es 1 _ ltac:(lia) (start_run_inv id inc op cols rows v e Hv Hh He) Hok) as (g0 & Hr0 & Hi).
  rewrite Hr in Hr0. injection Hr0 as <-. set (n := 1 + 2 * zlen es) in *. set (ev := mk_SEvent env EvFlush None).
  destruct (run_step_inv n ev g ltac:(lia) Hi I) as (g' & E & Hi'). exists g'. split; [done|].
  set (s0 := with_flush_scheduled false (ru_s g)).
  assert (sess_inv n s0 (ru_hist g) (ru_cl g)) as Hi0 by (by apply (inv_same xxh3_128 n (ru_s g) s0 _ _ [])).
  unfold run_step, ev in E. cbn [on_event sv_event sv_env mbind option_bind] in E. fold s0 in E.
  destruct (flush_deltas xxh3_128 env s0) as [s2 out] eqn:Ef. injection E as <-.
  unfold flush_deltas in Ef. pose proof (flush_loop_eq xxh3_128 env (se_revision s0) (sub_ids s0) false s0) as Hl.
  destruct (flush_loop xxh3_128 env (sub_ids s0) false s0) as [[s1 o1] b].
  destruct (subs_loop xxh3_128 env n (sub_ids s0) (flush_event env) s0 (ru_cl g) (ru_hist g) s1 o1 (sub_ids_NoDup s0))
    as [[m ->] _ F _]; [lia|by eapply core_body; [apply Hi0|lia]|apply Hi0| |exact Hl|].
  { intros i x Hx. rewrite decide_True by (apply sub_ids_spec; eauto). destruct (si_links _ _ _ _ Hi0 i x Hx) as [Hlk _].
    eexists _, _, _. split; [exact Hlk|]. unfold flush_event. by destruct (_ <? _). }
  assert (same_core (with_subs m s0) s2) as (T1 & _ & _ & T4 & _).
  { pose proof (proj1 (schedule_same xxh3_128 (with_subs m s0))) as Hs. destruct b; [destruct (schedule_flush _)|];
      by injection Ef as <- _. }
  cbn [ru_s ru_cl] in *. split; [exact T1|]. intros i x Hx Hc Hp.
  assert (su_queue (sub_s x) = []) as Hqx.
  { rewrite T4 in Hx. destruct (F i x Hx) as (x0 & Hx0 & Ex). rewrite decide_True in Ex by (apply sub_ids_spec; eauto).
    unfold flush_event in Ex. rewrite (proj2 (Z.ltb_lt _ _)) in Ex by (apply Hq). cbn [sub_step] in Ex.
    unfold drain_to_wire in Ex. destruct (su_resync_pending (sub_s x0) || Subscription.is_closed (sub_s x0)) eqn:Ep.
    - cbn in Ex. rewrite Ex in Hc, Hp. by rewrite Hc, Hp in Ep.
    - rewrite Ex. by destruct (Replica.merge _). }
  split; [done|]. change (se_term (ru_s g)) with (se_term (with_subs m s0)). rewrite <- T1. exact (proj1 (in_sync (n + 2) _ i x Hi' Hx Hc Hp Hqx)).
Qed.
End runs.

(** ** Witness: a client subscribes, gets a snapshot, output arrives, and a flush delivers it *)

Definition demo_hash0 (_ : list byte) : Z := 0.
Definition demo_env (v : Vt) : Env := mk_Env 10 0 (λ _, 0) true 0 [] (v, [CbBell], None) Compress.Complete.
Definition demo_event (v : Vt) (ev : Event) : SEvent := mk_SEvent (demo_env v) ev None.
Definition demo_engine : VtEngine :=
  default (mk_VtEngine (demo_vt [] None) [] 0 1 1 0 None) (engine_new demo_hash0 (demo_vt [] None)).
Definition demo_run0 : Run :=
  start_run (replicate 16 x01) (replicate 16 x02) (mk_OperationId (replicate 16 x00) 1) 1 1 demo_engine.
Definition demo_vt2 : Vt := demo_vt [demo_raw (Some demo_uri)] None.
Definition demo_e1 : SEvent := demo_event (demo_vt [] None) (EvRequest 7 1 (Msg_Subscribe (mk_Subscribe (replicate 16 x03) 1 None None))).
Definition demo_e2 : SEvent := demo_event (demo_vt [] None) (EvBudgetAvailable 1 1 5).
Definition demo_e3 : SEvent := demo_event demo_vt2 (EvPtyOutput [x61]).
Definition demo_step (e : SEvent) (g : Run) : Run := default g (run_step demo_hash0 demo_hash0 demo_hash0 e g).
Definition demo_run1 : Run := demo_step demo_e1 demo_run0.
Definition demo_run2 : Run := demo_step demo_e2 demo_run1.
Definition demo_run3 : Run := demo_step demo_e3 demo_run2.
Definition demo_session_events : list SEvent := [demo_e1; demo_e2; demo_e3].

Definition steps (e : SEvent) (g : Run) : bool :=
  match run_step demo_hash0 demo_hash0 demo_hash0 e g with Some _ => true | None => false end.
Lemma demo_step_eq e g : steps e g = true → run_step demo_hash0 demo_hash0 demo_hash0 e g = Some (demo_step e g).
Proof. unfold steps, demo_step. by destruct (run_step _ _ _ e g). Qed.
Lemma demo_run_cons e es g g' r :
  steps e g = true → demo_step e g = g' → run demo_hash0 demo_hash0 demo_hash0 es g' = r →
  run demo_hash0 demo_hash0 demo_hash0 (e :: es) g = r.
Proof. intros Hs <- <-. cbn [run]. by rewrite demo_step_eq. Qed.
Lemma demo_events_cons e es g g' :
  steps e g = true → demo_step e g = g' → event_ok demo_hash0 e g → events_ok demo_hash0 demo_hash0 demo_hash0 es g' →
  events_ok demo_hash0 demo_hash0 demo_hash0 (e :: es) g.
Proof. intros Hs <- He Hes. split; [done|]. intros g1 E1. rewrite demo_step_eq in E1 by done. by injection E1 as <-. Qed.

Lemma demo_feed_ok : feed_ok demo_hash0 (demo_env demo_vt2) (ru_s demo_run2).
Proof.
  assert (se_term (ru_s demo_run2) = demo_term) as Et by (by vm_compute).
  unfold feed_ok, demo_env. cbn [env_vt]. rewrite Et. split; [exact (proj1 demo_term_valid)|]. intros t' a E.
  assert (match terminal_call demo_hash0 demo_vt2 [CbBell] None demo_term with
    | Some (t, a) => bool_decide (dom (rp_hyperlinks (ht_replica t)) = referenced_links (ht_replica t)) &&
        forallb (λ r, zlen r <=? 2 ^ 62) (ad_vt_replies a) &&
        match ad_delta a with Some d => delta_encoded_len d <=? 2 ^ 62 | None => true end
    | None => true end = true) as Hb by (by vm_compute).
  rewrite E in Hb. apply andb_true_iff in Hb as [[Hc Hr]%andb_true_iff Hd]. apply bool_decide_eq_true in Hc.
  split; [exact Hc|]. split.
  - apply Forall_forall. intros r Hin. rewrite forallb_forall in Hr. apply Z.leb_le, Hr. by apply list_elem_of_In.
  - intros d Ed. rewrite Ed in Hd. by apply Z.leb_le.
Qed.

Lemma demo_steps : steps demo_e1 demo_run0 = true ∧ steps demo_e2 demo_run1 = true ∧ steps demo_e3 demo_run2 = true.
Proof. by vm_compute. Qed.

Lemma demo_events_ok : events_ok demo_hash0 demo_hash0 demo_hash0 demo_session_events demo_run0.
Proof.
  destruct demo_steps as (S1 & S2 & S3). apply (demo_events_cons _ _ _ demo_run1 S1 eq_refl); [by intros rev inc [=]|].
  apply (demo_events_cons _ _ _ demo_run2 S2 eq_refl); [done|]. split; [exact demo_feed_ok|done].
Qed.

Lemma demo_session_run : run demo_hash0 demo_hash0 demo_hash0 demo_session_events demo_run0 = Some demo_run3.
Proof.
  destruct demo_steps as (S1 & S2 & S3). apply (demo_run_cons _ _ _ demo_run1 _ S1 eq_refl).
  apply (demo_run_cons _ _ _ demo_run2 _ S2 eq_refl). apply (demo_run_cons _ _ _ demo_run3 _ S3 eq_refl). reflexivity.
Qed.
Lemma demo_session_run2 : run demo_hash0 demo_hash0 demo_hash0 (take 2 demo_session_events) demo_run0 = Some demo_run2.
Proof.
  destruct demo_steps as (S1 & S2 & S3). apply (demo_run_cons _ _ _ demo_run1 _ S1 eq_refl).
  apply (demo_run_cons _ _ _ demo_run2 _ S2 eq_refl). reflexivity.
Qed.


Definition demo_flush : SEvent := mk_SEvent (demo_env demo_vt2) EvFlush None.
Definition demo_run4 : Run := demo_step demo_flush demo_run3.
Lemma demo_step4 : steps demo_flush demo_run3 = true.
Proof. by vm_compute. Qed.

Lemma session_flush_synchronises_witness :
  ∃ g, run_step demo_hash0 demo_hash0 demo_hash0 demo_flush demo_run3 = Some g ∧
    rc_replica (ru_cl g 1) = Some (ht_replica (se_term (ru_s demo_run3))).
Proof.
  destruct (session_flush_synchronises demo_hash0 demo_hash0 demo_hash0 (replicate 16 x01) (replicate 16 x02)
    (mk_OperationId (replicate 16 x00) 1) 1 1 (demo_vt [] None) demo_engine demo_session_events demo_run3 (demo_env demo_vt2))
    as (g & Hr & _ & Hs).
  - apply demo_answers; [constructor|done|by left].
  - reflexivity.
  - by vm_compute.
  - by vm_compute.
  - exact demo_events_ok.
  - exact demo_session_run.
  - intros i. by vm_compute.
  - exists g. split; [exact Hr|].
    assert (Some g = Some demo_run4) as Hg by (rewrite <- Hr; exact (demo_step_eq _ _ demo_step4)). apply (inj Some) in Hg. subst g.
    assert ((λ x, (Subscription.is_closed (sub_s x), su_resync_pending (sub_s x))) <$> se_subs (ru_s demo_run4) !! 1 = Some (false, false))
      as Hx by (by vm_compute).
    apply fmap_Some in Hx as (x & Ex & Hx). injection Hx as H1 H2. symmetry in H1, H2. exact (proj2 (Hs 1 x Ex H1 H2)).
Defined.
