(* ===== verification/SessionBook.v ===== *)
(** * Session: bookkeeping of the actor

    Invariants of every run of a session, without assumptions on its
    surroundings: the number of open subscriptions is bounded and each subscriber
    has at most one, and a queued delta always has a flush timer that will send it. *)

From S2P Require Import Prelude Wire Types Messages Frame Budget Replica Vt Terminal TerminalSpec Subscription Resize Input Conn Pacing Session SessionSpec SessionSync.
From Stdlib Require Import ZArith Lia Strings.Byte.
From stdpp Require Import base gmap list option sorting relations.

#[local] Open Scope Z_scope.

(** ** How subscriptions evolve *)

(** [x'] is [x] after some operations that are not a push. *)
Definition quiet_event (e : WEvent) : Prop := match e with WPush _ _ _ => False | _ => True end.
Definition evolves (x x' : Subscription) : Prop := ∃ es, (sub_run es x).1 = x'.

Lemma sub_run_app es1 es2 x : (sub_run (es1 ++ es2) x).1 = (sub_run es2 (sub_run es1 x).1).1.
Proof.
  revert x. induction es1 as [|[e rev] es1 IH]; intros x; [done|]. cbn [app sub_run].
  destruct (sub_step e rev x) as [x1 fx1]. specialize (IH x1). destruct (sub_run (es1 ++ es2) x1), (sub_run es1 x1). done.
Qed.

Lemma evolves_refl x : evolves x x.
Proof. by exists []. Qed.
Lemma evolves_trans x y z : evolves x y → evolves y z → evolves x z.
Proof. intros [es1 <-] [es2 <-]. exists (es1 ++ es2). apply sub_run_app. Qed.
Lemma evolves_step e rev x : evolves x (sub_step e rev x).1.
Proof. exists [(e, rev)]. cbn. by destruct (sub_step e rev x). Qed.

(** A closed subscription stays closed, and nobody changes its identity. *)
Lemma step_identity e rev x :
  su_subscriber_id (sub_step e rev x).1 = su_subscriber_id x ∧
  (Subscription.is_closed (sub_step e rev x).1 = false → Subscription.is_closed x = false).
Proof.
  assert (∀ x, su_subscriber_id (Subscription.close x).1 = su_subscriber_id x ∧
    Subscription.is_closed (Subscription.close x).1 = true) as Hc.
  { intros y. unfold Subscription.close. destruct (su_budget y); by split. }
  assert (∀ x, su_subscriber_id (resync x).1 = su_subscriber_id x ∧
    (Subscription.is_closed (resync x).1 = false → Subscription.is_closed x = false)) as Hr.
  { intros y. unfold resync. destruct (Subscription.is_closed y) eqn:E; [cbn; by rewrite E|].
    cbn [su_budget with_resync_pending clear_queue with_queue_bytes with_queue]. destruct (su_budget y); by split. }
  unfold Subscription.is_closed in *.
  destruct e as [d r c|r c| |q r now|r sn l|r sn|r sn| |]; cbn [sub_step]; try apply Hr.
  - unfold Subscription.push_delta, Subscription.is_closed. destruct (bool_decide (su_budget x = Closed)) eqn:Ec; cbn [orb]; [cbn; by rewrite Ec|].
    destruct (_ || _); [done|]. cbv zeta. set (x1 := with_queue _ _). destruct (_ || _); [|done]. set (x2 := with_resync_count _ x1).
    destruct (_ <=? _); [|destruct (Hr x2); split; [done|auto]]. destruct (Hc x2) as [H1 H2]. destruct (Subscription.close x2). cbn in *. by rewrite H1.
  - unfold on_budget_available. destruct (su_budget x) eqn:E; try (split; cbn; by rewrite ?E). destruct (_ =? _); split; cbn; by rewrite ?E.
  - unfold on_frame_written. destruct (_ || _); [done|]. destruct (su_budget x) eqn:E; split; cbn; by rewrite ?E.
  - unfold on_buffer_released. destruct (remove_first r _); [done|]. destruct (negb _); [done|].
    destruct (su_budget x) eqn:E; try (split; cbn; by rewrite ?E). destruct (su_resync_pending x); split; cbn; by rewrite ?E.
  - unfold on_deadline. destruct (matches _ _ x) eqn:E; [|done]. destruct (Hc x) as [H1 H2]. destruct (Subscription.close x). cbn in *.
    by rewrite H2.
  - destruct (Hc x) as [H1 H2]. by rewrite H2.
  - unfold drain_to_wire. destruct (_ || _) eqn:E; [done|]. by destruct (Replica.merge (su_queue x)).
Qed.

Lemma evolves_identity x x' :
  evolves x x' → su_subscriber_id x' = su_subscriber_id x ∧
    (Subscription.is_closed x' = false → Subscription.is_closed x = false).
Proof.
  intros [es <-]. revert x. induction es as [|[e rev] es IH]; intros x; [done|]. cbn [sub_run].
  pose proof (step_identity e rev x) as [H1 H2]. destruct (sub_step e rev x) as [x1 fx]. destruct (IH x1) as [H3 H4].
  destruct (sub_run es x1). cbn in *. split; [congruence|auto].
Qed.

(** Only a push adds to the queue. *)
Lemma quiet_queue e rev x : quiet_event e → su_queue (sub_step e rev x).1 = [] ∨ su_queue (sub_step e rev x).1 = su_queue x.
Proof.
  intros He. assert (∀ y, su_queue (Subscription.close y).1 = []) as Hc by (intros y; unfold Subscription.close; by destruct (su_budget y)).
  assert (∀ y, su_queue (resync y).1 = [] ∨ su_queue (resync y).1 = su_queue y) as Hr.
  { intros y. unfold resync. case_match; [by right|]. cbn. destruct (su_budget y); by left. }
  destruct e as [d r c|r c| |q r now|r sn l|r sn|r sn| |]; cbn [sub_step]; try done; auto.
  - unfold on_budget_available. destruct (su_budget x); auto. case_match; auto.
  - unfold on_frame_written. destruct (_ || _); [auto|]. destruct (su_budget x); auto.
  - unfold on_buffer_released. destruct (remove_first r _); [auto|]. destruct (negb _); [auto|].
    destruct (su_budget x); auto. destruct (su_resync_pending x); auto.
  - unfold on_deadline. destruct (matches _ _ x); [|auto]. pose proof (Hc x). destruct (Subscription.close x). auto.
  - unfold drain_to_wire. destruct (_ || _); [auto|]. destruct (Replica.merge _); auto.
Qed.

(** ** Actions *)

Definition flushes (out : list SessOut) : Z :=
  zlen (omap (λ o, match o with OFlushTimer => Some tt | _ => None end) out).
Lemma flushes_app o1 o2 : flushes (o1 ++ o2) = flushes o1 + flushes o2.
Proof. unfold flushes. by rewrite omap_app, zlen_app. Qed.
Definition flag (s : Session) : Z := if se_flush_scheduled s then 1 else 0.

(** Subscriptions evolve, a queue grows only if a flush is scheduled then, and
    the flag counts the timers. *)
Record acts (s : Session) (r : Session * list SessOut) : Prop := {
  ac_next : se_next_sub_id r.1 = se_next_sub_id s;
  ac_subs : ∀ i x', se_subs r.1 !! i = Some x' → ∃ x, se_subs s !! i = Some x ∧ evolves (sub_s x) (sub_s x') ∧
    (su_queue (sub_s x') = [] ∨ su_queue (sub_s x') = su_queue (sub_s x) ∨ se_flush_scheduled r.1 = true);
  ac_timer : flag r.1 = flag s + flushes r.2;
}.

Lemma acts_same s s' out :
  se_subs s' = se_subs s → se_next_sub_id s' = se_next_sub_id s → se_flush_scheduled s' = se_flush_scheduled s →
  flushes out = 0 → acts s (s', out).
Proof.
  intros E1 E2 E3 E4. split; cbn; [done| |unfold flag; rewrite E3; lia].
  rewrite E1. intros i x Hx. exists x. split; [done|]. split; [apply evolves_refl|auto].
Qed.

Lemma acts_trans s s1 o1 r : acts s (s1, o1) → acts s1 r → acts s (r.1, o1 ++ r.2).
Proof.
  intros [N1 S1 T1] [N2 S2 T2]. cbn in *. split; cbn; [congruence| |rewrite flushes_app; lia].
  intros i x2 Hx2. destruct (S2 i x2 Hx2) as (x1 & Hx1 & V1 & Q1). destruct (S1 i x1 Hx1) as (x & Hx & V & Q).
  exists x. split; [done|]. split; [by eapply evolves_trans|].
  destruct Q1 as [Q1|[Q1|Q1]]; [by left| |by right; right]. rewrite Q1. destruct Q as [Q|[Q|Q]]; [by left|by right; left|].
  right. right. unfold flag in T2. rewrite Q in T2.
  assert (0 <= flushes r.2) by apply zlen_nonneg. destruct (se_flush_scheduled r.1); [done|lia].
Qed.

Lemma acts_then a b s : (∀ s, acts s (a s)) → (∀ s, acts s (b s)) → acts s (andthen a b s).
Proof.
  intros Ha Hb. unfold andthen. specialize (Ha s). destruct (a s) as [s1 o1]. specialize (Hb s1).
  pose proof (acts_trans s s1 o1 (b s1) Ha Hb). by destruct (b s1).
Qed.

Lemma acts_loop {A} (l : list A) f s : (∀ x s, acts s (f x s)) → acts s (for_each l f s).
Proof.
  intros Hf. revert s. induction l as [|x l IH]; intros s; [by apply acts_same|]. rewrite for_each_cons.
  pose proof (Hf x s) as Hx. destruct (f x s) as [s1 o1]. pose proof (acts_trans s s1 o1 _ Hx (IH s1)).
  by destruct (for_each l f s1).
Qed.

Section book.
Context (xxh3_64 xxh3_128 crc32c : list byte → Z) (env : Env).
#[local] Abbreviation on_sub := (on_sub xxh3_128 env).
#[local] Abbreviation apply := (Session.apply xxh3_128 env).

(** Performing effects leaves the subscriptions as they are, or removes one. *)
Definition keeps_subs (s : Session) (r : Session * list SessOut) : Prop :=
  ∃ m, r.1 = with_subs m s ∧ flushes r.2 = 0 ∧
    ∀ i x', m !! i = Some x' → ∃ x, se_subs s !! i = Some x ∧ sub_s x' = sub_s x.

Lemma keeps_same s out : flushes out = 0 → keeps_subs s (s, out).
Proof. intros Hf. exists (se_subs s). rewrite with_subs_eta. eauto. Qed.

Lemma keeps_insert id x x' s out :
  se_subs s !! id = Some x → sub_s x' = sub_s x → flushes out = 0 →
  keeps_subs s (with_subs (<[id := x']> (se_subs s)) s, out).
Proof.
  intros Hx Es Hf. eexists. split; [done|]. split; [done|]. intros i y Hy. destruct (decide (i = id)) as [->|Hne].
  - rewrite lookup_insert_eq in Hy. injection Hy as <-. eauto.
  - rewrite lookup_insert_ne in Hy by done. eauto.
Qed.

Lemma keeps_trans s s1 o1 r : keeps_subs s (s1, o1) → keeps_subs s1 r → keeps_subs s (r.1, o1 ++ r.2).
Proof.
  intros (m & E & F & H) (m2 & E2 & F2 & H2). cbn in *. subst s1. rewrite E2. exists m2. split; [done|].
  cbn [snd]. rewrite flushes_app. split; [lia|]. intros i x2 Hx2. destruct (H2 i x2 Hx2) as (x1 & Hx1 & S1).
  destruct (H i x1 Hx1) as (x & Hx & S). exists x. split; [done|congruence].
Qed.

Lemma effect_keeps id rt e s : keeps_subs s (apply_effect xxh3_128 env id rt e s).
Proof.
  destruct e as [a|d|q1 q2|q1 q2|r|i1 i2 i3|i1 i2|i1 i2 i3 at_ms|i1|i1]; cbn [apply_effect];
    try (by apply keeps_same).
  - destruct (se_subs s !! id); by apply keeps_same.
  - destruct (se_subs s !! id) as [x|] eqn:Hx; [|by apply keeps_same]. by eapply keeps_insert.
  - destruct (se_subs s !! i1) as [x|] eqn:Hx; [|unfold build_snapshot; rewrite Hx; by apply keeps_same].
    rewrite (build_snapshot_eq xxh3_128 _ _ _ _ _ Hx). eapply keeps_insert; [done|done|].
    unfold flushes. generalize (imap pair (snapshot_payloads (snapshot_body xxh3_128 s x))).
    generalize (length (snapshot_payloads (snapshot_body xxh3_128 s x))). intros n l. induction l as [|p l IH]; [done|].
    exact IH.
  - destruct (se_subs s !! id); by apply keeps_same.
  - unfold andthen, emit, update, skip. destruct (se_subs s !! id) as [x|] eqn:Hx; [|by apply keeps_same].
    destruct (sub_deadline x); by eapply keeps_insert.
  - unfold andthen, emit, update, skip. destruct (se_subs s !! id) as [x|] eqn:Hx; [|by apply keeps_same].
    destruct (sub_deadline x); by eapply keeps_insert.
  - destruct (se_subs s !! id); by apply keeps_same.
Qed.

Lemma apply_keeps id fx rt s : keeps_subs s (apply id fx rt s).
Proof.
  unfold Session.apply, andthen.
  assert (keeps_subs s (for_each fx (apply_effect xxh3_128 env id rt) s)) as Hf.
  { revert s. induction fx as [|e fx IH]; intros s; [by apply keeps_same|]. rewrite for_each_cons.
    pose proof (effect_keeps id rt e s) as He. destruct (apply_effect xxh3_128 env id rt e s) as [s1 o1].
    pose proof (keeps_trans s s1 o1 _ He (IH s1)). by destruct (for_each fx _ s1). }
  destruct (for_each fx _ s) as [s1 o1]. assert (keeps_subs s1 (reap id s1)) as Hr.
  { unfold reap. destruct (se_subs s1 !! id) as [x|] eqn:Hx; [|by apply keeps_same]. destruct (_ && _); [|by apply keeps_same].
    exists (delete id (se_subs s1)). unfold andthen, update, emit, skip. split; [by destruct (sub_deadline x)|].
    split; [by destruct (sub_deadline x)|]. intros i y Hy. apply lookup_delete_Some in Hy as [_ Hy]. eauto. }
  pose proof (keeps_trans s s1 o1 _ Hf Hr). by destruct (reap id s1).
Qed.

(** One operation on one subscription. *)
Lemma on_sub_subs id f rt s :
  ∃ m, (on_sub id f rt s).1 = with_subs m s ∧ flushes (on_sub id f rt s).2 = 0 ∧
    ∀ i x', m !! i = Some x' → ∃ x, se_subs s !! i = Some x ∧
      sub_s x' = if decide (i = id) then (f (sub_s x)).1 else sub_s x.
Proof.
  unfold Session.on_sub. destruct (se_subs s !! id) as [x|] eqn:Hx.
  - destruct (f (sub_s x)) as [σ fx] eqn:Ef.
    destruct (apply_keeps id fx rt (with_subs (<[id := set_sub_s σ x]> (se_subs s)) s)) as (m & E & F & H).
    rewrite E. exists m. split; [done|]. split; [done|]. intros i x' Hx'. destruct (H i x' Hx') as (y & Hy & S).
    cbn in Hy. case_decide as Hd; [subst i|].
    + rewrite lookup_insert_eq in Hy. injection Hy as <-. exists x. split; [done|]. by rewrite Ef.
    + rewrite lookup_insert_ne in Hy by done. eauto.
  - destruct (apply_keeps id [] rt s) as (m & E & F & H). rewrite E. exists m. split; [done|]. split; [done|].
    intros i x' Hx'. destruct (H i x' Hx') as (y & Hy & S). exists y. split; [done|]. rewrite decide_False by congruence. done.
Qed.

Lemma on_sub_acts id e rev s : quiet_event e → acts s (on_sub id (sub_step e rev) None s).
Proof.
  intros He. destruct (on_sub_subs id (sub_step e rev) None s) as (m & E & F & H).
  destruct (on_sub id (sub_step e rev) None s) as [s' out]. cbn in *. subst s'. split; cbn; [done| |unfold flag; cbn; lia].
  intros i x' Hx'. destruct (H i x' Hx') as (x & Hx & S). exists x. split; [done|]. rewrite S. case_decide.
  - split; [apply evolves_step|]. destruct (quiet_queue e rev (sub_s x) He); auto.
  - split; [apply evolves_refl|auto].
Qed.

(** The session agrees on what the invariants are about. *)
Definition same_book (s s' : Session) : Prop :=
  se_subs s' = se_subs s ∧ se_next_sub_id s' = se_next_sub_id s ∧ se_flush_scheduled s' = se_flush_scheduled s.

Lemma acts_pre s s1 r : same_book s s1 → acts s1 r → acts s r.
Proof.
  intros (E1 & E2 & E3) [N S T]. split; [congruence| |unfold flag in *; rewrite <- E3; exact T]. by rewrite <- E1.
Qed.

Lemma emit_acts o s : o ≠ OFlushTimer → acts s (emit o s).
Proof. intros Ho. apply acts_same; try done. by destruct o. Qed.
Lemma skip_acts s : acts s (skip s).
Proof. by apply acts_same. Qed.
Lemma update_acts f s : same_book s (f s) → acts s (update f s).
Proof. intros (E1 & E2 & E3). by apply acts_same. Qed.
Lemma reply_acts conn rid m s : acts s (reply conn rid m s).
Proof. by apply emit_acts. Qed.
Lemma reply_err_acts conn rid d t s : acts s (reply_err conn rid d t s).
Proof. by apply emit_acts. Qed.
Lemma event_acts conn m s : acts s (event_to conn m s).
Proof. by apply emit_acts. Qed.
Lemma holder_acts h m s : acts s (send_holder h m s).
Proof. unfold send_holder. case_match; [apply event_acts|apply skip_acts]. Qed.
Lemma pump_acts s : acts s (pump_write env s).
Proof. unfold pump_write. repeat case_match; by apply acts_same. Qed.

Lemma schedule_acts s : acts s (schedule_flush s) ∧ se_flush_scheduled (schedule_flush s).1 = true.
Proof.
  unfold schedule_flush. destruct (se_flush_scheduled s) eqn:E; [split; [by apply acts_same|done]|].
  split; [|done]. split; cbn; [done| |unfold flag; by rewrite E].
  intros i x Hx. exists x. split; [done|]. split; [apply evolves_refl|auto].
Qed.

(** A loop over subscriptions, whatever it does to the queues. *)
Lemma subs_evolve ids f rev s :
  let r := for_each ids (λ id, on_sub id (sub_step (f id) rev) None) s in
  (∃ m, r.1 = with_subs m s) ∧ flushes r.2 = 0 ∧
  ∀ i x', se_subs r.1 !! i = Some x' → ∃ x, se_subs s !! i = Some x ∧ evolves (sub_s x) (sub_s x').
Proof.
  cbv zeta. revert s. induction ids as [|id ids IH]; intros s.
  { split; [exists (se_subs s); by rewrite with_subs_eta|]. split; [done|]. intros i x Hx. exists x. split; [done|apply evolves_refl]. }
  rewrite for_each_cons. destruct (on_sub_subs id (sub_step (f id) rev) None s) as (m & E & F & H).
  destruct (on_sub id (sub_step (f id) rev) None s) as [s1 o1]. cbn in E, F. subst s1. specialize (IH (with_subs m s)).
  destruct (for_each ids _ (with_subs m s)) as [s2 o2]. cbn [fst snd] in *. destruct IH as ([m2 ->] & F2 & H2).
  split; [by exists m2|]. split; [rewrite flushes_app; lia|]. intros i x2 Hx2. destruct (H2 i x2 Hx2) as (x1 & Hx1 & V1).
  destruct (H i x1 Hx1) as (x & Hx & S). exists x. split; [done|]. rewrite S in V1. case_decide; [|done].
  subst i. eapply evolves_trans; [apply evolves_step|done].
Qed.

Lemma push_acts d s : acts s (push_delta xxh3_128 env d s).
Proof.
  unfold push_delta, andthen.
  destruct (subs_evolve (sub_ids s) (λ _, WPush d (ht_replica (se_term s)) 0) 0 s) as ([m E] & F & H).
  change (λ id, on_sub id (sub_step (WPush d (ht_replica (se_term s)) 0) 0) None)
    with (λ id, on_sub id (Subscription.push_delta d) None) in *.
  destruct (for_each (sub_ids s) _ s) as [s1 o1]. cbn in E, F, H. subst s1.
  destruct (schedule_acts (with_subs m s)) as [[N S T] Hf]. destruct (schedule_flush (with_subs m s)) as [s2 o2].
  cbn in *. split; cbn; [done| |rewrite flushes_app; unfold flag in *; cbn in T; lia].
  intros i x2 Hx2. destruct (S i x2 Hx2) as (x1 & Hx1 & V1 & _). destruct (H i x1 Hx1) as (x & Hx & V).
  exists x. split; [done|]. split; [by eapply evolves_trans|auto].
Qed.

Lemma quiet_loop ids e rev s :
  (∀ i, quiet_event (e i)) → acts s (for_each ids (λ id, on_sub id (sub_step (e id) rev) None) s).
Proof. intros He. apply acts_loop. intros id s1. by apply on_sub_acts. Qed.

Lemma publish_acts adv s : acts s (publish xxh3_128 env adv s).
Proof.
  unfold publish. apply acts_then; [intros s1; apply acts_loop; intros r s2; by apply update_acts|].
  intros s1. apply acts_then; [apply pump_acts|]. intros s2. destruct (ad_rewritten adv).
  - eapply acts_pre; [|exact (quiet_loop _ (λ _, WResync) 0 _ (λ _, I))]. done.
  - destruct (ad_delta adv) as [d|]; [|apply skip_acts]. destruct (_ && _); [apply skip_acts|].
    eapply acts_pre; [|apply push_acts]. by destruct (state_changed d).
Qed.

Lemma compress_acts s : acts s (compress_on_output env s).
Proof. unfold compress_on_output. destruct (Compress.on_output _ _) as [t [d|]]; by apply acts_same. Qed.

Lemma feed_acts s r : feed_terminal xxh3_64 xxh3_128 env s = Some r → acts s r.
Proof.
  unfold feed_terminal. destruct (env_vt env) as [[v cbs] tr]. destruct (terminal_call _ _ _ _ _) as [[t adv]|]; [|done].
  cbn. intros [= <-]. eapply acts_pre; [|apply acts_then; [apply publish_acts|apply compress_acts]]. done.
Qed.

Lemma finish_acts info s : acts s (finish_child xxh3_128 env info s).
Proof.
  unfold finish_child. destruct (se_exit s); [apply skip_acts|].
  destruct (match info with Some i => _ | None => _ end) as [i|]; [|apply skip_acts].
  eapply acts_pre; [|apply acts_then; [apply push_acts|intros s1; apply acts_then; [intros ?; by apply emit_acts|]]]; [done|].
  intros s2. apply acts_loop. intros conn s3. apply event_acts.
Qed.

Lemma fresh_book scope who rid s : same_book s (lease_fresh scope who rid s).1.
Proof. unfold lease_fresh. destruct scope; [by destruct (ledger_fresh _ _ _)|by destruct (resize_fresh _ _ _)]. Qed.

Lemma same_book_trans s1 s2 s3 : same_book s1 s2 → same_book s2 s3 → same_book s1 s3.
Proof. unfold same_book. intros (? & ? & ?) (? & ? & ?). split_and!; congruence. Qed.

Lemma acquire_acts conn rid a s : acts s (acquire conn rid a s).
Proof.
  unfold acquire. pose proof (fresh_book (acq_scope a) (acq_client_instance_id a) (acq_lease_request_id a)
    (register_holder (acq_client_instance_id a) conn s)) as Hb.
  destruct (lease_fresh _ _ _ _) as [s1 ok]. cbn in Hb. assert (same_book s s1) as Hb' by done.
  destruct ok; cbn [negb]; [|apply (acts_pre _ s1); [done|apply skip_acts]]. destruct (acq_scope a).
  - destruct (Input.acquire _ _) as [l [g|e]]; (eapply acts_pre; [exact Hb'|]);
      [apply (acts_pre _ (with_ledger l s1)); [done|]; apply acts_then; [intros ?; apply reply_acts|]|
       apply (acts_pre _ (with_ledger l s1)); [done|apply reply_err_acts]].
    intros s2. destruct (gr_revoked g); [apply holder_acts|apply skip_acts].
  - destruct (resize_acquire _ _) as [l [[e ap] rv]]. apply (acts_pre _ (with_resize l s1)); [done|].
    apply acts_then; [intros ?; apply reply_acts|]. intros s2. destruct rv as [[h pe]|]; [apply holder_acts|apply skip_acts].
Qed.

Lemma release_acts conn rid r s : acts s (release conn rid r s).
Proof.
  unfold release. pose proof (fresh_book (rel_scope r) (rel_client_instance_id r) (rel_lease_request_id r)
    (register_holder (rel_client_instance_id r) conn s)) as Hb.
  destruct (lease_fresh _ _ _ _) as [s1 ok]. cbn in Hb. assert (same_book s s1) as Hb' by done.
  destruct ok; cbn [negb]; [|apply (acts_pre _ s1); [done|apply skip_acts]].
  set (p := match rel_scope r with Scope_Input => _ | Scope_Resize => _ end).
  assert (same_book s p.1.1.1) as Hp.
  { unfold p. destruct (rel_scope r); [by destruct (Input.release _ _ _) as [l [b rv]]|by destruct (resize_release _ _ _) as [l [b rv]]]. }
  destruct p as [[[s2 e] rel] rvs]. cbn in Hp. apply (acts_pre _ s2); [done|]. apply acts_then; [intros ?; apply reply_acts|].
  intros s3. destruct rel; [|apply skip_acts]. apply acts_loop. intros h s4. apply holder_acts.
Qed.

Lemma reclaim_acts conn rid r s : acts s (reclaim conn rid r s).
Proof.
  unfold reclaim. pose proof (fresh_book (rcl_scope r) (rcl_client_instance_id r) (rcl_lease_request_id r)
    (register_holder (rcl_client_instance_id r) conn s)) as Hb.
  destruct (lease_fresh _ _ _ _) as [s1 ok]. cbn in Hb. assert (same_book s s1) as Hb' by done.
  destruct ok; cbn [negb]; [|apply (acts_pre _ s1); [done|apply skip_acts]]. destruct (rcl_scope r).
  - destruct (Input.reclaim _ _ _) as [l [[[? ?]|[[[? ?] ?] ?]]|?]]; (apply (acts_pre _ (with_ledger l s1)); [done|]);
      [apply reply_acts..|apply reply_err_acts].
  - destruct (resize_reclaim _ _ _) as [l [[ok cur] ap]]. apply (acts_pre _ (with_resize l s1)); [done|apply reply_acts].
Qed.

Lemma write_acts conn rid w s r : write_input crc32c env conn rid w s = Some r → acts s r.
Proof.
  unfold write_input. destruct (write _ _ _ _ _ _ _) as [[l res]|]; [|done]. cbn [mbind option_bind]. intros [= <-].
  eapply (acts_pre _ (with_ledger l (register_holder (wi_client_instance_id w) conn s))); [done|].
  destruct res as [ack|[err rv]].
  - apply acts_then; [intros ?; apply reply_acts|intros ?; apply pump_acts].
  - destruct (write_error err) as [d t]. apply acts_then; [intros ?; apply reply_err_acts|]. intros s2.
    destruct rv as [[rv hs]|]; [|apply skip_acts]. apply acts_then; [intros ?; apply holder_acts|].
    intros s3. apply acts_loop. intros h s4. apply holder_acts.
Qed.

(** ** The flush *)

(** Nothing is queued while a resync is pending, or after closing. *)
Definition tidy (x : Subscription) : Prop :=
  su_resync_pending x || Subscription.is_closed x = true → su_queue x = [].

Lemma tidy_nil x : su_queue x = [] → tidy x.
Proof. by intros Hq _. Qed.
Lemma tidy_open x : su_resync_pending x = false → Subscription.is_closed x = false → tidy x.
Proof. intros Hp Hc. unfold tidy. by rewrite Hp, Hc. Qed.
Lemma tidy_same x x' :
  tidy x → su_resync_pending x' = su_resync_pending x → Subscription.is_closed x' = Subscription.is_closed x →
  su_queue x' = su_queue x → tidy x'.
Proof. intros Hx E1 E2 E3. unfold tidy. by rewrite E1, E2, E3. Qed.

Lemma step_tidy e rev x : tidy x → tidy (sub_step e rev x).1.
Proof.
  intros Hx.
  assert (∀ y, tidy (Subscription.close y).1) as Hc by (intros y; apply tidy_nil; unfold Subscription.close; by destruct (su_budget y)).
  assert (∀ y, tidy y → tidy (resync y).1) as Hr.
  { intros y Hy. unfold resync. destruct (Subscription.is_closed y); [done|]. cbn. by destruct (su_budget y); apply tidy_nil. }
  destruct (Subscription.is_closed x) eqn:Ecl.
  { (* closed: the queue is empty, and no operation adds to it *)
    assert (su_queue x = []) as Hq by (apply Hx; by rewrite Ecl, orb_true_r). apply tidy_nil.
    assert (su_queue (sub_step e rev x).1 = [] ∨ su_queue (sub_step e rev x).1 = su_queue x) as [H|H]; [|done|by rewrite H].
    destruct e; try (by apply quiet_queue). cbn [sub_step]. unfold Subscription.push_delta. rewrite Ecl. by right. }
  destruct e as [d r c|r c| |q r now|r sn l|r sn|r sn| |]; cbn [sub_step]; auto.
  - unfold Subscription.push_delta. rewrite Ecl. destruct (su_resync_pending x) eqn:Ep; cbn [orb]; [done|].
    destruct (negb _); [done|]. cbv zeta. set (x1 := with_queue _ _). destruct (_ || _); [|by apply tidy_open].
    set (x2 := with_resync_count _ x1). destruct (_ <=? _); [pose proof (Hc x2); by destruct (Subscription.close x2)|].
    apply Hr. by apply tidy_open.
  - unfold on_budget_available. destruct (su_budget x); try done; destruct (_ =? _); try done; by apply tidy_open.
  - unfold on_frame_written. destruct (_ || _); [done|]. destruct (su_budget x) eqn:Eb; try done.
    apply (tidy_same x); try done; unfold Subscription.is_closed; cbn; by rewrite Eb.
  - unfold on_buffer_released. destruct (remove_first r _); [by apply (tidy_same x)|]. destruct (negb _); [done|].
    destruct (su_budget x) eqn:Eb; try done.
    destruct (su_resync_pending x) eqn:Ep; [|by apply tidy_open]. apply tidy_nil. cbn. apply Hx. by rewrite Ep.
  - unfold on_deadline. destruct (matches _ _ x); [|done]. pose proof (Hc x). by destruct (Subscription.close x).
  - unfold drain_to_wire. rewrite Ecl. destruct (su_resync_pending x) eqn:Ep; cbn [orb]; [done|].
    destruct (Replica.merge (su_queue x)); by apply tidy_nil.
Qed.

Lemma evolves_tidy x x' : evolves x x' → tidy x → tidy x'.
Proof.
  intros [es <-]. revert x. induction es as [|[e rev] es IH]; intros x Hx; [done|]. cbn [sub_run].
  pose proof (step_tidy e rev x Hx). destruct (sub_step e rev x) as [x1 fx]. specialize (IH x1). destruct (sub_run es x1). auto.
Qed.

Definition all_tidy (s : Session) : Prop := ∀ i x, se_subs s !! i = Some x → tidy (sub_s x).

(** Without a backlog every visited queue is empty afterwards. *)
Lemma flush_loop_spec ids b s :
  NoDup ids → all_tidy s →
  let '(s', out, b') := flush_loop xxh3_128 env ids b s in
  (∃ m, s' = with_subs m s) ∧ flushes out = 0 ∧
  (∀ i x', se_subs s' !! i = Some x' → ∃ x, se_subs s !! i = Some x ∧ evolves (sub_s x) (sub_s x') ∧ (i ∉ ids → sub_s x' = sub_s x)) ∧
  (b' = false → b = false ∧ ∀ i x', i ∈ ids → se_subs s' !! i = Some x' → su_queue (sub_s x') = []).
Proof.
  revert b s. induction ids as [|id ids IH]; intros b s Hnd Ht; cbn [flush_loop].
  { split; [exists (se_subs s); by rewrite with_subs_eta|]. split; [done|]. split.
    - intros i x Hx. exists x. split; [done|]. split; [apply evolves_refl|done].
    - intros ->. split; [done|]. by intros i x Hi%not_elem_of_nil. }
  apply NoDup_cons in Hnd as [Hni Hnd].
  set (hd := match se_subs s !! id with Some _ => _ | None => _ end).
  assert (∃ m s1 o1 b1, hd = (s1, o1, b1) ∧ s1 = with_subs m s ∧ flushes o1 = 0 ∧
    (∀ i x', m !! i = Some x' → ∃ x, se_subs s !! i = Some x ∧ evolves (sub_s x) (sub_s x') ∧ (i ≠ id → sub_s x' = sub_s x)) ∧
    (b1 = false → b = false ∧ ∀ x', m !! id = Some x' → su_queue (sub_s x') = [])) as (m & s1 & o1 & b1 & -> & -> & F & H & Hb).
  { unfold hd. destruct (se_subs s !! id) as [x|] eqn:Hx.
    - destruct (env_queued env id <? FLUSH_BACKLOG).
      + destruct (on_sub_subs id Subscription.drain_to_wire None s) as (m & E & F & H).
        destruct (on_sub id Subscription.drain_to_wire None s) as [s1 o1]. cbn in E, F. exists m, s1, o1, b. split; [done|].
        split; [done|]. split; [done|]. split.
        * intros i x' Hx'. destruct (H i x' Hx') as (y & Hy & S); exists y; (split; [done|]); rewrite S. case_decide; [|split; [apply evolves_refl|done]].
          split; [apply (evolves_step WDrain 0)|done].
        * intros ->. split; [done|]. intros x' Hx'. destruct (H id x' Hx') as (y & Hy & S).
          rewrite decide_True in S by done. rewrite S. unfold drain_to_wire.
          destruct (_ || _) eqn:Ep; [by apply (Ht id y Hy)|]. by destruct (Replica.merge _).
      + destruct (apply_keeps id [] None s) as (m & E & F & H). destruct (apply id [] None s) as [s1 o1]. cbn in E, F.
        exists m, s1, o1, (b || bool_decide (su_queue (sub_s x) ≠ [])). split; [done|]. split; [done|]. split; [done|]. split.
        * intros i x' Hx'. destruct (H i x' Hx') as (y & Hy & S). exists y. split; [done|]. rewrite S. split; [apply evolves_refl|done].
        * intros Hbb. apply orb_false_iff in Hbb as [-> Hq]. split; [done|]. intros x' Hx'. destruct (H id x' Hx') as (y & Hy & S).
          apply bool_decide_eq_false in Hq. rewrite S. rewrite Hx in Hy. injection Hy as <-. by apply dec_stable.
    - destruct (apply_keeps id [] None s) as (m & E & F & H). destruct (apply id [] None s) as [s1 o1]. cbn in E, F.
      exists m, s1, o1, b. split; [done|]. split; [done|]. split; [done|]. split.
      + intros i x' Hx'. destruct (H i x' Hx') as (y & Hy & S). exists y. split; [done|]. rewrite S. split; [apply evolves_refl|done].
      + intros ->. split; [done|]. intros x' Hx'. destruct (H id x' Hx') as (y & Hy & S). congruence. }
  assert (all_tidy (with_subs m s)) as Ht1.
  { intros i x' Hx'. destruct (H i x' Hx') as (x & Hx & V & _). eapply evolves_tidy; [done|]. by apply (Ht i). }
  specialize (IH b1 (with_subs m s) Hnd Ht1). destruct (flush_loop xxh3_128 env ids b1 (with_subs m s)) as [[s2 o2] b2].
  destruct IH as ([m2 ->] & F2 & H2 & Hb2). split; [by exists m2|]. split; [rewrite flushes_app; lia|]. split.
  - intros i x2 Hx2. destruct (H2 i x2 Hx2) as (x1 & Hx1 & V1 & K1). destruct (H i x1 Hx1) as (x & Hx & V & K).
    exists x. split; [done|]. split; [by eapply evolves_trans|]. intros Hi. apply not_elem_of_cons in Hi as [Hi1 Hi2].
    rewrite K1 by done. by apply K.
  - intros E2. destruct (Hb2 E2) as [E1 Q1]. destruct (Hb E1) as [E0 Q0]. split; [done|]. intros i x2 Hi Hx2.
    apply elem_of_cons in Hi as [->|Hi]; [|by eapply Q1]. destruct (H2 id x2 Hx2) as (x1 & Hx1 & _ & K1).
    rewrite K1 by done. by apply Q0.
Qed.

(** ** The invariant *)

Definition opened (x : Sub) : Prop := Subscription.is_closed (sub_s x) = false.
Definition open_keys (s : Session) : list Z :=
  (filter (λ p, Subscription.is_closed (sub_s p.2) = false) (bt_iter (se_subs s))).*1.

Lemma elem_of_open_keys s i : i ∈ open_keys s ↔ ∃ x, se_subs s !! i = Some x ∧ opened x.
Proof.
  unfold open_keys. rewrite list_elem_of_fmap. split.
  - intros ([j x] & -> & Hin). apply list_elem_of_filter in Hin as [Ho Hin]. apply elem_of_bt_iter in Hin. eauto.
  - intros (x & Hx & Ho). exists (i, x). split; [done|]. apply list_elem_of_filter. split; [done|]. by apply elem_of_bt_iter.
Qed.

Lemma open_keys_NoDup s : NoDup (open_keys s).
Proof.
  unfold open_keys. apply NoDup_fmap_fst; [|apply NoDup_filter, NoDup_bt_iter]. intros i x y Hx Hy.
  apply list_elem_of_filter in Hx as [_ Hx], Hy as [_ Hy]. apply elem_of_bt_iter in Hx, Hy. congruence.
Qed.

Lemma open_count_keys s : open_count s = zlen (open_keys s).
Proof. unfold open_count, open_keys, zlen. by rewrite length_fmap. Qed.

Lemma open_count_le s l : (∀ i x, se_subs s !! i = Some x → opened x → i ∈ l) → open_count s <= zlen l.
Proof.
  intros Hl. rewrite open_count_keys. unfold zlen. apply inj_le, submseteq_length, NoDup_submseteq; [apply open_keys_NoDup|].
  intros i Hi. apply elem_of_open_keys in Hi as (x & Hx & Ho). eauto.
Qed.

Record book (s : Session) : Prop := {
  bk_tidy : all_tidy s;
  bk_flush : ∀ i x, se_subs s !! i = Some x → su_queue (sub_s x) ≠ [] → se_flush_scheduled s = true;
  bk_unique : ∀ i j x y, se_subs s !! i = Some x → se_subs s !! j = Some y → opened x → opened y →
    su_subscriber_id (sub_s x) = su_subscriber_id (sub_s y) → i = j;
  bk_count : open_count s <= MAX_SUBSCRIBERS;
  bk_ids : ∀ i, is_Some (se_subs s !! i) → i < se_next_sub_id s;
}.

(** Subscriptions that evolve stay within the bounds. *)
Lemma evolve_book s s' :
  book s → se_next_sub_id s' = se_next_sub_id s →
  (∀ i x', se_subs s' !! i = Some x' → ∃ x, se_subs s !! i = Some x ∧ evolves (sub_s x) (sub_s x')) →
  (∀ i x, se_subs s' !! i = Some x → su_queue (sub_s x) ≠ [] → se_flush_scheduled s' = true) → book s'.
Proof.
  intros [B1 B2 B3 B4 B5] Hn He Hq. split.
  - intros i x' Hx'. destruct (He i x' Hx') as (x & Hx & V). eapply evolves_tidy; [done|]. by eapply B1.
  - done.
  - intros i j x' y' Hx' Hy' Ho1 Ho2 Es. destruct (He i x' Hx') as (x & Hx & V), (He j y' Hy') as (y & Hy & W).
    destruct (evolves_identity _ _ V) as [S1 C1], (evolves_identity _ _ W) as [S2 C2].
    apply (B3 i j x y); try done; [by apply C1|by apply C2|congruence].
  - etrans; [|exact B4]. rewrite (open_count_keys s). apply open_count_le. intros i x' Hx' Ho.
    destruct (He i x' Hx') as (x & Hx & V). apply elem_of_open_keys. exists x. split; [done|]. by apply (evolves_identity _ _ V).
  - intros i [x' Hx']. destruct (He i x' Hx') as (x & Hx & _). rewrite Hn. apply B5. eauto.
Qed.

Lemma acts_book s r : acts s r → book s → book r.1.
Proof.
  intros [N S T] Hb. apply (evolve_book s); try done.
  - intros i x' Hx'. destruct (S i x' Hx') as (x & Hx & V & _). eauto.
  - intros i x' Hx' Hq. destruct (S i x' Hx') as (x & Hx & _ & [Q|[Q|Q]]); [done| |done].
    rewrite Q in Hq. pose proof (bk_flush _ Hb i x Hx Hq) as Hf. unfold flag in T. rewrite Hf in T.
    assert (0 <= flushes r.2) by apply zlen_nonneg. destruct (se_flush_scheduled r.1); [done|lia].
Qed.

(** ** Subscribing *)

Definition no_open (who : Uuid) (s : Session) : Prop :=
  ∀ i x, se_subs s !! i = Some x → opened x → su_subscriber_id (sub_s x) ≠ who.

Lemma start_fresh inc rev known id who seq :
  let x := (start_with_ack inc rev known (subscription_new id who seq)).1 in
  su_subscriber_id x = who ∧ su_queue x = [].
Proof. unfold start_with_ack. by case_match. Qed.

Definition grown (s : Session) (r : Session * list SessOut) : Prop :=
  book r.1 ∧ se_next_sub_id s <= se_next_sub_id r.1 <= se_next_sub_id s + 1 ∧ flag r.1 = flag s + flushes r.2.

Lemma acts_grown s r : acts s r → book s → grown s r.
Proof. intros Ha Hb. split; [by eapply acts_book|]. destruct Ha as [N _ T]. split; [lia|done]. Qed.

Lemma subscribe_new_book conn rid r s :
  book s → 0 <= se_next_sub_id s < u64_max → no_open (sub_subscriber_id r) s → grown s (subscribe_new xxh3_128 env conn rid r s).
Proof.
  intros Hb Hn Hno. unfold subscribe_new. destruct (Z.leb_spec MAX_SUBSCRIBERS (open_count s)) as [|Hlt].
  { apply acts_grown; [apply reply_err_acts|done]. }
  rewrite add64_id by (unfold u64_max in *; lia). set (id := se_next_sub_id s) in *.
  set (known := match sub_client_known_revision r with Some _ => _ | None => _ end).
  set (sub := mk_Sub _ _ _ _ _). set (s0 := with_subs _ _). set (f := start_with_ack _ _ known).
  destruct (on_sub_subs id f (Some rid) s0) as (m & E & F & H). destruct (on_sub id f (Some rid) s0) as [s' out]. cbn in E, F.
  subst s'. destruct (start_fresh (se_incarnation s0) (se_revision s0) known id (sub_subscriber_id r) (sub_attach_seq r)) as [Hs Hq].
  fold f in Hs, Hq.
  assert (∀ i x', m !! i = Some x' → i = id ∧ su_subscriber_id (sub_s x') = sub_subscriber_id r ∧ su_queue (sub_s x') = [] ∨
    i ≠ id ∧ ∃ x, se_subs s !! i = Some x ∧ sub_s x' = sub_s x) as Hm.
  { intros i x' Hx'. destruct (H i x' Hx') as (x & Hx & S). cbn in Hx. case_decide as Hd.
    - subst i. left. rewrite lookup_insert_eq in Hx. injection Hx as <-. rewrite S. done.
    - right. rewrite lookup_insert_ne in Hx by done. eauto. }
  destruct Hb as [B1 B2 B3 B4 B5]. split; [|split; [cbn; lia|cbn; unfold flag in *; cbn; lia]]. split; cbn [fst se_subs with_subs].
  - intros i x' Hx'. destruct (Hm i x' Hx') as [(-> & _ & Hqx)|(_ & x & Hx & ->)]; [by apply tidy_nil|by eapply B1].
  - intros i x' Hx'. destruct (Hm i x' Hx') as [(-> & _ & Hqx)|(_ & x & Hx & ->)]; [done|]. by apply (B2 i x).
  - intros i j x' y' Hx' Hy' Ho1 Ho2 Es. unfold opened in *.
    destruct (Hm i x' Hx') as [(-> & S1 & _)|(Ni & x & Hx & E1)], (Hm j y' Hy') as [(-> & S2 & _)|(Nj & y & Hy & E2)];
      rewrite ?E1, ?E2 in *; try done.
    + destruct (Hno j y Hy Ho2). congruence.
    + destruct (Hno i x Hx Ho1). congruence.
    + by apply (B3 i j x y).
  - trans (zlen (id :: open_keys s)); [|rewrite zlen_cons, <- open_count_keys; lia]. apply open_count_le.
    intros i x' Hx' Ho. destruct (Hm i x' Hx') as [(-> & _)|(_ & x & Hx & Ex)]; [by left|right].
    apply elem_of_open_keys. exists x. split; [done|]. unfold opened in *. by rewrite <- Ex.
  - intros i [x' Hx']. cbn. destruct (Hm i x' Hx') as [(-> & _)|(_ & x & Hx & _)]; [lia|]. specialize (B5 i ltac:(eauto)). lia.
Qed.

Lemma existing_None who s : existing who s = None → no_open who s.
Proof.
  unfold existing. intros Hh i x Hx Ho Hw. apply head_None in Hh.
  assert ((i, x) ∈ filter (λ p, su_subscriber_id (sub_s p.2) = who ∧ Subscription.is_closed (sub_s p.2) = false) (bt_iter (se_subs s))) as Hin
    by (apply list_elem_of_filter; split; [done|by apply elem_of_bt_iter]).
  rewrite Hh in Hin. by apply not_elem_of_nil in Hin.
Qed.

Lemma existing_found who s old x :
  existing who s = Some (old, x) → se_subs s !! old = Some x ∧ su_subscriber_id (sub_s x) = who ∧ opened x.
Proof.
  unfold existing. intros Hh. apply head_Some_elem_of in Hh. apply list_elem_of_filter in Hh as [[Hw Ho] Hin].
  split; [by apply elem_of_bt_iter|done].
Qed.

Lemma subscribe_book conn rid r s :
  book s → 0 <= se_next_sub_id s < u64_max → grown s (subscribe xxh3_128 env conn rid r s).
Proof.
  intros Hb Hn. unfold subscribe. destruct (existing (sub_subscriber_id r) s) as [[old x]|] eqn:Ex.
  2: { apply subscribe_new_book; try done. by apply existing_None. }
  destruct (existing_found _ _ _ _ Ex) as (Hx & Hw & Ho).
  destruct (sub_attach_seq r <=? su_attach_seq (sub_s x)); [by apply acts_grown; [apply reply_err_acts|]|].
  pose proof (on_sub_acts old WClose 0 s I) as Hacts. destruct (on_sub_subs old Subscription.close None s) as (m & E & F & H).
  change (sub_step WClose 0) with Subscription.close in Hacts. unfold andthen.
  destruct (on_sub old Subscription.close None s) as [s1 o1]. cbn in E, F. subst s1.
  destruct (subscribe_new_book conn rid r (with_subs m s) (acts_book _ _ Hacts Hb) Hn) as (B & N & T).
  { intros i y Hy Hoy. cbn in Hy. destruct (H i y Hy) as (y0 & Hy0 & S). unfold opened in *. rewrite S in *. case_decide as Hd.
    - subst i. assert (Subscription.is_closed (Subscription.close (sub_s y0)).1 = true) as Hc
        by (unfold Subscription.close; by destruct (su_budget (sub_s y0))). congruence.
    - intros Hwy. destruct Hd. apply (bk_unique _ Hb i old y0 x); try done. congruence. }
  destruct (subscribe_new xxh3_128 env conn rid r (with_subs m s)) as [s2 o2]. cbn [fst snd] in *.
  split; [done|]. split; [exact N|]. cbn [fst snd]. destruct Hacts as [_ _ Hat]. cbn [fst snd] in Hat. rewrite flushes_app, T, Hat. lia.
Qed.

(** ** Events *)

Lemma request_book conn rid m s r :
  book s → 0 <= se_next_sub_id s < u64_max → on_request xxh3_64 xxh3_128 crc32c env conn rid m s = Some r → grown s r.
Proof.
  intros Hb Hn Hr.
  assert (∀ r', acts s r' → Some r' = Some r → grown s r) as Hfin by (intros r' Ha [= <-]; by apply acts_grown).
  destruct m; cbn [on_request] in Hr; try (by eapply Hfin; [apply reply_err_acts|exact Hr]).
  - eapply Hfin; [apply acquire_acts|exact Hr].
  - eapply Hfin; [apply release_acts|exact Hr].
  - eapply Hfin; [apply reclaim_acts|exact Hr].
  - apply acts_grown; [by eapply write_acts|done].
  - destruct (epoch_state _ _) as [[[[fa c] pd] fe]|]; (eapply Hfin; [|exact Hr]); [apply reply_acts|apply reply_err_acts].
  - unfold Session.do_resize in Hr. destruct (Resize.do_resize _ _ _ _ _ _) as [l res]. set (s0 := with_resize l s) in Hr.
    assert (same_book s s0) as Hsb by done. apply acts_grown; [|done]. apply (acts_pre _ s0); [done|].
    destruct res as [ap|[cur|a]]; [|injection Hr as <-; apply reply_err_acts..].
    destruct (feed_terminal xxh3_64 xxh3_128 env s0) as [[s1 o1]|] eqn:Ef; [|done]. cbn [mbind option_bind] in Hr.
    pose proof (feed_acts _ _ Ef) as Ha. injection Hr as <-.
    pose proof (acts_trans s0 s1 o1 _ Ha (reply_acts conn rid (Msg_ResizeAck (mk_ResizeAck (ap_epoch ap) (ap_seq ap) (ap_cols ap) (ap_rows ap))) s1)) as Ht.
    destruct Ht as [N S T]. by split.
  - injection Hr as <-. by apply subscribe_book.
  - eapply Hfin; [exact (on_sub_acts (rsy_subscription_id m) WResync 0 s I)|exact Hr].
  - eapply Hfin; [exact (on_sub_acts (uns_subscription_id m) WClose 0 s I)|exact Hr].
  - eapply Hfin; [apply reply_acts|exact Hr].
Qed.

(** The flush starts from a cleared flag. *)
Lemma flush_book s : book s →
  let r := flush_deltas xxh3_128 env (with_flush_scheduled false s) in
  book r.1 ∧ se_next_sub_id r.1 = se_next_sub_id s ∧ flag r.1 = flushes r.2.
Proof.
  intros Hb. cbv zeta. unfold flush_deltas. set (s0 := with_flush_scheduled false s).
  pose proof (flush_loop_spec (sub_ids s0) false s0 (NoDup_bs_iter _) (bk_tidy _ Hb)) as Hl.
  destruct (flush_loop xxh3_128 env (sub_ids s0) false s0) as [[s1 o1] b]. destruct Hl as ([m ->] & F & H & Hq).
  set (k := (if b then schedule_flush else skip) (with_subs m s0)).
  assert (acts (with_subs m s0) k ∧ (b = true → se_flush_scheduled k.1 = true)) as [Ha Hs]
    by (unfold k; destruct b; [split; [apply schedule_acts|intros _; apply schedule_acts]|split; [apply skip_acts|done]]).
  destruct k as [s2 o2]. destruct Ha as [N S T]. cbn in *. split; [|split; [done|rewrite flushes_app; unfold flag in *; cbn in *; lia]].
  apply (evolve_book s); [done|done| |].
  - intros i x2 Hx2. destruct (S i x2 Hx2) as (x1 & Hx1 & V1 & _). destruct (H i x1 Hx1) as (x & Hx & V & _).
    exists x. split; [done|]. by eapply evolves_trans.
  - intros i x2 Hx2 Hne. destruct b; [by apply Hs|]. destruct (S i x2 Hx2) as (x1 & Hx1 & _ & [Q|[Q|Q]]); [done| |done].
    rewrite Q in Hne. destruct Hne. apply (Hq eq_refl) with i; [|done]. destruct (H i x1 Hx1) as (x & Hx & _).
    apply elem_of_bt_keys. eauto.
Qed.

(** Flush events a session receives. *)
Definition is_flush (ev : Event) : Z := match ev with EvFlush => 1 | _ => 0 end.

Lemma event_book ev s r :
  book s → 0 <= se_next_sub_id s < u64_max → on_event xxh3_64 xxh3_128 crc32c env ev s = Some r →
  book r.1 ∧ se_next_sub_id s <= se_next_sub_id r.1 <= se_next_sub_id s + 1 ∧
  flag r.1 = (if is_flush ev =? 1 then 0 else flag s) + flushes r.2.
Proof.
  intros Hb Hn Hr.
  assert (∀ r', acts s r' → Some r' = Some r → grown s r) as Hfin by (intros r' Ha [= <-]; by apply acts_grown).
  destruct ev as [conn rid m|conn|bytes| |k| |info| |sid q rid|sid rid sn l|sid rid sn|sid rid sn| |]; cbn [on_event] in Hr;
    cbn [is_flush Z.eqb].
  - by eapply request_book.
  - eapply Hfin; [|exact Hr]. unfold on_conn_closed. set (s0 := with_holders _ s). apply (acts_pre _ s0); [done|].
    exact (quiet_loop _ (λ _, WClose) 0 s0 (λ _, I)).
  - destruct (feed_terminal xxh3_64 xxh3_128 env s) as [[s1 o1]|] eqn:Ef; [|done]. cbn [mbind option_bind] in Hr.
    pose proof (feed_acts _ _ Ef) as Ha. injection Hr as <-. apply acts_grown; [|done]. destruct Ha. by split.
  - eapply Hfin; [apply finish_acts|exact Hr].
  - set (s0 := with_write_inflight false s) in Hr. destruct (on_written k (se_ledger s0)) as [[l a]|]; [|done].
    cbn [mbind option_bind] in Hr. eapply Hfin; [|exact Hr]. apply (acts_pre _ (with_ledger l s0)); [done|].
    apply acts_then; [intros s1; destruct a; [apply holder_acts|apply skip_acts]|intros s1; apply pump_acts].
  - eapply Hfin; [|exact Hr]. by apply acts_same.
  - eapply Hfin; [|exact Hr]. by apply acts_same.
  - eapply Hfin; [apply finish_acts|exact Hr].
  - destruct (se_subs s !! sid) as [x|].
    + eapply Hfin; [exact (on_sub_acts sid (WBudget q rid (env_now_ms env)) (se_revision s) s I)|exact Hr].
    + eapply Hfin; [|exact Hr]. apply acts_then; [intros s1; by apply emit_acts|]. intros s1.
      destruct (apply_keeps sid [] None s1) as (m & E & F & H). destruct (apply sid [] None s1) as [s2 o2]. cbn in E, F. subst s2.
      split; cbn; [done| |unfold flag; cbn; lia]. intros i x' Hx'. destruct (H i x' Hx') as (y & Hy & S). exists y.
      rewrite S. split; [done|]. split; [apply evolves_refl|auto].
  - eapply Hfin; [exact (on_sub_acts sid (WFrame rid sn l) 0 s I)|exact Hr].
  - eapply Hfin; [exact (on_sub_acts sid (WReleased rid sn) 0 s I)|exact Hr].
  - eapply Hfin; [|exact Hr]. unfold on_deadline_event. apply acts_then.
    + intros s1. exact (on_sub_acts sid (WDeadline rid sn) 0 s1 I).
    + intros s1. repeat case_match; first [by apply emit_acts|apply skip_acts].
  - injection Hr as <-. destruct (flush_book s Hb) as (B & N & T). split; [done|]. split; [lia|]. cbn. lia.
  - destruct (Compress.on_compress _ _ _) as [[t next] ran]. eapply Hfin; [|exact Hr].
    destruct next; by apply acts_same.
Qed.
End book.

(** ** Runs of a session with its flush timers *)

Section timers.
Context (xxh3_64 xxh3_128 crc32c : list byte → Z).

(** A session with the number of flush timers that are still to fire.  A flush
    event comes from such a timer; every other event may come at any time. *)
Inductive timer_step : Session * Z → Session * Z → Prop :=
| step_event env ev s n s' out :
    ev ≠ EvFlush → on_event xxh3_64 xxh3_128 crc32c env ev s = Some (s', out) →
    timer_step (s, n) (s', n + flushes out)
| step_flush env s n s' out :
    0 < n → on_event xxh3_64 xxh3_128 crc32c env EvFlush s = Some (s', out) →
    timer_step (s, n) (s', n - 1 + flushes out).

Definition booked (k : Z) (p : Session * Z) : Prop :=
  book p.1 ∧ 0 <= se_next_sub_id p.1 <= k ∧ p.2 = flag p.1.

Lemma timer_step_booked k p q : timer_step p q → booked k p → k < u64_max → booked (k + 1) q.
Proof.
  intros Hs (Hb & Hn & Hp) Hk. destruct Hs as [env ev s n s' out Hne Hr|env s n s' out Hpos Hr]; cbn [fst snd] in *;
    destruct (event_book xxh3_64 xxh3_128 crc32c env _ s (s', out) Hb ltac:(lia) Hr) as (B & N & T); cbn [fst snd] in *.
  - split; [exact B|]. cbn [fst snd]. split; [lia|]. rewrite T. by destruct ev; subst n.
  - split; [exact B|]. cbn [fst snd]. split; [lia|]. rewrite T. change (is_flush EvFlush =? 1) with true. cbn match.
    unfold flag in *. destruct (se_flush_scheduled s); lia.
Qed.

Lemma timer_steps_booked n p q k :
  nsteps timer_step n p q → booked k p → k + Z.of_nat n <= u64_max → booked (k + Z.of_nat n) q.
Proof.
  intros Hs. revert k. induction Hs as [p|n p q r Hpq Hqr IH]; intros k Hb Hk; [by rewrite Z.add_0_r|].
  rewrite Nat2Z.inj_succ. replace (k + Z.succ (Z.of_nat n)) with (k + 1 + Z.of_nat n) by lia. apply IH; [|lia].
  apply (timer_step_booked k p); [done|done|lia].
Qed.

Lemma session_new_booked id inc op cols rows e : booked 1 (session_new id inc op cols rows e, 0).
Proof.
  unfold session_new. destruct (normalize_size cols rows) as [c r]. split; [|split; [cbn; lia|done]].
  assert (∀ i, (∅ : gmap Z Sub) !! i = None) as He by (intros i; apply lookup_empty).
  split; cbn [fst se_subs se_next_sub_id]; [intros i x Hx; cbn in Hx; by rewrite He in Hx|..].
  - intros i x Hx. by rewrite He in Hx.
  - intros i j x y Hx. by rewrite He in Hx.
  - by vm_compute.
  - intros i [x Hx]. by rewrite He in Hx.
Qed.

(** In every run of a session, whatever requests, output, budget grants, closed
    connections and timers it handles in whatever order, at most 64 subscriptions
    are open, and no two open subscriptions have the same subscriber: a client
    that attaches again replaces its own subscription. *)
Theorem session_subscribers_bounded (id inc : list byte) (op : OperationId) (cols rows : Z) (e : VtEngine) (k : nat)
    (s : Session) (n : Z) :
  nsteps timer_step k (session_new id inc op cols rows e, 0) (s, n) → Z.of_nat k < u64_max →
  open_count s <= 64 ∧
  ∀ i j x y, se_subs s !! i = Some x → se_subs s !! j = Some y →
    Subscription.is_closed (sub_s x) = false → Subscription.is_closed (sub_s y) = false →
    su_subscriber_id (sub_s x) = su_subscriber_id (sub_s y) → i = j.
Proof.
  intros Hs Hk. destruct (timer_steps_booked _ _ _ 1 Hs (session_new_booked _ _ _ _ _ _) ltac:(lia)) as ([_ _ U C _] & _ & _).
  split; [exact C|exact U].
Qed.

(** A queued delta is never stranded.  In every run at most one flush timer is
    outstanding, and whenever any subscription has a delta in its queue there is
    exactly one, so a flush follows; the session never starts a second timer. *)
Theorem session_flush_scheduled (id inc : list byte) (op : OperationId) (cols rows : Z) (e : VtEngine) (k : nat)
    (s : Session) (n : Z) :
  nsteps timer_step k (session_new id inc op cols rows e, 0) (s, n) → Z.of_nat k < u64_max →
  0 <= n <= 1 ∧ ∀ i x, se_subs s !! i = Some x → su_queue (sub_s x) ≠ [] → n = 1.
Proof.
  intros Hs Hk. destruct (timer_steps_booked _ _ _ 1 Hs (session_new_booked _ _ _ _ _ _) ltac:(lia)) as (Hb & _ & Hn).
  cbn [fst snd] in *. subst n. split; [unfold flag; by destruct (se_flush_scheduled s)|].
  intros i x Hx Hq. unfold flag. by rewrite (bk_flush _ Hb i x Hx Hq).
Qed.
End timers.

(** ** Witness: a client attaches twice, then output arrives *)

Definition demo_on (e : SEvent) (p : Session * Z) : Session * Z :=
  match on_event demo_hash0 demo_hash0 demo_hash0 (sv_env e) (sv_event e) p.1 with
  | Some (s, out) => (s, p.2 + flushes out)
  | None => p
  end.
Definition demo_again : SEvent := demo_event (demo_vt [] None) (EvRequest 8 2 (Msg_Subscribe (mk_Subscribe (replicate 16 x03) 2 None None))).
Definition demo_b0 : Session * Z :=
  (session_new (replicate 16 x01) (replicate 16 x02) (mk_OperationId (replicate 16 x00) 1) 1 1 demo_engine, 0).
Definition demo_b1 := demo_on demo_e1 demo_b0.
Definition demo_b2 := demo_on demo_again demo_b1.
Definition demo_b3 := demo_on (demo_event (demo_vt [] None) (EvBudgetAvailable 2 1 5)) demo_b2.
Definition demo_b4 := demo_on demo_e3 demo_b3.

Lemma demo_on_step e p :
  match sv_event e with EvFlush => false | _ => true end = true →
  match on_event demo_hash0 demo_hash0 demo_hash0 (sv_env e) (sv_event e) p.1 with Some _ => true | None => false end = true →
  timer_step demo_hash0 demo_hash0 demo_hash0 p (demo_on e p).
Proof.
  destruct p as [s n]. unfold demo_on. intros Hf Hs. cbn [fst snd] in *.
  destruct (on_event _ _ _ _ _ s) as [[s' out]|] eqn:E; [|done]. apply (step_event _ _ _ (sv_env e) (sv_event e)); [|done].
  intros Heq. by rewrite Heq in Hf.
Qed.

Lemma demo_timer_run : nsteps (timer_step demo_hash0 demo_hash0 demo_hash0) 4
  (session_new (replicate 16 x01) (replicate 16 x02) (mk_OperationId (replicate 16 x00) 1) 1 1 demo_engine, 0)
  (demo_b4.1, demo_b4.2).
Proof.
  rewrite <- (surjective_pairing demo_b4). change (session_new _ _ _ _ _ _, 0) with demo_b0.
  eapply nsteps_l; [exact (demo_on_step demo_e1 demo_b0 eq_refl eq_refl)|].
  eapply nsteps_l; [apply (demo_on_step demo_again demo_b1); [done|by vm_compute]|].
  eapply nsteps_l; [apply (demo_on_step (demo_event (demo_vt [] None) (EvBudgetAvailable 2 1 5)) demo_b2); [done|by vm_compute]|].
  eapply nsteps_l; [apply (demo_on_step demo_e3 demo_b3); [done|by vm_compute]|]. constructor.
Qed.

Lemma session_subscribers_bounded_witness : open_count demo_b4.1 <= 64 ∧ open_count demo_b4.1 = 1.
Proof.
  split; [|by vm_compute].
  refine (proj1 (session_subscribers_bounded demo_hash0 demo_hash0 demo_hash0 (replicate 16 x01) (replicate 16 x02)
    (mk_OperationId (replicate 16 x00) 1) 1 1 demo_engine 4 demo_b4.1 demo_b4.2 _ _)); [exact demo_timer_run|by vm_compute].
Defined.

Lemma session_flush_scheduled_witness : demo_b4.2 = 1.
Proof.
  assert ((λ x, bool_decide (su_queue (sub_s x) = [])) <$> se_subs demo_b4.1 !! 2 = Some false) as Hx by (by vm_compute).
  apply fmap_Some in Hx as (x & Ex & Hq). symmetry in Hq. apply bool_decide_eq_false in Hq.
  refine (proj2 (session_flush_scheduled demo_hash0 demo_hash0 demo_hash0 (replicate 16 x01) (replicate 16 x02)
    (mk_OperationId (replicate 16 x00) 1) 1 1 demo_engine 4 demo_b4.1 demo_b4.2 _ _) 2 x Ex Hq); [exact demo_timer_run|by vm_compute].
Defined.
