(* ===== verification/RdCodec.v ===== *)
(** * RdCodec (crates/ferryx-rd/ferryx-rd-proto/src: error.rs, codec.rs, lib.rs)

    The reader and writer primitives of the remote desktop protocol, its errors and
    the trait [WireCodec], with the laws a codec of the protocol has ([WireLaws]:
    decoding inverts encoding; [Canonical]: a decoder accepts only what the encoder
    writes).  A [Decoder] is the unread suffix of its input, a 32-bit float the
    [u32] of its bits, a string its UTF-8 bytes. *)

From S2P Require Import Prelude Wire.
From Stdlib Require Import ZArith Lia Strings.Byte.
From stdpp Require Import base list strings.

#[local] Open Scope Z_scope.

(** ** [CodecError] *)

Inductive CodecError : Type :=
| Truncated (field : string) (needed remaining : Z)
| InvalidMagic (found : Z)
| UnknownPacketType (v : Z)
| UnsupportedVersion (v : Z)
| UnknownInputEventType (v : Z)
| UnknownControlMessageType (v : Z)
| UnknownPairingRejectReason (v : Z)
| UnknownStreamConfigurationErrorCode (v : Z)
| UnknownClipboardDirection (v : Z)
| UnknownClipboardOrigin (v : Z)
| UnknownColorRange (v : Z)
| UnknownColorMatrix (v : Z)
| UnknownChromaSubsampling (v : Z)
| InvalidUtf8 (field : string)
| InvalidLength (field : string) (actual expected : Z)
| LengthLimit (field : string) (actual max : Z)
| InvalidValue (field : string) (value : Z)
| TrailingBytes (field : string) (remaining : Z)
| InvalidFrameLength (v : Z)
| UnknownRelayChannel (v : Z).

#[global] Instance CodecError_eq_dec : EqDecision CodecError.
Proof. solve_decision. Defined.

(** Results, with [?] as bind. *)
Definition Res (A : Type) : Type := Result A CodecError.
#[global] Instance Res_ret : MRet Res := λ A x, Ok x.
#[global] Instance Res_bind : MBind Res := λ A B k m, match m with Ok x => k x | Err e => Err e end.

(** ** [Decoder] *)

Definition Dec (A : Type) : Type := list byte → Res (A * list byte).
#[global] Instance Dec_ret : MRet Dec := λ A x r, Ok (x, r).
#[global] Instance Dec_bind : MBind Dec := λ A B k m r,
  match m r with Ok (x, r') => k x r' | Err e => Err e end.
Definition d_fail {A} (e : CodecError) : Dec A := λ _, Err e.
Definition d_lift {A} (x : Res A) : Dec A := λ r, match x with Ok v => Ok (v, r) | Err e => Err e end.
(** [Decoder::new(input)] followed by the reads of [m]. *)
Definition run {A} (m : Dec A) (input : list byte) : Res A :=
  match m input with Ok (x, _) => Ok x | Err e => Err e end.

Definition d_remaining : Dec Z := λ r, Ok (zlen r, r).
Definition d_finish (field : string) : Dec unit := λ r,
  if zlen r =? 0 then Ok (tt, r) else Err (TrailingBytes field (zlen r)).
Definition d_take (length : Z) (field : string) : Dec (list byte) := λ r,
  if zlen r <? length then Err (Truncated field length (zlen r))
  else Ok (take (Z.to_nat length) r, drop (Z.to_nat length) r).
Definition d_take_remaining : Dec (list byte) := λ r, Ok (r, []).

(** [from_le_bytes] and [to_le_bytes]. *)
Definition from_le (l : list byte) : Z := from_be (reverse l).
Definition to_le (n : nat) (v : Z) : list byte := reverse (to_be n v).

Definition d_uint (n : nat) (field : string) : Dec Z := l ← d_take (Z.of_nat n) field; mret (from_le l).
Definition d_u8 : string → Dec Z := d_uint 1.
Definition d_u16 : string → Dec Z := d_uint 2.
Definition d_u32 : string → Dec Z := d_uint 4.
Definition d_u64 : string → Dec Z := d_uint 8.
(** Two's complement. *)
Definition d_i32 (field : string) : Dec Z := u ← d_uint 4 field; mret (if u <? 2 ^ 31 then u else u - 2 ^ 32).
Definition d_f32 : string → Dec Z := d_u32.
Definition d_utf8 (length : Z) (field : string) : Dec (list byte) :=
  bytes ← d_take length field;
  if utf8_valid bytes then mret bytes else d_fail (InvalidUtf8 field).

(** [decode_bool] (control.rs). *)
Definition decode_bool (field : string) : Dec bool :=
  v ← d_u8 field;
  match v with 0 => mret false | 1 => mret true | _ => d_fail (InvalidValue field v) end.
(** [(0..n).map(|_| m)] collected. *)
Fixpoint d_repeat {A} (n : nat) (m : Dec A) : Dec (list A) :=
  match n with O => mret [] | S n' => x ← m; xs ← d_repeat n' m; mret (x :: xs) end.

(** ** Writing *)

Definition checked_bytes (value : list byte) (field : string) (max : Z) : Res (list byte) :=
  if max <? zlen value then Err (LengthLimit field (zlen value) max) else Ok value.

Definition push_u8 : Z → list byte := to_le 1.
Definition push_u16 : Z → list byte := to_le 2.
Definition push_u32 : Z → list byte := to_le 4.
Definition push_u64 : Z → list byte := to_le 8.
Definition push_i32 (v : Z) : list byte := to_le 4 (v mod 2 ^ 32).
Definition push_f32 : Z → list byte := push_u32.
(** [value as u8] of a [bool]. *)
Definition push_bool (b : bool) : list byte := push_u8 (if b then 1 else 0).

Definition usize_to (max : Z) (value : Z) (field : string) : Res Z :=
  if value <=? max then Ok value else Err (LengthLimit field value max).
Definition usize_to_u8 : Z → string → Res Z := usize_to u8_max.
Definition usize_to_u16 : Z → string → Res Z := usize_to u16_max.
Definition usize_to_u32 : Z → string → Res Z := usize_to u32_max.

(** ** [WireCodec] *)

Class WireCodec (A : Type) := {
  encode : A → Res (list byte);
  decode : list byte → Res A;
}.

(** The values a Rust type can hold. *)
Class Holds (A : Type) := holds : A → bool.

(** Decoding inverts encoding. *)
Class WireLaws (A : Type) `{!WireCodec A, !Holds A} : Prop := {
  decode_encode x b : holds x = true → encode x = Ok b → decode b = Ok x;
  decode_holds b x : decode b = Ok x → holds x = true ∧ ∃ b', encode x = Ok b';
}.
(** A decoder that also accepts only what the encoder writes. *)
Class Canonical (A : Type) `{!WireCodec A, !Holds A} : Prop := {
  canon_decode_encode x b : holds x = true → encode x = Ok b → decode b = Ok x;
  canon_encode_decode b x : decode b = Ok x → holds x = true ∧ encode x = Ok b;
}.
#[export] Instance canonical_laws A `{Canonical A} : WireLaws A.
Proof.
  split; [intros x b; apply canon_decode_encode|]. intros b x Hd.
  destruct (canon_encode_decode b x Hd). eauto.
Qed.

(** Field-less enums: [as u8] and [TryFrom<u8>]. *)
Class WireEnum (A : Type) := {
  to_u8 : A → Z;
  try_from : Z → Res A;
}.
Class EnumLaws (A : Type) `{!WireEnum A} : Prop := {
  try_from_to_u8 x : try_from (to_u8 x) = Ok x;
  to_u8_try_from v x : try_from v = Ok x → to_u8 x = v;
  to_u8_range (x : A) : is_u8 (to_u8 x) = true;
}.
(** The [match] of a [TryFrom<u8>]: a table of discriminants and an error. *)
Fixpoint lookup_tag {A} (tags : list (Z * A)) (err : Z → CodecError) (v : Z) : Res A :=
  match tags with
  | [] => Err (err v)
  | (t, x) :: rest => if v =? t then Ok x else lookup_tag rest err v
  end.

(** ** Lemmas: little-endian integers *)

Lemma zlen_reverse {A} (l : list A) : zlen (reverse l) = zlen l.
Proof. unfold zlen. by rewrite length_reverse. Qed.
Lemma zlen_to_le n v : zlen (to_le n v) = Z.of_nat n.
Proof. unfold to_le. by rewrite zlen_reverse, zlen_to_be. Qed.
Lemma from_to_le n v : from_le (to_le n v) = v mod 256 ^ Z.of_nat n.
Proof. unfold from_le, to_le. by rewrite reverse_involutive, from_to_be. Qed.
Lemma to_from_le l : to_le (length l) (from_le l) = l.
Proof. unfold from_le, to_le. rewrite <- (length_reverse l), to_from_be. apply reverse_involutive. Qed.
Lemma from_le_range l : 0 <= from_le l < 256 ^ zlen l.
Proof. unfold from_le. rewrite <- zlen_reverse. apply from_be_range. Qed.

Lemma zlen_push_u8 v : zlen (push_u8 v) = 1.
Proof. apply (zlen_to_le 1). Qed.
Lemma zlen_push_u16 v : zlen (push_u16 v) = 2.
Proof. apply (zlen_to_le 2). Qed.
Lemma zlen_push_u32 v : zlen (push_u32 v) = 4.
Proof. apply (zlen_to_le 4). Qed.
Lemma zlen_push_u64 v : zlen (push_u64 v) = 8.
Proof. apply (zlen_to_le 8). Qed.
Lemma zlen_push_f32 v : zlen (push_f32 v) = 4.
Proof. apply (zlen_to_le 4). Qed.
#[export] Hint Rewrite zlen_push_u8 zlen_push_u16 zlen_push_u32 zlen_push_u64 zlen_push_f32 : zl.

Lemma from_le_push_u32 v : is_u32 v = true → from_le (push_u32 v) = v.
Proof. intros Hv%in_range_iff. unfold push_u32. rewrite from_to_le. apply Z.mod_small. unfold u32_max in *. lia. Qed.
Lemma push_u32_from_le l : length l = 4%nat → push_u32 (from_le l) = l.
Proof. intros H. pose proof (to_from_le l) as E. by rewrite H in E. Qed.

(** ** Lemmas: reading what was written *)

Section reading.
Context {A : Type}.
Implicit Types (k : Z → Dec A) (f : string) (r b : list byte).

Lemma d_take_app {B} (kk : list byte → Dec B) l f r : (d_take (zlen l) f ≫= kk) (l ++ r) = kk l r.
Proof.
  unfold mbind, Dec_bind, d_take. rewrite zlen_app. pose proof (zlen_nonneg r).
  destruct (Z.ltb_spec (zlen l + zlen r) (zlen l)); [lia|]. by rewrite take_app_zlen, drop_app_zlen.
Qed.

Lemma d_take_exact {B} (kk : list byte → Dec B) n l f r : zlen l = n → (d_take n f ≫= kk) (l ++ r) = kk l r.
Proof. intros <-. apply d_take_app. Qed.

Lemma d_uint_push {B} n (kk : Z → Dec B) v f r :
  0 <= v < 256 ^ Z.of_nat n → (d_uint n f ≫= kk) (to_le n v ++ r) = kk v r.
Proof.
  intros Hv. assert (d_uint n f (to_le n v ++ r) = Ok (v, r)) as E.
  { unfold d_uint. rewrite <- (zlen_to_le n v) at 1. rewrite d_take_app. unfold mret, Dec_ret.
    by rewrite from_to_le, Z.mod_small. }
  unfold mbind at 1, Dec_bind at 1. by rewrite E.
Qed.

Lemma d_u8_push k v f r : is_u8 v = true → (d_u8 f ≫= k) (push_u8 v ++ r) = k v r.
Proof. intros Hv%in_range_iff. apply d_uint_push. unfold u8_max in *. lia. Qed.
Lemma d_u16_push k v f r : is_u16 v = true → (d_u16 f ≫= k) (push_u16 v ++ r) = k v r.
Proof. intros Hv%in_range_iff. apply d_uint_push. unfold u16_max in *. lia. Qed.
Lemma d_u32_push k v f r : is_u32 v = true → (d_u32 f ≫= k) (push_u32 v ++ r) = k v r.
Proof. intros Hv%in_range_iff. apply d_uint_push. unfold u32_max in *. lia. Qed.
Lemma d_u64_push k v f r : is_u64 v = true → (d_u64 f ≫= k) (push_u64 v ++ r) = k v r.
Proof. intros Hv%in_range_iff. apply d_uint_push. unfold u64_max in *. lia. Qed.
Lemma d_f32_push k v f r : is_u32 v = true → (d_f32 f ≫= k) (push_f32 v ++ r) = k v r.
Proof. apply d_u32_push. Qed.

Lemma i32_of_u32 x : is_i32 x = true → (if x mod 2 ^ 32 <? 2 ^ 31 then x mod 2 ^ 32 else x mod 2 ^ 32 - 2 ^ 32) = x.
Proof.
  intros Hx%in_range_iff. assert (x mod 2 ^ 32 = if x <? 0 then x + 2 ^ 32 else x) as ->.
  { symmetry. apply Z.mod_unique with (q := if x <? 0 then -1 else 0); destruct (Z.ltb_spec x 0); lia. }
  destruct (Z.ltb_spec x 0); [destruct (Z.ltb_spec (x + 2 ^ 32) (2 ^ 31))|destruct (Z.ltb_spec x (2 ^ 31))]; lia.
Qed.

Lemma d_i32_push k v f r : is_i32 v = true → (d_i32 f ≫= k) (push_i32 v ++ r) = k v r.
Proof.
  intros Hv. pose proof (Z.mod_pos_bound v (2 ^ 32) ltac:(lia)).
  assert (d_i32 f (push_i32 v ++ r) = Ok (v, r)) as E.
  { unfold d_i32, push_i32. rewrite d_uint_push by (simpl Z.of_nat; lia). unfold mret, Dec_ret. by rewrite i32_of_u32. }
  unfold mbind, Dec_bind. by rewrite E.
Qed.

Lemma d_utf8_app (kk : list byte → Dec A) s f r : utf8_valid s = true → (d_utf8 (zlen s) f ≫= kk) (s ++ r) = kk s r.
Proof.
  intros Hs. assert (d_utf8 (zlen s) f (s ++ r) = Ok (s, r)) as E by (unfold d_utf8; by rewrite d_take_app, Hs).
  unfold mbind, Dec_bind. by rewrite E.
Qed.

Lemma d_u8_push_bool k (c : bool) f r : (d_u8 f ≫= k) (push_bool c ++ r) = k (if c then 1 else 0) r.
Proof. destruct c; by apply d_u8_push. Qed.
Lemma decode_bool_push {B} (kk : bool → Dec B) (c : bool) f r : (decode_bool f ≫= kk) (push_bool c ++ r) = kk c r.
Proof.
  assert (decode_bool f (push_bool c ++ r) = Ok (c, r)) as E
    by (unfold decode_bool, push_bool; destruct c; unfold d_u8, push_u8; by rewrite d_uint_push).
  unfold mbind, Dec_bind. by rewrite E.
Qed.
Lemma bool_of_u8 (c : bool) : negb ((if c then 1 else 0) =? 0) = c.
Proof. by destruct c. Qed.

Lemma d_repeat_push {B C} (m : Dec B) (e : B → list byte) (P : B → Prop) (kk : list B → Dec C) xs r :
  (∀ x r, P x → m (e x ++ r) = Ok (x, r)) → Forall P xs →
  (d_repeat (length xs) m ≫= kk) (concat (e <$> xs) ++ r) = kk xs r.
Proof.
  intros Hm Hp. assert (d_repeat (length xs) m (concat (e <$> xs) ++ r) = Ok (xs, r)) as E.
  { induction Hp as [|x xs Hx _ IH]; [done|]. cbn. unfold mbind, Dec_bind in *. rewrite <- app_assoc, Hm by done. by rewrite IH. }
  unfold mbind, Dec_bind. by rewrite E.
Qed.

Lemma d_rest_app (kk : list byte → Dec A) r : (d_take_remaining ≫= kk) r = kk r [].
Proof. done. Qed.
Lemma d_lift_ok {B} (kk : B → Dec A) x r : (d_lift (Ok x) ≫= kk) r = kk x r.
Proof. done. Qed.
Lemma d_finish_nil (kk : unit → Dec A) f : (d_finish f ≫= kk) [] = kk tt [].
Proof. done. Qed.
Lemma d_remaining_eq (kk : Z → Dec A) r : (d_remaining ≫= kk) r = kk (zlen r) r.
Proof. done. Qed.
End reading.

(** ** Lemmas: what a successful read consumed *)

Section consuming.
Context {A : Type}.
Implicit Types (k : Z → Dec A) (f : string) (r b : list byte) (y : A * list byte).

Lemma d_bind_inv {B C} (m : Dec B) (kk : B → Dec C) b (y : C * list byte) :
  (m ≫= kk) b = Ok y → ∃ x r, m b = Ok (x, r) ∧ kk x r = Ok y.
Proof. unfold mbind, Dec_bind. destruct (m b) as [[x r]|]; [eauto|done]. Qed.

Lemma d_take_inv {B} (kk : list byte → Dec B) n f b (y : B * list byte) :
  0 <= n → (d_take n f ≫= kk) b = Ok y → ∃ l r, zlen l = n ∧ b = l ++ r ∧ kk l r = Ok y.
Proof.
  intros Hn (l & r & E & Hk)%d_bind_inv. unfold d_take in E. destruct (Z.ltb_spec (zlen b) n); [done|].
  injection E as <- <-. exists (take (Z.to_nat n) b), (drop (Z.to_nat n) b). rewrite take_drop, zlen_take by lia. done.
Qed.

Lemma d_uint_inv n f b v r : d_uint n f b = Ok (v, r) → 0 <= v < 256 ^ Z.of_nat n ∧ b = to_le n v ++ r.
Proof.
  unfold d_uint. intros (l & r1 & E & Hk)%d_bind_inv. injection Hk as <- <-. unfold d_take in E.
  destruct (Z.ltb_spec (zlen b) (Z.of_nat n)); [done|]. injection E as <- <-.
  assert (length (take (Z.to_nat (Z.of_nat n)) b) = n) as Hl by (rewrite length_take; unfold zlen in *; lia).
  pose proof (to_from_le (take (Z.to_nat (Z.of_nat n)) b)) as Ht. rewrite Hl in Ht. split; [|by rewrite Ht, take_drop].
  pose proof (from_le_range (take (Z.to_nat (Z.of_nat n)) b)) as Hr. unfold zlen in Hr. by rewrite Hl in Hr.
Qed.

Lemma d_u8_inv k f b y : (d_u8 f ≫= k) b = Ok y → ∃ v r, is_u8 v = true ∧ b = push_u8 v ++ r ∧ k v r = Ok y.
Proof. intros (v & r & [Hv ->]%d_uint_inv & Hk)%d_bind_inv. exists v, r. split; [apply in_range_iff; unfold u8_max; lia|done]. Qed.
Lemma d_u16_inv k f b y : (d_u16 f ≫= k) b = Ok y → ∃ v r, is_u16 v = true ∧ b = push_u16 v ++ r ∧ k v r = Ok y.
Proof. intros (v & r & [Hv ->]%d_uint_inv & Hk)%d_bind_inv. exists v, r. split; [apply in_range_iff; unfold u16_max; lia|done]. Qed.
Lemma d_u32_inv k f b y : (d_u32 f ≫= k) b = Ok y → ∃ v r, is_u32 v = true ∧ b = push_u32 v ++ r ∧ k v r = Ok y.
Proof. intros (v & r & [Hv ->]%d_uint_inv & Hk)%d_bind_inv. exists v, r. split; [apply in_range_iff; unfold u32_max; lia|done]. Qed.
Lemma d_u64_inv k f b y : (d_u64 f ≫= k) b = Ok y → ∃ v r, is_u64 v = true ∧ b = push_u64 v ++ r ∧ k v r = Ok y.
Proof. intros (v & r & [Hv ->]%d_uint_inv & Hk)%d_bind_inv. exists v, r. split; [apply in_range_iff; unfold u64_max; lia|done]. Qed.
Lemma d_f32_inv k f b y : (d_f32 f ≫= k) b = Ok y → ∃ v r, is_u32 v = true ∧ b = push_f32 v ++ r ∧ k v r = Ok y.
Proof. apply d_u32_inv. Qed.

Lemma d_i32_inv k f b y : (d_i32 f ≫= k) b = Ok y → ∃ v r, is_i32 v = true ∧ b = push_i32 v ++ r ∧ k v r = Ok y.
Proof.
  intros (v & r & E & Hk)%d_bind_inv. unfold d_i32 in E. apply d_bind_inv in E as (u & r1 & [Hu ->]%d_uint_inv & E).
  injection E as <- <-. change (256 ^ Z.of_nat 4) with (2 ^ 32) in Hu. eexists _, _. split; [|split; [|exact Hk]].
  - apply in_range_iff. destruct (Z.ltb_spec u (2 ^ 31)); lia.
  - f_equal. unfold push_i32. f_equal. destruct (Z.ltb_spec u (2 ^ 31)); [by rewrite Z.mod_small|].
    apply Z.mod_unique with (q := -1); lia.
Qed.

Lemma decode_bool_inv (kk : bool → Dec A) f b y :
  (decode_bool f ≫= kk) b = Ok y → ∃ c r, b = push_bool c ++ r ∧ kk c r = Ok y.
Proof.
  intros (c & r & E & Hk)%d_bind_inv. unfold decode_bool in E. apply d_bind_inv in E as (v & r1 & [Hv ->]%d_uint_inv & E).
  exists c, r. split; [|done]. unfold push_bool, push_u8.
  destruct v as [|[]|]; try done; by injection E as <- <-.
Qed.

Lemma d_repeat_inv {B} (m : Dec B) (e : B → list byte) (P : B → Prop) n b xs r :
  (∀ b x r, m b = Ok (x, r) → P x ∧ b = e x ++ r) → d_repeat n m b = Ok (xs, r) →
  length xs = n ∧ Forall P xs ∧ b = concat (e <$> xs) ++ r.
Proof.
  intros Hm. revert b xs. induction n as [|n IH]; intros b xs H; cbn in H; [by injection H as <- <-|].
  apply d_bind_inv in H as (x & r1 & [Hx ->]%Hm & H). apply d_bind_inv in H as (ys & r2 & H2 & H). injection H as <- <-.
  destruct (IH _ _ H2) as (<- & Hf & ->). cbn. rewrite <- app_assoc. split; [done|]. split; [by constructor|done].
Qed.

Lemma d_utf8_inv (kk : list byte → Dec A) n f b y :
  0 <= n → (d_utf8 n f ≫= kk) b = Ok y → ∃ s r, zlen s = n ∧ utf8_valid s = true ∧ b = s ++ r ∧ kk s r = Ok y.
Proof.
  intros Hn (s & r & E & Hk)%d_bind_inv. unfold d_utf8 in E. apply d_take_inv in E as (l & r1 & Hl & -> & E); [|done].
  destruct (utf8_valid l) eqn:Hu; [|done]. injection E as <- <-. eauto 8.
Qed.

Lemma d_finish_inv (kk : unit → Dec A) f b y : (d_finish f ≫= kk) b = Ok y → b = [] ∧ kk tt [] = Ok y.
Proof.
  intros (u & r & E & Hk)%d_bind_inv. unfold d_finish in E. destruct (Z.eqb_spec (zlen b) 0) as [Hz|]; [|done].
  apply zlen_0_inv in Hz as ->. by injection E as <- <-.
Qed.
Lemma d_lift_inv {B} (kk : B → Dec A) x b y : (d_lift x ≫= kk) b = Ok y → ∃ v, x = Ok v ∧ kk v b = Ok y.
Proof. intros (v & r & E & Hk)%d_bind_inv. unfold d_lift in E. destruct x as [w|]; [|done]. injection E as <- <-. eauto. Qed.
End consuming.

Lemma d_bind_assoc {A B C} (m : Dec A) (f : A → Dec B) (g : B → Dec C) r :
  ((m ≫= f) ≫= g) r = (m ≫= λ x, f x ≫= g) r.
Proof. unfold mbind, Dec_bind. by destruct (m r) as [[]|]. Qed.
Lemma d_ret_bind {A B} (x : A) (g : A → Dec B) r : (mret x ≫= g) r = g x r.
Proof. done. Qed.

Lemma run_Ok {A} (m : Dec A) b x : run m b = Ok x ↔ ∃ r, m b = Ok (x, r).
Proof.
  unfold run. destruct (m b) as [[y r]|]; [|split; [done|by intros [? ?]]].
  split; [intros [= ->]; eauto|by intros [? [= -> _]]].
Qed.

Lemma res_bind_ok {A B} (m : Res A) (k : A → Res B) y : (m ≫= k) = Ok y ↔ ∃ x, m = Ok x ∧ k x = Ok y.
Proof.
  unfold mbind, Res_bind. destruct m as [x|]; [|split; [done|by intros (? & ? & ?)]].
  split; [eauto|by intros (z & [= ->] & ?)].
Qed.
Lemma checked_bytes_ok s f max l : checked_bytes s f max = Ok l ↔ l = s ∧ zlen s <= max.
Proof.
  unfold checked_bytes. destruct (Z.ltb_spec max (zlen s)); split; try done; [by intros [_ ?]; lia|by intros [= ->]|by intros [-> _]].
Qed.
Lemma usize_to_ok max v f w : usize_to max v f = Ok w ↔ w = v ∧ v <= max.
Proof.
  unfold usize_to. destruct (Z.leb_spec v max); split; try done; [by intros [= ->]|by intros [-> _]|by intros [_ ?]; lia].
Qed.

Lemma Ok_inj {A E} (x y : A) : (Ok x : Result A E) = Ok y → x = y.
Proof. by intros [= ->]. Qed.

(** ** Automation *)

Lemma in_range_zlen {A} (l : list A) hi : zlen l <= hi → in_range 0 hi (zlen l) = true.
Proof. intros. apply in_range_iff. pose proof (zlen_nonneg l). lia. Qed.

Lemma lookup_tag_Ok {A} (tags : list (Z * A)) err v x : lookup_tag tags err v = Ok x → (v, x) ∈ tags.
Proof.
  induction tags as [|[t y] tags IH]; [done|]. cbn. destruct (Z.eqb_spec v t) as [->|].
  - intros [= ->]. by left.
  - intros H. right. by apply IH.
Qed.
(** An enum whose table lists every constructor once has the laws. *)
Lemma enum_laws A `{!WireEnum A} (tags : list (Z * A)) err :
  (∀ v, try_from v = lookup_tag tags err v) → (∀ x, try_from (to_u8 x) = Ok x) →
  Forall (λ p, to_u8 p.2 = p.1 ∧ is_u8 p.1 = true) tags → EnumLaws A.
Proof.
  intros Ht Hx Hf. rewrite Forall_forall in Hf.
  assert (∀ v x, try_from v = Ok x → (v, x) ∈ tags) as Hin by (intros v x; rewrite Ht; apply lookup_tag_Ok).
  split; [done|intros v x E; by apply (Hf _ (Hin _ _ E))|]. intros x.
  exact (proj2 (Hf _ (Hin _ _ (Hx x)))).
Qed.
(** Discharges [EnumLaws] of an enum given by its table. *)
Ltac solve_enum tags tf :=
  eapply (enum_laws _ tags);
  [intros v; change (try_from v) with (tf v); unfold tf; reflexivity|intros []; reflexivity
  |repeat (apply Forall_cons; split; [split; reflexivity|]); apply Forall_nil; exact I].

#[global] Opaque push_u8 push_u16 push_u32 push_u64 push_i32 push_f32 push_bool.
(** Constants, unfolded before [lia], and definitions an encoder is split into. *)
Create HintDb rd_const.
Create HintDb rd_body.
Create HintDb rd_holds.
Create HintDb rd.
#[export] Hint Resolve in_range_zlen : rd.

(** Turn the checks of an encoder into hypotheses. *)
Ltac enc_inv H :=
  repeat first
    [ rewrite res_bind_ok in H; let x := fresh "v" in let E := fresh "E" in destruct H as (x & E & H)
    | match type of H with (if ?c then _ else _) = Ok _ => let E := fresh "C" in destruct c eqn:E; [try done|try done] end
    | match goal with E : (_ ≫= _) = Ok _ |- _ =>
        rewrite res_bind_ok in E; let x := fresh "v" in let E' := fresh "E" in destruct E as (x & E' & E) end
    | match goal with E : Ok _ = Ok ?v |- _ => is_var v; apply Ok_inj in E; subst v end
    | match goal with E : (if ?c then Err _ else _) = Ok _ |- _ => let C := fresh "C" in destruct c eqn:C; [discriminate E|] end ];
  repeat match goal with
  | E : checked_bytes _ _ _ = Ok _ |- _ => apply checked_bytes_ok in E as [-> ?]
  | E : usize_to _ _ _ = Ok _ |- _ => apply usize_to_ok in E as [-> ?]
  | E : usize_to_u8 _ _ = Ok _ |- _ => apply usize_to_ok in E as [-> ?]
  | E : usize_to_u16 _ _ = Ok _ |- _ => apply usize_to_ok in E as [-> ?]
  | E : usize_to_u32 _ _ = Ok _ |- _ => apply usize_to_ok in E as [-> ?]
  end.

(** Read the written fields back, one after the other; guards are decided from the
    hypotheses. *)
Ltac rd_lia := autounfold with rd_const in *; unfold is_u8, is_u16, is_u32, is_u64, in_range, u8_max, u16_max, u32_max, u64_max in *; lia.
Ltac dec_side :=
  first [assumption | apply to_u8_range | by auto with rd
        | match goal with |- context [zlen ?l] => pose proof (zlen_nonneg l) end; by rd_lia | by rd_lia].
Ltac cond_side := first [assumption | reflexivity | by rd_lia].
Ltac dec_if :=
  match goal with
  | |- context [if ?c then _ else _] =>
      let E := fresh in first [assert (c = false) as E by cond_side | assert (c = true) as E by cond_side]; rewrite E; clear E
  end.
(** A check the encoder made of the value that was read back. *)
Ltac dec_check :=
  match goal with
  | E : ?f ?x = Ok ?u |- context [?f ?y] =>
      let E' := fresh in assert (f y = Ok u) as E' by (rewrite <- E; f_equal; by destruct x); rewrite E'; clear E'
  end.
Ltac dec_go :=
  rewrite <- ?app_assoc;
  repeat first
    [ rewrite decode_bool_push | rewrite d_u8_push_bool | rewrite d_u8_push by dec_side | rewrite d_u16_push by dec_side | rewrite d_u32_push by dec_side
    | rewrite d_u64_push by dec_side | rewrite d_i32_push by dec_side | rewrite d_f32_push by dec_side
    | rewrite d_utf8_app by dec_side | rewrite d_take_exact by cond_side | rewrite d_finish_nil | rewrite d_rest_app, ?app_nil_r | rewrite d_lift_ok
    | rewrite d_bind_assoc | rewrite d_ret_bind | rewrite d_remaining_eq | rewrite try_from_to_u8 | rewrite bool_of_u8 | dec_check | dec_if ].

(** Peel a successful decoder. *)
Ltac dec_inv H :=
  repeat first
    [ match goal with E : negb (_ =? _) = false |- _ => apply negb_false_iff, Z.eqb_eq in E; subst end
    | let v := fresh "v" in let r := fresh "r" in let Hv := fresh "Hv" in let Hb := fresh "Hb" in
      first
        [ apply d_u8_inv in H as (v & r & Hv & Hb & H) | apply d_u16_inv in H as (v & r & Hv & Hb & H)
        | apply d_u32_inv in H as (v & r & Hv & Hb & H) | apply d_u64_inv in H as (v & r & Hv & Hb & H)
        | apply d_i32_inv in H as (v & r & Hv & Hb & H) | apply d_f32_inv in H as (v & r & Hv & Hb & H)
        | apply d_utf8_inv in H as (v & r & Hb & Hv & ? & H);
          [|by rd_lia]
        | apply d_take_inv in H as (v & r & Hv & ? & H);
          [|by rd_lia]
        | apply decode_bool_inv in H as (v & r & Hb & H)
        | apply d_lift_inv in H as (v & Hv & H) ]; subst
    | match type of H with (if ?c then _ else _) _ = Ok _ => let E := fresh "C" in destruct c eqn:E; [discriminate H|] end
    | match goal with E : try_from _ = Ok _ |- _ => apply to_u8_try_from in E; subst end
    | let H0 := fresh "Hf" in apply d_finish_inv in H as [H0 H]; subst
    | rewrite d_rest_app in H | rewrite d_remaining_eq in H | rewrite d_bind_assoc in H | rewrite d_ret_bind in H ].

Lemma checked_bytes_fits s f max : zlen s <= max → checked_bytes s f max = Ok s.
Proof. intros. by apply checked_bytes_ok. Qed.
Lemma usize_to_fits max v f : v <= max → usize_to max v f = Ok v.
Proof. intros. by apply usize_to_ok. Qed.
Lemma res_bind_Ok {A B} (x : A) (k : A → Res B) : (mbind k (Ok x : Res A)) = k x.
Proof. done. Qed.

(** Run an encoder whose checks hold. *)
Ltac enc_go :=
  unfold usize_to_u8, usize_to_u16, usize_to_u32;
  repeat first
    [ rewrite checked_bytes_fits by cond_side | rewrite usize_to_fits by cond_side | rewrite res_bind_Ok
    | match goal with E : ?a = Ok _ |- context [?a] => rewrite E end | dec_if ];
  rewrite <- ?app_assoc, ?app_nil_r; try reflexivity.

Ltac holds_go := cbn; rewrite ?andb_true_iff; repeat split; first [assumption | reflexivity | cond_side].

(** The laws of a codec whose encoder [e] checks and writes fields and whose decoder
    [d] reads and checks them; [h] is its [Holds] instance. *)
Ltac solve_written h e d :=
  let x := fresh "x" in let Hh := fresh "Hh" in let Hb := fresh "Hb" in
  intros x b Hh Hb; unfold holds, h in Hh; autounfold with rd_holds in Hh; bool_hyps;
  match type of Hb with encode ?x = Ok ?b => change (e x = Ok b) in Hb end; unfold e in Hb; autounfold with rd_body in Hb;
  enc_inv Hb; match goal with |- decode ?b = ?r => change (d b = r) end; unfold d; autounfold with rd_body; apply run_Ok; exists [];
  match goal with |- _ ?l = _ => rewrite <- (app_nil_r l) end; dec_go;
  first [by destruct x | by destruct x as [[] ?] | by destruct x as [? []]].
Ltac solve_read h e d :=
  let H := fresh "H" in let r := fresh "r" in
  intros b x H; match type of H with decode ?b = ?r => change (d b = r) in H end; unfold d in H; autounfold with rd_body in H; apply run_Ok in H as [r H]; dec_inv H; injection H as <- <-;
  split; [unfold holds, h; autounfold with rd_holds; holds_go|match goal with |- encode ?x = ?r => change (e x = r) end; unfold e; autounfold with rd_body; cbn; enc_go].
Ltac solve_canonical h e d := split; [solve_written h e d|solve_read h e d].
