(* ===== verification/RdPacket.v ===== *)
(** * RdPacket (crates/ferryx-rd/ferryx-rd-proto/src: packet.rs, handshake.rs, pairing.rs, audio_time.rs)

    The packet header, the handshake with its capability bits, the pairing messages
    and the source time prefix of an audio payload, each with its codec laws. *)

From S2P Require Import Prelude Wire RdCodec.
From Stdlib Require Import ZArith Lia Strings.Byte.
From stdpp Require Import base list strings.

#[local] Open Scope Z_scope.

(** ** Packets (packet.rs) *)

Definition MAGIC : Z := 0xec1d.
Definition PROTOCOL_VERSION : Z := 3.

Inductive PacketType : Type :=
| PtHandshake
| PtHandshakeAck
| PtFrameHeader
| PtFrameChunk
| PtCursorUpdate
| PtInputEvent
| PtControl
| PtPing
| PtAudioFrame
| PtPairingRequest
| PtPairingGrant
| PtPairingReject
| PtFrameParity
| PtFrameNack
| PtInputBatch
| PtCursorShape.
Definition PacketType_to_u8 (x : PacketType) : Z :=
  match x with
  | PtHandshake => 0
  | PtHandshakeAck => 1
  | PtFrameHeader => 2
  | PtFrameChunk => 3
  | PtCursorUpdate => 4
  | PtInputEvent => 5
  | PtControl => 6
  | PtPing => 7
  | PtAudioFrame => 8
  | PtPairingRequest => 9
  | PtPairingGrant => 10
  | PtPairingReject => 11
  | PtFrameParity => 12
  | PtFrameNack => 13
  | PtInputBatch => 14
  | PtCursorShape => 15
  end.
Definition PacketType_tags : list (Z * PacketType) :=
  [(0, PtHandshake);
   (1, PtHandshakeAck);
   (2, PtFrameHeader);
   (3, PtFrameChunk);
   (4, PtCursorUpdate);
   (5, PtInputEvent);
   (6, PtControl);
   (7, PtPing);
   (8, PtAudioFrame);
   (9, PtPairingRequest);
   (10, PtPairingGrant);
   (11, PtPairingReject);
   (12, PtFrameParity);
   (13, PtFrameNack);
   (14, PtInputBatch);
   (15, PtCursorShape)].
Definition PacketType_try_from (value : Z) : Res PacketType := lookup_tag PacketType_tags (UnknownPacketType) value.
#[global] Instance PacketType_eq_dec : EqDecision PacketType.
Proof. solve_decision. Defined.
#[export] Instance PacketType_enum : WireEnum PacketType := {| to_u8 := PacketType_to_u8; try_from := PacketType_try_from |}.
#[export] Instance PacketType_laws : EnumLaws PacketType.
Proof. solve_enum PacketType_tags PacketType_try_from. Qed.

Record PacketHeader := mk_PacketHeader {
  packet_type : PacketType;
  sequence : Z;
  timestamp_ms : Z;
  flags : Z;
}.
#[export] Instance PacketHeader_holds : Holds PacketHeader := λ h,
  is_u32 (sequence h) && is_u32 (timestamp_ms h) && is_u8 (flags h).

Definition PacketHeader_to_bytes (h : PacketHeader) : list byte :=
  push_u16 MAGIC ++ push_u8 (to_u8 (packet_type h)) ++ push_u32 (sequence h) ++ push_u32 (timestamp_ms h) ++
  push_u8 (flags h).
Definition PacketHeader_encode (h : PacketHeader) : Res (list byte) := Ok (PacketHeader_to_bytes h).
Definition PacketHeader_decode : list byte → Res PacketHeader := run (
  magic ← d_u16 "packet magic";
  if negb (magic =? MAGIC) then d_fail (InvalidMagic magic) else
  t ← d_u8 "packet type"; packet_type ← d_lift (try_from t);
  sequence ← d_u32 "packet sequence";
  timestamp_ms ← d_u32 "packet timestamp";
  flags ← d_u8 "packet flags";
  d_finish "packet header";;
  mret (mk_PacketHeader packet_type sequence timestamp_ms flags)).
#[export] Hint Unfold PacketHeader_to_bytes : rd_body.
#[export] Instance PacketHeader_wire : WireCodec PacketHeader :=
  {| encode := PacketHeader_encode; decode := PacketHeader_decode |}.

(** ** Capabilities and the handshake (handshake.rs) *)

Definition MAX_HANDSHAKE_NAME_BYTES : Z := 1024.
Definition MAX_PAIRING_ID_BYTES : Z := 256.
Definition SESSION_SALT_SIZE : Z := 16.

(** [Capabilities(u64)] is its bits. *)
Definition STREAM_CONFIGURATION : Z := Z.shiftl 1 0.
Definition CLIPBOARD_SYNC : Z := Z.shiftl 1 1.
Definition TEXT_CLIPBOARD_SYNC : Z := Z.shiftl 1 2.
Definition COLOR_444 : Z := Z.shiftl 1 3.
Definition COLOR_HDR : Z := Z.shiftl 1 4.
Definition GAMEPAD : Z := Z.shiftl 1 5.
Definition PEN_INPUT : Z := Z.shiftl 1 6.
Definition AUTHENTICATED_UDP_REGISTRATION : Z := Z.shiftl 1 7.
Definition STREAM_OPTIONS : Z := Z.shiftl 1 8.
Definition SECURE_ATTENTION : Z := Z.shiftl 1 9.
Definition HOST_STATUS : Z := Z.shiftl 1 10.
Definition SESSION_ENDED : Z := Z.shiftl 1 11.
Definition GUEST_PERMISSIONS : Z := Z.shiftl 1 12.
Definition PAIRING_TRUST : Z := Z.shiftl 1 13.
Definition CLIPBOARD_IMAGE : Z := Z.shiftl 1 14.
Definition AUDIO_OPUS : Z := Z.shiftl 1 19.
Definition AUDIO_SOURCE_TIME : Z := Z.shiftl 1 20.
Definition INPUT_ECHO : Z := Z.shiftl 1 24.
Definition CLOCK_CORRELATION : Z := Z.shiftl 1 23.
Definition RTT_PROBE : Z := Z.shiftl 1 15.
Definition FEC_NACK : Z := Z.shiftl 1 16.
Definition UDP_INPUT : Z := Z.shiftl 1 17.
Definition CURSOR_SHAPE : Z := Z.shiftl 1 18.
Definition CURSOR_METADATA : Z := Z.shiftl 1 21.
Definition cap_all : Z :=
  foldl Z.lor 0 [STREAM_CONFIGURATION;
    CLIPBOARD_SYNC;
    TEXT_CLIPBOARD_SYNC;
    COLOR_444;
    COLOR_HDR;
    GAMEPAD;
    PEN_INPUT;
    AUTHENTICATED_UDP_REGISTRATION;
    STREAM_OPTIONS;
    SECURE_ATTENTION;
    HOST_STATUS;
    SESSION_ENDED;
    GUEST_PERMISSIONS;
    PAIRING_TRUST;
    CLIPBOARD_IMAGE;
    RTT_PROBE;
    FEC_NACK;
    UDP_INPUT;
    CURSOR_SHAPE;
    AUDIO_OPUS;
    AUDIO_SOURCE_TIME;
    CLOCK_CORRELATION;
    CURSOR_METADATA;
    INPUT_ECHO].
Definition cap_contains (self other : Z) : bool := Z.land self other =? other.

Record Handshake := mk_Handshake {
  hs_name : list byte;
  hs_width : Z;
  hs_height : Z;
  hs_scale : Z;
  hs_version : Z;
  hs_capabilities : Z;
  hs_pairing_id : list byte;
  hs_session_salt : list byte;
}.
#[export] Instance Handshake_holds : Holds Handshake := λ h,
  utf8_valid (hs_name h) && is_u16 (hs_width h) && is_u16 (hs_height h) && is_u32 (hs_scale h) && is_u8 (hs_version h) &&
  is_u64 (hs_capabilities h) && utf8_valid (hs_pairing_id h) && (zlen (hs_session_salt h) =? SESSION_SALT_SIZE).

Definition Handshake_encode (h : Handshake) : Res (list byte) :=
  if negb (hs_version h =? PROTOCOL_VERSION) then Err (UnsupportedVersion (hs_version h)) else
  name ← checked_bytes (hs_name h) "handshake name" MAX_HANDSHAKE_NAME_BYTES;
  pairing_id ← checked_bytes (hs_pairing_id h) "handshake pairing ID" MAX_PAIRING_ID_BYTES;
  name_len ← usize_to_u16 (zlen name) "handshake name";
  id_len ← usize_to_u16 (zlen pairing_id) "handshake pairing ID";
  Ok (push_u16 name_len ++ name ++ push_u16 (hs_width h) ++ push_u16 (hs_height h) ++ push_f32 (hs_scale h) ++
      push_u8 (hs_version h) ++ push_u64 (hs_capabilities h) ++ push_u16 id_len ++ pairing_id ++ hs_session_salt h).
Definition Handshake_decode : list byte → Res Handshake := run (
  name_length ← d_u16 "handshake name length";
  if MAX_HANDSHAKE_NAME_BYTES <? name_length
  then d_fail (LengthLimit "handshake name" name_length MAX_HANDSHAKE_NAME_BYTES) else
  name ← d_utf8 name_length "handshake name";
  width ← d_u16 "handshake width";
  height ← d_u16 "handshake height";
  scale ← d_f32 "handshake scale";
  version ← d_u8 "handshake version";
  if negb (version =? PROTOCOL_VERSION) then d_fail (UnsupportedVersion version) else
  capabilities ← d_u64 "handshake capabilities";
  pairing_id_length ← d_u16 "handshake pairing ID length";
  if MAX_PAIRING_ID_BYTES <? pairing_id_length
  then d_fail (LengthLimit "handshake pairing ID" pairing_id_length MAX_PAIRING_ID_BYTES) else
  pairing_id ← d_utf8 pairing_id_length "handshake pairing ID";
  session_salt ← d_take SESSION_SALT_SIZE "handshake session salt";
  d_finish "handshake";;
  mret (mk_Handshake name width height scale version capabilities pairing_id session_salt)).
#[export] Instance Handshake_wire : WireCodec Handshake := {| encode := Handshake_encode; decode := Handshake_decode |}.

(** ** Pairing (pairing.rs) *)

Definition MAX_PAIRING_NAME_BYTES : Z := 1024.
Definition PAIRING_KEY_SIZE : Z := 32.

Record PairingRequest := mk_PairingRequest { pr_name : list byte }.
#[export] Instance PairingRequest_holds : Holds PairingRequest := λ r, utf8_valid (pr_name r).
Definition PairingRequest_encode (r : PairingRequest) : Res (list byte) :=
  name ← checked_bytes (pr_name r) "pairing request name" MAX_PAIRING_NAME_BYTES;
  n ← usize_to_u16 (zlen name) "pairing request name";
  Ok (push_u16 n ++ name).
Definition PairingRequest_decode : list byte → Res PairingRequest := run (
  length ← d_u16 "pairing request name length";
  if MAX_PAIRING_NAME_BYTES <? length then d_fail (LengthLimit "pairing request name" length MAX_PAIRING_NAME_BYTES) else
  name ← d_utf8 length "pairing request name";
  d_finish "pairing request";;
  mret (mk_PairingRequest name)).
#[export] Instance PairingRequest_wire : WireCodec PairingRequest :=
  {| encode := PairingRequest_encode; decode := PairingRequest_decode |}.

Record PairingGrant := mk_PairingGrant {
  pg_pairing_id : list byte;
  pg_host_name : list byte;
  pg_key : list byte;
}.
#[export] Instance PairingGrant_holds : Holds PairingGrant := λ g,
  utf8_valid (pg_pairing_id g) && utf8_valid (pg_host_name g) && (zlen (pg_key g) =? PAIRING_KEY_SIZE).
Definition PairingGrant_encode (g : PairingGrant) : Res (list byte) :=
  pairing_id ← checked_bytes (pg_pairing_id g) "pairing grant ID" u8_max;
  host_name ← checked_bytes (pg_host_name g) "pairing grant host name" u16_max;
  id_len ← usize_to_u8 (zlen pairing_id) "pairing grant ID";
  name_len ← usize_to_u16 (zlen host_name) "pairing grant host name";
  Ok (push_u8 id_len ++ pairing_id ++ push_u16 name_len ++ host_name ++ push_u8 PAIRING_KEY_SIZE ++ pg_key g).
Definition PairingGrant_decode : list byte → Res PairingGrant := run (
  pairing_id_length ← d_u8 "pairing grant ID length";
  pairing_id ← d_utf8 pairing_id_length "pairing grant ID";
  host_name_length ← d_u16 "pairing grant host name length";
  host_name ← d_utf8 host_name_length "pairing grant host name";
  key_length ← d_u8 "pairing key length";
  if negb (key_length =? PAIRING_KEY_SIZE) then d_fail (InvalidLength "pairing key" key_length PAIRING_KEY_SIZE) else
  key ← d_take key_length "pairing key";
  d_finish "pairing grant";;
  mret (mk_PairingGrant pairing_id host_name key)).
#[export] Instance PairingGrant_wire : WireCodec PairingGrant :=
  {| encode := PairingGrant_encode; decode := PairingGrant_decode |}.

Inductive PairingRejectReason : Type :=
| DeniedByHost
| LockedOut
| PairingDisabled.
Definition PairingRejectReason_to_u8 (x : PairingRejectReason) : Z :=
  match x with
  | DeniedByHost => 0
  | LockedOut => 1
  | PairingDisabled => 2
  end.
Definition PairingRejectReason_tags : list (Z * PairingRejectReason) :=
  [(0, DeniedByHost);
   (1, LockedOut);
   (2, PairingDisabled)].
Definition PairingRejectReason_try_from (value : Z) : Res PairingRejectReason := lookup_tag PairingRejectReason_tags (UnknownPairingRejectReason) value.
#[global] Instance PairingRejectReason_eq_dec : EqDecision PairingRejectReason.
Proof. solve_decision. Defined.
#[export] Instance PairingRejectReason_enum : WireEnum PairingRejectReason := {| to_u8 := PairingRejectReason_to_u8; try_from := PairingRejectReason_try_from |}.
#[export] Instance PairingRejectReason_laws : EnumLaws PairingRejectReason.
Proof. solve_enum PairingRejectReason_tags PairingRejectReason_try_from. Qed.

Record PairingReject := mk_PairingReject { pj_reason : PairingRejectReason }.
#[export] Instance PairingReject_holds : Holds PairingReject := λ _, true.
Definition PairingReject_encode (r : PairingReject) : Res (list byte) := Ok (push_u8 (to_u8 (pj_reason r))).
Definition PairingReject_decode : list byte → Res PairingReject := run (
  v ← d_u8 "pairing reject reason"; reason ← d_lift (try_from v);
  d_finish "pairing reject";;
  mret (mk_PairingReject reason)).
#[export] Instance PairingReject_wire : WireCodec PairingReject :=
  {| encode := PairingReject_encode; decode := PairingReject_decode |}.

(** ** Audio source time (audio_time.rs) *)

Definition audio_source_prefix (payload : list byte) (capture_us capabilities : Z) : list byte :=
  if negb (cap_contains capabilities AUDIO_SOURCE_TIME) then payload else to_be 8 capture_us ++ payload.
Definition split_audio_source_time (payload : list byte) (capabilities : Z) : option (option Z * list byte) :=
  if cap_contains capabilities AUDIO_SOURCE_TIME then
    if zlen payload <? 8 then None else Some (Some (from_be (take 8 payload)), drop 8 payload)
  else Some (None, payload).

#[export] Hint Unfold MAGIC PROTOCOL_VERSION MAX_HANDSHAKE_NAME_BYTES MAX_PAIRING_ID_BYTES SESSION_SALT_SIZE
  MAX_PAIRING_NAME_BYTES PAIRING_KEY_SIZE : rd_const.

(** ** Laws *)

#[export] Instance PacketHeader_canonical : Canonical PacketHeader.
Proof. solve_canonical PacketHeader_holds PacketHeader_encode PacketHeader_decode. Qed.
#[export] Instance Handshake_canonical : Canonical Handshake.
Proof. solve_canonical Handshake_holds Handshake_encode Handshake_decode. Qed.
#[export] Instance PairingRequest_canonical : Canonical PairingRequest.
Proof. solve_canonical PairingRequest_holds PairingRequest_encode PairingRequest_decode. Qed.
#[export] Instance PairingGrant_canonical : Canonical PairingGrant.
Proof. solve_canonical PairingGrant_holds PairingGrant_encode PairingGrant_decode. Qed.
#[export] Instance PairingReject_canonical : Canonical PairingReject.
Proof. solve_canonical PairingReject_holds PairingReject_encode PairingReject_decode. Qed.

(** The time prefix comes off again under the same capabilities. *)
Lemma audio_source_time_roundtrip payload t caps :
  is_u64 t = true →
  split_audio_source_time (audio_source_prefix payload t caps) caps =
  Some (if cap_contains caps AUDIO_SOURCE_TIME then Some t else None, payload).
Proof.
  intros Ht%in_range_iff. unfold split_audio_source_time, audio_source_prefix.
  destruct (cap_contains caps AUDIO_SOURCE_TIME); cbn [negb]; [|done]. pose proof (zlen_nonneg payload).
  rewrite zlen_app, zlen_to_be. destruct (Z.ltb_spec (Z.of_nat 8 + zlen payload) 8); [lia|].
  rewrite <- (length_to_be 8 t) at 1 3. rewrite take_app_length, drop_app_length, from_to_be, Z.mod_small; [done|].
  unfold u64_max in *. lia.
Qed.
