(* ===== verification/RdMedia.v ===== *)
(** * RdMedia (crates/ferryx-rd/ferryx-rd-proto/src: media.rs, cursor.rs, the codecs of fec.rs)

    Video frames and their chunks, parity and retransmission requests, audio
    fragments, cursors, colour metadata and the timing side channel, each with its
    codec laws. *)

From S2P Require Import Prelude Wire RdCodec.
From Stdlib Require Import ZArith Lia Strings.Byte.
From stdpp Require Import base list strings.

#[local] Open Scope Z_scope.

Definition MAX_CHUNKS_PER_FRAME : Z := 8192.
Definition MAX_FRAME_BYTES : Z := 32 * 1024 * 1024.
Definition MAX_VIDEO_CHUNK_BYTES : Z := 1382.
Definition MAX_AUDIO_FRAGMENT_BYTES : Z := 1380.
Definition MAX_CURSOR_DIMENSION : Z := 128.
Definition MAX_NACK_INDICES : Z := 256.
#[export] Hint Unfold MAX_CHUNKS_PER_FRAME MAX_FRAME_BYTES MAX_VIDEO_CHUNK_BYTES MAX_AUDIO_FRAGMENT_BYTES MAX_CURSOR_DIMENSION
  MAX_NACK_INDICES : rd_const.

(** ** Timing side channel *)

(** [&bytes[i..j]] of a slice long enough. *)
Definition slice (i j : nat) (l : list byte) : list byte := take (j - i) (drop i l).

Definition TIMESTAMP_STATS_MAGIC : list byte := [x45; x52; x44; x54; x53; x31].
Definition INPUT_ECHO_MAGIC : list byte := [x45; x52; x44; x49; x45; x31].

Record TimestampStats := mk_TimestampStats {
  ts_frame_id : Z;
  ts_capture_us : Z;
  ts_encode_start_us : Z;
  ts_encode_end_us : Z;
  ts_send_us : Z;
}.
Definition TimestampStats_encode (t : TimestampStats) : list byte :=
  TIMESTAMP_STATS_MAGIC ++ to_le 4 (ts_frame_id t) ++ to_le 8 (ts_capture_us t) ++ to_le 8 (ts_encode_start_us t) ++
  to_le 8 (ts_encode_end_us t) ++ to_le 8 (ts_send_us t).
Definition TimestampStats_decode (bytes : list byte) : option TimestampStats :=
  if negb (zlen bytes =? 6 + 4 + 8 * 4) || negb (bool_decide (slice 0 6 bytes = TIMESTAMP_STATS_MAGIC)) then None else
  Some (mk_TimestampStats (from_le (slice 6 10 bytes)) (from_le (slice 10 18 bytes)) (from_le (slice 18 26 bytes))
    (from_le (slice 26 34 bytes)) (from_le (slice 34 42 bytes))).

Record InputEcho := mk_InputEcho {
  ie_frame_id : Z;
  ie_last_applied_input_seq : Z;
  ie_injection_timestamp_us : Z;
}.
Definition InputEcho_encode (e : InputEcho) : list byte :=
  INPUT_ECHO_MAGIC ++ to_le 4 (ie_frame_id e) ++ to_le 8 (ie_last_applied_input_seq e) ++ to_le 8 (ie_injection_timestamp_us e).
Definition InputEcho_decode (bytes : list byte) : option InputEcho :=
  if negb (zlen bytes =? 26) || negb (bool_decide (slice 0 6 bytes = INPUT_ECHO_MAGIC)) then None else
  Some (mk_InputEcho (from_le (slice 6 10 bytes)) (from_le (slice 10 18 bytes)) (from_le (slice 18 26 bytes))).

(** ** Video frames *)

Record FrameHeader := mk_FrameHeader {
  fh_frame_id : Z;
  fh_width : Z;
  fh_height : Z;
  fh_is_key_frame : bool;
  fh_total_chunks : Z;
  fh_total_size : Z;
}.
#[export] Instance FrameHeader_holds : Holds FrameHeader := λ h,
  is_u32 (fh_frame_id h) && is_u16 (fh_width h) && is_u16 (fh_height h) && is_u16 (fh_total_chunks h) && is_u32 (fh_total_size h).
Definition FrameHeader_validate (h : FrameHeader) : Res unit :=
  if MAX_CHUNKS_PER_FRAME <? fh_total_chunks h then Err (LengthLimit "frame chunks" (fh_total_chunks h) MAX_CHUNKS_PER_FRAME) else
  if MAX_FRAME_BYTES <? fh_total_size h then Err (LengthLimit "frame bytes" (fh_total_size h) MAX_FRAME_BYTES) else
  let chunk_capacity := fh_total_chunks h * MAX_VIDEO_CHUNK_BYTES in
  if chunk_capacity <? fh_total_size h then Err (LengthLimit "frame bytes for chunk count" (fh_total_size h) chunk_capacity) else
  Ok tt.
Definition FrameHeader_encode (h : FrameHeader) : Res (list byte) :=
  _ ← FrameHeader_validate h;
  Ok (push_u32 (fh_frame_id h) ++ push_u16 (fh_width h) ++ push_u16 (fh_height h) ++ push_bool (fh_is_key_frame h) ++
      push_u16 (fh_total_chunks h) ++ push_u8 0 ++ push_u32 (fh_total_size h)).
Definition FrameHeader_decode : list byte → Res FrameHeader := run (
  frame_id ← d_u32 "frame ID";
  width ← d_u16 "frame width";
  height ← d_u16 "frame height";
  key ← d_u8 "frame key flag";
  total_chunks ← d_u16 "frame chunk count";
  _ ← d_u8 "frame padding";
  total_size ← d_u32 "frame total size";
  let value := mk_FrameHeader frame_id width height (negb (key =? 0)) total_chunks total_size in
  d_finish "frame header";;
  _ ← d_lift (FrameHeader_validate value);
  mret value).
#[export] Instance FrameHeader_wire : WireCodec FrameHeader := {| encode := FrameHeader_encode; decode := FrameHeader_decode |}.

Record FrameChunk := mk_FrameChunk {
  fc_frame_id : Z;
  fc_chunk_index : Z;
  fc_data : list byte;
}.
#[export] Instance FrameChunk_holds : Holds FrameChunk := λ c, is_u32 (fc_frame_id c) && is_u16 (fc_chunk_index c).
Definition FrameChunk_validate (c : FrameChunk) : Res unit :=
  if MAX_CHUNKS_PER_FRAME <=? fc_chunk_index c then Err (InvalidValue "frame chunk index" (fc_chunk_index c)) else
  if MAX_VIDEO_CHUNK_BYTES <? zlen (fc_data c) then Err (LengthLimit "video chunk data" (zlen (fc_data c)) MAX_VIDEO_CHUNK_BYTES) else
  Ok tt.
Definition FrameChunk_encode (c : FrameChunk) : Res (list byte) :=
  _ ← FrameChunk_validate c;
  Ok (push_u32 (fc_frame_id c) ++ push_u16 (fc_chunk_index c) ++ fc_data c).
Definition FrameChunk_decode : list byte → Res FrameChunk := run (
  frame_id ← d_u32 "frame chunk ID";
  chunk_index ← d_u16 "frame chunk index";
  if MAX_CHUNKS_PER_FRAME <=? chunk_index then d_fail (InvalidValue "frame chunk index" chunk_index) else
  data ← d_take_remaining;
  if MAX_VIDEO_CHUNK_BYTES <? zlen data then d_fail (LengthLimit "video chunk data" (zlen data) MAX_VIDEO_CHUNK_BYTES) else
  mret (mk_FrameChunk frame_id chunk_index data)).
#[export] Instance FrameChunk_wire : WireCodec FrameChunk := {| encode := FrameChunk_encode; decode := FrameChunk_decode |}.

(** ** Parity and retransmission requests (fec.rs) *)

Record FrameParity := mk_FrameParity {
  fp_frame_id : Z;
  fp_parity_index : Z;
  fp_parity_count : Z;
  fp_length_xor : Z;
  fp_data : list byte;
}.
#[export] Instance FrameParity_holds : Holds FrameParity := λ p,
  is_u32 (fp_frame_id p) && is_u16 (fp_parity_index p) && is_u16 (fp_parity_count p) && is_u16 (fp_length_xor p).
Definition FrameParity_validate (p : FrameParity) : Res unit :=
  if (fp_parity_count p =? 0) || (MAX_CHUNKS_PER_FRAME <? fp_parity_count p)
  then Err (InvalidValue "parity count" (fp_parity_count p)) else
  if fp_parity_count p <=? fp_parity_index p then Err (InvalidValue "parity index" (fp_parity_index p)) else
  if MAX_VIDEO_CHUNK_BYTES <? zlen (fp_data p) then Err (LengthLimit "parity data" (zlen (fp_data p)) MAX_VIDEO_CHUNK_BYTES) else
  Ok tt.
Definition FrameParity_encode (p : FrameParity) : Res (list byte) :=
  _ ← FrameParity_validate p;
  Ok (push_u32 (fp_frame_id p) ++ push_u16 (fp_parity_index p) ++ push_u16 (fp_parity_count p) ++
      push_u16 (fp_length_xor p) ++ fp_data p).
Definition FrameParity_decode : list byte → Res FrameParity := run (
  frame_id ← d_u32 "parity frame ID";
  parity_index ← d_u16 "parity index";
  parity_count ← d_u16 "parity count";
  length_xor ← d_u16 "parity length XOR";
  data ← d_take_remaining;
  let value := mk_FrameParity frame_id parity_index parity_count length_xor data in
  _ ← d_lift (FrameParity_validate value);
  mret value).
#[export] Instance FrameParity_wire : WireCodec FrameParity := {| encode := FrameParity_encode; decode := FrameParity_decode |}.

Record FrameNack := mk_FrameNack {
  fn_frame_id : Z;
  fn_loss_permille : Z;
  fn_rtt_ms : Z;
  fn_missing : list Z;
}.
#[export] Instance FrameNack_holds : Holds FrameNack := λ n,
  is_u32 (fn_frame_id n) && is_u16 (fn_loss_permille n) && is_u16 (fn_rtt_ms n) && forallb is_u16 (fn_missing n).
Definition FrameNack_validate (n : FrameNack) : Res unit :=
  if 1000 <? fn_loss_permille n then Err (InvalidValue "NACK loss permille" (fn_loss_permille n)) else
  if MAX_NACK_INDICES <? zlen (fn_missing n) then Err (LengthLimit "NACK indices" (zlen (fn_missing n)) MAX_NACK_INDICES) else
  match filter (λ i, MAX_CHUNKS_PER_FRAME <= i) (fn_missing n) with
  | i :: _ => Err (InvalidValue "NACK chunk index" i)
  | [] => Ok tt
  end.
Definition FrameNack_encode (n : FrameNack) : Res (list byte) :=
  _ ← FrameNack_validate n;
  Ok (push_u32 (fn_frame_id n) ++ push_u16 (fn_loss_permille n) ++ push_u16 (fn_rtt_ms n) ++
      push_u16 (zlen (fn_missing n) mod 2 ^ 16) ++ concat (push_u16 <$> fn_missing n)).
Definition FrameNack_decode : list byte → Res FrameNack := run (
  frame_id ← d_u32 "NACK frame ID";
  loss_permille ← d_u16 "NACK loss permille";
  rtt_ms ← d_u16 "NACK RTT milliseconds";
  count ← d_u16 "NACK index count";
  if MAX_NACK_INDICES <? count then d_fail (LengthLimit "NACK indices" count MAX_NACK_INDICES) else
  missing ← d_repeat (Z.to_nat count) (d_u16 "NACK chunk index");
  d_finish "frame NACK";;
  let value := mk_FrameNack frame_id loss_permille rtt_ms missing in
  _ ← d_lift (FrameNack_validate value);
  mret value).
#[export] Instance FrameNack_wire : WireCodec FrameNack := {| encode := FrameNack_encode; decode := FrameNack_decode |}.

(** ** Audio fragments *)

Record AudioFragmentHeader := mk_AudioFragmentHeader {
  ah_frame_id : Z;
  ah_fragment_index : Z;
  ah_fragment_count : Z;
}.
#[export] Instance AudioFragmentHeader_holds : Holds AudioFragmentHeader := λ h,
  is_u32 (ah_frame_id h) && is_u16 (ah_fragment_index h) && is_u16 (ah_fragment_count h).
Definition AudioFragmentHeader_validate (h : AudioFragmentHeader) : Res unit :=
  if ah_fragment_count h =? 0 then Err (InvalidValue "audio fragment count" 0) else
  if ah_fragment_count h <=? ah_fragment_index h then Err (InvalidValue "audio fragment index" (ah_fragment_index h)) else
  Ok tt.
Definition AudioFragmentHeader_bytes (h : AudioFragmentHeader) : list byte :=
  push_u32 (ah_frame_id h) ++ push_u16 (ah_fragment_index h) ++ push_u16 (ah_fragment_count h).
Definition AudioFragmentHeader_encode (h : AudioFragmentHeader) : Res (list byte) :=
  _ ← AudioFragmentHeader_validate h; Ok (AudioFragmentHeader_bytes h).
Definition AudioFragmentHeader_decode : list byte → Res AudioFragmentHeader := run (
  frame_id ← d_u32 "audio frame ID";
  fragment_index ← d_u16 "audio fragment index";
  fragment_count ← d_u16 "audio fragment count";
  let value := mk_AudioFragmentHeader frame_id fragment_index fragment_count in
  d_finish "audio fragment header";;
  _ ← d_lift (AudioFragmentHeader_validate value);
  mret value).
#[export] Hint Unfold AudioFragmentHeader_bytes : rd_body.
#[export] Instance AudioFragmentHeader_wire : WireCodec AudioFragmentHeader :=
  {| encode := AudioFragmentHeader_encode; decode := AudioFragmentHeader_decode |}.

Record AudioFragment := mk_AudioFragment {
  af_header : AudioFragmentHeader;
  af_data : list byte;
}.
#[export] Instance AudioFragment_holds : Holds AudioFragment := λ f, AudioFragmentHeader_holds (af_header f).
Definition AudioFragment_validate (f : AudioFragment) : Res unit :=
  _ ← AudioFragmentHeader_validate (af_header f);
  if MAX_AUDIO_FRAGMENT_BYTES <? zlen (af_data f)
  then Err (LengthLimit "audio fragment data" (zlen (af_data f)) MAX_AUDIO_FRAGMENT_BYTES) else Ok tt.
Definition AudioFragment_encode (f : AudioFragment) : Res (list byte) :=
  _ ← AudioFragment_validate f; header ← AudioFragmentHeader_encode (af_header f); Ok (header ++ af_data f).
Definition AudioFragment_decode : list byte → Res AudioFragment := run (
  frame_id ← d_u32 "audio frame ID";
  fragment_index ← d_u16 "audio fragment index";
  fragment_count ← d_u16 "audio fragment count";
  let header := mk_AudioFragmentHeader frame_id fragment_index fragment_count in
  _ ← d_lift (AudioFragmentHeader_validate header);
  data ← d_take_remaining;
  if MAX_AUDIO_FRAGMENT_BYTES <? zlen data then d_fail (LengthLimit "audio fragment data" (zlen data) MAX_AUDIO_FRAGMENT_BYTES) else
  mret (mk_AudioFragment header data)).
#[export] Instance AudioFragment_wire : WireCodec AudioFragment :=
  {| encode := AudioFragment_encode; decode := AudioFragment_decode |}.

(** ** Colour metadata *)

Inductive ColorRange : Type :=
| Limited
| Full.
Definition ColorRange_to_u8 (x : ColorRange) : Z :=
  match x with
  | Limited => 0
  | Full => 1
  end.
Definition ColorRange_tags : list (Z * ColorRange) :=
  [(0, Limited);
   (1, Full)].
Definition ColorRange_try_from (value : Z) : Res ColorRange := lookup_tag ColorRange_tags (UnknownColorRange) value.
#[global] Instance ColorRange_eq_dec : EqDecision ColorRange.
Proof. solve_decision. Defined.
#[export] Instance ColorRange_enum : WireEnum ColorRange := {| to_u8 := ColorRange_to_u8; try_from := ColorRange_try_from |}.
#[export] Instance ColorRange_laws : EnumLaws ColorRange.
Proof. solve_enum ColorRange_tags ColorRange_try_from. Qed.
Inductive ColorMatrix : Type :=
| Bt709
| Bt601
| Bt2020.
Definition ColorMatrix_to_u8 (x : ColorMatrix) : Z :=
  match x with
  | Bt709 => 0
  | Bt601 => 1
  | Bt2020 => 2
  end.
Definition ColorMatrix_tags : list (Z * ColorMatrix) :=
  [(0, Bt709);
   (1, Bt601);
   (2, Bt2020)].
Definition ColorMatrix_try_from (value : Z) : Res ColorMatrix := lookup_tag ColorMatrix_tags (UnknownColorMatrix) value.
#[global] Instance ColorMatrix_eq_dec : EqDecision ColorMatrix.
Proof. solve_decision. Defined.
#[export] Instance ColorMatrix_enum : WireEnum ColorMatrix := {| to_u8 := ColorMatrix_to_u8; try_from := ColorMatrix_try_from |}.
#[export] Instance ColorMatrix_laws : EnumLaws ColorMatrix.
Proof. solve_enum ColorMatrix_tags ColorMatrix_try_from. Qed.
Inductive ChromaSubsampling : Type :=
| Yuv420
| Yuv444.
Definition ChromaSubsampling_to_u8 (x : ChromaSubsampling) : Z :=
  match x with
  | Yuv420 => 0
  | Yuv444 => 1
  end.
Definition ChromaSubsampling_tags : list (Z * ChromaSubsampling) :=
  [(0, Yuv420);
   (1, Yuv444)].
Definition ChromaSubsampling_try_from (value : Z) : Res ChromaSubsampling := lookup_tag ChromaSubsampling_tags (UnknownChromaSubsampling) value.
#[global] Instance ChromaSubsampling_eq_dec : EqDecision ChromaSubsampling.
Proof. solve_decision. Defined.
#[export] Instance ChromaSubsampling_enum : WireEnum ChromaSubsampling := {| to_u8 := ChromaSubsampling_to_u8; try_from := ChromaSubsampling_try_from |}.
#[export] Instance ChromaSubsampling_laws : EnumLaws ChromaSubsampling.
Proof. solve_enum ChromaSubsampling_tags ChromaSubsampling_try_from. Qed.

Record ColorMetadata := mk_ColorMetadata {
  cm_range : ColorRange;
  cm_matrix : ColorMatrix;
  cm_chroma : ChromaSubsampling;
}.
#[export] Instance ColorMetadata_holds : Holds ColorMetadata := λ _, true.
Definition ColorMetadata_encode_into (c : ColorMetadata) : list byte :=
  push_u8 (to_u8 (cm_range c)) ++ push_u8 (to_u8 (cm_matrix c)) ++ push_u8 (to_u8 (cm_chroma c)).
Definition ColorMetadata_encode (c : ColorMetadata) : Res (list byte) := Ok (ColorMetadata_encode_into c).
Definition ColorMetadata_decode : list byte → Res ColorMetadata := run (
  r ← d_u8 "color range"; range ← d_lift (try_from r);
  m ← d_u8 "color matrix"; matrix ← d_lift (try_from m);
  c ← d_u8 "chroma subsampling"; chroma ← d_lift (try_from c);
  d_finish "color metadata";;
  mret (mk_ColorMetadata range matrix chroma)).
#[export] Hint Unfold ColorMetadata_encode_into : rd_body.
#[export] Instance ColorMetadata_wire : WireCodec ColorMetadata :=
  {| encode := ColorMetadata_encode; decode := ColorMetadata_decode |}.

(** ** Cursors (media.rs, cursor.rs) *)

Record CursorUpdate := mk_CursorUpdate {
  cu_x : Z;
  cu_y : Z;
  cu_cursor_type : Z;
}.
#[export] Instance CursorUpdate_holds : Holds CursorUpdate := λ c, is_u32 (cu_x c) && is_u32 (cu_y c) && is_u8 (cu_cursor_type c).
Definition CursorUpdate_SIZE : Z := 9.
Definition CursorUpdate_encode (c : CursorUpdate) : Res (list byte) :=
  Ok (push_f32 (cu_x c) ++ push_f32 (cu_y c) ++ push_u8 (cu_cursor_type c)).
Definition CursorUpdate_decode : list byte → Res CursorUpdate := run (
  x ← d_f32 "cursor x";
  y ← d_f32 "cursor y";
  cursor_type ← d_u8 "cursor type";
  d_finish "cursor update";;
  mret (mk_CursorUpdate x y cursor_type)).
#[export] Instance CursorUpdate_wire : WireCodec CursorUpdate := {| encode := CursorUpdate_encode; decode := CursorUpdate_decode |}.

Definition encode_with_shape (c : CursorUpdate) (shape_id : option Z) : Res (list byte) :=
  bytes ← CursorUpdate_encode c;
  Ok (match shape_id with Some id => bytes ++ push_u32 id | None => bytes end).
Definition decode_with_shape (input : list byte) (negotiated : bool) : Res (CursorUpdate * option Z) :=
  if negb negotiated then cursor ← (CursorUpdate_decode input : Res CursorUpdate); Ok (cursor, None) else
  run (position ← d_take CursorUpdate_SIZE "cursor position";
       cursor ← d_lift (CursorUpdate_decode position);
       id ← d_u32 "cursor shape id";
       d_finish "shaped cursor update";;
       mret (cursor, Some id)) input.

Record CursorShape := mk_CursorShape {
  cs_shape_id : Z;
  cs_width : Z;
  cs_height : Z;
  cs_hotspot_x : Z;
  cs_hotspot_y : Z;
  cs_rgba : list byte;
}.
#[export] Instance CursorShape_holds : Holds CursorShape := λ c,
  is_u32 (cs_shape_id c) && is_u16 (cs_width c) && is_u16 (cs_height c) && is_u16 (cs_hotspot_x c) && is_u16 (cs_hotspot_y c).
Definition CursorShape_validate (c : CursorShape) : Res unit :=
  if (cs_shape_id c =? 0) || (cs_width c =? 0) || (cs_height c =? 0) || (MAX_CURSOR_DIMENSION <? cs_width c) ||
     (MAX_CURSOR_DIMENSION <? cs_height c) || (cs_width c <=? cs_hotspot_x c) || (cs_height c <=? cs_hotspot_y c)
  then Err (InvalidValue "cursor shape geometry" (cs_shape_id c)) else
  let expected := cs_width c * cs_height c * 4 in
  if negb (zlen (cs_rgba c) =? expected) then Err (LengthLimit "cursor RGBA bytes" (zlen (cs_rgba c)) expected) else Ok tt.
Definition CursorShape_encode (c : CursorShape) : Res (list byte) :=
  _ ← CursorShape_validate c;
  Ok (push_u32 (cs_shape_id c) ++ push_u16 (cs_width c) ++ push_u16 (cs_height c) ++ push_u16 (cs_hotspot_x c) ++
      push_u16 (cs_hotspot_y c) ++ cs_rgba c).
Definition CursorShape_decode : list byte → Res CursorShape := run (
  shape_id ← d_u32 "cursor shape id";
  width ← d_u16 "cursor width";
  height ← d_u16 "cursor height";
  hotspot_x ← d_u16 "cursor hotspot x";
  hotspot_y ← d_u16 "cursor hotspot y";
  data ← d_take_remaining;
  if (shape_id =? 0) || (width <=? hotspot_x) || (height <=? hotspot_y) || (width =? 0) || (height =? 0) ||
     (MAX_CURSOR_DIMENSION <? width) || (MAX_CURSOR_DIMENSION <? height) || negb (zlen data =? width * height * 4)
  then d_fail (InvalidValue "cursor shape bytes" (zlen data)) else
  let shape := mk_CursorShape shape_id width height hotspot_x hotspot_y data in
  _ ← d_lift (CursorShape_validate shape);
  mret shape).
#[export] Instance CursorShape_wire : WireCodec CursorShape := {| encode := CursorShape_encode; decode := CursorShape_decode |}.

(** ** Laws *)

#[export] Hint Unfold FrameChunk_validate AudioFragment_validate AudioFragmentHeader_encode : rd_body.
#[export] Hint Unfold AudioFragmentHeader_holds : rd_holds.

#[export] Instance FrameChunk_canonical : Canonical FrameChunk.
Proof. solve_canonical FrameChunk_holds FrameChunk_encode FrameChunk_decode. Qed.
#[export] Instance FrameParity_canonical : Canonical FrameParity.
Proof. solve_canonical FrameParity_holds FrameParity_encode FrameParity_decode. Qed.
#[export] Instance AudioFragmentHeader_canonical : Canonical AudioFragmentHeader.
Proof. solve_canonical AudioFragmentHeader_holds AudioFragmentHeader_encode AudioFragmentHeader_decode. Qed.
#[export] Instance ColorMetadata_canonical : Canonical ColorMetadata.
Proof. solve_canonical ColorMetadata_holds ColorMetadata_encode ColorMetadata_decode. Qed.
#[export] Instance CursorUpdate_canonical : Canonical CursorUpdate.
Proof. solve_canonical CursorUpdate_holds CursorUpdate_encode CursorUpdate_decode. Qed.
#[export] Instance AudioFragment_canonical : Canonical AudioFragment.
Proof. solve_canonical AudioFragment_holds AudioFragment_encode AudioFragment_decode. Qed.

(** The key flag and the padding of a header have other encodings. *)
#[export] Instance FrameHeader_laws : WireLaws FrameHeader.
Proof.
  split; [solve_written FrameHeader_holds FrameHeader_encode FrameHeader_decode|].
  intros b x H. change (FrameHeader_decode b = Ok x) in H. unfold FrameHeader_decode in H. apply run_Ok in H as [r H].
  dec_inv H. injection H as <- <-. split; [unfold holds, FrameHeader_holds; holds_go|]. eexists.
  change (encode ?h) with (FrameHeader_encode h). unfold FrameHeader_encode. enc_go.
Qed.

#[export] Instance CursorShape_canonical : Canonical CursorShape.
Proof.
  split; [|solve_read CursorShape_holds CursorShape_encode CursorShape_decode].
  intros x b Hh Hb. unfold holds, CursorShape_holds in Hh. bool_hyps. change (CursorShape_encode x = Ok b) in Hb.
  unfold CursorShape_encode in Hb. enc_inv Hb. pose proof E as E'. unfold CursorShape_validate in E'. cbv zeta in E'.
  destruct (_ || _) eqn:C; [done|]. destruct (negb _) eqn:C' in E'; [done|]. clear E'. bool_hyps. apply Z.eqb_eq in C'.
  change (CursorShape_decode ?l = ?r) with (CursorShape_decode l = r). apply run_Ok. exists [].
  match goal with |- _ ?l = _ => rewrite <- (app_nil_r l) end. dec_go. cbv zeta. dec_go. by destruct x.
Qed.

#[export] Instance FrameNack_canonical : Canonical FrameNack.
Proof.
  assert (∀ x b r, d_u16 "NACK chunk index" b = Ok (x, r) → is_u16 x = true ∧ b = push_u16 x ++ r) as Hinv.
  { intros x b r [Hx ->]%d_uint_inv. split; [apply in_range_iff; unfold u16_max; lia|done]. }
  assert (∀ x r, is_u16 x = true → d_u16 "NACK chunk index" (push_u16 x ++ r) = Ok (x, r)) as Hpush.
  { intros x r Hx. pose proof (d_u16_push mret x "NACK chunk index" r Hx) as Hd. unfold mbind, Dec_bind in Hd.
    by destruct (d_u16 _ _) as [[]|]. }
  split.
  - intros x b Hh Hb. unfold holds, FrameNack_holds in Hh. bool_hyps. change (FrameNack_encode x = Ok b) in Hb.
    unfold FrameNack_encode in Hb. enc_inv Hb. assert (zlen (fn_missing x) <= MAX_NACK_INDICES) as Hl.
    { unfold FrameNack_validate in E. destruct (1000 <? _); [done|]. destruct (Z.ltb_spec MAX_NACK_INDICES (zlen (fn_missing x))); [done|lia]. }
    pose proof (zlen_nonneg (fn_missing x)). rewrite (Z.mod_small (zlen _)) by (unfold MAX_NACK_INDICES in *; lia).
    apply run_Ok. exists []. match goal with |- _ ?l = _ => rewrite <- (app_nil_r l) end. dec_go.
    unfold zlen. rewrite Nat2Z.id, (d_repeat_push _ push_u16 (λ x, is_u16 x = true)); [|done|].
    2: { apply Forall_forall. intros i Hi. rewrite forallb_forall in H0. apply H0. by apply list_elem_of_In. }
    dec_go. by destruct x.
  - intros b x H. change (FrameNack_decode b = Ok x) in H. unfold FrameNack_decode in H. apply run_Ok in H as [r H].
    dec_inv H. apply d_bind_inv in H as (missing & rm & Hm & H). apply (d_repeat_inv _ push_u16 (λ x, is_u16 x = true)) in Hm as (Hl & Hf & ->);
      [|intros; by apply Hinv]. cbv zeta in H. dec_inv H. injection H as <- <-. assert (v2 = zlen missing) as -> by (unfold zlen; rd_lia).
    split.
    + unfold holds, FrameNack_holds. cbn. rewrite !andb_true_iff. split_and!; try done. apply forallb_forall.
      intros i Hi%list_elem_of_In. rewrite Forall_forall in Hf. by apply Hf.
    + match goal with |- encode ?h = _ => change (encode h) with (FrameNack_encode h) end. unfold FrameNack_encode. cbn [fn_missing fn_frame_id fn_loss_permille fn_rtt_ms].
      rewrite Z.mod_small by rd_lia. enc_go.
Qed.

(** ** Cursor positions with a shape *)

Lemma cursor_update_length c b : CursorUpdate_encode c = Ok b → zlen b = CursorUpdate_SIZE.
Proof. intros [= <-]. by autorewrite with zl. Qed.

Lemma cursor_shape_roundtrip c shape_id b :
  holds c = true → (∀ id, shape_id = Some id → is_u32 id = true) → encode_with_shape c shape_id = Ok b →
  decode_with_shape b (bool_decide (is_Some shape_id)) = Ok (c, shape_id).
Proof.
  intros Hc Hid Hb. unfold encode_with_shape in Hb. destruct (CursorUpdate_encode c) as [l|] eqn:El; [|done].
  assert (CursorUpdate_decode l = Ok c) as Ed by exact (canon_decode_encode c l Hc El). injection Hb as <-. unfold decode_with_shape.
  destruct shape_id as [id|]; cbn; [|by rewrite Ed].
  apply run_Ok. exists []. rewrite <- (app_nil_r (_ ++ _)), <- app_assoc.
  rewrite d_take_exact by (by eapply cursor_update_length). rewrite Ed, d_lift_ok, d_u32_push by (by apply Hid). by rewrite d_finish_nil.
Qed.

(** ** Timing side channel *)

Lemma slice_app i j a b c : length a = i → length b = (j - i)%nat → slice i j (a ++ b ++ c) = b.
Proof. intros <- Hb. unfold slice. by rewrite drop_app_length, <- Hb, take_app_length. Qed.
Lemma slice_first j b c : length b = j → slice 0 j (b ++ c) = b.
Proof. intros Hb. apply (slice_app 0 j []); [done|lia]. Qed.
Lemma slice_last i j a b : length a = i → length b = (j - i)%nat → slice i j (a ++ b) = b.
Proof. intros. rewrite <- (app_nil_r b) at 1. by apply slice_app. Qed.
Lemma length_to_le n v : length (to_le n v) = n.
Proof. unfold to_le. by rewrite length_reverse, length_to_be. Qed.
Lemma from_to_le_id n v : 0 <= v < 256 ^ Z.of_nat n → from_le (to_le n v) = v.
Proof. intros. by rewrite from_to_le, Z.mod_small. Qed.

Definition timestamps_hold (t : TimestampStats) : bool :=
  is_u32 (ts_frame_id t) && is_u64 (ts_capture_us t) && is_u64 (ts_encode_start_us t) && is_u64 (ts_encode_end_us t) &&
  is_u64 (ts_send_us t).

Lemma timestamp_stats_roundtrip t : timestamps_hold t = true → TimestampStats_decode (TimestampStats_encode t) = Some t.
Proof.
  intros H. unfold timestamps_hold, is_u32, is_u64 in H. bool_hyps. destruct t as [f a b c d]. cbn [ts_frame_id ts_capture_us ts_encode_start_us ts_encode_end_us ts_send_us] in *.
  unfold TimestampStats_encode, TimestampStats_decode. cbn [ts_frame_id ts_capture_us ts_encode_start_us ts_encode_end_us ts_send_us].
  set (m := TIMESTAMP_STATS_MAGIC). rewrite !zlen_app, !zlen_to_le.
  assert (∀ n v, length (to_le n v) = n) as Hn by apply length_to_le.
  rewrite (slice_app 6 10 m) by (done || apply Hn).
  rewrite (app_assoc m), (slice_app 10 18 (m ++ _)) by (rewrite ?length_app, ?Hn; done).
  rewrite (app_assoc (m ++ _)), (slice_app 18 26 (_ ++ _)) by (rewrite ?length_app, ?Hn; done).
  rewrite (app_assoc (_ ++ to_le 8 a)), (slice_app 26 34 (_ ++ _)) by (rewrite ?length_app, ?Hn; done).
  rewrite (app_assoc (_ ++ to_le 8 b)), (slice_last 34 42 (_ ++ _)) by (rewrite ?length_app, ?Hn; done).
  rewrite !from_to_le_id by (unfold u32_max, u64_max in *; lia). rewrite <- !app_assoc, slice_first by done.
  by rewrite bool_decide_true by done.
Qed.

Definition echo_holds (e : InputEcho) : bool :=
  is_u32 (ie_frame_id e) && is_u64 (ie_last_applied_input_seq e) && is_u64 (ie_injection_timestamp_us e).

Lemma input_echo_roundtrip e : echo_holds e = true → InputEcho_decode (InputEcho_encode e) = Some e.
Proof.
  intros H. unfold echo_holds, is_u32, is_u64 in H. bool_hyps. destruct e as [f a b].
  cbn [ie_frame_id ie_last_applied_input_seq ie_injection_timestamp_us] in *.
  unfold InputEcho_encode, InputEcho_decode. cbn [ie_frame_id ie_last_applied_input_seq ie_injection_timestamp_us].
  set (m := INPUT_ECHO_MAGIC). rewrite !zlen_app, !zlen_to_le.
  assert (∀ n v, length (to_le n v) = n) as Hn by apply length_to_le.
  rewrite (slice_app 6 10 m) by (done || apply Hn).
  rewrite (app_assoc m), (slice_app 10 18 (m ++ _)) by (rewrite ?length_app, ?Hn; done).
  rewrite (app_assoc (m ++ _)), (slice_last 18 26 (_ ++ _)) by (rewrite ?length_app, ?Hn; done).
  rewrite !from_to_le_id by (unfold u32_max, u64_max in *; lia). rewrite <- !app_assoc, slice_first by done.
  by rewrite bool_decide_true by done.
Qed.
