(* ===== verification/RdFec.v ===== *)
(** * RdFec (crates/ferryx-rd/ferryx-rd-proto/src/fec.rs)

    Loss recovery of video frames: building the interleaved XOR parities of a frame
    and recovering the missing chunk of a stripe.  The theorems give what
    [recover_chunk] returns for every pattern of losses. *)

From S2P Require Import Prelude Wire RdCodec RdMedia.
From Stdlib Require Import ZArith Lia Strings.Byte.
From stdpp Require Import base option list_numbers list.

#[local] Open Scope Z_scope.

(** ** Building and recovering *)

(** [Iterator::step_by(n + 1)] once [k] more items are to be skipped. *)
Fixpoint step_from {A} (k n : nat) (l : list A) : list A :=
  match l with
  | [] => []
  | x :: l' => match k with O => x :: step_from n n l' | S k' => step_from k' n l' end
  end.
Definition step_by {A} (stride : Z) (l : list A) : list A := step_from 0 (Z.to_nat (stride - 1)) l.

Definition xor_byte (a b : byte) : byte := zb (Z.lxor (bz a) (bz b)).
Fixpoint xor_into (target source : list byte) : list byte :=
  match target, source with
  | t :: ts, s :: ss => xor_byte t s :: xor_into ts ss
  | ts, _ => ts
  end.

(** [chunk.len() as u16] *)
Definition len16 (chunk : list byte) : Z := zlen chunk mod 2 ^ 16.

Definition covered (p : FrameParity) (total_chunks : Z) : list Z :=
  step_by (Z.max (fp_parity_count p) 1) (seqZ (fp_parity_index p) (total_chunks - fp_parity_index p)).

Definition build_one (frame_id : Z) (chunks : list (list byte)) (parity_count parity_index : Z) : FrameParity :=
  let covered := step_by (Z.max parity_count 1) (drop (Z.to_nat parity_index) chunks) in
  let longest := foldr Z.max 0 (zlen <$> covered) in
  mk_FrameParity frame_id parity_index parity_count
    (foldl (λ len chunk, Z.lxor len (len16 chunk)) 0 covered)
    (foldl xor_into (replicate (Z.to_nat longest) x00) covered).
Definition build_parity (frame_id : Z) (chunks : list (list byte)) (parity_count : Z) : list FrameParity :=
  build_one frame_id chunks parity_count <$> seqZ 0 parity_count.

(** The loop of [recover_chunk]. *)
Fixpoint recover_loop (present : Z → option (list byte)) (indices : list Z) (missing : option Z) (data : list byte)
    (length : Z) : option (option Z * list byte * Z) :=
  match indices with
  | [] => Some (missing, data, length)
  | index :: rest =>
      match present index with
      | Some chunk =>
          if zlen data <? zlen chunk then None
          else recover_loop present rest missing (xor_into data chunk) (Z.lxor length (len16 chunk))
      | None => match missing with Some _ => None | None => recover_loop present rest (Some index) data length end
      end
  end.
Definition recover_chunk (parity : FrameParity) (total_chunks : Z) (present : Z → option (list byte))
    : option (Z * list byte) :=
  '(missing, data, length) ← recover_loop present (covered parity total_chunks) None (fp_data parity) (fp_length_xor parity);
  index ← missing;
  if (length =? 0) || (zlen data <? length) || existsb (λ b, negb (bool_decide (b = x00))) (drop (Z.to_nat length) data)
  then None else Some (index, take (Z.to_nat length) data).

(** ** Lemmas: XOR of chunks *)

Lemma lxor_byte_range a b : 0 <= Z.lxor (bz a) (bz b) < 256.
Proof.
  pose proof (bz_range a). pose proof (bz_range b).
  assert (0 <= Z.lxor (bz a) (bz b)) by (apply Z.lxor_nonneg; lia). split; [done|].
  destruct (Z.eq_dec (Z.lxor (bz a) (bz b)) 0) as [->|]; [lia|].
  apply Z.log2_lt_cancel. change (Z.log2 256) with 8.
  pose proof (Z.log2_lxor (bz a) (bz b) ltac:(lia) ltac:(lia)).
  assert (∀ c, Z.log2 (bz c) <= 7) as Hl by (intros c; pose proof (bz_range c); change 7 with (Z.log2 255); apply Z.log2_le_mono; lia).
  pose proof (Hl a). pose proof (Hl b). lia.
Qed.

Lemma bz_xor a b : bz (xor_byte a b) = Z.lxor (bz a) (bz b).
Proof. unfold xor_byte. rewrite bz_zb. apply Z.mod_small, lxor_byte_range. Qed.
Lemma xor_byte_comm3 a b c : xor_byte (xor_byte a b) c = xor_byte (xor_byte a c) b.
Proof. apply bz_inj. rewrite !bz_xor, !Z.lxor_assoc. by rewrite (Z.lxor_comm (bz b)). Qed.
Lemma xor_byte_cancel a b : xor_byte (xor_byte a b) b = a.
Proof. apply bz_inj. rewrite !bz_xor, Z.lxor_assoc, Z.lxor_nilpotent. apply Z.lxor_0_r. Qed.
Lemma xor_byte_0 a : xor_byte x00 a = a.
Proof. apply bz_inj. rewrite bz_xor. change (bz x00) with 0. apply Z.lxor_0_l. Qed.

Lemma length_xor_into d a : length (xor_into d a) = length d.
Proof. revert a. induction d as [|x d IH]; intros [|y a]; cbn; auto. Qed.
Lemma zlen_xor_into d a : zlen (xor_into d a) = zlen d.
Proof. unfold zlen. by rewrite length_xor_into. Qed.
Lemma xor_into_comm d a b : xor_into (xor_into d a) b = xor_into (xor_into d b) a.
Proof.
  revert a b. induction d as [|x d IH]; intros [|y a] [|z b]; cbn; try done. by rewrite IH, xor_byte_comm3.
Qed.
Lemma xor_into_cancel d a : xor_into (xor_into d a) a = d.
Proof. revert a. induction d as [|x d IH]; intros [|y a]; cbn; try done. by rewrite IH, xor_byte_cancel. Qed.
Lemma xor_into_zeros n a : (length a <= n)%nat → xor_into (replicate n x00) a = a ++ replicate (n - length a) x00.
Proof.
  revert n. induction a as [|y a IH]; intros n Hn; [by destruct n|]. destruct n as [|n]; [cbn in Hn; lia|].
  cbn. rewrite IH by (cbn in Hn; lia). by rewrite xor_byte_0.
Qed.

(** Folding is insensitive to order, and folding twice cancels. *)
Section folds.
Context {A B : Type} (f : A → B → A) (f_comm : ∀ d a b, f (f d a) b = f (f d b) a) (f_cancel : ∀ d a, f (f d a) a = d).

Lemma foldl_out l d a : foldl f (f d a) l = f (foldl f d l) a.
Proof. revert d. induction l as [|b l IH]; intros d; cbn; [done|]. by rewrite f_comm, IH. Qed.
Lemma foldl_twice l d : foldl f (foldl f d l) l = d.
Proof. revert d. induction l as [|a l IH]; intros d; cbn; [done|]. by rewrite <- foldl_out, f_cancel, IH. Qed.
(** All, then all but one: the one is left. *)
Lemma foldl_all_but l1 x l2 d : foldl f (foldl f d (l1 ++ x :: l2)) (l1 ++ l2) = f d x.
Proof.
  assert (foldl f d (l1 ++ x :: l2) = f (foldl f d (l1 ++ l2)) x) as ->
    by (rewrite !foldl_app; cbn; by rewrite foldl_out).
  by rewrite foldl_out, foldl_twice.
Qed.
End folds.

(** ** Lemmas: stripes *)

Lemma step_from_fmap {A B} (f : A → B) k n l : step_from k n (f <$> l) = f <$> step_from k n l.
Proof. revert k. induction l as [|x l IH]; intros k; [done|]. destruct k; cbn; by rewrite IH. Qed.

(** The positions a stripe visits. *)
Lemma step_from_seqZ k n (i m : Z) :
  ∀ x, x ∈ step_from k n (seqZ i m) ↔ i <= x < i + m ∧ ∃ t, 0 <= t ∧ x = i + Z.of_nat k + t * (Z.of_nat n + 1).
Proof.
  assert (∀ len k i x, x ∈ step_from k n (seqZ i (Z.of_nat len)) ↔
    i <= x < i + Z.of_nat len ∧ ∃ t, 0 <= t ∧ x = i + Z.of_nat k + t * (Z.of_nat n + 1)) as Hg.
  { clear. induction len as [|len IH]; intros k i x.
    - rewrite seqZ_nil by lia. cbn. rewrite elem_of_nil. split; [done|lia].
    - rewrite seqZ_cons by lia. rewrite Nat2Z.inj_succ, Z.pred_succ. destruct k as [|k]; cbn [step_from].
      + rewrite elem_of_cons, IH. split.
        * intros [->|[Hr (t & Ht & ->)]]; [split; [lia|exists 0; lia]|]. split; [lia|]. exists (t + 1). lia.
        * intros [Hr (t & Ht & ->)]. destruct (Z.eq_dec t 0) as [->|]; [left; lia|right]. split; [nia|]. exists (t - 1). nia.
      + rewrite IH. split; intros [Hr (t & Ht & ->)]; (split; [nia|exists t; nia]). }
  intros x. destruct (Z.le_gt_cases 0 m).
  - specialize (Hg (Z.to_nat m) k i x). by rewrite Z2Nat.id in Hg by done.
  - rewrite seqZ_nil by lia. cbn. rewrite elem_of_nil. split; [done|lia].
Qed.

Lemma step_from_sublist {A} k n (l : list A) : step_from k n l `sublist_of` l.
Proof. revert k. induction l as [|x l IH]; intros k; [done|]. destruct k; cbn; [by apply sublist_skip|by apply sublist_cons]. Qed.

Lemma covered_spec p total i :
  0 <= fp_parity_index p → 1 <= fp_parity_count p → fp_parity_index p < fp_parity_count p →
  i ∈ covered p total ↔ 0 <= i < total ∧ i mod fp_parity_count p = fp_parity_index p.
Proof.
  intros H0 H1 H2. unfold covered, step_by. rewrite step_from_seqZ, Z.max_l by done. rewrite Z2Nat.id by lia.
  set (P := fp_parity_count p) in *. set (q := fp_parity_index p) in *. split.
  - intros [Hr (t & Ht & ->)]. split; [lia|]. replace (q + Z.of_nat 0 + t * (P - 1 + 1)) with (q + t * P) by lia.
    rewrite Z.mod_add by lia. by apply Z.mod_small.
  - intros [Hr Hm]. pose proof (Z.div_mod i P ltac:(lia)). pose proof (Z.div_pos i P ltac:(lia) ltac:(lia)).
    split; [nia|]. exists (i / P). split; [done|]. lia.
Qed.
Lemma covered_NoDup p total : NoDup (covered p total).
Proof. unfold covered, step_by. eapply sublist_NoDup; [apply NoDup_seqZ|apply step_from_sublist]. Qed.

(** ** Lemmas: the parity of a stripe *)

Definition chunk_at (chunks : list (list byte)) (i : Z) : list byte := chunks !!! Z.to_nat i.

Lemma chunks_by_index chunks q : 0 <= q → drop (Z.to_nat q) chunks = chunk_at chunks <$> seqZ q (zlen chunks - q).
Proof.
  intros Hq. apply list_eq. intros k. rewrite lookup_drop, list_lookup_fmap.
  destruct (decide (Z.to_nat q + k < length chunks)%nat) as [Hk|Hk].
  - rewrite lookup_seqZ_lt by (unfold zlen; lia). cbn. unfold chunk_at.
    replace (Z.to_nat (q + Z.of_nat k)) with (Z.to_nat q + k)%nat by lia.
    destruct (lookup_lt_is_Some_2 chunks _ Hk) as [c Hc]. by rewrite Hc, (list_lookup_total_correct _ _ _ Hc).
  - rewrite lookup_ge_None_2 by lia. by rewrite lookup_seqZ_ge by (unfold zlen; lia).
Qed.

(** The parity folds the chunks at the indices it covers. *)
Lemma build_one_fields frame_id chunks P q :
  0 <= q → let p := build_one frame_id chunks P q in let cs := chunk_at chunks <$> covered p (zlen chunks) in
  fp_length_xor p = foldl (λ len chunk, Z.lxor len (len16 chunk)) 0 cs ∧
  ∃ n, fp_data p = foldl xor_into (replicate n x00) cs ∧ Forall (λ c, (length c <= n)%nat) cs.
Proof.
  intros Hq p cs. assert (step_by (Z.max P 1) (drop (Z.to_nat q) chunks) = cs) as E.
  { unfold cs, covered, p, step_by. cbn [fp_parity_count fp_parity_index build_one].
    rewrite chunks_by_index by done. apply step_from_fmap. }
  unfold p, build_one. cbn [fp_length_xor fp_data]. rewrite E. split; [done|]. eexists. split; [done|]. clear.
  apply Forall_forall. intros c Hc. assert (zlen c <= foldr Z.max 0 (zlen <$> cs)).
  { induction cs as [|x cs IH]; [by apply not_elem_of_nil in Hc|]. cbn. apply elem_of_cons in Hc as [->|Hc]; [lia|].
    specialize (IH Hc). lia. }
  unfold zlen in *. lia.
Qed.

Lemma lxor_comm3 {A} (f : A → Z) d a b : Z.lxor (Z.lxor d (f a)) (f b) = Z.lxor (Z.lxor d (f b)) (f a).
Proof. rewrite !Z.lxor_assoc. by rewrite (Z.lxor_comm (f a)). Qed.
Lemma lxor_cancel {A} (f : A → Z) d a : Z.lxor (Z.lxor d (f a)) (f a) = d.
Proof. by rewrite Z.lxor_assoc, Z.lxor_nilpotent, Z.lxor_0_r. Qed.

(** ** Lemmas: the loop of recovery *)

Section recovery.
Context (present : Z → option (list byte)) (chunks : list (list byte)).

Definition lost (indices : list Z) : list Z := filter (λ j, present j = None) indices.
Definition kept (indices : list Z) : list Z := filter (λ j, present j ≠ None) indices.
(** What is present is what was sent. *)
Definition authentic (indices : list Z) : Prop := ∀ j c, j ∈ indices → present j = Some c → c = chunk_at chunks j.

Lemma recover_loop_spec indices missing data len :
  authentic indices → (∀ j, j ∈ indices → zlen (chunk_at chunks j) <= zlen data) →
  recover_loop present indices missing data len =
  let data' := foldl xor_into data (chunk_at chunks <$> kept indices) in
  let len' := foldl (λ len chunk, Z.lxor len (len16 chunk)) len (chunk_at chunks <$> kept indices) in
  match missing, lost indices with
  | m, [] => Some (m, data', len')
  | None, [i] => Some (Some i, data', len')
  | _, _ => None
  end.
Proof.
  revert missing data len. induction indices as [|j indices IH]; intros missing data len Ha Hz; [by destruct missing|].
  assert (authentic indices) as Ha' by (intros k c Hk; apply Ha; by right).
  assert (∀ k, k ∈ indices → zlen (chunk_at chunks k) <= zlen data) as Hz' by (intros k Hk; apply Hz; by right).
  cbn [recover_loop]. unfold lost, kept. rewrite !filter_cons. destruct (present j) as [c|] eqn:Ej.
  - rewrite decide_False, decide_True by done. assert (c = chunk_at chunks j) as -> by (apply Ha; [by left|done]).
    specialize (Hz j ltac:(by left)). destruct (Z.ltb_spec (zlen data) (zlen (chunk_at chunks j))); [lia|].
    rewrite IH; [done|done|]. intros k Hk. rewrite zlen_xor_into. by apply Hz'.
  - rewrite decide_True, decide_False by (done || tauto). destruct missing as [m|]; [done|]. rewrite IH by done.
    cbv zeta. unfold lost. by destruct (filter _ indices).
Qed.

(** One loss splits the indices around it. *)
Lemma lost_one_split indices i :
  NoDup indices → lost indices = [i] → ∃ l1 l2, indices = l1 ++ i :: l2 ∧ kept indices = l1 ++ l2.
Proof.
  intros Hnd Hl. assert (i ∈ lost indices) as Hi by (rewrite Hl; by left).
  apply list_elem_of_filter in Hi as [Hp Hi]. apply list_elem_of_split in Hi as (l1 & l2 & ->). exists l1, l2. split; [done|].
  assert (∀ l, (∀ k, k ∈ l → present k ≠ None) → kept l = l) as Hk.
  { intros l. induction l as [|k l IH]; intros Hl'; [done|]. unfold kept. rewrite filter_cons, decide_True by (apply Hl'; by left).
    f_equal. apply IH. intros. apply Hl'. by right. }
  unfold lost in Hl. rewrite filter_app, filter_cons, decide_True in Hl by done.
  assert (filter (λ j, present j = None) l1 = [] ∧ filter (λ j, present j = None) l2 = []) as [H1 H2].
  { destruct (filter _ l1) as [|a l]; cbn in Hl; [by simplify_eq|]. injection Hl as -> Hl. by destruct l. }
  assert (∀ l, filter (λ j, present j = None) l = [] → ∀ k, k ∈ l → present k ≠ None) as Hf.
  { intros l E k Hk' Hn. assert (k ∈ filter (λ j, present j = None) l) as Hin by (by apply list_elem_of_filter).
    rewrite E in Hin. by apply not_elem_of_nil in Hin. }
  unfold kept. rewrite filter_app, filter_cons, decide_False by tauto.
  fold (kept l1) (kept l2). by rewrite (Hk l1), (Hk l2) by (apply Hf; done).
Qed.

Lemma drop_zeros c n : existsb (λ b, negb (bool_decide (b = x00))) (drop (length c) (c ++ replicate n x00)) = false.
Proof. rewrite drop_app_length. induction n as [|n IH]; [done|]. cbn. by rewrite IH. Qed.

Lemma recover_chunk_exact frame_id P q :
  1 <= P → 0 <= q < P → Forall (λ c, 1 <= zlen c <= u16_max) chunks →
  let p := build_one frame_id chunks P q in
  authentic (covered p (zlen chunks)) →
  recover_chunk p (zlen chunks) present =
  match lost (covered p (zlen chunks)) with [i] => Some (i, chunk_at chunks i) | _ => None end.
Proof.
  intros HP Hq Hc p Ha. destruct (build_one_fields frame_id chunks P q ltac:(lia)) as (El & n & Ed & Hn). fold p in El, Ed, Hn.
  set (idx := covered p (zlen chunks)) in *.
  assert (∀ j, j ∈ idx → (length (chunk_at chunks j) <= n)%nat ∧ 1 <= zlen (chunk_at chunks j) <= u16_max) as Hj.
  { intros j Hj. split.
    - rewrite Forall_forall in Hn. apply Hn, list_elem_of_fmap. eauto.
    - apply covered_spec in Hj as [Hr _]; cbn [p build_one fp_parity_index fp_parity_count]; [|lia..].
      rewrite Forall_forall in Hc. apply Hc. unfold chunk_at, zlen in *.
      destruct (lookup_lt_is_Some_2 chunks (Z.to_nat j) ltac:(lia)) as [c Hcj].
      rewrite (list_lookup_total_correct _ _ _ Hcj). by apply list_elem_of_lookup_2 in Hcj. }
  assert (zlen (fp_data p) = Z.of_nat n) as Hlen.
  { rewrite Ed. assert (∀ l d, zlen (foldl xor_into d l) = zlen d) as Hf.
    { intros l. induction l as [|c l IH]; intros d; cbn; [done|]. by rewrite IH, zlen_xor_into. }
    rewrite Hf. unfold zlen. by rewrite length_replicate. }
  unfold recover_chunk. rewrite recover_loop_spec; [|done|intros j Hjj; rewrite Hlen; unfold zlen; apply inj_le, Hj, Hjj].
  fold idx. cbv zeta. destruct (lost idx) as [|i [|]] eqn:Elost; [done| |done].
  destruct (lost_one_split idx i (covered_NoDup _ _) Elost) as (l1 & l2 & Ei & Ek).
  assert (i ∈ idx) as Hi by (rewrite Ei; apply elem_of_app; right; by left). destruct (Hj i Hi) as [Hin Hir].
  rewrite Ek, El, Ed, Ei, !fmap_app, fmap_cons.
  rewrite (foldl_all_but xor_into xor_into_comm xor_into_cancel).
  rewrite (foldl_all_but _ (lxor_comm3 len16) (lxor_cancel len16)), Z.lxor_0_l.
  rewrite xor_into_zeros by done. unfold len16. rewrite Z.mod_small by (unfold u16_max in *; lia).
  cbn [mbind option_bind]. set (c := chunk_at chunks i) in *.
  replace (zlen c =? 0) with false by lia. rewrite zlen_app. pose proof (zlen_nonneg (replicate (n - length c) x00)).
  replace (zlen c + zlen (replicate (n - length c) x00) <? zlen c) with false by lia.
  unfold zlen at 1 2. rewrite !Nat2Z.id, drop_zeros, take_app_length. done.
Qed.
End recovery.

(** ** What a receiver recovers *)

Lemma build_parity_lookup frame_id chunks P k p :
  build_parity frame_id chunks P !! k = Some p → Z.of_nat k < P ∧ p = build_one frame_id chunks P (Z.of_nat k).
Proof.
  unfold build_parity. rewrite list_lookup_fmap. intros (i & Hi & ->)%fmap_Some. apply lookup_seqZ in Hi as [-> Hk].
  split; [lia|done].
Qed.

Lemma only_one (i : Z) l : NoDup l → i ∈ l → (∀ j, j ∈ l → j = i) → l = [i].
Proof.
  intros Hnd Hi Ho. destruct l as [|a [|b l]]; [by apply not_elem_of_nil in Hi|by rewrite (Ho a) by (by left)|].
  rewrite (Ho a), (Ho b) in Hnd by (rewrite ?elem_of_cons; auto). apply NoDup_cons in Hnd as [Hn _]. destruct Hn. by left.
Qed.

Lemma chunk_at_lookup chunks i c : chunks !! Z.to_nat i = Some c → chunk_at chunks i = c.
Proof. apply list_lookup_total_correct. Qed.

(** C36: What recovery returns for every pattern of losses.  Given one parity of a frame
    and any authentic part of its chunks, [recover_chunk] rebuilds the missing chunk of
    the parity's stripe, with its index and its exact bytes, if exactly one is missing,
    and returns nothing if none or several are. *)
Theorem fec_recovers_exactly (frame_id : Z) (chunks : list (list byte)) (P : Z) (k : nat) (p : FrameParity)
    (present : Z → option (list byte)) :
  build_parity frame_id chunks P !! k = Some p →
  Forall (λ c, 1 <= zlen c <= u16_max) chunks →
  (∀ j c, present j = Some c → chunks !! Z.to_nat j = Some c) →
  recover_chunk p (zlen chunks) present =
  match filter (λ j, present j = None) (covered p (zlen chunks)) with
  | [i] => pair i <$> chunks !! Z.to_nat i
  | _ => None
  end.
Proof.
  intros [Hk ->]%build_parity_lookup Hc Ha. rewrite (recover_chunk_exact present chunks) by
    (first [lia | done | intros j c _ Hj; symmetry; by apply chunk_at_lookup, Ha]).
  unfold lost. destruct (filter _ _) as [|i [|]] eqn:E; [done| |done].
  assert (i ∈ filter (λ j, present j = None) (covered (build_one frame_id chunks P (Z.of_nat k)) (zlen chunks))) as Hi
    by (rewrite E; by left).
  apply list_elem_of_filter in Hi as [_ Hi]. apply covered_spec in Hi as [Hr _]; cbn; [|lia..].
  destruct (lookup_lt_is_Some_2 chunks (Z.to_nat i) ltac:(unfold zlen in *; lia)) as [c Hci].
  by rewrite Hci, (chunk_at_lookup _ _ _ Hci).
Qed.

Lemma same_residue a P i j : 1 <= P → a <= i < a + P → a <= j < a + P → i mod P = j mod P → i = j.
Proof.
  intros HP Hi Hj E. pose proof (Z.div_mod i P ltac:(lia)). pose proof (Z.div_mod j P ltac:(lia)).
  assert (i / P = j / P); nia.
Qed.

(** A burst of losses is repaired.  If a frame is sent with [P] parities and up to
    [P] consecutive chunks are lost, every lost chunk is recovered, by the parity of its
    stripe, from the chunks that arrived. *)
Theorem fec_burst_repaired (frame_id : Z) (chunks : list (list byte)) (P a : Z) (present : Z → option (list byte))
    (i : Z) (c : list byte) :
  1 <= P →
  Forall (λ c, 1 <= zlen c <= u16_max) chunks →
  (∀ j, 0 <= j < zlen chunks → present j = if in_range a (a + P - 1) j then None else chunks !! Z.to_nat j) →
  a <= i < a + P → 0 <= i → chunks !! Z.to_nat i = Some c →
  ∃ p, build_parity frame_id chunks P !! Z.to_nat (i mod P) = Some p ∧ recover_chunk p (zlen chunks) present = Some (i, c).
Proof.
  intros HP Hc Hp Hi H0 Hci. pose proof (Z.mod_pos_bound i P ltac:(lia)) as Hm.
  assert (i < zlen chunks) as Hil by (apply lookup_lt_Some in Hci; unfold zlen; lia).
  exists (build_one frame_id chunks P (i mod P)). split.
  { unfold build_parity. rewrite list_lookup_fmap, lookup_seqZ_lt by lia. cbn. by rewrite Z2Nat.id by lia. }
  rewrite (recover_chunk_exact present chunks) by first [lia|done|
    intros j x [Hj _]%covered_spec Hx; cbn in *; try lia; rewrite Hp in Hx by done;
    destruct (in_range _ _ j); [done|]; symmetry; by apply chunk_at_lookup].
  rewrite (only_one i (lost _ _)); [by rewrite (chunk_at_lookup _ _ _ Hci)|apply NoDup_filter, covered_NoDup| |].
  - apply list_elem_of_filter. split.
    + rewrite Hp by lia. by rewrite (proj2 (in_range_iff _ _ _)) by lia.
    + apply covered_spec; cbn; lia.
  - intros j [Hj Hjc]%list_elem_of_filter. apply covered_spec in Hjc as [Hr Hmod]; cbn in *; [|lia..]. rewrite Hp in Hj by done.
    destruct (in_range a (a + P - 1) j) eqn:Er; [apply in_range_iff in Er; by apply (same_residue a P); [lia..|]|].
    destruct (lookup_lt_is_Some_2 chunks (Z.to_nat j) ltac:(unfold zlen in *; lia)) as [x Hx]. congruence.
Qed.

(** ** Witness: four chunks, two parities, the middle two lost *)

Definition demo_chunks : list (list byte) := [[x01; x02]; [x03]; [x04; x05; x06]; [x07; x08]].
Definition demo_present (j : Z) : option (list byte) :=
  if in_range 1 2 j then None else if j <? 0 then None else demo_chunks !! Z.to_nat j.

Lemma fec_recovers_exactly_witness :
  ∃ p, build_parity 9 demo_chunks 2 !! 0%nat = Some p ∧ recover_chunk p 4 demo_present = Some (2, [x04; x05; x06]).
Proof.
  eexists. split; [reflexivity|].
  refine (eq_trans (fec_recovers_exactly 9 demo_chunks 2 0 _ demo_present eq_refl _ _) eq_refl).
  - repeat constructor; by vm_compute.
  - intros j c. unfold demo_present. destruct (in_range 1 2 j); [done|]. destruct (j <? 0); [done|]. tauto.
Defined.

Lemma fec_burst_repaired_witness :
  ∃ p, build_parity 9 demo_chunks 2 !! Z.to_nat (1 mod 2) = Some p ∧ recover_chunk p (zlen demo_chunks) demo_present = Some (1, [x03]).
Proof.
  apply (fec_burst_repaired 9 demo_chunks 2 1 demo_present 1 [x03]); try lia; try reflexivity.
  - repeat constructor; by vm_compute.
  - intros j Hj. unfold demo_present. change (1 + 2 - 1) with 2. destruct (in_range 1 2 j); [done|].
    destruct (Z.ltb_spec j 0); [lia|done].
Defined.
