(* ===== verification/RdFraming.v ===== *)
(** * RdFraming (crates/ferryx-rd/ferryx-rd-proto/src/framing.rs)

    The length-prefixed frames of the TCP stream: the writer and the incremental
    reader.  The reader's loop runs once per complete frame; every round consumes at
    least five bytes, so one round per buffered byte is enough ([push_loop_fuel]). *)

From S2P Require Import Prelude Wire RdCodec.
From Stdlib Require Import ZArith Lia Strings.Byte.
From stdpp Require Import base option strings list.

#[local] Open Scope Z_scope.

Definition MAX_TCP_FRAME_SIZE : Z := 16 * 1024 * 1024.

(** [TcpFrameWriter::encode] *)
Definition writer_encode (payload : list byte) : Res (list byte) :=
  if (zlen payload =? 0) || (MAX_TCP_FRAME_SIZE <? zlen payload)
  then Err (InvalidFrameLength (if zlen payload <=? u32_max then zlen payload else u32_max)) else
  length ← usize_to_u32 (zlen payload) "TCP frame";
  Ok (push_u32 length ++ payload).

Inductive TcpFrameEvent : Type :=
| EvFrame (payload : list byte)
| EvDroppedInvalidLength (length : Z).

(** [TcpFrameReader] is its buffer; [push_loop] returns the events of the loop of
    [push] and the buffer it leaves. *)
Fixpoint push_loop (fuel : nat) (buffer : list byte) : list TcpFrameEvent * list byte :=
  match fuel with
  | O => ([], buffer)
  | S fuel' =>
      if zlen buffer <? 4 then ([], buffer) else
      let length := from_le (take 4 buffer) in
      if (length =? 0) || (MAX_TCP_FRAME_SIZE <? length) then ([EvDroppedInvalidLength length], []) else
      let frame_end := 4 + length in
      if zlen buffer <? frame_end then ([], buffer) else
      let payload := take (Z.to_nat length) (drop 4 buffer) in
      let '(events, rest) := push_loop fuel' (drop (Z.to_nat frame_end) buffer) in
      (EvFrame payload :: events, rest)
  end.
Definition push (buffer input : list byte) : list TcpFrameEvent * list byte :=
  push_loop (length (buffer ++ input)) (buffer ++ input).

(** A reader fed with successive reads. *)
Fixpoint pushes (buffer : list byte) (reads : list (list byte)) : list TcpFrameEvent * list byte :=
  match reads with
  | [] => ([], buffer)
  | input :: reads' =>
      let '(ev1, b1) := push buffer input in let '(ev2, b2) := pushes b1 reads' in (ev1 ++ ev2, b2)
  end.

(** ** Lemmas: rounds of the loop *)

(** What the reader finds at the front of its buffer. *)
Inductive Front : Type := Incomplete | Bad (length : Z) | Complete (payload rest : list byte).
Definition front (b : list byte) : Front :=
  if zlen b <? 4 then Incomplete else
  let length := from_le (take 4 b) in
  if (length =? 0) || (MAX_TCP_FRAME_SIZE <? length) then Bad length else
  if zlen b <? 4 + length then Incomplete
  else Complete (take (Z.to_nat length) (drop 4 b)) (drop (Z.to_nat (4 + length)) b).

Lemma push_loop_S fuel b :
  push_loop (S fuel) b =
  match front b with
  | Incomplete => ([], b)
  | Bad length => ([EvDroppedInvalidLength length], [])
  | Complete payload rest => let '(events, b') := push_loop fuel rest in (EvFrame payload :: events, b')
  end.
Proof.
  cbn [push_loop]. unfold front. destruct (_ <? 4); [done|]. cbv zeta. destruct (_ || _); [done|]. by destruct (_ <? _).
Qed.

Lemma front_complete b payload rest : front b = Complete payload rest →
  (length rest < length b)%nat ∧ 1 <= zlen payload <= MAX_TCP_FRAME_SIZE ∧ b = push_u32 (zlen payload) ++ payload ++ rest.
Proof.
  unfold front. destruct (Z.ltb_spec (zlen b) 4) as [|H4]; [done|]. cbv zeta.
  set (n := from_le (take 4 b)). destruct (_ || _) eqn:Hn; [done|]. bool_hyps.
  destruct (Z.ltb_spec (zlen b) (4 + n)) as [|Hl]; [done|]. intros [= <- <-].
  assert (0 <= n) by (pose proof (from_le_range (take 4 b)); lia). unfold zlen in *.
  assert (length (take (Z.to_nat n) (drop 4 b)) = Z.to_nat n) as Hlen by (rewrite length_take, length_drop; lia).
  rewrite length_drop, Hlen, Z2Nat.id by done. split; [lia|]. split; [lia|].
  assert (push_u32 n = take 4 b) as ->
    by (apply push_u32_from_le; rewrite length_take; lia).
  replace (Z.to_nat (4 + n)) with (4 + Z.to_nat n)%nat by lia. rewrite <- drop_drop, take_drop. by rewrite take_drop.
Qed.

Lemma front_written payload rest :
  1 <= zlen payload <= MAX_TCP_FRAME_SIZE → front (push_u32 (zlen payload) ++ payload ++ rest) = Complete payload rest.
Proof.
  intros Hp. unfold front, MAX_TCP_FRAME_SIZE in *. pose proof (zlen_nonneg rest). set (h := push_u32 (zlen payload)).
  assert (zlen h = 4) as Hz by apply zlen_push_u32.
  assert (length h = 4%nat) as Hh by (unfold zlen in Hz; lia). rewrite !zlen_app, Hz.
  replace (4 + (zlen payload + zlen rest) <? 4) with false by lia.
  rewrite <- Hh, take_app_length, drop_app_length. assert (from_le h = zlen payload) as ->
    by (apply from_le_push_u32, in_range_iff; unfold u32_max; lia).
  cbv zeta. replace ((zlen payload =? 0) || _) with false by lia.
  replace (4 + (zlen payload + zlen rest) <? 4 + zlen payload) with false by lia.
  rewrite take_app_zlen. f_equal. rewrite app_assoc. rewrite <- (drop_app_zlen (h ++ payload) rest) at 2. by rewrite zlen_app, Hz.
Qed.

Lemma push_loop_fuel fuel1 fuel2 b :
  (length b <= fuel1)%nat → (length b <= fuel2)%nat → push_loop fuel1 b = push_loop fuel2 b.
Proof.
  revert fuel2 b. induction fuel1 as [|fuel1 IH]; intros fuel2 b H1 H2.
  { destruct b; [|cbn in H1; lia]. by destruct fuel2. }
  destruct fuel2 as [|fuel2]; [destruct b; [done|cbn in H2; lia]|].
  rewrite !push_loop_S. destruct (front b) as [|n|payload rest] eqn:E; [done..|].
  apply front_complete in E as (Hl & _). by rewrite (IH fuel2 rest) by lia.
Qed.

(** ** Lemmas: parsing a stream *)

Definition parse (b : list byte) : list TcpFrameEvent * list byte := push_loop (length b) b.
#[local] Arguments parse b : simpl never.
Definition is_frame (e : TcpFrameEvent) : bool := match e with EvFrame _ => true | _ => false end.
(** No invalid length was met. *)
Definition clean (r : list TcpFrameEvent * list byte) : Prop := forallb is_frame r.1 = true.
Definition combine (ev1 : list TcpFrameEvent) (r : list TcpFrameEvent * list byte) : list TcpFrameEvent * list byte :=
  (ev1 ++ r.1, r.2).

Lemma combine_nil r : combine [] r = r.
Proof. by destruct r. Qed.

Lemma parse_eq b :
  parse b = match front b with
            | Incomplete => ([], b)
            | Bad n => ([EvDroppedInvalidLength n], [])
            | Complete payload rest => combine [EvFrame payload] (parse rest)
            end.
Proof.
  unfold parse. destruct b as [|x b]; [done|]. cbn [length]. rewrite push_loop_S.
  destruct (front (x :: b)) as [|n|payload rest] eqn:E; [done..|]. apply front_complete in E as (Hl & _).
  rewrite (push_loop_fuel _ (length rest)) by (cbn in Hl; lia). by destruct (push_loop _ rest).
Qed.

Lemma front_app b k payload rest : front b = Complete payload rest → front (b ++ k) = Complete payload (rest ++ k).
Proof. intros (_ & Hp & ->)%front_complete. rewrite <- !app_assoc. by apply front_written. Qed.

Lemma front_bad b k n : front b = Bad n → front (b ++ k) = Bad n.
Proof.
  intros Hf. unfold front in Hf. destruct (Z.ltb_spec (zlen b) 4) as [|H4]; [done|]. cbv zeta in Hf.
  destruct ((_ =? 0) || _) eqn:E; [|by destruct (zlen b <? _)]. injection Hf as <-.
  unfold front. rewrite zlen_app. pose proof (zlen_nonneg k). replace (zlen b + zlen k <? 4) with false by lia.
  rewrite take_app_le by (unfold zlen in *; lia). cbv zeta. by rewrite E.
Qed.

Lemma parse_induction (P : list byte → Prop) :
  (∀ b, (∀ payload rest, front b = Complete payload rest → P rest) → P b) → ∀ b, P b.
Proof.
  intros Hstep b. remember (length b) as n eqn:Hn. revert b Hn. induction (lt_wf n) as [n _ IH]. intros b ->.
  apply Hstep. intros payload rest E. apply front_complete in E as (Hl & _). by apply (IH (length rest)).
Qed.

Lemma parse_app b k : clean (parse b) → parse (b ++ k) = combine (parse b).1 (parse ((parse b).2 ++ k)).
Proof.
  induction b as [b IH] using parse_induction. intros Hc. rewrite parse_eq in Hc |- *. rewrite (parse_eq b).
  destruct (front b) as [|n|payload rest] eqn:E; [|done|].
  - cbn [fst snd]. rewrite <- parse_eq. unfold combine. cbn. by destruct (parse (b ++ k)).
  - rewrite (front_app _ k _ _ E), (IH _ _ eq_refl) by (unfold clean in *; cbn in Hc; exact Hc). done.
Qed.

Lemma parse_clean_prefix b k : clean (parse (b ++ k)) → clean (parse b).
Proof.
  induction b as [b IH] using parse_induction. rewrite (parse_eq b), parse_eq.
  destruct (front b) as [|n|payload rest] eqn:E; [done|by rewrite (front_bad _ k _ E)|].
  rewrite (front_app _ k _ _ E). unfold clean in *. cbn. by apply (IH payload rest eq_refl).
Qed.

Lemma parse_rest b : front (parse b).2 = Incomplete.
Proof.
  induction b as [b IH] using parse_induction. rewrite parse_eq.
  destruct (front b) as [|n|payload rest] eqn:E; [done|done|]. cbn. by eapply IH.
Qed.

Lemma parse_incomplete b : front b = Incomplete → parse b = ([], b).
Proof. intros E. by rewrite parse_eq, E. Qed.

(** Reads of a clean stream add up to one read of it. *)
Lemma pushes_parse reads b :
  front b = Incomplete → clean (parse (b ++ concat reads)) → pushes b reads = parse (b ++ concat reads).
Proof.
  revert b. induction reads as [|input reads IH]; intros b Hb Hc; cbn [pushes concat] in *.
  { by rewrite app_nil_r, parse_incomplete. }
  rewrite app_assoc in Hc |- *. change (push b input) with (parse (b ++ input)).
  pose proof (parse_clean_prefix _ _ Hc) as Hc1. rewrite (parse_app _ _ Hc1) in Hc |- *.
  assert (clean (parse ((parse (b ++ input)).2 ++ concat reads))) as Hc2.
  { unfold clean in *. cbn in Hc. rewrite forallb_app in Hc. by apply andb_true_iff in Hc as [_ Hc]. }
  rewrite <- (IH _ (parse_rest _) Hc2). destruct (parse (b ++ input)) as [ev1 b1]. cbn.
  by destruct (pushes b1 reads).
Qed.

Lemma pushes_app b r1 r2 : pushes b (r1 ++ r2) = combine (pushes b r1).1 (pushes (pushes b r1).2 r2).
Proof.
  revert b. induction r1 as [|input r1 IH]; intros b; cbn [app pushes]; [unfold combine; cbn; by destruct (pushes b r2)|].
  destruct (push b input) as [ev1 b1]. rewrite IH. destruct (pushes b1 r1) as [ev2 b2]. cbn. unfold combine. by rewrite app_assoc.
Qed.

(** ** Framed streams *)

Definition framed (payload : list byte) : list byte := push_u32 (zlen payload) ++ payload.

Lemma writer_encode_framed payload b : writer_encode payload = Ok b ↔ 1 <= zlen payload <= MAX_TCP_FRAME_SIZE ∧ b = framed payload.
Proof.
  unfold writer_encode. pose proof (zlen_nonneg payload). destruct (_ || _) eqn:E.
  - split; [done|]. intros [Hr _]. lia.
  - bool_hyps. rewrite res_bind_ok. split.
    + intros (n & [-> _]%usize_to_ok & [= <-]). split; [lia|done].
    + intros [Hr ->]. exists (zlen payload). split; [|done]. apply usize_to_ok. split; [done|].
      unfold MAX_TCP_FRAME_SIZE, u32_max in *. lia.
Qed.

Lemma parse_framed ps k :
  Forall (λ p, 1 <= zlen p <= MAX_TCP_FRAME_SIZE) ps → parse (concat (framed <$> ps) ++ k) = combine (EvFrame <$> ps) (parse k).
Proof.
  induction 1 as [|p ps Hp _ IH]; [symmetry; apply combine_nil|]. rewrite fmap_cons. cbn [concat]. unfold framed at 1.
  rewrite <- !app_assoc, parse_eq, front_written by done. by rewrite IH.
Qed.

Lemma frames_clean ps : forallb is_frame (EvFrame <$> ps) = true.
Proof. by induction ps. Qed.
Lemma clean_combine ps r : clean r → clean (combine (EvFrame <$> ps) r).
Proof. unfold clean. cbn. intros Hr. by rewrite forallb_app, Hr, frames_clean. Qed.

Lemma written_frames ps frames :
  Forall2 (λ p b, writer_encode p = Ok b) ps frames →
  frames = framed <$> ps ∧ Forall (λ p, 1 <= zlen p <= MAX_TCP_FRAME_SIZE) ps.
Proof.
  induction 1 as [|p b ps bs [Hp ->]%writer_encode_framed _ [-> IH]]; [done|]. split; [done|by constructor].
Qed.

(** The TCP framing delivers.  Payloads of 1 byte to 16 MiB, written as frames and
    followed by any part of a further frame, come out of the reader as exactly those
    payloads in order, with the part buffered, however the stream is cut into reads. *)
Theorem framing_delivers (ps : list (list byte)) (frames : list (list byte)) (tail : list byte) (reads : list (list byte)) :
  Forall2 (λ p b, writer_encode p = Ok b) ps frames → front tail = Incomplete → concat reads = concat frames ++ tail →
  pushes [] reads = (EvFrame <$> ps, tail).
Proof.
  intros [-> Hp]%written_frames Ht Hr.
  assert (parse (concat reads) = (EvFrame <$> ps, tail)) as E
    by (rewrite Hr, parse_framed, parse_incomplete by done; unfold combine; cbn; by rewrite app_nil_r).
  rewrite pushes_parse; cbn [app]; [done|done|]. rewrite E. apply frames_clean.
Qed.

Lemma front_bad_header n : is_u32 n = true → (n = 0 ∨ MAX_TCP_FRAME_SIZE < n) → front (push_u32 n) = Bad n.
Proof.
  intros Hu Hn. unfold front. rewrite zlen_push_u32. cbn [Z.ltb Z.compare Pos.compare Pos.compare_cont].
  assert (length (push_u32 n) = 4%nat) as Hl by (pose proof (zlen_push_u32 n); unfold zlen in *; lia).
  rewrite take_ge, from_le_push_u32 by (done || lia). cbv zeta. replace (_ || _) with true by lia. done.
Qed.

Lemma short_incomplete b : zlen b < 4 → front b = Incomplete.
Proof. intros. unfold front. by replace (zlen b <? 4) with true by lia. Qed.

(** The first read that completes a prefix of the stream. *)
Lemma split_last_read (reads : list (list byte)) :
  concat reads ≠ [] → ∃ r1 last r2, reads = r1 ++ last :: r2 ∧ last ≠ [] ∧ concat r2 = [].
Proof.
  induction reads as [|x reads IH] using rev_ind; intros Hne; [done|].
  destruct x as [|y x]; [|by exists reads, (y :: x), []].
  rewrite concat_app in Hne. cbn in Hne. rewrite app_nil_r in Hne.
  destruct (IH Hne) as (r1 & last & r2 & -> & Hl & He). exists r1, last, (r2 ++ [[]]). rewrite <- app_assoc. split; [done|].
  split; [done|]. rewrite concat_app, He. done.
Qed.

(** An invalid length ends the stream's framing.  When a length of 0 or above 16 MiB
    follows the frames, the reader delivers every payload before it and then reports
    that length, exactly once and with an empty buffer, however the bytes arrive. *)
Theorem framing_reports_invalid (ps : list (list byte)) (frames : list (list byte)) (n : Z) (reads : list (list byte)) :
  Forall2 (λ p b, writer_encode p = Ok b) ps frames → is_u32 n = true → (n = 0 ∨ MAX_TCP_FRAME_SIZE < n) →
  concat reads = concat frames ++ push_u32 n →
  pushes [] reads = ((EvFrame <$> ps) ++ [EvDroppedInvalidLength n], []).
Proof.
  intros [-> Hp]%written_frames Hu Hn Hr.
  assert (length (push_u32 n) = 4%nat) as Hl4 by (pose proof (zlen_push_u32 n); unfold zlen in *; lia).
  destruct (split_last_read reads) as (r1 & last & r2 & -> & Hlast & He).
  { rewrite Hr. intros [_ E]%app_nil. by rewrite E in Hl4. }
  rewrite concat_app in Hr. cbn in Hr. rewrite He, app_nil_r in Hr.
  (* without its last byte the stream has no invalid length *)
  assert (clean (parse (concat r1))) as Hc.
  { destruct last as [|y last _] using rev_ind; [done|]. destruct (push_u32 n) as [|z h _] eqn:Eh using rev_ind; [done|].
    rewrite !app_assoc in Hr. apply app_inj_tail in Hr as [Hr _]. apply (parse_clean_prefix _ last). rewrite Hr.
    rewrite length_app in Hl4. cbn in Hl4.
    rewrite parse_framed, parse_incomplete by (done || (apply short_incomplete; unfold zlen; lia)). by apply clean_combine. }
  replace (r1 ++ last :: r2) with ((r1 ++ [last]) ++ r2) by (by rewrite <- app_assoc). rewrite !pushes_app.
  rewrite (pushes_parse r1 []) by done. cbn [app pushes]. change (push ?b ?i) with (parse (b ++ i)).
  assert (parse (concat r1 ++ last) = ((EvFrame <$> ps) ++ [EvDroppedInvalidLength n], [])) as E.
  { rewrite Hr, parse_framed by done. by rewrite parse_eq, (front_bad_header n Hu Hn). }
  rewrite (parse_app _ _ Hc) in E. destruct (parse ((parse (concat r1)).2 ++ last)) as [ev2 b2]. injection E as <- ->.
  cbn. rewrite !app_nil_r. assert (pushes [] r2 = ([], [])) as ->.
  { clear - He. induction r2 as [|x r2 IH]; [done|]. cbn in He. apply app_nil in He as [-> He]. cbn. by rewrite IH. }
  unfold combine. cbn. by rewrite app_nil_r.
Qed.

(** A reader buffers less than one frame.  Whatever bytes a peer sends and however
    they arrive, after every read the loop has ended because no complete frame is left
    (more rounds would change nothing), and at most 16 MiB and 3 bytes stay buffered. *)
Theorem framing_reader_bounded (buffer input : list byte) (fuel : nat) :
  (length (buffer ++ input) <= fuel)%nat →
  push_loop fuel (buffer ++ input) = push buffer input ∧ front (push buffer input).2 = Incomplete ∧
  zlen (push buffer input).2 <= MAX_TCP_FRAME_SIZE + 3.
Proof.
  intros Hf. split; [by apply push_loop_fuel|]. pose proof (parse_rest (buffer ++ input)) as Hi.
  split; [exact Hi|]. change (push buffer input) with (parse (buffer ++ input)). set (b := (parse _).2) in *.
  unfold front in Hi. unfold MAX_TCP_FRAME_SIZE in *. destruct (Z.ltb_spec (zlen b) 4); [lia|]. cbv zeta in Hi.
  destruct ((_ =? 0) || _) eqn:E; [done|]. bool_hyps. destruct (Z.ltb_spec (zlen b) (4 + from_le (take 4 b))); [|done]. lia.
Qed.

(** ** Witness: two frames and part of a third in three reads *)

Definition demo_ps : list (list byte) := [[x61; x62]; [x63]].
Definition demo_frames : list (list byte) := [[x02; x00; x00; x00; x61; x62]; [x01; x00; x00; x00; x63]].

Lemma framing_delivers_witness :
  pushes [] [[x02; x00]; [x00; x00; x61; x62; x01; x00; x00; x00; x63; x09]; [x00]] = (EvFrame <$> demo_ps, [x09; x00]).
Proof. apply (framing_delivers demo_ps demo_frames [x09; x00]); [repeat constructor|reflexivity|reflexivity]. Defined.

Lemma framing_reports_invalid_witness :
  pushes [] [[x02; x00]; [x00; x00; x61; x62; x01; x00; x00; x00; x63; x00]; [x00; x00; x00]] =
  ((EvFrame <$> demo_ps) ++ [EvDroppedInvalidLength 0], []).
Proof.
  apply (framing_reports_invalid demo_ps demo_frames 0); [repeat constructor|reflexivity|by left|reflexivity].
Defined.

Lemma framing_reader_bounded_witness : zlen (push [x09] [x00; x00; x00; x01]).2 <= MAX_TCP_FRAME_SIZE + 3.
Proof. apply (framing_reader_bounded [x09] [x00; x00; x00; x01] 5). reflexivity. Defined.
