(* ===== verification/RdInput.v ===== *)
(** * RdInput (crates/ferryx-rd/ferryx-rd-proto/src: input.rs, input_batch.rs; ferryx-rd-app/src/session.rs [send_inputs])

    Input events of a remote desktop, the journal that sends pointer motion in
    datagrams and repeats it at TCP barriers, the order that applies it on the
    host, and the loop of the client that cuts input into packets. *)

From S2P Require Import Prelude Wire RdCodec.
From Stdlib Require Import ZArith Lia Strings.Byte SpecFloat.
From stdpp Require Import base option strings list.

#[local] Open Scope Z_scope.

(** ** 32-bit floats

    A float is its bits.  Addition is IEEE 754 binary32 with rounding to nearest even;
    a result that is not a number is the quiet NaN. *)

Definition f32_of_bits (b : Z) : spec_float :=
  let s := Z.testbit b 31 in
  let e := Z.land (Z.shiftr b 23) 255 in
  let m := Z.land b (2 ^ 23 - 1) in
  if e =? 255 then (if m =? 0 then S754_infinity s else S754_nan)
  else if e =? 0 then (if m =? 0 then S754_zero s else S754_finite s (Z.to_pos m) (-149))
  else S754_finite s (Z.to_pos (m + 2 ^ 23)) (e - 150).
Definition sign_bit (s : bool) : Z := if s then 2 ^ 31 else 0.
Definition f32_to_bits (f : spec_float) : Z :=
  match f with
  | S754_zero s => sign_bit s
  | S754_infinity s => sign_bit s + 255 * 2 ^ 23
  | S754_nan => 0x7fc00000
  | S754_finite s m e =>
      if Z.pos m <? 2 ^ 23 then sign_bit s + Z.pos m else sign_bit s + (e + 150) * 2 ^ 23 + (Z.pos m - 2 ^ 23)
  end.
Definition f32_add (a b : Z) : Z := f32_to_bits (SFadd 24 128 (f32_of_bits a) (f32_of_bits b)).
(** [f32::is_finite] *)
Definition f32_finite (b : Z) : bool := negb (Z.land (Z.shiftr b 23) 255 =? 255).

(** 2 + 3 = 5, 0.1 + 0.2 and an overflow. *)
Example f32_add_ex :
  (f32_add 0x40000000 0x40400000, f32_add 0x3dcccccd 0x3e4ccccd, f32_add 0x7f7fffff 0x7f7fffff) =
  (0x40a00000, 0x3e99999a, 0x7f800000).
Proof. reflexivity. Qed.

(** ** Input events (input.rs) *)

Inductive InputEventType : Type :=
| MouseMove
| LeftMouseDown
| LeftMouseUp
| RightMouseDown
| RightMouseUp
| ScrollWheel
| KeyDown
| KeyUp
| FlagsChanged
| LeftMouseDragged
| RightMouseDragged
| MiddleMouseDown
| MiddleMouseUp
| Reset
| RelativeMove
| GamepadAxis
| GamepadButtonDown
| GamepadButtonUp
| PenMove
| PenDown
| PenUp
| UnicodeChar.
Definition InputEventType_to_u8 (x : InputEventType) : Z :=
  match x with
  | MouseMove => 0
  | LeftMouseDown => 1
  | LeftMouseUp => 2
  | RightMouseDown => 3
  | RightMouseUp => 4
  | ScrollWheel => 5
  | KeyDown => 6
  | KeyUp => 7
  | FlagsChanged => 8
  | LeftMouseDragged => 9
  | RightMouseDragged => 10
  | MiddleMouseDown => 11
  | MiddleMouseUp => 12
  | Reset => 13
  | RelativeMove => 14
  | GamepadAxis => 15
  | GamepadButtonDown => 16
  | GamepadButtonUp => 17
  | PenMove => 18
  | PenDown => 19
  | PenUp => 20
  | UnicodeChar => 21
  end.
Definition InputEventType_tags : list (Z * InputEventType) :=
  [(0, MouseMove);
   (1, LeftMouseDown);
   (2, LeftMouseUp);
   (3, RightMouseDown);
   (4, RightMouseUp);
   (5, ScrollWheel);
   (6, KeyDown);
   (7, KeyUp);
   (8, FlagsChanged);
   (9, LeftMouseDragged);
   (10, RightMouseDragged);
   (11, MiddleMouseDown);
   (12, MiddleMouseUp);
   (13, Reset);
   (14, RelativeMove);
   (15, GamepadAxis);
   (16, GamepadButtonDown);
   (17, GamepadButtonUp);
   (18, PenMove);
   (19, PenDown);
   (20, PenUp);
   (21, UnicodeChar)].
Definition InputEventType_try_from (value : Z) : Res InputEventType := lookup_tag InputEventType_tags (UnknownInputEventType) value.
#[global] Instance InputEventType_eq_dec : EqDecision InputEventType.
Proof. solve_decision. Defined.
#[export] Instance InputEventType_enum : WireEnum InputEventType := {| to_u8 := InputEventType_to_u8; try_from := InputEventType_try_from |}.
#[export] Instance InputEventType_laws : EnumLaws InputEventType.
Proof. solve_enum InputEventType_tags InputEventType_try_from. Qed.

(** [Modifiers(u16)] is its bits. *)
Definition SHIFT : Z := Z.shiftl 1 0.
Definition CONTROL : Z := Z.shiftl 1 1.
Definition OPTION : Z := Z.shiftl 1 2.
Definition COMMAND : Z := Z.shiftl 1 3.
Definition CAPS_LOCK : Z := Z.shiftl 1 4.

Record InputEvent := mk_InputEvent {
  event_type : InputEventType;
  ev_x : Z;
  ev_y : Z;
  key_code : Z;
  modifiers : Z;
  scroll_dx : Z;
  scroll_dy : Z;
}.
#[global] Instance InputEvent_eq_dec : EqDecision InputEvent.
Proof. solve_decision. Defined.
Definition InputEvent_SIZE : Z := 21.
#[export] Hint Unfold InputEvent_SIZE : rd_const.
#[export] Instance InputEvent_holds : Holds InputEvent := λ e,
  is_u32 (ev_x e) && is_u32 (ev_y e) && is_u16 (key_code e) && is_u16 (modifiers e) && is_u32 (scroll_dx e) && is_u32 (scroll_dy e).

Definition unicode_char (code_unit x y : Z) : InputEvent := mk_InputEvent UnicodeChar x y code_unit 0 0 0.
Definition pen_up (x y : Z) : InputEvent := mk_InputEvent PenUp x y 0 0 0 0.
Definition gamepad_axis (gamepad_id axis_id x y : Z) : InputEvent :=
  mk_InputEvent GamepadAxis x y (Z.lor (Z.shiftl gamepad_id 8) axis_id) 0 0 0.
Definition gamepad_button (gamepad_id button_id : Z) (pressed : bool) : InputEvent :=
  mk_InputEvent (if pressed then GamepadButtonDown else GamepadButtonUp) 0 0 (Z.lor (Z.shiftl gamepad_id 8) button_id) 0 0 0.

Definition InputEvent_bytes (e : InputEvent) : list byte :=
  push_u8 (to_u8 (event_type e)) ++ push_f32 (ev_x e) ++ push_f32 (ev_y e) ++ push_u16 (key_code e) ++
  push_u16 (modifiers e) ++ push_f32 (scroll_dx e) ++ push_f32 (scroll_dy e).
#[export] Hint Unfold InputEvent_bytes : rd_body.
Definition InputEvent_encode (e : InputEvent) : Res (list byte) := Ok (InputEvent_bytes e).
Definition InputEvent_decode : list byte → Res InputEvent := run (
  t ← d_u8 "input event type"; event_type ← d_lift (try_from t);
  x ← d_f32 "input x";
  y ← d_f32 "input y";
  key_code ← d_u16 "input key code";
  modifiers ← d_u16 "input modifiers";
  scroll_dx ← d_f32 "input scroll dx";
  scroll_dy ← d_f32 "input scroll dy";
  d_finish "input event";;
  mret (mk_InputEvent event_type x y key_code modifiers scroll_dx scroll_dy)).
#[export] Instance InputEvent_wire : WireCodec InputEvent := {| encode := InputEvent_encode; decode := InputEvent_decode |}.

(** ** Batches (input_batch.rs) *)

Definition MAX_INPUT_SAMPLES : Z := 48.
#[export] Hint Unfold MAX_INPUT_SAMPLES : rd_const.

Definition is_pointer_motion (e : InputEvent) : bool :=
  match event_type e with
  | MouseMove | LeftMouseDragged | RightMouseDragged | RelativeMove | ScrollWheel => true
  | _ => false
  end.

Record InputBatch := mk_InputBatch {
  b_epoch : Z;
  b_sequence : Z;
  b_samples : list InputEvent;
}.
#[export] Instance InputBatch_holds : Holds InputBatch := λ b,
  is_u64 (b_epoch b) && is_u64 (b_sequence b) && forallb holds (b_samples b).

(** The samples a decoder lets through. *)
Definition motion_ok (e : InputEvent) : bool :=
  is_pointer_motion e && f32_finite (ev_x e) && f32_finite (ev_y e) && f32_finite (scroll_dx e) && f32_finite (scroll_dy e).

Fixpoint encode_samples (samples : list InputEvent) : Res (list byte) :=
  match samples with
  | [] => Ok []
  | e :: rest => b ← InputEvent_encode e; bs ← encode_samples rest; Ok (b ++ bs)
  end.
Definition InputBatch_encode (b : InputBatch) : Res (list byte) :=
  if MAX_INPUT_SAMPLES <? zlen (b_samples b)
  then Err (LengthLimit "input samples" (zlen (b_samples b)) MAX_INPUT_SAMPLES) else
  events ← encode_samples (b_samples b);
  Ok (to_be 8 (b_epoch b) ++ to_be 8 (b_sequence b) ++ to_be 2 (zlen (b_samples b) mod 2 ^ 16) ++ events).

(** [chunks_exact(InputEvent::SIZE).map(InputEvent::decode)] collected, of [n] chunks. *)
Fixpoint decode_samples (n : nat) (input : list byte) : Res (list InputEvent) :=
  match n with
  | O => Ok []
  | S n' =>
      e ← InputEvent_decode (take (Z.to_nat InputEvent_SIZE) input);
      es ← decode_samples n' (drop (Z.to_nat InputEvent_SIZE) input);
      Ok (e :: es)
  end.
Definition InputBatch_decode (input : list byte) : Res InputBatch :=
  if zlen input <? 18 then Err (Truncated "input batch" 18 (zlen input)) else
  let count := from_be (take 2 (drop 16 input)) in
  if MAX_INPUT_SAMPLES <? count then Err (LengthLimit "input samples" count MAX_INPUT_SAMPLES) else
  let expected := 18 + count * InputEvent_SIZE in
  if negb (zlen input =? expected) then Err (InvalidLength "input batch" (zlen input) expected) else
  samples ← decode_samples (Z.to_nat count) (drop 18 input);
  if existsb (λ e, negb (motion_ok e)) samples then Err (InvalidValue "input motion" 0) else
  Ok (mk_InputBatch (from_be (take 8 input)) (from_be (take 8 (drop 8 input))) samples).
#[export] Instance InputBatch_wire : WireCodec InputBatch := {| encode := InputBatch_encode; decode := InputBatch_decode |}.

(** ** The journal and the order *)

Record InputJournal := mk_InputJournal {
  ij_epoch : Z;
  ij_sequence : Z;
  ij_pending : list InputEvent;
}.
Definition journal_default : InputJournal := mk_InputJournal 0 0 [].

(** [None]: the [expect] of a counter that would overflow. *)
Definition append (samples : list InputEvent) (j : InputJournal) : option (InputJournal * InputBatch) :=
  sequence ← checked_add64 (ij_sequence j) 1;
  let pending := ij_pending j ++ samples in
  Some (mk_InputJournal (ij_epoch j) sequence pending, mk_InputBatch (ij_epoch j) sequence pending).
Definition checkpoint (j : InputJournal) : option (InputJournal * InputBatch) :=
  let batch := mk_InputBatch (ij_epoch j) (ij_sequence j) (ij_pending j) in
  epoch ← checked_add64 (ij_epoch j) 1;
  Some (mk_InputJournal epoch (ij_sequence j) [], batch).

Record InputOrder := mk_InputOrder {
  io_epoch : Z;
  io_sequence : Z;
  io_applied : Z;
}.
Definition order_default : InputOrder := mk_InputOrder 0 0 0.

(** One round of the loop of [accept]. *)
Definition coalesce1 (out : list InputEvent) (event : InputEvent) : list InputEvent :=
  match last out with
  | Some previous =>
      if bool_decide (event_type previous = event_type event) && (modifiers previous =? modifiers event) then
        let front := take (length out - 1) out in
        match event_type event with
        | MouseMove | LeftMouseDragged | RightMouseDragged => front ++ [event]
        | RelativeMove | ScrollWheel =>
            front ++ [mk_InputEvent (event_type previous) (ev_x previous) (ev_y previous) (key_code previous) (modifiers previous)
              (f32_add (scroll_dx previous) (scroll_dx event)) (f32_add (scroll_dy previous) (scroll_dy event))]
        | _ => out ++ [event]
        end
      else out ++ [event]
  | None => out ++ [event]
  end.
Definition coalesce (events : list InputEvent) : list InputEvent := foldl coalesce1 [] events.

Definition accept (batch : InputBatch) (barrier : bool) (o : InputOrder) : InputOrder * list InputEvent :=
  if negb (b_epoch batch =? io_epoch o) then (o, []) else
  let '(o, out) :=
    if io_sequence o <? b_sequence batch then
      (mk_InputOrder (io_epoch o) (b_sequence batch) (zlen (b_samples batch)),
       coalesce (drop (Z.to_nat (io_applied o)) (b_samples batch)))
    else (o, []) in
  if barrier then (mk_InputOrder (add64 (io_epoch o) 1) (io_sequence o) 0, out) else (o, out).

(** ** Cutting input into packets (ferryx-rd-app/src/session.rs) *)

Inductive InputPacket : Type :=
| UdpBatch (b : InputBatch)
| TcpBatch (b : InputBatch)
| TcpEvent (e : InputEvent) (b : option InputBatch).

Inductive SendResult : Type := Sent | SendFailed | Panicked.

Section sending.
(** Whether the transport takes the [n]th packet, and whether the peers negotiated
    [UDP_INPUT] and [INPUT_ECHO]. *)
Context (takes : nat → bool) (negotiated echo : bool).

(** The journal, the packets sent, and how sending ended; [None] when it ran out of fuel. *)
Definition Outcome : Type := InputJournal * list InputPacket * option SendResult.

(** Encode [batch] and send the packet [p]. *)
Definition attempt (j : InputJournal) (out : list InputPacket) (batch : InputBatch) (p : InputPacket)
    (k : list InputPacket → Outcome) : Outcome :=
  match InputBatch_encode batch with
  | Err _ => (j, out, Some SendFailed)
  | Ok _ => if takes (length out) then k (out ++ [p]) else (j, out, Some SendFailed)
  end.

Definition send_full (j : InputJournal) (out : list InputPacket) (k : InputJournal → list InputPacket → Outcome) : Outcome :=
  if zlen (ij_pending j) =? MAX_INPUT_SAMPLES then
    match checkpoint j with
    | None => (j, out, Some Panicked)
    | Some (j', batch) => attempt j' out batch (TcpBatch batch) (k j')
    end
  else k j out.

(** [take_while(is_pointer_motion).count()] *)
Fixpoint motion_run (events : list InputEvent) : nat :=
  match events with [] => 0 | e :: rest => if is_pointer_motion e then S (motion_run rest) else 0 end.

Definition motion_count (events : list InputEvent) (j : InputJournal) : nat :=
  Nat.min (motion_run events) (Z.to_nat (MAX_INPUT_SAMPLES - zlen (ij_pending j))).

Definition send_motions (events : list InputEvent) (j : InputJournal) (out : list InputPacket)
    (k : InputJournal → list InputPacket → Outcome) : Outcome :=
  match append (take (motion_count events j) events) j with
  | None => (j, out, Some Panicked)
  | Some (j', batch) => attempt j' out batch (UdpBatch batch) (k j')
  end.

Definition send_discrete (event : InputEvent) (j : InputJournal) (out : list InputPacket)
    (k : InputJournal → list InputPacket → Outcome) : Outcome :=
  if negb negotiated then
    if takes (length out) then k j (out ++ [TcpEvent event None]) else (j, out, Some SendFailed)
  else
  match (if echo then fst <$> append [] j else Some j) with
  | None => (j, out, Some Panicked)
  | Some j1 =>
      match checkpoint j1 with
      | None => (j1, out, Some Panicked)
      | Some (j2, batch) => attempt j2 out batch (TcpEvent event (Some batch)) (k j2)
      end
  end.

(** The loop of [send_inputs]. *)
Fixpoint send_loop (fuel : nat) (events : list InputEvent) (j : InputJournal) (out : list InputPacket) : Outcome :=
  match events, fuel with
  | [], _ => (j, out, Some Sent)
  | _, O => (j, out, None)
  | event :: rest, S fuel' =>
      if negotiated && is_pointer_motion event then
        send_full j out (λ j out,
          send_motions events j out (λ j', send_loop fuel' (drop (motion_count events j) events) j'))
      else send_discrete event j out (send_loop fuel' rest)
  end.
Definition send_inputs (allowed : InputEvent → bool) (events : list InputEvent) (j : InputJournal) : Outcome :=
  if forallb allowed events then send_loop (length events) events j [] else (j, [], Some SendFailed).
End sending.

(** ** Laws of the codecs *)

#[export] Instance InputEvent_canonical : Canonical InputEvent.
Proof. solve_canonical InputEvent_holds InputEvent_encode InputEvent_decode. Qed.

Lemma event_bytes_length e : zlen (InputEvent_bytes e) = InputEvent_SIZE.
Proof. unfold InputEvent_bytes. by autorewrite with zl. Qed.

Lemma event_read b e : InputEvent_decode b = Ok e → holds e = true ∧ InputEvent_bytes e = b.
Proof.
  pose proof (canon_encode_decode (A := InputEvent) b e) as Hc. intros H. destruct (Hc H) as [Hh Hb]. split; [done|].
  by apply Ok_inj in Hb.
Qed.

Lemma encode_samples_ok es : encode_samples es = Ok (concat (InputEvent_bytes <$> es)).
Proof. induction es as [|e es IH]; [done|]. cbn [encode_samples]. by rewrite IH. Qed.

Lemma batch_encode_ok b : zlen (b_samples b) <= MAX_INPUT_SAMPLES → ∃ bytes, InputBatch_encode b = Ok bytes.
Proof.
  intros H. unfold InputBatch_encode. replace (MAX_INPUT_SAMPLES <? zlen (b_samples b)) with false by lia.
  rewrite encode_samples_ok. cbn. eauto.
Qed.

Lemma decode_samples_written es k :
  Forall (λ e, holds e = true) es → decode_samples (length es) (concat (InputEvent_bytes <$> es) ++ k) = Ok es.
Proof.
  induction 1 as [|e es He _ IH]; [done|]. rewrite fmap_cons. cbn [concat length decode_samples]. rewrite <- app_assoc.
  rewrite <- (event_bytes_length e), take_app_zlen, drop_app_zlen.
  assert (InputEvent_decode (InputEvent_bytes e) = Ok e) as -> by exact (canon_decode_encode e _ He eq_refl). by rewrite !res_bind_Ok, IH.
Qed.

Lemma decode_samples_read n input es :
  zlen input = Z.of_nat n * InputEvent_SIZE → decode_samples n input = Ok es →
  length es = n ∧ Forall (λ e, holds e = true) es ∧ input = concat (InputEvent_bytes <$> es).
Proof.
  revert input es. induction n as [|n IH]; intros input es Hl H; cbn [decode_samples] in H.
  - injection H as <-. split_and!; [done|done|]. apply zlen_0_inv. lia.
  - unfold InputEvent_SIZE in *. apply res_bind_ok in H as (e & He & H). apply res_bind_ok in H as (es' & Hes & H). injection H as <-.
    apply event_read in He as [Hh Hb]. apply IH in Hes as (<- & Hf & Hd); [|rewrite zlen_drop; unfold InputEvent_SIZE in *; lia].
    split_and!; [done|by constructor|]. rewrite fmap_cons. cbn [concat]. by rewrite Hb, <- Hd, take_drop.
Qed.

Lemma be_parts (a b c k : list byte) :
  zlen a = 8 → zlen b = 8 → zlen c = 2 →
  take 8 (a ++ b ++ c ++ k) = a ∧ take 8 (drop 8 (a ++ b ++ c ++ k)) = b ∧
  take 2 (drop 16 (a ++ b ++ c ++ k)) = c ∧ drop 18 (a ++ b ++ c ++ k) = k.
Proof.
  unfold zlen. intros Ha Hb Hc. assert (length a = 8%nat) as La by lia. assert (length b = 8%nat) as Lb by lia.
  assert (length c = 2%nat) as Lc by lia.
  assert (∀ n (l : list byte), drop (8 + n) (a ++ l) = drop n l) as Hd by (intros; by rewrite <- La, <- drop_drop, drop_app_length).
  assert (∀ n (l : list byte), drop (8 + n) (b ++ l) = drop n l) as Hd' by (intros; by rewrite <- Lb, <- drop_drop, drop_app_length).
  split_and!.
  - by rewrite <- La, take_app_length.
  - rewrite (Hd 0%nat), drop_0, <- Lb. by rewrite take_app_length.
  - rewrite (Hd 8%nat), (Hd' 0%nat), drop_0, <- Lc. by rewrite take_app_length.
  - rewrite (Hd 10%nat), (Hd' 2%nat), <- Lc. by rewrite drop_app_length.
Qed.

Lemma concat_bytes_length es : zlen (concat (InputEvent_bytes <$> es)) = zlen es * InputEvent_SIZE.
Proof.
  induction es as [|e es IH]; [done|]. rewrite fmap_cons. cbn [concat]. rewrite zlen_app, IH, event_bytes_length, zlen_cons. lia.
Qed.

Lemma existsb_not_ok es : existsb (λ e, negb (motion_ok e)) es = false ↔ forallb motion_ok es = true.
Proof. induction es as [|e es IH]; [done|]. cbn. rewrite orb_false_iff, andb_true_iff, negb_false_iff, IH. done. Qed.

(** Batches of motion survive the wire, and nothing else is accepted. *)
Lemma input_batch_roundtrip b bytes :
  holds b = true → forallb motion_ok (b_samples b) = true → InputBatch_encode b = Ok bytes → InputBatch_decode bytes = Ok b.
Proof.
  intros Hh Hm Hb. unfold holds, InputBatch_holds in Hh. bool_hyps. unfold InputBatch_encode in Hb.
  destruct (Z.ltb_spec MAX_INPUT_SAMPLES (zlen (b_samples b))) as [|Hl]; [done|]. rewrite encode_samples_ok, res_bind_Ok in Hb.
  apply Ok_inj in Hb as <-. pose proof (zlen_nonneg (b_samples b)). unfold MAX_INPUT_SAMPLES in Hl.
  rewrite (Z.mod_small (zlen (b_samples b))) by lia. unfold InputBatch_decode.
  destruct (be_parts (to_be 8 (b_epoch b)) (to_be 8 (b_sequence b)) (to_be 2 (zlen (b_samples b)))
    (concat (InputEvent_bytes <$> b_samples b))) as (E1 & E2 & E3 & E4); [by rewrite zlen_to_be..|]. rewrite E1, E2, E3, E4. clear E1 E2 E3 E4.
  rewrite !zlen_app, !zlen_to_be, concat_bytes_length, !from_to_be.
  unfold is_u64, u64_max in *. bool_hyps. change (256 ^ Z.of_nat 8) with (2 ^ 64). change (256 ^ Z.of_nat 2) with (2 ^ 16).
  rewrite !Z.mod_small by lia. unfold InputEvent_SIZE, MAX_INPUT_SAMPLES in *.
  destruct (Z.ltb_spec (Z.of_nat 8 + (Z.of_nat 8 + (Z.of_nat 2 + zlen (b_samples b) * 21))) 18); [lia|]. cbv zeta.
  destruct (Z.ltb_spec 48 (zlen (b_samples b))); [lia|].
  replace (_ =? _) with true by (symmetry; apply Z.eqb_eq; lia). cbn [negb]. unfold zlen at 1. rewrite Nat2Z.id, <- (app_nil_r (concat _)).
  rewrite decode_samples_written, res_bind_Ok by (apply Forall_forall; intros e He; rewrite forallb_forall in H0; by apply H0, list_elem_of_In).
  rewrite (proj2 (existsb_not_ok _)) by done. by destruct b.
Qed.

Lemma input_batch_canonical b bytes :
  InputBatch_decode bytes = Ok b →
  holds b = true ∧ forallb motion_ok (b_samples b) = true ∧ InputBatch_encode b = Ok bytes.
Proof.
  unfold InputBatch_decode. destruct (Z.ltb_spec (zlen bytes) 18) as [|H18]; [done|]. cbv zeta.
  set (count := from_be (take 2 (drop 16 bytes))). destruct (Z.ltb_spec MAX_INPUT_SAMPLES count) as [|Hc]; [done|].
  destruct (negb _) eqn:Hl; [done|]. apply negb_false_iff, Z.eqb_eq in Hl. intros H. apply res_bind_ok in H as (es & Hes & H).
  destruct (existsb _ es) eqn:Hm; [done|]. apply existsb_not_ok in Hm. injection H as <-.
  assert (0 <= count) by (pose proof (from_be_range (take 2 (drop 16 bytes))); lia).
  apply decode_samples_read in Hes as (Hlen & Hf & Hd); [|change 18%nat with (Z.to_nat 18); rewrite zlen_drop; unfold InputEvent_SIZE in *; lia].
  assert (count = zlen es) as Ec by (unfold zlen; lia).
  assert (∀ i n, (i + n <= 18)%nat → length (take n (drop i bytes)) = n) as Hpart
    by (intros i n Hi; rewrite length_take, length_drop; unfold zlen in H18; lia).
  assert (∀ i n, (i + n <= 18)%nat → to_be n (from_be (take n (drop i bytes))) = take n (drop i bytes)) as Hbe
    by (intros i n Hi; rewrite <- (Hpart i n Hi) at 1; apply to_from_be).
  pose proof (from_be_range (take 8 bytes)) as R1. pose proof (from_be_range (take 8 (drop 8 bytes))) as R2.
  pose proof (Hpart 0%nat 8%nat ltac:(lia)) as P1. rewrite drop_0 in P1. pose proof (Hpart 8%nat 8%nat ltac:(lia)) as P2.
  unfold zlen in R1, R2. rewrite P1 in R1. rewrite P2 in R2. split_and!; cbn [b_samples]; [|done|].
  - unfold holds, InputBatch_holds. cbn [b_epoch b_sequence b_samples]. rewrite !andb_true_iff. split_and!.
    + apply in_range_iff. unfold u64_max. lia.
    + apply in_range_iff. unfold u64_max. lia.
    + apply forallb_forall. intros e He%list_elem_of_In. rewrite Forall_forall in Hf. by apply Hf.
  - unfold InputBatch_encode. cbn [b_epoch b_sequence b_samples]. replace (MAX_INPUT_SAMPLES <? zlen es) with false by lia.
    rewrite encode_samples_ok, res_bind_Ok, <- Hd. unfold MAX_INPUT_SAMPLES in *. pose proof (zlen_nonneg es).
    rewrite (Z.mod_small (zlen es)), <- Ec by lia. f_equal. unfold count.
    pose proof (Hbe 0%nat 8%nat ltac:(lia)) as E1. rewrite drop_0 in E1. rewrite E1, (Hbe 8%nat 8%nat), (Hbe 16%nat 2%nat) by lia.
    replace (drop 18 bytes) with (drop 2 (drop 16 bytes)) by (by rewrite drop_drop). rewrite take_drop.
    replace (drop 16 bytes) with (drop 8 (drop 8 bytes)) by (by rewrite drop_drop). by rewrite !take_drop.
Qed.
