(* ===== verification/RdInputSpec.v ===== *)
(** * RdInputSpec: remote desktop input is sent and applied exactly once

    Theorems on [RdInput]: the client's loop ends and its reliable packets carry every
    event in order; and over every loss, duplication and reordering of datagrams the
    host applies each motion sample once, in order, and all of an epoch before the
    event that ends it. *)

From S2P Require Import Prelude Wire RdCodec RdInput.
From Stdlib Require Import ZArith Lia Strings.Byte.
From stdpp Require Import base option strings relations list.

#[local] Open Scope Z_scope.

(** ** The client's loop *)

(** What the reliable stream carries: samples of barriers and events. *)
Definition packet_content (p : InputPacket) : list InputEvent :=
  match p with
  | UdpBatch _ => []
  | TcpBatch b => b_samples b
  | TcpEvent e b => from_option b_samples [] b ++ [e]
  end.
Definition tcp_content (out : list InputPacket) : list InputEvent := concat (packet_content <$> out).
Definition packet_batch (p : InputPacket) : option InputBatch :=
  match p with UdpBatch b | TcpBatch b => Some b | TcpEvent _ b => b end.
(** A packet whose batch fits a datagram. *)
Definition packet_fits (p : InputPacket) : Prop := ∀ b, packet_batch p = Some b → zlen (b_samples b) <= MAX_INPUT_SAMPLES.

Lemma tcp_content_snoc out p : tcp_content (out ++ [p]) = tcp_content out ++ packet_content p.
Proof. unfold tcp_content. rewrite fmap_app, concat_app. cbn. by rewrite app_nil_r. Qed.

Section sending.
Context (takes : nat → bool) (negotiated echo : bool).

(** The journal has room, for its batch and for [n] more steps of its counters. *)
Definition journal_ok (n : Z) (j : InputJournal) : Prop :=
  zlen (ij_pending j) <= MAX_INPUT_SAMPLES ∧ (negotiated = true ∨ ij_pending j = []) ∧
  0 <= ij_sequence j ∧ ij_sequence j + n <= u64_max ∧ 0 <= ij_epoch j ∧ ij_epoch j + n <= u64_max.

(** From journal [j] with [out] sent, [r] has sent [events] too, or a packet was not taken. *)
Definition sent_all (j : InputJournal) (out : list InputPacket) (events : list InputEvent) (r : Outcome) : Prop :=
  let '(j', out', res) := r in
  Forall packet_fits out' ∧ zlen (ij_pending j') <= MAX_INPUT_SAMPLES ∧
  (res = Some Sent ∧ tcp_content out' ++ ij_pending j' = tcp_content out ++ ij_pending j ++ events ∨
   res = Some SendFailed ∧ ∃ n, takes n = false).

(** A step that leaves the content to be sent in place. *)
Lemma attempt_sent j j' out batch p events events' k :
  Forall packet_fits out → packet_fits p → packet_batch p = Some batch → zlen (ij_pending j') <= MAX_INPUT_SAMPLES →
  packet_content p ++ ij_pending j' ++ events' = ij_pending j ++ events →
  (Forall packet_fits (out ++ [p]) → sent_all j' (out ++ [p]) events' (k (out ++ [p]))) →
  sent_all j out events (attempt takes j' out batch p k).
Proof.
  intros Ho Hp Hb Hj He Hk. unfold attempt. destruct (batch_encode_ok batch (Hp _ Hb)) as [bytes ->].
  destruct (takes (length out)) eqn:Et; [|split_and!; [done|done|]; right; eauto].
  assert (Forall packet_fits (out ++ [p])) as Ho' by (apply Forall_app; split; [done|by constructor]).
  specialize (Hk Ho'). unfold sent_all in *. destruct (k (out ++ [p])) as [[j1 out1] res]. destruct Hk as (H1 & H2 & H3).
  split_and!; [done|done|]. destruct H3 as [[-> E]|H3]; [left|by right]. split; [done|].
  rewrite E, tcp_content_snoc, <- app_assoc. by rewrite He.
Qed.

Lemma append_ok samples j : ij_sequence j + 1 <= u64_max →
  append samples j = Some (mk_InputJournal (ij_epoch j) (ij_sequence j + 1) (ij_pending j ++ samples),
                           mk_InputBatch (ij_epoch j) (ij_sequence j + 1) (ij_pending j ++ samples)).
Proof.
  intros Hs. unfold append, checked_add64. by replace (ij_sequence j + 1 <=? u64_max) with true by lia.
Qed.
Lemma checkpoint_ok n j : journal_ok n j → 1 <= n →
  checkpoint j = Some (mk_InputJournal (ij_epoch j + 1) (ij_sequence j) [], mk_InputBatch (ij_epoch j) (ij_sequence j) (ij_pending j)).
Proof.
  intros (_ & _ & _ & _ & H1 & H2) Hn. unfold checkpoint, checked_add64. by replace (ij_epoch j + 1 <=? u64_max) with true by lia.
Qed.

Lemma send_full_sent n j out events k :
  journal_ok n j → 1 <= n → Forall packet_fits out →
  (∀ j' out', zlen (ij_pending j') < MAX_INPUT_SAMPLES → ij_sequence j' = ij_sequence j → ij_epoch j <= ij_epoch j' <= ij_epoch j + 1 →
    (negotiated = true ∨ ij_pending j' = []) → Forall packet_fits out' → sent_all j' out' events (k j' out')) →
  sent_all j out events (send_full takes j out k).
Proof.
  intros Hj Hn Ho Hk. pose proof Hj as (Hp & Hneg & _). unfold send_full.
  destruct (Z.eqb_spec (zlen (ij_pending j)) MAX_INPUT_SAMPLES) as [Hf|Hf].
  - rewrite (checkpoint_ok n) by done. set (j' := mk_InputJournal _ _ []). set (b := mk_InputBatch _ _ _).
    apply (attempt_sent j j' out b (TcpBatch b) events events); [done|by intros ? [= <-]|done|done|done|].
    intros Ho'. apply Hk; cbn; [done|done|lia|by right|done].
  - apply Hk; [lia|done|lia|done|done].
Qed.

Lemma motion_count_spec e events j :
  is_pointer_motion e = true → zlen (ij_pending j) < MAX_INPUT_SAMPLES →
  (1 <= motion_count (e :: events) j)%nat ∧ zlen (ij_pending j) + Z.of_nat (motion_count (e :: events) j) <= MAX_INPUT_SAMPLES.
Proof. intros He Hp. unfold motion_count. cbn [motion_run]. rewrite He. cbn match. pose proof (zlen_nonneg (ij_pending j)).
  unfold MAX_INPUT_SAMPLES in *. lia. Qed.

Lemma send_loop_sent fuel events j out :
  (length events <= fuel)%nat → journal_ok (zlen events) j → Forall packet_fits out →
  sent_all j out events (send_loop takes negotiated echo fuel events j out).
Proof.
  revert events j out. induction fuel as [|fuel IH]; intros [|e events] j out Hf Hj Ho; cbn [send_loop]; try (cbn in Hf; lia).
  1, 2: split_and!; [done|apply Hj|left; split; [done|]; by rewrite app_nil_r].
  rewrite zlen_cons in Hj. pose proof (zlen_nonneg events) as Hz. cbn in Hf.
  pose proof Hj as (Hp & Hneg & Hs1 & Hs2 & He1 & He2).
  destruct (negotiated && is_pointer_motion e) eqn:Em.
  - apply andb_true_iff in Em as [En Em]. apply (send_full_sent (1 + zlen events)); [done|lia|done|].
    intros j1 out1 Hp1 Hs Hep Hn1 Ho1. destruct (motion_count_spec e events j1 Em Hp1) as [Hc1 Hc2].
    set (c := motion_count (e :: events) j1) in *. unfold send_motions. fold c.
    rewrite append_ok by lia.
    set (j2 := mk_InputJournal _ _ _). set (b := mk_InputBatch _ _ _).
    assert (zlen (ij_pending j1 ++ take c (e :: events)) <= MAX_INPUT_SAMPLES) as Hb
      by (rewrite zlen_app; unfold zlen at 2; rewrite length_take; lia).
    apply (attempt_sent j1 j2 out1 b (UdpBatch b) (e :: events) (drop c (e :: events))); [done|by intros ? [= <-]|done|done| |].
    { cbn. by rewrite <- app_assoc, take_drop. }
    intros Ho2. assert (zlen (drop c (e :: events)) <= zlen events) as Hd by (unfold zlen; rewrite length_drop; cbn [length]; lia).
    apply IH; [unfold zlen in Hd; lia| |done]. split_and!; cbn [j2 ij_pending ij_sequence ij_epoch]; [done|by left|lia..].
  - unfold send_discrete. destruct negotiated eqn:En; cbn [negb].
    + assert (∃ j1, (if echo then fst <$> append [] j else Some j) = Some j1 ∧ ij_pending j1 = ij_pending j ∧ ij_epoch j1 = ij_epoch j ∧
        0 <= ij_sequence j1 <= ij_sequence j + 1) as (j1 & -> & Ep & Ee & Es).
      { destruct echo; [rewrite append_ok by lia|]; eexists; (split; [reflexivity|]); cbn; rewrite ?app_nil_r;
          (split_and!; [done|done|lia..]). }
      unfold checkpoint, checked_add64. rewrite Ep, Ee. replace (ij_epoch j + 1 <=? u64_max) with true by lia. cbn [mbind option_bind].
      set (j2 := mk_InputJournal _ _ []). set (b := mk_InputBatch _ _ _).
      apply (attempt_sent j j2 out b (TcpEvent e (Some b)) (e :: events) events);
        [done|by intros ? [= <-]|done|done|cbn; by rewrite <- app_assoc|].
      intros Ho'. apply IH; [lia| |done]. split_and!; cbn; [done|by left|lia..].
    + destruct (takes (length out)) eqn:Et; [|split_and!; [done|done|]; right; eauto]. destruct Hneg as [|Hnil]; [done|].
      assert (Forall packet_fits (out ++ [TcpEvent e None])) as Ho' by (apply Forall_app; split; [done|]; by repeat constructor).
      assert (journal_ok (zlen events) j) as Hj' by (split_and!; [done|by right|lia..]).
      specialize (IH events j _ ltac:(lia) Hj' Ho'). unfold sent_all in *. destruct (send_loop _ _ _ _ _ _ _) as [[j' out'] res].
      destruct IH as (H1 & H2 & H3). split_and!; [done|done|]. destruct H3 as [[-> E]|H3]; [left|by right]. split; [done|].
      rewrite E, tcp_content_snoc, Hnil. cbn. by rewrite <- app_assoc.
Qed.
End sending.

(** Sending input ends and loses nothing.  The client's loop always ends, without
    panic, after at most one round per event; its batches never exceed a datagram;
    if the transport takes every packet it reports success; and then the barriers and
    events of the reliable stream, followed by the motion still in the journal, are
    exactly what was in the journal followed by all the events, in order. *)
Theorem send_inputs_complete (takes : nat → bool) (negotiated echo : bool) (allowed : InputEvent → bool)
    (events : list InputEvent) (j : InputJournal) :
  forallb allowed events = true →
  zlen (ij_pending j) <= MAX_INPUT_SAMPLES → (negotiated = true ∨ ij_pending j = []) →
  0 <= ij_sequence j → ij_sequence j + zlen events <= u64_max → 0 <= ij_epoch j → ij_epoch j + zlen events <= u64_max →
  ∃ j' out res, send_inputs takes negotiated echo allowed events j = (j', out, Some res) ∧ res ≠ Panicked ∧
    Forall packet_fits out ∧ zlen (ij_pending j') <= MAX_INPUT_SAMPLES ∧
    ((∀ n, takes n = true) → res = Sent) ∧
    (res = Sent → tcp_content out ++ ij_pending j' = ij_pending j ++ events).
Proof.
  intros Ha Hp Hn Hs1 Hs2 He1 He2. unfold send_inputs. rewrite Ha.
  pose proof (send_loop_sent takes negotiated echo (length events) events j [] ltac:(done)
    ltac:(by split_and!) ltac:(constructor)) as H.
  destruct (send_loop _ _ _ _ _ _ _) as [[j' out] r]. destruct H as (H1 & H2 & [[-> E]|[-> [n Et]]]).
  - exists j', out, Sent. by split_and!.
  - exists j', out, SendFailed. split_and!; try done. intros Ht. by rewrite Ht in Et.
Qed.

(** ** The journal and the order over a lossy network *)

(** The client's journal, the datagrams and barriers it sent, the host's order, and
    what the host applied, call by call; [w_epochs] are the samples of closed epochs. *)
Record World := mk_World {
  w_j : InputJournal;
  w_sent : list InputBatch;
  w_tcp : list InputBatch;
  w_epochs : list (list InputEvent);
  w_o : InputOrder;
  w_out : list (list InputEvent);
}.
Definition world0 : World := mk_World journal_default [] [] [] order_default [].

(** A datagram that was sent may arrive at any time, any number of times or never;
    barriers arrive in order. *)
Inductive world_step : World → World → Prop :=
| step_append samples w j' b :
    append samples (w_j w) = Some (j', b) →
    world_step w (mk_World j' (w_sent w ++ [b]) (w_tcp w) (w_epochs w) (w_o w) (w_out w))
| step_checkpoint w j' b :
    checkpoint (w_j w) = Some (j', b) →
    world_step w (mk_World j' (w_sent w) (w_tcp w ++ [b]) (w_epochs w ++ [ij_pending (w_j w)]) (w_o w) (w_out w))
| step_datagram w b o' out :
    b ∈ w_sent w → accept b false (w_o w) = (o', out) →
    world_step w (mk_World (w_j w) (w_sent w) (w_tcp w) (w_epochs w) o' (w_out w ++ [out]))
| step_barrier w b rest o' out :
    w_tcp w = b :: rest → accept b true (w_o w) = (o', out) →
    world_step w (mk_World (w_j w) (w_sent w) rest (w_epochs w) o' (w_out w ++ [out])).

(** The samples of an epoch, closed or current. *)
Definition epoch_samples (w : World) (e : Z) : list InputEvent :=
  default [] ((w_epochs w ++ [ij_pending (w_j w)]) !! Z.to_nat e).

(** The samples of epoch [e] in the first [k] datagrams. *)
Definition top (sent : list InputBatch) (k : nat) (e : Z) : list InputEvent :=
  match k with
  | O => []
  | S k' => match sent !! k' with Some b => if b_epoch b =? e then b_samples b else [] | None => [] end
  end.

(** Batches in the order they were made: sequence numbers count them, epochs and
    the samples within an epoch grow. *)
Record made (j : InputJournal) (sent : list InputBatch) : Prop := {
  md_seq : ∀ k b, sent !! k = Some b → b_sequence b = Z.of_nat k + 1 ∧ 0 <= b_epoch b <= ij_epoch j;
  md_mono : ∀ k1 k2 b1 b2, (k1 <= k2)%nat → sent !! k1 = Some b1 → sent !! k2 = Some b2 →
    b_epoch b1 <= b_epoch b2 ∧ (b_epoch b1 = b_epoch b2 → b_samples b1 `prefix_of` b_samples b2);
  md_count : ij_sequence j = Z.of_nat (length sent);
  md_pending : top sent (length sent) (ij_epoch j) = ij_pending j;
}.

(** A cut after [k] datagrams that closes epoch [e] with samples [s]. *)
Definition closes (sent : list InputBatch) (k : nat) (e : Z) (s : list InputEvent) : Prop :=
  (k <= length sent)%nat ∧ top sent k e = s ∧
  (∀ i b, sent !! i = Some b → (i < k)%nat → b_epoch b <= e) ∧ (∀ i b, sent !! i = Some b → (k <= i)%nat → e < b_epoch b).

Record world_inv (w : World) : Prop := {
  wi_made : made (w_j w) (w_sent w);
  wi_epoch : ij_epoch (w_j w) = zlen (w_epochs w) ∧ ij_epoch (w_j w) <= u64_max ∧ 0 <= io_epoch (w_o w) ∧
    io_epoch (w_o w) + zlen (w_tcp w) = ij_epoch (w_j w);
  wi_tcp : ∀ k b, w_tcp w !! k = Some b → b_epoch b = io_epoch (w_o w) + Z.of_nat k ∧
    w_epochs w !! Z.to_nat (b_epoch b) = Some (b_samples b) ∧
    ∃ n, b_sequence b = Z.of_nat n ∧ closes (w_sent w) n (b_epoch b) (b_samples b);
  wi_order : ∃ n, io_sequence (w_o w) = Z.of_nat n ∧ (n <= length (w_sent w))%nat ∧
    (∀ i b, w_sent w !! i = Some b → (i < n)%nat → b_epoch b <= io_epoch (w_o w)) ∧
    io_applied (w_o w) = zlen (top (w_sent w) n (io_epoch (w_o w))) ∧
    ∃ segs, w_out w = coalesce <$> segs ∧
      concat segs = concat (take (Z.to_nat (io_epoch (w_o w))) (w_epochs w)) ++ top (w_sent w) n (io_epoch (w_o w));
}.

Lemma top_snoc sent b k e : (k <= length sent)%nat → top (sent ++ [b]) k e = top sent k e.
Proof. destruct k as [|k]; [done|]. intros Hk. cbn. by rewrite lookup_app_l by lia. Qed.

Lemma lookup_snoc_Some {A} (l : list A) (x : A) i y :
  (l ++ [x]) !! i = Some y ↔ l !! i = Some y ∨ i = length l ∧ y = x.
Proof.
  rewrite lookup_app_Some. split; [intros [?|[Hi H]]; [by left|]|intros [?|[-> ->]]; [by left|]].
  - right. destruct (i - length l)%nat as [|n] eqn:E; cbn in H; [injection H as <-; split; [lia|done]|done].
  - right. split; [lia|]. by rewrite Nat.sub_diag.
Qed.

Lemma append_made samples j sent j' b :
  made j sent → 0 <= ij_epoch j → append samples j = Some (j', b) →
  made j' (sent ++ [b]) ∧ ij_epoch j' = ij_epoch j ∧ b_epoch b = ij_epoch j.
Proof.
  intros [M1 M2 M3 M4] He. unfold append, checked_add64. destruct (_ <=? _); [|done]. intros [= <- <-]. cbn.
  split; [|done]. split; cbn.
  - intros k b [Hb|[-> ->]]%lookup_snoc_Some; [by apply M1|]. cbn. lia.
  - intros k1 k2 b1 b2 Hk [H1|[-> ->]]%lookup_snoc_Some [H2|[-> ->]]%lookup_snoc_Some.
    + by eapply M2.
    + cbn. split; [apply (M1 k1 b1 H1)|]. intros E. apply prefix_app_r. rewrite <- M4.
      assert (k1 < length sent)%nat as Hl by (by eapply lookup_lt_Some).
      destruct (length sent) as [|n] eqn:En; [lia|]. cbn. destruct (lookup_lt_is_Some_2 sent n ltac:(lia)) as [b2 Hb2]. rewrite Hb2.
      destruct (M2 k1 n b1 b2 ltac:(lia) H1 Hb2) as [L1 L2]. destruct (M1 n b2 Hb2) as [_ R2].
      assert (b_epoch b2 = ij_epoch j) as -> by lia. rewrite Z.eqb_refl. apply L2. lia.
    + apply lookup_lt_Some in H2. lia.
    + done.
  - rewrite length_app. cbn. lia.
  - rewrite length_app, Nat.add_1_r. cbn. rewrite list_lookup_middle by done. cbn. by rewrite Z.eqb_refl.
Qed.

Lemma top_other sent k e : (∀ i b, sent !! i = Some b → (i < k)%nat → b_epoch b <> e) → top sent k e = [].
Proof.
  intros H. destruct k as [|k]; [done|]. cbn. destruct (sent !! k) as [b|] eqn:E; [|done].
  specialize (H k b E ltac:(lia)). by replace (b_epoch b =? e) with false by lia.
Qed.

(** Later cuts of an epoch extend earlier ones. *)
Lemma top_prefix j sent n m e :
  made j sent → (n <= m <= length sent)%nat → (∀ i b, sent !! i = Some b → (i < m)%nat → b_epoch b <= e) →
  top sent n e `prefix_of` top sent m e.
Proof.
  intros M Hn He. destruct n as [|n]; [apply prefix_nil|]. destruct m as [|m]; [lia|]. cbn.
  destruct (lookup_lt_is_Some_2 sent n ltac:(lia)) as [b1 H1]. destruct (lookup_lt_is_Some_2 sent m ltac:(lia)) as [b2 H2].
  rewrite H1, H2. destruct (Z.eqb_spec (b_epoch b1) e) as [E1|]; [|apply prefix_nil].
  destruct (md_mono _ _ M n m b1 b2 ltac:(lia) H1 H2) as [L P]. specialize (He m b2 H2 ltac:(lia)).
  replace (b_epoch b2 =? e) with true by lia. apply P. lia.
Qed.

Lemma checkpoint_made j sent j' b :
  made j sent → 0 <= ij_epoch j → checkpoint j = Some (j', b) →
  made j' sent ∧ ij_epoch j' = ij_epoch j + 1 ∧ ij_epoch j' <= u64_max ∧ ij_pending j' = [] ∧ b_epoch b = ij_epoch j ∧
  b_samples b = ij_pending j ∧ b_sequence b = Z.of_nat (length sent) ∧ closes sent (length sent) (b_epoch b) (b_samples b).
Proof.
  intros M He. pose proof M as [M1 M2 M3 M4]. unfold checkpoint, checked_add64.
  destruct (Z.leb_spec (ij_epoch j + 1) u64_max) as [Hu|]; [|done].
  intros [= <- <-]. cbn. split_and!; try done.
  - split; cbn; [|done|done|].
    + intros k b Hb. destruct (M1 k b Hb). split; [done|lia].
    + apply top_other. intros i b Hb _. destruct (M1 i b Hb). lia.
  - split_and!; [done|done| |].
    + intros i b Hb _. destruct (M1 i b Hb). lia.
    + intros i b Hb Hi. apply lookup_lt_Some in Hb. lia.
Qed.

Lemma closes_snoc sent k e s b : closes sent k e s → e < b_epoch b → closes (sent ++ [b]) k e s.
Proof.
  intros (H1 & H2 & H3 & H4) He. split_and!.
  - rewrite length_app. lia.
  - by rewrite top_snoc.
  - intros i x [Hx|[-> ->]]%lookup_snoc_Some Hi; [by apply (H3 i)|lia].
  - intros i x [Hx|[-> ->]]%lookup_snoc_Some Hi; [by apply (H4 i)|done].
Qed.

Lemma append_inv samples w j' b :
  world_inv w → append samples (w_j w) = Some (j', b) →
  world_inv (mk_World j' (w_sent w ++ [b]) (w_tcp w) (w_epochs w) (w_o w) (w_out w)).
Proof.
  intros [M (E1 & E2 & E3 & E4) T (n & O1 & O2 & O3 & O4 & segs & O5 & O6)] Ha.
  pose proof (zlen_nonneg (w_epochs w)). destruct (append_made _ _ _ _ _ M ltac:(lia) Ha) as (M' & Ej & Eb).
  split; cbn [w_j w_sent w_tcp w_epochs w_o w_out]; [done|rewrite Ej; done| |].
  - intros k x Hx. destruct (T k x Hx) as (T1 & T2 & m & T3 & T4). split_and!; [done|done|]. exists m. split; [done|].
    apply closes_snoc; [done|]. apply lookup_lt_Some in Hx. unfold zlen in E4. lia.
  - exists n. split_and!; [done|rewrite length_app; lia| |by rewrite top_snoc|].
    + intros i x [Hx|[-> ->]]%lookup_snoc_Some Hi; [by apply (O3 i)|lia].
    + exists segs. by rewrite top_snoc.
Qed.

Lemma checkpoint_inv w j' b :
  world_inv w → checkpoint (w_j w) = Some (j', b) →
  world_inv (mk_World j' (w_sent w) (w_tcp w ++ [b]) (w_epochs w ++ [ij_pending (w_j w)]) (w_o w) (w_out w)).
Proof.
  intros [M (E1 & E2 & E3 & E4) T (n & O1 & O2 & O3 & O4 & segs & O5 & O6)] Hc.
  pose proof (zlen_nonneg (w_epochs w)). pose proof (zlen_nonneg (w_tcp w)).
  destruct (checkpoint_made _ _ _ _ M ltac:(lia) Hc) as (M' & Ej & Hu & Ep & Eb & Es & Eq & Hcl).
  split; cbn [w_j w_sent w_tcp w_epochs w_o w_out]; [done| | |].
  - unfold zlen in *. rewrite !length_app. cbn [length]. lia.
  - intros k x [Hx|[-> ->]]%lookup_snoc_Some.
    + destruct (T k x Hx) as (T1 & T2 & m & T3 & T4). split_and!; [done|by apply lookup_app_l_Some|eauto].
    + split_and!; [unfold zlen in *; lia| |eauto]. rewrite Es, Eb, E1. unfold zlen. rewrite Nat2Z.id. by apply list_lookup_middle.
  - exists n. split_and!; [done..|]. exists segs. split; [done|]. rewrite take_app_le by (unfold zlen in *; lia). done.
Qed.

Lemma drop_prefix {A} (l k : list A) : l `prefix_of` k → l ++ drop (Z.to_nat (zlen l)) k = k.
Proof. intros [r ->]. by rewrite drop_app_zlen. Qed.

Lemma datagram_inv w b o' out :
  world_inv w → b ∈ w_sent w → accept b false (w_o w) = (o', out) →
  world_inv (mk_World (w_j w) (w_sent w) (w_tcp w) (w_epochs w) o' (w_out w ++ [out])).
Proof.
  intros [M E T (n & O1 & O2 & O3 & O4 & segs & O5 & O6)] [i Hi]%list_elem_of_lookup Ha. unfold accept in Ha.
  assert (∀ o, io_epoch o = io_epoch (w_o w) → (o = w_o w ∧ out = [] → o' = o →
    world_inv (mk_World (w_j w) (w_sent w) (w_tcp w) (w_epochs w) o' (w_out w ++ [out])))) as Hsame.
  { intros o _ [-> ->] ->. split; cbn; [done..|]. exists n. split_and!; [done..|]. exists (segs ++ [[]]).
    rewrite fmap_app, concat_app, O5. cbn. by rewrite app_nil_r. }
  destruct (Z.eqb_spec (b_epoch b) (io_epoch (w_o w))) as [Ee|]; cbn [negb] in Ha; [|injection Ha as <- <-; by eapply Hsame].
  destruct (Z.ltb_spec (io_sequence (w_o w)) (b_sequence b)) as [Hs|]; injection Ha as <- <-; [|by eapply Hsame].
  destruct (md_seq _ _ M i b Hi) as [Hseq _]. assert (top (w_sent w) (S i) (io_epoch (w_o w)) = b_samples b) as Et
    by (cbn; rewrite Hi; by replace (b_epoch b =? io_epoch (w_o w)) with true by lia).
  assert (∀ k x, w_sent w !! k = Some x → (k < S i)%nat → b_epoch x <= io_epoch (w_o w)) as Hle
    by (intros k x Hx Hk; rewrite <- Ee; by apply (md_mono _ _ M k i x b ltac:(lia) Hx Hi)).
  assert (S i <= length (w_sent w))%nat as Hl by (apply lookup_lt_Some in Hi; lia).
  split; cbn [w_j w_sent w_tcp w_epochs w_o w_out io_epoch io_sequence io_applied]; [done..|].
  exists (S i). split_and!; [lia|done|done|by rewrite Et|]. exists (segs ++ [drop (Z.to_nat (io_applied (w_o w))) (b_samples b)]).
  split; [by rewrite fmap_app, O5|]. rewrite concat_app, O6, Et. cbn. rewrite app_nil_r, <- app_assoc, O4. f_equal.
  apply drop_prefix. rewrite <- Et. apply (top_prefix (w_j w)); [done|lia|done].
Qed.

Lemma barrier_inv w b rest o' out :
  world_inv w → w_tcp w = b :: rest → accept b true (w_o w) = (o', out) →
  world_inv (mk_World (w_j w) (w_sent w) rest (w_epochs w) o' (w_out w ++ [out])).
Proof.
  intros [M (E1 & E2 & E3 & E4) T (n & O1 & O2 & O3 & O4 & segs & O5 & O6)] Ht Ha.
  pose proof (T 0%nat b ltac:(by rewrite Ht)) as (T1 & T2 & m & T3 & (C1 & C2 & C3 & C4)).
  rewrite Z.add_0_r in T1. rewrite T1 in *. set (e := io_epoch (w_o w)) in *. rewrite Ht, zlen_cons in E4.
  pose proof (zlen_nonneg rest). unfold accept in Ha. fold e in Ha. rewrite T1, Z.eqb_refl in Ha. cbn [negb] in Ha.
  assert (take (Z.to_nat (e + 1)) (w_epochs w) = take (Z.to_nat e) (w_epochs w) ++ [b_samples b]) as Etake.
  { replace (Z.to_nat (e + 1)) with (S (Z.to_nat e)) by lia. by apply take_S_r. }
  assert (∃ seg, out = coalesce seg ∧ o' = mk_InputOrder (add64 e 1) (Z.of_nat m) 0 ∧
    top (w_sent w) n e ++ seg = b_samples b) as (seg & -> & -> & Hseg).
  { destruct (Z.ltb_spec (io_sequence (w_o w)) (b_sequence b)) as [Hs|Hs]; injection Ha as <- <-; cbn [io_epoch io_sequence].
    - eexists. split; [done|]. rewrite T3. split; [done|]. rewrite O4. apply drop_prefix. rewrite <- C2.
      apply (top_prefix (w_j w)); [done|lia|done].
    - assert (n = m) as ->; [|exists []; fold e; rewrite O1, app_nil_r; done].
      destruct (decide (n = m)) as [|Hne]; [done|]. destruct (lookup_lt_is_Some_2 (w_sent w) m ltac:(lia)) as [x Hx].
      specialize (O3 m x Hx ltac:(lia)). specialize (C4 m x Hx ltac:(lia)). lia. }
  assert (add64 e 1 = e + 1) as Eadd by (apply add64_id; lia).
  assert (top (w_sent w) m (e + 1) = []) as Etop by (apply top_other; intros i x Hx Hi; specialize (C3 i x Hx Hi); lia).
  split; cbn [w_j w_sent w_tcp w_epochs w_o w_out io_epoch io_sequence io_applied]; rewrite ?Eadd; [done|lia| |].
  - intros k x Hx. destruct (T (S k) x) as (X1 & X2 & X3); [by rewrite Ht|]. split_and!; [lia|done|done].
  - exists m. split_and!; [done|done| |by rewrite Etop|].
    + intros i x Hx Hi. specialize (C3 i x Hx Hi). lia.
    + exists (segs ++ [seg]). split; [by rewrite fmap_app, O5|].
      rewrite concat_app, O6, Etake, Etop, concat_app. cbn. rewrite !app_nil_r, <- app_assoc. by rewrite Hseg.
Qed.

Lemma world0_inv : world_inv world0.
Proof.
  assert (∀ (k : nat) (b : InputBatch), [] !! k = Some b → False) as Hn by (intros k b Hb; by rewrite lookup_nil in Hb).
  split; cbn [world0 w_j w_sent w_tcp w_epochs w_o w_out].
  - split; [intros k b Hb; by destruct (Hn k b)|intros k1 k2 b1 b2 _ Hb; by destruct (Hn k1 b1)|done|done].
  - done.
  - intros k b Hb. by destruct (Hn k b).
  - exists 0%nat. split_and!; [done|done|intros i b Hb; by destruct (Hn i b)|done|by exists []].
Qed.

Lemma input_step_inv w w' : world_inv w → world_step w w' → world_inv w'.
Proof.
  intros Hi Hs. destruct Hs; [by eapply append_inv|by apply checkpoint_inv|by eapply datagram_inv|by eapply barrier_inv].
Qed.

(** Pointer motion is applied exactly once and in order.  However datagrams are lost,
    repeated and reordered between client and host, the motion the host applies, call by
    call, is the coalescing of consecutive segments of what the client recorded: all of
    every epoch whose barrier arrived, then a prefix of the current epoch.  No sample is
    applied twice, skipped, or applied ahead of the event that ends an earlier epoch. *)
Theorem input_motion_exact (w : World) :
  rtc world_step world0 w →
  ∃ segs, w_out w = coalesce <$> segs ∧
    concat segs = concat (take (Z.to_nat (io_epoch (w_o w))) (w_epochs w)) ++
      take (Z.to_nat (io_applied (w_o w))) (epoch_samples w (io_epoch (w_o w))).
Proof.
  intros Hr. pose proof (rtc_keeps world_inv world_step _ _ input_step_inv Hr world0_inv) as
    [M (E1 & E2 & E3 & E4) T (n & O1 & O2 & O3 & O4 & segs & O5 & O6)].
  exists segs. split; [done|]. rewrite O6, O4. f_equal. set (e := io_epoch (w_o w)) in *.
  assert (top (w_sent w) n e `prefix_of` epoch_samples w e) as [r ->]; [|by rewrite take_app_zlen].
  unfold epoch_samples. destruct (w_tcp w) as [|b rest] eqn:Et.
  - rewrite zlen_nil in E4. assert (e = ij_epoch (w_j w)) as Ee by lia.
    rewrite lookup_app_r by (unfold zlen in *; lia). replace (_ - _)%nat with 0%nat by (unfold zlen in *; lia). cbn.
    rewrite <- (md_pending _ _ M), <- Ee. apply (top_prefix (w_j w)); [done|lia|].
    intros i x Hx _. destruct (md_seq _ _ M i x Hx). lia.
  - destruct (T 0%nat b) as (T1 & T2 & m & T3 & (C1 & C2 & C3 & C4)); [done|]. fold e in T1. rewrite Z.add_0_r in T1.
    rewrite T1 in *. rewrite (lookup_app_l_Some _ _ _ _ T2). cbn. rewrite <- C2.
    apply (top_prefix (w_j w)); [done| |done]. split; [|done].
    destruct (decide (n <= m)%nat) as [|Hnm]; [done|]. destruct (lookup_lt_is_Some_2 (w_sent w) m ltac:(lia)) as [x Hx].
    specialize (O3 m x Hx ltac:(lia)). specialize (C4 m x Hx ltac:(lia)). lia.
Qed.

(** ** Witnesses *)

Definition demo_move (dx : Z) : InputEvent := mk_InputEvent RelativeMove 0 0 0 0 dx 0.
Definition demo_key : InputEvent := mk_InputEvent KeyDown 0 0 4 0 0 0.
Definition demo_events : list InputEvent := [demo_move 0x40000000; demo_move 0x40400000; demo_key].

Lemma send_inputs_complete_witness :
  ∃ j' out res, send_inputs (λ _, true) true false (λ _, true) demo_events journal_default = (j', out, Some res) ∧
    tcp_content out ++ ij_pending j' = demo_events.
Proof.
  destruct (send_inputs_complete (λ _, true) true false (λ _, true) demo_events journal_default) as (j' & out & res & E & _ & _ & _ & Hs & Hc);
    [reflexivity|by vm_compute|by left|by vm_compute..|].
  exists j', out, res. split; [exact E|]. exact (Hc (Hs (λ _, eq_refl))).
Defined.

(** Two motions are recorded, the first datagram is lost, the second arrives, and the
    barrier closes the epoch. *)
Definition demo_b1 : InputBatch := mk_InputBatch 0 1 [demo_move 0x40000000].
Definition demo_b2 : InputBatch := mk_InputBatch 0 2 [demo_move 0x40000000; demo_move 0x40400000].
Definition demo_world : World :=
  mk_World (mk_InputJournal 1 2 []) [demo_b1; demo_b2] [] [b_samples demo_b2] (mk_InputOrder 1 2 0)
    [[demo_move 0x40a00000]; []].

Lemma demo_world_reached : rtc world_step world0 demo_world.
Proof.
  eapply rtc_l; [apply (step_append [demo_move 0x40000000]); reflexivity|].
  eapply rtc_l; [apply (step_append [demo_move 0x40400000]); reflexivity|].
  eapply rtc_l; [apply (step_datagram _ demo_b2); [by right; left|reflexivity]|].
  eapply rtc_l; [apply step_checkpoint; reflexivity|].
  eapply rtc_l; [eapply step_barrier; reflexivity|]. constructor.
Qed.

Lemma input_motion_exact_witness :
  ∃ segs, w_out demo_world = coalesce <$> segs ∧ concat segs = [demo_move 0x40000000; demo_move 0x40400000].
Proof. exact (input_motion_exact demo_world demo_world_reached). Defined.
