(* ===== verification/RdControl.v ===== *)
(** * RdControl (crates/ferryx-rd/ferryx-rd-proto/src: control.rs, parity.rs)

    The control messages of a remote desktop session: stream configuration, clipboard,
    displays, policy, guests, trust, probes; their codecs, the capability each needs, and
    the tagged union that goes on the wire. *)

From S2P Require Import Prelude Wire RdCodec RdPacket RdMedia.
From Stdlib Require Import ZArith Lia Strings.Byte.
From stdpp Require Import base option strings list.

#[local] Open Scope Z_scope.

Definition MAX_CLIPBOARD_TEXT_BYTES : Z := 4096.
Definition MAX_HOST_DISPLAYS : Z := 16.
Definition MAX_HOST_DISPLAY_NAME_BYTES : Z := 64.
Definition MAX_ACTIVE_GUESTS : Z := 64.
Definition MAX_GUEST_NAME_BYTES : Z := 1024.
Definition MAX_CLIPBOARD_IMAGE_BYTES : Z := 8 * 1024 * 1024.
Definition MAX_CLIPBOARD_IMAGE_CHUNK_BYTES : Z := 64 * 1024.
Definition PNG_SIGNATURE : list byte := [x89; x50; x4e; x47; x0d; x0a; x1a; x0a].
#[export] Hint Unfold MAX_CLIPBOARD_TEXT_BYTES MAX_HOST_DISPLAYS MAX_HOST_DISPLAY_NAME_BYTES MAX_ACTIVE_GUESTS
  MAX_GUEST_NAME_BYTES MAX_CLIPBOARD_IMAGE_BYTES MAX_CLIPBOARD_IMAGE_CHUNK_BYTES : rd_const.

(** ** Message types and capabilities *)

Inductive ControlMessageType : Type :=
| CtRequestKeyFrame
| CtStartStream
| CtStopStream
| CtDisconnect
| CtPing
| CtPong
| CtBitrateAdjust
| CtStreamConfigRequest
| CtStreamConfigResponse
| CtStreamConfigReject
| CtStreamConfigError
| CtClipboardSyncRequest
| CtClipboardSyncUpdate
| CtClipboardSyncError
| CtInputAck
| CtStreamOptionsRequest
| CtStreamOptionsActive
| CtHostDisplayList
| CtHostPolicy
| CtSecureAttentionRequest
| CtSecureAttentionResponse
| CtHostStatus
| CtSessionEnded
| CtGuestPermissions
| CtPairingTrustRequest
| CtPairingTrustGrant
| CtClipboardImageChunk
| CtRttPing
| CtRttPong
| CtCursorShape
| CtClockPing
| CtClockPong.
Definition ControlMessageType_to_u8 (x : ControlMessageType) : Z :=
  match x with
  | CtRequestKeyFrame => 0
  | CtStartStream => 1
  | CtStopStream => 2
  | CtDisconnect => 3
  | CtPing => 4
  | CtPong => 5
  | CtBitrateAdjust => 6
  | CtStreamConfigRequest => 7
  | CtStreamConfigResponse => 8
  | CtStreamConfigReject => 9
  | CtStreamConfigError => 10
  | CtClipboardSyncRequest => 11
  | CtClipboardSyncUpdate => 12
  | CtClipboardSyncError => 13
  | CtInputAck => 14
  | CtStreamOptionsRequest => 15
  | CtStreamOptionsActive => 16
  | CtHostDisplayList => 17
  | CtHostPolicy => 18
  | CtSecureAttentionRequest => 19
  | CtSecureAttentionResponse => 20
  | CtHostStatus => 21
  | CtSessionEnded => 22
  | CtGuestPermissions => 23
  | CtPairingTrustRequest => 24
  | CtPairingTrustGrant => 25
  | CtClipboardImageChunk => 26
  | CtRttPing => 27
  | CtRttPong => 28
  | CtCursorShape => 29
  | CtClockPing => 30
  | CtClockPong => 31
  end.
Definition ControlMessageType_tags : list (Z * ControlMessageType) :=
  [(0, CtRequestKeyFrame);
   (1, CtStartStream);
   (2, CtStopStream);
   (3, CtDisconnect);
   (4, CtPing);
   (5, CtPong);
   (6, CtBitrateAdjust);
   (7, CtStreamConfigRequest);
   (8, CtStreamConfigResponse);
   (9, CtStreamConfigReject);
   (10, CtStreamConfigError);
   (11, CtClipboardSyncRequest);
   (12, CtClipboardSyncUpdate);
   (13, CtClipboardSyncError);
   (14, CtInputAck);
   (15, CtStreamOptionsRequest);
   (16, CtStreamOptionsActive);
   (17, CtHostDisplayList);
   (18, CtHostPolicy);
   (19, CtSecureAttentionRequest);
   (20, CtSecureAttentionResponse);
   (21, CtHostStatus);
   (22, CtSessionEnded);
   (23, CtGuestPermissions);
   (24, CtPairingTrustRequest);
   (25, CtPairingTrustGrant);
   (26, CtClipboardImageChunk);
   (27, CtRttPing);
   (28, CtRttPong);
   (29, CtCursorShape);
   (30, CtClockPing);
   (31, CtClockPong)].
Definition ControlMessageType_try_from (value : Z) : Res ControlMessageType := lookup_tag ControlMessageType_tags (UnknownControlMessageType) value.
#[global] Instance ControlMessageType_eq_dec : EqDecision ControlMessageType.
Proof. solve_decision. Defined.
#[export] Instance ControlMessageType_enum : WireEnum ControlMessageType := {| to_u8 := ControlMessageType_to_u8; try_from := ControlMessageType_try_from |}.
#[export] Instance ControlMessageType_laws : EnumLaws ControlMessageType.
Proof. solve_enum ControlMessageType_tags ControlMessageType_try_from. Qed.

Definition required_capability (t : ControlMessageType) : option Z :=
  match t with
  | CtSecureAttentionRequest | CtSecureAttentionResponse => Some SECURE_ATTENTION
  | CtHostStatus => Some HOST_STATUS
  | CtSessionEnded => Some SESSION_ENDED
  | CtGuestPermissions => Some GUEST_PERMISSIONS
  | CtPairingTrustRequest | CtPairingTrustGrant => Some PAIRING_TRUST
  | CtClipboardImageChunk => Some CLIPBOARD_IMAGE
  | CtCursorShape => Some CURSOR_SHAPE
  | CtClockPing | CtClockPong => Some CLOCK_CORRELATION
  | CtRttPing | CtRttPong => Some RTT_PROBE
  | _ => None
  end.
Definition supported_by (t : ControlMessageType) (local peer : Z) : bool :=
  match required_capability t with
  | Some required => cap_contains local required && cap_contains peer required
  | None => true
  end.

(** ** Stream control (control.rs) *)

Record BitrateAdjust := mk_BitrateAdjust {
  ba_target_bitrate : Z;
}.
#[export] Instance BitrateAdjust_holds : Holds BitrateAdjust := λ x, is_i32 (ba_target_bitrate x).
Definition BitrateAdjust_encode (x : BitrateAdjust) : Res (list byte) :=
  Ok (push_i32 (ba_target_bitrate x)).
Definition BitrateAdjust_decode : list byte → Res BitrateAdjust := run (
  target_bitrate ← d_i32 "target bitrate";
  d_finish "bitrate adjustment";;
  mret (mk_BitrateAdjust target_bitrate)).
#[export] Instance BitrateAdjust_wire : WireCodec BitrateAdjust := {| encode := BitrateAdjust_encode; decode := BitrateAdjust_decode |}.

Record InputAckMessage := mk_InputAckMessage {
  ia_sequence : Z;
  ia_success : bool;
  ia_error_code : Z;
}.
#[export] Instance InputAckMessage_holds : Holds InputAckMessage := λ x, is_u32 (ia_sequence x) && is_u8 (ia_error_code x).
Definition InputAckMessage_encode (x : InputAckMessage) : Res (list byte) :=
  Ok (push_u32 (ia_sequence x) ++ push_bool (ia_success x) ++ push_u8 (ia_error_code x)).
Definition InputAckMessage_decode : list byte → Res InputAckMessage := run (
  sequence ← d_u32 "input ack sequence";
  v ← d_u8 "input ack success"; let success := negb (v =? 0) in
  error_code ← d_u8 "input ack error code";
  d_finish "input ack message";;
  mret (mk_InputAckMessage sequence success error_code)).
#[export] Instance InputAckMessage_wire : WireCodec InputAckMessage := {| encode := InputAckMessage_encode; decode := InputAckMessage_decode |}.

Record StreamConfiguration := mk_StreamConfiguration {
  sc_width : Z;
  sc_height : Z;
  sc_bitrate : Z;
  sc_frames_per_second : Z;
}.
#[export] Instance StreamConfiguration_holds : Holds StreamConfiguration := λ x,
  is_u32 (sc_width x) && is_u32 (sc_height x) && is_u32 (sc_bitrate x) && is_u16 (sc_frames_per_second x).
Definition StreamConfiguration_encode_into (x : StreamConfiguration) : list byte :=
  push_u32 (sc_width x) ++ push_u32 (sc_height x) ++ push_u32 (sc_bitrate x) ++ push_u16 (sc_frames_per_second x).
Definition StreamConfiguration_decode_from : Dec StreamConfiguration :=
  width ← d_u32 "stream width";
  height ← d_u32 "stream height";
  bitrate ← d_u32 "stream bitrate";
  frames_per_second ← d_u16 "stream frames per second";
  mret (mk_StreamConfiguration width height bitrate frames_per_second).
#[export] Hint Unfold StreamConfiguration_encode_into StreamConfiguration_decode_from : rd_body.
#[export] Hint Unfold StreamConfiguration_holds : rd_holds.
Definition StreamConfiguration_encode (x : StreamConfiguration) : Res (list byte) := Ok (StreamConfiguration_encode_into x).
Definition StreamConfiguration_decode : list byte → Res StreamConfiguration := run (
  value ← StreamConfiguration_decode_from; d_finish "stream configuration";; mret value).
#[export] Instance StreamConfiguration_wire : WireCodec StreamConfiguration :=
  {| encode := StreamConfiguration_encode; decode := StreamConfiguration_decode |}.

Record StreamConfigurationRequest := mk_StreamConfigurationRequest {
  sq_request_id : Z;
  sq_desired : StreamConfiguration;
}.
#[export] Instance StreamConfigurationRequest_holds : Holds StreamConfigurationRequest := λ x,
  is_u32 (sq_request_id x) && StreamConfiguration_holds (sq_desired x).
Definition StreamConfigurationRequest_encode (x : StreamConfigurationRequest) : Res (list byte) :=
  Ok (push_u32 (sq_request_id x) ++ StreamConfiguration_encode_into (sq_desired x)).
Definition StreamConfigurationRequest_decode : list byte → Res StreamConfigurationRequest := run (
  request_id ← d_u32 "stream request ID";
  desired ← StreamConfiguration_decode_from;
  d_finish "stream configuration request";;
  mret (mk_StreamConfigurationRequest request_id desired)).
#[export] Instance StreamConfigurationRequest_wire : WireCodec StreamConfigurationRequest :=
  {| encode := StreamConfigurationRequest_encode; decode := StreamConfigurationRequest_decode |}.

Record StreamConfigurationResponse := mk_StreamConfigurationResponse {
  sr_request_id : Z;
  sr_active : StreamConfiguration;
}.
#[export] Instance StreamConfigurationResponse_holds : Holds StreamConfigurationResponse := λ x,
  is_u32 (sr_request_id x) && StreamConfiguration_holds (sr_active x).
Definition StreamConfigurationResponse_encode (x : StreamConfigurationResponse) : Res (list byte) :=
  Ok (push_u32 (sr_request_id x) ++ StreamConfiguration_encode_into (sr_active x)).
Definition StreamConfigurationResponse_decode : list byte → Res StreamConfigurationResponse := run (
  request_id ← d_u32 "stream response ID";
  active ← StreamConfiguration_decode_from;
  d_finish "stream configuration response";;
  mret (mk_StreamConfigurationResponse request_id active)).
#[export] Instance StreamConfigurationResponse_wire : WireCodec StreamConfigurationResponse :=
  {| encode := StreamConfigurationResponse_encode; decode := StreamConfigurationResponse_decode |}.

Inductive StreamConfigurationErrorCode : Type :=
| InvalidRequest
| UnsupportedDimensions
| UnsupportedBitrate
| UnsupportedFps
| RejectedByPeer.
Definition StreamConfigurationErrorCode_to_u8 (x : StreamConfigurationErrorCode) : Z :=
  match x with
  | InvalidRequest => 0
  | UnsupportedDimensions => 1
  | UnsupportedBitrate => 2
  | UnsupportedFps => 3
  | RejectedByPeer => 4
  end.
Definition StreamConfigurationErrorCode_tags : list (Z * StreamConfigurationErrorCode) :=
  [(0, InvalidRequest);
   (1, UnsupportedDimensions);
   (2, UnsupportedBitrate);
   (3, UnsupportedFps);
   (4, RejectedByPeer)].
Definition StreamConfigurationErrorCode_try_from (value : Z) : Res StreamConfigurationErrorCode := lookup_tag StreamConfigurationErrorCode_tags (UnknownStreamConfigurationErrorCode) value.
#[global] Instance StreamConfigurationErrorCode_eq_dec : EqDecision StreamConfigurationErrorCode.
Proof. solve_decision. Defined.
#[export] Instance StreamConfigurationErrorCode_enum : WireEnum StreamConfigurationErrorCode := {| to_u8 := StreamConfigurationErrorCode_to_u8; try_from := StreamConfigurationErrorCode_try_from |}.
#[export] Instance StreamConfigurationErrorCode_laws : EnumLaws StreamConfigurationErrorCode.
Proof. solve_enum StreamConfigurationErrorCode_tags StreamConfigurationErrorCode_try_from. Qed.

Definition encode_stream_problem (request_id : Z) (code : StreamConfigurationErrorCode) (message : list byte) : Res (list byte) :=
  message ← checked_bytes message "stream configuration message" u16_max;
  n ← usize_to_u16 (zlen message) "stream configuration message";
  Ok (push_u32 request_id ++ push_u8 (to_u8 code) ++ push_u16 n ++ message).
Definition decode_stream_problem (field : string) : Dec (Z * StreamConfigurationErrorCode * list byte) :=
  request_id ← d_u32 "stream problem request ID";
  v ← d_u8 "stream problem code"; code ← d_lift (try_from v);
  message_length ← d_u16 "stream problem message length";
  message ← d_utf8 message_length "stream configuration message";
  d_finish field;;
  mret (request_id, code, message).
#[export] Hint Unfold encode_stream_problem decode_stream_problem : rd_body.

Record StreamConfigurationReject := mk_StreamConfigurationReject {
  sj_request_id : Z;
  sj_reason : StreamConfigurationErrorCode;
  sj_message : list byte;
}.
#[export] Instance StreamConfigurationReject_holds : Holds StreamConfigurationReject := λ x, is_u32 (sj_request_id x) && utf8_valid (sj_message x).
Definition StreamConfigurationReject_encode (x : StreamConfigurationReject) : Res (list byte) :=
  encode_stream_problem (sj_request_id x) (sj_reason x) (sj_message x).
Definition StreamConfigurationReject_decode : list byte → Res StreamConfigurationReject := run (
  p ← decode_stream_problem "stream configuration reject"; mret (mk_StreamConfigurationReject p.1.1 p.1.2 p.2)).
#[export] Instance StreamConfigurationReject_wire : WireCodec StreamConfigurationReject :=
  {| encode := StreamConfigurationReject_encode; decode := StreamConfigurationReject_decode |}.

Record StreamConfigurationError := mk_StreamConfigurationError {
  se_request_id : Z;
  se_error_code : StreamConfigurationErrorCode;
  se_message : list byte;
}.
#[export] Instance StreamConfigurationError_holds : Holds StreamConfigurationError := λ x, is_u32 (se_request_id x) && utf8_valid (se_message x).
Definition StreamConfigurationError_encode (x : StreamConfigurationError) : Res (list byte) :=
  encode_stream_problem (se_request_id x) (se_error_code x) (se_message x).
Definition StreamConfigurationError_decode : list byte → Res StreamConfigurationError := run (
  p ← decode_stream_problem "stream configuration error"; mret (mk_StreamConfigurationError p.1.1 p.1.2 p.2)).
#[export] Instance StreamConfigurationError_wire : WireCodec StreamConfigurationError :=
  {| encode := StreamConfigurationError_encode; decode := StreamConfigurationError_decode |}.

(** ** Clipboard *)

Inductive ClipboardSyncDirection : Type :=
| HostToClient
| ClientToHost
| Bidirectional.
Definition ClipboardSyncDirection_to_u8 (x : ClipboardSyncDirection) : Z :=
  match x with
  | HostToClient => 0
  | ClientToHost => 1
  | Bidirectional => 2
  end.
Definition ClipboardSyncDirection_tags : list (Z * ClipboardSyncDirection) :=
  [(0, HostToClient);
   (1, ClientToHost);
   (2, Bidirectional)].
Definition ClipboardSyncDirection_try_from (value : Z) : Res ClipboardSyncDirection := lookup_tag ClipboardSyncDirection_tags (UnknownClipboardDirection) value.
#[global] Instance ClipboardSyncDirection_eq_dec : EqDecision ClipboardSyncDirection.
Proof. solve_decision. Defined.
#[export] Instance ClipboardSyncDirection_enum : WireEnum ClipboardSyncDirection := {| to_u8 := ClipboardSyncDirection_to_u8; try_from := ClipboardSyncDirection_try_from |}.
#[export] Instance ClipboardSyncDirection_laws : EnumLaws ClipboardSyncDirection.
Proof. solve_enum ClipboardSyncDirection_tags ClipboardSyncDirection_try_from. Qed.
Inductive ClipboardSyncOrigin : Type :=
| LocalPasteboard
| RemotePasteboard
| SyncedFromPeer.
Definition ClipboardSyncOrigin_to_u8 (x : ClipboardSyncOrigin) : Z :=
  match x with
  | LocalPasteboard => 0
  | RemotePasteboard => 1
  | SyncedFromPeer => 2
  end.
Definition ClipboardSyncOrigin_tags : list (Z * ClipboardSyncOrigin) :=
  [(0, LocalPasteboard);
   (1, RemotePasteboard);
   (2, SyncedFromPeer)].
Definition ClipboardSyncOrigin_try_from (value : Z) : Res ClipboardSyncOrigin := lookup_tag ClipboardSyncOrigin_tags (UnknownClipboardOrigin) value.
#[global] Instance ClipboardSyncOrigin_eq_dec : EqDecision ClipboardSyncOrigin.
Proof. solve_decision. Defined.
#[export] Instance ClipboardSyncOrigin_enum : WireEnum ClipboardSyncOrigin := {| to_u8 := ClipboardSyncOrigin_to_u8; try_from := ClipboardSyncOrigin_try_from |}.
#[export] Instance ClipboardSyncOrigin_laws : EnumLaws ClipboardSyncOrigin.
Proof. solve_enum ClipboardSyncOrigin_tags ClipboardSyncOrigin_try_from. Qed.

Record ClipboardSyncRequest := mk_ClipboardSyncRequest {
  cr_request_id : Z;
  cr_direction : ClipboardSyncDirection;
  cr_origin : ClipboardSyncOrigin;
}.
#[export] Instance ClipboardSyncRequest_holds : Holds ClipboardSyncRequest := λ x, is_u32 (cr_request_id x).
Definition ClipboardSyncRequest_encode (x : ClipboardSyncRequest) : Res (list byte) :=
  Ok (push_u32 (cr_request_id x) ++ push_u8 (to_u8 (cr_direction x)) ++ push_u8 (to_u8 (cr_origin x))).
Definition ClipboardSyncRequest_decode : list byte → Res ClipboardSyncRequest := run (
  request_id ← d_u32 "clipboard request ID";
  v ← d_u8 "clipboard direction"; direction ← d_lift (try_from v);
  v ← d_u8 "clipboard origin"; origin ← d_lift (try_from v);
  d_finish "clipboard sync request";;
  mret (mk_ClipboardSyncRequest request_id direction origin)).
#[export] Instance ClipboardSyncRequest_wire : WireCodec ClipboardSyncRequest := {| encode := ClipboardSyncRequest_encode; decode := ClipboardSyncRequest_decode |}.

Record ClipboardSyncUpdate := mk_ClipboardSyncUpdate {
  cp_request_id : Z;
  cp_direction : ClipboardSyncDirection;
  cp_origin : ClipboardSyncOrigin;
  cp_text : list byte;
}.
#[export] Instance ClipboardSyncUpdate_holds : Holds ClipboardSyncUpdate := λ x, is_u32 (cp_request_id x) && utf8_valid (cp_text x).
Definition ClipboardSyncUpdate_encode (x : ClipboardSyncUpdate) : Res (list byte) :=
  text ← checked_bytes (cp_text x) "clipboard text" MAX_CLIPBOARD_TEXT_BYTES;
  n ← usize_to_u16 (zlen text) "clipboard text";
  Ok (push_u32 (cp_request_id x) ++ push_u8 (to_u8 (cp_direction x)) ++ push_u8 (to_u8 (cp_origin x)) ++ push_u16 n ++ text).
Definition ClipboardSyncUpdate_decode : list byte → Res ClipboardSyncUpdate := run (
  request_id ← d_u32 "clipboard update ID";
  v ← d_u8 "clipboard direction"; direction ← d_lift (try_from v);
  v ← d_u8 "clipboard origin"; origin ← d_lift (try_from v);
  text_length ← d_u16 "clipboard text length";
  if MAX_CLIPBOARD_TEXT_BYTES <? text_length
  then d_fail (LengthLimit "clipboard text" text_length MAX_CLIPBOARD_TEXT_BYTES) else
  text ← d_utf8 text_length "clipboard text";
  d_finish "clipboard sync update";;
  mret (mk_ClipboardSyncUpdate request_id direction origin text)).
#[export] Instance ClipboardSyncUpdate_wire : WireCodec ClipboardSyncUpdate :=
  {| encode := ClipboardSyncUpdate_encode; decode := ClipboardSyncUpdate_decode |}.

Record ClipboardSyncError := mk_ClipboardSyncError {
  ce_request_id : Z;
  ce_direction : ClipboardSyncDirection;
  ce_origin : ClipboardSyncOrigin;
  ce_error_code : Z;
  ce_message : list byte;
}.
#[export] Instance ClipboardSyncError_holds : Holds ClipboardSyncError := λ x,
  is_u32 (ce_request_id x) && is_u8 (ce_error_code x) && utf8_valid (ce_message x).
Definition ClipboardSyncError_encode (x : ClipboardSyncError) : Res (list byte) :=
  message ← checked_bytes (ce_message x) "clipboard error message" u16_max;
  n ← usize_to_u16 (zlen message) "clipboard error message";
  Ok (push_u32 (ce_request_id x) ++ push_u8 (to_u8 (ce_direction x)) ++ push_u8 (to_u8 (ce_origin x)) ++
      push_u8 (ce_error_code x) ++ push_u16 n ++ message).
Definition ClipboardSyncError_decode : list byte → Res ClipboardSyncError := run (
  request_id ← d_u32 "clipboard error ID";
  v ← d_u8 "clipboard direction"; direction ← d_lift (try_from v);
  v ← d_u8 "clipboard origin"; origin ← d_lift (try_from v);
  error_code ← d_u8 "clipboard error code";
  message_length ← d_u16 "clipboard error message length";
  message ← d_utf8 message_length "clipboard error message";
  d_finish "clipboard sync error";;
  mret (mk_ClipboardSyncError request_id direction origin error_code message)).
#[export] Instance ClipboardSyncError_wire : WireCodec ClipboardSyncError :=
  {| encode := ClipboardSyncError_encode; decode := ClipboardSyncError_decode |}.

(** ** Stream options, displays, policy *)

Inductive StreamCodecPreference : Type :=
| Auto
| H264
| Hevc.
Definition StreamCodecPreference_to_u8 (x : StreamCodecPreference) : Z :=
  match x with
  | Auto => 0
  | H264 => 1
  | Hevc => 2
  end.
Definition StreamCodecPreference_tags : list (Z * StreamCodecPreference) :=
  [(0, Auto);
   (1, H264);
   (2, Hevc)].
Definition StreamCodecPreference_try_from (value : Z) : Res StreamCodecPreference := lookup_tag StreamCodecPreference_tags (InvalidValue "stream codec") value.
#[global] Instance StreamCodecPreference_eq_dec : EqDecision StreamCodecPreference.
Proof. solve_decision. Defined.
#[export] Instance StreamCodecPreference_enum : WireEnum StreamCodecPreference := {| to_u8 := StreamCodecPreference_to_u8; try_from := StreamCodecPreference_try_from |}.
#[export] Instance StreamCodecPreference_laws : EnumLaws StreamCodecPreference.
Proof. solve_enum StreamCodecPreference_tags StreamCodecPreference_try_from. Qed.

Record StreamOptionsRequest := mk_StreamOptionsRequest {
  or_request_id : Z;
  or_scale_permille : Z;
  or_fps : Z;
  or_codec : StreamCodecPreference;
  or_display_index : Z;
  or_bitrate : Z;
}.
#[export] Instance StreamOptionsRequest_holds : Holds StreamOptionsRequest := λ x, is_u32 (or_request_id x) && is_u16 (or_scale_permille x) && is_u16 (or_fps x) && is_u8 (or_display_index x) && is_u32 (or_bitrate x).
Definition StreamOptionsRequest_encode (x : StreamOptionsRequest) : Res (list byte) :=
  Ok (push_u32 (or_request_id x) ++ push_u16 (or_scale_permille x) ++ push_u16 (or_fps x) ++ push_u8 (to_u8 (or_codec x)) ++
      push_u8 (or_display_index x) ++ push_u32 (or_bitrate x)).
Definition StreamOptionsRequest_decode : list byte → Res StreamOptionsRequest := run (
  request_id ← d_u32 "stream options request id";
  scale_permille ← d_u16 "stream options scale permille";
  fps ← d_u16 "stream options fps";
  v ← d_u8 "stream codec"; codec ← d_lift (try_from v);
  display_index ← d_u8 "stream options display index";
  bitrate ← d_u32 "stream options bitrate";
  d_finish "stream options request";;
  mret (mk_StreamOptionsRequest request_id scale_permille fps codec display_index bitrate)).
#[export] Instance StreamOptionsRequest_wire : WireCodec StreamOptionsRequest := {| encode := StreamOptionsRequest_encode; decode := StreamOptionsRequest_decode |}.

Record StreamOptionsActive := mk_StreamOptionsActive {
  oa_request_id : Z;
  oa_width : Z;
  oa_height : Z;
  oa_fps : Z;
  oa_codec : StreamCodecPreference;
  oa_display_index : Z;
  oa_bitrate : Z;
}.
#[export] Instance StreamOptionsActive_holds : Holds StreamOptionsActive := λ x, is_u32 (oa_request_id x) && is_u32 (oa_width x) && is_u32 (oa_height x) && is_u16 (oa_fps x) && is_u8 (oa_display_index x) && is_u32 (oa_bitrate x).
Definition StreamOptionsActive_encode (x : StreamOptionsActive) : Res (list byte) :=
  Ok (push_u32 (oa_request_id x) ++ push_u32 (oa_width x) ++ push_u32 (oa_height x) ++ push_u16 (oa_fps x) ++
      push_u8 (to_u8 (oa_codec x)) ++ push_u8 (oa_display_index x) ++ push_u32 (oa_bitrate x)).
Definition StreamOptionsActive_decode : list byte → Res StreamOptionsActive := run (
  request_id ← d_u32 "stream options active request id";
  width ← d_u32 "stream options active width";
  height ← d_u32 "stream options active height";
  fps ← d_u16 "stream options active fps";
  v ← d_u8 "stream codec"; codec ← d_lift (try_from v);
  display_index ← d_u8 "stream options active display index";
  bitrate ← d_u32 "stream options active bitrate";
  d_finish "stream options active";;
  mret (mk_StreamOptionsActive request_id width height fps codec display_index bitrate)).
#[export] Instance StreamOptionsActive_wire : WireCodec StreamOptionsActive := {| encode := StreamOptionsActive_encode; decode := StreamOptionsActive_decode |}.

Record HostPolicy := mk_HostPolicy {
  hp_allow_input : bool;
  hp_allow_clipboard : bool;
}.
#[export] Instance HostPolicy_holds : Holds HostPolicy := λ _, true.
Definition HostPolicy_encode (x : HostPolicy) : Res (list byte) :=
  Ok (push_bool (hp_allow_input x) ++ push_bool (hp_allow_clipboard x)).
Definition HostPolicy_decode : list byte → Res HostPolicy := run (
  allow_input ← decode_bool "host policy allow_input";
  allow_clipboard ← decode_bool "host policy allow_clipboard";
  d_finish "host policy";;
  mret (mk_HostPolicy allow_input allow_clipboard)).
#[export] Instance HostPolicy_wire : WireCodec HostPolicy := {| encode := HostPolicy_encode; decode := HostPolicy_decode |}.

(** ** Extensions (parity.rs) *)

Record SecureAttentionRequest := mk_SecureAttentionRequest {
  aq_request_id : Z;
}.
#[export] Instance SecureAttentionRequest_holds : Holds SecureAttentionRequest := λ x, is_u32 (aq_request_id x).
Definition SecureAttentionRequest_encode (x : SecureAttentionRequest) : Res (list byte) :=
  Ok (push_u32 (aq_request_id x)).
Definition SecureAttentionRequest_decode : list byte → Res SecureAttentionRequest := run (
  request_id ← d_u32 "secure attention request ID";
  d_finish "secure attention request";;
  mret (mk_SecureAttentionRequest request_id)).
#[export] Instance SecureAttentionRequest_wire : WireCodec SecureAttentionRequest := {| encode := SecureAttentionRequest_encode; decode := SecureAttentionRequest_decode |}.

Inductive SecureAttentionResult : Type :=
| SaAccepted
| SaPermissionDenied
| SaUnsupported
| SaFailed.
Definition SecureAttentionResult_to_u8 (x : SecureAttentionResult) : Z :=
  match x with
  | SaAccepted => 0
  | SaPermissionDenied => 1
  | SaUnsupported => 2
  | SaFailed => 3
  end.
Definition SecureAttentionResult_tags : list (Z * SecureAttentionResult) :=
  [(0, SaAccepted);
   (1, SaPermissionDenied);
   (2, SaUnsupported);
   (3, SaFailed)].
Definition SecureAttentionResult_try_from (value : Z) : Res SecureAttentionResult := lookup_tag SecureAttentionResult_tags (InvalidValue "secure attention result") value.
#[global] Instance SecureAttentionResult_eq_dec : EqDecision SecureAttentionResult.
Proof. solve_decision. Defined.
#[export] Instance SecureAttentionResult_enum : WireEnum SecureAttentionResult := {| to_u8 := SecureAttentionResult_to_u8; try_from := SecureAttentionResult_try_from |}.
#[export] Instance SecureAttentionResult_laws : EnumLaws SecureAttentionResult.
Proof. solve_enum SecureAttentionResult_tags SecureAttentionResult_try_from. Qed.

Record SecureAttentionResponse := mk_SecureAttentionResponse {
  ar_request_id : Z;
  ar_result : SecureAttentionResult;
}.
#[export] Instance SecureAttentionResponse_holds : Holds SecureAttentionResponse := λ x, is_u32 (ar_request_id x).
Definition SecureAttentionResponse_encode (x : SecureAttentionResponse) : Res (list byte) :=
  Ok (push_u32 (ar_request_id x) ++ push_u8 (to_u8 (ar_result x))).
Definition SecureAttentionResponse_decode : list byte → Res SecureAttentionResponse := run (
  request_id ← d_u32 "secure attention request ID";
  v ← d_u8 "secure attention result"; result ← d_lift (try_from v);
  d_finish "secure attention response";;
  mret (mk_SecureAttentionResponse request_id result)).
#[export] Instance SecureAttentionResponse_wire : WireCodec SecureAttentionResponse := {| encode := SecureAttentionResponse_encode; decode := SecureAttentionResponse_decode |}.

Inductive SessionEndReason : Type :=
| Kicked
| HostStopped
| PermissionRevoked
| GuestExpired
| HostShutdown.
Definition SessionEndReason_to_u8 (x : SessionEndReason) : Z :=
  match x with
  | Kicked => 0
  | HostStopped => 1
  | PermissionRevoked => 2
  | GuestExpired => 3
  | HostShutdown => 4
  end.
Definition SessionEndReason_tags : list (Z * SessionEndReason) :=
  [(0, Kicked);
   (1, HostStopped);
   (2, PermissionRevoked);
   (3, GuestExpired);
   (4, HostShutdown)].
Definition SessionEndReason_try_from (value : Z) : Res SessionEndReason := lookup_tag SessionEndReason_tags (InvalidValue "session end reason") value.
#[global] Instance SessionEndReason_eq_dec : EqDecision SessionEndReason.
Proof. solve_decision. Defined.
#[export] Instance SessionEndReason_enum : WireEnum SessionEndReason := {| to_u8 := SessionEndReason_to_u8; try_from := SessionEndReason_try_from |}.
#[export] Instance SessionEndReason_laws : EnumLaws SessionEndReason.
Proof. solve_enum SessionEndReason_tags SessionEndReason_try_from. Qed.

Record SessionEnded := mk_SessionEnded {
  en_reason : SessionEndReason;
}.
#[export] Instance SessionEnded_holds : Holds SessionEnded := λ _, true.
Definition SessionEnded_encode (x : SessionEnded) : Res (list byte) :=
  Ok (push_u8 (to_u8 (en_reason x))).
Definition SessionEnded_decode : list byte → Res SessionEnded := run (
  v ← d_u8 "session end reason"; reason ← d_lift (try_from v);
  d_finish "session ended";;
  mret (mk_SessionEnded reason)).
#[export] Instance SessionEnded_wire : WireCodec SessionEnded := {| encode := SessionEnded_encode; decode := SessionEnded_decode |}.

Record GuestPermissions := mk_GuestPermissions {
  gp_keyboard : bool;
  gp_mouse : bool;
  gp_gamepad : bool;
  gp_clipboard : bool;
  gp_audio : bool;
}.
#[export] Instance GuestPermissions_holds : Holds GuestPermissions := λ _, true.
Definition GuestPermissions_encode (x : GuestPermissions) : Res (list byte) :=
  Ok (push_bool (gp_keyboard x) ++ push_bool (gp_mouse x) ++ push_bool (gp_gamepad x) ++ push_bool (gp_clipboard x) ++
      push_bool (gp_audio x)).
Definition GuestPermissions_decode : list byte → Res GuestPermissions := run (
  keyboard ← decode_bool "guest keyboard";
  mouse ← decode_bool "guest mouse";
  gamepad ← decode_bool "guest gamepad";
  clipboard ← decode_bool "guest clipboard";
  audio ← decode_bool "guest audio";
  d_finish "guest permissions";;
  mret (mk_GuestPermissions keyboard mouse gamepad clipboard audio)).
#[export] Instance GuestPermissions_wire : WireCodec GuestPermissions := {| encode := GuestPermissions_encode; decode := GuestPermissions_decode |}.

Record RttProbe := mk_RttProbe {
  rp_timestamp_us : Z;
}.
#[export] Instance RttProbe_holds : Holds RttProbe := λ x, is_u64 (rp_timestamp_us x).
Definition RttProbe_encode (x : RttProbe) : Res (list byte) :=
  Ok (push_u64 (rp_timestamp_us x)).
Definition RttProbe_decode : list byte → Res RttProbe := run (
  timestamp_us ← d_u64 "RTT timestamp";
  d_finish "RTT probe";;
  mret (mk_RttProbe timestamp_us)).
#[export] Instance RttProbe_wire : WireCodec RttProbe := {| encode := RttProbe_encode; decode := RttProbe_decode |}.

Record ClockProbe := mk_ClockProbe {
  kp_client_send_us : Z;
  kp_host_receive_us : Z;
  kp_host_send_us : Z;
}.
#[export] Instance ClockProbe_holds : Holds ClockProbe := λ x, is_u64 (kp_client_send_us x) && is_u64 (kp_host_receive_us x) && is_u64 (kp_host_send_us x).
Definition ClockProbe_encode (x : ClockProbe) : Res (list byte) :=
  Ok (push_u64 (kp_client_send_us x) ++ push_u64 (kp_host_receive_us x) ++ push_u64 (kp_host_send_us x)).
Definition ClockProbe_decode : list byte → Res ClockProbe := run (
  client_send_us ← d_u64 "client send";
  host_receive_us ← d_u64 "host receive";
  host_send_us ← d_u64 "host send";
  d_finish "clock probe";;
  mret (mk_ClockProbe client_send_us host_receive_us host_send_us)).
#[export] Instance ClockProbe_wire : WireCodec ClockProbe := {| encode := ClockProbe_encode; decode := ClockProbe_decode |}.

Record HostDisplay := mk_HostDisplay {
  hd_index : Z;
  hd_width : Z;
  hd_height : Z;
  hd_primary : bool;
  hd_name : list byte;
}.
Definition HostDisplay_holds (d : HostDisplay) : bool :=
  is_u8 (hd_index d) && is_u32 (hd_width d) && is_u32 (hd_height d) && utf8_valid (hd_name d).
(** The sizing loop of [HostDisplayList::encode]: only its checks matter. *)
Fixpoint check_displays (ds : list HostDisplay) : Res unit :=
  match ds with
  | [] => Ok tt
  | d :: rest =>
      if MAX_HOST_DISPLAY_NAME_BYTES <? zlen (hd_name d)
      then Err (LengthLimit "host display name" (zlen (hd_name d)) MAX_HOST_DISPLAY_NAME_BYTES) else check_displays rest
  end.
Definition HostDisplay_bytes (d : HostDisplay) : list byte :=
  push_u8 (hd_index d) ++ push_u32 (hd_width d) ++ push_u32 (hd_height d) ++ push_bool (hd_primary d) ++
  push_u8 (zlen (hd_name d) mod 2 ^ 8) ++ hd_name d.
Definition HostDisplay_read : Dec HostDisplay :=
  index ← d_u8 "host display index";
  width ← d_u32 "host display width";
  height ← d_u32 "host display height";
  primary ← decode_bool "host display primary";
  name_len ← d_u8 "host display name length";
  if MAX_HOST_DISPLAY_NAME_BYTES <? name_len
  then d_fail (LengthLimit "host display name" name_len MAX_HOST_DISPLAY_NAME_BYTES) else
  name ← d_utf8 name_len "host display name";
  mret (mk_HostDisplay index width height primary name).

Record HostDisplayList := mk_HostDisplayList { hl_displays : list HostDisplay }.
#[export] Instance HostDisplayList_holds : Holds HostDisplayList := λ l, forallb HostDisplay_holds (hl_displays l).
Definition HostDisplayList_encode (l : HostDisplayList) : Res (list byte) :=
  if MAX_HOST_DISPLAYS <? zlen (hl_displays l)
  then Err (LengthLimit "host display count" (zlen (hl_displays l)) MAX_HOST_DISPLAYS) else
  _ ← check_displays (hl_displays l);
  Ok (push_u8 (zlen (hl_displays l) mod 2 ^ 8) ++ concat (HostDisplay_bytes <$> hl_displays l)).
Definition HostDisplayList_decode : list byte → Res HostDisplayList := run (
  count ← d_u8 "host display count";
  if MAX_HOST_DISPLAYS <? count then d_fail (LengthLimit "host display count" count MAX_HOST_DISPLAYS) else
  displays ← d_repeat (Z.to_nat count) HostDisplay_read;
  d_finish "host display list";;
  mret (mk_HostDisplayList displays)).
#[export] Instance HostDisplayList_wire : WireCodec HostDisplayList :=
  {| encode := HostDisplayList_encode; decode := HostDisplayList_decode |}.

Record HostStatus := mk_HostStatus { hs_guest_names : list (list byte) }.
#[export] Instance HostStatus_holds : Holds HostStatus := λ h, forallb utf8_valid (hs_guest_names h).
Definition guest_bytes (name : list byte) : list byte := push_u16 (zlen name) ++ name.
Fixpoint encode_guests (names : list (list byte)) : Res (list byte) :=
  match names with
  | [] => Ok []
  | name :: rest =>
      bytes ← checked_bytes name "guest name" MAX_GUEST_NAME_BYTES;
      n ← usize_to_u16 (zlen bytes) "guest name";
      more ← encode_guests rest;
      Ok (push_u16 n ++ bytes ++ more)
  end.
Definition guest_read : Dec (list byte) :=
  length ← d_u16 "guest name length";
  if MAX_GUEST_NAME_BYTES <? length then d_fail (LengthLimit "guest name" length MAX_GUEST_NAME_BYTES) else
  d_utf8 length "guest name" ≫= mret.
Definition HostStatus_encode (h : HostStatus) : Res (list byte) :=
  if MAX_ACTIVE_GUESTS <? zlen (hs_guest_names h)
  then Err (LengthLimit "active guests" (zlen (hs_guest_names h)) MAX_ACTIVE_GUESTS) else
  n ← usize_to_u16 (zlen (hs_guest_names h)) "active guests";
  names ← encode_guests (hs_guest_names h);
  Ok (push_u16 n ++ names).
Definition HostStatus_decode : list byte → Res HostStatus := run (
  count ← d_u16 "active guest count";
  if MAX_ACTIVE_GUESTS <? count then d_fail (LengthLimit "active guests" count MAX_ACTIVE_GUESTS) else
  guest_names ← d_repeat (Z.to_nat count) guest_read;
  d_finish "host status";;
  mret (mk_HostStatus guest_names)).
#[export] Instance HostStatus_wire : WireCodec HostStatus := {| encode := HostStatus_encode; decode := HostStatus_decode |}.

Inductive PairingTrust : Type :=
| Owner
| GuestOnce
| GuestExpiring (expires_at_unix_ms : Z).
#[export] Instance PairingTrust_holds : Holds PairingTrust := λ t,
  match t with GuestExpiring e => is_u64 e | _ => true end.
Definition PairingTrust_encode (t : PairingTrust) : Res (list byte) :=
  match t with
  | Owner => Ok (push_u8 0 ++ push_u64 0)
  | GuestOnce => Ok (push_u8 1 ++ push_u64 0)
  | GuestExpiring 0 => Err (InvalidValue "guest expiry" 0)
  | GuestExpiring expiry => Ok (push_u8 2 ++ push_u64 expiry)
  end.
Definition trust_of (tag expiry : Z) : Res PairingTrust :=
  match tag, expiry with
  | 0, 0 => Ok Owner
  | 1, 0 => Ok GuestOnce
  | _, _ =>
      if (tag =? 2) && (1 <=? expiry) then Ok (GuestExpiring expiry)
      else if in_range 0 2 tag then Err (InvalidValue "guest expiry" expiry) else Err (InvalidValue "pairing trust" tag)
  end.
Definition PairingTrust_decode : list byte → Res PairingTrust := run (
  tag ← d_u8 "pairing trust";
  expiry ← d_u64 "guest expiry";
  d_finish "pairing trust";;
  d_lift (trust_of tag expiry) ≫= mret).
#[export] Instance PairingTrust_wire : WireCodec PairingTrust := {| encode := PairingTrust_encode; decode := PairingTrust_decode |}.

Record PairingTrustRequest := mk_PairingTrustRequest { tq_trust : PairingTrust }.
#[export] Instance PairingTrustRequest_holds : Holds PairingTrustRequest := λ x, PairingTrust_holds (tq_trust x).
Definition PairingTrustRequest_encode (x : PairingTrustRequest) : Res (list byte) := PairingTrust_encode (tq_trust x).
Definition PairingTrustRequest_decode (input : list byte) : Res PairingTrustRequest :=
  trust ← (PairingTrust_decode input : Res PairingTrust); Ok (mk_PairingTrustRequest trust).
#[export] Instance PairingTrustRequest_wire : WireCodec PairingTrustRequest :=
  {| encode := PairingTrustRequest_encode; decode := PairingTrustRequest_decode |}.

Record PairingTrustGrant := mk_PairingTrustGrant { tg_trust : PairingTrust }.
#[export] Instance PairingTrustGrant_holds : Holds PairingTrustGrant := λ x, PairingTrust_holds (tg_trust x).
Definition PairingTrustGrant_encode (x : PairingTrustGrant) : Res (list byte) := PairingTrust_encode (tg_trust x).
Definition PairingTrustGrant_decode (input : list byte) : Res PairingTrustGrant :=
  trust ← (PairingTrust_decode input : Res PairingTrust); Ok (mk_PairingTrustGrant trust).
#[export] Instance PairingTrustGrant_wire : WireCodec PairingTrustGrant :=
  {| encode := PairingTrustGrant_encode; decode := PairingTrustGrant_decode |}.

Record ClipboardImageChunk := mk_ClipboardImageChunk {
  ci_transfer_id : Z;
  ci_total_bytes : Z;
  ci_offset : Z;
  ci_png_bytes : list byte;
}.
#[export] Instance ClipboardImageChunk_holds : Holds ClipboardImageChunk := λ c,
  is_u32 (ci_transfer_id c) && is_u32 (ci_total_bytes c) && is_u32 (ci_offset c).
Definition ClipboardImageChunk_validate (c : ClipboardImageChunk) : Res unit :=
  if (ci_total_bytes c <? zlen PNG_SIGNATURE) || (MAX_CLIPBOARD_IMAGE_BYTES <? ci_total_bytes c)
  then Err (InvalidValue "clipboard image total bytes" (ci_total_bytes c)) else
  if (zlen (ci_png_bytes c) =? 0) || (MAX_CLIPBOARD_IMAGE_CHUNK_BYTES <? zlen (ci_png_bytes c))
  then Err (LengthLimit "clipboard image chunk" (zlen (ci_png_bytes c)) MAX_CLIPBOARD_IMAGE_CHUNK_BYTES) else
  if ci_total_bytes c <? ci_offset c + zlen (ci_png_bytes c)
  then Err (InvalidValue "clipboard image offset" (ci_offset c)) else
  if (ci_offset c =? 0) && negb (bool_decide (take (length PNG_SIGNATURE) (ci_png_bytes c) = PNG_SIGNATURE))
  then Err (InvalidValue "PNG signature" 0) else Ok tt.
Definition ClipboardImageChunk_encode (c : ClipboardImageChunk) : Res (list byte) :=
  _ ← ClipboardImageChunk_validate c;
  Ok (push_u32 (ci_transfer_id c) ++ push_u32 (ci_total_bytes c) ++ push_u32 (ci_offset c) ++ ci_png_bytes c).
Definition ClipboardImageChunk_decode : list byte → Res ClipboardImageChunk := run (
  transfer_id ← d_u32 "clipboard image transfer ID";
  total_bytes ← d_u32 "clipboard image total bytes";
  offset ← d_u32 "clipboard image offset";
  remaining ← d_remaining;
  if MAX_CLIPBOARD_IMAGE_CHUNK_BYTES <? remaining
  then d_fail (LengthLimit "clipboard image chunk" remaining MAX_CLIPBOARD_IMAGE_CHUNK_BYTES) else
  png_bytes ← d_take_remaining;
  let value := mk_ClipboardImageChunk transfer_id total_bytes offset png_bytes in
  _ ← d_lift (ClipboardImageChunk_validate value);
  mret value).
#[export] Instance ClipboardImageChunk_wire : WireCodec ClipboardImageChunk :=
  {| encode := ClipboardImageChunk_encode; decode := ClipboardImageChunk_decode |}.

(** ** The control message *)

Inductive ControlMessage : Type :=
| CmRequestKeyFrame
| CmStartStream
| CmStopStream
| CmDisconnect
| CmPing
| CmPong
| CmBitrateAdjust (value : BitrateAdjust)
| CmStreamConfigRequest (value : StreamConfigurationRequest)
| CmStreamConfigResponse (value : StreamConfigurationResponse)
| CmStreamConfigReject (value : StreamConfigurationReject)
| CmStreamConfigError (value : StreamConfigurationError)
| CmClipboardSyncRequest (value : ClipboardSyncRequest)
| CmClipboardSyncUpdate (value : ClipboardSyncUpdate)
| CmClipboardSyncError (value : ClipboardSyncError)
| CmInputAck (value : InputAckMessage)
| CmStreamOptionsRequest (value : StreamOptionsRequest)
| CmStreamOptionsActive (value : StreamOptionsActive)
| CmHostDisplayList (value : HostDisplayList)
| CmHostPolicy (value : HostPolicy)
| CmSecureAttentionRequest (value : SecureAttentionRequest)
| CmSecureAttentionResponse (value : SecureAttentionResponse)
| CmHostStatus (value : HostStatus)
| CmSessionEnded (value : SessionEnded)
| CmGuestPermissions (value : GuestPermissions)
| CmPairingTrustRequest (value : PairingTrustRequest)
| CmPairingTrustGrant (value : PairingTrustGrant)
| CmClipboardImageChunk (value : ClipboardImageChunk)
| CmRttPing (value : RttProbe)
| CmRttPong (value : RttProbe)
| CmCursorShape (value : CursorShape)
| CmClockPing (value : ClockProbe)
| CmClockPong (value : ClockProbe).
Definition message_type (m : ControlMessage) : ControlMessageType :=
  match m with
  | CmRequestKeyFrame => CtRequestKeyFrame
  | CmStartStream => CtStartStream
  | CmStopStream => CtStopStream
  | CmDisconnect => CtDisconnect
  | CmPing => CtPing
  | CmPong => CtPong
  | CmBitrateAdjust _ => CtBitrateAdjust
  | CmStreamConfigRequest _ => CtStreamConfigRequest
  | CmStreamConfigResponse _ => CtStreamConfigResponse
  | CmStreamConfigReject _ => CtStreamConfigReject
  | CmStreamConfigError _ => CtStreamConfigError
  | CmClipboardSyncRequest _ => CtClipboardSyncRequest
  | CmClipboardSyncUpdate _ => CtClipboardSyncUpdate
  | CmClipboardSyncError _ => CtClipboardSyncError
  | CmInputAck _ => CtInputAck
  | CmStreamOptionsRequest _ => CtStreamOptionsRequest
  | CmStreamOptionsActive _ => CtStreamOptionsActive
  | CmHostDisplayList _ => CtHostDisplayList
  | CmHostPolicy _ => CtHostPolicy
  | CmSecureAttentionRequest _ => CtSecureAttentionRequest
  | CmSecureAttentionResponse _ => CtSecureAttentionResponse
  | CmHostStatus _ => CtHostStatus
  | CmSessionEnded _ => CtSessionEnded
  | CmGuestPermissions _ => CtGuestPermissions
  | CmPairingTrustRequest _ => CtPairingTrustRequest
  | CmPairingTrustGrant _ => CtPairingTrustGrant
  | CmClipboardImageChunk _ => CtClipboardImageChunk
  | CmRttPing _ => CtRttPing
  | CmRttPong _ => CtRttPong
  | CmCursorShape _ => CtCursorShape
  | CmClockPing _ => CtClockPing
  | CmClockPong _ => CtClockPong
  end.
#[export] Instance ControlMessage_holds : Holds ControlMessage := λ m,
  match m with
  | CmBitrateAdjust value => holds value
  | CmStreamConfigRequest value => holds value
  | CmStreamConfigResponse value => holds value
  | CmStreamConfigReject value => holds value
  | CmStreamConfigError value => holds value
  | CmClipboardSyncRequest value => holds value
  | CmClipboardSyncUpdate value => holds value
  | CmClipboardSyncError value => holds value
  | CmInputAck value => holds value
  | CmStreamOptionsRequest value => holds value
  | CmStreamOptionsActive value => holds value
  | CmHostDisplayList value => holds value
  | CmHostPolicy value => holds value
  | CmSecureAttentionRequest value => holds value
  | CmSecureAttentionResponse value => holds value
  | CmHostStatus value => holds value
  | CmSessionEnded value => holds value
  | CmGuestPermissions value => holds value
  | CmPairingTrustRequest value => holds value
  | CmPairingTrustGrant value => holds value
  | CmClipboardImageChunk value => holds value
  | CmRttPing value => holds value
  | CmRttPong value => holds value
  | CmCursorShape value => holds value
  | CmClockPing value => holds value
  | CmClockPong value => holds value
  | _ => true
  end.
Definition control_body (m : ControlMessage) : Res (list byte) :=
  match m with
  | CmBitrateAdjust value => encode value
  | CmStreamConfigRequest value => encode value
  | CmStreamConfigResponse value => encode value
  | CmStreamConfigReject value => encode value
  | CmStreamConfigError value => encode value
  | CmClipboardSyncRequest value => encode value
  | CmClipboardSyncUpdate value => encode value
  | CmClipboardSyncError value => encode value
  | CmInputAck value => encode value
  | CmStreamOptionsRequest value => encode value
  | CmStreamOptionsActive value => encode value
  | CmHostDisplayList value => encode value
  | CmHostPolicy value => encode value
  | CmSecureAttentionRequest value => encode value
  | CmSecureAttentionResponse value => encode value
  | CmHostStatus value => encode value
  | CmSessionEnded value => encode value
  | CmGuestPermissions value => encode value
  | CmPairingTrustRequest value => encode value
  | CmPairingTrustGrant value => encode value
  | CmClipboardImageChunk value => encode value
  | CmRttPing value => encode value
  | CmRttPong value => encode value
  | CmCursorShape value => encode value
  | CmClockPing value => encode value
  | CmClockPong value => encode value
  | _ => Ok []
  end.
Definition ControlMessage_encode (m : ControlMessage) : Res (list byte) :=
  body ← control_body m; Ok (push_u8 (to_u8 (message_type m)) ++ body).
(** [Decoder::new(body).finish("control message")] *)
Definition empty_body (m : ControlMessage) (body : list byte) : Res ControlMessage :=
  run (d_finish "control message";; mret m) body.
Definition res_map {A B} (f : A → B) (x : Res A) : Res B := match x with Ok v => Ok (f v) | Err e => Err e end.
Definition control_of (t : ControlMessageType) (body : list byte) : Res ControlMessage :=
  match t with
  | CtRequestKeyFrame => empty_body CmRequestKeyFrame body
  | CtStartStream => empty_body CmStartStream body
  | CtStopStream => empty_body CmStopStream body
  | CtDisconnect => empty_body CmDisconnect body
  | CtPing => empty_body CmPing body
  | CtPong => empty_body CmPong body
  | CtBitrateAdjust => res_map CmBitrateAdjust (decode body)
  | CtStreamConfigRequest => res_map CmStreamConfigRequest (decode body)
  | CtStreamConfigResponse => res_map CmStreamConfigResponse (decode body)
  | CtStreamConfigReject => res_map CmStreamConfigReject (decode body)
  | CtStreamConfigError => res_map CmStreamConfigError (decode body)
  | CtClipboardSyncRequest => res_map CmClipboardSyncRequest (decode body)
  | CtClipboardSyncUpdate => res_map CmClipboardSyncUpdate (decode body)
  | CtClipboardSyncError => res_map CmClipboardSyncError (decode body)
  | CtInputAck => res_map CmInputAck (decode body)
  | CtStreamOptionsRequest => res_map CmStreamOptionsRequest (decode body)
  | CtStreamOptionsActive => res_map CmStreamOptionsActive (decode body)
  | CtHostDisplayList => res_map CmHostDisplayList (decode body)
  | CtHostPolicy => res_map CmHostPolicy (decode body)
  | CtSecureAttentionRequest => res_map CmSecureAttentionRequest (decode body)
  | CtSecureAttentionResponse => res_map CmSecureAttentionResponse (decode body)
  | CtHostStatus => res_map CmHostStatus (decode body)
  | CtSessionEnded => res_map CmSessionEnded (decode body)
  | CtGuestPermissions => res_map CmGuestPermissions (decode body)
  | CtPairingTrustRequest => res_map CmPairingTrustRequest (decode body)
  | CtPairingTrustGrant => res_map CmPairingTrustGrant (decode body)
  | CtClipboardImageChunk => res_map CmClipboardImageChunk (decode body)
  | CtRttPing => res_map CmRttPing (decode body)
  | CtRttPong => res_map CmRttPong (decode body)
  | CtCursorShape => res_map CmCursorShape (decode body)
  | CtClockPing => res_map CmClockPing (decode body)
  | CtClockPong => res_map CmClockPong (decode body)
  end.
Definition ControlMessage_decode : list byte → Res ControlMessage := run (
  v ← d_u8 "control message type"; t ← d_lift (try_from v);
  body ← d_take_remaining;
  d_lift (control_of t body) ≫= mret).
#[export] Instance ControlMessage_wire : WireCodec ControlMessage :=
  {| encode := ControlMessage_encode; decode := ControlMessage_decode |}.

(** ** Laws *)

#[export] Instance BitrateAdjust_canonical : Canonical BitrateAdjust.
Proof. solve_canonical BitrateAdjust_holds BitrateAdjust_encode BitrateAdjust_decode. Qed.
#[export] Instance StreamConfiguration_canonical : Canonical StreamConfiguration.
Proof. solve_canonical StreamConfiguration_holds StreamConfiguration_encode StreamConfiguration_decode. Qed.
#[export] Instance StreamConfigurationRequest_canonical : Canonical StreamConfigurationRequest.
Proof. solve_canonical StreamConfigurationRequest_holds StreamConfigurationRequest_encode StreamConfigurationRequest_decode. Qed.
#[export] Instance StreamConfigurationResponse_canonical : Canonical StreamConfigurationResponse.
Proof. solve_canonical StreamConfigurationResponse_holds StreamConfigurationResponse_encode StreamConfigurationResponse_decode. Qed.
#[export] Instance StreamConfigurationReject_canonical : Canonical StreamConfigurationReject.
Proof. solve_canonical StreamConfigurationReject_holds StreamConfigurationReject_encode StreamConfigurationReject_decode. Qed.
#[export] Instance StreamConfigurationError_canonical : Canonical StreamConfigurationError.
Proof. solve_canonical StreamConfigurationError_holds StreamConfigurationError_encode StreamConfigurationError_decode. Qed.
#[export] Instance ClipboardSyncRequest_canonical : Canonical ClipboardSyncRequest.
Proof. solve_canonical ClipboardSyncRequest_holds ClipboardSyncRequest_encode ClipboardSyncRequest_decode. Qed.
#[export] Instance ClipboardSyncUpdate_canonical : Canonical ClipboardSyncUpdate.
Proof. solve_canonical ClipboardSyncUpdate_holds ClipboardSyncUpdate_encode ClipboardSyncUpdate_decode. Qed.
#[export] Instance ClipboardSyncError_canonical : Canonical ClipboardSyncError.
Proof. solve_canonical ClipboardSyncError_holds ClipboardSyncError_encode ClipboardSyncError_decode. Qed.
#[export] Instance StreamOptionsRequest_canonical : Canonical StreamOptionsRequest.
Proof. solve_canonical StreamOptionsRequest_holds StreamOptionsRequest_encode StreamOptionsRequest_decode. Qed.
#[export] Instance StreamOptionsActive_canonical : Canonical StreamOptionsActive.
Proof. solve_canonical StreamOptionsActive_holds StreamOptionsActive_encode StreamOptionsActive_decode. Qed.
#[export] Instance HostPolicy_canonical : Canonical HostPolicy.
Proof. solve_canonical HostPolicy_holds HostPolicy_encode HostPolicy_decode. Qed.
#[export] Instance SecureAttentionRequest_canonical : Canonical SecureAttentionRequest.
Proof. solve_canonical SecureAttentionRequest_holds SecureAttentionRequest_encode SecureAttentionRequest_decode. Qed.
#[export] Instance SecureAttentionResponse_canonical : Canonical SecureAttentionResponse.
Proof. solve_canonical SecureAttentionResponse_holds SecureAttentionResponse_encode SecureAttentionResponse_decode. Qed.
#[export] Instance SessionEnded_canonical : Canonical SessionEnded.
Proof. solve_canonical SessionEnded_holds SessionEnded_encode SessionEnded_decode. Qed.
#[export] Instance GuestPermissions_canonical : Canonical GuestPermissions.
Proof. solve_canonical GuestPermissions_holds GuestPermissions_encode GuestPermissions_decode. Qed.
#[export] Instance RttProbe_canonical : Canonical RttProbe.
Proof. solve_canonical RttProbe_holds RttProbe_encode RttProbe_decode. Qed.
#[export] Instance ClockProbe_canonical : Canonical ClockProbe.
Proof. solve_canonical ClockProbe_holds ClockProbe_encode ClockProbe_decode. Qed.
