(* ===== verification/RdControlSpec.v ===== *)
(** * RdControlSpec: control messages survive the wire

    The laws of the control messages with lists, tagged unions and limits, and the
    theorems on the whole [ControlMessage]: every message the encoder accepts is decoded
    as it was, and whatever the decoder accepts is a message the encoder can write. *)

From S2P Require Import Prelude Wire RdCodec RdPacket RdMedia RdControl.
From Stdlib Require Import ZArith Lia Strings.Byte.
From stdpp Require Import base option strings list.

#[local] Open Scope Z_scope.

(** ** Messages with their own proofs *)

(** The success flag of an acknowledgement has other encodings. *)
#[export] Instance InputAckMessage_laws : WireLaws InputAckMessage.
Proof.
  split; [solve_written InputAckMessage_holds InputAckMessage_encode InputAckMessage_decode|].
  intros b x H. change (InputAckMessage_decode b = Ok x) in H. unfold InputAckMessage_decode in H. apply run_Ok in H as [r H].
  dec_inv H. injection H as <- <-. split; [unfold holds, InputAckMessage_holds; holds_go|]. by eexists.
Qed.

Lemma image_chunk_bound c u : ClipboardImageChunk_validate c = Ok u → zlen (ci_png_bytes c) <= MAX_CLIPBOARD_IMAGE_CHUNK_BYTES.
Proof. unfold ClipboardImageChunk_validate. destruct (_ || _); [done|]. destruct (_ || _) eqn:E; [done|]. bool_hyps. lia. Qed.

#[export] Instance ClipboardImageChunk_canonical : Canonical ClipboardImageChunk.
Proof.
  split; [|solve_read ClipboardImageChunk_holds ClipboardImageChunk_encode ClipboardImageChunk_decode].
  intros x b Hh Hb. unfold holds, ClipboardImageChunk_holds in Hh. bool_hyps. change (ClipboardImageChunk_encode x = Ok b) in Hb.
  unfold ClipboardImageChunk_encode in Hb. enc_inv Hb. pose proof (image_chunk_bound _ _ E) as Hl.
  apply run_Ok. exists []. dec_go. cbv zeta. dec_go. by destruct x.
Qed.

Lemma trust_of_Ok v w t : trust_of v w = Ok t →
  v = 0 ∧ w = 0 ∧ t = Owner ∨ v = 1 ∧ w = 0 ∧ t = GuestOnce ∨ v = 2 ∧ 1 <= w ∧ t = GuestExpiring w.
Proof.
  destruct (decide (v = 0 ∧ w = 0)) as [[-> ->]|H0]; [intros [= <-]; auto|].
  destruct (decide (v = 1 ∧ w = 0)) as [[-> ->]|H1]; [intros [= <-]; auto|].
  assert (trust_of v w = if (v =? 2) && (1 <=? w) then Ok (GuestExpiring w)
    else if in_range 0 2 v then Err (InvalidValue "guest expiry" w) else Err (InvalidValue "pairing trust" v)) as ->
    by (destruct v as [|[p|p|]|p], w as [|q|q]; try reflexivity; exfalso; tauto).
  destruct (Z.eqb_spec v 2) as [->|]; [destruct (Z.leb_spec 1 w)|]; cbn [andb]; intros Ht; [injection Ht as <-; auto|done|by destruct (in_range 0 2 v)].
Qed.

#[export] Instance PairingTrust_canonical : Canonical PairingTrust.
Proof.
  split.
  - intros t b Hh Hb. change (PairingTrust_encode t = Ok b) in Hb. apply run_Ok. exists []. unfold holds, PairingTrust_holds in Hh.
    destruct t as [| |e]; cbn in Hb; [injection Hb as <-; rewrite <- (app_nil_r (push_u64 _)); by dec_go..|].
    destruct e as [|e|e]; [done| |by cbn in Hh]. apply Ok_inj in Hb as <-. rewrite <- (app_nil_r (push_u64 _)). dec_go.
    assert (trust_of 2 (Z.pos e) = Ok (GuestExpiring (Z.pos e))) as Et
      by (unfold trust_of; rewrite (proj2 (Z.leb_le 1 (Z.pos e))) by lia; done).
    by rewrite Et.
  - intros b t H. change (PairingTrust_decode b = Ok t) in H. unfold PairingTrust_decode in H. apply run_Ok in H as [r H]. dec_inv H.
    injection H as <- <-. apply trust_of_Ok in Hv1 as Hc.
    destruct Hc as [(-> & -> & ->)|[(-> & -> & ->)|(-> & H1 & ->)]]; (split; [done|]).
    + change (Ok (push_u8 0 ++ push_u64 0) = Ok (push_u8 0 ++ push_u64 0 ++ []) :> Res (list byte)). by rewrite app_nil_r.
    + change (Ok (push_u8 1 ++ push_u64 0) = Ok (push_u8 1 ++ push_u64 0 ++ []) :> Res (list byte)). by rewrite app_nil_r.
    + rewrite app_nil_r. destruct v0; [lia|done|lia].
Qed.

#[export] Instance PairingTrustRequest_canonical : Canonical PairingTrustRequest.
Proof.
  split; [intros [t] b Hh Hb|intros b [t] H].
  - change (PairingTrustRequest_decode b = Ok (mk_PairingTrustRequest t)). unfold PairingTrustRequest_decode.
    change (encode t = Ok b) in Hb. assert (PairingTrust_decode b = Ok t) as -> by exact (canon_decode_encode t b Hh Hb). done.
  - change (PairingTrustRequest_decode b = Ok (mk_PairingTrustRequest t)) in H. unfold PairingTrustRequest_decode in H.
    apply res_bind_ok in H as (t' & Ht & [= <-]). exact (canon_encode_decode b t' Ht).
Qed.
#[export] Instance PairingTrustGrant_canonical : Canonical PairingTrustGrant.
Proof.
  split; [intros [t] b Hh Hb|intros b [t] H].
  - change (PairingTrustGrant_decode b = Ok (mk_PairingTrustGrant t)). unfold PairingTrustGrant_decode.
    change (encode t = Ok b) in Hb. assert (PairingTrust_decode b = Ok t) as -> by exact (canon_decode_encode t b Hh Hb). done.
  - change (PairingTrustGrant_decode b = Ok (mk_PairingTrustGrant t)) in H. unfold PairingTrustGrant_decode in H.
    apply res_bind_ok in H as (t' & Ht & [= <-]). exact (canon_encode_decode b t' Ht).
Qed.

(** ** Lists of displays *)

Definition display_ok (d : HostDisplay) : Prop :=
  HostDisplay_holds d = true ∧ zlen (hd_name d) <= MAX_HOST_DISPLAY_NAME_BYTES.

Lemma check_displays_ok ds : check_displays ds = Ok tt ↔ Forall (λ d, zlen (hd_name d) <= MAX_HOST_DISPLAY_NAME_BYTES) ds.
Proof.
  induction ds as [|d ds IH]; [by split|]. cbn [check_displays]. rewrite Forall_cons.
  destruct (Z.ltb_spec MAX_HOST_DISPLAY_NAME_BYTES (zlen (hd_name d))); [split; [done|intros []; lia]|rewrite IH; tauto].
Qed.

Lemma displays_ok ds : forallb HostDisplay_holds ds = true → check_displays ds = Ok tt → Forall display_ok ds.
Proof. rewrite check_displays_ok, forallb_forall, !Forall_forall. intros Hh Hc d Hd. split; [apply Hh; by apply list_elem_of_In|by apply Hc]. Qed.

Lemma HostDisplay_read_bytes d r : display_ok d → HostDisplay_read (HostDisplay_bytes d ++ r) = Ok (d, r).
Proof.
  intros [Hh Hl]. unfold HostDisplay_holds in Hh. bool_hyps. unfold HostDisplay_bytes, HostDisplay_read.
  pose proof (zlen_nonneg (hd_name d)). rewrite (Z.mod_small (zlen _)) by rd_lia. dec_go. by destruct d.
Qed.

Lemma HostDisplay_read_inv b d r : HostDisplay_read b = Ok (d, r) → display_ok d ∧ b = HostDisplay_bytes d ++ r.
Proof.
  unfold HostDisplay_read. intros H. dec_inv H. injection H as <- <-. unfold HostDisplay_bytes. cbn. rewrite Z.mod_small by rd_lia.
  rewrite <- !app_assoc. split; [|done]. split; [unfold HostDisplay_holds; holds_go|cbn; rd_lia].
Qed.

#[export] Instance HostDisplayList_canonical : Canonical HostDisplayList.
Proof.
  split.
  - intros x b Hh Hb. change (HostDisplayList_encode x = Ok b) in Hb. unfold HostDisplayList_encode in Hb. enc_inv Hb.
    destruct v. pose proof (displays_ok _ Hh E). pose proof (zlen_nonneg (hl_displays x)). rewrite (Z.mod_small (zlen _)) by rd_lia.
    apply run_Ok. exists []. rewrite <- (app_nil_r (_ ++ _)). dec_go. unfold zlen.
    rewrite Nat2Z.id, (d_repeat_push _ HostDisplay_bytes display_ok) by (done || apply HostDisplay_read_bytes). dec_go. by destruct x.
  - intros b x H. change (HostDisplayList_decode b = Ok x) in H. unfold HostDisplayList_decode in H. apply run_Ok in H as [r H].
    dec_inv H. apply d_bind_inv in H as (ds & rm & Hm & H).
    apply (d_repeat_inv _ HostDisplay_bytes display_ok) in Hm as (Hl & Hf & ->); [|apply HostDisplay_read_inv].
    dec_inv H. injection H as <- <-. assert (v = zlen ds) as -> by (unfold zlen; rd_lia). rewrite Forall_forall in Hf. split.
    + apply forallb_forall. intros d Hd%list_elem_of_In. by apply Hf.
    + change (HostDisplayList_encode (mk_HostDisplayList ds) = Ok (push_u8 (zlen ds) ++ concat (HostDisplay_bytes <$> ds) ++ [])).
      assert (check_displays ds = Ok tt) as E by (apply check_displays_ok, Forall_forall; intros d Hd; by apply Hf).
      unfold HostDisplayList_encode. cbn [hl_displays]. rewrite Z.mod_small by rd_lia. enc_go.
Qed.

(** ** Guest names *)

Definition guest_ok (name : list byte) : Prop := utf8_valid name = true ∧ zlen name <= MAX_GUEST_NAME_BYTES.

Lemma encode_guests_ok names b :
  encode_guests names = Ok b ↔ Forall (λ n, zlen n <= MAX_GUEST_NAME_BYTES) names ∧ b = concat (guest_bytes <$> names).
Proof.
  revert b. induction names as [|n names IH]; intros b; cbn; [split; [by intros [= <-]|by intros [_ ->]]|].
  rewrite Forall_cons. split.
  - intros Hb. enc_inv Hb. apply IH in E1 as [Hf ->]. by rewrite (app_assoc (push_u16 _)).
  - intros [[Hn Hf] ->]. enc_go. rewrite (proj2 (IH _) (conj Hf eq_refl)), res_bind_Ok.
    unfold guest_bytes at 2. by rewrite <- app_assoc.
Qed.

Lemma guest_read_bytes n r : guest_ok n → guest_read (guest_bytes n ++ r) = Ok (n, r).
Proof. intros [Hu Hl]. unfold guest_bytes, guest_read. dec_go. done. Qed.

Lemma guest_read_inv b n r : guest_read b = Ok (n, r) → guest_ok n ∧ b = guest_bytes n ++ r.
Proof.
  unfold guest_read. intros H. dec_inv H. injection H as <- <-. unfold guest_bytes. rewrite <- app_assoc. split; [|done]. split; [done|rd_lia].
Qed.

#[export] Instance HostStatus_canonical : Canonical HostStatus.
Proof.
  split.
  - intros x b Hh Hb. change (HostStatus_encode x = Ok b) in Hb. unfold HostStatus_encode in Hb. enc_inv Hb.
    apply encode_guests_ok in E0 as [Hf ->]. assert (Forall guest_ok (hs_guest_names x)) as Hg.
    { rewrite Forall_forall in Hf |- *. intros n Hn. split; [|by apply Hf]. unfold holds, HostStatus_holds in Hh.
      rewrite forallb_forall in Hh. apply Hh. by apply list_elem_of_In. }
    apply run_Ok. exists []. rewrite <- (app_nil_r (_ ++ _)). dec_go. unfold zlen.
    rewrite Nat2Z.id, (d_repeat_push _ guest_bytes guest_ok) by (done || apply guest_read_bytes). dec_go. by destruct x.
  - intros b x H. change (HostStatus_decode b = Ok x) in H. unfold HostStatus_decode in H. apply run_Ok in H as [r H].
    dec_inv H. apply d_bind_inv in H as (ns & rm & Hm & H).
    apply (d_repeat_inv _ guest_bytes guest_ok) in Hm as (Hl & Hf & ->); [|apply guest_read_inv].
    dec_inv H. injection H as <- <-. assert (v = zlen ns) as -> by (unfold zlen; rd_lia). rewrite Forall_forall in Hf. split.
    + apply forallb_forall. intros n Hn%list_elem_of_In. by apply Hf.
    + change (HostStatus_encode (mk_HostStatus ns) = Ok (push_u16 (zlen ns) ++ concat (guest_bytes <$> ns) ++ [])).
      assert (encode_guests ns = Ok (concat (guest_bytes <$> ns))) as E
        by (apply encode_guests_ok; split; [apply Forall_forall; intros n Hn; by apply Hf|done]).
      unfold HostStatus_encode. cbn [hs_guest_names]. enc_go.
Qed.

(** ** The tagged union *)

Lemma empty_body_ok m body m' : empty_body m body = Ok m' ↔ body = [] ∧ m' = m.
Proof.
  unfold empty_body. rewrite run_Ok. split.
  - intros [r H]. apply d_finish_inv in H as [-> H]. injection H as <- _. done.
  - intros [-> ->]. by exists [].
Qed.
Lemma res_map_ok {A B} (f : A → B) x y : res_map f x = Ok y ↔ ∃ v, x = Ok v ∧ y = f v.
Proof.
  destruct x as [v|e]; cbn; [|split; [done|by intros (? & ? & _)]].
  split; [intros [= <-]; eauto|by intros (w & [= ->] & ->)].
Qed.

(** The body written for a message is read back as that message. *)
Lemma control_of_body m body : holds m = true → control_body m = Ok body → control_of (message_type m) body = Ok m.
Proof.
  intros Hh Hb. destruct m; unfold holds, ControlMessage_holds in Hh; cbn [control_body message_type control_of] in *;
    try (apply Ok_inj in Hb as <-; by apply empty_body_ok); apply res_map_ok; eexists; (split; [by apply decode_encode|done]).
Qed.

(** The one message the decoder reads from more bytes than the encoder writes. *)
Definition is_input_ack (m : ControlMessage) : bool := match m with CmInputAck _ => true | _ => false end.

Lemma control_of_inv t body m : control_of t body = Ok m →
  message_type m = t ∧ holds m = true ∧ ∃ body', control_body m = Ok body' ∧ (is_input_ack m = false → body' = body).
Proof.
  intros H. destruct t; cbn [control_of] in H;
    try (apply empty_body_ok in H as [-> ->]; by eauto); apply res_map_ok in H as (v & Hv & ->); (split; [done|]);
    try (apply canon_encode_decode in Hv as [Hh He]; split; [exact Hh|]; by exists body).
  apply decode_holds in Hv as (Hh & b' & He). split; [exact Hh|]. by exists b'.
Qed.

Lemma control_decode_push t body : ControlMessage_decode (push_u8 (to_u8 t) ++ body) = control_of t body.
Proof.
  unfold ControlMessage_decode, run. dec_go. unfold mbind, Dec_bind, d_lift. by destruct (control_of t body).
Qed.

Lemma control_decode_inv b m : ControlMessage_decode b = Ok m → ∃ t body, b = push_u8 (to_u8 t) ++ body ∧ control_of t body = Ok m.
Proof.
  unfold ControlMessage_decode. rewrite run_Ok. intros [r H]. dec_inv H. injection H as <- <-. eauto.
Qed.

(** Control messages round trip: whatever message of the 32 kinds the encoder accepts is
    decoded as exactly that message; and nothing else is accepted: bytes that decode are,
    but for the acknowledgement whose success flag may be any non-zero byte, the very bytes
    the encoder writes for the decoded message. *)
Theorem control_wire_exact m b :
  (holds m = true → ControlMessage_encode m = Ok b → ControlMessage_decode b = Ok m) ∧
  (ControlMessage_decode b = Ok m →
     holds m = true ∧ ∃ b', ControlMessage_encode m = Ok b' ∧ (is_input_ack m = false → b' = b)).
Proof.
  split.
  - intros Hh Hb. unfold ControlMessage_encode in Hb. apply res_bind_ok in Hb as (body & Hbody & [= <-]).
    rewrite control_decode_push. by apply control_of_body.
  - intros (t & body & -> & H)%control_decode_inv. apply control_of_inv in H as (<- & Hh & body' & Hb & He).
    split; [done|]. exists (push_u8 (to_u8 (message_type m)) ++ body'). unfold ControlMessage_encode. rewrite Hb.
    split; [done|]. intros Ha. by rewrite He.
Qed.

Definition sample_displays : ControlMessage :=
  CmHostDisplayList (mk_HostDisplayList [mk_HostDisplay 0 2560 1440 true [x61; x62]; mk_HostDisplay 1 1920 1080 false []]).
Definition sample_ack : list byte := [x0e; x05; x00; x00; x00; x07; x00].

Lemma control_wire_exact_witness :
  (∃ b, ControlMessage_encode sample_displays = Ok b ∧ zlen b = 26 ∧ ControlMessage_decode b = Ok sample_displays) ∧
  (∃ m, ControlMessage_decode sample_ack = Ok m ∧ holds m = true ∧ is_input_ack m = true).
Proof.
  split.
  - eexists. split; [reflexivity|]. split; [vm_compute; reflexivity|]. apply (control_wire_exact sample_displays); [vm_compute; reflexivity|reflexivity].
  - exists (CmInputAck (mk_InputAckMessage 5 true 0)). assert (ControlMessage_decode sample_ack = Ok (CmInputAck (mk_InputAckMessage 5 true 0))) as E
      by (vm_compute; reflexivity).
    split; [exact E|]. split; [|reflexivity]. exact (proj1 (proj2 (control_wire_exact _ sample_ack) E)).
Defined.
