(* ===== verification/RdUdp.v ===== *)
(** * RdUdp (crates/ferryx-rd/ferryx-rd-net/src/udp_gcm.rs)

    The protection of the remote desktop's datagrams: key derivation, the send counter
    that makes every nonce fresh, sealing and opening, and the replay window of the
    receiver.  HKDF-SHA256 and AES-256-GCM are parameters.  The window is refined to
    the set of counters it accepted, and the theorem is on whole runs: what a receiver
    opens of what a network that loses, repeats, reorders and forges delivers. *)

From S2P Require Import Prelude Wire RdCodec RdPacket.
From Stdlib Require Import ZArith Lia Strings.Byte.
From stdpp Require Import base option gmap strings list.

#[local] Open Scope Z_scope.

Definition NONCE_SIZE : Z := 12.
Definition TAG_SIZE : Z := 16.
Definition REPLAY_WINDOW_SIZE : Z := 4096.
Definition HEADER_SIZE : Z := 12.

Inductive Direction : Type := DirClientToHost | DirHostToClient.
(** The bytes of an ASCII string. *)
Definition ascii_bytes (s : string) : list byte := String.list_byte_of_string s.
Definition info (d : Direction) : list byte :=
  match d with
  | DirClientToHost => ascii_bytes "erd/udp-c2h/v3"
  | DirHostToClient => ascii_bytes "erd/udp-h2c/v3"
  end.

Inductive DatagramError : Type :=
| InvalidMasterKey
| InvalidSessionSalt
| CounterExhausted
| DgTruncated
| WrongDirection
| Replay
| Authentication
| InvalidHeader (e : CodecError).

(** ** [ReplayWindow] *)

Record ReplayWindow := mk_ReplayWindow {
  rw_highest_received : Z;
  rw_received_any : bool;
  rw_blocks : gmap Z Z;
}.
Definition window_default : ReplayWindow := mk_ReplayWindow 0 false ∅.

Definition mask (counter : Z) : Z := Z.shiftl 1 (counter mod 64).

Definition can_accept (counter : Z) (w : ReplayWindow) : bool :=
  if rw_received_any w && (counter <? rw_highest_received w) &&
     (REPLAY_WINDOW_SIZE <=? rw_highest_received w - counter)
  then false else
  match rw_blocks w !! (counter / 64) with
  | Some seen => Z.land seen (mask counter) =? 0
  | None => true
  end.

Definition oldest_block_of (highest : Z) : Z := sat_sub highest (sat_sub REPLAY_WINDOW_SIZE 1) / 64.

Definition record (counter : Z) (w : ReplayWindow) : ReplayWindow :=
  let block := counter / 64 in
  let blocks := <[block := Z.lor (default 0 (rw_blocks w !! block)) (mask counter)]> (rw_blocks w) in
  let previous_oldest_block := oldest_block_of (rw_highest_received w) in
  let newest := negb (rw_received_any w) || (rw_highest_received w <? counter) in
  let highest := if newest then counter else rw_highest_received w in
  let oldest_block := oldest_block_of highest in
  let blocks := if previous_oldest_block <? oldest_block then bt_retain (λ block _, oldest_block <=? block) blocks else blocks in
  mk_ReplayWindow highest (newest || rw_received_any w) blocks.

(** ** [DatagramCipher] *)

Record DatagramCipher := mk_DatagramCipher {
  dc_cipher : list byte;
  dc_nonce_prefix : list byte;
  dc_send_counter : Z;
  dc_replay : ReplayWindow;
}.
Definition with_send_counter (n : Z) (c : DatagramCipher) : DatagramCipher :=
  mk_DatagramCipher (dc_cipher c) (dc_nonce_prefix c) n (dc_replay c).
Definition with_replay (w : ReplayWindow) (c : DatagramCipher) : DatagramCipher :=
  mk_DatagramCipher (dc_cipher c) (dc_nonce_prefix c) (dc_send_counter c) w.

Section cipher.
(** [hkdf_sha256(ikm, salt, info, length)]; the cipher keyed with AES-256 keys:
    [encrypt_in_place_detached] gives the ciphertext and the tag, [decrypt] takes
    ciphertext and tag and gives the plaintext. *)
Variable hkdf_sha256 : list byte → list byte → list byte → Z → list byte.
Variable aes_gcm_encrypt : list byte → list byte → list byte → list byte → option (list byte * list byte).
Variable aes_gcm_decrypt : list byte → list byte → list byte → list byte → option (list byte).

Definition derive (master_key session_salt : list byte) (direction : Direction) : Result DatagramCipher DatagramError :=
  if negb (zlen master_key =? 32) then Err InvalidMasterKey else
  if negb (zlen session_salt =? 16) then Err InvalidSessionSalt else
  let udp_ikm := hkdf_sha256 master_key session_salt (ascii_bytes "erd/udp-ikm/v3") 32 in
  let key := hkdf_sha256 udp_ikm session_salt (info direction) 32 in
  let nonce_info := info direction ++ ascii_bytes "/nonce" in
  let prefix := hkdf_sha256 udp_ikm session_salt nonce_info 4 in
  Ok (mk_DatagramCipher key prefix 0 window_default).

(** The new cipher, the new buffer and the result. *)
Definition seal_into (plaintext aad output : list byte) (c : DatagramCipher) :
    DatagramCipher * list byte * Result unit DatagramError :=
  match checked_add64 (dc_send_counter c) 1 with
  | None => (c, output, Err CounterExhausted)
  | Some n =>
      let c := with_send_counter n c in
      let nonce_bytes := dc_nonce_prefix c ++ to_be 8 n in
      match aes_gcm_encrypt (dc_cipher c) nonce_bytes aad plaintext with
      | Some (ciphertext, tag) => (c, output ++ nonce_bytes ++ ciphertext ++ tag, Ok tt)
      | None => (c, output, Err Authentication)
      end
  end.

Definition seal (plaintext aad : list byte) (c : DatagramCipher) : DatagramCipher * Result (list byte) DatagramError :=
  match seal_into plaintext aad [] c with
  | (c, output, Ok _) => (c, Ok output)
  | (c, _, Err e) => (c, Err e)
  end.

Definition open (sealed aad : list byte) (c : DatagramCipher) : DatagramCipher * Result (list byte) DatagramError :=
  if zlen sealed <? NONCE_SIZE + TAG_SIZE then (c, Err DgTruncated) else
  if negb (bool_decide (take 4 sealed = dc_nonce_prefix c)) then (c, Err WrongDirection) else
  let counter := from_be (take 8 (drop 4 sealed)) in
  if negb (can_accept counter (dc_replay c)) then (c, Err Replay) else
  match aes_gcm_decrypt (dc_cipher c) (take 12 sealed) aad (drop 12 sealed) with
  | Some plaintext => (with_replay (record counter (dc_replay c)) c, Ok plaintext)
  | None => (c, Err Authentication)
  end.

Definition seal_datagram (header : PacketHeader) (payload : list byte) (c : DatagramCipher) :
    DatagramCipher * Result (list byte) DatagramError :=
  match PacketHeader_encode header with
  | Err e => (c, Err (InvalidHeader e))
  | Ok header_bytes =>
      match seal_into payload header_bytes header_bytes c with
      | (c, datagram, Ok _) => (c, Ok datagram)
      | (c, _, Err e) => (c, Err e)
      end
  end.

Definition open_datagram (datagram : list byte) (c : DatagramCipher) :
    DatagramCipher * Result (PacketHeader * list byte) DatagramError :=
  if zlen datagram <? HEADER_SIZE + NONCE_SIZE + TAG_SIZE then (c, Err DgTruncated) else
  let header_bytes := take 12 datagram in
  match PacketHeader_decode header_bytes with
  | Err e => (c, Err (InvalidHeader e))
  | Ok header =>
      match open (drop 12 datagram) header_bytes c with
      | (c, Ok payload) => (c, Ok (header, payload))
      | (c, Err e) => (c, Err e)
      end
  end.

(** Runs of a sender and of a receiver. *)
Fixpoint seal_all (msgs : list (PacketHeader * list byte)) (c : DatagramCipher) :
    DatagramCipher * list (Result (list byte) DatagramError) :=
  match msgs with
  | [] => (c, [])
  | (h, p) :: rest =>
      let '(c, r) := seal_datagram h p c in
      let '(c, rs) := seal_all rest c in (c, r :: rs)
  end.
Fixpoint open_all (datagrams : list (list byte)) (c : DatagramCipher) :
    DatagramCipher * list (Result (PacketHeader * list byte) DatagramError) :=
  match datagrams with
  | [] => (c, [])
  | d :: rest =>
      let '(c, r) := open_datagram d c in
      let '(c, rs) := open_all rest c in (c, r :: rs)
  end.
End cipher.

(** ** The window refines the set of accepted counters *)

Definition seen (w : ReplayWindow) (c : Z) : Prop := ∃ b, rw_blocks w !! (c / 64) = Some b ∧ Z.testbit b (c mod 64) = true.

(** [w] is the window after accepting exactly the counters [S]. *)
Record window_of (S : gset Z) (w : ReplayWindow) : Prop := {
  wo_any : rw_received_any w = true ↔ S ≠ ∅;
  wo_none : rw_received_any w = false → rw_highest_received w = 0;
  wo_highest : S ≠ ∅ → rw_highest_received w ∈ S;
  wo_max c : c ∈ S → 0 <= c <= rw_highest_received w;
  wo_seen c : 0 <= c → seen w c → c ∈ S;
  wo_kept c : c ∈ S → rw_highest_received w - c < REPLAY_WINDOW_SIZE → seen w c;
}.

(** What the window promises: a counter is acceptable if it is new and less than the
    window's size behind the newest. *)
Definition fresh (S : gset Z) (c : Z) : Prop := (c ∉ S) ∧ (∀ c', c' ∈ S → c' - c < REPLAY_WINDOW_SIZE).

Lemma mask_testbit a n : 0 <= n → Z.testbit (Z.shiftl 1 a) n = bool_decide (n = a).
Proof.
  intros Hn. destruct (Z.lt_ge_cases a 0) as [Ha|Ha].
  - rewrite Z.shiftl_spec by lia. case_bool_decide; [lia|]. apply Z.bits_above_log2; [lia|]. cbn. lia.
  - rewrite Z.shiftl_1_l, Z.pow2_bits_eqb by lia. case_bool_decide; lia.
Qed.

Lemma land_mask b c : (Z.land b (mask c) =? 0) = negb (Z.testbit b (c mod 64)).
Proof.
  pose proof (Z.mod_pos_bound c 64 ltac:(lia)) as Hm. unfold mask. destruct (Z.testbit b (c mod 64)) eqn:E; cbn [negb].
  - apply Z.eqb_neq. intros H0. assert (Z.testbit (Z.land b (Z.shiftl 1 (c mod 64))) (c mod 64) = false) as H1 by (rewrite H0; apply Z.bits_0).
    rewrite Z.land_spec, E, mask_testbit, bool_decide_eq_true_2 in H1 by lia. done.
  - apply Z.eqb_eq. apply Z.bits_inj'. intros n Hn. rewrite Z.land_spec, mask_testbit, Z.bits_0 by done.
    case_bool_decide as Hc; [subst n; by rewrite E|by rewrite andb_false_r].
Qed.

Lemma bits_unseen w c :
  match rw_blocks w !! (c / 64) with Some b => Z.land b (mask c) =? 0 | None => true end = true ↔ ¬ seen w c.
Proof.
  unfold seen. destruct (rw_blocks w !! (c / 64)) as [b|]; [|split; [by intros _ (? & ? & _)|done]]. rewrite land_mask.
  destruct (Z.testbit b (c mod 64)) eqn:E; cbn; split; try done; [intros H; destruct H; eauto|by intros _ (? & [= <-] & ?); congruence].
Qed.

Lemma can_accept_fresh S w c : window_of S w → 0 <= c → can_accept c w = true ↔ fresh S c.
Proof.
  intros [A1 A2 A3 A4 A5 A6] Hc. unfold can_accept, fresh.
  destruct (rw_received_any w && _ && _) eqn:E.
  - bool_hyps. split; [done|]. intros [_ Hf]. specialize (Hf _ (A3 (proj1 A1 ltac:(assumption)))). lia.
  - rewrite bits_unseen. assert (S ≠ ∅ → rw_highest_received w - c < REPLAY_WINDOW_SIZE) as Hw.
    { intros Hne. rewrite (proj2 A1 Hne) in E. cbn in E. unfold REPLAY_WINDOW_SIZE in *.
      destruct (Z.ltb_spec c (rw_highest_received w)); cbn in E; lia. }
    split.
    + intros Hs. split; [|intros c' Hc'; specialize (A4 _ Hc'); specialize (Hw ltac:(set_solver)); lia].
      intros Hin. apply Hs, A6; [done|]. apply Hw. set_solver.
    + intros [Hn _] Hs. by apply Hn, A5.
Qed.

Lemma record_seen w c c' : 0 <= c → 0 <= c' →
  seen (record c w) c' ↔ (c' = c ∨ seen w c') ∧
    (oldest_block_of (rw_highest_received w) < oldest_block_of (rw_highest_received (record c w)) →
     oldest_block_of (rw_highest_received (record c w)) <= c' / 64).
Proof.
  intros Hc Hc'. unfold record. cbv zeta. cbn [rw_highest_received]. set (hi := if negb (rw_received_any w) || (rw_highest_received w <? c) then c else rw_highest_received w).
  set (m := <[c / 64 := _]> (rw_blocks w)).
  assert ((∃ b, m !! (c' / 64) = Some b ∧ Z.testbit b (c' mod 64) = true) ↔ c' = c ∨ seen w c') as Hm.
  { subst m. unfold seen. pose proof (Z.mod_pos_bound c' 64 ltac:(lia)) as Hmod. pose proof (Z_div_mod_eq_full c 64). pose proof (Z_div_mod_eq_full c' 64).
    destruct (decide (c / 64 = c' / 64)) as [e|ne].
    - rewrite e, lookup_insert_eq. split.
      + intros (b & [= <-] & Hb). rewrite Z.lor_spec in Hb. unfold mask in Hb. rewrite mask_testbit in Hb by lia.
        destruct (rw_blocks w !! (c' / 64)) as [b|] eqn:E; cbn [default] in Hb; [|rewrite Z.bits_0 in Hb];
          destruct (bool_decide_reflect (c' mod 64 = c mod 64)); [left; lia| |left; lia|done].
        rewrite orb_false_r in Hb. eauto.
      + intros Hor. eexists. split; [done|]. rewrite Z.lor_spec. unfold mask. rewrite mask_testbit by lia.
        destruct Hor as [->|(b & -> & Hb)]; [rewrite bool_decide_eq_true_2 by done; apply orb_true_r|cbn; by rewrite Hb].
    - rewrite lookup_insert_ne by done. split; [by right|]. by intros [->|Hs]. }
  unfold seen at 1. cbn [rw_blocks]. destruct (Z.ltb_spec (oldest_block_of (rw_highest_received w)) (oldest_block_of hi)); [|rewrite Hm; split; [intros ?; split; [done|lia]|by intros []]].
  rewrite <- Hm. split.
  - intros (b & [Hb Ho%Z.leb_le]%bt_retain_Some & Ht). split; eauto.
  - intros ((b & Hb & Ht) & Ho). exists b. split; [|done]. apply bt_retain_Some. split; [done|]. apply Z.leb_le. by apply Ho.
Qed.

Lemma record_window S w c : window_of S w → 0 <= c → fresh S c → window_of ({[c]} ∪ S) (record c w).
Proof.
  intros [A1 A2 A3 A4 A5 A6] Hc [Hn Hf].
  assert (rw_highest_received (record c w) = Z.max c (rw_highest_received w)) as Hh.
  { cbn. destruct (rw_received_any w) eqn:E; cbn; [destruct (Z.ltb_spec (rw_highest_received w) c); lia|]. rewrite (A2 eq_refl). lia. }
  assert (rw_received_any (record c w) = true) as Ha by (cbn; destruct (rw_received_any w); [by rewrite orb_true_r|done]).
  assert (∀ c', c' ∈ S → 0 <= c' <= Z.max c (rw_highest_received w)) as Hm by (intros c' Hin; specialize (A4 _ Hin); lia).
  assert (0 <= rw_highest_received w).
  { destruct (rw_received_any w) eqn:E; [|rewrite (A2 eq_refl); lia]. assert (S ≠ ∅) as Hne by (by apply A1). by apply (A4 _ (A3 Hne)). }
  split.
  - rewrite Ha. set_solver.
  - by rewrite Ha.
  - intros _. rewrite Hh. destruct (Z.max_spec c (rw_highest_received w)) as [[? ->]|[? ->]]; [|set_solver].
    assert (S ≠ ∅) by (apply A1; destruct (rw_received_any w) eqn:E; [done|rewrite (A2 eq_refl) in *; lia]). set_solver.
  - rewrite Hh. intros c' [->%elem_of_singleton|Hin]%elem_of_union; [lia|by apply Hm].
  - intros c' H0 Hs. destruct (proj1 (record_seen w c c' Hc H0) Hs) as [[->|Hs'] _]; apply elem_of_union; [left; by apply elem_of_singleton|right; by apply A5].
  - intros c' Hin Hk. rewrite Hh in Hk. assert (0 <= c') by (apply elem_of_union in Hin as [->%elem_of_singleton|Hin]; [lia|apply Hm in Hin; lia]).
    apply record_seen; [done|done|]. split.
    + apply elem_of_union in Hin as [->%elem_of_singleton|Hin]; [by left|]. right. apply A6; [done|]. specialize (A4 _ Hin). lia.
    + intros _. rewrite Hh. unfold oldest_block_of, sat_sub, REPLAY_WINDOW_SIZE in *. apply Z.div_le_mono; lia.
Qed.

Lemma window_default_of : window_of ∅ window_default.
Proof. split; try done; try set_solver. intros c _ (b & Hb & _). done. Qed.

(** ** Datagrams *)

Section delivery.
Context (aes_gcm_encrypt : list byte → list byte → list byte → list byte → option (list byte * list byte)).
Context (aes_gcm_decrypt : list byte → list byte → list byte → list byte → option (list byte)).
(** AES-GCM has 16-byte tags and opens what it sealed. *)
Hypothesis tag_length : ∀ k n a p c t, aes_gcm_encrypt k n a p = Some (c, t) → zlen t = TAG_SIZE.
Hypothesis decrypt_encrypt : ∀ k n a p c t, aes_gcm_encrypt k n a p = Some (c, t) → aes_gcm_decrypt k n a (c ++ t) = Some p.

Abbreviation seal_datagram := (seal_datagram aes_gcm_encrypt).
Abbreviation seal_all := (seal_all aes_gcm_encrypt).
Abbreviation open_datagram := (open_datagram aes_gcm_decrypt).
Abbreviation open_all := (open_all aes_gcm_decrypt).

Definition header_part (d : list byte) : list byte := take 12 d.
Definition nonce_part (d : list byte) : list byte := take 12 (drop 12 d).
Definition sealed_part (d : list byte) : list byte := drop 12 (drop 12 d).

(** [d] is the datagram with counter [n] of message [m] under the key of [c]. *)
Definition sealed_as (c : DatagramCipher) (n : Z) (m : PacketHeader * list byte) (d : list byte) : Prop :=
  ∃ ct t, d = PacketHeader_to_bytes m.1 ++ dc_nonce_prefix c ++ to_be 8 n ++ ct ++ t ∧
    aes_gcm_encrypt (dc_cipher c) (dc_nonce_prefix c ++ to_be 8 n) (PacketHeader_to_bytes m.1) m.2 = Some (ct, t).

Lemma header_length h : length (PacketHeader_to_bytes h) = 12%nat.
Proof.
  assert (zlen (PacketHeader_to_bytes h) = 12) as H; [|unfold zlen in H; lia].
  unfold PacketHeader_to_bytes. rewrite !zlen_app. by autorewrite with zl.
Qed.

Lemma seal_datagram_cases m c c' r : seal_datagram m.1 m.2 c = (c', r) →
  (dc_send_counter c = u64_max → c' = c ∧ r = Err CounterExhausted) ∧
  (dc_send_counter c < u64_max → c' = with_send_counter (dc_send_counter c + 1) c ∧
     ∀ d, r = Ok d → sealed_as c (dc_send_counter c + 1) m d).
Proof.
  unfold RdUdp.seal_datagram, seal_into, checked_add64. cbn [PacketHeader_encode]. intros H. split; intros Hc.
  - rewrite Hc in H. cbn in H. by injection H as <- <-.
  - destruct (Z.leb_spec (dc_send_counter c + 1) u64_max); [|lia].
    destruct (aes_gcm_encrypt _ _ _ _) as [[ct t]|] eqn:E; injection H as <- <-; (split; [done|]); [|done].
    intros d [= <-]. exists ct, t. cbn in E. by rewrite <- app_assoc.
Qed.

Lemma seal_all_nth msgs c c' out i d : 0 <= dc_send_counter c <= u64_max →
  seal_all msgs c = (c', out) → out !! i = Some (Ok d) →
  dc_send_counter c + Z.of_nat i + 1 <= u64_max ∧ ∃ m, msgs !! i = Some m ∧ sealed_as c (dc_send_counter c + Z.of_nat i + 1) m d.
Proof.
  revert c out i. induction msgs as [|[h p] msgs IH]; intros c out i Hc; cbn [RdUdp.seal_all]; [by intros [= <- <-] Hi|].
  destruct (seal_datagram h p c) as [c1 r] eqn:E. destruct (seal_all msgs c1) as [c2 rs] eqn:E2. intros He Hi. injection He as <- <-.
  apply (seal_datagram_cases (h, p)) in E as [E0 E1].
  destruct (Z.eq_dec (dc_send_counter c) u64_max) as [e|ne].
  - destruct (E0 e) as [-> ->]. destruct i as [|i]; [done|]. destruct (IH c rs i Hc E2 Hi) as [Hm _]. lia.
  - destruct E1 as [-> E1]; [lia|]. destruct i as [|i]; cbn in Hi.
    + injection Hi as ->. split; [lia|]. exists (h, p). split; [done|]. rewrite Z.add_0_r. by apply E1.
    + destruct (IH (with_send_counter (dc_send_counter c + 1) c) rs i ltac:(cbn; lia) E2 Hi) as (Hm & m & Hmi & Hs). cbn in Hm, Hs. split; [lia|]. exists m. split; [done|].
      replace (dc_send_counter c + Z.of_nat (S i) + 1) with (dc_send_counter c + 1 + Z.of_nat i + 1) by lia. exact Hs.
Qed.

(** The parts of a sealed datagram. *)
Lemma sealed_parts c n m d : length (dc_nonce_prefix c) = 4%nat → sealed_as c n m d →
  header_part d = PacketHeader_to_bytes m.1 ∧ nonce_part d = dc_nonce_prefix c ++ to_be 8 n ∧
  aes_gcm_decrypt (dc_cipher c) (nonce_part d) (header_part d) (sealed_part d) = Some m.2 ∧ HEADER_SIZE + NONCE_SIZE + TAG_SIZE <= zlen d.
Proof.
  intros Hp (ct & t & -> & E). unfold header_part, nonce_part, sealed_part. pose proof (header_length m.1) as Hh.
  assert (length (dc_nonce_prefix c ++ to_be 8 n) = 12%nat) as Hn by (rewrite length_app, length_to_be; lia).
  rewrite take_app_length' by done. rewrite !drop_app_length' by done. rewrite (app_assoc (dc_nonce_prefix c)).
  rewrite take_app_length', drop_app_length' by done. split; [done|]. split; [done|]. split; [by eapply decrypt_encrypt|].
  rewrite !zlen_app, (tag_length _ _ _ _ _ _ E), <- zlen_app. unfold zlen. rewrite Hh, Hn. unfold HEADER_SIZE, NONCE_SIZE, TAG_SIZE. lia.
Qed.

(** Opening, by whether the datagram authenticates. *)
Lemma open_datagram_spec c d m n : length (dc_nonce_prefix c) = 4%nat → 0 <= n <= u64_max → holds m.1 = true → sealed_as c n m d →
  open_datagram d c = if can_accept n (dc_replay c) then (with_replay (record n (dc_replay c)) c, Ok m) else (c, Err Replay).
Proof.
  intros Hp Hn Hh Hs. destruct (sealed_parts c n m d Hp Hs) as (E1 & E2 & E3 & E4).
  unfold RdUdp.open_datagram. destruct (Z.ltb_spec (zlen d) (HEADER_SIZE + NONCE_SIZE + TAG_SIZE)); [lia|]. cbv zeta.
  fold (header_part d). rewrite E1. assert (PacketHeader_decode (PacketHeader_to_bytes m.1) = Ok m.1) as ->
    by exact (canon_decode_encode m.1 _ Hh eq_refl).
  unfold open. assert (zlen (drop 12 d) = zlen d - 12) as Hl by (apply (zlen_drop 12); unfold HEADER_SIZE, NONCE_SIZE, TAG_SIZE in *; lia).
  destruct (Z.ltb_spec (zlen (drop 12 d)) (NONCE_SIZE + TAG_SIZE)); [unfold HEADER_SIZE in *; lia|].
  assert (take 4 (drop 12 d) = dc_nonce_prefix c) as E5.
  { unfold nonce_part in E2. rewrite <- (take_app_length' (dc_nonce_prefix c) (to_be 8 n) 4), <- E2 by done. by rewrite take_take. }
  rewrite bool_decide_eq_true_2 by done. cbn [negb].
  assert (take 8 (drop 4 (drop 12 d)) = to_be 8 n) as ->.
  { unfold nonce_part in E2. rewrite <- (drop_app_length' (dc_nonce_prefix c) (to_be 8 n) 4), <- E2 by done. by rewrite skipn_firstn_comm. }
  rewrite from_to_be, Z.mod_small by (unfold u64_max in *; lia). destruct (can_accept n (dc_replay c)); [|done]. cbn [negb].
  fold (nonce_part d). change (drop 12 (drop 12 d)) with (sealed_part d). rewrite E1 in E3. rewrite E3. by destruct m.
Qed.

Lemma open_datagram_forged c d : aes_gcm_decrypt (dc_cipher c) (nonce_part d) (header_part d) (sealed_part d) = None →
  ∃ e, open_datagram d c = (c, Err e).
Proof.
  intros Hd. unfold RdUdp.open_datagram. destruct (_ <? _); [eauto|]. cbv zeta. destruct (PacketHeader_decode _) as [h|]; [|eauto].
  unfold open. destruct (_ <? _); [eauto|]. destruct (negb _); [eauto|]. cbv zeta. destruct (negb _); [eauto|].
  change (aes_gcm_decrypt (dc_cipher c) (take 12 (drop 12 d)) (take 12 d) (drop 12 (drop 12 d)) = None) in Hd. rewrite Hd. eauto.
Qed.

(** ** Runs *)

(** What is sent: [out] holds the datagrams of [msgs] in order, with counters from 1. *)
Definition sent (msgs : list (PacketHeader * list byte)) (out : list (Result (list byte) DatagramError))
    (i : nat) (m : PacketHeader * list byte) (d : list byte) : Prop :=
  msgs !! i = Some m ∧ out !! i = Some (Ok d).
Definition opened (res : list (Result (PacketHeader * list byte) DatagramError)) (k : nat) : Prop := ∃ m, res !! k = Some (Ok m).

Context (c : DatagramCipher) (msgs : list (PacketHeader * list byte)) (out : list (Result (list byte) DatagramError)).
Context (c_end : DatagramCipher).
Hypothesis prefix_length : length (dc_nonce_prefix c) = 4%nat.
Hypothesis from_zero : dc_send_counter c = 0.
Hypothesis msgs_hold : ∀ m, m ∈ msgs → holds m.1 = true.
Hypothesis sealed_out : seal_all msgs c = (c_end, out).

Lemma sent_sealed i m d : sent msgs out i m d → Z.of_nat i + 1 <= u64_max ∧ sealed_as c (Z.of_nat i + 1) m d.
Proof.
  intros [Hm Ho]. destruct (seal_all_nth msgs c c_end out i d ltac:(rewrite from_zero; unfold u64_max; lia) sealed_out Ho) as (Hi & m' & Hm' & Hs).
  rewrite from_zero in *. rewrite Hm in Hm'. injection Hm' as <-. done.
Qed.

Lemma sent_index i j m m' d d' : sent msgs out i m d → sent msgs out j m' d' → nonce_part d = nonce_part d' → i = j.
Proof.
  intros [Hi Hd]%sent_sealed [Hj Hd']%sent_sealed Hn.
  destruct (sealed_parts c _ _ _ prefix_length Hd) as (_ & E & _). destruct (sealed_parts c _ _ _ prefix_length Hd') as (_ & E' & _).
  rewrite E, E' in Hn. apply app_inv_head in Hn. assert (Z.of_nat i + 1 = Z.of_nat j + 1); [|lia].
  rewrite <- (Z.mod_small (Z.of_nat i + 1) (256 ^ Z.of_nat 8)), <- (Z.mod_small (Z.of_nat j + 1) (256 ^ Z.of_nat 8)) by (unfold u64_max in *; lia).
  by rewrite <- !from_to_be, Hn.
Qed.

Lemma sent_mem i m d : sent msgs out i m d → m ∈ msgs.
Proof. intros [Hm _]. by eapply list_elem_of_lookup_2. Qed.

(** A receiver with the keys of [c] whose window accepted the counters of [S]. *)
Definition receiver (S : gset Z) (r : DatagramCipher) : Prop :=
  dc_cipher r = dc_cipher c ∧ dc_nonce_prefix r = dc_nonce_prefix c ∧ window_of S (dc_replay r).

Lemma receiver_opens S r i m d : receiver S r → sent msgs out i m d →
  (fresh S (Z.of_nat i + 1) ∧ ∃ r', open_datagram d r = (r', Ok m) ∧ receiver ({[Z.of_nat i + 1]} ∪ S) r') ∨
  (¬ fresh S (Z.of_nat i + 1) ∧ open_datagram d r = (r, Err Replay)).
Proof.
  intros (K1 & K2 & K3) Hs. pose proof (msgs_hold m (sent_mem _ _ _ Hs)) as Hh. apply sent_sealed in Hs as [Hi Hs].
  assert (sealed_as r (Z.of_nat i + 1) m d) as Hs' by (unfold sealed_as in *; by rewrite K1, K2).
  rewrite (open_datagram_spec r d m (Z.of_nat i + 1)) by (done || lia || by rewrite K2).
  pose proof (can_accept_fresh S _ (Z.of_nat i + 1) K3 ltac:(lia)) as Hf. destruct (can_accept _ _).
  - left. split; [by apply Hf|]. eexists. split; [done|]. split; [done|]. split; [done|]. apply record_window; [done|lia|by apply Hf].
  - right. split; [|done]. intros H. apply Hf in H. done.
Qed.

Definition authentic_or_rejected (d : list byte) : Prop :=
  (∃ i m, sent msgs out i m d) ∨ aes_gcm_decrypt (dc_cipher c) (nonce_part d) (header_part d) (sealed_part d) = None.

Lemma open_all_spec rs r r_end res S : receiver S r → Forall authentic_or_rejected rs → open_all rs r = (r_end, res) →
  (∀ k m, res !! k = Some (Ok m) → ∃ i d, rs !! k = Some d ∧ sent msgs out i m d ∧ Z.of_nat i + 1 ∉ S) ∧
  (∀ j k d, (j < k)%nat → rs !! j = Some d → rs !! k = Some d → opened res j → ¬ opened res k) ∧
  (∀ k i m d, rs !! k = Some d → sent msgs out i m d → fresh S (Z.of_nat i + 1) → (∀ j, (j < k)%nat → rs !! j ≠ Some d) →
     (∀ j i' m' d', (j < k)%nat → rs !! j = Some d' → sent msgs out i' m' d' → Z.of_nat i' < Z.of_nat i + REPLAY_WINDOW_SIZE) →
     res !! k = Some (Ok m)).
Proof.
  intros Hr Ha. revert r res S Hr. induction Ha as [|d rs Hd Ha IH]; intros r res S Hr; cbn [RdUdp.open_all];
    [intros [= <- <-]; split_and!; intros *; rewrite ?lookup_nil; try done; by intros _ ?%lookup_nil_Some|].
  destruct (open_datagram d r) as [r1 x] eqn:E. destruct (open_all rs r1) as [r2 xs] eqn:E2. intros He. injection He as <- <-.
  assert (∃ S', receiver S' r1 ∧ S ⊆ S' ∧
    (∀ m, x = Ok m → ∃ i, sent msgs out i m d ∧ (Z.of_nat i + 1 ∉ S) ∧ S' = {[Z.of_nat i + 1]} ∪ S) ∧
    (∀ i m, sent msgs out i m d → fresh S (Z.of_nat i + 1) → x = Ok m) ∧
    (∀ n, n ∈ S' → n ∈ S ∨ ∃ i m, sent msgs out i m d ∧ n = Z.of_nat i + 1)) as (S' & Hr1 & Hsub & Hx & Hy & Hn).
  { destruct Hd as [(i & m & Hs)|Hf].
    - destruct (receiver_opens S r i m d Hr Hs) as [(Hf & r' & E' & Hr')|(Hf & E')]; rewrite E in E'; injection E' as -> ->.
      + exists ({[Z.of_nat i + 1]} ∪ S). split; [done|]. split; [set_solver|]. split; [intros ? [= <-]; exists i; by destruct Hf|].
        split; [|set_solver]. intros i' m' Hs' _. assert (i = i') as -> by (eapply sent_index; eauto). destruct Hs as [Hs _], Hs' as [Hs' _]. congruence.
      + exists S. split; [done|]. split; [done|]. split; [done|]. split; [|auto]. intros i' m' Hs' Hf'.
        assert (i = i') as -> by (eapply sent_index; eauto). done.
    - assert (∃ e, open_datagram d r = (r, Err e)) as [e Ee] by (apply open_datagram_forged; destruct Hr as (-> & _); done).
      rewrite E in Ee. injection Ee as -> ->. exists S. split; [done|]. split; [done|]. split; [done|]. split; [|auto].
      intros i m Hs Hfr. apply sent_sealed in Hs as [_ Hs]. destruct (sealed_parts c _ _ _ prefix_length Hs) as (_ & _ & Hs' & _). congruence. }
  destruct (IH r1 xs S' Hr1 E2) as (I1 & I2 & I3). split_and!.
  - intros [|k] m Hk; cbn in Hk.
    + injection Hk as ->. destruct (Hx m eq_refl) as (i & Hs & Hi & _). by exists i, d.
    + destruct (I1 k m Hk) as (i & d' & Hk' & Hs & Hi). exists i, d'. split; [done|]. split; [done|]. set_solver.
  - intros [|j] [|k] d' Hjk Hj Hk [m Hm]; try lia; cbn in *; [|intros Ho; apply (I2 j k d'); [lia|done|done|by exists m|done]].
    injection Hj as <-. injection Hm as ->. intros [m' Hm']. destruct (I1 k m' Hm') as (i' & d'' & Hk' & Hs' & Hi'). assert (Some d = Some d'') as Hdd by (etransitivity; [symmetry; exact Hk|exact Hk']). injection Hdd as <-.
    destruct (Hx m eq_refl) as (i & Hs & _ & ->). assert (i = i') as -> by (eapply sent_index; eauto). set_solver.
  - intros [|k] i m d' Hk Hs Hf Hnd Hw; cbn in *; [injection Hk as <-; f_equal; by eapply Hy|].
    apply (I3 k i m d'); [done|done| |intros j Hj; apply (Hnd (Datatypes.S j)); lia|intros j i' m' d'' Hj; apply (Hw (Datatypes.S j)); lia].
    destruct Hf as [Hf1 Hf2]. split.
    + intros [Hin|(i' & m' & Hs' & e)]%Hn; [done|]. assert (i = i') as -> by lia. apply (Hnd 0%nat); [lia|]. cbn. f_equal. destruct Hs as [_ Hs], Hs' as [_ Hs']. congruence.
    + intros n [Hin|(i' & m' & Hs' & ->)]%Hn; [by apply Hf2|]. specialize (Hw 0%nat i' m' d ltac:(lia) eq_refl Hs'). lia.
Qed.
End delivery.

(** A derived cipher has a prefix of four bytes, has sent nothing and has accepted nothing. *)
Lemma derived_cipher hkdf_sha256 master_key session_salt direction c :
  (∀ ikm salt i n, 0 <= n → zlen (hkdf_sha256 ikm salt i n) = n) → derive hkdf_sha256 master_key session_salt direction = Ok c →
  length (dc_nonce_prefix c) = 4%nat ∧ dc_send_counter c = 0 ∧ receiver c ∅ c.
Proof.
  intros Hl Hd. unfold derive in Hd. destruct (negb _); [done|]. destruct (negb _); [done|]. apply Ok_inj in Hd. subst c.
  split; [apply Nat2Z.inj; refine (Hl _ _ _ 4 _); lia|]. split; [done|]. split; [done|]. split; [done|]. apply window_default_of.
Qed.

(** C21: What a receiver opens.  A sender seals messages under a derived key; a network
    loses, repeats, reorders and forges.  No nonce is used twice; every message the
    receiver opens was sent, with the header and payload it was sent with; no datagram
    is opened twice; and a datagram that arrives for the first time is opened unless one
    sent 4096 or more datagrams later came before it. *)
Theorem udp_delivery hkdf_sha256 aes_gcm_encrypt aes_gcm_decrypt master_key session_salt direction c msgs c_end out rs r_end res :
  (∀ ikm salt i n, 0 <= n → zlen (hkdf_sha256 ikm salt i n) = n) →
  (∀ k n a p ct t, aes_gcm_encrypt k n a p = Some (ct, t) → zlen t = TAG_SIZE) →
  (∀ k n a p ct t, aes_gcm_encrypt k n a p = Some (ct, t) → aes_gcm_decrypt k n a (ct ++ t) = Some p) →
  derive hkdf_sha256 master_key session_salt direction = Ok c →
  (∀ m, m ∈ msgs → holds m.1 = true) →
  seal_all aes_gcm_encrypt msgs c = (c_end, out) →
  Forall (authentic_or_rejected aes_gcm_decrypt c msgs out) rs →
  open_all aes_gcm_decrypt rs c = (r_end, res) →
  (∀ i j m m' d d', sent msgs out i m d → sent msgs out j m' d' → i ≠ j → nonce_part d ≠ nonce_part d') ∧
  (∀ k m, res !! k = Some (Ok m) → ∃ i d, rs !! k = Some d ∧ sent msgs out i m d) ∧
  (∀ j k d, (j < k)%nat → rs !! j = Some d → rs !! k = Some d → opened res j → ¬ opened res k) ∧
  (∀ k i m d, rs !! k = Some d → sent msgs out i m d → (∀ j, (j < k)%nat → rs !! j ≠ Some d) →
     (∀ j i' m' d', (j < k)%nat → rs !! j = Some d' → sent msgs out i' m' d' → Z.of_nat i' < Z.of_nat i + REPLAY_WINDOW_SIZE) →
     res !! k = Some (Ok m)).
Proof.
  intros Hl Ht Hde Hd Hh Hs Ha Ho. destruct (derived_cipher _ _ _ _ _ Hl Hd) as (Hp & H0 & Hr).
  destruct (open_all_spec aes_gcm_encrypt aes_gcm_decrypt Ht Hde c msgs out c_end Hp H0 Hh Hs rs c r_end res ∅ Hr Ha Ho) as (I1 & I2 & I3).
  split_and!.
  - intros i j m m' d d' Hi Hj Hij Hn. by apply Hij, (sent_index aes_gcm_encrypt aes_gcm_decrypt Ht Hde c msgs out c_end Hp H0 Hs i j m m' d d').
  - intros k m Hk. destruct (I1 k m Hk) as (i & d & Hd1 & Hd2 & _). eauto.
  - exact I2.
  - intros k i m d Hk Hm Hj Hw. apply (I3 k i m d Hk Hm); [|done|done]. split; set_solver.
Qed.

(** A cipher whose tag is the nonce. *)
Definition demo_hkdf (_ _ _ : list byte) (n : Z) : list byte := replicate (Z.to_nat n) x07.
Definition demo_tag (n : list byte) : list byte := take 16 (n ++ replicate 16 x00).
Definition demo_encrypt (_ n _ p : list byte) : option (list byte * list byte) := Some (p, demo_tag n).
Definition demo_decrypt (_ n _ m : list byte) : option (list byte) :=
  if bool_decide (drop (length m - 16) m = demo_tag n) then Some (take (length m - 16) m) else None.
Definition demo_msgs : list (PacketHeader * list byte) :=
  [(mk_PacketHeader PtFrameChunk 1 0 0, [x61]); (mk_PacketHeader PtFrameChunk 2 0 0, [x62; x63])].
Definition demo_cipher : DatagramCipher := mk_DatagramCipher (replicate 32 x07) (replicate 4 x07) 0 window_default.
Definition demo_d1 : list byte := Eval vm_compute in
  match (seal_all demo_encrypt demo_msgs demo_cipher).2 with Ok d :: _ => d | _ => [] end.
Definition demo_d2 : list byte := Eval vm_compute in
  match (seal_all demo_encrypt demo_msgs demo_cipher).2 with _ :: Ok d :: _ => d | _ => [] end.
Definition demo_received : list (list byte) := [demo_d2; demo_d2 ++ [x01]; demo_d1; demo_d2].

Lemma demo_tag_length n : zlen (demo_tag n) = TAG_SIZE.
Proof. unfold demo_tag, zlen, TAG_SIZE. rewrite length_take, length_app, length_replicate. lia. Qed.
Lemma demo_decrypt_encrypt k n a p c t : demo_encrypt k n a p = Some (c, t) → demo_decrypt k n a (c ++ t) = Some p.
Proof.
  unfold demo_encrypt, demo_decrypt. intros E. assert (c = p) as -> by congruence. assert (t = demo_tag n) as -> by congruence.
  pose proof (demo_tag_length n) as Hl. unfold zlen, TAG_SIZE in Hl.
  assert (length (p ++ demo_tag n) - 16 = length p)%nat as -> by (rewrite length_app; lia).
  rewrite drop_app_length, take_app_length. by rewrite bool_decide_eq_true_2.
Qed.
Lemma demo_authentic : Forall (authentic_or_rejected demo_decrypt demo_cipher demo_msgs [Ok demo_d1; Ok demo_d2]) demo_received.
Proof.
  assert (sent demo_msgs [Ok demo_d1; Ok demo_d2] 0 (mk_PacketHeader PtFrameChunk 1 0 0, [x61]) demo_d1) as H1 by done.
  assert (sent demo_msgs [Ok demo_d1; Ok demo_d2] 1 (mk_PacketHeader PtFrameChunk 2 0 0, [x62; x63]) demo_d2) as H2 by done.
  apply Forall_cons; split; [left; by eexists _, _|]. apply Forall_cons; split; [right; vm_compute; reflexivity|].
  apply Forall_cons; split; [left; by eexists _, _|]. apply Forall_cons; split; [left; by eexists _, _|]. by apply Forall_nil.
Qed.

Lemma udp_delivery_witness : ∃ r_end res,
  open_all demo_decrypt demo_received demo_cipher = (r_end, res) ∧
  res !! 0%nat = Some (Ok (mk_PacketHeader PtFrameChunk 2 0 0, [x62; x63])) ∧
  res !! 2%nat = Some (Ok (mk_PacketHeader PtFrameChunk 1 0 0, [x61])) ∧ ¬ opened res 3.
Proof.
  destruct (open_all demo_decrypt demo_received demo_cipher) as [r_end res] eqn:E.
  destruct (seal_all demo_encrypt demo_msgs demo_cipher) as [c_end out] eqn:Es.
  assert (out = [Ok demo_d1; Ok demo_d2]) as -> by (transitivity (seal_all demo_encrypt demo_msgs demo_cipher).2; [by rewrite Es|vm_compute; reflexivity]).
  destruct (udp_delivery demo_hkdf demo_encrypt demo_decrypt (replicate 32 x00) (replicate 16 x00) DirClientToHost demo_cipher demo_msgs c_end
    [Ok demo_d1; Ok demo_d2] demo_received r_end res) as (_ & _ & H3 & H4).
  - intros a b i n Hn. unfold demo_hkdf, zlen. rewrite length_replicate. lia.
  - intros k n a p c t Ht. assert (t = demo_tag n) as -> by (unfold demo_encrypt in Ht; congruence). apply demo_tag_length.
  - apply demo_decrypt_encrypt.
  - vm_compute; reflexivity.
  - intros m Hm. repeat (apply elem_of_cons in Hm as [->|Hm]; [reflexivity|]). by apply elem_of_nil in Hm.
  - exact Es.
  - exact demo_authentic.
  - exact E.
  - assert (res !! 0%nat = Some (Ok (mk_PacketHeader PtFrameChunk 2 0 0, [x62; x63]))) as H0
      by (apply (H4 0%nat 1%nat _ demo_d2); [done|done|lia|lia]).
    exists r_end, res. split; [done|]. split; [done|]. split.
    + apply (H4 2%nat 0%nat _ demo_d1); [done|done| |].
      * intros [|[|[|j]]] Hj; try lia; discriminate.
      * intros j i' m' d' _ _ [_ Ho]. apply lookup_lt_Some in Ho. cbn in Ho. unfold REPLAY_WINDOW_SIZE. lia.
    + apply (H3 0%nat 3%nat demo_d2); [lia|done|done|by eexists].
Defined.
