(* ===== verification/RdAssembly.v ===== *)
(** * RdAssembly (crates/ferryx-rd/ferryx-rd-app/src: media.rs, media_recovery.rs)

    The frame assembler of the remote desktop client: headers, chunks and parities of
    video frames arrive in any order, in part or not at all, and complete frames come
    out.  With it the requests for missing chunks.  Instants and durations are
    nanoseconds.  A [HashMap] is a finite map; where the order of its iteration could show
    (the order of loss records made at one instant) it is ascending.  The trace and the
    statistics on [f64] (loss ratios, delay gradient) read this state and are left out; a loss
    ratio given to a request is the permille it is rounded to. *)

From S2P Require Import Prelude Wire RdCodec RdMedia RdFec.
From Stdlib Require Import ZArith Lia Strings.Byte.
From stdpp Require Import base option gmap strings list_numbers list.

#[local] Open Scope Z_scope.

(** [Duration::from_millis] *)
Definition ms (n : Z) : Z := n * 1000000.

Definition SERIAL_HALF_RANGE : Z := Z.shiftl 1 31.
Definition MAX_ORPHAN_FRAMES : Z := 16.
Definition MAX_INCOMPLETE_FRAMES : Z := 16.
Definition MAX_LOSS_SAMPLES : Z := 4096.
Definition ASSEMBLY_TIMEOUT : Z := ms 1000.
Definition LOSS_WINDOW : Z := ms 5000.
Definition NACK_GRACE : Z := ms 4.
Definition NACK_INTERVAL : Z := ms 12.
Definition RECOVERY_DEADLINE : Z := ms 100.
Definition MAX_NACKS : Z := 3.
Definition MAX_PARITY_BYTES : Z := 2 * 1024 * 1024.

#[global] Instance FrameHeader_eq_dec : EqDecision FrameHeader.
Proof. solve_decision. Defined.

Record AssembledFrame := mk_AssembledFrame {
  af_frame_header : FrameHeader;
  af_frame_data : list byte;
  af_timestamp_ms : Z;
}.

Record FrameAssembly := mk_FrameAssembly {
  fa_header : FrameHeader;
  fa_chunks : gmap Z (list byte);
  fa_started : Z;
  fa_timestamp_ms : Z;
  fa_payload_bytes : Z;
  fa_parity : gmap Z FrameParity;
  fa_recovered : Z;
  fa_nack_at : option Z;
  fa_nack_count : Z;
}.
Definition with_chunks (chunks : gmap Z (list byte)) (payload_bytes : Z) (a : FrameAssembly) : FrameAssembly :=
  mk_FrameAssembly (fa_header a) chunks (fa_started a) (fa_timestamp_ms a) payload_bytes (fa_parity a) (fa_recovered a)
    (fa_nack_at a) (fa_nack_count a).
Definition with_parity (parity : gmap Z FrameParity) (a : FrameAssembly) : FrameAssembly :=
  mk_FrameAssembly (fa_header a) (fa_chunks a) (fa_started a) (fa_timestamp_ms a) (fa_payload_bytes a) parity (fa_recovered a)
    (fa_nack_at a) (fa_nack_count a).
Definition with_recovered (n : Z) (a : FrameAssembly) : FrameAssembly :=
  mk_FrameAssembly (fa_header a) (fa_chunks a) (fa_started a) (fa_timestamp_ms a) (fa_payload_bytes a) (fa_parity a) n
    (fa_nack_at a) (fa_nack_count a).
Definition with_start (started timestamp_ms : Z) (a : FrameAssembly) : FrameAssembly :=
  mk_FrameAssembly (fa_header a) (fa_chunks a) started timestamp_ms (fa_payload_bytes a) (fa_parity a) (fa_recovered a)
    (fa_nack_at a) (fa_nack_count a).
Definition with_nack (nack_at : option Z) (nack_count : Z) (a : FrameAssembly) : FrameAssembly :=
  mk_FrameAssembly (fa_header a) (fa_chunks a) (fa_started a) (fa_timestamp_ms a) (fa_payload_bytes a) (fa_parity a)
    (fa_recovered a) nack_at nack_count.

Record OrphanAssembly := mk_OrphanAssembly {
  oa_chunks : gmap Z (list byte);
  oa_started : Z;
}.

Inductive MediaAssemblyError : Type := MeInvalidHeader | InvalidChunkIndex | SizeMismatch.

Record FrameAssembler := mk_FrameAssembler {
  as_frames : gmap Z FrameAssembly;
  as_orphans : gmap Z OrphanAssembly;
  as_expected_frame_id : option Z;
  as_recent_loss : list (Z * Z * Z);
  as_recent_chunk_loss : list (Z * Z * Z);
  as_completed_frames : Z;
  as_completed_started_at : option Z;
}.
Definition assembler_default : FrameAssembler := mk_FrameAssembler ∅ ∅ None [] [] 0 None.

Definition with_frames (v : gmap Z FrameAssembly) (s : FrameAssembler) : FrameAssembler :=
  mk_FrameAssembler v (as_orphans s) (as_expected_frame_id s) (as_recent_loss s) (as_recent_chunk_loss s)
    (as_completed_frames s) (as_completed_started_at s).
Definition with_orphans (v : gmap Z OrphanAssembly) (s : FrameAssembler) : FrameAssembler :=
  mk_FrameAssembler (as_frames s) v (as_expected_frame_id s) (as_recent_loss s) (as_recent_chunk_loss s)
    (as_completed_frames s) (as_completed_started_at s).
Definition with_expected (v : option Z) (s : FrameAssembler) : FrameAssembler :=
  mk_FrameAssembler (as_frames s) (as_orphans s) v (as_recent_loss s) (as_recent_chunk_loss s)
    (as_completed_frames s) (as_completed_started_at s).
Definition with_recent_loss (v : list (Z * Z * Z)) (s : FrameAssembler) : FrameAssembler :=
  mk_FrameAssembler (as_frames s) (as_orphans s) (as_expected_frame_id s) v (as_recent_chunk_loss s)
    (as_completed_frames s) (as_completed_started_at s).
Definition with_recent_chunk_loss (v : list (Z * Z * Z)) (s : FrameAssembler) : FrameAssembler :=
  mk_FrameAssembler (as_frames s) (as_orphans s) (as_expected_frame_id s) (as_recent_loss s) v
    (as_completed_frames s) (as_completed_started_at s).
Definition with_completed_frames (v : Z) (s : FrameAssembler) : FrameAssembler :=
  mk_FrameAssembler (as_frames s) (as_orphans s) (as_expected_frame_id s) (as_recent_loss s) (as_recent_chunk_loss s)
    v (as_completed_started_at s).
Definition with_completed_started_at (v : option Z) (s : FrameAssembler) : FrameAssembler :=
  mk_FrameAssembler (as_frames s) (as_orphans s) (as_expected_frame_id s) (as_recent_loss s) (as_recent_chunk_loss s)
    (as_completed_frames s) v.

(** [u32::wrapping_sub] and [u32::wrapping_add]. *)
Definition wsub32 (a b : Z) : Z := (a - b) mod 2 ^ 32.
Definition wadd32 (a b : Z) : Z := (a + b) mod 2 ^ 32.

Definition serial_not_before (a b : Z) : bool := wsub32 a b <? SERIAL_HALF_RANGE.

(** ** Admission *)

Definition admit1 (header : FrameHeader) (acc : gmap Z (list byte) * Z) (kv : Z * list byte) : gmap Z (list byte) * Z :=
  let '(chunks, payload_bytes) := acc in
  let '(index, data) := kv in
  if (fh_total_chunks header <=? index) || (fh_total_size header <? payload_bytes + zlen data) then acc else
  match chunks !! index with
  | None => (<[index := data]> chunks, payload_bytes + zlen data)
  | Some _ => acc
  end.
Definition admit_chunks (incoming : gmap Z (list byte)) (header : FrameHeader) (acc : gmap Z (list byte) * Z) : gmap Z (list byte) * Z :=
  foldl (admit1 header) acc (bt_iter incoming).

(** ** Loss records *)

Fixpoint trim_window (window : list (Z * Z * Z)) (now : Z) : list (Z * Z * Z) :=
  match window with
  | [] => []
  | (at_, _, _) :: rest =>
      if (MAX_LOSS_SAMPLES <? zlen window) || (LOSS_WINDOW <? sat_sub now at_) then trim_window rest now else window
  end.
Definition missing_chunks (a : FrameAssembly) : Z * Z :=
  let total := fh_total_chunks (fa_header a) in
  (sat_sub total (Z.of_nat (size (fa_chunks a))), total).
Definition record_chunk_loss (now missing total : Z) (s : FrameAssembler) : FrameAssembler :=
  with_recent_chunk_loss (trim_window (as_recent_chunk_loss s ++ [(now, missing, total)]) now) s.
Definition record_abandoned (now : Z) (abandoned : list (Z * Z)) (s : FrameAssembler) : FrameAssembler :=
  foldl (λ s mt, record_chunk_loss now mt.1 mt.2 s) s abandoned.
Definition trim_loss (now : Z) (s : FrameAssembler) : FrameAssembler :=
  with_recent_loss (trim_window (as_recent_loss s) now) s.
Definition track_loss (frame_id now : Z) (s : FrameAssembler) : FrameAssembler :=
  let lost := match as_expected_frame_id s with
    | None => 0
    | Some expected => let forward := wsub32 frame_id expected in if forward <? SERIAL_HALF_RANGE then forward else 0
    end in
  let s := with_recent_loss (as_recent_loss s ++ [(now, lost, lost + 1)]) s in
  let successor := wadd32 frame_id 1 in
  let s := with_expected (Some match as_expected_frame_id s with
    | None => successor
    | Some expected => if negb (successor =? expected) && serial_not_before successor expected then successor else expected
    end) s in
  trim_loss now s.

(** ** Completion and repair *)

Definition complete (a : FrameAssembly) : bool := Z.of_nat (size (fa_chunks a)) =? fh_total_chunks (fa_header a).

(** The chunks [0..total_chunks] concatenated, if all are there. *)
Fixpoint collect (indices : list Z) (chunks : gmap Z (list byte)) : option (list byte) :=
  match indices with
  | [] => Some []
  | i :: rest => d ← chunks !! i; ds ← collect rest chunks; Some (d ++ ds)
  end.
Definition chunk_range (n : Z) : list Z := seqZ 0 n.

Definition finish_if_complete (frame_id now : Z) (s : FrameAssembler) : FrameAssembler * Result (option AssembledFrame) MediaAssemblyError :=
  match as_frames s !! frame_id with
  | None => (s, Ok None)
  | Some a =>
      if negb (complete a) then (s, Ok None) else
      let s := with_frames (delete frame_id (as_frames s)) s in
      match collect (chunk_range (fh_total_chunks (fa_header a))) (fa_chunks a) with
      | None => (s, Err SizeMismatch)
      | Some data =>
          if negb (zlen data =? fh_total_size (fa_header a)) then (s, Err SizeMismatch) else
          let s := with_completed_frames (add64 (as_completed_frames s) 1) s in
          let s := record_chunk_loss now (fa_recovered a) (fh_total_chunks (fa_header a)) s in
          let s := with_completed_started_at (Some (fa_started a)) s in
          (s, Ok (Some (mk_AssembledFrame (fa_header a) data (fa_timestamp_ms a))))
      end
  end.

Definition repair1 (a : FrameAssembly) (parity : FrameParity) : FrameAssembly :=
  match recover_chunk parity (fh_total_chunks (fa_header a)) (λ i, fa_chunks a !! i) with
  | Some (index, bytes) =>
      if fa_payload_bytes a + zlen bytes <=? fh_total_size (fa_header a)
      then with_recovered (add64 (fa_recovered a) 1) (with_chunks (<[index := bytes]> (fa_chunks a)) (fa_payload_bytes a + zlen bytes) a)
      else a
  | None => a
  end.
Definition repair_assembly (a : FrameAssembly) : FrameAssembly := foldl repair1 a (bt_values (fa_parity a)).
Definition repair (frame_id : Z) (s : FrameAssembler) : FrameAssembler :=
  match as_frames s !! frame_id with
  | Some a => with_frames (<[frame_id := repair_assembly a]> (as_frames s)) s
  | None => s
  end.

(** ** Expiry *)

Definition live (now : Z) (started : Z) : bool := sat_sub now started <? ASSEMBLY_TIMEOUT.
Definition expire (now : Z) (s : FrameAssembler) : FrameAssembler :=
  let abandoned := missing_chunks <$> bt_values (bt_retain (λ _ a, negb (live now (fa_started a))) (as_frames s)) in
  let s := with_frames (bt_retain (λ _ a, live now (fa_started a)) (as_frames s)) s in
  let s := record_abandoned now abandoned s in
  with_orphans (bt_retain (λ _ o, live now (oa_started o)) (as_orphans s)) s.

(** A key frame ends the incomplete frames before it. *)
Definition flush_before (header : FrameHeader) (now : Z) (s : FrameAssembler) : FrameAssembler :=
  let keep id a := serial_not_before id (fh_frame_id header) || complete a in
  let abandoned := missing_chunks <$> bt_values (bt_retain (λ id a, negb (keep id a)) (as_frames s)) in
  let s := with_frames (bt_retain keep (as_frames s)) s in
  record_abandoned now abandoned s.

(** The frame with the least [(started, id)]. *)
Definition oldest (frames : gmap Z FrameAssembly) : option Z :=
  snd <$> bs_first (list_to_set ((λ ia, (fa_started ia.2, ia.1)) <$> map_to_list frames) : gset (Z * Z)).
Definition evict_oldest (now : Z) (s : FrameAssembler) : FrameAssembler :=
  if negb (MAX_INCOMPLETE_FRAMES <? Z.of_nat (size (as_frames s))) then s else
  match oldest (as_frames s) with
  | None => s
  | Some id =>
      match as_frames s !! id with
      | Some evicted =>
          let '(missing, total) := missing_chunks evicted in
          record_chunk_loss now missing total (with_frames (delete id (as_frames s)) s)
      | None => s
      end
  end.

(** ** The packets *)

Definition header_invalid (h : FrameHeader) : bool :=
  (fh_total_chunks h =? 0) || (MAX_CHUNKS_PER_FRAME <? fh_total_chunks h) ||
  (fh_total_size h =? 0) || (MAX_FRAME_BYTES <? fh_total_size h).

(** From [self.repair(frame_id)] on. *)
Definition after_header (frame_id now : Z) (s : FrameAssembler) : FrameAssembler * Result (option AssembledFrame) MediaAssemblyError :=
  match finish_if_complete frame_id now (repair frame_id s) with
  | (s, Ok completed) => (evict_oldest now s, Ok completed)
  | (s, Err e) => (s, Err e)
  end.

Definition push_header (header : FrameHeader) (timestamp_ms now : Z) (s : FrameAssembler) :
    FrameAssembler * Result (option AssembledFrame) MediaAssemblyError :=
  let s := with_completed_started_at None s in
  if header_invalid header then (s, Err MeInvalidHeader) else
  let s := track_loss (fh_frame_id header) now (expire now s) in
  let s := if fh_is_key_frame header then flush_before header now s else s in
  let frame_id := fh_frame_id header in
  let '(chunks, started) := match as_orphans s !! frame_id with
    | Some orphan => (oa_chunks orphan, oa_started orphan)
    | None => (∅, now)
    end in
  let s := with_orphans (delete frame_id (as_orphans s)) s in
  match as_frames s !! frame_id with
  | Some existing =>
      if negb (bool_decide (fa_header existing = header)) then (s, Ok None) else
      let a := with_start (Z.min (fa_started existing) started) timestamp_ms existing in
      let '(admitted, payload_bytes) := admit_chunks chunks (fa_header a) (fa_chunks a, fa_payload_bytes a) in
      after_header frame_id now (with_frames (<[frame_id := with_chunks admitted payload_bytes a]> (as_frames s)) s)
  | None =>
      let '(admitted, payload_bytes) := admit_chunks chunks header (∅, 0) in
      after_header frame_id now
        (with_frames (<[frame_id := mk_FrameAssembly header admitted started timestamp_ms payload_bytes ∅ 0 None 0]> (as_frames s)) s)
  end.

Definition push_chunk (chunk : FrameChunk) (now : Z) (s : FrameAssembler) :
    FrameAssembler * Result (option AssembledFrame) MediaAssemblyError :=
  let s := expire now (with_completed_started_at None s) in
  let id := fc_frame_id chunk in
  match as_frames s !! id with
  | Some a =>
      if fh_total_chunks (fa_header a) <=? fc_chunk_index chunk then (s, Err InvalidChunkIndex) else
      match fa_chunks a !! fc_chunk_index chunk with
      | None =>
          if fh_total_size (fa_header a) <? fa_payload_bytes a + zlen (fc_data chunk) then (s, Ok None) else
          let a := with_chunks (<[fc_chunk_index chunk := fc_data chunk]> (fa_chunks a)) (fa_payload_bytes a + zlen (fc_data chunk)) a in
          finish_if_complete id now (repair id (with_frames (<[id := a]> (as_frames s)) s))
      | Some _ => finish_if_complete id now (repair id s)
      end
  | None =>
      if (MAX_ORPHAN_FRAMES <=? Z.of_nat (size (as_orphans s))) && negb (bool_decide (is_Some (as_orphans s !! id))) then (s, Ok None) else
      if MAX_CHUNKS_PER_FRAME <=? fc_chunk_index chunk then (s, Ok None) else
      let orphan := default (mk_OrphanAssembly ∅ now) (as_orphans s !! id) in
      if MAX_CHUNKS_PER_FRAME <=? Z.of_nat (size (oa_chunks orphan)) then (with_orphans (delete id (as_orphans s)) s, Ok None) else
      let chunks := match oa_chunks orphan !! fc_chunk_index chunk with
        | Some _ => oa_chunks orphan
        | None => <[fc_chunk_index chunk := fc_data chunk]> (oa_chunks orphan)
        end in
      (with_orphans (<[id := mk_OrphanAssembly chunks (oa_started orphan)]> (as_orphans s)) s, Ok None)
  end.

Definition parity_invalid (parity : FrameParity) (a : FrameAssembly) : bool :=
  (fp_parity_count parity =? 0) || (fh_total_chunks (fa_header a) <? fp_parity_count parity) ||
  (fp_parity_count parity <=? fp_parity_index parity) || (MAX_VIDEO_CHUNK_BYTES <? zlen (fp_data parity)) ||
  existsb (λ old, negb (fp_parity_count old =? fp_parity_count parity)) (bt_values (fa_parity a)).
Definition retained_parity (a : FrameAssembly) : Z := foldr Z.add 0 ((λ p, zlen (fp_data p)) <$> bt_values (fa_parity a)).

Definition push_parity (parity : FrameParity) (now : Z) (s : FrameAssembler) :
    FrameAssembler * Result (option AssembledFrame) MediaAssemblyError :=
  let s := expire now (with_completed_started_at None s) in
  let id := fp_frame_id parity in
  match as_frames s !! id with
  | None => (s, Ok None)
  | Some a =>
      if parity_invalid parity a then (s, Err InvalidChunkIndex) else
      let s := if negb (bool_decide (is_Some (fa_parity a !! fp_parity_index parity))) &&
                  (retained_parity a + zlen (fp_data parity) <=? MAX_PARITY_BYTES)
               then with_frames (<[id := with_parity (<[fp_parity_index parity := parity]> (fa_parity a)) a]> (as_frames s)) s
               else s in
      finish_if_complete id now (repair id s)
  end.

(** ** Requests for missing chunks *)

(** [is_some_and] and [map_or(true, ..)] of [nack_at] with the retry interval. *)
Definition waited (now : Z) (nack_at : option Z) : bool :=
  match nack_at with None => true | Some last => NACK_INTERVAL <=? sat_sub now last end.
Definition nack_eligible (now rtt : Z) (a : FrameAssembly) : bool :=
  let age := sat_sub now (fa_started a) in
  (NACK_GRACE <=? age) && (age + rtt <? RECOVERY_DEADLINE) && (fa_nack_count a <? MAX_NACKS) && waited now (fa_nack_at a) &&
  negb (complete a).

(** The eligible frame with the greatest distance behind the newest. *)
Definition nack_choice (newest now rtt : Z) (frames : gmap Z FrameAssembly) : option Z :=
  snd <$> last (bs_iter (list_to_set ((λ ia, (wsub32 newest ia.1, ia.1)) <$>
    map_to_list (bt_retain (λ _ a, nack_eligible now rtt a) frames)) : gset (Z * Z))).

Definition recovery_nack_with_rtt (now loss_permille rtt : Z) (s : FrameAssembler) : FrameAssembler * option FrameNack :=
  match as_expected_frame_id s with
  | None => (s, None)
  | Some expected =>
      let newest := wsub32 expected 1 in
      match nack_choice newest now rtt (as_frames s) with
      | None => (s, None)
      | Some id =>
          match as_frames s !! id with
          | None => (s, None)
          | Some a =>
              let age := sat_sub now (fa_started a) in
              if (RECOVERY_DEADLINE <=? age + rtt) || negb ((NACK_GRACE <=? age) && (age <? RECOVERY_DEADLINE)) ||
                 (MAX_NACKS <=? fa_nack_count a) || negb (waited now (fa_nack_at a))
              then (s, None) else
              let missing := take (Z.to_nat MAX_NACK_INDICES)
                (filter (λ i, fa_chunks a !! i = None) (chunk_range (fh_total_chunks (fa_header a)))) in
              match missing with
              | [] => (s, None)
              | _ =>
                  (with_frames (<[id := with_nack (Some now) (fa_nack_count a + 1) a]> (as_frames s)) s,
                   Some (mk_FrameNack id loss_permille (Z.min ((rtt / 1000 + 999) / 1000) u16_max) missing))
              end
          end
      end
  end.

Definition clear : FrameAssembler := assembler_default.

(** One packet of the media stream. *)
Inductive MediaPacket : Type :=
| MpHeader (header : FrameHeader) (timestamp_ms : Z)
| MpChunk (chunk : FrameChunk)
| MpParity (parity : FrameParity).
Definition packet_frame (p : MediaPacket) : Z :=
  match p with MpHeader h _ => fh_frame_id h | MpChunk c => fc_frame_id c | MpParity q => fp_frame_id q end.
Definition push_packet (p : MediaPacket) (now : Z) (s : FrameAssembler) :
    FrameAssembler * Result (option AssembledFrame) MediaAssemblyError :=
  match p with
  | MpHeader h ts => push_header h ts now s
  | MpChunk c => push_chunk c now s
  | MpParity q => push_parity q now s
  end.
