(* ===== verification/RdAssemblySpec.v ===== *)
(** * RdAssemblySpec: what the frame assembler delivers and holds

    First the shape of every packet's effect, for any property of assemblies that the
    elementary updates keep ([keeps]).  Two instances: the bounds on what a peer can make
    the client hold, and, when the packets are those of a sender's frames, that the
    frames delivered are the frames sent. *)

From S2P Require Import Prelude Wire RdCodec RdMedia RdFec RdAssembly.
From Stdlib Require Import ZArith Lia Strings.Byte.
From stdpp Require Import base option gmap strings sorting list_numbers list.

#[local] Open Scope Z_scope.

(** ** Lemmas: maps *)

Lemma bt_retain_sub {V} (f : Z → V → bool) (m : gmap Z V) : bt_retain f m ⊆ m.
Proof. apply map_filter_subseteq. Qed.

Lemma sub_size {V} (m m' : gmap Z V) : m ⊆ m' → (size m <= size m')%nat.
Proof. intros H. rewrite <- !size_dom. apply subseteq_size. by apply subseteq_dom. Qed.

Lemma oldest_Some frames id : oldest frames = Some id → is_Some (frames !! id).
Proof.
  unfold oldest. intros ([t i] & H & ->)%fmap_Some. apply bs_first_Some, elem_of_list_to_set, list_elem_of_fmap in H as ([j a] & E & Hin).
  apply elem_of_map_to_list in Hin. cbn in *. injection E as -> ->. eauto.
Qed.

Lemma oldest_None frames : oldest frames = None → frames = ∅.
Proof.
  unfold oldest. intros H%fmap_None. apply bs_first_None in H. destruct (map_to_list frames) as [|ia l] eqn:E; [by apply map_to_list_empty_iff|].
  exfalso. eapply (not_elem_of_empty (C := gset (Z * Z)) (fa_started ia.2, ia.1)). rewrite <- H. apply elem_of_list_to_set. by left.
Qed.

(** ** Effects that leave the frames and orphans alone, or only drop some *)

Definition shrinks (s s' : FrameAssembler) : Prop := as_frames s' ⊆ as_frames s ∧ as_orphans s' ⊆ as_orphans s.

#[global] Instance shrinks_preorder : PreOrder shrinks.
Proof. split; [done|]. intros s1 s2 s3 [H1 H2] [H3 H4]. split; by etransitivity. Qed.

Lemma record_abandoned_same now l s :
  as_frames (record_abandoned now l s) = as_frames s ∧ as_orphans (record_abandoned now l s) = as_orphans s.
Proof. unfold record_abandoned. revert s. induction l as [|x l IH]; intros s; cbn [foldl]; [done|]. by destruct (IH (record_chunk_loss now x.1 x.2 s)) as [-> ->]. Qed.

Lemma expire_frames now s : as_frames (expire now s) = bt_retain (λ _ a, live now (fa_started a)) (as_frames s).
Proof. unfold expire. cbn [with_orphans as_frames]. by rewrite (proj1 (record_abandoned_same _ _ _)). Qed.
Lemma expire_orphans now s : as_orphans (expire now s) = bt_retain (λ _ o, live now (oa_started o)) (as_orphans s).
Proof. unfold expire. cbn [with_orphans as_orphans]. by rewrite (proj2 (record_abandoned_same _ _ _)). Qed.
Lemma expire_shrinks now s : shrinks s (expire now s).
Proof. split; [rewrite expire_frames|rewrite expire_orphans]; apply bt_retain_sub. Qed.

Lemma track_loss_frames id now s : as_frames (track_loss id now s) = as_frames s.
Proof. done. Qed.
Lemma track_loss_orphans id now s : as_orphans (track_loss id now s) = as_orphans s.
Proof. done. Qed.

Lemma flush_before_frames h now s :
  as_frames (flush_before h now s) = bt_retain (λ id a, serial_not_before id (fh_frame_id h) || complete a) (as_frames s).
Proof. unfold flush_before. by rewrite (proj1 (record_abandoned_same _ _ _)). Qed.
Lemma flush_before_orphans h now s : as_orphans (flush_before h now s) = as_orphans s.
Proof. unfold flush_before. by rewrite (proj2 (record_abandoned_same _ _ _)). Qed.
Lemma flush_before_shrinks h now s : shrinks s (flush_before h now s).
Proof. split; [rewrite flush_before_frames; apply bt_retain_sub|by rewrite flush_before_orphans]. Qed.

(** The state in which [push_header] looks for the frame. *)
Definition header_start (header : FrameHeader) (now : Z) (s : FrameAssembler) : FrameAssembler :=
  let s := track_loss (fh_frame_id header) now (expire now (with_completed_started_at None s)) in
  if fh_is_key_frame header then flush_before header now s else s.
Lemma header_start_shrinks h now s : shrinks s (header_start h now s).
Proof.
  unfold header_start. cbv zeta. etransitivity; [apply (expire_shrinks now (with_completed_started_at None s))|].
  set (t := expire now _). assert (shrinks t (track_loss (fh_frame_id h) now t)) as Ht by done.
  destruct (fh_is_key_frame h); [|done]. etransitivity; [exact Ht|apply flush_before_shrinks].
Qed.

Lemma evict_shrinks now s : shrinks s (evict_oldest now s).
Proof.
  unfold evict_oldest. destruct (negb _); [done|]. destruct (oldest _) as [id|]; [|done]. destruct (as_frames s !! id) as [a|]; [|done].
  destruct (missing_chunks a). split; [apply delete_subseteq|done].
Qed.

Lemma evict_size now s : (size (as_frames s) <= 17)%nat → (size (as_frames (evict_oldest now s)) <= 16)%nat.
Proof.
  intros Hs. unfold evict_oldest, MAX_INCOMPLETE_FRAMES. destruct (Z.ltb_spec 16 (Z.of_nat (size (as_frames s)))); cbn [negb]; [|lia].
  destruct (oldest _) as [id|] eqn:E; [|apply oldest_None in E; rewrite E in *; rewrite map_size_empty in *; lia].
  apply oldest_Some in E as [a E]. rewrite E. destruct (missing_chunks a). cbn. rewrite map_size_delete, E. cbn. lia.
Qed.

(** ** The operations in any order *)

Inductive AssemblerOp : Type :=
| OpPush (p : MediaPacket) (now : Z)
| OpNack (now loss_permille rtt : Z)
| OpClear.
(** The state and what the pushes returned, in order. *)
Fixpoint run_ops (ops : list AssemblerOp) (s : FrameAssembler) :
    FrameAssembler * list (Result (option AssembledFrame) MediaAssemblyError) :=
  match ops with
  | [] => (s, [])
  | OpPush p now :: ops => let '(s, r) := push_packet p now s in let '(s, rs) := run_ops ops s in (s, r :: rs)
  | OpNack now loss rtt :: ops => run_ops ops (recovery_nack_with_rtt now loss rtt s).1
  | OpClear :: ops => run_ops ops clear
  end.

(** ** Properties of assemblies that the updates keep *)

Section keeps.
(** A property of the assemblies; what is known of a chunk, a header and a parity
    that arrive. *)
Context (P : Z → FrameAssembly → Prop) (Qc : Z → Z → list byte → Prop) (Qh : FrameHeader → Prop) (Qp : FrameParity → Prop).

Record keeps : Prop := {
  keep_new h started ts : Qh h → header_invalid h = false → P (fh_frame_id h) (mk_FrameAssembly h ∅ started ts 0 ∅ 0 None 0);
  keep_start id a started ts : P id a → P id (with_start started ts a);
  keep_add id a i d : P id a → Qc id i d → i < fh_total_chunks (fa_header a) → fa_chunks a !! i = None →
    fa_payload_bytes a + zlen d <= fh_total_size (fa_header a) → P id (with_chunks (<[i := d]> (fa_chunks a)) (fa_payload_bytes a + zlen d) a);
  keep_parity a p : P (fp_frame_id p) a → Qp p → parity_invalid p a = false → fa_parity a !! fp_parity_index p = None →
    retained_parity a + zlen (fp_data p) <= MAX_PARITY_BYTES → P (fp_frame_id p) (with_parity (<[fp_parity_index p := p]> (fa_parity a)) a);
  keep_repair id a k p : P id a → fa_parity a !! k = Some p → P id (repair1 a p);
  keep_nack id a now : P id a → fa_nack_count a < MAX_NACKS → P id (with_nack (Some now) (fa_nack_count a + 1) a);
}.
Context (K : keeps).

Definition orphan_ok (id : Z) (o : OrphanAssembly) : Prop :=
  (∀ i d, oa_chunks o !! i = Some d → Qc id i d) ∧ Z.of_nat (size (oa_chunks o)) <= MAX_CHUNKS_PER_FRAME.
Record all_ok (s : FrameAssembler) : Prop := {
  ok_frames id a : as_frames s !! id = Some a → P id a;
  ok_orphans id o : as_orphans s !! id = Some o → orphan_ok id o;
  ok_frame_count : (size (as_frames s) <= 16)%nat;
  ok_orphan_count : (size (as_orphans s) <= 16)%nat;
}.

Lemma shrinks_ok s s' : shrinks s s' → all_ok s → all_ok s'.
Proof.
  intros [Hf Ho] [A1 A2 A3 A4]. split.
  - intros id a Ha. apply A1. by eapply lookup_weaken.
  - intros id o H. apply A2. by eapply lookup_weaken.
  - pose proof (sub_size _ _ Hf). lia.
  - pose proof (sub_size _ _ Ho). lia.
Qed.

Lemma repair1_parity a p : fa_parity (repair1 a p) = fa_parity a.
Proof. unfold repair1. destruct (recover_chunk _ _ _) as [[i b]|]; [|done]. by destruct (_ <=? _). Qed.
Lemma repair1_header a p : fa_header (repair1 a p) = fa_header a.
Proof. unfold repair1. destruct (recover_chunk _ _ _) as [[i b]|]; [|done]. by destruct (_ <=? _). Qed.

Lemma elem_of_bt_values {V} (m : gmap Z V) v : v ∈ bt_values m ↔ ∃ k, m !! k = Some v.
Proof.
  unfold bt_values. rewrite list_elem_of_fmap. split.
  - intros ([k w] & -> & H%elem_of_bt_iter). eauto.
  - intros [k H]. exists (k, v). split; [done|]. by apply elem_of_bt_iter.
Qed.

Lemma repair_fold_ok id l a : P id a → (∀ p, p ∈ l → ∃ k, fa_parity a !! k = Some p) → P id (foldl repair1 a l).
Proof.
  revert a. induction l as [|p l IH]; intros a Ha Hl; cbn; [done|]. apply IH.
  - destruct (Hl p ltac:(by left)) as [k Hk]. by eapply (keep_repair K).
  - intros q Hq. rewrite repair1_parity. apply Hl. by right.
Qed.
Lemma repair_assembly_ok id a : P id a → P id (repair_assembly a).
Proof. intros Ha. apply repair_fold_ok; [done|]. intros p. apply elem_of_bt_values. Qed.

Lemma admit_fold_ok id a l acc :
  P id (with_chunks acc.1 acc.2 a) → (∀ i d, (i, d) ∈ l → Qc id i d) →
  P id (with_chunks (foldl (admit1 (fa_header a)) acc l).1 (foldl (admit1 (fa_header a)) acc l).2 a).
Proof.
  revert acc. induction l as [|[i d] l IH]; intros [m b] Ha Hl; cbn [foldl]; [done|]. apply IH; [|intros; apply Hl; by right].
  unfold admit1. destruct (_ || _) eqn:E; [done|]. bool_hyps. destruct (m !! i) eqn:Em; [done|].
  apply (keep_add K id (with_chunks m b a) i d); [done|apply Hl; by left|cbn; lia|done|cbn; lia].
Qed.
Lemma admit_ok id a incoming acc :
  P id (with_chunks acc.1 acc.2 a) → (∀ i d, incoming !! i = Some d → Qc id i d) →
  P id (with_chunks (admit_chunks incoming (fa_header a) acc).1 (admit_chunks incoming (fa_header a) acc).2 a).
Proof. intros Ha Hq. apply admit_fold_ok; [done|]. intros i d H%elem_of_bt_iter. by apply Hq. Qed.

(** What a delivered frame is, and why a packet is refused. *)
Definition delivers (a : FrameAssembly) (f : AssembledFrame) : Prop :=
  complete a = true ∧ collect (chunk_range (fh_total_chunks (fa_header a))) (fa_chunks a) = Some (af_frame_data f) ∧
  zlen (af_frame_data f) = fh_total_size (fa_header a) ∧ af_frame_header f = fa_header a.
Definition result_ok (r : Result (option AssembledFrame) MediaAssemblyError) : Prop :=
  match r with
  | Ok None => True
  | Ok (Some f) => ∃ id a, P id a ∧ delivers a f
  | Err SizeMismatch => ∃ id a, P id a ∧ complete a = true ∧
      ∀ d, collect (chunk_range (fh_total_chunks (fa_header a))) (fa_chunks a) = Some d → zlen d ≠ fh_total_size (fa_header a)
  | Err InvalidChunkIndex =>
      (∃ id a i d, P id a ∧ Qc id i d ∧ fh_total_chunks (fa_header a) <= i) ∨
      (∃ a p, P (fp_frame_id p) a ∧ Qp p ∧ parity_invalid p a = true)
  | Err MeInvalidHeader => ∃ h, Qh h ∧ header_invalid h = true
  end.

Lemma insert_frame_ok id a s : all_ok s → P id a → is_Some (as_frames s !! id) → all_ok (with_frames (<[id := a]> (as_frames s)) s).
Proof.
  intros [A1 A2 A3 A4] Ha [b Hb]. split; cbn; [|done| |done].
  - intros j c [[<- <-]|[_ H]]%lookup_insert_Some; [done|by apply A1].
  - rewrite map_size_insert_Some by eauto. done.
Qed.

(** Repair and finish keep a state whose only frame over the limit is [id]. *)
Definition near_ok (n : nat) (s : FrameAssembler) : Prop :=
  (∀ j a, as_frames s !! j = Some a → P j a) ∧ (∀ j o, as_orphans s !! j = Some o → orphan_ok j o) ∧
  (size (as_frames s) <= n)%nat ∧ (size (as_orphans s) <= 16)%nat.
Lemma near_all s : near_ok 16 s ↔ all_ok s.
Proof. split; [by intros (? & ? & ? & ?)|by intros []]. Qed.

Lemma repair_near n id s : near_ok n s → near_ok n (repair id s).
Proof.
  intros (A1 & A2 & A3 & A4). unfold repair. destruct (as_frames s !! id) as [a|] eqn:E; [|done]. split; [|split; [done|split; [|done]]]; cbn.
  - intros j c [[<- <-]|[_ H]]%lookup_insert_Some; [by apply repair_assembly_ok, A1|by apply A1].
  - rewrite map_size_insert_Some by eauto. done.
Qed.

Lemma finish_near n id now s s' r : near_ok n s → finish_if_complete id now s = (s', r) → near_ok n s' ∧ result_ok r ∧
  shrinks s s' ∧ (∀ e, r = Err e → is_Some (as_frames s !! id) ∧ as_frames s' = delete id (as_frames s)).
Proof.
  intros Hn. unfold finish_if_complete. destruct (as_frames s !! id) as [a|] eqn:E; [|by intros [= <- <-]].
  destruct (complete a) eqn:Ec; cbn [negb]; [|by intros [= <- <-]]. pose proof Hn as (A1 & A2 & A3 & A4).
  assert (∀ t, as_frames t = delete id (as_frames s) → as_orphans t = as_orphans s → near_ok n t ∧ shrinks s t) as Hd.
  { intros t Ht Ho. split; [|split; [rewrite Ht; apply delete_subseteq|by rewrite Ho]]. split; [|split; [by rewrite Ho|split; [|by rewrite Ho]]].
    - intros j c. rewrite Ht. intros [_ H]%lookup_delete_Some. by apply A1.
    - rewrite Ht. pose proof (sub_size _ _ (delete_subseteq (as_frames s) id)). lia. }
  destruct (collect _ _) as [data|] eqn:Ed; [destruct (Z.eqb_spec (zlen data) (fh_total_size (fa_header a))) as [El|El]; cbn [negb]|]; intros [= <- <-].
  - split; [by apply Hd|]. split; [|split; [by apply Hd|done]]. exists id, a. split; [by apply A1|]. by repeat split.
  - split; [by apply Hd|]. split; [|split; [by apply Hd|by eauto]]. exists id, a. split; [by apply A1|]. split; [done|]. intros d Hd'. rewrite Ed in Hd'. by injection Hd' as <-.
  - split; [by apply Hd|]. split; [|split; [by apply Hd|by eauto]]. exists id, a. split; [by apply A1|]. split; [done|]. intros d Hd'. by rewrite Ed in Hd'.
Qed.

Lemma after_header_ok id now s s' r : near_ok 17 s → is_Some (as_frames s !! id) → after_header id now s = (s', r) → all_ok s' ∧ result_ok r.
Proof.
  intros Hn Hi. unfold after_header. destruct (finish_if_complete id now (repair id s)) as [t x] eqn:E.
  destruct (finish_near 17 _ _ _ _ _ (repair_near 17 id s Hn) E) as (Ht & Hr & _ & He).
  destruct x as [o|e]; intros [= <- <-]; (split; [|done]).
  - destruct Ht as (B1 & B2 & B3 & B4). pose proof (evict_shrinks now t) as [C1 C2]. pose proof (sub_size _ _ C2).
    split; [intros j a Hj; apply B1; by eapply lookup_weaken|intros j o' Hj; apply B2; by eapply lookup_weaken|by apply evict_size|lia].
  - destruct Ht as (B1 & B2 & B3 & B4). destruct (He e eq_refl) as [Hs Hd]. split; [done|done| |done].
    rewrite Hd, map_size_delete. destruct (repair_near 17 id s Hn) as (_ & _ & C3 & _). destruct (as_frames (repair id s) !! id); [cbn; lia|by destruct Hs].
Qed.

Lemma push_header_ok h ts now s s' r : all_ok s → Qh h → push_header h ts now s = (s', r) → all_ok s' ∧ result_ok r.
Proof.
  intros Hs Hh. unfold push_header. cbv zeta. destruct (header_invalid h) eqn:Hv; [intros [= <- <-]; split; [|by exists h]; by apply (shrinks_ok s)|].
  change (if fh_is_key_frame h then flush_before h now _ else _) with (header_start h now s). set (t := header_start h now s).
  assert (all_ok t) as Ht by (eapply shrinks_ok; [apply header_start_shrinks|done]).
  set (cs := match as_orphans t !! fh_frame_id h with Some o => (oa_chunks o, oa_started o) | None => (∅, now) end).
  assert (∀ i d, cs.1 !! i = Some d → Qc (fh_frame_id h) i d) as Hcs.
  { subst cs. destruct (as_orphans t !! fh_frame_id h) as [o|] eqn:E; [|done]. apply (ok_orphans _ Ht _ _ E). }
  destruct cs as [chunks started]. cbn [fst] in Hcs. set (t' := with_orphans _ t).
  assert (all_ok t') as Ht' by (eapply (shrinks_ok t); [split; [done|apply delete_subseteq]|done]).
  change (as_frames t) with (as_frames t'). destruct (as_frames t' !! fh_frame_id h) as [a|] eqn:Ea.
  - case_bool_decide as Hah; cbn [negb]; [|by intros [= <- <-]]. set (a' := with_start _ ts a).
    assert (P (fh_frame_id h) a') as Ha' by (apply (keep_start K), (ok_frames _ Ht' _ _ Ea)).
    pose proof (admit_ok (fh_frame_id h) a' chunks (fa_chunks a', fa_payload_bytes a') ltac:(by destruct a') Hcs) as Hp.
    destruct (admit_chunks _ _ _) as [m b]. cbn [fst snd] in Hp. apply after_header_ok; [|cbn; rewrite lookup_insert_eq; eauto].
    destruct (insert_frame_ok _ _ t' Ht' Hp ltac:(eauto)) as [B1 B2 B3 B4]. split; [done|]. split; [done|]. split; [lia|done].
  - set (a' := mk_FrameAssembly h ∅ started ts 0 ∅ 0 None 0).
    pose proof (admit_ok (fh_frame_id h) a' chunks (∅, 0) (keep_new K h started ts Hh Hv) Hcs) as Hp. cbn [fa_header a'] in Hp.
    destruct (admit_chunks _ _ _) as [m b]. cbn [fst snd] in Hp. apply after_header_ok; [|cbn; rewrite lookup_insert_eq; eauto].
    destruct Ht' as [B1 B2 B3 B4]. split; [|split; [done|split; [|done]]]; cbn [with_frames as_frames].
    + intros j c [[<- <-]|[_ H]]%lookup_insert_Some; [exact Hp|by apply B1].
    + rewrite map_size_insert_None by done. lia.
Qed.

Lemma finish_repair_ok id now s s' r : all_ok s → finish_if_complete id now (repair id s) = (s', r) → all_ok s' ∧ result_ok r.
Proof.
  intros Hs%near_all E. destruct (finish_near 16 _ _ _ _ _ (repair_near 16 id s Hs) E) as (Ht & Hr & _). split; [by apply near_all|done].
Qed.

Lemma push_chunk_ok c now s s' r : all_ok s → Qc (fc_frame_id c) (fc_chunk_index c) (fc_data c) → push_chunk c now s = (s', r) → all_ok s' ∧ result_ok r.
Proof.
  intros Hs Hc. unfold push_chunk. cbv zeta. set (t := expire now _).
  assert (all_ok t) as Ht by (eapply (shrinks_ok s); [apply (expire_shrinks now (with_completed_started_at None s))|done]). clearbody t.
  destruct (as_frames t !! fc_frame_id c) as [a|] eqn:Ea.
  - pose proof (ok_frames _ Ht _ _ Ea) as Ha. destruct (Z.leb_spec (fh_total_chunks (fa_header a)) (fc_chunk_index c)); [intros [= <- <-]; split; [done|left; eauto 10]|].
    destruct (fa_chunks a !! fc_chunk_index c) eqn:Ei; [by apply finish_repair_ok|].
    destruct (Z.ltb_spec (fh_total_size (fa_header a)) (fa_payload_bytes a + zlen (fc_data c))); [by intros [= <- <-]|].
    apply finish_repair_ok, insert_frame_ok; [done|by apply (keep_add K)|eauto].
  - destruct (_ && _) eqn:E1; [by intros [= <- <-]|]. destruct (MAX_CHUNKS_PER_FRAME <=? fc_chunk_index c) eqn:E2; [by intros [= <- <-]|].
    set (o := default (mk_OrphanAssembly ∅ now) (as_orphans t !! fc_frame_id c)).
    assert (orphan_ok (fc_frame_id c) o) as Ho.
    { subst o. destruct (as_orphans t !! fc_frame_id c) as [o|] eqn:E; [by apply (ok_orphans _ Ht)|]. by split. }
    destruct (Z.leb_spec MAX_CHUNKS_PER_FRAME (Z.of_nat (size (oa_chunks o)))) as [|Hlt]; intros [= <- <-]; (split; [|done]);
      [eapply (shrinks_ok t); [split; [done|apply delete_subseteq]|done]|].
    destruct Ht as [B1 B2 B3 B4]. split; [done| |done|]; cbn [with_orphans as_orphans].
    + intros j o' [[<- <-]|[_ H]]%lookup_insert_Some; [|by apply B2]. destruct Ho as [Ho1 Ho2]. unfold orphan_ok. cbn [oa_chunks].
      destruct (oa_chunks o !! fc_chunk_index c) eqn:Ei; [done|]. split.
      * intros i d [[<- <-]|[_ H]]%lookup_insert_Some; [done|by apply Ho1].
      * rewrite map_size_insert_None by done. lia.
    + destruct (as_orphans t !! fc_frame_id c) eqn:Eo; [rewrite map_size_insert_Some by eauto; exact B4|rewrite map_size_insert_None by done].
      rewrite bool_decide_eq_false_2, andb_true_r in E1 by (intros [? ?]; congruence). apply Z.leb_gt in E1. unfold MAX_ORPHAN_FRAMES in E1. lia.
Qed.

Lemma push_parity_ok p now s s' r : all_ok s → Qp p → push_parity p now s = (s', r) → all_ok s' ∧ result_ok r.
Proof.
  intros Hs Hp. unfold push_parity. cbv zeta. set (t := expire now _).
  assert (all_ok t) as Ht by (eapply (shrinks_ok s); [apply (expire_shrinks now (with_completed_started_at None s))|done]). clearbody t.
  destruct (as_frames t !! fp_frame_id p) as [a|] eqn:Ea; [|by intros [= <- <-]]. pose proof (ok_frames _ Ht _ _ Ea) as Ha.
  destruct (parity_invalid p a) eqn:Ev; [intros [= <- <-]; split; [done|right; eauto]|].
  apply finish_repair_ok. case_bool_decide as Hb; cbn [negb andb]; [done|]. destruct (Z.leb_spec (retained_parity a + zlen (fp_data p)) MAX_PARITY_BYTES); [|done].
  apply insert_frame_ok; [done| |eauto]. apply (keep_parity K); try done. destruct (fa_parity a !! fp_parity_index p); [destruct Hb; eauto|done].
Qed.

Definition packet_known (p : MediaPacket) : Prop :=
  match p with
  | MpHeader h _ => Qh h
  | MpChunk c => Qc (fc_frame_id c) (fc_chunk_index c) (fc_data c)
  | MpParity q => Qp q
  end.
Definition op_known (op : AssemblerOp) : Prop := match op with OpPush p _ => packet_known p | _ => True end.
Lemma push_packet_ok p now s s' r : all_ok s → packet_known p → push_packet p now s = (s', r) → all_ok s' ∧ result_ok r.
Proof. destruct p; [apply push_header_ok|apply push_chunk_ok|apply push_parity_ok]. Qed.

Lemma nack_ok now loss rtt s s' o : all_ok s → recovery_nack_with_rtt now loss rtt s = (s', o) → all_ok s'.
Proof.
  intros Hs. unfold recovery_nack_with_rtt. destruct (as_expected_frame_id s) as [e|]; [|by intros [= <- _]]. cbv zeta.
  destruct (nack_choice _ _ _ _) as [id|]; [|by intros [= <- _]]. destruct (as_frames s !! id) as [a|] eqn:Ea; [|by intros [= <- _]].
  destruct (_ || _) eqn:E; [by intros [= <- _]|]. apply orb_false_iff in E as [[[_ _]%orb_false_iff Ec%Z.leb_gt]%orb_false_iff _].
  destruct (take _ _); intros [= <- _]; [done|]. apply insert_frame_ok; [done| |eauto]. by apply (keep_nack K), Ec; apply (ok_frames _ Hs).
Qed.

Lemma default_ok : all_ok assembler_default.
Proof. split; cbn; try done; rewrite map_size_empty; lia. Qed.

(** ** Runs *)

Lemma run_all ops s : all_ok s → Forall op_known ops → all_ok (run_ops ops s).1 ∧ Forall result_ok (run_ops ops s).2.
Proof.
  revert s. induction ops as [|op ops IH]; intros s Hs Ho; [by split|]. apply Forall_cons in Ho as [Ho1 Ho2].
  destruct op as [p now|now loss rtt|]; cbn [run_ops].
  - destruct (push_packet p now s) as [t r] eqn:E. destruct (push_packet_ok _ _ _ _ _ Hs Ho1 E) as [Ht Hr].
    destruct (IH t Ht Ho2) as [H1 H2]. destruct (run_ops ops t). cbn in *. by split; [|apply Forall_cons].
  - destruct (recovery_nack_with_rtt now loss rtt s) as [t o] eqn:E. apply nack_ok in E; auto.
  - apply IH; [apply default_ok|done].
Qed.
End keeps.

(** ** Lemmas: the bytes held *)

Lemma zsum_change l (f g : Z → Z) i x : NoDup l → i ∈ l → (∀ j, j ∈ l → j ≠ i → f j = g j) → f i = g i + x → zsum (f <$> l) = zsum (g <$> l) + x.
Proof.
  intros Hnd Hi Hj Hx. apply list_elem_of_split in Hi as (l1 & l2 & ->). rewrite <- !Permutation_middle. cbn. fold (zsum (f <$> l1 ++ l2)) (zsum (g <$> l1 ++ l2)).
  assert (f <$> l1 ++ l2 = g <$> l1 ++ l2) as ->; [|lia]. apply list_fmap_ext. intros k j Hk%list_elem_of_lookup_2.
  rewrite <- Permutation_middle in Hnd. apply NoDup_cons in Hnd as [Hn _]. apply Hj; [|intros ->; done].
  apply elem_of_app in Hk as [?|?]; apply elem_of_app; [by left|right; by right].
Qed.

(** The bytes of the chunks [0..n]. *)
Definition held (n : Z) (m : gmap Z (list byte)) : Z := zsum ((λ i, default 0 (zlen <$> m !! i)) <$> chunk_range n).

Lemma chunk_range_spec n i : i ∈ chunk_range n ↔ 0 <= i < n.
Proof. unfold chunk_range. rewrite elem_of_seqZ. lia. Qed.

Lemma held_insert n m i d : 0 <= i < n → m !! i = None → held n (<[i := d]> m) = held n m + zlen d.
Proof.
  intros Hi Hm. unfold held. apply (zsum_change _ _ _ i); [apply NoDup_seqZ|by apply chunk_range_spec| |].
  - intros j _ Hj. by rewrite lookup_insert_ne.
  - rewrite lookup_insert_eq, Hm. cbn. lia.
Qed.

Lemma held_empty n : held n ∅ = 0.
Proof. unfold held. induction (chunk_range n) as [|i l IH]; [done|]. cbn. fold (zsum ((λ i, default 0 (zlen <$> (∅ : gmap Z (list byte)) !! i)) <$> l)). by rewrite IH. Qed.

Definition within (n : Z) {V} (m : gmap Z V) : Prop := ∀ i v, m !! i = Some v → 0 <= i < n.

Lemma within_insert n {V} (m : gmap Z V) i v : within n m → 0 <= i < n → within n (<[i := v]> m).
Proof. intros Hm Hi j w [[<- _]|[_ H]]%lookup_insert_Some; [done|by eapply Hm]. Qed.

Lemma within_size n {V} (m : gmap Z V) : 0 <= n → within n m → Z.of_nat (size m) <= n.
Proof.
  intros Hn Hm. rewrite <- size_dom. assert (dom m ⊆ (list_to_set (chunk_range n) : gset Z)) as Hs.
  { intros i [v Hi]%elem_of_dom. apply elem_of_list_to_set, chunk_range_spec. by eapply Hm. }
  apply subseteq_size in Hs. rewrite size_list_to_set in Hs by apply NoDup_seqZ. unfold chunk_range in Hs. rewrite length_seqZ in Hs. lia.
Qed.

(** With as many chunks as its header declares a frame has all of them. *)
Lemma within_full n {V} (m : gmap Z V) : within n m → Z.of_nat (size m) = n → ∀ i, 0 <= i < n → is_Some (m !! i).
Proof.
  intros Hm Hs i Hi. destruct (m !! i) as [v|] eqn:E; [eauto|]. exfalso.
  assert (dom m ⊆ (list_to_set (chunk_range n) : gset Z) ∖ {[i]}) as Hd.
  { intros j [v Hj]%elem_of_dom. apply elem_of_difference. split; [apply elem_of_list_to_set, chunk_range_spec; by eapply Hm|].
    intros ->%elem_of_singleton. congruence. }
  apply subseteq_size in Hd. rewrite size_dom, size_difference in Hd by (intros j ->%elem_of_singleton; by apply elem_of_list_to_set, chunk_range_spec).
  rewrite size_list_to_set, size_singleton in Hd by apply NoDup_seqZ. unfold chunk_range in Hd. rewrite length_seqZ in Hd. lia.
Qed.

Lemma bt_values_insert {V} (m : gmap Z V) k v : m !! k = None → bt_values (<[k := v]> m) ≡ₚ v :: bt_values m.
Proof.
  intros Hk. assert (bt_iter (<[k := v]> m) ≡ₚ (k, v) :: bt_iter m) as H; [|unfold bt_values; by rewrite H].
  apply NoDup_Permutation; [apply NoDup_bt_iter| |].
  - apply NoDup_cons. split; [|apply NoDup_bt_iter]. intros H%elem_of_bt_iter. congruence.
  - intros [j w]. rewrite elem_of_cons, !elem_of_bt_iter, lookup_insert_Some. split.
    + intros [[-> ->]|[_ H]]; [by left|by right].
    + intros [[= -> ->]|H]; [by left|]. right. split; [|done]. intros ->. congruence.
Qed.

Lemma retained_insert a p : fa_parity a !! fp_parity_index p = None →
  retained_parity (with_parity (<[fp_parity_index p := p]> (fa_parity a)) a) = retained_parity a + zlen (fp_data p).
Proof.
  intros H. unfold retained_parity. cbn [with_parity fa_parity]. fold zsum. rewrite bt_values_insert by done. cbn.
  fold (zsum ((λ q, zlen (fp_data q)) <$> bt_values (fa_parity a))). lia.
Qed.

(** ** What a peer can make the client hold *)

Record bounded (id : Z) (a : FrameAssembly) : Prop := {
  bd_id : fh_frame_id (fa_header a) = id;
  bd_header : header_invalid (fa_header a) = false;
  bd_chunks : within (fh_total_chunks (fa_header a)) (fa_chunks a);
  bd_payload : fa_payload_bytes a = held (fh_total_chunks (fa_header a)) (fa_chunks a);
  bd_size : fa_payload_bytes a <= fh_total_size (fa_header a);
  bd_index k p : fa_parity a !! k = Some p → fp_parity_index p = k ∧ 0 <= k < fp_parity_count p ∧ fp_parity_count p <= fh_total_chunks (fa_header a);
  bd_count k k' p p' : fa_parity a !! k = Some p → fa_parity a !! k' = Some p' → fp_parity_count p = fp_parity_count p';
  bd_parity : retained_parity a <= MAX_PARITY_BYTES;
  bd_unsigned : 0 <= fh_total_chunks (fa_header a);
  bd_nacks : 0 <= fa_nack_count a <= MAX_NACKS;
}.

Definition any_chunk (_ i : Z) (_ : list byte) : Prop := 0 <= i.
Definition any_header (h : FrameHeader) : Prop := 0 <= fh_total_chunks h ∧ 0 <= fh_total_size h.
Definition any_parity (p : FrameParity) : Prop := 0 <= fp_parity_index p.

(** A recovered chunk belongs to the parity's stripe and was missing. *)
Lemma recover_missing p n present i d : recover_chunk p n present = Some (i, d) → i ∈ covered p n ∧ present i = None.
Proof.
  unfold recover_chunk. intros H. assert (∀ l m data len m' data' len', recover_loop present l m data len = Some (m', data', len') →
    ∀ i, m' = Some i → m = Some i ∨ i ∈ l ∧ present i = None) as Hl.
  { intros l. induction l as [|j l IH]; intros m data len m' data' len'; cbn; [intros [= <- _ _]; auto|].
    destruct (present j) as [c|] eqn:E; [destruct (_ <? _); [done|]|destruct m; [done|]]; intros Hr k Hk;
      destruct (IH _ _ _ _ _ _ Hr k Hk) as [Hm|[Hin Hp]]; auto; try (right; split; [by right|done]).
    right. injection Hm as ->. split; [by left|done]. }
  destruct (recover_loop _ _ _ _ _) as [[[m' data'] len']|] eqn:E; [|done]. cbn in H. destruct m' as [k|]; [|done]. cbn in H.
  destruct (_ || _); [done|]. injection H as -> _. destruct (Hl _ _ _ _ _ _ _ E i eq_refl) as [|]; done.
Qed.

Lemma repair1_cases a p : repair1 a p = a ∨
  ∃ i d, recover_chunk p (fh_total_chunks (fa_header a)) (λ i, fa_chunks a !! i) = Some (i, d) ∧
    fa_payload_bytes a + zlen d <= fh_total_size (fa_header a) ∧
    repair1 a p = with_recovered (add64 (fa_recovered a) 1) (with_chunks (<[i := d]> (fa_chunks a)) (fa_payload_bytes a + zlen d) a).
Proof.
  unfold repair1. destruct (recover_chunk _ _ _) as [[i d]|]; [|by left]. destruct (Z.leb_spec (fa_payload_bytes a + zlen d) (fh_total_size (fa_header a))); [right; eauto 6|by left].
Qed.

Lemma covered_range a k p i : bounded k a → fa_parity a !! fp_parity_index p = Some p → i ∈ covered p (fh_total_chunks (fa_header a)) → 0 <= i < fh_total_chunks (fa_header a).
Proof.
  intros Hb Hp Hi. destruct (bd_index _ _ Hb _ _ Hp) as (_ & Hk & Hc). apply covered_spec in Hi as [Hi _]; lia.
Qed.

Lemma bounded_add id a i d : bounded id a → any_chunk id i d → i < fh_total_chunks (fa_header a) → fa_chunks a !! i = None →
  fa_payload_bytes a + zlen d <= fh_total_size (fa_header a) → bounded id (with_chunks (<[i := d]> (fa_chunks a)) (fa_payload_bytes a + zlen d) a).
Proof.
  intros [B1 B2 B3 B4 B5 B6 B7 B8 B9 B10] Hi Hlt Hn Hs. unfold any_chunk in Hi. split; cbn; try done.
  - apply within_insert; [done|lia].
  - rewrite held_insert by (done || lia). lia.
Qed.

Lemma bounded_keeps : keeps bounded any_chunk any_header any_parity.
Proof.
  split.
  - intros h started ts [Hh1 Hh2] Hv. split; cbn [fa_header fa_chunks fa_payload_bytes fa_parity]; try done.
    by rewrite held_empty.
  - intros id a started ts []. by split.
  - apply bounded_add.
  - intros a p Hb Hp Hv Hn Hr. unfold parity_invalid in Hv. apply orb_false_iff in Hv as [Hv He]. bool_hyps. pose proof Hb as [B1 B2 B3 B4 B5 B6 B7 B8 B9 B10].
    assert (∀ k q, fa_parity a !! k = Some q → fp_parity_count q = fp_parity_count p) as Hq.
    { intros k q Hk. destruct (Z.eq_dec (fp_parity_count q) (fp_parity_count p)) as [|ne]; [done|]. exfalso.
      assert (existsb (λ old, negb (fp_parity_count old =? fp_parity_count p)) (bt_values (fa_parity a)) = true); [|congruence].
      apply existsb_exists. exists q. split; [apply list_elem_of_In, elem_of_bt_values; eauto|]. apply negb_true_iff, Z.eqb_neq. done. }
    split; cbn [with_parity fa_header fa_chunks fa_payload_bytes fa_parity]; try done.
    + intros k q [[<- <-]|[_ Hq1]]%lookup_insert_Some; [|by apply B6]. split; [done|]. unfold any_parity in Hp. lia.
    + intros k k' q q' [[<- <-]|[_ Hq1]]%lookup_insert_Some [[<- <-]|[_ Hq2]]%lookup_insert_Some; [done|symmetry; by eapply Hq|by eapply Hq|by eapply B7].
    + rewrite retained_insert by done. done.
  - intros id a k p Hb Hp. destruct (repair1_cases a p) as [->|(i & d & Hr & Hs & ->)]; [done|].
    apply recover_missing in Hr as [Hi Hn]. assert (fp_parity_index p = k) as <- by (by apply (bd_index _ _ Hb)).
    pose proof (covered_range a id p i Hb Hp Hi) as Hir. destruct (bounded_add id a i d Hb ltac:(unfold any_chunk; lia) ltac:(lia) Hn Hs). by split.
  - intros id a now [B1 B2 B3 B4 B5 B6 B7 B8 B9 B10] Hn. split; cbn [with_nack fa_header fa_chunks fa_payload_bytes fa_parity fa_nack_count]; try done. lia.
Qed.

(** The numbers of a packet are unsigned. *)
Definition op_unsigned (op : AssemblerOp) : Prop :=
  match op with
  | OpPush (MpHeader h _) _ => 0 <= fh_total_chunks h ∧ 0 <= fh_total_size h
  | OpPush (MpChunk c) _ => 0 <= fc_chunk_index c
  | OpPush (MpParity p) _ => 0 <= fp_parity_index p
  | _ => True
  end.

(** What a peer can make the client hold.  After any packets whatever, well-formed or
    not and in any order, with requests for missing chunks and clears between them, the
    assembler has at most 16 incomplete frames and 16 frames of chunks without a header
    (at most 8192 chunks each); and a frame holds at most the chunks its header announces,
    at most 8192, their bytes are the counted [payload_bytes] and never more than the
    announced size, which is at most 32 MiB; its parities are at most 2 MiB; and it was asked for
    at most three times. *)
Theorem assembler_bounded (ops : list AssemblerOp) :
  Forall op_unsigned ops →
  let s := (run_ops ops assembler_default).1 in
  (size (as_frames s) <= 16)%nat ∧ (size (as_orphans s) <= 16)%nat ∧
  (∀ id o, as_orphans s !! id = Some o → Z.of_nat (size (oa_chunks o)) <= 8192) ∧
  (∀ id a, as_frames s !! id = Some a →
    Z.of_nat (size (fa_chunks a)) <= fh_total_chunks (fa_header a) <= 8192 ∧
    fa_payload_bytes a = held (fh_total_chunks (fa_header a)) (fa_chunks a) ∧
    fa_payload_bytes a <= fh_total_size (fa_header a) <= 32 * 1024 * 1024 ∧
    retained_parity a <= 2 * 1024 * 1024 ∧ fa_nack_count a <= 3).
Proof.
  intros Ho s. assert (all_ok bounded any_chunk s) as [A1 A2 A3 A4].
  { apply (run_all _ _ any_header any_parity bounded_keeps); [apply default_ok|]. eapply Forall_impl; [exact Ho|]. by intros [[]| |]. }
  split; [done|]. split; [done|]. split; [intros id o Hid; apply (A2 id o Hid)|]. intros id a Ha.
  destruct (A1 id a Ha) as [B1 B2 B3 B4 B5 B6 B7 B8 B9 B10]. unfold header_invalid, MAX_CHUNKS_PER_FRAME, MAX_FRAME_BYTES in B2.
  apply orb_false_iff in B2 as [[[H1%Z.eqb_neq H2%Z.ltb_ge]%orb_false_iff H3%Z.eqb_neq]%orb_false_iff H4%Z.ltb_ge].
  repeat split; try done; try (unfold MAX_PARITY_BYTES, MAX_NACKS in *; lia). by apply within_size.
Qed.
Lemma assembler_bounded_witness :
  let ops := [OpPush (MpHeader (mk_FrameHeader 7 16 9 true 2 2) 1000) 5; OpPush (MpChunk (mk_FrameChunk 7 1 [x01])) 6; OpNack 5000005 0 0] in
  Forall op_unsigned ops ∧ (size (as_frames (run_ops ops assembler_default).1) <= 16)%nat.
Proof.
  split; [|apply assembler_bounded]; repeat constructor; cbn; lia.
Defined.

(** ** What is delivered is what was sent *)

(** A frame of the sender: its header, its chunks and the number of its parities. *)
Record SentFrame := mk_SentFrame { sf_header : FrameHeader; sf_chunks : list (list byte); sf_parity : Z }.
Record frame_sent (id : Z) (f : SentFrame) : Prop := {
  sent_id : fh_frame_id (sf_header f) = id;
  sent_total : fh_total_chunks (sf_header f) = zlen (sf_chunks f);
  sent_size : fh_total_size (sf_header f) = zlen (concat (sf_chunks f));
  sent_chunks : 1 <= zlen (sf_chunks f) <= MAX_CHUNKS_PER_FRAME;
  sent_bytes : zlen (concat (sf_chunks f)) <= MAX_FRAME_BYTES;
  sent_chunk : Forall (λ c, 1 <= zlen c <= MAX_VIDEO_CHUNK_BYTES) (sf_chunks f);
  sent_parity : sf_parity f <= zlen (sf_chunks f);
}.
(** The packets of a frame. *)
Definition packet_of (f : SentFrame) (p : MediaPacket) : Prop :=
  match p with
  | MpHeader h _ => h = sf_header f
  | MpChunk c => 0 <= fc_chunk_index c ∧ sf_chunks f !! Z.to_nat (fc_chunk_index c) = Some (fc_data c)
  | MpParity q => q ∈ build_parity (fp_frame_id q) (sf_chunks f) (sf_parity f)
  end.

Lemma collect_exact (m : gmap Z (list byte)) cs k :
  0 <= k → (∀ i, 0 <= i < zlen cs → m !! (k + i) = cs !! Z.to_nat i) → collect (seqZ k (zlen cs)) m = Some (concat cs).
Proof.
  revert k. induction cs as [|c cs IH]; intros k Hk Hm; [done|]. unfold zlen in *. cbn [length] in *. rewrite seqZ_cons by lia. cbn [collect].
  pose proof (Hm 0 ltac:(lia)) as H0. rewrite Z.add_0_r in H0. rewrite H0. cbn [lookup list_lookup Z.to_nat mbind option_bind].
  replace (Z.pred (Z.of_nat (S (length cs)))) with (Z.of_nat (length cs)) by lia.
  rewrite IH; [done|lia|]. intros i Hi. replace (Z.succ k + i) with (k + (i + 1)) by lia. rewrite Hm by lia.
  by replace (Z.to_nat (i + 1)) with (S (Z.to_nat i)) by lia.
Qed.

Lemma held_part cs k (m : gmap Z (list byte)) :
  0 <= k → (∀ i d, m !! (k + i) = Some d → 0 <= i < zlen cs → cs !! Z.to_nat i = Some d) →
  zsum ((λ i, default 0 (zlen <$> m !! i)) <$> seqZ k (zlen cs)) <= zlen (concat cs).
Proof.
  revert k. induction cs as [|c cs IH]; intros k Hk Hm; [done|]. replace (zlen (c :: cs)) with (Z.succ (zlen cs)) by (unfold zlen; cbn; lia).
  pose proof (zlen_nonneg cs). rewrite seqZ_cons, Z.pred_succ by lia.
  rewrite fmap_cons. cbn [zsum foldr concat]. rewrite zlen_app.
  assert (default 0 (zlen <$> m !! k) <= zlen c).
  { destruct (m !! k) as [d|] eqn:E; cbn; [|apply zlen_nonneg]. specialize (Hm 0 d). rewrite Z.add_0_r in Hm.
    injection (Hm E ltac:(unfold zlen; cbn; lia)) as ->. lia. }
  specialize (IH (Z.succ k) ltac:(lia)). change (foldr Z.add 0) with zsum.
  enough (zsum ((λ i, default 0 (zlen <$> m !! i)) <$> seqZ (Z.succ k) (zlen cs)) <= zlen (concat cs)) by lia. apply IH.
  intros i d Hi Hr. replace (Z.succ k + i) with (k + (i + 1)) in Hi by lia. pose proof (Hm (i + 1) d Hi ltac:(unfold zlen in *; cbn in *; lia)) as Hd.
  by replace (Z.to_nat (i + 1)) with (S (Z.to_nat i)) in Hd by lia.
Qed.

Lemma zlen_build_one id cs P q : 0 <= q → Forall (λ c, zlen c <= MAX_VIDEO_CHUNK_BYTES) cs → zlen (fp_data (build_one id cs P q)) <= MAX_VIDEO_CHUNK_BYTES.
Proof.
  intros Hq Hc. cbn [build_one fp_data]. set (l := step_by _ _). assert (Forall (λ c, zlen c <= MAX_VIDEO_CHUNK_BYTES) l) as Hl.
  { apply Forall_forall. intros c Hin. rewrite Forall_forall in Hc. apply Hc. subst l. unfold step_by in Hin.
    eapply elem_of_submseteq; [exact Hin|]. apply sublist_submseteq. etransitivity; [apply step_from_sublist|apply sublist_drop]. }
  assert (∀ l d, zlen (foldl xor_into d l) = zlen d) as Hf.
  { intros l'. induction l' as [|c l' IH]; intros d; cbn; [done|]. by rewrite IH, zlen_xor_into. }
  rewrite Hf. unfold zlen at 1. rewrite length_replicate. assert (0 <= foldr Z.max 0 (zlen <$> l) <= MAX_VIDEO_CHUNK_BYTES); [|lia].
  clear Hf. induction Hl as [|c l' Hcl _ IH]; [done|]. cbn [fmap list_fmap foldr]. pose proof (zlen_nonneg c). lia.
Qed.

(** An assembly holds part of a frame. *)
Definition part_of (cs : list (list byte)) (m : gmap Z (list byte)) : Prop := ∀ i d, m !! i = Some d → 0 <= i ∧ cs !! Z.to_nat i = Some d.
Record holds (id : Z) (f : SentFrame) (a : FrameAssembly) : Prop := {
  hd_header : fa_header a = sf_header f;
  hd_chunks : part_of (sf_chunks f) (fa_chunks a);
  hd_payload : fa_payload_bytes a = held (zlen (sf_chunks f)) (fa_chunks a);
  hd_parity k p : fa_parity a !! k = Some p → p = build_one id (sf_chunks f) (sf_parity f) k ∧ 0 <= k < sf_parity f;
}.

Lemma part_insert cs m i d : part_of cs m → 0 <= i → cs !! Z.to_nat i = Some d → part_of cs (<[i := d]> m).
Proof. intros Hm Hi Hd j x [[<- <-]|[_ H]]%lookup_insert_Some; [done|by apply Hm]. Qed.
Lemma part_within cs m : part_of cs m → within (zlen cs) m.
Proof. intros Hm i d Hi. destruct (Hm i d Hi) as [H0 Hd]. apply lookup_lt_Some in Hd. unfold zlen. lia. Qed.
Lemma part_held cs m : part_of cs m → held (zlen cs) m <= zlen (concat cs).
Proof. intros Hm. apply held_part; [lia|]. intros i d Hi _. by apply Hm. Qed.

(** A chunk of the frame that is missing fits. *)
Lemma holds_room id f a i d : frame_sent id f → holds id f a → 0 <= i → sf_chunks f !! Z.to_nat i = Some d → fa_chunks a !! i = None →
  fa_payload_bytes a + zlen d <= fh_total_size (fa_header a).
Proof.
  intros Hf [H1 H2 H3 H4] Hi Hd Hn. assert (0 <= i < zlen (sf_chunks f)) as Hr by (apply lookup_lt_Some in Hd; unfold zlen; lia).
  rewrite H1, (sent_size _ _ Hf), H3, <- (held_insert _ _ i) by done. by apply part_held, part_insert.
Qed.
Lemma holds_add id f a i d : holds id f a → 0 <= i → sf_chunks f !! Z.to_nat i = Some d → fa_chunks a !! i = None →
  holds id f (with_chunks (<[i := d]> (fa_chunks a)) (fa_payload_bytes a + zlen d) a).
Proof.
  intros [H1 H2 H3 H4] Hi Hd Hn. split; cbn [with_chunks fa_header fa_chunks fa_payload_bytes fa_parity]; [done|by apply part_insert| |done].
  rewrite held_insert, H3; [done| |done]. apply lookup_lt_Some in Hd. unfold zlen. lia.
Qed.

Lemma sent_u16 id f : frame_sent id f → Forall (λ c, 1 <= zlen c <= u16_max) (sf_chunks f).
Proof. intros Hf. eapply Forall_impl; [apply (sent_chunk _ _ Hf)|]. cbn. unfold MAX_VIDEO_CHUNK_BYTES, u16_max. lia. Qed.

(** The missing chunks of a parity's stripe. *)
Definition stripe_lost (a : FrameAssembly) (p : FrameParity) : list Z :=
  filter (λ j, fa_chunks a !! j = None) (covered p (fh_total_chunks (fa_header a))).

(** What a parity repairs. *)
Lemma repair1_exact id f a k p : frame_sent id f → holds id f a → fa_parity a !! k = Some p →
  repair1 a p = match stripe_lost a p with
    | [i] => with_recovered (add64 (fa_recovered a) 1)
        (with_chunks (<[i := chunk_at (sf_chunks f) i]> (fa_chunks a)) (fa_payload_bytes a + zlen (chunk_at (sf_chunks f) i)) a)
    | _ => a
    end ∧ ∀ i, stripe_lost a p = [i] → 0 <= i ∧ sf_chunks f !! Z.to_nat i = Some (chunk_at (sf_chunks f) i).
Proof.
  intros Hf Ha Hp. pose proof Ha as [H1 H2 H3 H4]. destruct (H4 _ _ Hp) as [-> Hk].
  assert (∀ i, stripe_lost a (build_one id (sf_chunks f) (sf_parity f) k) = [i] → 0 <= i ∧ sf_chunks f !! Z.to_nat i = Some (chunk_at (sf_chunks f) i) ∧ fa_chunks a !! i = None) as Hl.
  { intros i E. assert (i ∈ stripe_lost a (build_one id (sf_chunks f) (sf_parity f) k)) as [Hn Hc]%list_elem_of_filter by (rewrite E; by left).
    rewrite H1, (sent_total _ _ Hf) in Hc. apply covered_spec in Hc as [Hr _]; cbn; try lia. split; [lia|]. split; [|done].
    destruct (lookup_lt_is_Some_2 (sf_chunks f) (Z.to_nat i) ltac:(unfold zlen in *; lia)) as [c Hc]. by rewrite (chunk_at_lookup _ _ _ Hc). }
  split; [|intros i E; destruct (Hl i E) as (? & ? & _); done]. unfold repair1. rewrite H1, (sent_total _ _ Hf).
  rewrite (recover_chunk_exact _ (sf_chunks f)); [|lia|lia|by eapply sent_u16|intros j c _ Hj; symmetry; apply chunk_at_lookup; by apply H2].
  unfold stripe_lost, lost in *. rewrite H1, (sent_total _ _ Hf) in *. destruct (filter _ _) as [|i [|]]; [done| |done].
  destruct (Hl i eq_refl) as (Hi & Hd & Hn). pose proof (holds_room id f a i _ Hf Ha Hi Hd Hn) as Hroom. rewrite H1 in Hroom.
  apply Z.leb_le in Hroom. by rewrite Hroom.
Qed.
Lemma repair1_holds id f a k p : frame_sent id f → holds id f a → fa_parity a !! k = Some p → holds id f (repair1 a p).
Proof.
  intros Hf Ha Hp. destruct (repair1_exact id f a k p Hf Ha Hp) as [-> Hl]. destruct (stripe_lost a p) as [|i [|]] eqn:E; [done| |done].
  destruct (Hl i eq_refl) as [Hi Hd]. assert (fa_chunks a !! i = None) as Hn.
  { assert (i ∈ stripe_lost a p) as [Hn _]%list_elem_of_filter by (rewrite E; by left). done. }
  by destruct (holds_add id f a i _ Ha Hi Hd Hn).
Qed.

Lemma holds_complete id f a : frame_sent id f → holds id f a → complete a = true →
  collect (chunk_range (fh_total_chunks (fa_header a))) (fa_chunks a) = Some (concat (sf_chunks f)).
Proof.
  intros Hf [H1 H2 H3 H4] Hc. unfold complete in Hc. apply Z.eqb_eq in Hc. rewrite H1, (sent_total _ _ Hf) in *.
  apply collect_exact; [lia|]. intros i Hi. rewrite Z.add_0_l. destruct (within_full _ _ (part_within _ _ H2) Hc i Hi) as [d Hd]. rewrite Hd. symmetry. by apply H2.
Qed.

Lemma sent_parity_bytes id f k : frame_sent id f → 0 <= k → zlen (fp_data (build_one id (sf_chunks f) (sf_parity f) k)) <= MAX_VIDEO_CHUNK_BYTES.
Proof. intros Hf Hk. apply zlen_build_one; [lia|]. eapply Forall_impl; [apply (sent_chunk _ _ Hf)|]; cbn; lia. Qed.

(** A parity of the frame is accepted. *)
Lemma holds_parity_valid id f a k : frame_sent id f → holds id f a → 0 <= k < sf_parity f →
  parity_invalid (build_one id (sf_chunks f) (sf_parity f) k) a = false.
Proof.
  intros Hf Ha Hk. pose proof (sent_parity_bytes id f k Hf ltac:(lia)). pose proof (sent_parity _ _ Hf). unfold parity_invalid.
  rewrite (hd_header _ _ _ Ha), (sent_total _ _ Hf). cbn [build_one fp_parity_count fp_parity_index].
  repeat (apply orb_false_iff; split); [apply Z.eqb_neq; lia|apply Z.ltb_ge; lia|apply Z.leb_gt; lia|by apply Z.ltb_ge|].
  apply not_true_is_false. intros (q & Hq%list_elem_of_In%elem_of_bt_values & Hne)%existsb_exists. destruct Hq as [k' Hq].
  destruct (hd_parity _ _ _ Ha _ _ Hq) as [-> _]. cbn in Hne. by rewrite Z.eqb_refl in Hne.
Qed.

Section sent.
Context (sent : gmap Z SentFrame) (Hsent : ∀ id f, sent !! id = Some f → frame_sent id f).

Definition faithful (id : Z) (a : FrameAssembly) : Prop := ∃ f, sent !! id = Some f ∧ holds id f a.
Definition sent_chunk_of (id i : Z) (d : list byte) : Prop := ∃ f, sent !! id = Some f ∧ 0 <= i ∧ sf_chunks f !! Z.to_nat i = Some d.
Definition sent_header_of (h : FrameHeader) : Prop := ∃ f, sent !! fh_frame_id h = Some f ∧ h = sf_header f.
Definition sent_parity_of (p : FrameParity) : Prop :=
  ∃ f, sent !! fp_frame_id p = Some f ∧ p ∈ build_parity (fp_frame_id p) (sf_chunks f) (sf_parity f).

Lemma sent_parity_inv p : sent_parity_of p → ∃ f, sent !! fp_frame_id p = Some f ∧ 0 <= fp_parity_index p < sf_parity f ∧
  p = build_one (fp_frame_id p) (sf_chunks f) (sf_parity f) (fp_parity_index p).
Proof.
  intros (f & Hf & [k Hk]%list_elem_of_lookup). exists f. apply build_parity_lookup in Hk as [Hk ->]. cbn in *. split; [done|]. split; [lia|done].
Qed.

Lemma faithful_keeps : keeps faithful sent_chunk_of sent_header_of sent_parity_of.
Proof.
  split.
  - intros h started ts (f & Hf & ->) Hv. exists f. split; [done|]. split; cbn [fa_header fa_chunks fa_payload_bytes fa_parity]; try done. by rewrite held_empty.
  - intros id a started ts (f & Hf & []). exists f. split; [done|by split].
  - intros id a i d (f & Hf & Ha) (f' & Hf' & Hi & Hd) _ Hn _. assert (f' = f) as -> by congruence. exists f. split; [done|]. by apply holds_add.
  - intros a p (f & Hf & [H1 H2 H3 H4]) (f' & Hf' & Hp & Ep)%sent_parity_inv _ _ _. assert (f' = f) as -> by congruence. exists f. split; [done|].
    split; cbn [with_parity fa_header fa_chunks fa_payload_bytes fa_parity]; try done.
    intros k q [[<- <-]|[_ H]]%lookup_insert_Some; [done|by apply H4].
  - intros id a k p (f & Hf & Ha) Hp. exists f. split; [done|]. apply (repair1_holds id f a k p); auto.
  - intros id a now (f & Hf & []) _. exists f. split; [done|by split].
Qed.

Lemma faithful_result r : result_ok faithful sent_chunk_of sent_header_of sent_parity_of r →
  match r with
  | Ok None => True
  | Ok (Some af) => ∃ id f, sent !! id = Some f ∧ af_frame_header af = sf_header f ∧ af_frame_data af = concat (sf_chunks f)
  | Err _ => False
  end.
Proof.
  destruct r as [[af|]|[]]; cbn [result_ok]; [| |intros (h & (f & Hf & ->) & Hv)|intros [H|H]|intros (id & a & (f & Hf & Ha) & Hc & Hs)].
  - intros (id & a & (f & Hf & Ha) & Hc & Hd & Hs & Hh). exists id, f. rewrite (holds_complete id f a (Hsent _ _ Hf) Ha Hc) in Hd. injection Hd as ->.
    split; [done|]. split; [|done]. rewrite Hh. apply (hd_header _ _ _ Ha).
  - done.
  - destruct (Hsent _ _ Hf) as [S1 S2 S3 S4 S5 S6 S7]. unfold header_invalid, MAX_CHUNKS_PER_FRAME, MAX_FRAME_BYTES in *. rewrite S2, S3 in Hv.
    assert (1 <= zlen (concat (sf_chunks f))).
    { destruct (sf_chunks f) as [|c cs]; [unfold zlen in S4; cbn in S4; lia|]. apply Forall_cons in S6 as [? _]. cbn [concat]. rewrite zlen_app. pose proof (zlen_nonneg (concat cs)). lia. }
    apply orb_true_iff in Hv as [[[Hv%Z.eqb_eq|Hv%Z.ltb_lt]%orb_true_iff|Hv%Z.eqb_eq]%orb_true_iff|Hv%Z.ltb_lt]; lia.
  - destruct H as (id & a & i & d & (f & Hf & Ha) & (f' & Hf' & Hi & Hd) & Hle). assert (f' = f) as -> by congruence.
    rewrite (hd_header _ _ _ Ha), (sent_total _ _ (Hsent _ _ Hf)) in Hle. apply lookup_lt_Some in Hd. unfold zlen in Hle. lia.
  - destruct H as (a & p & (f & Hf & Ha) & (f' & Hf' & Hp & Ep)%sent_parity_inv & Hv). assert (f' = f) as -> by congruence.
    rewrite Ep, (holds_parity_valid _ f) in Hv by auto. done.
  - rewrite (hd_header _ _ _ Ha), (sent_size _ _ (Hsent _ _ Hf)) in Hs. apply (Hs (concat (sf_chunks f))); [|done].
    rewrite <- (holds_complete id f a (Hsent _ _ Hf) Ha Hc). by rewrite (hd_header _ _ _ Ha).
Qed.
End sent.

(** Every packet pushed is one of a sent frame. *)
Definition op_sent (sent : gmap Z SentFrame) (op : AssemblerOp) : Prop :=
  match op with OpPush p _ => ∃ f, sent !! packet_frame p = Some f ∧ packet_of f p | _ => True end.

(** The frames delivered are the frames sent.  Let the packets pushed be headers, chunks
    and parities of the sender's frames, in any order, any number of times, with any
    loss and at any instants, with requests and clears between them.  Then no push is
    refused, and every frame that comes out has the header of a sent frame and exactly
    its bytes, whichever of its chunks arrived and whichever were rebuilt from parities. *)
Theorem assembler_exact (sent : gmap Z SentFrame) (ops : list AssemblerOp) :
  (∀ id f, sent !! id = Some f → frame_sent id f) → Forall (op_sent sent) ops →
  Forall (λ r, ∃ o, r = Ok o ∧ ∀ af, o = Some af →
    ∃ id f, sent !! id = Some f ∧ af_frame_header af = sf_header f ∧ af_frame_data af = concat (sf_chunks f))
    (run_ops ops assembler_default).2.
Proof.
  intros Hsent Ho. destruct (run_all _ _ _ _ (faithful_keeps sent Hsent) ops assembler_default) as [_ Hr].
  - apply default_ok.
  - eapply Forall_impl; [exact Ho|]. intros [[h ts|c|q] now| |] H; cbn in H; try done; destruct H as (f & Hf & Hp); exists f; (split; [done|exact Hp]).
  - eapply Forall_impl; [exact Hr|]. intros r H%(faithful_result sent Hsent). destruct r as [o|]; [|done]. exists o. split; [done|]. by intros af ->.
Qed.

(** Three chunks of which one is lost, and a parity. *)
Definition demo_frame : SentFrame := mk_SentFrame (mk_FrameHeader 7 16 9 true 3 5) [[x01; x02]; [x03; x04]; [x05]] 2.
Definition demo_ops : list AssemblerOp :=
  [OpPush (MpChunk (mk_FrameChunk 7 1 [x03; x04])) 1; OpPush (MpHeader (sf_header demo_frame) 99) 2; OpNack (ms 5) 0 0;
   OpPush (MpParity (build_one 7 (sf_chunks demo_frame) 2 0)) (ms 6); OpPush (MpChunk (mk_FrameChunk 7 2 [x05])) (ms 7)].
Lemma demo_frame_sent id f : ({[7 := demo_frame]} : gmap Z SentFrame) !! id = Some f → frame_sent id f.
Proof.
  intros [<- <-]%lookup_singleton_Some. split; vm_compute; try done; repeat constructor; vm_compute; done.
Qed.
Lemma assembler_exact_witness :
  (run_ops demo_ops assembler_default).2 = [Ok None; Ok None; Ok None; Ok (Some (mk_AssembledFrame (sf_header demo_frame) [x01; x02; x03; x04; x05] 99))] ∧
  Forall (λ r, ∃ o, r = Ok o ∧ ∀ af, o = Some af →
    ∃ id f, ({[7 := demo_frame]} : gmap Z SentFrame) !! id = Some f ∧ af_frame_header af = sf_header f ∧ af_frame_data af = concat (sf_chunks f))
    (run_ops demo_ops assembler_default).2.
Proof.
  split; [vm_compute; reflexivity|]. apply assembler_exact; [exact demo_frame_sent|].
  repeat constructor; exists demo_frame; (split; [reflexivity|]); cbn; try done; try (split; [lia|done]). by left.
Defined.

(** ** A frame that can be completed is *)

Lemma filter_agree {A} (P Q : A → Prop) `{!∀ x, Decision (P x), !∀ x, Decision (Q x)} (l : list A) :
  (∀ x, x ∈ l → P x ↔ Q x) → filter P l = filter Q l.
Proof.
  induction l as [|x l IH]; intros Hag; [done|]. rewrite !filter_cons. rewrite IH by (intros; apply Hag; by right).
  pose proof (Hag x ltac:(by left)). destruct (decide (P x)), (decide (Q x)); tauto.
Qed.

(** No parity could rebuild another chunk. *)
Definition settled (a : FrameAssembly) (p : FrameParity) : Prop := ∀ i, stripe_lost a p ≠ [i].

Abbreviation pushes := (fmap (λ pn : MediaPacket * Z, OpPush pn.1 pn.2)).

Section one_frame.
Context (id : Z) (f : SentFrame) (Hf : frame_sent id f).

Lemma repair1_settled a k p : holds id f a → fa_parity a !! k = Some p → settled (repair1 a p) p.
Proof.
  intros Ha Hp. destruct (repair1_exact id f a k p Hf Ha Hp) as [-> _]. destruct (stripe_lost a p) as [|i [|]] eqn:E; try (intros ?; congruence).
  intros j Hj. assert (j ∈ [j]) as Hin by (by left). rewrite <- Hj in Hin. unfold stripe_lost in Hin. cbn in Hin.
  apply list_elem_of_filter in Hin as [[Hn Hne]%lookup_insert_None Hc].
  assert (j ∈ stripe_lost a p) as H by (by apply list_elem_of_filter). rewrite E in H. apply list_elem_of_singleton in H. congruence.
Qed.
Lemma repair1_keeps_settled a k p k' q : holds id f a → fa_parity a !! k = Some p → fa_parity a !! k' = Some q → settled a q → settled (repair1 a p) q.
Proof.
  intros Ha Hp Hq Hs. destruct (Z.eq_dec k k') as [<-|Hk].
  - assert (q = p) as -> by congruence. by eapply repair1_settled.
  - destruct (repair1_exact id f a k p Hf Ha Hp) as [-> _]. destruct (stripe_lost a p) as [|i [|]] eqn:E; try done.
    assert (i ∈ stripe_lost a p) as [Hn Hi]%list_elem_of_filter by (rewrite E; by left). intros j Hj. apply (Hs j). rewrite <- Hj. unfold stripe_lost. cbn.
    apply filter_agree. intros x Hx. rewrite lookup_insert_None. split; [|tauto]. intros Hx'. split; [done|]. intros <-.
    destruct (hd_parity _ _ _ Ha _ _ Hp) as [-> Hp2]. destruct (hd_parity _ _ _ Ha _ _ Hq) as [-> Hq2].
    apply covered_spec in Hi as [_ Hi]; cbn in *; [|lia..]. apply covered_spec in Hx as [_ Hx]; cbn in *; [|lia..]. lia.
Qed.

Lemma repair_fold_settled l a :
  holds id f a → (∀ p, p ∈ l → ∃ k, fa_parity a !! k = Some p) →
  holds id f (foldl repair1 a l) ∧ fa_parity (foldl repair1 a l) = fa_parity a ∧ fa_started (foldl repair1 a l) = fa_started a ∧
  (∀ i, is_Some (fa_chunks a !! i) → is_Some (fa_chunks (foldl repair1 a l) !! i)) ∧
  (∀ k p, fa_parity a !! k = Some p → p ∈ l ∨ settled a p → settled (foldl repair1 a l) p).
Proof.
  revert a. induction l as [|q l IH]; intros a Ha Hl; cbn [foldl].
  { do 4 (split; [done|]). intros k p _ [Hn|Hs]; [by apply not_elem_of_nil in Hn|done]. }
  destruct (Hl q ltac:(by left)) as [k Hk]. assert (fa_started (repair1 a q) = fa_started a ∧ ∀ i, is_Some (fa_chunks a !! i) → is_Some (fa_chunks (repair1 a q) !! i)) as [Es Em].
  { destruct (repair1_cases a q) as [->|(i & d & _ & _ & ->)]; [done|]. split; [done|]. intros j Hj. cbn. destruct (Z.eq_dec i j) as [->|]; [rewrite lookup_insert_eq; eauto|by rewrite lookup_insert_ne]. }
  destruct (IH (repair1 a q)) as (I1 & I2 & I3 & I4 & I5).
  { by eapply repair1_holds. }
  { intros p Hp. rewrite repair1_parity. apply Hl. by right. }
  rewrite repair1_parity in *. split; [done|]. split; [done|]. split; [by rewrite I3|]. split; [auto|].
  intros k' p Hp Hc. apply (I5 k' p Hp). destruct Hc as [Hin|Hs]; [apply elem_of_cons in Hin as [->|Hin]|]; [right; by eapply repair1_settled|by left|].
  right. exact (repair1_keeps_settled a k q k' p Ha Hk Hp Hs).
Qed.

Lemma repair_settled a : holds id f a → let a' := repair_assembly a in
  holds id f a' ∧ fa_parity a' = fa_parity a ∧ fa_started a' = fa_started a ∧
  (∀ i, is_Some (fa_chunks a !! i) → is_Some (fa_chunks a' !! i)) ∧ (∀ k p, fa_parity a' !! k = Some p → settled a' p).
Proof.
  intros Ha a'. destruct (repair_fold_settled (bt_values (fa_parity a)) a Ha) as (I1 & I2 & I3 & I4 & I5); [intros p; apply elem_of_bt_values|].
  fold (repair_assembly a) in *. fold a' in I1, I2, I3, I4, I5. do 4 (split; [done|]). rewrite I2. intros k p Hp. apply (I5 k p Hp). left. apply elem_of_bt_values. eauto.
Qed.

(** Chunks that waited for the header are all admitted. *)
Lemma admit_fold_all a l acc : holds id f (with_chunks acc.1 acc.2 a) → (∀ i d, (i, d) ∈ l → 0 <= i ∧ sf_chunks f !! Z.to_nat i = Some d) →
  let acc' := foldl (admit1 (sf_header f)) acc l in
  holds id f (with_chunks acc'.1 acc'.2 a) ∧ (∀ i, is_Some (acc.1 !! i) ∨ (∃ d, (i, d) ∈ l) → is_Some (acc'.1 !! i)).
Proof.
  revert acc. induction l as [|[i d] l IH]; intros [m b] Ha Hl; cbn [foldl].
  { split; [done|]. intros i [H|[d H%not_elem_of_nil]]; done. }
  destruct (Hl i d ltac:(by left)) as [Hi Hd]. assert (holds id f (with_chunks (admit1 (sf_header f) (m, b) (i, d)).1 (admit1 (sf_header f) (m, b) (i, d)).2 a) ∧
    is_Some ((admit1 (sf_header f) (m, b) (i, d)).1 !! i) ∧ (∀ j, is_Some (m !! j) → is_Some ((admit1 (sf_header f) (m, b) (i, d)).1 !! j))) as (H1 & H2 & H3).
  { cbn [admit1]. destruct (m !! i) as [x|] eqn:Em; [destruct (_ || _); split; cbn; eauto|].
    pose proof (holds_room id f _ i d Hf Ha Hi Hd Em) as Hroom. cbn in Hroom. pose proof (hd_header _ _ _ Ha) as Hh. cbn in Hh. rewrite Hh in Hroom.
    apply Z.ltb_ge in Hroom. rewrite Hroom. rewrite (sent_total _ _ Hf). destruct (Z.leb_spec (zlen (sf_chunks f)) i); [apply lookup_lt_Some in Hd; unfold zlen in *; lia|].
    cbn [orb fst snd]. split; [apply (holds_add id f (with_chunks m b a) i d); done|]. rewrite lookup_insert_eq. split; [eauto|]. intros j Hj.
    destruct (Z.eq_dec i j) as [->|]; [rewrite lookup_insert_eq; eauto|by rewrite lookup_insert_ne]. }
  destruct (IH _ H1 ltac:(intros; apply Hl; by right)) as [I1 I2]. split; [done|]. intros j [Hj|[d' [[= -> ->]|Hj]%elem_of_cons]]; apply I2; eauto.
Qed.

(** The packets so far: the indices of the chunks that came, and of the parities that
    came since the header. *)
Context (t0 : Z) (Hn : zlen (sf_chunks f) < MAX_CHUNKS_PER_FRAME) (Hq : sf_parity f * MAX_VIDEO_CHUNK_BYTES <= MAX_PARITY_BYTES).

Definition waiting (C : Z → Prop) (s : FrameAssembler) : Prop :=
  as_frames s = ∅ ∧
  ((as_orphans s = ∅ ∧ ∀ i, ¬ C i) ∨
   ∃ o, as_orphans s = {[id := o]} ∧ t0 <= oa_started o ∧ part_of (sf_chunks f) (oa_chunks o) ∧ ∀ i, C i → is_Some (oa_chunks o !! i)).
Record holding (C Q : Z → Prop) (a : FrameAssembly) (s : FrameAssembler) : Prop := {
  hl_frames : as_frames s = {[id := a]};
  hl_orphans : as_orphans s = ∅;
  hl_holds : holds id f a;
  hl_started : t0 <= fa_started a;
  hl_chunks i : C i → is_Some (fa_chunks a !! i);
  hl_parity k : Q k → is_Some (fa_parity a !! k);
}.
Definition begun (C Q : Z → Prop) (s : FrameAssembler) : Prop :=
  ∃ a, holding C Q a s ∧ complete a = false ∧ ∀ k p, fa_parity a !! k = Some p → settled a p.
Definition delivered (r : Result (option AssembledFrame) MediaAssemblyError) : Prop :=
  ∃ af, r = Ok (Some af) ∧ af_frame_header af = sf_header f ∧ af_frame_data af = concat (sf_chunks f).
Definition in_time (now : Z) : Prop := t0 <= now < t0 + ASSEMBLY_TIMEOUT.

Lemma finish_begun C Q a s now s' r : holding C Q a s → finish_if_complete id now (repair id s) = (s', r) →
  delivered r ∨ r = Ok None ∧ begun C Q s'.
Proof.
  intros [L1 L2 L3 L4 L5 L6]. unfold repair. rewrite L1, lookup_singleton_eq, insert_singleton_eq. destruct (repair_settled a L3) as (R1 & R2 & R3 & R4 & R5).
  set (a' := repair_assembly a) in *. unfold finish_if_complete. cbn [with_frames as_frames]. rewrite lookup_singleton_eq.
  destruct (complete a') eqn:Ec; cbn [negb].
  - rewrite (holds_complete id f a' Hf R1 Ec), (hd_header _ _ _ R1), (sent_size _ _ Hf), Z.eqb_refl. cbn [negb]. intros [= <- <-]. left. by eexists.
  - intros [= <- <-]. right. split; [done|]. exists a'. split; [|done]. split; [done|done|done|by rewrite R3|auto|by rewrite R2].
Qed.

Lemma bt_retain_all {V} (g : Z → V → bool) (m : gmap Z V) : (∀ k v, m !! k = Some v → g k v = true) → bt_retain g m = m.
Proof. intros H. apply map_eq. intros k. rewrite lookup_bt_retain. destruct (m !! k) as [v|] eqn:E; [|done]. cbn. by rewrite (H k v E). Qed.

Lemma in_time_live now started : in_time now → t0 <= started → live now started = true.
Proof. unfold in_time, live, sat_sub. intros H Hs. apply Z.ltb_lt. unfold ASSEMBLY_TIMEOUT, ms in *. lia. Qed.

Lemma holding_expire C Q a s now : in_time now → holding C Q a s → holding C Q a (expire now (with_completed_started_at None s)).
Proof.
  intros Ht [L1 L2 L3 L4 L5 L6]. split; try done.
  - rewrite expire_frames, bt_retain_all; [done|]. cbn. rewrite L1. intros k v [<- <-]%lookup_singleton_Some. by apply in_time_live.
  - rewrite expire_orphans, bt_retain_all; [done|]. cbn. by rewrite L2.
Qed.
Lemma waiting_expire C s now : in_time now → waiting C s → waiting C (expire now (with_completed_started_at None s)).
Proof.
  intros Ht [W1 W2]. split; [rewrite expire_frames, bt_retain_all; [done|]; cbn; by rewrite W1|].
  rewrite expire_orphans, bt_retain_all; [exact W2|]. cbn. intros k o Hk. destruct W2 as [[W2 _]|(o' & W2 & Hs & _)]; rewrite W2 in Hk; [done|].
  apply lookup_singleton_Some in Hk as [<- <-]. by apply in_time_live.
Qed.

Lemma part_size m : part_of (sf_chunks f) m → Z.of_nat (size m) < MAX_CHUNKS_PER_FRAME.
Proof. intros Hm. pose proof (within_size _ m (zlen_nonneg (sf_chunks f)) (part_within _ _ Hm)). lia. Qed.

(** The parities of a frame fit. *)
Lemma holds_retained a k : holds id f a → 0 <= k < sf_parity f → fa_parity a !! k = None →
  retained_parity a + zlen (fp_data (build_one id (sf_chunks f) (sf_parity f) k)) <= MAX_PARITY_BYTES.
Proof.
  intros Ha Hk Hnone. pose proof (sent_parity_bytes id f k Hf ltac:(lia)) as Hone.
  assert (∀ l : list FrameParity, (∀ p, p ∈ l → zlen (fp_data p) <= MAX_VIDEO_CHUNK_BYTES) → zsum ((λ p, zlen (fp_data p)) <$> l) <= zlen l * MAX_VIDEO_CHUNK_BYTES) as Hl.
  { intros l. induction l as [|p l IH]; intros Hl; [done|]. specialize (IH ltac:(intros; apply Hl; by right)). pose proof (Hl p ltac:(by left)).
    cbn [fmap list_fmap zsum foldr]. change (foldr Z.add 0) with zsum. replace (zlen (p :: l)) with (zlen l + 1) by (unfold zlen; cbn [length]; lia). lia. }
  specialize (Hl (bt_values (fa_parity a))). unfold retained_parity. change (foldr Z.add 0) with zsum.
  assert (zlen (bt_values (fa_parity a)) < sf_parity f) as Hs.
  { assert (within (sf_parity f) (<[k := build_one id (sf_chunks f) (sf_parity f) k]> (fa_parity a))) as Hw.
    { apply within_insert; [|done]. intros j p Hj. apply (hd_parity _ _ _ Ha _ _ Hj). }
    apply within_size in Hw; [|lia]. rewrite map_size_insert_None in Hw by done. assert (length (bt_values (fa_parity a)) = size (fa_parity a)); [|unfold zlen; lia].
    unfold bt_values. rewrite length_fmap. rewrite <- (length_fmap fst), bt_iter_keys, <- size_dom. unfold bt_keys, bs_iter. by rewrite (Permutation_length (merge_sort_Permutation _ _)). }
  assert (∀ p, p ∈ bt_values (fa_parity a) → zlen (fp_data p) <= MAX_VIDEO_CHUNK_BYTES) as Hp.
  { intros p [j Hj]%elem_of_bt_values. destruct (hd_parity _ _ _ Ha _ _ Hj) as [-> Hr]. apply sent_parity_bytes; [done|lia]. }
  specialize (Hl Hp). unfold MAX_VIDEO_CHUNK_BYTES in *. lia.
Qed.

Definition of_frame (p : MediaPacket) : Prop := packet_frame p = id ∧ packet_of f p.
Definition brings_chunk (p : MediaPacket) (i : Z) : Prop := match p with MpChunk c => i = fc_chunk_index c | _ => False end.
Definition brings_parity (p : MediaPacket) (k : Z) : Prop := match p with MpParity q => k = fp_parity_index q | _ => False end.

Lemma begun_weaken C C' Q Q' s : (∀ i, C' i → C i) → (∀ k, Q' k → Q k) → begun C Q s → begun C' Q' s.
Proof. intros HC HQ (a & [L1 L2 L3 L4 L5 L6] & Hc & Hs). exists a. split; [|done]. split; auto. Qed.

Lemma chunk_begun C Q c now s s' r : begun C Q s → of_frame (MpChunk c) → in_time now → push_chunk c now s = (s', r) →
  delivered r ∨ begun (λ i, C i ∨ i = fc_chunk_index c) Q s'.
Proof.
  intros (a & Hl & Hc & Hs) (Hid & Hi & Hd) Ht. cbn in Hid. unfold push_chunk. cbv zeta. rewrite Hid. apply (holding_expire _ _ _ _ _ Ht) in Hl.
  set (t := expire now _) in *. clearbody t. pose proof Hl as [L1 L2 L3 L4 L5 L6]. rewrite L1, lookup_singleton_eq.
  rewrite (hd_header _ _ _ L3), (sent_total _ _ Hf). destruct (Z.leb_spec (zlen (sf_chunks f)) (fc_chunk_index c)); [apply lookup_lt_Some in Hd; unfold zlen in *; lia|].
  assert (∀ a' t', holding (λ i, C i ∨ i = fc_chunk_index c) Q a' t' → finish_if_complete id now (repair id t') = (s', r) →
    delivered r ∨ begun (λ i, C i ∨ i = fc_chunk_index c) Q s') as Hfin.
  { intros a' t' Hl' E. destruct (finish_begun _ _ _ _ _ _ _ Hl' E) as [|[_ ?]]; auto. }
  destruct (fa_chunks a !! fc_chunk_index c) eqn:Ei.
  - apply (Hfin a). split; try done. intros i [Hci| ->]; eauto.
  - pose proof (holds_room id f a _ _ Hf L3 Hi Hd Ei) as Hroom. rewrite (hd_header _ _ _ L3) in Hroom. apply Z.ltb_ge in Hroom. rewrite Hroom.
    eapply Hfin. split; cbn [with_frames as_frames as_orphans]; [apply insert_singleton_eq|done|by apply holds_add|done| |done].
    intros i Hci. cbn. destruct (Z.eq_dec (fc_chunk_index c) i) as [->|Hne]; [rewrite lookup_insert_eq; eauto|]. rewrite lookup_insert_ne by done.
    destruct Hci as [Hci| ->]; [auto|done].
Qed.

Lemma chunk_waiting C c now s s' r : waiting C s → of_frame (MpChunk c) → in_time now → push_chunk c now s = (s', r) →
  waiting (λ i, C i ∨ i = fc_chunk_index c) s'.
Proof.
  intros Hw (Hid & Hi & Hd) Ht. cbn in Hid. unfold push_chunk. cbv zeta. rewrite Hid. apply (waiting_expire _ _ _ Ht) in Hw.
  set (t := expire now _) in *. clearbody t. destruct Hw as [W1 W2]. rewrite W1, lookup_empty.
  assert (fc_chunk_index c < zlen (sf_chunks f)) as Hlt by (apply lookup_lt_Some in Hd; unfold zlen; lia).
  assert ((size (as_orphans t) <= 1)%nat) as Hsz by (destruct W2 as [[-> _]|(o & -> & _)]; [rewrite map_size_empty; lia|by rewrite map_size_singleton]).
  assert ((MAX_ORPHAN_FRAMES <=? Z.of_nat (size (as_orphans t))) = false) as -> by (apply Z.leb_gt; unfold MAX_ORPHAN_FRAMES; lia). cbn [andb].
  assert ((MAX_CHUNKS_PER_FRAME <=? fc_chunk_index c) = false) as -> by (apply Z.leb_gt; lia).
  set (o := default (mk_OrphanAssembly ∅ now) (as_orphans t !! id)).
  assert (t0 <= oa_started o ∧ part_of (sf_chunks f) (oa_chunks o) ∧ (∀ i, C i → is_Some (oa_chunks o !! i)) ∧ (as_orphans t = ∅ ∨ as_orphans t = {[id := o]})) as (Ho1 & Ho2 & Ho3 & Ho4).
  { subst o. destruct W2 as [[-> HC]|(o & -> & ? & ? & ?)]; [rewrite lookup_empty|rewrite lookup_singleton_eq]; cbn [default]; [|by auto].
    split; [apply Ht|]. split; [done|]. split; [|by left]. intros i Hci. by destruct (HC i). }
  clearbody o. assert ((MAX_CHUNKS_PER_FRAME <=? Z.of_nat (size (oa_chunks o))) = false) as -> by (apply Z.leb_gt; by apply part_size).
  intros [= <- _]. split; [done|]. right. eexists. cbn [with_orphans as_orphans]. split.
  - destruct Ho4 as [->| ->]; [apply insert_empty|apply insert_singleton_eq].
  - split; [exact Ho1|]. cbn [oa_chunks]. destruct (oa_chunks o !! fc_chunk_index c) eqn:Ei.
    + split; [done|]. intros i [Hci| ->]; eauto.
    + split; [by apply part_insert|]. intros i Hci. destruct (Z.eq_dec (fc_chunk_index c) i) as [->|Hne]; [rewrite lookup_insert_eq; eauto|].
      rewrite lookup_insert_ne by done. destruct Hci as [Hci| ->]; [auto|done].
Qed.

Lemma of_frame_parity q : of_frame (MpParity q) → 0 <= fp_parity_index q < sf_parity f ∧ q = build_one id (sf_chunks f) (sf_parity f) (fp_parity_index q).
Proof.
  intros [Hid [k Hk]%list_elem_of_lookup]. cbn in Hid. rewrite Hid in Hk. apply build_parity_lookup in Hk as [Hk ->]. cbn. split; [clear - Hk; lia|done].
Qed.

Lemma parity_begun C Q q now s s' r : begun C Q s → of_frame (MpParity q) → in_time now → push_parity q now s = (s', r) →
  delivered r ∨ begun C (λ k, Q k ∨ k = fp_parity_index q) s'.
Proof.
  intros (a & Hl & Hc & Hs) Hof Ht. unfold push_parity. cbv zeta. rewrite (proj1 Hof : fp_frame_id q = id). destruct (of_frame_parity q Hof) as [Hk Eq].
  apply (holding_expire _ _ _ _ _ Ht) in Hl. set (t := expire now _) in *. clearbody t. pose proof Hl as [L1 L2 L3 L4 L5 L6]. rewrite L1, lookup_singleton_eq.
  assert (parity_invalid q a = false) as -> by (rewrite Eq; by apply holds_parity_valid).
  assert (∀ a' t', holding C (λ k, Q k ∨ k = fp_parity_index q) a' t' → finish_if_complete id now (repair id t') = (s', r) →
    delivered r ∨ begun C (λ k, Q k ∨ k = fp_parity_index q) s') as Hfin.
  { intros a' t' Hl' E. destruct (finish_begun _ _ _ _ _ _ _ Hl' E) as [|[_ ?]]; auto. }
  case_bool_decide as Hb; cbn [negb andb].
  - apply (Hfin a). split; try done. intros k [Hqk| ->]; eauto.
  - assert (fa_parity a !! fp_parity_index q = None) as Hnone by (destruct (fa_parity a !! _) eqn:E; [destruct Hb; eauto|done]).
    pose proof (holds_retained a _ L3 Hk Hnone) as Hr. rewrite <- Eq in Hr. apply Z.leb_le in Hr. rewrite Hr.
    eapply Hfin. split; cbn [with_frames as_frames as_orphans]; [apply insert_singleton_eq|done| |done|done|].
    + destruct L3 as [H1 H2 H3 H4]. split; cbn [with_parity fa_header fa_chunks fa_payload_bytes fa_parity]; try done.
      intros k p [[<- <-]|[_ H]]%lookup_insert_Some; [done|by apply H4].
    + intros k Hqk. cbn. destruct (Z.eq_dec (fp_parity_index q) k) as [->|Hne]; [rewrite lookup_insert_eq; eauto|]. rewrite lookup_insert_ne by done.
      destruct Hqk as [Hqk| ->]; [auto|done].
Qed.

Lemma parity_waiting C q now s s' r : waiting C s → of_frame (MpParity q) → in_time now → push_parity q now s = (s', r) → waiting C s'.
Proof.
  intros Hw Hof Ht. unfold push_parity. cbv zeta. apply (waiting_expire _ _ _ Ht) in Hw. set (t := expire now _) in *. clearbody t.
  rewrite (proj1 Hw), lookup_empty. by intros [= <- _].
Qed.

(** ** The header *)

Lemma serial_refl i : serial_not_before i i = true.
Proof. unfold serial_not_before, wsub32. by rewrite Z.sub_diag. Qed.

Lemma header_start_keeps now s : in_time now → (∀ j a, as_frames s !! j = Some a → j = id ∧ t0 <= fa_started a) →
  (∀ j o, as_orphans s !! j = Some o → t0 <= oa_started o) →
  as_frames (header_start (sf_header f) now s) = as_frames s ∧ as_orphans (header_start (sf_header f) now s) = as_orphans s.
Proof.
  intros Ht Hfr Ho. assert (as_frames (track_loss (fh_frame_id (sf_header f)) now (expire now (with_completed_started_at None s))) = as_frames s) as E1.
  { rewrite track_loss_frames, expire_frames. apply bt_retain_all. intros j a Hj. apply in_time_live; [done|]. by destruct (Hfr j a Hj). }
  assert (as_orphans (track_loss (fh_frame_id (sf_header f)) now (expire now (with_completed_started_at None s))) = as_orphans s) as E2.
  { rewrite track_loss_orphans, expire_orphans. apply bt_retain_all. intros j o Hj. apply in_time_live; [done|]. by eapply Ho. }
  unfold header_start. cbv zeta. destruct (fh_is_key_frame _); [|done]. rewrite flush_before_frames, flush_before_orphans, E1, E2. split; [|done].
  apply bt_retain_all. intros j a Hj. destruct (Hfr j a Hj) as [-> _]. rewrite (sent_id _ _ Hf). by rewrite serial_refl.
Qed.

Lemma after_header_begun C Q a s now s' r : holding C Q a s → after_header id now s = (s', r) → delivered r ∨ begun C Q s'.
Proof.
  intros Hl. unfold after_header. destruct (finish_if_complete id now (repair id s)) as [t x] eqn:E.
  destruct (finish_begun _ _ _ _ _ _ _ Hl E) as [(af & -> & Haf)|[-> Hb]]; intros [= <- <-]; [left; by exists af|right].
  destruct Hb as (b & Hlb & Hb). exists b. split; [|done]. unfold evict_oldest. rewrite (hl_frames _ _ _ _ Hlb), map_size_singleton. exact Hlb.
Qed.

Lemma header_valid : header_invalid (sf_header f) = false.
Proof.
  destruct Hf as [S1 S2 S3 S4 S5 S6 S7]. unfold header_invalid, MAX_CHUNKS_PER_FRAME, MAX_FRAME_BYTES in *. rewrite S2, S3.
  assert (1 <= zlen (concat (sf_chunks f))).
  { destruct (sf_chunks f) as [|c cs]; [unfold zlen in S4; cbn in S4; lia|]. apply Forall_cons in S6 as [? _]. cbn [concat]. rewrite zlen_app.
    pose proof (zlen_nonneg (concat cs)). lia. }
  repeat (apply orb_false_iff; split); [apply Z.eqb_neq|apply Z.ltb_ge|apply Z.eqb_neq|apply Z.ltb_ge]; lia.
Qed.

Lemma header_begun C Q ts now s s' r : begun C Q s → in_time now → push_header (sf_header f) ts now s = (s', r) → delivered r ∨ begun C Q s'.
Proof.
  intros (a & Hl & Hc & Hs) Ht. pose proof Hl as [L1 L2 L3 L4 L5 L6]. unfold push_header. cbv zeta. rewrite header_valid.
  change (if fh_is_key_frame (sf_header f) then flush_before (sf_header f) now _ else _) with (header_start (sf_header f) now s).
  destruct (header_start_keeps now s Ht) as [E1 E2]; [intros j b; rewrite L1; by intros [<- <-]%lookup_singleton_Some|by rewrite L2|].
  rewrite L1 in E1. rewrite L2 in E2. set (t := header_start _ _ _) in *. clearbody t. rewrite (sent_id _ _ Hf), E2, lookup_empty. cbn [with_orphans as_frames].
  rewrite E1, lookup_singleton_eq, bool_decide_eq_true_2 by apply (hd_header _ _ _ L3). cbn [negb].
  unfold admit_chunks. replace (bt_iter (∅ : gmap Z (list byte))) with ([] : list (Z * list byte)) by reflexivity. cbn [foldl with_start fa_chunks fa_payload_bytes].
  apply after_header_begun with (a := with_start (Z.min (fa_started a) now) ts a). split; cbn [with_frames as_frames as_orphans].
  - rewrite insert_singleton_eq. by destruct a.
  - apply delete_empty.
  - by destruct L3.
  - cbn. destruct Ht. lia.
  - done.
  - done.
Qed.

Lemma header_waiting C ts now s s' r : waiting C s → in_time now → push_header (sf_header f) ts now s = (s', r) → delivered r ∨ begun C (λ _, False) s'.
Proof.
  intros Hw Ht. unfold push_header. cbv zeta. rewrite header_valid. destruct Hw as [W1 W2].
  change (if fh_is_key_frame (sf_header f) then flush_before (sf_header f) now _ else _) with (header_start (sf_header f) now s).
  destruct (header_start_keeps now s Ht) as [E1 E2]; [by rewrite W1| |].
  { intros j o Hj. destruct W2 as [[W2 _]|(o' & W2 & Hs & _)]; rewrite W2 in Hj; [done|]. by apply lookup_singleton_Some in Hj as [<- <-]. }
  rewrite W1 in E1. rewrite <- E2 in W2. set (t := header_start _ _ _) in *. clearbody t. clear W1 E2 s. rewrite (sent_id _ _ Hf).
  set (cs := match as_orphans t !! id with Some o => (oa_chunks o, oa_started o) | None => (∅, now) end).
  assert (part_of (sf_chunks f) cs.1 ∧ t0 <= cs.2 ∧ (∀ i, C i → is_Some (cs.1 !! i)) ∧ delete id (as_orphans t) = ∅) as (Hc1 & Hc2 & Hc3 & Hc4).
  { subst cs. destruct W2 as [[-> HC]|(o & -> & ? & ? & ?)]; [rewrite lookup_empty|rewrite lookup_singleton_eq]; cbn [fst snd].
    - split; [done|]. split; [apply Ht|]. split; [intros i Hci; by destruct (HC i)|apply delete_empty].
    - split; [done|]. split; [done|]. split; [done|apply delete_singleton_eq]. }
  destruct cs as [chunks started]. cbn [fst snd] in *. cbn [with_orphans as_frames]. rewrite E1, lookup_empty.
  set (a := mk_FrameAssembly (sf_header f) ∅ started ts 0 ∅ 0 None 0).
  assert (holds id f (with_chunks ((∅ : gmap Z (list byte)), 0).1 ((∅ : gmap Z (list byte)), 0).2 a)) as Ha by (split; cbn [fst snd with_chunks a fa_header fa_chunks fa_payload_bytes fa_parity]; try done; by rewrite held_empty).
  destruct (admit_fold_all a (bt_iter chunks) (∅, 0) Ha) as [A1 A2]; [intros i d Hi%elem_of_bt_iter; by apply Hc1|].
  unfold admit_chunks. destruct (foldl _ _ _) as [m b]. cbn [fst snd] in *.
  apply after_header_begun with (a := with_chunks m b a). split; cbn [with_frames as_frames as_orphans].
  - by rewrite insert_empty.
  - exact Hc4.
  - exact A1.
  - exact Hc2.
  - intros i Hci. cbn. apply A2. right. destruct (Hc3 i Hci) as [d Hd]. exists d. by apply elem_of_bt_iter.
  - done.
Qed.

(** ** Runs of one frame's packets *)

Definition brought (l : list (MediaPacket * Z)) (i : Z) : Prop := ∃ c now, (MpChunk c, now) ∈ l ∧ i = fc_chunk_index c.
Definition timely (pn : MediaPacket * Z) : Prop := of_frame pn.1 ∧ in_time pn.2.

Lemma waiting_weaken (C C' : Z → Prop) s : (∀ i, C' i → C i) → waiting C s → waiting C' s.
Proof.
  intros HC [W1 W2]. split; [done|]. destruct W2 as [[W2 W3]|(o & W2 & W3 & W4 & W5)]; [left|right; exists o].
  - split; [done|]. intros i Hi. by apply (W3 i), HC.
  - split; [done|]. split; [done|]. split; [done|]. auto.
Qed.

(** Before the header nothing is lost, or the header came already. *)
Lemma run_before l C s : Forall timely l → waiting C s ∨ begun C (λ _, False) s → let r := run_ops (pushes l) s in
  Exists delivered r.2 ∨ waiting (λ i, C i ∨ brought l i) r.1 ∨ begun (λ i, C i ∨ brought l i) (λ _, False) r.1.
Proof.
  revert C s. induction l as [|[p now] l IH]; intros C s Hl Hs; cbn [fmap list_fmap run_ops].
  { right. cbn. assert (∀ i, (C i ∨ brought [] i) → C i) as HC by (intros i [|(c & t & []%not_elem_of_nil & _)]; done).
    destruct Hs as [Hw|Hb]; [left; by eapply waiting_weaken|right; by eapply begun_weaken]. }
  apply Forall_cons in Hl as [[Hof Ht] Hl]. cbn [fst snd] in *. destruct (push_packet p now s) as [t r] eqn:E.
  assert (delivered r ∨ waiting (λ i, C i ∨ brings_chunk p i) t ∨ begun (λ i, C i ∨ brings_chunk p i) (λ _, False) t) as [Hd|Ht'].
  { destruct p as [h ts|c|q]; cbn [push_packet brings_chunk] in *.
    - assert (h = sf_header f) as -> by apply Hof. assert (delivered r ∨ begun C (λ _, False) t) as [|Hb]; [|by left|right; right; eapply begun_weaken; [..|exact Hb]; tauto].
      destruct Hs as [Hs|Hs]; [by eapply header_waiting|by eapply header_begun].
    - destruct Hs as [Hs|Hs]; [right; left; by eapply chunk_waiting|]. destruct (chunk_begun _ _ _ _ _ _ _ Hs Hof Ht E); auto.
    - destruct Hs as [Hs|Hs].
      + right. left. apply (waiting_weaken C); [tauto|exact (parity_waiting _ _ _ _ _ _ Hs Hof Ht E)].
      + destruct (parity_begun _ _ _ _ _ _ _ Hs Hof Ht E) as [|Hb]; [by left|]. right. right. eapply begun_weaken; [..|exact Hb]; tauto. }
  - destruct (run_ops _ t). left. by apply Exists_cons_hd.
  - specialize (IH _ t Hl Ht'). destruct (run_ops _ t) as [t' rs]. cbn [fst snd] in *. destruct IH as [IH|IH]; [left; by apply Exists_cons_tl|right].
    assert (∀ i, C i ∨ brought ((p, now) :: l) i → (C i ∨ brings_chunk p i) ∨ brought l i) as HC.
    { intros i [Hi|(c & n & [[= <- <-]|Hin]%elem_of_cons & ->)]; [by left; left|left; by right|right; by exists c, n]. }
    destruct IH as [Hw|Hb]; [left; eapply waiting_weaken; [exact HC|exact Hw]|right; eapply begun_weaken; [exact HC| |exact Hb]; done].
Qed.

Definition repaired (l : list (MediaPacket * Z)) (k : Z) : Prop := ∃ q now, (MpParity q, now) ∈ l ∧ k = fp_parity_index q.

Lemma run_after l C Q s : Forall timely l → begun C Q s → let r := run_ops (pushes l) s in
  Exists delivered r.2 ∨ begun (λ i, C i ∨ brought l i) (λ k, Q k ∨ repaired l k) r.1.
Proof.
  revert C Q s. induction l as [|[p now] l IH]; intros C Q s Hl Hs; cbn [fmap list_fmap run_ops].
  { right. eapply begun_weaken; [..|exact Hs]; [intros i [|(c & t & []%not_elem_of_nil & _)]|intros i [|(c & t & []%not_elem_of_nil & _)]]; done. }
  apply Forall_cons in Hl as [[Hof Ht] Hl]. cbn [fst snd] in *. destruct (push_packet p now s) as [t r] eqn:E.
  assert (delivered r ∨ begun (λ i, C i ∨ brings_chunk p i) (λ k, Q k ∨ brings_parity p k) t) as [Hd|Ht'].
  { destruct p as [h ts|c|q]; cbn [push_packet brings_chunk brings_parity] in *.
    - assert (h = sf_header f) as -> by apply Hof. destruct (header_begun _ _ _ _ _ _ _ Hs Ht E) as [|Hb]; [by left|right; eapply begun_weaken; [..|exact Hb]; tauto].
    - destruct (chunk_begun _ _ _ _ _ _ _ Hs Hof Ht E) as [|Hb]; [by left|right; eapply begun_weaken; [..|exact Hb]; tauto].
    - destruct (parity_begun _ _ _ _ _ _ _ Hs Hof Ht E) as [|Hb]; [by left|right; eapply begun_weaken; [..|exact Hb]; tauto]. }
  - destruct (run_ops _ t). left. by apply Exists_cons_hd.
  - specialize (IH _ _ t Hl Ht'). destruct (run_ops _ t) as [t' rs]. cbn [fst snd] in *. destruct IH as [IH|IH]; [left; by apply Exists_cons_tl|right].
    eapply begun_weaken; [..|exact IH].
    + intros i [Hi|(c & n & [[= <- <-]|Hin]%elem_of_cons & ->)]; [by left; left|left; by right|right; by exists c, n].
    + intros i [Hi|(c & n & [[= <- <-]|Hin]%elem_of_cons & ->)]; [by left; left|left; by right|right; by exists c, n].
Qed.

(** An incomplete frame misses a chunk. *)
Lemma incomplete_misses a : holds id f a → complete a = false → ∃ i, 0 <= i < zlen (sf_chunks f) ∧ fa_chunks a !! i = None.
Proof.
  intros Ha Hc. destruct (decide (Exists (λ i, fa_chunks a !! i = None) (chunk_range (zlen (sf_chunks f))))) as [(i & Hi%chunk_range_spec & Hm)%Exists_exists|Hn']; [eauto|].
  exfalso. unfold complete in Hc. apply Z.eqb_neq in Hc. apply Hc. rewrite (hd_header _ _ _ Ha), (sent_total _ _ Hf).
  assert ((list_to_set (chunk_range (zlen (sf_chunks f))) : gset Z) ⊆ dom (fa_chunks a)) as Hs.
  { intros i Hi%elem_of_list_to_set. apply elem_of_dom. destruct (fa_chunks a !! i) eqn:E; [eauto|]. destruct Hn'. apply Exists_exists. eauto. }
  apply subseteq_size in Hs. rewrite size_list_to_set, size_dom in Hs by apply NoDup_seqZ. unfold chunk_range in Hs. rewrite length_seqZ in Hs.
  pose proof (within_size _ _ (zlen_nonneg (sf_chunks f)) (part_within _ _ (hd_chunks _ _ _ Ha))). lia.
Qed.

Lemma begun_absurd C Q s : begun C Q s →
  (∀ i, 0 <= i < zlen (sf_chunks f) → C i ∨ ∃ k, Q k ∧ 0 <= k < sf_parity f ∧ i mod sf_parity f = k ∧
    ∀ j, 0 <= j < zlen (sf_chunks f) → j mod sf_parity f = k → j ≠ i → C j) → False.
Proof.
  intros (a & [L1 L2 L3 L4 L5 L6] & Hc & Hs) Hall. clear Hn Hq. destruct (incomplete_misses a L3 Hc) as (i & Hi & Hm).
  destruct (Hall i Hi) as [Hci|(k & Hk & Hkr & Hik & Hj)]; [destruct (L5 i Hci); congruence|].
  destruct (L6 k Hk) as [p Hp]. apply (Hs k p Hp i). destruct (hd_parity _ _ _ L3 _ _ Hp) as [-> _].
  unfold stripe_lost. rewrite (hd_header _ _ _ L3), (sent_total _ _ Hf). apply only_one; [apply NoDup_filter, covered_NoDup| |].
  - apply list_elem_of_filter. split; [done|]. apply covered_spec; cbn; lia.
  - intros j [Hjn Hjc]%list_elem_of_filter. apply covered_spec in Hjc as [Hjr Hjm]; cbn in *; [|lia..].
    destruct (Z.eq_dec j i) as [|Hne]; [done|]. destruct (L5 j (Hj j Hjr Hjm Hne)). congruence.
Qed.
End one_frame.

Lemma run_ops_app ops1 ops2 s :
  run_ops (ops1 ++ ops2) s = ((run_ops ops2 (run_ops ops1 s).1).1, (run_ops ops1 s).2 ++ (run_ops ops2 (run_ops ops1 s).1).2).
Proof.
  revert s. induction ops1 as [|[p now|now loss rtt|] ops IH]; intros s; cbn [app run_ops]; [cbn [fst snd app]; by destruct (run_ops ops2 s)| |apply IH|apply IH].
  destruct (push_packet p now s) as [t r]. rewrite IH. by destruct (run_ops ops t).
Qed.

Definition demo_before : list (MediaPacket * Z) := [(MpChunk (mk_FrameChunk 7 1 [x03; x04]), 1)].
Definition demo_after : list (MediaPacket * Z) :=
  [(MpParity (build_one 7 (sf_chunks demo_frame) 2 0), ms 6); (MpChunk (mk_FrameChunk 7 2 [x05]), ms 7)].
