(* ===== verification/RdQueue.v ===== *)
(** * RdQueue (crates/ferryx-rd/ferryx-rd-app/src/frame_queue.rs)

    The bounded queue of encoded frames between the receiver and the decoder: admission,
    skipping to key frames, overload recovery and key frame requests, and what the decoder
    takes.  The state of the mutex is passed explicitly: every method holds the lock from
    start to end, except that the receiving loops release it between two attempts.
    Instants and durations are nanoseconds.  The adaptive hold time is computed on [f64]
    from the jitter; it is an argument of [take].  The trace is left out. *)

From S2P Require Import Prelude Wire RdCodec RdMedia RdFec RdAssembly.
From Stdlib Require Import ZArith Lia Strings.Byte.
From stdpp Require Import base option gmap strings list_numbers list.

#[local] Open Scope Z_scope.

Definition FRAME_QUEUE_CAPACITY : Z := 4.
Definition FRAME_QUEUE_MAX_CAPACITY : Z := 16.
Definition QueuedFrame : Type := AssembledFrame * Z.

Inductive PlayoutMode : Type := Immediate | Adaptive | LatestWins.
#[global] Instance PlayoutMode_eq_dec : EqDecision PlayoutMode.
Proof. solve_decision. Defined.

Record FrameQueueConfig := mk_FrameQueueConfig {
  cf_capacity : Z;
  cf_max_backlog : Z;
  cf_retain_prefix : bool;
  cf_idr_defer : Z;
  cf_frame_interval : Z;
  cf_playout : PlayoutMode;
}.
Definition config_default : FrameQueueConfig :=
  mk_FrameQueueConfig FRAME_QUEUE_CAPACITY FRAME_QUEUE_CAPACITY false 0 16667000 Immediate.
Definition for_fps (fps : Z) (playout : PlayoutMode) : FrameQueueConfig :=
  let fps := Z.min (Z.max fps 1) 1000 in
  let capacity := Z.min (Z.max (fps * 25 / 1000 + 1) 2) FRAME_QUEUE_MAX_CAPACITY in
  mk_FrameQueueConfig capacity (capacity * 2) true (ms 100) (1000000000 / fps) playout.
Definition normalized (c : FrameQueueConfig) : FrameQueueConfig :=
  let capacity := Z.max (cf_capacity c) 1 in
  mk_FrameQueueConfig capacity (Z.max (cf_max_backlog c) capacity) (cf_retain_prefix c) (cf_idr_defer c)
    (cf_frame_interval c) (cf_playout c).

Record FrameQueueState := mk_FrameQueueState {
  qs_config : FrameQueueConfig;
  qs_frames : list QueuedFrame;
  qs_last_frame_id : option Z;
  qs_recovering : bool;
  qs_stopped : bool;
  qs_pending_request_since : option Z;
}.
Definition q_config (v : FrameQueueConfig) (s : FrameQueueState) : FrameQueueState :=
  mk_FrameQueueState v (qs_frames s) (qs_last_frame_id s) (qs_recovering s) (qs_stopped s) (qs_pending_request_since s).
Definition q_frames (v : list QueuedFrame) (s : FrameQueueState) : FrameQueueState :=
  mk_FrameQueueState (qs_config s) v (qs_last_frame_id s) (qs_recovering s) (qs_stopped s) (qs_pending_request_since s).
Definition q_last (v : option Z) (s : FrameQueueState) : FrameQueueState :=
  mk_FrameQueueState (qs_config s) (qs_frames s) v (qs_recovering s) (qs_stopped s) (qs_pending_request_since s).
Definition q_recovering (v : bool) (s : FrameQueueState) : FrameQueueState :=
  mk_FrameQueueState (qs_config s) (qs_frames s) (qs_last_frame_id s) v (qs_stopped s) (qs_pending_request_since s).
Definition q_stopped (v : bool) (s : FrameQueueState) : FrameQueueState :=
  mk_FrameQueueState (qs_config s) (qs_frames s) (qs_last_frame_id s) (qs_recovering s) v (qs_pending_request_since s).
Definition q_pending (v : option Z) (s : FrameQueueState) : FrameQueueState :=
  mk_FrameQueueState (qs_config s) (qs_frames s) (qs_last_frame_id s) (qs_recovering s) (qs_stopped s) v.

Definition is_key (f : QueuedFrame) : bool := fh_is_key_frame (af_frame_header f.1).
Definition frame_id_of (f : QueuedFrame) : Z := fh_frame_id (af_frame_header f.1).

Definition with_config (config : FrameQueueConfig) : FrameQueueState :=
  mk_FrameQueueState (normalized config) [] None false false None.

(** [position] and [rposition] of a key frame. *)
Fixpoint key_position (frames : list QueuedFrame) : option nat :=
  match frames with
  | [] => None
  | f :: rest => if is_key f then Some O else S <$> key_position rest
  end.
Fixpoint key_rposition (frames : list QueuedFrame) : option nat :=
  match frames with
  | [] => None
  | f :: rest => match key_rposition rest with Some k => Some (S k) | None => if is_key f then Some O else None end
  end.

Definition skip_to_latest_key (s : FrameQueueState) : FrameQueueState * Z :=
  match key_rposition (qs_frames s) with
  | Some key => if Nat.ltb 0 key then (q_frames (drop key (qs_frames s)) s, Z.of_nat key) else (s, 0)
  | None => (s, 0)
  end.

Inductive Take : Type := TakeFrame (f : QueuedFrame) | TakeWait (wait : Z) | TakeEmpty.
Definition take_frame (playout_delay now : Z) (s : FrameQueueState) : FrameQueueState * Take :=
  let s := if bool_decide (cf_playout (qs_config s) = LatestWins) then (skip_to_latest_key s).1 else s in
  match qs_frames s with
  | [] => (s, TakeEmpty)
  | head :: rest =>
      if bool_decide (cf_playout (qs_config s) = Adaptive) && (zlen (qs_frames s) <=? 2) && (now <? head.2 + playout_delay)
      then (s, TakeWait (head.2 + playout_delay - now))
      else (q_frames rest s, TakeFrame head)
  end.

Definition reconfigure (config : FrameQueueConfig) (s : FrameQueueState) : FrameQueueState := q_config (normalized config) s.
Definition set_playout_mode (mode : PlayoutMode) (s : FrameQueueState) : FrameQueueState :=
  let c := qs_config s in
  q_config (mk_FrameQueueConfig (cf_capacity c) (cf_max_backlog c) (cf_retain_prefix c) (cf_idr_defer c) (cf_frame_interval c) mode) s.

(** The middle of [push], on a frame that is at the capacity: the state and [drop_backlog]. *)
Definition push_overload (key : bool) (received : Z) (s : FrameQueueState) : FrameQueueState * bool :=
  let s := if key then q_frames [] s else (skip_to_latest_key s).1 in
  if cf_max_backlog (qs_config s) <=? zlen (qs_frames s) then
    if cf_retain_prefix (qs_config s)
    then (if qs_recovering s then s else q_pending (Some received) (q_recovering true s), false)
    else (s, true)
  else (s, false).
(** Its end, from [if let Some(since)] on. *)
Definition push_admit (frame : QueuedFrame) (request_keyframe : bool) (s : FrameQueueState) : FrameQueueState * bool :=
  let key := is_key frame in
  let '(s, request_keyframe) := match qs_pending_request_since s with
    | Some since =>
        if negb key && (cf_idr_defer (qs_config s) <=? sat_sub frame.2 since) then (q_pending None s, true) else (s, request_keyframe)
    | None => (s, request_keyframe)
    end in
  let s := if key then q_pending None s else s in
  if qs_recovering s && negb key then (s, request_keyframe)
  else (q_frames (qs_frames s ++ [frame]) (q_recovering false s), request_keyframe).
(** [Err] is the stopped queue. *)
Definition push (frame : QueuedFrame) (s : FrameQueueState) : FrameQueueState * Result bool unit :=
  if qs_stopped s then (s, Err tt) else
  let key := is_key frame in
  let id := frame_id_of frame in
  let advance := match qs_last_frame_id s with Some last => Some (wsub32 id last) | None => None end in
  if match advance with Some a => (a =? 0) || (Z.shiftl 1 31 <=? a) | None => false end then (s, Ok false) else
  let discontinuity := match advance with Some a => negb (a =? 1) | None => false end in
  let s := q_last (Some id) s in
  let '(s, drop_backlog) :=
    if negb discontinuity && (cf_capacity (qs_config s) <=? zlen (qs_frames s)) then push_overload key frame.2 s else (s, discontinuity) in
  let '(s, request_keyframe) :=
    if drop_backlog then (q_pending None (q_recovering true (q_frames [] s)), negb (qs_recovering s) && negb key) else (s, false) in
  let '(s, r) := push_admit frame request_keyframe s in
  (s, Ok r).

Definition decode_failed (s : FrameQueueState) : FrameQueueState * bool :=
  if qs_stopped s then (s, false) else
  match key_position (qs_frames s) with
  | Some key => (q_pending None (q_recovering false (q_frames (drop key (qs_frames s)) s)), false)
  | None =>
      (** [||] takes the pending request only if the queue is recovering. *)
      let '(s, request) := if negb (qs_recovering s) then (s, true)
        else (q_pending None s, bool_decide (is_Some (qs_pending_request_since s))) in
      (q_recovering true (q_frames [] s), request)
  end.

Definition stop (s : FrameQueueState) : FrameQueueState := q_frames [] (q_stopped true s).

(** One turn of the loops of [recv] and [recv_timeout], with the lock held. *)
Inductive RecvTurn : Type := Received (f : QueuedFrame) | Disconnected | KeepWaiting (hint : option Z).
Definition recv_turn (playout_delay now : Z) (s : FrameQueueState) : FrameQueueState * RecvTurn :=
  if qs_stopped s then (s, Disconnected) else
  match take_frame playout_delay now s with
  | (s, TakeFrame f) => (s, Received f)
  | (s, TakeWait w) => (s, KeepWaiting (Some w))
  | (s, TakeEmpty) => (s, KeepWaiting None)
  end.

(** ** Runs *)

Inductive QueueOp : Type :=
| QPush (f : QueuedFrame)
| QRecv (playout_delay now : Z)
| QFailed
| QReconfigure (c : FrameQueueConfig)
| QPlayout (m : PlayoutMode)
| QStop.
Definition requested (r : Result bool unit) : bool := match r with Ok b => b | Err _ => false end.
(** What an operation shows: a frame taken, a failed decoding, a key frame requested. *)
Definition queue_step (op : QueueOp) (s : FrameQueueState) : FrameQueueState * (option QueuedFrame * bool) :=
  match op with
  | QPush f => let '(s, r) := push f s in (s, (None, requested r))
  | QRecv delay now => let '(s, r) := recv_turn delay now s in (s, (match r with Received f => Some f | _ => None end, false))
  | QFailed => let '(s, b) := decode_failed s in (s, (None, b))
  | QReconfigure c => (reconfigure c s, (None, false))
  | QPlayout m => (set_playout_mode m s, (None, false))
  | QStop => (stop s, (None, false))
  end.

(** What the decoder can decode: at the start anything, then a key frame or the successor
    of the last frame; after a failure a key frame only. *)
Inductive Decoder : Type := Fresh | At (id : Z) | Broken.
Definition decodes (d : Decoder) (f : QueuedFrame) : bool :=
  is_key f || match d with Fresh => true | At r => frame_id_of f =? wadd32 r 1 | Broken => false end.
Definition decoder_next (d : Decoder) (op : QueueOp) (taken : option QueuedFrame) : Decoder :=
  match op, taken with
  | QFailed, _ => Broken
  | _, Some f => At (frame_id_of f)
  | _, None => d
  end.

(** The state after the operations, the frames taken, and whether each could be decoded. *)
Fixpoint queue_run (ops : list QueueOp) (d : Decoder) (s : FrameQueueState) : FrameQueueState * list (QueuedFrame * bool) :=
  match ops with
  | [] => (s, [])
  | op :: ops =>
      let '(s', (taken, _)) := queue_step op s in
      let '(s'', l) := queue_run ops (decoder_next d op taken) s' in
      (s'', match taken with Some f => (f, decodes d f) :: l | None => l end)
  end.
Definition pushed_frames (ops : list QueueOp) : list QueuedFrame := omap (λ op, match op with QPush f => Some f | _ => None end) ops.

(** ** Lemmas: chains of frames *)

Fixpoint chain (d : Decoder) (l : list QueuedFrame) : Prop :=
  match l with [] => True | f :: l => decodes d f = true ∧ chain (At (frame_id_of f)) l end.
Definition chain_end (d : Decoder) (l : list QueuedFrame) : Decoder := foldl (λ _ f, At (frame_id_of f)) d l.

Lemma chain_snoc d l f : chain d l → decodes (chain_end d l) f = true → chain d (l ++ [f]).
Proof. revert d. induction l as [|g l IH]; intros d; cbn; [done|]. intros [H1 H2] H3. split; [done|]. by apply IH. Qed.
Lemma chain_end_snoc d l f : chain_end d (l ++ [f]) = At (frame_id_of f).
Proof. unfold chain_end. by rewrite foldl_app. Qed.
Lemma key_decodes d f : is_key f = true → decodes d f = true.
Proof. intros H. unfold decodes. by rewrite H. Qed.

(** From a key frame on a chain needs nothing before it. *)
Lemma chain_from_key d d' l k f : chain d l → l !! k = Some f → is_key f = true →
  chain d' (drop k l) ∧ chain_end d' (drop k l) = chain_end d l.
Proof.
  revert d d' l. induction k as [|k IH]; intros d d' [|g l] Hc Hl Hk; try done.
  - injection Hl as ->. cbn in *. split; [|done]. split; [by apply key_decodes|apply Hc].
  - destruct Hc as [_ Hc]. exact (IH (At (frame_id_of g)) d' l Hc Hl Hk).
Qed.

Lemma key_rposition_Some l k : key_rposition l = Some k → ∃ f, l !! k = Some f ∧ is_key f = true.
Proof.
  revert k. induction l as [|f l IH]; intros k; cbn; [done|]. destruct (key_rposition l) as [j|]; [intros [= <-]; by apply IH|].
  destruct (is_key f) eqn:E; [|done]. intros [= <-]. by exists f.
Qed.
Lemma key_position_Some l k : key_position l = Some k → ∃ f, l !! k = Some f ∧ is_key f = true.
Proof.
  revert k. induction l as [|f l IH]; intros k; cbn; [done|]. destruct (is_key f) eqn:E; [intros [= <-]; by exists f|].
  destruct (key_position l) as [j|]; [|done]. intros [= <-]. by apply IH.
Qed.

(** Skipping leaves a suffix from a key frame, or everything. *)
Lemma skip_spec s : ∃ k, (skip_to_latest_key s).1 = q_frames (drop k (qs_frames s)) s ∧
  (k = O ∨ ∃ f, qs_frames s !! k = Some f ∧ is_key f = true).
Proof.
  unfold skip_to_latest_key. assert (s = q_frames (drop 0 (qs_frames s)) s) as E0 by (by destruct s).
  destruct (key_rposition _) as [k|] eqn:E; [|exists O; auto]. destruct (Nat.ltb 0 k); [|exists O; auto].
  exists k. split; [done|]. right. by apply key_rposition_Some.
Qed.
Lemma skip_chain d s : chain d (qs_frames s) → let s' := (skip_to_latest_key s).1 in
  chain d (qs_frames s') ∧ chain_end d (qs_frames s') = chain_end d (qs_frames s) ∧ qs_frames s' `sublist_of` qs_frames s ∧
  s' = q_frames (qs_frames s') s.
Proof.
  intros Hc. destruct (skip_spec s) as (k & -> & Hk). cbn. split; [|split; [|split; [apply sublist_drop|done]]].
  - destruct Hk as [->|(f & Hf & Hkey)]; [done|]. by eapply chain_from_key.
  - destruct Hk as [->|(f & Hf & Hkey)]; [done|]. by eapply chain_from_key.
Qed.

(** ** The invariant of the queue *)

Definition follows (last : option Z) : Decoder := match last with None => Fresh | Some l => At l end.

(** [d] is the decoder's state; [taken] and [pushed] what it took and what was pushed. *)
Record queue_ok (d : Decoder) (taken pushed : list QueuedFrame) (s : FrameQueueState) : Prop := {
  qo_chain : chain d (qs_frames s);
  qo_end : qs_stopped s = false → qs_recovering s = false → chain_end d (qs_frames s) = follows (qs_last_frame_id s);
  qo_stopped : qs_stopped s = true → qs_frames s = [];
  qo_order : taken ++ qs_frames s `sublist_of` pushed;
}.

Lemma push_admit_ok d taken pushed frame r s : chain d (qs_frames s) → taken ++ qs_frames s `sublist_of` pushed → qs_stopped s = false →
  qs_last_frame_id s = Some (frame_id_of frame) → (is_key frame = true ∨ qs_recovering s = true ∨ decodes (chain_end d (qs_frames s)) frame = true) →
  queue_ok d taken (pushed ++ [frame]) (push_admit frame r s).1.
Proof.
  intros Hc Ho Hs Hl Hd. unfold push_admit.
  set (p := match qs_pending_request_since s with Some since => _ | None => _ end).
  assert (∃ v, p.1 = q_pending v s) as [v Hp].
  { subst p. destruct s as [c fr l rc st [since|]]; cbn; [destruct (_ && _)|]; eexists; reflexivity. }
  destruct p as [s1 req]. cbn in Hp. subst s1. assert (taken ++ qs_frames s `sublist_of` pushed ++ [frame]) as Ho'.
  { etransitivity; [exact Ho|]. by apply sublist_inserts_r. }
  assert (∀ v', qs_recovering s && negb (is_key frame) = false → queue_ok d taken (pushed ++ [frame]) (q_frames (qs_frames s ++ [frame]) (q_recovering false (q_pending v' s)))) as Hadm.
  { intros v' E. split; cbn.
    - apply chain_snoc; [done|]. apply andb_false_iff in E as [E|E%negb_false_iff]; [|by apply key_decodes].
      destruct Hd as [Hd|[Hd|Hd]]; [by apply key_decodes|congruence|done].
    - intros _ _. by rewrite chain_end_snoc, Hl.
    - congruence.
    - rewrite app_assoc. by apply sublist_app. }
  assert (∀ v', qs_recovering s && negb (is_key frame) = true → queue_ok d taken (pushed ++ [frame]) (q_pending v' s)) as Hnot.
  { intros v' [E _]%andb_true_iff. split; cbn; [done|congruence|congruence|done]. }
  assert (qs_recovering (if is_key frame then q_pending None (q_pending v s) else q_pending v s) = qs_recovering s) as -> by (by destruct (is_key frame)).
  destruct (qs_recovering s && negb (is_key frame)) eqn:E; destruct (is_key frame); cbn [fst].
  - by apply (Hnot None).
  - by apply (Hnot v).
  - by apply (Hadm None).
  - by apply (Hadm v).
Qed.

Lemma u32_successor id last : is_u32 id = true → wsub32 id last = 1 → id = wadd32 last 1.
Proof.
  unfold is_u32, wsub32, wadd32. intros H E. assert (0 <= id < 2 ^ 32) as Hid by (unfold u32_max in *; bool_hyps; lia).
  rewrite <- (Z.mod_small id (2 ^ 32)) by done. replace id with ((id - last) + last) by lia. rewrite <- Z.add_mod_idemp_l, E by lia. f_equal. lia.
Qed.

(** The overload keeps a suffix of the queue, which still ends where it did unless it
    was cleared for a key frame. *)
Lemma overload_ok d key received s s' dropped : chain d (qs_frames s) → push_overload key received s = (s', dropped) →
  chain d (qs_frames s') ∧ qs_frames s' `sublist_of` qs_frames s ∧ qs_stopped s' = qs_stopped s ∧ qs_last_frame_id s' = qs_last_frame_id s ∧
  (key = true ∨ qs_recovering s' = true ∨ dropped = true ∨ qs_recovering s' = qs_recovering s ∧ chain_end d (qs_frames s') = chain_end d (qs_frames s)).
Proof.
  intros Hc. unfold push_overload. set (t := if key then q_frames [] s else (skip_to_latest_key s).1).
  assert (chain d (qs_frames t) ∧ qs_frames t `sublist_of` qs_frames s ∧ t = q_frames (qs_frames t) s ∧ (key = true ∨ chain_end d (qs_frames t) = chain_end d (qs_frames s))) as (H1 & H2 & H3 & H4).
  { subst t. destruct key; [split; [done|]; split; [apply sublist_nil_l|auto]|]. destruct (skip_chain d s Hc) as (? & ? & ? & ?). auto. }
  clearbody t. assert (qs_recovering t = qs_recovering s ∧ qs_stopped t = qs_stopped s ∧ qs_last_frame_id t = qs_last_frame_id s) as (R1 & R2 & R3) by (rewrite H3; done).
  destruct (_ <=? _); [destruct (cf_retain_prefix _); [destruct (qs_recovering t) eqn:Er|]|]; intros [= <- <-]; cbn; repeat split; auto.
  rewrite R1. destruct H4; auto.
Qed.

Lemma push_ok d taken pushed f s : queue_ok d taken pushed s → is_u32 (frame_id_of f) = true → queue_ok d taken (pushed ++ [f]) (push f s).1.
Proof.
  intros Hq Hid. assert (queue_ok d taken (pushed ++ [f]) s) as Hsame by (destruct Hq; split; try done; etransitivity; [done|]; by apply sublist_inserts_r).
  unfold push. destruct (qs_stopped s) eqn:Es; [done|]. cbv zeta. set (adv := match qs_last_frame_id s with Some last => Some (wsub32 (frame_id_of f) last) | None => None end).
  destruct (match adv with Some a => (a =? 0) || (Z.shiftl 1 31 <=? a) | None => false end); [done|].
  set (disc := match adv with Some a => negb (a =? 1) | None => false end). destruct Hq as [Q1 Q2 Q3 Q4].
  assert (disc = false → qs_recovering s = false → decodes (chain_end d (qs_frames s)) f = true) as Hdec.
  { intros Hd Hr. rewrite (Q2 Es Hr). subst disc adv. destruct (qs_last_frame_id s) as [l|]; [|apply orb_true_r].
    apply negb_false_iff, Z.eqb_eq in Hd. apply orb_true_iff. right. by apply Z.eqb_eq, u32_successor. }
  clearbody disc. clear adv. set (s0 := q_last (Some (frame_id_of f)) s).
  destruct (if negb disc && _ then _ else _) as [s1 dropped] eqn:E1.
  assert (chain d (qs_frames s1) ∧ qs_frames s1 `sublist_of` qs_frames s ∧ qs_stopped s1 = false ∧ qs_last_frame_id s1 = Some (frame_id_of f) ∧
    (is_key f = true ∨ qs_recovering s1 = true ∨ dropped = true ∨ decodes (chain_end d (qs_frames s1)) f = true)) as (H1 & H2 & H3 & H4 & H5).
  { destruct disc; cbn [negb andb] in E1; [injection E1 as <- <-; by auto 10|]. destruct (_ <=? _); [|injection E1 as <- <-].
    - destruct (overload_ok d _ _ s0 _ _ Q1 E1) as (H1 & H2 & H3 & H4 & H5). repeat split; [done|done|by rewrite H3|done|].
      destruct H5 as [H5|[H5|[H5|[H5 H6]]]]; auto. cbn in H5, H6. destruct (qs_recovering s1) eqn:Er; [auto|]. right. right. right. rewrite H6. by apply Hdec.
    - repeat split; try done. destruct (qs_recovering s) eqn:Er; [auto|]. right. right. right. by apply Hdec. }
  clear E1. assert (∀ s2 r, chain d (qs_frames s2) → qs_frames s2 `sublist_of` qs_frames s → qs_stopped s2 = false → qs_last_frame_id s2 = Some (frame_id_of f) →
    (is_key f = true ∨ qs_recovering s2 = true ∨ decodes (chain_end d (qs_frames s2)) f = true) →
    queue_ok d taken (pushed ++ [f]) (let '(s3, r') := push_admit f r s2 in (s3, Ok r' : Result bool unit)).1) as Hfin.
  { intros s2 r G1 G2 G3 G4 G5. assert (taken ++ qs_frames s2 `sublist_of` pushed) as G6 by (etransitivity; [|exact Q4]; by apply sublist_app).
    pose proof (push_admit_ok d taken pushed f r s2 G1 G6 G3 G4 G5) as Hok. by destruct (push_admit f r s2). }
  destruct dropped; apply Hfin; cbn; auto; [apply sublist_nil_l|]. destruct H5 as [|[|[|]]]; auto. done.
Qed.

Lemma take_ok d taken pushed delay now s s' r : queue_ok d taken pushed s → qs_stopped s = false → take_frame delay now s = (s', r) →
  match r with
  | TakeFrame f => decodes d f = true ∧ queue_ok (At (frame_id_of f)) (taken ++ [f]) pushed s'
  | _ => queue_ok d taken pushed s'
  end.
Proof.
  intros Hq Hst. unfold take_frame. set (t := if bool_decide _ then (skip_to_latest_key s).1 else s).
  assert (queue_ok d taken pushed t ∧ qs_stopped t = false) as [Ht Hts].
  { subst t. case_bool_decide; [|done]. destruct Hq as [Q1 Q2 Q3 Q4]. destruct (skip_chain d s Q1) as (H1 & H2 & H3 & H4).
    set (u := (skip_to_latest_key s).1) in *. clearbody u. assert (qs_recovering u = qs_recovering s ∧ qs_stopped u = qs_stopped s ∧ qs_last_frame_id u = qs_last_frame_id s) as (R1 & R2 & R3) by (rewrite H4; done).
    split; [|congruence]. split; [done|rewrite R1, R2, R3, H2; auto|congruence|]. etransitivity; [|exact Q4]. by apply sublist_app. }
  clearbody t. destruct (qs_frames t) as [|h rest] eqn:E; [by intros [= <- <-]|]. destruct (_ && _); intros [= <- <-]; [done|].
  destruct Ht as [Q1 Q2 Q3 Q4]. rewrite E in *. cbn in Q1. split; [apply Q1|]. split; cbn; [apply Q1|exact Q2|congruence|by rewrite <- app_assoc].
Qed.

Lemma failed_ok d taken pushed s : queue_ok d taken pushed s → (qs_recovering s = true → key_position (qs_frames s) = None) → queue_ok Broken taken pushed (decode_failed s).1.
Proof.
  intros [Q1 Q2 Q3 Q4] Hcalm. unfold decode_failed. destruct (qs_stopped s) eqn:Es.
  { specialize (Q3 eq_refl). split; cbn [fst]; [by rewrite Q3|congruence|done|done]. }
  destruct (key_position (qs_frames s)) as [k|] eqn:E.
  - destruct (key_position_Some _ _ E) as (f & Hf & Hk). destruct (qs_recovering s) eqn:Er; [by specialize (Hcalm eq_refl)|].
    destruct (chain_from_key d Broken _ _ _ Q1 Hf Hk) as [H1 H2]. split; cbn; [done|intros _ _; etransitivity; [exact H2|auto]|congruence|].
    etransitivity; [|exact Q4]. apply sublist_app; [done|apply sublist_drop].
  - assert (taken ++ [] `sublist_of` pushed) as Hn by (etransitivity; [|exact Q4]; apply sublist_app; [done|apply sublist_nil_l]).
    destruct (qs_recovering s); split; cbn; done.
Qed.

(** [decode_failed] is not called in the wake of an overload that kept its prefix, while
    a key frame is queued: see [queue_breaks_chain]. *)
Definition calm (op : QueueOp) (s : FrameQueueState) : Prop :=
  op = QFailed → qs_recovering s = true → key_position (qs_frames s) = None.
Fixpoint calm_run (ops : list QueueOp) (s : FrameQueueState) : Prop :=
  match ops with [] => True | op :: ops => calm op s ∧ calm_run ops (queue_step op s).1 end.
Definition op_u32 (op : QueueOp) : Prop := match op with QPush f => is_u32 (frame_id_of f) = true | _ => True end.

Lemma step_ok d taken pushed op s : queue_ok d taken pushed s → calm op s → op_u32 op →
  let t := (queue_step op s).2.1 in
  (∀ f, t = Some f → decodes d f = true) ∧
  queue_ok (decoder_next d op t) (taken ++ option_list t) (pushed ++ pushed_frames [op]) (queue_step op s).1.
Proof.
  intros Hq Hc Hu. destruct op as [f|delay now| |c|m|]; cbn [queue_step pushed_frames omap list_omap].
  - pose proof (push_ok d taken pushed f s Hq Hu) as Hp. destruct (push f s) as [s' r]. cbn. rewrite app_nil_r. done.
  - unfold recv_turn. rewrite app_nil_r. destruct (qs_stopped s) eqn:Es; [cbn; by rewrite app_nil_r|].
    destruct (take_frame delay now s) as [s' r] eqn:E. pose proof (take_ok _ _ _ _ _ _ _ _ Hq Es E) as Ht.
    destruct r; cbn; rewrite ?app_nil_r; [|done..]. destruct Ht. split; [by intros g [= <-]|done].
  - pose proof (failed_ok d taken pushed s Hq (Hc eq_refl)) as Hp. destruct (decode_failed s). cbn. by rewrite !app_nil_r.
  - cbn. rewrite !app_nil_r. split; [done|]. by destruct Hq.
  - cbn. rewrite !app_nil_r. split; [done|]. by destruct Hq.
  - cbn. rewrite !app_nil_r. split; [done|]. destruct Hq as [Q1 Q2 Q3 Q4]. split; cbn; try done.
    etransitivity; [|exact Q4]. apply sublist_app; [done|apply sublist_nil_l].
Qed.

Lemma pushed_cons op ops : pushed_frames (op :: ops) = pushed_frames [op] ++ pushed_frames ops.
Proof. unfold pushed_frames. by destruct op. Qed.

Lemma run_queue_ok ops d taken pushed s : queue_ok d taken pushed s → calm_run ops s → Forall op_u32 ops →
  Forall (λ fb, fb.2 = true) (queue_run ops d s).2 ∧ taken ++ (queue_run ops d s).2.*1 `sublist_of` pushed ++ pushed_frames ops.
Proof.
  revert d taken pushed s. induction ops as [|op ops IH]; intros d taken pushed s Hq Hc Hu; cbn [queue_run].
  { split; [done|]. cbn. rewrite !app_nil_r. etransitivity; [|apply (qo_order _ _ _ _ Hq)]. by apply sublist_inserts_r. }
  destruct Hc as [Hc1 Hc2]. apply Forall_cons in Hu as [Hu1 Hu2]. destruct (step_ok d taken pushed op s Hq Hc1 Hu1) as [Hd Hok].
  destruct (queue_step op s) as [s' [t b]]. cbn [fst snd] in *. destruct (IH _ _ _ _ Hok Hc2 Hu2) as [I1 I2]. rewrite <- !app_assoc, <- pushed_cons in I2.
  destruct (queue_run ops _ s') as [s'' l]. cbn [snd] in *. destruct t as [f|]; [|done]. split; [|exact I2]. apply Forall_cons. split; [by apply Hd|done].
Qed.


Definition demo_queued (id : Z) (key : bool) (received : Z) : QueuedFrame :=
  (mk_AssembledFrame (mk_FrameHeader id 2 2 key 1 1) [x01] id, received).

(** ** Bounds *)

Definition config_within (M : Z) (c : FrameQueueConfig) : Prop := cf_capacity c <= cf_max_backlog c <= M ∧ 1 <= M.
Record within_backlog (M : Z) (s : FrameQueueState) : Prop := {
  wb_config : config_within M (qs_config s);
  wb_frames : zlen (qs_frames s) <= M;
}.
Definition op_within (M : Z) (op : QueueOp) : Prop := match op with QReconfigure c => config_within M (normalized c) | _ => True end.

Lemma zlen_sublist {A} (l k : list A) : l `sublist_of` k → zlen l <= zlen k.
Proof. intros H%sublist_length. unfold zlen. lia. Qed.

Lemma skip_fields s : let s' := (skip_to_latest_key s).1 in
  s' = q_frames (qs_frames s') s ∧ qs_frames s' `sublist_of` qs_frames s.
Proof. destruct (skip_spec s) as (k & -> & _). split; [done|apply sublist_drop]. Qed.

(** What the end of a push leaves. *)
Lemma admit_frames f r s : let s' := (push_admit f r s).1 in qs_config s' = qs_config s ∧
  (qs_frames s' = qs_frames s ∧ qs_recovering s' = true ∧ qs_recovering s = true ∧ is_key f = false ∨
   qs_frames s' = qs_frames s ++ [f] ∧ qs_recovering s' = false ∧ (is_key f = true ∨ qs_recovering s = false)).
Proof.
  destruct s as [c fr l rc st pend]. unfold push_admit. cbn [qs_pending_request_since qs_config].
  destruct pend as [since|]; [destruct (negb (is_key f) && _)|]; destruct (is_key f), rc; cbn; auto 10.
Qed.

Lemma push_within M f s : within_backlog M s → within_backlog M (push f s).1.
Proof.
  intros [[HcM HM] Hf]. unfold push. destruct (qs_stopped s); [by split|]. cbv zeta. destruct (match _ with Some a => (a =? 0) || _ | None => false end); [by split|].
  set (disc := match _ with Some a => negb (a =? 1) | None => false end). set (s0 := q_last _ s).
  assert (∀ s2 r, qs_config s2 = qs_config s → zlen (qs_frames s2) <= M → (zlen (qs_frames s2) + 1 <= M ∨ qs_recovering s2 = true ∧ is_key f = false) →
    within_backlog M (let '(s3, r') := push_admit f r s2 in (s3, Ok r' : Result bool unit)).1) as Hfin.
  { intros s2 r E2 Hl Hroom. destruct (admit_frames f r s2) as [Ec Hcase]. destruct (push_admit f r s2) as [s3 r']. cbn [fst] in *. split; [by rewrite Ec, E2|].
    destruct Hcase as [(-> & _)|(-> & _ & Hk)]; [done|]. rewrite zlen_app. unfold zlen at 2. cbn. destruct Hroom as [|[]]; [lia|]. destruct Hk; congruence. }
  destruct disc; cbn [negb andb]; [apply Hfin; cbn; try done; unfold zlen; cbn; lia|].
  destruct (Z.leb_spec (cf_capacity (qs_config s0)) (zlen (qs_frames s0))) as [Hcap|Hcap]; [|apply Hfin; cbn in *; try done; left; lia].
  unfold push_overload. set (t := if is_key f then q_frames [] s0 else (skip_to_latest_key s0).1).
  assert (qs_config t = qs_config s ∧ zlen (qs_frames t) <= M ∧ (is_key f = true → qs_frames t = [])) as (T1 & T2 & T3).
  { subst t. destruct (is_key f); [cbn; split; [done|]; split; [unfold zlen; cbn; lia|done]|]. destruct (skip_fields s0) as [E1 E2]. split; [by rewrite E1|].
    split; [|done]. apply zlen_sublist in E2. cbn in *. lia. }
  clearbody t. destruct (Z.leb_spec (cf_max_backlog (qs_config t)) (zlen (qs_frames t))) as [Hmax|Hmax]; [|apply Hfin; try done; left; rewrite T1 in Hmax; lia].
  assert (∀ u, qs_frames u = qs_frames t → qs_recovering u = true → zlen (qs_frames u) + 1 <= M ∨ qs_recovering u = true ∧ is_key f = false) as Hu.
  { intros u Hu1 Hu2. rewrite Hu1. destruct (is_key f); [left; rewrite T3 by done; unfold zlen; cbn; lia|by right]. }
  destruct (cf_retain_prefix (qs_config t)).
  - destruct (qs_recovering t) eqn:Er; apply Hfin; try done; by apply Hu.
  - apply Hfin; cbn; try done; unfold zlen; cbn; [lia|left; lia].
Qed.

Lemma step_within M op s : within_backlog M s → op_within M op → within_backlog M (queue_step op s).1.
Proof.
  intros Hs Ho1. destruct op as [f|delay now| |c|m|]; cbn [queue_step].
  - pose proof (push_within M f s Hs). by destruct (push f s).
  - unfold recv_turn. destruct (qs_stopped s); [done|]. unfold take_frame. set (t := if bool_decide _ then (skip_to_latest_key s).1 else s).
    assert (within_backlog M t) as [Ht1 Ht2].
    { subst t. case_bool_decide; [|done]. destruct (skip_fields s) as [E1 E2%zlen_sublist]. destruct Hs. split; [by rewrite E1|lia]. }
    clearbody t. destruct (qs_frames t) as [|h rest] eqn:E; [split; [done|cbn; rewrite E; exact Ht2]|]. destruct (_ && _); cbn; (split; [done|cbn]); [rewrite E; exact Ht2|].
    unfold zlen in *. cbn in Ht2. lia.
  - unfold decode_failed. destruct (qs_stopped s); [done|]. destruct Hs as [Hs1 Hs2]. destruct (key_position _) as [k|]; cbn.
    + split; [done|]. cbn. pose proof (zlen_sublist _ _ (sublist_drop (qs_frames s) k)). lia.
    + destruct (negb _); (split; [done|]); unfold zlen; cbn; destruct Hs1; lia.
  - destruct Hs. by split.
  - destruct Hs as [[H1 H1'] H2]. by split; [split|].
  - destruct Hs as [Hs1 Hs2]. split; [done|]. unfold zlen. cbn. destruct Hs1. lia.
Qed.

(** The backlog is bounded.  Whatever is pushed and whenever it is taken, the queue never
    holds more frames than the largest hard cap it was configured with, also across
    reconfigurations to a smaller one. *)
Theorem queue_bounded (config : FrameQueueConfig) (M : Z) (ops : list QueueOp) :
  config_within M (normalized config) → Forall (op_within M) ops →
  zlen (qs_frames (queue_run ops Fresh (with_config config)).1) <= M.
Proof.
  intros Hc Ho. assert (∀ ops d s, within_backlog M s → Forall (op_within M) ops → within_backlog M (queue_run ops d s).1) as Hr.
  { clear. induction ops as [|op ops IH]; intros d s Hs Ho; cbn [queue_run]; [done|]. apply Forall_cons in Ho as [Ho1 Ho2].
    pose proof (step_within M op s Hs Ho1) as Hs'.
    destruct (queue_step op s) as [s' [t b]]. specialize (IH (decoder_next d op t) s' Hs' Ho2). by destruct (queue_run ops _ s'). }
  apply Hr; [|done]. split; [done|]. unfold zlen. cbn. destruct Hc. lia.
Qed.
Lemma queue_bounded_witness :
  let ops := (λ i, QPush (demo_queued i (i =? 0) 0)) <$> seqZ 0 9 in
  zlen (qs_frames (queue_run ops Fresh (with_config (for_fps 60 Immediate))).1) = 4 ∧
  zlen (qs_frames (queue_run ops Fresh (with_config (for_fps 60 Immediate))).1) <= 4.
Proof. split; [reflexivity|]. apply queue_bounded; [done|]. by repeat constructor. Defined.

(** ** Requests for key frames *)

(** The key frames requested since the queue last began to recover. *)
Fixpoint requests (ops : list QueueOp) (s : FrameQueueState) (n : Z) : Z :=
  match ops with
  | [] => n
  | op :: ops => let '(s', (_, r)) := queue_step op s in requests ops s' (if qs_recovering s' then n + (if r then 1 else 0) else 0)
  end.
(** Whether any was requested at all. *)
Fixpoint any_request (ops : list QueueOp) (s : FrameQueueState) : bool :=
  match ops with
  | [] => false
  | op :: ops => (queue_step op s).2.2 || any_request ops (queue_step op s).1
  end.
Definition op_plain (op : QueueOp) : Prop := match op with QReconfigure c => cf_retain_prefix c = false | _ => True end.

Record plain_ok (n : Z) (s : FrameQueueState) : Prop := {
  pl_config : cf_retain_prefix (qs_config s) = false;
  pl_pending : qs_pending_request_since s = None;
  pl_empty : qs_recovering s = true → qs_frames s = [];
  pl_count : n = if qs_recovering s then 1 else 0;
}.

Lemma plain_push n f s : plain_ok n s → let '(s', r) := push f s in
  plain_ok (if qs_recovering s' then n + (if requested r then 1 else 0) else 0) s'.
Proof.
  intros [P1 P2 P3 P4]. assert (plain_ok (if qs_recovering s then n + 0 else 0) s) as Hs by (split; try done; subst n; destruct (qs_recovering s); lia).
  unfold push. destruct (qs_stopped s); [done|]. cbv zeta. destruct (match _ with Some a => (a =? 0) || _ | None => false end); [done|].
  set (disc := match _ with Some a => negb (a =? 1) | None => false end). set (s0 := q_last _ s).
  assert (∀ s2 (r : bool), cf_retain_prefix (qs_config s2) = false → qs_pending_request_since s2 = None → (qs_recovering s2 = true → qs_frames s2 = []) →
    (qs_recovering s2 = true → is_key f = false → n + (if (r : bool) then 1 else 0) = 1) →
    (let '(s', x) := (let '(s3, r') := push_admit f r s2 in (s3, Ok r' : Result bool unit)) in plain_ok (if qs_recovering s' then n + (if requested x then 1 else 0) else 0) s')) as Hfin.
  { intros [c fr l rc st pend] r R1 R2 R3 R4. cbn in R1, R2, R3, R4. subst pend. unfold push_admit. cbn [qs_pending_request_since qs_config].
    destruct (is_key f) eqn:Ek, rc; cbn [negb andb qs_recovering q_pending]; split; cbn; try done. specialize (R4 eq_refl eq_refl). by destruct r. }
  assert (∀ u, qs_config u = qs_config s → qs_recovering u = qs_recovering s →
    (let '(s', x) := (let '(s3, r') := push_admit f (negb (qs_recovering u) && negb (is_key f)) (q_pending None (q_recovering true (q_frames [] u))) in (s3, Ok r' : Result bool unit)) in
    plain_ok (if qs_recovering s' then n + (if requested x then 1 else 0) else 0) s')) as Hdrop.
  { intros u U1 U2. apply Hfin; cbn; [by rewrite U1|done|done|]. intros _ ->. rewrite U2. subst n. by destruct (qs_recovering s). }
  assert (∀ u, qs_config u = qs_config s → qs_recovering u = qs_recovering s → qs_pending_request_since u = None → (qs_recovering s = true → qs_frames u = []) →
    (let '(s', x) := (let '(s3, r') := push_admit f false u in (s3, Ok r' : Result bool unit)) in
    plain_ok (if qs_recovering s' then n + (if requested x then 1 else 0) else 0) s')) as Hgo.
  { intros u U1 U2 U3 U4. apply Hfin; [by rewrite U1|done|by rewrite U2|]. rewrite U2. intros Hr _. subst n. by rewrite Hr. }
  destruct disc; cbn [negb andb]; [by apply Hdrop|]. destruct (_ <=? _); [|by apply Hgo]. unfold push_overload.
  set (t := if is_key f then q_frames [] s0 else (skip_to_latest_key s0).1).
  assert (qs_config t = qs_config s ∧ qs_recovering t = qs_recovering s ∧ qs_pending_request_since t = None ∧ (qs_recovering s = true → qs_frames t = [])) as (T1 & T2 & T3 & T4).
  { subst t. destruct (is_key f); [done|]. destruct (skip_fields s0) as [E1 E2]. rewrite E1 at 1 2 3. repeat split; try done. intros Hr. cbn in E2. rewrite (P3 Hr) in E2.
    by apply sublist_nil_r in E2. }
  clearbody t. destruct (_ <=? _); [|by apply Hgo]. rewrite T1, P1. by apply Hdrop.
Qed.

Lemma plain_step n op s : plain_ok n s → op_plain op → let '(s', (_, r)) := queue_step op s in
  plain_ok (if qs_recovering s' then n + (if r : bool then 1 else 0) else 0) s'.
Proof.
  intros Hs Ho. assert (∀ t, cf_retain_prefix (qs_config t) = false → qs_recovering t = qs_recovering s → qs_pending_request_since t = None →
    (qs_recovering s = true → qs_frames t = []) → plain_ok (if qs_recovering t then n + 0 else 0) t) as Hsame.
  { intros t T1 T2 T3 T4. destruct Hs as [P1 P2 P3 ->]. split; [done|done|by rewrite T2|]. rewrite T2. by destruct (qs_recovering s). }
  destruct op as [f|delay now| |c|m|]; cbn [queue_step].
  - pose proof (plain_push n f s Hs) as Hp. destruct (push f s). exact Hp.
  - destruct Hs as [P1 P2 P3 P4]. unfold recv_turn. destruct (qs_stopped s); [by apply Hsame|]. unfold take_frame.
    set (t := if bool_decide _ then (skip_to_latest_key s).1 else s).
    assert (qs_config t = qs_config s ∧ qs_recovering t = qs_recovering s ∧ qs_pending_request_since t = None ∧ (qs_recovering s = true → qs_frames t = [])) as (T1 & T2 & T3 & T4).
    { subst t. case_bool_decide; [|done]. destruct (skip_fields s) as [E1 E2]. rewrite E1 at 1 2 3. repeat split; try done. intros Hr. rewrite (P3 Hr) in E2. by apply sublist_nil_r in E2. }
    clearbody t. destruct (qs_frames t) as [|h rest] eqn:E; [|destruct (_ && _)]; apply Hsame; cbn; rewrite ?T1, ?T2, ?E; try done.
    intros Hr. by specialize (T4 Hr).
  - destruct Hs as [P1 P2 P3 ->]. unfold decode_failed. destruct (qs_stopped s); [by apply Hsame|]. destruct (qs_recovering s) eqn:Er.
    + rewrite (P3 eq_refl), P2. cbn. by split.
    + destruct (key_position _); cbn; [by split|]. by split.
  - destruct Hs. by apply Hsame.
  - destruct Hs. by apply Hsame.
  - destruct Hs. by apply Hsame.
Qed.

(** One key frame request per loss.  In a queue that does not keep prefixes (the default
    configuration, also after reconfigurations that keep this), whatever is pushed,
    taken and reported as failed: while the queue refuses dependent frames, exactly one key
    frame was requested since it began to refuse them, neither none (which would stop the
    picture) nor a second one; and while it refuses them it holds no frame. *)
Theorem queue_requests_once (config : FrameQueueConfig) (ops : list QueueOp) :
  cf_retain_prefix config = false → Forall op_plain ops →
  let s := (queue_run ops Fresh (with_config config)).1 in
  requests ops (with_config config) 0 = (if qs_recovering s then 1 else 0) ∧ (qs_recovering s = true → qs_frames s = []).
Proof.
  intros Hc Ho s. assert (∀ ops d t n, plain_ok n t → Forall op_plain ops → plain_ok (requests ops t n) (queue_run ops d t).1) as Hr.
  { clear. induction ops as [|op ops IH]; intros d t n Ht Ho; cbn [queue_run requests]; [done|]. apply Forall_cons in Ho as [Ho1 Ho2].
    pose proof (plain_step n op t Ht Ho1) as Hs. destruct (queue_step op t) as [t' [x r]]. specialize (IH (decoder_next d op x) t' _ Hs Ho2).
    by destruct (queue_run ops _ t'). }
  destruct (Hr ops Fresh (with_config config) 0) as [_ _ H1 H2]; [by split|done|]. done.
Qed.
Lemma queue_requests_once_witness :
  let ops := [QPush (demo_queued 0 true 0); QPush (demo_queued 2 false 0); QPush (demo_queued 3 false 0); QFailed] in
  let s := (queue_run ops Fresh (with_config config_default)).1 in
  requests ops (with_config config_default) 0 = (if qs_recovering s then 1 else 0) ∧ (qs_recovering s = true → qs_frames s = []).
Proof. apply queue_requests_once; [done|]. by repeat constructor. Defined.

(** ** Two ways the retained prefix goes wrong *)

(** Frames 0 to 4 of a 60 fps stream with nothing taken, then the loss of frame 5. *)
Definition lost_request : list QueueOp :=
  [QPush (demo_queued 0 true 0); QPush (demo_queued 1 false 0); QPush (demo_queued 2 false 0); QPush (demo_queued 3 false 0);
   QPush (demo_queued 4 false 0); QPush (demo_queued 6 false 0)].

Definition lost_state : FrameQueueState := foldl (λ s op, (queue_step op s).1) (with_config (for_fps 60 Immediate)) lost_request.

Lemma queue_run_state ops d s : (queue_run ops d s).1 = foldl (λ s op, (queue_step op s).1) s ops.
Proof.
  revert d s. induction ops as [|op ops IH]; intros d s; cbn [queue_run foldl]; [done|]. destruct (queue_step op s) as [s' [t b]]. cbn [fst].
  rewrite <- (IH (decoder_next d op t)). by destruct (queue_run ops _ s').
Qed.

(** Refusing, nothing queued, nothing pending. *)
Definition stuck (s : FrameQueueState) : Prop :=
  qs_stopped s = false ∧ qs_recovering s = true ∧ qs_frames s = [] ∧ qs_pending_request_since s = None ∧ 1 <= cf_capacity (qs_config s).
Lemma stuck_push s f : stuck s → is_key f = false → stuck (push f s).1 ∧ requested (push f s).2 = false.
Proof.
  intros (S1 & S2 & S3 & S4 & S5) Hk. unfold push. rewrite S1. cbv zeta. destruct (match _ with Some a => (a =? 0) || _ | None => false end); [done|].
  cbn [q_last qs_frames qs_config]. rewrite S3. destruct (Z.leb_spec (cf_capacity (qs_config s)) (zlen ([] : list QueuedFrame))) as [H|H]; [unfold zlen in H; cbn in H; lia|].
  rewrite andb_false_r. unfold push_admit. destruct s as [c fr l rc st pend]. cbn in S1, S2, S3, S4, S5. subst. rewrite Hk.
  destruct (match _ with Some a => negb (a =? 1) | None => false end); cbn; done.
Qed.
Lemma stuck_run l s : stuck s → Forall (λ f, is_key f = false) l →
  any_request (QPush <$> l) s = false ∧ qs_frames (foldl (λ s op, (queue_step op s).1) s (QPush <$> l)) = [].
Proof.
  revert s. induction l as [|f l IH]; intros s Hs Hl; cbn [fmap list_fmap any_request foldl queue_step]; [by split; [|apply Hs]|].
  apply Forall_cons in Hl as [Hf Hl]. destruct (stuck_push s f Hs Hf) as [Hs' Hr]. destruct (push f s) as [s' r]. cbn [fst snd] in *. rewrite Hr.
  destruct (IH s' Hs' Hl) as [I1 I2]. by split.
Qed.

(** A deferred request is forgotten.  At the hard cap the queue keeps its prefix, refuses
    the frames that follow and defers its request for a key frame by 100 ms.  If a frame
    is lost before that, the backlog is dropped and the deferred request with it, and because the
    queue already refuses frames none is made: whatever frames that are not key
    frames are pushed from then on, and at whatever instants, no push requests one and no frame
    is admitted. *)
Theorem queue_forgets_request (l : list QueuedFrame) :
  Forall (λ f, is_key f = false) l →
  let ops := lost_request ++ (QPush <$> l) in
  any_request ops (with_config (for_fps 60 Immediate)) = false ∧
  qs_frames (queue_run ops Fresh (with_config (for_fps 60 Immediate))).1 = [].
Proof.
  intros Hl. cbv zeta. rewrite queue_run_state, foldl_app. change (foldl _ _ lost_request) with lost_state.
  change (any_request (lost_request ++ _) _) with (any_request (QPush <$> l) lost_state).
  by apply stuck_run; [repeat split; vm_compute|].
Qed.
Lemma queue_forgets_request_witness :
  let ops := lost_request ++ (QPush <$> [demo_queued 7 false (ms 500); demo_queued 8 false (ms 1000)]) in
  any_request ops (with_config (for_fps 60 Immediate)) = false ∧
  qs_frames (queue_run ops Fresh (with_config (for_fps 60 Immediate))).1 = [].
Proof. apply queue_forgets_request. by repeat constructor. Defined.

(** A failed decoding can hide a loss.  At the hard cap the queue keeps its prefix, with
    a key frame in it, and drops frame 5.  A decoding that fails then ends the refusal of dependent
    frames because a key frame is queued: frame 6 is admitted and handed to the decoder right
    after frame 4, and no key frame is requested. *)
Theorem queue_breaks_chain :
  let ops := [QPush (demo_queued 0 true 0); QRecv 0 0; QPush (demo_queued 1 true 0); QPush (demo_queued 2 false 0); QPush (demo_queued 3 false 0);
    QPush (demo_queued 4 false 0); QPush (demo_queued 5 false 0); QFailed; QRecv 0 0; QRecv 0 0; QRecv 0 0; QRecv 0 0; QPush (demo_queued 6 false 0); QRecv 0 0] in
  let run := queue_run ops Fresh (with_config (for_fps 60 Immediate)) in
  (λ fb, (frame_id_of fb.1, fb.2)) <$> run.2 = [(0, true); (1, true); (2, true); (3, true); (4, true); (6, false)] ∧
  any_request ops (with_config (for_fps 60 Immediate)) = false ∧ qs_recovering run.1 = false.
Proof. split; [reflexivity|]. split; reflexivity. Qed.
