(* ===== verification/RdRecovery.v ===== *)
(** * RdRecovery (crates/ferryx-rd/ferryx-rd-host/src/transport_recovery.rs)

    The host's cache of recently sent chunks and the queue of retransmissions the client
    asked for.  Instants and durations are nanoseconds; byte counts are the [usize] of the
    source, whose subtractions never go below zero ([rc_bytes_exact]).  [redundancy] is a
    computation on [f64] and left out. *)

From S2P Require Import Prelude Wire RdCodec RdMedia.
From Stdlib Require Import ZArith Lia Strings.Byte.
From stdpp Require Import base option gmap strings list_numbers list.

#[local] Open Scope Z_scope.

Definition DEADLINE : Z := 100 * 1000000.
Definition RETENTION : Z := 200 * 1000000.
Definition MAX_BYTES : Z := 8 * 1024 * 1024.
Definition MAX_FRAMES : Z := 48.
Definition MAX_RETRIES : Z := 2.

Record CachedFrame := mk_CachedFrame {
  ca_id : Z;
  ca_encoded : Z;
  ca_bytes : Z;
  ca_chunks : gmap Z (list byte * Z);
}.
Record Recovery := mk_Recovery {
  rc_enabled : bool;
  rc_loss_permille : Z;
  rc_bytes : Z;
  rc_frames : list CachedFrame;
  rc_pending : list (Z * Z * Z);
}.
Definition recovery_default : Recovery := mk_Recovery false 0 0 [] [].
(** The session sets the public field [enabled]. *)
Definition set_enabled (v : bool) (s : Recovery) : Recovery := mk_Recovery v (rc_loss_permille s) (rc_bytes s) (rc_frames s) (rc_pending s).
Definition r_frames (frames : list CachedFrame) (bytes : Z) (s : Recovery) : Recovery :=
  mk_Recovery (rc_enabled s) (rc_loss_permille s) bytes frames (rc_pending s).
Definition r_pending (pending : list (Z * Z * Z)) (s : Recovery) : Recovery :=
  mk_Recovery (rc_enabled s) (rc_loss_permille s) (rc_bytes s) (rc_frames s) pending.
Definition r_loss (v : Z) (s : Recovery) : Recovery := mk_Recovery (rc_enabled s) v (rc_bytes s) (rc_frames s) (rc_pending s).

(** A [while] loop that pops frames from the front and gives their bytes back. *)
Fixpoint pop_while (cond : Z → list CachedFrame → bool) (frames : list CachedFrame) (bytes : Z) : list CachedFrame * Z :=
  match frames with
  | [] => (frames, bytes)
  | f :: rest => if cond bytes frames then pop_while cond rest (bytes - ca_bytes f) else (frames, bytes)
  end.
Definition expired (now : Z) (_ : Z) (frames : list CachedFrame) : bool :=
  match frames with f :: _ => RETENTION <=? sat_sub now (ca_encoded f) | [] => false end.
Definition prune (now : Z) (s : Recovery) : Recovery :=
  let '(frames, bytes) := pop_while (expired now) (rc_frames s) (rc_bytes s) in r_frames frames bytes s.

(** [position] and [remove] of the frame with an id. *)
Fixpoint remove_frame (id : Z) (frames : list CachedFrame) (bytes : Z) : list CachedFrame * Z :=
  match frames with
  | [] => ([], bytes)
  | f :: rest => if ca_id f =? id then (rest, bytes - ca_bytes f) else let '(rest, bytes) := remove_frame id rest bytes in (f :: rest, bytes)
  end.
Definition begin_frame (frame encoded : Z) (s : Recovery) : Recovery :=
  let s := prune encoded s in
  if negb (rc_enabled s) then s else
  let '(frames, bytes) := remove_frame frame (rc_frames s) (rc_bytes s) in
  let '(frames, bytes) := pop_while (λ _ frames, MAX_FRAMES <=? zlen frames) frames bytes in
  r_frames (frames ++ [mk_CachedFrame frame encoded 0 ∅]) bytes s.

(** [back_mut] and the vacant entry. *)
Fixpoint retain_last (index : Z) (payload : list byte) (frames : list CachedFrame) (bytes : Z) : list CachedFrame * Z :=
  match frames with
  | [] => ([], bytes)
  | [f] =>
      match ca_chunks f !! index with
      | Some _ => ([f], bytes)
      | None => ([mk_CachedFrame (ca_id f) (ca_encoded f) (ca_bytes f + zlen payload) (<[index := (payload, 0)]> (ca_chunks f))], bytes + zlen payload)
      end
  | f :: rest => let '(rest, bytes) := retain_last index payload rest bytes in (f :: rest, bytes)
  end.
Definition retain (index : Z) (payload : list byte) (s : Recovery) : Recovery :=
  if negb (rc_enabled s) || (MAX_BYTES <? zlen payload) then s else
  let '(frames, bytes) := pop_while (λ bytes frames, (MAX_BYTES <? bytes + zlen payload) && (1 <? zlen frames)) (rc_frames s) (rc_bytes s) in
  let s := r_frames frames bytes s in
  if MAX_BYTES <? bytes + zlen payload then s else
  let '(frames, bytes) := retain_last index payload frames bytes in r_frames frames bytes s.

Definition find_frame (id : Z) (frames : list CachedFrame) : option CachedFrame := List.find (λ f, ca_id f =? id) frames.

Definition retryable (index : Z) (f : CachedFrame) : bool :=
  match ca_chunks f !! index with Some (_, retries) => retries <? MAX_RETRIES | None => false end.
(** The loop of [enqueue]. *)
Fixpoint enqueue_loop (f : CachedFrame) (id rtt : Z) (seen : gset Z) (missing : list Z) (pending : list (Z * Z * Z)) : list (Z * Z * Z) :=
  match missing with
  | [] => pending
  | index :: rest =>
      if MAX_NACK_INDICES <=? zlen pending then pending else
      if bool_decide (index ∈ seen) then enqueue_loop f id rtt seen rest pending else
      let seen := {[index]} ∪ seen in
      if negb (existsb (λ p, (p.1.1 =? id) && (p.1.2 =? index)) pending) && retryable index f
      then enqueue_loop f id rtt seen rest (pending ++ [(id, index, rtt)])
      else enqueue_loop f id rtt seen rest pending
  end.
Definition enqueue (nack : FrameNack) (now : Z) (s : Recovery) : Recovery :=
  if negb (rc_enabled s) then s else
  let s := prune now (r_loss (fn_loss_permille nack) s) in
  match find_frame (fn_frame_id nack) (rc_frames s) with
  | None => s
  | Some f =>
      let rtt := fn_rtt_ms nack * 1000000 in
      if (fn_rtt_ms nack =? u16_max) || (DEADLINE <=? sat_sub now (ca_encoded f) + rtt) then s else
      r_pending (enqueue_loop f (fn_frame_id nack) rtt ∅ (fn_missing nack) (rc_pending s)) s
  end.

(** [find] and [get_mut] of a chunk that is due: its payload, and the frames with one
    more retry counted. *)
Fixpoint retry_chunk (id index rtt now : Z) (frames : list CachedFrame) : option (list byte * list CachedFrame) :=
  match frames with
  | [] => None
  | f :: rest =>
      if ca_id f =? id then
        if DEADLINE <=? sat_sub now (ca_encoded f) + rtt then None else
        match ca_chunks f !! index with
        | Some (payload, retries) =>
            if retries <? MAX_RETRIES
            then Some (payload, mk_CachedFrame (ca_id f) (ca_encoded f) (ca_bytes f) (<[index := (payload, retries + 1)]> (ca_chunks f)) :: rest)
            else None
        | None => None
        end
      else '(payload, rest) ← retry_chunk id index rtt now rest; Some (payload, f :: rest)
  end.
Fixpoint next_loop (now : Z) (pending : list (Z * Z * Z)) (frames : list CachedFrame) : list (Z * Z * Z) * list CachedFrame * option (list byte) :=
  match pending with
  | [] => ([], frames, None)
  | (id, index, rtt) :: rest =>
      match retry_chunk id index rtt now frames with
      | Some (payload, frames) => (rest, frames, Some payload)
      | None => next_loop now rest frames
      end
  end.
Definition next (now : Z) (s : Recovery) : Recovery * option (list byte) :=
  let s := prune now s in
  let '(pending, frames, payload) := next_loop now (rc_pending s) (rc_frames s) in
  (r_pending pending (r_frames frames (rc_bytes s) s), payload).

(** ** Runs *)

Inductive RecoveryOp : Type :=
| RBegin (frame encoded : Z)
| RRetain (index : Z) (payload : list byte)
| REnqueue (nack : FrameNack) (now : Z)
| RNext (now : Z)
| REnable (v : bool).
Definition recovery_step (op : RecoveryOp) (s : Recovery) : Recovery * option (list byte) :=
  match op with
  | RBegin frame encoded => (begin_frame frame encoded s, None)
  | RRetain index payload => (retain index payload s, None)
  | REnqueue nack now => (enqueue nack now s, None)
  | RNext now => next now s
  | REnable v => (set_enabled v s, None)
  end.
(** The state and the payloads sent again. *)
Fixpoint recovery_run (ops : list RecoveryOp) (s : Recovery) : Recovery * list (list byte) :=
  match ops with
  | [] => (s, [])
  | op :: ops =>
      let '(s, o) := recovery_step op s in
      let '(s, l) := recovery_run ops s in (s, option_list o ++ l)
  end.
Definition retained (ops : list RecoveryOp) : list (list byte) := omap (λ op, match op with RRetain _ p => Some p | _ => None end) ops.

(** ** Lemmas: sums over chunks *)

Definition chunk_sum (g : list byte * Z → Z) (m : gmap Z (list byte * Z)) : Z := zsum (g <$> (map_to_list m).*2).

Lemma chunk_sum_insert g m i x : m !! i = None → chunk_sum g (<[i := x]> m) = g x + chunk_sum g m.
Proof. intros H. unfold chunk_sum. rewrite (map_to_list_insert m i x H). done. Qed.
Lemma chunk_sum_update g m i x y : m !! i = Some x → chunk_sum g (<[i := y]> m) = chunk_sum g m - g x + g y.
Proof.
  intros H. rewrite <- (insert_delete_eq m i y), chunk_sum_insert by apply lookup_delete_eq.
  rewrite <- (insert_id m i x H) at 2. rewrite <- (insert_delete_eq m i x), chunk_sum_insert by apply lookup_delete_eq. lia.
Qed.
Lemma chunk_sum_nonneg g m : (∀ i x, m !! i = Some x → 0 <= g x) → 0 <= chunk_sum g m.
Proof.
  intros H. apply zsum_nonneg, Forall_fmap, Forall_fmap, Forall_forall. intros [i x] Hi%elem_of_map_to_list. by apply (H i).
Qed.

(** ** The cache keeps its accounts *)

(** Bytes that may still be sent again. *)
Definition allowance (x : list byte * Z) : Z := zlen x.1 * (MAX_RETRIES - x.2).
Definition frame_allowance (f : CachedFrame) : Z := chunk_sum allowance (ca_chunks f).

Record frame_ok (f : CachedFrame) : Prop := {
  fo_bytes : ca_bytes f = chunk_sum (λ x, zlen x.1) (ca_chunks f);
  fo_retries i p r : ca_chunks f !! i = Some (p, r) → 0 <= r <= MAX_RETRIES;
}.
Lemma frame_bytes_nonneg f : frame_ok f → 0 <= ca_bytes f.
Proof. intros [-> _]. apply chunk_sum_nonneg. intros i x _. apply zlen_nonneg. Qed.
Lemma allowance_nonneg f : frame_ok f → 0 <= frame_allowance f.
Proof. intros [_ Hr]. apply chunk_sum_nonneg. intros i [p r] H%Hr. unfold allowance. cbn. pose proof (zlen_nonneg p). nia. Qed.

Definition frames_bytes (frames : list CachedFrame) : Z := zsum (ca_bytes <$> frames).
Definition frames_allowance (frames : list CachedFrame) : Z := zsum (frame_allowance <$> frames).
Definition frames_ok (frames : list CachedFrame) (bytes : Z) : Prop := Forall frame_ok frames ∧ bytes = frames_bytes frames.

Lemma allowance_cons f frames : frames_allowance (f :: frames) = frame_allowance f + frames_allowance frames.
Proof. done. Qed.
Lemma frames_nonneg frames : Forall frame_ok frames → 0 <= frames_bytes frames ∧ 0 <= frames_allowance frames.
Proof.
  intros H. split; apply zsum_nonneg, Forall_fmap; (eapply Forall_impl; [exact H|]); intros f Hf; [by apply frame_bytes_nonneg|by apply allowance_nonneg].
Qed.

Lemma pop_ok cond frames bytes : frames_ok frames bytes → let '(frames', bytes') := pop_while cond frames bytes in
  frames_ok frames' bytes' ∧ (∃ k, frames' = drop k frames) ∧ bytes' <= bytes ∧ frames_allowance frames' <= frames_allowance frames.
Proof.
  revert bytes. induction frames as [|f frames IH]; intros bytes [Hf Hb]; cbn [pop_while].
  { split; [done|]. split; [by exists 0%nat|]. lia. }
  destruct (cond bytes (f :: frames)); [|split; [done|]; split; [by exists 0%nat|lia]].
  apply Forall_cons in Hf as [Hf1 Hf2]. specialize (IH (bytes - ca_bytes f)). destruct (pop_while cond frames (bytes - ca_bytes f)) as [fr by'].
  destruct IH as (I1 & (k & ->) & I3 & I4); [split; [done|]; subst bytes; unfold frames_bytes; cbn; change (foldr Z.add 0) with zsum; lia|].
  pose proof (frame_bytes_nonneg f Hf1). pose proof (allowance_nonneg f Hf1). split; [done|]. split; [by exists (S k)|].
  unfold frames_allowance in *. cbn. change (foldr Z.add 0) with zsum. lia.
Qed.

Lemma remove_ok id frames bytes : frames_ok frames bytes → let '(frames', bytes') := remove_frame id frames bytes in
  frames_ok frames' bytes' ∧ frames' `sublist_of` frames ∧ bytes' <= bytes ∧ frames_allowance frames' <= frames_allowance frames.
Proof.
  revert bytes. induction frames as [|f frames IH]; intros bytes [Hf Hb]; cbn [remove_frame]; [done|].
  apply Forall_cons in Hf as [Hf1 Hf2]. pose proof (frame_bytes_nonneg f Hf1). pose proof (allowance_nonneg f Hf1).
  unfold frames_bytes, frames_allowance in *. cbn in Hb. change (foldr Z.add 0) with zsum in Hb. destruct (ca_id f =? id).
  - split; [split; [done|]; unfold frames_bytes; lia|]. split; [by apply sublist_cons|]. cbn. change (foldr Z.add 0) with zsum. lia.
  - specialize (IH (bytes - ca_bytes f)). assert (frames_ok frames (bytes - ca_bytes f)) as Hok by (split; [done|]; unfold frames_bytes; lia).
    assert (∀ b, remove_frame id frames b = ((remove_frame id frames (bytes - ca_bytes f)).1, (remove_frame id frames (bytes - ca_bytes f)).2 + (b - (bytes - ca_bytes f)))) as Hshift.
    { clear. revert bytes. induction frames as [|g frames IH]; intros bytes b; cbn; [f_equal; lia|]. destruct (ca_id g =? id); cbn; [f_equal; lia|].
      rewrite IH with (bytes := bytes). destruct (remove_frame id frames (bytes - ca_bytes f)). done. }
    rewrite (Hshift bytes). destruct (remove_frame id frames (bytes - ca_bytes f)) as [fr b]. destruct (IH Hok) as ((I1 & I1') & I2 & I3 & I4). cbn [fst snd].
    split; [split; [by apply Forall_cons|]|split; [by apply sublist_skip|]]; unfold frames_bytes in *; cbn; change (foldr Z.add 0) with zsum; lia.
Qed.

Lemma retain_last_ok index payload frames bytes : frames_ok frames bytes → let '(frames', bytes') := retain_last index payload frames bytes in
  frames_ok frames' bytes' ∧ zlen frames' = zlen frames ∧ bytes' <= bytes + zlen payload ∧
  frames_allowance frames' <= frames_allowance frames + MAX_RETRIES * zlen payload.
Proof.
  revert bytes. induction frames as [|f frames IH]; intros bytes [Hf Hb]; [cbn; pose proof (zlen_nonneg payload); split; [done|]; unfold MAX_RETRIES; lia|].
  apply Forall_cons in Hf as [Hf1 Hf2]. pose proof (zlen_nonneg payload) as Hp. destruct frames as [|g frames].
  - cbn [retain_last]. destruct (ca_chunks f !! index) eqn:E; [split; [split; [by apply Forall_cons|done]|unfold MAX_RETRIES; lia]|].
    unfold frames_ok, frames_bytes, frames_allowance in *. cbn in *. destruct Hf1 as [F1 F2].
    assert (frame_allowance (mk_CachedFrame (ca_id f) (ca_encoded f) (ca_bytes f + zlen payload) (<[index:=(payload, 0)]> (ca_chunks f))) = MAX_RETRIES * zlen payload + frame_allowance f) as ->.
    { unfold frame_allowance. cbn. rewrite chunk_sum_insert by done. unfold allowance at 1. cbn [fst snd]. lia. }
    split; [|split; [done|unfold MAX_RETRIES; lia]]. split; [|lia]. apply Forall_cons. split; [|done]. split; cbn.
    + rewrite chunk_sum_insert by done. cbn. lia.
    + intros i p r [[<- [= <- <-]]|[_ H]]%lookup_insert_Some; [unfold MAX_RETRIES; lia|by eapply F2].
  - change (retain_last index payload (f :: g :: frames) bytes) with (let '(rest, b) := retain_last index payload (g :: frames) bytes in (f :: rest, b)).
    assert (∀ l b c, retain_last index payload l b = ((retain_last index payload l c).1, (retain_last index payload l c).2 + (b - c))) as Hshift.
    { clear. intros l. induction l as [|h l IH]; intros b c; [cbn; f_equal; lia|]. destruct l as [|h' l].
      - cbn. destruct (ca_chunks h !! index); cbn; f_equal; lia.
      - change (retain_last index payload (h :: h' :: l)) with (λ b, let '(rest, b) := retain_last index payload (h' :: l) b in (h :: rest, b)). cbv beta.
        rewrite (IH b c). destruct (retain_last index payload (h' :: l) c). done. }
    rewrite (Hshift _ bytes (frames_bytes (g :: frames))). specialize (IH (frames_bytes (g :: frames)) (conj Hf2 eq_refl)).
    destruct (retain_last index payload (g :: frames) _) as [fr b]. destruct IH as ((I1 & I1') & I2 & I3 & I4). cbn [fst snd].
    assert (bytes = ca_bytes f + frames_bytes (g :: frames)) as Hbf by exact Hb.
    split; [split; [by apply Forall_cons|]|split; [unfold zlen in *; cbn [length] in *; lia|]].
    + subst b. unfold frames_bytes at 3. cbn [fmap list_fmap]. change (zsum (ca_bytes f :: (ca_bytes <$> fr))) with (ca_bytes f + frames_bytes fr). lia.
    + rewrite !(allowance_cons f). lia.
Qed.

Lemma retry_ok id index rtt now frames bytes payload frames' : frames_ok frames bytes → retry_chunk id index rtt now frames = Some (payload, frames') →
  frames_ok frames' bytes ∧ zlen frames' = zlen frames ∧ frames_allowance frames' = frames_allowance frames - zlen payload.
Proof.
  revert frames' bytes. induction frames as [|f frames IH]; intros frames' bytes [Hf Hb]; cbn [retry_chunk]; [done|]. apply Forall_cons in Hf as [Hf1 Hf2].
  change (frames_bytes (f :: frames)) with (ca_bytes f + frames_bytes frames) in Hb. destruct (ca_id f =? id).
  - destruct (DEADLINE <=? _); [done|]. destruct (ca_chunks f !! index) as [[p r]|] eqn:E; [|done]. destruct (Z.ltb_spec r MAX_RETRIES); [|done]. intros [= <- <-].
    destruct Hf1 as [F1 F2]. split; [split; [|exact Hb]|split; [done|]].
    + apply Forall_cons. split; [|done]. split; cbn.
      * rewrite (chunk_sum_update _ _ _ _ _ E). cbn. lia.
      * intros i q r' [[<- [= <- <-]]|[_ H']]%lookup_insert_Some; [|by eapply F2]. pose proof (F2 _ _ _ E). lia.
    + unfold frames_allowance. cbn [fmap list_fmap zsum foldr]. unfold frame_allowance at 1. cbn [ca_chunks]. rewrite (chunk_sum_update _ _ _ _ _ E). unfold allowance at 2 3. cbn [fst snd].
      fold (frame_allowance f). lia.
  - destruct (retry_chunk id index rtt now frames) as [[q fr]|] eqn:E; [|done]. cbn [mbind option_bind]. intros [= <- <-].
    destruct (IH fr (frames_bytes frames) (conj Hf2 eq_refl) eq_refl) as ((I1 & I1') & I2 & I3). split; [split; [by apply Forall_cons|]|split].
    + change (frames_bytes (f :: fr)) with (ca_bytes f + frames_bytes fr). lia.
    + unfold zlen in *. cbn [length]. lia.
    + rewrite !allowance_cons. lia.
Qed.

Record recovery_ok (s : Recovery) : Prop := {
  ro_frames : frames_ok (rc_frames s) (rc_bytes s);
  ro_bytes : rc_bytes s <= MAX_BYTES;
  ro_count : zlen (rc_frames s) <= MAX_FRAMES;
  ro_pending : zlen (rc_pending s) <= MAX_NACK_INDICES;
}.

Lemma zlen_drop_le {A} k (l : list A) : zlen (drop k l) <= zlen l.
Proof. unfold zlen. rewrite length_drop. lia. Qed.

Lemma recovery_prune_ok now s : recovery_ok s → recovery_ok (prune now s) ∧ frames_allowance (rc_frames (prune now s)) <= frames_allowance (rc_frames s).
Proof.
  intros [R1 R2 R3 R4]. unfold prune. pose proof (pop_ok (expired now) _ _ R1) as Hp. destruct (pop_while _ _ _) as [fr b]. destruct Hp as (P1 & (k & ->) & P3 & P4).
  split; [|done]. split; cbn; [done|lia| |done]. pose proof (zlen_drop_le k (rc_frames s)). lia.
Qed.

(** The loop on the number of frames leaves room for one. *)
Lemma pop_count frames bytes : zlen (pop_while (λ _ frames, MAX_FRAMES <=? zlen frames) frames bytes).1 < MAX_FRAMES.
Proof.
  revert bytes. induction frames as [|f frames IH]; intros bytes; cbn [pop_while]; [done|]. destruct (Z.leb_spec MAX_FRAMES (zlen (f :: frames))); [apply IH|done].
Qed.

Lemma begin_ok frame encoded s : recovery_ok s → recovery_ok (begin_frame frame encoded s) ∧ frames_allowance (rc_frames (begin_frame frame encoded s)) <= frames_allowance (rc_frames s).
Proof.
  intros Hs. unfold begin_frame. destruct (recovery_prune_ok encoded s Hs) as [[R1 R2 R3 R4] Ha]. destruct (negb _); [by split; [split|]|].
  pose proof (remove_ok frame _ _ R1) as Hrm. destruct (remove_frame _ _ _) as [fr1 b1]. destruct Hrm as (M1 & M2 & M3 & M4).
  pose proof (pop_ok (λ _ frames, MAX_FRAMES <=? zlen frames) _ _ M1) as Hp. pose proof (pop_count fr1 b1) as Hc. destruct (pop_while _ fr1 b1) as [fr2 b2]. destruct Hp as ((P1 & P1') & _ & P3 & P4). cbn [fst] in Hc.
  split; [split; cbn|cbn].
  - split; [apply Forall_app; split; [done|]; apply Forall_singleton; by split|]. unfold frames_bytes. rewrite fmap_app, zsum_app. cbn. unfold frames_bytes in P1'. lia.
  - lia.
  - rewrite zlen_app. unfold zlen at 2. cbn. lia.
  - done.
  - unfold frames_allowance in *. rewrite fmap_app, zsum_app. cbn. change (frame_allowance (mk_CachedFrame frame encoded 0 ∅)) with 0. lia.
Qed.

Lemma recovery_retain_ok index payload s : recovery_ok s → recovery_ok (retain index payload s) ∧
  frames_allowance (rc_frames (retain index payload s)) <= frames_allowance (rc_frames s) + MAX_RETRIES * zlen payload.
Proof.
  intros Hs. pose proof (zlen_nonneg payload). unfold retain. destruct (negb _ || _); [split; [done|]; unfold MAX_RETRIES; lia|]. destruct Hs as [R1 R2 R3 R4].
  set (cond := λ bytes frames, _). pose proof (pop_ok cond _ _ R1) as Hp. destruct (pop_while _ _ _) as [fr b]. destruct Hp as (P1 & (k & ->) & P3 & P4).
  pose proof (zlen_drop_le k (rc_frames s)). destruct (Z.ltb_spec MAX_BYTES (b + zlen payload)); [split; [split; cbn [r_frames r_pending r_loss rc_frames rc_bytes rc_pending rc_enabled fst snd]; try done; lia|cbn [r_frames r_pending r_loss rc_frames rc_bytes rc_pending rc_enabled fst snd]; unfold MAX_RETRIES; lia]|].
  pose proof (retain_last_ok index payload _ _ P1) as Hr. destruct (retain_last _ _ _ _) as [fr' b']. destruct Hr as (L1 & L2 & L3 & L4).
  split; [split; cbn [r_frames r_pending r_loss rc_frames rc_bytes rc_pending rc_enabled fst snd]; try done; lia|cbn [r_frames r_pending r_loss rc_frames rc_bytes rc_pending rc_enabled fst snd]; lia].
Qed.

Lemma enqueue_loop_bound f id rtt seen missing pending : zlen pending <= MAX_NACK_INDICES → zlen (enqueue_loop f id rtt seen missing pending) <= MAX_NACK_INDICES.
Proof.
  revert seen pending. induction missing as [|i missing IH]; intros seen pending Hp; cbn [enqueue_loop]; [done|].
  destruct (Z.leb_spec MAX_NACK_INDICES (zlen pending)); [done|]. case_bool_decide; [by apply IH|]. destruct (_ && _); apply IH; [|done].
  rewrite zlen_app. unfold zlen at 2. cbn. lia.
Qed.
Lemma enqueue_ok nack now s : recovery_ok s → recovery_ok (enqueue nack now s) ∧ frames_allowance (rc_frames (enqueue nack now s)) <= frames_allowance (rc_frames s).
Proof.
  intros Hs. unfold enqueue. destruct (negb _); [by split|]. assert (recovery_ok (r_loss (fn_loss_permille nack) s)) as Hl by (by destruct Hs).
  destruct (recovery_prune_ok now _ Hl) as [Hp Ha]. cbn [r_loss rc_frames] in Ha. set (t := prune now _) in *. clearbody t. destruct (find_frame _ _); [|done]. cbv zeta. destruct (_ || _); [done|].
  split; [|done]. destruct Hp as [R1 R2 R3 R4]. split; cbn [r_frames r_pending r_loss rc_frames rc_bytes rc_pending rc_enabled fst snd]; try done. by apply enqueue_loop_bound.
Qed.

Lemma next_loop_ok now pending frames bytes : frames_ok frames bytes → let '(pending', frames', o) := next_loop now pending frames in
  frames_ok frames' bytes ∧ zlen frames' = zlen frames ∧ zlen pending' <= zlen pending ∧
  frames_allowance frames' = frames_allowance frames - default 0 (zlen <$> o).
Proof.
  intros Hf. induction pending as [|[[id index] rtt] pending IH]; cbn [next_loop]; [split; [done|]; split; [done|]; split; [done|]; cbn; lia|].
  destruct (retry_chunk id index rtt now frames) as [[payload fr]|] eqn:E.
  - destruct (retry_ok _ _ _ _ _ _ _ _ Hf E) as (H1 & H2 & H3). split; [done|]. split; [done|]. split; [unfold zlen; cbn; lia|done].
  - destruct (next_loop now pending frames) as [[p' f'] o]. destruct IH as (I1 & I2 & I3 & I4). repeat split; try done; try apply I1. unfold zlen in *. cbn. lia.
Qed.
Lemma next_ok now s : recovery_ok s → recovery_ok (next now s).1 ∧ frames_allowance (rc_frames (next now s).1) + default 0 (zlen <$> (next now s).2) <= frames_allowance (rc_frames s).
Proof.
  intros Hs. unfold next. destruct (recovery_prune_ok now s Hs) as [[R1 R2 R3 R4] Ha]. pose proof (next_loop_ok now (rc_pending (prune now s)) _ _ R1) as Hn.
  destruct (next_loop _ _ _) as [[p' f'] o]. destruct Hn as (N1 & N2 & N3 & N4). split; [split; cbn [r_frames r_pending r_loss rc_frames rc_bytes rc_pending rc_enabled fst snd]; try done; lia|cbn [r_frames r_pending r_loss rc_frames rc_bytes rc_pending rc_enabled fst snd]; lia].
Qed.

Definition op_allowance (op : RecoveryOp) : Z := match op with RRetain _ p => MAX_RETRIES * zlen p | _ => 0 end.
Lemma recovery_step_ok op s : recovery_ok s → recovery_ok (recovery_step op s).1 ∧
  frames_allowance (rc_frames (recovery_step op s).1) + default 0 (zlen <$> (recovery_step op s).2) <= frames_allowance (rc_frames s) + op_allowance op.
Proof.
  intros Hs. destruct op as [frame encoded|index payload|nack now|now|v]; cbn [recovery_step op_allowance].
  - destruct (begin_ok frame encoded s Hs). split; [done|]. cbn [fst snd fmap option_fmap option_map default] in *. lia.
  - destruct (recovery_retain_ok index payload s Hs). split; [done|]. cbn [fst snd fmap option_fmap option_map default] in *. lia.
  - destruct (enqueue_ok nack now s Hs). split; [done|]. cbn [fst snd fmap option_fmap option_map default] in *. lia.
  - destruct (next_ok now s Hs). split; [done|]. lia.
  - split; [by destruct Hs|]. cbn [fst snd fmap option_fmap option_map default set_enabled rc_frames]. lia.
Qed.

Definition total_bytes (l : list (list byte)) : Z := zsum ((λ p, zlen p) <$> l).

Lemma recovery_run_ok ops s : recovery_ok s → recovery_ok (recovery_run ops s).1 ∧
  frames_allowance (rc_frames (recovery_run ops s).1) + total_bytes (recovery_run ops s).2 <= frames_allowance (rc_frames s) + MAX_RETRIES * total_bytes (retained ops).
Proof.
  revert s. induction ops as [|op ops IH]; intros s Hs; cbn [recovery_run fst snd]; [split; [done|]; change (retained []) with ([] : list (list byte)); change (total_bytes []) with 0; lia|].
  destruct (recovery_step_ok op s Hs) as [Hs' Ha]. destruct (recovery_step op s) as [s' o]. cbn [fst snd] in *. destruct (IH s' Hs') as [I1 I2].
  destruct (recovery_run ops s') as [s'' l]. cbn [fst snd] in *. split; [done|].
  assert (total_bytes (option_list o ++ l) = default 0 (zlen <$> o) + total_bytes l) as -> by (by destruct o).
  assert (MAX_RETRIES * total_bytes (retained (op :: ops)) = op_allowance op + MAX_RETRIES * total_bytes (retained ops)) as ->; [|lia].
  destruct op; cbn [op_allowance]; try done. change (total_bytes (retained (RRetain index payload :: ops))) with (zlen payload + total_bytes (retained ops)). lia.
Qed.

(** What retransmission costs.  However many chunks are cached and however many are asked
    for, by a client that may ask for anything at any instant: the cached payload
    bytes are counted exactly and are at most 8 MiB, in at most 48 frames, at most 256 requests
    wait, no chunk is sent again more than twice, and the bytes sent again are
    at most twice the bytes cached in all. *)
Theorem retry_bounded (ops : list RecoveryOp) :
  let s := (recovery_run ops recovery_default).1 in
  rc_bytes s = zsum ((λ f, chunk_sum (λ x, zlen x.1) (ca_chunks f)) <$> rc_frames s) ∧
  0 <= rc_bytes s <= 8 * 1024 * 1024 ∧ zlen (rc_frames s) <= 48 ∧ zlen (rc_pending s) <= 256 ∧
  (∀ f i p r, f ∈ rc_frames s → ca_chunks f !! i = Some (p, r) → 0 <= r <= 2) ∧
  total_bytes (recovery_run ops recovery_default).2 <= 2 * total_bytes (retained ops).
Proof.
  intros s. destruct (recovery_run_ok ops recovery_default) as [[[R1 R1'] R2 R3 R4] Ha]; [by repeat split|]. fold s in R1, R1', R2, R3, R4, Ha.
  pose proof (frames_nonneg _ R1) as [N1 N2]. rewrite Forall_forall in R1. split.
  - rewrite R1'. unfold frames_bytes. f_equal. apply list_fmap_ext. intros k f Hk%list_elem_of_lookup_2. apply (R1 f Hk).
  - split; [unfold MAX_BYTES in R2; lia|]. split; [done|]. split; [done|]. split; [intros f i p r Hf Hi; by eapply (fo_retries _ (R1 f Hf))|].
    change (frames_allowance (rc_frames recovery_default)) with 0 in Ha. unfold MAX_RETRIES in Ha. lia.
Qed.

(** ** Only what was sent and asked for *)

(** What the sender did: the frame it is sending, the chunks of each frame since that frame
    id was last begun, when it was encoded, and the requests that came. *)
Record SentLog := mk_SentLog {
  sl_current : option Z;
  sl_log : list (Z * Z * list byte);
  sl_encoded : gmap Z Z;
  sl_asked : list (Z * Z * Z);
}.
Definition log_step (op : RecoveryOp) (l : SentLog) : SentLog :=
  match op with
  | RBegin id t => mk_SentLog (Some id) (filter (λ e, e.1.1 ≠ id) (sl_log l)) (<[id := t]> (sl_encoded l)) (sl_asked l)
  | RRetain i p =>
      match sl_current l with
      | Some id => mk_SentLog (Some id) (sl_log l ++ [(id, i, p)]) (sl_encoded l) (sl_asked l)
      | None => l
      end
  | REnqueue nack _ =>
      mk_SentLog (sl_current l) (sl_log l) (sl_encoded l) (sl_asked l ++ ((λ i, (fn_frame_id nack, i, fn_rtt_ms nack * 1000000)) <$> fn_missing nack))
  | _ => l
  end.

(** The frames agree with the log. *)
Record logged (l : SentLog) (frames : list CachedFrame) : Prop := {
  lg_ids : NoDup (ca_id <$> frames);
  lg_frame f : f ∈ frames → sl_encoded l !! ca_id f = Some (ca_encoded f);
  lg_chunk f i p r : f ∈ frames → ca_chunks f !! i = Some (p, r) → (ca_id f, i, p) ∈ sl_log l;
  lg_last f : last frames = Some f → sl_current l = Some (ca_id f);
}.
Record log_ok (l : SentLog) (s : Recovery) : Prop := {
  lo_enabled : rc_enabled s = true;
  lo_frames : logged l (rc_frames s);
  lo_pending : ∀ x, x ∈ rc_pending s → x ∈ sl_asked l;
}.

Lemma pop_drop cond frames bytes : ∃ k, (pop_while cond frames bytes).1 = drop k frames.
Proof.
  revert bytes. induction frames as [|f frames IH]; intros bytes; cbn [pop_while]; [by exists 0%nat|]. destruct (cond bytes _); [|by exists 0%nat].
  destruct (IH (bytes - ca_bytes f)) as [k Hk]. by exists (S k).
Qed.
Lemma last_drop {A} k (l : list A) x : last (drop k l) = Some x → last l = Some x.
Proof.
  intros H. rewrite <- (take_drop k l), last_app. by rewrite H.
Qed.
Lemma logged_drop l frames k : logged l frames → logged l (drop k frames).
Proof.
  intros [L1 L2 L3 L4]. assert (∀ f, f ∈ drop k frames → f ∈ frames) as Hd by (intros f Hf; eapply elem_of_submseteq; [exact Hf|]; apply sublist_submseteq, sublist_drop).
  split; [rewrite fmap_drop; by eapply sublist_NoDup; [|apply sublist_drop]|auto|eauto|]. intros f Hf. apply L4. by eapply last_drop.
Qed.

Lemma remove_spec id frames bytes : NoDup (ca_id <$> frames) → let fr := (remove_frame id frames bytes).1 in
  fr `sublist_of` frames ∧ id ∉ (ca_id <$> fr).
Proof.
  revert bytes. induction frames as [|f frames IH]; intros bytes Hn; cbn [remove_frame].
  { split; [done|]. apply not_elem_of_nil. }
  cbn in Hn. apply NoDup_cons in Hn as [Hn1 Hn2]. destruct (Z.eqb_spec (ca_id f) id) as [<-|Hne]; [split; [by apply sublist_cons|done]|].
  destruct (IH bytes Hn2) as [I1 I2]. destruct (remove_frame id frames bytes) as [fr b]. cbn [fst] in *. split; [by apply sublist_skip|].
  rewrite fmap_cons. apply not_elem_of_cons. split; [by apply not_eq_sym|done].
Qed.

Lemma logged_begin l frames id t : logged l frames → id ∉ (ca_id <$> frames) → logged (log_step (RBegin id t) l) (frames ++ [mk_CachedFrame id t 0 ∅]).
Proof.
  intros [L1 L2 L3 L4] Hid. assert (∀ f, f ∈ frames → ca_id f ≠ id) as Hne by (intros f Hf E; apply Hid, list_elem_of_fmap; eauto). split; cbn.
  - rewrite fmap_app. apply NoDup_app. split; [done|]. split; [|apply NoDup_singleton]. intros x Hx ->%list_elem_of_singleton. done.
  - intros f [Hf| ->%list_elem_of_singleton]%elem_of_app; [|by rewrite lookup_insert_eq]. rewrite lookup_insert_ne by (apply not_eq_sym; auto). auto.
  - intros f i p r [Hf| ->%list_elem_of_singleton]%elem_of_app Hi; [|done]. apply list_elem_of_filter. split; [by apply Hne|eauto].
  - intros f. rewrite last_snoc. by intros [= <-].
Qed.

(** Retaining changes the last frame or nothing. *)
Lemma retain_last_shape index payload fr b :
  (retain_last index payload fr b).1 = fr ∨ ∃ k f, fr = k ++ [f] ∧ ca_chunks f !! index = None ∧
    (retain_last index payload fr b).1 = k ++ [mk_CachedFrame (ca_id f) (ca_encoded f) (ca_bytes f + zlen payload) (<[index := (payload, 0)]> (ca_chunks f))].
Proof.
  revert b. induction fr as [|f fr IH]; intros b; [by left|]. destruct fr as [|g fr].
  - cbn [retain_last]. destruct (ca_chunks f !! index) eqn:E; [by left|]. right. by exists [], f.
  - change (retain_last index payload (f :: g :: fr) b) with (let '(rest, b) := retain_last index payload (g :: fr) b in (f :: rest, b)).
    specialize (IH b). destruct (retain_last index payload (g :: fr) b) as [rest b']. cbn [fst] in *.
    destruct IH as [->|(k & h & -> & H3 & ->)]; [by left|]. right. by exists (f :: k), h.
Qed.

Lemma retain_last_logged l id index payload frames bytes : logged l frames → sl_current l = Some id →
  logged (log_step (RRetain index payload) l) (retain_last index payload frames bytes).1.
Proof.
  intros [L1 L2 L3 L4] Hc. cbn [log_step]. rewrite Hc.
  destruct (retain_last_shape index payload frames bytes) as [->|(k & f & -> & Hn & ->)].
  { split; cbn; [done|done| |by rewrite Hc in L4]. intros g i p r Hg Hi. apply elem_of_app. left. eauto. }
  assert (ca_id f = id) as Hid by (specialize (L4 f); rewrite last_snoc in L4; specialize (L4 eq_refl); congruence). split; cbn.
  - rewrite fmap_app in *. done.
  - intros g [Hg| ->%list_elem_of_singleton]%elem_of_app; [apply L2, elem_of_app; by left|]. cbn. apply (L2 f), elem_of_app. right. by left.
  - intros g i p r [Hg| ->%list_elem_of_singleton]%elem_of_app Hi; apply elem_of_app.
    + left. eapply L3; [|done]. apply elem_of_app. by left.
    + cbn in *. apply lookup_insert_Some in Hi as [[<- [= <- <-]]|[_ Hi]]; [right; rewrite Hid; by left|left]. eapply L3; [|done]. apply elem_of_app. right. by left.
  - intros g. rewrite last_snoc. intros [= <-]. cbn. by rewrite Hid.
Qed.

(** A chunk to send again. *)
Lemma retry_spec id index rtt now frames payload frames' : retry_chunk id index rtt now frames = Some (payload, frames') →
  ∃ k f r k', frames = k ++ f :: k' ∧ ca_id f = id ∧ ca_chunks f !! index = Some (payload, r) ∧ sat_sub now (ca_encoded f) + rtt < DEADLINE ∧
    frames' = k ++ mk_CachedFrame (ca_id f) (ca_encoded f) (ca_bytes f) (<[index := (payload, r + 1)]> (ca_chunks f)) :: k'.
Proof.
  revert frames'. induction frames as [|f frames IH]; intros frames'; cbn [retry_chunk]; [done|]. destruct (Z.eqb_spec (ca_id f) id) as [E|].
  - destruct (Z.leb_spec DEADLINE (sat_sub now (ca_encoded f) + rtt)); [done|]. destruct (ca_chunks f !! index) as [[p r]|] eqn:Ei; [|done].
    destruct (r <? MAX_RETRIES); [|done]. intros [= <- <-]. by exists [], f, r, frames.
  - destruct (retry_chunk id index rtt now frames) as [[q fr]|]; [|done]. cbn [mbind option_bind]. intros [= <- <-].
    destruct (IH fr eq_refl) as (k & g & r & k' & -> & H2 & H3 & H4 & ->). by exists (f :: k), g, r, k'.
Qed.
Lemma retry_logged l id index rtt now frames payload frames' : logged l frames → retry_chunk id index rtt now frames = Some (payload, frames') →
  logged l frames' ∧ (id, index, payload) ∈ sl_log l ∧ ∃ t, sl_encoded l !! id = Some t ∧ sat_sub now t + rtt < DEADLINE.
Proof.
  intros [L1 L2 L3 L4] (k & f & r & k' & -> & Hid & Hi & Hd & ->)%retry_spec. assert (f ∈ k ++ f :: k') as Hin by (apply elem_of_app; right; by left).
  split; [|split; [rewrite <- Hid; eauto|exists (ca_encoded f); split; [rewrite <- Hid; auto|done]]].
  set (f' := mk_CachedFrame _ _ _ _). assert (∀ g, g ∈ k ++ f' :: k' → g = f' ∨ g ∈ k ++ f :: k') as Hg.
  { intros g [Hg|[->|Hg]%elem_of_cons]%elem_of_app; [right|by left|right]; apply elem_of_app; [by left|right; by right]. }
  split.
  - rewrite fmap_app, fmap_cons in *. done.
  - intros g [->|Hg']%Hg; [by apply (L2 f)|auto].
  - intros g i p r' [->|Hg']%Hg Hc; [|eauto]. cbn in *. apply lookup_insert_Some in Hc as [[<- [= <- <-]]|[_ Hc]]; eauto.
  - intros g. rewrite last_app in *. destruct k' as [|x k']; [cbn; intros [= <-]; by apply (L4 f)|]. change (last (f' :: x :: k')) with (last (x :: k')). exact (L4 g).
Qed.

Lemma prune_logged l now s : log_ok l s → log_ok l (prune now s).
Proof.
  intros [O1 O2 O3]. unfold prune. destruct (pop_drop (expired now) (rc_frames s) (rc_bytes s)) as [k Hk]. destruct (pop_while _ _ _) as [fr b]. cbn in Hk. subst fr.
  split; cbn; [done|by apply logged_drop|done].
Qed.

Lemma begin_logged l id t s : log_ok l s → log_ok (log_step (RBegin id t) l) (begin_frame id t s).
Proof.
  intros Hl%(prune_logged _ t). unfold begin_frame. set (u := prune t s) in *. clearbody u. destruct Hl as [O1 O2 O3]. rewrite O1. cbn [negb].
  destruct (remove_spec id (rc_frames u) (rc_bytes u) (lg_ids _ _ O2)) as [R1 R2]. destruct (remove_frame id (rc_frames u) (rc_bytes u)) as [fr b]. cbn [fst] in *.
  destruct (pop_drop (λ _ frames, MAX_FRAMES <=? zlen frames) fr b) as [k Hk]. destruct (pop_while _ fr b) as [fr2 b2]. cbn [fst] in Hk. subst fr2.
  assert (drop k fr `sublist_of` rc_frames u) as Hsub by (etransitivity; [apply sublist_drop|done]).
  split; cbn [r_frames rc_enabled rc_frames rc_pending]; [done| |done].
  assert (∀ f, f ∈ drop k fr → f ∈ rc_frames u) as Hd by (intros f Hf; eapply elem_of_submseteq; [exact Hf|by apply sublist_submseteq]).
  assert (id ∉ (ca_id <$> drop k fr)) as Hid. { intros H. apply R2. rewrite fmap_drop in H. eapply elem_of_submseteq; [exact H|apply sublist_submseteq, sublist_drop]. }
  (** the last frame may have been removed: the log's current frame is the new one *)
  destruct O2 as [L1 L2 L3 L4]. assert (logged (mk_SentLog (ca_id <$> last (drop k fr)) (sl_log l) (sl_encoded l) (sl_asked l)) (drop k fr)) as Hlg.
  { split; cbn; [by eapply sublist_NoDup; [|apply fmap_sublist]|auto|eauto|]. intros f Hf. by rewrite Hf. }
  by destruct (logged_begin _ _ id t Hlg Hid).
Qed.

Lemma retain_logged l i p s : log_ok l s → log_ok (log_step (RRetain i p) l) (retain i p s).
Proof.
  intros Hl. assert (log_ok (log_step (RRetain i p) l) s) as Hsame.
  { destruct Hl as [O1 [L1 L2 L3 L4] O3]. cbn [log_step]. destruct (sl_current l) as [id|] eqn:E; [|by split; [|split; rewrite ?E|]].
    split; [done| |done]. split; cbn; [done|done| |by auto]. intros f j q r Hf Hj. apply elem_of_app. left. eauto. }
  unfold retain. destruct (negb _ || _); [done|]. set (cond := λ bytes frames, _). destruct (pop_drop cond (rc_frames s) (rc_bytes s)) as [k Hk].
  destruct (pop_while cond (rc_frames s) (rc_bytes s)) as [fr b]. cbn [fst] in Hk. subst fr.
  destruct (MAX_BYTES <? _); [destruct Hsame as [O1 O2 O3]; split; cbn [r_frames rc_enabled rc_frames rc_pending]; [done|by apply logged_drop|done]|].
  destruct Hl as [O1 O2 O3]. pose proof (logged_drop _ _ k O2) as O2'. destruct (sl_current l) as [id|] eqn:E.
  - pose proof (retain_last_logged l id i p _ b O2' E) as Hr. destruct (retain_last i p (drop k (rc_frames s)) b) as [fr' b']. cbn [fst] in Hr.
    split; cbn [r_frames rc_enabled rc_frames rc_pending]; [done|done|]. cbn [log_step]. rewrite E. exact O3.
  - destruct (drop k (rc_frames s)) as [|f fr] eqn:Ed; [|exfalso].
    + cbn [retain_last]. split; cbn [r_frames rc_enabled rc_frames rc_pending log_step]; rewrite ?E; [done|done|done].
    + destruct (last (f :: fr)) as [g|] eqn:Eg; [pose proof (lg_last _ _ O2' g Eg); congruence|]. by apply last_None in Eg.
Qed.

Lemma enqueue_loop_asked f id rtt seen missing pending x : x ∈ enqueue_loop f id rtt seen missing pending → x ∈ pending ∨ x ∈ ((λ i, (id, i, rtt)) <$> missing).
Proof.
  revert seen pending. induction missing as [|i missing IH]; intros seen pending; cbn [enqueue_loop]; [by left|].
  destruct (_ <=? _); [by left|]. rewrite fmap_cons, elem_of_cons. case_bool_decide; [intros H'%IH; tauto|]. destruct (_ && _); intros H'%IH; [|tauto].
  rewrite elem_of_app, list_elem_of_singleton in H'. tauto.
Qed.
Lemma enqueue_logged l nack now s : log_ok l s → log_ok (log_step (REnqueue nack now) l) (enqueue nack now s).
Proof.
  intros Hl. unfold enqueue. rewrite (lo_enabled _ _ Hl). cbn [negb].
  assert (log_ok l (prune now (r_loss (fn_loss_permille nack) s))) as [O1 O2 O3] by (apply prune_logged; by destruct Hl).
  set (u := prune now _) in *. clearbody u. assert (log_ok (log_step (REnqueue nack now) l) u) as Hsame.
  { split; [done|by destruct O2|]. cbn. intros x Hx. apply elem_of_app. left. auto. }
  destruct (find_frame _ _) as [f|]; [|done]. cbv zeta. destruct (_ || _); [done|]. split; cbn [r_pending rc_enabled rc_frames rc_pending log_step sl_asked]; [done|by destruct O2|].
  intros x [Hx|Hx]%enqueue_loop_asked; apply elem_of_app; auto.
Qed.

Definition answers (l : SentLog) (now : Z) (payload : list byte) : Prop :=
  ∃ id i rtt t, (id, i, rtt) ∈ sl_asked l ∧ (id, i, payload) ∈ sl_log l ∧ sl_encoded l !! id = Some t ∧ sat_sub now t + rtt < DEADLINE.

Lemma next_loop_logged l now pending frames : logged l frames → (∀ x, x ∈ pending → x ∈ sl_asked l) →
  let '(pending', frames', o) := next_loop now pending frames in
  logged l frames' ∧ (∀ x, x ∈ pending' → x ∈ pending) ∧ ∀ p, o = Some p → answers l now p.
Proof.
  intros Hl. induction pending as [|[[id i] rtt] pending IH]; intros Hp; cbn [next_loop]; [done|].
  destruct (retry_chunk id i rtt now frames) as [[payload fr]|] eqn:E.
  - destruct (retry_logged _ _ _ _ _ _ _ _ Hl E) as (H1 & H2 & t & H3 & H4). split; [done|]. split; [intros x Hx; by right|].
    intros p [= <-]. exists id, i, rtt, t. split; [apply Hp; by left|done].
  - destruct (next_loop now pending frames) as [[p' f'] o]. destruct IH as (I1 & I2 & I3); [intros x Hx; apply Hp; by right|].
    split; [done|]. split; [intros x Hx; right; auto|done].
Qed.
Lemma next_logged l now s : log_ok l s → log_ok l (next now s).1 ∧ ∀ p, (next now s).2 = Some p → answers l now p.
Proof.
  intros Hl%(prune_logged _ now). unfold next. set (u := prune now s) in *. clearbody u. destruct Hl as [O1 O2 O3].
  pose proof (next_loop_logged l now (rc_pending u) (rc_frames u) O2 O3) as Hn. destruct (next_loop _ _ _) as [[p' f'] o]. destruct Hn as (N1 & N2 & N3).
  split; [split; cbn; [done|done|auto]|done].
Qed.

Definition no_switch (op : RecoveryOp) : Prop := match op with REnable _ => False | _ => True end.
Definition log_of (ops : list RecoveryOp) : SentLog := foldl (λ l op, log_step op l) (mk_SentLog None [] ∅ []) ops.

Lemma recovery_run_logged ops l s : log_ok l s → Forall no_switch ops → log_ok (foldl (λ l op, log_step op l) l ops) (recovery_run ops s).1.
Proof.
  revert l s. induction ops as [|op ops IH]; intros l s Hl Ho; cbn [recovery_run foldl]; [done|]. apply Forall_cons in Ho as [Ho1 Ho2].
  assert (log_ok (log_step op l) (recovery_step op s).1) as Hl'.
  { destruct op; cbn [recovery_step fst]; [by apply begin_logged|by apply retain_logged|by apply enqueue_logged|by apply next_logged|done]. }
  destruct (recovery_step op s) as [s' o]. specialize (IH _ s' Hl' Ho2). by destruct (recovery_run ops s').
Qed.

(** What is sent again.  After any sequence of frames begun, chunks cached, requests and
    retransmissions, a payload that is sent again is one the client asked for by frame and
    index, it is the payload the host cached for that frame and index since it last began a
    frame with that id (an id that wrapped around never brings back an old payload), and at that
    instant the time since the frame was encoded and the round trip the client reported
    are together under 100 ms. *)
Theorem retry_authentic (ops : list RecoveryOp) (now : Z) (payload : list byte) :
  Forall no_switch ops →
  (next now (recovery_run ops (set_enabled true recovery_default)).1).2 = Some payload →
  answers (log_of ops) now payload.
Proof.
  intros Ho. apply next_logged, recovery_run_logged; [|done]. split; [done| |by intros x Hx%not_elem_of_nil]. split; cbn; [apply NoDup_nil_2| | |done].
  - by intros f Hf%not_elem_of_nil.
  - by intros f i p r Hf%not_elem_of_nil.
Qed.
Definition demo_retries : list RecoveryOp :=
  [RBegin 7 0; RRetain 0 [x01; x02]; RRetain 1 [x03]; RBegin 8 16000000; RRetain 0 [x04]; REnqueue (mk_FrameNack 7 80 10 [1; 1; 5]) 20000000].
Lemma retry_authentic_witness :
  (next 30000000 (recovery_run demo_retries (set_enabled true recovery_default)).1).2 = Some [x03] ∧ answers (log_of demo_retries) 30000000 [x03].
Proof.
  assert ((next 30000000 (recovery_run demo_retries (set_enabled true recovery_default)).1).2 = Some [x03]) as H by (vm_compute; reflexivity).
  split; [exact H|]. apply retry_authentic; [|exact H]. by repeat constructor.
Defined.

(** ** What is cached *)

Section cached.
Context (P : list byte → Prop).

Definition cached (frames : list CachedFrame) : Prop := ∀ f i p r, f ∈ frames → ca_chunks f !! i = Some (p, r) → P p.

Lemma cached_sub frames frames' : (∀ f, f ∈ frames' → f ∈ frames) → cached frames → cached frames'.
Proof. intros Hs Hc f i p r Hf. apply Hc. auto. Qed.
Lemma cached_drop k frames : cached frames → cached (drop k frames).
Proof. apply cached_sub. intros f Hf. eapply elem_of_submseteq; [exact Hf|]. apply sublist_submseteq, sublist_drop. Qed.
Lemma cached_prune now s : cached (rc_frames s) → cached (rc_frames (prune now s)).
Proof.
  intros Hc. unfold prune. destruct (pop_drop (expired now) (rc_frames s) (rc_bytes s)) as [k Hk]. destruct (pop_while _ _ _) as [fr b]. cbn in Hk. subst fr. by apply cached_drop.
Qed.
Lemma remove_sub id frames bytes f : f ∈ (remove_frame id frames bytes).1 → f ∈ frames.
Proof.
  revert bytes. induction frames as [|g frames IH]; intros bytes; cbn [remove_frame]; [done|]. destruct (ca_id g =? id); [by right|].
  specialize (IH bytes). destruct (remove_frame id frames bytes) as [fr b]. cbn [fst] in *. rewrite !elem_of_cons. tauto.
Qed.
Lemma cached_begin id t s : cached (rc_frames s) → cached (rc_frames (begin_frame id t s)).
Proof.
  intros Hc%(cached_prune t). unfold begin_frame. set (u := prune t s) in *. clearbody u. destruct (negb _); [done|].
  pose proof (remove_sub id (rc_frames u) (rc_bytes u)) as Hr. destruct (remove_frame id (rc_frames u) (rc_bytes u)) as [fr b]. cbn [fst] in Hr.
  destruct (pop_drop (λ _ frames, MAX_FRAMES <=? zlen frames) fr b) as [k Hk]. destruct (pop_while _ fr b) as [fr2 b2]. cbn [fst] in Hk. subst fr2.
  intros f i p r [Hf| ->%list_elem_of_singleton]%elem_of_app Hi; [|done]. by eapply (cached_drop k fr (cached_sub _ _ Hr Hc)).
Qed.
Lemma cached_retain i payload s : P payload → cached (rc_frames s) → cached (rc_frames (retain i payload s)).
Proof.
  intros Hp Hc. unfold retain. destruct (negb _ || _); [done|]. set (cond := λ bytes frames, _). destruct (pop_drop cond (rc_frames s) (rc_bytes s)) as [k Hk].
  destruct (pop_while cond (rc_frames s) (rc_bytes s)) as [fr b]. cbn [fst] in Hk. subst fr. apply (cached_drop k) in Hc. destruct (MAX_BYTES <? _); [done|].
  pose proof (retain_last_shape i payload (drop k (rc_frames s)) b) as Hs. destruct (retain_last _ _ _ _) as [fr' b']. cbn [fst r_frames rc_frames] in *.
  destruct Hs as [->|(l & f & Hd & Hn & ->)]; [done|]. rewrite Hd in Hc. intros g j p r [Hg| ->%list_elem_of_singleton]%elem_of_app Hj.
  - eapply Hc; [|done]. apply elem_of_app. by left.
  - cbn in Hj. apply lookup_insert_Some in Hj as [[<- [= <- <-]]|[_ Hj]]; [done|]. eapply Hc; [|done]. apply elem_of_app. right. by left.
Qed.
Lemma cached_enqueue nack now s : cached (rc_frames s) → cached (rc_frames (enqueue nack now s)).
Proof.
  intros Hc. unfold enqueue. destruct (negb _); [done|]. apply (cached_prune now (r_loss (fn_loss_permille nack) s)) in Hc. set (u := prune now _) in *. clearbody u.
  destruct (find_frame _ _); [|done]. cbv zeta. by destruct (_ || _).
Qed.
Lemma cached_next now s : cached (rc_frames s) → cached (rc_frames (next now s).1) ∧ ∀ p, (next now s).2 = Some p → P p.
Proof.
  intros Hc%(cached_prune now). unfold next. set (u := prune now s) in *. clearbody u.
  assert (∀ pending, let '(_, frames', o) := next_loop now pending (rc_frames u) in cached frames' ∧ ∀ p, o = Some p → P p) as Hl.
  { induction pending as [|[[id i] rtt] pending IH]; cbn [next_loop]; [done|]. destruct (retry_chunk id i rtt now (rc_frames u)) as [[payload fr]|] eqn:E; [|done].
    apply retry_spec in E as (k & f & r & k' & Hk & _ & Hi & _ & ->). rewrite Hk in Hc. split.
    - intros g j p r' Hg Hj. apply elem_of_app in Hg as [Hg|[->|Hg]%elem_of_cons].
      + eapply Hc; [|done]. apply elem_of_app. by left.
      + cbn in Hj. apply lookup_insert_Some in Hj as [[<- [= <- <-]]|[_ Hj]]; (eapply Hc; [|done]; apply elem_of_app; right; by left).
      + eapply Hc; [|done]. apply elem_of_app. right. by right.
    - intros p [= <-]. eapply Hc; [|done]. apply elem_of_app. right. by left. }
  specialize (Hl (rc_pending u)). by destruct (next_loop now (rc_pending u) (rc_frames u)) as [[p' f'] o].
Qed.
End cached.
