(* ===== verification/RdSender.v ===== *)
(** * RdSender (crates/ferryx-rd/ferryx-rd-host/src: session.rs, idr.rs)

    The host's video sender: it cuts an encoded frame into a header, chunks and parities,
    sends them in bursts, keeps the chunks for retransmission, and decides which frames of the
    encoder are sent at all.  A packet is the header and the payload handed to the cipher;
    sealing it is RdUdp.  What the operating system and the clocks decide is in [Env]; a packet
    that could not be sealed or sent counts as one that was lost on the way.  Audio,
    cursor, trace and the pacing between bursts (on [f64]) are left out. *)

From S2P Require Import Prelude Wire RdCodec RdPacket RdMedia RdFec RdRecovery.
From Stdlib Require Import ZArith Lia Strings.Byte.
From stdpp Require Import base option gmap strings list_numbers list.

#[local] Open Scope Z_scope.

Definition UDP_PAYLOAD_BUDGET : Z := 1200.
(** [PacketHeader::SIZE + NONCE_SIZE + TAG_SIZE] *)
Definition ENCRYPTED_DATAGRAM_OVERHEAD : Z := 12 + 12 + 16.
Definition MAX_SENDER_PLAINTEXT_PAYLOAD : Z := UDP_PAYLOAD_BUDGET - ENCRYPTED_DATAGRAM_OVERHEAD.
(** [FrameChunk::HEADER_SIZE], [FrameParity::HEADER_SIZE] *)
Definition CHUNK_HEADER_SIZE : Z := 6.
Definition PARITY_HEADER_SIZE : Z := 10.
Definition SENDER_MAX_VIDEO_CHUNK_BYTES : Z := MAX_SENDER_PLAINTEXT_PAYLOAD - CHUNK_HEADER_SIZE.
Definition VIDEO_SEND_DEADLINE : Z := 100 * 1000000.
Definition IDR_INTERVAL : Z := 500 * 1000000.
Definition IDR_RETRY_INTERVAL : Z := IDR_INTERVAL.

Record VideoFrame := mk_VideoFrame {
  vf_data : list byte;
  vf_is_key_frame : bool;
  vf_encode_completed_at : Z;
}.
Definition video_expired (f : VideoFrame) (now : Z) : bool := negb (vf_is_key_frame f) && (vf_encode_completed_at f + VIDEO_SEND_DEADLINE <=? now).

Record PendingVideo := mk_PendingVideo {
  pv_frame : VideoFrame;
  pv_index : Z;
  pv_chunk_size : Z;
  pv_parity : list FrameParity;
  pv_frame_id : Z;
}.
Record UdpSender := mk_UdpSender {
  us_recovery : Recovery;
  us_pending : option PendingVideo;
  us_incremental : bool;
  us_needs_keyframe : bool;
  us_last_idr_request : option Z;
  us_send_capacity : Z;
  us_sequence : Z;
  us_frame_id : Z;
}.
Definition u_recovery (v : Recovery) (s : UdpSender) : UdpSender :=
  mk_UdpSender v (us_pending s) (us_incremental s) (us_needs_keyframe s) (us_last_idr_request s) (us_send_capacity s) (us_sequence s) (us_frame_id s).
Definition u_pending (v : option PendingVideo) (s : UdpSender) : UdpSender :=
  mk_UdpSender (us_recovery s) v (us_incremental s) (us_needs_keyframe s) (us_last_idr_request s) (us_send_capacity s) (us_sequence s) (us_frame_id s).
Definition u_needs (v : bool) (s : UdpSender) : UdpSender :=
  mk_UdpSender (us_recovery s) (us_pending s) (us_incremental s) v (us_last_idr_request s) (us_send_capacity s) (us_sequence s) (us_frame_id s).
Definition u_last_idr (v : option Z) (s : UdpSender) : UdpSender :=
  mk_UdpSender (us_recovery s) (us_pending s) (us_incremental s) (us_needs_keyframe s) v (us_send_capacity s) (us_sequence s) (us_frame_id s).
Definition u_sequence (v : Z) (s : UdpSender) : UdpSender :=
  mk_UdpSender (us_recovery s) (us_pending s) (us_incremental s) (us_needs_keyframe s) (us_last_idr_request s) (us_send_capacity s) v (us_frame_id s).
Definition u_frame_id (v : Z) (s : UdpSender) : UdpSender :=
  mk_UdpSender (us_recovery s) (us_pending s) (us_incremental s) (us_needs_keyframe s) (us_last_idr_request s) (us_send_capacity s) (us_sequence s) v.
(** [UdpSender::default], as the session then sets it up. *)
Definition sender_new (recovery_enabled incremental : bool) (send_capacity : Z) : UdpSender :=
  mk_UdpSender (set_enabled recovery_enabled recovery_default) None incremental false None send_capacity 0 0.

(** What the system decides: the instants of successive bursts, the wall clock and the
    fate of the packet with a sequence number, whether chunks go out in one batch (Linux,
    no trace) and the fate of the batch, the statistics packets of a frame, and the number of
    parities that redundancy asks for. *)
Record Env := mk_Env {
  en_now : nat → Z;
  en_ms : Z → Z;
  en_sent : Z → bool;
  en_batches : bool;
  en_batch_sent : Z → bool;
  en_stats : list byte;
  en_echo : option (list byte);
  en_wanted : Z → nat;
}.

Definition Packet : Type := PacketHeader * list byte.
Inductive SendError : Type := TimedOut | IoError | WouldBlock | StoreError | EncodeError (e : CodecError).

Definition send_packet (env : Env) (ty : PacketType) (payload : list byte) (s : UdpSender) : UdpSender * Packet * bool :=
  let seq := (us_sequence s + 1) mod 2 ^ 32 in
  (u_sequence seq s, (mk_PacketHeader ty seq (en_ms env seq mod 2 ^ 32) 0, payload), en_sent env seq).

Definition burst_packets (s : UdpSender) : Z := Z.min (Z.max (us_send_capacity s / (UDP_PAYLOAD_BUDGET * 4)) 2) 8.
Definition div_ceil (a b : Z) : Z := (a + b - 1) / b.

(** [&data[index * chunk_size .. min((index + 1) * chunk_size, len)]] *)
Definition chunk_bytes (data : list byte) (chunk_size index : Z) : list byte :=
  take (Z.to_nat chunk_size) (drop (Z.to_nat (index * chunk_size)) data).
Definition chunk_payload (p : PendingVideo) (index : Z) : list byte :=
  to_le 4 (pv_frame_id p) ++ to_le 2 (index mod 2 ^ 16) ++ chunk_bytes (vf_data (pv_frame p)) (pv_chunk_size p) index.

(** The loop over the chunks of a burst; false if a packet could not be sent. *)
Fixpoint send_chunks (env : Env) (batching : bool) (p : PendingVideo) (indices : list Z) (s : UdpSender) : UdpSender * list Packet * bool :=
  match indices with
  | [] => (s, [], true)
  | index :: rest =>
      let payload := chunk_payload p index in
      let '(s, packet, sent) := send_packet env PtFrameChunk payload s in
      let s := u_recovery (retain (index mod 2 ^ 16) payload (us_recovery s)) s in
      if batching || sent then
        let '(s, packets, ok) := send_chunks env batching p rest s in (s, packet :: packets, ok)
      else (s, [packet], false)
  end.
(** The loop over the parities of a burst, and those that are left. *)
Fixpoint send_parities (env : Env) (n : nat) (parity : list FrameParity) (s : UdpSender) :
    UdpSender * list Packet * Result (list FrameParity) SendError :=
  match n, parity with
  | O, _ | _, [] => (s, [], Ok parity)
  | S n, q :: rest =>
      match FrameParity_encode q with
      | Err e => (s, [], Err (EncodeError e))
      | Ok bytes =>
          let '(s, packet, sent) := send_packet env PtFrameParity bytes s in
          if sent then let '(s, packets, r) := send_parities env n rest s in (s, packet :: packets, r)
          else (s, [packet], Err IoError)
      end
  end.

(** The statistics packets, and the end of a key frame. *)
Definition finish_frame (env : Env) (p : PendingVideo) (s : UdpSender) : UdpSender * list Packet * Result unit SendError :=
  let '(s, packets, ok) := match en_echo env with
    | Some echo => let '(s, packet, sent) := send_packet env PtPing echo s in (s, [packet], sent)
    | None => (s, [], true)
    end in
  if negb ok then (s, packets, Err IoError) else
  let '(s, packet, sent) := send_packet env PtPing (en_stats env) s in
  if negb sent then (s, packets ++ [packet], Err IoError) else
  let s := if vf_is_key_frame (pv_frame p) then u_last_idr None (u_needs false s) else s in
  (s, packets ++ [packet], Ok tt).

Definition send_video_burst (env : Env) (k : nat) (s : UdpSender) : UdpSender * list Packet * Result unit SendError :=
  match us_pending s with
  | None => (s, [], Ok tt)
  | Some p =>
      let s := u_pending None s in
      if video_expired (pv_frame p) (en_now env k) then (s, [], Err TimedOut) else
      let chunks := div_ceil (zlen (vf_data (pv_frame p))) (pv_chunk_size p) in
      let end_ := Z.min (pv_index p + burst_packets s) chunks in
      let batching := en_batches env && (2 <? end_ - pv_index p) in
      let '(s, packets, ok) := send_chunks env batching p (seqZ (pv_index p) (end_ - pv_index p)) s in
      if negb ok then (s, packets, Err IoError) else
      if batching && negb (en_batch_sent env (us_sequence s)) then (s, packets, Err WouldBlock) else
      let p := mk_PendingVideo (pv_frame p) end_ (pv_chunk_size p) (pv_parity p) (pv_frame_id p) in
      if end_ <? chunks then (u_pending (Some p) s, packets, Ok tt) else
      match pv_parity p with
      | [] => let '(s, more, r) := finish_frame env p s in (s, packets ++ more, r)
      | _ =>
          match send_parities env (Z.to_nat (burst_packets s)) (pv_parity p) s with
          | (s, more, Err e) => (s, packets ++ more, Err e)
          | (s, more, Ok rest) =>
              (u_pending (Some (mk_PendingVideo (pv_frame p) end_ (pv_chunk_size p) rest (pv_frame_id p))) s, packets ++ more, Ok tt)
          end
      end
  end.

(** [while !self.incremental && self.pending.is_some()]: burst [k] and those after it. *)
Fixpoint drain (env : Env) (fuel k : nat) (s : UdpSender) : UdpSender * list Packet * Result unit SendError :=
  if us_incremental s || negb (bool_decide (is_Some (us_pending s))) then (s, [], Ok tt) else
  match fuel with
  | O => (s, [], Ok tt)
  | S fuel =>
      match send_video_burst env k s with
      | (s, packets, Err e) => (s, packets, Err e)
      | (s, packets, Ok _) => let '(s, more, r) := drain env fuel (S k) s in (s, packets ++ more, r)
      end
  end.

(** [parity_count_for]: [wanted] is the floor of [chunks * redundancy]. *)
Definition parity_count_for (chunks : Z) (wanted : nat) : Z :=
  if chunks =? 0 then 0 else Z.min (Z.of_nat wanted) (Z.min chunks MAX_CHUNKS_PER_FRAME).

(** [data.chunks(chunk_size)] *)
Definition frame_chunks (data : list byte) (chunk_size : Z) : list (list byte) :=
  chunk_bytes data chunk_size <$> seqZ 0 (div_ceil (zlen data) chunk_size).

Definition frame_header (frame_id width height : Z) (frame : VideoFrame) (chunk_count : Z) : FrameHeader :=
  mk_FrameHeader frame_id (Z.min width u16_max) (Z.min height u16_max) (vf_is_key_frame frame) chunk_count (zlen (vf_data frame)).

Definition sender_chunk_size (s : UdpSender) : Z :=
  if rc_enabled (us_recovery s) then MAX_SENDER_PLAINTEXT_PAYLOAD - PARITY_HEADER_SIZE else SENDER_MAX_VIDEO_CHUNK_BYTES.

(** The fuel covers every burst of the frame ([drain_done]). *)
Definition drain_fuel (chunk_count parity_count : Z) : nat := Z.to_nat (chunk_count + parity_count + 1).

Definition send_frame (env : Env) (now width height : Z) (frame : VideoFrame) (s : UdpSender) : UdpSender * list Packet * Result unit SendError :=
  if video_expired frame now then (s, [], Err TimedOut) else
  let chunk_size := sender_chunk_size s in
  let chunk_count := div_ceil (zlen (vf_data frame)) chunk_size in
  let frame_id := (us_frame_id s + 1) mod 2 ^ 32 in
  if (u16_max <? chunk_count) || (u32_max <? zlen (vf_data frame)) then (s, [], Err StoreError) else
  let header := frame_header frame_id width height frame chunk_count in
  match FrameHeader_encode header with
  | Err e => (s, [], Err (EncodeError e))
  | Ok encoded_header =>
      let s := u_frame_id frame_id s in
      let '(s, packet, sent) := send_packet env PtFrameHeader encoded_header s in
      if negb sent then (s, [packet], Err IoError) else
      let parity := if rc_enabled (us_recovery s)
        then build_parity frame_id (frame_chunks (vf_data frame) chunk_size) (parity_count_for chunk_count (en_wanted env chunk_count))
        else [] in
      let s := u_recovery (begin_frame frame_id (vf_encode_completed_at frame) (us_recovery s)) s in
      let s := u_pending (Some (mk_PendingVideo frame 0 chunk_size parity frame_id)) s in
      match send_video_burst env 0 s with
      | (s, packets, Err e) => (s, packet :: packets, Err e)
      | (s, packets, Ok _) =>
          let '(s, more, r) := drain env (drain_fuel chunk_count (zlen parity)) 1 s in (s, packet :: packets ++ more, r)
      end
  end.

(** Up to a burst of retransmissions; the pacing between bursts is the caller's. *)
Fixpoint send_retransmits (env : Env) (now : Z) (n : nat) (s : UdpSender) : UdpSender * list Packet * Result unit SendError :=
  match n with
  | O => (s, [], Ok tt)
  | S n =>
      match next now (us_recovery s) with
      | (r, None) => (u_recovery r s, [], Ok tt)
      | (r, Some payload) =>
          let '(s, packet, sent) := send_packet env PtFrameChunk payload (u_recovery r s) in
          if sent then let '(s, packets, r) := send_retransmits env now n s in (s, packet :: packets, r) else (s, [packet], Err IoError)
      end
  end.
Definition send_retransmit_burst (env : Env) (now : Z) (s : UdpSender) : UdpSender * list Packet * Result unit SendError :=
  send_retransmits env now (Z.to_nat (burst_packets s)) s.

(** [ForcedIdrLimiter::request]; [force] is what the encoder would answer. *)
Definition idr_request (now : Z) (force : Result bool unit) (last : option Z) : option Z * Result bool unit :=
  if match last with Some l => sat_sub now l <? IDR_INTERVAL | None => false end then (last, Ok false) else
  match force with
  | Ok true => (Some now, Ok true)
  | Ok false => (last, Ok false)
  | Err e => (last, Err e)
  end.

(** The second component says whether the limiter is asked. *)
Definition request_recovery (now : Z) (s : UdpSender) : UdpSender * bool :=
  if us_needs_keyframe s &&
     (match us_last_idr_request s with Some last => IDR_RETRY_INTERVAL <=? sat_sub now last | None => true end) &&
     negb (match us_pending s with Some p => vf_is_key_frame (pv_frame p) | None => false end)
  then (u_last_idr (Some now) s, true) else (s, false).
Definition invalidate_reference (now : Z) (s : UdpSender) : UdpSender :=
  (request_recovery now (u_needs true (u_pending None s))).1.

(** ** The media loop *)

Record MediaLoop := mk_MediaLoop { ml_sender : UdpSender; ml_queued_video : list VideoFrame }.

(** The burst of a pending frame that is due. *)
Definition burst_turn (env : Env) (now : Z) (m : MediaLoop) : MediaLoop * list Packet :=
  match send_video_burst env 0 (ml_sender m) with
  | (s, packets, Ok _) => (mk_MediaLoop s (ml_queued_video m), packets)
  | (s, packets, Err _) => (mk_MediaLoop (invalidate_reference now s) [], packets)
  end.
(** From the check of the deadline on: a frame with nothing pending. *)
Definition admit_video (env : Env) (now width height : Z) (frame : VideoFrame) (m : MediaLoop) : MediaLoop * list Packet :=
  let s := ml_sender m in
  if video_expired frame now then (mk_MediaLoop (invalidate_reference now s) (ml_queued_video m), []) else
  if us_needs_keyframe s && negb (vf_is_key_frame frame) then (m, []) else
  match send_frame env now width height frame s with
  | (s, packets, Ok _) => (mk_MediaLoop s (ml_queued_video m), packets)
  | (s, packets, Err _) => (mk_MediaLoop (invalidate_reference now s) (ml_queued_video m), packets)
  end.
(** A frame of the encoder. *)
Definition video_event (env : Env) (now width height : Z) (frame : VideoFrame) (m : MediaLoop) : MediaLoop * list Packet :=
  match us_pending (ml_sender m) with
  | Some _ =>
      if zlen (ml_queued_video m) =? 16
      then admit_video env now width height frame (mk_MediaLoop (invalidate_reference now (ml_sender m)) [])
      else (mk_MediaLoop (ml_sender m) (ml_queued_video m ++ [frame]), [])
  | None => admit_video env now width height frame m
  end.
(** The next event: a queued frame if nothing is pending, else what the encoder delivers. *)
Inductive LoopEvent : Type :=
| LpBurst (env : Env) (now : Z)
| LpVideo (env : Env) (now width height : Z) (frame : VideoFrame)
| LpQueued (env : Env) (now width height : Z)
| LpRetransmit (env : Env) (now : Z)
| LpNack (nack : FrameNack) (now : Z)
| LpRecovery (now : Z)
| LpRestart.
Definition loop_turn (e : LoopEvent) (m : MediaLoop) : MediaLoop * list Packet :=
  match e with
  | LpBurst env now => burst_turn env now m
  | LpVideo env now width height frame =>
      match us_pending (ml_sender m), ml_queued_video m with
      | None, _ :: _ => (m, [])
      | _, _ => video_event env now width height frame m
      end
  | LpQueued env now width height =>
      match us_pending (ml_sender m), ml_queued_video m with
      | None, frame :: rest => video_event env now width height frame (mk_MediaLoop (ml_sender m) rest)
      | _, _ => (m, [])
      end
  | LpRetransmit env now =>
      match send_retransmit_burst env now (ml_sender m) with (s, packets, _) => (mk_MediaLoop s (ml_queued_video m), packets) end
  | LpNack nack now => (mk_MediaLoop (u_recovery (enqueue nack now (us_recovery (ml_sender m))) (ml_sender m)) (ml_queued_video m), [])
  | LpRecovery now => (mk_MediaLoop (request_recovery now (ml_sender m)).1 (ml_queued_video m), [])
  | LpRestart => (mk_MediaLoop (u_needs true (u_pending None (ml_sender m))) [], [])
  end.
