(* ===== verification/RdVideo.v ===== *)
(** * RdVideo: from the encoder to the decoder

    The host's sender (RdSender) composed with the client's assembler (RdAssembly) over a network
    that loses, repeats and reorders packets: the frames the client delivers are frames
    of the encoder.  With the client's handling of video packets
    (crates/ferryx-rd/ferryx-rd-app/src/session.rs), and what the sender itself promises: it
    sends a frame completely, and it never sends a dependent frame after a gap. *)

From S2P Require Import Prelude Wire RdCodec RdPacket RdMedia RdFec RdRecovery RdSender RdAssembly RdAssemblySpec.
From Stdlib Require Import ZArith Lia Strings.Byte.
From stdpp Require Import base option gmap strings list_numbers list.

#[local] Open Scope Z_scope.

(** ** The client's video packets *)

Inductive VideoError : Type := VeCodec (e : CodecError) | VeAssembly (e : MediaAssemblyError).
Definition assembled (r : FrameAssembler * Result (option AssembledFrame) MediaAssemblyError) :
    FrameAssembler * Result (option AssembledFrame) VideoError :=
  match r with (s, Ok o) => (with_completed_started_at None s, Ok o) | (s, Err e) => (s, Err (VeAssembly e)) end.
(** The video arms of [handle_packet]: [fec] is whether both sides have [FEC_NACK].  Any other
    packet yields no frame. *)
Definition handle_video (fec : bool) (header : PacketHeader) (payload : list byte) (received_at : Z) (s : FrameAssembler) :
    FrameAssembler * Result (option AssembledFrame) VideoError :=
  match packet_type header with
  | PtFrameHeader =>
      match FrameHeader_decode payload with
      | Err e => (s, Err (VeCodec e))
      | Ok h => assembled (push_header h (timestamp_ms header) received_at s)
      end
  | PtFrameChunk =>
      match FrameChunk_decode payload with
      | Err e => (s, Err (VeCodec e))
      | Ok c => assembled (push_chunk c received_at s)
      end
  | PtFrameParity =>
      if negb fec then (s, Ok None) else
      match FrameParity_decode payload with
      | Err e => (s, Err (VeCodec e))
      | Ok q => assembled (push_parity q received_at s)
      end
  | _ => (s, Ok None)
  end.

Inductive ClientOp : Type :=
| ClPacket (packet : Packet) (received_at : Z)
| ClNack (now loss_permille rtt : Z)
| ClClear.
Fixpoint client_run (fec : bool) (ops : list ClientOp) (s : FrameAssembler) : FrameAssembler * list (Result (option AssembledFrame) VideoError) :=
  match ops with
  | [] => (s, [])
  | ClPacket packet t :: ops =>
      let '(s, r) := handle_video fec packet.1 packet.2 t s in
      let '(s, rs) := client_run fec ops s in (s, r :: rs)
  | ClNack now loss rtt :: ops => client_run fec ops (recovery_nack_with_rtt now loss rtt s).1
  | ClClear :: ops => client_run fec ops clear
  end.

Fixpoint loop_run (evs : list LoopEvent) (m : MediaLoop) : MediaLoop * list Packet :=
  match evs with
  | [] => (m, [])
  | e :: evs =>
      let '(m, packets) := loop_turn e m in
      let '(m, more) := loop_run evs m in (m, packets ++ more)
  end.
Definition encoder_frames (evs : list LoopEvent) : list VideoFrame := omap (λ e, match e with LpVideo _ _ _ _ f => Some f | _ => None end) evs.

(** ** Lemmas: cutting a frame *)

Lemma chunks_range data size k n : 0 < size → 0 <= k → 0 <= n →
  concat (chunk_bytes data size <$> seqZ k n) = take (Z.to_nat (n * size)) (drop (Z.to_nat (k * size)) data).
Proof.
  intros Hs Hk Hn. revert k Hk. pattern n. apply natlike_ind; [| |done].
  - intros k _. by rewrite seqZ_nil by lia.
  - clear n Hn. intros n Hn IH k Hk. rewrite seqZ_cons, Z.pred_succ by lia. cbn [fmap list_fmap concat]. rewrite IH by lia. unfold chunk_bytes.
    replace (Z.to_nat (Z.succ k * size)) with (Z.to_nat (k * size) + Z.to_nat size)%nat by nia.
    rewrite <- drop_drop. replace (Z.to_nat (Z.succ n * size)) with (Z.to_nat size + Z.to_nat (n * size))%nat by nia.
    apply take_take_drop.
Qed.

Lemma div_ceil_bounds a b : 0 < b → 0 <= a → a <= div_ceil a b * b < a + b.
Proof.
  intros Hb Ha. unfold div_ceil. pose proof (Z.div_mod (a + b - 1) b ltac:(lia)). pose proof (Z.mod_pos_bound (a + b - 1) b Hb). nia.
Qed.

Lemma div_ceil_nonneg a b : 0 < b → 0 <= a → 0 <= div_ceil a b.
Proof. intros Hb Ha. apply Z.div_pos; lia. Qed.

Lemma frame_chunks_concat data size : 0 < size → concat (frame_chunks data size) = data.
Proof.
  intros Hs. pose proof (div_ceil_bounds (zlen data) size Hs (zlen_nonneg data)) as Hd. unfold frame_chunks.
  pose proof (div_ceil_nonneg (zlen data) size Hs (zlen_nonneg data)). rewrite chunks_range by lia. rewrite Z.mul_0_l. cbn [Z.to_nat drop]. apply take_ge. unfold zlen in *. lia.
Qed.
Lemma frame_chunks_length data size : 0 < size → zlen (frame_chunks data size) = div_ceil (zlen data) size.
Proof.
  intros Hs. pose proof (div_ceil_bounds (zlen data) size Hs (zlen_nonneg data)). pose proof (zlen_nonneg data). unfold frame_chunks.
  unfold zlen at 1. rewrite length_fmap, length_seqZ. pose proof (div_ceil_nonneg (zlen data) size Hs (zlen_nonneg data)). lia.
Qed.
Lemma frame_chunks_lookup data size i : 0 < size → 0 <= i < div_ceil (zlen data) size →
  frame_chunks data size !! Z.to_nat i = Some (chunk_bytes data size i).
Proof. intros Hs Hi. unfold frame_chunks. rewrite list_lookup_fmap, lookup_seqZ_lt by lia. cbn. by rewrite Z2Nat.id by lia. Qed.
Lemma frame_chunk_sizes data size : 0 < size → Forall (λ c, 1 <= zlen c <= size) (frame_chunks data size).
Proof.
  intros Hs. apply Forall_fmap, Forall_forall. intros i Hi%elem_of_seqZ. pose proof (div_ceil_bounds (zlen data) size Hs (zlen_nonneg data)).
  cbn. unfold chunk_bytes, zlen in *. rewrite length_take, length_drop. nia.
Qed.

(** ** The packets of a frame on the wire *)

(** The frame with an id, as the sender cuts it. *)
Definition sent_of (id width height size parity : Z) (v : VideoFrame) : SentFrame :=
  mk_SentFrame (frame_header id width height v (div_ceil (zlen (vf_data v)) size)) (frame_chunks (vf_data v) size) parity.

(** An entry of the table of sent frames. *)
Record entry_ok (id : Z) (f : SentFrame) : Prop := {
  en_frame : frame_sent id f;
  en_holds : RdCodec.holds (sf_header f) = true;
  en_parity : 0 <= sf_parity f;
}.

Lemma sent_of_ok id width height size parity v b : is_u32 id = true → 0 <= width → 0 <= height → 1 <= size <= MAX_VIDEO_CHUNK_BYTES →
  vf_data v ≠ [] → div_ceil (zlen (vf_data v)) size <= u16_max → 0 <= parity <= div_ceil (zlen (vf_data v)) size →
  FrameHeader_encode (frame_header id width height v (div_ceil (zlen (vf_data v)) size)) = Ok b →
  entry_ok id (sent_of id width height size parity v).
Proof.
  intros Hid Hw Hh Hsz Hne Hu Hp He. assert (0 < size) as Hs by lia. pose proof (div_ceil_bounds (zlen (vf_data v)) size Hs (zlen_nonneg _)) as Hd.
  assert (1 <= zlen (vf_data v)) as H1 by (destruct (vf_data v); [done|unfold zlen; cbn; lia]). set (n := div_ceil (zlen (vf_data v)) size) in *.
  unfold FrameHeader_encode, FrameHeader_validate in He. cbn [frame_header fh_total_chunks fh_total_size] in He.
  destruct (Z.ltb_spec MAX_CHUNKS_PER_FRAME n) as [|Hn]; [done|]. destruct (Z.ltb_spec MAX_FRAME_BYTES (zlen (vf_data v))) as [|Hb]; [done|].
  assert (1 <= n) as Hn1 by nia. split; [|unfold RdCodec.holds, FrameHeader_holds; cbn|cbn; lia].
  - split; cbn [sent_of sf_header sf_chunks sf_parity frame_header fh_frame_id fh_total_chunks fh_total_size];
      rewrite ?frame_chunks_length, ?frame_chunks_concat by done; fold n; try done; try lia.
    eapply Forall_impl; [by apply frame_chunk_sizes|]. cbn. lia.
  - rewrite Hid. unfold is_u16, is_u32, in_range, u16_max, u32_max, MAX_FRAME_BYTES, MAX_CHUNKS_PER_FRAME in *. cbn.
    repeat (apply andb_true_iff; split); apply Z.leb_le; lia.
Qed.

Lemma lxor_u16 a b : 0 <= a < 2 ^ 16 → 0 <= b < 2 ^ 16 → 0 <= Z.lxor a b < 2 ^ 16.
Proof.
  intros Ha Hb. assert (0 <= Z.lxor a b) as H0 by (apply Z.lxor_nonneg; lia). split; [done|].
  destruct (Z.eq_dec (Z.lxor a b) 0) as [->|]; [lia|]. apply Z.log2_lt_pow2; [lia|]. pose proof (Z.log2_lxor a b ltac:(lia) ltac:(lia)).
  assert (∀ c, 0 <= c < 2 ^ 16 → Z.log2 c < 16) as Hl.
  { intros c Hc. destruct (Z.eq_dec c 0) as [->|]; [done|]. apply Z.log2_lt_pow2; lia. }
  pose proof (Hl a Ha). pose proof (Hl b Hb). lia.
Qed.
Lemma length_xor_u16 (cs : list (list byte)) : 0 <= foldl (λ len chunk, Z.lxor len (len16 chunk)) 0 cs < 2 ^ 16.
Proof.
  assert (∀ d, 0 <= d < 2 ^ 16 → 0 <= foldl (λ len chunk, Z.lxor len (len16 chunk)) d cs < 2 ^ 16) as H; [|by apply H].
  induction cs as [|c cs IH]; intros d Hd; cbn [foldl]; [done|]. apply IH, lxor_u16; [done|]. unfold len16. by apply Z.mod_pos_bound.
Qed.

(** A parity of a sent frame goes over the wire and back. *)
Lemma parity_wire id f q bytes : is_u32 id = true → entry_ok id f → q ∈ build_parity id (sf_chunks f) (sf_parity f) → FrameParity_encode q = Ok bytes → FrameParity_decode bytes = Ok q.
Proof.
  intros Hid [Hf _ Hp0] [k Hk]%list_elem_of_lookup He. apply build_parity_lookup in Hk as [Hk ->].
  refine (canon_decode_encode (A := FrameParity) _ bytes _ He). unfold RdCodec.holds, FrameParity_holds. cbn [build_one fp_frame_id fp_parity_index fp_parity_count fp_length_xor].
  pose proof (sent_parity _ _ Hf). pose proof (sent_chunks _ _ Hf). unfold MAX_CHUNKS_PER_FRAME in *.
  pose proof (length_xor_u16 (step_by (Z.max (sf_parity f) 1) (drop (Z.to_nat (Z.of_nat k)) (sf_chunks f)))). rewrite Hid.
  unfold is_u16, in_range, u16_max in *. cbn [andb]. repeat (apply andb_true_iff; split); apply Z.leb_le; lia.
Qed.

Definition chunk_wire_bytes (id i : Z) (c : list byte) : list byte := to_le 4 id ++ to_le 2 i ++ c.
Lemma chunk_wire id f i c : is_u32 id = true → entry_ok id f → 0 <= i → sf_chunks f !! Z.to_nat i = Some c → FrameChunk_decode (chunk_wire_bytes id i c) = Ok (mk_FrameChunk id i c).
Proof.
  intros Hid [Hf _ _] Hi Hc. pose proof (sent_chunks _ _ Hf) as Hn. pose proof (sent_chunk _ _ Hf) as Hs. rewrite Forall_forall in Hs.
  pose proof (Hs c ltac:(by eapply list_elem_of_lookup_2)) as Hlen. apply lookup_lt_Some in Hc. unfold zlen in Hn. unfold MAX_CHUNKS_PER_FRAME in Hn.
  refine (canon_decode_encode (A := FrameChunk) (mk_FrameChunk id i c) _ _ _).
  - unfold RdCodec.holds, FrameChunk_holds. cbn. rewrite Hid. unfold is_u16, in_range, u16_max. cbn. apply andb_true_iff. split; apply Z.leb_le; lia.
  - change (RdCodec.encode (mk_FrameChunk id i c)) with (FrameChunk_encode (mk_FrameChunk id i c)). unfold FrameChunk_encode, FrameChunk_validate. cbn [fc_chunk_index fc_data fc_frame_id].
    destruct (Z.leb_spec MAX_CHUNKS_PER_FRAME i); [unfold MAX_CHUNKS_PER_FRAME in *; lia|]. destruct (Z.ltb_spec MAX_VIDEO_CHUNK_BYTES (zlen c)); [lia|]. reflexivity.
Qed.

(** ** A table of sent frames *)

Section table.
Context (T : gmap Z SentFrame).

Definition table_ok : Prop := ∀ id f, T !! id = Some f → is_u32 id = true ∧ entry_ok id f.
Definition chunk_of (payload : list byte) : Prop :=
  ∃ id f i c, T !! id = Some f ∧ 0 <= i ∧ sf_chunks f !! Z.to_nat i = Some c ∧ payload = chunk_wire_bytes id i c.
(** A packet of a frame of the table, or no video packet. *)
Definition conforms (packet : Packet) : Prop :=
  RdCodec.holds packet.1 = true ∧
  match packet_type packet.1 with
  | PtFrameHeader => ∃ id f, T !! id = Some f ∧ FrameHeader_encode (sf_header f) = Ok packet.2
  | PtFrameChunk => chunk_of packet.2
  | PtFrameParity => ∃ id f q, T !! id = Some f ∧ q ∈ build_parity id (sf_chunks f) (sf_parity f) ∧ FrameParity_encode q = Ok packet.2
  | _ => True
  end.

Context (HT : table_ok).

(** The client understands it: it is pushed to the assembler as a packet of that frame. *)
Lemma handle_conforming fec packet now s : conforms packet →
  handle_video fec packet.1 packet.2 now s = (s, Ok None) ∨
  ∃ p f, T !! packet_frame p = Some f ∧ packet_of f p ∧ handle_video fec packet.1 packet.2 now s = assembled (push_packet p now s).
Proof.
  destruct packet as [[ty seq ts fl] payload]. unfold conforms, handle_video. cbn [packet_type fst snd timestamp_ms]. intros [_ H]. destruct ty; auto.
  - destruct H as (id & f & Hf & He). destruct (HT _ _ Hf) as [Hid [Hs Hh _]]. right. exists (MpHeader (sf_header f) ts), f. cbn [packet_frame packet_of push_packet].
    rewrite (sent_id _ _ Hs). assert (FrameHeader_decode payload = Ok (sf_header f)) as -> by (refine (RdCodec.decode_encode (sf_header f) payload Hh _); exact He). done.
  - destruct H as (id & f & i & c & Hf & Hi & Hc & ->). destruct (HT _ _ Hf) as [Hid He]. right. exists (MpChunk (mk_FrameChunk id i c)), f.
    cbn [packet_frame packet_of push_packet fc_frame_id fc_chunk_index fc_data]. rewrite (chunk_wire id f i c Hid He Hi Hc). done.
  - destruct H as (id & f & q & Hf & Hq & He). destruct (HT _ _ Hf) as [Hid Hen]. destruct fec; [|by left]. right. exists (MpParity q), f. cbn [negb packet_frame packet_of push_packet].
    assert (fp_frame_id q = id) as -> by (apply list_elem_of_lookup in Hq as [k Hk]; apply build_parity_lookup in Hk as [_ ->]; done).
    rewrite (parity_wire id f q payload Hid Hen Hq He). done.
Qed.

Definition client_conforms (op : ClientOp) : Prop := match op with ClPacket p _ => conforms p | _ => True end.
Definition delivers_sent (r : Result (option AssembledFrame) VideoError) : Prop :=
  ∃ o, r = Ok o ∧ ∀ af, o = Some af → ∃ id f, T !! id = Some f ∧ af_frame_header af = sf_header f ∧ af_frame_data af = concat (sf_chunks f).

Lemma client_delivers fec ops s : all_ok (faithful T) (sent_chunk_of T) s → Forall client_conforms ops → Forall delivers_sent (client_run fec ops s).2.
Proof.
  assert (∀ id f, T !! id = Some f → frame_sent id f) as Hsent by (intros id f Hf; apply (HT _ _ Hf)). pose proof (faithful_keeps T Hsent) as K.
  revert s. induction ops as [|[packet now|now loss rtt|] ops IH]; intros s Hs Ho; cbn [client_run]; [done| | |].
  - apply Forall_cons in Ho as [Ho1 Ho2]. destruct (handle_conforming fec packet now s Ho1) as [->|(p & f & Hf & Hp & ->)].
    + specialize (IH s Hs Ho2). destruct (client_run fec ops s). apply Forall_cons. split; [by exists None|done].
    + destruct (push_packet p now s) as [t r] eqn:E.
      destruct (push_packet_ok _ _ _ _ K p now s t r Hs ltac:(destruct p; exists f; done) E) as [Ht Hr%(faithful_result T Hsent)].
      destruct r as [o|e]; [|done]. cbn [assembled]. specialize (IH (with_completed_started_at None t) ltac:(by destruct Ht) Ho2). destruct (client_run fec ops _). apply Forall_cons. split; [|done].
      exists o. split; [done|]. by intros af ->.
  - apply Forall_cons in Ho as [_ Ho2]. apply IH; [|done]. destruct (recovery_nack_with_rtt now loss rtt s) as [t o] eqn:E. by eapply nack_ok.
  - apply Forall_cons in Ho as [_ Ho2]. apply IH; [apply default_ok|done].
Qed.
End table.

(** ** The sender keeps to its table *)

Definition pend_ok (T : gmap Z SentFrame) (p : PendingVideo) : Prop :=
  0 < pv_chunk_size p ∧ 0 <= pv_index p ∧ ∃ f, T !! pv_frame_id p = Some f ∧ sf_chunks f = frame_chunks (vf_data (pv_frame p)) (pv_chunk_size p) ∧
  zlen (sf_chunks f) <= MAX_CHUNKS_PER_FRAME ∧ ∀ q, q ∈ pv_parity p → q ∈ build_parity (pv_frame_id p) (sf_chunks f) (sf_parity f).
Record sender_ok (T : gmap Z SentFrame) (s : UdpSender) : Prop := {
  so_ids id f : T !! id = Some f → id <= us_frame_id s;
  so_cached : cached (chunk_of T) (rc_frames (us_recovery s));
  so_pending p : us_pending s = Some p → pend_ok T p;
}.

Lemma conforms_mono T T' packet : T ⊆ T' → conforms T packet → conforms T' packet.
Proof.
  intros Hs. unfold conforms, chunk_of. assert (∀ id f, T !! id = Some f → T' !! id = Some f) as Hl by (intros id f Hx; by eapply lookup_weaken).
  intros [Hh H]. split; [done|]. destruct (packet_type packet.1); try done.
  - destruct H as (id & f & Hf & H). eauto 10.
  - destruct H as (id & f & i & c & Hf & H). eauto 10.
  - destruct H as (id & f & q & Hf & H). eauto 10.
Qed.
Lemma chunk_of_mono T T' p : T ⊆ T' → chunk_of T p → chunk_of T' p.
Proof. intros Hs (id & f & i & c & Hf & H). exists id, f, i, c. split; [by eapply lookup_weaken|done]. Qed.
Lemma sender_mono T T' s : T ⊆ T' → (∀ id f, T' !! id = Some f → id <= us_frame_id s) → sender_ok T s → sender_ok T' s.
Proof.
  intros Hs Hid [S1 S2 S3]. split; [done| |].
  - intros f i p r Hf Hi. eapply chunk_of_mono; [done|]. by eapply S2.
  - intros p (Hp1 & Hp2 & f & Hf & H)%S3. split; [done|]. split; [done|]. exists f. split; [by eapply lookup_weaken|done].
Qed.

(** What bursts leave of the sender: its id and its settings. *)
Definition keeps_id (s s' : UdpSender) : Prop := us_frame_id s' = us_frame_id s ∧ us_incremental s' = us_incremental s ∧
  us_send_capacity s' = us_send_capacity s ∧ rc_enabled (us_recovery s') = rc_enabled (us_recovery s).
#[global] Instance keeps_id_preorder : PreOrder keeps_id.
Proof. split; [done|]. intros a b c (?&?&?&?) (?&?&?&?). repeat split; congruence. Qed.

Lemma retain_enabled i p r : rc_enabled (retain i p r) = rc_enabled r.
Proof.
  unfold retain. destruct (negb _ || _); [done|]. destruct (pop_while _ _ _). destruct (_ <? _); [done|]. by destruct (retain_last _ _ _ _).
Qed.
Lemma prune_enabled t r : rc_enabled (prune t r) = rc_enabled r.
Proof. unfold prune. by destruct (pop_while _ _ _). Qed.
Lemma begin_enabled i t r : rc_enabled (begin_frame i t r) = rc_enabled r.
Proof.
  unfold begin_frame. rewrite prune_enabled. destruct (rc_enabled r) eqn:E; cbn [negb]; [|by rewrite prune_enabled].
  destruct (remove_frame _ _ _). destruct (pop_while _ _ _). cbn. by rewrite prune_enabled.
Qed.

Lemma mod_small16 i n : 0 <= i < n → n <= MAX_CHUNKS_PER_FRAME → i mod 2 ^ 16 = i.
Proof. unfold MAX_CHUNKS_PER_FRAME. intros. apply Z.mod_small. lia. Qed.

(** The header of a packet is one of its type's values. *)
Lemma header_holds ty s ms : RdCodec.holds (mk_PacketHeader ty ((us_sequence s + 1) mod 2 ^ 32) (ms mod 2 ^ 32) 0) = true.
Proof.
  unfold RdCodec.holds, PacketHeader_holds. cbn [sequence timestamp_ms flags].
  assert (∀ x, is_u32 (x mod 2 ^ 32) = true) as Hu.
  { intros x. pose proof (Z.mod_pos_bound x (2 ^ 32) ltac:(lia)). unfold is_u32, in_range, u32_max. apply andb_true_iff. split; apply Z.leb_le; lia. }
  by rewrite !Hu.
Qed.

Lemma send_chunks_ok T env batching p indices s s' packets ok : pend_ok T p → us_pending s = None → sender_ok T s →
  (∀ i, i ∈ indices → 0 <= i < div_ceil (zlen (vf_data (pv_frame p))) (pv_chunk_size p)) →
  send_chunks env batching p indices s = (s', packets, ok) →
  sender_ok T s' ∧ us_pending s' = None ∧ keeps_id s s' ∧ us_needs_keyframe s' = us_needs_keyframe s ∧ Forall (conforms T) packets.
Proof.
  intros (Hp1 & Hp2 & f & Hf & Hfc & Hn & _). rewrite Hfc, frame_chunks_length in Hn by done.
  revert s s' packets ok. induction indices as [|i indices IH]; intros s s' packets ok Hpend Hs Hi; cbn [send_chunks].
  { intros [= <- <- <-]. do 4 (split; [done|]). done. }
  unfold send_packet. cbv zeta. set (u := u_recovery _ _).
  pose proof (Hi i ltac:(by left)) as Hir. pose proof (mod_small16 i _ Hir Hn) as Hm.
  assert (chunk_of T (chunk_payload p i)) as Hc.
  { exists (pv_frame_id p), f, i, (chunk_bytes (vf_data (pv_frame p)) (pv_chunk_size p) i). split; [done|]. split; [lia|]. split; [by rewrite Hfc, frame_chunks_lookup by lia|].
    unfold chunk_payload. by rewrite Hm. }
  assert (∀ x, conforms T (mk_PacketHeader PtFrameChunk ((us_sequence s + 1) mod 2 ^ 32) (x mod 2 ^ 32) 0, chunk_payload p i)) as Hcf by (intros x; split; [apply header_holds|exact Hc]).
  assert (sender_ok T u) as Hu. { destruct Hs as [S1 S2 S3]. split; cbn; [done| |by rewrite Hpend]. by apply cached_retain. }
  assert (keeps_id s u) as Hk by (repeat split; cbn; by rewrite retain_enabled).
  destruct (batching || _).
  - destruct (send_chunks env batching p indices u) as [[t pk] o] eqn:E. intros [= <- <- <-].
    destruct (IH u t pk o) as (I1 & I2 & I3 & I4 & I5); [done|done|intros; apply Hi; by right|done|].
    split; [done|]. split; [done|]. split; [by etransitivity|]. split; [done|]. by apply Forall_cons.
  - intros [= <- <- <-]. split; [done|]. split; [done|]. split; [done|]. split; [done|]. by apply Forall_singleton.
Qed.

Lemma send_parities_ok T env id f n parity s s' packets r : T !! id = Some f → (∀ q, q ∈ parity → q ∈ build_parity id (sf_chunks f) (sf_parity f)) → sender_ok T s → us_pending s = None →
  send_parities env n parity s = (s', packets, r) →
  sender_ok T s' ∧ us_pending s' = None ∧ keeps_id s s' ∧ us_needs_keyframe s' = us_needs_keyframe s ∧ Forall (conforms T) packets ∧ (∀ rest, r = Ok rest → ∀ q, q ∈ rest → q ∈ parity).
Proof.
  intros Hf. revert parity s s' packets r. induction n as [|n IH]; intros parity s s' packets r Hq Hs Hp; cbn [send_parities].
  { intros [= <- <- <-]. do 5 (split; [done|]). by intros rest [= ->]. }
  destruct parity as [|q parity]; [intros [= <- <- <-]; do 5 (split; [done|]); by intros rest [= ->]|].
  destruct (FrameParity_encode q) as [bytes|e] eqn:E; [|intros [= <- <- <-]; do 5 (split; [done|]); done].
  unfold send_packet. cbv zeta. set (u := u_sequence _ s). assert (sender_ok T u) as Hu by (by destruct Hs).
  assert (conforms T (mk_PacketHeader PtFrameParity ((us_sequence s + 1) mod 2 ^ 32) (en_ms env ((us_sequence s + 1) mod 2 ^ 32) mod 2 ^ 32) 0, bytes)) as Hc.
  { split; [apply header_holds|]. exists id, f, q. split; [done|]. split; [apply Hq; by left|done]. }
  destruct (en_sent env _); [|intros [= <- <- <-]; do 4 (split; [done|]); split; [by apply Forall_singleton|done]].
  destruct (send_parities env n parity u) as [[t pk] o] eqn:Es. intros [= <- <- <-].
  destruct (IH parity u t pk o) as (I1 & I2 & I3 & I4 & I5 & I6); [intros; apply Hq; by right|done|done|done|].
  split; [done|]. split; [done|]. split; [done|]. split; [done|]. split; [by apply Forall_cons|]. intros rest Hr x Hx. right. by eapply I6.
Qed.

Lemma finish_ok T env p s s' packets r : sender_ok T s → us_pending s = None → finish_frame env p s = (s', packets, r) →
  sender_ok T s' ∧ us_pending s' = None ∧ keeps_id s s' ∧ Forall (conforms T) packets.
Proof.
  intros Hs Hp. unfold finish_frame, send_packet.
  assert (∀ u, us_recovery u = us_recovery s → us_frame_id u = us_frame_id s → us_pending u = None → sender_ok T u) as Hu.
  { intros u U1 U2 U3. destruct Hs as [S1 S2 S3]. split; [by rewrite U2|by rewrite U1|by rewrite U3]. }
  assert (∀ u x payload, conforms T (mk_PacketHeader PtPing ((us_sequence u + 1) mod 2 ^ 32) (x mod 2 ^ 32) 0, payload)) as Hc by (intros u x payload; split; [apply header_holds|done]).
  destruct (en_echo env) as [echo|]; cbn [negb]; [destruct (en_sent env _); cbn [negb]; [|intros [= <- <- <-]; split; [by apply Hu|]; split; [done|]; split; [done|by apply Forall_singleton]]|];
    destruct (en_sent env _); cbn [negb]; intros [= <- <- <-]; destruct (vf_is_key_frame (pv_frame p));
    (split; [by apply Hu|]; split; [done|]; split; [done|]; repeat first [apply Forall_nil_2|apply Forall_cons; split|apply (Hc s)|eapply (Hc (u_sequence _ s))]).
Qed.

(** A burst, whatever the system decides, sends packets of the table's frames only. *)
Lemma burst_ok T env k s s' packets r : sender_ok T s → send_video_burst env k s = (s', packets, r) →
  sender_ok T s' ∧ keeps_id s s' ∧ Forall (conforms T) packets.
Proof.
  intros Hs. unfold send_video_burst. destruct (us_pending s) as [p|] eqn:Ep; [|by intros [= <- <- <-]]. cbv zeta.
  pose proof (so_pending _ _ Hs p Ep) as Hp. assert (sender_ok T (u_pending None s)) as Hs0 by (destruct Hs; by split).
  destruct (video_expired _ _); [by intros [= <- <- <-]|]. set (chunks := div_ceil _ _). set (end_ := Z.min _ chunks).
  assert (end_ <= chunks) as Hle by apply Z.le_min_r.
  assert (∀ i, i ∈ seqZ (pv_index p) (end_ - pv_index p) → 0 <= i < chunks) as Hrange.
  { intros i Hi%elem_of_seqZ. destruct Hp as (_ & Hp0 & _). clearbody end_ chunks. lia. }
  destruct (send_chunks _ _ p _ _) as [[t pk] ok] eqn:Ec.
  destruct (send_chunks_ok T _ _ p _ (u_pending None s) _ _ _ Hp eq_refl Hs0 Hrange Ec) as (C1 & C2 & C3 & _ & C5).
  assert (keeps_id s t) as Hk by exact C3.
  destruct ok; cbn [negb]; [|by intros [= <- <- <-]]. destruct (_ && negb _); [by intros [= <- <- <-]|].
  assert (∀ rest, (∀ q, q ∈ rest → q ∈ pv_parity p) → 0 <= end_ → pend_ok T (mk_PendingVideo (pv_frame p) end_ (pv_chunk_size p) rest (pv_frame_id p))) as Hpend.
  { intros rest Hr He. destruct Hp as (P1 & P2 & f & P3 & P4 & P5 & P6). split; [done|]. split; [done|]. exists f. split; [done|]. split; [done|]. split; [done|]. auto. }
  assert (0 <= end_) as Hend.
  { destruct Hp as (P1 & P2 & _). pose proof (div_ceil_nonneg (zlen (vf_data (pv_frame p))) (pv_chunk_size p) P1 (zlen_nonneg _)). apply Z.min_glb; [|done]. unfold burst_packets. lia. }
  assert (∀ u v, sender_ok T u → (∀ x, v = Some x → pend_ok T x) → sender_ok T (u_pending v u)) as Hup by (intros u v [U1 U2 U3] Hv; by split).
  destruct (end_ <? chunks); [intros [= <- <- <-]; split; [apply Hup; [done|]; intros x [= <-]; by apply Hpend|done]|]. cbn [pv_parity].
  destruct (pv_parity p) as [|q parity] eqn:Eq.
  - destruct (finish_frame _ _ t) as [[u more] r'] eqn:Ef. intros [= <- <- <-]. destruct (finish_ok T _ _ _ _ _ _ C1 C2 Ef) as (F1 & F2 & F3 & F4).
    split; [done|]. split; [by etransitivity|]. by apply Forall_app.
  - destruct Hp as (P1 & P2 & f & P3 & P4 & P5 & P6). rewrite Eq in P6. destruct (send_parities env _ (q :: parity) t) as [[u more] r'] eqn:Es.
    destruct (send_parities_ok T env (pv_frame_id p) f _ _ _ _ _ _ P3 P6 C1 C2 Es) as (Q1 & Q2 & Q3 & _ & Q5 & Q6).
    destruct r' as [rest|e]; intros [= <- <- <-]; [|split; [done|]; split; [by etransitivity|by apply Forall_app]].
    split; [apply Hup; [done|]; intros x [= <-]; apply Hpend; [|done]; intros y Hy; by eapply Q6|]. split; [by etransitivity|by apply Forall_app].
Qed.

Lemma drain_ok T env fuel k s s' packets r : sender_ok T s → drain env fuel k s = (s', packets, r) → sender_ok T s' ∧ keeps_id s s' ∧ Forall (conforms T) packets.
Proof.
  revert k s s' packets r. induction fuel as [|fuel IH]; intros k s s' packets r Hs; cbn [drain]; destruct (us_incremental s || _); try (by intros [= <- <- <-]).
  destruct (send_video_burst env k s) as [[t pk] o] eqn:E. destruct (burst_ok _ _ _ _ _ _ _ Hs E) as (B1 & B2 & B3).
  destruct o as [u|e]; [|by intros [= <- <- <-]]. destruct (drain env fuel (S k) t) as [[t' more] o'] eqn:Ed. intros [= <- <- <-].
  destruct (IH _ _ _ _ _ B1 Ed) as (I1 & I2 & I3). split; [done|]. split; [by etransitivity|by apply Forall_app].
Qed.

(** The table's frames come from the encoder. *)
Definition from_encoder (V : list VideoFrame) (f : SentFrame) : Prop :=
  ∃ v, v ∈ V ∧ concat (sf_chunks f) = vf_data v ∧ fh_is_key_frame (sf_header f) = vf_is_key_frame v.
Record video_ok (V : list VideoFrame) (T : gmap Z SentFrame) (s : UdpSender) : Prop := {
  vo_table : table_ok T;
  vo_sender : sender_ok T s;
  vo_from id f : T !! id = Some f → from_encoder V f;
}.

Lemma send_frame_ok V T env now width height v s s' packets r : video_ok V T s → v ∈ V → vf_data v ≠ [] → 0 <= width → 0 <= height →
  0 <= us_frame_id s < u32_max → send_frame env now width height v s = (s', packets, r) →
  ∃ T', T ⊆ T' ∧ video_ok V T' s' ∧ us_frame_id s <= us_frame_id s' <= us_frame_id s + 1 ∧ Forall (conforms T') packets.
Proof.
  intros [O1 O2 O3] Hv Hne Hw Hh Hid. unfold send_frame.
  assert (∃ T', T ⊆ T' ∧ video_ok V T' s ∧ us_frame_id s <= us_frame_id s <= us_frame_id s + 1 ∧ Forall (conforms T') ([] : list Packet)) as Hnone.
  { exists T. split; [done|]. split; [by split|]. split; [lia|done]. }
  destruct (video_expired _ _); [intros [= <- <- <-]; exact Hnone|]. cbv zeta. set (size := sender_chunk_size s). set (id := (us_frame_id s + 1) mod 2 ^ 32).
  assert (id = us_frame_id s + 1) as Eid by (apply Z.mod_small; unfold u32_max in Hid; lia). clearbody id.
  assert (1 <= size <= MAX_VIDEO_CHUNK_BYTES) as Hsz by (subst size; unfold sender_chunk_size; by destruct (rc_enabled _)). clearbody size.
  destruct (Z.ltb_spec u16_max (div_ceil (zlen (vf_data v)) size)) as [|Hu16]; cbn [orb]; [intros [= <- <- <-]; exact Hnone|].
  destruct (u32_max <? zlen (vf_data v)); [intros [= <- <- <-]; exact Hnone|].
  destruct (FrameHeader_encode _) as [bytes|e] eqn:Ee; [|intros [= <- <- <-]; exact Hnone].
  set (n := div_ceil (zlen (vf_data v)) size) in *. pose proof (div_ceil_nonneg (zlen (vf_data v)) size ltac:(lia) (zlen_nonneg _)) as Hn0. fold n in Hn0.
  set (parity := if rc_enabled (us_recovery s) then parity_count_for n (en_wanted env n) else 0).
  assert (0 <= parity <= n) as Hpar. { subst parity. destruct (rc_enabled _); [|lia]. unfold parity_count_for, MAX_CHUNKS_PER_FRAME. destruct (Z.eqb_spec n 0); lia. }
  set (f := sent_of id width height size parity v).
  assert (entry_ok id f) as Hent by (apply (sent_of_ok id width height size parity v bytes); try done; rewrite Eid; unfold is_u32, in_range, u32_max in *; apply andb_true_iff; split; apply Z.leb_le; lia).
  assert (T !! id = None) as Hfresh. { destruct (T !! id) as [g|] eqn:E; [|done]. pose proof (so_ids _ _ O2 _ _ E). lia. }
  set (T' := <[id := f]> T). assert (T ⊆ T') as Hsub by (by apply insert_subseteq). assert (T' !! id = Some f) as HTid by apply lookup_insert_eq.
  assert (table_ok T') as HT'.
  { intros j g [[<- <-]|[_ H]]%lookup_insert_Some; [|by apply O1]. split; [|done]. rewrite Eid. unfold is_u32, in_range, u32_max in *. apply andb_true_iff. split; apply Z.leb_le; lia. }
  assert (∀ j g, T' !! j = Some g → from_encoder V g) as Hfrom.
  { intros j g [[<- <-]|[_ H]]%lookup_insert_Some; [|by eapply O3]. exists v. split; [done|]. split; [apply frame_chunks_concat; lia|done]. }
  assert (∀ j g, T' !! j = Some g → j <= id) as Hids by (intros j g [[<- <-]|[_ H]]%lookup_insert_Some; [lia|]; pose proof (so_ids _ _ O2 _ _ H); lia).
  unfold send_packet. cbv zeta. cbn [us_recovery u_sequence u_frame_id us_sequence]. set (seq := (us_sequence s + 1) mod 2 ^ 32). set (s1 := u_sequence seq (u_frame_id id s)).
  assert (conforms T' (mk_PacketHeader PtFrameHeader seq (en_ms env seq mod 2 ^ 32) 0, bytes)) as Hch by (split; [apply (header_holds _ s)|]; exists id, f; split; [done|exact Ee]).
  assert (sender_ok T' s1) as Hs1 by (apply (sender_mono T); [done|done|]; destruct O2 as [S1 S2 S3]; split; [intros j g Hj; pose proof (S1 j g Hj); cbn; lia|done|done]).
  destruct (en_sent env seq); cbn [negb]; [|intros [= <- <- <-]; exists T'; split; [done|]; split; [by split|]; split; [cbn; lia|by apply Forall_singleton]].
  set (plist := if rc_enabled _ then build_parity _ _ _ else []).
  assert (∀ q, q ∈ plist → q ∈ build_parity id (sf_chunks f) (sf_parity f)) as Hplist.
  { intros q Hq. subst plist. cbn [f sent_of sf_chunks sf_parity]. subst parity. destruct (rc_enabled (us_recovery s)); [done|by apply not_elem_of_nil in Hq]. }
  clearbody plist. set (s2 := u_pending _ _). assert (sender_ok T' s2) as Hs2.
  { destruct Hs1 as [S1 S2 S3]. split; cbn; [done|by apply cached_begin|]. intros p [= <-]. split; [cbn; lia|]. split; [done|]. exists f. cbn. split; [done|]. split; [done|].
    split; [apply (sent_chunks _ _ (en_frame _ _ Hent))|done]. }
  assert (us_frame_id s2 = id) as Es2 by done.
  destruct (send_video_burst env 0 s2) as [[t pk] o] eqn:Eb. destruct (burst_ok _ _ _ _ _ _ _ Hs2 Eb) as (B1 & [B2 _] & B3).
  destruct o as [u|e]; [|intros [= <- <- <-]; exists T'; split; [done|]; split; [by split|]; split; [lia|by apply Forall_cons]].
  destruct (drain env _ 1 t) as [[t' more] o'] eqn:Ed. intros [= <- <- <-]. destruct (drain_ok _ _ _ _ _ _ _ _ B1 Ed) as (D1 & [D2 _] & D3).
  exists T'. split; [done|]. split; [by split|]. split; [lia|]. apply Forall_cons. split; [done|by apply Forall_app].
Qed.

Lemma retransmits_ok T env now n s s' packets r : sender_ok T s → send_retransmits env now n s = (s', packets, r) →
  sender_ok T s' ∧ us_frame_id s' = us_frame_id s ∧ Forall (conforms T) packets.
Proof.
  revert s s' packets r. induction n as [|n IH]; intros s s' packets r Hs; cbn [send_retransmits]; [by intros [= <- <- <-]|].
  destruct Hs as [S1 S2 S3]. destruct (cached_next (chunk_of T) now (us_recovery s) S2) as [N1 N2]. destruct (next now (us_recovery s)) as [rc [payload|]]; cbn [fst snd] in *.
  - unfold send_packet. cbv zeta. set (u := u_sequence _ _). assert (sender_ok T u) as Hu by (by split). pose proof (N2 payload eq_refl) as Hp.
    assert (∀ x, conforms T (mk_PacketHeader PtFrameChunk ((us_sequence s + 1) mod 2 ^ 32) (x mod 2 ^ 32) 0, payload)) as Hc by (intros x; split; [apply header_holds|exact Hp]).
    destruct (en_sent env _); [|intros [= <- <- <-]; split; [done|]; split; [done|by apply Forall_singleton]].
    destruct (send_retransmits env now n u) as [[t pk] o] eqn:E. intros [= <- <- <-]. destruct (IH _ _ _ _ Hu E) as (I1 & I2 & I3).
    split; [done|]. split; [done|]. by apply Forall_cons.
  - intros [= <- <- <-]. split; [by split|done].
Qed.

Definition frame_given (v : VideoFrame) : Prop := vf_data v ≠ [].
Definition event_given (e : LoopEvent) : Prop :=
  match e with
  | LpVideo _ _ width height frame => frame_given frame ∧ 0 <= width ∧ 0 <= height
  | LpQueued _ _ width height => 0 <= width ∧ 0 <= height
  | _ => True
  end.
Record loop_ok (V : list VideoFrame) (T : gmap Z SentFrame) (m : MediaLoop) : Prop := {
  lk_video : video_ok V T (ml_sender m);
  lk_queue : Forall (λ v, v ∈ V ∧ frame_given v) (ml_queued_video m);
}.

Lemma request_fields now s : let s' := (request_recovery now s).1 in
  us_recovery s' = us_recovery s ∧ us_frame_id s' = us_frame_id s ∧ us_pending s' = us_pending s ∧ us_needs_keyframe s' = us_needs_keyframe s.
Proof. unfold request_recovery. by destruct (_ && _). Qed.
Lemma sender_ok_fields T s s' : us_recovery s' = us_recovery s → us_frame_id s' = us_frame_id s → us_pending s' = us_pending s ∨ us_pending s' = None → sender_ok T s → sender_ok T s'.
Proof. intros E1 E2 E3 [S1 S2 S3]. split; [by rewrite E2|by rewrite E1|]. intros p Hp. destruct E3 as [E3|E3]; rewrite E3 in Hp; [auto|done]. Qed.
Lemma invalidate_fields now s : let s' := invalidate_reference now s in
  us_recovery s' = us_recovery s ∧ us_frame_id s' = us_frame_id s ∧ us_pending s' = None ∧ us_needs_keyframe s' = true.
Proof. unfold invalidate_reference. destruct (request_fields now (u_needs true (u_pending None s))) as (-> & -> & -> & ->). done. Qed.
Lemma video_ok_sender V T s s' : sender_ok T s' → video_ok V T s → video_ok V T s'.
Proof. intros Hs [O1 O2 O3]. by split. Qed.
Lemma invalidate_ok V T now s : video_ok V T s → video_ok V T (invalidate_reference now s).
Proof.
  intros Ho. eapply video_ok_sender; [|exact Ho]. destruct (invalidate_fields now s) as (E1 & E2 & E3 & _). apply (sender_ok_fields T s); auto. apply Ho.
Qed.

Definition grows (V : list VideoFrame) (T : gmap Z SentFrame) (m m' : MediaLoop) (packets : list Packet) : Prop :=
  ∃ T', T ⊆ T' ∧ loop_ok V T' m' ∧ us_frame_id (ml_sender m) <= us_frame_id (ml_sender m') <= us_frame_id (ml_sender m) + 1 ∧ Forall (conforms T') packets.
Lemma grows_same V T m m' packets : loop_ok V T m' → us_frame_id (ml_sender m') = us_frame_id (ml_sender m) → Forall (conforms T) packets → grows V T m m' packets.
Proof. intros Hl He Hp. exists T. split; [done|]. split; [done|]. split; [lia|done]. Qed.

Lemma admit_video_ok V T env now width height v m m' packets : loop_ok V T m → v ∈ V → frame_given v → 0 <= width → 0 <= height → 0 <= us_frame_id (ml_sender m) < u32_max →
  admit_video env now width height v m = (m', packets) → grows V T m m' packets.
Proof.
  intros [K1 K2] Hv Hg Hw Hh Hid. unfold admit_video. destruct (video_expired v now).
  { intros [= <- <-]. apply grows_same; [split; [by apply invalidate_ok|done]|by apply invalidate_fields|done]. }
  destruct (_ && _); [intros [= <- <-]; by apply grows_same|]. destruct (send_frame env now width height v (ml_sender m)) as [[s pk] r] eqn:E.
  destruct (send_frame_ok V T env now width height v _ _ _ _ K1 Hv Hg Hw Hh Hid E) as (T' & H1 & H2 & H3 & H4).
  destruct r; intros [= <- <-]; exists T'; (split; [done|]); (split; [split; [try apply invalidate_ok; exact H2|done]|]); (split; [|done]); cbn; [done|].
  by rewrite (proj1 (proj2 (invalidate_fields now s))).
Qed.

Lemma video_event_ok V T env now width height v m m' packets : loop_ok V T m → v ∈ V → frame_given v → 0 <= width → 0 <= height → 0 <= us_frame_id (ml_sender m) < u32_max →
  video_event env now width height v m = (m', packets) → grows V T m m' packets.
Proof.
  intros Hl Hv Hg Hw Hh Hid. unfold video_event. destruct (us_pending (ml_sender m)) as [p|] eqn:Ep; [|by apply admit_video_ok].
  destruct (_ =? 16).
  - intros E. destruct (invalidate_fields now (ml_sender m)) as (_ & F & _). assert (loop_ok V T (mk_MediaLoop (invalidate_reference now (ml_sender m)) [])) as Hl' by (split; [apply invalidate_ok, Hl|done]).
    destruct (admit_video_ok V T env now width height v _ m' packets Hl' Hv Hg Hw Hh ltac:(cbn; by rewrite F) E) as (T' & H1 & H2 & H3 & H4).
    exists T'. cbn in H3. rewrite F in H3. done.
  - intros [= <- <-]. destruct Hl as [K1 K2]. apply grows_same; [|done|done]. split; [done|]. cbn. apply Forall_app. split; [done|by apply Forall_singleton].
Qed.

Lemma loop_turn_ok V T e m m' packets : loop_ok V T m → event_given e → (∀ v, v ∈ encoder_frames [e] → v ∈ V) → 0 <= us_frame_id (ml_sender m) < u32_max →
  loop_turn e m = (m', packets) → grows V T m m' packets.
Proof.
  intros Hl Hg Hv Hid. pose proof Hl as [K1 K2]. destruct e as [env now|env now width height frame|env now width height|env now|nack now|now|]; cbn [loop_turn].
  - unfold burst_turn. destruct (send_video_burst env 0 (ml_sender m)) as [[s pk] r] eqn:E. destruct (burst_ok _ _ _ _ _ _ _ (vo_sender _ _ _ K1) E) as (B1 & [B2 _] & B3).
    pose proof (video_ok_sender V T _ _ B1 K1) as Hs. destruct r; intros [= <- <-]; apply grows_same; try done; [split; [by apply invalidate_ok|done]|].
    cbn. by rewrite (proj1 (proj2 (invalidate_fields now s))).
  - assert (frame ∈ V) as Hin by (apply Hv; by left). destruct Hg as (Hg & Hw & Hh).
    destruct (us_pending (ml_sender m)) eqn:Ep; [intros E; exact (video_event_ok V T env now width height frame m m' packets Hl Hin Hg Hw Hh Hid E)|]. destruct (ml_queued_video m) eqn:Eq; [intros E; exact (video_event_ok V T env now width height frame m m' packets Hl Hin Hg Hw Hh Hid E)|].
    intros [= <- <-]. by apply grows_same.
  - destruct (us_pending (ml_sender m)) eqn:Ep; [intros [= <- <-]; by apply grows_same|]. destruct (ml_queued_video m) as [|v q] eqn:Eq; [intros [= <- <-]; by apply grows_same|].
    apply Forall_cons in K2 as [[Hin Hgv] K2]. destruct Hg as [Hw Hh]. intros E.
    destruct (video_event_ok V T env now width height v _ m' packets (Build_loop_ok V T (mk_MediaLoop (ml_sender m) q) K1 K2) Hin Hgv Hw Hh Hid E) as (T' & H1 & H2 & H3 & H4). by exists T'.
  - unfold send_retransmit_burst. destruct (send_retransmits env now _ (ml_sender m)) as [[s pk] r] eqn:E.
    destruct (retransmits_ok _ _ _ _ _ _ _ _ (vo_sender _ _ _ K1) E) as (R1 & R2 & R3). intros [= <- <-]. apply grows_same; [|done|done]. split; [by eapply video_ok_sender|done].
  - intros [= <- <-]. apply grows_same; [|done|done]. split; [|done]. eapply video_ok_sender; [|exact K1]. destruct (vo_sender _ _ _ K1) as [S1 S2 S3]. split; cbn; [done|by apply cached_enqueue|done].
  - intros [= <- <-]. destruct (request_fields now (ml_sender m)) as (E1 & E2 & E3 & _). apply grows_same; [|done|done]. split; [|done].
    eapply video_ok_sender; [|exact K1]. apply (sender_ok_fields T (ml_sender m)); auto. apply K1.
  - intros [= <- <-]. apply grows_same; [|done|done]. split; [|done]. eapply video_ok_sender; [|exact K1]. apply (sender_ok_fields T (ml_sender m)); auto. apply K1.
Qed.

Lemma encoder_cons e evs : encoder_frames (e :: evs) = encoder_frames [e] ++ encoder_frames evs.
Proof. unfold encoder_frames. by destruct e. Qed.

Lemma loop_run_ok V evs T m : loop_ok V T m → Forall event_given evs → (∀ v, v ∈ encoder_frames evs → v ∈ V) → 0 <= us_frame_id (ml_sender m) → us_frame_id (ml_sender m) + zlen evs <= u32_max →
  ∃ T', T ⊆ T' ∧ loop_ok V T' (loop_run evs m).1 ∧ Forall (conforms T') (loop_run evs m).2.
Proof.
  revert T m. induction evs as [|e evs IH]; intros T m Hl Hg Hv H0 Hn; cbn [loop_run]; [exists T; done|]. apply Forall_cons in Hg as [Hg1 Hg2].
  rewrite encoder_cons in Hv. unfold zlen in Hn. cbn [length] in Hn. destruct (loop_turn e m) as [m' pk] eqn:E.
  destruct (loop_turn_ok V T e m m' pk Hl Hg1 ltac:(intros v Hx; apply Hv, elem_of_app; by left) ltac:(lia) E) as (T1 & H1 & H2 & H3 & H4).
  destruct (IH T1 m' H2 Hg2) as (T2 & I1 & I2 & I3); [intros v Hx; apply Hv, elem_of_app; by right|lia|unfold zlen; lia|].
  destruct (loop_run evs m') as [m'' more]. cbn [fst snd] in *. exists T2. split; [by etransitivity|]. split; [done|]. apply Forall_app. split; [|done].
  eapply Forall_impl; [exact H4|]. intros x. by apply conforms_mono.
Qed.

(** What a run of the loop sends: packets of a table of frames of the encoder. *)
Lemma loop_table fec incremental send_capacity evs : Forall event_given evs → zlen evs <= u32_max →
  ∃ T, table_ok T ∧ (∀ id f, T !! id = Some f → from_encoder (encoder_frames evs) f) ∧
    Forall (conforms T) (loop_run evs (mk_MediaLoop (sender_new fec incremental send_capacity) [])).2.
Proof.
  intros Hg Hn. set (m := mk_MediaLoop _ _).
  destruct (loop_run_ok (encoder_frames evs) evs ∅ m) as (T & _ & [[HT _ Hfrom] _] & Hc); try done; [|by exists T].
  split; [|done]. split; [done| |done]. split; [done| |done]. intros f i p r Hf. by apply not_elem_of_nil in Hf.
Qed.

(** A picture of the encoder, or nothing. *)
Definition shows (V : list VideoFrame) (r : Result (option AssembledFrame) VideoError) : Prop :=
  ∃ o, r = Ok o ∧ ∀ af, o = Some af → ∃ v, v ∈ V ∧ af_frame_data af = vf_data v ∧ fh_is_key_frame (af_frame_header af) = vf_is_key_frame v.
Lemma client_shows T V fec ops : table_ok T → (∀ id f, T !! id = Some f → from_encoder V f) → Forall (client_conforms T) ops →
  Forall (shows V) (client_run fec ops assembler_default).2.
Proof.
  intros HT Hfrom Ho. eapply Forall_impl; [apply (client_delivers T HT fec ops); [apply default_ok|done]|].
  intros r (o & -> & H). exists o. split; [done|]. intros af Haf. destruct (H af Haf) as (id & f & Hf & Eh & Ed). destruct (Hfrom _ _ Hf) as (v & Hv & Ev & Ek).
  exists v. split; [done|]. split; congruence.
Qed.

(** The client shows the host's pictures.  Let the host's sender run for any number of turns
    below 2^32, with any frames of the encoder, any failures and delays of the system, any
    requests for retransmission; and let the client receive any of the packets it sent, in any
    order, any number of times, at any instants, with requests and clears between them.  Then the
    client refuses none of them, and every frame it assembles has exactly the bytes and the
    key frame flag of a frame the encoder produced. *)
Theorem video_end_to_end (fec incremental : bool) (send_capacity : Z) (evs : list LoopEvent) (ops : list ClientOp) :
  Forall event_given evs → zlen evs <= u32_max →
  let sent := (loop_run evs (mk_MediaLoop (sender_new fec incremental send_capacity) [])).2 in
  (∀ p t, ClPacket p t ∈ ops → p ∈ sent) →
  Forall (shows (encoder_frames evs)) (client_run fec ops assembler_default).2.
Proof.
  intros Hg Hn sent Hops. destruct (loop_table fec incremental send_capacity evs Hg Hn) as (T & HT & Hfrom & Hc).
  apply (client_shows T _ fec ops HT Hfrom). apply Forall_forall. intros [p t| |] Hin; cbn; try done. rewrite Forall_forall in Hc. by apply Hc, (Hops p t).
Qed.
Definition demo_env : Env := mk_Env (λ _, 0) (λ _, 0) (λ _, true) true (λ _, true) [x07] None (λ n, Z.to_nat n).
Definition demo_evs : list LoopEvent :=
  [LpVideo demo_env 0 16 9 (mk_VideoFrame [x01; x02; x03] true 0); LpVideo demo_env 0 16 9 (mk_VideoFrame [x04; x05] false 0);
   LpNack (mk_FrameNack 2 0 0 [0]) 0; LpRetransmit demo_env 0].
Definition demo_sent : list Packet := Eval vm_compute in (loop_run demo_evs (mk_MediaLoop (sender_new true false 10000) [])).2.
(** The second frame's chunk, its header, and the first frame rebuilt from its parity. *)
Definition demo_client : list ClientOp :=
  omap (λ i, (λ p, ClPacket p 5) <$> demo_sent !! i) [5; 4; 0; 2]%nat.
Lemma video_end_to_end_witness :
  (λ r, match r with Ok (Some af) => Some (af_frame_data af) | _ => None end) <$> (client_run true demo_client assembler_default).2 =
    [None; Some [x04; x05]; None; Some [x01; x02; x03]] ∧
  Forall (shows (encoder_frames demo_evs)) (client_run true demo_client assembler_default).2.
Proof.
  split; [vm_compute; reflexivity|]. apply (video_end_to_end true false 10000 demo_evs).
  - repeat constructor; done.
  - done.
  - change (loop_run demo_evs _).2 with demo_sent. intros p t (i & Hi & Hp)%list_elem_of_omap. destruct (demo_sent !! i) as [q|] eqn:E; [|done].
    injection Hp as ->. by eapply list_elem_of_lookup_2.
Defined.
