(* ===== verification/RdSenderSpec.v ===== *)
(** * RdSenderSpec: what the host's sender promises

    A frame whose packets the system accepts is sent completely and in order, in finitely
    many bursts; and the media loop never sends a frame that depends on one that was not
    sent completely. *)

From S2P Require Import Prelude Wire RdCodec RdPacket RdMedia RdFec RdRecovery RdSender RdAssembly RdAssemblySpec RdVideo.
From Stdlib Require Import ZArith Lia Strings.Byte.
From stdpp Require Import base option gmap strings list_numbers list.

#[local] Open Scope Z_scope.

(** ** A frame is sent completely *)

(** Type and payload of a packet. *)
Definition wire (p : Packet) : PacketType * list byte := (packet_type p.1, p.2).
(** The system accepts every packet and the frame does not expire. *)
Definition accepts (env : Env) (f : VideoFrame) : Prop :=
  (∀ seq, en_sent env seq = true) ∧ (∀ seq, en_batch_sent env seq = true) ∧ ∀ k, video_expired f (en_now env k) = false.
Definition parity_bytes (q : FrameParity) : list byte := match FrameParity_encode q with Ok b => b | Err _ => [] end.
Definition pings (env : Env) : list (PacketType * list byte) :=
  match en_echo env with Some echo => [(PtPing, echo)] | None => [] end ++ [(PtPing, en_stats env)].
(** What is left to send of a pending frame. *)
Definition rest_of (env : Env) (p : PendingVideo) : list (PacketType * list byte) :=
  ((λ i, (PtFrameChunk, chunk_payload p i)) <$> seqZ (pv_index p) (div_ceil (zlen (vf_data (pv_frame p))) (pv_chunk_size p) - pv_index p)) ++
  ((λ q, (PtFrameParity, parity_bytes q)) <$> pv_parity p) ++ pings env.
Definition bursts_left (p : PendingVideo) : nat :=
  Z.to_nat (div_ceil (zlen (vf_data (pv_frame p))) (pv_chunk_size p) - pv_index p + zlen (pv_parity p) + 1).
Definition sendable (p : PendingVideo) : Prop :=
  0 <= pv_index p <= div_ceil (zlen (vf_data (pv_frame p))) (pv_chunk_size p) ∧ Forall (λ q, ∃ b, FrameParity_encode q = Ok b) (pv_parity p).

Section sends.
Context (env : Env) (Hsent : ∀ seq, en_sent env seq = true) (Hbatch : ∀ seq, en_batch_sent env seq = true).

Lemma send_chunks_all batching p indices s : ∃ s' packets, send_chunks env batching p indices s = (s', packets, true) ∧
  wire <$> packets = (λ i, (PtFrameChunk, chunk_payload p i)) <$> indices ∧ us_pending s' = us_pending s ∧ keeps_id s s'.
Proof.
  revert s. induction indices as [|i indices IH]; intros s; cbn [send_chunks]; [by exists s, []|].
  unfold send_packet. cbv zeta. rewrite Hsent, orb_true_r. set (u := u_recovery _ _). destruct (IH u) as (s' & packets & -> & H2 & H3 & H4).
  eexists s', _. split; [done|]. split; [cbn; by rewrite H2|]. split; [done|]. etransitivity; [|exact H4]. repeat split; cbn; by rewrite retain_enabled.
Qed.
Lemma send_parities_all n parity s : Forall (λ q, ∃ b, FrameParity_encode q = Ok b) parity → ∃ s' packets, send_parities env n parity s = (s', packets, Ok (drop n parity)) ∧
  wire <$> packets = (λ q, (PtFrameParity, parity_bytes q)) <$> take n parity ∧ us_pending s' = us_pending s ∧ keeps_id s s'.
Proof.
  revert parity s. induction n as [|n IH]; intros parity s Hp; [by exists s, []|]. destruct parity as [|q parity]; cbn [send_parities]; [by exists s, []|].
  apply Forall_cons in Hp as [[b Hb] Hp]. rewrite Hb. unfold send_packet. cbv zeta. rewrite Hsent. set (u := u_sequence _ s).
  destruct (IH parity u Hp) as (s' & packets & -> & H2 & H3 & H4). eexists s', _. split; [done|]. split; [|done]. cbn. rewrite H2. unfold parity_bytes at 2. by rewrite Hb.
Qed.
Lemma finish_all p s : ∃ s' packets, finish_frame env p s = (s', packets, Ok tt) ∧ wire <$> packets = pings env ∧ us_pending s' = us_pending s ∧ keeps_id s s'.
Proof.
  unfold finish_frame, send_packet, pings. destruct (en_echo env); cbv zeta; rewrite ?Hsent; cbn [negb]; destruct (vf_is_key_frame (pv_frame p)); eexists _, _; (split; [done|]); by repeat split.
Qed.

Lemma burst_range s : 2 <= burst_packets s <= 8.
Proof. unfold burst_packets. lia. Qed.

(** One burst: either the frame is finished, or less is left. *)
Lemma burst_sends k s p : us_pending s = Some p → sendable p → video_expired (pv_frame p) (en_now env k) = false →
  ∃ s' packets, send_video_burst env k s = (s', packets, Ok tt) ∧ keeps_id s s' ∧
    (us_pending s' = None ∧ wire <$> packets = rest_of env p ∨
     ∃ p', us_pending s' = Some p' ∧ pv_frame p' = pv_frame p ∧ sendable p' ∧ (bursts_left p' < bursts_left p)%nat ∧ rest_of env p = (wire <$> packets) ++ rest_of env p').
Proof.
  intros Hp [Hi Hq] He. unfold send_video_burst. rewrite Hp, He. cbv zeta. set (n := div_ceil _ _) in *. set (e := Z.min _ n).
  assert (pv_index p <= e <= n) as Hen by (subst e; pose proof (burst_range (u_pending None s)); lia).
  assert (pv_index p < n → pv_index p < e) as Hprog by (subst e; pose proof (burst_range (u_pending None s)); lia). clearbody e.
  set (b := en_batches env && _). destruct (send_chunks_all b p (seqZ (pv_index p) (e - pv_index p)) (u_pending None s)) as (t & pk & -> & C2 & C3 & C4).
  rewrite Hbatch. cbn [negb]. rewrite andb_false_r. set (pe := mk_PendingVideo (pv_frame p) e (pv_chunk_size p) (pv_parity p) (pv_frame_id p)).
  assert (rest_of env pe = ((λ i, (PtFrameChunk, chunk_payload p i)) <$> seqZ e (n - e)) ++ ((λ q, (PtFrameParity, parity_bytes q)) <$> pv_parity p) ++ pings env) as Hpe by reflexivity.
  assert (rest_of env p = (wire <$> pk) ++ rest_of env pe) as Hrest.
  { rewrite Hpe, C2, app_assoc, <- fmap_app. unfold rest_of. fold n. f_equal. f_equal.
    replace (n - pv_index p) with ((e - pv_index p) + (n - e)) by lia. rewrite seqZ_app by lia. by replace (pv_index p + (e - pv_index p)) with e by lia. }
  destruct (Z.ltb_spec e n) as [Hlt|Hge].
  - eexists _, _. split; [done|]. split; [exact C4|]. right. exists pe. split; [done|]. split; [done|]. split; [split; [cbn; fold n; lia|done]|]. split; [|done].
    unfold bursts_left. cbn [pe pv_index pv_frame pv_chunk_size pv_parity]. fold n. pose proof (zlen_nonneg (pv_parity p)). lia.
  - assert (e = n) as -> by lia. cbn [pe pv_parity]. destruct (pv_parity p) as [|q parity] eqn:Eq.
    + destruct (finish_all pe t) as (u & more & -> & F2 & F3 & F4). eexists _, _. split; [done|]. split; [by etransitivity|]. left. split; [by rewrite F3, C3|].
      rewrite fmap_app, F2, Hrest, Hpe, ?Eq, seqZ_nil by lia. done.
    + destruct (send_parities_all (Z.to_nat (burst_packets t)) (q :: parity) t) as (u & more & -> & Q2 & Q3 & Q4); [done|].
      set (b2 := Z.to_nat (burst_packets t)) in *. assert (1 <= b2)%nat as Hb2 by (subst b2; pose proof (burst_range t); lia).
      eexists _, _. split; [done|]. split; [by etransitivity|]. right. eexists. split; [done|]. cbn [pv_frame]. split; [done|]. split; [split; [cbn; fold n; lia|]; cbn; by apply Forall_drop|]. split.
      * unfold bursts_left. cbn [pe pv_index pv_frame pv_chunk_size pv_parity]. fold n. rewrite ?Eq. unfold zlen. rewrite length_drop. cbn [length]. lia.
      * rewrite Hrest, Hpe, fmap_app, <- app_assoc, ?Eq. f_equal. unfold rest_of. cbn [pe pv_index pv_frame pv_chunk_size pv_parity]. fold n. rewrite !seqZ_nil by lia.
        rewrite fmap_nil, !app_nil_l, Q2. rewrite <- (take_drop b2 (q :: parity)) at 1. rewrite fmap_app, <- app_assoc. done.
Qed.

Lemma drain_sends fuel k s p : us_pending s = Some p → us_incremental s = false → sendable p → (∀ k, video_expired (pv_frame p) (en_now env k) = false) → (bursts_left p <= fuel)%nat →
  ∃ s' packets, drain env fuel k s = (s', packets, Ok tt) ∧ us_pending s' = None ∧ keeps_id s s' ∧ wire <$> packets = rest_of env p.
Proof.
  revert k s p. induction fuel as [|fuel IH]; intros k s p Hp Hinc Hs He Hf.
  { exfalso. destruct Hs as [Hi _]. unfold bursts_left in Hf. pose proof (zlen_nonneg (pv_parity p)). lia. }
  cbn [drain]. rewrite Hinc, Hp. cbn [orb]. rewrite bool_decide_eq_true_2 by eauto. cbn [negb].
  destruct (burst_sends k s p Hp Hs (He k)) as (t & pk & -> & B2 & [[B3 B4]|(p' & B3 & B4 & B5 & B6 & B7)]).
  - exists t, (pk ++ []). split; [|split; [done|split; [done|by rewrite app_nil_r]]]. destruct fuel; cbn [drain]; rewrite B3, bool_decide_eq_false_2 by (by intros [? ?]); by rewrite orb_true_r.
  - destruct (IH (S k) t p' B3) as (s' & more & -> & I2 & I3 & I4); [by rewrite (proj1 (proj2 B2))|done|by rewrite B4|lia|].
    eexists s', _. split; [done|]. split; [done|]. split; [by etransitivity|]. by rewrite fmap_app, I4, B7.
Qed.
End sends.

Lemma parity_encodes id cs P q : P <= MAX_CHUNKS_PER_FRAME → Forall (λ c, zlen c <= MAX_VIDEO_CHUNK_BYTES) cs → q ∈ build_parity id cs P → ∃ b, FrameParity_encode q = Ok b.
Proof.
  intros HP Hc [k Hk]%list_elem_of_lookup. apply build_parity_lookup in Hk as [Hk ->]. unfold FrameParity_encode, FrameParity_validate.
  pose proof (zlen_build_one id cs P (Z.of_nat k) ltac:(lia) Hc). cbn [build_one fp_parity_count fp_parity_index].
  destruct (Z.eqb_spec P 0); [lia|]. destruct (Z.ltb_spec MAX_CHUNKS_PER_FRAME P); [lia|]. cbn [orb]. destruct (Z.leb_spec P (Z.of_nat k)); [lia|].
  destruct (Z.ltb_spec MAX_VIDEO_CHUNK_BYTES (zlen (fp_data (build_one id cs P (Z.of_nat k))))); [lia|]. by eexists.
Qed.

(** The chunks and parities of a frame, as the sender cuts it. *)
Definition cut (s : UdpSender) (frame : VideoFrame) : list (list byte) := frame_chunks (vf_data frame) (sender_chunk_size s).
Definition frame_parities (env : Env) (s : UdpSender) (frame : VideoFrame) (id : Z) : list FrameParity :=
  if rc_enabled (us_recovery s) then build_parity id (cut s frame) (parity_count_for (zlen (cut s frame)) (en_wanted env (zlen (cut s frame)))) else [].


(** ** The media loop keeps the reference chain *)

(** A frame whose header was sent, and a frame whose last packet was sent. *)
Inductive Mark : Type := Begun (id : Z) (f : VideoFrame) | Sent (id : Z) (f : VideoFrame).
Definition sent_mark (r : Result unit SendError) (id : Z) (f : VideoFrame) (s' : UdpSender) : list Mark :=
  match r, us_pending s' with Ok _, None => [Sent id f] | _, _ => [] end.
Definition burst_marks (env : Env) (s : UdpSender) : list Mark :=
  match us_pending s with
  | Some p => let '(s', _, r) := send_video_burst env 0 s in sent_mark r (pv_frame_id p) (pv_frame p) s'
  | None => []
  end.
Definition admit_marks (env : Env) (now width height : Z) (frame : VideoFrame) (s : UdpSender) : list Mark :=
  if video_expired frame now || us_needs_keyframe s && negb (vf_is_key_frame frame) then [] else
  let '(s', _, r) := send_frame env now width height frame s in
  if us_frame_id s' =? us_frame_id s then [] else Begun (us_frame_id s') frame :: sent_mark r (us_frame_id s') frame s'.
Definition video_marks (env : Env) (now width height : Z) (frame : VideoFrame) (m : MediaLoop) : list Mark :=
  match us_pending (ml_sender m) with
  | Some _ => if zlen (ml_queued_video m) =? 16 then admit_marks env now width height frame (invalidate_reference now (ml_sender m)) else []
  | None => admit_marks env now width height frame (ml_sender m)
  end.
(** The marks of a turn, and the frame it takes from the encoder. *)
Definition turn_marks (e : LoopEvent) (m : MediaLoop) : list Mark :=
  match e with
  | LpBurst env _ => burst_marks env (ml_sender m)
  | LpVideo env now width height frame =>
      match us_pending (ml_sender m), ml_queued_video m with None, _ :: _ => [] | _, _ => video_marks env now width height frame m end
  | LpQueued env now width height =>
      match us_pending (ml_sender m), ml_queued_video m with None, frame :: _ => video_marks env now width height frame m | _, _ => [] end
  | _ => []
  end.
Definition turn_takes (e : LoopEvent) (m : MediaLoop) : list VideoFrame :=
  match e with
  | LpVideo _ _ _ _ frame => match us_pending (ml_sender m), ml_queued_video m with None, _ :: _ => [] | _, _ => [frame] end
  | _ => []
  end.
Fixpoint run_marks (evs : list LoopEvent) (m : MediaLoop) : list Mark :=
  match evs with [] => [] | e :: evs => turn_marks e m ++ run_marks evs (loop_turn e m).1 end.
Fixpoint run_takes (evs : list LoopEvent) (m : MediaLoop) : list VideoFrame :=
  match evs with [] => [] | e :: evs => turn_takes e m ++ run_takes evs (loop_turn e m).1 end.

(** Before a dependent frame comes the last packet of the frame before it. *)
Definition chained (A : list VideoFrame) (L : list Mark) : Prop :=
  ∀ l1 id f l2, L = l1 ++ Begun id f :: l2 → vf_is_key_frame f = false →
    (l1 = [] ∧ A !! 0%nat = Some f) ∨
    ∃ l0 id' g k, l1 = l0 ++ [Sent id' g] ∧ id = (id' + 1) mod 2 ^ 32 ∧ A !! k = Some g ∧ A !! S k = Some f.

(** The queue is what the encoder delivered from [lo] on. *)
Record chain_ok (A : list VideoFrame) (L : list Mark) (lo : nat) (m : MediaLoop) : Prop := {
  co_chained : chained A L;
  co_id : 0 <= us_frame_id (ml_sender m) <= u32_max;
  co_lo : (lo <= length A)%nat;
  co_queue : ml_queued_video m = drop lo A;
  co_pending p : us_pending (ml_sender m) = Some p → pv_frame_id p = us_frame_id (ml_sender m) ∧ (0 < lo)%nat ∧ A !! pred lo = Some (pv_frame p);
  co_idle : us_pending (ml_sender m) = None → us_needs_keyframe (ml_sender m) = true ∨ (L = [] ∧ lo = 0%nat) ∨
    ∃ g, last L = Some (Sent (us_frame_id (ml_sender m)) g) ∧ (0 < lo)%nat ∧ A !! pred lo = Some g;
}.

Lemma burst_fate env k s s' packets r p : us_pending s = Some p → send_video_burst env k s = (s', packets, r) →
  us_frame_id s' = us_frame_id s ∧ (r = Ok tt → ∀ p', us_pending s' = Some p' → pv_frame_id p' = pv_frame_id p ∧ pv_frame p' = pv_frame p) ∧ (∀ e, r = Err e → us_pending s' = None).
Proof.
  intros Hp. unfold send_video_burst. rewrite Hp. cbv zeta. destruct (video_expired _ _); [by intros [= <- <- <-]|].
  assert (∀ b idx u u' pk ok, send_chunks env b p idx u = (u', pk, ok) → us_frame_id u' = us_frame_id u ∧ us_pending u' = us_pending u) as Hc.
  { intros b idx. induction idx as [|i idx IH]; intros u u' pk ok; cbn [send_chunks]; [by intros [= <- <- <-]|]. unfold send_packet. cbv zeta.
    destruct (b || _); [|by intros [= <- <- <-]]. destruct (send_chunks env b p idx _) as [[t q] o] eqn:E. intros [= <- <- <-]. by destruct (IH _ _ _ _ E). }
  assert (∀ n l u u' pk x, send_parities env n l u = (u', pk, x) → us_frame_id u' = us_frame_id u ∧ us_pending u' = us_pending u) as Hq.
  { induction n as [|n IH]; intros l u u' pk x; cbn [send_parities]; [by intros [= <- <- <-]|]. destruct l as [|q l]; [by intros [= <- <- <-]|].
    destruct (FrameParity_encode q); [|by intros [= <- <- <-]]. unfold send_packet. cbv zeta. destruct (en_sent env _); [|by intros [= <- <- <-]].
    destruct (send_parities env n l _) as [[t y] o] eqn:E. intros [= <- <- <-]. by destruct (IH _ _ _ _ _ E). }
  destruct (send_chunks env _ p _ _) as [[t pk] ok] eqn:Ec. apply Hc in Ec as [C1 C2]. cbn in C1, C2.
  destruct ok; cbn [negb]; [|by intros [= <- <- <-]]. destruct (_ && negb _); [by intros [= <- <- <-]|]. destruct (_ <? _); [intros [= <- <- <-]; split; [done|]; split; [|done]; by intros _ p' [= <-]|].
  cbn [pv_parity]. destruct (pv_parity p) as [|q l].
  - unfold finish_frame, send_packet. destruct (en_echo env); cbv zeta; [destruct (en_sent env _); cbn [negb]; [|by intros [= <- <- <-]]|];
      destruct (en_sent env _); cbn [negb]; intros [= <- <- <-]; destruct (vf_is_key_frame (pv_frame p)); cbn; rewrite C2; by split.
  - destruct (send_parities env _ (q :: l) t) as [[u more] x] eqn:Es. apply Hq in Es as [Q1 Q2]. destruct x as [rest|e]; intros [= <- <- <-]; [|split; [congruence|split; [done|congruence]]].
    split; [cbn; congruence|]. split; [|done]. by intros _ p' [= <-].
Qed.

(** What becomes of a frame that is given to the sender. *)
Lemma send_frame_fate env now width height frame s s' packets r : us_pending s = None → 0 <= us_frame_id s <= u32_max → send_frame env now width height frame s = (s', packets, r) →
  (us_frame_id s' = us_frame_id s ∧ r ≠ Ok tt) ∨
  (us_frame_id s' = (us_frame_id s + 1) mod 2 ^ 32 ∧ us_frame_id s' ≠ us_frame_id s ∧
   (r = Ok tt → ∀ p, us_pending s' = Some p → pv_frame_id p = us_frame_id s' ∧ pv_frame p = frame)).
Proof.
  intros Hp Hid. unfold send_frame. destruct (video_expired _ _); [intros [= <- <- <-]; by left|]. cbv zeta. destruct (_ || _); [intros [= <- <- <-]; by left|].
  destruct (FrameHeader_encode _); [|intros [= <- <- <-]; by left]. set (id := (us_frame_id s + 1) mod 2 ^ 32).
  assert (id ≠ us_frame_id s) as Hne.
  { subst id. unfold u32_max in Hid. intros E. destruct (Z.eq_dec (us_frame_id s) (2 ^ 32 - 1)) as [E'|]; [by rewrite E' in E|]. rewrite Z.mod_small in E; lia. }
  unfold send_packet. cbv zeta. destruct (en_sent env _); cbn [negb]; [|intros [= <- <- <-]; right; done].
  set (s2 := u_pending _ _). set (p0 := mk_PendingVideo frame 0 _ _ id) in s2.
  destruct (send_video_burst env 0 s2) as [[t pk] o] eqn:Eb. destruct (burst_fate env 0 s2 t pk o p0 eq_refl Eb) as (F1 & F2 & F3). cbn in F1.
  destruct o as [[]|e]; [|intros [= <- <- <-]; right; split; [done|]; split; [congruence|done]].
  assert (∀ fuel k t t' more x, us_frame_id t = id → (∀ p', us_pending t = Some p' → pv_frame_id p' = id ∧ pv_frame p' = frame) → drain env fuel k t = (t', more, x) →
    us_frame_id t' = id ∧ (x = Ok tt → ∀ p', us_pending t' = Some p' → pv_frame_id p' = id ∧ pv_frame p' = frame)) as Hd.
  { clear. induction fuel as [|fuel IH]; intros k t t' more x Ht Hp; cbn [drain]; destruct (us_incremental t || _) eqn:Ei; try (by intros [= <- <- <-]).
    destruct (send_video_burst env k t) as [[u pk] o] eqn:Eb. apply orb_false_iff in Ei as [_ Ei%negb_false_iff%bool_decide_eq_true]. destruct Ei as [p' Ep].
    destruct (burst_fate env k t u pk o p' Ep Eb) as (F1 & F2 & F3). destruct o as [[]|e]; [|intros [= <- <- <-]; split; [congruence|done]].
    destruct (drain env fuel (S k) u) as [[u' more'] x'] eqn:Ed. intros [= <- <- <-]. destruct (Hp p' Ep) as [P1 P2].
    apply (IH (S k) u u' more' x'); [congruence| |done]. intros q Hq. destruct (F2 eq_refl q Hq). split; congruence. }
  destruct (drain env _ 1 t) as [[t' more] x] eqn:Ed. intros [= <- <- <-]. destruct (Hd _ _ _ _ _ _ F1 ltac:(intros p' Hp'; exact (F2 eq_refl p' Hp')) Ed) as [D1 D2].
  right. split; [done|]. split; [congruence|]. intros Hx p Hpp. rewrite D1. by apply D2.
Qed.

Lemma chained_more A A' L : chained A L → (∀ k f, A !! k = Some f → A' !! k = Some f) → chained A' L.
Proof.
  intros Hc HA l1 id f l2 HL Hk. destruct (Hc l1 id f l2 HL Hk) as [[H1 H2]|(l0 & id' & g & k & H1 & H2 & H3 & H4)]; [left; auto|right]. exists l0, id', g, k. auto.
Qed.
Lemma chained_sent A L id g : chained A L → chained A (L ++ [Sent id g]).
Proof.
  intros Hc l1 i f l2 HL Hk. destruct l2 as [|x l2] using rev_ind.
  - apply app_inj_tail in HL as [_ [=]].
  - clear IHl2. rewrite app_comm_cons, app_assoc in HL. apply app_inj_tail in HL as [HL _]. by apply (Hc l1 i f l2).
Qed.
Lemma chained_begun A L id f : chained A L →
  (vf_is_key_frame f = false → (L = [] ∧ A !! 0%nat = Some f) ∨ ∃ l0 id' g k, L = l0 ++ [Sent id' g] ∧ id = (id' + 1) mod 2 ^ 32 ∧ A !! k = Some g ∧ A !! S k = Some f) →
  chained A (L ++ [Begun id f]).
Proof.
  intros Hc Hf l1 i g l2 HL Hk. destruct l2 as [|x l2] using rev_ind.
  - apply app_inj_tail in HL as [-> [= <- <-]]. by apply Hf.
  - clear IHl2. rewrite app_comm_cons, app_assoc in HL. apply app_inj_tail in HL as [HL _]. by apply (Hc l1 i g l2).
Qed.

Lemma admit_chain A L lo frame env now width height s q m' packets : chained A L → 0 <= us_frame_id s <= u32_max → us_pending s = None → A !! lo = Some frame → q = drop (S lo) A →
  (us_needs_keyframe s = true ∨ (L = [] ∧ lo = 0%nat) ∨ ∃ g, last L = Some (Sent (us_frame_id s) g) ∧ (0 < lo)%nat ∧ A !! pred lo = Some g) →
  admit_video env now width height frame (mk_MediaLoop s q) = (m', packets) →
  chain_ok A (L ++ admit_marks env now width height frame s) (S lo) m'.
Proof.
  intros Hc Hid Hp Hlo Hq Hidle. pose proof (lookup_lt_Some _ _ _ Hlo) as Hlen. unfold admit_video, admit_marks. cbn [ml_sender ml_queued_video].
  assert (∀ L' t, chained A L' → 0 <= us_frame_id t <= u32_max → chain_ok A L' (S lo) (mk_MediaLoop (invalidate_reference now t) q)) as Hinv.
  { intros L' t HL' Ht. destruct (invalidate_fields now t) as (_ & I2 & I3 & I4). split; cbn [ml_sender ml_queued_video]; [done|by rewrite I2|lia|done|by rewrite I3|auto]. }
  destruct (video_expired frame now); cbn [orb]; [intros [= <- _]; rewrite app_nil_r; by apply Hinv|].
  destruct (us_needs_keyframe s && negb (vf_is_key_frame frame)) eqn:En.
  { apply andb_true_iff in En as [En _]. intros [= <- _]. rewrite app_nil_r. split; cbn [ml_sender ml_queued_video]; [done|done|lia|done|by rewrite Hp|auto]. }
  destruct (send_frame env now width height frame s) as [[t pk] r] eqn:Es.
  destruct (send_frame_fate env now width height frame s t pk r Hp Hid Es) as [[F1 F2]|(F1 & F2 & F3)].
  { rewrite F1, Z.eqb_refl, app_nil_r. destruct r as [[]|e]; [done|]. intros [= <- _]. apply Hinv; [done|by rewrite F1]. }
  destruct (Z.eqb_spec (us_frame_id t) (us_frame_id s)) as [|_]; [done|].
  assert (0 <= us_frame_id t <= u32_max) as Hidt by (rewrite F1; pose proof (Z.mod_pos_bound (us_frame_id s + 1) (2 ^ 32) ltac:(lia)); unfold u32_max; lia).
  assert (chained A (L ++ [Begun (us_frame_id t) frame])) as HB.
  { apply chained_begun; [done|]. intros Hk. rewrite Hk in En. cbn in En. rewrite andb_true_r in En. destruct Hidle as [Hi|[[-> ->]|(g & Hg & Hlo0 & HA)]]; [congruence|by left|right].
    apply last_Some in Hg as [l0 ->]. exists l0, (us_frame_id s), g, (pred lo). split; [done|]. split; [done|]. split; [done|]. by rewrite Nat.succ_pred by lia. }
  change (Begun (us_frame_id t) frame :: sent_mark r (us_frame_id t) frame t) with ([Begun (us_frame_id t) frame] ++ sent_mark r (us_frame_id t) frame t). rewrite app_assoc.
  destruct r as [[]|e]; intros [= <- _]; [|cbn [sent_mark]; rewrite app_nil_r; by apply Hinv]. specialize (F3 eq_refl). unfold sent_mark.
  destruct (us_pending t) as [p|] eqn:Ept; [rewrite app_nil_r|]; (split; cbn [ml_sender ml_queued_video]; [try apply chained_sent; done|done|lia|done| |]); rewrite Ept.
  - intros p' [= <-]. destruct (F3 p eq_refl) as [G1 G2]. split; [done|]. split; [lia|]. cbn. by rewrite G2.
  - done.
  - done.
  - intros _. right. right. exists frame. rewrite last_snoc. split; [done|]. split; [lia|done].
Qed.

Lemma chain_fields A L lo m m' : ml_queued_video m' = ml_queued_video m → us_pending (ml_sender m') = us_pending (ml_sender m) →
  us_frame_id (ml_sender m') = us_frame_id (ml_sender m) → us_needs_keyframe (ml_sender m') = us_needs_keyframe (ml_sender m) → chain_ok A L lo m → chain_ok A L lo m'.
Proof. intros E1 E2 E3 E4 [C1 C2 C3 C4 C5 C6]. split; [done|by rewrite E3|done|by rewrite E1|rewrite E2, E3; exact C5|rewrite E2, E3, E4; exact C6]. Qed.

(** A loss that clears the queue. *)
Lemma chain_lost A L s : chained A L → 0 <= us_frame_id s <= u32_max → us_pending s = None → us_needs_keyframe s = true → chain_ok A L (length A) (mk_MediaLoop s []).
Proof. intros Hc Hid Hp Hn. split; cbn; [done|done|done|by rewrite drop_all|by rewrite Hp|auto]. Qed.

Lemma retransmits_fields env now n s s' packets r : send_retransmits env now n s = (s', packets, r) →
  us_pending s' = us_pending s ∧ us_frame_id s' = us_frame_id s ∧ us_needs_keyframe s' = us_needs_keyframe s.
Proof.
  revert s s' packets r. induction n as [|n IH]; intros s s' packets r; cbn [send_retransmits]; [by intros [= <- <- <-]|].
  destruct (next now (us_recovery s)) as [rc [payload|]]; [|by intros [= <- <- <-]]. unfold send_packet. cbv zeta. destruct (en_sent env _); [|by intros [= <- <- <-]].
  destruct (send_retransmits env now n _) as [[t pk] o] eqn:E. intros [= <- <- <-]. by destruct (IH _ _ _ _ E) as (-> & -> & ->).
Qed.

Lemma chain_arrives A L lo m frame : chain_ok A L lo m → chained (A ++ [frame]) L ∧ (lo <= length A)%nat ∧ drop lo (A ++ [frame]) = ml_queued_video m ++ [frame].
Proof.
  intros [C1 C2 C3 C4 C5 C6]. split; [|split; [done|]].
  - eapply chained_more; [done|]. intros k f Hk. by apply lookup_app_l_Some.
  - rewrite C4. by apply drop_app_le.
Qed.

Lemma video_chain A L lo env now width height frame m m' packets : chain_ok A L lo m → (us_pending (ml_sender m) = None → ml_queued_video m = []) →
  video_event env now width height frame m = (m', packets) → ∃ lo', chain_ok (A ++ [frame]) (L ++ video_marks env now width height frame m) lo' m'.
Proof.
  intros Hm Hq. destruct (chain_arrives A L lo m frame Hm) as (A1 & A2 & A3). pose proof Hm as [C1 C2 C3 C4 C5 C6].
  assert ((A ++ [frame]) !! length A = Some frame) as Hlast by (by rewrite lookup_app_r, Nat.sub_diag by lia).
  assert ([] = drop (S (length A)) (A ++ [frame])) as Hdrop by (rewrite drop_ge; [done|rewrite length_app; cbn; lia]).
  unfold video_event, video_marks. destruct (us_pending (ml_sender m)) as [p|] eqn:Ep.
  - destruct (_ =? 16).
    + intros E. exists (S (length A)). destruct (invalidate_fields now (ml_sender m)) as (_ & I2 & I3 & I4).
      eapply admit_chain; [done|by rewrite I2|done|done|exact Hdrop|by left|exact E].
    + intros [= <- _]. rewrite app_nil_r. exists lo. split; cbn [ml_sender ml_queued_video]; [done|done|rewrite length_app; lia|by rewrite A3| |by rewrite Ep].
      intros p'. rewrite Ep. intros Hp'. destruct (C5 p' Hp') as (G1 & G2 & G3). split; [done|]. split; [done|]. by apply lookup_app_l_Some.
  - intros E. exists (S (length A)). destruct m as [s q]. cbn [ml_sender ml_queued_video] in *. rewrite (Hq eq_refl) in *.
    assert (lo = length A) as -> by (apply (f_equal length) in C4; rewrite length_drop in C4; cbn in C4; lia).
    eapply admit_chain; [done|done|done|done|exact Hdrop| |exact E]. destruct (C6 eq_refl) as [H|[[-> H]|(g & H1 & H2 & H3)]]; [by left| |].
    + right. left. done.
    + right. right. exists g. split; [done|]. split; [done|]. by apply lookup_app_l_Some.
Qed.

Lemma turn_chain A L lo e m : chain_ok A L lo m → ∃ lo', chain_ok (A ++ turn_takes e m) (L ++ turn_marks e m) lo' (loop_turn e m).1.
Proof.
  intros Hm. pose proof Hm as [C1 C2 C3 C4 C5 C6]. destruct e as [env now|env now width height frame|env now width height|env now|nack now|now|]; cbn [loop_turn turn_takes turn_marks].
  - unfold burst_turn, burst_marks. rewrite app_nil_r. destruct (us_pending (ml_sender m)) as [p|] eqn:Ep.
    + destruct (send_video_burst env 0 (ml_sender m)) as [[s pk] r] eqn:E. destruct (burst_fate env 0 _ s pk r p Ep E) as (F1 & F2 & F3). destruct (C5 p eq_refl) as (P1 & P2 & P3).
      destruct r as [[]|e]; cbn [fst].
      * exists lo. unfold sent_mark. destruct (us_pending s) as [p'|] eqn:Es; [rewrite app_nil_r|]; split; cbn [ml_sender ml_queued_video]; rewrite ?F1, ?Es; try done.
        -- intros x [= <-]. destruct (F2 eq_refl p' eq_refl) as [-> ->]. done.
        -- by apply chained_sent.
        -- intros _. right. right. exists (pv_frame p). rewrite last_snoc, P1. done.
      * cbn [sent_mark]. rewrite app_nil_r. exists (length A). destruct (invalidate_fields now s) as (_ & I2 & I3 & I4). apply chain_lost; [done|by rewrite I2, F1|done|done].
    + unfold send_video_burst. rewrite Ep. cbn [fst]. rewrite app_nil_r. exists lo. by destruct m.
  - destruct (us_pending (ml_sender m)) eqn:Ep; [|destruct (ml_queued_video m) eqn:Eq].
    + destruct (video_event env now width height frame m) as [m' pk] eqn:E. eapply (video_chain A L lo); [done|by rewrite Ep|exact E].
    + destruct (video_event env now width height frame m) as [m' pk] eqn:E. eapply (video_chain A L lo); [done|by rewrite Eq|exact E].
    + rewrite !app_nil_r. by exists lo.
  - rewrite app_nil_r. destruct (us_pending (ml_sender m)) eqn:Ep; [rewrite app_nil_r; by exists lo|]. destruct (ml_queued_video m) as [|frame q] eqn:Eq; [rewrite app_nil_r; by exists lo|].
    destruct (video_event env now width height frame (mk_MediaLoop (ml_sender m) q)) as [m' pk] eqn:E. cbn [fst]. unfold video_event in E. cbn [ml_sender] in E. unfold video_marks. rewrite Ep in *.
    exists (S lo). symmetry in C4. assert (A !! lo = Some frame) as Hlo by (rewrite <- (Nat.add_0_r lo), <- lookup_drop, C4; done).
    eapply admit_chain; [done|done|done|exact Hlo| |exact (C6 eq_refl)|exact E]. assert (drop 1 (drop lo A) = q) as <- by (by rewrite C4). rewrite drop_drop. f_equal. lia.
  - rewrite !app_nil_r. unfold send_retransmit_burst. destruct (send_retransmits env now _ (ml_sender m)) as [[s pk] r] eqn:E. apply retransmits_fields in E as (E1 & E2 & E3).
    exists lo. by apply (chain_fields A L lo m).
  - rewrite !app_nil_r. exists lo. by apply (chain_fields A L lo m).
  - rewrite !app_nil_r. exists lo. destruct (request_fields now (ml_sender m)) as (_ & E1 & E2 & E3). by apply (chain_fields A L lo m).
  - rewrite !app_nil_r. exists (length A). by apply chain_lost.
Qed.

(** C20: The host never sends a frame whose reference is missing.  However the turns of the media
    loop follow each other, with any frames of the encoder, failing sends, expired frames, full
    queues and restarts: when the header of a frame that is not a key frame goes out, the last
    thing before it was the last packet of the frame the encoder produced immediately before it,
    and the two frame ids are consecutive; or it is the very first frame.  (The client
    recognises a gap in the ids: [queue_decodable].) *)
Theorem host_chain_intact (recovery incremental : bool) (send_capacity : Z) (evs : list LoopEvent) :
  let m := mk_MediaLoop (sender_new recovery incremental send_capacity) [] in
  chained (run_takes evs m) (run_marks evs m).
Proof.
  intros m. assert (∀ evs A L lo m, chain_ok A L lo m → chained (A ++ run_takes evs m) (L ++ run_marks evs m)) as Hr.
  { clear. induction evs as [|e evs IH]; intros A L lo m Hm; cbn [run_takes run_marks]; [rewrite !app_nil_r; by destruct Hm|].
    destruct (turn_chain A L lo e m Hm) as [lo' Hm']. rewrite !app_assoc. by apply (IH _ _ lo'). }
  apply (Hr evs [] [] 0%nat m). split; cbn; try done; [|auto]. intros l1 id f l2 H. by destruct l1.
Qed.
