(* ===== verification/RdStream.v ===== *)
(** * RdStream: pictures over encrypted datagrams

    The whole path of a picture: the host's sender (RdSender) makes packets, the datagram cipher
    (RdUdp) seals them among the session's other packets, the network does what it wants, the
    client opens what arrives and hands it to the assembler (RdVideo, RdAssembly).  With
    [receive_next_at] of crates/ferryx-rd/ferryx-rd-app/src/session.rs, less its traces. *)

From S2P Require Import Prelude Wire RdCodec RdPacket RdMedia RdFec RdRecovery RdSender RdAssembly RdAssemblySpec RdUdp RdVideo.
From Stdlib Require Import ZArith Lia Strings.Byte.
From stdpp Require Import base option gmap strings list_numbers list.

#[local] Open Scope Z_scope.

(** ** The client's receive path *)

Record Receiver := mk_Receiver { rx_cipher : DatagramCipher; rx_assembler : FrameAssembler }.
Inductive Received : Type :=
| RxRejected (e : DatagramError)
| RxHandled (r : Result (option AssembledFrame) VideoError).
Inductive ReceiverOp : Type :=
| RxDatagram (datagram : list byte) (received_at : Z)
| RxNack (now loss_permille rtt : Z)
| RxClear.

Section receiver.
Context (aes_gcm_decrypt : list byte → list byte → list byte → list byte → option (list byte)).
Context (fec : bool).

(** A datagram that does not open is reported and leaves the assembler as it is. *)
Definition receive_datagram (datagram : list byte) (received_at : Z) (x : Receiver) : Receiver * Received :=
  match open_datagram aes_gcm_decrypt datagram (rx_cipher x) with
  | (c, Err e) => (mk_Receiver c (rx_assembler x), RxRejected e)
  | (c, Ok (header, payload)) =>
      let '(s, r) := handle_video fec header payload received_at (rx_assembler x) in (mk_Receiver c s, RxHandled r)
  end.

Fixpoint receiver_run (ops : list ReceiverOp) (x : Receiver) : Receiver * list Received :=
  match ops with
  | [] => (x, [])
  | RxDatagram d t :: ops =>
      let '(x, r) := receive_datagram d t x in
      let '(x, rs) := receiver_run ops x in (x, r :: rs)
  | RxNack now loss rtt :: ops => receiver_run ops (mk_Receiver (rx_cipher x) (recovery_nack_with_rtt now loss rtt (rx_assembler x)).1)
  | RxClear :: ops => receiver_run ops (mk_Receiver (rx_cipher x) clear)
  end.

(** What the assembler sees of a run. *)
Fixpoint accepted (ops : list ReceiverOp) (c : DatagramCipher) : list ClientOp :=
  match ops with
  | [] => []
  | RxDatagram d t :: ops =>
      match open_datagram aes_gcm_decrypt d c with
      | (c, Err _) => accepted ops c
      | (c, Ok packet) => ClPacket packet t :: accepted ops c
      end
  | RxNack now loss rtt :: ops => ClNack now loss rtt :: accepted ops c
  | RxClear :: ops => ClClear :: accepted ops c
  end.
Definition handled (r : Received) : option (Result (option AssembledFrame) VideoError) :=
  match r with RxHandled r => Some r | RxRejected _ => None end.

(** The receiver refines the client of RdVideo on the packets that open. *)
Lemma receiver_refines ops x : omap handled (receiver_run ops x).2 = (client_run fec (accepted ops (rx_cipher x)) (rx_assembler x)).2.
Proof.
  revert x. induction ops as [|[d t|now loss rtt|] ops IH]; intros [c s]; cbn [receiver_run accepted client_run rx_cipher rx_assembler]; [done| | |].
  - unfold receive_datagram. cbn [rx_cipher rx_assembler]. destruct (open_datagram _ d c) as [c' [[h p]|e]].
    + cbn [client_run fst snd]. destruct (handle_video fec h p t s) as [s' r]. specialize (IH (mk_Receiver c' s')). cbn [rx_cipher rx_assembler] in IH.
      destruct (receiver_run ops _) as [x rs], (client_run fec _ s') as [s'' rs']. cbn [snd] in *. cbn. by rewrite IH.
    + specialize (IH (mk_Receiver c' s)). cbn [rx_cipher rx_assembler] in IH. destruct (receiver_run ops _) as [x rs]. cbn [snd] in *. cbn. by rewrite IH.
  - apply IH.
  - apply IH.
Qed.
End receiver.

(** ** What opens was sealed *)

Section opens.
Context (aes_gcm_encrypt : list byte → list byte → list byte → list byte → option (list byte * list byte)).
Context (aes_gcm_decrypt : list byte → list byte → list byte → list byte → option (list byte)).
Hypothesis tag_length : ∀ k n a p c t, aes_gcm_encrypt k n a p = Some (c, t) → zlen t = TAG_SIZE.
Hypothesis decrypt_encrypt : ∀ k n a p c t, aes_gcm_encrypt k n a p = Some (c, t) → aes_gcm_decrypt k n a (c ++ t) = Some p.
Context (c : DatagramCipher) (msgs : list (PacketHeader * list byte)) (out : list (Result (list byte) DatagramError)) (c_end : DatagramCipher).
Hypothesis prefix_length : length (dc_nonce_prefix c) = 4%nat.
Hypothesis from_zero : dc_send_counter c = 0.
Hypothesis msgs_hold : ∀ m, m ∈ msgs → RdCodec.holds m.1 = true.
Hypothesis sealed_out : seal_all aes_gcm_encrypt msgs c = (c_end, out).

Definition op_from (op : ReceiverOp) : Prop :=
  match op with RxDatagram d _ => authentic_or_rejected aes_gcm_decrypt c msgs out d | _ => True end.

Lemma accepted_sealed ops r S : receiver c S r → Forall op_from ops →
  ∀ p t, ClPacket p t ∈ accepted aes_gcm_decrypt ops r → p ∈ msgs.
Proof.
  intros Hr Ho. revert r S Hr. induction Ho as [|op ops Hop Ho IH]; intros r S Hr p t; cbn [accepted]; [by intros ?%not_elem_of_nil|].
  destruct op as [d t'|now loss rtt|].
  - destruct Hop as [(i & m & Hs)|Hf].
    + destruct (receiver_opens aes_gcm_encrypt aes_gcm_decrypt tag_length decrypt_encrypt c msgs out c_end prefix_length from_zero msgs_hold sealed_out S r i m d Hr Hs)
        as [(Hf & r' & E & Hr')|(Hf & E)]; rewrite E; [|by eapply IH].
      intros [[= -> ->]|Hin]%elem_of_cons; [by eapply sent_mem|by eapply IH].
    + destruct (open_datagram_forged aes_gcm_decrypt r d) as [e ->]; [destruct Hr as (-> & _); done|by eapply IH].
  - intros [[=]|Hin]%elem_of_cons. by eapply IH.
  - intros [[=]|Hin]%elem_of_cons. by eapply IH.
Qed.
End opens.

(** ** Pictures end to end *)

Definition is_video (h : PacketHeader) : bool :=
  match packet_type h with PtFrameHeader | PtFrameChunk | PtFrameParity => true | _ => false end.

(** C4: The client shows the host's pictures and nothing else, over a hostile network.  Let the
    host's media loop run for any number of turns below 2^32, with any frames of the encoder, any
    failures and delays of the system and any retransmission requests; let its packets be sealed,
    in any order and number, among any other packets of the session (sound, cursor, pings), with
    the keys both sides derived; and let the client receive any datagrams at all at any instants,
    as long as those that were not sealed fail authentication.  Then every datagram is rejected by
    the cipher or handled without error, and every frame the client assembles has exactly the bytes
    and the key frame flag of a frame the encoder produced. *)
Theorem video_over_udp hkdf_sha256 aes_gcm_encrypt aes_gcm_decrypt master_key session_salt c
    (fec incremental : bool) (send_capacity : Z) (evs : list LoopEvent) msgs c_end out (ops : list ReceiverOp) :
  (∀ ikm salt i n, 0 <= n → zlen (hkdf_sha256 ikm salt i n) = n) →
  (∀ k n a p ct t, aes_gcm_encrypt k n a p = Some (ct, t) → zlen t = TAG_SIZE) →
  (∀ k n a p ct t, aes_gcm_encrypt k n a p = Some (ct, t) → aes_gcm_decrypt k n a (ct ++ t) = Some p) →
  derive hkdf_sha256 master_key session_salt DirHostToClient = Ok c →
  Forall event_given evs → zlen evs <= u32_max →
  let packets := (loop_run evs (mk_MediaLoop (sender_new fec incremental send_capacity) [])).2 in
  (∀ m, m ∈ msgs → m ∈ packets ∨ (RdCodec.holds m.1 = true ∧ is_video m.1 = false)) →
  seal_all aes_gcm_encrypt msgs c = (c_end, out) →
  (∀ d t, RxDatagram d t ∈ ops → authentic_or_rejected aes_gcm_decrypt c msgs out d) →
  Forall (λ r, (∃ e, r = RxRejected e) ∨ (∃ x, r = RxHandled x ∧ shows (encoder_frames evs) x))
    (receiver_run aes_gcm_decrypt fec ops (mk_Receiver c assembler_default)).2.
Proof.
  intros Hl Ht Hde Hd Hg Hn packets Hm Hs Ha. destruct (derived_cipher _ _ _ _ _ Hl Hd) as (Hp & H0 & Hr).
  destruct (loop_table fec incremental send_capacity evs Hg Hn) as (T & HT & Hfrom & Hc). rewrite Forall_forall in Hc.
  assert (∀ m, m ∈ msgs → conforms T m) as Hconf.
  { intros m [Hin|[Hh Hv]]%Hm; [by apply Hc|]. split; [done|]. unfold is_video in Hv. by destruct (packet_type m.1). }
  assert (Forall (op_from aes_gcm_decrypt c msgs out) ops) as Hop by (apply Forall_forall; intros [d t| |] Hin; cbn; try done; by apply (Ha d t)).
  assert (Forall (shows (encoder_frames evs)) (omap handled (receiver_run aes_gcm_decrypt fec ops (mk_Receiver c assembler_default)).2)) as H.
  { rewrite receiver_refines. apply (client_shows T _ fec _ HT Hfrom). apply Forall_forall. intros [p t| |] Hin; cbn; try done. apply Hconf.
    refine (accepted_sealed aes_gcm_encrypt aes_gcm_decrypt Ht Hde c msgs out c_end Hp H0 _ Hs ops c ∅ Hr Hop p t Hin). intros m Hx. by apply Hconf. }
  apply Forall_forall. intros [e|x] Hin; [left; by exists e|right]. exists x. split; [done|]. rewrite Forall_forall in H. apply H, list_elem_of_omap. by exists (RxHandled x).
Qed.

(** The frames of RdVideo's run behind a heartbeat, received with a forged datagram and a repeat. *)
Definition demo_stream : list (PacketHeader * list byte) := (mk_PacketHeader PtPing 9 0 0, [x01]) :: demo_sent.
Definition demo_host_cipher : DatagramCipher := mk_DatagramCipher (replicate 32 x07) (replicate 4 x07) 0 window_default.
Definition demo_out : list (Result (list byte) DatagramError) := Eval vm_compute in (seal_all demo_encrypt demo_stream demo_host_cipher).2.
Definition demo_ops : list ReceiverOp :=
  RxDatagram [x00; x01] 4 :: omap (λ i, match demo_out !! i with Some (Ok d) => Some (RxDatagram d 5) | _ => None end) [6; 6; 5; 0; 1; 3]%nat.
Lemma video_over_udp_witness :
  (λ r, match r with RxHandled (Ok (Some af)) => Some (af_frame_data af) | _ => None end) <$>
    (receiver_run demo_decrypt true demo_ops (mk_Receiver demo_host_cipher assembler_default)).2 =
    [None; None; None; Some [x04; x05]; None; None; Some [x01; x02; x03]] ∧
  Forall (λ r, (∃ e, r = RxRejected e) ∨ (∃ x, r = RxHandled x ∧ shows (encoder_frames demo_evs) x))
    (receiver_run demo_decrypt true demo_ops (mk_Receiver demo_host_cipher assembler_default)).2.
Proof.
  split; [vm_compute; reflexivity|].
  destruct (seal_all demo_encrypt demo_stream demo_host_cipher) as [c_end out] eqn:Es.
  assert (out = demo_out) as -> by (transitivity (seal_all demo_encrypt demo_stream demo_host_cipher).2; [by rewrite Es|vm_compute; reflexivity]).
  apply (video_over_udp demo_hkdf demo_encrypt demo_decrypt (replicate 32 x00) (replicate 16 x00) demo_host_cipher true false 10000 demo_evs demo_stream c_end demo_out).
  - intros a b i n Hn. unfold demo_hkdf, zlen. rewrite length_replicate. lia.
  - intros k n a p c t Ht. assert (t = demo_tag n) as -> by (unfold demo_encrypt in Ht; congruence). apply demo_tag_length.
  - apply demo_decrypt_encrypt.
  - vm_compute; reflexivity.
  - repeat constructor; done.
  - done.
  - change (loop_run demo_evs _).2 with demo_sent. intros m [->|Hm]%elem_of_cons; [by right|by left].
  - exact Es.
  - intros d t [[= -> ->]|(i & Hi & Hd)%list_elem_of_omap]%elem_of_cons; [right; vm_compute; reflexivity|left].
    destruct (demo_out !! i) as [[x|]|] eqn:E; [|done|done]. injection Hd as <- <-.
    destruct (demo_stream !! i) as [m|] eqn:Em; [by exists i, m|]. apply lookup_ge_None in Em. apply lookup_lt_Some in E.
    change (length demo_stream) with (length demo_out) in Em. lia.
Defined.
