(* ===== verification/RdRelay.v ===== *)
(** * RdRelay: the rendezvous relay

    When a client cannot reach a host directly both dial a relay: the host registers under an id,
    clients connect to that id, and the relay forwards their frames.  This file has the relay's
    protocol (crates/ferryx-rd/ferryx-rd-proto/src/relay.rs) and the operations of the relay server
    (crates/ferryx-rd/ferryx-rd-relay/src/lib.rs): its tables of hosts, sessions and connection
    rates, and its two connection handlers cut into the pieces that touch a shared table once.
    HMAC-SHA256, serde_json and the text form of a UUID are parameters.  Instants and durations are
    nanoseconds; the channel of a connection is named by the connection that reads it. *)

From Stdlib Require Import ZArith Lia Strings.Byte.
From stdpp Require Import base option gmap strings list.
From S2P Require Import Prelude Wire RdCodec.

#[local] Open Scope Z_scope.

(** ** The protocol *)

Definition RELAY_FRAME_HEADER_LEN : Z := 17.
Definition RELAY_CHANNEL_TCP : Z := 1.
Definition RELAY_CHANNEL_UDP : Z := 2.
Definition RELAY_MAX_PAYLOAD_LEN : Z := 2 * 1024 * 1024.
Definition RELAY_MAX_SESSIONS_PER_HOST : Z := 4.
Definition RELAY_HOST_ID_MAX_LEN : Z := 128.

Definition lit (s : string) : String := String.list_byte_of_string s.
(** The ASCII classes, on the value of a byte. *)
Definition between (lo hi b : Z) : bool := (lo <=? b) && (b <=? hi).
Definition is_ascii_alphanumeric (b : Z) : bool := between 48 57 b || between 65 90 b || between 97 122 b.
Definition is_ascii_hexdigit (b : Z) : bool := between 48 57 b || between 65 70 b || between 97 102 b.
Definition to_ascii_lowercase (b : Z) : Z := if between 65 90 b then b + 32 else b.

Definition relay_host_id_ok (host_id : String) : bool :=
  if bool_decide (host_id = []) || (RELAY_HOST_ID_MAX_LEN <? zlen host_id) then false else
  forallb (λ c, let b := bz c in is_ascii_alphanumeric b || (b =? 46) || (b =? 95) || (b =? 45)) host_id.

Definition HEX_CHARS : list byte := lit "0123456789abcdef".
Definition hex_char (n : Z) : byte := default x00 (HEX_CHARS !! Z.to_nat n).

Record RelayFrame := mk_RelayFrame { rf_session_id : list byte; rf_channel : Z; rf_payload : list byte }.

Definition encode_relay_frame (session_id : list byte) (channel : Z) (payload : list byte) : Res (list byte) :=
  if negb (channel =? RELAY_CHANNEL_TCP) && negb (channel =? RELAY_CHANNEL_UDP) then Err (UnknownRelayChannel channel) else
  if RELAY_MAX_PAYLOAD_LEN <? zlen payload then Err (LengthLimit "relay payload" (zlen payload) RELAY_MAX_PAYLOAD_LEN) else
  Ok (session_id ++ [zb channel] ++ payload).

Definition decode_relay_frame (input : list byte) : Res RelayFrame :=
  if zlen input <? RELAY_FRAME_HEADER_LEN then Err (Truncated "relay frame header" RELAY_FRAME_HEADER_LEN (zlen input)) else
  let channel := bz (default x00 (input !! 16%nat)) in
  if negb (channel =? RELAY_CHANNEL_TCP) && negb (channel =? RELAY_CHANNEL_UDP) then Err (UnknownRelayChannel channel) else
  let payload_len := zlen input - RELAY_FRAME_HEADER_LEN in
  if RELAY_MAX_PAYLOAD_LEN <? payload_len then Err (LengthLimit "relay payload" payload_len RELAY_MAX_PAYLOAD_LEN) else
  Ok (mk_RelayFrame (take 16 input) channel (drop 17 input)).

Inductive RelayControl : Type :=
| RcRegister (host_id token : String)
| RcRegistered (host_id : String)
| RcConnect (host_id token : String)
| RcIncoming (session_id : String)
| RcAccept (session_id : String)
| RcConnected
| RcPing
| RcPong
| RcError (code message : String).

(** ** The server's state *)

Definition SECOND : Z := 1000000000.
Record RelayConfig := mk_RelayConfig {
  rc_auth_secret : list byte;
  rc_max_sessions_per_host : Z;
  rc_max_payload_len : Z;
  rc_idle_timeout : Z;
  rc_heartbeat : Z;
  rc_max_session_duration : Z;
  rc_connects_per_minute : Z;
  rc_accept_timeout : Z;
}.
Definition from_secret (secret : list byte) : RelayConfig :=
  mk_RelayConfig secret RELAY_MAX_SESSIONS_PER_HOST RELAY_MAX_PAYLOAD_LEN (60 * SECOND) (30 * SECOND) (24 * 60 * 60 * SECOND) 100 (10 * SECOND).
Definition config_from_secret (secret : option String) : option RelayConfig :=
  match secret with
  | Some value => if bool_decide (value = []) then None else Some (from_secret value)
  | None => None
  end.

Definition conn : Type := positive.
Bind Scope positive_scope with conn.
Definition IpAddr : Type := list byte.
Record Session := mk_Session {
  ss_host_id : String;
  ss_client_tx : conn;
  ss_accept_tx : option conn;
  ss_created : Z;
}.
Definition with_accept_tx (a : option conn) (x : Session) : Session := mk_Session (ss_host_id x) (ss_client_tx x) a (ss_created x).

Record Relay := mk_Relay {
  rl_hosts : gmap String conn;
  rl_sessions : gmap String Session;
  rl_rates : gmap IpAddr (list Z);
}.
Definition with_hosts (h : gmap String conn) (s : Relay) : Relay := mk_Relay h (rl_sessions s) (rl_rates s).
Definition with_sessions (x : gmap String Session) (s : Relay) : Relay := mk_Relay (rl_hosts s) x (rl_rates s).
Definition with_rates (x : gmap IpAddr (list Z)) (s : Relay) : Relay := mk_Relay (rl_hosts s) (rl_sessions s) x.

Definition allow_connect (cfg : RelayConfig) (ip : IpAddr) (now : Z) (s : Relay) : Relay * bool :=
  let hits := filter (λ stamp, sat_sub now stamp < 60 * SECOND) (default [] (rl_rates s !! ip)) in
  if rc_connects_per_minute cfg <=? zlen hits mod 2 ^ 32 then (with_rates (<[ip := hits]> (rl_rates s)) s, false)
  else (with_rates (<[ip := hits ++ [now]]> (rl_rates s)) s, true).

Definition host_sessions (host_id : String) (sessions : gmap String Session) : list String :=
  (filter (λ e, ss_host_id e.2 = host_id) (map_to_list sessions)).*1.
Definition session_count (host_id : String) (sessions : gmap String Session) : Z := zlen (host_sessions host_id sessions).

(** WebSocket messages. *)
Inductive Message : Type :=
| MText (text : String)
| MBinary (bytes : list byte)
| MPing (payload : list byte)
| MPong (payload : list byte)
| MClose.

(** ** The handlers *)

(** What the environment gives a handler: a message of its socket (none when it is closed or
    broken) and the time, the outcome of a send, a clock reading, a fresh UUID, the heartbeat, a
    timeout or a closed channel, or nothing. *)
Inductive Input : Type :=
| InMessage (m : option Message) (now : Z)
| InSend (ok : bool)
| InNow (now : Z)
| InUuid (id : list byte) (now : Z)
| InTick
| InTimeout
| InGo.

(** What a handler does besides the tables: send on a channel, send on its own socket, complete
    the [accept] of a connection. *)
Inductive Effect : Type :=
| Send (tx : conn) (m : Message)
| Out (m : Message)
| Fire (client : conn).

(** Where a connection's handler stands: [host_socket] … *)
Inductive Pc : Type :=
| HFirst
| HReply (host_id : String) (registered : Message)
| HDropHost (host_id : String) (ending : bool)
| HDoomed (host_id : String) (ending : bool)
| HRemove (host_id : String) (ending : bool) (doomed : list String)
| HInsert (host_id : String)
| HLoop (host_id : String)
| HExpire (host_id key : String)
| HSend (host_id : String) (tx : conn) (bytes : list byte)
| HDone
(** … and [client_socket]. *)
| CConnect (host_id : String) (ip : IpAddr)
| CLookup (host_id : String)
| CFirst (host_id : String)
| CCount (host_id : String)
| CInsert (host_id : String)
| CIncoming (host_id : String) (id : list byte)
| CNotify (host_id : String) (id : list byte) (host_tx : conn) (incoming : Message)
| CAwait (host_id : String) (id : list byte) (host_tx : conn)
| CReply (host_id : String) (id : list byte) (host_tx : conn)
| CLoop (host_id : String) (id : list byte) (host_tx : conn)
| CSessions (host_id : String) (id : list byte) (host_tx : conn) (bytes : list byte)
| CHosts (host_id : String) (id : list byte) (host_tx : conn) (bytes : list byte) (sessions : gmap String Session)
| CSend (host_id : String) (id : list byte) (host_tx : conn) (bytes : list byte)
| CRemove (id : list byte) (error : option Message)
| CDone.

Section relay.
Variable hmac_sha256 : list byte → list byte → list byte.
Variable to_json : RelayControl → option String.
Variable from_json : String → option RelayControl.
Variable uuid_string : list byte → String.

Definition relay_token (secret : list byte) (host_id : String) : String :=
  concat ((λ b, [hex_char (Z.shiftr (bz b) 4); hex_char (Z.land (bz b) 15)]) <$> hmac_sha256 secret host_id).

Definition relay_token_matches (secret : list byte) (host_id presented : String) : bool :=
  if negb (zlen presented =? 64) then false else
  let expected := relay_token secret host_id in
  if negb (zlen expected =? 64) then false else
  let '(diff, non_hex) := foldl (λ st ab,
    let '(diff, non_hex) := st in
    (Z.lor diff (Z.lxor (bz ab.1) (to_ascii_lowercase (bz ab.2))), if negb (is_ascii_hexdigit (bz ab.2)) then Z.lor non_hex 1 else non_hex))
    (0, 0) (zip expected presented) in
  (diff =? 0) && (non_hex =? 0).

Definition text_message (control : RelayControl) : option Message := MText <$> to_json control.
Definition error_message (code message : string) : Message := default MClose (text_message (RcError (lit code) (lit message))).

(** [handle_host_text]: the sessions after it, whose [accept] it completes, what it answers. *)
Definition handle_host_text (host_id text : String) (sessions : gmap String Session) :
    gmap String Session * list Effect * option Message :=
  match from_json text with
  | None => (sessions, [], None)
  | Some (RcPong | RcPing) => (sessions, [], None)
  | Some (RcAccept session_id) =>
      match sessions !! session_id with
      | None => (sessions, [], None)
      | Some session =>
          if negb (bool_decide (ss_host_id session = host_id)) then (sessions, [], None) else
          (<[session_id := with_accept_tx None session]> sessions,
           match ss_accept_tx session with Some client => [Fire client] | None => [] end, None)
      end
  | Some _ => (sessions, [], Some (error_message "bad_frame" "unexpected host control"))
  end.

(** [forward_from_host] up to the point where it leaves the session table. *)
Inductive HostForward : Type :=
| HfBreak (reply : Message)
| HfIgnore
| HfExpired (key : String)
| HfForward (client_tx : conn) (bytes : list byte).
Definition forward_from_host (cfg : RelayConfig) (host_id : String) (bytes : list byte) (now : Z) (sessions : gmap String Session) : HostForward :=
  match decode_relay_frame bytes with
  | Err _ => HfBreak (error_message "bad_frame" "invalid frame")
  | Ok frame =>
      if rc_max_payload_len cfg <? zlen (rf_payload frame) then HfBreak (error_message "bad_frame" "payload too large") else
      let key := uuid_string (rf_session_id frame) in
      match sessions !! key with
      | None => HfIgnore
      | Some session =>
          if negb (bool_decide (ss_host_id session = host_id)) then HfIgnore else
          if rc_max_session_duration cfg <? sat_sub now (ss_created session) then HfExpired key else
          HfForward (ss_client_tx session) bytes
      end
  end.

(** [forward_from_client] up to its send: the bytes for the host, [None] for [false].  It reads the
    sessions and then the hosts, so it is given each as it was when read. *)
Definition forward_from_client (host_id : String) (session_bytes bytes : list byte) (max_payload : Z) (host_tx : conn)
    (sessions : gmap String Session) (hosts : gmap String conn) : option (list byte) :=
  match decode_relay_frame bytes with
  | Err _ => None
  | Ok frame =>
      if max_payload <? zlen (rf_payload frame) then None else
      let stamped :=
        if bool_decide (rf_session_id frame = replicate 16 x00) then Some (session_bytes ++ drop 16 bytes)
        else if negb (bool_decide (rf_session_id frame = session_bytes)) then None
        else Some bytes in
      bytes ← stamped;
      if negb (bool_decide (is_Some (sessions !! uuid_string session_bytes))) then None else
      live_host ← hosts !! host_id;
      if negb (bool_decide (live_host = host_tx)) then None else Some bytes
  end.

Definition register_first (cfg : RelayConfig) (m : option Message) : Pc * list Effect :=
  match m with
  | Some (MText text) =>
      match from_json text with
      | Some (RcRegister host_id token) =>
          if negb (relay_host_id_ok host_id) || negb (relay_token_matches (rc_auth_secret cfg) host_id token)
          then (HDone, [Out (error_message "unauthorized" "invalid token")])
          else match text_message (RcRegistered host_id) with Some registered => (HReply host_id registered, []) | None => (HDone, []) end
      | _ => (HDone, [Out (error_message "unauthorized" "expected register")])
      end
  | _ => (HDone, [Out (error_message "unauthorized" "expected register")])
  end.

Definition host_message (cfg : RelayConfig) (me : conn) (host_id : String) (m : option Message) (now : Z) (s : Relay) : Pc * Relay * list Effect :=
  match m with
  | Some (MText text) =>
      let '(sessions, fired, reply) := handle_host_text host_id text (rl_sessions s) in
      (HLoop host_id, with_sessions sessions s, fired ++ match reply with Some r => [Send me r] | None => [] end)
  | Some (MBinary bytes) =>
      match forward_from_host cfg host_id bytes now (rl_sessions s) with
      | HfBreak reply => (HDropHost host_id true, s, [Send me reply])
      | HfIgnore => (HLoop host_id, s, [])
      | HfExpired key => (HExpire host_id key, s, [])
      | HfForward tx bytes => (HSend host_id tx bytes, s, [])
      end
  | Some (MPing payload) => (HLoop host_id, s, [Send me (MPong payload)])
  | Some (MPong _) => (HLoop host_id, s, [])
  | _ => (HDropHost host_id true, s, [])
  end.

(** [host_socket]; [drop_host] is [HDropHost], [HDoomed] and [HRemove]. *)
Definition host_step (cfg : RelayConfig) (me : conn) (pc : Pc) (i : Input) (s : Relay) : option (Pc * Relay * list Effect) :=
  match pc, i with
  | HFirst, InMessage m _ => let '(pc, out) := register_first cfg m in Some (pc, s, out)
  | HReply host_id registered, InSend ok => Some (if ok then (HDropHost host_id false, s, [Out registered]) else (HDone, s, []))
  | HDropHost host_id ending, InGo => Some (HDoomed host_id ending, with_hosts (delete host_id (rl_hosts s)) s, [])
  | HDoomed host_id ending, InGo => Some (HRemove host_id ending (host_sessions host_id (rl_sessions s)), s, [])
  | HRemove host_id ending (id :: doomed), InGo => Some (HRemove host_id ending doomed, with_sessions (delete id (rl_sessions s)) s, [])
  | HRemove host_id ending [], InGo => Some (if ending then HDone else HInsert host_id, s, [])
  | HInsert host_id, InGo => Some (HLoop host_id, with_hosts (<[host_id := me]> (rl_hosts s)) s, [])
  | HLoop host_id, InMessage m now => Some (host_message cfg me host_id m now s)
  | HLoop host_id, InTick => Some (HLoop host_id, s, match text_message RcPing with Some m => [Send me m] | None => [] end)
  | HLoop host_id, InTimeout => Some (HDropHost host_id true, s, [])
  | HExpire host_id key, InGo =>
      Some (HLoop host_id, with_sessions (delete key (rl_sessions s)) s, [Send me (error_message "session_expired" "session expired")])
  | HSend host_id tx bytes, InSend ok => Some (HLoop host_id, s, if ok then [Send tx (MBinary bytes)] else [])
  | _, _ => None
  end.

Definition connect_first (cfg : RelayConfig) (host_id : String) (m : option Message) : Pc * list Effect :=
  match m with
  | Some (MText text) =>
      match from_json text with
      | Some (RcConnect claimed token) =>
          if negb (bool_decide (claimed = host_id)) || negb (relay_token_matches (rc_auth_secret cfg) host_id token)
          then (CDone, [Out (error_message "unauthorized" "invalid token")]) else (CCount host_id, [])
      | _ => (CDone, [Out (error_message "unauthorized" "expected connect")])
      end
  | _ => (CDone, [Out (error_message "unauthorized" "expected connect")])
  end.

Definition client_message (host_id : String) (id : list byte) (host_tx : conn) (m : option Message) : Pc * list Effect :=
  match m with
  | Some (MBinary bytes) => (CSessions host_id id host_tx bytes, [])
  | Some (MPing payload) => (CLoop host_id id host_tx, [Out (MPong payload)])
  | Some (MPong _ | MText _) => (CLoop host_id id host_tx, [])
  | _ => (CRemove id None, [])
  end.

(** [client_socket]; [fired] is whether the host has accepted it. *)
Definition client_step (cfg : RelayConfig) (me : conn) (fired : bool) (pc : Pc) (i : Input) (s : Relay) : option (Pc * Relay * list Effect) :=
  let gone := error_message "not_found" "host is not registered" in
  let bad := error_message "bad_frame" "invalid frame" in
  match pc, i with
  | CConnect host_id ip, InNow now =>
      let '(s, ok) := allow_connect cfg ip now s in
      Some (if ok then (CLookup host_id, s, []) else (CDone, s, [Out (error_message "rate_limited" "too many connects")]))
  | CLookup host_id, InGo => Some (if bool_decide (is_Some (rl_hosts s !! host_id)) then (CFirst host_id, s, []) else (CDone, s, [Out gone]))
  | CFirst host_id, InMessage m _ => let '(pc, out) := connect_first cfg host_id m in Some (pc, s, out)
  | CCount host_id, InGo =>
      Some (if rc_max_sessions_per_host cfg <=? session_count host_id (rl_sessions s)
            then (CDone, s, [Out (error_message "session_limit" "too many sessions")]) else (CInsert host_id, s, []))
  | CInsert host_id, InUuid id now =>
      Some (CIncoming host_id id, with_sessions (<[uuid_string id := mk_Session host_id me (Some me) now]> (rl_sessions s)) s, [])
  | CIncoming host_id id, InGo =>
      match text_message (RcIncoming (uuid_string id)) with
      | None => Some (CRemove id None, s, [])
      | Some incoming =>
          match rl_hosts s !! host_id with
          | None => Some (CRemove id (Some gone), s, [])
          | Some host_tx => Some (CNotify host_id id host_tx incoming, s, [])
          end
      end
  | CNotify host_id id host_tx incoming, InSend ok =>
      Some (if ok then (CAwait host_id id host_tx, s, [Send host_tx incoming]) else (CRemove id (Some gone), s, []))
  | CAwait host_id id host_tx, InGo => if fired then Some (CReply host_id id host_tx, s, []) else None
  | CAwait host_id id host_tx, InTimeout => Some (CRemove id (Some (error_message "not_found" "host did not accept")), s, [])
  | CReply host_id id host_tx, InSend ok =>
      match text_message RcConnected with
      | None => Some (CRemove id None, s, [])
      | Some connected => Some (if ok then (CLoop host_id id host_tx, s, [Out connected]) else (CRemove id None, s, []))
      end
  | CLoop host_id id host_tx, InMessage m _ => let '(pc, out) := client_message host_id id host_tx m in Some (pc, s, out)
  | CLoop host_id id host_tx, InTimeout => Some (CRemove id None, s, [])
  | CSessions host_id id host_tx bytes, InGo => Some (CHosts host_id id host_tx bytes (rl_sessions s), s, [])
  | CHosts host_id id host_tx bytes sessions, InGo =>
      match forward_from_client host_id id bytes (rc_max_payload_len cfg) host_tx sessions (rl_hosts s) with
      | Some bytes => Some (CSend host_id id host_tx bytes, s, [])
      | None => Some (CRemove id None, s, [Out bad])
      end
  | CSend host_id id host_tx bytes, InSend ok =>
      Some (if ok then (CLoop host_id id host_tx, s, [Send host_tx (MBinary bytes)]) else (CRemove id None, s, [Out bad]))
  | CRemove id error, InGo =>
      Some (CDone, with_sessions (delete (uuid_string id) (rl_sessions s)) s, match error with Some m => [Out m] | None => [] end)
  | _, _ => None
  end.
End relay.
