(* ===== verification/RdRelaySpec.v ===== *)
(** * RdRelaySpec: what the relay promises

    The relay server as a transition system: connections come, each runs its handler (RdRelay)
    between two touches of a shared table, channels deliver.  The handlers of different connections
    interleave at every such point, as the tasks of a multi-threaded runtime do; the environment
    chooses messages, clock readings, timeouts and failed sends.  The theorems: a frame crosses the
    relay only between a host and its own clients, a client is let in only by its host, a source of
    connections is limited, and where two handlers of the same host or limit get in each other's
    way. *)

From Stdlib Require Import ZArith Lia Strings.Byte Sorting.Sorted Btauto.
From stdpp Require Import base option gmap strings list.
From S2P Require Import Prelude Wire RdCodec RdRelay.

#[local] Open Scope Z_scope.

(** ** The transition system *)

(** The server and its connections, with the history the theorems speak of: the first message of
    each connection, the session ids given out, who accepted whom, the frames received, and what was
    written to each socket ([None]: by its own handler, [Some src]: through the channel, by the
    handler of [src]). *)
Record World := mk_World {
  w_relay : Relay;
  w_pc : gmap conn Pc;
  w_queue : gmap conn (list (conn * Message));
  w_first : gmap conn (option Message);
  w_ids : gmap conn (list byte);
  w_fired : gmap conn conn;
  w_frames : list (conn * list byte);
  w_out : list (conn * option conn * Message);
}.
Definition world0 : World := mk_World (mk_Relay ∅ ∅ ∅) ∅ ∅ ∅ ∅ ∅ [] [].

Definition set_pc (k : conn) (pc : Pc) (s : Relay) (w : World) : World :=
  mk_World s (<[k := pc]> (w_pc w)) (w_queue w) (w_first w) (w_ids w) (w_fired w) (w_frames w) (w_out w).
Definition push_queue (tx src : conn) (m : Message) (w : World) : World :=
  mk_World (w_relay w) (w_pc w) (<[tx := default [] (w_queue w !! tx) ++ [(src, m)]]> (w_queue w)) (w_first w) (w_ids w) (w_fired w) (w_frames w) (w_out w).
Definition write (k : conn) (src : option conn) (m : Message) (w : World) : World :=
  mk_World (w_relay w) (w_pc w) (w_queue w) (w_first w) (w_ids w) (w_fired w) (w_frames w) (w_out w ++ [(k, src, m)]).
Definition fire (client k : conn) (w : World) : World :=
  mk_World (w_relay w) (w_pc w) (w_queue w) (w_first w) (w_ids w) (<[client := k]> (w_fired w)) (w_frames w) (w_out w).
Definition note_first (k : conn) (m : option Message) (w : World) : World :=
  mk_World (w_relay w) (w_pc w) (w_queue w) (<[k := m]> (w_first w)) (w_ids w) (w_fired w) (w_frames w) (w_out w).
Definition note_id (k : conn) (id : list byte) (w : World) : World :=
  mk_World (w_relay w) (w_pc w) (w_queue w) (w_first w) (<[k := id]> (w_ids w)) (w_fired w) (w_frames w) (w_out w).
Definition note_frame (k : conn) (b : list byte) (w : World) : World :=
  mk_World (w_relay w) (w_pc w) (w_queue w) (w_first w) (w_ids w) (w_fired w) ((k, b) :: w_frames w) (w_out w).

(** The history of an input. *)
Definition note (k : conn) (pc : Pc) (i : Input) (w : World) : World :=
  match pc, i with
  | (HFirst | CFirst _), InMessage m _ => note_first k m w
  | (HLoop _ | CLoop _ _ _), InMessage (Some (MBinary b)) _ => note_frame k b w
  | CInsert _, InUuid id _ => note_id k id w
  | _, _ => w
  end.
Definition effect (k : conn) (w : World) (e : Effect) : World :=
  match e with
  | Send tx m => push_queue tx k m w
  | Out m => write k None m w
  | Fire client => fire client k w
  end.
(** A new version 4 UUID has 16 bytes and was not given out before. *)
Definition fresh_uuid (i : Input) (w : World) : bool :=
  match i with
  | InUuid id _ => bool_decide (length id = 16%nat) && forallb (λ e, negb (bool_decide (e.2 = id))) (map_to_list (w_ids w))
  | _ => true
  end.
(** The socket's writer: the host's own task, the client's loop. *)
Definition writes (pc : Pc) : bool :=
  match pc with
  | HLoop _ | HExpire _ _ | HSend _ _ _ | HDropHost _ true | HDoomed _ true | HRemove _ true _ | HDone | CLoop _ _ _ => true
  | _ => false
  end.
Definition deliver (k : conn) (w : World) : option World :=
  pc ← w_pc w !! k;
  match writes pc, w_queue w !! k with
  | true, Some ((src, m) :: q) =>
      Some (write k (Some src) m (mk_World (w_relay w) (w_pc w) (<[k := q]> (w_queue w)) (w_first w) (w_ids w) (w_fired w) (w_frames w) (w_out w)))
  | _, _ => None
  end.

Section system.
Context (hmac_sha256 : list byte → list byte → list byte).
Context (to_json : RelayControl → option String) (from_json : String → option RelayControl) (uuid_string : list byte → String).
Context (cfg : RelayConfig).

Definition task_step (k : conn) (i : Input) (w : World) : option World :=
  pc ← w_pc w !! k;
  if negb (fresh_uuid i w) then None else
  '(pc', s', effects) ←
    (match host_step hmac_sha256 to_json from_json uuid_string cfg k pc i (w_relay w) with
     | Some r => Some r
     | None => client_step hmac_sha256 to_json from_json uuid_string cfg k (bool_decide (is_Some (w_fired w !! k))) pc i (w_relay w)
     end);
  Some (foldl (effect k) (set_pc k pc' s' (note k pc i w)) effects).

Inductive step (w : World) : World → Prop :=
| step_host k : w_pc w !! k = None → step w (set_pc k HFirst (w_relay w) w)
| step_client k host_id ip : w_pc w !! k = None → step w (set_pc k (CConnect host_id ip) (w_relay w) w)
| step_task k i w' : task_step k i w = Some w' → step w w'
| step_deliver k w' : deliver k w = Some w' → step w w'.
Inductive reachable : World → Prop :=
| reach_init : reachable world0
| reach_step w w' : reachable w → step w w' → reachable w'.

(** ** Who is who *)

(** The first message of [k] registered it as the host [h], with the host's token. *)
Definition registered (w : World) (k : conn) (h : String) : Prop :=
  ∃ text token, w_first w !! k = Some (Some (MText text)) ∧ from_json text = Some (RcRegister h token) ∧
    relay_token_matches hmac_sha256 (rc_auth_secret cfg) h token = true.
(** The first message of [k] asked for the host [h], with the host's token. *)
Definition connected (w : World) (k : conn) (h : String) : Prop :=
  ∃ text token, w_first w !! k = Some (Some (MText text)) ∧ from_json text = Some (RcConnect h token) ∧
    relay_token_matches hmac_sha256 (rc_auth_secret cfg) h token = true.

(** A frame on its way down: sent by the host [src] of the client [k], for the client's session. *)
Definition downlink (w : World) (src k : conn) (b : list byte) : Prop :=
  ∃ h id, registered w src h ∧ connected w k h ∧ w_ids w !! k = Some id ∧ take 16 b = id ∧ (src, b) ∈ w_frames w.
(** A frame on its way up: sent by the client [src] of the host [k], with its session id written
    over the null id, or its own. *)
Definition uplink (w : World) (src k : conn) (b : list byte) : Prop :=
  ∃ h id b0, connected w src h ∧ registered w k h ∧ w_ids w !! src = Some id ∧ take 16 b = id ∧ drop 16 b = drop 16 b0 ∧
    (take 16 b0 = id ∨ take 16 b0 = replicate 16 x00) ∧ (src, b0) ∈ w_frames w.
Definition link (w : World) (src k : conn) (b : list byte) : Prop := downlink w src k b ∨ uplink w src k b.

(** ** The invariant *)

(** A client in a session with [h] over the channel [tx]. *)
Definition client_ok (w : World) (k : conn) (h : String) (id : list byte) : Prop := connected w k h ∧ w_ids w !! k = Some id.
Definition pc_ok (w : World) (k : conn) (pc : Pc) : Prop :=
  match pc with
  | HFirst => w_first w !! k = None
  | HReply h _ | HDropHost h _ | HDoomed h _ | HRemove h _ _ | HInsert h | HLoop h | HExpire h _ => registered w k h
  | HSend h tx b => registered w k h ∧ link w k tx b
  | CConnect h _ | CLookup h | CFirst h => w_first w !! k = None ∧ w_ids w !! k = None
  | CCount h | CInsert h => connected w k h ∧ w_ids w !! k = None
  | CIncoming h id => client_ok w k h id
  | CNotify h id tx m => client_ok w k h id ∧ registered w tx h ∧ (∃ t, m = MText t)
  | CAwait h id tx => client_ok w k h id ∧ registered w tx h
  | CReply h id tx | CLoop h id tx => client_ok w k h id ∧ registered w tx h ∧ is_Some (w_fired w !! k)
  | CSessions h id tx b | CHosts h id tx b _ => client_ok w k h id ∧ registered w tx h ∧ is_Some (w_fired w !! k) ∧ (k, b) ∈ w_frames w
  | CSend h id tx b => client_ok w k h id ∧ registered w tx h ∧ is_Some (w_fired w !! k) ∧ link w k tx b
  | HDone | CRemove _ _ | CDone => True
  end.
Definition session_ok (w : World) (key : String) (x : Session) : Prop :=
  ∃ id, key = uuid_string id ∧ client_ok w (ss_client_tx x) (ss_host_id x) id ∧ (∀ c, ss_accept_tx x = Some c → c = ss_client_tx x).
Record relay_ok (w : World) (s : Relay) : Prop := {
  ro_hosts h k : rl_hosts s !! h = Some k → registered w k h;
  ro_sessions key x : rl_sessions s !! key = Some x → session_ok w key x;
}.
Definition effect_ok (w : World) (k : conn) (e : Effect) : Prop :=
  match e with
  | Send tx m => ∀ b, m = MBinary b → link w k tx b
  | Out _ => True
  | Fire c => ∃ h, connected w c h ∧ registered w k h
  end.
Record inv (w : World) : Prop := {
  iv_pc k pc : w_pc w !! k = Some pc → pc_ok w k pc;
  iv_new k : w_pc w !! k = None → w_first w !! k = None ∧ w_ids w !! k = None;
  iv_relay : relay_ok w (w_relay w);
  iv_fired c hk : w_fired w !! c = Some hk → ∃ h, connected w c h ∧ registered w hk h;
  iv_queue tx q src b : w_queue w !! tx = Some q → (src, MBinary b) ∈ q → link w src tx b;
  iv_out k src b : (k, Some src, MBinary b) ∈ w_out w → link w src k b;
  iv_length k id : w_ids w !! k = Some id → length id = 16%nat;
  iv_unique k k' id : w_ids w !! k = Some id → w_ids w !! k' = Some id → k = k';
}.

(** The history only grows. *)
Record extends (w w' : World) : Prop := {
  ex_first : w_first w ⊆ w_first w';
  ex_ids : w_ids w ⊆ w_ids w';
  ex_fired c : is_Some (w_fired w !! c) → is_Some (w_fired w' !! c);
  ex_frames : w_frames w ⊆ w_frames w';
}.
Lemma registered_mono w w' k h : extends w w' → registered w k h → registered w' k h.
Proof. intros H (t & tok & H1 & H2). exists t, tok. split; [|done]. by eapply lookup_weaken; [|apply H]. Qed.
Lemma connected_mono w w' k h : extends w w' → connected w k h → connected w' k h.
Proof. intros H (t & tok & H1 & H2). exists t, tok. split; [|done]. by eapply lookup_weaken; [|apply H]. Qed.
Lemma client_mono w w' k h id : extends w w' → client_ok w k h id → client_ok w' k h id.
Proof. intros H [H1 H2]. split; [by eapply connected_mono|]. by eapply lookup_weaken; [|apply H]. Qed.
Lemma relay_link_mono w w' src k b : extends w w' → link w src k b → link w' src k b.
Proof.
  intros H [(h & id & H1 & H2 & H3 & H4 & H5)|(h & id & b0 & H1 & H2 & H3 & H4 & H5 & H6 & H7)].
  - left. exists h, id. split; [by eapply registered_mono|]. split; [by eapply connected_mono|]. split; [by eapply lookup_weaken; [|apply H]|]. split; [done|]. by apply H.
  - right. exists h, id, b0. split; [by eapply connected_mono|]. split; [by eapply registered_mono|]. split; [by eapply lookup_weaken; [|apply H]|].
    do 3 (split; [done|]). by apply H.
Qed.
Lemma session_mono w w' key x : extends w w' → session_ok w key x → session_ok w' key x.
Proof. intros H (id & H1 & H2 & H3). exists id. split; [done|]. split; [by eapply client_mono|done]. Qed.
Lemma relay_mono w w' s : extends w w' → relay_ok w s → relay_ok w' s.
Proof. intros H [H1 H2]. split; intros *; [intros E; eapply registered_mono; eauto|intros E; eapply session_mono; eauto]. Qed.
Lemma effect_mono w w' k e : extends w w' → effect_ok w k e → effect_ok w' k e.
Proof.
  intros H. destruct e as [tx m| |c]; cbn; [intros He b Hb; eapply relay_link_mono; eauto|done|].
  intros (h & H1 & H2). exists h. split; [by eapply connected_mono|by eapply registered_mono].
Qed.
(** The early states of a handler are the ones that say nothing was noted yet. *)
Definition early (pc : Pc) : bool :=
  match pc with HFirst | CConnect _ _ | CLookup _ | CFirst _ | CCount _ | CInsert _ => true | _ => false end.
Lemma pc_mono w w' k pc : extends w w' → (early pc = true → w_first w' !! k = w_first w !! k ∧ w_ids w' !! k = w_ids w !! k) → pc_ok w k pc → pc_ok w' k pc.
Proof.
  intros H He Hp. assert (∀ h, registered w k h → registered w' k h) as R by (intros h; by apply registered_mono).
  assert (∀ t h, registered w t h → registered w' t h) as R' by (intros t h; by apply registered_mono).
  assert (∀ h id, client_ok w k h id → client_ok w' k h id) as C by (intros h id; by apply client_mono).
  assert (∀ t b, link w k t b → link w' k t b) as L by (intros t b; by apply relay_link_mono). pose proof (ex_fired _ _ H) as F. pose proof (ex_frames _ _ H) as B.
  assert (∀ h, connected w k h → connected w' k h) as N by (intros h; by apply connected_mono).
  destruct pc; cbn [pc_ok early] in *; try (destruct (He eq_refl) as [-> E2]; rewrite ?E2); try (destruct (He eq_refl) as [_ ->]); try done; destruct_and?; split_and?; try (by apply B); eauto.
Qed.
Lemma connected_unique w k h h' : connected w k h → connected w k h' → h = h'.
Proof. intros (t & tok & E & F & _) (t' & tok' & E' & F' & _). congruence. Qed.

(** ** Every handler keeps the invariant *)

Hypothesis uuid_string_inj : ∀ a b, length a = 16%nat → length b = 16%nat → uuid_string a = uuid_string b → a = b.

Lemma decode_id b f : decode_relay_frame b = Ok f → rf_session_id f = take 16 b ∧ length (take 16 b) = 16%nat.
Proof.
  unfold decode_relay_frame. destruct (Z.ltb_spec (zlen b) RELAY_FRAME_HEADER_LEN) as [|Hl]; [done|]. cbv zeta. destruct (_ && _); [done|].
  destruct (_ <? _); [done|]. intros [= <-]. split; [done|]. unfold zlen, RELAY_FRAME_HEADER_LEN in Hl. rewrite length_take. lia.
Qed.

Lemma error_text code msg b : error_message to_json code msg ≠ MBinary b.
Proof. unfold error_message, text_message. by destruct (to_json _). Qed.
Lemma text_not_binary c m b : text_message to_json c = Some m → m ≠ MBinary b.
Proof. unfold text_message. destruct (to_json c); [|done]. by intros [= <-]. Qed.

(** What a handler's step must establish in the world [w] that has its input. *)
Definition outcome_ok (w : World) (k : conn) (o : Pc * Relay * list Effect) : Prop :=
  pc_ok w k o.1.1 ∧ relay_ok w o.1.2 ∧ Forall (effect_ok w k) o.2.
Lemma outcome_same w k pc s : pc_ok w k pc → relay_ok w s → outcome_ok w k (pc, s, []).
Proof. done. Qed.
Lemma outcome_out w k pc s m : pc_ok w k pc → relay_ok w s → outcome_ok w k (pc, s, [Out m]).
Proof. intros H1 H2. split; [done|]. split; [done|]. by apply Forall_singleton. Qed.
Lemma outcome_reply w k pc s tx m : pc_ok w k pc → relay_ok w s → (∀ b, m ≠ MBinary b) → outcome_ok w k (pc, s, [Send tx m]).
Proof. intros H1 H2 Hm. split; [done|]. split; [done|]. apply Forall_singleton. intros b ->. by destruct (Hm b). Qed.

Lemma sessions_delete w s key : relay_ok w s → relay_ok w (with_sessions (delete key (rl_sessions s)) s).
Proof. intros [H1 H2]. split; [done|]. cbn. intros key' x [_ Hx]%lookup_delete_Some. by apply H2. Qed.
Lemma hosts_delete w s h : relay_ok w s → relay_ok w (with_hosts (delete h (rl_hosts s)) s).
Proof. intros [H1 H2]. split; [|done]. cbn. intros h' k [_ Hx]%lookup_delete_Some. by apply H1. Qed.

Lemma host_text_ok w k h text s sessions fired reply : relay_ok w s → registered w k h →
  handle_host_text to_json from_json h text (rl_sessions s) = (sessions, fired, reply) →
  relay_ok w (with_sessions sessions s) ∧ Forall (effect_ok w k) fired ∧ (∀ b, reply ≠ Some (MBinary b)).
Proof.
  intros Hs Hk. assert (relay_ok w (with_sessions (rl_sessions s) s)) as Hs' by (by destruct Hs). unfold handle_host_text.
  destruct (from_json text) as [[]|]; try (intros [= <- <- <-]; split; [done|]; split; [done|]; first [done|intros b [= E]; by apply error_text in E]).
  destruct (rl_sessions s !! session_id) as [x|] eqn:Ex; [|by intros [= <- <- <-]]. pose proof (ro_sessions _ _ Hs _ _ Ex) as (id & E1 & E2 & E3).
  case_bool_decide as Eh; cbn [negb]; [|by intros [= <- <- <-]]. intros [= <- <- <-]. split_and!; [|destruct (ss_accept_tx x) as [c|] eqn:Ec; [|done]|done].
  - split; [apply Hs|]. cbn. intros key y [[<- <-]|[_ Hy]]%lookup_insert_Some; [|by apply (ro_sessions _ _ Hs)]. exists id. split; [done|]. by split.
  - apply Forall_singleton. cbn. exists h. rewrite (E3 c) by done. split; [|done]. destruct E2 as [E2 _]. by rewrite <- Eh.
Qed.

Lemma forward_host_ok w k h b now s : (∀ j id, w_ids w !! j = Some id → length id = 16%nat) → relay_ok w s → registered w k h → (k, b) ∈ w_frames w →
  match forward_from_host to_json uuid_string cfg h b now (rl_sessions s) with
  | HfBreak reply => ∀ c, reply ≠ MBinary c
  | HfIgnore | HfExpired _ => True
  | HfForward tx c => c = b ∧ link w k tx b
  end.
Proof.
  intros Hi Hs Hk Hb. unfold forward_from_host. destruct (decode_relay_frame b) as [f|e] eqn:E; [|intros c; apply error_text].
  destruct (_ <? _); [intros c; apply error_text|]. cbv zeta. destruct (rl_sessions s !! _) as [x|] eqn:Ex; [|done].
  case_bool_decide as Eh; cbn [negb]; [|done]. destruct (_ <? _); [done|]. split; [done|]. apply decode_id in E as [Ef El].
  destruct (ro_sessions _ _ Hs _ _ Ex) as (id & E1 & [E2 E3] & _). left. exists h, id. split; [done|]. rewrite Eh in E2. split; [done|]. split; [done|]. split; [|done].
  rewrite <- Ef. apply uuid_string_inj; [by rewrite Ef|by eapply Hi|done].
Qed.

Lemma forward_client_ok w k h id tx b max sessions hosts c : length id = 16%nat → connected w k h → w_ids w !! k = Some id → registered w tx h → (k, b) ∈ w_frames w →
  forward_from_client uuid_string h id b max tx sessions hosts = Some c → link w k tx c.
Proof.
  intros Hl Hk Hid Ht Hb. unfold forward_from_client. destruct (decode_relay_frame b) as [f|e] eqn:E; [|done]. destruct (_ <? _); [done|]. cbv zeta.
  apply decode_id in E as [Ef El]. rewrite Ef. destruct (bool_decide (take 16 b = replicate 16 x00)) eqn:E1; [apply bool_decide_eq_true in E1|].
  - cbn [mbind option_bind]. destruct (negb (bool_decide (is_Some (sessions !! _)))); [done|]. destruct (hosts !! h) as [live|]; cbn [mbind option_bind]; [|done]. destruct (negb _); [done|]. intros [= <-]. right.
    exists h, id, b. split; [done|]. split; [done|]. split; [done|]. split; [by apply take_app_length'|]. split; [by apply drop_app_length'|]. split; [by right|done].
  - destruct (bool_decide (take 16 b = id)) eqn:E2; cbn [negb mbind option_bind]; [apply bool_decide_eq_true in E2|done]. destruct (negb (bool_decide (is_Some (sessions !! _)))); [done|]. destruct (hosts !! h) as [live|]; cbn [mbind option_bind]; [|done]. destruct (negb _); [done|]. intros [= <-]. right.
    exists h, id, b. split; [done|]. split; [done|]. split; [done|]. split; [done|]. split; [done|]. split; [by left|done].
Qed.

Lemma register_ok w k m pc out : w_first w !! k = Some m → register_first hmac_sha256 to_json from_json cfg m = (pc, out) →
  pc_ok w k pc ∧ Forall (effect_ok w k) out.
Proof.
  intros Hf. unfold register_first. destruct m as [[text| | | |]|]; try by (intros [= <- <-]; split; [done|by apply Forall_singleton]).
  destruct (from_json text) as [[]|] eqn:E; try by (intros [= <- <-]; split; [done|by apply Forall_singleton]).
  destruct (relay_host_id_ok host_id) eqn:E1; cbn [negb orb]; [|by intros [= <- <-]; split; [done|by apply Forall_singleton]].
  destruct (relay_token_matches _ _ _ _) eqn:E2; cbn [negb orb]; [|by intros [= <- <-]; split; [done|by apply Forall_singleton]].
  destruct (text_message _ _); intros [= <- <-]; [|done]. split; [|done]. by exists text, token.
Qed.
Lemma connect_ok w k h m pc out : w_first w !! k = Some m → w_ids w !! k = None → connect_first hmac_sha256 to_json from_json cfg h m = (pc, out) →
  pc_ok w k pc ∧ Forall (effect_ok w k) out.
Proof.
  intros Hf Hn. unfold connect_first. destruct m as [[text| | | |]|]; try by (intros [= <- <-]; split; [done|by apply Forall_singleton]).
  destruct (from_json text) as [[]|] eqn:E; try by (intros [= <- <-]; split; [done|by apply Forall_singleton]).
  case_bool_decide as E1; cbn [negb orb]; [subst|by intros [= <- <-]; split; [done|by apply Forall_singleton]].
  destruct (relay_token_matches _ _ _ _) eqn:E2; cbn [negb orb]; intros [= <- <-]; [|split; [done|by apply Forall_singleton]]. split; [|done]. split; [|done]. by exists text, token.
Qed.

(** The world that has the input of a step, apart from the handler's own state. *)
Lemma note_relay k pc i w : w_relay (note k pc i w) = w_relay w ∧ w_pc (note k pc i w) = w_pc w ∧ w_queue (note k pc i w) = w_queue w ∧
  w_fired (note k pc i w) = w_fired w ∧ w_out (note k pc i w) = w_out w.
Proof. destruct pc, i as [[[]|]| | | | | |]; done. Qed.
Lemma note_other k pc i w k' : k' ≠ k → w_first (note k pc i w) !! k' = w_first w !! k' ∧ w_ids (note k pc i w) !! k' = w_ids w !! k'.
Proof. intros Hk. destruct pc, i as [[[]|]| | | | | |]; cbn; rewrite ?lookup_insert_ne by done; done. Qed.
Lemma note_extends k pc i w : pc_ok w k pc → extends w (note k pc i w).
Proof.
  assert (extends w w) as H0 by done. assert (w_first w !! k = None → ∀ m, extends w (note_first k m w)) as H1.
  { intros E m. split; cbn; [by apply insert_subseteq|done|done|done]. }
  assert (∀ b, extends w (note_frame k b w)) as H2 by (intros b; split; cbn; [done|done|done|set_solver]).
  assert (w_ids w !! k = None → ∀ id, extends w (note_id k id w)) as H3.
  { intros E id. split; cbn; [done|by apply insert_subseteq|done|done]. }
  destruct pc; cbn [note pc_ok]; try done; destruct i as [[[]|]| | | | | |]; intros; destruct_and?; auto.
Qed.
Lemma note_inv k pc i w : inv w → w_pc w !! k = Some pc → fresh_uuid i w = true → let w' := note k pc i w in
  extends w w' ∧ (∀ k' pc', k' ≠ k → w_pc w' !! k' = Some pc' → pc_ok w' k' pc') ∧
  relay_ok w' (w_relay w') ∧ (∀ c hk, w_fired w' !! c = Some hk → ∃ h, connected w' c h ∧ registered w' hk h) ∧
  (∀ j id, w_ids w' !! j = Some id → length id = 16%nat) ∧ (∀ j j' id, w_ids w' !! j = Some id → w_ids w' !! j' = Some id → j = j').
Proof.
  intros Hi Hpc Hf w'. pose proof (iv_pc _ Hi _ _ Hpc) as Hp. pose proof (note_extends k pc i w Hp) as He. destruct (note_relay k pc i w) as (R1 & R2 & R3 & R4 & R5).
  fold w' in He, R1, R2, R3, R4, R5. split; [done|]. split; [|split; [|split]].
  - intros k' pc' Hk. rewrite R2. intros E. apply (pc_mono w); [done|intros _; by apply note_other|by apply Hi].
  - rewrite R1. apply (relay_mono w); [done|apply Hi].
  - intros c hk. rewrite R4. intros E. destruct (iv_fired _ Hi _ _ E) as (h & H1 & H2). exists h. split; [by eapply connected_mono|by eapply registered_mono].
  - assert (w_ids w' = w_ids w ∨ ∃ id now, i = InUuid id now ∧ w_ids w' = <[k := id]> (w_ids w)) as [->|(id & now & -> & ->)].
    { subst w'. destruct pc, i as [[[]|]| | |? ?| | |]; cbn; eauto. }
    + split; [apply Hi|apply Hi].
    + cbn in Hf. apply andb_true_iff in Hf as [Hl Hu]. apply bool_decide_eq_true in Hl. rewrite forallb_forall in Hu.
      assert (∀ j, w_ids w !! j ≠ Some id) as Hn.
      { intros j Hj. specialize (Hu (j, id)). cbn in Hu. rewrite bool_decide_eq_true_2 in Hu by done. discriminate Hu. by apply list_elem_of_In, elem_of_map_to_list. }
      split; [intros j x [[_ <-]|[_ Hx]]%lookup_insert_Some; [done|by eapply iv_length]|].
      intros j j' x [[-> E]|[Hj E]]%lookup_insert_Some [[-> E']|[Hj' E']]%lookup_insert_Some; [done| | |by eapply iv_unique]; subst; by destruct (Hn _ E') || by destruct (Hn _ E).
Qed.

Lemma host_step_ok k pc i w o : inv w → w_pc w !! k = Some pc → fresh_uuid i w = true →
  host_step hmac_sha256 to_json from_json uuid_string cfg k pc i (w_relay w) = Some o → outcome_ok (note k pc i w) k o.
Proof.
  intros Hi Hpc Hf Ho. destruct (note_inv k pc i w Hi Hpc Hf) as (He & _ & Hr & _ & Hl & _). pose proof (iv_pc _ Hi _ _ Hpc) as Hp.
  destruct (note_relay k pc i w) as (R1 & _). rewrite R1 in Hr. set (w' := note k pc i w) in *.
  assert (∀ h, registered w k h → registered w' k h) as R by (intros h; by apply registered_mono).
  destruct pc; cbn [host_step pc_ok] in *; try done.
  - destruct i as [m now| | | | | |]; try done. destruct (register_first _ _ _ _ m) as [pc out] eqn:E. injection Ho as <-.
    destruct (register_ok w' k m pc out) as [H1 H2]; [subst w'; cbn; apply lookup_insert_eq|done|]. done.
  - destruct i as [|ok| | | | |]; try done. injection Ho as <-. destruct ok; [apply outcome_out; [by apply R|done]|by apply outcome_same].
  - destruct i; try done. injection Ho as <-. apply outcome_same; [by apply R|by apply hosts_delete].
  - destruct i; try done. injection Ho as <-. apply outcome_same; [by apply R|done].
  - destruct doomed as [|id doomed], i; try done; injection Ho as <-; apply outcome_same; try done; first [by apply sessions_delete|by apply R|by destruct ending; [|apply R]].
  - destruct i; try done. injection Ho as <-. apply outcome_same; [by apply R|]. destruct Hr as [H1 H2]. split; [|done]. cbn.
    intros h j [[<- <-]|[_ E]]%lookup_insert_Some; [by apply R|by apply H1].
  - destruct i as [m now| | | | | |]; try done.
    + injection Ho as <-. unfold host_message. destruct m as [[text|b|p|p|]|]; try (apply outcome_same; [by apply R|done]).
      * destruct (handle_host_text _ _ _ _ _) as [[sessions fired] reply] eqn:E. destruct (host_text_ok w' k host_id text (w_relay w) sessions fired reply Hr (R _ Hp) E) as (H1 & H2 & H3).
        split; [by apply R|]. split; [done|]. apply Forall_app. split; [done|]. destruct reply as [r|]; [|done]. apply Forall_singleton. intros b ->. by destruct (H3 b).
      * pose proof (forward_host_ok w' k host_id b now (w_relay w) Hl Hr (R _ Hp) ltac:(subst w'; cbn; by left)) as Hfw.
        destruct (forward_from_host _ _ _ _ _ _ _) as [reply| |key|tx c].
        -- apply outcome_reply; [by apply R|done|done].
        -- apply outcome_same; [by apply R|done].
        -- apply outcome_same; [by apply R|done].
        -- destruct Hfw as [-> Hfw]. apply outcome_same; [split; [by apply R|done]|done].
      * apply outcome_reply; [by apply R|done|done].
    + injection Ho as <-. destruct (text_message to_json RcPing) as [m|] eqn:E; [|apply outcome_same; [by apply R|done]].
      apply outcome_reply; [by apply R|done|]. intros b. by eapply text_not_binary.
    + injection Ho as <-. apply outcome_same; [by apply R|done].
  - destruct i; try done. injection Ho as <-. apply outcome_reply; [by apply R|by apply sessions_delete|]. intros b. apply error_text.
  - destruct i as [|ok| | | | |]; try done. injection Ho as <-. destruct Hp as [Hp1 Hp2]. destruct ok; [|apply outcome_same; [by apply R|done]].
    split; [by apply R|]. split; [done|]. apply Forall_singleton. intros b [= <-]. done.
Qed.

Lemma client_step_ok k pc i w o : inv w → w_pc w !! k = Some pc → fresh_uuid i w = true →
  client_step hmac_sha256 to_json from_json uuid_string cfg k (bool_decide (is_Some (w_fired w !! k))) pc i (w_relay w) = Some o → outcome_ok (note k pc i w) k o.
Proof.
  intros Hi Hpc Hf Ho. destruct (note_inv k pc i w Hi Hpc Hf) as (He & _ & Hr & _ & Hl & _). pose proof (iv_pc _ Hi _ _ Hpc) as Hp.
  destruct (note_relay k pc i w) as (R1 & _ & _ & R4 & _). rewrite R1 in Hr. set (w' := note k pc i w) in *.
  assert (∀ h id, client_ok w k h id → client_ok w' k h id) as C by (intros h id; by apply client_mono).
  assert (∀ t h, registered w t h → registered w' t h) as R by (intros t h; by apply registered_mono).
  assert (is_Some (w_fired w !! k) → is_Some (w_fired w' !! k)) as F by (by rewrite R4).
  destruct pc; cbn [client_step pc_ok] in *; try done.
  - destruct i as [| |now| | | |]; try done. unfold allow_connect in Ho. cbv zeta in Ho. assert (∀ x, relay_ok w' (with_rates x (w_relay w))) as Hx by (intros x; by destruct Hr).
    destruct (_ <=? _); injection Ho as <-; [by apply outcome_out|by apply outcome_same].
  - destruct i; try done. injection Ho as <-. case_bool_decide; [by apply outcome_same|by apply outcome_out].
  - destruct i as [m now| | | | | |]; try done. destruct (connect_first _ _ _ _ _ m) as [pc out] eqn:E. injection Ho as <-.
    destruct (connect_ok w' k host_id m pc out) as [H1 H2]; [subst w'; cbn; apply lookup_insert_eq|by destruct Hp|done|]. done.
  - destruct i; try done. injection Ho as <-. destruct (_ <=? _); [by apply outcome_out|by apply outcome_same].
  - destruct i as [| | |id now| | |]; try done. injection Ho as <-. assert (client_ok w' k host_id id) as Hc.
    { split; [by eapply connected_mono; [|apply Hp]|]. subst w'. cbn. apply lookup_insert_eq. }
    apply outcome_same; [done|]. destruct Hr as [H1 H2]. split; [done|]. cbn. intros key x [[<- <-]|[_ E]]%lookup_insert_Some; [|by apply H2].
    exists id. split; [done|]. split; [done|]. cbn. by intros c [= ->].
  - destruct i; try done. destruct (text_message _ _) as [m|] eqn:Em; [|injection Ho as <-; by apply outcome_same].
    destruct (rl_hosts (w_relay w) !! host_id) as [tx|] eqn:Eh; injection Ho as <-; apply outcome_same; try done.
    split; [by apply C|]. split; [by apply (ro_hosts _ _ Hr)|]. unfold text_message in Em. destruct (to_json _); [|done]. injection Em as <-. by eexists.
  - destruct i as [|ok| | | | |]; try done. injection Ho as <-. destruct Hp as (H1 & H2 & t & ->). destruct ok; [|by apply outcome_same].
    apply outcome_reply; [split; [by apply C|by apply R]|done|done].
  - destruct Hp as (H1 & H2). destruct i; try done; [injection Ho as <-; by apply outcome_same|]. case_bool_decide as E; [|done]. injection Ho as <-.
    apply outcome_same; [split; [by apply C|]; split; [by apply R|by apply F]|done].
  - destruct i as [|ok| | | | |]; try done. destruct Hp as (H1 & H2 & H3). destruct (text_message _ _) as [m|]; injection Ho as <-; [destruct ok|]; [apply outcome_out|apply outcome_same..]; try done.
  - destruct Hp as (H1 & H2 & H3). assert (client_ok w' k host_id id ∧ registered w' host_tx host_id ∧ is_Some (w_fired w' !! k)) as Hp by (split; [by apply C|]; split; [by apply R|by apply F]).
    destruct i as [m now| | | | | |]; try done; [|injection Ho as <-; by apply outcome_same]. unfold client_message in Ho.
    destruct m as [[text|b|p|p|]|]; injection Ho as <-; [by apply outcome_same| |by apply outcome_out|by apply outcome_same..]. apply outcome_same; [|done].
    destruct Hp as (? & ? & ?). do 3 (split; [done|]). subst w'. cbn. by left.
  - destruct i; try done. injection Ho as <-. destruct Hp as (H1 & H2 & H3 & H4). apply outcome_same; [|done]. split; [by apply C|]. split; [by apply R|]. split; [by apply F|by apply He].
  - destruct i; try done. destruct Hp as (H1 & H2 & H3 & H4). destruct (forward_from_client _ _ _ _ _ _ _ _) as [c|] eqn:E; injection Ho as <-; [|by apply outcome_out].
    apply C in H1. apply R in H2. apply He in H4. apply outcome_same; [|done]. split; [done|]. split; [done|]. split; [by apply F|].
    destruct H1 as [H1 H1']. eapply forward_client_ok; [by eapply Hl|exact H1|exact H1'|exact H2|exact H4|exact E].
  - destruct i as [|ok| | | | |]; try done. injection Ho as <-. destruct Hp as (H1 & H2 & H3 & H4). destruct ok; [|by apply outcome_out].
    split; [split; [by apply C|]; split; [by apply R|by apply F]|]. split; [done|]. apply Forall_singleton. intros b [= <-]. by eapply relay_link_mono.
  - destruct i; try done. injection Ho as <-. destruct error; [apply outcome_out|apply outcome_same]; try done; by apply sessions_delete.
Qed.

(** ** The invariant holds *)

Lemma set_pc_extends k pc s w : extends w (set_pc k pc s w).
Proof. done. Qed.
Lemma effects_extend k es w : extends w (foldl (effect k) w es).
Proof.
  revert w. induction es as [|e es IH]; intros w; [done|]. cbn. destruct (IH (effect k w e)) as [I1 I2 I3 I4].
  assert (w_first (effect k w e) = w_first w ∧ w_ids (effect k w e) = w_ids w ∧ w_frames (effect k w e) = w_frames w ∧
    (∀ c, is_Some (w_fired w !! c) → is_Some (w_fired (effect k w e) !! c))) as (E1 & E2 & E3 & E4).
  { destruct e; cbn; split_and!; try done. intros c [x Hx]. destruct (decide (client = c)) as [->|]; [by rewrite lookup_insert_eq|by rewrite lookup_insert_ne, Hx]. }
  rewrite E1 in I1. rewrite E2 in I2. rewrite E3 in I4. split; [done|done| |done]. intros c Hc. by apply I3, E4.
Qed.

(** An effect of [k] leaves the states, the tables and the ids alone. *)
Lemma effect_inv k w e : inv w → effect_ok w k e → inv (effect k w e).
Proof.
  intros Hi He. pose proof (effects_extend k [e] w) as Hx. cbn in Hx. destruct Hi as [I1 I2 I3 I4 I5 I6 I7 I8].
  assert (∀ src tx b, link w src tx b → link (effect k w e) src tx b) as L by (intros src tx b; by apply relay_link_mono).
  assert (∀ j pc, w_pc w !! j = Some pc → pc_ok (effect k w e) j pc) as A1 by (intros j pc Hj; apply (pc_mono w); [done|by destruct e|by apply I1]).
  assert (relay_ok (effect k w e) (w_relay w)) as A3 by (by apply (relay_mono w)).
  assert (∀ c hk h, connected w c h ∧ registered w hk h → connected (effect k w e) c h ∧ registered (effect k w e) hk h) as A4
    by (intros c hk h [H1 H2]; split; [by apply (connected_mono w)|by apply (registered_mono w)]).
  destruct e as [tx m|m|c]; cbn [effect effect_ok] in *;
    (split; cbn [push_queue write fire w_pc w_queue w_first w_ids w_fired w_frames w_out w_relay]; [exact A1|exact I2|exact A3| | | |exact I7|exact I8]).
  - exact I4.
  - intros tx' q src b [[<- <-]|[_ Hq]]%lookup_insert_Some; [|by intros ?; eapply I5]. intros [Hin|[= -> <-]%list_elem_of_singleton]%elem_of_app; [|by apply He].
    destruct (w_queue w !! tx) as [q|] eqn:Eq; [by eapply I5|by apply not_elem_of_nil in Hin].
  - exact I6.
  - exact I4.
  - exact I5.
  - intros j src b [Hin|[=]%list_elem_of_singleton]%elem_of_app. by apply I6.
  - intros c' hk [[<- <-]|[_ E]]%lookup_insert_Some; [done|by apply I4].
  - exact I5.
  - exact I6.
Qed.
Lemma effects_inv k es w : inv w → Forall (effect_ok w k) es → inv (foldl (effect k) w es).
Proof.
  revert w. induction es as [|e es IH]; intros w Hi He; [done|]. cbn. apply Forall_cons in He as [H1 H2]. apply IH; [by apply effect_inv|].
  eapply Forall_impl; [exact H2|]. intros x. apply effect_mono, (effects_extend k [e] w).
Qed.

Lemma task_inv k i w w' : inv w → task_step k i w = Some w' → inv w'.
Proof.
  intros Hi. unfold task_step. destruct (w_pc w !! k) as [pc|] eqn:Hpc; cbn [mbind option_bind]; [|done]. destruct (fresh_uuid i w) eqn:Hf; cbn [negb]; [|done].
  match goal with |- mbind _ ?x = _ → _ => destruct x as [[[pc' s'] es]|] eqn:Ho end; cbn [mbind option_bind]; [|done]. intros [= <-].
  assert (outcome_ok (note k pc i w) k (pc', s', es)) as (H1 & H2 & H3).
  { destruct (host_step _ _ _ _ _ _ _ _ _) as [o|] eqn:E; [injection Ho as ->; by eapply host_step_ok|by eapply client_step_ok]. }
  destruct (note_inv k pc i w Hi Hpc Hf) as (He & N1 & N2 & N3 & N4 & N5). destruct (note_relay k pc i w) as (R1 & R2 & R3 & R4 & R5). cbn [fst snd] in *.
  set (v := note k pc i w) in *. apply effects_inv; [|done].
  split; cbn [set_pc w_pc w_queue w_first w_ids w_fired w_frames w_out w_relay]; [| |by apply (relay_mono v)|exact N3| | |exact N4|exact N5].
  - intros j pcj. destruct (decide (k = j)) as [<-|Hj]; [rewrite lookup_insert_eq; by intros [= <-]|rewrite lookup_insert_ne by done]. apply N1. congruence.
  - intros j. destruct (decide (k = j)) as [<-|Hj]; [by rewrite lookup_insert_eq|rewrite lookup_insert_ne by done]. rewrite R2. intros Hn.
    destruct (note_other k pc i w j) as [E1 E2]; [congruence|]. fold v in E1, E2. rewrite E1, E2. by apply Hi.
  - rewrite R3. intros tx q src b Hq Hin. apply (relay_link_mono w); [by destruct He|by eapply Hi].
  - rewrite R5. intros j src b Hin. apply (relay_link_mono w); [by destruct He|by apply Hi].
Qed.

Lemma deliver_inv k w w' : inv w → deliver k w = Some w' → inv w'.
Proof.
  intros [I1 I2 I3 I4 I5 I6 I7 I8]. unfold deliver. destruct (w_pc w !! k) as [pc|]; cbn [mbind option_bind]; [|done].
  destruct (writes pc); [|done]. destruct (w_queue w !! k) as [[|[src m] q]|] eqn:Eq; [done| |done]. intros [= <-].
  split; cbn [write w_pc w_queue w_first w_ids w_fired w_frames w_out w_relay]; [exact I1|exact I2|by apply (relay_mono w)|exact I4| | |exact I7|exact I8].
  - intros tx q' src' b [[<- <-]|[_ Hq]]%lookup_insert_Some Hin; [|by eapply I5]. eapply I5; [exact Eq|by right].
  - intros j src' b [Hin|[= -> -> <-]%list_elem_of_singleton]%elem_of_app; [by apply I6|]. eapply I5; [exact Eq|by left].
Qed.

Lemma open_inv k pc w : inv w → w_pc w !! k = None → (∀ v, w_first v !! k = None → w_ids v !! k = None → pc_ok v k pc) → inv (set_pc k pc (w_relay w) w).
Proof.
  intros Hi Hn Hp. destruct (iv_new _ Hi _ Hn) as [H1 H2]. destruct Hi as [I1 I2 I3 I4 I5 I6 I7 I8].
  split; cbn [set_pc w_pc w_queue w_first w_ids w_fired w_frames w_out w_relay]; [| |by apply (relay_mono w)|exact I4|exact I5|exact I6|exact I7|exact I8].
  - intros j pcj [[<- <-]|[Hj E]]%lookup_insert_Some; [by apply Hp|by apply I1].
  - intros j [Hj _]%lookup_insert_None. by apply I2.
Qed.

Lemma reachable_inv w : reachable w → inv w.
Proof.
  induction 1 as [|w w' _ IH Hs]; [split; cbn; intros *; rewrite ?lookup_empty; try done; [by intros ?%not_elem_of_nil]|].
  destruct Hs as [k Hk|k h ip Hk|k i w' Ht|k w' Ht]; [by apply open_inv|apply open_inv; [done|done|by intros v]|by eapply task_inv|by eapply deliver_inv].
Qed.
End system.

(** ** Theorems *)

(** C5: Isolation of the relay's sessions.  However the handlers of any number of hosts and clients
    interleave, whatever they send, and whenever connections break or expire: a frame that the relay
    writes to a connection comes from the other end of one session.  Either the connection is a
    client, and the sender registered as the client's host and sent exactly this frame with the
    client's session id; or the connection is a host, and the sender is a client that asked for this
    host and sent the frame with its own session id or with the null id, which the relay replaced.
    Both ends presented the host's token, and no other client was ever given that session id. *)
Theorem relay_isolation hmac_sha256 to_json from_json uuid_string cfg w src k b :
  (∀ x y, length x = 16%nat → length y = 16%nat → uuid_string x = uuid_string y → x = y) →
  reachable hmac_sha256 to_json from_json uuid_string cfg w → (k, Some src, MBinary b) ∈ w_out w →
  (downlink hmac_sha256 from_json cfg w src k b ∧ ∀ k', w_ids w !! k' = Some (take 16 b) → k' = k) ∨
  (uplink hmac_sha256 from_json cfg w src k b ∧ ∀ k', w_ids w !! k' = Some (take 16 b) → k' = src).
Proof.
  intros Hu Hr%reachable_inv Ho; [|done]. destruct (iv_out _ _ _ _ _ Hr _ _ _ Ho) as [H|H]; [left|right]; (split; [done|]); intros k' Hk'.
  - destruct H as (h & id & _ & _ & Hi & E & _). rewrite <- E in Hi. by eapply (iv_unique _ _ _ _ _ Hr).
  - destruct H as (h & id & b0 & _ & _ & Hi & E & _). rewrite <- E in Hi. by eapply (iv_unique _ _ _ _ _ Hr).
Qed.

(** Admission.  A client whose frames the relay forwards asked for its host with the host's
    token, was accepted by a connection that registered as that host with the host's token, and its
    frames go to a connection that registered as that host. *)
Theorem relay_admission hmac_sha256 to_json from_json uuid_string cfg w k h id tx :
  (∀ x y, length x = 16%nat → length y = 16%nat → uuid_string x = uuid_string y → x = y) →
  reachable hmac_sha256 to_json from_json uuid_string cfg w → w_pc w !! k = Some (CLoop h id tx) →
  connected hmac_sha256 from_json cfg w k h ∧ registered hmac_sha256 from_json cfg w tx h ∧
  ∃ hk, w_fired w !! k = Some hk ∧ registered hmac_sha256 from_json cfg w hk h.
Proof.
  intros Hu Hr%reachable_inv Hp; [|done]. destruct (iv_pc _ _ _ _ _ Hr _ _ Hp) as ([H1 _] & H2 & [hk Hk]). split; [done|]. split; [done|].
  exists hk. split; [done|]. destruct (iv_fired _ _ _ _ _ Hr _ _ Hk) as (h' & H3 & H4). by rewrite (connected_unique _ _ _ _ _ _ _ H1 H3).
Qed.

(** ** The rate of connections *)

(** A run of connection attempts, each from an address at an instant; the admitted ones. *)
Fixpoint attempts (cfg : RelayConfig) (calls : list (IpAddr * Z)) (s : Relay) : Relay * list (IpAddr * Z) :=
  match calls with
  | [] => (s, [])
  | (ip, now) :: calls =>
      let '(s, ok) := allow_connect cfg ip now s in
      let '(s, admitted) := attempts cfg calls s in (s, if ok then (ip, now) :: admitted else admitted)
  end.
Definition of_ip (ip : IpAddr) (calls : list (IpAddr * Z)) : list Z := (filter (λ e, e.1 = ip) calls).*2.
Definition window (t : Z) (l : list Z) : list Z := filter (λ x, t - 60 * SECOND < x ∧ x <= t) l.
(** [hits] are the admitted instants after some instant a minute before [last]. *)
Definition hits_of (last : Z) (admitted hits : list Z) : Prop :=
  (∀ x, x ∈ admitted → x <= last) ∧ ∃ c, c <= last - 60 * SECOND ∧ hits = filter (λ x, c < x) admitted.
Definition rate_ok (cfg : RelayConfig) (admitted : list Z) : Prop := ∀ t, zlen (window t admitted) <= rc_connects_per_minute cfg.

Lemma window_snoc t l x : window t (l ++ [x]) = window t l ++ (if decide (t - 60 * SECOND < x ∧ x <= t) then [x] else []).
Proof. unfold window. by rewrite filter_app, filter_cons, filter_nil. Qed.
Lemma filter_zlen_le {A} (P Q : A → Prop) `{∀ x, Decision (P x), ∀ x, Decision (Q x)} l : (∀ x, x ∈ l → P x → Q x) → zlen (filter P l) <= zlen (filter Q l).
Proof.
  induction l as [|x l IH]; intros H1; [done|]. rewrite !filter_cons. assert (zlen (filter P l) <= zlen (filter Q l)) as Hl by (apply IH; intros y Hy; apply H1; by right).
  unfold zlen in *. destruct (decide (P x)) as [Hp|], (decide (Q x)) as [|Hq]; cbn; try lia. destruct Hq. apply H1; [by left|done].
Qed.

Lemma attempt_rate cfg ip now s s' ok last A : 0 <= rc_connects_per_minute cfg < 2 ^ 32 → last <= now →
  hits_of last A (default [] (rl_rates s !! ip)) → rate_ok cfg A → allow_connect cfg ip now s = (s', ok) →
  let A' := if ok then A ++ [now] else A in
  hits_of now A' (default [] (rl_rates s' !! ip)) ∧ rate_ok cfg A' ∧ ∀ ip', ip' ≠ ip → rl_rates s' !! ip' = rl_rates s !! ip'.
Proof.
  intros Hc Hn [Hle (c & Hcl & Hh)] Hr. unfold allow_connect. cbv zeta. set (hits := filter _ _).
  assert (hits = filter (λ x, now - 60 * SECOND < x) A) as E.
  { subst hits. rewrite Hh, list_filter_filter. apply list_filter_iff. intros x. unfold sat_sub, SECOND in *. lia. }
  assert (zlen hits <= rc_connects_per_minute cfg) as Hl.
  { etransitivity; [|apply (Hr now)]. rewrite E. apply filter_zlen_le. intros x Hx Hy. split; [done|]. specialize (Hle x Hx). lia. }
  rewrite Z.mod_small by (unfold zlen in *; lia). assert (hits_of now A hits) as Hno.
  { split; [intros x Hx; specialize (Hle x Hx); lia|]. exists (now - 60 * SECOND). split; [lia|done]. }
  destruct (Z.leb_spec (rc_connects_per_minute cfg) (zlen hits)) as [Hb|Hb]; intros [= <- <-]; cbn [rl_rates with_rates]; rewrite lookup_insert_eq; cbn [default].
  - split; [done|]. split; [done|]. intros ip' Hip. by rewrite lookup_insert_ne.
  - split; [|split; [|intros ip' Hip; by rewrite lookup_insert_ne]].
    + split; [intros x [Hx|Hx%list_elem_of_singleton]%elem_of_app; [by apply Hno|lia]|]. exists (now - 60 * SECOND). split; [lia|].
      rewrite filter_app, E. f_equal. rewrite filter_cons_True by (unfold SECOND; lia). done.
    + intros t. rewrite window_snoc. case_decide as Hd; [|rewrite app_nil_r; apply Hr]. unfold zlen in *. rewrite length_app. cbn.
      assert (zlen (window t A) <= zlen hits) as Hw; [|unfold zlen in Hw; lia]. rewrite E. apply filter_zlen_le. intros x _ Hx. lia.
Qed.

Lemma of_ip_snoc ip l e : of_ip ip (l ++ [e]) = of_ip ip l ++ (if decide (e.1 = ip) then [e.2] else []).
Proof. unfold of_ip. rewrite filter_app, fmap_app. f_equal. rewrite filter_cons, filter_nil. by case_decide. Qed.

Lemma attempts_rate cfg calls s B last : 0 <= rc_connects_per_minute cfg < 2 ^ 32 →
  (∀ ip, hits_of last (of_ip ip B) (default [] (rl_rates s !! ip)) ∧ rate_ok cfg (of_ip ip B)) →
  Sorted Z.le (last :: calls.*2) → ∀ ip, rate_ok cfg (of_ip ip (B ++ (attempts cfg calls s).2)).
Proof.
  intros Hc. revert s B last. induction calls as [|[ip now] calls IH]; intros s B last Hb Hs; cbn [attempts]; [intros ip; rewrite app_nil_r; apply Hb|].
  cbn [fmap list_fmap] in Hs. apply Sorted_inv in Hs as [Hs Hd]. apply HdRel_inv in Hd. cbn in Hd.
  destruct (allow_connect cfg ip now s) as [s' ok] eqn:E. destruct (Hb ip) as [H1 H2].
  destruct (attempt_rate cfg ip now s s' ok last (of_ip ip B) Hc Hd H1 H2 E) as (G1 & G2 & G3).
  specialize (IH s' (if ok then B ++ [(ip, now)] else B) now). destruct (attempts cfg calls s') as [s'' ad]. cbn [snd] in *.
  assert (B ++ (if ok then (ip, now) :: ad else ad) = (if ok then B ++ [(ip, now)] else B) ++ ad) as -> by (destruct ok; [by rewrite <- app_assoc|done]).
  apply IH; [|done]. intros ip'. destruct (decide (ip' = ip)) as [->|Hne].
  - assert (of_ip ip (if ok then B ++ [(ip, now)] else B) = if ok then of_ip ip B ++ [now] else of_ip ip B) as ->; [|done].
    destruct ok; [|done]. rewrite of_ip_snoc. by rewrite decide_True.
  - assert (of_ip ip' (if ok then B ++ [(ip, now)] else B) = of_ip ip' B) as ->.
    { destruct ok; [|done]. rewrite of_ip_snoc. rewrite decide_False by (cbn; congruence). apply app_nil_r. }
    rewrite G3 by done. destruct (Hb ip') as [[K1 (c & K2 & K3)] K4]. split; [|done]. split; [intros x Hx; specialize (K1 x Hx); lia|]. exists c. split; [lia|done].
Qed.

(** The rate limit.  Of any sequence of connection attempts from any addresses, in the order of
    the clock, at most [connects_per_minute] from one address are admitted in any minute. *)
Theorem connect_rate_limited cfg calls ip t : 0 <= rc_connects_per_minute cfg < 2 ^ 32 → Sorted Z.le (calls.*2) →
  zlen (window t (of_ip ip (attempts cfg calls (mk_Relay ∅ ∅ ∅)).2)) <= rc_connects_per_minute cfg.
Proof.
  intros Hc Hs. set (first := default 0 (head (calls.*2))).
  apply (attempts_rate cfg calls (mk_Relay ∅ ∅ ∅) [] first Hc).
  - intros ip'. cbn [rl_rates]. rewrite lookup_empty. split; [|intros t'; exact (proj1 Hc)]. split; [by intros x ?%not_elem_of_nil|]. by exists (first - 60 * SECOND).
  - constructor; [done|]. subst first. destruct calls as [|[ip' n] calls]; constructor. done.
Qed.
Lemma connect_rate_limited_witness :
  (attempts (mk_RelayConfig [] 4 100 0 0 0 2 0) ((λ t, ([x7f], t * SECOND)) <$> [0; 10; 20; 60; 61]) (mk_Relay ∅ ∅ ∅)).2 =
    (λ t, ([x7f], t * SECOND)) <$> [0; 10; 60] ∧
  zlen (window (61 * SECOND) (of_ip [x7f] ((λ t, ([x7f], t * SECOND)) <$> [0; 10; 60]))) <= 2.
Proof.
  split; [vm_compute; reflexivity|].
  change ((λ t, ([x7f], t * SECOND)) <$> [0; 10; 60]) with ((λ t : Z, ([x7f] : IpAddr, t * SECOND)) <$> [0; 10; 60]).
  assert (((λ t : Z, ([x7f] : IpAddr, t * SECOND)) <$> [0; 10; 60]) =
    (attempts (mk_RelayConfig [] 4 100 0 0 0 2 0) ((λ t, ([x7f], t * SECOND)) <$> [0; 10; 20; 60; 61]) (mk_Relay ∅ ∅ ∅)).2) as -> by (vm_compute; reflexivity).
  apply (connect_rate_limited (mk_RelayConfig [] 4 100 0 0 0 2 0) ((λ t, ([x7f], t * SECOND)) <$> [0; 10; 20; 60; 61]) [x7f] (61 * SECOND)); [done|].
  cbn. repeat constructor; unfold SECOND; lia.
Defined.

(** ** Runs *)

Inductive Action : Type :=
| ActHost (k : conn)
| ActClient (k : conn) (host_id : String)
| ActTask (k : conn) (i : Input)
| ActDeliver (k : conn).
(** A keyed digest of 32 zero bytes, messages with one-byte lengths, UUIDs as they are. *)
Definition demo_hmac (_ _ : list byte) : list byte := replicate 32 x00.
Definition demo_to_json (c : RelayControl) : option String :=
  match c with
  | RcRegister h t => Some (x01 :: zb (zlen h) :: h ++ t)
  | RcConnect h t => Some (x02 :: zb (zlen h) :: h ++ t)
  | RcAccept s => Some (x03 :: s)
  | RcIncoming s => Some (x04 :: s)
  | _ => Some [x05]
  end.
Definition demo_from_json (t : String) : option RelayControl :=
  match t with
  | x01 :: n :: l => Some (RcRegister (take (Z.to_nat (bz n)) l) (drop (Z.to_nat (bz n)) l))
  | x02 :: n :: l => Some (RcConnect (take (Z.to_nat (bz n)) l) (drop (Z.to_nat (bz n)) l))
  | x03 :: s => Some (RcAccept s)
  | _ => None
  end.
Definition demo_cfg : RelayConfig := from_secret (lit "secret").
Definition act (a : Action) (w : World) : option World :=
  match a with
  | ActHost k => match w_pc w !! k with None => Some (set_pc k HFirst (w_relay w) w) | Some _ => None end
  | ActClient k h => match w_pc w !! k with None => Some (set_pc k (CConnect h []) (w_relay w) w) | Some _ => None end
  | ActTask k i => task_step demo_hmac demo_to_json demo_from_json id demo_cfg k i w
  | ActDeliver k => deliver k w
  end.
Definition acts (l : list Action) (w : World) : option World := foldl (λ w a, w ≫= act a) (Some w) l.
Definition demo_reachable : World → Prop := reachable demo_hmac demo_to_json demo_from_json id demo_cfg.

Lemma act_step a w w' : act a w = Some w' → step demo_hmac demo_to_json demo_from_json id demo_cfg w w'.
Proof.
  destruct a as [k|k h|k i|k]; cbn [act].
  - destruct (w_pc w !! k) eqn:E; [done|]. intros [= <-]. by apply step_host.
  - destruct (w_pc w !! k) eqn:E; [done|]. intros [= <-]. by apply step_client.
  - apply step_task.
  - apply step_deliver.
Qed.
Lemma acts_reachable l w w' : demo_reachable w → acts l w = Some w' → demo_reachable w'.
Proof.
  unfold acts. revert w. induction l as [|a l IH]; intros w Hw; cbn [foldl]; [by intros [= <-]|]. cbn [mbind option_bind].
  destruct (act a w) as [v|] eqn:E; [intros Hl; apply (IH v); [|done]; eapply reach_step; [done|by apply (act_step a)]|].
  clear. induction l as [|a l IH]; [done|exact IH].
Qed.

Definition runs (l : list Action) : bool := match acts l world0 with Some _ => true | None => false end.
Lemma acts_run l : runs l = true → ∃ w, acts l world0 = Some w.
Proof. unfold runs. destruct (acts l world0) as [w|]; [by exists w|done]. Qed.
(** A run that ends in a world with a decided property. *)
Lemma acts_find (P : World → bool) l : match acts l world0 with Some w => P w | None => false end = true → ∃ w, demo_reachable w ∧ P w = true.
Proof. intros H. destruct (acts l world0) as [w|] eqn:E; [|done]. exists w. split; [|done]. by apply (acts_reachable l world0 w (reach_init _ _ _ _ _)). Qed.

Definition demo_host : String := lit "h".
Definition demo_token : String := replicate 64 x30.
Definition uuid_of (n : byte) : list byte := replicate 16 n.
Definition text_of (c : RelayControl) : option Message := MText <$> demo_to_json c.
Definition host_up (k : conn) : list Action :=
  [ActHost k; ActTask k (InMessage (text_of (RcRegister demo_host demo_token)) 0); ActTask k (InSend true)] ++ replicate 4 (ActTask k InGo).
(** A client up to the count of the sessions, and from there to its place in the session table. *)
Definition client_asks (k : conn) : list Action :=
  [ActClient k demo_host; ActTask k (InNow 0); ActTask k InGo; ActTask k (InMessage (text_of (RcConnect demo_host demo_token)) 0); ActTask k InGo].
Definition client_enters (k : conn) (id : list byte) : list Action :=
  [ActTask k (InUuid id 0); ActTask k InGo; ActTask k (InSend true)].
Definition client_accepted (k host : conn) (id : list byte) : list Action :=
  [ActTask host (InMessage (text_of (RcAccept id)) 0); ActTask k InGo; ActTask k (InSend true)].
Definition up_frame : list byte := uuid_of x00 ++ [x01; x61].
Definition down_frame : list byte := uuid_of x07 ++ [x02; x62].
(** One host, one client, a frame each way. *)
Definition demo_session : list Action :=
  host_up 1 ++ client_asks 2 ++ client_enters 2 (uuid_of x07) ++ client_accepted 2 1 (uuid_of x07) ++
  [ActTask 2 (InMessage (Some (MBinary up_frame)) 0); ActTask 2 InGo; ActTask 2 InGo; ActTask 2 (InSend true); ActDeliver 1; ActDeliver 1;
   ActTask 1 (InMessage (Some (MBinary down_frame)) 0); ActTask 1 (InSend true); ActDeliver 2].

Lemma relay_isolation_witness : ∃ w, acts demo_session world0 = Some w ∧
  (1%positive, Some 2%positive, MBinary (uuid_of x07 ++ [x01; x61])) ∈ w_out w ∧
  (2%positive, Some 1%positive, MBinary down_frame) ∈ w_out w ∧
  ((downlink demo_hmac demo_from_json demo_cfg w 1 2 down_frame ∧ ∀ k', w_ids w !! k' = Some (take 16 down_frame) → k' = 2%positive) ∨
   (uplink demo_hmac demo_from_json demo_cfg w 1 2 down_frame ∧ ∀ k', w_ids w !! k' = Some (take 16 down_frame) → k' = 1%positive)).
Proof.
  destruct (acts_run demo_session) as [w E]; [vm_compute; reflexivity|].
  assert (w_out w = w_out (default world0 (acts demo_session world0))) as Ho by (by rewrite E).
  assert ((2%positive, Some 1%positive, MBinary down_frame) ∈ w_out w) as H2 by (rewrite Ho; vm_compute; repeat constructor).
  exists w. split; [done|]. split; [rewrite Ho; vm_compute; repeat constructor|]. split; [done|].
  apply (relay_isolation demo_hmac demo_to_json demo_from_json id demo_cfg); [by intros x y _ _|by apply (acts_reachable demo_session world0 w (reach_init _ _ _ _ _))|done].
Defined.
Lemma relay_admission_witness : ∃ w, acts demo_session world0 = Some w ∧ w_pc w !! 2%positive = Some (CLoop demo_host (uuid_of x07) 1) ∧
  connected demo_hmac demo_from_json demo_cfg w 2 demo_host ∧ registered demo_hmac demo_from_json demo_cfg w 1 demo_host ∧
  ∃ hk, w_fired w !! 2%positive = Some hk ∧ registered demo_hmac demo_from_json demo_cfg w hk demo_host.
Proof.
  destruct (acts_run demo_session) as [w E]; [vm_compute; reflexivity|].
  assert (w_pc w !! 2%positive = w_pc (default world0 (acts demo_session world0)) !! 2%positive) as Ho by (by rewrite E).
  assert (w_pc w !! 2%positive = Some (CLoop demo_host (uuid_of x07) 1)) as H2 by (rewrite Ho; vm_compute; reflexivity).
  exists w. split; [done|]. split; [done|].
  apply (relay_admission demo_hmac demo_to_json demo_from_json id demo_cfg w 2 demo_host (uuid_of x07) 1);
    [by intros x y _ _|by apply (acts_reachable demo_session world0 w (reach_init _ _ _ _ _))|done].
Defined.

(** ** Two handlers in each other's way *)

(** The handler of [k] is in its loop for [demo_host] and the table has no such host. *)
Definition lost_host (k : conn) (w : World) : bool :=
  match w_pc w !! k with Some (HLoop h) => bool_decide (h = demo_host) && bool_decide (rl_hosts (w_relay w) !! demo_host = None) | _ => false end.
(** A host that reconnects can be lost.  The handler of a host's old connection, when it ends,
    removes the entry of the host's id without looking whose it is: if the host has registered again
    meanwhile, over a connection that is alive and well, its new entry goes, and clients are told
    that the host is not registered, for as long as the new connection lives. *)
Theorem stale_host_drops_successor : ∃ w, demo_reachable w ∧ lost_host 3 w = true.
Proof. apply (acts_find _ (host_up 1 ++ host_up 3 ++ [ActTask 1 InTimeout] ++ replicate 3 (ActTask 1 InGo))). vm_compute; reflexivity. Qed.

(** The limit of sessions per host can be exceeded: clients that count the sessions before any of
    them has entered the table all pass, so a host can have a fifth session. *)
Theorem session_limit_race : ∃ w, demo_reachable w ∧ (rc_max_sessions_per_host demo_cfg <? session_count demo_host (rl_sessions (w_relay w))) = true.
Proof.
  apply (acts_find (λ w, rc_max_sessions_per_host demo_cfg <? session_count demo_host (rl_sessions (w_relay w)))
    (host_up 1 ++ client_asks 2 ++ client_asks 3 ++ client_asks 4 ++ client_asks 5 ++ client_asks 6 ++
     client_enters 2 (uuid_of x02) ++ client_enters 3 (uuid_of x03) ++ client_enters 4 (uuid_of x04) ++ client_enters 5 (uuid_of x05) ++ client_enters 6 (uuid_of x06))).
  vm_compute; reflexivity.
Qed.

(** ** The protocol's functions *)

Lemma lor_zero a b : 0 <= a → 0 <= b → (Z.lor a b =? 0) = (a =? 0) && (b =? 0).
Proof.
  intros Ha Hb. destruct (Z.eqb_spec (Z.lor a b) 0) as [E|E].
  - apply Z.lor_eq_0_iff in E as [-> ->]. done.
  - symmetry. apply andb_false_iff. destruct (Z.eqb_spec a 0) as [->|]; [right|by left]. rewrite Z.lor_0_l in E. by apply Z.eqb_neq.
Qed.
Definition compare (st : Z * Z) (ab : byte * byte) : Z * Z :=
  let '(diff, non_hex) := st in
  (Z.lor diff (Z.lxor (bz ab.1) (to_ascii_lowercase (bz ab.2))), if negb (is_ascii_hexdigit (bz ab.2)) then Z.lor non_hex 1 else non_hex).
Lemma compare_zero l d n : 0 <= d → 0 <= n →
  let st := foldl compare (d, n) l in
  (st.1 =? 0) && (st.2 =? 0) = (d =? 0) && (n =? 0) && forallb (λ ab, (bz ab.1 =? to_ascii_lowercase (bz ab.2)) && is_ascii_hexdigit (bz ab.2)) l.
Proof.
  revert d n. induction l as [|[a b] l IH]; intros d n Hd Hn; cbn [foldl forallb]; [by rewrite andb_true_r|].
  pose proof (bz_range a). pose proof (bz_range b). assert (0 <= to_ascii_lowercase (bz b)) by (unfold to_ascii_lowercase; destruct (between _ _ _); lia).
  assert (0 <= Z.lxor (bz a) (to_ascii_lowercase (bz b))) as Hx by (apply Z.lxor_nonneg; lia).
  assert ((Z.lxor (bz a) (to_ascii_lowercase (bz b)) =? 0) = (bz a =? to_ascii_lowercase (bz b))) as Ex.
  { destruct (Z.eqb_spec (Z.lxor (bz a) (to_ascii_lowercase (bz b))) 0) as [E|E]; destruct (Z.eqb_spec (bz a) (to_ascii_lowercase (bz b))) as [E'|E']; try done.
    - by apply Z.lxor_eq in E.
    - by rewrite E', Z.lxor_nilpotent in E. }
  unfold compare at 2 4. cbn [fst snd]. rewrite IH; [|by apply Z.lor_nonneg|destruct (is_ascii_hexdigit _); cbn; [done|by apply Z.lor_nonneg]].
  rewrite lor_zero by done. rewrite Ex. destruct (is_ascii_hexdigit (bz b)); cbn [negb]; [btauto|]. rewrite lor_zero by done. cbn [Z.eqb]. btauto.
Qed.

Lemma lowercase_range b : 0 <= to_ascii_lowercase (bz b) < 256.
Proof. pose proof (bz_range b). unfold to_ascii_lowercase, between. destruct (Z.leb_spec 65 (bz b)), (Z.leb_spec (bz b) 90); cbn; lia. Qed.
Lemma zip_all e p : length e = length p →
  forallb (λ ab, (bz ab.1 =? to_ascii_lowercase (bz ab.2)) && is_ascii_hexdigit (bz ab.2)) (zip e p) = true ↔
  (λ b, zb (to_ascii_lowercase (bz b))) <$> p = e ∧ Forall (λ b, is_ascii_hexdigit (bz b) = true) p.
Proof.
  revert p. induction e as [|a e IH]; intros [|b p] Hl; try done. cbn [zip zip_with forallb fmap list_fmap fst snd].
  rewrite !andb_true_iff, Z.eqb_eq, IH by (by injection Hl). assert (bz a = to_ascii_lowercase (bz b) ↔ zb (to_ascii_lowercase (bz b)) = a) as ->.
  { pose proof (lowercase_range b). split; [intros <-; apply bz_inj; rewrite bz_zb; apply Z.mod_small, bz_range|intros <-; by rewrite bz_zb, Z.mod_small]. }
  rewrite Forall_cons. split; [intros ((-> & H1) & -> & H2); done|intros ([= -> ->] & H1 & H2); done].
Qed.

(** The relay's token check, which compares in constant time, decides what it means to: the
    presented text is the host's token, in hexadecimal digits of either case. *)
Theorem relay_token_exact hmac_sha256 secret host_id presented : (∀ k m, length (hmac_sha256 k m) = 32%nat) →
  relay_token_matches hmac_sha256 secret host_id presented = true ↔
  (λ b, zb (to_ascii_lowercase (bz b))) <$> presented = relay_token hmac_sha256 secret host_id ∧ Forall (λ b, is_ascii_hexdigit (bz b) = true) presented.
Proof.
  intros Hh. assert (length (relay_token hmac_sha256 secret host_id) = 64%nat) as Hl.
  { unfold relay_token. specialize (Hh secret host_id). revert Hh. generalize (hmac_sha256 secret host_id). intros l Hl.
    transitivity (2 * length l)%nat; [clear; induction l as [|x l IH]; [done|]; rewrite fmap_cons; cbn [concat app length]; rewrite IH; lia|lia]. }
  unfold relay_token_matches. cbv zeta. assert ((zlen (relay_token hmac_sha256 secret host_id) =? 64) = true) as -> by (apply Z.eqb_eq; unfold zlen; lia). cbn [negb]. destruct (Z.eqb_spec (zlen presented) 64) as [Hp|Hp]; cbn [negb].
  - change (λ (st : Z * Z) (ab : byte * byte), let '(diff, non_hex) := st in _) with compare. pose proof (compare_zero (zip (relay_token hmac_sha256 secret host_id) presented) 0 0) as E.
    destruct (foldl compare _ _) as [d n]. cbn in E. rewrite E by done. apply zip_all. unfold zlen in Hp. lia.
  - split; [done|]. intros [E _]. destruct Hp. unfold zlen. rewrite <- (length_fmap (λ b, zb (to_ascii_lowercase (bz b)))), E, Hl. done.
Qed.
Lemma relay_token_exact_witness : relay_token_matches demo_hmac (lit "secret") demo_host demo_token = true.
Proof.
  apply (relay_token_exact demo_hmac (lit "secret") demo_host demo_token); [done|]. split; [vm_compute; reflexivity|]. apply Forall_replicate. vm_compute; reflexivity.
Defined.

Lemma relay_frame_roundtrip id channel payload b : length id = 16%nat → encode_relay_frame id channel payload = Ok b →
  decode_relay_frame b = Ok (mk_RelayFrame id channel payload) ∧ b = id ++ [zb channel] ++ payload.
Proof.
  intros Hid. unfold encode_relay_frame. destruct (negb (channel =? RELAY_CHANNEL_TCP) && _) eqn:Ec; [done|]. destruct (Z.ltb_spec RELAY_MAX_PAYLOAD_LEN (zlen payload)) as [|Hp]; [done|].
  intros [= <-]. split; [|done]. assert (bz (zb channel) = channel) as Hz.
  { rewrite bz_zb. apply Z.mod_small. unfold RELAY_CHANNEL_TCP, RELAY_CHANNEL_UDP in Ec. destruct (Z.eqb_spec channel 1), (Z.eqb_spec channel 2); try done; lia. }
  unfold decode_relay_frame. cbv zeta. assert (zlen (id ++ zb channel :: payload) = RELAY_FRAME_HEADER_LEN + zlen payload) as El.
  { unfold zlen. rewrite length_app, Hid. cbn [length]. unfold RELAY_FRAME_HEADER_LEN. lia. }
  cbn [app]. rewrite El. destruct (Z.ltb_spec (RELAY_FRAME_HEADER_LEN + zlen payload) RELAY_FRAME_HEADER_LEN) as [Hb|_]; [unfold zlen in Hb; lia|].
  assert ((id ++ zb channel :: payload) !! 16%nat = Some (zb channel)) as -> by (rewrite lookup_app_r by lia; by rewrite Hid). unfold default. cbn [from_option]. unfold Datatypes.id.
  rewrite Hz, Ec. replace (RELAY_FRAME_HEADER_LEN + zlen payload - RELAY_FRAME_HEADER_LEN) with (zlen payload) by lia.
  destruct (Z.ltb_spec RELAY_MAX_PAYLOAD_LEN (zlen payload)); [lia|]. do 2 f_equal; [by apply take_app_length'|].
  change (id ++ zb channel :: payload) with (id ++ [zb channel] ++ payload). rewrite app_assoc. apply drop_app_length'. rewrite length_app, Hid. done.
Qed.

(** The relay carries every payload unchanged, both ways.  For a live session of a registered
    host: what a client wraps with the null id comes out at the host as the same channel and payload
    under the client's session id, and what the host wraps with that id goes to that client and comes
    out there as the same channel and payload. *)
Theorem relay_carries to_json uuid_string cfg h id tx x sessions hosts channel payload now : length id = 16%nat →
  sessions !! uuid_string id = Some x → ss_host_id x = h → hosts !! h = Some tx →
  (channel = RELAY_CHANNEL_TCP ∨ channel = RELAY_CHANNEL_UDP) → zlen payload <= RELAY_MAX_PAYLOAD_LEN → zlen payload <= rc_max_payload_len cfg →
  now - ss_created x <= rc_max_session_duration cfg → 0 <= rc_max_session_duration cfg →
  (∃ up up', encode_relay_frame (replicate 16 x00) channel payload = Ok up ∧
     forward_from_client uuid_string h id up (rc_max_payload_len cfg) tx sessions hosts = Some up' ∧
     decode_relay_frame up' = Ok (mk_RelayFrame id channel payload)) ∧
  (∃ down, encode_relay_frame id channel payload = Ok down ∧
     forward_from_host to_json uuid_string cfg h down now sessions = HfForward (ss_client_tx x) down ∧
     decode_relay_frame down = Ok (mk_RelayFrame id channel payload)).
Proof.
  intros Hid Hx Hh Ht Hc Hp Hm Hd H0.
  assert (∀ i, ∃ b, encode_relay_frame i channel payload = Ok b) as He.
  { intros i. unfold encode_relay_frame. exists (i ++ [zb channel] ++ payload). destruct (Z.ltb_spec RELAY_MAX_PAYLOAD_LEN (zlen payload)); [lia|]. by destruct Hc as [-> | ->]. }
  assert ((rc_max_payload_len cfg <? zlen payload) = false) as Hlt by (by apply Z.ltb_ge). split.
  - destruct (He (replicate 16 x00)) as [up Hup]. destruct (He id) as [up' Hup'].
    destruct (relay_frame_roundtrip _ _ _ _ (length_replicate 16 x00) Hup) as [D1 E1], (relay_frame_roundtrip _ _ _ _ Hid Hup') as [D2 E2].
    exists up, up'. split; [done|]. split; [|done]. unfold forward_from_client. rewrite D1. cbn [rf_payload rf_session_id]. rewrite Hlt. cbv zeta.
    rewrite (bool_decide_eq_true_2 (replicate 16 x00 = replicate 16 x00)) by done. cbn [mbind option_bind]. rewrite bool_decide_eq_true_2 by done. cbn [negb].
    rewrite Ht. cbn [mbind option_bind]. rewrite bool_decide_eq_true_2 by done. cbn [negb]. f_equal. rewrite E1, E2. f_equal.
  - destruct (He id) as [down Hdn]. destruct (relay_frame_roundtrip _ _ _ _ Hid Hdn) as [D E]. exists down. split; [done|]. split; [|done].
    unfold forward_from_host. rewrite D. cbn [rf_payload rf_session_id]. rewrite Hlt. cbv zeta. rewrite Hx, bool_decide_eq_true_2 by done. cbn [negb].
    destruct (Z.ltb_spec (rc_max_session_duration cfg) (sat_sub now (ss_created x))) as [Hb|_]; [unfold sat_sub in Hb; lia|done].
Qed.
Lemma relay_carries_witness :
  forward_from_client id demo_host (uuid_of x07) (uuid_of x00 ++ [x01; x61]) RELAY_MAX_PAYLOAD_LEN 1%positive
    {[uuid_of x07 := mk_Session demo_host 2 None 5]} {[demo_host := 1%positive]} = Some (uuid_of x07 ++ [x01; x61]) ∧
  ∃ down, encode_relay_frame (uuid_of x07) 1 [x61] = Ok down ∧
    forward_from_host demo_to_json id demo_cfg demo_host down 9 {[uuid_of x07 := mk_Session demo_host 2 None 5]} = HfForward 2 down.
Proof.
  split; [vm_compute; reflexivity|].
  destruct (relay_carries demo_to_json id demo_cfg demo_host (uuid_of x07) 1 (mk_Session demo_host 2 None 5) {[uuid_of x07 := mk_Session demo_host 2 None 5]}
    {[demo_host := 1%positive]} RELAY_CHANNEL_TCP [x61] 9) as [_ (down & H1 & H2 & _)]; try done; [by left|]. by exists down.
Defined.
