(* ===== verification/RdAgent.v ===== *)
(** * RdAgent: agents at the keyboard

    A program can drive a remote desktop: it asks for clicks, drags, keys and text, which become
    input events of the wire, and what it holds down is released when it forgets to.  This file has
    the conversion of actions, the tracker of held keys and buttons
    (crates/ferryx-rd/ferryx-rd-app/src/agent_input.rs, with the key map of input.rs) and the
    dispatch of requests, resets and watchdog ticks with their failed sends
    (ferryx-rd-app/src/agent_server.rs).  Strings are the list of their characters, floats their
    bits (RdInput), instants milliseconds.  The order in which a hash set is drained is a
    parameter. *)

From S2P Require Import Prelude Wire Utf8 RdCodec RdInput.
From Stdlib Require Import ZArith Lia Strings.Ascii Floats.SpecFloat.
From stdpp Require Import base option gmap strings list list_numbers.

#[local] Open Scope Z_scope.

(** ** Characters and floats *)

Definition chars (s : string) : list Z := (λ a, Z.of_N (N_of_ascii a)) <$> String.list_ascii_of_string s.
(** [char::is_whitespace]: the property White_Space. *)
Definition is_whitespace (c : Z) : bool :=
  ((9 <=? c) && (c <=? 13)) || (c =? 32) || (c =? 0x85) || (c =? 0xA0) || (c =? 0x1680) || ((0x2000 <=? c) && (c <=? 0x200A)) ||
  (c =? 0x2028) || (c =? 0x2029) || (c =? 0x202F) || (c =? 0x205F) || (c =? 0x3000).
Fixpoint trim_start (s : list Z) : list Z :=
  match s with c :: rest => if is_whitespace c then trim_start rest else s | [] => [] end.
Definition trim (s : list Z) : list Z := reverse (trim_start (reverse (trim_start s))).
Definition str_len (s : list Z) : Z := foldr (λ c n, len_utf8 c + n) 0 s.
Definition is_upper (c : Z) : bool := (65 <=? c) && (c <=? 90).
Definition is_lower (c : Z) : bool := (97 <=? c) && (c <=? 122).
Definition is_digit (c : Z) : bool := (48 <=? c) && (c <=? 57).
Definition lower (s : list Z) : list Z := (λ c, if is_upper c then c + 32 else c) <$> s.
Definition to_upper (c : Z) : Z := if is_lower c then c - 32 else c.

Definition f32_zero : Z := 0.
Definition f32_one : Z := 0x3f800000.
Definition f32_sub (a b : Z) : Z := f32_to_bits (SFsub 24 128 (f32_of_bits a) (f32_of_bits b)).
Definition f32_mul (a b : Z) : Z := f32_to_bits (SFmul 24 128 (f32_of_bits a) (f32_of_bits b)).
Definition f32_div (a b : Z) : Z := f32_to_bits (SFdiv 24 128 (f32_of_bits a) (f32_of_bits b)).
Definition f32_lt (a b : Z) : bool := SFltb (f32_of_bits a) (f32_of_bits b).
Definition f32_le (a b : Z) : bool := SFleb (f32_of_bits a) (f32_of_bits b).
Definition f32_of_u32 (n : Z) : Z := f32_to_bits (binary_normalize 24 128 n 0 false).
Definition f32_clamp01 (a : Z) : Z := if f32_lt a f32_zero then f32_zero else if f32_lt f32_one a then f32_one else a.

(** ** Keys *)

Definition MEDIA_PLAY_PAUSE : Z := 0x0100.
Definition MEDIA_NEXT : Z := 0x0101.
Definition MEDIA_PREVIOUS : Z := 0x0102.
Definition MEDIA_STOP : Z := 0x0103.
Definition BROWSER_BACK : Z := 0x0104.
Definition BROWSER_FORWARD : Z := 0x0105.
Definition BROWSER_REFRESH : Z := 0x0106.
Definition BROWSER_STOP : Z := 0x0107.
Definition BROWSER_SEARCH : Z := 0x0108.
Definition BROWSER_FAVORITES : Z := 0x0109.
Definition BROWSER_HOME : Z := 0x010a.
Definition F21 : Z := 0x010b.
Definition F22 : Z := 0x010c.
Definition F23 : Z := 0x010d.
Definition F24 : Z := 0x010e.

(** [InputKeyMap::to_macos]: from Windows virtual keys to the key codes of the wire. *)
Definition MACOS_KEYS : list (Z * Z) :=
  [(0x41, 0x00); (0x53, 0x01); (0x44, 0x02); (0x46, 0x03); (0x48, 0x04); (0x47, 0x05); (0x5a, 0x06);
   (0x58, 0x07); (0x43, 0x08); (0x56, 0x09); (0x42, 0x0b); (0x51, 0x0c); (0x57, 0x0d); (0x45, 0x0e);
   (0x52, 0x0f); (0x59, 0x10); (0x54, 0x11); (0x31, 0x12); (0x32, 0x13); (0x33, 0x14); (0x34, 0x15);
   (0x36, 0x16); (0x35, 0x17); (0x3d, 0x18); (0x39, 0x19); (0x37, 0x1a); (0x2d, 0x1b); (0x38, 0x1c);
   (0x30, 0x1d); (0xdd, 0x1e); (0x4f, 0x1f); (0x55, 0x20); (0xdb, 0x21); (0x49, 0x22); (0x50, 0x23);
   (0x0d, 0x24); (0x4c, 0x25); (0x4a, 0x26); (0xde, 0x27); (0x4b, 0x28); (0xba, 0x29); (0xdc, 0x2a);
   (0xbc, 0x2b); (0xbf, 0x2c); (0x4e, 0x2d); (0x4d, 0x2e); (0xbe, 0x2f); (0x09, 0x30); (0x20, 0x31);
   (0xc0, 0x32); (0x08, 0x33); (0x1b, 0x35); (0x5b, 0x37); (0x5c, 0x37); (0x10, 0x38); (0xa0, 0x38);
   (0x14, 0x39); (0x12, 0x3a); (0xa4, 0x3a); (0x11, 0x3b); (0xa2, 0x3b); (0xa1, 0x3c); (0xa5, 0x3d);
   (0xa3, 0x3e); (0x70, 0x7a); (0x71, 0x78); (0x72, 0x63); (0x73, 0x76); (0x74, 0x60); (0x75, 0x61);
   (0x76, 0x62); (0x77, 0x64); (0x78, 0x65); (0x79, 0x6d); (0x7a, 0x67); (0x7b, 0x6f); (0x7c, 0x69);
   (0x7d, 0x6b); (0x7e, 0x71); (0x7f, 0x6a); (0x80, 0x40); (0x81, 0x4f); (0x82, 0x50); (0x83, 0x5a);
   (0x84, F21); (0x85, F22); (0x86, F23); (0x87, F24); (0xb3, MEDIA_PLAY_PAUSE); (0xb0, MEDIA_NEXT);
   (0xb1, MEDIA_PREVIOUS); (0xb2, MEDIA_STOP); (0xa6, BROWSER_BACK); (0xa7, BROWSER_FORWARD);
   (0xa8, BROWSER_REFRESH); (0xa9, BROWSER_STOP); (0xaa, BROWSER_SEARCH); (0xab, BROWSER_FAVORITES);
   (0xac, BROWSER_HOME); (0xad, 0x4a); (0xae, 0x49); (0xaf, 0x48); (0x60, 0x52); (0x61, 0x53); (0x62, 0x54);
   (0x63, 0x55); (0x64, 0x56); (0x65, 0x57); (0x66, 0x58); (0x67, 0x59); (0x68, 0x5b); (0x69, 0x5c);
   (0x6a, 0x43); (0x6b, 0x45); (0x6d, 0x4e); (0x6e, 0x41); (0x6f, 0x4b); (0x90, 0x47); (0x92, 0x51);
   (0x100d, 0x4c); (0x25, 0x7b); (0x27, 0x7c); (0x28, 0x7d); (0x26, 0x7e); (0x24, 0x73); (0x23, 0x77);
   (0x21, 0x74); (0x22, 0x79); (0x2e, 0x75)].
Definition assoc {V} (k : Z) (l : list (Z * V)) : option V := snd <$> List.find (λ e, e.1 =? k) l.
Definition to_macos (key : Z) : option Z := assoc key MACOS_KEYS.

Inductive AgentInputError : Type :=
| UnknownKey (name : list Z)
| UnmappableKey (name : list Z)
| EmptyHotkey
| InvalidCoordinates (x y : Z)
| ActionTooLarge (max_events : Z).

Definition one_of (names : list string) (s : list Z) : bool := existsb (λ n, bool_decide (chars n = s)) names.
Definition MODIFIER_NAMES : list (list string * (Z * Z)) :=
  [(["shift"; "leftshift"; "rightshift"], (0x10, SHIFT)); (["ctrl"; "control"; "leftctrl"; "rightctrl"], (0x11, CONTROL));
   (["alt"; "option"; "leftalt"; "rightalt"], (0x12, OPTION));
   (["super"; "win"; "windows"; "cmd"; "command"; "meta"], (0x5B, COMMAND)); (["capslock"], (0x14, CAPS_LOCK))].
Definition KEY_NAMES : list (list string * Z) :=
  [(["enter"; "return"], 0x0D); (["esc"; "escape"], 0x1B); (["tab"], 0x09); (["space"; " "], 0x20);
   (["backspace"], 0x08); (["delete"; "del"], 0x2E); (["insert"; "ins"], 0x2D); (["home"], 0x24);
   (["end"], 0x23); (["pageup"; "pgup"], 0x21); (["pagedown"; "pgdn"], 0x22); (["arrowup"; "up"], 0x26);
   (["arrowdown"; "down"], 0x28); (["arrowleft"; "left"], 0x25); (["arrowright"; "right"], 0x27);
   (["f1"], 0x70); (["f2"], 0x71); (["f3"], 0x72); (["f4"], 0x73); (["f5"], 0x74); (["f6"], 0x75);
   (["f7"], 0x76); (["f8"], 0x77); (["f9"], 0x78); (["f10"], 0x79); (["f11"], 0x7A); (["f12"], 0x7B);
   (["-"; "minus"], 0xBD); (["="; "equal"], 0xBB); (["["; "bracketleft"], 0xDB);
   (["]"; "bracketright"], 0xDD); (["\"; "backslash"], 0xDC); ([";"; "semicolon"], 0xBA);
   (["'"; "quote"], 0xDE); ([","; "comma"], 0xBC); (["."; "period"], 0xBE); (["/"; "slash"], 0xBF);
   (["`"; "grave"], 0xC0)].
Definition named {V} (l : list (list string * V)) (s : list Z) : option V := snd <$> List.find (λ e, one_of e.1 s) l.

(** A key is its virtual key code with the modifiers it stands for. *)
Definition parse_key_name (name : list Z) : Result (Z * Z) AgentInputError :=
  let trimmed := trim name in
  match named MODIFIER_NAMES (lower trimmed) with
  | Some km => Ok km
  | None =>
      match named KEY_NAMES (lower trimmed) with
      | Some vk => Ok (vk, 0)
      | None =>
          match trimmed with
          | ch :: _ =>
              if negb (str_len trimmed =? 1) then Err (UnknownKey name) else
              if is_upper ch || is_lower ch then Ok (to_upper ch, if is_upper ch then SHIFT else 0) else
              if is_digit ch then Ok (ch, 0) else Err (UnknownKey name)
          | [] => Err (UnknownKey name)
          end
      end
  end.

(** [str::split] at ['+']. *)
Fixpoint split_plus (s acc : list Z) : list (list Z) :=
  match s with
  | [] => [acc]
  | c :: rest => if c =? 43 then acc :: split_plus rest [] else split_plus rest (acc ++ [c])
  end.
Definition hotkey_parts (hotkey : list Z) : list (list Z) := filter (λ s, s ≠ []) (trim <$> split_plus hotkey []).
(** The modifiers a part that is not the last adds. *)
Definition HOTKEY_MODIFIERS : list (list string * Z) :=
  [(["ctrl"; "control"], CONTROL); (["alt"; "opt"; "option"], OPTION); (["shift"], SHIFT); (["super"; "win"; "cmd"; "command"], COMMAND)].
Fixpoint hotkey_loop (parts : list (list Z)) (combined : Z) : Result (Z * Z) AgentInputError :=
  match parts with
  | [] => Err EmptyHotkey
  | part :: rest =>
      match parse_key_name part with
      | Err e => Err e
      | Ok (key, mods) =>
          match rest with
          | [] => Ok (key, Z.lor combined mods)
          | _ =>
              if mods =? 0 then
                match named HOTKEY_MODIFIERS (lower part) with
                | Some m => hotkey_loop rest (Z.lor combined m)
                | None => Err (UnknownKey part)
                end
              else hotkey_loop rest (Z.lor combined mods)
          end
      end
  end.
Definition parse_hotkey_string (hotkey : list Z) : Result (Z * Z) AgentInputError :=
  match hotkey_parts hotkey with [] => Err EmptyHotkey | parts => hotkey_loop parts 0 end.

Definition require_macos_keycode (key : Z) (name : list Z) : Result Z AgentInputError :=
  match to_macos key with Some code => Ok code | None => Err (UnmappableKey name) end.

Definition normalize_agent_coordinates (x y : Z) (normalized : bool) (host_width host_height : Z) : Result (Z * Z) AgentInputError :=
  if negb (f32_finite x) || negb (f32_finite y) then Err (InvalidCoordinates x y) else
  if normalized then Ok (f32_clamp01 x, f32_clamp01 (f32_sub f32_one y)) else
  if f32_le host_width f32_zero || f32_le host_height f32_zero then Ok (f32_zero, f32_zero) else
  Ok (f32_clamp01 (f32_div x host_width), f32_clamp01 (f32_sub f32_one (f32_div y host_height))).

Definition ASCII_KEYS : list (Z * (Z * Z)) :=
  [(32, (0x20, 0)); (10, (0x0D, 0)); (13, (0x0D, 0)); (9, (0x09, 0)); (45, (0xBD, 0)); (95, (0xBD, SHIFT));
   (61, (0xBB, 0)); (43, (0xBB, SHIFT)); (91, (0xDB, 0)); (123, (0xDB, SHIFT)); (93, (0xDD, 0));
   (125, (0xDD, SHIFT)); (92, (0xDC, 0)); (124, (0xDC, SHIFT)); (59, (0xBA, 0)); (58, (0xBA, SHIFT));
   (39, (0xDE, 0)); (34, (0xDE, SHIFT)); (44, (0xBC, 0)); (60, (0xBC, SHIFT)); (46, (0xBE, 0));
   (62, (0xBE, SHIFT)); (47, (0xBF, 0)); (63, (0xBF, SHIFT)); (96, (0xC0, 0)); (126, (0xC0, SHIFT));
   (33, (0x31, SHIFT)); (64, (0x32, SHIFT)); (35, (0x33, SHIFT)); (36, (0x34, SHIFT)); (37, (0x35, SHIFT));
   (94, (0x36, SHIFT)); (38, (0x37, SHIFT)); (42, (0x38, SHIFT)); (40, (0x39, SHIFT)); (41, (0x30, SHIFT))].
Definition synthesize_ascii_char (ch : Z) : option (Z * Z) :=
  if is_upper ch || is_lower ch then Some (to_upper ch, if is_upper ch then SHIFT else 0) else
  if is_digit ch then Some (ch, 0) else assoc ch ASCII_KEYS.

(** ** The tracker *)

Inductive MouseButton : Type := Left | Right | Middle.
#[global] Instance MouseButton_eq_dec : EqDecision MouseButton.
Proof. solve_decision. Defined.
#[global] Instance MouseButton_countable : Countable MouseButton.
Proof.
  refine (inj_countable' (λ b, match b with Left => 0 | Right => 1 | Middle => 2 end) (λ n, if n =? 0 then Left else if n =? 1 then Right else Middle) _).
  by intros [].
Defined.

Definition to_down_event_type (b : MouseButton) : InputEventType :=
  match b with Left => LeftMouseDown | Right => RightMouseDown | Middle => MiddleMouseDown end.
Definition to_up_event_type (b : MouseButton) : InputEventType :=
  match b with Left => LeftMouseUp | Right => RightMouseUp | Middle => MiddleMouseUp end.
Definition to_drag_event_type (b : MouseButton) : InputEventType :=
  match b with Left => LeftMouseDragged | Right => RightMouseDragged | Middle => LeftMouseDragged end.

Record InputStateTracker := mk_InputStateTracker {
  it_active_buttons : gset MouseButton;
  it_active_keys : gset Z;
  it_key_modifiers : gmap Z Z;
  it_active_modifiers : Z;
  it_last_action_at : Z;
  it_hold_timeout : Z;
}.
Definition tracker_new (hold_timeout now : Z) : InputStateTracker := mk_InputStateTracker ∅ ∅ ∅ 0 now hold_timeout.
Definition record_button_down (b : MouseButton) (now : Z) (t : InputStateTracker) : InputStateTracker :=
  mk_InputStateTracker ({[b]} ∪ it_active_buttons t) (it_active_keys t) (it_key_modifiers t) (it_active_modifiers t) now (it_hold_timeout t).
Definition record_button_up (b : MouseButton) (now : Z) (t : InputStateTracker) : InputStateTracker :=
  mk_InputStateTracker (it_active_buttons t ∖ {[b]}) (it_active_keys t) (it_key_modifiers t) (it_active_modifiers t) now (it_hold_timeout t).
Definition record_key_down (key_code mods now : Z) (t : InputStateTracker) : InputStateTracker :=
  mk_InputStateTracker (it_active_buttons t) ({[key_code]} ∪ it_active_keys t)
    (<[key_code := Z.lor (default 0 (it_key_modifiers t !! key_code)) mods]> (it_key_modifiers t))
    (Z.lor (it_active_modifiers t) mods) now (it_hold_timeout t).
Definition modifiers_of (m : gmap Z Z) : Z := foldr Z.lor 0 (snd <$> map_to_list m).
Definition record_key_up (key_code now : Z) (t : InputStateTracker) : InputStateTracker :=
  let m := delete key_code (it_key_modifiers t) in
  mk_InputStateTracker (it_active_buttons t) (it_active_keys t ∖ {[key_code]}) m (modifiers_of m) now (it_hold_timeout t).
Definition tracker_empty (t : InputStateTracker) : bool :=
  bool_decide (it_active_buttons t = ∅) && bool_decide (it_active_keys t = ∅) && (it_active_modifiers t =? 0).
Definition is_timed_out (now : Z) (t : InputStateTracker) : bool :=
  negb (tracker_empty t) && (it_hold_timeout t <? sat_sub now (it_last_action_at t)).
Definition mark_release_failed (now : Z) (t : InputStateTracker) : InputStateTracker :=
  mk_InputStateTracker (it_active_buttons t) (it_active_keys t) (it_key_modifiers t) (it_active_modifiers t)
    (now - (it_hold_timeout t + 1)) (it_hold_timeout t).

Definition plain_event (ty : InputEventType) (x y code mods : Z) : InputEvent := mk_InputEvent ty x y code mods f32_zero f32_zero.

(** ** Actions *)

Inductive AgentAction : Type :=
| AaMouseMove (x y : Z) (normalized : bool)
| AaMouseDown (button : MouseButton)
| AaMouseUp (button : MouseButton)
| AaClick (x y : Z) (button : MouseButton) (count : Z) (normalized : bool)
| AaDrag (start_x start_y end_x end_y : Z) (button : MouseButton) (steps duration_ms : Z) (normalized : bool)
| AaScroll (dx dy : Z) (x y : option Z) (normalized : bool)
| AaKeyDown (key : list Z)
| AaKeyUp (key : list Z)
| AaKeyPress (key : list Z) (hold_ms : Z)
| AaHotkey (keys : list (list Z))
| AaTypeText (text : list Z) (delay_ms : Z) (paste_mode : bool)
| AaReleaseAll.

Definition MAX_ACTION_EVENTS : Z := 4096.
Definition event_bound (a : AgentAction) : Z :=
  match a with
  | AaClick _ _ _ count _ => Z.max count 1 * 2 + 1
  | AaDrag _ _ _ _ _ steps _ _ => Z.max steps 1 + 3
  | AaTypeText text _ _ => zlen (take (Z.to_nat (MAX_ACTION_EVENTS / 2 + 1)) text) * 2
  | _ => 0
  end.

(** [char::encode_utf16] *)
Definition encode_utf16 (ch : Z) : list Z :=
  if ch <? 0x10000 then [ch] else [0xD800 + (ch - 0x10000) / 0x400; 0xDC00 + (ch - 0x10000) mod 0x400].
Definition type_char (x y ch : Z) : list InputEvent :=
  match synthesize_ascii_char ch with
  | Some (k, mods) =>
      match to_macos k with
      | Some code => [plain_event KeyDown x y code mods; plain_event KeyUp x y code mods]
      | None => []
      end
  | None => (λ u, unicode_char u x y) <$> encode_utf16 ch
  end.

(** The positions of a drag after its start: [sx + (ex - sx) * (i / steps)]. *)
Definition drag_point (s e i steps : Z) : Z := f32_add s (f32_mul (f32_sub e s) (f32_div (f32_of_u32 i) (f32_of_u32 steps))).
Definition drag_points (sx sy ex ey step_count : Z) : list (Z * Z) :=
  (λ i, (drag_point sx ex i step_count, drag_point sy ey i step_count)) <$> seqZ 1 step_count.
Definition drag_events (b : MouseButton) (m sx sy ex ey : Z) (points : list (Z * Z)) : list InputEvent :=
  [plain_event MouseMove sx sy 0 m; plain_event (to_down_event_type b) sx sy 0 m] ++
  ((λ p, plain_event (to_drag_event_type b) p.1 p.2 0 m) <$> points) ++ [plain_event (to_up_event_type b) ex ey 0 m].
Fixpoint join_plus (keys : list (list Z)) : list Z :=
  match keys with [] => [] | [k] => k | k :: rest => k ++ 43 :: join_plus rest end.

Section agent.
Context (drain_buttons : gset MouseButton → list MouseButton) (drain_keys : gset Z → list Z).

Definition release_all (x y now : Z) (t : InputStateTracker) : InputStateTracker * list InputEvent :=
  (mk_InputStateTracker ∅ ∅ ∅ 0 now (it_hold_timeout t),
   ((λ b, plain_event (to_up_event_type b) x y 0 (it_active_modifiers t)) <$> drain_buttons (it_active_buttons t)) ++
   ((λ k, plain_event KeyUp x y k (it_active_modifiers t)) <$> drain_keys (it_active_keys t)) ++
   [plain_event Reset x y 0 0]).

(** The state is the tracker and [current_pos]. *)
Definition AgentState : Type := InputStateTracker * (Z * Z).
Definition key_of (key : list Z) : Result (Z * Z) AgentInputError :=
  match parse_key_name key with
  | Err e => Err e
  | Ok (k, mods) => match require_macos_keycode k key with Err e => Err e | Ok code => Ok (code, mods) end
  end.
Definition convert_agent_action_to_events (a : AgentAction) (host_width host_height now : Z) (st : AgentState) :
    AgentState * Result (list InputEvent) AgentInputError :=
  let '(t, (px, py)) := st in
  if MAX_ACTION_EVENTS <? event_bound a then (st, Err (ActionTooLarge MAX_ACTION_EVENTS)) else
  match a with
  | AaMouseMove x y normalized =>
      match normalize_agent_coordinates x y normalized host_width host_height with
      | Err e => (st, Err e)
      | Ok (wx, wy) => ((t, (wx, wy)), Ok [plain_event MouseMove wx wy 0 (it_active_modifiers t)])
      end
  | AaMouseDown b =>
      let t := record_button_down b now t in ((t, (px, py)), Ok [plain_event (to_down_event_type b) px py 0 (it_active_modifiers t)])
  | AaMouseUp b =>
      let t := record_button_up b now t in ((t, (px, py)), Ok [plain_event (to_up_event_type b) px py 0 (it_active_modifiers t)])
  | AaClick x y b count normalized =>
      match normalize_agent_coordinates x y normalized host_width host_height with
      | Err e => (st, Err e)
      | Ok (wx, wy) =>
          let m := it_active_modifiers t in
          ((t, (wx, wy)), Ok (plain_event MouseMove wx wy 0 m ::
            concat (replicate (Z.to_nat count) [plain_event (to_down_event_type b) wx wy 0 m; plain_event (to_up_event_type b) wx wy 0 m])))
      end
  | AaDrag start_x start_y end_x end_y b steps _ normalized =>
      match normalize_agent_coordinates start_x start_y normalized host_width host_height with
      | Err e => (st, Err e)
      | Ok (sx, sy) =>
          match normalize_agent_coordinates end_x end_y normalized host_width host_height with
          | Err e => (st, Err e)
          | Ok (ex, ey) =>
              let m := it_active_modifiers t in
              let t := record_button_down b now t in
              let step_count := Z.max steps 1 in
              let points := drag_points sx sy ex ey step_count in
              let t := record_button_up b now t in
              ((t, default (sx, sy) (last points)), Ok (drag_events b m sx sy ex ey points))
          end
      end
  | AaScroll dx dy x y normalized =>
      let event px py := mk_InputEvent ScrollWheel px py 0 (it_active_modifiers t) dx dy in
      match x, y with
      | Some x, Some y =>
          match normalize_agent_coordinates x y normalized host_width host_height with
          | Err e => (st, Err e)
          | Ok (wx, wy) => ((t, (wx, wy)), Ok [event wx wy])
          end
      | _, _ => (st, Ok [event px py])
      end
  | AaKeyDown key =>
      match key_of key with
      | Err e => (st, Err e)
      | Ok (code, mods) =>
          let t := record_key_down code mods now t in ((t, (px, py)), Ok [plain_event KeyDown px py code (it_active_modifiers t)])
      end
  | AaKeyUp key =>
      match key_of key with
      | Err e => (st, Err e)
      | Ok (code, _) =>
          let t := record_key_up code now t in ((t, (px, py)), Ok [plain_event KeyUp px py code (it_active_modifiers t)])
      end
  | AaKeyPress key _ =>
      match key_of key with
      | Err e => (st, Err e)
      | Ok (code, mods) => (st, Ok [plain_event KeyDown px py code mods; plain_event KeyUp px py code mods])
      end
  | AaHotkey keys =>
      let combined := join_plus keys in
      match parse_hotkey_string combined with
      | Err e => (st, Err e)
      | Ok (k, mods) =>
          match require_macos_keycode k combined with
          | Err e => (st, Err e)
          | Ok code => (st, Ok [plain_event KeyDown px py code mods; plain_event KeyUp px py code mods])
          end
      end
  | AaTypeText text _ _ => (st, Ok (concat (type_char px py <$> text)))
  | AaReleaseAll => let '(t, events) := release_all px py now t in ((t, (px, py)), Ok events)
  end.

(** ** Dispatch *)

(** The remote side: what is held down there, and the outcome of the sends to come (all succeed
    after the last). *)
Record Remote := mk_Remote { rm_buttons : gset MouseButton; rm_keys : gset Z; rm_sends : list bool }.
Definition button_down (ty : InputEventType) : option MouseButton :=
  match ty with LeftMouseDown => Some Left | RightMouseDown => Some Right | MiddleMouseDown => Some Middle | _ => None end.
Definition button_up (ty : InputEventType) : option MouseButton :=
  match ty with LeftMouseUp => Some Left | RightMouseUp => Some Right | MiddleMouseUp => Some Middle | _ => None end.
(** What an event does to the held buttons and keys, whether of the remote side or of the books of a request. *)
Definition held_buttons_after (e : InputEvent) (held : gset MouseButton) : gset MouseButton :=
  match event_type e with
  | Reset => ∅
  | ty => match button_down ty, button_up ty with Some b, _ => {[b]} ∪ held | _, Some b => held ∖ {[b]} | _, _ => held end
  end.
Definition held_keys_after (e : InputEvent) (held : gmap Z Z) : gmap Z Z :=
  match event_type e with
  | Reset => ∅
  | KeyDown => <[key_code e := modifiers e]> held
  | KeyUp => delete (key_code e) held
  | _ => held
  end.
Definition keys_after (e : InputEvent) (held : gset Z) : gset Z :=
  match event_type e with
  | Reset => ∅
  | KeyDown => {[key_code e]} ∪ held
  | KeyUp => held ∖ {[key_code e]}
  | _ => held
  end.
Definition send_input_event (e : InputEvent) (r : Remote) : Remote * bool :=
  match rm_sends r with
  | false :: rest => (mk_Remote (rm_buttons r) (rm_keys r) rest, false)
  | sends => (mk_Remote (held_buttons_after e (rm_buttons r)) (keys_after e (rm_keys r)) (tail sends), true)
  end.

(** The sends of [release_inputs]: the remote side, how many succeeded, and whether the reset did. *)
Fixpoint send_releases (events : list InputEvent) (r : Remote) : Remote * Z * bool * bool :=
  match events with
  | [] => (r, 0, false, false)
  | e :: events =>
      let '(r, ok) := send_input_event e r in
      let '(r, sent, failed, reset) := send_releases events r in
      (r, if ok then sent + 1 else sent, negb ok || failed, (ok && bool_decide (event_type e = Reset)) || reset)
  end.
Definition rerecord (now : Z) (t : InputStateTracker) (e : InputEvent) : InputStateTracker :=
  match button_up (event_type e) with
  | Some b => record_button_down b now t
  | None => match event_type e with KeyUp => record_key_down (key_code e) (modifiers e) now t | _ => t end
  end.
Definition release_inputs (pos : Z * Z) (now : Z) (t : InputStateTracker) (r : Remote) : InputStateTracker * Remote * bool :=
  let '(t, events) := release_all pos.1 pos.2 now t in
  let '(r, sent, failed, reset) := send_releases events r in
  (if reset then t else foldl (rerecord now) t events, r, failed).

(** A request: the downs already accepted, so that a failure can be rolled back. *)
Record Books := mk_Books { bo_buttons : gset MouseButton; bo_keys : gmap Z Z }.
Definition roll_back (pos : Z * Z) (now : Z) (b : Books) (t : InputStateTracker) (r : Remote) : InputStateTracker * Remote * bool :=
  let t := foldr (λ x t, record_button_down x now t) t (elements (bo_buttons b)) in
  let t := foldr (λ km t, record_key_down km.1 km.2 now t) t (map_to_list (bo_keys b)) in
  release_inputs pos now t r.
Fixpoint send_events (events : list InputEvent) (b : Books) (r : Remote) : Books * Remote * bool :=
  match events with
  | [] => (b, r, true)
  | e :: events =>
      match send_input_event e r with
      | (r, false) => (b, r, false)
      | (r, true) => send_events events (mk_Books (held_buttons_after e (bo_buttons b)) (held_keys_after e (bo_keys b))) r
      end
  end.
(** The answer to an agent; an internal error says whether the cleanup failed too. *)
Inductive RequestResult : Type := RqOk | RqBadRequest (e : AgentInputError) | RqInternal (cleanup_failed : bool).
Fixpoint dispatch (actions : list AgentAction) (host_width host_height now : Z) (b : Books) (st : AgentState) (r : Remote) :
    AgentState * Remote * RequestResult :=
  match actions with
  | [] => (st, r, RqOk)
  | a :: actions =>
      match convert_agent_action_to_events a host_width host_height now st with
      | (st, Err e) => (st, r, RqBadRequest e)
      | (st, Ok events) =>
          match send_events events b r with
          | (b, r, true) => dispatch actions host_width host_height now b st r
          | (b, r, false) => let '(t, r, failed) := roll_back st.2 now b st.1 r in ((t, st.2), r, RqInternal failed)
          end
      end
  end.

(** What the server does with the shared tracker.  The watchdog reads the position before it takes the tracker. *)
Inductive ServerOp : Type :=
| SrvInput (actions : list AgentAction) (host_width host_height now : Z)
| SrvReset (now : Z)
| SrvWatchdog (pos : Z * Z) (now : Z).
(** The result says whether a request reported a failed cleanup. *)
Definition server_op (op : ServerOp) (st : AgentState) (r : Remote) : AgentState * Remote * bool :=
  match op with
  | SrvInput actions w h now =>
      let '(st, r, answer) := dispatch actions w h now (mk_Books ∅ ∅) st r in (st, r, match answer with RqInternal failed => failed | _ => false end)
  | SrvReset now => let '(t, r, _) := release_inputs st.2 now st.1 r in ((t, st.2), r, false)
  | SrvWatchdog pos now =>
      if is_timed_out now st.1 then
        let '(t, r, failed) := release_inputs pos now st.1 r in
        ((if failed then mark_release_failed now t else t, st.2), r, false)
      else (st, r, false)
  end.
Fixpoint server_run (ops : list ServerOp) (st : AgentState) (r : Remote) : AgentState * Remote * bool :=
  match ops with
  | [] => (st, r, false)
  | op :: ops =>
      let '(st, r, failed) := server_op op st r in
      let '(st, r, more) := server_run ops st r in (st, r, failed || more)
  end.
End agent.

(** ** What events do to the remote side *)

Definition buttons_replay (es : list InputEvent) (B : gset MouseButton) : gset MouseButton := foldl (λ B e, held_buttons_after e B) B es.
Definition keys_replay (es : list InputEvent) (K : gset Z) : gset Z := foldl (λ K e, keys_after e K) K es.
(** Events that leave nothing more held than before. *)
Definition lets_go (es : list InputEvent) : Prop := (∀ B, buttons_replay es B ⊆ B) ∧ (∀ K, keys_replay es K ⊆ K).

Lemma lets_go_nil : lets_go [].
Proof. done. Qed.
Lemma lets_go_app a b : lets_go a → lets_go b → lets_go (a ++ b).
Proof.
  intros [A1 A2] [B1 B2]. unfold lets_go, buttons_replay, keys_replay. split; intros X; rewrite foldl_app; [etransitivity; [apply B1|apply A1]|etransitivity; [apply B2|apply A2]].
Qed.
Lemma lets_go_concat l : Forall lets_go l → lets_go (concat l).
Proof. induction 1 as [|a l Ha _ IH]; [apply lets_go_nil|]. by apply lets_go_app. Qed.
Lemma buttons_mono e B B' : B ⊆ B' → held_buttons_after e B ⊆ held_buttons_after e B'.
Proof. unfold held_buttons_after. destruct (event_type e); cbn; set_solver. Qed.
Lemma keys_mono e K K' : K ⊆ K' → keys_after e K ⊆ keys_after e K'.
Proof. unfold keys_after. destruct (event_type e); cbn; set_solver. Qed.
(** An event that presses nothing. *)
Definition presses (ty : InputEventType) : bool := match ty with LeftMouseDown | RightMouseDown | MiddleMouseDown | KeyDown => true | _ => false end.
Lemma quiet_event e : presses (event_type e) = false → (∀ B, held_buttons_after e B ⊆ B) ∧ (∀ K, keys_after e K ⊆ K).
Proof. intros H. unfold held_buttons_after, keys_after. destruct (event_type e); try done; cbn; split; set_solver. Qed.
Lemma lets_go_quiet es : Forall (λ e, presses (event_type e) = false) es → lets_go es.
Proof.
  induction 1 as [|e es He _ IH]; [apply lets_go_nil|]. apply (lets_go_app [e]); [|done]. by apply quiet_event in He.
Qed.
Lemma lets_go_click b x y x' y' m m' : lets_go [plain_event (to_down_event_type b) x y 0 m; plain_event (to_up_event_type b) x' y' 0 m'].
Proof. split; intros X; destruct b; cbn; set_solver. Qed.
Lemma lets_go_key x y k m m' : lets_go [plain_event KeyDown x y k m; plain_event KeyUp x y k m'].
Proof. split; intros X; cbn; set_solver. Qed.
Lemma type_char_lets_go x y c : lets_go (type_char x y c).
Proof.
  unfold type_char. destruct (synthesize_ascii_char c) as [[k m]|]; [destruct (to_macos k); [apply lets_go_key|apply lets_go_nil]|].
  apply lets_go_quiet, Forall_fmap, Forall_forall. done.
Qed.

(** ** Actions *)

Definition covers (t : InputStateTracker) (B : gset MouseButton) (K : gset Z) : Prop := B ⊆ it_active_buttons t ∧ K ⊆ it_active_keys t.

Lemma covers_empty t : covers t ∅ ∅.
Proof. split; set_solver. Qed.
Lemma covers_tracker_empty t B K : covers t B K → tracker_empty t = true → B = ∅ ∧ K = ∅.
Proof.
  intros [Hb Hk]. unfold tracker_empty. intros [[H1%bool_decide_eq_true H2%bool_decide_eq_true]%andb_true_iff _]%andb_true_iff. rewrite H1 in Hb. rewrite H2 in Hk. split; set_solver.
Qed.

Section spec.
Context (drain_buttons : gset MouseButton → list MouseButton) (drain_keys : gset Z → list Z).
Hypothesis drain_buttons_all : ∀ s b, b ∈ s → b ∈ drain_buttons s.
Hypothesis drain_keys_all : ∀ s k, k ∈ s → k ∈ drain_keys s.

Lemma lets_go_covers t t' es B K : lets_go es → it_active_buttons t ⊆ it_active_buttons t' → it_active_keys t ⊆ it_active_keys t' →
  covers t B K → covers t' (buttons_replay es B) (keys_replay es K).
Proof. intros [H1 H2] Hb Hk [C1 C2]. split; [etransitivity; [apply H1|]; set_solver|etransitivity; [apply H2|]; set_solver]. Qed.

Lemma drag_covers b m sx sy ex ey pts now t (p : Z * Z) B K : covers t B K →
  covers (record_button_up b now (record_button_down b now t), p).1 (buttons_replay (drag_events b m sx sy ex ey pts) B) (keys_replay (drag_events b m sx sy ex ey pts) K).
Proof.
  intros [H1 H2]. assert (lets_go ((λ q : Z * Z, plain_event (to_drag_event_type b) q.1 q.2 0 m) <$> pts)) as [G1 G2]
    by (apply lets_go_quiet, Forall_fmap, Forall_forall; by destruct b).
  unfold covers, drag_events, buttons_replay, keys_replay in *. rewrite !foldl_app. cbn [foldl fst record_button_up record_button_down it_active_buttons it_active_keys]. split.
  - etransitivity; [apply buttons_mono, G1|]. destruct b; cbn; set_solver.
  - etransitivity; [apply keys_mono, G2|]. destruct b; cbn; set_solver.
Qed.

(** After the events of an action the tracker covers what the remote side holds. *)
Lemma convert_covers a w h now t p st es B K : covers t B K → convert_agent_action_to_events drain_buttons drain_keys a w h now (t, p) = (st, Ok es) →
  covers st.1 (buttons_replay es B) (keys_replay es K).
Proof.
  intros Hc. destruct p as [px py]. unfold convert_agent_action_to_events. destruct (_ <? _); [done|]. destruct a as [x y n|b|b|x y b c n|sx sy ex ey b steps d n|dx dy x y n|k|k|k hm|ks|tx d pm|].
  - destruct (normalize_agent_coordinates _ _ _ _ _) as [[wx wy]|]; [|done]. intros [= <- <-]. by apply (lets_go_covers t); [by apply lets_go_quiet, Forall_singleton|..].
  - intros [= <- <-]. destruct Hc as [H1 H2]. unfold covers. destruct b; cbn; split; set_solver.
  - intros [= <- <-]. destruct Hc as [H1 H2]. unfold covers. destruct b; cbn; split; set_solver.
  - destruct (normalize_agent_coordinates _ _ _ _ _) as [[wx wy]|]; [|done]. intros [= <- <-]. apply (lets_go_covers t); [|done|done|done].
    apply (lets_go_app [_]); [by apply lets_go_quiet, Forall_singleton|]. apply lets_go_concat, Forall_replicate, lets_go_click.
  - destruct (normalize_agent_coordinates sx sy _ _ _) as [[wx wy]|]; [|done]. destruct (normalize_agent_coordinates ex ey _ _ _) as [[vx vy]|]; [|done].
    cbv zeta. intros [<- [= <-]]%pair_equal_spec. by apply drag_covers.
  - assert (∀ q e, presses (event_type e) = false → covers (t, q : Z * Z).1 (buttons_replay [e] B) (keys_replay [e] K)) as Hq
      by (intros; by apply (lets_go_covers t); [by apply lets_go_quiet, Forall_singleton|..]).
    destruct x as [x|]; [destruct y as [y|]|]; [|intros [= <- <-]; by apply Hq|intros [= <- <-]; by apply Hq].
    destruct (normalize_agent_coordinates _ _ _ _ _) as [[wx wy]|]; [|done]. intros [= <- <-]. by apply Hq.
  - destruct (key_of k) as [[c m]|]; [|done]. intros [= <- <-]. destruct Hc as [H1 H2]. unfold covers. cbn. split; set_solver.
  - destruct (key_of k) as [[c m]|]; [|done]. intros [= <- <-]. destruct Hc as [H1 H2]. unfold covers. cbn. split; set_solver.
  - destruct (key_of k) as [[c m]|]; [|done]. intros [= <- <-]. by apply (lets_go_covers t); [apply lets_go_key|..].
  - cbv zeta. destruct (parse_hotkey_string _) as [[k m]|]; [|done]. destruct (require_macos_keycode _ _); [|done]. intros [= <- <-]. by apply (lets_go_covers t); [apply lets_go_key|..].
  - intros [= <- <-]. apply (lets_go_covers t); [|done|done|done]. apply lets_go_concat, Forall_fmap, Forall_forall. intros ch _. apply type_char_lets_go.
  - unfold release_all. intros [= <- <-]. unfold covers, buttons_replay, keys_replay. rewrite !foldl_app. cbn. split; set_solver.
Qed.

(** ** Releases *)

Lemma release_quiet x y now t : Forall (λ e, presses (event_type e) = false) (release_all drain_buttons drain_keys x y now t).2.
Proof.
  cbn. apply Forall_app; split; [apply Forall_fmap, Forall_forall; by intros []|]. apply Forall_app; split; [by apply Forall_fmap, Forall_forall|by apply Forall_singleton].
Qed.
Lemma send_event_cases e r r' ok : send_input_event e r = (r', ok) →
  (ok = true ∧ rm_buttons r' = held_buttons_after e (rm_buttons r) ∧ rm_keys r' = keys_after e (rm_keys r) ∧ rm_sends r' = tail (rm_sends r)) ∨
  (ok = false ∧ rm_buttons r' = rm_buttons r ∧ rm_keys r' = rm_keys r ∧ rm_sends r ≠ []).
Proof. unfold send_input_event. destruct (rm_sends r) as [|[] ?] eqn:E; intros [= <- <-]; cbn; auto. Qed.
Lemma send_releases_spec es r r' sent failed reset : Forall (λ e, presses (event_type e) = false) es →
  send_releases es r = (r', sent, failed, reset) →
  rm_buttons r' ⊆ rm_buttons r ∧ rm_keys r' ⊆ rm_keys r ∧ (reset = true → rm_buttons r' = ∅ ∧ rm_keys r' = ∅) ∧
  (failed = false → Exists (λ e, event_type e = Reset) es → reset = true) ∧ (rm_sends r = [] → failed = false).
Proof.
  intros Hq. revert r r' sent failed reset. induction Hq as [|e es He Hq IH]; intros r r' sent failed reset; cbn [send_releases].
  - intros [= <- <- <- <-]. repeat split; try done. by intros _ ?%Exists_nil.
  - destruct (send_input_event e r) as [r1 ok] eqn:E1. destruct (send_releases es r1) as [[[r2 n2] f2] s2] eqn:E2. intros [= <- <- <- <-].
    destruct (IH _ _ _ _ _ E2) as (B2 & K2 & R2 & F2 & S2). destruct (quiet_event _ He) as [Qb Qk].
    destruct (send_event_cases _ _ _ _ E1) as [(-> & Eb & Ek & Es)|(-> & Eb & Ek & Es)]; rewrite Eb, Ek in *; cbn [negb andb orb].
    + split_and!; [etransitivity; [exact B2|apply Qb]|etransitivity; [exact K2|apply Qk]|..].
      * intros [H%bool_decide_eq_true|H]%orb_true_iff; [|by apply R2]. unfold held_buttons_after, keys_after in *. rewrite H in *. split; set_solver.
      * intros Hf [H|H]%Exists_cons; [by rewrite bool_decide_true|]. rewrite (F2 Hf H). by destruct (bool_decide _).
      * intros H. apply S2. by rewrite Es, H.
    + split_and!; [done|done|exact R2|done|done].
Qed.
Lemma rerecord_keeps now t e : it_active_buttons t ⊆ it_active_buttons (rerecord now t e) ∧ it_active_keys t ⊆ it_active_keys (rerecord now t e).
Proof. unfold rerecord. destruct (button_up _); [|destruct (event_type e)]; cbn; split; set_solver. Qed.
Lemma rerecord_all now es t : let t' := foldl (rerecord now) t es in
  it_active_buttons t ⊆ it_active_buttons t' ∧ it_active_keys t ⊆ it_active_keys t' ∧ it_hold_timeout t' = it_hold_timeout t ∧
  (∀ e b, e ∈ es → button_up (event_type e) = Some b → b ∈ it_active_buttons t') ∧ (∀ e, e ∈ es → event_type e = KeyUp → key_code e ∈ it_active_keys t').
Proof.
  revert t. induction es as [|e es IH]; intros t; [split_and!; try done; by intros * []%not_elem_of_nil|]. cbn -[rerecord].
  destruct (IH (rerecord now t e)) as (H1 & H2 & H0 & H3 & H4). destruct (rerecord_keeps now t e) as [G1 G2]. split_and!.
  - by etransitivity.
  - by etransitivity.
  - rewrite H0. unfold rerecord. destruct (button_up _); [|destruct (event_type e)]; done.
  - intros e' b [->|He]%elem_of_cons Hb; [|by eapply H3]. apply H1. unfold rerecord. rewrite Hb. cbn. set_solver.
  - intros e' [->|He]%elem_of_cons Hk; [|by eapply H4]. apply H2. unfold rerecord. rewrite Hk. cbn. set_solver.
Qed.

(** A release keeps the remote side covered, whichever of its sends fail; one that reports no failure
    leaves nothing held, and with sends that succeed it reports none. *)
Lemma release_inputs_spec pos now t r t' r' failed : covers t (rm_buttons r) (rm_keys r) →
  release_inputs drain_buttons drain_keys pos now t r = (t', r', failed) →
  covers t' (rm_buttons r') (rm_keys r').
Proof.
  intros [Cb Ck]. unfold release_inputs. pose proof (release_quiet pos.1 pos.2 now t) as Hq. destruct (release_all _ _ _ _ _ _) as [t1 es] eqn:Er. cbn [snd] in Hq.
  destruct (send_releases es r) as [[[r1 sent] f] reset] eqn:Es. intros [= <- <- <-]. destruct (send_releases_spec _ _ _ _ _ _ Hq Es) as (Hb & Hk & Hr & _ & _).
  destruct reset; [destruct (Hr eq_refl) as [-> ->]; apply covers_empty|]. destruct (rerecord_all now es t1) as (_ & _ & _ & R3 & R4).
  unfold release_all in Er. injection Er as <- <-. split.
  - intros b Hin. apply (R3 (plain_event (to_up_event_type b) pos.1 pos.2 0 (it_active_modifiers t))); [|by destruct b].
    apply elem_of_app. left. apply list_elem_of_fmap. exists b. split; [done|]. by apply drain_buttons_all, Cb, Hb.
  - intros k Hin. apply (R4 (plain_event KeyUp pos.1 pos.2 k (it_active_modifiers t))); [|done].
    apply elem_of_app. right. apply elem_of_app. left. apply list_elem_of_fmap. exists k. split; [done|]. by apply drain_keys_all, Ck, Hk.
Qed.
Lemma release_inputs_clean pos now t r t' r' failed : release_inputs drain_buttons drain_keys pos now t r = (t', r', failed) →
  (failed = false → rm_buttons r' = ∅ ∧ rm_keys r' = ∅ ∧ tracker_empty t' = true) ∧ (rm_sends r = [] → failed = false) ∧ it_hold_timeout t' = it_hold_timeout t.
Proof.
  unfold release_inputs. pose proof (release_quiet pos.1 pos.2 now t) as Hq. destruct (release_all _ _ _ _ _ _) as [t1 es] eqn:Er. cbn [snd] in Hq.
  destruct (send_releases es r) as [[[r1 sent] f] reset] eqn:Es. intros [= <- <- <-]. destruct (send_releases_spec _ _ _ _ _ _ Hq Es) as (_ & _ & Hr & Hf & Hs).
  unfold release_all in Er. injection Er as <- <-. split_and!; [|exact Hs|].
  - intros ->. assert (reset = true) as -> by (apply Hf; [done|]; rewrite !Exists_app; right; right; by apply Exists_cons_hd).
    by destruct (Hr eq_refl).
  - destruct reset; [done|]. match goal with |- context [foldl _ ?t0 ?es] => by destruct (rerecord_all now es t0) as (_ & _ & H & _) end.
Qed.

(** ** Requests *)

Lemma send_events_sent es b r b' r' : send_events es b r = (b', r', true) → rm_buttons r' = buttons_replay es (rm_buttons r) ∧ rm_keys r' = keys_replay es (rm_keys r).
Proof.
  revert b r. induction es as [|e es IH]; intros b r; cbn [send_events]; [by intros [= <- <-]|].
  destruct (send_input_event e r) as [r1 ok] eqn:E1. destruct (send_event_cases _ _ _ _ E1) as [(-> & Eb & Ek & _)|(-> & _)]; [|done].
  intros [-> ->]%IH. unfold buttons_replay, keys_replay. cbn [foldl]. by rewrite Eb, Ek.
Qed.
Lemma convert_error a w h now st st' e : convert_agent_action_to_events drain_buttons drain_keys a w h now st = (st', Err e) → st' = st.
Proof.
  destruct st as [t [px py]]. unfold convert_agent_action_to_events. destruct (_ <? _); [by intros [<- _]%pair_equal_spec|].
  destruct a as [x y n|b|b|x y b c n|sx sy ex ey b steps d n|dx dy x y n|k|k|k hm|ks|tx d pm|]; cbv zeta.
  1,4,5,6: repeat (case_match; try (intros [? ?]%pair_equal_spec; done)); by intros [? ?]%pair_equal_spec.
  all: repeat (case_match; try (intros [? ?]%pair_equal_spec; done)); by intros [? ?]%pair_equal_spec.
Qed.
Lemma dispatch_covers actions w h now b st r st' r' answer : covers st.1 (rm_buttons r) (rm_keys r) →
  dispatch drain_buttons drain_keys actions w h now b st r = (st', r', answer) → answer ≠ RqInternal true → covers st'.1 (rm_buttons r') (rm_keys r').
Proof.
  revert b st r. induction actions as [|a actions IH]; intros b [t p] r Hc; cbn [dispatch]; [by intros [= <- <- <-]|].
  destruct (convert_agent_action_to_events _ _ _ _ _ _ _) as [st1 [es|e]] eqn:E1; [|apply convert_error in E1 as ->; by intros [= <- <- <-]].
  destruct (send_events es b r) as [[b1 r1] ok] eqn:E2. destruct ok.
  - apply IH. destruct (send_events_sent _ _ _ _ _ E2) as [-> ->]. by eapply convert_covers.
  - destruct (roll_back _ _ _ _ _ _ _) as [[t2 r2] failed] eqn:E3. intros [= <- <- <-] Hn. destruct failed; [done|].
    destruct (release_inputs_clean _ _ _ _ _ _ _ E3) as (H & _). destruct (H eq_refl) as (-> & -> & _). apply covers_empty.
Qed.
Lemma server_op_covers op st r st' r' : covers st.1 (rm_buttons r) (rm_keys r) →
  server_op drain_buttons drain_keys op st r = (st', r', false) → covers st'.1 (rm_buttons r') (rm_keys r').
Proof.
  intros Hc. destruct op as [actions w h now|now|pos now]; cbn [server_op].
  - destruct (dispatch _ _ _ _ _ _ _ _ _) as [[st1 r1] answer] eqn:E. intros [= <- <- Ha]. apply (dispatch_covers _ _ _ _ _ _ _ _ _ _ Hc E). by intros ->.
  - destruct (release_inputs _ _ _ _ _ _) as [[t1 r1] f] eqn:E. intros [= <- <-]. by apply (release_inputs_spec _ _ _ _ _ _ _ Hc E).
  - destruct (is_timed_out now st.1); [|by intros [= <- <-]]. destruct (release_inputs _ _ _ _ _ _) as [[t1 r1] f] eqn:E. intros [= <- <-].
    pose proof (release_inputs_spec _ _ _ _ _ _ _ Hc E) as H. by destruct f.
Qed.
Lemma server_run_covers ops st r st' r' : covers st.1 (rm_buttons r) (rm_keys r) →
  server_run drain_buttons drain_keys ops st r = (st', r', false) → covers st'.1 (rm_buttons r') (rm_keys r').
Proof.
  revert st r. induction ops as [|op ops IH]; intros st r Hc; cbn [server_run]; [by intros [= <- <-]|].
  destruct (server_op _ _ op st r) as [[st1 r1] f] eqn:E1. destruct (server_run _ _ ops st1 r1) as [[st2 r2] more] eqn:E2. intros [= <- <- [-> ->]%orb_false_iff].
  apply (IH st1 r1); [by eapply server_op_covers|done].
Qed.
Lemma watchdog_releases st r pos now st' r' f : covers st.1 (rm_buttons r) (rm_keys r) → it_last_action_at st.1 + it_hold_timeout st.1 < now →
  server_op drain_buttons drain_keys (SrvWatchdog pos now) st r = (st', r', f) →
  (rm_sends r = [] → rm_buttons r' = ∅ ∧ rm_keys r' = ∅) ∧
  (rm_buttons r' = ∅ ∧ rm_keys r' = ∅ ∨ ∀ now', now ≤ now' → is_timed_out now' st'.1 = true).
Proof.
  intros Hc Hlate. cbn [server_op]. destruct (is_timed_out now st.1) eqn:Et.
  - destruct (release_inputs _ _ _ _ _ _) as [[t1 r1] failed] eqn:E. intros [= <- <- <-]. destruct (release_inputs_clean _ _ _ _ _ _ _ E) as (Hf & Hs & _).
    split; [intros H; by destruct (Hf (Hs H)) as (? & ? & _)|]. destruct failed; [|left; by destruct (Hf eq_refl) as (? & ? & _)].
    pose proof (release_inputs_spec _ _ _ _ _ _ _ Hc E) as Hc'. destruct (tracker_empty t1) eqn:Ee; [left; by apply (covers_tracker_empty t1)|right].
    intros now' Hn. unfold is_timed_out, mark_release_failed, sat_sub. cbn. change (negb (tracker_empty t1) && (it_hold_timeout t1 <? Z.max 0 (now' - (now - (it_hold_timeout t1 + 1)))) = true).
    rewrite Ee. apply Z.ltb_lt. lia.
  - intros [= <- <- <-]. assert (tracker_empty st.1 = true) as Ee.
    { unfold is_timed_out, sat_sub in Et. destruct (tracker_empty st.1); [done|]. cbn in Et. apply Z.ltb_ge in Et. lia. }
    destruct (covers_tracker_empty _ _ _ Hc Ee) as [-> ->]. auto.
Qed.

(** C24: While no request answers that its cleanup failed too, the tracker of the agent server covers
    every button and key held on the remote side, whichever sends fail on the way; and a watchdog
    tick that comes later than the hold timeout lets all of it go when its sends succeed, and
    otherwise every later tick tries again until nothing is held. *)
Theorem agent_nothing_stuck hold t0 pos0 sends ops st r
    (Hrun : server_run drain_buttons drain_keys ops (tracker_new hold t0, pos0) (mk_Remote ∅ ∅ sends) = (st, r, false)) :
  covers st.1 (rm_buttons r) (rm_keys r) ∧
  ∀ pos now, it_last_action_at st.1 + it_hold_timeout st.1 < now →
    let '(st', r', _) := server_op drain_buttons drain_keys (SrvWatchdog pos now) st r in
    covers st'.1 (rm_buttons r') (rm_keys r') ∧
    (rm_sends r = [] → rm_buttons r' = ∅ ∧ rm_keys r' = ∅) ∧
    (rm_buttons r' = ∅ ∧ rm_keys r' = ∅ ∨ ∀ now', now ≤ now' → is_timed_out now' st'.1 = true).
Proof.
  assert (covers st.1 (rm_buttons r) (rm_keys r)) as Hc by (eapply server_run_covers; [|exact Hrun]; apply covers_empty). split; [done|]. intros pos now Hlate.
  destruct (server_op _ _ (SrvWatchdog pos now) st r) as [[st' r'] f] eqn:E. split; [|by eapply watchdog_releases].
  apply (server_op_covers (SrvWatchdog pos now) st r); [done|]. rewrite E. repeat f_equal.
  revert E. cbn [server_op]. destruct (is_timed_out _ _); [destruct (release_inputs _ _ _ _ _ _) as [[??]?]|]; by intros [= _ _ <-].
Qed.
End spec.

(** ** Bounds *)

Lemma type_char_bound x y c : (length (type_char x y c) ≤ 2)%nat.
Proof.
  unfold type_char, encode_utf16. destruct (synthesize_ascii_char c) as [[k m]|]; [destruct (to_macos k); cbn; lia|]. destruct (c <? 0x10000); cbn; lia.
Qed.
Lemma type_text_bound x y text : (length (concat (type_char x y <$> text)) ≤ 2 * length text)%nat.
Proof. induction text as [|c text IH]; [done|]. cbn. rewrite length_app. pose proof (type_char_bound x y c). lia. Qed.
Lemma click_length (e e' : InputEvent) n : length (concat (replicate n [e; e'])) = (2 * n)%nat.
Proof. induction n as [|n IH]; [done|]. cbn [replicate concat]. rewrite length_app, IH. cbn. lia. Qed.
Lemma drag_length b m sx sy ex ey steps : zlen (drag_events b m sx sy ex ey (drag_points sx sy ex ey (Z.max steps 1))) = Z.max steps 1 + 3.
Proof. unfold zlen, drag_events, drag_points. rewrite !length_app, !length_fmap, length_seqZ. cbn. lia. Qed.

(** C40: An action of an agent becomes at most 4,096 input events, whatever counts, steps and text it
    asks for, unless it releases what is held; one that is refused leaves the tracker and the
    pointer as they were. *)
Theorem agent_action_bounded drain_buttons drain_keys a w h now st :
  match convert_agent_action_to_events drain_buttons drain_keys a w h now st with
  | (st', Ok es) => a = AaReleaseAll ∨ zlen es ≤ MAX_ACTION_EVENTS
  | (st', Err _) => st' = st
  end.
Proof.
  destruct (convert_agent_action_to_events _ _ _ _ _ _ _) as [st' [es|e]] eqn:E; [|by eapply convert_error]. revert E. destruct st as [t [px py]].
  unfold convert_agent_action_to_events. destruct (Z.ltb_spec MAX_ACTION_EVENTS (event_bound a)) as [|Hb]; [by intros [_ ?]%pair_equal_spec|].
  assert (∀ e e' : InputEvent, zlen [e; e'] ≤ MAX_ACTION_EVENTS ∧ zlen [e] ≤ MAX_ACTION_EVENTS) as Hs by (intros; split; unfold zlen, MAX_ACTION_EVENTS; cbn; lia).
  destruct a as [x y n|b|b|x y b c n|sx sy ex ey b steps d n|dx dy x y n|k|k|k hm|ks|tx d pm|]; cbv zeta; cbn [event_bound] in Hb; try by left. all: right; revert E.
  4: destruct (normalize_agent_coordinates _ _ _ _ _) as [[??]|]; intros [_ [= <-]]%pair_equal_spec; unfold zlen; cbn [length]; rewrite click_length; lia.
  4: destruct (normalize_agent_coordinates sx _ _ _ _) as [[??]|]; [|by intros [_ ?]%pair_equal_spec];
     destruct (normalize_agent_coordinates ex _ _ _ _) as [[??]|]; intros [_ [= <-]]%pair_equal_spec; by rewrite drag_length.
  9: intros [_ [= <-]]%pair_equal_spec; pose proof (type_text_bound px py tx); revert Hb; unfold zlen, MAX_ACTION_EVENTS; rewrite length_take; change (Z.to_nat (4096 / 2 + 1)) with (Z.to_nat 2049); lia.
  all: repeat (case_match; try (intros [_ ?]%pair_equal_spec; done)); intros [_ [= <-]]%pair_equal_spec; apply Hs.
  Unshelve. all: exact (plain_event Reset 0 0 0 0).
Qed.

(** ** Departures *)

(** An agent that types a minus, an underscore, an equals sign or a plus sends nothing and is told
    that all is well: their virtual keys have no key code, while a key named by its character is
    refused; and the insert key is sent as the key code of the minus. *)
Theorem agent_loses_minus drain_buttons drain_keys w h now st :
  Forall (λ c, (convert_agent_action_to_events drain_buttons drain_keys (AaTypeText [c] 0 false) w h now st).2 = Ok [] ∧
               (convert_agent_action_to_events drain_buttons drain_keys (AaKeyPress [c] 0) w h now st).2 =
                 Err (if bool_decide (c = 45 ∨ c = 61) then UnmappableKey [c] else UnknownKey [c])) (chars "-_=+") ∧
  key_of (chars "insert") = Ok (0x1b, 0).
Proof. destruct st as [t [px py]]. by repeat constructor. Qed.

(** A key pressed by an earlier request, whose release fails together with the reset of the cleanup,
    stays down: the tracker no longer has it, so that no tick of the watchdog lets it go. *)
Theorem agent_stuck_key : ∃ ops st r,
  server_run elements elements ops (tracker_new 5000 0, (0, 0)) (mk_Remote ∅ ∅ [true; false; false]) = (st, r, true) ∧
  rm_keys r = {[0]} ∧ rm_sends r = [] ∧
  ∀ pos now, server_op elements elements (SrvWatchdog pos now) st r = (st, r, false).
Proof.
  exists [SrvInput [AaKeyDown (chars "a")] f32_one f32_one 10; SrvInput [AaKeyUp (chars "a")] f32_one f32_one 20]. eexists _, _.
  split; [vm_compute; reflexivity|]. split; [done|]. split; [done|]. done.
Qed.

(** ** Witness *)

(** A request holds the right button and a key; the reset that should let them go fails with all its sends. *)
Definition agent_ops : list ServerOp :=
  [SrvInput [AaMouseMove 0x3f000000 0x3f000000 true; AaMouseDown Right; AaKeyDown (chars "ctrl"); AaTypeText (chars "Hi") 0 false] f32_one f32_one 10; SrvReset 20].
Definition agent_end : AgentState * Remote * bool :=
  server_run elements elements agent_ops (tracker_new 5000 0, (0, 0)) (mk_Remote ∅ ∅ (replicate 7 true ++ [false; false; false])).

Lemma agent_nothing_stuck_witness : let r := agent_end.1.2 in let r' := (server_op elements elements (SrvWatchdog (0, 0) 9000) agent_end.1.1 r).1.2 in
  rm_buttons r = {[Right]} ∧ rm_keys r = {[0x3b]} ∧ rm_sends r = [] ∧ rm_buttons r' = ∅ ∧ rm_keys r' = ∅.
Proof.
  cbv zeta. assert (agent_end = (agent_end.1.1, agent_end.1.2, false)) as E by (vm_compute; reflexivity).
  destruct (agent_nothing_stuck elements elements (λ s b, proj2 (elem_of_elements s b)) (λ s k, proj2 (elem_of_elements s k)) 5000 0 (0, 0) _ agent_ops _ _ E) as [_ H].
  specialize (H (0, 0) 9000 ltac:(vm_compute; reflexivity)). destruct (server_op _ _ _ _ _) as [[st' r'] f]. destruct H as (_ & H & _).
  split; [vm_compute; reflexivity|]. split; [vm_compute; reflexivity|]. split; [vm_compute; reflexivity|]. apply H. vm_compute; reflexivity.
Defined.
