(* ===== verification/RdCode.v ===== *)
(** * RdCode: the code a user pastes to reach a host over a relay

    [RelayConnectCode] of crates/ferryx-rd/ferryx-rd-proto/src/relay.rs: a prefix, the id of the host
    and the address of the relay in one line.  A string is the list of its characters, as in
    RdAgent; the host id is checked on its UTF-8 bytes, as the relay does. *)

From S2P Require Import Prelude Wire Utf8 RdRelay RdAgent.
From Stdlib Require Import ZArith Lia Strings.Byte.
From stdpp Require Import base option strings list.

#[local] Open Scope Z_scope.

Record RelayConnectCode := mk_RelayConnectCode { cc_host_id : list Z; cc_url : list Z }.
Definition PREFIX : list Z := chars "ferryx-rd-relay:".
Definition URL_PREFIXES : list (list Z) := [chars "ws://"; chars "wss://"; chars "http://"; chars "https://"].

Definition str_bytes (s : list Z) : list byte := concat (utf8_char <$> s).
Definition starts_with (p s : list Z) : bool := bool_decide (take (length p) s = p).
Definition strip_prefix (p s : list Z) : option (list Z) := if starts_with p s then Some (drop (length p) s) else None.
Fixpoint split_once (sep : Z) (s : list Z) : option (list Z * list Z) :=
  match s with
  | [] => None
  | c :: rest => if c =? sep then Some ([], rest) else (λ ab, (c :: ab.1, ab.2)) <$> split_once sep rest
  end.
Definition contains (c : Z) (s : list Z) : bool := existsb (Z.eqb c) s.

Definition code_valid (host_id url : list Z) : bool :=
  negb (negb (relay_host_id_ok (str_bytes host_id))
    || negb (existsb (λ p, starts_with p url && (str_len p <? str_len url)) URL_PREFIXES)
    || existsb is_whitespace url || contains 64 url || contains 35 url).
Definition parse (code : list Z) : option RelayConnectCode :=
  rest ← strip_prefix PREFIX (trim code);
  '(host_id, url) ← split_once 64 rest;
  if code_valid host_id url then Some (mk_RelayConnectCode host_id url) else None.
Definition encode (c : RelayConnectCode) : list Z := PREFIX ++ cc_host_id c ++ 64 :: cc_url c.

(** ** Strings *)

Lemma strip_prefix_Some p s r : strip_prefix p s = Some r ↔ s = p ++ r.
Proof.
  unfold strip_prefix, starts_with. case_bool_decide as H; split.
  - intros [= <-]. rewrite <- H at 1. by rewrite take_drop.
  - intros ->. by rewrite drop_app_length.
  - done.
  - intros ->. by rewrite take_app_length in H.
Qed.
Lemma split_once_Some sep s a b : split_once sep s = Some (a, b) ↔ s = a ++ sep :: b ∧ (sep ∉ a).
Proof.
  revert a b. induction s as [|c s IH]; intros a b; cbn [split_once].
  - split; [done|]. by intros [?%(f_equal length) _]; rewrite length_app in *; cbn in *; lia.
  - destruct (Z.eqb_spec c sep) as [->|Hc].
    + split; [intros [= <- <-]; split; [done|]; apply not_elem_of_nil|]. intros [E Ha]. destruct a as [|x a]; [by injection E as ->|].
      injection E as <- _. destruct Ha. apply elem_of_cons. by left.
    + rewrite fmap_Some. split.
      * intros ([a' b'] & [-> Ha]%IH & [= -> ->]). split; [done|]. cbn. rewrite elem_of_cons. by intros [?|?].
      * intros [E Ha]. destruct a as [|x a]; injection E as -> E; [done|]. exists (a, b). split; [|done]. apply IH. split; [done|]. intros ?. apply Ha, elem_of_cons. by right.
Qed.
Lemma trim_start_id s : (∀ c r, s = c :: r → is_whitespace c = false) → trim_start s = s.
Proof. destruct s as [|c r]; [done|]. intros H. cbn. by rewrite (H c r eq_refl). Qed.
(** A string that neither begins nor ends with a space is its own [trim]. *)
Lemma trim_id s l c : s = l ++ [c] → (∀ d r, s = d :: r → is_whitespace d = false) → is_whitespace c = false → trim s = s.
Proof.
  intros -> Hd Hc. unfold trim. rewrite (trim_start_id _ Hd), reverse_app, reverse_singleton, trim_start_id; [|by intros d r [= <- _]].
  by rewrite reverse_app, reverse_involutive.
Qed.
Lemma host_id_no_at h : relay_host_id_ok (str_bytes h) = true → 64 ∉ h.
Proof.
  unfold relay_host_id_ok. destruct (_ || _); [done|]. rewrite forallb_forall. intros H Hin. assert (In x40 (str_bytes h)) as Hx.
  { unfold str_bytes. apply in_concat. exists (utf8_char 64). split; [|vm_compute; by left]. apply list_elem_of_In, list_elem_of_fmap. by exists 64. }
  specialize (H _ Hx). vm_compute in H. done.
Qed.
Lemma existsb_none {A} (f : A → bool) l x : existsb f l = false → x ∈ l → f x = false.
Proof. intros H Hx. destruct (f x) eqn:E; [|done]. rewrite <- H. symmetry. apply existsb_exists. exists x. by rewrite <- list_elem_of_In. Qed.

(** ** The code *)

Lemma code_valid_inv h u : code_valid h u = true → (64 ∉ h) ∧ existsb is_whitespace u = false ∧ u ≠ [].
Proof.
  unfold code_valid. rewrite negb_true_iff, !orb_false_iff, !negb_false_iff. intros [[[[Hh Hp] Hw] _] _]. split_and!; [by apply host_id_no_at|done|].
  intros ->. vm_compute in Hp. done.
Qed.
Lemma trim_encode c : code_valid (cc_host_id c) (cc_url c) = true → trim (encode c) = encode c.
Proof.
  intros (_ & Hw & Hne)%code_valid_inv. destruct (exists_last Hne) as (l & z & E).
  apply (trim_id _ (PREFIX ++ cc_host_id c ++ 64 :: l) z).
  - unfold encode. rewrite E, app_comm_cons, !app_assoc. by rewrite <- !app_assoc.
  - intros d r. unfold encode. change PREFIX with (102 :: tail PREFIX). by intros [= <- _].
  - apply (existsb_none _ _ z Hw). rewrite E. apply elem_of_app. right. by apply elem_of_cons; left.
Qed.

(** The text a user may paste and the pair of host and relay address determine each other: a
    text is accepted exactly when, without the spaces around it, it is the code of a pair whose host
    id the relay would accept and whose address is a complete one; and the result is that pair. *)
Theorem relay_code_exact code c : parse code = Some c ↔ trim code = encode c ∧ code_valid (cc_host_id c) (cc_url c) = true.
Proof.
  unfold parse, encode. split.
  - intros (rest & Hs%strip_prefix_Some & ([h u] & [Hr Hn]%split_once_Some & H)%bind_Some)%bind_Some. destruct (code_valid h u) eqn:Ev; [|done].
    injection H as <-. cbn. by rewrite Hs, Hr.
  - intros [Ht Hv]. apply bind_Some. exists (cc_host_id c ++ 64 :: cc_url c). split; [by apply strip_prefix_Some|]. apply bind_Some. exists (cc_host_id c, cc_url c).
    split; [apply split_once_Some; split; [done|]; by apply code_valid_inv in Hv as (? & _)|]. rewrite Hv. by destruct c.
Qed.

(** A valid pair survives being written as a code and read back. *)
Theorem relay_code_roundtrip c (Hv : code_valid (cc_host_id c) (cc_url c) = true) : parse (encode c) = Some c.
Proof.
  unfold parse. rewrite (trim_encode _ Hv). unfold encode. rewrite (proj2 (strip_prefix_Some PREFIX _ _) eq_refl). cbn.
  rewrite (proj2 (split_once_Some 64 _ (cc_host_id c) (cc_url c))); [cbn; rewrite Hv; by destruct c|]. split; [done|]. by apply code_valid_inv in Hv as (? & _).
Qed.
Lemma relay_code_roundtrip_witness : let c := mk_RelayConnectCode (chars "studio-7") (chars "wss://relay.example:443/rd") in
  parse (encode c) = Some c ∧ parse (chars " ferryx-rd-relay:studio-7@wss://relay.example:443/rd ") = Some c.
Proof. split; [apply (relay_code_roundtrip (mk_RelayConnectCode (chars "studio-7") (chars "wss://relay.example:443/rd"))); vm_compute; reflexivity|vm_compute; reflexivity]. Defined.
