(* ===== verification/RdGuest.v ===== *)
(** * RdGuest: who may use a host, and for what

    Every connection to a remote desktop host is a guest with permissions: it authenticates with a
    pairing the host stored, or asks to be paired and the owner answers, and its input is let
    through as far as its permissions go.  This file has the permissions and the registry of guests
    (crates/ferryx-rd/ferryx-rd-host/src/guests.rs), the store of pairings and the admission and
    input arms of [handle_connection] (ferryx-rd-host/src/session.rs), cut into the pieces that touch
    the store or the registry once, and input datagrams (udp_input.rs).  Files hold values: what
    serde_json and the file system answer is an environment's choice.  The video of a session, its
    clipboard, the subscribers of host events and the queue of the injector are left out. *)

From Stdlib Require Import ZArith Lia Strings.Byte.
From stdpp Require Import base option gmap strings list.
From S2P Require Import Prelude Wire RdCodec RdPacket RdControl RdInput RdRelay.

#[local] Open Scope Z_scope.

(** ** Permissions (guests.rs) *)

Definition intersect (a b : GuestPermissions) : GuestPermissions :=
  mk_GuestPermissions (gp_keyboard a && gp_keyboard b) (gp_mouse a && gp_mouse b) (gp_gamepad a && gp_gamepad b)
    (gp_clipboard a && gp_clipboard b) (gp_audio a && gp_audio b).
Definition allows (p : GuestPermissions) (event : InputEventType) : bool :=
  match event with
  | KeyDown | KeyUp | FlagsChanged | UnicodeChar => gp_keyboard p
  | GamepadAxis | GamepadButtonDown | GamepadButtonUp => gp_gamepad p
  | Reset => true
  | _ => gp_mouse p
  end.
Definition valid_trust (trust : PairingTrust) (now : Z) : bool :=
  match trust with Owner => true | GuestOnce => false | GuestExpiring expires => now <? expires end.
#[global] Instance GuestPermissions_eq_dec : EqDecision GuestPermissions.
Proof. solve_decision. Defined.
#[global] Instance PairingTrust_eq_dec : EqDecision PairingTrust.
Proof. solve_decision. Defined.

(** ** The store of pairings (session.rs) *)

Record PairingRecord := mk_PairingRecord { rec_id : String; rec_name : String; rec_key : list byte; rec_added_at_unix_ms : Z }.
Inductive SessionError : Type :=
| SeCodec (e : CodecError)
| SeStore
| SeConsentUnavailable
| SeConsentTimeout
| SeUnknownPairing
| SeIdentityMismatch
| SePreAuth
| SeAlreadyAuthenticated
| SeMissingAuthenticatedRegistration
| SeMediaStopped.

(** The two files: the pairings and the grants. *)
Record Store := mk_Store { st_records : list PairingRecord; st_grants : gmap String (list byte * option GuestPermissions) }.
(** Whether the file system lets an operation read and write each file. *)
Record Io := mk_Io { read_records : bool; write_records : bool; read_grants : bool; write_grants : bool }.
Definition io_ok : Io := mk_Io true true true true.

Definition authorization (io : Io) (id : String) (s : Store) : Result (PairingTrust * option GuestPermissions) SessionError :=
  if negb (read_grants io) then Err SeStore else
  match st_grants s !! id with
  | None => Ok (Owner, None)
  | Some (trust, permissions) => match PairingTrust_decode trust with Ok trust => Ok (trust, permissions) | Err e => Err (SeCodec e) end
  end.
Definition set_authorization (io : Io) (id : String) (trust : PairingTrust) (permissions : option GuestPermissions) (s : Store) : Store * Result unit SessionError :=
  if negb (read_grants io) then (s, Err SeStore) else
  match PairingTrust_encode trust with
  | Err e => (s, Err (SeCodec e))
  | Ok bytes => if write_grants io then (mk_Store (st_records s) (<[id := (bytes, permissions)]> (st_grants s)), Ok tt) else (s, Err SeStore)
  end.
Definition load (io : Io) (id : String) (s : Store) : Result (option PairingRecord) SessionError :=
  if read_records io then Ok (List.find (λ r, bool_decide (rec_id r = id)) (st_records s)) else Err SeStore.
Definition save (io : Io) (record : PairingRecord) (s : Store) : Store * Result unit SessionError :=
  if read_records io && write_records io
  then (mk_Store (filter (λ r, rec_id r ≠ rec_id record) (st_records s) ++ [record]) (st_grants s), Ok tt)
  else (s, Err SeStore).
Definition revoke (io : Io) (id : String) (s : Store) : Store * Result bool SessionError :=
  if negb (read_records io) then (s, Err SeStore) else
  let records := filter (λ r, rec_id r ≠ id) (st_records s) in
  let removed := negb (zlen records =? zlen (st_records s)) in
  if removed && negb (write_records io) then (s, Err SeStore) else
  let s := if removed then mk_Store records (st_grants s) else s in
  if negb (read_grants io) then (s, Err SeStore) else
  match st_grants s !! id with
  | None => (s, Ok removed)
  | Some _ => if write_grants io then (mk_Store (st_records s) (delete id (st_grants s)), Ok removed) else (s, Err SeStore)
  end.

(** ** The registry of guests (guests.rs) *)

Record GuestSession := mk_GuestSession { gs_id : String; gs_pairing_id : String; gs_name : String; gs_trust : PairingTrust }.
Inductive GuestCommand : Type := GcEnd (reason : SessionEndReason) | GcStatus (status : HostStatus) | GcPermissions (p : GuestPermissions).
Record PendingRequest := mk_PendingRequest { pq_name : String; pq_expires_at : Z }.

(** What connections and the owner share.  With each guest are the commands not yet received by its
    connection; a reply slot is the channel of one answer a pairing request waits on. *)
Record Shared := mk_Shared {
  sh_store : Store;
  sh_sessions : gmap String (GuestSession * list GuestCommand);
  sh_pending : gmap String PendingRequest;
  sh_slots : gmap String (option (option PairingTrust));
}.
Definition with_store (x : Store) (s : Shared) : Shared := mk_Shared x (sh_sessions s) (sh_pending s) (sh_slots s).
Definition with_sessions (x : gmap String (GuestSession * list GuestCommand)) (s : Shared) : Shared := mk_Shared (sh_store s) x (sh_pending s) (sh_slots s).
Definition with_pending (x : gmap String PendingRequest) (s : Shared) : Shared := mk_Shared (sh_store s) (sh_sessions s) x (sh_slots s).
Definition with_slots (x : gmap String (option (option PairingTrust))) (s : Shared) : Shared := mk_Shared (sh_store s) (sh_sessions s) (sh_pending s) x.

Definition send_command (c : GuestCommand) (e : GuestSession * list GuestCommand) : GuestSession * list GuestCommand := (e.1, e.2 ++ [c]).
Definition publish_status (sessions : gmap String (GuestSession * list GuestCommand)) : gmap String (GuestSession * list GuestCommand) :=
  let names := (λ e, gs_name e.2.1) <$> bt_iter sessions in
  send_command (GcStatus (mk_HostStatus names)) <$> sessions.
Definition join (guest : GuestSession) (s : Shared) : Shared := with_sessions (publish_status (<[gs_id guest := (guest, [])]> (sh_sessions s))) s.
Definition leave (id : String) (s : Shared) : Shared :=
  match sh_sessions s !! id with
  | Some _ => with_sessions (publish_status (delete id (sh_sessions s))) s
  | None => s
  end.
Definition kick (id : String) (s : Shared) : Shared * bool :=
  match sh_sessions s !! id with
  | Some e => (with_sessions (<[id := send_command (GcEnd Kicked) e]> (sh_sessions s)) s, true)
  | None => (s, false)
  end.
Definition kick_all (s : Shared) : Shared * Z :=
  (with_sessions (send_command (GcEnd Kicked) <$> sh_sessions s) s, Z.of_nat (size (sh_sessions s))).
Definition permissions (pairing_id : String) (p : GuestPermissions) (s : Shared) : Shared :=
  with_sessions ((λ e, if bool_decide (gs_pairing_id e.1 = pairing_id) then send_command (GcPermissions p) e else e) <$> sh_sessions s) s.
Definition request (id : String) (r : PendingRequest) (s : Shared) : Shared :=
  with_slots (<[id := None]> (sh_slots s)) (with_pending (<[id := r]> (sh_pending s)) s).
Definition finish_request (id : String) (s : Shared) : Shared := with_pending (delete id (sh_pending s)) s.
(** [try_send] on a channel of one place: its receiver is there and it is empty. *)
Definition answer (id : String) (trust : option PairingTrust) (s : Shared) : Shared * bool :=
  match sh_slots s !! id with
  | Some None => (with_slots (<[id := Some trust]> (sh_slots s)) s, true)
  | _ => (s, false)
  end.
Definition respond (id : String) (trust : option PairingTrust) (now : Z) (s : Shared) : Shared * bool :=
  match sh_pending s !! id with
  | None => (s, false)
  | Some r =>
      let s := finish_request id s in
      if now <? pq_expires_at r then answer id trust s else (s, false)
  end.

(** ** A connection (session.rs) *)

Definition BOOTSTRAP_IDENTITY : String := lit "maho-b1".
Definition PAIRING_IDENTITY_PREFIX : String := lit "maho-p1.".
Inductive SessionState : Type := PreAuth | PairingGranted | Authenticated | Closed.
#[global] Instance SessionState_eq_dec : EqDecision SessionState.
Proof. solve_decision. Defined.
Definition state_allows (s : SessionState) (ty : PacketType) : bool :=
  match s, ty with
  | PreAuth, (PtPairingRequest | PtHandshake) | PairingGranted, PtHandshake | Authenticated, (PtInputEvent | PtInputBatch | PtControl) => true
  | _, _ => false
  end.

Record HostConfig := mk_HostConfig {
  hc_host_name : String;
  hc_width : Z;
  hc_height : Z;
  hc_scale : Z;
  hc_capture_audio : bool;
  hc_consent_sender : bool;
  hc_host_caps : Z;
}.
(** [cfg!(any(...))] of [permission_ceiling] holds on every supported system. *)
Definition permission_ceiling (cfg : HostConfig) (policy : HostPolicy) (clipboard : bool) : GuestPermissions :=
  mk_GuestPermissions (hp_allow_input policy) (hp_allow_input policy) (hp_allow_input policy && cap_contains (hc_host_caps cfg) GAMEPAD)
    (hp_allow_clipboard policy && clipboard) (hc_capture_audio cfg).

(** Where a connection stands between two touches of what is shared. *)
Inductive Pc : Type :=
| PcTurn
| PcPacket (packet : list byte)
| PcConsent (request_id name : String)
| PcFinish (request_id name : String) (approval : option (option PairingTrust))
| PcAuthorize (h : Handshake) (record : PairingRecord) (fresh : bool)
| PcTrust (record : PairingRecord)
| PcStore (record : PairingRecord) (fresh : bool)
| PcSave (record : PairingRecord)
| PcJoin (record : PairingRecord)
| PcEnd
| PcClosed.
Record Conn := mk_Conn {
  cn_identity : String;
  cn_pc : Pc;
  cn_state : SessionState;
  cn_granted : option String;
  cn_provisional : option PairingRecord;
  cn_trust : PairingTrust;
  cn_peer_caps : Z;
  cn_grant : GuestPermissions;
  cn_effective : GuestPermissions;
  cn_clipboard_sync : bool;
  cn_order : InputOrder;
  cn_guest : option GuestSession;
}.
Definition conn_new (cfg : HostConfig) (policy : HostPolicy) (identity : String) : Conn :=
  mk_Conn identity PcTurn PreAuth None None GuestOnce 0 (permission_ceiling cfg policy true) (permission_ceiling cfg policy false) false order_default None.
Definition at_pc (pc : Pc) (c : Conn) : Conn :=
  mk_Conn (cn_identity c) pc (cn_state c) (cn_granted c) (cn_provisional c) (cn_trust c) (cn_peer_caps c) (cn_grant c) (cn_effective c) (cn_clipboard_sync c) (cn_order c) (cn_guest c).
Definition in_state (x : SessionState) (c : Conn) : Conn :=
  mk_Conn (cn_identity c) (cn_pc c) x (cn_granted c) (cn_provisional c) (cn_trust c) (cn_peer_caps c) (cn_grant c) (cn_effective c) (cn_clipboard_sync c) (cn_order c) (cn_guest c).
Definition with_granted (id : option String) (record : option PairingRecord) (c : Conn) : Conn :=
  mk_Conn (cn_identity c) (cn_pc c) (cn_state c) id record (cn_trust c) (cn_peer_caps c) (cn_grant c) (cn_effective c) (cn_clipboard_sync c) (cn_order c) (cn_guest c).
Definition with_trust (t : PairingTrust) (c : Conn) : Conn :=
  mk_Conn (cn_identity c) (cn_pc c) (cn_state c) (cn_granted c) (cn_provisional c) t (cn_peer_caps c) (cn_grant c) (cn_effective c) (cn_clipboard_sync c) (cn_order c) (cn_guest c).
Definition with_caps (caps : Z) (sync : bool) (c : Conn) : Conn :=
  mk_Conn (cn_identity c) (cn_pc c) (cn_state c) (cn_granted c) (cn_provisional c) (cn_trust c) caps (cn_grant c) (cn_effective c) sync (cn_order c) (cn_guest c).
Definition with_grant (p : GuestPermissions) (c : Conn) : Conn :=
  mk_Conn (cn_identity c) (cn_pc c) (cn_state c) (cn_granted c) (cn_provisional c) (cn_trust c) (cn_peer_caps c) p (cn_effective c) (cn_clipboard_sync c) (cn_order c) (cn_guest c).
Definition with_effective (p : GuestPermissions) (c : Conn) : Conn :=
  mk_Conn (cn_identity c) (cn_pc c) (cn_state c) (cn_granted c) (cn_provisional c) (cn_trust c) (cn_peer_caps c) (cn_grant c) p (cn_clipboard_sync c) (cn_order c) (cn_guest c).
Definition with_order (o : InputOrder) (c : Conn) : Conn :=
  mk_Conn (cn_identity c) (cn_pc c) (cn_state c) (cn_granted c) (cn_provisional c) (cn_trust c) (cn_peer_caps c) (cn_grant c) (cn_effective c) (cn_clipboard_sync c) o (cn_guest c).
Definition with_guest (g : option GuestSession) (c : Conn) : Conn :=
  mk_Conn (cn_identity c) (cn_pc c) (cn_state c) (cn_granted c) (cn_provisional c) (cn_trust c) (cn_peer_caps c) (cn_grant c) (cn_effective c) (cn_clipboard_sync c) (cn_order c) g.

(** What a connection does: a control message or another packet to the client, or a job for the
    injector, which is the events it injects. *)
Inductive Effect : Type :=
| Control (m : ControlMessage)
| Packet (ty : PacketType) (payload : list byte)
| Inject (job : list InputEvent).

Definition reset_event : InputEvent := mk_InputEvent Reset 0 0 0 0 0 0.
Definition send_permissions (caps : Z) (p : GuestPermissions) : list Effect :=
  if cap_contains caps GUEST_PERMISSIONS then [Control (CmGuestPermissions p)] else
  if cap_contains caps STREAM_OPTIONS then [Control (CmHostPolicy (mk_HostPolicy (gp_keyboard p && gp_mouse p) (gp_clipboard p)))] else [].
Definition send_session_end (caps : Z) (reason : SessionEndReason) : list Effect :=
  [Control (if cap_contains caps SESSION_ENDED then CmSessionEnded (mk_SessionEnded reason) else CmDisconnect)].

(** The injector takes [room] jobs more ([None]: as many as come); what it refuses ends the
    connection.  The result says whether all were taken. *)
Definition enqueue (jobs : list (list InputEvent)) (room : option nat) : list Effect * bool :=
  match room with
  | Some n => (Inject <$> take n jobs, (length jobs <=? n)%nat)
  | None => (Inject <$> jobs, true)
  end.
Definition inject_batch (events : list InputEvent) : list (list InputEvent) := match events with [] => [] | _ => [events] end.
Definition inject_each (events : list InputEvent) : list (list InputEvent) := (λ e, [e]) <$> events.

Definition without_modifiers (e : InputEvent) : InputEvent := mk_InputEvent (event_type e) (ev_x e) (ev_y e) (key_code e) 0 (scroll_dx e) (scroll_dy e).
Definition strip (p : GuestPermissions) (e : InputEvent) : InputEvent := if gp_keyboard p then e else without_modifiers e.
(** The motions of a batch as far as permissions let them through. *)
Definition permitted_motions (p : GuestPermissions) (events : list InputEvent) : list InputEvent := if gp_mouse p then strip p <$> events else [].

(** The commands of the owner: the permissions granted last, what is sent, and a reason to end. *)
Fixpoint receive_commands (caps : Z) (commands : list GuestCommand) (grant : GuestPermissions) : GuestPermissions * list Effect * option SessionEndReason :=
  match commands with
  | [] => (grant, [], None)
  | GcEnd reason :: _ => (grant, [], Some reason)
  | GcStatus status :: rest =>
      let '(grant, out, ending) := receive_commands caps rest grant in
      (grant, if cap_contains caps HOST_STATUS then Control (CmHostStatus status) :: out else out, ending)
  | GcPermissions p :: rest => receive_commands caps rest p
  end.
Definition shrinks (old new : GuestPermissions) : bool :=
  (gp_keyboard old && negb (gp_keyboard new)) || (gp_mouse old && negb (gp_mouse new)) || (gp_gamepad old && negb (gp_gamepad new)).

(** [split_packet] *)
Definition split_packet (packet : list byte) : Result (PacketHeader * list byte) CodecError :=
  if zlen packet <? 12 then Err (Truncated "packet header" 12 (zlen packet)) else
  match PacketHeader_decode (take 12 packet) with Ok h => Ok (h, drop 12 packet) | Err e => Err e end.

(** The input batches among the datagrams of the client, each opened already: the order of motion
    afterwards and the jobs ([receive_udp_datagrams]). *)
Fixpoint udp_jobs (c : Conn) (datagrams : list (PacketHeader * list byte)) : InputOrder * list (list InputEvent) :=
  match datagrams with
  | [] => (cn_order c, [])
  | (header, payload) :: rest =>
      match packet_type header, cap_contains (cn_peer_caps c) UDP_INPUT, InputBatch_decode payload with
      | PtInputBatch, true, Ok batch =>
          let '(order, events) := accept batch false (cn_order c) in
          let events := permitted_motions (cn_effective c) events in
          let jobs := if cap_contains (cn_peer_caps c) INPUT_ECHO then inject_batch events else inject_each events in
          let '(order, more) := udp_jobs (with_order order c) rest in (order, jobs ++ more)
      | _, _, _ => udp_jobs c rest
      end
  end.

(** What the environment gives a connection at each point. *)
Inductive Input : Type :=
| InTurn (stop : bool) (packet : option (list byte)) (now : Z) (policy : HostPolicy) (datagrams : list (PacketHeader * list byte)) (room : option nat)
| InPacket (pairing_active : bool) (request_id : String) (expires_at : Z) (prompted : bool) (io : Io) (room : option nat)
| InReceive
| InFinish (in_time : bool) (now : Z) (pairing_id : String) (key : list byte)
| InAuthorize (now : Z) (io : Io)
| InTrust (packet : list byte)
| InStore (now : Z) (io : Io)
| InSave (io : Io)
| InJoin (policy : HostPolicy) (guest_id : String)
| InFail
| InEnd.

Section connection.
Context (cfg : HostConfig).

(** The part of a turn that an authenticated connection begins with: the owner's commands, the end
    of an expiring pairing, permissions, input datagrams.  The flag says whether the session goes on. *)
Definition guest_turn (now : Z) (policy : HostPolicy) (datagrams : list (PacketHeader * list byte)) (room : option nat) (commands : list GuestCommand) (c : Conn) :
    Conn * list Effect * bool :=
  let '(grant, out, ending) := receive_commands (cn_peer_caps c) commands (cn_grant c) in
  let c := with_grant grant c in
  let ending := match cn_trust c with GuestExpiring expires => if expires <=? now then Some GuestExpired else ending | _ => ending end in
  match ending with
  | Some reason => (c, out ++ send_session_end (cn_peer_caps c) reason, false)
  | None =>
      let current := intersect (cn_grant c) (permission_ceiling cfg policy (cn_clipboard_sync c)) in
      let changed := negb (bool_decide (current = cn_effective c)) in
      let '(resets, ok) := enqueue (if changed && shrinks (cn_effective c) current then [[reset_event]] else []) room in
      if negb ok then (c, out ++ resets, false) else
      let room := match room with Some n => Some (n - length resets)%nat | None => None end in
      let told := if changed then send_permissions (cn_peer_caps c) current else [] in
      let c := with_effective current c in
      let '(order, jobs) := udp_jobs c datagrams in
      let '(injected, ok) := enqueue jobs room in
      (with_order order c, out ++ resets ++ told ++ injected, ok)
  end.
Definition commands_of (c : Conn) (s : Shared) : list GuestCommand :=
  match cn_guest c with Some g => match sh_sessions s !! gs_id g with Some e => e.2 | None => [] end | None => [] end.
Definition take_commands (c : Conn) (s : Shared) : Shared :=
  match cn_guest c with
  | Some g => match sh_sessions s !! gs_id g with Some e => with_sessions (<[gs_id g := (e.1, [])]> (sh_sessions s)) s | None => s end
  | None => s
  end.
(** An orderly end asked for by the client. *)
Definition wants_end (packet : list byte) : Result bool CodecError :=
  match split_packet packet with
  | Err e => Err e
  | Ok (header, payload) =>
      match packet_type header with
      | PtControl => match ControlMessage_decode payload with Err e => Err e | Ok (CmDisconnect | CmStopStream) => Ok true | Ok _ => Ok false end
      | _ => Ok false
      end
  end.
Definition next_pc (packet : option (list byte)) : Pc := match packet with Some p => PcPacket p | None => PcTurn end.
Definition turn (stop : bool) (packet : option (list byte)) (now : Z) (policy : HostPolicy) (datagrams : list (PacketHeader * list byte)) (room : option nat)
    (c : Conn) (s : Shared) : Conn * Shared * list Effect :=
  let authenticated := bool_decide (cn_state c = Authenticated) in
  if stop then (at_pc PcEnd c, s, if authenticated then send_session_end (cn_peer_caps c) HostStopped else []) else
  if negb authenticated then (at_pc (next_pc packet) c, s, []) else
  match match packet with Some p => wants_end p | None => Ok false end with
  | Ok false =>
      let commands := commands_of c s in
      let '(c', out, go) := guest_turn now policy datagrams room commands c in
      (at_pc (if go then next_pc packet else PcEnd) c', take_commands c s, out)
  | _ => (at_pc PcEnd c, s, [])
  end.

Definition reject (reason : PairingRejectReason) : Effect := Packet PtPairingReject (push_u8 (to_u8 reason)).
Definition pairing_request (pairing_active : bool) (request_id : String) (expires_at : Z) (prompted : bool) (payload : list byte) (c : Conn) (s : Shared) :
    Conn * Shared * list Effect :=
  if negb (bool_decide (cn_identity c = BOOTSTRAP_IDENTITY)) || negb pairing_active then (at_pc PcTurn c, s, [reject PairingDisabled]) else
  match PairingRequest_decode payload with
  | Err _ => (at_pc PcEnd c, s, [])
  | Ok r =>
      let s := request request_id (mk_PendingRequest (pr_name r) expires_at) s in
      if hc_consent_sender cfg && negb prompted then (at_pc PcEnd c, with_slots (delete request_id (sh_slots s)) (finish_request request_id s), [])
      else (at_pc (PcConsent request_id (pr_name r)) c, s, [])
  end.
(** The answer of the owner; the trust of an approved guest is that of the answer. *)
Definition finish_pairing (in_time : bool) (now : Z) (pairing_id : String) (key : list byte) (name : String) (approval : option (option PairingTrust)) (c : Conn) :
    Conn * list Effect :=
  match approval with
  | None => (at_pc PcEnd c, [])
  | Some answer =>
      if negb in_time then (at_pc PcEnd c, []) else
      match answer with
      | None => (at_pc PcEnd c, [reject DeniedByHost])
      | Some trust =>
          match PairingTrust_encode trust with
          | Err _ => (at_pc PcEnd c, [])
          | Ok _ =>
              if negb (bool_decide (trust = GuestOnce)) && negb (valid_trust trust now) then (at_pc PcEnd c, []) else
              let c := with_trust trust c in
              match PairingGrant_encode (mk_PairingGrant pairing_id (hc_host_name cfg) key) with
              | Err _ => (at_pc PcEnd c, [])
              | Ok grant =>
                  (at_pc PcTurn (in_state PairingGranted (with_granted (Some pairing_id) (Some (mk_PairingRecord pairing_id name key now)) c)), [Packet PtPairingGrant grant])
              end
          end
      end
  end.

Definition handshake (io : Io) (payload : list byte) (c : Conn) (s : Shared) : Conn * Shared * list Effect :=
  match Handshake_decode payload with
  | Err _ => (at_pc PcEnd c, s, [])
  | Ok h =>
      match cn_provisional c with
      | Some record => (at_pc (PcAuthorize h record true) c, s, [])
      | None => match load io (hs_pairing_id h) (sh_store s) with Ok (Some record) => (at_pc (PcAuthorize h record false) c, s, []) | _ => (at_pc PcEnd c, s, []) end
      end
  end.
Definition strip_identity (identity : String) : option String :=
  let n := length PAIRING_IDENTITY_PREFIX in if bool_decide (take n identity = PAIRING_IDENTITY_PREFIX) then Some (drop n identity) else None.
Definition identity_ok (h : Handshake) (c : Conn) : bool :=
  match strip_identity (cn_identity c) with
  | Some id => bool_decide (id = hs_pairing_id h)
  | None => bool_decide (cn_identity c = BOOTSTRAP_IDENTITY) && match cn_granted c with Some id => bool_decide (id = hs_pairing_id h) | None => false end
  end.
Definition ack : Handshake :=
  mk_Handshake (hc_host_name cfg) (Z.min (hc_width cfg) u16_max) (Z.min (hc_height cfg) u16_max) (hc_scale cfg) PROTOCOL_VERSION
    (Z.lor (Z.lor STREAM_CONFIGURATION (Z.lor AUTHENTICATED_UDP_REGISTRATION STREAM_OPTIONS)) (hc_host_caps cfg)) [] (replicate 16 x00).
Definition authorize (now : Z) (io : Io) (h : Handshake) (record : PairingRecord) (fresh : bool) (c : Conn) (s : Shared) : Conn * list Effect :=
  let stored := if fresh then Ok (cn_trust c, None) else
    match authorization io (rec_id record) (sh_store s) with
    | Err e => Err e
    | Ok (trust, p) => if valid_trust trust now then Ok (trust, p) else Err SeUnknownPairing
    end in
  match stored with
  | Err _ => (at_pc PcEnd c, [])
  | Ok (trust, p) =>
      let c := with_grant (default (cn_grant c) p) (with_trust trust c) in
      if negb (identity_ok h c) || negb (hs_version h =? PROTOCOL_VERSION) || negb (cap_contains (hs_capabilities h) AUTHENTICATED_UDP_REGISTRATION)
      then (at_pc PcEnd c, []) else
      let sync := cap_contains (hc_host_caps cfg) TEXT_CLIPBOARD_SYNC && cap_contains (hs_capabilities h) TEXT_CLIPBOARD_SYNC in
      let c := with_caps (hs_capabilities h) sync c in
      match Handshake_encode ack with
      | Err _ => (at_pc PcEnd c, [])
      | Ok bytes =>
          let trusting := cap_contains (cn_peer_caps c) PAIRING_TRUST in
          if trusting && fresh then (at_pc (PcTrust record) c, [Packet PtHandshakeAck bytes])
          else (at_pc (PcStore record fresh) c, Packet PtHandshakeAck bytes :: if trusting then [Control (CmPairingTrustGrant (mk_PairingTrustGrant (cn_trust c)))] else [])
      end
  end.
Definition trust_request (packet : list byte) (record : PairingRecord) (c : Conn) : Conn * list Effect :=
  match split_packet packet with
  | Ok (header, payload) =>
      match packet_type header, ControlMessage_decode payload with
      | PtControl, Ok (CmPairingTrustRequest _) => (at_pc (PcStore record true) c, [Control (CmPairingTrustGrant (mk_PairingTrustGrant (cn_trust c)))])
      | _, _ => (at_pc PcEnd c, [])
      end
  | Err _ => (at_pc PcEnd c, [])
  end.
Definition store_pairing (now : Z) (io : Io) (record : PairingRecord) (fresh : bool) (c : Conn) (s : Shared) : Conn * Shared * list Effect :=
  if fresh && negb (bool_decide (cn_trust c = GuestOnce)) then
    if negb (valid_trust (cn_trust c) now) then (at_pc PcEnd c, s, send_session_end (cn_peer_caps c) GuestExpired) else
    match set_authorization io (rec_id record) (cn_trust c) (Some (cn_grant c)) (sh_store s) with
    | (st, Ok _) => (at_pc (PcSave record) c, with_store st s, [])
    | (st, Err _) => (at_pc PcEnd c, with_store st s, [])
    end
  else (at_pc (PcJoin record) c, s, []).
Definition enter (policy : HostPolicy) (guest_id : String) (record : PairingRecord) (c : Conn) (s : Shared) : Conn * Shared * list Effect :=
  let p := intersect (cn_grant c) (permission_ceiling cfg policy (cn_clipboard_sync c)) in
  let guest := mk_GuestSession guest_id (rec_id record) (rec_name record) (cn_trust c) in
  let c := with_effective p (with_granted (cn_granted c) None c) in
  (at_pc PcTurn (in_state Authenticated (with_guest (Some guest) c)), join guest s, send_permissions (cn_peer_caps c) p).

(** ** Input of an authenticated client *)

Definition is_gamepad (ty : InputEventType) : bool := match ty with GamepadAxis | GamepadButtonDown | GamepadButtonUp => true | _ => false end.
Definition after_jobs (jobs : list (list InputEvent)) (room : option nat) (c : Conn) : Conn * list Effect :=
  let '(injected, ok) := enqueue jobs room in (at_pc (if ok then PcTurn else PcEnd) c, injected).
Definition input_batch (payload : list byte) (room : option nat) (c : Conn) : Conn * list Effect :=
  if negb (cap_contains (cn_peer_caps c) UDP_INPUT) then (at_pc PcEnd c, []) else
  match InputBatch_decode payload with
  | Err _ => (at_pc PcEnd c, [])
  | Ok batch =>
      let '(order, events) := accept batch true (cn_order c) in
      let events := permitted_motions (cn_effective c) events in
      after_jobs (if cap_contains (cn_peer_caps c) INPUT_ECHO then inject_batch events else inject_each events) room (with_order order c)
  end.
(** The event of an input packet, the motions its batch brings, and whether it has a batch. *)
Definition input_payload (payload : list byte) (c : Conn) : Result (InputEvent * InputOrder * list InputEvent * bool) CodecError :=
  if cap_contains (cn_peer_caps c) UDP_INPUT then
    let n := Z.to_nat InputEvent_SIZE in
    if zlen payload <? InputEvent_SIZE then Err (Truncated "input event" InputEvent_SIZE (zlen payload)) else
    match InputEvent_decode (take n payload), InputBatch_decode (drop n payload) with
    | Ok event, Ok batch =>
        let '(order, events) := accept batch true (cn_order c) in Ok (event, order, permitted_motions (cn_effective c) events, true)
    | Err e, _ | _, Err e => Err e
    end
  else match InputEvent_decode payload with Ok event => Ok (event, cn_order c, [], false) | Err e => Err e end.
Definition input_event (sequence : Z) (payload : list byte) (room : option nat) (c : Conn) : Conn * list Effect :=
  match input_payload payload c with
  | Err _ => (at_pc PcEnd c, [])
  | Ok (event, order, motions, batched) =>
      let p := cn_effective c in
      let echo := cap_contains (cn_peer_caps c) INPUT_ECHO in
      let event := strip p event in
      let allowed := allows p (event_type event) && (negb (is_gamepad (event_type event)) || cap_contains (cn_peer_caps c) GAMEPAD) in
      let c := with_order order c in
      if negb allowed then
        let ack := Control (CmInputAck (mk_InputAckMessage sequence false 2)) in
        let '(injected, ok) := enqueue (inject_each motions) room in
        (at_pc (if ok then PcTurn else PcEnd) c, if echo then ack :: injected else injected ++ if ok then [ack] else [])
      else
      after_jobs (if echo && batched then inject_batch (motions ++ [event]) else inject_each motions ++ [[event]]) room c
  end.
Definition control (payload : list byte) (c : Conn) : Conn :=
  match ControlMessage_decode payload with
  | Err _ => at_pc PcEnd c
  | Ok m => at_pc (if supported_by (message_type m) (Z.lor (hc_host_caps cfg) (Z.lor STREAM_OPTIONS STREAM_CONFIGURATION)) (cn_peer_caps c) then PcTurn else PcEnd) c
  end.

Definition packet_step (pairing_active : bool) (request_id : String) (expires_at : Z) (prompted : bool) (io : Io) (room : option nat) (packet : list byte)
    (c : Conn) (s : Shared) : Conn * Shared * list Effect :=
  match split_packet packet with
  | Err _ => (at_pc PcEnd c, s, [])
  | Ok (header, payload) =>
      if negb (state_allows (cn_state c) (packet_type header)) then
        (at_pc (match cn_state c, packet_type header with Authenticated, PtHandshake => PcEnd | _, _ => PcTurn end) c, s, []) else
      match packet_type header with
      | PtPairingRequest => pairing_request pairing_active request_id expires_at prompted payload c s
      | PtHandshake => handshake io payload c s
      | PtInputBatch => let '(c, out) := input_batch payload room c in (c, s, out)
      | PtInputEvent => let '(c, out) := input_event (sequence header) payload room c in (c, s, out)
      | PtControl => (control payload c, s, [])
      | _ => (at_pc PcTurn c, s, [])
      end
  end.

(** A step of [handle_connection].  [InFail] is any failure of the streams or of the media that ends
    the connection.  At the end the injector releases what is held, and the guest leaves. *)
Definition conn_step (i : Input) (c : Conn) (s : Shared) : option (Conn * Shared * list Effect) :=
  match cn_pc c, i with
  | PcClosed, _ => None
  | PcEnd, InEnd =>
      Some (at_pc PcClosed (in_state Closed (with_guest None c)), match cn_guest c with Some g => leave (gs_id g) s | None => s end, [Inject [reset_event]])
  | PcEnd, _ => None
  | (PcConsent _ _ | PcFinish _ _ _), InFail => None
  | _, InFail => Some (at_pc PcEnd c, s, [])
  | PcTurn, InTurn stop packet now policy datagrams room => Some (turn stop packet now policy datagrams room c s)
  | PcPacket packet, InPacket active request_id expires_at prompted io room =>
      Some (packet_step active request_id expires_at prompted io room packet c s)
  | PcConsent request_id name, InReceive =>
      Some (at_pc (PcFinish request_id name (mjoin (sh_slots s !! request_id))) c, with_slots (<[request_id := None]> (sh_slots s)) s, [])
  | PcFinish request_id name approval, InFinish in_time now pairing_id key =>
      let '(c, out) := finish_pairing in_time now pairing_id key name approval c in Some (c, with_slots (delete request_id (sh_slots s)) (finish_request request_id s), out)
  | PcAuthorize h record fresh, InAuthorize now io => let '(c, out) := authorize now io h record fresh c s in Some (c, s, out)
  | PcTrust record, InTrust packet => let '(c, out) := trust_request packet record c in Some (c, s, out)
  | PcStore record fresh, InStore now io => Some (store_pairing now io record fresh c s)
  | PcSave record, InSave io =>
      let '(st, r) := save io record (sh_store s) in Some (at_pc (match r with Ok _ => PcJoin record | Err _ => PcEnd end) c, with_store st s, [])
  | PcJoin record, InJoin policy guest_id => Some (enter policy guest_id record c s)
  | _, _ => None
  end.
End connection.

(** ** The owner *)

(** [set_guest_permissions] between its touches of the store and of the registry. *)
Inductive OwnerPc : Type :=
| OwLoad (pairing_id : String) (p : GuestPermissions)
| OwAuthorize (pairing_id : String) (p : GuestPermissions)
| OwWrite (pairing_id : String) (p : GuestPermissions) (trust : PairingTrust)
| OwTell (pairing_id : String) (p : GuestPermissions)
| OwDone.
Definition set_guest_permissions (io : Io) (pc : OwnerPc) (s : Shared) : OwnerPc * Shared :=
  match pc with
  | OwLoad id p => match load io id (sh_store s) with Ok (Some _) => (OwAuthorize id p, s) | Ok None => (OwTell id p, s) | Err _ => (OwDone, s) end
  | OwAuthorize id p => match authorization io id (sh_store s) with Ok (trust, _) => (OwWrite id p trust, s) | Err _ => (OwDone, s) end
  | OwWrite id p trust =>
      match set_authorization io id trust (Some p) (sh_store s) with (st, Ok _) => (OwTell id p, with_store st s) | (st, Err _) => (OwDone, with_store st s) end
  | OwTell id p => (OwDone, permissions id p s)
  | OwDone => (OwDone, s)
  end.
