(* ===== verification/RdGuestSpec.v ===== *)
(** * RdGuestSpec: what guests can do

    The host as a transition system: connections run their handler (RdGuest) between two touches of
    the store or the registry, the owner answers pairing requests, sets permissions, revokes and
    kicks, and all of them interleave at every such touch.  The theorems: who is let in, that input
    is injected only as far as the permissions go and nothing stays held that they no longer cover,
    that a change of permissions is obeyed; and two interleavings in which an answer of the store is
    no longer true when it is used. *)

From Stdlib Require Import ZArith Lia Strings.Byte.
From stdpp Require Import base option gmap strings list.
From S2P Require Import Prelude Wire RdCodec RdPacket RdControl RdInput RdRelay RdAgent RdGuest.

#[local] Open Scope Z_scope.

(** ** The world *)

(** With the connections and what they share: the owner's calls, and a record of what happened: the
    events each connection gave its injector, the pairing requests and the answers to them, the
    pairings loaded from the store and what it said of their trust at what time. *)
Record World := mk_World {
  w_conns : gmap conn Conn;
  w_shared : Shared;
  w_owners : gmap conn OwnerPc;
  w_injected : gmap conn (list InputEvent);
  w_asked : list (conn * String);
  w_answers : list (String * option PairingTrust);
  w_loaded : list (conn * PairingRecord);
  w_checked : list (conn * String * PairingTrust * Z);
}.
Definition world0 (st : Store) : World := mk_World ∅ (mk_Shared st ∅ ∅ ∅) ∅ ∅ [] [] [] [].

Definition injected (out : list Effect) : list InputEvent := concat ((λ e, match e with Inject job => job | _ => [] end) <$> out).
Definition asks (c : conn) (cn' : Conn) : list (conn * String) := match cn_pc cn' with PcConsent r _ => [(c, r)] | _ => [] end.
Definition loads (c : conn) (cn' : Conn) : list (conn * PairingRecord) := match cn_pc cn' with PcAuthorize _ record false => [(c, record)] | _ => [] end.
Definition checks (c : conn) (i : Input) (cn : Conn) (s : Shared) : list (conn * String * PairingTrust * Z) :=
  match cn_pc cn, i with
  | PcAuthorize _ record false, InAuthorize now io =>
      match authorization io (rec_id record) (sh_store s) with Ok (trust, _) => [(c, rec_id record, trust, now)] | Err _ => [] end
  | _, _ => []
  end.
(** UUIDs are not drawn twice. *)
Definition ids_fresh (i : Input) (w : World) : bool :=
  match i with
  | InPacket _ request_id _ _ _ _ => bool_decide (request_id ∉ (w_asked w).*2) && bool_decide (request_id ∉ (w_answers w).*1)
  | InJoin _ guest_id => bool_decide (sh_sessions (w_shared w) !! guest_id = None)
  | _ => true
  end.

Inductive Step : Type :=
| SAccept (c : conn) (identity : String) (policy : HostPolicy)
| SConn (c : conn) (i : Input)
| SSetPermissions (o : conn) (pairing_id : String) (p : GuestPermissions)
| SOwner (o : conn) (io : Io)
| SRespond (request_id : String) (trust : option PairingTrust) (now : Z)
| SPrompt (request_id : String) (trust : option PairingTrust)
| SRevoke (io : Io) (pairing_id : String)
| SKick (guest_id : String)
| SKickAll.

Section world.
Context (cfg : HostConfig).

Definition with_shared (s : Shared) (w : World) : World :=
  mk_World (w_conns w) s (w_owners w) (w_injected w) (w_asked w) (w_answers w) (w_loaded w) (w_checked w).
Definition with_owner (o : conn) (pc : OwnerPc) (w : World) : World :=
  mk_World (w_conns w) (w_shared w) (<[o := pc]> (w_owners w)) (w_injected w) (w_asked w) (w_answers w) (w_loaded w) (w_checked w).
Definition add_answer (a : String * option PairingTrust) (w : World) : World :=
  mk_World (w_conns w) (w_shared w) (w_owners w) (w_injected w) (w_asked w) (a :: w_answers w) (w_loaded w) (w_checked w).
Definition step (x : Step) (w : World) : option (World * list Effect) :=
  match x with
  | SAccept c identity policy =>
      match w_conns w !! c with
      | Some _ => None
      | None => Some (mk_World (<[c := conn_new cfg policy identity]> (w_conns w)) (w_shared w) (w_owners w) (<[c := []]> (w_injected w))
                        (w_asked w) (w_answers w) (w_loaded w) (w_checked w), [])
      end
  | SConn c i =>
      cn ← w_conns w !! c;
      if negb (ids_fresh i w) then None else
      '(cn', s', out) ← conn_step cfg i cn (w_shared w);
      Some (mk_World (<[c := cn']> (w_conns w)) s' (w_owners w) (<[c := default [] (w_injected w !! c) ++ injected out]> (w_injected w))
              (asks c cn' ++ w_asked w) (w_answers w) (loads c cn' ++ w_loaded w) (checks c i cn (w_shared w) ++ w_checked w), out)
  | SSetPermissions o pairing_id p => Some (with_owner o (OwLoad pairing_id p) w, [])
  | SOwner o io =>
      pc ← w_owners w !! o;
      let '(pc', s') := set_guest_permissions io pc (w_shared w) in Some (with_owner o pc' (with_shared s' w), [])
  | SRespond request_id trust now =>
      let '(s', sent) := respond request_id trust now (w_shared w) in
      Some ((if sent then add_answer (request_id, trust) else id) (with_shared s' w), [])
  | SPrompt request_id trust =>
      let '(s', sent) := answer request_id trust (w_shared w) in
      Some ((if sent then add_answer (request_id, trust) else id) (with_shared s' w), [])
  | SRevoke io pairing_id => Some (with_shared (with_store (revoke io pairing_id (sh_store (w_shared w))).1 (w_shared w)) w, [])
  | SKick guest_id => Some (with_shared (kick guest_id (w_shared w)).1 w, [])
  | SKickAll => Some (with_shared (kick_all (w_shared w)).1 w, [])
  end.
Inductive reachable (st : Store) : World → Prop :=
| r_start : reachable st (world0 st)
| r_step w x w' out : reachable st w → step x w = Some (w', out) → reachable st w'.
Fixpoint run (xs : list Step) (w : World) : option World :=
  match xs with [] => Some w | x :: xs => '(w', _) ← step x w; run xs w' end.
Lemma run_reachable st xs w w' : reachable st w → run xs w = Some w' → reachable st w'.
Proof.
  revert w. induction xs as [|x xs IH]; intros w Hw; cbn [run]; [by intros [= <-]|]. intros ([w1 out] & Hs & H)%bind_Some. by eapply IH; [eapply r_step|].
Qed.
End world.

(** ** Motion *)

Definition motion (e : InputEvent) : Prop := is_pointer_motion e = true.
Lemma motion_same_type e e' : event_type e' = event_type e → motion e → motion e'.
Proof. unfold motion, is_pointer_motion. by intros ->. Qed.
Lemma decode_motion payload b : InputBatch_decode payload = Ok b → Forall motion (b_samples b).
Proof.
  unfold InputBatch_decode. destruct (_ <? 18); [done|]. destruct (MAX_INPUT_SAMPLES <? _); [done|]. destruct (negb _); [done|].
  destruct (decode_samples _ _) as [samples|]; [|done]. cbn. destruct (existsb _ samples) eqn:E; [done|]. intros [= <-]. cbn.
  apply Forall_forall. intros e He. apply not_true_iff_false in E. destruct (motion_ok e) eqn:Em.
  - unfold motion_ok in Em. by repeat apply andb_true_iff in Em as [Em _].
  - destruct E. apply existsb_exists. exists e. by rewrite <- list_elem_of_In, Em.
Qed.
Lemma coalesce_motion events : Forall motion events → Forall motion (coalesce events).
Proof.
  unfold coalesce. assert (Forall motion (@nil InputEvent)) as H by done. revert H. generalize (@nil InputEvent) as out. induction events as [|e events IH]; [done|].
  intros out Ho [He Hes]%Forall_cons. cbn [foldl]. apply IH; [|done]. unfold coalesce1. assert (Forall motion (out ++ [e])) by (apply Forall_app; auto).
  destruct (last out) as [prev|] eqn:El; [|done]. assert (motion prev) by (eapply Forall_forall; [exact Ho|]; by apply last_Some_elem_of).
  destruct (_ && _); [|done]. destruct (event_type e); try done; apply Forall_app; (split; [by apply Forall_take|]); apply Forall_singleton; try done; by apply (motion_same_type prev).
Qed.
Lemma accept_motion b barrier o o' events : accept b barrier o = (o', events) → Forall motion (b_samples b) → Forall motion events.
Proof.
  unfold accept. destruct (negb _); [by intros [= _ <-]|]. destruct (_ <? _); destruct barrier; intros [= _ <-] H; try done; by apply coalesce_motion, Forall_drop.
Qed.

(** ** Permitted events *)

Definition permitted (p : GuestPermissions) (e : InputEvent) : Prop := allows p (event_type e) = true ∧ (gp_keyboard p = false → modifiers e = 0).
Lemma permitted_reset p : permitted p reset_event.
Proof. done. Qed.
Lemma strip_type p e : event_type (strip p e) = event_type e.
Proof. unfold strip. by destruct (gp_keyboard p). Qed.
Lemma strip_permitted p e : allows p (event_type e) = true → permitted p (strip p e).
Proof. intros H. split; [by rewrite strip_type|]. unfold strip. by intros ->. Qed.
Lemma motions_permitted p events : Forall motion events → Forall (permitted p) (permitted_motions p events).
Proof.
  intros H. unfold permitted_motions. destruct (gp_mouse p) eqn:E; [|done]. apply Forall_fmap. eapply Forall_impl; [exact H|]. intros e He. apply strip_permitted.
  unfold motion, is_pointer_motion in He. unfold allows. by destruct (event_type e).
Qed.

Lemma injected_app a b : injected (a ++ b) = injected a ++ injected b.
Proof. unfold injected. by rewrite fmap_app, concat_app. Qed.
Lemma injected_jobs jobs : injected (Inject <$> jobs) = concat jobs.
Proof. unfold injected. induction jobs as [|j jobs IH]; [done|]. cbn. by rewrite <- IH. Qed.
Lemma injected_end caps reason : injected (send_session_end caps reason) = [].
Proof. done. Qed.
Lemma injected_permissions caps p : injected (send_permissions caps p) = [].
Proof. unfold send_permissions. destruct (cap_contains _ GUEST_PERMISSIONS); [done|]. by destruct (cap_contains _ STREAM_OPTIONS). Qed.
Lemma injected_told (b : bool) caps p : injected (if b then send_permissions caps p else []) = [].
Proof. destruct b; [apply injected_permissions|done]. Qed.
Lemma enqueue_Forall (P : InputEvent → Prop) jobs room out ok : enqueue jobs room = (out, ok) → Forall P (concat jobs) → Forall P (injected out).
Proof.
  unfold enqueue. destruct room as [n|]; intros [= <- _] H; rewrite injected_jobs; [|done]. rewrite <- (take_drop n jobs), concat_app in H. by apply Forall_app in H as [? _].
Qed.
Lemma enqueue_all jobs room out : enqueue jobs room = (out, true) → injected out = concat jobs.
Proof. unfold enqueue. destruct room as [n|]; intros [= <-]; rewrite injected_jobs; [|done]. rewrite take_ge; [done|]. by apply Nat.leb_le. Qed.
Lemma inject_batch_concat events : concat (inject_batch events) = events.
Proof. destruct events; [done|]. cbn. by rewrite app_nil_r. Qed.
Lemma inject_each_concat events : concat (inject_each events) = events.
Proof. induction events as [|e es IH]; [done|]. cbn. by f_equal. Qed.

Lemma udp_permitted c datagrams order jobs : udp_jobs c datagrams = (order, jobs) → Forall (permitted (cn_effective c)) (concat jobs).
Proof.
  revert c order jobs. induction datagrams as [|[header payload] rest IH]; intros c order jobs; cbn [udp_jobs]; [by intros [= _ <-]|].
  destruct (packet_type header); try apply IH. destruct (cap_contains _ UDP_INPUT); [|apply IH]. destruct (InputBatch_decode payload) as [b|] eqn:Eb; [|apply IH].
  destruct (accept b false (cn_order c)) as [o events] eqn:Ea. destruct (udp_jobs (with_order o c) rest) as [o' more] eqn:Er. intros [= _ <-].
  rewrite concat_app. apply Forall_app. split; [|by apply (IH _ _ _ Er)].
  assert (Forall (permitted (cn_effective c)) (permitted_motions (cn_effective c) events)) by (eapply motions_permitted, accept_motion; [exact Ea|by eapply decode_motion]).
  destruct (cap_contains _ INPUT_ECHO); [by rewrite inject_batch_concat|by rewrite inject_each_concat].
Qed.

(** ** What stays held *)

(** Nothing is held that the permissions do not cover. *)
Definition held_ok (p : GuestPermissions) (events : list InputEvent) : Prop :=
  (gp_keyboard p = false → keys_replay events ∅ = ∅) ∧ (gp_mouse p = false → buttons_replay events ∅ = ∅).
Lemma held_nil p : held_ok p [].
Proof. done. Qed.
Lemma held_reset p events : held_ok p (events ++ [reset_event]).
Proof. split; intros _; unfold keys_replay, buttons_replay; by rewrite foldl_app. Qed.
Lemma held_step p events e : permitted p e → held_ok p events → held_ok p (events ++ [e]).
Proof.
  intros [Ha _] [Hk Hb]. unfold held_ok, keys_replay, buttons_replay in *. rewrite !foldl_app. cbn [foldl]. split; intros Hp.
  - rewrite (Hk Hp). unfold keys_after. unfold allows in Ha. rewrite Hp in Ha. destruct (event_type e); try done; set_solver.
  - rewrite (Hb Hp). unfold held_buttons_after. unfold allows in Ha. rewrite Hp in Ha. destruct (event_type e); try done; cbn; set_solver.
Qed.
Lemma held_app p events more : Forall (permitted p) more → held_ok p events → held_ok p (events ++ more).
Proof.
  intros H. revert events. induction H as [|e more He _ IH]; intros events Hh; [by rewrite app_nil_r|]. rewrite cons_middle, app_assoc. by apply IH, held_step.
Qed.
Lemma held_grow p q events : shrinks p q = false → held_ok p events → held_ok q events.
Proof.
  unfold shrinks. rewrite !orb_false_iff, !andb_false_iff, !negb_false_iff. intros [[Hk Hm] _] [H1 H2]. split; intros E; [apply H1|apply H2]; naive_solver congruence.
Qed.

Definition is_reset (e : InputEvent) : Prop := event_type e = Reset.

(** ** A turn *)

(** What a turn, or an input packet, leaves as it is. *)
Definition same_guest (c c' : Conn) : Prop :=
  cn_identity c' = cn_identity c ∧ cn_state c' = cn_state c ∧ cn_granted c' = cn_granted c ∧ cn_provisional c' = cn_provisional c ∧
  cn_trust c' = cn_trust c ∧ cn_guest c' = cn_guest c ∧ cn_clipboard_sync c' = cn_clipboard_sync c.

Section turn.
Context (cfg : HostConfig).

Lemma guest_turn_spec now policy datagrams room commands c c' out go : guest_turn cfg now policy datagrams room commands c = (c', out, go) →
  same_guest c c' ∧ Forall (permitted (cn_effective c')) (injected out) ∧
  (∀ events, held_ok (cn_effective c) events → held_ok (cn_effective c') (events ++ injected out)) ∧
  (go = false ∧ Forall is_reset (injected out) ∨
   cn_effective c' = intersect (cn_grant c') (permission_ceiling cfg policy (cn_clipboard_sync c')) ∧ cn_grant c' = (receive_commands (cn_peer_caps c) commands (cn_grant c)).1.1).
Proof.
  unfold guest_turn. destruct (receive_commands _ _ _) as [[grant told] ending] eqn:Er.
  assert (injected told = []) as Ht.
  { revert grant told ending Er. generalize (cn_grant c). induction commands as [|[r|st|p] cs IH]; intros g grant told ending; cbn [receive_commands].
    - by intros [= _ <- _].
    - by intros [= _ <- _].
    - destruct (receive_commands _ cs g) as [[g1 o1] e1] eqn:E1. intros [= _ <- _]. specialize (IH _ _ _ _ E1). by destruct (cap_contains _ _).
    - by intros ?%IH. }
  cbv zeta. destruct (match cn_trust (with_grant grant c) with Owner => _ | _ => _ end) as [reason|].
  { intros [= <- <- <-]. rewrite injected_app, Ht, injected_end. split_and!; [done|done|by intros; rewrite app_nil_r|by left]. }
  set (current := intersect _ _). set (c1 := with_grant grant c). destruct (enqueue (if _ && _ then _ else _) room) as [resets ok1] eqn:E1.
  assert (injected resets = [] ∨ injected resets = [reset_event]) as Hr.
  { unfold enqueue in E1. destruct (_ && _); destruct room as [[|[|n]]|]; injection E1 as <- _; auto. }
  destruct ok1; cbn [negb].
  2:{ intros [= <- <- <-]. rewrite injected_app, Ht. split_and!; [done| |intros events Hh|left; split; [done|]]; destruct Hr as [->| ->]; try done.
    - by repeat constructor.
    - by rewrite app_nil_r.
    - apply held_reset.
    - by repeat constructor. }
  destruct (udp_jobs _ datagrams) as [order jobs] eqn:Eu. destruct (enqueue jobs _) as [inj ok2] eqn:E2. intros [= <- <- <-].
  rewrite !injected_app, Ht, injected_told. cbn [app]. assert (Forall (permitted current) (injected inj)) as Hi by (eapply enqueue_Forall; [exact E2|]; apply (udp_permitted _ _ _ _ Eu)).
  split_and!; [done| |intros events Hh|by right].
  - apply Forall_app. split; [|exact Hi]. destruct Hr as [->| ->]; by repeat constructor.
  - rewrite app_assoc. apply held_app; [exact Hi|]. change (held_ok current (events ++ injected resets)).
    apply enqueue_all in E1. rewrite E1. destruct (bool_decide (current = cn_effective c1)) eqn:Ec; cbn [negb andb concat app].
    + apply bool_decide_eq_true in Ec. rewrite Ec, app_nil_r. exact Hh.
    + destruct (shrinks (cn_effective c1) current) eqn:Es; cbn [concat app]; [apply held_reset|]. rewrite app_nil_r. by apply (held_grow (cn_effective c1)).
Qed.
End turn.

(** ** Steps of a connection *)

(** Being let in. *)
Definition admitting (pc : Pc) : bool := match pc with PcTurn | PcPacket _ | PcEnd | PcClosed => false | _ => true end.
Definition closed (pc : Pc) : bool := match pc with PcClosed => true | _ => false end.
Definition ended (pc : Pc) : bool := match pc with PcEnd | PcClosed => true | _ => false end.

Section steps.
Context (cfg : HostConfig).

Record conn_ok (c : Conn) (events : list InputEvent) : Prop := {
  co_effective : cn_state c = Authenticated → ended (cn_pc c) = false → ∃ policy, cn_effective c = intersect (cn_grant c) (permission_ceiling cfg policy (cn_clipboard_sync c));
  co_admitting : admitting (cn_pc c) = true → cn_state c ≠ Authenticated;
  co_silent : cn_state c ≠ Authenticated → closed (cn_pc c) = false → events = [];
  co_held : held_ok (cn_effective c) events;
}.
Lemma unauthenticated_ok c : cn_state c ≠ Authenticated → conn_ok c [].
Proof. intros H. split; [done|done|done|apply held_nil]. Qed.
(** A step of a connection that is not authenticated: it injects nothing, and when it authenticates
    its permissions are within the grant and the ceiling. *)
Definition quiet_step (c c' : Conn) (out : list Effect) : Prop :=
  (cn_state c' = Closed → cn_state c = Closed) ∧ injected out = [] ∧ closed (cn_pc c') = false ∧
  (cn_state c' = Authenticated → cn_pc c' = PcTurn ∧ ∃ policy, cn_effective c' = intersect (cn_grant c') (permission_ceiling cfg policy (cn_clipboard_sync c'))).
Lemma quiet_conn_same c0 c pc out : cn_state c = cn_state c0 → cn_state c0 ≠ Authenticated → injected out = [] → closed pc = false → quiet_step c0 (at_pc pc c) out.
Proof. intros E H Ho Hp. unfold quiet_step. cbn. rewrite E. by split_and!. Qed.

Lemma finish_pairing_quiet in_time now id key name approval c c' out : cn_state c ≠ Authenticated →
  finish_pairing cfg in_time now id key name approval c = (c', out) → quiet_step c c' out.
Proof.
  intros Hs. unfold finish_pairing. destruct approval as [[trust|]|]; [|by destruct in_time; intros [= <- <-]; apply quiet_conn_same|by intros [= <- <-]; apply quiet_conn_same].
  destruct in_time; [|by intros [= <- <-]; apply quiet_conn_same]. cbn [negb]. destruct (PairingTrust_encode trust); [|by intros [= <- <-]; apply quiet_conn_same].
  destruct (_ && _); [by intros [= <- <-]; apply quiet_conn_same|]. destruct (PairingGrant_encode _); [|by intros [= <- <-]; apply quiet_conn_same]. intros [= <- <-]. split_and!; try done.
Qed.
Lemma authorize_quiet now io h record fresh c s c' out : cn_state c ≠ Authenticated → authorize cfg now io h record fresh c s = (c', out) → quiet_step c c' out.
Proof.
  intros Hs. unfold authorize. destruct (if fresh then _ else _) as [[trust p]|]; [|by intros [= <- <-]; apply quiet_conn_same].
  destruct (_ || _ || _); [by intros [= <- <-]; apply quiet_conn_same|]. destruct (Handshake_encode _); [|by intros [= <- <-]; apply quiet_conn_same].
  cbv zeta. destruct (cap_contains _ PAIRING_TRUST); destruct fresh; intros [= <- <-]; by apply quiet_conn_same.
Qed.
Lemma unauthenticated_step i c s c' s' out : cn_state c ≠ Authenticated → ended (cn_pc c) = false → conn_step cfg i c s = Some (c', s', out) → quiet_step c c' out.
Proof.
  intros Hs He. unfold conn_step. destruct (cn_pc c) as [|packet|r n|r n a|h rec fresh|rec|rec fresh|rec|rec| |] eqn:Hpc; try done; destruct i; try done;
    try (intros [= <- <- <-]; by apply quiet_conn_same).
  - unfold turn. rewrite (bool_decide_false _ Hs). destruct stop; intros [= <- <- <-]; apply quiet_conn_same; try done. by destruct packet.
  - unfold packet_step. destruct (split_packet packet) as [[header payload]|]; [|intros [= <- <- <-]; by apply quiet_conn_same].
    destruct (negb (state_allows _ _)) eqn:Ea; [intros [= <- <- <-]; apply quiet_conn_same; try done; by destruct (cn_state c), (packet_type header)|].
    destruct (packet_type header); try (by destruct (cn_state c)); try (intros [= <- <- <-]; by apply quiet_conn_same).
    + unfold handshake. destruct (Handshake_decode _); [|intros [= <- <- <-]; by apply quiet_conn_same]. destruct (cn_provisional c); [intros [= <- <- <-]; by apply quiet_conn_same|].
      destruct (load _ _ _) as [[?|]|]; intros [= <- <- <-]; by apply quiet_conn_same.
    + unfold pairing_request. destruct (_ || _); [intros [= <- <- <-]; by apply quiet_conn_same|]. destruct (PairingRequest_decode _); [|intros [= <- <- <-]; by apply quiet_conn_same].
      destruct (_ && _); intros [= <- <- <-]; by apply quiet_conn_same.
  - destruct (finish_pairing _ _ _ _ _ _ _ _) as [c1 out1] eqn:E. intros [= <- <- <-]. by eapply finish_pairing_quiet.
  - destruct (authorize _ _ _ _ _ _ _ _) as [c1 out1] eqn:E. intros [= <- <- <-]. by eapply authorize_quiet.
  - unfold trust_request. destruct (split_packet _) as [[header payload]|]; [|intros [= <- <- <-]; by apply quiet_conn_same].
    destruct (packet_type header), (ControlMessage_decode payload) as [[]|]; intros [= <- <- <-]; by apply quiet_conn_same.
  - unfold store_pairing. destruct (_ && _); [|intros [= <- <- <-]; by apply quiet_conn_same]. destruct (negb _); [intros [= <- <- <-]; by apply quiet_conn_same|].
    destruct (set_authorization _ _ _ _ _) as [st []]; intros [= <- <- <-]; by apply quiet_conn_same.
  - destruct (save _ _ _) as [st r]. intros [= <- <- <-]. apply quiet_conn_same; try done. by destruct r.
  - unfold enter. intros [= <- <- <-]. split_and!; [done|apply injected_permissions|done|]. intros _. split; [done|]. by eexists.
Qed.

(** An input packet changes the order of motion only, and injects what is permitted. *)
Definition input_step (c c' : Conn) (out : list Effect) : Prop :=
  same_guest c c' ∧ cn_grant c' = cn_grant c ∧ cn_effective c' = cn_effective c ∧ admitting (cn_pc c') = false ∧ closed (cn_pc c') = false ∧
  Forall (permitted (cn_effective c)) (injected out).
Lemma input_end c pc : admitting pc = false → closed pc = false → input_step c (at_pc pc c) [].
Proof. intros Ha Hc. by split_and!. Qed.
Lemma after_jobs_step jobs room c order c' out : Forall (permitted (cn_effective c)) (concat jobs) → after_jobs jobs room (with_order order c) = (c', out) → input_step c c' out.
Proof.
  intros H. unfold after_jobs. destruct (enqueue jobs room) as [inj ok] eqn:E. intros [= <- <-]. split_and!; try done; [by destruct ok|by destruct ok|by eapply enqueue_Forall].
Qed.
Lemma input_batch_step payload room c c' out : input_batch payload room c = (c', out) → input_step c c' out.
Proof.
  unfold input_batch. destruct (negb _); [intros [= <- <-]; by apply input_end|]. destruct (InputBatch_decode payload) as [b|] eqn:Eb; [|intros [= <- <-]; by apply input_end].
  destruct (accept b true (cn_order c)) as [o events] eqn:Ea. apply after_jobs_step.
  assert (Forall (permitted (cn_effective c)) (permitted_motions (cn_effective c) events)) by (eapply motions_permitted, accept_motion; [exact Ea|by eapply decode_motion]).
  destruct (cap_contains _ INPUT_ECHO); [by rewrite inject_batch_concat|by rewrite inject_each_concat].
Qed.
Lemma input_payload_motions payload c e o motions b : input_payload payload c = Ok (e, o, motions, b) → Forall (permitted (cn_effective c)) motions.
Proof.
  unfold input_payload. destruct (cap_contains _ UDP_INPUT); [|destruct (InputEvent_decode payload); by intros [= _ _ <- _]]. destruct (_ <? _); [done|].
  destruct (InputEvent_decode _) as [e1|]; [|done]. destruct (InputBatch_decode _) as [b1|] eqn:Eb; [|done]. destruct (accept b1 true (cn_order c)) as [o1 events] eqn:Ea.
  intros [= _ _ <- _]. eapply motions_permitted, accept_motion; [exact Ea|by eapply decode_motion].
Qed.
Lemma input_event_step n payload room c c' out : input_event n payload room c = (c', out) → input_step c c' out.
Proof.
  unfold input_event. destruct (input_payload payload c) as [[[[e o] motions] batched]|] eqn:Ep; [|intros [= <- <-]; by apply input_end].
  apply input_payload_motions in Ep. cbv zeta. destruct (allows _ _ && _) eqn:Ea; cbn [negb].
  - apply andb_true_iff in Ea as [Ea _]. rewrite strip_type in Ea. apply after_jobs_step.
    assert (Forall (permitted (cn_effective c)) (motions ++ [strip (cn_effective c) e])) by (apply Forall_app; split; [done|]; by apply Forall_singleton, strip_permitted).
    destruct (_ && batched); [by rewrite inject_batch_concat|]. rewrite concat_app, inject_each_concat. cbn. done.
  - destruct (enqueue _ room) as [inj ok] eqn:Eq. intros [= <- <-]. assert (Forall (permitted (cn_effective c)) (injected inj)) as Hi
      by (eapply enqueue_Forall; [exact Eq|]; by rewrite inject_each_concat).
    split_and!; try done; [by destruct ok|by destruct ok|]. destruct (cap_contains _ INPUT_ECHO); [exact Hi|]. rewrite injected_app. apply Forall_app. split; [exact Hi|by destruct ok].
Qed.
Lemma guest_step_input_ok c c' out events : cn_state c = Authenticated → ended (cn_pc c) = false → conn_ok c events → input_step c c' out → conn_ok c' (events ++ injected out).
Proof.
  intros Hs He [H1 _ _ H4] (Hg & Hgr & Heff & Ha & Hcl & Hp). assert (cn_state c' = Authenticated) as Hs' by (destruct Hg as (_ & -> & _); exact Hs). split.
  - intros _ _. rewrite Heff, Hgr. destruct Hg as (_ & _ & _ & _ & _ & _ & ->). by apply H1.
  - by rewrite Ha.
  - done.
  - rewrite Heff. by apply held_app.
Qed.

(** The permissions in force are those granted as far as the host lets them. *)
Definition within (c : Conn) : Prop := ∃ policy, cn_effective c = intersect (cn_grant c) (permission_ceiling cfg policy (cn_clipboard_sync c)).
Definition guest_step (c c' : Conn) (out : list Effect) (events : list InputEvent) : Prop :=
  same_guest c c' ∧ Forall (permitted (cn_effective c')) (injected out) ∧ (Forall is_reset (injected out) ∨ within c') ∧
  conn_ok c' (events ++ injected out) ∧ admitting (cn_pc c') = false ∧ closed (cn_pc c') = false.
Lemma authenticated_step i c s c' s' out events : cn_state c = Authenticated → ended (cn_pc c) = false → conn_ok c events → conn_step cfg i c s = Some (c', s', out) →
  guest_step c c' out events.
Proof.
  intros Hs He Hok. pose proof (co_admitting _ _ Hok) as Ha. assert (input_step c c' out → guest_step c c' out events) as Hin.
  { intros H. pose proof (guest_step_input_ok _ _ _ _ Hs He Hok H) as H'. destruct H as (Hsame & Hgr & E & ? & ? & ?). unfold guest_step, within. rewrite E, Hgr.
    destruct Hsame as (? & ? & ? & ? & ? & ? & Hsync). rewrite Hsync. split_and!; try done. right. by apply (co_effective _ _ Hok). }
  unfold conn_step. destruct (cn_pc c) as [|packet|r n|r n a|h rec fresh|rec|rec fresh|rec|rec| |] eqn:Hpc; try done; try (by destruct (Ha eq_refl)); destruct i; try done;
    try (intros [= <- <- <-]; apply Hin, input_end; done).
  - intros H. injection H as H. revert H. unfold turn. rewrite (bool_decide_true _ Hs). cbn [negb]. destruct stop.
    { intros [= <- <- <-]. apply Hin. by split_and!. }
    destruct (match packet with Some p => _ | None => _ end) as [[]|]; try (intros [= <- <- <-]; apply Hin, input_end; done).
    destruct (guest_turn _ _ _ _ _ _ _) as [[c1 out1] go] eqn:Eg. intros [= <- <- <-]. destruct (guest_turn_spec _ _ _ _ _ _ _ _ _ _ Eg) as (Hg & Hp & Hh & Hgo).
    split; [done|]. split; [done|]. split; [destruct Hgo as [[_ ?]|[? _]]; [by left|right; by exists policy]|]. split; [|by destruct go; [destruct packet|]]. split.
    + intros _ Hend. destruct go; [|done]. exists policy. by destruct Hgo as [[? _]|[? _]].
    + intros H. by destruct go; [destruct packet|].
    + intros H. destruct Hg as (_ & E & _). destruct H. by cbn; rewrite E.
    + apply Hh, Hok.
  - unfold packet_step. destruct (split_packet packet) as [[header payload]|]; [|intros [= <- <- <-]; apply Hin, input_end; done]. rewrite Hs.
    destruct (packet_type header); cbn [state_allows negb]; try (intros [= <- <- <-]; apply Hin, input_end; done).
    + destruct (input_event _ _ _ _) as [c1 o1] eqn:E. intros [= <- <- <-]. apply Hin. by eapply input_event_step.
    + intros [= <- <- <-]. apply Hin. unfold control. destruct (ControlMessage_decode payload); [|by apply input_end]. destruct (supported_by _ _ _); by apply input_end.
    + destruct (input_batch _ _ _) as [c1 o1] eqn:E. intros [= <- <- <-]. apply Hin. by eapply input_batch_step.
Qed.

Lemma conn_step_ok i c s c' s' out events : conn_ok c events → conn_step cfg i c s = Some (c', s', out) →
  conn_ok c' (events ++ injected out) ∧ Forall (λ e, is_reset e ∨ cn_state c = Authenticated ∧ permitted (cn_effective c') e ∧ within c') (injected out).
Proof.
  intros Hok Hst. destruct (ended (cn_pc c)) eqn:He.
  - revert Hst. unfold conn_step. destruct (cn_pc c); try done; destruct i; try done. intros [= <- <- <-]. split; [|by repeat constructor]. split; try done. apply held_reset.
  - destruct (decide (cn_state c = Authenticated)) as [Hs|Hs].
    + destruct (authenticated_step _ _ _ _ _ _ _ Hs He Hok Hst) as (_ & Hp & Hw & Hok' & _). split; [done|]. apply Forall_forall. intros e Hin.
      destruct Hw as [Hr|Hw]; [left; by eapply Forall_forall in Hr|]. right. split_and!; [done| |done]. by eapply Forall_forall in Hp.
    + destruct (unauthenticated_step _ _ _ _ _ _ Hs He Hst) as (_ & Ho & Hcl & Hau). rewrite Ho, app_nil_r. split; [|done].
      rewrite (co_silent _ _ Hok Hs) in *; [|by destruct (cn_pc c)]. destruct (decide (cn_state c' = Authenticated)) as [Ha|Ha]; [|by apply unauthenticated_ok].
      destruct (Hau Ha) as [Hpc Hw]. split; [done|by rewrite Hpc|done|apply held_nil].
Qed.

(** ** Every run *)

Definition inputs_ok (w : World) : Prop := ∀ c cn, w_conns w !! c = Some cn → conn_ok cn (default [] (w_injected w !! c)).
Lemma inputs_start st : inputs_ok (world0 st).
Proof. intros c cn H. cbn in H. by rewrite lookup_empty in H. Qed.
Lemma inputs_same w w' : w_conns w' = w_conns w → w_injected w' = w_injected w → inputs_ok w → inputs_ok w'.
Proof. unfold inputs_ok. by intros -> ->. Qed.
Lemma step_conn c i w w' out : step cfg (SConn c i) w = Some (w', out) → ∃ cn cn' s', w_conns w !! c = Some cn ∧ ids_fresh i w = true ∧
  conn_step cfg i cn (w_shared w) = Some (cn', s', out) ∧
  w' = mk_World (<[c := cn']> (w_conns w)) s' (w_owners w) (<[c := default [] (w_injected w !! c) ++ injected out]> (w_injected w))
         (asks c cn' ++ w_asked w) (w_answers w) (loads c cn' ++ w_loaded w) (checks c i cn (w_shared w) ++ w_checked w).
Proof.
  unfold step. intros (cn & Hc & H)%bind_Some. destruct (ids_fresh i w); [|done]. cbn [negb] in H. apply bind_Some in H as ([[cn' s'] o] & Hst & H). injection H as <- <-.
  by exists cn, cn', s'.
Qed.
(** A step that is not of a connection leaves connections and what they injected. *)
Lemma step_other x w w' out : step cfg x w = Some (w', out) → match x with SAccept _ _ _ | SConn _ _ => True | _ =>
  w_conns w' = w_conns w ∧ w_injected w' = w_injected w ∧ w_asked w' = w_asked w ∧ w_loaded w' = w_loaded w ∧ w_checked w' = w_checked w end.
Proof.
  destruct x; try done; cbn [step].
  - by intros [= <- _].
  - intros (pc & _ & H)%bind_Some. destruct (set_guest_permissions _ _ _). by injection H as <- _.
  - destruct (respond _ _ _ _) as [s' []]; by intros [= <- _].
  - destruct (answer _ _ _) as [s' []]; by intros [= <- _].
  - by intros [= <- _].
  - by intros [= <- _].
  - by intros [= <- _].
Qed.
Lemma inputs_step x w w' out : inputs_ok w → step cfg x w = Some (w', out) → inputs_ok w'.
Proof.
  intros Hw Hst. pose proof (step_other _ _ _ _ Hst) as Ho. destruct x as [c identity policy|c i|o pid p|o io|r t now|r t|io pid|g|];
    try (destruct Ho as (H1 & H2 & _); by apply (inputs_same w)).
  - cbn [step] in Hst. destruct (w_conns w !! c) eqn:Hc; [done|]. injection Hst as <- _. intros d cn. cbn. destruct (decide (c = d)) as [<-|Hd].
    + rewrite !lookup_insert_eq. intros [= <-]. by apply unauthenticated_ok.
    + rewrite !lookup_insert_ne by done. apply Hw.
  - destruct (step_conn _ _ _ _ _ Hst) as (cn & cn' & s' & Hc & _ & Hcs & ->). intros d dn. cbn. destruct (decide (c = d)) as [<-|Hd].
    + rewrite !lookup_insert_eq. intros [= <-]. by apply (conn_step_ok _ _ _ _ _ _ _ (Hw _ _ Hc) Hcs).
    + rewrite !lookup_insert_ne by done. apply Hw.
Qed.
Lemma inputs_reachable st w : reachable cfg st w → inputs_ok w.
Proof. induction 1 as [|w x w' out _ IH Hst]; [apply inputs_start|by eapply inputs_step]. Qed.
End steps.

(** ** Admission *)

(** How a connection may have got in: with the identity of a pairing that it loaded from the store and
    that the store said to be trusted, or, over the pairing identity, with a request of its own that
    the owner answered with that trust. *)
Definition admitted (w : World) (c : conn) (identity id : String) (trust : PairingTrust) : Prop :=
  (identity = PAIRING_IDENTITY_PREFIX ++ id ∧ (∃ record, (c, record) ∈ w_loaded w ∧ rec_id record = id) ∧
   ∃ now, (c, id, trust, now) ∈ w_checked w ∧ valid_trust trust now = true) ∨
  (identity = BOOTSTRAP_IDENTITY ∧ ∃ r, (c, r) ∈ w_asked w ∧ (r, Some trust) ∈ w_answers w).
Definition state_ok (w : World) (c : conn) (cn : Conn) : Prop :=
  match cn_state cn with
  | PreAuth => cn_granted cn = None ∧ cn_provisional cn = None
  | PairingGranted => ∃ record, cn_provisional cn = Some record ∧ cn_granted cn = Some (rec_id record) ∧ cn_identity cn = BOOTSTRAP_IDENTITY ∧
      admitted w c (cn_identity cn) (rec_id record) (cn_trust cn)
  | Authenticated => ∃ g, cn_guest cn = Some g ∧ gs_trust g = cn_trust cn ∧ admitted w c (cn_identity cn) (gs_pairing_id g) (cn_trust cn)
  | Closed => True
  end.
Definition pc_ok (w : World) (c : conn) (cn : Conn) : Prop :=
  match cn_pc cn with
  | PcConsent r _ => cn_state cn = PreAuth ∧ cn_identity cn = BOOTSTRAP_IDENTITY ∧ (c, r) ∈ w_asked w
  | PcFinish r _ a => cn_state cn = PreAuth ∧ cn_identity cn = BOOTSTRAP_IDENTITY ∧ (c, r) ∈ w_asked w ∧ ∀ t, a = Some t → (r, t) ∈ w_answers w
  | PcAuthorize h record fresh => cn_provisional cn = (if fresh then Some record else None) ∧
      (fresh = false → (c, record) ∈ w_loaded w ∧ rec_id record = hs_pairing_id h)
  | PcTrust record | PcStore record _ | PcSave record | PcJoin record => admitted w c (cn_identity cn) (rec_id record) (cn_trust cn)
  | _ => True
  end.
Definition adm_ok (w : World) (c : conn) (cn : Conn) : Prop := state_ok w c cn ∧ pc_ok w c cn.

(** The record only grows. *)
Definition grows (w w' : World) : Prop :=
  w_asked w ⊆ w_asked w' ∧ w_answers w ⊆ w_answers w' ∧ w_loaded w ⊆ w_loaded w' ∧ w_checked w ⊆ w_checked w'.
Lemma admitted_mono w w' c i id t : grows w w' → admitted w c i id t → admitted w' c i id t.
Proof. intros (H1 & H2 & H3 & H4) [(? & (rec & ? & ?) & now & ? & ?)|(? & r & ? & ?)]; [left|right]; split; eauto 10. Qed.
Lemma adm_mono w w' c cn : grows w w' → adm_ok w c cn → adm_ok w' c cn.
Proof.
  intros Hg [Hs Hp]. pose proof (λ i id t, admitted_mono w w' c i id t Hg) as Hm. destruct Hg as (H1 & H2 & H3 & H4). split.
  - unfold state_ok in *. destruct (cn_state cn); [done| | |done]; destruct Hs as (x & Hs); exists x; intuition auto.
  - unfold pc_ok in *. destruct (cn_pc cn); intuition auto.
Qed.
(** Where a connection that is not authenticated goes on without a change, or ends. *)
Lemma adm_pc w c cn pc : state_ok w c cn → pc_ok w c (at_pc pc cn) → adm_ok w c (at_pc pc cn).
Proof. by split. Qed.

Lemma identity_cases h cn : identity_ok h cn = true →
  cn_identity cn = PAIRING_IDENTITY_PREFIX ++ hs_pairing_id h ∨ cn_identity cn = BOOTSTRAP_IDENTITY ∧ cn_granted cn = Some (hs_pairing_id h).
Proof.
  unfold identity_ok, strip_identity. case_bool_decide as Ht.
  - intros <-%bool_decide_eq_true. left. rewrite <- Ht at 1. by rewrite take_drop.
  - intros [Hb%bool_decide_eq_true Hg]%andb_true_iff. right. destruct (cn_granted cn); [|done]. by apply bool_decide_eq_true in Hg as ->.
Qed.

Section admission.
Context (cfg : HostConfig).

(** A step of a connection that is not yet authenticated keeps what is known of its admission. *)
Lemma finish_pairing_adm w c in_time now id key name r approval cn cn' out :
  state_ok w c cn → cn_state cn = PreAuth → cn_identity cn = BOOTSTRAP_IDENTITY → (c, r) ∈ w_asked w → (∀ t, approval = Some t → (r, t) ∈ w_answers w) →
  finish_pairing cfg in_time now id key name approval cn = (cn', out) → adm_ok w c cn'.
Proof.
  intros Hs Hpre Hid Hr Ha. unfold finish_pairing. destruct approval as [[trust|]|]; [|by destruct in_time; intros [= <- _]; apply adm_pc|by intros [= <- _]; apply adm_pc].
  destruct in_time; [|by intros [= <- _]; apply adm_pc]. cbn [negb]. destruct (PairingTrust_encode trust); [|by intros [= <- _]; apply adm_pc].
  destruct (_ && _); [by intros [= <- _]; apply adm_pc|]. cbv zeta. destruct (PairingGrant_encode _).
  - intros [= <- _]. split; [|done]. unfold state_ok. cbn. eexists. split_and!; [done|done|done|]. right. split; [done|]. exists r. auto.
  - intros [= <- _]. split; [|done]. unfold state_ok in *. cbn. by rewrite Hpre in *.
Qed.
Lemma authorize_adm w c now io h record fresh cn s cn' out : state_ok w c cn → pc_ok w c cn → cn_pc cn = PcAuthorize h record fresh → cn_state cn ≠ Authenticated → cn_state cn ≠ Closed →
  (∀ t p, authorization io (rec_id record) (sh_store s) = Ok (t, p) → fresh = false → (c, rec_id record, t, now) ∈ w_checked w) →
  authorize cfg now io h record fresh cn s = (cn', out) → adm_ok w c cn'.
Proof.
  intros Hs Hp Hpc Hna Hnc Hchk. unfold pc_ok in Hp. rewrite Hpc in Hp. destruct Hp as [Hprov Hload].
  assert (∀ caps sync g, let x := with_caps caps sync (with_grant g (with_trust (cn_trust cn) cn)) in state_ok w c x) as Hsame by (intros; unfold state_ok in *; cbn; by destruct (cn_state cn)).
  assert (∀ y, fresh = false → cn_state y = cn_state cn → cn_granted y = cn_granted cn → cn_provisional y = cn_provisional cn → state_ok w c y) as Hpre.
  { intros y -> E1 E2 E3. unfold state_ok in *. rewrite E1, E2, E3. destruct (cn_state cn); try done. destruct Hs as (? & ? & _). congruence. }
  unfold authorize. destruct fresh.
  - assert (cn_state cn = PairingGranted) as Hst by (unfold state_ok in Hs; destruct (cn_state cn); [destruct Hs; congruence|done|done|done]).
    assert (admitted w c (cn_identity cn) (rec_id record) (cn_trust cn)) as Hadm.
    { unfold state_ok in Hs. rewrite Hst in Hs. destruct Hs as (r & E & _ & _ & Ha). rewrite Hprov in E. by injection E as <-. }
    destruct (_ || _ || _); [intros [= <- _]; split; [apply (Hsame (cn_peer_caps cn) (cn_clipboard_sync cn))|done]|].
    destruct (Handshake_encode _); [|intros [= <- _]; split; [apply Hsame|done]]. cbv zeta. rewrite andb_true_r.
    destruct (cap_contains _ PAIRING_TRUST); intros [= <- _]; (split; [apply Hsame|exact Hadm]).
  - destruct (authorization io (rec_id record) (sh_store s)) as [[trust p]|] eqn:Eau; [|intros [= <- _]; by split; [apply Hpre|]].
    destruct (valid_trust trust now) eqn:Ev; [|intros [= <- _]; by split; [apply Hpre|]]. destruct (Hload eq_refl) as [Hl Hid]. specialize (Hchk _ _ eq_refl eq_refl).
    destruct (identity_ok h _) eqn:Eid; cbn [negb orb]; [|intros [= <- _]; by split; [apply Hpre|]].
    assert (admitted w c (cn_identity cn) (rec_id record) trust) as Hadm.
    { apply identity_cases in Eid as [E|[_ Hg]]; cbn in *; [left; rewrite Hid, E; split_and!; [done|by exists record|exists now; by rewrite <- Hid]|].
      unfold state_ok in Hs. destruct (cn_state cn); try done; [destruct Hs; congruence|destruct Hs as (? & ? & _); congruence]. }
    destruct (_ || _); [intros [= <- _]; by split; [apply Hpre|]|]. destruct (Handshake_encode _); [|intros [= <- _]; by split; [apply Hpre|]]. cbv zeta. rewrite andb_false_r.
    intros [= <- _]. split; [by apply Hpre|exact Hadm].
Qed.

Lemma load_id io id st record : load io id st = Ok (Some record) → rec_id record = id.
Proof. unfold load. destruct (read_records io); [|done]. intros [= H]. apply find_some in H as [_ H]. by apply bool_decide_eq_true in H. Qed.
Lemma packet_adm w c active r expires prompted io room packet cn s cn' s' out : state_ok w c cn → cn_state cn ≠ Authenticated → cn_state cn ≠ Closed →
  packet_step cfg active r expires prompted io room packet cn s = (cn', s', out) → asks c cn' ⊆ w_asked w → loads c cn' ⊆ w_loaded w → adm_ok w c cn'.
Proof.
  intros Hs Hna Hnc. assert (∀ pc, pc_ok w c (at_pc pc cn) → adm_ok w c (at_pc pc cn)) as Hpc by (intros; by apply adm_pc).
  unfold packet_step. destruct (split_packet packet) as [[header payload]|]; [|intros [= <- _ _] _ _; by apply Hpc].
  destruct (negb (state_allows _ _)) eqn:Ea; [intros [= <- _ _] _ _; apply Hpc; by destruct (cn_state cn), (packet_type header)|].
  destruct (packet_type header); try (by destruct (cn_state cn)); try (intros [= <- _ _] _ _; by apply Hpc).
  - unfold handshake. destruct (Handshake_decode payload) as [h|]; [|intros [= <- _ _] _ _; by apply Hpc]. destruct (cn_provisional cn) as [rec|] eqn:Ep.
    + intros [= <- _ _] _ _. by apply Hpc.
    + destruct (load _ _ _) as [[rec|]|] eqn:El; intros [= <- _ _] _ Hl; apply Hpc; try done. split; [done|]. intros _. split; [apply Hl; by apply elem_of_cons; left|by eapply load_id].
  - unfold pairing_request. destruct (bool_decide (cn_identity cn = _)) eqn:Ei; cbn [negb orb]; [|intros [= <- _ _] _ _; by apply Hpc]. apply bool_decide_eq_true in Ei.
    destruct (negb active); [intros [= <- _ _] _ _; by apply Hpc|]. destruct (PairingRequest_decode payload); [|intros [= <- _ _] _ _; by apply Hpc].
    destruct (_ && _); intros [= <- _ _] Hk _; apply Hpc; [done|]. unfold pc_ok. cbn. split_and!; [by destruct (cn_state cn)|done|]. apply Hk. by apply elem_of_cons; left.
Qed.
Lemma unauthenticated_adm w c i cn s cn' s' out : adm_ok w c cn → cn_state cn ≠ Authenticated → cn_state cn ≠ Closed → ended (cn_pc cn) = false →
  conn_step cfg i cn s = Some (cn', s', out) → (∀ r t, sh_slots s !! r = Some (Some t) → (r, t) ∈ w_answers w) →
  asks c cn' ⊆ w_asked w → loads c cn' ⊆ w_loaded w → checks c i cn s ⊆ w_checked w → adm_ok w c cn'.
Proof.
  intros [Hs Hp] Hna Hnc He Hst Hslots Hk Hl Hc. assert (∀ pc, pc_ok w c (at_pc pc cn) → adm_ok w c (at_pc pc cn)) as Hpc by (intros; by apply adm_pc).
  revert Hst. unfold conn_step. destruct (cn_pc cn) as [|packet|r n|r n a|h rec fresh|rec|rec fresh|rec|rec| |] eqn:Epc; try done; destruct i; try done;
    try (intros [= <- _ _]; by apply Hpc).
  - unfold turn. rewrite (bool_decide_false _ Hna). destruct stop; intros [= <- _ _]; apply Hpc; [done|]. by destruct packet.
  - intros [= H]. by eapply packet_adm.
  - intros [= <- _ _]. apply Hpc. unfold pc_ok in *. rewrite Epc in Hp. cbn. destruct Hp as (? & ? & ?). split_and!; try done. intros t Ht. apply Hslots.
    destruct (sh_slots s !! r) as [[]|]; cbn in Ht; congruence.
  - destruct (finish_pairing _ _ _ _ _ _ _ _) as [c1 o1] eqn:E. intros [= <- _ _]. unfold pc_ok in Hp. rewrite Epc in Hp. destruct Hp as (? & ? & ? & ?). by eapply finish_pairing_adm.
  - destruct (authorize _ _ _ _ _ _ _ _) as [c1 o1] eqn:E. intros [= <- _ _]. eapply authorize_adm; try done. intros t p Ht ->. apply Hc. unfold checks. rewrite Epc, Ht. by apply elem_of_cons; left.
  - unfold trust_request. unfold pc_ok in Hp. rewrite Epc in Hp. destruct (split_packet _) as [[header payload]|]; [|intros [= <- _ _]; by apply Hpc].
    destruct (packet_type header), (ControlMessage_decode payload) as [[]|]; intros [= <- _ _]; by apply Hpc.
  - unfold store_pairing. unfold pc_ok in Hp. rewrite Epc in Hp. destruct (_ && _); [|intros [= <- _ _]; by apply Hpc]. destruct (negb _); [intros [= <- _ _]; by apply Hpc|].
    destruct (set_authorization _ _ _ _ _) as [st []]; intros [= <- _ _]; by apply Hpc.
  - unfold pc_ok in Hp. rewrite Epc in Hp. destruct (save _ _ _) as [st []]; intros [= <- _ _]; by apply Hpc.
  - unfold pc_ok in Hp. rewrite Epc in Hp. unfold enter. intros [= <- _ _]. split; [|done]. unfold state_ok. cbn. eexists. by split_and!.
Qed.

(** An answer waits in a slot only when the owner gave it. *)
Definition slots_ok (w : World) : Prop := ∀ r t, sh_slots (w_shared w) !! r = Some (Some t) → (r, t) ∈ w_answers w.
Lemma conn_step_slots i c s c' s' out r t : conn_step cfg i c s = Some (c', s', out) → sh_slots s' !! r = Some (Some t) → sh_slots s !! r = Some (Some t).
Proof.
  assert (∀ k (m : gmap String (option (option PairingTrust))), delete k m !! r = Some (Some t) → m !! r = Some (Some t)) as Hd by (intros k m; rewrite lookup_delete_Some; tauto).
  assert (∀ k (m : gmap String (option (option PairingTrust))), <[k := None]> m !! r = Some (Some t) → m !! r = Some (Some t)) as Hi
    by (intros k m; rewrite lookup_insert_Some; naive_solver).
  unfold conn_step. destruct (cn_pc c) as [|packet|q n|q n a|h rec fresh|rec|rec fresh|rec|rec| |]; try done; destruct i; try done; try (by intros [= _ <- _]).
  - unfold turn, take_commands. destruct stop; [by intros [= _ <- _]|]. destruct (negb _); [by intros [= _ <- _]|]. destruct (match packet with Some p => _ | None => _ end) as [[]|]; try (by intros [= _ <- _]).
    destruct (guest_turn _ _ _ _ _ _ _) as [[??]?]. intros [= _ <- _]. destruct (cn_guest c) as [g|]; [|done]. by destruct (sh_sessions s !! gs_id g).
  - unfold packet_step. destruct (split_packet packet) as [[header payload]|]; [|by intros [= _ <- _]]. destruct (negb (state_allows _ _)); [by intros [= _ <- _]|].
    destruct (packet_type header); try (by intros [= _ <- _]).
    + unfold handshake. destruct (Handshake_decode _); [|by intros [= _ <- _]]. destruct (cn_provisional c); [by intros [= _ <- _]|]. destruct (load _ _ _) as [[]|]; by intros [= _ <- _].
    + destruct (input_event _ _ _ _). by intros [= _ <- _].
    + unfold pairing_request. destruct (_ || _); [by intros [= _ <- _]|]. destruct (PairingRequest_decode _); [|by intros [= _ <- _]].
      destruct (_ && _); intros [= _ <- _]; cbn; [by intros ?%Hd%Hi|by intros ?%Hi].
    + destruct (input_batch _ _ _). by intros [= _ <- _].
  - intros [= _ <- _]. cbn. apply Hi.
  - destruct (finish_pairing _ _ _ _ _ _ _ _). intros [= _ <- _]. cbn. apply Hd.
  - destruct (authorize _ _ _ _ _ _ _ _). by intros [= _ <- _].
  - destruct (trust_request _ _ _). by intros [= _ <- _].
  - unfold store_pairing. destruct (_ && _); [|by intros [= _ <- _]]. destruct (negb _); [by intros [= _ <- _]|]. destruct (set_authorization _ _ _ _ _) as [st []]; by intros [= _ <- _].
  - destruct (save _ _ _). by intros [= _ <- _].
  - intros [= _ <- _]. destruct (cn_guest c) as [g|]; [|done]. unfold leave. by destruct (sh_sessions s !! gs_id g).
Qed.

Definition conns_ok (w : World) : Prop := ∀ c cn, w_conns w !! c = Some cn → adm_ok w c cn ∧ (cn_state cn = Closed → closed (cn_pc cn) = true).
Lemma same_guest_adm w c cn cn' : same_guest cn cn' → cn_state cn = Authenticated → admitting (cn_pc cn') = false → adm_ok w c cn → adm_ok w c cn'.
Proof.
  intros (E1 & E2 & E3 & E4 & E5 & E6 & _) Hs Ha [H1 _]. split.
  - unfold state_ok in *. rewrite E2. rewrite Hs in *. destruct H1 as (g & H1). exists g. by rewrite E6, E5, E1.
  - unfold pc_ok. by destruct (cn_pc cn').
Qed.
Lemma conn_step_adm w w' c i cn cn' s' out : inputs_ok cfg w → slots_ok w → conns_ok w → w_conns w !! c = Some cn → grows w w' →
  conn_step cfg i cn (w_shared w) = Some (cn', s', out) → asks c cn' ⊆ w_asked w' → loads c cn' ⊆ w_loaded w' → checks c i cn (w_shared w) ⊆ w_checked w' →
  adm_ok w' c cn' ∧ (cn_state cn' = Closed → closed (cn_pc cn') = true).
Proof.
  intros Hin Hsl Hco Hc Hg Hst Hk Hl Hch. destruct (Hco _ _ Hc) as [Hadm Hcl]. pose proof (adm_mono _ _ _ _ Hg Hadm) as Hadm'. destruct (ended (cn_pc cn)) eqn:He.
  - revert Hst. unfold conn_step. destruct (cn_pc cn); try done; destruct i; try done. intros [= <- _ _]. by split; [split|].
  - destruct (decide (cn_state cn = Authenticated)) as [Hs|Hs].
    + destruct (authenticated_step cfg _ _ _ _ _ _ _ Hs He (Hin _ _ Hc) Hst) as (Hsame & _ & _ & _ & Ha & _). split; [by apply (same_guest_adm w' c cn)|].
      destruct Hsame as (_ & -> & _). congruence.
    + assert (cn_state cn ≠ Closed) as Hnc by (intros E; specialize (Hcl E); by destruct (cn_pc cn)). destruct (unauthenticated_step cfg _ _ _ _ _ _ Hs He Hst) as (Hq & _).
      split; [|intros E; by destruct (Hnc (Hq E))]. eapply unauthenticated_adm; try done. intros r t Hr. destruct Hg as (_ & Hg & _). by apply Hg, Hsl.
Qed.

Definition guests_ok (w : World) : Prop := inputs_ok cfg w ∧ slots_ok w ∧ conns_ok w.
Lemma answer_slots s r t s' sent : answer r t s = (s', sent) → ∀ q v, sh_slots s' !! q = Some (Some v) → sh_slots s !! q = Some (Some v) ∨ sent = true ∧ q = r ∧ v = t.
Proof.
  unfold answer. destruct (sh_slots s !! r) as [[]|]; intros [= <- <-] q v; cbn; auto. rewrite lookup_insert_Some. intros [[<- [= <-]]|[_ ?]]; auto.
Qed.
Lemma respond_slots s r t now s' sent : respond r t now s = (s', sent) → ∀ q v, sh_slots s' !! q = Some (Some v) → sh_slots s !! q = Some (Some v) ∨ sent = true ∧ q = r ∧ v = t.
Proof.
  unfold respond. destruct (sh_pending s !! r) as [p|]; [|intros [= <- _]; auto]. destruct (_ <? _); [|intros [= <- _]; auto]. intros H q v Hq. by apply (answer_slots _ _ _ _ _ H).
Qed.
Lemma answered_ok w s' r t (sent : bool) : (∀ q v, sh_slots s' !! q = Some (Some v) → sh_slots (w_shared w) !! q = Some (Some v) ∨ sent = true ∧ q = r ∧ v = t) →
  slots_ok w → let w' := (if sent then add_answer (r, t) else id) (with_shared s' w) in slots_ok w' ∧ grows w w'.
Proof.
  intros H Hsl. destruct sent; cbn; (split; [|split_and!; set_solver]).
  - intros q v [Hq|(_ & -> & ->)]%H; [right; by apply Hsl|by left].
  - intros q v [Hq|(? & _)]%H; [by apply Hsl|done].
Qed.
Lemma owner_slots io pc s : sh_slots (set_guest_permissions io pc s).2 = sh_slots s.
Proof.
  unfold set_guest_permissions. destruct pc; try done; [by destruct (load _ _ _) as [[]|]|by destruct (authorization _ _ _) as [[]|]|by destruct (set_authorization _ _ _ _ _) as [? []]].
Qed.
Lemma guests_step x w w' out : guests_ok w → step cfg x w = Some (w', out) → guests_ok w'.
Proof.
  intros (Hin & Hsl & Hco) Hst. split; [by eapply inputs_step|]. pose proof (step_other _ _ _ _ _ Hst) as Ho.
  assert (w_conns w' = w_conns w → slots_ok w' ∧ grows w w' → slots_ok w' ∧ conns_ok w') as Hmono.
  { intros E [H1 H2]. split; [done|]. intros c cn. rewrite E. intros Hc. destruct (Hco _ _ Hc). split; [by eapply adm_mono|done]. }
  destruct x as [c identity policy|c i|o pid p|o io|r t now|r t|io pid|g|].
  - cbn [step] in Hst. destruct (w_conns w !! c) eqn:Hc; [done|]. injection Hst as <- _. split; [exact Hsl|]. intros d cn. cbn.
    intros [[<- <-]|[Hne Hd]]%lookup_insert_Some; [done|]. by apply Hco.
  - destruct (step_conn _ _ _ _ _ _ Hst) as (cn & cn' & s' & Hc & _ & Hcs & ->). set (w' := mk_World _ _ _ _ _ _ _ _).
    assert (grows w w') as Hg by (unfold grows; cbn; split_and!; set_solver). split; [intros r t Hr; apply Hsl; by eapply conn_step_slots|].
    intros d dn. cbn. intros [[<- <-]|[Hne Hd]]%lookup_insert_Some; [|destruct (Hco _ _ Hd); split; [by eapply adm_mono|done]].
    eapply (conn_step_adm w w'); try done; cbn; set_solver.
  - apply Hmono; [by destruct Ho|]. injection Hst as <- _. by split; [|split_and!].
  - apply Hmono; [by destruct Ho|]. cbn [step] in Hst. apply bind_Some in Hst as (pc & _ & H). pose proof (owner_slots io pc (w_shared w)) as Hs.
    destruct (set_guest_permissions _ _ _) as [pc' s']. injection H as <- _. cbn in Hs. split; [|by split_and!]. intros q v. cbn. rewrite Hs. apply Hsl.
  - apply Hmono; [by destruct Ho|]. cbn [step] in Hst. destruct (respond _ _ _ _) as [s' sent] eqn:E. injection Hst as <- _. apply answered_ok; [by eapply respond_slots|done].
  - apply Hmono; [by destruct Ho|]. cbn [step] in Hst. destruct (answer _ _ _) as [s' sent] eqn:E. injection Hst as <- _. apply answered_ok; [by eapply answer_slots|done].
  - apply Hmono; [by destruct Ho|]. injection Hst as <- _. by split; [|split_and!].
  - apply Hmono; [by destruct Ho|]. injection Hst as <- _. split; [|by split_and!]. intros q v. cbn. unfold kick. destruct (sh_sessions _ !! g); apply Hsl.
  - apply Hmono; [by destruct Ho|]. injection Hst as <- _. by split; [|split_and!].
Qed.
Lemma guests_reachable st w : reachable cfg st w → guests_ok w.
Proof.
  induction 1 as [|w x w' out _ IH Hst]; [|by eapply guests_step]. split; [apply inputs_start|]. split; [intros r t H; cbn in H; by rewrite lookup_empty in H|].
  intros c cn H. cbn in H. by rewrite lookup_empty in H.
Qed.
End admission.

(** ** Theorems *)

(** C23: However connections, the owner's answers, revocations and the store's failures interleave, a
    connection that is authenticated either negotiated the identity of exactly the pairing it is
    registered with, which it loaded from the store and whose trust the store said was valid at that
    time, or negotiated the pairing identity and asked for pairing itself, and the owner answered that
    very request with the trust it has. *)
Theorem guest_admitted cfg st w c cn (Hr : reachable cfg st w) (Hc : w_conns w !! c = Some cn) (Ha : cn_state cn = Authenticated) :
  ∃ g, cn_guest cn = Some g ∧ gs_trust g = cn_trust cn ∧ admitted w c (cn_identity cn) (gs_pairing_id g) (cn_trust cn).
Proof. destruct (guests_reachable _ _ _ Hr) as (_ & _ & H). destruct (H _ _ Hc) as [[Hs _] _]. unfold state_ok in Hs. by rewrite Ha in Hs. Qed.

(** C22: Whatever a connection hands to the host's injector in one of its steps is a reset, or an event
    of an authenticated client that its permissions in force allow, without modifier keys unless the
    keyboard is allowed; and these permissions are those granted to it, as far as the host's policy
    and capabilities let them. *)
Theorem guest_input_permitted cfg st w c i w' out cn cn' (Hr : reachable cfg st w) (Hs : step cfg (SConn c i) w = Some (w', out))
    (Hc : w_conns w !! c = Some cn) (Hc' : w_conns w' !! c = Some cn') :
  Forall (λ e, is_reset e ∨ cn_state cn = Authenticated ∧ permitted (cn_effective cn') e ∧ within cfg cn') (injected out).
Proof.
  destruct (step_conn _ _ _ _ _ _ Hs) as (cn1 & cn2 & s' & E & _ & Hst & ->). cbn in Hc'. rewrite lookup_insert_eq in Hc'. rewrite Hc in E. simplify_eq.
  by apply (conn_step_ok _ _ _ _ _ _ _ _ (inputs_reachable _ _ _ Hr _ _ Hc) Hst).
Qed.

(** C25: At every moment, a connection that may not use the keyboard holds no key on the host, and one
    that may not use the mouse holds no button, also when it pressed them while it still might. *)
Theorem guest_nothing_held cfg st w c cn (Hr : reachable cfg st w) (Hc : w_conns w !! c = Some cn) :
  let events := default [] (w_injected w !! c) in
  (gp_keyboard (cn_effective cn) = false → keys_replay events ∅ = ∅) ∧ (gp_mouse (cn_effective cn) = false → buttons_replay events ∅ = ∅).
Proof. exact (co_held _ _ _ (inputs_reachable _ _ _ Hr _ _ Hc)). Qed.

Lemma receive_permissions caps cmds p g : let '(grant, _, ending) := receive_commands caps (cmds ++ [GcPermissions p]) g in ending = None → grant = p.
Proof.
  revert g. induction cmds as [|[r|st|q] cmds IH]; intros g; cbn; [done|done| |apply IH]. specialize (IH g). by destruct (receive_commands _ _ g) as [[? ?] ?].
Qed.
(** When the owner's change of permissions has been told to the registered guests, the next turn of
    each connection of that pairing puts it in force, as far as the host lets it, or ends. *)
Theorem permissions_take_effect cfg p g cmds stop packet now policy datagrams room c s (Ha : cn_state c = Authenticated) (Hg : cn_guest c = Some g)
    (Hs : sh_sessions s !! gs_id g = Some (g, cmds)) :
  let '(c', _, _) := turn cfg stop packet now policy datagrams room c (permissions (gs_pairing_id g) p s) in
  cn_pc c' = PcEnd ∨ cn_grant c' = p ∧ cn_effective c' = intersect p (permission_ceiling cfg policy (cn_clipboard_sync c')).
Proof.
  unfold turn. rewrite (bool_decide_true _ Ha). cbn [negb]. destruct stop; [by left|]. destruct (match packet with Some q => _ | None => _ end) as [[]|]; [by left| |by left].
  assert (commands_of c (permissions (gs_pairing_id g) p s) = cmds ++ [GcPermissions p]) as ->
    by (unfold commands_of; rewrite Hg; cbn; rewrite lookup_fmap, Hs; cbn; by rewrite bool_decide_true).
  pose proof (receive_permissions (cn_peer_caps c) cmds p (cn_grant c)) as Hp. destruct (guest_turn _ _ _ _ _ _ _) as [[c1 out] go] eqn:E.
  destruct go; [right|by left]. destruct (guest_turn_spec _ _ _ _ _ _ _ _ _ _ E) as (Hsame & _ & _ & [[? _]|[He Hgr]]); [done|]. cbn.
  enough (cn_grant c1 = p) as <- by done. rewrite Hgr. destruct (receive_commands _ _ _) as [[grant told] ending] eqn:Er. cbn. apply Hp.
  revert E. unfold guest_turn. rewrite Er. destruct ending; [|done]. cbv zeta. by destruct (cn_trust (with_grant grant c)) as [| |ex]; [| |destruct (ex <=? now)].
Qed.

(** ** A host, its pairings and a run *)

Definition mouse_only : GuestPermissions := mk_GuestPermissions false true false false false.
Definition nothing : GuestPermissions := mk_GuestPermissions false false false false false.
Definition demo_cfg : HostConfig := mk_HostConfig (lit "studio") 1920 1080 0x3f800000 false false (Z.lor GUEST_PERMISSIONS UDP_INPUT).
Definition demo_policy : HostPolicy := mk_HostPolicy true false.
Definition ok_bytes {E} (r : Result (list byte) E) : list byte := match r with Ok b => b | Err _ => [] end.
(** A guest whose pairing expires, and who may use the mouse. *)
Definition demo_store : Store :=
  mk_Store [mk_PairingRecord (lit "p1") (lit "tablet") (replicate 32 x07) 0] {[lit "p1" := (ok_bytes (PairingTrust_encode (GuestExpiring 1000)), Some mouse_only)]}.
Definition demo_packet (ty : PacketType) (payload : list byte) : list byte := PacketHeader_to_bytes (mk_PacketHeader ty 1 0 0) ++ payload.
Definition demo_hello : list byte :=
  demo_packet PtHandshake (ok_bytes (Handshake_encode (mk_Handshake (lit "tablet") 800 600 0x3f800000 PROTOCOL_VERSION AUTHENTICATED_UDP_REGISTRATION (lit "p1") (replicate 16 x00)))).
Definition demo_input (e : InputEvent) : list byte := demo_packet PtInputEvent (InputEvent_bytes e).
Definition in_turn (packet : option (list byte)) : Input := InTurn false packet 5 demo_policy [] None.
Definition in_packet : Input := InPacket false (lit "r1") 0 false io_ok None.
(** Up to the load of the pairing; then the rest of the admission. *)
Definition demo_hello_steps : list Step := [SAccept 1 (PAIRING_IDENTITY_PREFIX ++ lit "p1") demo_policy; SConn 1 (in_turn (Some demo_hello)); SConn 1 in_packet].
Definition demo_authorize : list Step := [SConn 1 (InAuthorize 5 io_ok)].
Definition demo_join : list Step := [SConn 1 (InStore 5 io_ok); SConn 1 (InJoin demo_policy (lit "g1"))].
(** A button pressed, then a key with no permission for it. *)
Definition demo_press : InputEvent := mk_InputEvent LeftMouseDown 0 0 0 2 0 0.
Definition demo_key : InputEvent := mk_InputEvent KeyDown 0 0 7 0 0 0.
Definition demo_inputs : list Step :=
  [SConn 1 (in_turn (Some (demo_input demo_press))); SConn 1 in_packet; SConn 1 (in_turn (Some (demo_input demo_key))); SConn 1 in_packet].
Definition demo_run (xs : list Step) : World := default (world0 demo_store) (run demo_cfg xs (world0 demo_store)).
Definition demo_conn (w : World) : Conn := default (conn_new demo_cfg demo_policy []) (w_conns w !! 1%positive).
Definition all_steps : list Step := demo_hello_steps ++ demo_authorize ++ demo_join ++ demo_inputs.
(** The owner takes everything away, and the connection learns of it. *)
Definition demo_change : list Step := [SSetPermissions 9 (lit "p1") nothing; SOwner 9 io_ok; SOwner 9 io_ok; SOwner 9 io_ok; SOwner 9 io_ok].

Lemma demo_reachable xs : is_Some (run demo_cfg xs (world0 demo_store)) → reachable demo_cfg demo_store (demo_run xs).
Proof. intros [w H]. unfold demo_run. rewrite H. by eapply run_reachable; [apply r_start|]. Qed.

Lemma guest_admitted_witness : let cn := demo_conn (demo_run all_steps) in
  cn_state cn = Authenticated ∧ cn_trust cn = GuestExpiring 1000 ∧
  ∃ g, cn_guest cn = Some g ∧ gs_trust g = cn_trust cn ∧ admitted (demo_run all_steps) 1%positive (cn_identity cn) (gs_pairing_id g) (cn_trust cn).
Proof.
  cbv zeta. split; [vm_compute; reflexivity|]. split; [vm_compute; reflexivity|].
  apply (guest_admitted demo_cfg demo_store (demo_run all_steps) 1%positive (demo_conn (demo_run all_steps))).
  - apply demo_reachable. eexists. vm_compute. reflexivity.
  - vm_compute. reflexivity.
  - vm_compute. reflexivity.
Defined.

Lemma guest_input_permitted_witness : let before := demo_run (demo_hello_steps ++ demo_authorize ++ demo_join ++ take 1 demo_inputs) in
  let after := demo_run (demo_hello_steps ++ demo_authorize ++ demo_join ++ take 2 demo_inputs) in
  let out := [Inject [without_modifiers demo_press]] in
  step demo_cfg (SConn 1 in_packet) before = Some (after, out) ∧
  Forall (λ e, is_reset e ∨ cn_state (demo_conn before) = Authenticated ∧ permitted (cn_effective (demo_conn after)) e ∧ within demo_cfg (demo_conn after)) (injected out).
Proof.
  cbv zeta. assert (step demo_cfg (SConn 1 in_packet) (demo_run (demo_hello_steps ++ demo_authorize ++ demo_join ++ take 1 demo_inputs)) =
    Some (demo_run (demo_hello_steps ++ demo_authorize ++ demo_join ++ take 2 demo_inputs), [Inject [without_modifiers demo_press]])) as E by (vm_compute; reflexivity).
  split; [exact E|]. eapply (guest_input_permitted demo_cfg demo_store _ 1%positive in_packet _ _ _ _ _ E).
  Unshelve.
  - vm_compute. reflexivity.
  - vm_compute. reflexivity.
  - apply demo_reachable. eexists. vm_compute. reflexivity.
Defined.

Lemma guest_nothing_held_witness : let held w := buttons_replay (default [] (w_injected w !! 1%positive)) ∅ in
  held (demo_run all_steps) = {[Left]} ∧ held (demo_run (all_steps ++ demo_change ++ [SConn 1 (in_turn None)])) = ∅.
Proof.
  cbv zeta. split; [vm_compute; reflexivity|].
  apply (guest_nothing_held demo_cfg demo_store (demo_run (all_steps ++ demo_change ++ [SConn 1 (in_turn None)])) 1%positive
    (demo_conn (demo_run (all_steps ++ demo_change ++ [SConn 1 (in_turn None)])))).
  - apply demo_reachable. eexists. vm_compute. reflexivity.
  - vm_compute. reflexivity.
  - vm_compute. reflexivity.
Defined.

Lemma permissions_take_effect_witness : let w := demo_run all_steps in
  let '(c', _, _) := turn demo_cfg false None 5 demo_policy [] None (demo_conn w) (permissions (lit "p1") nothing (w_shared w)) in
  cn_effective (demo_conn w) = mouse_only ∧ cn_pc c' = PcTurn ∧ cn_effective c' = nothing.
Proof.
  cbv zeta. pose proof (permissions_take_effect demo_cfg nothing (mk_GuestSession (lit "g1") (lit "p1") (lit "tablet") (GuestExpiring 1000)) [] false None 5 demo_policy [] None
    (demo_conn (demo_run all_steps)) (w_shared (demo_run all_steps)) ltac:(vm_compute; reflexivity) ltac:(vm_compute; reflexivity) ltac:(vm_compute; reflexivity)) as H.
  cbn [gs_pairing_id] in H. destruct (turn _ _ _ _ _ _ _ _ _) as [[c' s'] out] eqn:E. split; [vm_compute; reflexivity|].
  assert (cn_pc c' = PcTurn) as Hpc by (apply (f_equal (λ x, cn_pc x.1.1)) in E; cbn [fst] in E; rewrite <- E; vm_compute; reflexivity).
  split; [exact Hpc|]. destruct H as [H|[_ H]]; [rewrite Hpc in H; discriminate H|]. rewrite H. reflexivity.
Defined.

(** ** Departures *)

(** A guest whose pairing is revoked between the load of its record and the reading of its grant gets
    in as an owner, with every permission of the host: without a grant the store answers that a
    pairing belongs to an owner. *)
Theorem revoked_guest_becomes_owner : let w := demo_run (demo_hello_steps ++ [SRevoke io_ok (lit "p1")] ++ demo_authorize ++ demo_join) in
  authorization io_ok (lit "p1") demo_store = Ok (GuestExpiring 1000, Some mouse_only) ∧
  reachable demo_cfg demo_store w ∧ load io_ok (lit "p1") (sh_store (w_shared w)) = Ok None ∧
  cn_state (demo_conn w) = Authenticated ∧ cn_trust (demo_conn w) = Owner ∧ gp_keyboard (cn_effective (demo_conn w)) = true.
Proof.
  cbv zeta. split; [vm_compute; reflexivity|]. split; [apply demo_reachable; eexists; vm_compute; reflexivity|]. split_and!; vm_compute; reflexivity.
Qed.

(** Permissions that the owner sets after a connection read its grant and before it is registered do not
    reach it: the store has them, the call has returned, and the connection keeps the old ones, with
    no command on its way. *)
Theorem permissions_missed : let w := demo_run (demo_hello_steps ++ demo_authorize ++ demo_change ++ demo_join ++ [SConn 1 (in_turn None)]) in
  reachable demo_cfg demo_store w ∧ w_owners w !! 9%positive = Some OwDone ∧
  authorization io_ok (lit "p1") (sh_store (w_shared w)) = Ok (GuestExpiring 1000, Some nothing) ∧
  cn_state (demo_conn w) = Authenticated ∧ cn_effective (demo_conn w) = mouse_only ∧ commands_of (demo_conn w) (w_shared w) = [].
Proof. cbv zeta. split; [apply demo_reachable; eexists; vm_compute; reflexivity|]. split_and!; vm_compute; reflexivity. Qed.
