(* ===== verification/RdInjector.v ===== *)
(** * RdInjector: input on its way to the operating system

    The connection of a guest (RdGuest) hands its input to an injector thread over a queue of at most
    256 jobs in which pointer motion is merged, and what was injected is remembered so that a picture
    can say which input it shows: [InputQueue], [InputDispatch] and [AppliedInput] of
    crates/ferryx-rd/ferryx-rd-host/src/session.rs.  The producer and the injector thread interleave
    at the lock of the queue; whether the operating system takes an event is an environment's
    choice.  Jobs that change the geometry of the screen are left out. *)

From Stdlib Require Import ZArith Lia Sorting.Sorted.
From stdpp Require Import base option list.
From S2P Require Import Prelude Wire RdCodec RdControl RdInput RdAgent RdGuest.

#[local] Open Scope Z_scope.

(** ** The queue *)

(** A job is the closure of [inject_batch], or of a reset. *)
Inductive QueuedInput : Type :=
| QEvent (sequence : Z) (e : InputEvent)
| QBatch (sequence input_sequence : Z) (events : list InputEvent)
| QReset.
Record InputQueue := mk_InputQueue { iq_pending : list QueuedInput; iq_closed : bool }.
Definition merge_motion (previous e : InputEvent) : option InputEvent :=
  if negb (bool_decide (event_type previous = event_type e)) || negb (modifiers previous =? modifiers e) then None else
  match event_type e with
  | MouseMove => Some (mk_InputEvent (event_type previous) (ev_x e) (ev_y e) (key_code previous) (modifiers previous) (scroll_dx previous) (scroll_dy previous))
  | RelativeMove =>
      Some (mk_InputEvent (event_type previous) (ev_x previous) (ev_y previous) (key_code previous) (modifiers previous)
              (f32_add (scroll_dx previous) (scroll_dx e)) (f32_add (scroll_dy previous) (scroll_dy e)))
  | _ => None
  end.
(** [None]: the event is not merged. *)
Definition coalesce (sequence : Z) (e : InputEvent) (pending : list QueuedInput) : option (list QueuedInput) :=
  match last pending with
  | Some (QEvent _ previous) => (λ merged, take (length pending - 1) pending ++ [QEvent sequence merged]) <$> merge_motion previous e
  | _ => None
  end.

Definition QUEUE_LIMIT : Z := 256.
(** A job enters, waits for room, or is refused. *)
Inductive Entry : Type := Entered (q : InputQueue) | Waits | Refused.
Definition enqueue_now (job : QueuedInput) (q : InputQueue) : Entry :=
  if iq_closed q then Refused else
  if QUEUE_LIMIT <=? zlen (iq_pending q) then Waits else Entered (mk_InputQueue (iq_pending q ++ [job]) false).
Definition enqueue (job : QueuedInput) (q : InputQueue) : Entry :=
  match match job with QEvent sequence e => coalesce sequence e (iq_pending q) | _ => None end with
  | Some pending => Entered (mk_InputQueue pending (iq_closed q))
  | None => enqueue_now job q
  end.

(** ** Acknowledgements and echoes *)

Definition input_ack (sequence : Z) (e : InputEvent) (success : bool) : option InputAckMessage :=
  let motion := match event_type e with MouseMove | RelativeMove => true | _ => false end in
  if negb success || negb motion then Some (mk_InputAckMessage sequence success (if success then 0 else 1)) else None.

Definition HISTORY : nat := 256.
Definition record (sequence at_ : Z) (history : list (Z * Z)) : list (Z * Z) :=
  if match last history with None => true | Some (previous, _) => previous <? sequence end
  then (if (length history =? HISTORY)%nat then drop 1 history else history) ++ [(sequence, at_)]
  else history.
(** The sequence and the time of the input a frame captured then shows. *)
Definition for_frame (captured : Z) (history : list (Z * Z)) : option (Z * Z) :=
  List.find (λ r, r.2 <? captured) (reverse history).

(** ** The injector *)

Record Injector := mk_Injector {
  in_queue : InputQueue;
  in_waiting : option QueuedInput;
  in_accepted : list InputEvent;
  in_injected : list InputEvent;
  in_acks : list InputAckMessage;
  in_history : list (Z * Z);
  in_stopped : bool;
}.
Definition injector0 : Injector := mk_Injector (mk_InputQueue [] false) None [] [] [] [] false.
Definition events_of (job : QueuedInput) : list InputEvent := match job with QEvent _ e => [e] | QBatch _ _ events => events | QReset => [reset_event] end.

(** The producer's call, the end of its wait, its [stop]; and a job done by the injector thread,
    given whether the system took each event and the clock after it. *)
Inductive InjectorStep : Type :=
| IPush (job : QueuedInput)
| IWake (timed_out : bool)
| IStop
| IWork (taken : list bool) (now : Z).
Definition accepted (job : QueuedInput) (entry : Entry) (x : Injector) : option Injector :=
  match entry with
  | Entered q => Some (mk_Injector q None (in_accepted x ++ events_of job) (in_injected x) (in_acks x) (in_history x) (in_stopped x))
  | Waits => Some (mk_Injector (in_queue x) (Some job) (in_accepted x) (in_injected x) (in_acks x) (in_history x) (in_stopped x))
  | Refused => Some (mk_Injector (in_queue x) None (in_accepted x) (in_injected x) (in_acks x) (in_history x) (in_stopped x))
  end.
Definition acks_of (sequence : Z) (events : list InputEvent) (taken : list bool) : list InputAckMessage :=
  omap (λ et, input_ack sequence et.1 et.2) (zip events taken).
Definition work (taken : list bool) (now : Z) (x : Injector) : option Injector :=
  match iq_pending (in_queue x) with
  | job :: rest =>
      if negb (length taken =? length (events_of job))%nat then None else
      let q := mk_InputQueue rest (iq_closed (in_queue x)) in
      let acks := match job with QEvent sequence _ | QBatch sequence _ _ => acks_of sequence (events_of job) taken | QReset => [] end in
      let history := match job with QBatch _ input_sequence _ => if forallb id taken then record input_sequence now (in_history x) else in_history x | _ => in_history x end in
      Some (mk_Injector q (in_waiting x) (in_accepted x) (in_injected x ++ events_of job) (in_acks x ++ acks) history (in_stopped x))
  | [] =>
      (* The loop ends once the queue is closed; held input is then released. *)
      if negb (iq_closed (in_queue x)) || in_stopped x then None else
      Some (mk_Injector (in_queue x) (in_waiting x) (in_accepted x) (in_injected x ++ [reset_event]) (in_acks x) (in_history x) true)
  end.
Definition injector_step (i : InjectorStep) (x : Injector) : option Injector :=
  match i, in_waiting x with
  | IPush job, None => if iq_closed (in_queue x) then None else accepted job (enqueue job (in_queue x)) x
  | IWake timed_out, Some job =>
      match enqueue_now job (in_queue x) with
      | Waits => if timed_out then accepted job Refused x else Some x
      | entry => accepted job entry x
      end
  | IStop, None => Some (mk_Injector (mk_InputQueue (iq_pending (in_queue x)) true) None (in_accepted x) (in_injected x) (in_acks x) (in_history x) (in_stopped x))
  | IWork taken now, _ => work taken now x
  | _, _ => None
  end.
Fixpoint injector_run (steps : list InjectorStep) (x : Injector) : option Injector :=
  match steps with [] => Some x | i :: steps => x ← injector_step i x; injector_run steps x end.

(** ** What the system sees *)

(** The pointer, with the modifiers it moved under, and every other event with the pointer it came
    at.  Relative motion is left out: it is summed up, in floating point. *)
Definition Seen : Type := option (Z * Z * Z) * list (option (Z * Z * Z) * InputEvent).
Definition see (s : Seen) (e : InputEvent) : Seen :=
  match event_type e with
  | MouseMove => (Some (ev_x e, ev_y e, modifiers e), s.2)
  | RelativeMove => s
  | _ => (s.1, s.2 ++ [(s.1, e)])
  end.
Definition shown (events : list InputEvent) : Seen := foldl see (None, []) events.
Lemma shown_app a b : shown (a ++ b) = foldl see (shown a) b.
Proof. unfold shown. apply foldl_app. Qed.
Lemma merge_seen previous e m s : merge_motion previous e = Some m → see (see s previous) e = see s m.
Proof.
  unfold merge_motion. destruct (bool_decide (event_type previous = event_type e)) eqn:Et; [|done]. apply bool_decide_eq_true in Et. cbn [negb orb].
  destruct (Z.eqb_spec (modifiers previous) (modifiers e)) as [Em|]; [|done]. cbn [negb]. unfold see. rewrite Et.
  destruct (event_type e) eqn:Ee; try done; intros [= <-]; cbn; [by rewrite Em|done].
Qed.
Definition pending_events (q : list QueuedInput) : list InputEvent := concat (events_of <$> q).
Lemma pending_events_app a b : pending_events (a ++ b) = pending_events a ++ pending_events b.
Proof. unfold pending_events. by rewrite fmap_app, concat_app. Qed.
Lemma coalesce_seen sequence e q q' done : coalesce sequence e q = Some q' →
  shown (done ++ pending_events q') = shown (done ++ pending_events q ++ [e]) ∧ length q' = length q.
Proof.
  unfold coalesce. destruct (last q) as [[n previous| |]|] eqn:El; try done. apply last_Some in El as [front ->]. rewrite length_app. replace (length front + length [QEvent n previous] - 1)%nat with (length front) by (cbn; lia).
  rewrite take_app_length. destruct (merge_motion previous e) as [m|] eqn:Em; [|done]. cbn. intros [= <-]. rewrite length_app. split; [|done].
  rewrite !pending_events_app. cbn. rewrite <- (app_assoc _ _ [e]), !app_assoc, !shown_app. cbn. symmetry. by apply merge_seen.
Qed.
Lemma now_seen job q q' done : enqueue_now job q = Entered q' →
  shown (done ++ pending_events (iq_pending q')) = shown (done ++ pending_events (iq_pending q) ++ events_of job) ∧ zlen (iq_pending q') ≤ QUEUE_LIMIT.
Proof.
  unfold enqueue_now. destruct (iq_closed q); [done|]. destruct (Z.leb_spec QUEUE_LIMIT (zlen (iq_pending q))) as [|Hl]; [done|]. intros [= <-]. cbn [iq_pending]. rewrite pending_events_app.
  split; [cbn; by rewrite app_nil_r|]. unfold zlen in *. rewrite length_app. cbn. lia.
Qed.
Lemma entered_seen job q q' done : enqueue job q = Entered q' → zlen (iq_pending q) ≤ QUEUE_LIMIT →
  shown (done ++ pending_events (iq_pending q')) = shown (done ++ pending_events (iq_pending q) ++ events_of job) ∧ zlen (iq_pending q') ≤ QUEUE_LIMIT.
Proof.
  unfold enqueue. destruct job as [n e|n m es|]; [|intros ? _; by apply now_seen|intros ? _; by apply now_seen]. destruct (coalesce n e (iq_pending q)) as [p|] eqn:Ec; [|intros ? _; by apply now_seen].
  intros [= <-] Hl. destruct (coalesce_seen _ _ _ _ done Ec) as [Hs Hn]. split; [done|]. unfold zlen in *. cbn. by rewrite Hn.
Qed.

(** ** Every run *)

Record injector_ok (x : Injector) : Prop := {
  io_bounded : zlen (iq_pending (in_queue x)) ≤ QUEUE_LIMIT;
  io_running : in_stopped x = false → shown (in_injected x ++ pending_events (iq_pending (in_queue x))) = shown (in_accepted x);
  io_stopped : in_stopped x = true → iq_closed (in_queue x) = true ∧ iq_pending (in_queue x) = [] ∧
    ∃ done, in_injected x = done ++ [reset_event] ∧ shown done = shown (in_accepted x);
}.
Lemma entered_ok x job q' : injector_ok x → iq_closed (in_queue x) = false → shown (in_injected x ++ pending_events (iq_pending q')) = shown (in_injected x ++ pending_events (iq_pending (in_queue x)) ++ events_of job) →
  zlen (iq_pending q') ≤ QUEUE_LIMIT → injector_ok (mk_Injector q' None (in_accepted x ++ events_of job) (in_injected x) (in_acks x) (in_history x) (in_stopped x)).
Proof.
  intros [_ H2 H3] Hcl Hq Hl. split; cbn [in_queue in_stopped in_injected in_accepted]; [done| |intros Hst; destruct (H3 Hst); congruence]. intros Hst. specialize (H2 Hst). rewrite Hq, app_assoc, shown_app, H2. by rewrite shown_app.
Qed.
Lemma now_closed job q q' : enqueue_now job q = Entered q' → iq_closed q = false.
Proof. unfold enqueue_now. by destruct (iq_closed q). Qed.
Lemma injector_step_ok i x x' : injector_ok x → injector_step i x = Some x' → injector_ok x'.
Proof.
  intros Hok. unfold injector_step. assert (∀ w, injector_ok (mk_Injector (in_queue x) w (in_accepted x) (in_injected x) (in_acks x) (in_history x) (in_stopped x))) as Hw by (intros; by destruct Hok).
  destruct i as [job|timed_out| |taken now].
  - destruct (in_waiting x); [done|]. destruct (iq_closed (in_queue x)) eqn:Hcl; [done|]. unfold accepted. destruct (enqueue job (in_queue x)) as [q'| |] eqn:Eq; intros [= <-]; try apply Hw.
    destruct (entered_seen _ _ _ (in_injected x) Eq (io_bounded _ Hok)) as [Hs Hl]. by apply entered_ok.
  - destruct (in_waiting x) as [job|]; [|done]. destruct (enqueue_now job (in_queue x)) as [q'| |] eqn:Eq.
    + intros [= <-]. destruct (now_seen _ _ _ (in_injected x) Eq) as [Hs Hl]. by apply entered_ok; [|eapply now_closed| |].
    + destruct timed_out; intros [= <-]; [apply Hw|done].
    + intros [= <-]. apply Hw.
  - destruct (in_waiting x); [done|]. intros [= <-]. destruct Hok as [H1 H2 H3]. split; cbn [in_queue in_stopped in_injected in_accepted iq_pending iq_closed]; [done|done|]. intros Hst. by destruct (H3 Hst) as (? & ? & ?).
  - cut (work taken now x = Some x' → injector_ok x'); [by destruct (in_waiting x)|]. unfold work. destruct Hok as [H1 H2 H3]. destruct (iq_pending (in_queue x)) as [|job rest] eqn:Eq.
    + destruct (iq_closed (in_queue x)) eqn:Hcl; [|done]. destruct (in_stopped x); [done|]. cbn. intros [= <-]. split; cbn [in_queue in_stopped in_injected in_accepted]; [by rewrite Eq|done|]. intros _. split_and!; [done|done|].
      exists (in_injected x). split; [done|]. rewrite <- (H2 eq_refl). cbn. by rewrite app_nil_r.
    + destruct (negb _); [done|]. intros [= <-]. split; cbn [in_queue in_stopped in_injected in_accepted iq_pending]; [unfold zlen in *; cbn in *; lia| |intros Hst; destruct (H3 Hst) as (_ & ? & _); congruence].
      intros Hst. rewrite <- (H2 Hst). cbn. by rewrite <- app_assoc.
Qed.
Lemma injector_run_ok steps x x' : injector_ok x → injector_run steps x = Some x' → injector_ok x'.
Proof.
  revert x. induction steps as [|i steps IH]; intros x Hx; cbn [injector_run]; [by intros [= <-]|]. intros (x1 & H1 & H)%bind_Some. by eapply IH; [eapply injector_step_ok|].
Qed.
Lemma injector_start : injector_ok injector0.
Proof. by split. Qed.

(** What the injector has done and still has to do shows exactly what was accepted, and holds the same
    keys and buttons. *)
Lemma held_of_shown events K : keys_replay events K = keys_replay ((shown events).2.*2) K ∧ ∀ B, buttons_replay events B = buttons_replay ((shown events).2.*2) B.
Proof.
  induction events as [|e events [IH1 IH2]] using rev_ind; [done|]. rewrite shown_app. cbn [foldl]. unfold keys_replay, buttons_replay in *.
  assert ((see (shown events) e).2.*2 = (shown events).2.*2 ++ match event_type e with MouseMove | RelativeMove => [] | _ => [e] end) as ->.
  { unfold see. destruct (event_type e); cbn; by rewrite ?app_nil_r, ?fmap_app. }
  split; [|intros B]; rewrite !foldl_app, ?IH1, ?IH2; cbn [foldl]; unfold keys_after, held_buttons_after; destruct (event_type e) eqn:Ee; cbn; rewrite ?Ee; done.
Qed.


(** ** Echoes *)

Definition later (a b : Z * Z) : Prop := a.1 < b.1.
Lemma record_sorted sequence at_ h : StronglySorted later h → StronglySorted later (record sequence at_ h).
Proof.
  intros Hs. unfold record. destruct (last h) as [[p pa]|] eqn:El; [|by destruct h; [repeat constructor|rewrite last_cons in El; by destruct (last h)]].
  destruct (Z.ltb_spec p sequence) as [Hp|]; [|done]. assert (StronglySorted later (h ++ [(sequence, at_)])) as Ha.
  { clear -Hs El Hp. apply last_Some in El as [front ->]. induction front as [|a front IH]; cbn in *.
    - repeat constructor. exact Hp.
    - apply StronglySorted_inv in Hs as [Hs Hf]. constructor; [by apply IH|]. apply Forall_app. split; [done|]. repeat constructor.
      apply Forall_app in Hf as [_ Hf]. rewrite Forall_singleton in Hf. unfold later in *. cbn in *. lia. }
  destruct (_ =? _)%nat; [|done]. destruct h as [|a h]; [done|]. by apply StronglySorted_inv in Ha as [Ha _].
Qed.
Lemma record_length sequence at_ h : (length h ≤ HISTORY)%nat → (length (record sequence at_ h) ≤ HISTORY)%nat.
Proof.
  intros Hl. unfold record. destruct (match last h with None => _ | Some _ => _ end); [|done]. rewrite length_app. cbn [length].
  destruct (Nat.eqb_spec (length h) HISTORY) as [E|E]; [rewrite length_drop; unfold HISTORY in *; lia|lia].
Qed.
Lemma find_last (f : Z * Z → bool) h r : StronglySorted later h → List.find f (reverse h) = Some r → r ∈ h ∧ f r = true ∧ ∀ r', r' ∈ h → f r' = true → r'.1 ≤ r.1.
Proof.
  revert r. induction h as [|a h IH] using rev_ind; intros r Hs; [done|]. rewrite reverse_snoc. cbn [List.find]. destruct (f a) eqn:Ef.
  - intros [= ->]. split; [apply elem_of_app; right; by apply elem_of_cons; left|]. split; [done|]. intros r' [Hr|Hr%list_elem_of_singleton]%elem_of_app _; [|by subst].
    clear -Hs Hr. induction h as [|b h IH]; [by apply not_elem_of_nil in Hr|]. cbn in Hs. apply StronglySorted_inv in Hs as [Hs Hf]. apply elem_of_cons in Hr as [->|Hr]; [|by apply IH].
    apply Forall_app in Hf as [_ Hf]. rewrite Forall_singleton in Hf. unfold later in Hf. lia.
  - assert (StronglySorted later h) as Hs' by (clear -Hs; induction h as [|b h IH]; [constructor|]; cbn in Hs; apply StronglySorted_inv in Hs as [Hs Hf]; constructor; [by apply IH|by apply Forall_app in Hf as [? _]]).
    intros Hf. destruct (IH r Hs' Hf) as (H1 & H2 & H3). split; [apply elem_of_app; by left|]. split; [done|]. intros r' [Hr|Hr%list_elem_of_singleton]%elem_of_app Hfr; [by apply H3|]. subst. congruence.
Qed.

(** What a picture says of the input it shows is true: the input named was injected before the
    picture was taken, and of the inputs still remembered no later one was; at most 256 are
    remembered. *)
Theorem echo_latest records captured q at_ (Hf : for_frame captured (foldl (λ h r, record r.1 r.2 h) [] records) = Some (q, at_)) :
  let history := foldl (λ h r, record r.1 r.2 h) [] records in
  (length history ≤ HISTORY)%nat ∧ (q, at_) ∈ history ∧ at_ < captured ∧ ∀ q' at', (q', at') ∈ history → at' < captured → q' ≤ q.
Proof.
  cbv zeta. assert (StronglySorted later (foldl (λ h r, record r.1 r.2 h) [] records) ∧ (length (foldl (λ h r, record r.1 r.2 h) [] records) ≤ HISTORY)%nat) as [Hs Hl].
  { clear Hf. induction records as [|r records [IH1 IH2]] using rev_ind; [split; [constructor|cbn; lia]|]. rewrite foldl_app. cbn [foldl]. split; [by apply record_sorted|by apply record_length]. }
  destruct (find_last _ _ _ Hs Hf) as (H1 & H2 & H3). split_and!; [done|done|by apply Z.ltb_lt|]. intros q' at' Hin Hlt. apply (H3 _ Hin). by apply Z.ltb_lt.
Qed.
Lemma echo_latest_witness : for_frame 25 (foldl (λ h r, record r.1 r.2 h) [] [(3, 10); (5, 20); (4, 22); (7, 30)]) = Some (5, 20) ∧ 20 < 25.
Proof.
  assert (for_frame 25 (foldl (λ h r, record r.1 r.2 h) [] [(3, 10); (5, 20); (4, 22); (7, 30)]) = Some (5, 20)) as E by reflexivity.
  split; [exact E|]. apply (echo_latest [(3, 10); (5, 20); (4, 22); (7, 30)] 25 5 20 E).
Defined.

(** Two moves are merged behind a press, and the injector catches up and stops. *)
Definition demo_moves : list InjectorStep :=
  [IPush (QEvent 1 (mk_InputEvent LeftMouseDown 0 0 0 0 0 0)); IPush (QEvent 2 (mk_InputEvent MouseMove 1 1 0 0 0 0)); IPush (QEvent 3 (mk_InputEvent MouseMove 2 2 0 0 0 0));
   IWork [true] 10; IPush (QBatch 4 9 [mk_InputEvent LeftMouseUp 2 2 0 0 0 0]); IStop; IWork [true] 20; IWork [true] 30; IWork [] 40].
