(* ===== verification/RdClipboard.v ===== *)
(** * RdClipboard: the shared clipboard

    Text that is copied on one side is sent to the other, and must not come back; an image is sent in
    pieces of 64 KiB.  The synchronizer of text of crates/ferryx-rd/ferryx-rd-app/src/clipboard.rs,
    the pieces the host sends (ferryx-rd-host/src/session.rs) and the assembly of images
    (ferryx-rd-host/src/clipboard_image.rs).  The hash of a text and the decoder of PNG images are
    parameters.  Instants are nanoseconds. *)

From Stdlib Require Import ZArith Lia Strings.Byte.
From stdpp Require Import base option gmap strings list.
From S2P Require Import Prelude Wire RdCodec RdControl RdRelay.

#[local] Open Scope Z_scope.

(** ** Images *)

Definition LIMIT : Z := 8 * 1024 * 1024.
Definition CHUNK_LIMIT : Z := 65536.
Definition IMAGE_TIMEOUT : Z := 5 * SECOND.
Definition SIGNATURE : list byte := [x89; x50; x4e; x47; x0d; x0a; x1a; x0a].
Definition has_signature (bytes : list byte) : bool := bool_decide (take (length SIGNATURE) bytes = SIGNATURE).

(** The transfer under way (id, expected size, start, bytes so far) and the ids begun. *)
Record Assembly := mk_Assembly { ay_active : option (Z * Z * Z * list byte); ay_used : gset Z }.
Definition assembly0 : Assembly := mk_Assembly None ∅.
Definition cancel (a : Assembly) : Assembly := mk_Assembly None (ay_used a).
Definition expire (now : Z) (a : Assembly) : Assembly :=
  match ay_active a with Some (_, _, started, _) => if IMAGE_TIMEOUT <=? sat_sub now started then cancel a else a | None => a end.
(** The host cuts an image into pieces. *)
Fixpoint image_chunks (fuel : nat) (id total offset : Z) (bytes : list byte) : list ClipboardImageChunk :=
  match fuel, bytes with
  | S fuel, _ :: _ =>
      mk_ClipboardImageChunk id total offset (take (Z.to_nat CHUNK_LIMIT) bytes) ::
      image_chunks fuel id total (offset + CHUNK_LIMIT) (drop (Z.to_nat CHUNK_LIMIT) bytes)
  | _, _ => []
  end.
Definition send_image (id : Z) (bytes : list byte) : list ClipboardImageChunk := image_chunks (length bytes) id (zlen bytes) 0 bytes.

Section image.
Context (decode_png : list byte → bool).
Definition validate_png (bytes : list byte) : bool := (zlen bytes <=? LIMIT) && has_signature bytes && decode_png bytes.

(** [inr None]: more is to come. *)
Definition push (chunk : ClipboardImageChunk) (now : Z) (a : Assembly) : Assembly * Result (option (list byte)) unit :=
  let a := expire now a in
  let total := ci_total_bytes chunk in
  let bytes := ci_png_bytes chunk in
  if negb ((8 <=? total) && (total <=? LIMIT)) || bool_decide (bytes = []) || (CHUNK_LIMIT <? zlen bytes) then (cancel a, Err tt) else
  let begun :=
    if ci_offset chunk =? 0 then
      if 65536 <=? Z.of_nat (size (ay_used a)) then Err a else
      let fresh := bool_decide (ci_transfer_id chunk ∉ ay_used a) in
      let a := mk_Assembly (ay_active a) ({[ci_transfer_id chunk]} ∪ ay_used a) in
      if negb fresh || negb (has_signature bytes) then Err a else Ok (mk_Assembly (Some (ci_transfer_id chunk, total, now, [])) (ay_used a))
    else Ok a in
  match begun with
  | Err a => (cancel a, Err tt)
  | Ok a =>
      match ay_active a with
      | None => (a, Err tt)
      | Some (id, expected, started, received) =>
          if negb (id =? ci_transfer_id chunk) || negb (expected =? total) || negb (zlen received =? ci_offset chunk) || (total <? zlen received + zlen bytes)
          then (cancel a, Err tt) else
          let received := received ++ bytes in
          if negb (zlen received =? total) then (mk_Assembly (Some (id, expected, started, received)) (ay_used a), Ok None) else
          (cancel a, if validate_png received then Ok (Some received) else Err tt)
      end
  end.
Fixpoint push_all (chunks : list (ClipboardImageChunk * Z)) (a : Assembly) : Assembly * list (list byte) :=
  match chunks with
  | [] => (a, [])
  | (chunk, now) :: chunks =>
      let '(a, r) := push chunk now a in
      let '(a, images) := push_all chunks a in (a, match r with Ok (Some image) => image :: images | _ => images end)
  end.
End image.

(** ** Text *)

Inductive ClipboardDecision : Type := Unchanged | SuppressEcho | Duplicate | Concealed | Empty | Oversized | SendText (text : String).
Record ClipboardSynchronizer := mk_ClipboardSynchronizer { sy_last_change_count : Z; sy_last_written : option Z; sy_last_hash : option Z }.
Definition synchronizer_new (count : Z) : ClipboardSynchronizer := mk_ClipboardSynchronizer count None None.
Definition CONCEALED_CLIPBOARD_TYPES : list String := [lit "org.nspasteboard.ConcealedType"; lit "org.nspasteboard.TransientType"].

Section text.
Context (text_hash : String → Z).
Definition record_remote_write (text : String) (count : Z) (s : ClipboardSynchronizer) : ClipboardSynchronizer :=
  mk_ClipboardSynchronizer count (Some count) (Some (text_hash text)).
Definition poll (count : Z) (text : String) (types : list String) (s : ClipboardSynchronizer) : ClipboardSynchronizer * ClipboardDecision :=
  if bool_decide (sy_last_written s = Some count) then (mk_ClipboardSynchronizer count None (sy_last_hash s), SuppressEcho) else
  if count =? sy_last_change_count s then (s, Unchanged) else
  let s := mk_ClipboardSynchronizer count (sy_last_written s) (sy_last_hash s) in
  if existsb (λ ty, bool_decide (ty ∈ CONCEALED_CLIPBOARD_TYPES)) types then (s, Concealed) else
  if bool_decide (text = []) then (s, Empty) else
  let hash := text_hash text in
  if bool_decide (sy_last_hash s = Some hash) then (s, Duplicate) else
  if MAX_CLIPBOARD_TEXT_BYTES <? zlen text then (s, Oversized) else
  (mk_ClipboardSynchronizer count (sy_last_written s) (Some hash), SendText text).

(** The clipboard of the platform as the in-memory one of the code has it, and the monitor, whose
    two operations hold the lock of the synchronizer throughout. *)
Record ClipboardSnapshot := mk_ClipboardSnapshot { cs_change_count : Z; cs_text : option String; cs_types : list String }.
Definition set_text (text : String) (types : list String) (c : ClipboardSnapshot) : ClipboardSnapshot :=
  mk_ClipboardSnapshot ((cs_change_count c + 1) mod 2 ^ 64) (Some text) types.
Definition PLAIN_TEXT : list String := [lit "public.utf8-plain-text"].
Record ClipboardMonitor := mk_ClipboardMonitor { cm_clipboard : ClipboardSnapshot; cm_synchronizer : ClipboardSynchronizer }.
Definition monitor_new (c : ClipboardSnapshot) : ClipboardMonitor := mk_ClipboardMonitor c (synchronizer_new (cs_change_count c)).
Definition apply_remote (text : String) (m : ClipboardMonitor) : ClipboardMonitor :=
  let c := set_text text PLAIN_TEXT (cm_clipboard m) in
  mk_ClipboardMonitor c (record_remote_write text (cs_change_count c) (cm_synchronizer m)).
Definition poll_once (m : ClipboardMonitor) : ClipboardMonitor * ClipboardDecision :=
  let c := cm_clipboard m in
  let '(s, d) := poll (cs_change_count c) (default [] (cs_text c)) (cs_types c) (cm_synchronizer m) in (mk_ClipboardMonitor c s, d).
(** The user copies, the peer writes, the worker polls and hands on what is to be sent. *)
Inductive ClipboardStep : Type := UserCopies (text : String) (types : list String) | PeerWrites (text : String) | WorkerPolls.
Definition clipboard_step (i : ClipboardStep) (m : ClipboardMonitor) : ClipboardMonitor * list String :=
  match i with
  | UserCopies text types => (mk_ClipboardMonitor (set_text text types (cm_clipboard m)) (cm_synchronizer m), [])
  | PeerWrites text => (apply_remote text m, [])
  | WorkerPolls => let '(m, d) := poll_once m in (m, match d with SendText text => [text] | _ => [] end)
  end.
Fixpoint clipboard_run (steps : list ClipboardStep) (m : ClipboardMonitor) : ClipboardMonitor * list String :=
  match steps with
  | [] => (m, [])
  | i :: steps => let '(m, sent) := clipboard_step i m in let '(m, sent') := clipboard_run steps m in (m, sent ++ sent')
  end.
End text.

(** ** Images arrive whole *)

Section image_spec.
Context (decode_png : list byte → bool).
#[local] Abbreviation push := (push decode_png).
#[local] Abbreviation push_all := (push_all decode_png).
#[local] Abbreviation validate_png := (validate_png decode_png).

Lemma chunk_size (rest : list byte) : zlen (take (Z.to_nat CHUNK_LIMIT) rest) = Z.min CHUNK_LIMIT (zlen rest).
Proof. unfold zlen. rewrite length_take. unfold CHUNK_LIMIT. lia. Qed.
(** A push of the next piece of the transfer under way. *)
Lemma push_piece id total started received rest now used off :
  8 ≤ total ≤ LIMIT → rest ≠ [] → zlen received = off → off + zlen rest = total → 0 ≤ now - started < IMAGE_TIMEOUT → 0 < off →
  push (mk_ClipboardImageChunk id total off (take (Z.to_nat CHUNK_LIMIT) rest)) now (mk_Assembly (Some (id, total, started, received)) used) =
  if CHUNK_LIMIT <? zlen rest then (mk_Assembly (Some (id, total, started, received ++ take (Z.to_nat CHUNK_LIMIT) rest)) used, Ok None)
  else (mk_Assembly None used, if validate_png (received ++ rest) then Ok (Some (received ++ rest)) else Err tt).
Proof.
  intros Ht Hne Hoff Htot Hnow Hpos. pose proof (chunk_size rest) as Hc. assert (0 < zlen rest) as Hr by (destruct rest; [done|unfold zlen; cbn; lia]).
  unfold RdClipboard.push. cbn [ci_total_bytes ci_png_bytes ci_offset ci_transfer_id]. unfold expire. cbn [ay_active].
  assert ((IMAGE_TIMEOUT <=? sat_sub now started) = false) as -> by (apply Z.leb_gt; unfold sat_sub; lia).
  assert (negb ((8 <=? total) && (total <=? LIMIT)) = false) as -> by (rewrite negb_false_iff, andb_true_iff, !Z.leb_le; lia).
  rewrite bool_decide_false by (intros E; rewrite E in Hc; unfold zlen, CHUNK_LIMIT in *; cbn in Hc; lia).
  assert ((CHUNK_LIMIT <? zlen (take (Z.to_nat CHUNK_LIMIT) rest)) = false) as -> by (apply Z.ltb_ge; lia).
  assert ((off =? 0) = false) as -> by (apply Z.eqb_neq; lia). cbn [orb ay_active ay_used]. rewrite !Z.eqb_refl. subst off. rewrite Z.eqb_refl. cbn [negb orb].
  assert ((total <? zlen received + zlen (take (Z.to_nat CHUNK_LIMIT) rest)) = false) as -> by (apply Z.ltb_ge; lia).
  assert (zlen (received ++ take (Z.to_nat CHUNK_LIMIT) rest) = zlen received + Z.min CHUNK_LIMIT (zlen rest)) as Hl by (rewrite <- Hc; unfold zlen; rewrite length_app; lia).
  destruct (Z.ltb_spec CHUNK_LIMIT (zlen rest)) as [H|H].
  - assert ((zlen (received ++ take (Z.to_nat CHUNK_LIMIT) rest) =? total) = false) as -> by (apply Z.eqb_neq; lia). done.
  - assert ((zlen (received ++ take (Z.to_nat CHUNK_LIMIT) rest) =? total) = true) as -> by (apply Z.eqb_eq; lia).
    rewrite take_ge by (unfold zlen, CHUNK_LIMIT in *; lia). done.
Qed.
Lemma rest_size (rest : list byte) : zlen (drop (Z.to_nat CHUNK_LIMIT) rest) = Z.max 0 (zlen rest - CHUNK_LIMIT).
Proof. unfold zlen. rewrite length_drop. unfold CHUNK_LIMIT. lia. Qed.
Lemma push_all_cons chunk now l a :
  push_all ((chunk, now) :: l) a = let '(a, r) := push chunk now a in let '(a, images) := push_all l a in (a, match r with Ok (Some image) => image :: images | _ => images end).
Proof. done. Qed.
Lemma image_chunks_cons fuel id total off rest : rest ≠ [] → image_chunks (S fuel) id total off rest =
  mk_ClipboardImageChunk id total off (take (Z.to_nat CHUNK_LIMIT) rest) :: image_chunks fuel id total (off + CHUNK_LIMIT) (drop (Z.to_nat CHUNK_LIMIT) rest).
Proof. by destruct rest. Qed.
Lemma image_chunks_nil fuel id total off : image_chunks fuel id total off [] = [].
Proof. by destruct fuel. Qed.
Lemma zip_cons {A B} (a : A) (b : B) l k : zip (a :: l) (b :: k) = (a, b) :: zip l k.
Proof. done. Qed.
Lemma zlen_zero {A} (l : list A) : zlen l = 0 → l = [].
Proof. destruct l; [done|]. unfold zlen. rewrite length_cons. lia. Qed.
Lemma push_rest fuel id total started received rest used off times :
  8 ≤ total ≤ LIMIT → zlen received = off → off + zlen rest = total → 0 < off → rest ≠ [] → (length rest ≤ fuel)%nat → validate_png (received ++ rest) = true →
  length times = length (image_chunks fuel id total off rest) → Forall (λ now, 0 ≤ now - started < IMAGE_TIMEOUT) times →
  push_all (zip (image_chunks fuel id total off rest) times) (mk_Assembly (Some (id, total, started, received)) used) = (mk_Assembly None used, [received ++ rest]).
Proof.
  revert received rest off times. induction fuel as [|fuel IH]; intros received rest off times Ht Hoff Htot Hpos Hne Hf Hv; [destruct rest; [done|rewrite length_cons in Hf; lia]|].
  rewrite image_chunks_cons by done. destruct times as [|now times]; [done|]. rewrite !length_cons. intros Hlen%Nat.succ_inj [Hnow Htimes]%Forall_cons.
  rewrite zip_cons, push_all_cons, (push_piece id total started received rest now used off) by done. destruct (Z.ltb_spec CHUNK_LIMIT (zlen rest)) as [H|H].
  - assert (zlen (take (Z.to_nat CHUNK_LIMIT) rest) = CHUNK_LIMIT) as Hc by (rewrite chunk_size; lia).
    assert (zlen (drop (Z.to_nat CHUNK_LIMIT) rest) = zlen rest - CHUNK_LIMIT) as Hd by (rewrite rest_size; lia).
    assert (0 < CHUNK_LIMIT) by done.
    rewrite (IH (received ++ take (Z.to_nat CHUNK_LIMIT) rest)); rewrite <- ?app_assoc, ?take_drop; [done|done| | | | | |done|done|done].
    + rewrite zlen_app, Hc, Hoff. done.
    + rewrite Hd. lia.
    + lia.
    + intros E. rewrite E in Hd. change (zlen []) with 0 in Hd. lia.
    + clear -Hf H. rewrite length_drop. assert (0 < Z.to_nat CHUNK_LIMIT)%nat by (apply (Z2Nat.inj_lt 0); done). lia.
  - rewrite Hv. assert (drop (Z.to_nat CHUNK_LIMIT) rest = []) as -> by (apply zlen_zero; rewrite rest_size; lia). by rewrite image_chunks_nil.
Qed.
Lemma signature_long bytes : has_signature bytes = true → 8 ≤ zlen bytes ∧ take (length SIGNATURE) (take (Z.to_nat CHUNK_LIMIT) bytes) = SIGNATURE.
Proof.
  unfold has_signature. intros H%bool_decide_eq_true. split.
  - apply (f_equal length) in H. rewrite length_take in H. change (length SIGNATURE) with 8%nat in H. unfold zlen. lia.
  - rewrite take_take. replace (length SIGNATURE `min` Z.to_nat CHUNK_LIMIT)%nat with (length SIGNATURE); [done|]. symmetry. apply Nat.min_l, (Nat2Z.inj_le _ _). rewrite Z2Nat.id by done. by apply Z.leb_le.
Qed.
(** The first piece starts a transfer, whatever was under way. *)
Lemma push_first id bytes now a : validate_png bytes = true → (id ∉ ay_used a) → Z.of_nat (size (ay_used a)) < 65536 →
  push (mk_ClipboardImageChunk id (zlen bytes) 0 (take (Z.to_nat CHUNK_LIMIT) bytes)) now a =
  let used := {[id]} ∪ ay_used a in
  if CHUNK_LIMIT <? zlen bytes then (mk_Assembly (Some (id, zlen bytes, now, take (Z.to_nat CHUNK_LIMIT) bytes)) used, Ok None) else (mk_Assembly None used, Ok (Some bytes)).
Proof.
  intros Hv Hid Hsz. pose proof Hv as Hv'. unfold RdClipboard.validate_png in Hv. apply andb_true_iff in Hv as [[Hl%Z.leb_le Hsig]%andb_true_iff _]. destruct (signature_long _ Hsig) as [H8 Ht].
  pose proof (chunk_size bytes) as Hc. assert (0 < CHUNK_LIMIT) by done. unfold RdClipboard.push. cbn [ci_total_bytes ci_png_bytes ci_offset ci_transfer_id]. cbv zeta.
  assert (ay_used (expire now a) = ay_used a) as Hu by (unfold expire; by repeat case_match). rewrite Hu.
  assert (negb ((8 <=? zlen bytes) && (zlen bytes <=? LIMIT)) = false) as -> by (rewrite negb_false_iff, andb_true_iff, !Z.leb_le; lia).
  rewrite bool_decide_false by (intros E; rewrite E in Hc; change (zlen []) with 0 in Hc; lia).
  assert ((CHUNK_LIMIT <? zlen (take (Z.to_nat CHUNK_LIMIT) bytes)) = false) as -> by (apply Z.ltb_ge; lia). cbn [orb].
  rewrite Z.eqb_refl. assert ((65536 <=? Z.of_nat (size (ay_used a))) = false) as -> by (apply Z.leb_gt; lia). rewrite bool_decide_true by done.
  assert (has_signature (take (Z.to_nat CHUNK_LIMIT) bytes) = true) as -> by (unfold has_signature; by rewrite bool_decide_true). cbn [negb orb ay_active ay_used].
  rewrite !Z.eqb_refl. change (zlen []) with 0. rewrite ?Z.eqb_refl. cbn [negb orb app]. rewrite Hc. assert ((zlen bytes <? 0 + Z.min CHUNK_LIMIT (zlen bytes)) = false) as -> by (apply Z.ltb_ge; lia).
  destruct (Z.ltb_spec CHUNK_LIMIT (zlen bytes)) as [H1|H1].
  - assert ((Z.min CHUNK_LIMIT (zlen bytes) =? zlen bytes) = false) as -> by (apply Z.eqb_neq; lia). done.
  - assert ((Z.min CHUNK_LIMIT (zlen bytes) =? zlen bytes) = true) as -> by (apply Z.eqb_eq; lia). cbn [negb]. assert (take (Z.to_nat CHUNK_LIMIT) bytes = bytes) as ->; [|by rewrite Hv'].
    rewrite <- (take_drop (Z.to_nat CHUNK_LIMIT) bytes) at 2. assert (drop (Z.to_nat CHUNK_LIMIT) bytes = []) as -> by (apply zlen_zero; rewrite rest_size; lia). by rewrite app_nil_r.
Qed.

(** An image the host sends arrives.  Cut into pieces and pushed in order, within five seconds of
    the first piece, under an id that was not used, a valid image is delivered exactly, once, and
    whatever transfer was under way before; after it no transfer is under way. *)
Theorem image_roundtrip id bytes times started a :
  validate_png bytes = true → (id ∉ ay_used a) → Z.of_nat (size (ay_used a)) < 65536 →
  length times = length (send_image id bytes) → times !! 0%nat = Some started → Forall (λ now, 0 ≤ now - started < IMAGE_TIMEOUT) times →
  push_all (zip (send_image id bytes) times) a = (mk_Assembly None ({[id]} ∪ ay_used a), [bytes]).
Proof.
  intros Hv Hid Hsz Hlen Hst Htimes. assert (8 ≤ zlen bytes ≤ LIMIT) as H8.
  { unfold RdClipboard.validate_png in Hv. apply andb_true_iff in Hv as [[Hl%Z.leb_le Hsig]%andb_true_iff _]. destruct (signature_long _ Hsig). lia. }
  assert (0 < CHUNK_LIMIT) as Hpos by done. destruct times as [|now times]; [done|]. injection Hst as <-. unfold send_image in *.
  destruct (length bytes) as [|n] eqn:En; [unfold zlen in H8; lia|]. assert (bytes ≠ []) as Hne by (by intros ->). rewrite image_chunks_cons in Hlen |- * by done. rewrite !length_cons in Hlen. apply Nat.succ_inj in Hlen. apply Forall_cons in Htimes as [_ Htimes].
  rewrite zip_cons, push_all_cons, push_first by done. cbv zeta. pose proof (rest_size bytes) as Hd. rewrite <- (take_drop (Z.to_nat CHUNK_LIMIT) bytes) in Hv. destruct (Z.ltb_spec CHUNK_LIMIT (zlen bytes)) as [H|H].
  - rewrite push_rest; rewrite ?take_drop in *; try done; rewrite ?chunk_size; try lia; [intros E; rewrite E in Hd; change (zlen []) with 0 in Hd; lia|].
    rewrite length_drop, En. assert (0 < Z.to_nat CHUNK_LIMIT)%nat by (apply (Z2Nat.inj_lt 0); done). lia.
  - assert (drop (Z.to_nat CHUNK_LIMIT) bytes = []) as -> by (apply zlen_zero; lia). by rewrite image_chunks_nil.
Qed.

(** The bytes of an image are those of consecutive pieces of one transfer, of its size, all within
    five seconds of the first. *)
Definition whole (l : list (ClipboardImageChunk * Z)) (image : list byte) : Prop :=
  validate_png image = true ∧ ∃ before id started run after, l = before ++ run ++ after ∧
    concat ((λ c, ci_png_bytes c.1) <$> run) = image ∧ snd <$> head run = Some started ∧
    Forall (λ c, ci_transfer_id c.1 = id ∧ ci_total_bytes c.1 = zlen image ∧ c.2 - started < IMAGE_TIMEOUT) run.
Definition under_way (l : list (ClipboardImageChunk * Z)) (a : Assembly) : Prop :=
  ∀ id total started received, ay_active a = Some (id, total, started, received) → ∃ before run, l = before ++ run ∧
    concat ((λ c, ci_png_bytes c.1) <$> run) = received ∧ snd <$> head run = Some started ∧
    Forall (λ c, ci_transfer_id c.1 = id ∧ ci_total_bytes c.1 = total ∧ c.2 - started < IMAGE_TIMEOUT) run.
Lemma under_way_cancel l a : under_way l (cancel a).
Proof. done. Qed.
Lemma expire_active now a id total started received : ay_active (expire now a) = Some (id, total, started, received) → ay_active a = Some (id, total, started, received) ∧ now - started < IMAGE_TIMEOUT.
Proof.
  unfold expire. destruct (ay_active a) as [[[[i t] st] rc]|] eqn:Ea; [|congruence]. destruct (Z.leb_spec IMAGE_TIMEOUT (sat_sub now st)) as [|H]; [done|]. rewrite Ea. intros [= <- <- <- <-]. split; [done|]. unfold sat_sub in H. lia.
Qed.
(** The end of [push], for a transfer with the pieces so far. *)
Lemma push_end l chunk now id total started received used before run a' r :
  l = before ++ run → concat ((λ c, ci_png_bytes c.1) <$> run) = received → snd <$> head (run ++ [(chunk, now)]) = Some started → now - started < IMAGE_TIMEOUT →
  Forall (λ c, ci_transfer_id c.1 = id ∧ ci_total_bytes c.1 = total ∧ c.2 - started < IMAGE_TIMEOUT) run →
  (if negb (id =? ci_transfer_id chunk) || negb (total =? ci_total_bytes chunk) || negb (zlen received =? ci_offset chunk) || (ci_total_bytes chunk <? zlen received + zlen (ci_png_bytes chunk))
   then (mk_Assembly None used, Err tt) else
   if negb (zlen (received ++ ci_png_bytes chunk) =? ci_total_bytes chunk) then (mk_Assembly (Some (id, total, started, received ++ ci_png_bytes chunk)) used, Ok None) else
   (mk_Assembly None used, if validate_png (received ++ ci_png_bytes chunk) then Ok (Some (received ++ ci_png_bytes chunk)) else Err tt)) = (a', r) →
  under_way (l ++ [(chunk, now)]) a' ∧ match r with Ok (Some image) => whole (l ++ [(chunk, now)]) image | _ => True end.
Proof.
  intros -> <- Hh Hnow Hall. destruct (Z.eqb_spec id (ci_transfer_id chunk)) as [Hid|]; cbn [negb orb]; [|intros [= <- <-]; done].
  destruct (Z.eqb_spec total (ci_total_bytes chunk)) as [Ht|]; cbn [negb orb]; [|intros [= <- <-]; done]. destruct (_ || _); [intros [= <- <-]; done|].
  set (image := concat _ ++ ci_png_bytes chunk). assert (concat ((λ c, ci_png_bytes c.1) <$> (run ++ [(chunk, now)])) = image) as Hi by (rewrite fmap_app, concat_app; cbn; by rewrite app_nil_r).
  assert (Forall (λ c, ci_transfer_id c.1 = id ∧ ci_total_bytes c.1 = total ∧ c.2 - started < IMAGE_TIMEOUT) (run ++ [(chunk, now)])) as Hall' by (apply Forall_app; rewrite Forall_singleton; done).
  destruct (Z.eqb_spec (zlen image) (ci_total_bytes chunk)) as [Hz|]; cbn [negb].
  - intros [= <- <-]. split; [done|]. destruct (validate_png image) eqn:Hv; [|done]. split; [done|]. exists before, id, started, (run ++ [(chunk, now)]), []. rewrite app_nil_r, app_assoc. rewrite Hz, <- Ht. done.
  - intros [= <- <-]. split; [|done]. intros i t st rc [= <- <- <- <-]. exists before, (run ++ [(chunk, now)]). by rewrite app_assoc.
Qed.
Lemma push_whole l chunk now a a' r : under_way l a → push chunk now a = (a', r) →
  under_way (l ++ [(chunk, now)]) a' ∧ match r with Ok (Some image) => whole (l ++ [(chunk, now)]) image | _ => True end.
Proof.
  intros Hu. unfold RdClipboard.push. cbv zeta. destruct (negb (_ && _) || _ || _); [intros [= <- <-]; done|]. destruct (Z.eqb_spec (ci_offset chunk) 0) as [H0|H0].
  - destruct (65536 <=? _); [intros [= <- <-]; done|]. destruct (negb _ || negb _); [intros [= <- <-]; done|]. cbn [ay_active ay_used]. intros E.
    by eapply (push_end l chunk now (ci_transfer_id chunk) (ci_total_bytes chunk) now [] _ l []); [by rewrite app_nil_r| |done|rewrite Z.sub_diag| |exact E].
  - destruct (ay_active (expire now a)) as [[[[id total] started] received]|] eqn:Ea; [|intros [= <- <-]; split; [|done]; intros ????; congruence].
    destruct (expire_active _ _ _ _ _ _ Ea) as [Ea' Hnow]. destruct (Hu _ _ _ _ Ea') as (before & run & Hl & Hr & Hh & Hall). intros E.
    eapply (push_end l chunk now id total started received _ before run); [done|done| |done|done|exact E]. by destruct run.
Qed.
Lemma whole_app l k image : whole l image → whole (l ++ k) image.
Proof. intros (? & before & id & started & run & after & -> & ?). split; [done|]. exists before, id, started, run, (after ++ k). by rewrite <- !app_assoc. Qed.
Lemma push_all_whole h l a : under_way h a → under_way (h ++ l) (push_all l a).1 ∧ Forall (whole (h ++ l)) (push_all l a).2.
Proof.
  revert h a. induction l as [|[chunk now] l IH]; intros h a Hu; [by rewrite app_nil_r|]. rewrite push_all_cons. destruct (push chunk now a) as [a' r] eqn:Ep. destruct (push_whole _ _ _ _ _ _ Hu Ep) as [Hu' Hr].
  specialize (IH (h ++ [(chunk, now)]) a' Hu'). rewrite <- app_assoc in IH. destruct (push_all l a') as [a'' images]. cbn [fst snd app] in *. destruct IH as [H1 H2]. split; [done|].
  destruct r as [[image|]|]; [|done|done]. constructor; [|done]. apply (whole_app _ l) in Hr. by rewrite <- app_assoc in Hr.
Qed.

(** Whatever pieces a peer sends, in whatever order and at whatever time, every image that is
    delivered is a valid one of at most 8 MiB and is exactly the concatenation of consecutive pieces
    that carry one transfer id and the size of that image, each at most five seconds after the first:
    pieces of different transfers are never mixed, reordered, repeated or left out. *)
Theorem image_authentic l : Forall (λ image, zlen image ≤ LIMIT ∧ whole l image) (push_all l assembly0).2.
Proof.
  destruct (push_all_whole [] l assembly0) as [_ H]; [done|]. eapply Forall_impl; [exact H|]. intros image Hw. split; [|done]. destruct Hw as [Hv _]. unfold RdClipboard.validate_png in Hv. apply andb_true_iff in Hv as [[?%Z.leb_le _]%andb_true_iff _]. done.
Qed.
End image_spec.

(** ** Text is not echoed *)

Section text_spec.
Context (text_hash : String → Z).
#[local] Abbreviation poll := (poll text_hash).
#[local] Abbreviation clipboard_step := (clipboard_step text_hash).
#[local] Abbreviation clipboard_run := (clipboard_run text_hash).

Definition copies (steps : list ClipboardStep) : list String := omap (λ i, match i with UserCopies text _ => Some text | _ => None end) steps.
(** Whether the monitor has seen the last change, or it is a copy of the user. *)
Definition sent_ok (m : ClipboardMonitor) (copied sent : list String) : Prop :=
  (sy_last_change_count (cm_synchronizer m) = cs_change_count (cm_clipboard m) ∧ sent `sublist_of` copied) ∨
  ∃ front text, cs_text (cm_clipboard m) = Some text ∧ copied = front ++ [text] ∧ sent `sublist_of` front.
Lemma sent_ok_sublist m copied sent : sent_ok m copied sent → sent `sublist_of` copied.
Proof. intros [[_ ?]|(front & text & _ & -> & ?)]; [done|]. by apply sublist_inserts_r. Qed.
Lemma poll_cases count text types s s' d : poll count text types s = (s', d) → sy_last_change_count s' = count ∧
  (d = SendText text ∧ count ≠ sy_last_change_count s ∧ text ≠ [] ∧ zlen text ≤ MAX_CLIPBOARD_TEXT_BYTES ∧ sy_last_hash s ≠ Some (text_hash text) ∧ sy_last_hash s' = Some (text_hash text) ∨
   (∀ t, d ≠ SendText t) ∧ sy_last_hash s' = sy_last_hash s).
Proof.
  unfold RdClipboard.poll. case_bool_decide; [intros [= <- <-]; auto|]. destruct (Z.eqb_spec count (sy_last_change_count s)) as [E|E]; [intros [= <- <-]; auto|]. destruct (existsb _ _); [intros [= <- <-]; auto|].
  case_bool_decide; [intros [= <- <-]; auto|]. cbn [sy_last_hash]. case_bool_decide; [intros [= <- <-]; auto|]. destruct (Z.ltb_spec MAX_CLIPBOARD_TEXT_BYTES (zlen text)); intros [= <- <-]; auto. split; [done|]. left. auto 10.
Qed.
Lemma clipboard_step_ok i m m' out copied sent : sent_ok m copied sent → clipboard_step i m = (m', out) →
  sent_ok m' (copied ++ copies [i]) (sent ++ out) ∧ Forall (λ text, text ≠ [] ∧ zlen text ≤ MAX_CLIPBOARD_TEXT_BYTES) out.
Proof.
  intros Hok. unfold RdClipboard.clipboard_step. destruct i as [text types|text|].
  - intros [= <- <-]. split; [|done]. right. exists copied, text. rewrite app_nil_r. split_and!; [done|done|by eapply sent_ok_sublist].
  - intros [= <- <-]. split; [|done]. left. cbn [copies omap list_omap]. rewrite !app_nil_r. split; [done|by eapply sent_ok_sublist].
  - unfold poll_once. destruct (poll _ _ _ _) as [s d] eqn:Ep. intros [= <- <-]. apply poll_cases in Ep as [Hc Hd]. cbn [copies omap list_omap]. rewrite app_nil_r.
    destruct Hd as [(-> & Hn & Hne & Hl & _)|[Hd _]].
    + split; [|by rewrite Forall_singleton]. left. split; [done|]. destruct Hok as [[? _]|(front & text & Ht & -> & Hs)]; [congruence|]. rewrite Ht. cbn [default from_option]. by apply sublist_app.
    + assert (match d with SendText text => [text] | _ => [] end = []) as -> by (destruct d; [done..|by destruct (Hd text)]). split; [|done]. rewrite app_nil_r. left. split; [done|by eapply sent_ok_sublist].
Qed.
Lemma clipboard_run_ok steps m copied sent : sent_ok m copied sent →
  sent_ok (clipboard_run steps m).1 (copied ++ copies steps) (sent ++ (clipboard_run steps m).2) ∧ Forall (λ text, text ≠ [] ∧ zlen text ≤ MAX_CLIPBOARD_TEXT_BYTES) (clipboard_run steps m).2.
Proof.
  revert m copied sent. induction steps as [|i steps IH]; intros m copied sent Hok; cbn [RdClipboard.clipboard_run]; [by rewrite !app_nil_r|]. destruct (clipboard_step i m) as [m' out] eqn:Es.
  destruct (clipboard_step_ok _ _ _ _ _ _ Hok Es) as [Hok' Hf]. specialize (IH m' _ _ Hok'). destruct (clipboard_run steps m') as [m'' out']. cbn [fst snd] in *. destruct IH as [H1 H2].
  assert (copies (i :: steps) = copies [i] ++ copies steps) as -> by (by destruct i). rewrite !app_assoc. split; [done|]. by apply Forall_app.
Qed.
(** The counts the synchronizer remembers are those of earlier changes. *)
Definition counts_ok (c0 n : Z) (m : ClipboardMonitor) : Prop :=
  0 ≤ n ∧ cs_change_count (cm_clipboard m) = (c0 + n) mod 2 ^ 64 ∧
  (∃ k, 0 ≤ k ≤ n ∧ sy_last_change_count (cm_synchronizer m) = (c0 + k) mod 2 ^ 64) ∧
  ∀ w, sy_last_written (cm_synchronizer m) = Some w → ∃ k, 0 ≤ k ≤ n ∧ w = (c0 + k) mod 2 ^ 64.
Lemma poll_counts count text types s s' d : poll count text types s = (s', d) →
  sy_last_change_count s' = count ∧ ∀ w, sy_last_written s' = Some w → sy_last_written s = Some w.
Proof. unfold RdClipboard.poll. case_bool_decide; [by intros [= <- <-]|]. destruct (Z.eqb_spec count (sy_last_change_count s)) as [->|]; [by intros [= <- <-]|]. by repeat (case_bool_decide || case_match); intros [= <- <-]. Qed.
Lemma counts_weaken {P : Z → Prop} n n' : n ≤ n' → (∃ k, 0 ≤ k ≤ n ∧ P k) → ∃ k, 0 ≤ k ≤ n' ∧ P k.
Proof. intros ? (k & ? & ?). exists k. split; [lia|done]. Qed.
Lemma clipboard_step_counts i m c0 n : counts_ok c0 n m → ∃ n', n ≤ n' ≤ n + 1 ∧ counts_ok c0 n' (clipboard_step i m).1.
Proof.
  intros (Hn & Hc & Hl & Hw). assert (((c0 + n) mod 2 ^ 64 + 1) mod 2 ^ 64 = (c0 + (n + 1)) mod 2 ^ 64) as Hs by (rewrite Z.add_mod_idemp_l by done; f_equal; lia). unfold RdClipboard.clipboard_step. destruct i as [text types|text|].
  - exists (n + 1). split; [lia|]. split_and!; [lia|cbn; by rewrite Hc|by eapply counts_weaken, Hl; lia|]. intros w E. eapply counts_weaken; [|by apply Hw]. lia.
  - exists (n + 1). split; [lia|]. assert (cs_change_count (cm_clipboard (apply_remote text_hash text m)) = (c0 + (n + 1)) mod 2 ^ 64) as Hr by (cbn; by rewrite Hc). split_and!; [lia|done| |]; [|intros w [= <-]]; exists (n + 1); (split; [lia|done]).
  - exists n. split; [lia|]. unfold poll_once. destruct (poll _ _ _ _) as [s d] eqn:Ep. apply poll_counts in Ep as [E1 E2]. split_and!; cbn; [done|done| |by intros w ?%E2%Hw]. exists n. rewrite E1, Hc. split; [lia|done].
Qed.
Lemma clipboard_run_counts steps m c0 n : counts_ok c0 n m → ∃ n', n' ≤ n + Z.of_nat (length steps) ∧ counts_ok c0 n' (clipboard_run steps m).1.
Proof.
  revert m n. induction steps as [|i steps IH]; intros m n Hok; cbn [RdClipboard.clipboard_run]; [exists n; split; [lia|done]|]. destruct (clipboard_step_counts i m c0 n Hok) as (n1 & H1 & Hok1).
  destruct (clipboard_step i m) as [m' out]. destruct (IH m' n1 Hok1) as (n2 & H2 & Hok2). destruct (clipboard_run steps m') as [m'' out']. exists n2. split; [cbn [length]; lia|done].
Qed.
Lemma poll_sends m text types c0 n : counts_ok c0 n m → n + 1 < 2 ^ 64 → existsb (λ ty, bool_decide (ty ∈ CONCEALED_CLIPBOARD_TYPES)) types = false → text ≠ [] → zlen text ≤ MAX_CLIPBOARD_TEXT_BYTES →
  sy_last_hash (cm_synchronizer m) ≠ Some (text_hash text) → (clipboard_run [UserCopies text types; WorkerPolls] m).2 = [text].
Proof.
  intros (Hn & Hc & (k & Hk & Hl) & Hw) Hb Hty Hne Hlen Hh. cbn [RdClipboard.clipboard_run RdClipboard.clipboard_step app snd]. unfold poll_once. cbn [cm_clipboard cm_synchronizer set_text cs_change_count cs_text cs_types default from_option].
  rewrite Hc, Z.add_mod_idemp_l by done. rewrite <- Z.add_assoc. assert (∀ j, 0 ≤ j ≤ n → (c0 + j) mod 2 ^ 64 ≠ (c0 + (n + 1)) mod 2 ^ 64) as Hd.
  { intros j Hj E. assert ((c0 + (n + 1) - (c0 + j)) mod 2 ^ 64 = 0) as E' by (rewrite Zminus_mod, <- E, Z.sub_diag; done). replace (c0 + (n + 1) - (c0 + j)) with (n + 1 - j) in E' by lia. rewrite Z.mod_small in E' by lia. lia. }
  unfold RdClipboard.poll. rewrite bool_decide_false by (intros E; destruct (Hw _ E) as (j & Hj & Ej); by apply (Hd j)). assert (((c0 + (n + 1)) mod 2 ^ 64 =? sy_last_change_count (cm_synchronizer m)) = false) as -> by (apply Z.eqb_neq; rewrite Hl; intros E; by apply (Hd k)).
  rewrite Hty, bool_decide_false by done. cbn [sy_last_hash id]. rewrite bool_decide_false by done. assert ((MAX_CLIPBOARD_TEXT_BYTES <? zlen text) = false) as -> by (apply Z.ltb_ge; lia). done.
Qed.

(** C32: In every interleaving of copies by the user, writes by the peer and polls, what is sent is a
    subsequence of the user's copies, nonempty and of at most 4096 bytes: what the peer wrote is
    never sent back and no copy is sent twice.  And a copy is sent at the next poll, unless it is
    concealed, empty, too long or has the hash of the text last exchanged, as long as the clipboard
    changed fewer than 2^64 times. *)
Theorem clipboard_no_echo c steps : let '(m, sent) := clipboard_run steps (monitor_new c) in
  sent `sublist_of` copies steps ∧ Forall (λ text, text ≠ [] ∧ zlen text ≤ MAX_CLIPBOARD_TEXT_BYTES) sent ∧
  ∀ text types, 0 ≤ cs_change_count c < 2 ^ 64 → Z.of_nat (length steps) + 1 < 2 ^ 64 → existsb (λ ty, bool_decide (ty ∈ CONCEALED_CLIPBOARD_TYPES)) types = false → text ≠ [] → zlen text ≤ MAX_CLIPBOARD_TEXT_BYTES →
    sy_last_hash (cm_synchronizer m) ≠ Some (text_hash text) → (clipboard_run [UserCopies text types; WorkerPolls] m).2 = [text].
Proof.
  destruct (clipboard_run_ok steps (monitor_new c) [] []) as [H1 H2]; [by left|]. pose proof (clipboard_run_counts steps (monitor_new c) (cs_change_count c) 0) as Hc. destruct (clipboard_run steps (monitor_new c)) as [m sent].
  cbn [fst snd app] in *. split_and!; [by eapply sent_ok_sublist|done|]. intros text types Hr Hn Hty Hne Hl Hh. destruct Hc as (n & Hn' & Hok); [|apply (poll_sends m text types (cs_change_count c) n); [done|lia|done..]].
  split_and!; cbn; [done|by rewrite Z.add_0_r, Z.mod_small| |done]. exists 0. split; [lia|]. by rewrite Z.add_0_r, Z.mod_small.
Qed.
End text_spec.

(** ** Witnesses *)

Definition other_transfer : Assembly := mk_Assembly (Some (1, 20, 3, [x89])) {[1]}.
Lemma image_roundtrip_witness : push_all (λ _, true) (zip (send_image 2 (SIGNATURE ++ [x00])) [7]) other_transfer = (mk_Assembly None ({[2]} ∪ ay_used other_transfer), [SIGNATURE ++ [x00]]).
Proof. apply (image_roundtrip (λ _, true) 2 (SIGNATURE ++ [x00]) [7] 7 other_transfer); try reflexivity; [cbn; set_solver|]. repeat constructor; discriminate. Defined.

Lemma clipboard_no_echo_witness :
  let '(m, sent) := clipboard_run zlen [UserCopies (lit "a") []; WorkerPolls; PeerWrites (lit "bc"); WorkerPolls; WorkerPolls] (monitor_new (mk_ClipboardSnapshot 4 None [])) in
  sent = [lit "a"] ∧ (clipboard_run zlen [UserCopies (lit "def") []; WorkerPolls] m).2 = [lit "def"].
Proof.
  pose proof (clipboard_no_echo zlen (mk_ClipboardSnapshot 4 None []) [UserCopies (lit "a") []; WorkerPolls; PeerWrites (lit "bc"); WorkerPolls; WorkerPolls]) as H. cbn -[lit] in H |- *.
  destruct H as (_ & _ & H). split; [reflexivity|]. by apply (H (lit "def") []).
Defined.
