(* ===== verification/RdServe.v ===== *)
(** * RdServe: connections to a remote desktop host, and its lockout

    The accept loop of a host gives every connection a thread and one of 16 permits; a connection is
    offered the key of the pairing PIN while pairing is open, and failed handshakes close it.  The
    lockout ([BootstrapLockout]) and the identities of crates/ferryx-rd/ferryx-rd-net/src/tls_psk.rs,
    and [serve_with_stop], [serve_connection] and [current_psks] of ferryx-rd-host/src/session.rs, cut at
    every touch of the counter of permits, the clock and the lockout.  The handshake itself and the
    store's answers are environment choices; what an admitted connection may do is in RdGuest.
    Instants are nanoseconds. *)

From Stdlib Require Import ZArith Lia Strings.Byte.
From stdpp Require Import base option gmap fin_maps strings list.
From S2P Require Import Prelude Wire RdCodec RdControl RdRelay RdGuest.

#[local] Open Scope Z_scope.

(** ** Identities and the lockout (tls_psk.rs) *)

Definition MAX_PAIRING_ATTEMPTS : Z := 5.
Definition PAIRING_ATTEMPT_WINDOW : Z := 60 * SECOND.
Definition PAIRING_LOCKOUT : Z := 300 * SECOND.

Inductive TlsPskError : Type := InvalidIdentity | InvalidKeyLength.
Record PskIdentity := mk_PskIdentity { psk_identity : String; psk_key : list byte }.
Definition psk_new (identity : String) (key : list byte) : Result PskIdentity TlsPskError :=
  if bool_decide (identity = []) || bool_decide (x00 ∈ identity) then Err InvalidIdentity else
  if bool_decide (key = []) then Err InvalidKeyLength else Ok (mk_PskIdentity identity key).
Definition psk_pairing (pairing_id : String) (key : list byte) : Result PskIdentity TlsPskError :=
  if bool_decide (pairing_id = []) then Err InvalidIdentity else
  if negb (zlen key =? 32) then Err InvalidKeyLength else psk_new (PAIRING_IDENTITY_PREFIX ++ pairing_id) key.

Record BootstrapLockout := mk_BootstrapLockout {
  lk_pairing_active : bool;
  lk_failure_count : Z;
  lk_failure_window_start : option Z;
  lk_locked_until : option Z;
}.
Definition lockout_default : BootstrapLockout := mk_BootstrapLockout false 0 None None.
Definition begin_pairing (_ : BootstrapLockout) : BootstrapLockout := mk_BootstrapLockout true 0 None None.
Definition is_allowed (now : Z) (l : BootstrapLockout) : bool :=
  lk_pairing_active l && match lk_locked_until l with None => true | Some until => until <=? now end.
Definition record_failure (now : Z) (l : BootstrapLockout) : BootstrapLockout * bool :=
  let l := if match lk_failure_window_start l with None => true | Some start => PAIRING_ATTEMPT_WINDOW <? sat_sub now start end
           then mk_BootstrapLockout (lk_pairing_active l) 0 (Some now) (lk_locked_until l) else l in
  let count := lk_failure_count l + 1 in
  if MAX_PAIRING_ATTEMPTS <=? count
  then (mk_BootstrapLockout false count (lk_failure_window_start l) (Some (now + PAIRING_LOCKOUT)), true)
  else (mk_BootstrapLockout (lk_pairing_active l) count (lk_failure_window_start l) (lk_locked_until l), false).

(** ** Connections (session.rs) *)

Definition MAX_CONCURRENT_CONNECTIONS : Z := 16.
Definition DISABLED_IDENTITY : String := lit "maho-disabled".
(** What the store answers: the pairings, and for each its authorization and the wall clock then. *)
Record StoreAnswers := mk_StoreAnswers {
  sa_records : Result (list PairingRecord) SessionError;
  sa_authorization : String → Result (PairingTrust * option GuestPermissions) SessionError;
  sa_unix_ms : String → Z;
}.
Inductive ServeError : Type := StoreFailed (e : SessionError) | TlsFailed (e : TlsPskError).
Fixpoint pairings_of (records : list PairingRecord) : Result (list PskIdentity) TlsPskError :=
  match records with
  | [] => Ok []
  | r :: records =>
      match psk_pairing (rec_id r) (rec_key r) with
      | Err e => Err e
      | Ok p => match pairings_of records with Ok ps => Ok (p :: ps) | Err e => Err e end
      end
  end.
Definition stored_psks (a : StoreAnswers) : Result (list PskIdentity) ServeError :=
  match sa_records a with
  | Err e => Err (StoreFailed e)
  | Ok records =>
      let valid r := match sa_authorization a (rec_id r) with Ok (trust, _) => valid_trust trust (sa_unix_ms a (rec_id r)) | Err _ => false end in
      match pairings_of (List.filter valid records) with Ok ps => Ok ps | Err e => Err (TlsFailed e) end
  end.

(** A connection: with its permit, having compared the clock with the deadline of the pairing
    window, in the handshake, served, and over but for its permit. *)
Inductive Stage : Type :=
| Accepted
| Checked (stored : list PskIdentity) (in_time : bool)
| Shaking (psks : list PskIdentity)
| Serving
| Over.
(** [sv_guesses] counts failed handshakes of connections that were offered the key of the PIN, as no
    variable of the program does. *)
Record Server := mk_Server {
  sv_lockout : BootstrapLockout;
  sv_active : Z;
  sv_connections : gmap nat Stage;
  sv_clock : Z;
  sv_guesses : Z;
}.
Definition with_stage (id : nat) (stage : Stage) (s : Server) : Server :=
  mk_Server (sv_lockout s) (sv_active s) (<[id := stage]> (sv_connections s)) (sv_clock s) (sv_guesses s).
Definition with_clock (now : Z) (s : Server) : Server := mk_Server (sv_lockout s) (sv_active s) (sv_connections s) now (sv_guesses s).

Section serve.
(** The end of the pairing window and the key of the PIN, if the host has one. *)
Context (pairing_deadline : option Z) (bootstrap_psk : option (list byte)).

Definition bootstrap_identity : option PskIdentity := mk_PskIdentity BOOTSTRAP_IDENTITY <$> bootstrap_psk.
Definition offers (psks : list PskIdentity) : bool := existsb (λ p, bool_decide (psk_identity p = BOOTSTRAP_IDENTITY)) psks.
Definition in_window (now : Z) : bool := match pairing_deadline with Some deadline => now <? deadline | None => false end.
(** The rest of [current_psks], with the lockout locked. *)
Definition current_psks (stored : list PskIdentity) (in_time : bool) (now : Z) (disabled_key : list byte) (l : BootstrapLockout) : Result (list PskIdentity) ServeError :=
  let pairing_active := in_time && is_allowed now l in
  let psks := stored ++ match pairing_active, bootstrap_identity with true, Some identity => [identity] | _, _ => [] end in
  if bool_decide (psks = [])
  then match psk_new DISABLED_IDENTITY disabled_key with Ok p => Ok [p] | Err e => Err (TlsFailed e) end
  else Ok psks.

Inductive ServeStep : Type :=
| SvAccept (id : nat) (spawned : bool)
| SvCheck (id : nat) (answers : StoreAnswers) (now : Z)
| SvOffer (id : nat) (disabled_key : list byte) (now : Z)
| SvHandshake (id : nat) (established : bool) (now : Z)
| SvEnd (id : nat).
Definition serve_step (i : ServeStep) (s : Server) : option Server :=
  match i with
  | SvAccept id spawned =>
      if MAX_CONCURRENT_CONNECTIONS <=? sv_active s then Some s else
      (* The permit of a thread that cannot be spawned is dropped with its closure. *)
      if negb spawned then Some s else
      match sv_connections s !! id with
      | Some _ => None
      | None => Some (mk_Server (sv_lockout s) (sv_active s + 1) (<[id := Accepted]> (sv_connections s)) (sv_clock s) (sv_guesses s))
      end
  | SvCheck id answers now =>
      if now <? sv_clock s then None else
      match sv_connections s !! id with
      | Some Accepted =>
          Some (with_clock now (with_stage id (match stored_psks answers with Ok stored => Checked stored (in_window now) | Err _ => Over end) s))
      | _ => None
      end
  | SvOffer id disabled_key now =>
      if now <? sv_clock s then None else
      match sv_connections s !! id with
      | Some (Checked stored in_time) =>
          Some (with_clock now (with_stage id (match current_psks stored in_time now disabled_key (sv_lockout s) with Ok psks => Shaking psks | Err _ => Over end) s))
      | _ => None
      end
  | SvHandshake id established now =>
      if now <? sv_clock s then None else
      match sv_connections s !! id with
      | Some (Shaking psks) =>
          if established then Some (with_clock now (with_stage id Serving s)) else
          let '(lockout, _) := record_failure now (sv_lockout s) in
          Some (mk_Server lockout (sv_active s) (<[id := Over]> (sv_connections s)) now (sv_guesses s + if offers psks then 1 else 0))
      | _ => None
      end
  | SvEnd id =>
      match sv_connections s !! id with
      | Some (Serving | Over) => Some (mk_Server (sv_lockout s) (sv_active s - 1) (delete id (sv_connections s)) (sv_clock s) (sv_guesses s))
      | _ => None
      end
  end.
Fixpoint serve_run (steps : list ServeStep) (s : Server) : option Server :=
  match steps with [] => Some s | i :: steps => s ← serve_step i s; serve_run steps s end.
(** [bind]. *)
Definition server_new (now : Z) : Server :=
  mk_Server (match pairing_deadline with Some _ => begin_pairing lockout_default | None => lockout_default end) 0 ∅ now 0.
End serve.

(** ** Counting connections *)

Definition count_stages (P : Stage → bool) (m : gmap nat Stage) : Z := Z.of_nat (size (filter (λ kv, P kv.2 = true) m)).
Lemma count_stages_new P m id st : m !! id = None → count_stages P (<[id := st]> m) = count_stages P m + if P st then 1 else 0.
Proof.
  intros Hm. unfold count_stages. destruct (P st) eqn:E.
  - rewrite map_filter_insert_True by done. rewrite map_size_insert_None; [lia|]. apply map_lookup_filter_None. by left.
  - rewrite map_filter_insert_False by (cbn; by rewrite E). rewrite delete_id by done. lia.
Qed.
Lemma count_stages_delete P m id st : m !! id = Some st → count_stages P (delete id m) = count_stages P m - if P st then 1 else 0.
Proof. intros Hm. rewrite <- (insert_delete_id m id st Hm) at 2. rewrite count_stages_new by apply lookup_delete_eq. lia. Qed.
Lemma count_stages_update P m id st st' : m !! id = Some st → count_stages P (<[id := st']> m) = count_stages P m - (if P st then 1 else 0) + if P st' then 1 else 0.
Proof. intros Hm. rewrite <- insert_delete_eq, count_stages_new by apply lookup_delete_eq. by rewrite (count_stages_delete P m id st). Qed.
Lemma count_stages_size P m : 0 ≤ count_stages P m ≤ Z.of_nat (size m).
Proof. unfold count_stages. pose proof (map_subseteq_size _ _ (map_filter_subseteq (λ kv, P kv.2 = true) m)). lia. Qed.
Lemma count_stages_mono P Q m : (∀ st, P st = true → Q st = true) → count_stages P m ≤ count_stages Q m.
Proof.
  intros HPQ. unfold count_stages. apply inj_le, map_subseteq_size, map_subseteq_spec. intros id st [H1 H2]%map_lookup_filter_Some. apply map_lookup_filter_Some. split; [done|by apply HPQ].
Qed.
(** Connections offered the key, and those that may yet be. *)
Definition offered (st : Stage) : bool := match st with Shaking psks => offers psks | _ => false end.
Definition hopeful (st : Stage) : bool := match st with Shaking psks => offers psks | Checked _ in_time => in_time | _ => false end.
Lemma offered_hopeful st : offered st = true → hopeful st = true.
Proof. by destruct st. Qed.

(** ** Identities *)

Lemma psk_new_identity identity key p : psk_new identity key = Ok p → psk_identity p = identity.
Proof. unfold psk_new. destruct (_ || _); [done|]. case_bool_decide; [done|]. by intros [= <-]. Qed.
Lemma psk_pairing_identity id key p : psk_pairing id key = Ok p → psk_identity p ≠ BOOTSTRAP_IDENTITY.
Proof. unfold psk_pairing. case_bool_decide; [done|]. destruct (negb _); [done|]. intros ->%psk_new_identity. discriminate. Qed.
Lemma pairings_not_offered records ps : pairings_of records = Ok ps → offers ps = false.
Proof.
  revert ps. induction records as [|r records IH]; intros ps; cbn [pairings_of]; [by intros [= <-]|]. destruct (psk_pairing _ _) as [p|] eqn:Ep; [|done]. apply psk_pairing_identity in Ep.
  destruct (pairings_of records) as [ps'|]; [|done]. intros [= <-]. unfold offers in *. cbn [existsb]. by rewrite bool_decide_false, (IH ps').
Qed.
Lemma stored_not_offered a ps : stored_psks a = Ok ps → offers ps = false.
Proof. unfold stored_psks. destruct (sa_records a); [|done]. cbv zeta. destruct (pairings_of _) as [ps'|] eqn:E; [|done]. intros [= <-]. by eapply pairings_not_offered. Qed.
Lemma current_psks_offers bootstrap_psk stored in_time now key l psks : offers stored = false → current_psks bootstrap_psk stored in_time now key l = Ok psks → offers psks = true → in_time = true ∧ lk_pairing_active l = true.
Proof.
  intros Hst. unfold current_psks. case_bool_decide as Hn.
  - destruct (psk_new DISABLED_IDENTITY key) as [p|] eqn:Ep; [|done]. intros [= <-]. apply psk_new_identity in Ep. cbn. rewrite Ep. by rewrite bool_decide_false.
  - intros [= <-]. unfold offers. rewrite existsb_app. unfold offers in Hst. rewrite Hst. destruct in_time; [|done]. unfold is_allowed. by destruct (lk_pairing_active l).
Qed.

(** ** The lockout *)

Definition windows_ok (t0 clock guesses : Z) (l : BootstrapLockout) : Prop :=
  match lk_failure_window_start l with
  | None => lk_failure_count l = 0 ∧ guesses ≤ 0
  | Some start => ∃ k, 0 ≤ k ∧ t0 + k * PAIRING_ATTEMPT_WINDOW ≤ start ≤ clock ∧ guesses ≤ 4 * k + lk_failure_count l ∧ 0 ≤ lk_failure_count l ≤ 4
  end.
Lemma windows_later t0 clock clock' guesses l : clock ≤ clock' → windows_ok t0 clock guesses l → windows_ok t0 clock' guesses l.
Proof. unfold windows_ok. destruct (lk_failure_window_start l); [|done]. intros ? (k & ? & ? & ?). exists k. split_and!; try lia; tauto. Qed.
Lemma record_failure_windows t0 clock now guesses g l l' locked : t0 ≤ clock → clock ≤ now → 0 ≤ g ≤ 1 → windows_ok t0 clock guesses l → record_failure now l = (l', locked) → lk_pairing_active l' = true →
  lk_pairing_active l = true ∧ windows_ok t0 now (guesses + g) l'.
Proof.
  intros H0 Hc Hg Hw. unfold record_failure. assert (PAIRING_ATTEMPT_WINDOW > 0) as Hpos by done. set (fresh := match lk_failure_window_start l with None => true | Some start => _ end).
  destruct fresh eqn:Ef; cbv zeta; cbn [lk_failure_count lk_failure_window_start lk_pairing_active lk_locked_until].
  - change (MAX_PAIRING_ATTEMPTS <=? 0 + 1) with false. intros [= <- <-] Ha. split; [done|]. unfold windows_ok in *. cbn. destruct (lk_failure_window_start l) as [start|]; [|exists 0; lia].
    subst fresh. apply Z.ltb_lt in Ef. unfold sat_sub in Ef. destruct Hw as (k & Hk & Hst & Hgu & Hf). exists (k + 1). lia.
  - destruct (Z.leb_spec MAX_PAIRING_ATTEMPTS (lk_failure_count l + 1)) as [|Hm]; intros [= <- <-]; [done|]. intros Ha. split; [done|]. unfold windows_ok in *. cbn. destruct (lk_failure_window_start l) as [start|]; [|done].
    destruct Hw as (k & Hk & Hst & Hgu & Hf). exists k. unfold MAX_PAIRING_ATTEMPTS in Hm. lia.
Qed.
Lemma windows_bound t0 clock guesses l now window : windows_ok t0 clock guesses l → clock ≤ now → now < t0 + window → 0 ≤ window → guesses ≤ 4 * (1 + window / PAIRING_ATTEMPT_WINDOW).
Proof.
  unfold windows_ok. assert (PAIRING_ATTEMPT_WINDOW > 0) as Hpos by done. intros Hw Hc Hn H0. pose proof (Z.div_pos window PAIRING_ATTEMPT_WINDOW H0 (Z.gt_lt _ _ Hpos)). destruct (lk_failure_window_start l) as [start|]; [|lia].
  destruct Hw as (k & Hk & Hst & Hgu & Hf). assert (k ≤ window / PAIRING_ATTEMPT_WINDOW) by (apply Z.div_le_lower_bound; lia). lia.
Qed.

(** ** Every run of the server *)

Section serve_spec.
Context (t0 window : Z) (bootstrap_psk : option (list byte)) (Hwindow : 0 ≤ window).
#[local] Abbreviation serve_step := (serve_step (Some (t0 + window)) bootstrap_psk).
#[local] Abbreviation serve_run := (serve_run (Some (t0 + window)) bootstrap_psk).
#[local] Abbreviation guess_limit := (4 * (1 + window / PAIRING_ATTEMPT_WINDOW) + MAX_CONCURRENT_CONNECTIONS).

Record server_ok (s : Server) : Prop := {
  so_active : sv_active s = Z.of_nat (size (sv_connections s)) ∧ sv_active s ≤ MAX_CONCURRENT_CONNECTIONS;
  so_stored : ∀ id stored b, sv_connections s !! id = Some (Checked stored b) → offers stored = false;
  so_clock : t0 ≤ sv_clock s;
  so_offered : sv_guesses s + count_stages offered (sv_connections s) ≤ guess_limit;
  so_open : lk_pairing_active (sv_lockout s) = true →
    sv_guesses s + count_stages hopeful (sv_connections s) ≤ guess_limit ∧ windows_ok t0 (sv_clock s) (sv_guesses s) (sv_lockout s);
}.
(** A step that moves one connection on and leaves the lockout alone. *)
Lemma stage_ok s id st st' now : server_ok s → sv_connections s !! id = Some st → sv_clock s ≤ now → (∀ stored b, st' = Checked stored b → offers stored = false) →
  (offered st' = true → lk_pairing_active (sv_lockout s) = true ∧ hopeful st = true) →
  (hopeful st' = true → hopeful st = true ∨ now < t0 + window) → (offered st = true → hopeful st' = true → offered st' = true) →
  server_ok (with_clock now (with_stage id st' s)).
Proof.
  intros [[Ha1 Ha2] H2 H3 H4 H5] Hid Hnow Hst Hof Hho Hkeep. set (m := sv_connections s) in *.
  assert (size (<[id := st']> m) = size m) as Hsz by (apply map_size_insert_Some; by exists st).
  assert (lk_pairing_active (sv_lockout s) = true → sv_guesses s + count_stages hopeful (<[id := st']> m) ≤ guess_limit) as Hopen.
  { intros Hp. destruct (H5 Hp) as [H6 H7]. rewrite (count_stages_update hopeful m id st st' Hid). destruct (hopeful st') eqn:E1; [|destruct (hopeful st); lia]. destruct (Hho eq_refl) as [->|Hn]; [lia|].
    pose proof (windows_bound _ _ _ _ now window H7 Hnow Hn Hwindow). pose proof (count_stages_size hopeful (<[id := st']> m)) as Hs. rewrite (count_stages_update hopeful m id st st' Hid), Hsz, E1 in Hs. lia. }
  split; cbn [with_clock with_stage sv_active sv_connections sv_clock sv_guesses sv_lockout]; fold m.
  - by rewrite Hsz.
  - intros id' stored b [[_ ?]|[_ ?]]%lookup_insert_Some; [by eapply Hst|by eapply H2].
  - lia.
  - destruct (offered st') eqn:E.
    + destruct (Hof eq_refl) as [Hp _]. pose proof (Hopen Hp). pose proof (count_stages_mono offered hopeful (<[id := st']> m) offered_hopeful). lia.
    + rewrite (count_stages_update offered m id st st' Hid), E. destruct (offered st); lia.
  - intros Hp. split; [by apply Hopen|]. by eapply windows_later, H5.
Qed.
Lemma serve_step_ok i s s' : server_ok s → serve_step i s = Some s' → server_ok s'.
Proof.
  intros Hok. unfold RdServe.serve_step. destruct i as [id spawned|id answers now|id key now|id established now|id].
  - destruct (Z.leb_spec MAX_CONCURRENT_CONNECTIONS (sv_active s)) as [|Hlt]; [by intros [= <-]|]. destruct spawned; [|by intros [= <-]]. destruct (sv_connections s !! id) eqn:Hid; [done|]. intros [= <-]. destruct Hok as [[Ha1 Ha2] H2 H3 H4 H5].
    split; cbn [sv_active sv_connections sv_clock sv_guesses sv_lockout].
    + rewrite map_size_insert_None by done. lia.
    + intros id' stored b [[_ ?]|[_ ?]]%lookup_insert_Some; [done|by eapply H2].
    + done.
    + rewrite count_stages_new by done. cbn. lia.
    + intros Hp. destruct (H5 Hp). rewrite count_stages_new by done. cbn. split; [lia|done].
  - destruct (Z.ltb_spec now (sv_clock s)) as [|Hnow]; [done|]. destruct (sv_connections s !! id) as [[]|] eqn:Hid; try done. intros [= <-]. apply (stage_ok s id Accepted); try done.
    + intros stored b. destruct (stored_psks answers) eqn:E; [|done]. intros [= <- <-]. by eapply stored_not_offered.
    + by destruct (stored_psks answers).
    + destruct (stored_psks answers); [|done]. cbn. intros ?%Z.ltb_lt. by right.
  - destruct (Z.ltb_spec now (sv_clock s)) as [|Hnow]; [done|]. destruct (sv_connections s !! id) as [[|stored in_time| | |]|] eqn:Hid; try done. intros [= <-].
    destruct (current_psks bootstrap_psk stored in_time now key (sv_lockout s)) as [psks|] eqn:E; [|by apply (stage_ok s id (Checked stored in_time))].
    assert (offers psks = true → in_time = true ∧ lk_pairing_active (sv_lockout s) = true) as Hoff by (eapply current_psks_offers, E; by eapply so_stored).
    apply (stage_ok s id (Checked stored in_time)); try done; cbn; intros Ho; destruct (Hoff Ho); auto.
  - destruct (Z.ltb_spec now (sv_clock s)) as [|Hnow]; [done|]. destruct (sv_connections s !! id) as [[| |psks| |]|] eqn:Hid; try done. destruct established; [intros [= <-]; by apply (stage_ok s id (Shaking psks))|].
    destruct (record_failure now (sv_lockout s)) as [l locked] eqn:Er. intros [= <-]. destruct Hok as [[Ha1 Ha2] H2 H3 H4 H5].
    assert (lk_pairing_active l = true → lk_pairing_active (sv_lockout s) = true) as Hp by (revert Er; unfold record_failure; destruct (match lk_failure_window_start (sv_lockout s) with None => true | Some start => PAIRING_ATTEMPT_WINDOW <? sat_sub now start end); cbv zeta; case_match; by intros [= <- <-]).
    split; cbn [sv_active sv_connections sv_clock sv_guesses sv_lockout].
    + rewrite map_size_insert_Some by (by exists (Shaking psks)). done.
    + intros id' stored b [[_ ?]|[_ ?]]%lookup_insert_Some; [done|by eapply H2].
    + lia.
    + rewrite (count_stages_update offered _ id _ _ Hid). cbn. destruct (offers psks); lia.
    + intros Ha. destruct (H5 (Hp Ha)) as [H6 H7]. rewrite (count_stages_update hopeful _ id _ _ Hid). cbn. split; [destruct (offers psks); lia|].
      eapply (record_failure_windows t0 (sv_clock s)); [done|done|destruct (offers psks); lia|done|exact Er|done].
  - destruct (sv_connections s !! id) as [st|] eqn:Hid; [|done]. intros E. assert (hopeful st = false ∧ offered st = false ∧ s' = mk_Server (sv_lockout s) (sv_active s - 1) (delete id (sv_connections s)) (sv_clock s) (sv_guesses s)) as (Hh & Ho & ->) by (by destruct st; simplify_eq).
    clear E. destruct Hok as [[Ha1 Ha2] H2 H3 H4 H5]. assert (size (delete id (sv_connections s)) = pred (size (sv_connections s)))%nat as Hsz by (apply map_size_delete_Some; by exists st).
    assert (size (sv_connections s) ≠ 0%nat) as Hne by (intros Hz%map_size_empty_inv; by rewrite Hz, lookup_empty in Hid).
    split; cbn [sv_active sv_connections sv_clock sv_guesses sv_lockout].
    + rewrite Hsz. lia.
    + intros id' stored b [_ ?]%lookup_delete_Some. by eapply H2.
    + done.
    + rewrite (count_stages_delete offered _ id st Hid), Ho. lia.
    + intros Hp. destruct (H5 Hp). rewrite (count_stages_delete hopeful _ id st Hid), Hh. split; [lia|done].
Qed.
Lemma serve_run_ok steps s s' : server_ok s → serve_run steps s = Some s' → server_ok s'.
Proof.
  revert s. induction steps as [|i steps IH]; intros s Hok; cbn [RdServe.serve_run]; [by intros [= <-]|]. destruct (serve_step i s) as [s1|] eqn:E; [|done]. cbn. apply IH. by eapply serve_step_ok.
Qed.
Lemma server_new_ok : server_ok (server_new (Some (t0 + window)) t0).
Proof. pose proof (Z.div_pos window PAIRING_ATTEMPT_WINDOW Hwindow eq_refl). assert (∀ P, count_stages P (∅ : gmap nat Stage) = 0) as He by (intros P; unfold count_stages; by rewrite map_filter_empty, map_size_empty).
  split; cbn [server_new sv_active sv_connections sv_clock sv_guesses sv_lockout]; rewrite ?He; unfold MAX_CONCURRENT_CONNECTIONS; [by rewrite map_size_empty|done|lia|lia|]. intros _. split; [lia|]. by split.
Qed.
(** Once the lockout closed pairing, it stays closed. *)
Lemma serve_run_closed steps s s' : lk_pairing_active (sv_lockout s) = false → serve_run steps s = Some s' → lk_pairing_active (sv_lockout s') = false.
Proof.
  revert s. induction steps as [|i steps IH]; intros s Hc; cbn [RdServe.serve_run]; [by intros [= <-]|]. destruct (serve_step i s) as [s1|] eqn:E; [|done]. cbn. apply IH. revert E.
  unfold RdServe.serve_step, record_failure. destruct i; repeat case_match; intros; simplify_eq/=; done.
Qed.

Lemma closed_step i s s' : lk_pairing_active (sv_lockout s) = false → (∀ id stored b, sv_connections s !! id = Some (Checked stored b) → offers stored = false) → serve_step i s = Some s' →
  sv_guesses s' + count_stages offered (sv_connections s') ≤ sv_guesses s + count_stages offered (sv_connections s).
Proof.
  intros Hc Hst. unfold RdServe.serve_step. destruct i as [id spawned|id answers now|id key now|id established now|id].
  - destruct (_ <=? _); [by intros [= <-]|]. destruct spawned; [|by intros [= <-]]. destruct (sv_connections s !! id) eqn:Hid; [done|]. intros [= <-]. cbn. rewrite count_stages_new by done. cbn. lia.
  - destruct (_ <? _); [done|]. destruct (sv_connections s !! id) as [[]|] eqn:Hid; try done. intros [= <-]. cbn. rewrite (count_stages_update offered _ id _ _ Hid). destruct (stored_psks answers); cbn; lia.
  - destruct (_ <? _); [done|]. destruct (sv_connections s !! id) as [[|stored in_time| | |]|] eqn:Hid; try done. intros [= <-]. cbn. rewrite (count_stages_update offered _ id _ _ Hid).
    destruct (current_psks bootstrap_psk stored in_time now key (sv_lockout s)) as [psks|] eqn:E; cbn; [|lia]. destruct (offers psks) eqn:Ho; [|lia]. destruct (current_psks_offers _ _ _ _ _ _ _ (Hst _ _ _ Hid) E Ho). congruence.
  - destruct (_ <? _); [done|]. destruct (sv_connections s !! id) as [[| |psks| |]|] eqn:Hid; try done. destruct established; [|destruct (record_failure now (sv_lockout s))]; intros [= <-]; cbn; rewrite (count_stages_update offered _ id _ _ Hid); cbn; destruct (offers psks); lia.
  - destruct (sv_connections s !! id) as [st|] eqn:Hid; [|done]. intros E. assert (sv_guesses s' = sv_guesses s ∧ sv_connections s' = delete id (sv_connections s) ∧ offered st = false) as (-> & -> & Ho) by (by destruct st; simplify_eq). rewrite (count_stages_delete offered _ id st Hid), Ho. lia.
Qed.
Lemma closed_guesses steps s s' : server_ok s → lk_pairing_active (sv_lockout s) = false → serve_run steps s = Some s' → sv_guesses s' ≤ sv_guesses s + count_stages offered (sv_connections s).
Proof.
  revert s. induction steps as [|i steps IH]; intros s Hok Hc; cbn [RdServe.serve_run]; [intros [= <-]; pose proof (count_stages_size offered (sv_connections s)); lia|]. destruct (serve_step i s) as [s1|] eqn:E; [|done]. cbn. intros Hr.
  pose proof (closed_step _ _ _ Hc (so_stored _ Hok) E). specialize (IH s1 (serve_step_ok _ _ _ Hok E)). assert (serve_run [i] s = Some s1) as H1 by (cbn; by rewrite E). pose proof (IH (serve_run_closed _ _ _ Hc H1) Hr). lia.
Qed.

(** C28: However connections interleave, at most sixteen are served at once, and over the life of a
    host at most 4 (1 + w / 60 s) + 16 handshakes fail that were offered the key of the PIN, for a
    pairing window w: forty for the window of five minutes, of the hundred million PINs.  Once
    the lockout closed pairing it stays closed, and only handshakes under way can still fail so. *)
Theorem bootstrap_guesses_bounded steps s : serve_run steps (server_new (Some (t0 + window)) t0) = Some s →
  sv_active s = Z.of_nat (size (sv_connections s)) ∧ sv_active s ≤ MAX_CONCURRENT_CONNECTIONS ∧
  sv_guesses s ≤ 4 * (1 + window / PAIRING_ATTEMPT_WINDOW) + MAX_CONCURRENT_CONNECTIONS ∧
  (lk_pairing_active (sv_lockout s) = false → ∀ more s', serve_run more s = Some s' → lk_pairing_active (sv_lockout s') = false ∧
    sv_guesses s' ≤ sv_guesses s + count_stages offered (sv_connections s)).
Proof.
  intros Hr. pose proof (serve_run_ok _ _ _ server_new_ok Hr) as [[H1 H2] H3 H4 H5 H6]. pose proof (count_stages_size offered (sv_connections s)). split_and!; [done|done|lia|]. intros Hc more s' Hr'. split; [by eapply serve_run_closed|]. eapply (closed_guesses more); [by eapply serve_run_ok, Hr; apply server_new_ok|done|done].
Qed.
End serve_spec.

(** ** The lockout does not count handshakes under way *)

Definition no_pairings : StoreAnswers := mk_StoreAnswers (Ok []) (λ _, Ok (Owner, None)) (λ _, 0).
Definition simultaneous_guesses (n : nat) : list ServeStep :=
  concat ((λ id, [SvAccept id true; SvCheck id no_pairings 1; SvOffer id [] 1]) <$> seq 0 n) ++ ((λ id, SvHandshake id false 1) <$> seq 0 n).

(** Sixteen guesses of the PIN fail at one instant, although five failures are meant to close
    pairing: a connection is offered the key before its handshake and keeps it, so connections that
    were offered it before the fifth failure all count. *)
Theorem lockout_overrun : ∃ s, serve_run (Some 300) (Some [x01]) (simultaneous_guesses 16) (server_new (Some 300) 0) = Some s ∧
  sv_guesses s = 16 ∧ MAX_PAIRING_ATTEMPTS = 5 ∧ sv_clock s = 1.
Proof. eexists. split; [vm_compute; reflexivity|]. by vm_compute. Qed.

Lemma bootstrap_guesses_bounded_witness : ∃ s, serve_run (Some (0 + 300 * SECOND)) (Some [x01]) (simultaneous_guesses 16) (server_new (Some (0 + 300 * SECOND)) 0) = Some s ∧ sv_guesses s ≤ 40.
Proof.
  eexists. split; [vm_compute; reflexivity|].
  refine (proj1 (proj2 (proj2 (bootstrap_guesses_bounded 0 (300 * SECOND) (Some [x01]) _ (simultaneous_guesses 16) _ _)))); [vm_compute; discriminate|vm_compute; reflexivity].
Defined.
