(* ===== verification/RdRoutes.v ===== *)
(** * RdRoutes: datagrams of many clients on one socket

    The sessions of a host share a UDP socket; whoever reads it sorts what arrives into an inbox for
    every registered endpoint and one for the unknown ([UdpRecoveryRoutes] of
    crates/ferryx-rd/ferryx-rd-host/src/udp_recovery.rs), and a session finds the endpoint of its own
    client by the first datagram that its cipher opens ([discover_udp_peer] of session.rs) and takes
    what arrives from there ([receive_udp_datagrams] of udp_input.rs).  What the socket gives is an
    environment's choice; the lock of the routes is held throughout each operation. *)

From Stdlib Require Import ZArith Lia Strings.Byte.
From stdpp Require Import base option gmap strings list.
From S2P Require Import Prelude Wire RdCodec RdPacket RdMedia RdUdp.

#[local] Open Scope Z_scope.

(** ** The routes (udp_recovery.rs) *)

(** An endpoint: address and port. *)
Definition SocketAddr : Type := (list byte * Z)%type.
Definition INBOX : nat := 64.
Definition MAX_UDP_DISCOVERY_BURST : nat := 32.
Record UdpRecoveryRoutes := mk_UdpRecoveryRoutes { ur_peers : gmap SocketAddr (list (list byte)); ur_admission : list (SocketAddr * list byte) }.
Definition routes0 : UdpRecoveryRoutes := mk_UdpRecoveryRoutes ∅ [].
Definition register (peer : SocketAddr) (r : UdpRecoveryRoutes) : UdpRecoveryRoutes :=
  match ur_peers r !! peer with Some _ => r | None => mk_UdpRecoveryRoutes (<[peer := []]> (ur_peers r)) (ur_admission r) end.
Definition remove (peer : SocketAddr) (r : UdpRecoveryRoutes) : UdpRecoveryRoutes := mk_UdpRecoveryRoutes (delete peer (ur_peers r)) (ur_admission r).
Definition push_back {A} (x : A) (queue : list A) : list A := (if (length queue =? INBOX)%nat then drop 1 queue else queue) ++ [x].
Definition deliver (peer : SocketAddr) (packet : list byte) (r : UdpRecoveryRoutes) : UdpRecoveryRoutes :=
  match ur_peers r !! peer with
  | Some queue => mk_UdpRecoveryRoutes (<[peer := push_back packet queue]> (ur_peers r)) (ur_admission r)
  | None => mk_UdpRecoveryRoutes (ur_peers r) (push_back (peer, packet) (ur_admission r))
  end.

(** What a read of the socket gives; nothing more to give is the end of the list. *)
Inductive Recv : Type := RecvPacket (peer : SocketAddr) (packet : list byte) | RecvReset | RecvError.
Fixpoint drain (fuel : nat) (reads : list Recv) (r : UdpRecoveryRoutes) : UdpRecoveryRoutes * bool * list Recv :=
  match fuel, reads with
  | S fuel, RecvPacket peer packet :: reads => drain fuel reads (deliver peer packet r)
  | S fuel, RecvReset :: reads => drain fuel reads r
  | S fuel, RecvError :: reads => (r, false, reads)
  | _, _ => (r, true, reads)
  end.
(** [None]: the read failed. *)
Definition discovery (reads : list Recv) (ip : list byte) (r : UdpRecoveryRoutes) : UdpRecoveryRoutes * option (option (list byte * SocketAddr)) * list Recv :=
  match drain MAX_UDP_DISCOVERY_BURST reads r with
  | (r, false, reads) => (r, None, reads)
  | (r, true, reads) =>
      match list_find (λ x : SocketAddr * list byte, x.1.1 = ip) (ur_admission r) with
      | None => (r, Some None, reads)
      | Some (index, (peer, packet)) =>
          (mk_UdpRecoveryRoutes (ur_peers r) (take index (ur_admission r) ++ drop (S index) (ur_admission r)), Some (Some (packet, peer)), reads)
      end
  end.
Definition receive (reads : list Recv) (peer : SocketAddr) (r : UdpRecoveryRoutes) : UdpRecoveryRoutes * option (list (list byte)) * list Recv :=
  match drain MAX_UDP_DISCOVERY_BURST reads r with
  | (r, false, reads) => (r, None, reads)
  | (r, true, reads) =>
      match ur_peers r !! peer with
      | Some queue => (mk_UdpRecoveryRoutes (<[peer := []]> (ur_peers r)) (ur_admission r), Some queue, reads)
      | None => (r, Some [], reads)
      end
  end.

(** ** The sessions (session.rs, udp_input.rs) *)

Section sessions.
Context (aes_gcm_decrypt : list byte → list byte → list byte → list byte → option (list byte)).
Definition ENCRYPTED_DATAGRAM_OVERHEAD : Z := HEADER_SIZE + NONCE_SIZE + TAG_SIZE.
(** The loop of [discover_udp_peer] of a session that has no endpoint yet.  The result: whether reads
    failed, and the endpoint. *)
Fixpoint discover (fuel : nat) (ip : list byte) (reads : list Recv) (c : DatagramCipher) (r : UdpRecoveryRoutes) :
    UdpRecoveryRoutes * DatagramCipher * option (option SocketAddr) * list Recv :=
  match fuel with
  | O => (r, c, Some None, reads)
  | S fuel =>
      match discovery reads ip r with
      | (r, None, reads) => (r, c, None, reads)
      | (r, Some None, reads) => (r, c, Some None, reads)
      | (r, Some (Some (packet, peer)), reads) =>
          if zlen packet <? ENCRYPTED_DATAGRAM_OVERHEAD then discover fuel ip reads c r else
          match open_datagram aes_gcm_decrypt packet c with
          | (c, Ok (header, payload)) =>
              if bool_decide (packet_type header = PtPing) && bool_decide (payload = []) then (register peer r, c, Some (Some peer), reads)
              else discover fuel ip reads c r
          | (c, Err _) => discover fuel ip reads c r
          end
      end
  end.
Definition discover_udp_peer := discover MAX_UDP_DISCOVERY_BURST.
(** What of a client's datagrams opens. *)
Fixpoint open_received (packets : list (list byte)) (c : DatagramCipher) : DatagramCipher * list (PacketHeader * list byte) :=
  match packets with
  | [] => (c, [])
  | packet :: packets =>
      let '(c, r) := open_datagram aes_gcm_decrypt packet c in
      let '(c, opened) := open_received packets c in (c, match r with Ok m => m :: opened | Err _ => opened end)
  end.

(** A session: the address its client connected from, its cipher, its endpoint. *)
Record Session := mk_Session { ss_ip : list byte; ss_cipher : DatagramCipher; ss_udp_peer : option SocketAddr }.
Record World := mk_World { wo_routes : UdpRecoveryRoutes; wo_sessions : gmap nat Session }.
(** A session that starts, a turn of its loop (discovery, then receiving), and its end, with what
    is there to read. *)
Inductive RouteStep : Type := RtStart (id : nat) (ip : list byte) (c : DatagramCipher) | RtDiscover (id : nat) (reads : list Recv) | RtReceive (id : nat) (reads : list Recv) | RtEnd (id : nat).
(** The next state, what the session was handed, and how much of the reads was left. *)
Definition route_step (i : RouteStep) (w : World) : option (World * list (list byte) * list Recv) :=
  match i with
  | RtStart id ip c => match wo_sessions w !! id with None => Some (mk_World (wo_routes w) (<[id := mk_Session ip c None]> (wo_sessions w)), [], []) | Some _ => None end
  | RtDiscover id reads =>
      match wo_sessions w !! id with
      | Some (mk_Session ip c None) =>
          let '(r, c, peer, rest) := discover_udp_peer ip reads c (wo_routes w) in
          Some (mk_World r (<[id := mk_Session ip c (default None peer)]> (wo_sessions w)), [], rest)
      | _ => None
      end
  | RtReceive id reads =>
      match wo_sessions w !! id with
      | Some (mk_Session ip c (Some peer)) =>
          let '(r, packets, rest) := receive reads peer (wo_routes w) in
          let packets := default [] packets in
          Some (mk_World r (<[id := mk_Session ip (open_received packets c).1 (Some peer)]> (wo_sessions w)), packets, rest)
      | _ => None
      end
  | RtEnd id =>
      match wo_sessions w !! id with
      | Some s => Some (mk_World (match ss_udp_peer s with Some peer => remove peer (wo_routes w) | None => wo_routes w end) (delete id (wo_sessions w)), [], [])
      | None => None
      end
  end.
Definition reads_of (i : RouteStep) : list Recv := match i with RtDiscover _ reads | RtReceive _ reads => reads | _ => [] end.
Definition packets_of (reads : list Recv) : list (SocketAddr * list byte) := omap (λ x, match x with RecvPacket peer packet => Some (peer, packet) | _ => None end) reads.
Definition endpoint_of (i : RouteStep) (w : World) : option SocketAddr := match i with RtReceive id _ => s ← wo_sessions w !! id; ss_udp_peer s | _ => None end.
(** A run: the last state, the datagrams that arrived, and those handed to sessions, with the
    endpoint of the session. *)
Fixpoint route_run (steps : list RouteStep) (w : World) : option (World * list (SocketAddr * list byte) * list (SocketAddr * list byte)) :=
  match steps with
  | [] => Some (w, [], [])
  | i :: steps =>
      '(w', packets, rest) ← route_step i w;
      '(w'', arrived, handed) ← route_run steps w';
      let now := packets_of (take (length (reads_of i) - length rest) (reads_of i)) in
      Some (w'', now ++ arrived, match endpoint_of i w with Some peer => pair peer <$> packets | None => [] end ++ handed)
  end.
End sessions.

(** ** Inboxes *)

Definition from (peer : SocketAddr) (l : list (SocketAddr * list byte)) : list (list byte) := (filter (λ x, x.1 = peer) l).*2.
Definition inbox (peer : SocketAddr) (r : UdpRecoveryRoutes) : list (list byte) := default [] (ur_peers r !! peer).
Lemma from_app peer a b : from peer (a ++ b) = from peer a ++ from peer b.
Proof. unfold from. by rewrite filter_app, fmap_app. Qed.
Lemma from_one peer peer' packet : from peer [(peer', packet)] = if decide (peer' = peer) then [packet] else [].
Proof. unfold from. rewrite filter_cons. cbn. by case_decide. Qed.
Lemma packets_app a b : packets_of (a ++ b) = packets_of a ++ packets_of b.
Proof. apply omap_app. Qed.
Lemma push_back_sublist {A} (x : A) l k rest : rest ++ l `sublist_of` k → rest ++ push_back x l `sublist_of` k ++ [x].
Proof.
  intros H. unfold push_back. rewrite app_assoc. apply sublist_app; [|done]. etrans; [|exact H]. apply sublist_app; [done|]. destruct (_ =? _)%nat; [apply sublist_drop|done].
Qed.
Lemma push_back_length {A} (x : A) l : (length l ≤ INBOX)%nat → (length (push_back x l) ≤ INBOX)%nat.
Proof. intros H. unfold push_back. rewrite length_app. destruct (Nat.eqb_spec (length l) INBOX) as [E|E]; rewrite ?length_drop; cbn; unfold INBOX in *; lia. Qed.
Lemma push_back_elem {A} (x y : A) l : y ∈ push_back x l → y = x ∨ y ∈ l.
Proof. unfold push_back. rewrite elem_of_app, list_elem_of_singleton. intros [H|H]; [right|by left]. destruct (_ =? _)%nat; [|done]. rewrite <- (take_drop 1 l). apply elem_of_app. by right. Qed.

(** The routes against what arrived and what was handed out. *)
Record routes_ok (arrived handed : list (SocketAddr * list byte)) (r : UdpRecoveryRoutes) : Prop := {
  ro_bounded : ∀ peer queue, ur_peers r !! peer = Some queue → (length queue ≤ INBOX)%nat;
  ro_admission : (length (ur_admission r) ≤ INBOX)%nat;
  ro_sublist : ∀ peer, from peer handed ++ inbox peer r `sublist_of` from peer arrived;
  ro_arrived : ∀ x, x ∈ ur_admission r → x ∈ arrived;
}.
Lemma deliver_ok arrived handed peer packet r : routes_ok arrived handed r → routes_ok (arrived ++ [(peer, packet)]) handed (deliver peer packet r).
Proof.
  intros [H1 H2 H3 H4]. unfold deliver. destruct (ur_peers r !! peer) as [queue|] eqn:Ep; split; cbn [ur_peers ur_admission]; try done.
  - intros p q [[_ <-]|[_ ?]]%lookup_insert_Some; [by eapply push_back_length, H1|by eapply H1].
  - intros p. specialize (H3 p). rewrite from_app, from_one. unfold inbox in *. cbn [ur_peers]. destruct (decide (peer = p)) as [->|Hp].
    + rewrite lookup_insert_eq. rewrite Ep in H3. by apply push_back_sublist.
    + rewrite lookup_insert_ne by done. by rewrite app_nil_r.
  - intros x ?%H4. apply elem_of_app. by left.
  - by apply push_back_length.
  - intros p. rewrite from_app. by apply sublist_inserts_r, H3.
  - intros x [->|?%H4]%push_back_elem; apply elem_of_app; [right|by left]. by apply list_elem_of_singleton.
Qed.
Lemma routes_drain_ok fuel reads arrived handed r r' ok rest : routes_ok arrived handed r → drain fuel reads r = (r', ok, rest) →
  ∃ consumed, reads = consumed ++ rest ∧ routes_ok (arrived ++ packets_of consumed) handed r'.
Proof.
  revert fuel arrived r. induction reads as [|x reads IH]; intros fuel arrived r Hok; [destruct fuel; intros [= <- <- <-]; exists []; change (packets_of []) with (@nil (SocketAddr * list byte)); by rewrite (app_nil_r arrived)|].
  destruct fuel as [|fuel]; [intros [= <- <- <-]; exists []; change (packets_of []) with (@nil (SocketAddr * list byte)); by rewrite (app_nil_r arrived)|]. destruct x as [peer packet| |]; cbn [drain].
  - intros E. destruct (IH _ _ _ (deliver_ok _ _ peer packet _ Hok) E) as (consumed & -> & H). exists (RecvPacket peer packet :: consumed). split; [done|]. by rewrite <- app_assoc in H.
  - intros E. destruct (IH _ _ _ Hok E) as (consumed & -> & H). by exists (RecvReset :: consumed).
  - intros [= <- <- <-]. exists [RecvError]. split; [done|]. change (packets_of [RecvError]) with (@nil (SocketAddr * list byte)). by rewrite app_nil_r.
Qed.

(** ** Sessions *)

Definition same_key (a b : DatagramCipher) : Prop := dc_cipher a = dc_cipher b ∧ dc_nonce_prefix a = dc_nonce_prefix b.
Section sessions_spec.
Context (aes_gcm_decrypt : list byte → list byte → list byte → list byte → option (list byte)).
#[local] Abbreviation open_datagram := (open_datagram aes_gcm_decrypt).
#[local] Abbreviation discover := (discover aes_gcm_decrypt).
#[local] Abbreviation route_step := (route_step aes_gcm_decrypt).

(** A datagram that registers an endpoint with a session. *)
Definition registers (c : DatagramCipher) (packet : list byte) : Prop :=
  ∃ c0 c1 header, same_key c0 c ∧ open_datagram packet c0 = (c1, Ok (header, [])) ∧ packet_type header = PtPing.
Lemma open_same_key packet c c' r : open_datagram packet c = (c', r) → same_key c c'.
Proof. unfold RdUdp.open_datagram, open. repeat case_match; intros [= <- <-]; simplify_eq; done. Qed.
Lemma same_key_trans a b c : same_key a b → same_key b c → same_key a c.
Proof. intros [??] [??]. split; congruence. Qed.
Lemma registers_key c c' packet : same_key c c' → registers c packet → registers c' packet.
Proof. intros Hk (c0 & c1 & header & H0 & H). exists c0, c1, header. split; [by eapply same_key_trans|done]. Qed.
Lemma routes_register_ok arrived handed peer r : routes_ok arrived handed r → routes_ok arrived handed (register peer r).
Proof.
  intros Hok. unfold register. destruct (ur_peers r !! peer) eqn:Ep; [done|]. destruct Hok as [H1 H2 H3 H4]. split; cbn [ur_peers ur_admission]; try done.
  - intros p q [[_ <-]|[_ ?]]%lookup_insert_Some; [cbn; lia|by eapply H1].
  - intros p. specialize (H3 p). unfold inbox in *. cbn [ur_peers]. destruct (decide (peer = p)) as [->|Hp]; [rewrite lookup_insert_eq; by rewrite Ep in H3|by rewrite lookup_insert_ne].
Qed.
Lemma discovery_ok arrived handed reads ip r r' found rest : routes_ok arrived handed r → discovery reads ip r = (r', found, rest) →
  ∃ consumed, reads = consumed ++ rest ∧ routes_ok (arrived ++ packets_of consumed) handed r' ∧
    match found with Some (Some (packet, peer)) => (peer, packet) ∈ arrived ++ packets_of consumed ∧ peer.1 = ip | _ => True end.
Proof.
  intros Hok. unfold discovery. destruct (drain MAX_UDP_DISCOVERY_BURST reads r) as [[r1 ok] rest1] eqn:Ed. destruct (routes_drain_ok _ _ _ _ _ _ _ _ Hok Ed) as (consumed & -> & Hok1). destruct ok; [|intros [= <- <- <-]; by exists consumed].
  destruct (list_find _ _) as [[i [peer packet]]|] eqn:Ef; intros [= <- <- <-]; exists consumed; [|done]. apply list_find_Some in Ef as (Hi & Hip & _). cbn in Hip. split; [done|]. destruct Hok1 as [H1 H2 H3 H4].
  split; [|split; [by apply H4, list_elem_of_lookup_2 with i|done]]. split; cbn [ur_peers ur_admission]; try done.
  - rewrite length_app, length_take, length_drop. lia.
  - intros x Hx. apply H4. rewrite <- (take_drop_middle _ _ _ Hi). apply elem_of_app in Hx as [Hx|Hx]; apply elem_of_app; [by left|right]. by apply elem_of_cons; right.
Qed.
Lemma discover_ok fuel arrived handed reads ip c r r' c' peer rest : routes_ok arrived handed r → discover fuel ip reads c r = (r', c', peer, rest) →
  ∃ consumed, reads = consumed ++ rest ∧ routes_ok (arrived ++ packets_of consumed) handed r' ∧ same_key c c' ∧
    match peer with Some (Some p) => p.1 = ip ∧ ∃ packet, (p, packet) ∈ arrived ++ packets_of consumed ∧ registers c packet | _ => True end.
Proof.
  revert arrived reads c r. induction fuel as [|fuel IH]; intros arrived reads c r Hok; cbn [RdRoutes.discover]; [intros [= <- <- <- <-]; exists []; change (packets_of []) with (@nil (SocketAddr * list byte)); by rewrite (app_nil_r arrived)|].
  destruct (discovery reads ip r) as [[r1 found] rest1] eqn:Ed. destruct (discovery_ok _ _ _ _ _ _ _ _ Hok Ed) as (consumed & -> & Hok1 & Hf).
  assert (∀ c1, same_key c c1 → discover fuel ip rest1 c1 r1 = (r', c', peer, rest) → ∃ consumed', consumed ++ rest1 = consumed' ++ rest ∧ routes_ok (arrived ++ packets_of consumed') handed r' ∧ same_key c c' ∧
    match peer with Some (Some p) => p.1 = ip ∧ ∃ packet, (p, packet) ∈ arrived ++ packets_of consumed' ∧ registers c packet | _ => True end) as Hagain.
  { intros c1 Hc1 E. destruct (IH _ _ _ _ Hok1 E) as (more & -> & Hok2 & Hk & Hp). exists (consumed ++ more). rewrite packets_app, !app_assoc in *. split_and!; [done|done|by eapply same_key_trans|].
    destruct peer as [[p|]|]; [|done|done]. destruct Hp as (Hip & packet & Hin & Hr). split; [done|]. exists packet. split; [done|]. eapply registers_key, Hr. destruct Hc1. by split. }
  destruct found as [[[packet p]|]|]; [|intros [= <- <- <- <-]; by exists consumed|intros [= <- <- <- <-]; by exists consumed]. destruct (_ <? _); [by apply Hagain|].
  destruct (open_datagram packet c) as [c1 [[header payload]|]] eqn:Eo; [|by apply Hagain; eapply open_same_key]. destruct (bool_decide_reflect (packet_type header = PtPing)) as [Hp|]; [|by apply Hagain; eapply open_same_key].
  destruct (bool_decide_reflect (payload = [])) as [->|]; [|by apply Hagain; eapply open_same_key]. cbn [andb]. intros [= <- <- <- <-]. exists consumed. destruct Hf as [Hin Hip]. split_and!; [done|by apply routes_register_ok|by eapply open_same_key|done|].
  exists packet. split; [done|]. by exists c, c1, header.
Qed.
Lemma open_received_key packets c : same_key c (open_received aes_gcm_decrypt packets c).1.
Proof.
  revert c. induction packets as [|packet packets IH]; intros c; cbn [open_received]; [done|]. destruct (open_datagram packet c) as [c1 r] eqn:E. specialize (IH c1). destruct (open_received aes_gcm_decrypt packets c1). cbn in *. eapply same_key_trans; [by eapply open_same_key|done].
Qed.
Lemma from_pair peer p packets : from peer (pair p <$> packets) = if decide (p = peer) then packets else [].
Proof.
  induction packets as [|x packets IH]; [by case_decide|]. change (pair p <$> x :: packets) with ([(p, x)] ++ (pair p <$> packets)). rewrite from_app, from_one, IH. by case_decide.
Qed.
Lemma receive_ok arrived handed reads peer r r' packets rest : routes_ok arrived handed r → receive reads peer r = (r', packets, rest) →
  ∃ consumed, reads = consumed ++ rest ∧ routes_ok (arrived ++ packets_of consumed) (handed ++ (pair peer <$> default [] packets)) r'.
Proof.
  intros Hok. unfold receive. destruct (drain MAX_UDP_DISCOVERY_BURST reads r) as [[r1 ok] rest1] eqn:Ed. destruct (routes_drain_ok _ _ _ _ _ _ _ _ Hok Ed) as (consumed & -> & Hok1).
  destruct ok; [|intros [= <- <- <-]; exists consumed; cbn; by rewrite app_nil_r]. destruct (ur_peers r1 !! peer) as [queue|] eqn:Ep; intros [= <- <- <-]; exists consumed; [|cbn; by rewrite app_nil_r]. split; [done|].
  destruct Hok1 as [H1 H2 H3 H4]. split; cbn [ur_peers ur_admission]; [| exact H2 | | exact H4].
  - intros p q [[_ <-]|[_ ?]]%lookup_insert_Some; [cbn; lia|by eapply H1].
  - intros p. specialize (H3 p). rewrite from_app. cbn [default]. rewrite from_pair. unfold inbox in *. cbn [ur_peers]. destruct (decide (peer = p)) as [->|Hp].
    + rewrite lookup_insert_eq. rewrite Ep in H3. cbn [default from_option id] in H3 |- *. by rewrite app_nil_r.
    + rewrite lookup_insert_ne by done. by rewrite app_nil_r.
Qed.
Lemma routes_remove_ok arrived handed peer r : routes_ok arrived handed r → routes_ok arrived handed (remove peer r).
Proof.
  intros [H1 H2 H3 H4]. split; cbn [remove ur_peers ur_admission]; [| exact H2 | | exact H4].
  - intros p q [_ ?]%lookup_delete_Some. by eapply H1.
  - intros p. specialize (H3 p). unfold inbox in *. cbn [remove ur_peers]. destruct (decide (peer = p)) as [->|Hp]; [|by rewrite lookup_delete_ne]. rewrite lookup_delete_eq. cbn. rewrite app_nil_r. etrans; [|exact H3]. by apply sublist_inserts_r.
Qed.
(** The endpoint of a session was proved to be its client's. *)
Definition endpoint_ok (arrived : list (SocketAddr * list byte)) (s : Session) : Prop :=
  ∀ peer, ss_udp_peer s = Some peer → peer.1 = ss_ip s ∧ ∃ packet, (peer, packet) ∈ arrived ∧ registers (ss_cipher s) packet.
Definition world_ok (arrived handed : list (SocketAddr * list byte)) (w : World) : Prop :=
  routes_ok arrived handed (wo_routes w) ∧ map_Forall (λ _, endpoint_ok arrived) (wo_sessions w).
Lemma endpoint_later arrived more s : endpoint_ok arrived s → endpoint_ok (arrived ++ more) s.
Proof. intros H peer Hp. destruct (H peer Hp) as (? & packet & ? & ?). split; [done|]. exists packet. split; [|done]. apply elem_of_app. by left. Qed.
Lemma endpoints_update arrived more (m : gmap nat Session) id s : map_Forall (λ _, endpoint_ok arrived) m → endpoint_ok (arrived ++ more) s → map_Forall (λ _, endpoint_ok (arrived ++ more)) (<[id := s]> m).
Proof. intros H Hs. apply map_Forall_insert_2; [done|]. intros k x Hk. by eapply endpoint_later, H. Qed.
Lemma take_consumed {A} (l consumed rest : list A) : l = consumed ++ rest → take (length l - length rest) l = consumed.
Proof. intros ->. rewrite length_app. replace (length consumed + length rest - length rest)%nat with (length consumed) by lia. apply take_app_length. Qed.
Lemma route_step_ok i w w' packets rest arrived handed : world_ok arrived handed w → route_step i w = Some (w', packets, rest) →
  world_ok (arrived ++ packets_of (take (length (reads_of i) - length rest) (reads_of i))) (handed ++ match endpoint_of i w with Some peer => pair peer <$> packets | None => [] end) w'.
Proof.
  intros [Hr Hs]. destruct i as [id ip c|id reads|id reads|id]; cbn [RdRoutes.route_step reads_of endpoint_of].
  - destruct (wo_sessions w !! id) eqn:E; [done|]. intros [= <- <- <-]. cbn. rewrite !app_nil_r. split; [done|]. by apply map_Forall_insert_2.
  - destruct (wo_sessions w !! id) as [[ip c [|]]|] eqn:E; try done. unfold discover_udp_peer. destruct (discover MAX_UDP_DISCOVERY_BURST ip reads c (wo_routes w)) as [[[r c'] peer] rest'] eqn:Ed. intros [= <- <- <-].
    destruct (discover_ok _ _ _ _ _ _ _ _ _ _ _ Hr Ed) as (consumed & Hc & Hok & Hk & Hp). rewrite (take_consumed _ _ _ Hc), app_nil_r. split; [done|]. apply endpoints_update; [done|]. intros p Ep. cbn in Ep. destruct peer as [[p'|]|]; try done. injection Ep as ->.
    destruct Hp as (Hip & packet & Hin & Hreg). split; [done|]. exists packet. split; [done|]. by eapply registers_key.
  - destruct (wo_sessions w !! id) as [[ip c [peer|]]|] eqn:E; try done. destruct (receive reads peer (wo_routes w)) as [[r pk] rest'] eqn:Er. intros [= <- <- <-]. destruct (receive_ok _ _ _ _ _ _ _ _ Hr Er) as (consumed & Hc & Hok).
    rewrite (take_consumed _ _ _ Hc). cbn. split; [done|]. apply endpoints_update; [done|]. destruct (Hs id _ E peer eq_refl) as (Hip & packet & Hin & Hreg). intros p [= <-]. split; [done|]. exists packet. split; [apply elem_of_app; by left|]. cbn.
    eapply registers_key, Hreg. apply open_received_key.
  - destruct (wo_sessions w !! id) as [s|] eqn:E; [|done]. intros [= <- <- <-]. cbn. rewrite !app_nil_r. split; [destruct (ss_udp_peer s); [by apply routes_remove_ok|done]|]. by apply map_Forall_delete.
Qed.
Lemma route_run_ok steps w w' arrived handed more handed' : world_ok arrived handed w → route_run aes_gcm_decrypt steps w = Some (w', more, handed') → world_ok (arrived ++ more) (handed ++ handed') w'.
Proof.
  revert w arrived handed more handed'. induction steps as [|i steps IH]; intros w arrived handed more handed' Hok; cbn [route_run]; [intros [= <- <- <-]; by rewrite !app_nil_r|].
  destruct (route_step i w) as [[[w1 packets] rest]|] eqn:Es; [|done]. cbn. destruct (route_run aes_gcm_decrypt steps w1) as [[[w2 arrived2] handed2]|] eqn:Er; [|done]. cbn. intros [= <- <- <-]. rewrite !app_assoc. eapply IH; [|done]. by eapply route_step_ok.
Qed.
(** While an inbox has room, nothing is lost. *)
Lemma drain_exact fuel reads peer r queue : ur_peers r !! peer = Some queue → (RecvError ∉ reads) → (length reads ≤ fuel)%nat →
  (length queue + length (from peer (packets_of reads)) ≤ INBOX)%nat → ∃ r', drain fuel reads r = (r', true, []) ∧ ur_peers r' !! peer = Some (queue ++ from peer (packets_of reads)).
Proof.
  revert fuel r queue. induction reads as [|x reads IH]; intros fuel r queue Hq Herr Hf Hl; [exists r; split; [by destruct fuel|]; by rewrite app_nil_r|].
  destruct fuel as [|fuel]; [cbn in Hf; lia|]. apply not_elem_of_cons in Herr as [Hx Herr]. cbn [length] in Hf. destruct x as [p packet| |]; cbn [drain]; [|apply IH; [done|done|lia|done]|done].
  change (packets_of (RecvPacket p packet :: reads)) with ([(p, packet)] ++ packets_of reads) in *. rewrite from_app, from_one in *. unfold deliver. case_decide as Hp.
  - subst p. rewrite Hq. cbn [app length] in *. assert (push_back packet queue = queue ++ [packet]) as Hb by (unfold push_back; destruct (Nat.eqb_spec (length queue) INBOX); [lia|done]).
    destruct (IH fuel (mk_UdpRecoveryRoutes (<[peer := push_back packet queue]> (ur_peers r)) (ur_admission r)) (queue ++ [packet])) as (r' & Hd & Hr); [cbn; rewrite Hb; apply lookup_insert_eq|done|lia|rewrite length_app; cbn; lia|].
    exists r'. split; [done|]. by rewrite <- app_assoc in Hr.
  - destruct (ur_peers r !! p) as [q|] eqn:Ep; apply IH; cbn; try done; try lia. by rewrite lookup_insert_ne.
Qed.

(** C26: Sessions that share a socket do not get each other's datagrams.  However sessions start, look
    for their client's endpoint, receive and end, no inbox holds more than 64 datagrams; what is
    handed to sessions with an endpoint is a subsequence of what arrived from that endpoint, each
    datagram once and in order; the endpoint of a session has the address its client connected from
    and sent a datagram the session's cipher opens as an empty ping; and while its inbox has room a
    session is handed everything that arrived. *)
Theorem routes_isolated steps w arrived handed : route_run aes_gcm_decrypt steps (mk_World routes0 ∅) = Some (w, arrived, handed) →
  (∀ peer, (length (inbox peer (wo_routes w)) ≤ INBOX)%nat) ∧ (length (ur_admission (wo_routes w)) ≤ INBOX)%nat ∧
  (∀ peer, from peer handed `sublist_of` from peer arrived) ∧
  map_Forall (λ _ s, endpoint_ok arrived s) (wo_sessions w) ∧
  ∀ id s peer queue reads, wo_sessions w !! id = Some s → ss_udp_peer s = Some peer → ur_peers (wo_routes w) !! peer = Some queue → (RecvError ∉ reads) →
    (length reads ≤ MAX_UDP_DISCOVERY_BURST)%nat → (length queue + length (from peer (packets_of reads)) ≤ INBOX)%nat →
    ∃ w', route_step (RtReceive id reads) w = Some (w', queue ++ from peer (packets_of reads), []).
Proof.
  intros Hrun. destruct (route_run_ok steps (mk_World routes0 ∅) w [] [] arrived handed) as [[H1 H2 H3 H4] H5]; [|done|].
  { split; [|apply map_Forall_empty]. split; cbn; [by intros ??; rewrite lookup_empty|lia|done|done]. }
  split_and!; [|done| |done|].
  - intros peer. unfold inbox. destruct (ur_peers (wo_routes w) !! peer) eqn:E; [by eapply H1|cbn; lia].
  - intros peer. etrans; [|apply (H3 peer)]. by apply sublist_inserts_r.
  - intros id s peer queue reads Hs Hp Hq Herr Hl Hroom. destruct (drain_exact MAX_UDP_DISCOVERY_BURST reads peer (wo_routes w) queue Hq Herr Hl Hroom) as (r' & Hd & Hr). destruct s as [ip c up]. cbn in Hp. subst up.
    cbn [RdRoutes.route_step]. rewrite Hs. unfold receive. rewrite Hd, Hr. cbn [default from_option]. by eexists.
Qed.
End sessions_spec.

(** ** Witness *)

Definition ping_seal : DatagramCipher → list byte := λ c,
  match seal_datagram demo_encrypt (mk_PacketHeader PtPing 1 0 0) [] c with (_, Ok d) => d | _ => [] end.
Definition demo_steps : list RouteStep :=
  [RtStart 0 [x01] demo_cipher; RtDiscover 0 [RecvPacket ([x02], 5) [x00]; RecvPacket ([x01], 6) (ping_seal demo_cipher)];
   RtReceive 0 [RecvPacket ([x01], 6) [x07]; RecvPacket ([x02], 5) [x08]; RecvReset; RecvPacket ([x01], 6) [x09]]].
Lemma routes_isolated_witness : ∃ w arrived handed, route_run demo_decrypt demo_steps (mk_World routes0 ∅) = Some (w, arrived, handed) ∧
  handed = [(([x01], 6), [x07]); (([x01], 6), [x09])] ∧ ∀ peer, from peer handed `sublist_of` from peer arrived.
Proof.
  assert (snd <$> route_run demo_decrypt demo_steps (mk_World routes0 ∅) = Some [(([x01], 6), [x07]); (([x01], 6), [x09])]) as Hh by (vm_compute; reflexivity).
  destruct (route_run demo_decrypt demo_steps (mk_World routes0 ∅)) as [[[w arrived] handed]|] eqn:E; [|discriminate Hh]. injection Hh as Hh. exists w, arrived, handed. split; [done|]. split; [done|].
  exact (proj1 (proj2 (proj2 (routes_isolated demo_decrypt demo_steps w arrived handed E)))).
Defined.
