(* ===== verification/VtStream.v ===== *)
(** * VtStream: terminal output cut into whole control sequences

    What a program writes to a terminal arrives in pieces cut anywhere.  Before old output may be
    thrown away it has to be cut where a terminal's parser is between sequences: the splitter of
    src-tauri/src/terminal/vt_stream.rs, a state machine that emits units of text and of images, each
    with the place of its first byte.  An image may come in several parts with text between them; it
    is one unit, whose parts remember their places. *)

From Stdlib Require Import ZArith Lia Strings.Byte.
From stdpp Require Import base option list strings.
From S2P Require Import Prelude.

#[local] Open Scope Z_scope.

(** ** Bytes *)

Definition ESC : byte := x1b.
Definition BEL : byte := x07.
Definition is_byte (a b : byte) : bool := bool_decide (a = b).
Definition starts_with (prefix l : list byte) : bool := bool_decide (take (length prefix) l = prefix).
(** [split] of a slice: as many pieces as separators and one more. *)
Fixpoint split_on (sep : byte) (l : list byte) : list (list byte) :=
  match l with
  | [] => [[]]
  | b :: l => if is_byte b sep then [] :: split_on sep l else match split_on sep l with p :: ps => (b :: p) :: ps | [] => [[b]] end
  end.
(** The part before a separator, and the part after it. *)
Definition before (sep : byte) (l : list byte) : list byte := hd [] (split_on sep l).
Fixpoint after (sep : byte) (l : list byte) : option (list byte) :=
  match l with [] => None | b :: l => if is_byte b sep then Some l else after sep l end.
Definition is_final (b : byte) : bool := in_range 0x40 0x7e (bz b).

(** ** Roles of image parts *)

Definition OSC_IMAGE_CLASSIFY_BYTES : Z := 19.
Definition DCS_CLASSIFY_BYTES : Z := 32.
Inductive UnitKind : Type := KText | KImage.
Inductive Continuation : Type := Standalone | Opens | Continues | Closes.
Inductive Scan : Type := Ground | Escape | Csi | CsiDiscard | InString | StringEscape.
Inductive Transmission : Type := Idle | Open | Discarding.
Definition bytes_of (s : string) : list byte := String.list_byte_of_string s.

Definition kitty_continuation (payload : list byte) : Continuation :=
  match payload with
  | x47 :: payload =>
      let control := before x3b payload in
      let more := foldl (λ more key_value, if bool_decide (before x3d key_value = [x6d]) then Some (bool_decide (after x3d key_value = Some [x31])) else more) None (split_on x2c control) in
      match more with Some true => Opens | Some false => Closes | None => Standalone end
  | _ => Standalone
  end.
Definition iterm_continuation (payload : list byte) : Continuation :=
  if starts_with (bytes_of "1337;MultipartFile=") payload then Opens
  else if starts_with (bytes_of "1337;FilePart=") payload then Continues
  else if starts_with (bytes_of "1337;FileEnd") payload then Closes
  else Standalone.

(** ** The splitter *)

(** A place in the stream: the order of a unit and the sequence of the chunk it began in. *)
Record Mark := mk_Mark { mk_order : Z; mk_sequence : Z }.
(** Where a part begins in the bytes of a unit, and its place. *)
Definition Part : Type := Z * Z * Z.
Record VtUnit := mk_VtUnit { un_kind : UnitKind; un_bytes : list byte; un_order : Z; un_sequence : Z; un_parts : list Part }.
Record Pending := mk_Pending { pd_bytes : list byte; pd_sequence : option Z; pd_parts : list Part }.

Record VtUnitSplitter := mk_VtUnitSplitter {
  sp_scan : Scan;
  sp_text : list byte;
  sp_string : list byte;
  sp_introducer : byte;
  sp_kind : UnitKind;
  sp_classified : bool;
  sp_poisoned : bool;
  sp_discarded_role : option Continuation;
  sp_max_unit_bytes : Z;
  sp_text_flush_bytes : Z;
  sp_transmission : Transmission;
  sp_group : list byte;
  sp_csi_start : Z;
  sp_next_order : Z;
  sp_sequence : Z;
  sp_text_mark : option Mark;
  sp_string_mark : option Mark;
  sp_group_mark : option Mark;
  sp_group_parts : list Part;
}.

(** Field assignment. *)
Definition set_scan (v : Scan) (s : VtUnitSplitter) : VtUnitSplitter :=
  mk_VtUnitSplitter v (sp_text s) (sp_string s) (sp_introducer s) (sp_kind s) (sp_classified s)
    (sp_poisoned s) (sp_discarded_role s) (sp_max_unit_bytes s) (sp_text_flush_bytes s)
    (sp_transmission s) (sp_group s) (sp_csi_start s) (sp_next_order s) (sp_sequence s)
    (sp_text_mark s) (sp_string_mark s) (sp_group_mark s) (sp_group_parts s).
Definition set_text (v : list byte) (s : VtUnitSplitter) : VtUnitSplitter :=
  mk_VtUnitSplitter (sp_scan s) v (sp_string s) (sp_introducer s) (sp_kind s) (sp_classified s)
    (sp_poisoned s) (sp_discarded_role s) (sp_max_unit_bytes s) (sp_text_flush_bytes s)
    (sp_transmission s) (sp_group s) (sp_csi_start s) (sp_next_order s) (sp_sequence s)
    (sp_text_mark s) (sp_string_mark s) (sp_group_mark s) (sp_group_parts s).
Definition set_string (v : list byte) (s : VtUnitSplitter) : VtUnitSplitter :=
  mk_VtUnitSplitter (sp_scan s) (sp_text s) v (sp_introducer s) (sp_kind s) (sp_classified s)
    (sp_poisoned s) (sp_discarded_role s) (sp_max_unit_bytes s) (sp_text_flush_bytes s)
    (sp_transmission s) (sp_group s) (sp_csi_start s) (sp_next_order s) (sp_sequence s)
    (sp_text_mark s) (sp_string_mark s) (sp_group_mark s) (sp_group_parts s).
Definition set_introducer (v : byte) (s : VtUnitSplitter) : VtUnitSplitter :=
  mk_VtUnitSplitter (sp_scan s) (sp_text s) (sp_string s) v (sp_kind s) (sp_classified s)
    (sp_poisoned s) (sp_discarded_role s) (sp_max_unit_bytes s) (sp_text_flush_bytes s)
    (sp_transmission s) (sp_group s) (sp_csi_start s) (sp_next_order s) (sp_sequence s)
    (sp_text_mark s) (sp_string_mark s) (sp_group_mark s) (sp_group_parts s).
Definition set_kind (v : UnitKind) (s : VtUnitSplitter) : VtUnitSplitter :=
  mk_VtUnitSplitter (sp_scan s) (sp_text s) (sp_string s) (sp_introducer s) v (sp_classified s)
    (sp_poisoned s) (sp_discarded_role s) (sp_max_unit_bytes s) (sp_text_flush_bytes s)
    (sp_transmission s) (sp_group s) (sp_csi_start s) (sp_next_order s) (sp_sequence s)
    (sp_text_mark s) (sp_string_mark s) (sp_group_mark s) (sp_group_parts s).
Definition set_classified (v : bool) (s : VtUnitSplitter) : VtUnitSplitter :=
  mk_VtUnitSplitter (sp_scan s) (sp_text s) (sp_string s) (sp_introducer s) (sp_kind s) v
    (sp_poisoned s) (sp_discarded_role s) (sp_max_unit_bytes s) (sp_text_flush_bytes s)
    (sp_transmission s) (sp_group s) (sp_csi_start s) (sp_next_order s) (sp_sequence s)
    (sp_text_mark s) (sp_string_mark s) (sp_group_mark s) (sp_group_parts s).
Definition set_poisoned (v : bool) (s : VtUnitSplitter) : VtUnitSplitter :=
  mk_VtUnitSplitter (sp_scan s) (sp_text s) (sp_string s) (sp_introducer s) (sp_kind s)
    (sp_classified s) v (sp_discarded_role s) (sp_max_unit_bytes s) (sp_text_flush_bytes s)
    (sp_transmission s) (sp_group s) (sp_csi_start s) (sp_next_order s) (sp_sequence s)
    (sp_text_mark s) (sp_string_mark s) (sp_group_mark s) (sp_group_parts s).
Definition set_discarded_role (v : option Continuation) (s : VtUnitSplitter) : VtUnitSplitter :=
  mk_VtUnitSplitter (sp_scan s) (sp_text s) (sp_string s) (sp_introducer s) (sp_kind s)
    (sp_classified s) (sp_poisoned s) v (sp_max_unit_bytes s) (sp_text_flush_bytes s)
    (sp_transmission s) (sp_group s) (sp_csi_start s) (sp_next_order s) (sp_sequence s)
    (sp_text_mark s) (sp_string_mark s) (sp_group_mark s) (sp_group_parts s).
Definition set_transmission (v : Transmission) (s : VtUnitSplitter) : VtUnitSplitter :=
  mk_VtUnitSplitter (sp_scan s) (sp_text s) (sp_string s) (sp_introducer s) (sp_kind s)
    (sp_classified s) (sp_poisoned s) (sp_discarded_role s) (sp_max_unit_bytes s)
    (sp_text_flush_bytes s) v (sp_group s) (sp_csi_start s) (sp_next_order s) (sp_sequence s)
    (sp_text_mark s) (sp_string_mark s) (sp_group_mark s) (sp_group_parts s).
Definition set_group (v : list byte) (s : VtUnitSplitter) : VtUnitSplitter :=
  mk_VtUnitSplitter (sp_scan s) (sp_text s) (sp_string s) (sp_introducer s) (sp_kind s)
    (sp_classified s) (sp_poisoned s) (sp_discarded_role s) (sp_max_unit_bytes s)
    (sp_text_flush_bytes s) (sp_transmission s) v (sp_csi_start s) (sp_next_order s)
    (sp_sequence s) (sp_text_mark s) (sp_string_mark s) (sp_group_mark s) (sp_group_parts s).
Definition set_csi_start (v : Z) (s : VtUnitSplitter) : VtUnitSplitter :=
  mk_VtUnitSplitter (sp_scan s) (sp_text s) (sp_string s) (sp_introducer s) (sp_kind s)
    (sp_classified s) (sp_poisoned s) (sp_discarded_role s) (sp_max_unit_bytes s)
    (sp_text_flush_bytes s) (sp_transmission s) (sp_group s) v (sp_next_order s) (sp_sequence s)
    (sp_text_mark s) (sp_string_mark s) (sp_group_mark s) (sp_group_parts s).
Definition set_next_order (v : Z) (s : VtUnitSplitter) : VtUnitSplitter :=
  mk_VtUnitSplitter (sp_scan s) (sp_text s) (sp_string s) (sp_introducer s) (sp_kind s)
    (sp_classified s) (sp_poisoned s) (sp_discarded_role s) (sp_max_unit_bytes s)
    (sp_text_flush_bytes s) (sp_transmission s) (sp_group s) (sp_csi_start s) v (sp_sequence s)
    (sp_text_mark s) (sp_string_mark s) (sp_group_mark s) (sp_group_parts s).
Definition set_sequence (v : Z) (s : VtUnitSplitter) : VtUnitSplitter :=
  mk_VtUnitSplitter (sp_scan s) (sp_text s) (sp_string s) (sp_introducer s) (sp_kind s)
    (sp_classified s) (sp_poisoned s) (sp_discarded_role s) (sp_max_unit_bytes s)
    (sp_text_flush_bytes s) (sp_transmission s) (sp_group s) (sp_csi_start s) (sp_next_order s) v
    (sp_text_mark s) (sp_string_mark s) (sp_group_mark s) (sp_group_parts s).
Definition set_text_mark (v : option Mark) (s : VtUnitSplitter) : VtUnitSplitter :=
  mk_VtUnitSplitter (sp_scan s) (sp_text s) (sp_string s) (sp_introducer s) (sp_kind s)
    (sp_classified s) (sp_poisoned s) (sp_discarded_role s) (sp_max_unit_bytes s)
    (sp_text_flush_bytes s) (sp_transmission s) (sp_group s) (sp_csi_start s) (sp_next_order s)
    (sp_sequence s) v (sp_string_mark s) (sp_group_mark s) (sp_group_parts s).
Definition set_string_mark (v : option Mark) (s : VtUnitSplitter) : VtUnitSplitter :=
  mk_VtUnitSplitter (sp_scan s) (sp_text s) (sp_string s) (sp_introducer s) (sp_kind s)
    (sp_classified s) (sp_poisoned s) (sp_discarded_role s) (sp_max_unit_bytes s)
    (sp_text_flush_bytes s) (sp_transmission s) (sp_group s) (sp_csi_start s) (sp_next_order s)
    (sp_sequence s) (sp_text_mark s) v (sp_group_mark s) (sp_group_parts s).
Definition set_group_mark (v : option Mark) (s : VtUnitSplitter) : VtUnitSplitter :=
  mk_VtUnitSplitter (sp_scan s) (sp_text s) (sp_string s) (sp_introducer s) (sp_kind s)
    (sp_classified s) (sp_poisoned s) (sp_discarded_role s) (sp_max_unit_bytes s)
    (sp_text_flush_bytes s) (sp_transmission s) (sp_group s) (sp_csi_start s) (sp_next_order s)
    (sp_sequence s) (sp_text_mark s) (sp_string_mark s) v (sp_group_parts s).
Definition set_group_parts (v : list Part) (s : VtUnitSplitter) : VtUnitSplitter :=
  mk_VtUnitSplitter (sp_scan s) (sp_text s) (sp_string s) (sp_introducer s) (sp_kind s)
    (sp_classified s) (sp_poisoned s) (sp_discarded_role s) (sp_max_unit_bytes s)
    (sp_text_flush_bytes s) (sp_transmission s) (sp_group s) (sp_csi_start s) (sp_next_order s)
    (sp_sequence s) (sp_text_mark s) (sp_string_mark s) (sp_group_mark s) v.

Definition splitter_new (max_unit_bytes text_flush_bytes : Z) : VtUnitSplitter :=
  mk_VtUnitSplitter Ground [] [] x00 KText true false None (Z.max 64 max_unit_bytes) text_flush_bytes Idle [] 0 0 0 None None None [].

Definition allocate (s : VtUnitSplitter) : Mark * VtUnitSplitter :=
  (mk_Mark (sp_next_order s) (sp_sequence s), set_next_order (add64 (sp_next_order s) 1) s).
Definition push_text (b : byte) (s : VtUnitSplitter) : VtUnitSplitter :=
  let s := match sp_text s with [] => let '(m, s) := allocate s in set_text_mark (Some m) s | _ => s end in
  set_text (sp_text s ++ [b]) s.
Definition emit (kind : UnitKind) (bytes : list byte) (mark : option Mark) (dropped : bool) (s : VtUnitSplitter) (out : list VtUnit) : VtUnitSplitter * list VtUnit :=
  if dropped || bool_decide (bytes = []) then (s, out) else
  let '(m, s) := match mark with Some m => (m, s) | None => allocate s end in
  (s, out ++ [mk_VtUnit kind bytes (mk_order m) (mk_sequence m) []]).
Definition flush_text (s : VtUnitSplitter) (out : list VtUnit) : VtUnitSplitter * list VtUnit :=
  match sp_text s with [] => (s, out) | bytes => emit KText bytes (sp_text_mark s) false (set_text_mark None (set_text [] s)) out end.
Definition flush_text_when_large (s : VtUnitSplitter) (out : list VtUnit) : VtUnitSplitter * list VtUnit :=
  if sp_text_flush_bytes s <=? zlen (sp_text s) then flush_text s out else (s, out).

Definition transmission_role (bytes : list byte) (s : VtUnitSplitter) : Continuation :=
  match sp_kind s, sp_transmission s with
  | KText, Idle => Standalone
  | _, _ =>
      match bytes with
      | _ :: x5f :: payload => kitty_continuation payload
      | _ :: x5d :: payload => iterm_continuation payload
      | _ => Standalone
      end
  end.
Definition has_metadata (bytes : list byte) : bool :=
  existsb (λ field, starts_with (bytes_of "a=") field || starts_with (bytes_of "f=") field || starts_with (bytes_of "s=") field || starts_with (bytes_of "v=") field)
    (split_on x2c (before x3b (drop 3 bytes))).
Definition adjusted_role (bytes : list byte) (dropped : bool) (s : VtUnitSplitter) : Continuation :=
  let role := transmission_role bytes s in
  match sp_kind s with
  | KText => role
  | KImage =>
      if negb (starts_with [x1b; x5f; x47] bytes) then role else
      match sp_transmission s, role with
      | Idle, Closes => if has_metadata bytes then Standalone else role
      | (Open | Discarding), Standalone => if dropped then role else Closes
      | _, _ => role
      end
  end.

Definition begin_string (introducer : byte) (s : VtUnitSplitter) : VtUnitSplitter :=
  let s := set_discarded_role None (set_poisoned false (set_classified (is_byte introducer x5e || is_byte introducer x58) (set_kind KText (set_introducer introducer s)))) in
  let '(m, s) := allocate (set_string [x1b; introducer] s) in set_scan InString (set_string_mark (Some m) s).
Definition push_string (b : byte) (s : VtUnitSplitter) : VtUnitSplitter :=
  if sp_poisoned s then s else
  if sp_max_unit_bytes s <=? zlen (sp_string s)
  then set_string (take 2 (sp_string s)) (set_poisoned true (set_discarded_role (Some (adjusted_role (sp_string s) false s)) s))
  else set_string (sp_string s ++ [b]) s.
Definition classify (s : VtUnitSplitter) : VtUnitSplitter :=
  if sp_classified s then s else
  let payload := drop 2 (sp_string s) in
  match sp_introducer s with
  | x5f => set_classified true (set_kind (if bool_decide (head payload = Some x47) then KImage else KText) s)
  | x50 =>
      let final := default x00 (last payload) in
      if is_final final then set_classified true (set_kind (if is_byte final x71 then KImage else KText) s)
      else if DCS_CLASSIFY_BYTES <=? zlen payload then set_classified true s else s
  | x5d =>
      if OSC_IMAGE_CLASSIFY_BYTES <=? zlen payload
      then set_classified true (set_kind (if starts_with (bytes_of "1337;File=") payload || starts_with (bytes_of "1337;MultipartFile=") payload then KImage else KText) s)
      else s
  | _ => set_classified true s
  end.

Definition extend_group (bytes : list byte) (dropped : bool) (s : VtUnitSplitter) : VtUnitSplitter :=
  match sp_transmission s with
  | Open =>
      if dropped || (sp_max_unit_bytes s <? zlen (sp_group s) + zlen bytes)
      then set_group_parts [] (set_group [] (set_transmission Discarding s))
      else set_group (sp_group s ++ bytes) s
  | _ => s
  end.
Definition set_last_parts (parts : list Part) (out : list VtUnit) : list VtUnit :=
  match last out with
  | Some u => take (length out - 1) out ++ [mk_VtUnit (un_kind u) (un_bytes u) (un_order u) (un_sequence u) parts]
  | None => out
  end.
Definition close_group (s : VtUnitSplitter) (out : list VtUnit) : VtUnitSplitter * list VtUnit :=
  let group := sp_group s in
  let parts := sp_group_parts s in
  let mark := sp_group_mark s in
  let discarded := match sp_transmission s with Discarding => true | _ => false end in
  let s := set_transmission Idle (set_group_mark None (set_group_parts [] (set_group [] s))) in
  if discarded || bool_decide (group = []) then (s, out) else
  let '(s, out) := emit KImage group mark false s out in (s, set_last_parts parts out).
Definition add_part (mark : option Mark) (s : VtUnitSplitter) : VtUnitSplitter :=
  match mark with Some m => set_group_parts (sp_group_parts s ++ [(zlen (sp_group s), mk_order m, mk_sequence m)]) s | None => s end.
Definition finish_string (s : VtUnitSplitter) (out : list VtUnit) : VtUnitSplitter * list VtUnit :=
  let bytes := sp_string s in
  let mark := sp_string_mark s in
  let dropped := sp_poisoned s in
  let s := set_scan Ground (set_classified true (set_poisoned false (set_string_mark None (set_string [] s)))) in
  if bool_decide (bytes = []) then (s, out) else
  let role := match sp_discarded_role s with Some role => role | None => adjusted_role bytes dropped s end in
  let s := set_discarded_role None s in
  match sp_transmission s, role with
  | Idle, Opens =>
      let s := set_group_parts (match mark with Some m => [(0, mk_order m, mk_sequence m)] | None => [] end) (set_group_mark mark s) in
      (if dropped then set_group [] (set_transmission Discarding s) else set_group bytes (set_transmission Open s), out)
  | Idle, (Continues | Closes) => (s, out)
  | Open, (Opens | Continues) => (extend_group bytes dropped (add_part mark s), out)
  | Open, Closes => close_group (extend_group bytes dropped (add_part mark s)) out
  | Discarding, Closes => (set_group_mark None (set_transmission Idle s), out)
  | Discarding, (Opens | Continues) => (s, out)
  | _, Standalone => emit (sp_kind s) bytes mark dropped s out
  end.

Definition pop_text (s : VtUnitSplitter) : VtUnitSplitter :=
  let s := set_text (take (length (sp_text s) - 1) (sp_text s)) s in
  match sp_text s with [] => set_text_mark None s | _ => s end.
Definition escape_byte (b : byte) (s : VtUnitSplitter) (out : list VtUnit) : VtUnitSplitter * list VtUnit :=
  match b with
  | x1b => (push_text b s, out)
  | x5f | x50 | x5d | x5e | x58 => let '(s, out) := flush_text (pop_text s) out in (begin_string b s, out)
  | x5b => let s := push_text b s in (set_scan Csi (set_csi_start (sat_sub (zlen (sp_text s)) 2) s), out)
  | _ => flush_text_when_large (set_scan Ground (push_text b s)) out
  end.
(** One byte.  The code takes a run of ordinary bytes at once, which appends the same. *)
Definition push_byte (b : byte) (s : VtUnitSplitter) (out : list VtUnit) : VtUnitSplitter * list VtUnit :=
  match sp_scan s with
  | Ground => (if is_byte b ESC then set_scan Escape (push_text b s) else push_text b s, out)
  | Escape => escape_byte b s out
  | Csi =>
      if is_byte b ESC then (set_scan Escape (push_text b s), out) else
      let s := push_text b s in
      if is_final b then flush_text_when_large (set_scan Ground s) out else
      if sp_max_unit_bytes s <? zlen (sp_text s) - sp_csi_start s then
        let s := set_text (take (Z.to_nat (sp_csi_start s)) (sp_text s)) s in
        (set_scan CsiDiscard (match sp_text s with [] => set_text_mark None s | _ => s end), out)
      else (s, out)
  | CsiDiscard =>
      if is_byte b ESC then (set_scan Escape (push_text b s), out) else (if is_final b then set_scan Ground s else s, out)
  | InString =>
      if is_byte b ESC then (set_scan StringEscape (push_string b s), out) else
      if is_byte b BEL && is_byte (sp_introducer s) x5d then finish_string (push_string b s) out else (classify (push_string b s), out)
  | StringEscape =>
      if is_byte b x5c then finish_string (push_string b s) out else
      (* The string is cancelled, and the byte is the second of an escape. *)
      escape_byte b (push_text ESC (set_scan Escape (set_classified true (set_poisoned false (set_string_mark None (set_string [] s)))))) out
  end.
Definition push_bytes (bytes : list byte) (s : VtUnitSplitter) (out : list VtUnit) : VtUnitSplitter * list VtUnit :=
  foldl (λ so b, push_byte b so.1 so.2) (s, out) bytes.
Definition split_push (sequence : Z) (bytes : list byte) (s : VtUnitSplitter) : VtUnitSplitter * list VtUnit :=
  let '(s, out) := push_bytes bytes (set_sequence sequence s) [] in
  match sp_scan s with Ground => flush_text s out | _ => (s, out) end.

Definition pending (s : VtUnitSplitter) : Pending :=
  let open := match sp_transmission s with Open => negb (bool_decide (sp_group s = [])) | _ => false end in
  let bytes := if open then sp_group s else [] in
  let sequence := if open then mk_sequence <$> sp_group_mark s else None in
  let parts := if open then sp_group_parts s else [] in
  let in_string := match sp_scan s with InString | StringEscape => true | _ => false end in
  let mark := if in_string then sp_string_mark s else sp_text_mark s in
  let parts := parts ++ match mark, sp_scan s with
                        | Some m, _ => [(zlen bytes, mk_order m, mk_sequence m)]
                        | None, CsiDiscard => [(zlen bytes, sp_next_order s, sp_sequence s)]
                        | None, _ => []
                        end in
  let or := λ a b : option Z, match a with Some _ => a | None => b end in
  match sp_scan s with
  | InString | StringEscape =>
      mk_Pending (bytes ++ sp_string s ++ match sp_scan s with StringEscape => if sp_poisoned s then [ESC] else [] | _ => [] end) (or sequence (mk_sequence <$> sp_string_mark s)) parts
  | CsiDiscard => mk_Pending (bytes ++ sp_text s ++ [x1b; x5b]) (or (or sequence (mk_sequence <$> sp_text_mark s)) (Some (sp_sequence s))) parts
  | _ => mk_Pending (bytes ++ sp_text s) (or sequence (mk_sequence <$> sp_text_mark s)) parts
  end.
