(* ===== verification/Retained.v ===== *)
(** * Retained: the terminal output kept for a client that starts from nothing

    Beside the ring of the last output (OutputHub) a host keeps a longer history of whole units
    (VtStream), text and images under budgets of their own; what is thrown away is folded into the
    attributes and modes it set, which are replayed first.  The recorder of that state
    (src-tauri/src/terminal/vt_state.rs) and the history (retained_history.rs). *)

From Stdlib Require Import ZArith Lia Strings.Byte.
From stdpp Require Import base option list strings.
From S2P Require Import Prelude VtStream.

#[local] Open Scope Z_scope.

(** ** The state of evicted output (vt_state.rs) *)

Definition MAX_CSI_PARAMETER_BYTES : Z := 1024.
Inductive StateScan : Type := SGround | SEscape | SCsi | SString | SStringEscape | SCharset.
Definition TRACKED_PRIVATE_MODES : list Z := [1; 7; 25; 1000; 1002; 1003; 1004; 1005; 1006; 1049; 2004].
Record TerminalStatePrelude := mk_TerminalStatePrelude { tp_sgr : list (list byte); tp_private_modes : list (Z * bool); tp_utf8_charset : bool }.

Definition is_digit (b : byte) : bool := in_range 48 57 (bz b).
Definition digits_of : list byte → Z := foldl (λ n b, 10 * n + (bz b - 48)) 0.
(** [parse::<u16>] of a piece of parameters, which are digits. *)
Definition parse_u16 (l : list byte) : option Z :=
  if bool_decide (l = []) || negb (forallb is_digit l) then None else
  let n := digits_of l in if n <=? u16_max then Some n else None.
Fixpoint decimal (fuel : nat) (n : Z) (acc : list byte) : list byte :=
  match fuel with O => acc | S fuel => let acc := zb (48 + n mod 10) :: acc in if n <? 10 then acc else decimal fuel (n / 10) acc end.
(** [to_string] of a [u16]. *)
Definition u16_string (n : Z) : list byte := decimal 5 n [].

Definition prelude_encode (p : TerminalStatePrelude) : list byte :=
  (if tp_utf8_charset p then [x1b; x25; x47] else []) ++
  concat ((λ me, [x1b; x5b; x3f] ++ u16_string me.1 ++ [if me.2 : bool then x68 else x6c]) <$> tp_private_modes p) ++
  match tp_sgr p with [] => [] | sgr => [x1b; x5b; x30; x6d] ++ concat ((λ params, [x1b; x5b] ++ params ++ [x6d]) <$> sgr) end.

Record TerminalStateRecorder := mk_TerminalStateRecorder {
  sr_scan : StateScan;
  sr_params : list byte;
  sr_params_overflowed : bool;
  sr_private : bool;
  sr_sgr : list (list byte);
  sr_private_modes : list (Z * bool);
  sr_utf8_charset : bool;
}.
Definition recorder_new : TerminalStateRecorder := mk_TerminalStateRecorder SGround [] false false [] [] false.
Definition prelude_of (r : TerminalStateRecorder) : TerminalStatePrelude := mk_TerminalStatePrelude (sr_sgr r) (sr_private_modes r) (sr_utf8_charset r).
Definition restore (p : TerminalStatePrelude) (_ : TerminalStateRecorder) : TerminalStateRecorder :=
  mk_TerminalStateRecorder SGround [] false false (tp_sgr p) (tp_private_modes p) (tp_utf8_charset p).
Definition in_scan (scan : StateScan) (r : TerminalStateRecorder) : TerminalStateRecorder :=
  mk_TerminalStateRecorder scan (sr_params r) (sr_params_overflowed r) (sr_private r) (sr_sgr r) (sr_private_modes r) (sr_utf8_charset r).
Definition with_sgr (sgr : list (list byte)) (r : TerminalStateRecorder) : TerminalStateRecorder :=
  mk_TerminalStateRecorder (sr_scan r) (sr_params r) (sr_params_overflowed r) (sr_private r) sgr (sr_private_modes r) (sr_utf8_charset r).

Definition sgr_group (code : Z) : option Z :=
  if bool_decide (code ∈ [1; 22]) then Some 1 else
  if code =? 2 then Some 2 else
  if bool_decide (code ∈ [3; 20; 23]) then Some 3 else
  if bool_decide (code ∈ [4; 21; 24]) then Some 4 else
  if bool_decide (code ∈ [5; 6; 25]) then Some 5 else
  if bool_decide (code ∈ [7; 27]) then Some 7 else
  if bool_decide (code ∈ [8; 28]) then Some 8 else
  if bool_decide (code ∈ [9; 29]) then Some 9 else
  if in_range 10 19 code then Some 10 else
  if in_range 30 39 code || in_range 90 97 code then Some 30 else
  if in_range 40 49 code || in_range 100 107 code then Some 40 else
  if bool_decide (code ∈ [51; 52; 54]) then Some 51 else
  if bool_decide (code ∈ [53; 55]) then Some 53 else
  if bool_decide (code ∈ [58; 59]) then Some 58 else
  if in_range 60 65 code then Some 60 else
  if in_range 73 75 code then Some 73 else None.
(** The attributes after one field and those it takes with it: the attributes and the fields left. *)
Definition sgr_field (field : list byte) (rest : list (list byte)) (sgr : list (list byte)) : list (list byte) * list (list byte) :=
  let code := default 0 (parse_u16 (before x3a field)) in
  if code =? 0 then ([], rest) else
  let count := if bool_decide (code ∈ [38; 48; 58]) && negb (bool_decide (x3a ∈ field))
               then match rest with [x35] :: _ => 2 | [x32] :: _ => 4 | _ => 0 end%nat else 0%nat in
  let sgr := match sgr_group code with
    | None => sgr
    | Some group =>
        let kept := List.filter (λ prior, negb (bool_decide ((parse_u16 (before x3a (before x3b prior)) ≫= sgr_group) = Some group))) sgr in
        let kept := if code =? 22 then List.filter (λ prior, negb (bool_decide (prior = [x32]))) kept else kept in
        kept ++ [field ++ concat (cons x3b <$> take count rest)]
    end in
  (sgr, drop count rest).
Fixpoint sgr_fields (fuel : nat) (fields : list (list byte)) (sgr : list (list byte)) : list (list byte) :=
  match fuel, fields with
  | S fuel, field :: rest => let '(sgr, rest) := sgr_field field rest sgr in sgr_fields fuel rest sgr
  | _, _ => sgr
  end.
Definition apply_sgr (r : TerminalStateRecorder) : TerminalStateRecorder :=
  let fields := split_on x3b (sr_params r) in
  let r := mk_TerminalStateRecorder (sr_scan r) [] (sr_params_overflowed r) (sr_private r) (sr_sgr r) (sr_private_modes r) (sr_utf8_charset r) in
  if forallb (λ p, bool_decide (p = [x30]) || bool_decide (p = [])) fields then with_sgr [] r else
  with_sgr (sgr_fields (length fields) fields (sr_sgr r)) r.
Definition set_mode (mode : Z) (enabled : bool) (modes : list (Z * bool)) : list (Z * bool) :=
  match list_find (λ me : Z * bool, me.1 = mode) modes with
  | Some (i, _) => <[i := (mode, enabled)]> modes
  | None => modes ++ [(mode, enabled)]
  end.
Definition apply_private_mode (enabled : bool) (r : TerminalStateRecorder) : TerminalStateRecorder :=
  let modes := foldl (λ modes part, match parse_u16 part with
                                    | Some mode => if bool_decide (mode ∈ TRACKED_PRIVATE_MODES) then set_mode mode enabled modes else modes
                                    | None => modes end) (sr_private_modes r) (split_on x3b (sr_params r)) in
  mk_TerminalStateRecorder (sr_scan r) [] (sr_params_overflowed r) (sr_private r) (sr_sgr r) modes (sr_utf8_charset r).
Definition dispatch_csi (final : byte) (r : TerminalStateRecorder) : TerminalStateRecorder :=
  match final, sr_private r with
  | x6d, false => apply_sgr r
  | x68, true => apply_private_mode true r
  | x6c, true => apply_private_mode false r
  | _, _ => r
  end.
Definition observe_byte (r : TerminalStateRecorder) (b : byte) : TerminalStateRecorder :=
  match sr_scan r with
  | SGround => if is_byte b ESC then in_scan SEscape r else r
  | SEscape =>
      match b with
      | x5b => mk_TerminalStateRecorder SCsi [] false false (sr_sgr r) (sr_private_modes r) (sr_utf8_charset r)
      | x5f | x50 | x5d | x5e | x58 => in_scan SString r
      | x25 => in_scan SCharset r
      | x63 => mk_TerminalStateRecorder SGround (sr_params r) (sr_params_overflowed r) (sr_private r) [] [] false
      | x1b => r
      | _ => in_scan SGround r
      end
  | SCsi =>
      if is_byte b x3f && bool_decide (sr_params r = []) then mk_TerminalStateRecorder SCsi (sr_params r) (sr_params_overflowed r) true (sr_sgr r) (sr_private_modes r) (sr_utf8_charset r) else
      if is_digit b || is_byte b x3b || is_byte b x3a then
        if zlen (sr_params r) <? MAX_CSI_PARAMETER_BYTES
        then mk_TerminalStateRecorder SCsi (sr_params r ++ [b]) (sr_params_overflowed r) (sr_private r) (sr_sgr r) (sr_private_modes r) (sr_utf8_charset r)
        else mk_TerminalStateRecorder SCsi (sr_params r) true (sr_private r) (sr_sgr r) (sr_private_modes r) (sr_utf8_charset r)
      else if is_final b then in_scan SGround (if sr_params_overflowed r then r else dispatch_csi b r)
      else if is_byte b ESC then in_scan SEscape r else r
  | SString => if is_byte b ESC then in_scan SStringEscape r else if is_byte b BEL then in_scan SGround r else r
  | SStringEscape => in_scan (if is_byte b x5c then SGround else SString) r
  | SCharset => mk_TerminalStateRecorder SGround (sr_params r) (sr_params_overflowed r) (sr_private r) (sr_sgr r) (sr_private_modes r) (if is_byte b x47 then true else sr_utf8_charset r)
  end.
Definition observe (bytes : list byte) (r : TerminalStateRecorder) : TerminalStateRecorder := foldl observe_byte r bytes.

(** ** The history (retained_history.rs) *)

Definition IMAGE_RETENTION_RATIO : Z := 16.
Definition MAX_RETAINED_GROUP_BYTES : Z := 8 * 1024 * 1024.
Record RetentionBudget := mk_RetentionBudget { rb_text_bytes : Z; rb_image_bytes : Z }.
Definition from_text_capacity (text_bytes : Z) : RetentionBudget := mk_RetentionBudget text_bytes (Z.min u64_max (text_bytes * IMAGE_RETENTION_RATIO)).
Definition max_unit_bytes (b : RetentionBudget) : Z := Z.min MAX_RETAINED_GROUP_BYTES (Z.max 64 (Z.max (rb_image_bytes b) (rb_text_bytes b))).
Definition text_block_bytes (b : RetentionBudget) : Z := Z.max 1 (rb_text_bytes b / 64).

Record HRecord := mk_HRecord { hr_order : Z; hr_sequence : Z; hr_bytes : list byte; hr_open : bool; hr_image_group : option Z }.
Record RetainedHistory := mk_RetainedHistory {
  rh_budget : RetentionBudget;
  rh_splitter : VtUnitSplitter;
  rh_evicted_state : TerminalStateRecorder;
  rh_text : list HRecord;
  rh_images : list HRecord;
  rh_text_bytes : Z;
  rh_image_bytes : Z;
}.
Definition retained_new (b : RetentionBudget) : RetainedHistory :=
  mk_RetainedHistory b (splitter_new (max_unit_bytes b) (text_block_bytes b)) recorder_new [] [] 0 0.
Definition with_texts (text : list HRecord) (text_bytes : Z) (h : RetainedHistory) : RetainedHistory :=
  mk_RetainedHistory (rh_budget h) (rh_splitter h) (rh_evicted_state h) text (rh_images h) text_bytes (rh_image_bytes h).
Definition with_images (images : list HRecord) (image_bytes : Z) (h : RetainedHistory) : RetainedHistory :=
  mk_RetainedHistory (rh_budget h) (rh_splitter h) (rh_evicted_state h) (rh_text h) images (rh_text_bytes h) image_bytes.
Definition update_last (f : HRecord → HRecord) (l : list HRecord) : list HRecord :=
  match last l with Some r => take (length l - 1) l ++ [f r] | None => l end.
Definition seal (h : RetainedHistory) : RetainedHistory :=
  with_texts (update_last (λ r, mk_HRecord (hr_order r) (hr_sequence r) (hr_bytes r) false (hr_image_group r)) (rh_text h)) (rh_text_bytes h) h.

(** The parts of a unit: each ends where the next begins. *)
Fixpoint cut_parts {A} (bytes : list byte) (parts : list Part) (f : Z → Z → list byte → A) : list A :=
  match parts with
  | [] => []
  | (start, order, sequence) :: rest =>
      let stop := match rest with (next, _, _) :: _ => next | [] => zlen bytes end in
      f order sequence (take (Z.to_nat (stop - start)) (drop (Z.to_nat start) bytes)) :: cut_parts bytes rest f
  end.
Definition retain_unit (h : RetainedHistory) (u : VtUnit) : RetainedHistory :=
  match un_kind u with
  | KImage =>
      let parts := match un_parts u with [] => [(0, un_order u, un_sequence u)] | parts => parts end in
      let records := cut_parts (un_bytes u) parts (λ order sequence bytes, mk_HRecord order sequence bytes false (Some (un_order u))) in
      seal (with_images (rh_images h ++ records) (rh_image_bytes h + zlen (un_bytes u)) h)
  | KText =>
      let text_bytes := rh_text_bytes h + zlen (un_bytes u) in
      let coalesce := match last (rh_text h) with
        | Some r => hr_open r && (zlen (hr_bytes r) <? text_block_bytes (rh_budget h)) && (hr_sequence r =? un_sequence u) && (add64 (hr_order r) 1 =? un_order u)
        | None => false
        end in
      if coalesce
      then with_texts (update_last (λ r, mk_HRecord (hr_order r) (hr_sequence r) (hr_bytes r ++ un_bytes u) (hr_open r) (hr_image_group r)) (rh_text h)) text_bytes h
      else with_texts (rh_text h ++ [mk_HRecord (un_order u) (un_sequence u) (un_bytes u) true None]) text_bytes h
  end.
Fixpoint evict_text (budget : Z) (text : list HRecord) (text_bytes : Z) (state : TerminalStateRecorder) : list HRecord * Z * TerminalStateRecorder :=
  match text with
  | r :: rest => if budget <? text_bytes then evict_text budget rest (text_bytes - zlen (hr_bytes r)) (observe (hr_bytes r) state) else (text, text_bytes, state)
  | [] => (text, text_bytes, state)
  end.
(** An image goes with all its parts: [group] is the image that is being evicted. *)
Fixpoint evict_images (budget : Z) (group : option (option Z)) (images : list HRecord) (image_bytes : Z) : list HRecord * Z :=
  match images with
  | r :: rest =>
      if bool_decide (group = Some (hr_image_group r)) then evict_images budget group rest (image_bytes - zlen (hr_bytes r)) else
      if budget <? image_bytes then evict_images budget (Some (hr_image_group r)) rest (image_bytes - zlen (hr_bytes r)) else (images, image_bytes)
  | [] => (images, image_bytes)
  end.
Definition evict (h : RetainedHistory) : RetainedHistory :=
  let '(text, text_bytes, state) := evict_text (rb_text_bytes (rh_budget h)) (rh_text h) (rh_text_bytes h) (rh_evicted_state h) in
  let '(images, image_bytes) := evict_images (rb_image_bytes (rh_budget h)) None (rh_images h) (rh_image_bytes h) in
  mk_RetainedHistory (rh_budget h) (rh_splitter h) state text images text_bytes image_bytes.
Definition retained_push (sequence : Z) (bytes : list byte) (h : RetainedHistory) : RetainedHistory :=
  let '(splitter, units) := split_push sequence bytes (rh_splitter h) in
  evict (foldl retain_unit (mk_RetainedHistory (rh_budget h) splitter (rh_evicted_state h) (rh_text h) (rh_images h) (rh_text_bytes h) (rh_image_bytes h)) units).
Definition restore_state (p : TerminalStatePrelude) (h : RetainedHistory) : RetainedHistory :=
  mk_RetainedHistory (rh_budget h) (rh_splitter h) (restore p (rh_evicted_state h)) (rh_text h) (rh_images h) (rh_text_bytes h) (rh_image_bytes h).

Definition retained_start_of (h : RetainedHistory) : option Z :=
  let records := match head (rh_text h), head (rh_images h) with
    | Some text, Some image => Some (if hr_order image <? hr_order text then hr_sequence image else hr_sequence text)
    | Some text, None => Some (hr_sequence text)
    | None, image => hr_sequence <$> image
    end in
  match records, pd_sequence (pending (rh_splitter h)) with
  | Some r, Some p => Some (Z.min r p)
  | Some r, None => Some r
  | None, p => p
  end.
(** A stable sort, as [sort_by_key] is. *)
Fixpoint insert_by_order {A} (x : Z * A) (l : list (Z * A)) : list (Z * A) :=
  match l with y :: l' => if x.1 <=? y.1 then x :: l else y :: insert_by_order x l' | [] => [x] end.
Definition sort_by_order {A} : list (Z * A) → list (Z * A) := foldr insert_by_order [].
Definition records_with_pending (h : RetainedHistory) (p : Pending) : list (Z * list byte) :=
  let records := (λ r, (hr_order r, (hr_sequence r, hr_bytes r))) <$> (rh_text h ++ rh_images h) in
  let more :=
    if bool_decide (pd_parts p = []) && negb (bool_decide (pd_bytes p = []))
    then [(match records with [] => 0 | _ => foldr Z.max 0 records.*1 + 1 end, (default 0 (pd_sequence p), pd_bytes p))]
    else List.filter (λ r, negb (bool_decide (r.2.2 = []))) (cut_parts (pd_bytes p) (pd_parts p) (λ order sequence bytes, (order, (sequence, bytes)))) in
  (sort_by_order (records ++ more)).*2.
Definition state_prelude (h : RetainedHistory) : list byte := prelude_encode (prelude_of (rh_evicted_state h)).
(** Everything a new client is shown. *)
Definition replay (h : RetainedHistory) : list byte := state_prelude h ++ concat (records_with_pending h (pending (rh_splitter h))).*2.
