(* ===== verification/OutputHub.v ===== *)
(** * OutputHub: the output of a terminal, for clients that come and go

    The daemon numbers the output of every terminal and keeps the last of it in a ring; a client that
    lost its connection asks for what came after the last number it saw, a new one for everything,
    and is told when there is a gap.  Resizes take numbers too, so that history can be replayed in
    pieces of one size.  When the daemon is replaced its successor takes the state over.  The model of
    src-tauri/src/terminal/output_hub.rs on top of the retained history (Retained).  Channels are what
    they are sent; the mirrored screen, program status and exit codes are left out. *)

From Stdlib Require Import ZArith Lia Strings.Byte Sorting.Sorted.
From stdpp Require Import base option gmap list strings.
From S2P Require Import Prelude VtStream Retained.

#[local] Open Scope Z_scope.

(** ** Data *)

Definition RESIZE_LEDGER_CAPACITY : nat := Z.to_nat 4096.
Record ResizePoint := mk_ResizePoint { rz_sequence : Z; rz_cols : Z; rz_rows : Z }.
Definition Size : Type := option Z * option Z.
Record HistorySegment := mk_HistorySegment { sg_size : Size; sg_bytes : list byte }.
Record HistoryRange := mk_HistoryRange { rg_size : Size; rg_start : Z; rg_end : Z }.
Record ReplayGap := mk_ReplayGap { requested_after_sequence : Z; available_from_sequence : Z }.
Record OutputChunk := mk_OutputChunk { oc_sequence : Z; oc_bytes : list byte; oc_metrics_read_unix_micros : option Z; oc_replay_gap : option ReplayGap }.

(** Whether bytes contain one of the sequences that clear the screen. *)
Fixpoint contains (needle l : list byte) : bool := starts_with needle l || match l with _ :: l => contains needle l | [] => false end.
Definition resets_whole_screen (bytes : list byte) : bool :=
  contains [x1b; x63] bytes || contains ([x1b] ++ bytes_of "[2J") bytes || contains ([x1b] ++ bytes_of "[?1049h") bytes.

(** Parameters up to the first byte that is none, and the rest. *)
Fixpoint span_params (l : list byte) : list byte * list byte :=
  match l with
  | b :: l' => if is_digit b || is_byte b x3b then let '(p, r) := span_params l' in (b :: p, r) else ([], l)
  | [] => ([], [])
  end.
Fixpoint scan_modes (fuel : nat) (l : list byte) (state : option bool) : option bool :=
  match fuel, l with
  | S fuel, a :: rest =>
      let skip := scan_modes fuel rest state in
      match l with
      | x1b :: x5b :: x3f :: (_ :: _) as params =>
          match span_params (drop 3 l) with
          | (params, (x68 | x6c) as final :: rest) =>
              scan_modes fuel rest (if existsb (λ part, bool_decide (part = bytes_of "2004")) (split_on x3b params) then Some (is_byte final x68) else state)
          | _ => skip
          end
      | _ => skip
      end
  | _, _ => state
  end.
Definition scan_dec_mode_2004 (bytes : list byte) : option bool :=
  if negb (existsb (λ b, is_byte b x32) bytes) then None else scan_modes (length bytes) bytes None.

(** ** The ring *)

Record BoundedBuffer := mk_BoundedBuffer {
  bb_capacity : Z;
  bb_chunks : list OutputChunk;
  bb_current_size : Z;
  bb_next_sequence : Z;
  bb_bracketed_paste_enabled : bool;
  bb_retained : RetainedHistory;
  bb_gap_floor : Z;
}.
Definition with_retention (capacity : Z) (budget : RetentionBudget) : BoundedBuffer := mk_BoundedBuffer capacity [] 0 1 false (retained_new budget) 0.
Definition allocate_sequence (b : BoundedBuffer) : Z * BoundedBuffer :=
  (bb_next_sequence b, mk_BoundedBuffer (bb_capacity b) (bb_chunks b) (bb_current_size b) (add64 (bb_next_sequence b) 1) (bb_bracketed_paste_enabled b) (bb_retained b) (bb_gap_floor b)).
Fixpoint trim (capacity : Z) (chunks : list OutputChunk) (size : Z) : list OutputChunk * Z :=
  match chunks with
  | front :: rest => if capacity <? size then trim capacity rest (size - zlen (oc_bytes front)) else (chunks, size)
  | [] => (chunks, size)
  end.
Definition append (chunk : OutputChunk) (b : BoundedBuffer) : BoundedBuffer :=
  let '(chunks, size) := trim (bb_capacity b) (bb_chunks b ++ [chunk]) (bb_current_size b + zlen (oc_bytes chunk)) in
  mk_BoundedBuffer (bb_capacity b) chunks size (bb_next_sequence b) (bb_bracketed_paste_enabled b)
    (retained_push (oc_sequence chunk) (oc_bytes chunk) (bb_retained b)) (bb_gap_floor b).
Definition push_with_read_timestamp (bytes : list byte) (metrics : option Z) (b : BoundedBuffer) : BoundedBuffer * option OutputChunk :=
  if bool_decide (bytes = []) then (b, None) else
  let '(sequence, b) := allocate_sequence b in
  let chunk := mk_OutputChunk sequence bytes metrics None in
  let b := append chunk b in
  let paste := match scan_dec_mode_2004 bytes with Some enabled => enabled | None => bb_bracketed_paste_enabled b end in
  (mk_BoundedBuffer (bb_capacity b) (bb_chunks b) (bb_current_size b) (bb_next_sequence b) paste (bb_retained b) (bb_gap_floor b), Some chunk).

Definition start_sequence (b : BoundedBuffer) : option Z := oc_sequence <$> head (bb_chunks b).
Definition end_sequence (b : BoundedBuffer) : option Z := oc_sequence <$> last (bb_chunks b).
Definition retained_start_sequence (b : BoundedBuffer) : option Z :=
  match retained_start_of (bb_retained b) with Some s => Some s | None => start_sequence b end.
Definition contains_active_bracketed_paste (b : BoundedBuffer) : bool :=
  foldl (λ active c, match scan_dec_mode_2004 (oc_bytes c) with Some enabled => enabled | None => active end) false (bb_chunks b).
Definition PASTE_ON : list byte := [x1b] ++ bytes_of "[?2004h".
Definition paste_prefix (b : BoundedBuffer) : list byte :=
  if bb_bracketed_paste_enabled b && negb (contains_active_bracketed_paste b) then PASTE_ON else [].
Definition snapshot (b : BoundedBuffer) : list byte := paste_prefix b ++ concat (oc_bytes <$> bb_chunks b).

(** ** Replay *)

Definition gap_for (first : option Z) (requested : Z) (b : BoundedBuffer) : option ReplayGap :=
  if (0 <? bb_gap_floor b) && (requested <? bb_gap_floor b) then Some (mk_ReplayGap requested (bb_gap_floor b)) else
  match first with
  | Some first => if (requested <? sat_sub first 1) || (default 0 (end_sequence b) <? requested) then Some (mk_ReplayGap requested first) else None
  | None => if (1 <? bb_next_sequence b) || (0 <? requested) then Some (mk_ReplayGap requested (bb_next_sequence b)) else None
  end.
(** The points of the ledger up to a sequence: those left, and the size after them. *)
Fixpoint advance (ledger : list ResizePoint) (sequence : Z) (size : Size) : list ResizePoint * Size :=
  match ledger with
  | p :: rest => if rz_sequence p <=? sequence then advance rest sequence (Some (rz_cols p), Some (rz_rows p)) else (ledger, size)
  | [] => (ledger, size)
  end.
(** The loop over the items after the first: history, ranges closed so far, the open one. *)
Fixpoint range_loop (items : list (Z * list byte)) (ledger : list ResizePoint) (size : Size) (start : Z) (history : list byte) (ranges : list HistoryRange) :
    list byte * list HistoryRange * list ResizePoint * Size * Z :=
  match items with
  | [] => (history, ranges, ledger, size, start)
  | (sequence, bytes) :: items =>
      let '(ledger, next_size) := advance ledger sequence size in
      if bool_decide (next_size = size) then range_loop items ledger size start (history ++ bytes) ranges
      else range_loop items ledger next_size (zlen history) (history ++ bytes) (ranges ++ [mk_HistoryRange size start (zlen history)])
  end.
Definition point_size (p : ResizePoint) : Size := (Some (rz_cols p), Some (rz_rows p)).
Definition build_ranges (prefix : list byte) (items : list (Z * list byte)) (ledger : list ResizePoint) (first_sequence : option Z) : list byte * list HistoryRange :=
  let '(ledger, size) := match first_sequence with Some start => advance ledger start (None, None) | None => (ledger, (None, None)) end in
  let '(history, ranges, ledger, size, start) := match items with
    | [] => (prefix, [], ledger, size, 0)
    | (_, bytes) :: items => range_loop items ledger size 0 (prefix ++ bytes) []
    end in
  let ranges := ranges ++ [mk_HistoryRange size start (zlen history)] in
  (history, match last ledger with
            | Some p => if bool_decide (point_size p = size) then ranges else ranges ++ [mk_HistoryRange (point_size p) (zlen history) (zlen history)]
            | None => ranges
            end).
Definition snapshot_after_ranges_impl (after : option Z) (ledger : list ResizePoint) (from_retained : bool) (b : BoundedBuffer) :
    list byte * list HistoryRange * option Z * option Z * option ReplayGap :=
  let first := if from_retained then (λ s, Z.max s (bb_gap_floor b)) <$> retained_start_sequence b else start_sequence b in
  let last_ := end_sequence b in
  let gap := match after with Some requested => gap_for first requested b | None => None end in
  let full := match after, gap with None, _ | _, Some _ => true | _, _ => false end in
  let '(items, prefix) :=
    if from_retained && full
    then (records_with_pending (bb_retained b) (pending (rh_splitter (bb_retained b))), state_prelude (bb_retained b))
    else ((λ c, (oc_sequence c, oc_bytes c)) <$> List.filter (λ c, full || match after with Some n => n <? oc_sequence c | None => true end) (bb_chunks b),
          if full then paste_prefix b else []) in
  if bool_decide (items = []) && bool_decide (prefix = []) then
    let ranges := match last ledger with
      | Some p => if match after with Some s => s <? rz_sequence p | None => true end then [mk_HistoryRange (point_size p) 0 0] else []
      | None => []
      end in
    ([], ranges, None, last_, gap)
  else
    let first_sequence := match items with (s, _) :: _ => Some s | [] => last_ end in
    let '(history, ranges) := build_ranges prefix items ledger first_sequence in
    (history, ranges, first_sequence, last_, gap).
Definition snapshot_after (after : option Z) (b : BoundedBuffer) : list byte * option Z * option Z * option ReplayGap :=
  let '(history, _, start, stop, gap) := snapshot_after_ranges_impl after [] false b in (history, start, stop, gap).
Definition snapshot_after_ranges (after : option Z) (ledger : list ResizePoint) (b : BoundedBuffer) := snapshot_after_ranges_impl after ledger true b.
Definition cut_ranges (history : list byte) (ranges : list HistoryRange) : list HistorySegment :=
  (λ r, mk_HistorySegment (rg_size r) (take (Z.to_nat (rg_end r - rg_start r)) (drop (Z.to_nat (rg_start r)) history))) <$> ranges.
Definition snapshot_after_segmented (after : option Z) (ledger : list ResizePoint) (b : BoundedBuffer) :=
  let '(history, ranges, start, stop, gap) := snapshot_after_ranges_impl after ledger true b in (history, cut_ranges history ranges, start, stop, gap).

(** [segment_history]: the same segments, from the chunks themselves. *)
Fixpoint segment_loop (chunks : list OutputChunk) (ledger : list ResizePoint) (size : Size) (bytes : list byte) (segments : list HistorySegment) :
    list HistorySegment * list ResizePoint * Size :=
  match chunks with
  | [] => (segments ++ [mk_HistorySegment size bytes], ledger, size)
  | c :: chunks =>
      (* The newest point up to the chunk, if there is one. *)
      let points := (length ledger - length (advance ledger (oc_sequence c) size).1)%nat in
      let newest := point_size <$> last (take points ledger) in
      let ledger := drop points ledger in
      match newest with
      | Some next => if bool_decide (next = size) then segment_loop chunks ledger size (bytes ++ oc_bytes c) segments
                     else segment_loop chunks ledger next (oc_bytes c) (segments ++ [mk_HistorySegment size bytes])
      | None => segment_loop chunks ledger size (bytes ++ oc_bytes c) segments
      end
  end.
Definition segment_history (chunks : list OutputChunk) (ledger : list ResizePoint) (after : option Z) : list HistorySegment :=
  match chunks with
  | [] =>
      match last ledger with
      | Some p => if match after with Some s => s <? rz_sequence p | None => true end then [mk_HistorySegment (point_size p) []] else []
      | None => []
      end
  | c :: chunks =>
      let '(ledger, size) := advance ledger (oc_sequence c) (None, None) in
      let '(segments, ledger, size) := segment_loop chunks ledger size (oc_bytes c) [] in
      match last ledger with
      | Some p => if bool_decide (point_size p = size) then segments else segments ++ [mk_HistorySegment (point_size p) []]
      | None => segments
      end
  end.

(** ** Sessions *)

Record SessionHub := mk_SessionHub {
  hb_buffer : BoundedBuffer;
  hb_resize_ledger : list ResizePoint;
  hb_replay_gap : option ReplayGap;
  hb_history_incomplete : bool;
  hb_subscribed : bool;
  hb_ended : bool;
  hb_published_bytes : Z;
}.
Definition hub_new (capacity : Z) (budget : RetentionBudget) : SessionHub := mk_SessionHub (with_retention capacity budget) [] None false false false 0.
(** What subscribers of the session are sent. *)
Definition publish (bytes : list byte) (metrics : option Z) (h : SessionHub) : SessionHub * option OutputChunk :=
  match push_with_read_timestamp bytes metrics (hb_buffer h) with
  | (_, None) => (h, None)
  | (b, Some chunk) =>
      (mk_SessionHub b (hb_resize_ledger h) None (hb_history_incomplete h && negb (resets_whole_screen bytes)) (hb_subscribed h) (hb_ended h)
         (hb_published_bytes h + zlen bytes), Some chunk)
  end.
Definition GAP_SEAM : list byte :=
  [x0d; x0a; x1b] ++ bytes_of "[0m" ++ [x1b] ++ bytes_of "[33m[Ferryx: output stream gap - some terminal output was missed]" ++ [x1b] ++ bytes_of "[0m" ++ [x0d; x0a].
Definition publish_gap (h : SessionHub) : SessionHub * OutputChunk :=
  let '(sequence, b) := allocate_sequence (hb_buffer h) in
  let gap := mk_ReplayGap (sat_sub sequence 1) (add64 sequence 1) in
  let b := append (mk_OutputChunk sequence GAP_SEAM None None) b in
  let b := mk_BoundedBuffer (bb_capacity b) (bb_chunks b) (bb_current_size b) (bb_next_sequence b) (bb_bracketed_paste_enabled b) (bb_retained b) (add64 sequence 1) in
  (mk_SessionHub b (hb_resize_ledger h) (Some gap) true (hb_subscribed h) (hb_ended h) (hb_published_bytes h), mk_OutputChunk sequence [] None (Some gap)).
Definition with_ledger (ledger : list ResizePoint) (h : SessionHub) : SessionHub :=
  mk_SessionHub (hb_buffer h) ledger (hb_replay_gap h) (hb_history_incomplete h) (hb_subscribed h) (hb_ended h) (hb_published_bytes h).
Definition record_initial_size (cols rows : Z) (h : SessionHub) : SessionHub :=
  match hb_resize_ledger h with [] => with_ledger [mk_ResizePoint 0 cols rows] h | _ => h end.
Definition record_resize (cols rows : Z) (h : SessionHub) : SessionHub * Z :=
  let '(sequence, b) := allocate_sequence (hb_buffer h) in
  let b := mk_BoundedBuffer (bb_capacity b) (bb_chunks b) (bb_current_size b) (bb_next_sequence b) (bb_bracketed_paste_enabled b) (seal (bb_retained b)) (bb_gap_floor b) in
  let ledger := if (RESIZE_LEDGER_CAPACITY <=? length (hb_resize_ledger h))%nat then drop 1 (hb_resize_ledger h) else hb_resize_ledger h in
  (mk_SessionHub b (ledger ++ [mk_ResizePoint sequence cols rows]) (hb_replay_gap h) (hb_history_incomplete h) (hb_subscribed h) (hb_ended h) (hb_published_bytes h), sequence).
Definition history_incomplete (h : SessionHub) : bool :=
  hb_history_incomplete h && match retained_start_sequence (hb_buffer h) with Some start => start <? bb_gap_floor (hb_buffer h) | None => true end.

Record AttachmentSnapshot := mk_AttachmentSnapshot {
  at_history_start_sequence : option Z;
  at_history_end_sequence : option Z;
  at_history : list byte;
  at_ranges : list HistoryRange;
  at_gap : option ReplayGap;
  at_history_incomplete : bool;
}.
Definition subscribe_with_sequence_ranges (after : option Z) (h : SessionHub) : SessionHub * AttachmentSnapshot :=
  let '(history, ranges, start, stop, gap) := snapshot_after_ranges after (hb_resize_ledger h) (hb_buffer h) in
  let gap := match gap, hb_replay_gap h, after with
    | Some gap, _, _ => Some gap
    | None, Some gap, Some n => if n <? sub64 (available_from_sequence gap) 1 then Some gap else None
    | None, _, _ => None
    end in
  (mk_SessionHub (hb_buffer h) (hb_resize_ledger h) (hb_replay_gap h) (hb_history_incomplete h) true (hb_ended h) (hb_published_bytes h),
   mk_AttachmentSnapshot start stop history ranges gap (history_incomplete h)).

(** ** The state of a session, for the successor of the daemon *)

Record SessionHubSnapshot := mk_SessionHubSnapshot {
  sn_capacity : Z;
  sn_chunks : list OutputChunk;
  sn_next_sequence : Z;
  sn_bracketed_paste_enabled : bool;
  sn_resize_ledger : list ResizePoint;
  sn_replay_gap : option ReplayGap;
  sn_gap_floor : Z;
  sn_transport_owner : bool;
  sn_retained_state : option TerminalStatePrelude;
  sn_history_incomplete : bool;
}.
Definition export_state (h : SessionHub) : SessionHubSnapshot :=
  let b := hb_buffer h in
  mk_SessionHubSnapshot (bb_capacity b) (bb_chunks b) (bb_next_sequence b) (bb_bracketed_paste_enabled b) (hb_resize_ledger h) (hb_replay_gap h) (bb_gap_floor b) false
    (Some (prelude_of (rh_evicted_state (bb_retained b)))) (history_incomplete h).
Inductive OutputHubSnapshotError : Type :=
| InvalidNextSequence
| InvalidChunkSequence
| ChunkSequenceExceedsNextSequence
| ChunkSequenceNotMonotonic
| ResizeSequenceExceedsNextSequence
| ResizeLedgerNotOrdered
| RetainedBytesExceedCapacity
| InvalidReplayGapRange
| ReplayGapExceedsNextSequence.
Definition check_gap (next_sequence : Z) (gap : option ReplayGap) : Result unit OutputHubSnapshotError :=
  match gap with
  | None => Ok tt
  | Some gap =>
      if available_from_sequence gap <=? requested_after_sequence gap then Err InvalidReplayGapRange else
      if next_sequence <? available_from_sequence gap then Err ReplayGapExceedsNextSequence else Ok tt
  end.
Fixpoint check_chunks (next_sequence previous : Z) (chunks : list OutputChunk) : Result unit OutputHubSnapshotError :=
  match chunks with
  | [] => Ok tt
  | c :: chunks =>
      if oc_sequence c =? 0 then Err InvalidChunkSequence else
      if next_sequence <=? oc_sequence c then Err ChunkSequenceExceedsNextSequence else
      if oc_sequence c <=? previous then Err ChunkSequenceNotMonotonic else
      match check_gap next_sequence (oc_replay_gap c) with Err e => Err e | Ok _ => check_chunks next_sequence (oc_sequence c) chunks end
  end.
Fixpoint check_ledger (next_sequence : Z) (previous : option Z) (ledger : list ResizePoint) : Result unit OutputHubSnapshotError :=
  match ledger with
  | [] => Ok tt
  | p :: ledger =>
      if next_sequence <=? rz_sequence p then Err ResizeSequenceExceedsNextSequence else
      if match previous with Some previous => rz_sequence p <? previous | None => false end then Err ResizeLedgerNotOrdered else
      check_ledger next_sequence (Some (rz_sequence p)) ledger
  end.
Definition bytes_of_chunks (chunks : list OutputChunk) : Z := zsum ((λ c, zlen (oc_bytes c)) <$> chunks).
Definition validate_with_capacity (fallback_capacity : Z) (s : SessionHubSnapshot) : Result unit OutputHubSnapshotError :=
  if sn_next_sequence s =? 0 then Err InvalidNextSequence else
  if sn_next_sequence s <? sn_gap_floor s then Err ReplayGapExceedsNextSequence else
  match check_chunks (sn_next_sequence s) 0 (sn_chunks s) with
  | Err e => Err e
  | Ok _ =>
      match check_ledger (sn_next_sequence s) None (sn_resize_ledger s) with
      | Err e => Err e
      | Ok _ =>
          let max_capacity := if 0 <? sn_capacity s then sn_capacity s else fallback_capacity in
          if (0 <? max_capacity) && (max_capacity <? Z.min u64_max (bytes_of_chunks (sn_chunks s))) then Err RetainedBytesExceedCapacity else
          check_gap (sn_next_sequence s) (sn_replay_gap s)
      end
  end.
Definition from_snapshot (capacity : Z) (chunks : list OutputChunk) (next_sequence : Z) (paste : bool) (state : option TerminalStatePrelude) : BoundedBuffer :=
  let retained := foldl (λ h c, retained_push (oc_sequence c) (oc_bytes c) h) (retained_new (from_text_capacity capacity)) chunks in
  let retained := match state with Some p => restore_state p retained | None => retained end in
  mk_BoundedBuffer capacity chunks (bytes_of_chunks chunks) next_sequence paste retained 0.
Definition import_session (fallback_capacity : Z) (s : SessionHubSnapshot) : Result SessionHub OutputHubSnapshotError :=
  match validate_with_capacity fallback_capacity s with
  | Err e => Err e
  | Ok _ =>
      let capacity := if 0 <? sn_capacity s then sn_capacity s else fallback_capacity in
      let b := from_snapshot capacity (sn_chunks s) (sn_next_sequence s) (sn_bracketed_paste_enabled s) (sn_retained_state s) in
      let b := mk_BoundedBuffer (bb_capacity b) (bb_chunks b) (bb_current_size b) (bb_next_sequence b) (bb_bracketed_paste_enabled b) (bb_retained b) (sn_gap_floor s) in
      Ok (mk_SessionHub b (sn_resize_ledger s) (sn_replay_gap s) (sn_history_incomplete s) false false 0)
  end.

(** ** Runs *)

Inductive HubStep : Type :=
| HPublish (bytes : list byte) (metrics : option Z)
| HGap
| HResize (cols rows : Z)
| HInitialSize (cols rows : Z)
| HSubscribe (after : option Z).
Definition hub_step (i : HubStep) (h : SessionHub) : SessionHub :=
  match i with
  | HPublish bytes metrics => (publish bytes metrics h).1
  | HGap => (publish_gap h).1
  | HResize cols rows => (record_resize cols rows h).1
  | HInitialSize cols rows => record_initial_size cols rows h
  | HSubscribe after => (subscribe_with_sequence_ranges after h).1
  end.
Definition hub_run (steps : list HubStep) (h : SessionHub) : SessionHub := foldl (λ h i, hub_step i h) h steps.
(** All the output of a run, numbered as it was sent; a gap is the line that marks it. *)
Definition output_of (i : HubStep) (h : SessionHub) : list (Z * list byte) :=
  match i with
  | HPublish bytes _ => if bool_decide (bytes = []) then [] else [(bb_next_sequence (hb_buffer h), bytes)]
  | HGap => [(bb_next_sequence (hb_buffer h), GAP_SEAM)]
  | _ => []
  end.
Fixpoint outputs (steps : list HubStep) (h : SessionHub) : list (Z * list byte) :=
  match steps with [] => [] | i :: steps => output_of i h ++ outputs steps (hub_step i h) end.
