(* ===== verification/OutputHubSpec.v ===== *)
(** * OutputHubSpec: a client that comes back misses nothing it is not told of

    The invariant of a session's output (OutputHub), and the theorems on replay: the ring replays
    exactly what came after a number, the pieces of one size cover the history, and a successor
    continues where its predecessor stopped; and one that shows output lost without a gap. *)

From Stdlib Require Import ZArith Lia Strings.Byte Sorting.Sorted.
From stdpp Require Import base option gmap list strings.
From S2P Require Import Prelude VtStream Retained OutputHub.

#[local] Open Scope Z_scope.

(** ** The ring *)

Definition pairs (chunks : list OutputChunk) : list (Z * list byte) := (λ c, (oc_sequence c, oc_bytes c)) <$> chunks.
Definition before_seq (a b : Z * list byte) : Prop := a.1 < b.1.
Lemma bytes_of_chunks_app a b : bytes_of_chunks (a ++ b) = bytes_of_chunks a + bytes_of_chunks b.
Proof. unfold bytes_of_chunks. by rewrite fmap_app, zsum_app. Qed.
Lemma bytes_of_chunks_nonneg a : 0 ≤ bytes_of_chunks a.
Proof. unfold bytes_of_chunks. apply zsum_nonneg, Forall_fmap, Forall_true. intros c. apply zlen_nonneg. Qed.
Lemma bytes_of_chunks_cons c a : bytes_of_chunks (c :: a) = zlen (oc_bytes c) + bytes_of_chunks a.
Proof. done. Qed.
Lemma ring_trim_spec capacity chunks size chunks' size' : 0 ≤ capacity → size = bytes_of_chunks chunks → trim capacity chunks size = (chunks', size') →
  ∃ dropped, chunks = dropped ++ chunks' ∧ size' = bytes_of_chunks chunks' ∧ size' ≤ capacity.
Proof.
  intros Hc. revert size. induction chunks as [|c chunks IH]; intros size Hs; cbn [trim]; [intros [= <- <-]; exists []; subst; done|].
  destruct (Z.ltb_spec capacity size) as [H|H]; [|intros [= <- <-]; by exists []]. intros E. apply IH in E as (dropped & -> & Hs' & Hl); [by exists (c :: dropped)|].
  subst size. rewrite bytes_of_chunks_cons. lia.
Qed.
Lemma sorted_app_last (log : list (Z * list byte)) x : StronglySorted before_seq log → Forall (λ e, e.1 < x.1) log → StronglySorted before_seq (log ++ [x]).
Proof.
  induction log as [|e log IH]; intros Hs Hf; [repeat constructor|]. apply StronglySorted_inv in Hs as [Hs He]. apply Forall_cons in Hf as [Hex Hf]. cbn. constructor; [by apply IH|].
  apply Forall_app. split; [done|]. rewrite Forall_singleton. exact Hex.
Qed.
Lemma sorted_app_cross (a b : list (Z * list byte)) x y : StronglySorted before_seq (a ++ b) → x ∈ a → y ∈ b → x.1 < y.1.
Proof.
  induction a as [|e a IH]; intros Hs Hx Hy; [by apply not_elem_of_nil in Hx|]. cbn in Hs. apply StronglySorted_inv in Hs as [Hs He]. apply elem_of_cons in Hx as [->|Hx]; [|by apply IH].
  rewrite List.Forall_forall in He. apply He, list_elem_of_In, elem_of_app. by right.
Qed.

Record hub_ok (capacity n : Z) (log : list (Z * list byte)) (h : SessionHub) : Prop := {
  ho_capacity : bb_capacity (hb_buffer h) = capacity ∧ 0 ≤ capacity;
  ho_next : 1 ≤ bb_next_sequence (hb_buffer h) ≤ n + 1;
  ho_ring : ∃ dropped, log = dropped ++ pairs (bb_chunks (hb_buffer h));
  ho_sorted : StronglySorted before_seq log;
  ho_numbered : Forall (λ e, 1 ≤ e.1 < bb_next_sequence (hb_buffer h)) log;
  ho_size : bb_current_size (hb_buffer h) = bytes_of_chunks (bb_chunks (hb_buffer h)) ∧ bb_current_size (hb_buffer h) ≤ capacity;
  ho_plain : Forall (λ c, oc_replay_gap c = None) (bb_chunks (hb_buffer h));
  ho_ledger : StronglySorted (λ a b, rz_sequence a ≤ rz_sequence b) (hb_resize_ledger h) ∧
    Forall (λ p, 0 ≤ rz_sequence p < bb_next_sequence (hb_buffer h)) (hb_resize_ledger h) ∧ (length (hb_resize_ledger h) ≤ RESIZE_LEDGER_CAPACITY)%nat;
  ho_floor : 0 ≤ bb_gap_floor (hb_buffer h) ≤ bb_next_sequence (hb_buffer h);
  ho_gap : ∀ g, hb_replay_gap h = Some g → requested_after_sequence g < available_from_sequence g ≤ bb_next_sequence (hb_buffer h);
}.
Lemma hub_ok_later capacity n n' log h : n ≤ n' → hub_ok capacity n log h → hub_ok capacity n' log h.
Proof. intros Hn []. split; try done. lia. Qed.
(** Appending the chunk with the next number. *)
Lemma ring_append_ok capacity n log h chunk b : hub_ok capacity n log h → n + 2 ≤ u64_max → oc_replay_gap chunk = None → oc_sequence chunk = bb_next_sequence (hb_buffer h) →
  b = append chunk (allocate_sequence (hb_buffer h)).2 →
  bb_capacity b = capacity ∧ bb_next_sequence b = bb_next_sequence (hb_buffer h) + 1 ∧ (∃ dropped, log ++ pairs [chunk] = dropped ++ pairs (bb_chunks b)) ∧
  StronglySorted before_seq (log ++ pairs [chunk]) ∧ Forall (λ e, 1 ≤ e.1 < bb_next_sequence b) (log ++ pairs [chunk]) ∧
  (bb_current_size b = bytes_of_chunks (bb_chunks b) ∧ bb_current_size b ≤ capacity) ∧ Forall (λ c, oc_replay_gap c = None) (bb_chunks b) ∧ bb_gap_floor b = bb_gap_floor (hb_buffer h).
Proof.
  intros [[Hc Hc0] Hn [dropped Hr] Hs Hnum [Hsz Hle] Hpl _ _ _] Hu Hg Hseq ->. unfold append, allocate_sequence. cbn [bb_capacity bb_chunks bb_current_size bb_next_sequence bb_retained bb_gap_floor bb_bracketed_paste_enabled snd].
  rewrite (add64_id (bb_next_sequence (hb_buffer h)) 1) by lia. destruct (trim _ _ _) as [chunks size] eqn:Et. cbn [bb_capacity bb_chunks bb_current_size bb_next_sequence bb_gap_floor].
  apply ring_trim_spec in Et as (d & Hd & Hs' & Hl); [|lia|rewrite bytes_of_chunks_app, Hsz, bytes_of_chunks_cons; change (bytes_of_chunks []) with 0; lia].
  split_and!; try done; try lia.
  - exists (dropped ++ pairs d). rewrite Hr, <- !app_assoc. f_equal. unfold pairs in *. rewrite <- !fmap_app. by rewrite Hd.
  - apply sorted_app_last; [done|]. eapply Forall_impl; [exact Hnum|]. cbn. rewrite Hseq. lia.
  - apply Forall_app. split; [eapply Forall_impl; [exact Hnum|]; cbn; lia|]. unfold pairs. cbn. rewrite Forall_singleton. cbn. lia.
  - assert (Forall (λ c, oc_replay_gap c = None) (bb_chunks (hb_buffer h) ++ [chunk])) as Hall by (apply Forall_app; rewrite Forall_singleton; done). rewrite Hd in Hall. by apply Forall_app in Hall as [_ Hall].
Qed.
Lemma chunk_pairs chunk : pairs [chunk] = [(oc_sequence chunk, oc_bytes chunk)].
Proof. done. Qed.
Lemma output_ok capacity n log h chunk paste floor gap incomplete subscribed ended published : hub_ok capacity n log h → n + 2 ≤ u64_max → oc_replay_gap chunk = None → oc_sequence chunk = bb_next_sequence (hb_buffer h) →
  0 ≤ floor ≤ bb_next_sequence (hb_buffer h) + 1 → (∀ g, gap = Some g → requested_after_sequence g < available_from_sequence g ≤ bb_next_sequence (hb_buffer h) + 1) →
  let b := append chunk (allocate_sequence (hb_buffer h)).2 in
  hub_ok capacity (n + 1) (log ++ [(oc_sequence chunk, oc_bytes chunk)])
    (mk_SessionHub (mk_BoundedBuffer (bb_capacity b) (bb_chunks b) (bb_current_size b) (bb_next_sequence b) paste (bb_retained b) floor) (hb_resize_ledger h) gap incomplete subscribed ended published).
Proof.
  intros Hok Hu Hg Hseq Hf Hgap b. destruct (ring_append_ok _ _ _ _ chunk b Hok Hu Hg Hseq eq_refl) as (H1 & H2 & H3 & H4 & H5 & H6 & H7 & H8). clearbody b. rewrite chunk_pairs in *.
  destruct Hok as [[H9 H10] H11 H12 H13 H14 H15 H16 (H17 & H18 & H19) H20 H21]. split; cbn; try done; try (rewrite H2; done); try lia. split_and!; [done| |done]. eapply Forall_impl; [exact H18|]. cbn. lia.
Qed.
Lemma hub_step_ok capacity n log h i : hub_ok capacity n log h → n + 2 ≤ u64_max → hub_ok capacity (n + 1) (log ++ output_of i h) (hub_step i h).
Proof.
  intros Hok Hu. pose proof (ho_next _ _ _ _ Hok) as Hnx. pose proof (ho_floor _ _ _ _ Hok) as Hfl. destruct i as [bytes metrics| |cols rows|cols rows|after]; cbn [hub_step output_of].
  - unfold publish, push_with_read_timestamp. case_bool_decide as Hb; [rewrite app_nil_r; eapply hub_ok_later; [|exact Hok]; lia|].
    assert (∀ q b0, allocate_sequence (hb_buffer h) = (q, b0) → bb_gap_floor (append (mk_OutputChunk q bytes metrics None) b0) = bb_gap_floor (hb_buffer h)) as Hfloor by (intros q b0 [= <- <-]; unfold append; by destruct (trim _ _ _)).
    destruct (allocate_sequence (hb_buffer h)) as [q b0] eqn:Ea. specialize (Hfloor _ _ eq_refl). cbn [fst]. rewrite Hfloor. assert (b0 = (allocate_sequence (hb_buffer h)).2) as -> by (by rewrite Ea). injection Ea as <-.
    apply (output_ok capacity n log h (mk_OutputChunk _ bytes metrics None)); try done. lia.
  - unfold publish_gap. destruct (allocate_sequence (hb_buffer h)) as [q b0] eqn:Ea. assert (b0 = (allocate_sequence (hb_buffer h)).2) as -> by (by rewrite Ea). injection Ea as <-. rewrite (add64_id (bb_next_sequence (hb_buffer h)) 1) by lia.
    apply (output_ok capacity n log h (mk_OutputChunk _ GAP_SEAM None None)); try done; [lia|]. intros g [= <-]. cbn. unfold sat_sub. lia.
  - rewrite app_nil_r. unfold record_resize, allocate_sequence. destruct Hok as [[? ?] Hn Hr ? Hnum [? ?] ? (Hl1 & Hl2 & Hl3) ? Hg]. rewrite (add64_id (bb_next_sequence (hb_buffer h)) 1) by lia.
    split; cbn; try done; try lia.
    + eapply Forall_impl; [exact Hnum|]. cbn. lia.
    + set (kept := if (_ <=? _)%nat then _ else _). assert (StronglySorted (λ a b, rz_sequence a ≤ rz_sequence b) kept ∧ Forall (λ p, 0 ≤ rz_sequence p < bb_next_sequence (hb_buffer h)) kept ∧ (length kept < RESIZE_LEDGER_CAPACITY)%nat) as (K1 & K2 & K3).
      { subst kept. destruct (Nat.leb_spec RESIZE_LEDGER_CAPACITY (length (hb_resize_ledger h))) as [E|E]; [|done]. destruct (hb_resize_ledger h) as [|p l]; [apply Nat.le_0_r in E; discriminate|]. change (drop 1 (p :: l)) with l. apply StronglySorted_inv in Hl1 as [? _]. apply Forall_cons in Hl2 as [_ ?]. rewrite length_cons in Hl3. split_and!; [done|done|exact Hl3]. }
      split_and!; [|apply Forall_app; split; [eapply Forall_impl; [exact K2|]; cbn; lia|rewrite Forall_singleton; cbn; lia]|rewrite length_app; cbn; lia].
      clear -K1 K2. induction kept as [|p l IH]; [repeat constructor|]. apply StronglySorted_inv in K1 as [K1 Kp]. apply Forall_cons in K2 as [K2p K2]. cbn. constructor; [by apply IH|]. apply Forall_app. split; [done|]. rewrite Forall_singleton. cbn. lia.
    + intros g Eg. specialize (Hg g Eg). lia.
  - rewrite app_nil_r. eapply (hub_ok_later _ n); [lia|]. unfold record_initial_size. destruct (hb_resize_ledger h) eqn:El; [|done]. destruct Hok as [? Hn ? ? ? ? ? ? ? ?]. split; cbn; try done. split_and!; [repeat constructor|rewrite Forall_singleton; cbn; lia|unfold RESIZE_LEDGER_CAPACITY; lia].
  - rewrite app_nil_r. eapply (hub_ok_later _ n); [lia|]. unfold subscribe_with_sequence_ranges. destruct (snapshot_after_ranges _ _ _) as [[[[? ?] ?] ?] ?]. cbn [fst]. destruct Hok. by split.
Qed.
Lemma hub_new_ok capacity budget : 0 ≤ capacity → hub_ok capacity 0 [] (hub_new capacity budget).
Proof.
  intros Hc. split; cbn [hub_new hb_buffer with_retention bb_capacity bb_next_sequence bb_chunks bb_current_size hb_resize_ledger bb_gap_floor hb_replay_gap]; try done; try lia.
  - by exists [].
  - constructor.
  - split_and!; [constructor|done|unfold RESIZE_LEDGER_CAPACITY; cbn [length]; lia].
Qed.
Lemma hub_run_ok steps capacity n log h : hub_ok capacity n log h → n + 1 + Z.of_nat (length steps) ≤ u64_max → hub_ok capacity (n + Z.of_nat (length steps)) (log ++ outputs steps h) (hub_run steps h).
Proof.
  revert n log h. induction steps as [|i steps IH]; intros n log h Hok Hn; cbn [outputs length] in *; [rewrite app_nil_r; eapply hub_ok_later; [|exact Hok]; lia|].
  replace (n + Z.of_nat (S (length steps))) with ((n + 1) + Z.of_nat (length steps)) by lia. rewrite app_assoc. apply (IH (n + 1) (log ++ output_of i h) (hub_step i h)); [apply hub_step_ok; [done|lia]|lia].
Qed.

(** ** Pieces of one size *)

(** Ranges that follow each other. *)
Fixpoint tiles (from : Z) (ranges : list HistoryRange) (to : Z) : Prop :=
  match ranges with [] => from = to | r :: rest => rg_start r = from ∧ from ≤ rg_end r ∧ tiles (rg_end r) rest to end.
Lemma tiles_snoc from ranges mid size to : tiles from ranges mid → mid ≤ to → tiles from (ranges ++ [mk_HistoryRange size mid to]) to.
Proof. revert from. induction ranges as [|r ranges IH]; intros from; cbn; [intros ->; done|]. intros (? & ? & ?) ?. split_and!; [done|done|by apply IH]. Qed.
Lemma tiles_le from ranges to : tiles from ranges to → from ≤ to.
Proof. revert from. induction ranges as [|r ranges IH]; intros from; cbn; [lia|]. intros (? & ? & H%IH). lia. Qed.
Lemma tiles_cut history from ranges to : tiles from ranges to → 0 ≤ from → to ≤ zlen history →
  concat (sg_bytes <$> cut_ranges history ranges) = take (Z.to_nat (to - from)) (drop (Z.to_nat from) history).
Proof.
  revert from. induction ranges as [|r ranges IH]; intros from; cbn [tiles cut_ranges fmap list_fmap concat]; [intros -> ? ?; by rewrite Z.sub_diag|]. intros (<- & Hle & Ht) H0 Hto. pose proof (tiles_le _ _ _ Ht).
  cbn [sg_bytes]. change (concat (sg_bytes <$> ((λ r0, mk_HistorySegment (rg_size r0) (take (Z.to_nat (rg_end r0 - rg_start r0)) (drop (Z.to_nat (rg_start r0)) history))) <$> ranges))) with (concat (sg_bytes <$> cut_ranges history ranges)).
  rewrite (IH _ Ht) by lia. replace (Z.to_nat (to - rg_start r)) with (Z.to_nat (rg_end r - rg_start r) + Z.to_nat (to - rg_end r))%nat by lia. rewrite <- take_take_drop, drop_drop. do 3 f_equal. lia.
Qed.
Lemma range_loop_spec items ledger size start history ranges H R L S St : range_loop items ledger size start history ranges = (H, R, L, S, St) → tiles 0 ranges start → start ≤ zlen history →
  H = history ++ concat items.*2 ∧ tiles 0 R St ∧ St ≤ zlen H.
Proof.
  revert ledger size start history ranges. induction items as [|[q bytes] items IH]; intros ledger size start history ranges; cbn [range_loop]; [intros [= <- <- <- <- <-] ? ?; by rewrite app_nil_r|].
  destruct (advance ledger q size) as [ledger' size']. pose proof (zlen_nonneg bytes). cbn [fmap list_fmap concat snd].
  case_bool_decide; intros E Ht Hs; (apply IH in E as (-> & H2 & H3); [rewrite app_assoc; done| |rewrite zlen_app; lia]); [done|by apply tiles_snoc].
Qed.
Lemma build_ranges_spec prefix items ledger first history ranges : build_ranges prefix items ledger first = (history, ranges) → history = prefix ++ concat items.*2 ∧ tiles 0 ranges (zlen history).
Proof.
  unfold build_ranges. destruct (match first with Some start => advance ledger start (None, None) | None => (ledger, (None, None)) end) as [ledger' size'].
  assert (∀ H R S St L, H = prefix ++ concat items.*2 ∧ tiles 0 R St ∧ St ≤ zlen H → (H, match last L with Some p => if bool_decide (point_size p = S) then R ++ [mk_HistoryRange S St (zlen H)] else (R ++ [mk_HistoryRange S St (zlen H)]) ++ [mk_HistoryRange (point_size p) (zlen H) (zlen H)] | None => R ++ [mk_HistoryRange S St (zlen H)] end) = (history, ranges) →
    history = prefix ++ concat items.*2 ∧ tiles 0 ranges (zlen history)) as Hend.
  { intros H R S St L (H1 & H2 & H3) [= <- <-]. split; [done|]. assert (tiles 0 (R ++ [mk_HistoryRange S St (zlen H)]) (zlen H)) by (by apply tiles_snoc). destruct (last L); [|done]. case_bool_decide; [done|]. apply tiles_snoc; [done|lia]. }
  destruct items as [|[q bytes] items].
  - cbv beta iota. apply Hend. cbn. rewrite app_nil_r. split_and!; [done|done|apply zlen_nonneg].
  - destruct (range_loop items ledger' size' 0 (prefix ++ bytes) []) as [[[[H R] L] S] St] eqn:E. apply range_loop_spec in E as (-> & H2 & H3); [|done|apply zlen_nonneg]. apply Hend. split_and!; [|done|done]. cbn. by rewrite app_assoc.
Qed.

(** ** Replay from the ring *)

Definition output_after (n : Z) (log : list (Z * list byte)) : list byte := concat (List.filter (λ e, n <? e.1) log).*2.
(** The ring still has what came after a number. *)
Definition covered (n : Z) (b : BoundedBuffer) : Prop := match start_sequence b with Some first => first ≤ n + 1 | None => bb_next_sequence b = 1 end.
Lemma filter_pairs n chunks : (pairs (List.filter (λ c, n <? oc_sequence c) chunks)) = List.filter (λ e, n <? e.1) (pairs chunks).
Proof.
  assert (∀ c l, pairs (c :: l) = (oc_sequence c, oc_bytes c) :: pairs l) as Hp by done. induction chunks as [|c chunks IH]; [done|]. rewrite Hp. cbn [List.filter fst]. destruct (n <? oc_sequence c); [|done]. by rewrite Hp, IH.
Qed.
Lemma ring_covers capacity m log h n : hub_ok capacity m log h → covered n (hb_buffer h) → output_after n log = concat (List.filter (λ e, n <? e.1) (pairs (bb_chunks (hb_buffer h)))).*2.
Proof.
  intros Hok Hc. unfold output_after, covered, start_sequence in *. destruct Hok as [_ _ [dropped Hr] Hs Hnum _ _ _ _ _]. rewrite Hr, List.filter_app. destruct (bb_chunks (hb_buffer h)) as [|c chunks] eqn:Ech; cbn in Hc.
  - rewrite Hc in Hnum. destruct dropped as [|e dropped]; [done|]. rewrite Hr in Hnum. apply Forall_cons in Hnum as [? _]. lia.
  - assert (List.filter (λ e, n <? e.1) dropped = []) as ->; [|done]. assert (∀ e, e ∈ dropped → e.1 < oc_sequence c) as Hd.
    { intros e He. apply (sorted_app_cross dropped (pairs (c :: chunks)) e (oc_sequence c, oc_bytes c)); [by rewrite <- Hr|done|by left]. }
    clear -Hd Hc. induction dropped as [|e dropped IH]; [done|]. cbn. assert ((n <? e.1) = false) as -> by (apply Z.ltb_ge; specialize (Hd e (list_elem_of_here _ _)); lia). apply IH. intros e' He'. apply Hd. by right.
Qed.
Lemma delta_history capacity m log h n ledger from_retained history ranges start stop : hub_ok capacity m log h → covered n (hb_buffer h) →
  snapshot_after_ranges_impl (Some n) ledger from_retained (hb_buffer h) = (history, ranges, start, stop, None) → history = output_after n log ∧ tiles 0 ranges (zlen history).
Proof.
  intros Hok Hc. rewrite (ring_covers _ _ _ _ _ Hok Hc). unfold snapshot_after_ranges_impl. destruct (gap_for _ n (hb_buffer h)) as [g|]; [repeat case_match; congruence|]. rewrite andb_false_r. cbn [orb].
  change ((λ c, (oc_sequence c, oc_bytes c)) <$> List.filter (λ c, n <? oc_sequence c) (bb_chunks (hb_buffer h))) with (pairs (List.filter (λ c, n <? oc_sequence c) (bb_chunks (hb_buffer h)))).
  rewrite filter_pairs. set (items := List.filter _ _). rewrite (bool_decide_true ([] = [])) by done. rewrite andb_true_r. case_bool_decide as Hi.
  - intros [= <- <- <- <-]. rewrite Hi. split; [done|]. destruct (last ledger); [|done]. by destruct (n <? _).
  - destruct (build_ranges [] items ledger _) as [hist rs] eqn:Eb. intros [= <- <- <- <-]. by apply build_ranges_spec in Eb as [-> Ht].
Qed.
Lemma ring_gap capacity m log h n : hub_ok capacity m log h → gap_for (start_sequence (hb_buffer h)) n (hb_buffer h) = None → covered n (hb_buffer h).
Proof.
  intros Hok. unfold gap_for, covered. destruct (_ && _); [done|]. destruct (start_sequence (hb_buffer h)) as [first|].
  - destruct (Z.ltb_spec n (sat_sub first 1)) as [|H]; [done|]. unfold sat_sub in H. lia.
  - pose proof (ho_next _ _ _ _ Hok). destruct (Z.ltb_spec 1 (bb_next_sequence (hb_buffer h))) as [|H']; [done|]. lia.
Qed.

(** C11: Whatever was published, lost or resized before, a client that asks for the output after a
    number and is told of no gap gets exactly that output, every byte once and in order: always from
    the ring ([snapshot_after]), and from the attachment that also knows the retained history when
    the ring still reaches back to that number.  The pieces it comes in, one per size of the
    terminal, follow each other without hole or overlap. *)
Theorem replay_exact capacity budget steps n (Hcap : 0 ≤ capacity) (Hlen : Z.of_nat (length steps) + 1 ≤ u64_max) :
  let h := hub_run steps (hub_new capacity budget) in
  let log := outputs steps (hub_new capacity budget) in
  (∀ history start stop, snapshot_after (Some n) (hb_buffer h) = (history, start, stop, None) → history = output_after n log) ∧
  let a := (subscribe_with_sequence_ranges (Some n) h).2 in
  at_gap a = None → covered n (hb_buffer h) →
  at_history a = output_after n log ∧ tiles 0 (at_ranges a) (zlen (at_history a)) ∧ concat (sg_bytes <$> cut_ranges (at_history a) (at_ranges a)) = at_history a.
Proof.
  cbv zeta. pose proof (hub_run_ok steps capacity 0 [] _ (hub_new_ok capacity budget Hcap) ltac:(lia)) as Hok. cbn [app] in Hok. set (h := hub_run steps _) in *. set (log := outputs steps _) in *. split.
  - intros history start stop. unfold snapshot_after. destruct (snapshot_after_ranges_impl (Some n) [] false (hb_buffer h)) as [[[[hist rs] st] en] g] eqn:E. intros [= -> -> -> ->].
    assert (covered n (hb_buffer h)) as Hc; [|by destruct (delta_history _ _ _ _ _ _ _ _ _ _ _ Hok Hc E)]. eapply ring_gap; [exact Hok|]. revert E. unfold snapshot_after_ranges_impl. destruct (gap_for _ n (hb_buffer h)); [|done]. repeat case_match; congruence.
  - unfold subscribe_with_sequence_ranges, snapshot_after_ranges. destruct (snapshot_after_ranges_impl (Some n) (hb_resize_ledger h) true (hb_buffer h)) as [[[[hist rs] st] en] g] eqn:E. cbn [snd at_gap at_history at_ranges]. intros Hg Hc. destruct g; [done|].
    destruct (delta_history _ _ _ _ _ _ _ _ _ _ _ Hok Hc E) as [H1 H2]. split_and!; [done|done|]. rewrite (tiles_cut hist 0 rs (zlen hist)) by (done || lia). rewrite Z.sub_0_r. change (Z.to_nat 0) with 0%nat. rewrite drop_0. unfold zlen. rewrite Nat2Z.id. apply firstn_all.
Qed.

(** ** Output lost without a gap *)

(** A small image, and text that pushes everything but the last four lines out of the ring. *)
Definition image : list byte := [x1b] ++ bytes_of "_Ga=T,f=24;AA" ++ [x1b; x5c].
Definition image_then_text : list HubStep := HPublish image None :: ((λ _, HPublish (bytes_of "line.") None) <$> seq 0 10).

(** A client that saw everything up to number 3 and asks for the rest gets the output from number 8
    on and is told of no gap: numbers 4 to 7 are lost.  The gap is decided by where the retained
    history starts, which an old image holds back, and the bytes come from the ring. *)
Theorem output_lost_silently :
  let h := hub_run image_then_text (hub_new 20 (from_text_capacity 20)) in
  let a := (subscribe_with_sequence_ranges (Some 3) h).2 in
  at_gap a = None ∧ at_history_start_sequence a = Some 8 ∧ at_history a = concat (replicate 4 (bytes_of "line.")) ∧
  output_after 3 (outputs image_then_text (hub_new 20 (from_text_capacity 20))) = concat (replicate 8 (bytes_of "line.")).
Proof. vm_compute. split_and!; reflexivity. Qed.

(** ** The successor *)

(** Two sessions with the same ring, numbers and sizes. *)
Record same_ring (h h' : SessionHub) : Prop := {
  sm_capacity : bb_capacity (hb_buffer h') = bb_capacity (hb_buffer h);
  sm_chunks : bb_chunks (hb_buffer h') = bb_chunks (hb_buffer h);
  sm_size : bb_current_size (hb_buffer h') = bb_current_size (hb_buffer h);
  sm_next : bb_next_sequence (hb_buffer h') = bb_next_sequence (hb_buffer h);
  sm_paste : bb_bracketed_paste_enabled (hb_buffer h') = bb_bracketed_paste_enabled (hb_buffer h);
  sm_floor : bb_gap_floor (hb_buffer h') = bb_gap_floor (hb_buffer h);
  sm_ledger : hb_resize_ledger h' = hb_resize_ledger h;
  sm_gap : hb_replay_gap h' = hb_replay_gap h;
}.
#[global] Instance same_ring_equivalence : Equivalence same_ring.
Proof. split; [by split|by intros ?? []|]. intros ??? [] []. split; congruence. Qed.
#[global] Instance hub_step_proper i : Proper (same_ring ==> same_ring) (hub_step i).
Proof.
  intros h h' [E1 E2 E3 E4 E5 E6 E7 E8]. destruct i as [bytes metrics| |cols rows|cols rows|after]; cbn [hub_step].
  - unfold publish, push_with_read_timestamp. case_bool_decide; [by split|]. unfold allocate_sequence, append. cbn [bb_capacity bb_chunks bb_current_size bb_next_sequence bb_retained bb_gap_floor bb_bracketed_paste_enabled].
    rewrite E1, E2, E3, E4. destruct (trim _ _ _) as [chunks size]. cbn [fst bb_capacity bb_chunks bb_current_size bb_next_sequence bb_retained bb_gap_floor bb_bracketed_paste_enabled]. rewrite E5. split; done.
  - unfold publish_gap, allocate_sequence, append. cbn [bb_capacity bb_chunks bb_current_size bb_next_sequence bb_retained bb_gap_floor bb_bracketed_paste_enabled]. rewrite E1, E2, E3, E4. destruct (trim _ _ _) as [chunks size]. by split.
  - unfold record_resize, allocate_sequence. cbn. rewrite E7. split; cbn; congruence.
  - unfold record_initial_size. rewrite E7. destruct (hb_resize_ledger h) eqn:El; [by split|]. split; congruence.
  - unfold subscribe_with_sequence_ranges. destruct (snapshot_after_ranges after (hb_resize_ledger h) (hb_buffer h)) as [[[[? ?] ?] ?] ?], (snapshot_after_ranges after (hb_resize_ledger h') (hb_buffer h')) as [[[[? ?] ?] ?] ?]. by split.
Qed.
Lemma same_ring_outputs steps h h' : same_ring h h' → outputs steps h' = outputs steps h ∧ same_ring (hub_run steps h) (hub_run steps h').
Proof.
  revert h h'. induction steps as [|i steps IH]; intros h h' H; cbn [outputs]; [by split|]. destruct (IH _ _ (hub_step_proper i _ _ H)) as [-> Hs]. split; [|exact Hs]. f_equal. unfold output_of. destruct i; try done; by rewrite (sm_next _ _ H).
Qed.
Lemma same_ring_snapshot h h' after : same_ring h h' → snapshot_after after (hb_buffer h') = snapshot_after after (hb_buffer h).
Proof.
  intros [E1 E2 E3 E4 E5 E6 E7 E8]. unfold snapshot_after, snapshot_after_ranges_impl, gap_for, start_sequence, end_sequence, paste_prefix, contains_active_bracketed_paste. rewrite E2, E4, E5, E6. done.
Qed.
Lemma check_chunks_ok next previous chunks : 0 ≤ previous → Forall (λ c, 1 ≤ oc_sequence c < next ∧ oc_replay_gap c = None) chunks → StronglySorted before_seq (pairs chunks) → Forall (λ c, previous < oc_sequence c) chunks →
  check_chunks next previous chunks = Ok tt.
Proof.
  revert previous. induction chunks as [|c chunks IH]; intros previous Hp H1 H2 H3; [done|]. apply Forall_cons in H1 as [[Hc Hg] H1]. apply Forall_cons in H3 as [Hc' H3]. cbn [check_chunks].
  assert ((oc_sequence c =? 0) = false) as -> by (apply Z.eqb_neq; lia). assert ((next <=? oc_sequence c) = false) as -> by (apply Z.leb_gt; lia). assert ((oc_sequence c <=? previous) = false) as -> by (apply Z.leb_gt; lia).
  rewrite Hg. cbn [check_gap]. change (pairs (c :: chunks)) with ((oc_sequence c, oc_bytes c) :: pairs chunks) in H2. apply StronglySorted_inv in H2 as [H2 Hf]. apply IH; [lia|done|done|]. unfold pairs in Hf. rewrite Forall_fmap in Hf. done.
Qed.
Lemma check_ledger_ok next previous ledger : Forall (λ p, 0 ≤ rz_sequence p < next) ledger → StronglySorted (λ a b, rz_sequence a ≤ rz_sequence b) ledger → match previous with Some q => Forall (λ p, q ≤ rz_sequence p) ledger | None => True end →
  check_ledger next previous ledger = Ok tt.
Proof.
  revert previous. induction ledger as [|p ledger IH]; intros previous H1 H2 H3; [done|]. apply Forall_cons in H1 as [Hp H1]. apply StronglySorted_inv in H2 as [H2 Hf]. cbn [check_ledger]. assert ((next <=? rz_sequence p) = false) as -> by (apply Z.leb_gt; lia).
  assert (match previous with Some q => rz_sequence p <? q | None => false end = false) as -> by (destruct previous; [apply Forall_cons in H3 as [? _]; apply Z.ltb_ge; lia|done]). by apply IH.
Qed.
Lemma export_valid capacity n log h fallback : hub_ok capacity n log h → 0 < capacity → validate_with_capacity fallback (export_state h) = Ok tt.
Proof.
  intros [[Hc Hc0] Hn [dropped Hr] Hs Hnum [Hsz Hle] Hpl (L1 & L2 & L3) Hf Hg] Hpos. unfold validate_with_capacity, export_state. cbn [sn_next_sequence sn_gap_floor sn_chunks sn_resize_ledger sn_capacity sn_replay_gap].
  assert ((bb_next_sequence (hb_buffer h) =? 0) = false) as -> by (apply Z.eqb_neq; lia). assert ((bb_next_sequence (hb_buffer h) <? bb_gap_floor (hb_buffer h)) = false) as -> by (apply Z.ltb_ge; lia).
  assert (Forall (λ c, 1 ≤ oc_sequence c < bb_next_sequence (hb_buffer h)) (bb_chunks (hb_buffer h))) as Hch by (rewrite Hr in Hnum; apply Forall_app in Hnum as [_ H]; unfold pairs in H; by rewrite Forall_fmap in H).
  rewrite check_chunks_ok; [|lia| | |eapply Forall_impl; [exact Hch|]; cbn; lia].
  - rewrite check_ledger_ok by done. rewrite Hc. assert ((0 <? capacity) = true) as -> by (apply Z.ltb_lt; lia). assert ((capacity <? Z.min u64_max (bytes_of_chunks (bb_chunks (hb_buffer h)))) = false) as -> by (apply Z.ltb_ge; lia). rewrite andb_false_r.
    unfold check_gap. destruct (hb_replay_gap h) as [g|]; [|done]. specialize (Hg g eq_refl). assert ((available_from_sequence g <=? requested_after_sequence g) = false) as -> by (apply Z.leb_gt; lia). by assert ((bb_next_sequence (hb_buffer h) <? available_from_sequence g) = false) as -> by (apply Z.ltb_ge; lia).
  - rewrite Forall_and. done.
  - rewrite Hr in Hs. clear -Hs. induction dropped as [|e dropped IH]; [done|]. cbn in Hs. by apply StronglySorted_inv in Hs as [Hs%IH _].
Qed.


(** ** Two ways to cut *)

Lemma ledger_advance_spec ledger q size rest next : advance ledger q size = (rest, next) → ∃ points, ledger = points ++ rest ∧ next = match last points with Some p => point_size p | None => size end.
Proof.
  revert size. induction ledger as [|p ledger IH]; intros size; cbn [advance]; [intros [= <- <-]; by exists []|]. destruct (_ <=? _); [|intros [= <- <-]; by exists []].
  intros E. apply IH in E as (points & -> & ->). exists (p :: points). split; [done|]. rewrite last_cons. by destruct (last points).
Qed.
Lemma cut_extend history more ranges : Forall (λ r, 0 ≤ rg_start r ∧ rg_start r ≤ rg_end r ≤ zlen history) ranges → cut_ranges (history ++ more) ranges = cut_ranges history ranges.
Proof.
  induction ranges as [|r ranges IH]; intros Hf; [done|]. apply Forall_cons in Hf as [Hr Hf]. unfold cut_ranges in *. cbn. rewrite IH by done. do 2 f_equal. unfold zlen in Hr. rewrite drop_app_le by lia. rewrite take_app_le by (rewrite length_drop; lia). done.
Qed.
Lemma cut_snoc history ranges size start : 0 ≤ start ≤ zlen history → cut_ranges history (ranges ++ [mk_HistoryRange size start (zlen history)]) = cut_ranges history ranges ++ [mk_HistorySegment size (drop (Z.to_nat start) history)].
Proof.
  intros Hs. unfold cut_ranges. rewrite fmap_app. cbn. do 3 f_equal. apply take_ge. rewrite length_drop. unfold zlen in *. lia.
Qed.
Lemma ranges_forall from ranges to n : tiles from ranges to → 0 ≤ from → to ≤ n → Forall (λ r, 0 ≤ rg_start r ∧ rg_start r ≤ rg_end r ≤ n) ranges.
Proof.
  revert from. induction ranges as [|r ranges IH]; intros from Ht H0 Hn; [done|]. destruct Ht as (<- & Hle & Ht). pose proof (tiles_le _ _ _ Ht). constructor; [lia|]. eapply IH; [exact Ht|lia|done].
Qed.
Lemma loops_agree chunks ledger size start history ranges H R L S St : tiles 0 ranges start → 0 ≤ start ≤ zlen history → range_loop (pairs chunks) ledger size start history ranges = (H, R, L, S, St) →
  segment_loop chunks ledger size (drop (Z.to_nat start) history) (cut_ranges history ranges) = (cut_ranges H (R ++ [mk_HistoryRange S St (zlen H)]), L, S).
Proof.
  revert ledger size start history ranges. induction chunks as [|c chunks IH]; intros ledger size start history ranges Ht Hs; [cbn; intros [= <- <- <- <- <-]; by rewrite cut_snoc|].
  change (pairs (c :: chunks)) with ((oc_sequence c, oc_bytes c) :: pairs chunks). cbn [range_loop segment_loop]. destruct (advance ledger (oc_sequence c) size) as [rest next] eqn:Ea. apply ledger_advance_spec in Ea as (points & -> & ->). cbn [fst].
  replace (length (points ++ rest) - length rest)%nat with (length points) by (rewrite length_app; lia). rewrite take_app_length, drop_app_length. pose proof (zlen_nonneg (oc_bytes c)). pose proof (tiles_le _ _ _ Ht).
  assert (Forall (λ r, 0 ≤ rg_start r ∧ rg_start r ≤ rg_end r ≤ zlen history) ranges) as Hf by (eapply ranges_forall; [exact Ht|lia|lia]).
  assert (drop (Z.to_nat start) (history ++ oc_bytes c) = drop (Z.to_nat start) history ++ oc_bytes c) as Hdrop by (unfold zlen in Hs; by rewrite drop_app_le by lia).
  assert (range_loop (pairs chunks) rest size start (history ++ oc_bytes c) ranges = (H, R, L, S, St) →
    segment_loop chunks rest size (drop (Z.to_nat start) history ++ oc_bytes c) (cut_ranges history ranges) = (cut_ranges H (R ++ [mk_HistoryRange S St (zlen H)]), L, S)) as Hstay.
  { intros E. rewrite <- Hdrop, <- (cut_extend history (oc_bytes c) ranges Hf). apply IH; [done|rewrite zlen_app; lia|done]. }
  destruct (last points) as [p|]; cbn [fmap option_fmap option_map]; [|by rewrite bool_decide_true]. case_bool_decide as Hn; [exact Hstay|]. intros E.
  specialize (IH rest (point_size p) (zlen history) (history ++ oc_bytes c) (ranges ++ [mk_HistoryRange size start (zlen history)])).
  assert (drop (Z.to_nat (zlen history)) (history ++ oc_bytes c) = oc_bytes c) as Hd by (unfold zlen; rewrite Nat2Z.id; apply drop_app_length). rewrite Hd in IH. rewrite cut_extend in IH by (apply Forall_app; rewrite Forall_singleton; cbn; split; [done|lia]). rewrite cut_snoc in IH by lia.
  apply IH; [apply tiles_snoc; [done|lia]|rewrite zlen_app; lia|done].
Qed.

(** The segments a client is sent, cut out of one history by ranges, are those that
    [segment_history] builds chunk by chunk from the output after the number. *)
Theorem segments_agree n ledger b history segments start stop : snapshot_after_segmented (Some n) ledger b = (history, segments, start, stop, None) →
  segments = segment_history (List.filter (λ c, n <? oc_sequence c) (bb_chunks b)) ledger (Some n).
Proof.
  unfold snapshot_after_segmented, snapshot_after_ranges_impl. destruct (gap_for _ n b) as [g|]; [repeat case_match; congruence|]. rewrite andb_false_r. cbn [orb].
  change ((λ c, (oc_sequence c, oc_bytes c)) <$> List.filter (λ c, n <? oc_sequence c) (bb_chunks b)) with (pairs (List.filter (λ c, n <? oc_sequence c) (bb_chunks b))).
  destruct (List.filter (λ c, n <? oc_sequence c) (bb_chunks b)) as [|c chunks]; cbn [pairs fmap list_fmap]; rewrite (bool_decide_true ([] = [])) by done; rewrite andb_true_r.
  - intros [= <- <- <- <-]. cbn [segment_history]. destruct (last ledger); [|done]. by destruct (n <? _).
  - rewrite bool_decide_false by done. unfold build_ranges, segment_history. destruct (advance ledger (oc_sequence c) (None, None)) as [rest size].
    change ((λ c0, (oc_sequence c0, oc_bytes c0)) <$> chunks) with (pairs chunks). destruct (range_loop (pairs chunks) rest size 0 ([] ++ oc_bytes c) []) as [[[[H R] L] S] St] eqn:E.
    pose proof (loops_agree chunks rest size 0 (oc_bytes c) [] H R L S St eq_refl ltac:(pose proof (zlen_nonneg (oc_bytes c)); lia) E) as Hl. change (Z.to_nat 0) with 0%nat in Hl. rewrite drop_0 in Hl. change (cut_ranges (oc_bytes c) []) with (@nil HistorySegment) in Hl. rewrite Hl.
    intros [= <- <- <- <-]. destruct (last L) as [p|]; [|done]. case_bool_decide; [done|]. rewrite cut_snoc by (split; [apply zlen_nonneg|lia]). do 2 f_equal. unfold zlen. rewrite Nat2Z.id. by rewrite drop_all.
Qed.

(** ** Witnesses *)

Definition shown_steps : list HubStep :=
  [HInitialSize 80 24; HPublish (bytes_of "one.") None; HResize 100 30; HPublish (bytes_of "two.") None; HGap; HPublish (bytes_of "three.") None; HResize 90 20; HPublish (bytes_of "four.") None].
Lemma replay_exact_witness :
  let h := hub_run shown_steps (hub_new 100 (from_text_capacity 100)) in
  let a := (subscribe_with_sequence_ranges (Some 5) h).2 in
  output_after 5 (outputs shown_steps (hub_new 100 (from_text_capacity 100))) = bytes_of "four." ∧ at_history a = output_after 5 (outputs shown_steps (hub_new 100 (from_text_capacity 100))) ∧ tiles 0 (at_ranges a) (zlen (at_history a)).
Proof.
  cbv zeta. split; [vm_compute; reflexivity|]. destruct (replay_exact 100 (from_text_capacity 100) shown_steps 5 ltac:(vm_compute; discriminate) ltac:(vm_compute; discriminate)) as [_ H].
  destruct H as (H1 & H2 & _); [vm_compute; reflexivity|vm_compute; discriminate|]. split; [exact H1|exact H2].
Defined.
Definition longer_steps : list HubStep := shown_steps ++ [HResize 95 25; HPublish (bytes_of "five.") None].
Lemma segments_agree_witness : ∃ history segments start stop, let b := hb_buffer (hub_run longer_steps (hub_new 200 (from_text_capacity 200))) in let ledger := hb_resize_ledger (hub_run longer_steps (hub_new 200 (from_text_capacity 200))) in
  snapshot_after_segmented (Some 5) ledger b = (history, segments, start, stop, None) ∧ length segments = 2%nat ∧ segments = segment_history (List.filter (λ c, 5 <? oc_sequence c) (bb_chunks b)) ledger (Some 5).
Proof.
  cbv zeta. set (b := hb_buffer _). set (ledger := hb_resize_ledger _). assert ((snapshot_after_segmented (Some 5) ledger b).2 = None) as Hg by (vm_compute; reflexivity). assert (length (snapshot_after_segmented (Some 5) ledger b).1.1.1.2 = 2%nat) as Hl by (vm_compute; reflexivity).
  destruct (snapshot_after_segmented (Some 5) ledger b) as [[[[history segments] start] stop] g] eqn:E. cbn [fst snd] in Hg, Hl. subst g. exists history, segments, start, stop. split; [reflexivity|]. split; [exact Hl|]. exact (segments_agree 5 ledger b history segments start stop E).
Defined.
