(* ===== verification/RetainedSpec.v ===== *)
(** * RetainedSpec: what is kept of a terminal's output stays within its budgets

    The invariant of the splitter (VtStream) and of the retained history (Retained), and with them
    the bound on everything a session's output holds (OutputHub). *)

From Stdlib Require Import ZArith Lia Strings.Byte Sorting.Sorted.
From stdpp Require Import base option list strings.
From S2P Require Import Prelude VtStream Retained OutputHub OutputHubSpec.

#[local] Open Scope Z_scope.

(** ** Parts of a unit *)

Definition part_start (p : Part) : Z := p.1.1.
Fixpoint parts_from (from : Z) (parts : list Part) (len : Z) : Prop :=
  match parts with [] => from ≤ len | p :: parts => from ≤ part_start p ∧ parts_from (part_start p) parts len end.
(** Parts begin with the unit and follow each other. *)
Definition parts_wf (parts : list Part) (len : Z) : Prop := match parts with p :: parts => part_start p = 0 ∧ parts_from 0 parts len | [] => False end.
Lemma parts_from_grow from parts len len' : parts_from from parts len → len ≤ len' → parts_from from parts len'.
Proof. revert from. induction parts as [|p parts IH]; intros from; cbn; [lia|]. intros [? ?] ?. split; [done|by apply IH]. Qed.
Lemma parts_from_snoc from parts len order sequence : parts_from from parts len → parts_from from (parts ++ [(len, order, sequence)]) len.
Proof. revert from. induction parts as [|p parts IH]; intros from; cbn; [unfold part_start; cbn; lia|]. intros [? ?]. split; [done|by apply IH]. Qed.
Lemma parts_from_le from parts len : parts_from from parts len → from ≤ len.
Proof. revert from. induction parts as [|p parts IH]; intros from; cbn; [done|]. intros [? ?%IH]. lia. Qed.
Lemma cut_parts_size bytes parts f from order sequence : 0 ≤ from → parts_from from parts (zlen bytes) →
  (∀ order sequence b, hr_bytes (f order sequence b) = b) → zsum ((λ r, zlen (hr_bytes r)) <$> cut_parts bytes ((from, order, sequence) :: parts) f) = zlen bytes - from.
Proof.
  intros H0 Hp Hf. revert from order sequence H0 Hp. induction parts as [|[[next o] q] parts IH]; intros from order sequence H0 Hp.
  - cbn. rewrite Hf. unfold zlen in *. cbn in Hp. rewrite length_take, length_drop. lia.
  - destruct Hp as [Hle Hp]. unfold part_start in *. cbn [fst] in *. pose proof (parts_from_le _ _ _ Hp). cbn [cut_parts fmap list_fmap zsum foldr]. rewrite Hf. specialize (IH next o q ltac:(lia) Hp). unfold zsum in IH. cbn [cut_parts fmap list_fmap foldr] in IH |- *.
    unfold zlen in *. rewrite length_take, length_drop. lia.
Qed.

(** ** The splitter *)

Definition in_string (s : VtUnitSplitter) : bool := match sp_scan s with InString | StringEscape => true | _ => false end.
Record splitter_ok (limit : Z) (s : VtUnitSplitter) : Prop := {
  ok_limit : sp_max_unit_bytes s = limit ∧ 2 ≤ limit;
  ok_string : zlen (sp_string s) ≤ limit;
  ok_mark : in_string s = true → is_Some (sp_string_mark s);
  ok_group : zlen (sp_group s) ≤ limit;
  ok_parts : sp_transmission s = Open → parts_wf (sp_group_parts s) (zlen (sp_group s));
}.
Definition unit_ok (u : VtUnit) : Prop := un_parts u = [] ∨ parts_wf (un_parts u) (zlen (un_bytes u)).
(** A change of text, marks of text, orders and flags. *)
Lemma splitter_ok_frame limit s s' : splitter_ok limit s → sp_max_unit_bytes s' = sp_max_unit_bytes s → zlen (sp_string s') ≤ limit → (in_string s' = true → is_Some (sp_string_mark s')) →
  sp_group s' = sp_group s → sp_group_parts s' = sp_group_parts s → sp_transmission s' = sp_transmission s → splitter_ok limit s'.
Proof. intros [H1 H2 H3 H4 H5] E1 Hs Hm E2 E3 E4. split; rewrite ?E1, ?E2, ?E3; try done. rewrite E4. done. Qed.
Lemma push_text_ok limit b s : splitter_ok limit s → splitter_ok limit (push_text b s).
Proof. intros Hok. unfold push_text. destruct (sp_text s); cbn; (eapply splitter_ok_frame; [exact Hok|..]; try done; apply Hok). Qed.
Lemma emit_ok limit kind bytes mark dropped s out s' out' : splitter_ok limit s → Forall unit_ok out → emit kind bytes mark dropped s out = (s', out') → splitter_ok limit s' ∧ Forall unit_ok out'.
Proof.
  intros Hok Hout. unfold emit. destruct (dropped || _); [by intros [= <- <-]|]. destruct mark as [m|]; cbn; intros [= <- <-]; (split; [|apply Forall_app; split; [done|rewrite Forall_singleton; by left]]); [done|].
  eapply splitter_ok_frame; [exact Hok|..]; try done; apply Hok.
Qed.
Lemma flush_text_ok limit s out s' out' : splitter_ok limit s → Forall unit_ok out → flush_text s out = (s', out') → splitter_ok limit s' ∧ Forall unit_ok out'.
Proof.
  intros Hok Hout. unfold flush_text. destruct (sp_text s); [by intros [= <- <-]|]. apply emit_ok; [|done]. eapply splitter_ok_frame; [exact Hok|..]; try done; apply Hok.
Qed.
Lemma flush_large_ok limit s out s' out' : splitter_ok limit s → Forall unit_ok out → flush_text_when_large s out = (s', out') → splitter_ok limit s' ∧ Forall unit_ok out'.
Proof. intros Hok Hout. unfold flush_text_when_large. destruct (_ <=? _); [by apply flush_text_ok|by intros [= <- <-]]. Qed.
Lemma set_scan_ok limit scan s : splitter_ok limit s → match scan with InString | StringEscape => is_Some (sp_string_mark s) | _ => True end → splitter_ok limit (set_scan scan s).
Proof. intros Hok Hm. eapply splitter_ok_frame; [exact Hok|..]; try done; [apply Hok|]. unfold in_string. cbn. by destruct scan. Qed.
Lemma push_string_ok limit b s : splitter_ok limit s → splitter_ok limit (push_string b s) ∧ sp_string_mark (push_string b s) = sp_string_mark s ∧ sp_scan (push_string b s) = sp_scan s.
Proof.
  intros Hok. unfold push_string. destruct (sp_poisoned s); [done|]. destruct Hok as [[H1 H1'] H2 H3 H4 H5]. rewrite H1. destruct (Z.leb_spec limit (zlen (sp_string s))) as [H|H]; cbn; (split; [|done]).
  - eapply (splitter_ok_frame limit s); [by split|done| |exact H3|done..]. cbn. unfold zlen. rewrite length_take. lia.
  - eapply (splitter_ok_frame limit s); [by split|done| |exact H3|done..]. cbn. rewrite zlen_app. unfold zlen in *. cbn. lia.
Qed.
Lemma classify_ok limit s : splitter_ok limit s → splitter_ok limit (classify s).
Proof.
  intros Hok. unfold classify. destruct (sp_classified s); [done|]. cbv zeta. repeat case_match; try done; (eapply splitter_ok_frame; [exact Hok|..]; try done; apply Hok).
Qed.
Lemma begin_string_ok limit b s : splitter_ok limit s → splitter_ok limit (begin_string b s).
Proof. intros Hok. unfold begin_string. cbn. eapply splitter_ok_frame; [exact Hok|done| |by eexists|done..]. cbn. destruct (ok_limit _ _ Hok) as [_ H]. exact H. Qed.
(** The group that is being collected, with a part whose bytes are still to come. *)
Lemma add_part_ok limit m s : splitter_ok limit s → splitter_ok limit (add_part (Some m) s).
Proof.
  intros [H1 H2 H3 H4 H5]. split; cbn; try done. intros Ho. specialize (H5 Ho). unfold parts_wf in *. destruct (sp_group_parts s) as [|p parts]; [done|]. cbn. destruct H5 as [? ?]. split; [done|by apply parts_from_snoc].
Qed.
Lemma extend_group_ok limit bytes dropped s : splitter_ok limit s → splitter_ok limit (extend_group bytes dropped s).
Proof.
  intros Hok. unfold extend_group. destruct (sp_transmission s) eqn:Et; try done. destruct Hok as [[H1 H1'] H2 H3 H4 H5]. rewrite H1. destruct dropped; cbn [orb]; [|destruct (Z.ltb_spec limit (zlen (sp_group s) + zlen bytes)) as [H|H]].
  - split; cbn; try done. change (zlen []) with 0. lia.
  - split; cbn; try done. change (zlen []) with 0. lia.
  - split; cbn; try done; rewrite zlen_app; [lia|]. intros _. specialize (H5 Et). unfold parts_wf in *. destruct (sp_group_parts s) as [|p parts]; [done|]. destruct H5 as [? Hp]. split; [done|]. eapply parts_from_grow; [exact Hp|]. pose proof (zlen_nonneg bytes). lia.
Qed.
Lemma set_last_parts_snoc parts out u : set_last_parts parts (out ++ [u]) = out ++ [mk_VtUnit (un_kind u) (un_bytes u) (un_order u) (un_sequence u) parts].
Proof. unfold set_last_parts. rewrite last_snoc, length_app. cbn [length]. replace (length out + 1 - 1)%nat with (length out) by lia. by rewrite take_app_length. Qed.
Lemma close_group_ok limit s out s' out' : splitter_ok limit s → sp_transmission s ≠ Idle → Forall unit_ok out → close_group s out = (s', out') → splitter_ok limit s' ∧ Forall unit_ok out'.
Proof.
  intros Hok Hne Hout. unfold close_group. cbv zeta. set (s0 := set_transmission Idle _). assert (splitter_ok limit s0) as Hok0 by (destruct Hok as [H1 H2 H3 H4 H5]; split; cbn; try done; change (zlen []) with 0; lia).
  destruct (sp_transmission s) eqn:Et; [done| |by intros [= <- <-]]. cbn [orb]. case_bool_decide as Hg; [by intros [= <- <-]|].
  destruct (emit KImage (sp_group s) (sp_group_mark s) false s0 out) as [s1 out1] eqn:Ee. intros [= <- <-]. split; [by eapply emit_ok in Ee as [? _]|].
  assert (∃ u, out1 = out ++ [u] ∧ un_bytes u = sp_group s) as (u & -> & Hu).
  { revert Ee. unfold emit. rewrite bool_decide_false by done. cbn [orb]. destruct (sp_group_mark s); cbn; intros [= <- <-]; by eexists. }
  rewrite set_last_parts_snoc. apply Forall_app. split; [done|]. rewrite Forall_singleton. right. cbn. rewrite Hu. by apply Hok.
Qed.
Lemma finish_string_ok limit s out s' out' : splitter_ok limit s → in_string s = true → Forall unit_ok out → finish_string s out = (s', out') → splitter_ok limit s' ∧ Forall unit_ok out'.
Proof.
  intros Hok Hin Hout. unfold finish_string. cbv zeta. destruct (ok_mark _ _ Hok Hin) as [m Hm]. pose proof (ok_string _ _ Hok) as Hstr.
  set (s0 := set_scan Ground _). assert (splitter_ok limit s0) as Hok0 by (destruct Hok as [H1 H2 H3 H4 H5]; split; cbn; try done; change (zlen []) with 0; lia).
  case_bool_decide as Hb; [by intros [= <- <-]|]. set (role := match sp_discarded_role s0 with Some role => role | None => _ end). clearbody role. set (s1 := set_discarded_role None s0).
  assert (splitter_ok limit s1) as Hok1 by (eapply splitter_ok_frame; [exact Hok0|..]; try done; apply Hok0). rewrite Hm. clearbody s1.
  destruct (sp_transmission s1) eqn:Et, role; try (by apply emit_ok); try (by intros [= <- <-]).
  - destruct (sp_poisoned s); intros [= <- <-]; (split; [|done]); destruct Hok1 as [H1 H2 H3 H4 H5]; split; cbn; try done; change (zlen []) with 0; [lia|]. intros _. split; [done|]. apply zlen_nonneg.
  - intros [= <- <-]. split; [|done]. by apply extend_group_ok, add_part_ok.
  - intros [= <- <-]. split; [|done]. by apply extend_group_ok, add_part_ok.
  - apply close_group_ok; [by apply extend_group_ok, add_part_ok| |done]. unfold extend_group. cbn. rewrite Et. by destruct (_ || _); cbn; rewrite ?Et.
  - intros [= <- <-]. split; [|done]. destruct Hok1 as [H1 H2 H3 H4 H5]. by split.
Qed.
Lemma pop_text_ok limit s : splitter_ok limit s → splitter_ok limit (pop_text s).
Proof. intros Hok. unfold pop_text. cbn. destruct (take _ _); (eapply splitter_ok_frame; [exact Hok|..]; try done; apply Hok). Qed.
Lemma escape_byte_ok limit b s out s' out' : splitter_ok limit s → Forall unit_ok out → escape_byte b s out = (s', out') → splitter_ok limit s' ∧ Forall unit_ok out'.
Proof.
  intros Hok Hout. unfold escape_byte.
  assert ((push_text b s, out) = (s', out') → splitter_ok limit s' ∧ Forall unit_ok out') as H1 by (intros [= <- <-]; split; [by apply push_text_ok|done]).
  assert ((let '(s, out) := flush_text (pop_text s) out in (begin_string b s, out)) = (s', out') → splitter_ok limit s' ∧ Forall unit_ok out') as H2.
  { destruct (flush_text (pop_text s) out) as [s1 out1] eqn:E. apply (flush_text_ok limit) in E as [Ha Hb]; [|by apply pop_text_ok|done]. intros [= <- <-]. split; [by apply begin_string_ok|done]. }
  assert (flush_text_when_large (set_scan Ground (push_text b s)) out = (s', out') → splitter_ok limit s' ∧ Forall unit_ok out') as H3 by (apply flush_large_ok; [by apply set_scan_ok; [apply push_text_ok|]|done]).
  assert ((let s := push_text b s in (set_scan Csi (set_csi_start (sat_sub (zlen (sp_text s)) 2) s), out)) = (s', out') → splitter_ok limit s' ∧ Forall unit_ok out') as H4.
  { intros [= <- <-]. split; [|done]. apply set_scan_ok; [|done]. pose proof (push_text_ok limit b s Hok) as Hp. eapply splitter_ok_frame; [exact Hp|..]; try done; apply Hp. }
  destruct b; first [exact H1|exact H2|exact H4|exact H3].
Qed.
Lemma push_byte_ok limit b s out s' out' : splitter_ok limit s → Forall unit_ok out → push_byte b s out = (s', out') → splitter_ok limit s' ∧ Forall unit_ok out'.
Proof.
  intros Hok Hout. unfold push_byte. pose proof (push_text_ok limit b s Hok) as Ht. pose proof (push_string_ok limit b s Hok) as (Hs & Hsm & Hsc).
  assert ((set_scan Escape (push_text b s), out) = (s', out') → splitter_ok limit s' ∧ Forall unit_ok out') as He by (intros [= <- <-]; split; [by apply set_scan_ok|done]).
  destruct (sp_scan s) eqn:Esc.
  - destruct (is_byte b ESC); [exact He|]. intros [= <- <-]. done.
  - by apply escape_byte_ok.
  - destruct (is_byte b ESC); [exact He|]. destruct (is_final b); [apply flush_large_ok; [by apply set_scan_ok|done]|]. destruct (_ <? _); [|by intros [= <- <-]]. intros [= <- <-]. split; [|done]. apply set_scan_ok; [|done].
    cbn. destruct (take _ _); (eapply splitter_ok_frame; [exact Ht|..]; try done; apply Ht).
  - destruct (is_byte b ESC); [exact He|]. destruct (is_final b); intros [= <- <-]; (split; [|done]); [by apply set_scan_ok|done].
  - assert (in_string s = true) as Hin by (unfold in_string; by rewrite Esc). assert (in_string (push_string b s) = true) as Hin' by (unfold in_string; by rewrite Hsc).
    destruct (is_byte b ESC); [intros [= <- <-]; split; [|done]; apply set_scan_ok; [done|]; rewrite Hsm; by apply Hok|]. destruct (_ && _); [by apply finish_string_ok|]. intros [= <- <-]. split; [by apply classify_ok|done].
  - assert (in_string (push_string b s) = true) as Hin' by (unfold in_string; by rewrite Hsc). destruct (is_byte b x5c); [by apply finish_string_ok|]. apply escape_byte_ok; [|done]. apply push_text_ok.
    destruct Hok as [[H1 H1'] H2 H3 H4 H5]. split; cbn; try done. change (zlen []) with 0. lia.
Qed.
Lemma split_push_ok limit sequence bytes s s' out : splitter_ok limit s → split_push sequence bytes s = (s', out) → splitter_ok limit s' ∧ Forall unit_ok out.
Proof.
  intros Hok. unfold split_push, push_bytes. assert (splitter_ok limit (set_sequence sequence s)) as Hok0 by (eapply splitter_ok_frame; [exact Hok|..]; try done; apply Hok).
  assert (∀ bytes s out, splitter_ok limit s → Forall unit_ok out → let so := foldl (λ so b, push_byte b so.1 so.2) (s, out) bytes in splitter_ok limit so.1 ∧ Forall unit_ok so.2) as Hall.
  { clear. induction bytes as [|b bytes IH]; intros s out Hok Hout; [done|]. cbn [foldl fst snd]. destruct (push_byte b s out) as [s1 out1] eqn:E. apply (push_byte_ok limit) in E as [H1 H2]; [|done|done]. by apply IH. }
  specialize (Hall bytes _ [] Hok0 ltac:(done)). destruct (foldl _ _ bytes) as [s1 out1]. cbn [fst snd] in Hall. destruct Hall as [H1 H2]. destruct (sp_scan s1) eqn:Esc; try (by intros [= <- <-]). by apply flush_text_ok.
Qed.

(** ** The history *)

Definition record_bytes (l : list HRecord) : Z := zsum ((λ r, zlen (hr_bytes r)) <$> l).
Lemma record_bytes_app a b : record_bytes (a ++ b) = record_bytes a + record_bytes b.
Proof. unfold record_bytes. by rewrite fmap_app, zsum_app. Qed.
Lemma record_bytes_cons r a : record_bytes (r :: a) = zlen (hr_bytes r) + record_bytes a.
Proof. done. Qed.
Lemma record_bytes_nonneg a : 0 ≤ record_bytes a.
Proof. unfold record_bytes. apply zsum_nonneg, Forall_fmap, Forall_true. intros r. apply zlen_nonneg. Qed.
Lemma update_last_snoc f l r : last l = Some r → ∃ front, l = front ++ [r] ∧ update_last f l = front ++ [f r].
Proof. intros Hl. pose proof Hl as [front ->]%last_Some. exists front. split; [done|]. unfold update_last. rewrite last_snoc, length_app. cbn [length]. replace (length front + 1 - 1)%nat with (length front) by lia. by rewrite take_app_length. Qed.
Lemma update_last_none f l : last l = None → update_last f l = l.
Proof. unfold update_last. by intros ->. Qed.
Record counted (h : RetainedHistory) : Prop := {
  ct_text : rh_text_bytes h = record_bytes (rh_text h);
  ct_image : rh_image_bytes h = record_bytes (rh_images h);
}.
Lemma seal_counted h : counted h → counted (seal h).
Proof.
  intros [H1 H2]. split; [|done]. unfold seal, with_texts. cbn [rh_text rh_text_bytes]. rewrite H1. destruct (last (rh_text h)) as [r|] eqn:E; [|by rewrite update_last_none]. destruct (update_last_snoc (λ r, mk_HRecord (hr_order r) (hr_sequence r) (hr_bytes r) false (hr_image_group r)) _ _ E) as (front & -> & ->). rewrite !record_bytes_app. reflexivity.
Qed.
Lemma retain_unit_counted h u : counted h → unit_ok u → counted (retain_unit h u) ∧ rh_budget (retain_unit h u) = rh_budget h ∧ rh_splitter (retain_unit h u) = rh_splitter h.
Proof.
  intros [H1 H2] Hu. unfold retain_unit. destruct (un_kind u).
  - cbv zeta. set (c := match last (rh_text h) with Some _ => _ | None => _ end). destruct c eqn:Ec; (split; [|done]); (split; cbn [with_texts rh_text rh_text_bytes rh_images rh_image_bytes]; [|done]); rewrite H1.
    + destruct (last (rh_text h)) as [r|] eqn:E; [|done]. destruct (update_last_snoc (λ r, mk_HRecord (hr_order r) (hr_sequence r) (hr_bytes r ++ un_bytes u) (hr_open r) (hr_image_group r)) _ _ E) as (front & -> & ->). rewrite !record_bytes_app, !record_bytes_cons. cbn [hr_bytes]. rewrite zlen_app. lia.
    + rewrite record_bytes_app, record_bytes_cons. change (record_bytes []) with 0. cbn [hr_bytes]. lia.
  - cbv zeta. split; [|done]. apply seal_counted. split; cbn [with_images rh_text rh_text_bytes rh_images rh_image_bytes]; [done|]. rewrite record_bytes_app, H2. f_equal. unfold record_bytes. destruct (un_parts u) as [|[[start order] sequence] parts] eqn:Ep.
    + rewrite cut_parts_size; [lia|lia|apply zlen_nonneg|done].
    + destruct Hu as [Hu|Hu]; [by rewrite Ep in Hu|]. rewrite Ep in Hu. destruct Hu as [Hst Hp]. unfold part_start in *. cbn [fst] in *. subst start. rewrite cut_parts_size; [lia|lia|exact Hp|done].
Qed.
Lemma evict_text_spec budget text bytes state text' bytes' state' : 0 ≤ budget → bytes = record_bytes text → evict_text budget text bytes state = (text', bytes', state') → bytes' = record_bytes text' ∧ bytes' ≤ budget.
Proof.
  intros Hb. revert bytes state. induction text as [|r text IH]; intros bytes state Hs; cbn [evict_text]; [intros [= <- <- <-]; subst; done|]. destruct (Z.ltb_spec budget bytes); [|by intros [= <- <- <-]].
  apply IH. subst. rewrite record_bytes_cons. lia.
Qed.
Lemma evict_images_spec budget group images bytes images' bytes' : 0 ≤ budget → bytes = record_bytes images → evict_images budget group images bytes = (images', bytes') → bytes' = record_bytes images' ∧ bytes' ≤ budget.
Proof.
  intros Hb. revert group bytes. induction images as [|r images IH]; intros group bytes Hs; cbn [evict_images]; [intros [= <- <-]; subst; done|]. assert (bytes - zlen (hr_bytes r) = record_bytes images) as Hr by (subst; rewrite record_bytes_cons; lia).
  case_bool_decide; [by apply IH|]. destruct (Z.ltb_spec budget bytes); [by apply IH|by intros [= <- <-]].
Qed.
Record retained_ok (budget : RetentionBudget) (h : RetainedHistory) : Prop := {
  rt_budget : rh_budget h = budget;
  rt_splitter : splitter_ok (Z.max 64 (max_unit_bytes budget)) (rh_splitter h);
  rt_counted : counted h;
  rt_text : rh_text_bytes h ≤ rb_text_bytes budget;
  rt_image : rh_image_bytes h ≤ rb_image_bytes budget;
}.
Definition budget_ok (b : RetentionBudget) : Prop := 0 ≤ rb_text_bytes b ∧ 0 ≤ rb_image_bytes b.
Lemma retained_new_ok budget : budget_ok budget → retained_ok budget (retained_new budget).
Proof.
  intros [H1 H2]. split; [done| |by split|exact H1|exact H2]. split; cbn [retained_new rh_splitter splitter_new sp_max_unit_bytes sp_string sp_group sp_transmission]; try done; try (change (zlen []) with 0); lia.
Qed.
Lemma retained_push_ok budget sequence bytes h : budget_ok budget → retained_ok budget h → retained_ok budget (retained_push sequence bytes h).
Proof.
  intros [Hb1 Hb2] [H1 H2 H3 H4 H5]. unfold retained_push. destruct (split_push sequence bytes (rh_splitter h)) as [sp units] eqn:Es. apply (split_push_ok _ _ _ _ _ _ H2) in Es as [Hsp Hun].
  set (h0 := mk_RetainedHistory _ sp _ _ _ _ _). assert (counted h0 ∧ rh_budget h0 = budget ∧ rh_splitter h0 = sp) as Hh0 by (destruct H3; split_and!; [by split|done|done]). clearbody h0.
  assert (counted (foldl retain_unit h0 units) ∧ rh_budget (foldl retain_unit h0 units) = budget ∧ rh_splitter (foldl retain_unit h0 units) = sp) as (Hc & Hbu & Hsp').
  { clear -Hh0 Hun. revert h0 Hh0. induction Hun as [|u units Hu Hun IH]; intros h0 (Ha & Hb & Hc); [done|]. cbn [foldl]. apply IH. destruct (retain_unit_counted h0 u Ha Hu) as (? & -> & ->). done. }
  set (h1 := foldl retain_unit h0 units) in *. clearbody h1. unfold evict. rewrite Hbu. destruct Hc as [Hc1 Hc2]. destruct (evict_text _ _ _ _) as [[text tb] st] eqn:Et. destruct (evict_images _ _ _ _) as [images ib] eqn:Ei.
  apply evict_text_spec in Et as [? ?]; [|done|done]. apply evict_images_spec in Ei as [? ?]; [|done|done]. split; [done|by rewrite <- Hsp' in Hsp|by split|done|done].
Qed.
Lemma seal_ok budget h : retained_ok budget h → retained_ok budget (seal h).
Proof. intros [H1 H2 H3 H4 H5]. split; try done. by apply seal_counted. Qed.

(** ** What a session holds *)

Lemma hub_step_retained budget i h : budget_ok budget → retained_ok budget (bb_retained (hb_buffer h)) → retained_ok budget (bb_retained (hb_buffer (hub_step i h))).
Proof.
  intros Hb Hok. destruct i as [bytes metrics| |cols rows|cols rows|after]; cbn [hub_step].
  - unfold publish, push_with_read_timestamp. case_bool_decide; [done|]. unfold allocate_sequence, append. destruct (trim _ _ _). by apply retained_push_ok.
  - unfold publish_gap, allocate_sequence, append. destruct (trim _ _ _). by apply retained_push_ok.
  - by apply seal_ok.
  - unfold record_initial_size. by destruct (hb_resize_ledger h).
  - unfold subscribe_with_sequence_ranges. by destruct (snapshot_after_ranges _ _ _) as [[[[? ?] ?] ?] ?].
Qed.
Lemma hub_run_retained budget steps h : budget_ok budget → retained_ok budget (bb_retained (hb_buffer h)) → retained_ok budget (bb_retained (hb_buffer (hub_run steps h))).
Proof. intros Hb. unfold hub_run. revert h. induction steps as [|i steps IH]; intros h Hok; [done|]. cbn [foldl]. by apply IH, hub_step_retained. Qed.


