(* ===== verification/RecorderSpec.v ===== *)
(** * RecorderSpec: what evicted output set is set again

    The recorder of Retained folds output that is thrown away into attributes and modes.  Encoded and
    read again they are the same, so that the text that was kept is shown as if nothing had been
    thrown away; and the encoding is of bounded size whatever was thrown away. *)

From Stdlib Require Import ZArith Lia Strings.Byte Sorting.Sorted.
From stdpp Require Import base option list strings.
From S2P Require Import Prelude VtStream Retained RetainedSpec.

#[local] Open Scope Z_scope.

(** ** Pieces and separators *)

Definition join (sep : byte) (field : list byte) (rest : list (list byte)) : list byte := field ++ concat (cons sep <$> rest).
Lemma split_on_cons sep l : ∃ p ps, split_on sep l = p :: ps.
Proof. induction l as [|b l (p & ps & IH)]; cbn; [by eauto|]. destruct (is_byte b sep); [by eauto|]. rewrite IH. by eauto. Qed.
Lemma join_split sep l field rest : split_on sep l = field :: rest → l = join sep field rest.
Proof.
  revert field rest. induction l as [|b l IH]; intros field rest; cbn; [by intros [= <- <-]|]. unfold is_byte. destruct (split_on_cons sep l) as (p & ps & E). case_bool_decide as Hb.
  - intros [= <- <-]. subst. rewrite E. cbn. f_equal. by apply IH.
  - rewrite E. intros [= <- <-]. cbn. f_equal. by apply IH.
Qed.
Lemma split_pieces sep l : Forall (λ p, sep ∉ p) (split_on sep l).
Proof.
  induction l as [|b l IH]; cbn; [constructor; [apply not_elem_of_nil|done]|]. unfold is_byte. case_bool_decide; [constructor; [apply not_elem_of_nil|done]|].
  destruct (split_on_cons sep l) as (p & ps & E). rewrite E in IH |- *. apply Forall_cons in IH as [Hp Hps]. constructor; [|done]. rewrite not_elem_of_cons. done.
Qed.
Lemma split_join sep field rest : sep ∉ field → Forall (λ p, sep ∉ p) rest → split_on sep (join sep field rest) = field :: rest.
Proof.
  unfold join. intros Hf Hr. revert field Hf. induction Hr as [|p rest Hp Hr IH]; intros field Hf; cbn.
  - rewrite app_nil_r. induction field as [|b field IHf]; [done|]. apply not_elem_of_cons in Hf as [Hb Hf]. cbn. unfold is_byte. rewrite bool_decide_false by done. by rewrite IHf.
  - induction field as [|b field IHf]; cbn; unfold is_byte.
    + rewrite bool_decide_true by done. f_equal. by apply IH.
    + apply not_elem_of_cons in Hf as [Hb Hf]. rewrite bool_decide_false by done. by rewrite (IHf Hf).
Qed.

(** ** Parameters of a control sequence *)

Definition is_param (b : byte) : bool := is_digit b || is_byte b x3b || is_byte b x3a.
Definition params_ok (l : list byte) : Prop := forallb is_param l = true ∧ zlen l ≤ MAX_CSI_PARAMETER_BYTES.
Lemma observe_app a b r : observe (a ++ b) r = observe b (observe a r).
Proof. unfold observe. apply foldl_app. Qed.
Lemma param_not_question b : is_param b = true → is_byte b x3f = false.
Proof. by destruct b. Qed.
Lemma observe_params l p private sgr modes charset : forallb is_param l = true → zlen p + zlen l ≤ MAX_CSI_PARAMETER_BYTES →
  observe l (mk_TerminalStateRecorder SCsi p false private sgr modes charset) = mk_TerminalStateRecorder SCsi (p ++ l) false private sgr modes charset.
Proof.
  revert p. induction l as [|b l IH]; intros p; [intros _ _; by rewrite app_nil_r|]. cbn [forallb]. intros [Hb Hl]%andb_prop Hlen. unfold zlen in Hlen. cbn [length] in Hlen. change (observe (b :: l) ?r) with (observe l (observe_byte r b)).
  unfold observe_byte. cbn [sr_scan sr_params sr_params_overflowed sr_private sr_sgr sr_private_modes sr_utf8_charset]. rewrite (param_not_question _ Hb). cbn [andb]. unfold is_param in Hb. rewrite Hb.
  rewrite (proj2 (Z.ltb_lt _ _)) by (unfold zlen; lia). rewrite IH; [by rewrite <- app_assoc|done|]. unfold zlen. rewrite length_app. cbn [length]. lia.
Qed.
Lemma observe_sgr e r : params_ok e → sr_scan r = SGround →
  observe ([x1b; x5b] ++ e ++ [x6d]) r = in_scan SGround (apply_sgr (mk_TerminalStateRecorder SCsi e false false (sr_sgr r) (sr_private_modes r) (sr_utf8_charset r))).
Proof.
  intros [H1 H2] Hs. rewrite !observe_app. assert (observe [x1b; x5b] r = mk_TerminalStateRecorder SCsi [] false false (sr_sgr r) (sr_private_modes r) (sr_utf8_charset r)) as ->.
  { unfold observe. cbn [foldl]. unfold observe_byte at 2. rewrite Hs. by destruct r. }
  rewrite observe_params; [reflexivity|done|]. change (zlen []) with 0. lia.
Qed.
Lemma observe_mode n enabled r : params_ok n → sr_scan r = SGround →
  observe ([x1b; x5b; x3f] ++ n ++ [if enabled : bool then x68 else x6c]) r = in_scan SGround (apply_private_mode enabled (mk_TerminalStateRecorder SCsi n false true (sr_sgr r) (sr_private_modes r) (sr_utf8_charset r))).
Proof.
  intros [H1 H2] Hs. rewrite !observe_app. assert (observe [x1b; x5b; x3f] r = mk_TerminalStateRecorder SCsi [] false true (sr_sgr r) (sr_private_modes r) (sr_utf8_charset r)) as ->.
  { unfold observe. cbn [foldl]. unfold observe_byte at 3. rewrite Hs. by destruct r. }
  rewrite observe_params; [by destruct enabled|done|]. change (zlen []) with 0. lia.
Qed.

(** ** Attributes *)

Definition field_code (field : list byte) : Z := default 0 (parse_u16 (before x3a field)).
Definition extra (field : list byte) (rest : list (list byte)) : nat :=
  if bool_decide (field_code field ∈ [38; 48; 58]) && negb (bool_decide (x3a ∈ field)) then match rest with [x35] :: _ => 2 | [x32] :: _ => 4 | _ => 0 end%nat else 0%nat.
Definition group_of (e : list byte) : option Z := parse_u16 (before x3a (before x3b e)) ≫= sgr_group.
(** An attribute as it is kept: one that is set, with exactly the parameters it takes. *)
Definition entry_ok (e : list byte) : Prop :=
  params_ok e ∧ ∃ field rest, split_on x3b e = field :: rest ∧ field_code field ≠ 0 ∧ is_Some (sgr_group (field_code field)) ∧ (length rest ≤ extra field rest)%nat.
(** [a] stays when [b] is set. *)
Definition unaffected (a b : list byte) : Prop := group_of a ≠ group_of b ∧ (field_code (before x3b b) = 22 → a ≠ [x32]).
Definition sgr_ok (sgr : list (list byte)) : Prop := Forall entry_ok sgr ∧ StronglySorted unaffected sgr.

Lemma field_code_group field : field_code field ≠ 0 → parse_u16 (before x3a field) ≫= sgr_group = sgr_group (field_code field).
Proof. unfold field_code. by destruct (parse_u16 _). Qed.
Lemma group_of_split e field rest : split_on x3b e = field :: rest → field_code field ≠ 0 → group_of e = sgr_group (field_code field).
Proof. intros E Hc. unfold group_of, before at 2. rewrite E. by apply field_code_group. Qed.
Lemma sgr_field_unfold field rest sgr : sgr_field field rest sgr =
  if field_code field =? 0 then ([], rest) else
  (match sgr_group (field_code field) with
   | None => sgr
   | Some group => (if field_code field =? 22 then List.filter (λ a, negb (bool_decide (a = [x32]))) else id) (List.filter (λ a, negb (bool_decide (group_of a = Some group))) sgr) ++ [join x3b field (take (extra field rest) rest)]
   end, drop (extra field rest) rest).
Proof. unfold sgr_field, extra. fold (field_code field). destruct (field_code field =? 0); [done|]. destruct (sgr_group _); [|done]. by destruct (field_code field =? 22). Qed.
Lemma filter_true_id {A} (f : A → bool) l : Forall (λ a, f a = true) l → List.filter f l = l.
Proof. induction 1 as [|a l Ha Hl IH]; cbn; [done|]. by rewrite Ha, IH. Qed.
Lemma filter_Forall {A} (P : A → Prop) f l : Forall P l → Forall P (List.filter f l).
Proof. induction 1 as [|a l Ha Hl IH]; cbn; [done|]. destruct (f a); [by constructor|done]. Qed.
Lemma filter_sorted {A} (R : A → A → Prop) f l : StronglySorted R l → StronglySorted R (List.filter f l).
Proof. induction 1 as [|a l Hl IH Ha]; cbn; [constructor|]. destruct (f a); [|done]. constructor; [done|]. by apply filter_Forall. Qed.
Lemma filter_holds {A} (f : A → bool) l : Forall (λ a, f a = true) (List.filter f l).
Proof. induction l as [|a l IH]; cbn; [done|]. destruct (f a) eqn:E; [by constructor|done]. Qed.
Lemma strongly_sorted_snoc {A} (R : A → A → Prop) l x : StronglySorted R l → Forall (λ a, R a x) l → StronglySorted R (l ++ [x]).
Proof. induction 1 as [|a l Hl IH Ha]; cbn; [by repeat constructor|]. intros [Hx Hf]%Forall_cons. constructor; [by apply IH|]. apply Forall_app. split; [done|]. by rewrite Forall_singleton. Qed.

(** Setting a kept attribute again, after those before it. *)
Lemma set_again pre e r : entry_ok e → Forall (λ a, unaffected a e) pre → sr_scan r = SGround → sr_sgr r = pre →
  ∃ r', observe ([x1b; x5b] ++ e ++ [x6d]) r = r' ∧ sr_scan r' = SGround ∧ sr_sgr r' = pre ++ [e] ∧ sr_private_modes r' = sr_private_modes r ∧ sr_utf8_charset r' = sr_utf8_charset r.
Proof.
  intros [Hp (field & rest & Hs & Hc & [g Hg] & Hr)] Hu Hscan Hpre. eexists. split; [by apply observe_sgr|]. unfold apply_sgr. cbn [sr_params sr_sgr]. rewrite Hs.
  assert (forallb (λ p, bool_decide (p = [x30]) || bool_decide (p = [])) (field :: rest) = false) as ->.
  { cbn [forallb]. rewrite !bool_decide_false; [done| |]; intros ->; by vm_compute in Hc. }
  cbn [length sgr_fields]. rewrite sgr_field_unfold. rewrite (proj2 (Z.eqb_neq _ _) Hc), Hg. rewrite take_ge, drop_ge by done.
  assert (∀ n sgr, sgr_fields n [] sgr = sgr) as Hnil by (by intros []). rewrite Hnil. unfold in_scan, with_sgr. cbn [sr_scan sr_sgr sr_private_modes sr_utf8_charset]. split_and!; try done.
  rewrite <- (join_split _ _ _ _ Hs), Hpre. f_equal. pose proof (group_of_split _ _ _ Hs Hc) as He. rewrite Hg in He.
  rewrite (filter_true_id _ pre); [|eapply Forall_impl; [exact Hu|]; intros a [Ha _]; rewrite bool_decide_false; [done|]; intros Hga; apply Ha; by rewrite Hga, He].
  destruct (Z.eqb_spec (field_code field) 22) as [H22|]; [|done]. apply filter_true_id. eapply Forall_impl; [exact Hu|]. intros a [_ Ha]. rewrite bool_decide_false; [done|]. apply Ha. unfold before. by rewrite Hs.
Qed.
Lemma set_all_again es pre r : sgr_ok (pre ++ es) → sr_scan r = SGround → sr_sgr r = pre →
  ∃ r', observe (concat ((λ e, [x1b; x5b] ++ e ++ [x6d]) <$> es)) r = r' ∧ sr_scan r' = SGround ∧ sr_sgr r' = pre ++ es ∧ sr_private_modes r' = sr_private_modes r ∧ sr_utf8_charset r' = sr_utf8_charset r.
Proof.
  revert pre r. induction es as [|e es IH]; intros pre r Hok Hs Hp; [exists r; by rewrite app_nil_r|]. cbn [fmap list_fmap concat]. rewrite observe_app.
  assert (entry_ok e ∧ Forall (λ a, unaffected a e) pre) as [He Hu].
  { destruct Hok as [Hf Hss]. apply Forall_app in Hf as [_ [He _]%Forall_cons]. split; [done|]. clear -Hss. induction pre as [|a pre IH]; [done|]. cbn in Hss. apply StronglySorted_inv in Hss as [Hss Ha]. constructor; [|by apply IH]. apply Forall_app in Ha as [_ Ha]. by apply Forall_cons in Ha as [Ha _]. }
  destruct (set_again pre e r He Hu Hs Hp) as (r1 & -> & H1 & H2 & H3 & H4). destruct (IH (pre ++ [e]) r1) as (r2 & -> & H5 & H6 & H7 & H8); [by rewrite <- app_assoc|done|done|]. exists r2. rewrite <- app_assoc in H6. split_and!; [done|done|exact H6|congruence|congruence].
Qed.

(** Attributes stay well-formed. *)
Lemma forallb_app_true {A} (f : A → bool) a b : forallb f (a ++ b) = true ↔ forallb f a = true ∧ forallb f b = true.
Proof. rewrite forallb_app. apply andb_true_iff. Qed.
Lemma join_take_params field rest n : params_ok (join x3b field rest) → params_ok (join x3b field (take n rest)).
Proof.
  unfold join. intros [H1 H2]. rewrite <- (take_drop n rest), fmap_app, concat_app, app_assoc in H1, H2. apply forallb_app_true in H1 as [H1 _]. split; [done|]. rewrite zlen_app in H2. pose proof (zlen_nonneg (concat (cons x3b <$> drop n rest))). lia.
Qed.
Lemma join_drop_params field rest n field' rest' : params_ok (join x3b field rest) → drop n rest = field' :: rest' → params_ok (join x3b field' rest').
Proof.
  unfold join. intros [H1 H2] Hd. rewrite <- (take_drop n rest), Hd, fmap_app, concat_app, app_assoc in H1, H2. cbn [fmap list_fmap concat] in H1, H2. change ((x3b :: field') ++ concat (cons x3b <$> rest')) with ([x3b] ++ (field' ++ concat (cons x3b <$> rest'))) in H1, H2.
  rewrite !forallb_app_true in H1. rewrite !zlen_app in H2. destruct H1 as (_ & _ & H1). split; [by rewrite forallb_app_true|]. pose proof (zlen_nonneg field). pose proof (zlen_nonneg (concat (cons x3b <$> take n rest))). pose proof (zlen_nonneg [x3b]). rewrite zlen_app. lia.
Qed.
Lemma extra_take field rest : (length (take (extra field rest) rest) ≤ extra field (take (extra field rest) rest))%nat.
Proof.
  destruct rest as [|p rest]; [by rewrite take_nil, length_nil; lia|]. destruct (extra field (p :: rest)) as [|k] eqn:E; [by rewrite take_0, length_nil; lia|]. change (extra field (take (S k) (p :: rest))) with (extra field (p :: rest)). rewrite E, length_take. lia.
Qed.
Lemma sgr_field_ok field rest sgr : params_ok (join x3b field rest) → Forall (λ p, x3b ∉ p) (field :: rest) → sgr_ok sgr → sgr_ok (sgr_field field rest sgr).1.
Proof.
  intros Hp [Hn Hns]%Forall_cons [Hf Hss]. rewrite sgr_field_unfold. destruct (Z.eqb_spec (field_code field) 0) as [|Hc]; [split; constructor|]. destruct (sgr_group (field_code field)) as [g|] eqn:Hg; [|done]. cbn [fst].
  set (e := join x3b field _). assert (split_on x3b e = field :: take (extra field rest) rest) as Hs by (apply split_join; [done|by apply Forall_take]).
  set (kept := List.filter (λ a, negb (bool_decide (group_of a = Some g))) sgr).
  assert (Forall entry_ok kept ∧ StronglySorted unaffected kept ∧ Forall (λ a, group_of a ≠ Some g) kept) as (K1 & K2 & K3).
  { subst kept. split_and!; [by apply filter_Forall|by apply filter_sorted|]. eapply Forall_impl; [apply filter_holds|]. cbn. intros a Ha Hag. by rewrite bool_decide_true in Ha. }
  assert (∀ l, Forall entry_ok l → StronglySorted unaffected l → Forall (λ a, group_of a ≠ Some g) l → (field_code field = 22 → Forall (λ a, a ≠ [x32]) l) → sgr_ok (l ++ [e])) as Hend.
  { intros l L1 L2 L3 L4. split.
    - apply Forall_app. split; [done|]. rewrite Forall_singleton. split; [by apply join_take_params|]. exists field, (take (extra field rest) rest). split_and!; [done|done|by rewrite Hg|apply extra_take].
    - apply strongly_sorted_snoc; [done|]. pose proof (group_of_split _ _ _ Hs Hc) as He. rewrite Hg in He. apply List.Forall_forall. intros a Ha. rewrite List.Forall_forall in L3. split; [rewrite He; by apply L3|]. unfold before. rewrite Hs. cbn. intros H22. specialize (L4 H22). rewrite List.Forall_forall in L4. by apply L4. }
  destruct (Z.eqb_spec (field_code field) 22) as [H22|]; [|by apply Hend]. apply Hend; [by apply filter_Forall|by apply filter_sorted|by apply filter_Forall|]. intros _. eapply Forall_impl; [apply filter_holds|]. cbn. intros a Ha Ha2. by rewrite bool_decide_true in Ha.
Qed.
Lemma sgr_fields_ok n fields sgr : match fields with [] => True | field :: rest => params_ok (join x3b field rest) end → Forall (λ p, x3b ∉ p) fields → sgr_ok sgr → sgr_ok (sgr_fields n fields sgr).
Proof.
  revert fields sgr. induction n as [|n IH]; intros fields sgr Hp Hn Hs; [done|]. destruct fields as [|field rest]; [done|]. cbn [sgr_fields]. pose proof (sgr_field_ok field rest sgr Hp Hn Hs) as Hok.
  assert (∃ k, (sgr_field field rest sgr).2 = drop k rest) as [k Hk] by (rewrite sgr_field_unfold; destruct (_ =? 0); [by exists 0%nat|by eexists]).
  destruct (sgr_field field rest sgr) as [sgr' rest']. cbn in Hok, Hk. subst rest'. apply IH; [|apply Forall_drop; by apply Forall_cons in Hn as [_ Hn]|done]. destruct (drop k rest) as [|f' r'] eqn:E; [done|]. by eapply join_drop_params.
Qed.

(** ** Modes *)

Definition modes_ok (modes : list (Z * bool)) : Prop := NoDup modes.*1 ∧ Forall (λ m, m ∈ TRACKED_PRIVATE_MODES) modes.*1.
Definition mode_text_ok (n : Z) : bool :=
  bool_decide (split_on x3b (u16_string n) = [u16_string n]) && bool_decide (parse_u16 (u16_string n) = Some n) && forallb is_param (u16_string n) && (zlen (u16_string n) <=? 4).
Lemma tracked_text n : n ∈ TRACKED_PRIVATE_MODES → split_on x3b (u16_string n) = [u16_string n] ∧ parse_u16 (u16_string n) = Some n ∧ params_ok (u16_string n) ∧ zlen (u16_string n) ≤ 4.
Proof.
  intros Hn. assert (forallb mode_text_ok TRACKED_PRIVATE_MODES = true) as H by (vm_compute; reflexivity). rewrite forallb_forall in H. specialize (H n (proj1 (list_elem_of_In _ _) Hn)). unfold mode_text_ok in H.
  rewrite !andb_true_iff, !bool_decide_eq_true, Z.leb_le in H. destruct H as [[[H1 H2] H3] H4]. split_and!; try done. unfold params_ok, MAX_CSI_PARAMETER_BYTES. split; [done|lia].
Qed.
Lemma set_mode_keys mode enabled modes : modes_ok modes → mode ∈ TRACKED_PRIVATE_MODES → modes_ok (set_mode mode enabled modes).
Proof.
  intros [H1 H2] Hm. unfold set_mode. destruct (list_find _ modes) as [[i x]|] eqn:E.
  - apply list_find_Some in E as (Hi & Hx & _). assert ((<[i:=(mode, enabled)]> modes).*1 = modes.*1) as Ek; [|unfold modes_ok; by rewrite Ek].
    rewrite list_fmap_insert. apply list_insert_id. rewrite list_lookup_fmap, Hi. cbn. by rewrite Hx.
  - apply list_find_None in E. unfold modes_ok. rewrite fmap_app. cbn. split; [|apply Forall_app; split; [done|by rewrite Forall_singleton]]. apply NoDup_app. split_and!; [done| |apply NoDup_singleton].
    intros m (p & -> & Hp)%list_elem_of_fmap Hm'. apply list_elem_of_singleton in Hm'. rewrite List.Forall_forall in E. apply (E p); [by apply list_elem_of_In|done].
Qed.
Lemma set_mode_new mode enabled modes : mode ∉ modes.*1 → set_mode mode enabled modes = modes ++ [(mode, enabled)].
Proof.
  intros Hn. unfold set_mode. destruct (list_find _ modes) as [[i x]|] eqn:E; [|done]. apply list_find_Some in E as (Hi & Hx & _). destruct Hn. rewrite <- Hx. apply list_elem_of_fmap. exists x. split; [done|]. by eapply list_elem_of_lookup_2.
Qed.
Lemma set_modes_again ms pre r : modes_ok (pre ++ ms) → sr_scan r = SGround → sr_private_modes r = pre →
  ∃ r', observe (concat ((λ me, [x1b; x5b; x3f] ++ u16_string me.1 ++ [if me.2 : bool then x68 else x6c]) <$> ms)) r = r' ∧ sr_scan r' = SGround ∧ sr_private_modes r' = pre ++ ms ∧ sr_sgr r' = sr_sgr r ∧ sr_utf8_charset r' = sr_utf8_charset r.
Proof.
  revert pre r. induction ms as [|[m enabled] ms IH]; intros pre r [H1 H2] Hs Hp; [exists r; by rewrite app_nil_r|]. cbn [fmap list_fmap concat fst snd]. rewrite observe_app. rewrite fmap_app in H1, H2. cbn [fmap list_fmap fst] in H1, H2.
  assert (m ∈ TRACKED_PRIVATE_MODES) as Hm by (apply Forall_app in H2 as [_ [? _]%Forall_cons]; done). assert (m ∉ pre.*1) as Hnew by (apply NoDup_app in H1 as (_ & H1 & _); intros Hin; by apply (H1 m Hin), elem_of_cons; left).
  destruct (tracked_text m Hm) as (T1 & T2 & T3 & _). rewrite observe_mode by done. unfold apply_private_mode. cbn [sr_params sr_private_modes]. rewrite T1. cbn [foldl]. rewrite T2, bool_decide_true by done. rewrite Hp, set_mode_new by done.
  set (r1 := in_scan SGround _). destruct (IH (pre ++ [(m, enabled)]) r1) as (r' & E & H3 & H4 & H5 & H6); [|done|done|].
  - rewrite <- app_assoc. split; by rewrite fmap_app.
  - exists r'. split; [exact E|]. rewrite <- app_assoc in H4. split_and!; [done|exact H4|done|done].
Qed.

(** ** The recorder *)

Record recorder_ok (r : TerminalStateRecorder) : Prop := {
  ro_params : params_ok (sr_params r);
  ro_sgr : sgr_ok (sr_sgr r);
  ro_modes : modes_ok (sr_private_modes r);
}.
Lemma params_nil : params_ok [].
Proof. by vm_compute. Qed.
Lemma apply_sgr_ok r : recorder_ok r → recorder_ok (apply_sgr r).
Proof.
  intros [Hp Hs Hm]. unfold apply_sgr. destruct (split_on_cons x3b (sr_params r)) as (field & rest & E). pose proof (split_pieces x3b (sr_params r)) as Hpc. rewrite E in *. rewrite (join_split _ _ _ _ E) in Hp.
  destruct (forallb _ _); (split; [apply params_nil| |exact Hm]); [by repeat constructor|]. cbn [with_sgr sr_sgr]. by apply sgr_fields_ok.
Qed.
Lemma apply_private_mode_ok enabled r : recorder_ok r → recorder_ok (apply_private_mode enabled r).
Proof.
  intros [Hp Hs Hm]. split; [apply params_nil|exact Hs|]. cbn [apply_private_mode sr_private_modes]. generalize (split_on x3b (sr_params r)). intros parts. revert Hm. generalize (sr_private_modes r). induction parts as [|p parts IH]; intros modes Hm; [done|]. cbn [foldl]. apply IH.
  destruct (parse_u16 p); [|done]. case_bool_decide; [by apply set_mode_keys|done].
Qed.
Lemma observe_byte_ok r b : recorder_ok r → recorder_ok (observe_byte r b).
Proof.
  intros Hok. pose proof Hok as [Hp Hs Hm]. assert (∀ scan over private charset, recorder_ok (mk_TerminalStateRecorder scan (sr_params r) over private (sr_sgr r) (sr_private_modes r) charset)) as Hkeep by (by split).
  unfold observe_byte. destruct (sr_scan r).
  - destruct (is_byte b ESC); [apply Hkeep|done].
  - assert (recorder_ok (mk_TerminalStateRecorder SCsi [] false false (sr_sgr r) (sr_private_modes r) (sr_utf8_charset r))) by (split; [apply params_nil|done|done]).
    assert (recorder_ok (mk_TerminalStateRecorder SGround (sr_params r) (sr_params_overflowed r) (sr_private r) [] [] false)) by (split; [done|by repeat constructor|split; constructor]).
    destruct b; try apply Hkeep; done.
  - destruct (_ && _); [apply Hkeep|]. destruct (is_digit b || is_byte b x3b || is_byte b x3a) eqn:Hb.
    + destruct (Z.ltb_spec (zlen (sr_params r)) MAX_CSI_PARAMETER_BYTES); [|apply Hkeep]. split; [|done|done]. cbn [sr_params]. destruct Hp as [Hp1 Hp2]. split; [rewrite forallb_app_true; cbn; unfold is_param; by rewrite Hb|]. rewrite zlen_app. change (zlen [b]) with 1. lia.
    + destruct (is_final b); [|destruct (is_byte b ESC); [apply Hkeep|done]]. assert (recorder_ok (dispatch_csi b r)) as Hd by (unfold dispatch_csi; destruct b; try done; destruct (sr_private r); try done; first [by apply apply_sgr_ok|by apply apply_private_mode_ok]).
      destruct (sr_params_overflowed r); [apply Hkeep|]. destruct Hd. by split.
  - destruct (is_byte b ESC); [apply Hkeep|]. destruct (is_byte b BEL); [apply Hkeep|done].
  - apply Hkeep.
  - apply Hkeep.
Qed.
Lemma observe_ok bytes r : recorder_ok r → recorder_ok (observe bytes r).
Proof. unfold observe. revert r. induction bytes as [|b bytes IH]; intros r Hok; [done|]. cbn [foldl]. by apply IH, observe_byte_ok. Qed.
Lemma recorder_new_ok : recorder_ok recorder_new.
Proof. split; [apply params_nil|by repeat constructor|split; constructor]. Qed.

(** Reading the prelude again. *)
Lemma prelude_again r : recorder_ok r → ∃ r', observe (prelude_encode (prelude_of r)) recorder_new = r' ∧ sr_scan r' = SGround ∧ prelude_of r' = prelude_of r.
Proof.
  intros [_ Hs Hm]. unfold prelude_encode, prelude_of. cbn [tp_sgr tp_private_modes tp_utf8_charset]. rewrite !observe_app.
  assert (∃ r0, observe (if sr_utf8_charset r then [x1b; x25; x47] else []) recorder_new = r0 ∧ sr_scan r0 = SGround ∧ sr_sgr r0 = [] ∧ sr_private_modes r0 = [] ∧ sr_utf8_charset r0 = sr_utf8_charset r) as (r0 & -> & H1 & H2 & H3 & H4) by (eexists; split; [done|]; by destruct (sr_utf8_charset r)).
  destruct (set_modes_again (sr_private_modes r) [] r0 Hm H1 H3) as (r1 & -> & K1 & K2 & K3 & K4). cbn [app] in K2.
  destruct (sr_sgr r) as [|e es] eqn:Es; [exists r1; split_and!; [done|done|congruence]|]. rewrite observe_app. rewrite <- Es in *.
  assert (observe [x1b; x5b; x30; x6d] r1 = mk_TerminalStateRecorder SGround [] false false [] (sr_private_modes r1) (sr_utf8_charset r1)) as ->.
  { change [x1b; x5b; x30; x6d] with ([x1b; x5b] ++ [x30] ++ [x6d]). by rewrite observe_sgr. }
  set (r2 := mk_TerminalStateRecorder _ _ _ _ _ _ _). destruct (set_all_again (sr_sgr r) [] r2 Hs eq_refl eq_refl) as (r3 & E & L1 & L2 & L3 & L4). exists r3. split; [exact E|]. cbn in L2, L3, L4. split; [done|congruence].
Qed.

(** Two parsers that differ at most in parameters that no longer matter. *)
Definition alike (r r' : TerminalStateRecorder) : Prop :=
  sr_scan r' = sr_scan r ∧ prelude_of r' = prelude_of r ∧
  (sr_scan r = SCsi → sr_params r' = sr_params r ∧ sr_params_overflowed r' = sr_params_overflowed r ∧ sr_private r' = sr_private r).
Lemma observe_byte_alike r r' b : alike r r' → alike (observe_byte r b) (observe_byte r' b).
Proof.
  destruct r as [scan params over private sgr modes charset], r' as [scan' params' over' private' sgr' modes' charset']. unfold alike, prelude_of. cbn [sr_scan sr_params sr_params_overflowed sr_private sr_sgr sr_private_modes sr_utf8_charset].
  intros (-> & [= -> -> ->] & Hc). unfold observe_byte. cbn [sr_scan sr_params sr_params_overflowed sr_private sr_sgr sr_private_modes sr_utf8_charset]. destruct scan; try (destruct (Hc eq_refl) as (-> & -> & ->)); try done.
  - by destruct (is_byte b ESC).
  - by destruct b.
  - destruct (is_byte b ESC); [done|]. by destruct (is_byte b BEL).
  - by destruct (is_byte b x5c).
Qed.
Lemma observe_alike bytes r r' : alike r r' → alike (observe bytes r) (observe bytes r').
Proof. unfold observe. revert r r'. induction bytes as [|b bytes IH]; intros r r' H; [done|]. cbn [foldl]. by apply IH, observe_byte_alike. Qed.

(** ** The size of a prelude *)

Definition GROUPS : list Z := [1; 2; 3; 4; 5; 7; 8; 9; 10; 30; 40; 51; 53; 58; 60; 73].
Lemma sgr_group_known code g : sgr_group code = Some g → g ∈ GROUPS.
Proof.
  intros H. apply list_elem_of_In. unfold sgr_group in H. cbn [GROUPS In]. repeat match type of H with (if ?b then _ else _) = _ => destruct b; [injection H as <-; tauto|] end. done.
Qed.
Lemma entry_group e : entry_ok e → group_of e ∈ Some <$> GROUPS.
Proof. intros [_ (field & rest & Hs & Hc & [g Hg] & _)]. rewrite (group_of_split _ _ _ Hs Hc), Hg. apply list_elem_of_fmap. exists g. split; [done|]. by eapply sgr_group_known. Qed.
Lemma sgr_length sgr : sgr_ok sgr → (length sgr ≤ 16)%nat.
Proof.
  intros [Hf Hs]. assert (NoDup (group_of <$> sgr)) as Hn.
  { clear Hf. induction Hs as [|e es Hs IH He]; cbn; constructor; [|done]. intros (e' & Heq & Hin)%list_elem_of_fmap. rewrite List.Forall_forall in He. destruct (He e' (proj1 (list_elem_of_In _ _) Hin)) as [Hne _]. done. }
  rewrite <- (length_fmap group_of sgr). change 16%nat with (length (Some <$> GROUPS)). apply submseteq_length, NoDup_submseteq; [done|]. intros g (e & -> & He)%list_elem_of_fmap. apply entry_group. rewrite List.Forall_forall in Hf. by apply Hf, list_elem_of_In.
Qed.
Lemma modes_length modes : modes_ok modes → (length modes ≤ 11)%nat.
Proof.
  intros [Hn Hf]. rewrite <- (length_fmap fst modes). change 11%nat with (length TRACKED_PRIVATE_MODES). apply submseteq_length, NoDup_submseteq; [done|]. intros m Hm. rewrite List.Forall_forall in Hf. by apply Hf, list_elem_of_In.
Qed.
Lemma concat_bounded {A} (f : A → list byte) bound l : Forall (λ a, zlen (f a) ≤ bound) l → zlen (concat (f <$> l)) ≤ bound * Z.of_nat (length l).
Proof. induction 1 as [|a l Ha Hl IH]; cbn [fmap list_fmap concat length]; [change (zlen []) with 0; lia|]. rewrite zlen_app. lia. Qed.
Definition PRELUDE_BOUND : Z := 3 + 8 * 11 + 4 + 1027 * 16.
Lemma prelude_bounded r : recorder_ok r → zlen (prelude_encode (prelude_of r)) ≤ PRELUDE_BOUND.
Proof.
  intros [_ Hs Hm]. unfold prelude_encode, prelude_of, PRELUDE_BOUND. cbn [tp_sgr tp_private_modes tp_utf8_charset]. rewrite !zlen_app.
  assert (zlen (if sr_utf8_charset r then [x1b; x25; x47] else []) ≤ 3) by (by destruct (sr_utf8_charset r)).
  pose proof (modes_length _ Hm). assert (Forall (λ me : Z * bool, zlen ([x1b; x5b; x3f] ++ u16_string me.1 ++ [if me.2 : bool then x68 else x6c]) ≤ 8) (sr_private_modes r)) as Hb%concat_bounded.
  { destruct Hm as [_ Hm]. rewrite Forall_fmap in Hm. eapply Forall_impl; [exact Hm|]. intros [m enabled] Ht. destruct (tracked_text m Ht) as (_ & _ & _ & Hl). cbn [fst snd]. rewrite !zlen_app. change (zlen [x1b; x5b; x3f]) with 3. change (zlen [if enabled then x68 else x6c]) with 1. lia. }
  pose proof (sgr_length _ Hs). destruct (sr_sgr r) as [|e es] eqn:E; [change (zlen []) with 0; lia|]. rewrite <- E in *. rewrite zlen_app. change (zlen [x1b; x5b; x30; x6d]) with 4.
  assert (Forall (λ params, zlen ([x1b; x5b] ++ params ++ [x6d]) ≤ 1027) (sr_sgr r)) as Hc%concat_bounded.
  { destruct Hs as [Hf _]. eapply Forall_impl; [exact Hf|]. intros p [[_ Hp] _]. rewrite !zlen_app. change (zlen [x1b; x5b]) with 2. change (zlen [x6d]) with 1. unfold MAX_CSI_PARAMETER_BYTES in Hp. lia. }
  lia.
Qed.

(** ** What is thrown away *)

Inductive HistoryStep : Type := TPush (sequence : Z) (bytes : list byte) | TSeal.
Definition history_step (h : RetainedHistory) (i : HistoryStep) : RetainedHistory := match i with TPush sequence bytes => retained_push sequence bytes h | TSeal => seal h end.
Definition history_run (steps : list HistoryStep) (h : RetainedHistory) : RetainedHistory := foldl history_step h steps.
Definition text_units (units : list VtUnit) : list byte := concat (un_bytes <$> List.filter (λ u, match un_kind u with KText => true | KImage => false end) units).
(** Everything written that is not part of an image, but what the splitter drops. *)
Fixpoint text_written (steps : list HistoryStep) (s : VtUnitSplitter) : list byte :=
  match steps with
  | [] => []
  | TPush sequence bytes :: steps => let '(s, units) := split_push sequence bytes s in text_units units ++ text_written steps s
  | TSeal :: steps => text_written steps s
  end.
Definition text_kept (h : RetainedHistory) : list byte := concat (hr_bytes <$> rh_text h).
Definition evicted_is (evicted written : list byte) (h : RetainedHistory) : Prop := rh_evicted_state h = observe evicted recorder_new ∧ evicted ++ text_kept h = written.
Lemma seal_kept h : text_kept (seal h) = text_kept h.
Proof.
  unfold text_kept, seal, with_texts. cbn [rh_text]. destruct (last (rh_text h)) as [r|] eqn:E; [|unfold update_last; by rewrite E]. destruct (update_last_snoc (λ r, mk_HRecord (hr_order r) (hr_sequence r) (hr_bytes r) false (hr_image_group r)) _ _ E) as (front & -> & ->). by rewrite !fmap_app.
Qed.
Lemma retain_unit_kept h u : text_kept (retain_unit h u) = text_kept h ++ text_units [u] ∧ rh_evicted_state (retain_unit h u) = rh_evicted_state h ∧ rh_splitter (retain_unit h u) = rh_splitter h.
Proof.
  unfold retain_unit, text_units. cbn [List.filter]. destruct (un_kind u); cbn [fmap list_fmap concat]; rewrite ?app_nil_r; [|split; [by rewrite seal_kept|done]]. cbv zeta. split; [|by destruct (match last (rh_text h) with Some _ => _ | None => _ end)].
  destruct (last (rh_text h)) as [r|] eqn:E; [|unfold text_kept; cbn [with_texts rh_text]; rewrite fmap_app, concat_app; cbn; by rewrite app_nil_r].
  destruct (_ && _); unfold text_kept; cbn [with_texts rh_text]; [|rewrite fmap_app, concat_app; cbn; by rewrite app_nil_r].
  destruct (update_last_snoc (λ r, mk_HRecord (hr_order r) (hr_sequence r) (hr_bytes r ++ un_bytes u) (hr_open r) (hr_image_group r)) _ _ E) as (front & -> & ->). rewrite !fmap_app, !concat_app. cbn. by rewrite !app_nil_r, app_assoc.
Qed.
Lemma retain_units_kept units h : text_kept (foldl retain_unit h units) = text_kept h ++ text_units units ∧ rh_evicted_state (foldl retain_unit h units) = rh_evicted_state h ∧ rh_splitter (foldl retain_unit h units) = rh_splitter h.
Proof.
  revert h. induction units as [|u units IH]; intros h; [by rewrite app_nil_r|]. cbn [foldl]. destruct (retain_unit_kept h u) as (H1 & H2 & H3). destruct (IH (retain_unit h u)) as (-> & -> & ->). rewrite H1, <- app_assoc. split_and!; [|done|done].
  f_equal. unfold text_units. cbn [List.filter]. destruct (un_kind u); [|done]. cbn. by rewrite app_nil_r.
Qed.
Lemma evict_text_split budget text bytes state text' bytes' state' : evict_text budget text bytes state = (text', bytes', state') → ∃ gone, text = gone ++ text' ∧ state' = observe (concat (hr_bytes <$> gone)) state.
Proof.
  revert bytes state. induction text as [|r text IH]; intros bytes state; cbn [evict_text]; [intros [= <- <- <-]; by exists []|]. destruct (budget <? bytes); [|intros [= <- <- <-]; by exists []].
  intros (gone & -> & ->)%IH. exists (r :: gone). split; [done|]. cbn [fmap list_fmap concat]. by rewrite observe_app.
Qed.
Lemma push_evicted sequence bytes evicted written h : evicted_is evicted written h →
  ∃ evicted', evicted_is evicted' (written ++ text_units (split_push sequence bytes (rh_splitter h)).2) (retained_push sequence bytes h) ∧ rh_splitter (retained_push sequence bytes h) = (split_push sequence bytes (rh_splitter h)).1.
Proof.
  intros [H1 H2]. unfold retained_push. destruct (split_push sequence bytes (rh_splitter h)) as [s units]. cbn [fst snd]. set (h0 := mk_RetainedHistory _ s _ _ _ _ _). destruct (retain_units_kept units h0) as (K1 & K2 & K3). set (h1 := foldl retain_unit h0 units) in *.
  unfold evict. destruct (evict_text _ _ _ _) as [[text tb] st] eqn:Et. destruct (evict_images _ _ _ _) as [images ib]. apply evict_text_split in Et as (gone & Eg & ->). exists (evicted ++ concat (hr_bytes <$> gone)). split; [|done]. split; cbn [rh_evicted_state].
  - rewrite observe_app, K2. subst h0. cbn [rh_evicted_state]. by rewrite H1.
  - unfold text_kept in *. cbn [rh_text]. rewrite Eg, fmap_app, concat_app in K1. rewrite <- app_assoc, K1, app_assoc, <- H2. done.
Qed.
Lemma run_evicted steps evicted written h : evicted_is evicted written h → ∃ evicted', evicted_is evicted' (written ++ text_written steps (rh_splitter h)) (history_run steps h).
Proof.
  revert evicted written h. induction steps as [|[sequence bytes|] steps IH]; intros evicted written h Hi; cbn [text_written history_run foldl history_step].
  - exists evicted. by rewrite app_nil_r.
  - destruct (push_evicted sequence bytes _ _ _ Hi) as (evicted' & Hi' & Es). destruct (split_push sequence bytes (rh_splitter h)) as [s units]. cbn [fst snd] in *. rewrite app_assoc, <- Es. by eapply IH.
  - apply (IH evicted written (seal h)). destruct Hi as [H1 H2]. split; [done|]. by rewrite seal_kept.
Qed.


(** ** A sequence cut short *)

Definition image (n : nat) : list byte := [x1b; x5f] ++ bytes_of "Ga=T;" ++ replicate n x41 ++ [x1b; x5c].
(** The start of a control sequence, cancelled by an image, then plain text. *)
Definition cancelled : list byte := [x1b; x5b; x33] ++ image 4 ++ bytes_of "1m".

(** A control sequence that an image cancels is kept as text of its own, unfinished: once the image
    is thrown away the text after it is replayed as its end, so that a client sees an attribute nobody
    set and misses text that was written. *)
Theorem cut_sequence_joins :
  let h := history_run [TPush 1 cancelled; TPush 2 (image 85)] (retained_new (from_text_capacity 6)) in
  replay h = [x1b; x5b; x33; x31; x6d] ++ image 85 ∧
  tp_sgr (prelude_of (observe (replay h) recorder_new)) = [bytes_of "31"] ∧
  tp_sgr (prelude_of (observe (cancelled ++ image 85) recorder_new)) = [].
Proof. vm_compute. split_and!; reflexivity. Qed.

(** ** Witnesses *)

Definition colours : list HistoryStep := [TPush 1 ([x1b] ++ bytes_of "[1;38;5;9mred" ++ [x1b] ++ bytes_of "[?25l" ++ [x1b] ++ bytes_of "%G"); TSeal; TPush 2 (bytes_of "some more of it") ; TPush 3 (bytes_of "and the last")].
