(* ===== verification/ReplaySpec.v ===== *)
(** * ReplaySpec: a new client is shown what was written, in order

    What is kept of a terminal's output is kept in pieces: text, sequences and parts of images, some of
    them thrown away in between.  Replayed in the order of their numbers they are what was written
    with bytes left out, never reordered, repeated or made up. *)

From Stdlib Require Import ZArith Lia Strings.Byte Sorting.Sorted.
From stdpp Require Import base option gmap list sorting strings.
From S2P Require Import Prelude VtStream Retained OutputHub OutputHubSpec RetainedSpec RecorderSpec.

#[local] Open Scope Z_scope.

(** ** Pieces in order *)

(** The number of a piece and its bytes. *)
Definition piece : Type := Z * list byte.
Definition laid_out (bound : Z) (laid : list piece) : Prop := StronglySorted Z.lt laid.*1 ∧ Forall (λ k, 0 ≤ k < bound) laid.*1.
Lemma sublist_Forall {A} (P : A → Prop) l k : l `sublist_of` k → Forall P k → Forall P l.
Proof. induction 1 as [|x l k Hs IH|x l k Hs IH]; intros Hk; [done| |]; apply Forall_cons in Hk as [Hx Hk]; [constructor|]; auto. Qed.
Lemma sorted_sublist {A} (R : A → A → Prop) l k : l `sublist_of` k → StronglySorted R k → StronglySorted R l.
Proof.
  induction 1 as [|x l k Hs IH|x l k Hs IH]; intros Hk; [done| |]; apply StronglySorted_inv in Hk as [Hk Hx]; [|by apply IH]. constructor; [by apply IH|]. by eapply sublist_Forall.
Qed.
Lemma laid_sublist bound l k : l `sublist_of` k → laid_out bound k → laid_out bound l.
Proof. intros Hs [H1 H2]. assert (l.*1 `sublist_of` k.*1) as Hk by (by apply fmap_sublist). split; [by eapply sorted_sublist|by eapply sublist_Forall]. Qed.
Lemma laid_later bound bound' l : bound ≤ bound' → laid_out bound l → laid_out bound' l.
Proof. intros Hb [H1 H2]. split; [done|]. eapply Forall_impl; [exact H2|]. cbn. lia. Qed.
Lemma laid_snoc bound o b l : laid_out o l → 0 ≤ o < bound → laid_out bound (l ++ [(o, b)]).
Proof.
  intros [H1 H2] Ho. unfold laid_out. rewrite fmap_app. cbn [fmap list_fmap fst]. split.
  - apply strongly_sorted_snoc; [done|]. eapply Forall_impl; [exact H2|]. cbn. lia.
  - apply Forall_app. split; [eapply Forall_impl; [exact H2|]; cbn; lia|]. by rewrite Forall_singleton.
Qed.
(** Sorting any selection of pieces lays them out as they were. *)
Lemma insert_by_order_perm {A} (x : Z * A) l : insert_by_order x l ≡ₚ x :: l.
Proof. induction l as [|y l IH]; cbn; [done|]. destruct (_ <=? _); [done|]. rewrite IH. constructor. Qed.
Lemma sort_by_order_perm {A} (l : list (Z * A)) : sort_by_order l ≡ₚ l.
Proof. induction l as [|x l IH]; cbn; [done|]. rewrite insert_by_order_perm. by constructor. Qed.
Definition order_le {A} (a b : Z * A) : Prop := a.1 ≤ b.1.
Lemma insert_by_order_sorted {A} (x : Z * A) l : StronglySorted order_le l → StronglySorted order_le (insert_by_order x l).
Proof.
  induction 1 as [|y l Hl IH Hy]; cbn; [by repeat constructor|]. unfold order_le in *. destruct (Z.leb_spec x.1 y.1) as [H|H].
  - constructor; [by constructor|]. constructor; [done|]. eapply Forall_impl; [exact Hy|]. cbn. lia.
  - constructor; [done|]. rewrite insert_by_order_perm. constructor; [lia|done].
Qed.
Lemma sort_by_order_sorted {A} (l : list (Z * A)) : StronglySorted order_le (sort_by_order l).
Proof. induction l as [|x l IH]; cbn; [constructor|]. by apply insert_by_order_sorted. Qed.
Lemma sort_selection bound (l : list piece) laid : laid_out bound laid → l ⊆+ laid → sort_by_order l `sublist_of` laid.
Proof.
  intros Hl (k & Hp & Hs)%submseteq_sublist_r. assert (sort_by_order l = k) as ->; [|done]. destruct (laid_sublist _ _ _ Hs Hl) as [Hk _].
  assert (StronglySorted order_le k) as Hko by (clear -Hk; induction k as [|[o b] k IH]; [constructor|]; cbn in Hk; apply StronglySorted_inv in Hk as [Hk Ho]; constructor; [by apply IH|]; rewrite Forall_fmap in Ho; eapply Forall_impl; [exact Ho|]; unfold order_le; cbn; lia).
  apply (StronglySorted_unique_strong order_le); [|apply sort_by_order_sorted|done|by rewrite sort_by_order_perm].
  intros [o b] [o' b'] H1 H2 Ha Hb. unfold order_le in *. cbn in *. assert (o = o') as <- by lia. rewrite sort_by_order_perm, Hp in H1. clear -Hk H1 H2. induction k as [|[q c] k IH]; [by apply not_elem_of_nil in H1|]. cbn in Hk. apply StronglySorted_inv in Hk as [Hk Hq].
  rewrite List.Forall_forall in Hq. assert (∀ c', (q, c') ∈ k → False) as Hno by (intros c' Hin; specialize (Hq q (proj1 (list_elem_of_In _ _) (list_elem_of_fmap_2 fst _ _ Hin))); lia).
  apply elem_of_cons in H1 as [H1|H1], H2 as [H2|H2]; [congruence| | |by apply IH]; [injection H1 as -> ->|injection H2 as -> ->]; by destruct (Hno _ ltac:(eassumption)).
Qed.
(** Two pieces with consecutive numbers are neighbours, and may become one. *)
Lemma sorted_around k1 o k2 q : StronglySorted Z.lt (k1 ++ o :: k2) → (q ∈ k1 → q < o) ∧ (q ∈ k2 → o < q).
Proof.
  intros Hs. split; intros Hq.
  - induction k1 as [|a k1 IH]; [by apply not_elem_of_nil in Hq|]. cbn in Hs. apply StronglySorted_inv in Hs as [Hs Ha]. apply elem_of_cons in Hq as [->|Hq]; [|by apply IH]. apply Forall_app in Ha as [_ Ha]. by apply Forall_cons in Ha as [Ha _].
  - induction k1 as [|a k1 IH]; cbn in Hs; apply StronglySorted_inv in Hs as [Hs Ha]; [|by apply IH]. rewrite List.Forall_forall in Ha. by apply Ha, list_elem_of_In.
Qed.
Lemma merge_neighbours bound o b b' rest laid : laid_out bound laid → (o, b) :: (o + 1, b') :: rest ⊆+ laid →
  ∃ laid', laid_out bound laid' ∧ concat laid'.*2 = concat laid.*2 ∧ (o, b ++ b') :: rest ⊆+ laid'.
Proof.
  intros Hl Hs. assert ((o, b) ∈ laid ∧ (o + 1, b') ∈ laid) as [Hx Hy] by (split; eapply elem_of_submseteq; try exact Hs; rewrite !elem_of_cons; tauto).
  apply list_elem_of_split in Hx as (l1 & l2 & ->). pose proof Hl as [Hss _]. rewrite fmap_app in Hss. cbn [fmap list_fmap fst] in Hss. pose proof (sorted_around _ _ _ (o + 1) Hss) as [Hlo _].
  apply elem_of_app in Hy as [Hy|Hy]; [apply (list_elem_of_fmap_2 fst) in Hy; specialize (Hlo Hy); cbn in Hlo; lia|]. apply elem_of_cons in Hy as [Hy|Hy]; [injection Hy as Hy _; lia|].
  apply list_elem_of_split in Hy as (l3 & l4 & ->). assert (l3 = []) as ->.
  { destruct l3 as [|[q c] l3]; [done|]. rewrite fmap_app in Hss. cbn [fmap list_fmap fst app] in Hss. pose proof (proj2 (sorted_around _ _ _ q Hss)) as Hq. pose proof (Hq ltac:(rewrite elem_of_cons; by left)). change (l1.*1 ++ o :: q :: (l3.*1 ++ o + 1 :: l4.*1)) with (l1.*1 ++ (o :: q :: l3.*1) ++ o + 1 :: l4.*1) in Hss. rewrite app_assoc in Hss. pose proof (proj1 (sorted_around _ _ _ q Hss) ltac:(rewrite elem_of_app, !elem_of_cons; tauto)). lia. }
  cbn [app] in *. exists (l1 ++ (o, b ++ b') :: l4). split_and!.
  - destruct Hl as [H1 H2]. assert ((l1 ++ (o, b ++ b') :: l4).*1 `sublist_of` (l1 ++ (o, b) :: (o + 1, b') :: l4).*1) as Hsub by (rewrite !fmap_app; cbn [fmap list_fmap fst]; apply sublist_app; [done|]; by repeat constructor).
    split; [by eapply sorted_sublist|by eapply sublist_Forall].
  - rewrite !fmap_app, !concat_app. cbn [fmap list_fmap concat snd]. by rewrite <- app_assoc.
  - apply submseteq_cons_middle. apply (submseteq_app_inv_l _ _ [(o, b); (o + 1, b')]). cbn [app]. rewrite Hs. apply Permutation_submseteq. by rewrite <- !Permutation_middle.
Qed.

(** ** The pieces of the splitter *)

Definition as_piece (order sequence : Z) (bytes : list byte) : piece := (order, bytes).
Definition group_pieces (s : VtUnitSplitter) : list piece := match sp_transmission s with Open => cut_parts (sp_group s) (sp_group_parts s) as_piece | _ => [] end.
Definition unit_pieces (u : VtUnit) : list piece :=
  match un_kind u with
  | KText => [(un_order u, un_bytes u)]
  | KImage => cut_parts (un_bytes u) (match un_parts u with [] => [(0, un_order u, un_sequence u)] | parts => parts end) as_piece
  end.
Definition units_pieces (out : list VtUnit) : list piece := concat (unit_pieces <$> out).
Definition parts_within (len : Z) : list Part → Prop := Forall (λ p, 0 ≤ part_start p ≤ len).
Lemma take_all_zlen {A} (l : list A) : take (Z.to_nat (zlen l)) l = l.
Proof. unfold zlen. rewrite Nat2Z.id. apply firstn_all. Qed.
Lemma cut_parts_snoc group parts bytes o q : parts_within (zlen group) parts →
  cut_parts (group ++ bytes) (parts ++ [(zlen group, o, q)]) as_piece = cut_parts group parts as_piece ++ [(o, bytes)].
Proof.
  intros Hp. induction Hp as [|[[start o'] q'] parts [H0 Hle] Hp IH]; cbn [app cut_parts].
  - unfold as_piece. rewrite zlen_app. replace (zlen group + zlen bytes - zlen group) with (zlen bytes) by lia. unfold zlen at 2. rewrite Nat2Z.id, drop_app_length. by rewrite take_all_zlen.
  - rewrite IH. f_equal. unfold as_piece, part_start in *. cbn [fst] in *. f_equal. rewrite drop_app_le by (unfold zlen in Hle; lia).
    assert (match parts ++ [(zlen group, o, q)] with (next, _, _) :: _ => next | [] => zlen (group ++ bytes) end = match parts with (next, _, _) :: _ => next | [] => zlen group end ∧ match parts with (next, _, _) :: _ => next | [] => zlen group end ≤ zlen group) as [-> Hstop].
    { destruct parts as [|[[next ?] ?] parts]; [split; [done|lia]|]. apply Forall_cons in Hp as [[_ ?] _]. unfold part_start in *. cbn in *. split; [done|lia]. }
    apply take_app_le. rewrite length_drop. unfold zlen in *. lia.
Qed.
Lemma cut_parts_one bytes o q : cut_parts bytes [(0, o, q)] as_piece = [(o, bytes)].
Proof. apply (cut_parts_snoc [] [] bytes o q). constructor. Qed.
Lemma units_pieces_snoc out u : units_pieces (out ++ [u]) = units_pieces out ++ unit_pieces u.
Proof. unfold units_pieces. rewrite fmap_app, concat_app. cbn. by rewrite app_nil_r. Qed.

Definition group_ok (s : VtUnitSplitter) : Prop := sp_transmission s = Open → sp_group_parts s ≠ [] ∧ parts_within (zlen (sp_group s)) (sp_group_parts s).
(** Pieces closed so far, all of them below [o], then [bytes]; what is kept is a selection of them. *)
Record core (n : Z) (K laid : list piece) (input : list byte) (o : Z) (bytes : list byte) (s : VtUnitSplitter) (out : list VtUnit) : Prop := {
  co_laid : laid_out o laid;
  co_order : 0 ≤ o ≤ sp_next_order s ∧ sp_next_order s ≤ n;
  co_bytes : concat laid.*2 ++ bytes `sublist_of` input;
  co_owned : K ++ units_pieces out ++ group_pieces s ⊆+ laid;
  co_parts : group_ok s;
}.
Lemma core_frame n K laid input o bytes s out s' : core n K laid input o bytes s out → sp_next_order s' = sp_next_order s → sp_transmission s' = sp_transmission s → sp_group s' = sp_group s → sp_group_parts s' = sp_group_parts s →
  core n K laid input o bytes s' out.
Proof. intros [H1 H2 H3 H4 H5] E1 E2 E3 E4. split; rewrite ?E1; try done; unfold group_pieces, group_ok in *; by rewrite E2, E3, E4. Qed.
Lemma core_less n K laid input o bytes bytes' s out : core n K laid input o bytes s out → bytes' `sublist_of` bytes → core n K laid input o bytes' s out.
Proof. intros [H1 H2 H3 H4 H5] Hs. split; try done. etrans; [|exact H3]. by apply sublist_app. Qed.
Lemma core_byte n K laid input o bytes s out b : core n K laid input o bytes s out → core n K laid (input ++ [b]) o (bytes ++ [b]) s out.
Proof. intros [H1 H2 H3 H4 H5]. split; try done. rewrite app_assoc. by apply sublist_app. Qed.
Lemma core_order n n' K laid input o o' bytes s out : core n K laid input o bytes s out → n ≤ n' → o ≤ o' ≤ sp_next_order s → core n' K laid input o' bytes s out.
Proof. intros [H1 H2 H3 H4 H5] Hn Ho. split; try done; [|lia]. eapply laid_later; [|exact H1]. lia. Qed.
(** A number is given out. *)
Lemma core_allocate n K laid input o bytes s out : core n K laid input o bytes s out → n + 1 ≤ u64_max →
  core (n + 1) K laid input o bytes (allocate s).2 out ∧ mk_order (allocate s).1 = sp_next_order s ∧ sp_next_order (allocate s).2 = sp_next_order s + 1.
Proof. intros [H1 H2 H3 H4 H5] Hn. cbn. rewrite add64_id by lia. split; [|done]. split; [done| |done|exact H4|exact H5]. cbn. lia. Qed.
(** The bytes under way become a piece, kept as a selection of what follows. *)
Lemma core_close n K laid input o bytes rest s out s' out' : core n K laid input o (bytes ++ rest) s out → o < sp_next_order s → sp_next_order s' = sp_next_order s →
  units_pieces out' ++ group_pieces s' ⊆+ (units_pieces out ++ group_pieces s) ++ [(o, bytes)] → group_ok s' →
  core n K (laid ++ [(o, bytes)]) input (sp_next_order s') rest s' out'.
Proof.
  intros [H1 H2 H3 H4 H5] Ho En Hs Hp. split; try done; rewrite ?En.
  - apply laid_snoc; [done|lia].
  - lia.
  - rewrite fmap_app, concat_app. cbn. by rewrite app_nil_r, <- app_assoc.
  - etrans; [apply submseteq_skips_l, Hs|]. rewrite app_assoc. by apply submseteq_skips_r.
Qed.

(** ** Text *)

Definition no_text (s : VtUnitSplitter) : Prop := sp_text s = [] ∧ sp_text_mark s = None.
Definition text_ok (s : VtUnitSplitter) : Prop := no_text s ∨ (sp_text s ≠ [] ∧ ∃ m, sp_text_mark s = Some m ∧ 0 ≤ mk_order m < sp_next_order s).
Definition text_order (s : VtUnitSplitter) : Z := match sp_text_mark s with Some m => mk_order m | None => sp_next_order s end.
Lemma push_text_core n K laid input bytes s out b : text_ok s → core n K laid input (text_order s) bytes s out → n + 1 ≤ u64_max →
  let s' := push_text b s in core (n + 1) K laid input (text_order s') bytes s' out ∧ text_ok s' ∧ sp_text s' = sp_text s ++ [b] ∧ sp_scan s' = sp_scan s ∧ sp_string_mark s' = sp_string_mark s ∧ sp_string s' = sp_string s.
Proof.
  intros [[Ht Hm]|[Ht (m & Hm & Ho)]] Hc Hn; unfold push_text; cbv zeta.
  - rewrite Ht. unfold text_order in Hc. rewrite Hm in Hc. destruct (core_allocate _ _ _ _ _ _ _ _ Hc Hn) as (Hc' & H1 & H2). destruct (allocate s) as [mk s1] eqn:Ea. cbn [fst snd] in *.
    assert (sp_text s1 = [] ∧ sp_scan s1 = sp_scan s ∧ sp_string_mark s1 = sp_string_mark s ∧ sp_string s1 = sp_string s) as (E1 & E2 & E3 & E4) by (injection Ea as _ <-; done).
    cbn. rewrite E1, E2, E3, E4. destruct Hc as [_ Hord _ _ _]. split_and!; try done.
    + unfold text_order. cbn. rewrite H1. eapply core_frame; [exact Hc'|done..].
    + right. cbn. split; [done|]. exists mk. split; [done|]. rewrite H1, H2. lia.
  - destruct (sp_text s) as [|c t] eqn:Et; [done|]. rewrite Et. cbn. split_and!; try done.
    + unfold text_order in *. cbn. eapply core_order; [eapply core_frame; [exact Hc|done..]|lia|]. cbn. rewrite Hm. lia.
    + right. cbn. split; [done|]. by exists m.
Qed.
Lemma emit_piece kind bytes m s out s' out' : bytes ≠ [] → emit kind bytes (Some m) false s out = (s', out') → s' = s ∧ units_pieces out' = units_pieces out ++ [(mk_order m, bytes)].
Proof.
  intros Hb. unfold emit. rewrite bool_decide_false by done. cbn [orb]. intros [= <- <-]. split; [done|]. rewrite units_pieces_snoc. f_equal. unfold unit_pieces. cbn. destruct kind; [done|]. apply cut_parts_one.
Qed.
Lemma owned_snoc (U G : list piece) p : (U ++ [p]) ++ G ⊆+ (U ++ G) ++ [p].
Proof. apply Permutation_submseteq. rewrite <- !app_assoc. f_equiv. by rewrite Permutation_app_comm. Qed.
Lemma flush_text_core n K laid input rest s out s' out' : text_ok s → core n K laid input (text_order s) (sp_text s ++ rest) s out → flush_text s out = (s', out') →
  ∃ laid', core n K laid' input (sp_next_order s') rest s' out' ∧ no_text s' ∧ sp_scan s' = sp_scan s ∧ sp_next_order s' = sp_next_order s.
Proof.
  intros [[Ht Hm]|[Ht (m & Hm & Ho)]] Hc; unfold flush_text.
  - rewrite Ht. intros [= <- <-]. exists laid. unfold text_order in Hc. rewrite Ht, Hm in Hc. by split_and!.
  - unfold text_order in Hc. rewrite Hm in Hc |- *. destruct (sp_text s) as [|c t] eqn:Et; [done|]. intros E. apply emit_piece in E as [-> Hu]; [|done]. exists (laid ++ [(mk_order m, c :: t)]). split_and!; [|done|done|done].
    eapply core_close; [exact Hc|lia|done| |apply Hc]. rewrite Hu. apply owned_snoc.
Qed.
Lemma flush_large_core n K laid input s out s' out' : text_ok s → sp_scan s = Ground → core n K laid input (text_order s) (sp_text s) s out → flush_text_when_large s out = (s', out') →
  ∃ laid', core n K laid' input (text_order s') (sp_text s') s' out' ∧ text_ok s' ∧ sp_scan s' = Ground.
Proof.
  intros Ht Hs Hc. unfold flush_text_when_large. destruct (_ <=? _); [|intros [= <- <-]; by exists laid]. intros E. rewrite <- (app_nil_r (sp_text s)) in Hc. destruct (flush_text_core _ _ _ _ _ _ _ _ _ Ht Hc E) as (laid' & H1 & [H2 H3] & H4 & _). exists laid'.
  unfold text_order. rewrite H2, H3. split_and!; [done|by left|congruence].
Qed.
Lemma begin_string_core n K laid input bytes s out b : no_text s → core n K laid input (sp_next_order s) bytes s out → n + 1 ≤ u64_max →
  let s' := begin_string b s in ∃ m, core (n + 1) K laid input (mk_order m) bytes s' out ∧ no_text s' ∧ sp_scan s' = InString ∧ sp_string s' = [x1b; b] ∧ sp_string_mark s' = Some m ∧ 0 ≤ mk_order m < sp_next_order s'.
Proof.
  intros Ht Hc Hn. unfold begin_string. set (s0 := set_string _ _). assert (core n K laid input (sp_next_order s0) bytes s0 out) as Hc0 by (eapply core_frame; [exact Hc|done..]). destruct (core_allocate _ _ _ _ _ _ _ _ Hc0 Hn) as (Hc' & H1 & H2). pose proof (co_order _ _ _ _ _ _ _ _ Hc0) as Hord.
  assert (no_text (allocate s0).2 ∧ sp_string (allocate s0).2 = [x1b; b]) as [H3 H4] by done. destruct (allocate s0) as [m s1]. cbn [fst snd] in *. exists m. cbn. split_and!; try done; [|lia..]. rewrite H1. eapply core_frame; [exact Hc'|done..].
Qed.

(** ** Strings and images *)

Definition marked (m : Mark) (s : VtUnitSplitter) : Prop := sp_string_mark s = Some m ∧ 0 ≤ mk_order m < sp_next_order s.
Lemma push_string_core n K laid input m s out b : no_text s → marked m s → core n K laid input (mk_order m) (sp_string s ++ [b]) s out →
  let s' := push_string b s in no_text s' ∧ marked m s' ∧ sp_scan s' = sp_scan s ∧ sp_string s' ++ (if sp_poisoned s' then [b] else []) `sublist_of` sp_string s ++ [b] ∧
  (∃ pre, sp_string s' ++ (if sp_poisoned s' then [b] else []) = pre ++ [b]) ∧ core n K laid input (mk_order m) (sp_string s' ++ (if sp_poisoned s' then [b] else [])) s' out.
Proof.
  intros Ht Hm Hc. unfold push_string. cbv zeta. assert (∀ s', sp_next_order s' = sp_next_order s → sp_transmission s' = sp_transmission s → sp_group s' = sp_group s → sp_group_parts s' = sp_group_parts s → no_text s' → marked m s' → sp_scan s' = sp_scan s → ∀ bytes, bytes `sublist_of` sp_string s ++ [b] → (∃ pre, bytes = pre ++ [b]) →
    no_text s' ∧ marked m s' ∧ sp_scan s' = sp_scan s ∧ bytes `sublist_of` sp_string s ++ [b] ∧ (∃ pre, bytes = pre ++ [b]) ∧ core n K laid input (mk_order m) bytes s' out) as Hend.
  { intros s' ? ? ? ? ? ? ? bytes Hb Hp. split_and!; try done. eapply core_frame; [by eapply core_less|done..]. }
  destruct (sp_poisoned s) eqn:Ep; [rewrite Ep; apply Hend; by eauto|]. destruct (_ <=? _).
  - match goal with |- no_text ?s' ∧ _ => apply (Hend s' eq_refl eq_refl eq_refl eq_refl Ht Hm eq_refl) end; cbn; [|by eexists]. apply sublist_app; [apply sublist_take|done].
  - apply (Hend (set_string (sp_string s ++ [b]) s) eq_refl eq_refl eq_refl eq_refl Ht Hm eq_refl); cbn; rewrite Ep, app_nil_r; [done|by eexists].
Qed.
Lemma close_group_core n K laid input o bytes s out s' out' : core n K laid input o bytes s out → n + 1 ≤ u64_max → sp_transmission s ≠ Idle → close_group s out = (s', out') →
  core (n + 1) K laid input o bytes s' out' ∧ sp_text s' = sp_text s ∧ sp_text_mark s' = sp_text_mark s ∧ sp_scan s' = sp_scan s.
Proof.
  intros Hc Hn Hne. unfold close_group. cbv zeta. set (s0 := set_transmission Idle _). pose proof Hc as [H1 H2 H3 H4 H5].
  assert (core n K laid input o bytes s0 out) as Hc0 by (split; try done; etrans; [|exact H4]; do 2 apply submseteq_skips_l; apply submseteq_nil_l).
  assert (core (n + 1) K laid input o bytes s0 out) as Hc1 by (eapply core_order; [exact Hc0|lia|pose proof (co_order _ _ _ _ _ _ _ _ Hc0); lia]).
  destruct (sp_transmission s) eqn:Et; [done| |by intros [= <- <-]]. cbn [orb]. case_bool_decide as Hg; [by intros [= <- <-]|].
  assert (∀ s1 order sequence, core (n + 1) K laid input o bytes s1 out → sp_transmission s1 = Idle → core (n + 1) K laid input o bytes s1 (out ++ [mk_VtUnit KImage (sp_group s) order sequence (sp_group_parts s)])) as Hend.
  { intros s1 order sequence [K1 K2 K3 K4 K5] Ei. split; try done. rewrite units_pieces_snoc. unfold group_pieces in H4 |- *. rewrite Ei, app_nil_r. rewrite Et in H4. destruct (H5 Et) as [Hp _]. unfold unit_pieces. cbn. by destruct (sp_group_parts s). }
  unfold emit. rewrite bool_decide_false by done. cbn [orb]. destruct (sp_group_mark s) as [m|].
  - intros [= <- <-]. rewrite set_last_parts_snoc. split_and!; try done. by apply Hend.
  - destruct (core_allocate _ _ _ _ _ _ _ _ Hc0 Hn) as (Hc2 & _ & _). destruct (allocate s0) as [m s1] eqn:Ea. cbn [fst snd] in Hc2. intros [= <- <-]. rewrite set_last_parts_snoc. injection Ea as _ Es. cbn [un_kind un_bytes un_order un_sequence]. split_and!; [|by subst s1..]. apply Hend; [done|by subst s1].
Qed.
(** After a string: nothing is under way. *)
Definition idle_after (n : Z) (K : list piece) (input : list byte) (s : VtUnitSplitter) (out : list VtUnit) : Prop :=
  no_text s ∧ sp_scan s = Ground ∧ ∃ laid, core n K laid input (sp_next_order s) [] s out.
Lemma idle_drop n n' K laid input o bytes s out : core n K laid input o bytes s out → n ≤ n' → no_text s → sp_scan s = Ground → idle_after n' K input s out.
Proof.
  intros Hc Hn Ht Hs. split_and!; [done|done|]. exists laid. pose proof (co_order _ _ _ _ _ _ _ _ Hc). eapply core_order; [eapply core_less; [exact Hc|apply sublist_nil_l]|done|lia].
Qed.
Lemma idle_close n n' K laid input m bytes s out s' out' : core n K laid input (mk_order m) bytes s out → mk_order m < sp_next_order s → n ≤ n' → no_text s' → sp_scan s' = Ground → sp_next_order s' = sp_next_order s →
  units_pieces out' ++ group_pieces s' ⊆+ (units_pieces out ++ group_pieces s) ++ [(mk_order m, bytes)] → group_ok s' → idle_after n' K input s' out'.
Proof.
  intros Hc Ho Hn Ht Hs En Hu Hg. split_and!; [done|done|]. exists (laid ++ [(mk_order m, bytes)]). rewrite <- (app_nil_r bytes) in Hc. pose proof (core_close _ _ _ _ _ _ _ _ _ _ _ Hc Ho En Hu Hg) as Hc'. pose proof (co_order _ _ _ _ _ _ _ _ Hc'). eapply core_order; [exact Hc'|done|lia].
Qed.
(** A part joins the image under way, or the image is given up. *)
Lemma extend_pieces m bytes dropped s : sp_transmission s = Open → group_ok s →
  let s' := extend_group bytes dropped (add_part (Some m) s) in
  sp_transmission s' ≠ Idle ∧ sp_next_order s' = sp_next_order s ∧ sp_text s' = sp_text s ∧ sp_text_mark s' = sp_text_mark s ∧ sp_scan s' = sp_scan s ∧ group_ok s' ∧
  (group_pieces s' = [] ∨ (dropped = false ∧ group_pieces s' = group_pieces s ++ [(mk_order m, bytes)])).
Proof.
  intros Ho Hg. specialize (Hg Ho) as [Hne Hp]. unfold extend_group. cbn. rewrite Ho. destruct dropped; cbn [orb]; [|destruct (_ <? _)]; cbn; split_and!; try done; try (by left); try (intros He; discriminate He); rewrite ?Ho; try done.
  - intros _. cbn. split; [by destruct (sp_group_parts s)|]. pose proof (zlen_nonneg bytes). pose proof (zlen_nonneg (sp_group s)). rewrite zlen_app. apply Forall_app. split; [|rewrite Forall_singleton; unfold part_start; cbn; lia]. eapply Forall_impl; [exact Hp|]. cbn. lia.
  - right. split; [done|]. unfold group_pieces. cbn. rewrite Ho. by apply cut_parts_snoc.
Qed.
Lemma extend_core n K laid input m bytes string dropped s out : core n K laid input (mk_order m) bytes s out → mk_order m < sp_next_order s → sp_transmission s = Open → (dropped = false → bytes = string) →
  let s' := extend_group string dropped (add_part (Some m) s) in
  sp_transmission s' ≠ Idle ∧ sp_text s' = sp_text s ∧ sp_text_mark s' = sp_text_mark s ∧ sp_scan s' = sp_scan s ∧ ∃ laid', core n K laid' input (sp_next_order s') [] s' out.
Proof.
  intros Hc Ho Et Hb. destruct (extend_pieces m string dropped s Et (co_parts _ _ _ _ _ _ _ _ Hc)) as (E1 & E2 & E3 & E4 & E5 & E6 & E7). cbv zeta. set (s' := extend_group string dropped (add_part (Some m) s)) in *. clearbody s'. split_and!; try done. destruct E7 as [E7|[E7 E8]].
  - exists laid. pose proof Hc as [H1 H2 H3 H4 H5]. split; [eapply laid_later; [|exact H1]; lia|lia| |rewrite E7; etrans; [|exact H4]; do 2 apply submseteq_skips_l; apply submseteq_nil_l|done]. etrans; [|exact H3]. apply sublist_app; [done|apply sublist_nil_l].
  - rewrite (Hb E7) in Hc. rewrite <- (app_nil_r string) in Hc. exists (laid ++ [(mk_order m, string)]). eapply core_close; [exact Hc|done|done| |done]. by rewrite E8, app_assoc.
Qed.
Lemma finish_string_core n K laid input m bytes s out s' out' : no_text s → marked m s → (sp_poisoned s = false → bytes = sp_string s) → core n K laid input (mk_order m) bytes s out → n + 1 ≤ u64_max →
  finish_string s out = (s', out') → idle_after (n + 1) K input s' out'.
Proof.
  intros Ht [Hm Ho] Hb Hc Hn. unfold finish_string. cbv zeta. rewrite Hm. set (s0 := set_scan Ground _). assert (core n K laid input (mk_order m) bytes s0 out) as Hc0 by (eapply core_frame; [exact Hc|done..]).
  case_bool_decide as Hs; [intros [= <- <-]; eapply idle_drop; [exact Hc0|lia|done|done]|]. set (role := match sp_discarded_role s0 with Some role => role | None => _ end). clearbody role. set (s1 := set_discarded_role None s0).
  assert (core n K laid input (mk_order m) bytes s1 out) as Hc1 by (eapply core_frame; [exact Hc0|done..]). assert (no_text s1 ∧ sp_scan s1 = Ground ∧ sp_next_order s1 = sp_next_order s) as (Ht1 & Hs1 & Hn1) by done.
  assert (∀ s2, core n K laid input (mk_order m) bytes s2 out → no_text s2 → sp_scan s2 = Ground → (s2, out) = (s', out') → idle_after (n + 1) K input s' out') as Hdrop by (intros s2 ? ? ? [= <- <-]; eapply idle_drop; [done|lia|done|done]).
  assert (emit (sp_kind s1) (sp_string s) (Some m) (sp_poisoned s) s1 out = (s', out') → idle_after (n + 1) K input s' out') as Hemit.
  { destruct (sp_poisoned s) eqn:Ep; [by apply Hdrop|]. intros E. apply emit_piece in E as [-> Hu]; [|done]. eapply idle_close; [exact Hc1|lia|lia|done|done|done| |apply Hc1]. rewrite Hu, (Hb eq_refl). apply owned_snoc. }
  clearbody s1. clear Hc0 Hc. destruct (sp_transmission s1) eqn:Et; destruct role; try exact Hemit; try (by apply Hdrop).
  - assert (group_pieces s1 = []) as Hg0 by (unfold group_pieces; by rewrite Et). destruct (sp_poisoned s) eqn:Ep; intros [= <- <-].
    + eapply idle_drop; [|by apply Z.le_succ_diag_r|done|done]. destruct Hc1 as [H1 H2 H3 H4 H5]. split; try done. unfold group_pieces at 1. cbn. by rewrite Hg0 in H4.
    + eapply idle_close; [exact Hc1|lia|lia|done|done|done| |].
      * rewrite Hg0, app_nil_r. apply submseteq_skips_l. unfold group_pieces. cbn [sp_transmission sp_group sp_group_parts set_group set_transmission set_group_parts set_group_mark]. rewrite (Hb eq_refl). by rewrite cut_parts_one.
      * intros _. cbn. split; [done|]. unfold parts_within. rewrite Forall_singleton. unfold part_start. cbn. split; [done|apply zlen_nonneg].
  - destruct (extend_core _ _ _ _ _ _ (sp_string s) (sp_poisoned s) _ _ Hc1 ltac:(lia) Et Hb) as (_ & E1 & E2 & E3 & laid' & Hc'). intros [= <- <-]. destruct Ht1. eapply idle_drop; [exact Hc'|lia|split; etrans; eassumption|by etrans].
  - destruct (extend_core _ _ _ _ _ _ (sp_string s) (sp_poisoned s) _ _ Hc1 ltac:(lia) Et Hb) as (_ & E1 & E2 & E3 & laid' & Hc'). intros [= <- <-]. destruct Ht1. eapply idle_drop; [exact Hc'|lia|split; etrans; eassumption|by etrans].
  - destruct (extend_core _ _ _ _ _ _ (sp_string s) (sp_poisoned s) _ _ Hc1 ltac:(lia) Et Hb) as (Hne & E1 & E2 & E3 & laid' & Hc'). intros E. destruct (close_group_core _ _ _ _ _ _ _ _ _ _ Hc' Hn Hne E) as (Hc2 & F1 & F2 & F3). destruct Ht1. eapply idle_drop; [exact Hc2|lia|split; [rewrite F1|rewrite F2]; etrans; eassumption|rewrite F3; by etrans].
  - intros [= <- <-]. eapply idle_drop; [|by apply Z.le_succ_diag_r|done|done]. destruct Hc1 as [H1 H2 H3 H4 H5]. split; try done. unfold group_pieces in H4 |- *. cbn. by rewrite Et in H4.
Qed.

(** ** A byte *)

Definition at_text (n : Z) (K : list piece) (input : list byte) (rest : list byte) (s : VtUnitSplitter) (out : list VtUnit) : Prop :=
  text_ok s ∧ ∃ laid, core n K laid input (text_order s) (sp_text s ++ rest) s out.
Definition string_bytes (s : VtUnitSplitter) : list byte := sp_string s ++ match sp_scan s with StringEscape => if sp_poisoned s then [ESC] else [] | _ => [] end.
Definition at_string (n : Z) (K : list piece) (input : list byte) (s : VtUnitSplitter) (out : list VtUnit) : Prop :=
  no_text s ∧ ∃ m laid, marked m s ∧ core n K laid input (mk_order m) (string_bytes s) s out.
Definition flow (n : Z) (K : list piece) (input : list byte) (s : VtUnitSplitter) (out : list VtUnit) : Prop :=
  match sp_scan s with
  | Ground => at_text n K input [] s out
  | Escape => at_text n K input [] s out ∧ ∃ pre, sp_text s = pre ++ [ESC]
  | Csi => at_text n K input [] s out ∧ ∃ pre par, sp_text s = pre ++ [ESC; x5b] ++ par ∧ sp_csi_start s = zlen pre
  | CsiDiscard => at_text n K input [ESC; x5b] s out
  | InString => at_string n K input s out
  | StringEscape => at_string n K input s out ∧ ∃ pre, string_bytes s = pre ++ [ESC]
  end.
Lemma at_text_later n n' K input rest s out : at_text n K input rest s out → n ≤ n' → at_text n' K input rest s out.
Proof. intros [Ht (laid & Hc)] Hn. split; [done|]. exists laid. pose proof (co_order _ _ _ _ _ _ _ _ Hc). eapply core_order; [exact Hc|done|lia]. Qed.
Lemma idle_at_text n K input s out : idle_after n K input s out → flow n K input s out.
Proof. intros ([Ht Hm] & Hs & laid & Hc). unfold flow. rewrite Hs. split; [by left|]. exists laid. unfold text_order. by rewrite Ht, Hm. Qed.
Lemma push_text_at n K input b rest s out scan : at_text n K input (b :: rest) s out → n + 1 ≤ u64_max → let s' := set_scan scan (push_text b s) in at_text (n + 1) K input rest s' out ∧ sp_text s' = sp_text s ++ [b].
Proof.
  intros [Ht (laid & Hc)] Hn. destruct (push_text_core _ _ _ _ _ _ _ b Ht Hc Hn) as (Hc' & Ht' & E & _ & _). cbv zeta. set (s1 := push_text b s) in *. clearbody s1. split; [|exact E]. split; [exact Ht'|]. exists laid. change (sp_text (set_scan scan s1)) with (sp_text s1). rewrite E, <- app_assoc. by eapply core_frame.
Qed.
Lemma escape_byte_flow n K input b pre s out s' out' : at_text n K input [b] s out → sp_scan s = Escape → sp_text s = pre ++ [ESC] → n + 1 ≤ u64_max → escape_byte b s out = (s', out') → flow (n + 1) K input s' out'.
Proof.
  intros Hat Hs Hpre Hn. unfold escape_byte.
  assert ((push_text b s, out) = (s', out') → b = ESC → flow (n + 1) K input s' out') as H1.
  { intros [= <- <-] ->. destruct (push_text_at _ _ _ _ _ _ _ Escape Hat Hn) as [Ha E]. assert (set_scan Escape (push_text ESC s) = push_text ESC s) as Es by (unfold push_text; rewrite <- Hs; destruct s as [? []]; reflexivity). rewrite Es in Ha, E. unfold flow. assert (sp_scan (push_text ESC s) = Escape) as -> by (by rewrite <- Es). split; [done|]. by eexists. }
  assert ((let '(s, out) := flush_text (pop_text s) out in (begin_string b s, out)) = (s', out') → flow (n + 1) K input s' out') as H2.
  { destruct Hat as [Ht (laid & Hc)]. assert (text_ok (pop_text s) ∧ core n K laid input (text_order (pop_text s)) (sp_text (pop_text s) ++ [ESC; b]) (pop_text s) out) as [Hp Hcp].
    { unfold pop_text. cbn [sp_text set_text]. rewrite Hpre, length_app. cbn [length]. replace (length pre + 1 - 1)%nat with (length pre) by lia. rewrite take_app_length. rewrite Hpre, <- app_assoc in Hc. cbn [app] in Hc. pose proof (co_order _ _ _ _ _ _ _ _ Hc) as Hord.
      destruct Ht as [[Ht _]|[_ (m & Hm & Ho)]]; [rewrite Hpre in Ht; by destruct pre|]. unfold text_order in Hc. rewrite Hm in Hc. destruct pre as [|c pre].
      - split; [by left|]. eapply core_order; [eapply core_frame; [exact Hc|done..]|done|]. unfold text_order. cbn. lia.
      - split; [right; split; [done|]; by exists m|]. unfold text_order. cbn [sp_text_mark set_text]. rewrite Hm. eapply core_frame; [exact Hc|done..]. }
    destruct (flush_text (pop_text s) out) as [s1 out1] eqn:Ef. destruct (flush_text_core _ _ _ _ _ _ _ _ _ Hp Hcp Ef) as (laid' & Hc1 & Hn1 & _ & _). destruct (begin_string_core _ _ _ _ _ _ _ b Hn1 Hc1 Hn) as (m & Hc2 & F1 & F2 & F3 & F4 & F5).
    intros [= <- <-]. unfold flow. rewrite F2. split; [done|]. exists m, laid'. split; [done|]. unfold string_bytes. rewrite F2, F3, app_nil_r. exact Hc2. }
  assert (flush_text_when_large (set_scan Ground (push_text b s)) out = (s', out') → flow (n + 1) K input s' out') as H3.
  { destruct (push_text_at _ _ _ _ _ _ _ Ground Hat Hn) as [[Ht (laid & Hc)] E]. rewrite app_nil_r in Hc. intros Ef. destruct (flush_large_core _ _ _ _ _ _ _ _ Ht eq_refl Hc Ef) as (laid' & Hc' & Ht' & Hs'). unfold flow. rewrite Hs'. split; [done|]. exists laid'. by rewrite app_nil_r. }
  assert ((let s := push_text b s in (set_scan Csi (set_csi_start (sat_sub (zlen (sp_text s)) 2) s), out)) = (s', out') → b = x5b → flow (n + 1) K input s' out') as H4.
  { cbv zeta. intros Heq ->. assert (s' = set_scan Csi (set_csi_start (sat_sub (zlen (sp_text (push_text x5b s))) 2) (push_text x5b s)) ∧ out' = out) as [-> ->] by (by injection Heq). clear Heq. destruct (push_text_at _ _ _ _ _ _ _ Csi Hat Hn) as [[Ht (laid & Hc)] E]. set (s1 := push_text x5b s) in *. clearbody s1. unfold flow. cbn [sp_scan set_scan]. split.
    - split; [exact Ht|]. exists laid. eapply core_frame; [exact Hc|done..].
    - exists pre, []. change (sp_text (set_scan Csi s1)) with (sp_text s1) in E. cbn [sp_text set_scan set_csi_start sp_csi_start]. rewrite E, Hpre. split; [by rewrite <- app_assoc|]. unfold sat_sub, zlen. rewrite !length_app. cbn [length]. lia. }
  destruct b; first [exact H3|exact H2|intros E; apply H1; [exact E|reflexivity]|intros E; apply H4; [exact E|reflexivity]].
Qed.
Lemma at_text_byte n K input rest s out b : at_text n K input rest s out → at_text n K (input ++ [b]) (rest ++ [b]) s out.
Proof. intros [Ht (laid & Hc)]. split; [done|]. exists laid. rewrite app_assoc. by apply core_byte. Qed.
Lemma at_text_less n K input rest rest' s out : at_text n K input rest s out → rest' `sublist_of` rest → at_text n K input rest' s out.
Proof. intros [Ht (laid & Hc)] Hr. split; [done|]. exists laid. eapply core_less; [exact Hc|]. by apply sublist_app. Qed.
Lemma at_text_scan n K input rest s out scan : at_text n K input rest s out → at_text n K input rest (set_scan scan s) out.
Proof. intros [Ht (laid & Hc)]. split; [exact Ht|]. exists laid. by eapply core_frame. Qed.
Lemma push_text_scan b s : push_text b s = set_scan (sp_scan s) (push_text b s).
Proof. unfold push_text. destruct s as [? []]; reflexivity. Qed.
Lemma classify_frame s : sp_scan (classify s) = sp_scan s ∧ sp_string (classify s) = sp_string s ∧ sp_string_mark (classify s) = sp_string_mark s ∧ sp_text (classify s) = sp_text s ∧ sp_text_mark (classify s) = sp_text_mark s ∧
  sp_next_order (classify s) = sp_next_order s ∧ sp_transmission (classify s) = sp_transmission s ∧ sp_group (classify s) = sp_group s ∧ sp_group_parts (classify s) = sp_group_parts s.
Proof. unfold classify. destruct (sp_classified s); [done|]. cbv zeta. repeat (case_match; try done). Qed.
(** A control sequence that is too long is dropped, but for its introducer. *)
Lemma discard_flow n K input pre par s out : at_text n K input [] s out → sp_text s = pre ++ [ESC; x5b] ++ par → sp_csi_start s = zlen pre →
  let s' := set_text (take (Z.to_nat (sp_csi_start s)) (sp_text s)) s in
  flow n K input (set_scan CsiDiscard (match sp_text s' with [] => set_text_mark None s' | _ => s' end)) out.
Proof.
  intros [Ht (laid & Hc)] Et Ec. rewrite Ec, Et. unfold zlen. rewrite Nat2Z.id, take_app_length. cbv zeta. rewrite Et, app_nil_r in Hc. assert (pre ++ [ESC; x5b] `sublist_of` pre ++ [ESC; x5b] ++ par) as Hsub by (apply sublist_app; [done|]; by apply sublist_inserts_r).
  pose proof (core_less _ _ _ _ _ _ _ _ _ Hc Hsub) as Hc'. pose proof (co_order _ _ _ _ _ _ _ _ Hc') as Hord. destruct Ht as [[Ht _]|[_ (m & Hm & Ho)]]; [rewrite Et in Ht; by destruct pre|]. unfold text_order in Hc', Hord. rewrite Hm in Hc', Hord. destruct pre as [|c pre]; cbn [sp_text set_text].
  - split; [by left|]. exists laid. eapply core_order; [eapply core_frame; [exact Hc'|done..]|done|]. unfold text_order. cbn. lia.
  - split; [right; split; [done|]; by exists m|]. exists laid. unfold text_order. cbn [sp_text_mark set_text set_scan]. rewrite Hm. eapply core_frame; [exact Hc'|done..].
Qed.
Lemma at_string_byte n K input s out b : at_string n K input s out → no_text s ∧ ∃ m laid, marked m s ∧ core n K laid (input ++ [b]) (mk_order m) (string_bytes s ++ [b]) s out.
Proof. intros (Ht & m & laid & Hm & Hc). split; [done|]. exists m, laid. split; [done|]. by apply core_byte. Qed.
Lemma string_byte_flow n K input b s out s' out' : at_string n K input s out → sp_scan s = InString → n + 1 ≤ u64_max → push_byte b s out = (s', out') → flow (n + 1) K (input ++ [b]) s' out'.
Proof.
  intros Hat Es Hn. unfold push_byte. rewrite Es. apply (at_string_byte _ _ _ _ _ b) in Hat as (Ht & m & laid & Hm & Hc). unfold string_bytes in Hc. rewrite Es, app_nil_r in Hc. destruct (push_string_core _ _ _ _ _ _ _ b Ht Hm Hc) as (Ht1 & Hm1 & Es1 & _ & Hend & Hc1). rewrite Es in Es1.
  set (s1 := push_string b s) in *. clearbody s1. pose proof (co_order _ _ _ _ _ _ _ _ Hc1) as Hord. assert (core (n + 1) K laid (input ++ [b]) (mk_order m) (sp_string s1 ++ (if sp_poisoned s1 then [b] else [])) s1 out) as Hc2 by (eapply core_order; [exact Hc1|lia|lia]).
  unfold is_byte at 1. case_bool_decide as Hb; [|destruct (_ && _)].
  - subst b. intros [= <- <-]. unfold flow. cbn [sp_scan set_scan]. split; [|exact Hend]. split; [done|]. exists m, laid. split; [done|]. by eapply core_frame.
  - intros E. apply idle_at_text. eapply finish_string_core; [exact Ht1|exact Hm1| |exact Hc1|done|exact E]. intros ->. by rewrite app_nil_r.
  - intros [= <- <-]. destruct (classify_frame s1) as (F1 & F2 & F3 & F4 & F5 & F6 & F7 & F8 & F9). unfold flow. rewrite F1, Es1. destruct Ht1 as [? ?], Hm1 as [? ?]. split; [split; congruence|]. exists m, laid. split; [split; [congruence|by rewrite F6]|]. unfold string_bytes. rewrite F1, Es1, F2, app_nil_r. eapply core_less; [by eapply core_frame|]. by apply sublist_inserts_r.
Qed.
Lemma string_escape_flow n K input b s out s' out' : at_string n K input s out → (∃ pre, string_bytes s = pre ++ [ESC]) → sp_scan s = StringEscape → n + 2 ≤ u64_max → push_byte b s out = (s', out') → flow (n + 2) K (input ++ [b]) s' out'.
Proof.
  intros Hat [pre Hpre] Es Hn. unfold push_byte. rewrite Es. apply (at_string_byte _ _ _ _ _ b) in Hat as (Ht & m & laid & Hm & Hc). pose proof (co_order _ _ _ _ _ _ _ _ Hc) as Hord. unfold is_byte. case_bool_decide as Hb.
  - assert (core (n + 1) K laid (input ++ [b]) (mk_order m) (sp_string s ++ [b]) s out) as Hc0 by (eapply core_order; [eapply core_less; [exact Hc|]|lia|lia]; unfold string_bytes; apply sublist_app; [by apply sublist_inserts_r|done]).
    destruct (push_string_core _ _ _ _ _ _ _ b Ht Hm Hc0) as (Ht1 & Hm1 & _ & _ & _ & Hc1). intros E. apply idle_at_text. replace (n + 2) with (n + 1 + 1) by lia. eapply finish_string_core; [exact Ht1|exact Hm1| |exact Hc1|lia|exact E]. intros ->. by rewrite app_nil_r.
  - set (s1 := set_scan Escape _). assert (at_text n K (input ++ [b]) [ESC; b] s1 out) as Ha.
    { split; [by left|]. exists laid. destruct Ht as [Ht Htm], Hm as [_ Hm]. change (sp_text s1) with (sp_text s). unfold text_order. change (sp_text_mark s1) with (sp_text_mark s). rewrite Ht, Htm. rewrite Hpre, <- app_assoc in Hc. eapply core_order; [eapply core_frame; [eapply core_less; [exact Hc|]|done..]|done|]; [by apply sublist_inserts_l|cbn; lia]. }
    destruct (push_text_at _ _ _ _ _ _ _ (sp_scan s1) Ha ltac:(lia)) as [Ha' E]. rewrite <- push_text_scan in Ha', E. intros Eb. replace (n + 2) with (n + 1 + 1) by lia. eapply escape_byte_flow; [exact Ha'|by rewrite push_text_scan|exact E|lia|exact Eb].
Qed.
Lemma push_byte_flow n K input b s out s' out' : flow n K input s out → n + 2 ≤ u64_max → push_byte b s out = (s', out') → flow (n + 2) K (input ++ [b]) s' out'.
Proof.
  intros Hf Hn. assert (∀ m s out, flow m K (input ++ [b]) s out → n ≤ m → m ≤ n + 2 → flow (n + 2) K (input ++ [b]) s out) as Hlater.
  { clear. intros m s out Hf H1 H2. assert (∀ rest, at_text m K (input ++ [b]) rest s out → at_text (n + 2) K (input ++ [b]) rest s out) as Ht by (intros rest Ha; by eapply at_text_later).
    assert (at_string m K (input ++ [b]) s out → at_string (n + 2) K (input ++ [b]) s out) as Hst by (intros (Hnt & mk & laid & Hm & Hc); split; [done|]; exists mk, laid; split; [done|]; pose proof (co_order _ _ _ _ _ _ _ _ Hc); eapply core_order; [exact Hc|done|lia]).
    unfold flow in *. destruct (sp_scan s); naive_solver. }
  unfold flow in Hf. destruct (sp_scan s) eqn:Es; [| | | |intros E; apply (Hlater (n + 1)); [eapply string_byte_flow; [exact Hf|exact Es|lia|exact E]|lia|lia]|destruct Hf; by apply string_escape_flow]; unfold push_byte; rewrite Es.
  - apply (at_text_byte _ _ _ _ _ _ b) in Hf. unfold is_byte. case_bool_decide as Hb; intros [= <- <-].
    + subst b. destruct (push_text_at _ _ _ _ _ _ _ Escape Hf ltac:(lia)) as [Ha E]. apply (Hlater (n + 1)); [|lia|lia]. split; [done|]. by eexists.
    + destruct (push_text_at _ _ _ _ _ _ _ (sp_scan s) Hf ltac:(lia)) as [Ha E]. rewrite <- push_text_scan in Ha. apply (Hlater (n + 1)); [|lia|lia]. unfold flow. rewrite push_text_scan, Es. cbn [sp_scan set_scan]. rewrite <- Es, <- push_text_scan. done.
  - destruct Hf as [Hf [pre Hpre]]. apply (at_text_byte _ _ _ _ _ _ b) in Hf. intros E. apply (Hlater (n + 1)); [|lia|lia]. eapply escape_byte_flow; try done. lia.
  - destruct Hf as [Hf (pre & par & Et & Ec)]. apply (at_text_byte _ _ _ _ _ _ b) in Hf. unfold is_byte. case_bool_decide as Hb.
    + subst b. intros [= <- <-]. destruct (push_text_at _ _ _ _ _ _ _ Escape Hf ltac:(lia)) as [Ha E]. apply (Hlater (n + 1)); [|lia|lia]. split; [done|]. by eexists.
    + cbv zeta. destruct (push_text_at _ _ _ _ _ _ _ (sp_scan s) Hf ltac:(lia)) as [Ha E]. rewrite <- push_text_scan in Ha, E. assert (sp_scan (push_text b s) = Csi ∧ sp_csi_start (push_text b s) = zlen pre) as [Es1 Ec1] by (split; [by rewrite push_text_scan|rewrite <- Ec; unfold push_text; by destruct (sp_text s)]).
      set (s1 := push_text b s) in *. clearbody s1. rewrite Et, <- !app_assoc in E. destruct (is_final b); [|destruct (_ <? _)].
      * intros Ef. apply (at_text_scan _ _ _ _ _ _ Ground) in Ha as [Ht (laid & Hc)]. rewrite app_nil_r in Hc. destruct (flush_large_core _ _ _ _ _ _ _ _ Ht eq_refl Hc Ef) as (laid' & Hc' & Ht' & Hs'). apply (Hlater (n + 1)); [|lia|lia]. unfold flow. rewrite Hs'. split; [done|]. exists laid'. by rewrite app_nil_r.
      * pose proof (discard_flow _ _ _ _ _ _ _ Ha E Ec1) as Hd. intros [= <- <-]. apply (Hlater (n + 1)); [exact Hd|lia|lia].
      * intros [= <- <-]. apply (Hlater (n + 1)); [|lia|lia]. unfold flow. rewrite Es1. split; [done|]. exists pre, (par ++ [b]). split; [exact E|done].
  - apply (at_text_byte _ _ _ _ _ _ b) in Hf. unfold is_byte. case_bool_decide as Hb.
    + subst b. intros [= <- <-]. eapply (at_text_less _ _ _ _ [ESC]) in Hf; [|by repeat constructor]. destruct (push_text_at _ _ _ _ _ _ _ Escape Hf ltac:(lia)) as [Ha E]. apply (Hlater (n + 1)); [|lia|lia]. split; [done|]. by eexists.
    + destruct (is_final b); intros [= <- <-]; apply (Hlater n); try lia.
      * apply at_text_scan. eapply at_text_less; [exact Hf|]. apply sublist_nil_l.
      * unfold flow. rewrite Es. eapply at_text_less; [exact Hf|]. by repeat constructor.
Qed.
Lemma push_bytes_flow bytes n K input s out s' out' : flow n K input s out → n + 2 * zlen bytes ≤ u64_max → push_bytes bytes s out = (s', out') → flow (n + 2 * zlen bytes) K (input ++ bytes) s' out'.
Proof.
  unfold push_bytes. revert n input s out. induction bytes as [|b bytes IH]; intros n input s out Hf Hn; cbn [foldl]; [intros [= <- <-]; rewrite app_nil_r; change (zlen []) with 0; by rewrite Z.add_0_r|].
  replace (zlen (b :: bytes)) with (1 + zlen bytes) in * by (unfold zlen; cbn [length]; lia). pose proof (zlen_nonneg bytes). destruct (push_byte b s out) as [s1 out1] eqn:Eb. cbn [fst snd]. rewrite Eb. intros E.
  replace (n + 2 * (1 + zlen bytes)) with (n + 2 + 2 * zlen bytes) by lia. replace (input ++ b :: bytes) with ((input ++ [b]) ++ bytes) by (by rewrite <- app_assoc). eapply IH; [|lia|exact E]. eapply push_byte_flow; [exact Hf|lia|exact Eb].
Qed.
Lemma split_push_flow n K input sequence bytes s s' out : flow n K input s [] → n + 2 * zlen bytes ≤ u64_max → split_push sequence bytes s = (s', out) → flow (n + 2 * zlen bytes) K (input ++ bytes) s' out.
Proof.
  intros Hf Hn. unfold split_push. assert (flow n K input (set_sequence sequence s) []) as Hf0.
  { assert (∀ rest, at_text n K input rest s [] → at_text n K input rest (set_sequence sequence s) []) as Ht by (intros rest [Ht (laid & Hc)]; split; [exact Ht|]; exists laid; by eapply core_frame).
    assert (at_string n K input s [] → at_string n K input (set_sequence sequence s) []) as Hs by (intros (Hnt & m & laid & Hm & Hc); split; [exact Hnt|]; exists m, laid; split; [exact Hm|]; by eapply core_frame).
    unfold flow in Hf |- *. change (sp_scan (set_sequence sequence s)) with (sp_scan s). change (string_bytes (set_sequence sequence s)) with (string_bytes s). change (sp_text (set_sequence sequence s)) with (sp_text s). change (sp_csi_start (set_sequence sequence s)) with (sp_csi_start s). destruct (sp_scan s); naive_solver. }
  destruct (push_bytes bytes (set_sequence sequence s) []) as [s1 out1] eqn:E. pose proof (push_bytes_flow _ _ _ _ _ _ _ _ Hf0 Hn E) as Hf1. destruct (sp_scan s1) eqn:Es; try (by intros [= <- <-]). unfold flow in Hf1. rewrite Es in Hf1. destruct Hf1 as [Ht (laid & Hc)]. intros Ef.
  destruct (flush_text_core _ _ _ _ _ _ _ _ _ Ht Hc Ef) as (laid' & Hc' & Hnt & Es' & _). apply idle_at_text. split_and!; [done|congruence|]. by exists laid'.
Qed.

(** ** The history *)

Definition record_piece (r : HRecord) : piece := (hr_order r, hr_bytes r).
Definition record_pieces (h : RetainedHistory) : list piece := record_piece <$> (rh_text h ++ rh_images h).
(** What is kept may be regrouped. *)
Definition regrouped (n : Z) (K K' : list piece) : Prop := ∀ o laid, laid_out o laid → o ≤ n → K ⊆+ laid → ∃ laid', laid_out o laid' ∧ concat laid'.*2 = concat laid.*2 ∧ K' ⊆+ laid'.
Lemma regrouped_sub n K K' : K' ⊆+ K → regrouped n K K'.
Proof. intros Hs o laid Hl _ Hk. exists laid. split_and!; [done|done|]. by etrans. Qed.
Lemma regrouped_trans n K1 K2 K3 : regrouped n K1 K2 → regrouped n K2 K3 → regrouped n K1 K3.
Proof. intros H1 H2 o laid Hl Ho Hk. destruct (H1 o laid Hl Ho Hk) as (l1 & A1 & A2 & A3). destruct (H2 o l1 A1 Ho A3) as (l2 & B1 & B2 & B3). exists l2. split_and!; [done|congruence|done]. Qed.
Lemma flow_regroup n K K' input s out out' : regrouped n (K ++ units_pieces out ++ group_pieces s) (K' ++ units_pieces out' ++ group_pieces s) → flow n K input s out → flow n K' input s out'.
Proof.
  intros Hr. assert (∀ laid o bytes, core n K laid input o bytes s out → ∃ laid', core n K' laid' input o bytes s out') as Hc.
  { intros laid o bytes [H1 H2 H3 H4 H5]. destruct (Hr o laid H1 ltac:(lia) H4) as (laid' & A1 & A2 & A3). exists laid'. split; try done. by rewrite A2. }
  assert (∀ rest, at_text n K input rest s out → at_text n K' input rest s out') as Ht by (intros rest [Ht (laid & H)]; split; [done|]; by eapply Hc).
  assert (at_string n K input s out → at_string n K' input s out') as Hs by (intros (Hnt & m & laid & Hm & H); split; [done|]; destruct (Hc _ _ _ H) as [laid' H']; by exists m, laid').
  unfold flow. destruct (sp_scan s); naive_solver.
Qed.
Lemma cut_parts_fmap {A B} bytes parts (f : Z → Z → list byte → A) (g : A → B) : g <$> cut_parts bytes parts f = cut_parts bytes parts (λ o q b, g (f o q b)).
Proof. induction parts as [|[[start o] q] parts IH]; cbn; [done|]. by rewrite IH. Qed.
Lemma seal_pieces h : record_pieces (seal h) = record_pieces h.
Proof.
  unfold record_pieces, seal, with_texts. cbn [rh_text rh_images]. rewrite !fmap_app. f_equal. destruct (last (rh_text h)) as [r|] eqn:E; [|by rewrite update_last_none].
  destruct (update_last_snoc (λ r, mk_HRecord (hr_order r) (hr_sequence r) (hr_bytes r) false (hr_image_group r)) _ _ E) as (front & -> & ->). by rewrite !fmap_app.
Qed.
Lemma app_insert (T : list piece) xs I V : ((T ++ xs) ++ I) ++ V ⊆+ (T ++ I) ++ xs ++ V.
Proof. apply Permutation_submseteq. rewrite <- !app_assoc. f_equiv. by rewrite !app_assoc, (Permutation_app_comm xs I). Qed.
Lemma retain_unit_regroup n h u V : n ≤ u64_max → regrouped n (record_pieces h ++ unit_pieces u ++ V) (record_pieces (retain_unit h u) ++ V).
Proof.
  intros Hn. unfold retain_unit. destruct (un_kind u) eqn:Ek.
  - unfold unit_pieces. rewrite Ek. cbv zeta. set (c := match last (rh_text h) with Some _ => _ | None => _ end). destruct c eqn:Ec.
    + subst c. destruct (last (rh_text h)) as [r|] eqn:E; [|done]. rewrite !andb_true_iff, !Z.eqb_eq in Ec. destruct Ec as [_ Eo]. destruct (update_last_snoc (λ r, mk_HRecord (hr_order r) (hr_sequence r) (hr_bytes r ++ un_bytes u) (hr_open r) (hr_image_group r)) _ _ E) as (front & Ht & Hu).
      intros o laid Hl Ho Hk. unfold record_pieces in *. cbn [rh_text rh_images with_texts]. rewrite Hu. rewrite Ht in Hk. rewrite !fmap_app in Hk |- *. cbn [fmap list_fmap] in Hk |- *. unfold record_piece at 2 in Hk. set (F := record_piece <$> front) in *. set (I := record_piece <$> rh_images h) in *.
      assert (hr_order r + 1 = un_order u) as Eo'.
      { rewrite <- Eo. symmetry. apply add64_id. destruct Hl as [_ Hb]. assert ((hr_order r, hr_bytes r) ∈ laid) as Hin by (eapply elem_of_submseteq; [|exact Hk]; do 2 (apply elem_of_app; left); apply elem_of_app; right; by apply list_elem_of_singleton). rewrite List.Forall_forall in Hb. specialize (Hb _ (proj1 (list_elem_of_In _ _) (list_elem_of_fmap_2 fst _ _ Hin))). cbn in Hb. lia. }
      rewrite <- Eo' in Hk. destruct (merge_neighbours o (hr_order r) (hr_bytes r) (un_bytes u) (F ++ I ++ V) laid Hl) as (laid' & A1 & A2 & A3).
      * etrans; [|exact Hk]. apply Permutation_submseteq. rewrite <- !app_assoc. cbn [app]. rewrite <- (Permutation_middle F). constructor. rewrite !app_assoc. apply Permutation_middle.
      * exists laid'. split_and!; [done|done|]. etrans; [|exact A3]. apply Permutation_submseteq. rewrite <- !app_assoc. cbn [app]. by rewrite <- Permutation_middle.
    + apply regrouped_sub. unfold record_pieces. cbn [rh_text rh_images with_texts]. rewrite !fmap_app. apply app_insert.
  - apply regrouped_sub. cbv zeta. rewrite seal_pieces. unfold record_pieces, unit_pieces. cbn [rh_text rh_images with_images]. rewrite Ek, !fmap_app, cut_parts_fmap. by rewrite !app_assoc.
Qed.
Lemma retain_units_regroup n units h V : n ≤ u64_max → regrouped n (record_pieces h ++ units_pieces units ++ V) (record_pieces (foldl retain_unit h units) ++ V).
Proof.
  intros Hn. revert h. induction units as [|u units IH]; intros h; [by apply regrouped_sub|]. cbn [foldl]. eapply regrouped_trans; [|apply IH]. change (units_pieces (u :: units)) with (unit_pieces u ++ units_pieces units). rewrite <- app_assoc. by apply retain_unit_regroup.
Qed.
Lemma evict_images_suffix budget group images bytes : ∃ gone, images = gone ++ (evict_images budget group images bytes).1.
Proof.
  revert group bytes. induction images as [|r images IH]; intros group bytes; cbn [evict_images]; [by exists []|]. repeat case_match; [destruct (IH group (bytes - zlen (hr_bytes r))) as [gone E]; exists (r :: gone); by rewrite E at 1|destruct (IH (Some (hr_image_group r)) (bytes - zlen (hr_bytes r))) as [gone E]; exists (r :: gone); by rewrite E at 1|by exists []].
Qed.
Lemma evict_pieces h : record_pieces (evict h) ⊆+ record_pieces h ∧ rh_splitter (evict h) = rh_splitter h.
Proof.
  unfold evict. destruct (evict_text _ _ _ _) as [[text tb] st] eqn:Et. apply evict_text_split in Et as (gone & Eg & _). pose proof (evict_images_suffix (rb_image_bytes (rh_budget h)) None (rh_images h) (rh_image_bytes h)) as [gone' Eg']. destruct (evict_images _ _ _ _) as [images ib]. cbn [fst] in Eg'. split; [|done].
  unfold record_pieces. cbn [rh_text rh_images]. rewrite Eg, Eg', !fmap_app. apply submseteq_app; by apply submseteq_inserts_l.
Qed.
Definition history_flow (n : Z) (input : list byte) (h : RetainedHistory) : Prop := flow n (record_pieces h) input (rh_splitter h) [].
Lemma retained_push_flow n input sequence bytes h : history_flow n input h → n + 2 * zlen bytes ≤ u64_max → history_flow (n + 2 * zlen bytes) (input ++ bytes) (retained_push sequence bytes h).
Proof.
  intros Hf Hn. unfold retained_push. destruct (split_push sequence bytes (rh_splitter h)) as [s units] eqn:E. pose proof (split_push_flow _ _ _ _ _ _ _ _ Hf Hn E) as Hf1. set (h0 := mk_RetainedHistory _ s _ _ _ _ _). change (record_pieces h) with (record_pieces h0) in Hf1.
  unfold history_flow. set (h1 := foldl retain_unit h0 units). assert (rh_splitter h1 = s) as Es by (subst h1; by destruct (retain_units_kept units h0) as (_ & _ & ->)). destruct (evict_pieces h1) as [He Ee]. rewrite Ee, Es. eapply flow_regroup; [|exact Hf1].
  eapply regrouped_trans; [apply (retain_units_regroup _ _ _ _ Hn)|]. apply regrouped_sub. fold h1. by apply submseteq_app.
Qed.

(** ** What is under way *)

Lemma cut_parts_total bytes parts : parts_wf parts (zlen bytes) → zlen (concat (cut_parts bytes parts as_piece).*2) = zlen bytes.
Proof.
  destruct parts as [|[[start o] q] parts]; [done|]. unfold parts_wf, part_start. cbn [fst]. intros [-> Hp]. set (f := λ order sequence b, mk_HRecord order sequence b false None). pose proof (cut_parts_size bytes parts f 0 o q ltac:(lia) Hp ltac:(done)) as Hz. rewrite Z.sub_0_r in Hz. rewrite <- Hz.
  trans (zlen (concat (record_piece <$> cut_parts bytes ((0, o, q) :: parts) f).*2)); [by rewrite !cut_parts_fmap|]. generalize (cut_parts bytes ((0, o, q) :: parts) f). intros l. clear. induction l as [|r l IH]; [done|]. cbn [fmap list_fmap concat]. rewrite zlen_app, IH. done.
Qed.
Definition open_group (s : VtUnitSplitter) : bool := match sp_transmission s with Open => negb (bool_decide (sp_group s = [])) | _ => false end.
Definition pending_group (s : VtUnitSplitter) : list byte := if open_group s then sp_group s else [].
Definition pending_parts (s : VtUnitSplitter) : list Part := if open_group s then sp_group_parts s else [].
Lemma pending_group_ok n K laid input o bytes s out : core n K laid input o bytes s out → parts_within (zlen (pending_group s)) (pending_parts s) ∧ cut_parts (pending_group s) (pending_parts s) as_piece ⊆+ group_pieces s ∧ (pending_parts s = [] → pending_group s = []).
Proof.
  intros [_ _ _ _ H5]. unfold pending_group, pending_parts, open_group, group_pieces. destruct (sp_transmission s) eqn:Et; cbn; try (split_and!; [constructor|apply submseteq_nil_l|done]). destruct (H5 Et) as [Hne Hp]. case_bool_decide; cbn; [|by split_and!]. split_and!; [constructor|apply submseteq_nil_l|done].
Qed.
(** The pieces of what is under way, after those that are closed. *)
Record pending_laid (K : list piece) (input : list byte) (s : VtUnitSplitter) : Prop := {
  pl_laid : ∃ bound laid, laid_out bound laid ∧ concat laid.*2 `sublist_of` input ∧ K ++ cut_parts (pd_bytes (pending s)) (pd_parts (pending s)) as_piece ⊆+ laid;
  pl_empty : pd_parts (pending s) = [] → pd_bytes (pending s) = [];
  pl_total : (sp_transmission s = Open → parts_wf (sp_group_parts s) (zlen (sp_group s))) → zlen (concat (cut_parts (pd_bytes (pending s)) (pd_parts (pending s)) as_piece).*2) = zlen (pd_bytes (pending s));
}.
Lemma pending_laid_at n K input s o q laid bytes : core n K laid input o bytes s [] →
  (pd_bytes (pending s) = pending_group s ++ bytes ∧ pd_parts (pending s) = pending_parts s ++ [(zlen (pending_group s), o, q)]) ∨ (bytes = [] ∧ pd_bytes (pending s) = pending_group s ∧ pd_parts (pending s) = pending_parts s) →
  pending_laid K input s.
Proof.
  intros Hc Hp. destruct (pending_group_ok _ _ _ _ _ _ _ _ Hc) as (G1 & G2 & G3). destruct Hc as [H1 H2 H3 H4 _]. cbn [units_pieces fmap list_fmap concat app] in H4.
  assert (K ++ cut_parts (pending_group s) (pending_parts s) as_piece ⊆+ laid) as Hk by (etrans; [apply submseteq_skips_l, G2|exact H4]).
  assert ((sp_transmission s = Open → parts_wf (sp_group_parts s) (zlen (sp_group s))) → zlen (concat (cut_parts (pending_group s) (pending_parts s) as_piece).*2) = zlen (pending_group s)) as Htot.
  { intros Hwf. unfold pending_group, pending_parts, open_group. destruct (sp_transmission s) eqn:Et; cbn; [done| |done]. case_bool_decide; cbn; [done|]. by apply cut_parts_total, Hwf. }
  destruct Hp as [[E1 E2]|(-> & E1 & E2)]; split; rewrite ?E1, ?E2.
  - rewrite cut_parts_snoc by done. exists (o + 1), (laid ++ [(o, bytes)]). split_and!; [apply laid_snoc; [done|lia]| |rewrite app_assoc; by apply submseteq_skips_r]. rewrite fmap_app, concat_app. cbn. by rewrite app_nil_r.
  - by destruct (pending_parts s).
  - intros Hwf. rewrite cut_parts_snoc by done. rewrite fmap_app, concat_app, !zlen_app, (Htot Hwf). cbn. by rewrite app_nil_r.
  - exists o, laid. rewrite app_nil_r in H3. done.
  - done.
  - done.
Qed.
Lemma flow_pending n K input s : flow n K input s [] → pending_laid K input s.
Proof.
  assert (∀ rest, at_text n K input rest s [] → match sp_scan s with CsiDiscard => rest = [ESC; x5b] | Ground | Escape | Csi => rest = [] | _ => False end → pending_laid K input s) as Htext.
  { intros rest [Ht (laid & Hc)] Hr. unfold text_order in Hc. destruct Ht as [[Ht Hm]|[Ht (m & Hm & _)]]; rewrite Hm in Hc; [apply (pending_laid_at _ _ _ _ _ (sp_sequence s) _ _ Hc)|apply (pending_laid_at _ _ _ _ _ (mk_sequence m) _ _ Hc)]; unfold pending; rewrite Hm; destruct (sp_scan s); subst; rewrite ?app_nil_r; try done.
    - right. rewrite Ht. cbn [pd_bytes pd_parts]. rewrite !app_nil_r. done.
    - right. rewrite Ht. cbn [pd_bytes pd_parts]. rewrite !app_nil_r. done.
    - right. rewrite Ht. cbn [pd_bytes pd_parts]. rewrite !app_nil_r. done.
    - by left.
    - by left.
    - by left.
    - by left.
    - by left. }
  assert (at_string n K input s [] → match sp_scan s with InString | StringEscape => True | _ => False end → pending_laid K input s) as Hstring.
  { intros (Hnt & m & laid & [Hm _] & Hc) Hs. apply (pending_laid_at _ _ _ _ _ (mk_sequence m) _ _ Hc). left. unfold pending, string_bytes. rewrite Hm. by destruct (sp_scan s). }
  unfold flow. destruct (sp_scan s); naive_solver.
Qed.

(** ** A session *)

Lemma hub_step_flow n input i h : history_flow n input (bb_retained (hb_buffer h)) → n + 2 * zlen (concat (output_of i h).*2) ≤ u64_max →
  history_flow (n + 2 * zlen (concat (output_of i h).*2)) (input ++ concat (output_of i h).*2) (bb_retained (hb_buffer (hub_step i h))).
Proof.
  intros Hf. destruct i as [bytes metrics| |cols rows|cols rows|after]; cbn [hub_step output_of].
  - unfold publish, push_with_read_timestamp. case_bool_decide; cbn [fmap list_fmap concat snd]; [rewrite app_nil_r; change (zlen []) with 0; by rewrite Z.add_0_r|]. rewrite app_nil_r. unfold allocate_sequence, append. destruct (trim _ _ _). by apply retained_push_flow.
  - unfold publish_gap, allocate_sequence, append. destruct (trim _ _ _). cbn [fmap list_fmap concat snd]. rewrite app_nil_r. by apply retained_push_flow.
  - cbn [fmap list_fmap concat]. rewrite app_nil_r. change (zlen []) with 0. rewrite Z.add_0_r. intros _. unfold history_flow. cbn [record_resize allocate_sequence fst hb_buffer bb_retained]. by rewrite seal_pieces.
  - cbn [fmap list_fmap concat]. rewrite app_nil_r. change (zlen []) with 0. rewrite Z.add_0_r. intros _. unfold record_initial_size. by destruct (hb_resize_ledger h).
  - cbn [fmap list_fmap concat]. rewrite app_nil_r. change (zlen []) with 0. rewrite Z.add_0_r. intros _. unfold subscribe_with_sequence_ranges. by destruct (snapshot_after_ranges _ _ _) as [[[[? ?] ?] ?] ?].
Qed.
Lemma hub_run_flow steps n input h : history_flow n input (bb_retained (hb_buffer h)) → n + 2 * zlen (concat (outputs steps h).*2) ≤ u64_max →
  history_flow (n + 2 * zlen (concat (outputs steps h).*2)) (input ++ concat (outputs steps h).*2) (bb_retained (hb_buffer (hub_run steps h))).
Proof.
  revert n input h. induction steps as [|i steps IH]; intros n input h Hf; cbn [outputs]; [intros _; cbn [fmap list_fmap concat]; rewrite app_nil_r; change (zlen []) with 0; by rewrite Z.add_0_r|].
  rewrite fmap_app, concat_app, zlen_app. pose proof (zlen_nonneg (concat (outputs steps (hub_step i h)).*2)). intros Hn. rewrite app_assoc, Z.mul_add_distr_l, Z.add_assoc. apply IH; [|lia]. apply hub_step_flow; [done|lia].
Qed.
Lemma retained_new_flow budget : history_flow 0 [] (retained_new budget).
Proof. unfold history_flow, flow. cbn [retained_new rh_splitter splitter_new sp_scan]. split; [by left|]. exists []. split; [split; constructor|by vm_compute|done|by vm_compute|done]. Qed.
Definition payload (x : Z * (Z * list byte)) : piece := (x.1, x.2.2).
Lemma sort_payload l : payload <$> sort_by_order l = sort_by_order (payload <$> l).
Proof.
  induction l as [|x l IH]; [done|]. cbn [fmap list_fmap sort_by_order foldr]. change (foldr insert_by_order [] l) with (sort_by_order l). change (foldr insert_by_order [] (payload <$> l)) with (sort_by_order (payload <$> l)). rewrite <- IH. generalize (sort_by_order l). clear. intros l. induction l as [|y l IH]; [done|]. cbn. destruct (_ <=? _); [done|]. cbn. by rewrite IH.
Qed.
Lemma concat_sublist (l k : list piece) : l `sublist_of` k → concat l.*2 `sublist_of` concat k.*2.
Proof. induction 1 as [|x l k Hs IH|x l k Hs IH]; cbn; [done|by apply sublist_app|by apply sublist_inserts_l]. Qed.
Lemma sublist_full {A} (l k : list A) : l `sublist_of` k → length l = length k → l = k.
Proof. induction 1 as [|x l k Hs IH|x l k Hs IH]; intros Hl; [done|f_equal; apply IH; by injection Hl|]. apply sublist_length in Hs. cbn in Hl. lia. Qed.
Lemma concat_perm (l k : list piece) : l ≡ₚ k → zlen (concat l.*2) = zlen (concat k.*2).
Proof. induction 1; cbn; rewrite ?zlen_app; lia. Qed.
Lemma concat_nonempty {A} bytes parts (f : Z → Z → list byte → A) (g : A → piece) (keep : A → bool) : (∀ a, keep a = false → (g a).2 = []) →
  concat (g <$> List.filter keep (cut_parts bytes parts f)).*2 = concat (g <$> cut_parts bytes parts f).*2.
Proof. intros Hk. generalize (cut_parts bytes parts f). intros l. induction l as [|a l IH]; [done|]. cbn. destruct (keep a) eqn:E; cbn; rewrite IH; [done|]. by rewrite (Hk a E). Qed.
(** The records of a history and what is under way, in order. *)
Lemma records_in_order n input h : history_flow n input h → (sp_transmission (rh_splitter h) = Open → parts_wf (sp_group_parts (rh_splitter h)) (zlen (sp_group (rh_splitter h)))) →
  let p := pending (rh_splitter h) in let shown := concat (records_with_pending h p).*2 in
  shown `sublist_of` input ∧ zlen shown = zlen (concat (record_pieces h).*2) + zlen (pd_bytes p).
Proof.
  intros Hf Hwf. cbv zeta. destruct (flow_pending _ _ _ _ Hf) as [(bound & laid & H1 & H2 & H3) H4 H5]. specialize (H5 Hwf). set (p := pending (rh_splitter h)) in *. unfold records_with_pending.
  assert (bool_decide (pd_parts p = []) && negb (bool_decide (pd_bytes p = [])) = false) as -> by (case_bool_decide as E; [|done]; cbn; by rewrite bool_decide_true by (by apply H4)). cbv zeta.
  set (records := (λ r, (hr_order r, (hr_sequence r, hr_bytes r))) <$> (rh_text h ++ rh_images h)). set (more := List.filter _ _). assert (payload <$> records = record_pieces h) as Er by (subst records; by rewrite <- list_fmap_compose).
  assert (payload <$> more `sublist_of` cut_parts (pd_bytes p) (pd_parts p) as_piece ∧ concat (payload <$> more).*2 = concat (cut_parts (pd_bytes p) (pd_parts p) as_piece).*2) as [Em Ec].
  { subst more. assert (cut_parts (pd_bytes p) (pd_parts p) as_piece = payload <$> cut_parts (pd_bytes p) (pd_parts p) (λ o q b, (o, (q, b)))) as -> by (by rewrite cut_parts_fmap). split.
    - apply fmap_sublist. generalize (cut_parts (pd_bytes p) (pd_parts p) (λ o q b, (o, (q, b)))). intros l. induction l as [|x l IH]; [done|]. cbn. destruct (negb _); by constructor.
    - apply concat_nonempty. intros [o [q b]]. cbn. rewrite negb_false_iff, bool_decide_eq_true. done. }
  assert (∀ l : list (Z * (Z * list byte)), concat (l.*2).*2 = concat (payload <$> l).*2) as Ep by (intros l; by rewrite <- !list_fmap_compose). rewrite Ep, sort_payload, fmap_app, Er. split.
  - etrans; [|exact H2]. apply concat_sublist. eapply sort_selection; [exact H1|]. etrans; [|exact H3]. apply submseteq_skips_l. by apply sublist_submseteq.
  - rewrite (concat_perm _ _ (sort_by_order_perm _)), fmap_app, concat_app, zlen_app, Ec, H5. done.
Qed.
Lemma record_pieces_size h : counted h → zlen (concat (record_pieces h).*2) = rh_text_bytes h + rh_image_bytes h.
Proof.
  intros [-> ->]. unfold record_pieces. rewrite fmap_app, fmap_app, concat_app, zlen_app. assert (∀ l, zlen (concat (record_piece <$> l).*2) = record_bytes l) as Hl by (induction l as [|r l IH]; [done|]; cbn [fmap list_fmap concat]; rewrite zlen_app, IH; done). by rewrite !Hl.
Qed.

(** C10: A client that starts from nothing is shown the state evicted output left behind and then output of
    the program in the order it was written, nothing twice and nothing made up, whatever was
    thrown away; every byte that is retained or under way is shown, so that it is the whole output when
    nothing was thrown away; and the pieces of one size make up what is shown. *)
Theorem new_client_in_order capacity budget steps (Hcap : 0 ≤ capacity) (Hbudget : budget_ok budget) (Hlen : 2 * zlen (concat (outputs steps (hub_new capacity budget)).*2) ≤ u64_max) :
  let h := hub_run steps (hub_new capacity budget) in
  let r := bb_retained (hb_buffer h) in
  let written := concat (outputs steps (hub_new capacity budget)).*2 in
  let a := (subscribe_with_sequence_ranges None h).2 in
  ∃ shown, at_history a = state_prelude r ++ shown ∧ shown `sublist_of` written ∧
    zlen shown = rh_text_bytes r + rh_image_bytes r + zlen (pd_bytes (pending (rh_splitter r))) ∧
    (zlen shown = zlen written → shown = written) ∧
    concat (sg_bytes <$> cut_ranges (at_history a) (at_ranges a)) = at_history a.
Proof.
  cbv zeta. pose proof (hub_run_flow steps 0 [] (hub_new capacity budget) (retained_new_flow budget)) as Hf. rewrite Z.add_0_l, app_nil_l in Hf. specialize (Hf Hlen). pose proof (hub_run_retained budget steps (hub_new capacity budget) Hbudget (retained_new_ok budget Hbudget)) as [_ Hsp Hct _ _].
  set (h := hub_run steps _) in *. set (r := bb_retained (hb_buffer h)) in *. destruct (records_in_order _ _ _ Hf (ok_parts _ _ Hsp)) as [H1 H2]. rewrite (record_pieces_size _ Hct) in H2. exists (concat (records_with_pending r (pending (rh_splitter r))).*2).
  unfold subscribe_with_sequence_ranges. destruct (snapshot_after_ranges None (hb_resize_ledger h) (hb_buffer h)) as [[[[history ranges] start] stop] gap] eqn:E. cbn [snd at_history at_ranges]. unfold snapshot_after_ranges, snapshot_after_ranges_impl in E. cbv beta iota zeta in E. cbn [andb] in E.
  assert (history = state_prelude r ++ concat (records_with_pending r (pending (rh_splitter r))).*2 ∧ concat (sg_bytes <$> cut_ranges history ranges) = history) as [Eh Er].
  { fold r in E. destruct (bool_decide (records_with_pending r (pending (rh_splitter r)) = []) && bool_decide (state_prelude r = [])) eqn:Eb.
    - rewrite andb_true_iff, !bool_decide_eq_true in Eb. destruct Eb as [-> ->]. injection E as <- <- _ _ _. split; [done|]. by destruct (last (hb_resize_ledger h)).
    - destruct (build_ranges _ _ _ _) as [history' ranges'] eqn:Eg. apply build_ranges_spec in Eg as [-> Ht]. injection E as <- <- _ _ _. split; [done|]. rewrite (tiles_cut _ 0 ranges' _ Ht) by lia. rewrite Z.sub_0_r. change (Z.to_nat 0) with 0%nat. rewrite drop_0. apply take_all_zlen. }
  split_and!; [done|done|done| |done]. intros Hz. apply sublist_full; [done|]. unfold zlen in Hz. lia.
Qed.

(** ** Witnesses *)

Definition image_part (more : string) : list byte := [x1b; x5f] ++ bytes_of "Ga=T,m=" ++ bytes_of more ++ bytes_of ";AAAA" ++ [x1b; x5c].
Definition mixed_steps : list HubStep :=
  [HPublish (bytes_of "before" ++ take 6 (image_part "1")) None; HPublish (drop 6 (image_part "1")) None; HPublish (bytes_of "between" ++ [x1b] ++ bytes_of "[1") None; HResize 90 20; HPublish (bytes_of "m" ++ image_part "0" ++ [x1b]) None; HGap; HPublish (bytes_of "after") None].
Lemma new_client_in_order_witness : let h := hub_run mixed_steps (hub_new 1000 (from_text_capacity 1000)) in
  ∃ shown, at_history (subscribe_with_sequence_ranges None h).2 = state_prelude (bb_retained (hb_buffer h)) ++ shown ∧ shown = concat (outputs mixed_steps (hub_new 1000 (from_text_capacity 1000))).*2.
Proof.
  cbv zeta. destruct (new_client_in_order 1000 (from_text_capacity 1000) mixed_steps ltac:(lia) ltac:(by vm_compute) ltac:(vm_compute; discriminate)) as (shown & H1 & _ & H3 & H4 & _). exists shown. split; [exact H1|]. apply H4. rewrite H3. vm_compute. reflexivity.
Defined.
