(* ===== verification/MachineOutput.v ===== *)
(** * MachineOutput: live output for a remote machine, bounded and without holes

    A paired machine gets the output of a terminal over a connection that may be slow.  Nothing waits for
    it: the publisher charges each chunk to a budget and queues it, or gives the client up; the
    client holds its charges until what it received is written out.  The model of
    src-tauri/src/terminal/machine_output.rs for one client (each has a channel, a budget and a
    status of its own), beside the hub (OutputHub) that publishes under its lock while the client
    takes output, gives charges back and goes away. *)

From Stdlib Require Import ZArith Lia Strings.Byte Sorting.Sorted.
From stdpp Require Import base option gmap list strings.
From S2P Require Import Prelude VtStream Retained OutputHub OutputHubSpec.

#[local] Open Scope Z_scope.

(** ** Budget and channel *)

Definition MACHINE_OUTPUT_BYTES : Z := 1024 * 1024.
Definition MACHINE_FRAME_OVERHEAD : Z := 512.
Definition MACHINE_CONTROL_BYTES : Z := 16 * 1024.
Definition MAX_ENTRIES : nat := Z.to_nat 1024.
Inductive MachineOutputError : Type := Overflow | Closed.

Record Machine := mk_Machine {
  mc_available : Z; (* permits left in the budget *)
  mc_queue : list (OutputChunk * Z); (* the channel, each chunk with its charge *)
  mc_status : option MachineOutputError;
  mc_sender : bool; (* the hub still has the sender *)
  mc_closed : bool; (* the receiver is closed or gone *)
  mc_admitting : option (OutputChunk * Z); (* charged, about to be queued *)
  mc_polled : bool; (* the receiver found no status and is about to take output *)
  mc_held : list Z; (* charges of the client: controls, snapshot, received output *)
}.
Definition with_status (status : option MachineOutputError) (m : Machine) : Machine := mk_Machine (mc_available m) (mc_queue m) status (mc_sender m) (mc_closed m) (mc_admitting m) (mc_polled m) (mc_held m).
Definition with_admitting (available : Z) (admitting : option (OutputChunk * Z)) (m : Machine) : Machine := mk_Machine available (mc_queue m) (mc_status m) (mc_sender m) (mc_closed m) admitting (mc_polled m) (mc_held m).
Definition with_polled (polled : bool) (m : Machine) : Machine := mk_Machine (mc_available m) (mc_queue m) (mc_status m) (mc_sender m) (mc_closed m) (mc_admitting m) polled (mc_held m).

(** [try_acquire_many_owned]: the permits left. *)
Definition charge (bytes available : Z) : Result Z MachineOutputError := if (bytes <=? u32_max) && (bytes <=? available) then Ok (available - bytes) else Err Overflow.
Definition queued (m : Machine) : Z := zsum (mc_queue m).*2.
Definition pending_bytes (m : Machine) : Z := MACHINE_OUTPUT_BYTES - mc_available m.
Definition sender_drop (m : Machine) : Machine :=
  mk_Machine (mc_available m) (mc_queue m) (match mc_status m with None => Some Closed | status => status end) false (mc_closed m) (mc_admitting m) (mc_polled m) (mc_held m).
(** [publish] up to the charge. *)
Definition publish_charge (chunk : OutputChunk) (m : Machine) : Machine :=
  if negb (mc_sender m) then m else
  if mc_closed m then sender_drop m else
  let size := zlen (oc_bytes chunk) + MACHINE_FRAME_OVERHEAD in
  match (if size <=? u64_max then charge size (mc_available m) else Err Overflow) with
  | Ok available => with_admitting available (Some (chunk, size)) m
  | Err _ => sender_drop (with_status (Some Overflow) m)
  end.
(** Its end: [try_send], which fails when the receiver is gone or the channel is full. *)
Definition publish_send (m : Machine) : Machine :=
  match mc_admitting m with
  | None => m
  | Some (chunk, size) =>
      if mc_closed m || (MAX_ENTRIES <=? length (mc_queue m))%nat
      then sender_drop (with_status (Some Overflow) (with_admitting (mc_available m + size) None m))
      else mk_Machine (mc_available m) (mc_queue m ++ [(chunk, size)]) (mc_status m) (mc_sender m) (mc_closed m) None (mc_polled m) (mc_held m)
  end.

(** [recv]: the status first, and what is queued is dropped when there is one. *)
Definition close_and_drain (m : Machine) : Machine := mk_Machine (mc_available m + queued m) [] (mc_status m) (mc_sender m) true (mc_admitting m) false (mc_held m).
Definition recv_poll (m : Machine) : Machine * option MachineOutputError :=
  match mc_status m with Some error => (close_and_drain m, Some error) | None => (with_polled true m, None) end.
(** Then the channel.  [Err] ends the stream; nothing is there yet: the status is looked at again. *)
Definition recv_take (m : Machine) : Machine * option (Result OutputChunk MachineOutputError) :=
  if negb (mc_polled m) then (m, None) else
  match mc_queue m with
  | (chunk, size) :: queue => (mk_Machine (mc_available m) queue (mc_status m) (mc_sender m) (mc_closed m) (mc_admitting m) false (size :: mc_held m), Some (Ok chunk))
  | [] => (with_polled false m, if mc_sender m then None else Some (Err Closed))
  end.
(** The output was written out, or never will be. *)
Definition release (k : nat) (m : Machine) : Machine :=
  match mc_held m !! k with
  | Some size => mk_Machine (mc_available m + size) (mc_queue m) (mc_status m) (mc_sender m) (mc_closed m) (mc_admitting m) (mc_polled m) (delete k (mc_held m))
  | None => m
  end.
Definition try_charge (bytes : Z) (m : Machine) : Machine * option MachineOutputError :=
  match charge bytes (mc_available m) with
  | Ok available => (mk_Machine available (mc_queue m) (mc_status m) (mc_sender m) (mc_closed m) (mc_admitting m) (mc_polled m) (bytes :: mc_held m), None)
  | Err e => (m, Some e)
  end.
Definition receiver_drop (m : Machine) : Machine := mk_Machine (mc_available m + queued m + zsum (mc_held m)) [] (mc_status m) (mc_sender m) true (mc_admitting m) false [].

(** ** Subscription *)

Definition RANGE_BYTES : Z := 24.
Definition next_power_of_two (n : Z) : Z := 2 ^ Z.log2_up n.
Definition sat64 (z : Z) : Z := Z.min u64_max z.
Definition subscribe_machine (after : option Z) (h : SessionHub) : SessionHub * Result (Machine * AttachmentSnapshot) MachineOutputError :=
  let b := hb_buffer h in
  match charge MACHINE_CONTROL_BYTES MACHINE_OUTPUT_BYTES with
  | Err e => (h, Err e)
  | Ok available =>
      let gap := match after, start_sequence b with Some requested, Some first => requested <? sat_sub first 1 | _, _ => false end in
      let full := match after with None => true | Some _ => gap end in
      let replay := bytes_of_chunks (List.filter (λ c, full || match after with Some n => n <? oc_sequence c | None => true end) (bb_chunks b)) in
      let replay := sat64 (replay + (if full && bb_bracketed_paste_enabled b then 8 else 0)) in
      let ranges := sat64 (Z.max 4 (next_power_of_two (zlen (hb_resize_ledger h) + 1)) * RANGE_BYTES) in
      let size := sat64 (replay + (8 + MACHINE_FRAME_OVERHEAD + ranges)) in
      match charge size available with
      | Err e => (h, Err e)
      | Ok available =>
          let '(history, ranges, start, stop, gap) := snapshot_after_ranges after (hb_resize_ledger h) b in
          let gap := match gap, hb_replay_gap h with
            | Some gap, _ => Some gap
            | None, Some gap => if match after with Some n => n <? sub64 (available_from_sequence gap) 1 | None => true end then Some gap else None
            | None, None => None
            end in
          (mk_SessionHub b (hb_resize_ledger h) (hb_replay_gap h) (hb_history_incomplete h) true (hb_ended h) (hb_published_bytes h),
           Ok (mk_Machine available [] None true false None false [size; MACHINE_CONTROL_BYTES], mk_AttachmentSnapshot start stop history ranges gap (history_incomplete h)))
      end
  end.

(** ** Hub and client *)

(** What the hub sends on a step. *)
Definition sent (i : HubStep) (h : SessionHub) : list OutputChunk :=
  match i with
  | HPublish bytes metrics => option_list (publish bytes metrics h).2
  | HGap => [(publish_gap h).2]
  | _ => []
  end.
Record World := mk_World { w_hub : SessionHub; w_machine : Machine; w_log : list (Z * list byte); w_sent : list OutputChunk; w_received : list OutputChunk; w_error : option MachineOutputError }.
Inductive WStep : Type :=
| WHub (i : HubStep) (* under the hub's lock, up to the charge *)
| WSend (* its end *)
| WRemove (* the session is removed *)
| WPoll | WTake | WRelease (k : nat) | WCharge (bytes : Z) | WDrop.
Definition with_machine (m : Machine) (w : World) : World := mk_World (w_hub w) m (w_log w) (w_sent w) (w_received w) (w_error w).
Definition with_error (e : option MachineOutputError) (w : World) : World :=
  mk_World (w_hub w) (w_machine w) (w_log w) (w_sent w) (w_received w) (match w_error w with None => e | e => e end).
Definition world_step (w : World) (i : WStep) : World :=
  let m := w_machine w in
  match i with
  | WHub i =>
      match mc_admitting m with
      | Some _ => w (* the lock is taken *)
      | None => mk_World (hub_step i (w_hub w)) (foldl (λ m c, publish_charge c m) m (sent i (w_hub w))) (w_log w ++ output_of i (w_hub w)) (w_sent w ++ sent i (w_hub w)) (w_received w) (w_error w)
      end
  | WSend => with_machine (publish_send m) w
  | WRemove => match mc_admitting m with Some _ => w | None => if mc_sender m then with_machine (sender_drop m) w else w end
  | WPoll => let '(m, e) := recv_poll m in with_error e (with_machine m w)
  | WTake =>
      match recv_take m with
      | (m, None) => with_machine m w
      | (m, Some (Ok c)) => mk_World (w_hub w) m (w_log w) (w_sent w) (w_received w ++ [c]) (w_error w)
      | (m, Some (Err e)) => with_error (Some e) (with_machine m w)
      end
  | WRelease k => with_machine (release k m) w
  | WCharge bytes => if 0 <=? bytes then with_machine (try_charge bytes m).1 w else w
  | WDrop => with_machine (receiver_drop m) w
  end.
Definition world_run (steps : list WStep) (w : World) : World := foldl world_step w steps.
