(* ===== verification/MachineSpec.v ===== *)
(** * MachineSpec: a machine gets a stream without holes, in bounded memory

    The invariant of a client of MachineOutput in every interleaving with the hub, and the theorem that
    what it was replayed and what it received are together the output after the number it asked
    for, up to where it was told that the stream ended. *)

From Stdlib Require Import ZArith Lia Strings.Byte Sorting.Sorted.
From stdpp Require Import base option gmap list strings.
From S2P Require Import Prelude VtStream Retained OutputHub OutputHubSpec MachineOutput.

#[local] Open Scope Z_scope.

(** ** One client *)

Definition admitting_chunks (m : Machine) : list OutputChunk := match mc_admitting m with Some (c, _) => if mc_closed m then [] else [c] | None => [] end.
Definition admitting_charge (m : Machine) : Z := match mc_admitting m with Some (_, size) => size | None => 0 end.
Definition sized (q : OutputChunk * Z) : Prop := q.2 = zlen (oc_bytes q.1) + MACHINE_FRAME_OVERHEAD.
Record machine_ok (sent received : list OutputChunk) (error : option MachineOutputError) (m : Machine) : Prop := {
  mo_budget : mc_available m + queued m + zsum (mc_held m) + admitting_charge m = MACHINE_OUTPUT_BYTES;
  mo_charges : 0 ≤ mc_available m ∧ Forall (Z.le 0) (mc_queue m).*2 ∧ Forall (Z.le 0) (mc_held m) ∧ 0 ≤ admitting_charge m;
  mo_entries : (length (mc_queue m) ≤ MAX_ENTRIES)%nat;
  mo_sender : if mc_sender m then mc_status m = None else is_Some (mc_status m) ∧ mc_admitting m = None;
  mo_closed : mc_closed m = true → mc_queue m = [];
  mo_prefix : received ++ (mc_queue m).*1 ++ admitting_chunks m `prefix_of` sent;
  mo_complete : mc_sender m = true → mc_closed m = false → received ++ (mc_queue m).*1 ++ admitting_chunks m = sent;
  mo_error : is_Some error → mc_queue m = [] ∧ mc_sender m = false;
  mo_sizes : Forall sized (mc_queue m) ∧ ∀ q, mc_admitting m = Some q → sized q;
}.
(** The client is given up: nothing more is queued, and the status says so. *)
Lemma drop_ok sent sent' received error m available status : machine_ok sent received error m → is_Some status → available + queued m + zsum (mc_held m) = MACHINE_OUTPUT_BYTES → 0 ≤ available → sent `prefix_of` sent' →
  machine_ok sent' received error (sender_drop (with_status status (with_admitting available None m))).
Proof.
  intros [H1 H2 H3 H4 H5 H6 H7 H8 H9] Hst Hb Ha Hs. destruct Hst as [st ->]. split; try done.
  - change (available + queued m + zsum (mc_held m) + 0 = MACHINE_OUTPUT_BYTES). lia.
  - destruct H2 as (_ & ? & ? & _). by split_and!.
  - unfold admitting_chunks. cbn. rewrite app_nil_r. etrans; [|exact Hs]. etrans; [|exact H6]. rewrite app_assoc. by apply prefix_app_r.
  - intros He. destruct (H8 He). done.
  - by destruct H9.
Qed.
Lemma charge_spec bytes available left : charge bytes available = Ok left → left = available - bytes ∧ bytes ≤ available.
Proof. unfold charge. destruct (Z.leb_spec bytes available); [|by rewrite andb_false_r]. destruct (_ && _); [|done]. by intros [= <-]. Qed.
Lemma publish_charge_ok sent received error m c : machine_ok sent received error m → mc_admitting m = None → machine_ok (sent ++ [c]) received error (publish_charge c m).
Proof.
  intros Hok Ha. pose proof Hok as [H1 H2 H3 H4 H5 H6 H7 H8 H9]. unfold admitting_charge, admitting_chunks in *. rewrite Ha in *. rewrite app_nil_r in H6, H7. assert (sent `prefix_of` sent ++ [c]) as Hs by (by apply prefix_app_r).
  assert (with_admitting (mc_available m) None m = m) as Hid by (destruct m; cbn in Ha; by subst).
  unfold publish_charge. destruct (mc_sender m) eqn:Es; cbn [negb].
  - destruct (mc_closed m) eqn:Ec.
    + pose proof (drop_ok _ (sent ++ [c]) _ _ _ (mc_available m) (Some Closed) Hok ltac:(done) ltac:(lia) ltac:(lia) Hs) as Hd. rewrite Hid in Hd. unfold sender_drop in *. cbn in *. by rewrite H4.
    + cbv zeta. destruct (if _ <=? _ then _ else _) as [left|e] eqn:E.
      * assert (left = mc_available m - (zlen (oc_bytes c) + MACHINE_FRAME_OVERHEAD) ∧ zlen (oc_bytes c) + MACHINE_FRAME_OVERHEAD ≤ mc_available m) as [-> Hle] by (destruct (_ <=? _) in E; [by apply charge_spec|done]). pose proof (zlen_nonneg (oc_bytes c)). assert (0 ≤ zlen (oc_bytes c) + MACHINE_FRAME_OVERHEAD) by (unfold MACHINE_FRAME_OVERHEAD; lia).
        set (size := zlen (oc_bytes c) + MACHINE_FRAME_OVERHEAD) in *. split; cbn; try done.
        -- change (mc_available m - size + queued m + zsum (mc_held m) + size = MACHINE_OUTPUT_BYTES). lia.
        -- destruct H2 as (? & ? & ? & _). split_and!; try done; unfold admitting_charge; cbn; lia.
        -- by rewrite Es, H4.
        -- by rewrite Ec.
        -- unfold admitting_chunks. cbn. rewrite Ec, app_assoc, (H7 eq_refl eq_refl). done.
        -- intros _ _. unfold admitting_chunks. cbn. by rewrite Ec, app_assoc, (H7 eq_refl eq_refl).
        -- by rewrite Es.
        -- destruct H9 as [? _]. split; [done|]. intros q [= <-]. done.
      * pose proof (drop_ok _ (sent ++ [c]) _ _ _ (mc_available m) (Some Overflow) Hok ltac:(done) ltac:(lia) ltac:(lia) Hs) as Hd. by rewrite Hid in Hd.
  - split; unfold admitting_charge, admitting_chunks; rewrite ?Ha, ?Es; try done. rewrite app_nil_r. by etrans.
Qed.
Lemma publish_send_ok sent received error m : machine_ok sent received error m → machine_ok sent received error (publish_send m).
Proof.
  intros Hok. unfold publish_send. destruct (mc_admitting m) as [[c size]|] eqn:Ea; [|done]. pose proof Hok as [H1 H2 H3 H4 H5 H6 H7 H8 H9]. unfold admitting_charge in *. rewrite Ea in *. destruct (mc_closed m || (MAX_ENTRIES <=? length (mc_queue m))%nat) eqn:Ef.
  - apply drop_ok with (sent := sent); [done|done|lia|lia|done].
  - apply orb_false_iff in Ef as [Ec El]. apply Nat.leb_gt in El. unfold admitting_chunks in *. rewrite Ea, Ec in *. split; unfold admitting_chunks; cbn; try done.
    + change (mc_available m + zsum (mc_queue m ++ [(c, size)]).*2 + zsum (mc_held m) + 0 = MACHINE_OUTPUT_BYTES). unfold queued in H1. rewrite fmap_app, zsum_app. change (zsum [(c, size)].*2) with (size + 0). lia.
    + destruct H2 as (? & ? & ? & ?). unfold admitting_charge. cbn. split_and!; try done. rewrite fmap_app. apply Forall_app. split; [done|]. cbn. by rewrite Forall_singleton.
    + rewrite length_app. cbn. lia.
    + destruct (mc_sender m); [done|]. destruct H4 as [? ?]. done.
    + by rewrite fmap_app, app_nil_r.
    + intros Hs _. rewrite fmap_app, app_nil_r. by apply H7.
    + intros He. destruct (H8 He) as [_ Hs]. rewrite Hs in H4. by destruct H4.
    + destruct H9 as [? Hq]. split; [|done]. apply Forall_app. split; [done|]. rewrite Forall_singleton. by apply Hq.
Qed.
Lemma sender_drop_ok sent received error m : machine_ok sent received error m → mc_admitting m = None → machine_ok sent received error (sender_drop m).
Proof.
  intros Hok Ha. pose proof Hok as [H1 H2 H3 H4 H5 H6 H7 H8 H9]. assert (is_Some (match mc_status m with None => Some Closed | status => status end)) as Hst by (by destruct (mc_status m)). unfold admitting_charge in H1. rewrite Ha in H1.
  pose proof (drop_ok sent sent received error m (mc_available m) _ Hok Hst ltac:(lia) ltac:(lia) ltac:(done)) as Hd. unfold sender_drop in *. cbn in *. rewrite Ha. by destruct (mc_status m).
Qed.
Lemma queued_nonneg m : Forall (Z.le 0) (mc_queue m).*2 → 0 ≤ queued m.
Proof. apply zsum_nonneg. Qed.
(** The channel is closed and what it holds is given back. *)
Lemma close_ok sent received error error' m held : machine_ok sent received error m → (is_Some error' → is_Some error ∨ mc_sender m = false) → 0 ≤ zsum (mc_held m) - zsum held → Forall (Z.le 0) held →
  machine_ok sent received error' (mk_Machine (mc_available m + queued m + (zsum (mc_held m) - zsum held)) [] (mc_status m) (mc_sender m) true (mc_admitting m) false held).
Proof.
  intros [H1 H2 H3 H4 H5 H6 H7 H8 H9] He Hh Hf. destruct H2 as (? & Hq & ? & ?). pose proof (queued_nonneg _ Hq). split; cbn; try done.
  - change (mc_available m + queued m + (zsum (mc_held m) - zsum held) + 0 + zsum held + admitting_charge m = MACHINE_OUTPUT_BYTES). lia.
  - unfold admitting_charge in *. cbn. split_and!; try done. lia.
  - lia.
  - unfold admitting_chunks. cbn. assert (match mc_admitting m with Some (_, _) => [] | None => [] end = @nil OutputChunk) as -> by (by destruct (mc_admitting m) as [[? ?]|]). rewrite app_nil_r. etrans; [|exact H6]. by apply prefix_app_r.
  - intros Hx. destruct (He Hx) as [Hy|Hy]; [by destruct (H8 Hy)|done].
  - destruct H9 as [_ ?]. done.
Qed.
Lemma poll_ok sent received error m : machine_ok sent received error m → let '(m', e) := recv_poll m in machine_ok sent received (match error with None => e | e => e end) m'.
Proof.
  intros Hok. unfold recv_poll. destruct (mc_status m) as [st|] eqn:Es.
  - unfold close_and_drain. rewrite Es. pose proof (close_ok sent received error (match error with None => Some st | e => e end) m (mc_held m) Hok) as Hc. rewrite Z.sub_diag, Z.add_0_r, Es in Hc. apply Hc; [|lia|apply Hok]. intros _. right. pose proof (mo_sender _ _ _ _ Hok) as Hs. destruct (mc_sender m); [congruence|done].
  - destruct Hok. split; try done. by destruct error.
Qed.
Lemma machine_take_ok sent received error m : machine_ok sent received error m →
  match recv_take m with
  | (m', None) => machine_ok sent received error m'
  | (m', Some (Ok c)) => machine_ok sent (received ++ [c]) error m'
  | (m', Some (Err e)) => machine_ok sent received (match error with None => Some e | e => e end) m'
  end.
Proof.
  intros Hok. unfold recv_take. destruct (mc_polled m); cbn [negb]; [|done]. pose proof Hok as [H1 H2 H3 H4 H5 H6 H7 H8 H9]. destruct (mc_queue m) as [|[c size] queue] eqn:Eq.
  - destruct (mc_sender m) eqn:Es; (split; [exact H1|cbn; rewrite ?Eq, ?Es; try done..]).
  - cbn [fmap list_fmap length fst snd] in *. destruct H2 as (? & [? ?]%Forall_cons & ? & ?). split; cbn; try done.
    + change (mc_available m + zsum queue.*2 + (size + zsum (mc_held m)) + admitting_charge m = MACHINE_OUTPUT_BYTES). unfold queued in H1. rewrite Eq in H1. change (zsum ((c, size) :: queue).*2) with (size + zsum queue.*2) in H1. lia.
    + split_and!; try done. by constructor.
    + lia.
    + intros Hc. specialize (H5 Hc). done.
    + rewrite <- app_assoc. exact H6.
    + intros ? ?. rewrite <- app_assoc. by apply H7.
    + intros He. by destruct (H8 He).
    + destruct H9 as [[_ ?]%Forall_cons ?]. done.
Qed.
Lemma machine_release_ok sent received error m k : machine_ok sent received error m → machine_ok sent received error (release k m).
Proof.
  intros Hok. unfold release. destruct (mc_held m !! k) as [size|] eqn:Ek; [|done]. pose proof Hok as [H1 H2 H3 H4 H5 H6 H7 H8 H9]. destruct H2 as (? & ? & Hh & ?). assert (mc_held m ≡ₚ size :: delete k (mc_held m)) as Hp by (by apply delete_Permutation).
  assert (zsum (mc_held m) = size + zsum (delete k (mc_held m)) ∧ 0 ≤ size ∧ Forall (Z.le 0) (delete k (mc_held m))) as (E1 & E2 & E3) by (rewrite Hp in Hh; apply Forall_cons in Hh as [? ?]; split_and!; try done; by rewrite Hp at 1).
  split; try done; [|split_and!; try done; cbn; lia]. change (mc_available m + size + queued m + zsum (delete k (mc_held m)) + admitting_charge m = MACHINE_OUTPUT_BYTES). lia.
Qed.
Lemma try_charge_ok sent received error m bytes : machine_ok sent received error m → 0 ≤ bytes → machine_ok sent received error (try_charge bytes m).1.
Proof.
  intros Hok Hb. unfold try_charge. destruct (charge bytes (mc_available m)) as [left|] eqn:E; [|done]. apply charge_spec in E as [-> Hle]. pose proof Hok as [H1 H2 H3 H4 H5 H6 H7 H8 H9]. destruct H2 as (? & ? & Hh & ?).
  split; try done; [|split_and!; try done; [cbn; lia|by constructor]]. change (mc_available m - bytes + queued m + (bytes + zsum (mc_held m)) + admitting_charge m = MACHINE_OUTPUT_BYTES). lia.
Qed.
Lemma receiver_drop_ok sent received error m : machine_ok sent received error m → machine_ok sent received error (receiver_drop m).
Proof. intros Hok. pose proof (mo_charges _ _ _ _ Hok) as (_ & _ & Hh & _). pose proof (zsum_nonneg _ Hh). pose proof (close_ok sent received error error m [] Hok ltac:(by left) ltac:(change (zsum []) with 0; lia) ltac:(done)) as Hc. change (zsum []) with 0 in Hc. by rewrite Z.sub_0_r in Hc. Qed.

(** ** Hub and client *)

(** A chunk that was sent, and the output it stands for. *)
Definition carries (c : OutputChunk) (e : Z * list byte) : Prop := oc_sequence c = e.1 ∧ (oc_replay_gap c = None → oc_bytes c = e.2).
Lemma sent_carries i h : Forall2 carries (sent i h) (output_of i h).
Proof.
  destruct i as [bytes metrics| |cols rows|cols rows|after]; cbn [sent output_of]; [| |constructor..].
  - unfold publish, push_with_read_timestamp. case_bool_decide; [constructor|]. cbn. constructor; [done|constructor].
  - constructor; [done|constructor].
Qed.
Record world_ok (capacity n : Z) (log0 : list (Z * list byte)) (w : World) : Prop := {
  wo_hub : hub_ok capacity n (log0 ++ w_log w) (w_hub w);
  wo_carries : Forall2 carries (w_sent w) (w_log w);
  wo_machine : machine_ok (w_sent w) (w_received w) (w_error w) (w_machine w);
}.
Lemma world_step_ok capacity n log0 w i : world_ok capacity n log0 w → n + 2 ≤ u64_max → world_ok capacity (n + 1) log0 (world_step w i).
Proof.
  intros [H1 H2 H3] Hn. assert (hub_ok capacity (n + 1) (log0 ++ w_log w) (w_hub w)) as H1' by (eapply hub_ok_later; [|exact H1]; lia). assert (∀ m, machine_ok (w_sent w) (w_received w) (w_error w) m → world_ok capacity (n + 1) log0 (with_machine m w)) as Hm by (intros m Hm; by split).
  destruct i as [i| | | | |k|bytes|]; cbn [world_step].
  - destruct (mc_admitting (w_machine w)) as [|] eqn:Ea; [by split|]. split; cbn.
    + rewrite app_assoc. by apply hub_step_ok.
    + apply Forall2_app; [done|apply sent_carries].
    + assert (sent i (w_hub w) = [] ∨ ∃ c, sent i (w_hub w) = [c]) as [->|[c ->]] by (destruct i; cbn; eauto; destruct (publish _ _ _) as [? []]; cbn; eauto); cbn; [by rewrite app_nil_r|]. by apply publish_charge_ok.
  - by apply Hm, publish_send_ok.
  - destruct (mc_admitting (w_machine w)) as [|] eqn:Ea; [by split|]. destruct (mc_sender (w_machine w)); [|by split]. by apply Hm, sender_drop_ok.
  - pose proof (poll_ok _ _ _ _ H3) as Hp. destruct (recv_poll (w_machine w)) as [m e]. split; [exact H1'|exact H2|]. unfold with_error. cbn. by destruct (w_error w).
  - pose proof (machine_take_ok _ _ _ _ H3) as Ht. destruct (recv_take (w_machine w)) as [m [[c|e]|]]; (split; [exact H1'|exact H2|]); [exact Ht|unfold with_error; cbn; by destruct (w_error w)|exact Ht].
  - by apply Hm, machine_release_ok.
  - destruct (Z.leb_spec 0 bytes); [|by split]. by apply Hm, try_charge_ok.
  - by apply Hm, receiver_drop_ok.
Qed.
Lemma world_run_ok steps capacity n log0 w : world_ok capacity n log0 w → n + 1 + Z.of_nat (length steps) ≤ u64_max → world_ok capacity (n + Z.of_nat (length steps)) log0 (world_run steps w).
Proof.
  revert n w. induction steps as [|i steps IH]; intros n w Hok Hn; cbn [length] in *; [by rewrite Z.add_0_r|]. replace (n + Z.of_nat (S (length steps))) with (n + 1 + Z.of_nat (length steps)) by lia. apply (IH (n + 1) (world_step w i)); [|lia]. apply world_step_ok; [done|lia].
Qed.
(** What was received without a gap is the output it stands for. *)
Lemma received_output received sent log : received `prefix_of` sent → Forall2 carries sent log → Forall (λ c, oc_replay_gap c = None) received → concat (oc_bytes <$> received) = concat (take (length received) log).*2.
Proof.
  intros [rest ->]. revert log. induction received as [|c received IH]; intros log Hc Hg; [done|]. cbn in Hc. apply Forall2_cons_inv_l in Hc as (e & log' & [_ Hb] & Hc & ->). apply Forall_cons in Hg as [Hg Hgs]. cbn. rewrite (Hb Hg). f_equal. by apply IH.
Qed.
Lemma output_after_later n log0 log : (∀ e, e ∈ log → n < e.1) → output_after n (log0 ++ log) = output_after n log0 ++ concat log.*2.
Proof.
  intros Hl. unfold output_after. rewrite List.filter_app, fmap_app, concat_app. do 3 f_equal. induction log as [|e log IH]; [done|]. cbn. rewrite (proj2 (Z.ltb_lt _ _) (Hl e (list_elem_of_here _ _))). f_equal. apply IH. intros e' He'. apply Hl. by right.
Qed.

(** ** The subscription *)

Lemma snapshot_gap_range n h history ranges start stop : snapshot_after_ranges (Some n) (hb_resize_ledger h) (hb_buffer h) = (history, ranges, start, stop, None) → n ≤ default 0 (end_sequence (hb_buffer h)).
Proof.
  unfold snapshot_after_ranges, snapshot_after_ranges_impl. destruct (gap_for _ n (hb_buffer h)) as [g|] eqn:Eg; [repeat case_match; congruence|]. intros _. revert Eg. unfold gap_for. destruct (_ && _); [done|]. destruct (fmap _ _) as [first|] eqn:Ef.
  - destruct (Z.ltb_spec (default 0 (end_sequence (hb_buffer h))) n) as [|H]; [by rewrite orb_true_r|done].
  - destruct (Z.ltb_spec 0 n) as [|H]; [by rewrite orb_true_r|]. intros _. assert (0 ≤ default 0 (end_sequence (hb_buffer h)) ∨ end_sequence (hb_buffer h) = None) as [|E]; [|lia|rewrite E; cbn; lia].
    unfold retained_start_sequence, start_sequence, end_sequence in *. destruct (retained_start_of _); [done|]. destruct (bb_chunks (hb_buffer h)); [by right|done].
Qed.
(** Output after the subscription is numbered above what the client had. *)
Lemma later_than capacity k k' log0 log h h' n : hub_ok capacity k log0 h → hub_ok capacity k' (log0 ++ log) h' → n ≤ default 0 (end_sequence (hb_buffer h)) → ∀ e, e ∈ log → n < e.1.
Proof.
  intros [_ _ [dropped Hr] _ _ _ _ _ _ _] [_ _ _ Hs Hnum _ _ _ _ _] Hn e He. unfold end_sequence in Hn. destruct (last (bb_chunks (hb_buffer h))) as [c|] eqn:El; cbn in Hn.
  - assert ((oc_sequence c, oc_bytes c) ∈ log0) as Hc by (rewrite Hr; apply elem_of_app; right; unfold pairs; apply list_elem_of_fmap; exists c; split; [done|]; rewrite last_lookup in El; by eapply list_elem_of_lookup_2).
    pose proof (sorted_app_cross _ _ _ _ Hs Hc He) as Hlt. cbn in Hlt. lia.
  - rewrite List.Forall_forall in Hnum. specialize (Hnum e (proj1 (list_elem_of_In _ _) (proj2 (elem_of_app _ _ _) (or_intror He)))). lia.
Qed.
(** A subscription that is granted starts from an empty channel, and its charge covers a replay of the ring. *)
Lemma subscribe_spec capacity k log n h m a : hub_ok capacity k log h → 0 ≤ n → (subscribe_machine (Some n) h).2 = Ok (m, a) → at_gap a = None → covered n (hb_buffer h) →
  hub_ok capacity k log (subscribe_machine (Some n) h).1 ∧ machine_ok [] [] None m ∧ at_history a = output_after n log ∧ n ≤ default 0 (end_sequence (hb_buffer h)) ∧
  ∃ size, mc_held m = [size; MACHINE_CONTROL_BYTES] ∧ zlen (at_history a) + MACHINE_FRAME_OVERHEAD ≤ size.
Proof.
  intros Hok Hn. unfold subscribe_machine. destruct (charge MACHINE_CONTROL_BYTES MACHINE_OUTPUT_BYTES) as [left|] eqn:E1; [|done]. apply charge_spec in E1 as [-> _]. cbv beta iota zeta. set (size := sat64 (_ + (8 + _ + _))).
  destruct (charge size (MACHINE_OUTPUT_BYTES - MACHINE_CONTROL_BYTES)) as [left|] eqn:E2; [|done]. apply charge_spec in E2 as [-> Hle]. destruct (snapshot_after_ranges (Some n) (hb_resize_ledger h) (hb_buffer h)) as [[[[history ranges] start] stop] gap] eqn:Es. cbn [fst snd]. intros [= <- <-]. cbn [at_gap at_history]. intros Hg Hc.
  destruct gap as [g|]; [done|]. clear Hg. destruct (delta_history _ _ _ _ _ _ _ _ _ _ _ Hok Hc Es) as [Hh _]. assert (zlen history + MACHINE_FRAME_OVERHEAD ≤ size) as Hsize.
  { subst size. set (ranges_size := sat64 (Z.max 4 _ * _)) in *. assert (0 ≤ ranges_size) by (subst ranges_size; unfold sat64, u64_max, RANGE_BYTES; lia). set (replay := sat64 (bytes_of_chunks _ + _)) in *. assert (zlen history ≤ replay ∨ u64_max ≤ replay) as Hr.
    { subst replay. unfold sat64. rewrite Hh, (ring_covers _ _ _ _ _ Hok Hc), <- filter_pairs. assert (∀ l, zlen (concat (pairs l).*2) = bytes_of_chunks l) as -> by (induction l as [|c l IH]; [done|]; rewrite bytes_of_chunks_cons; cbn; rewrite zlen_app; change ((λ c0, (oc_sequence c0, oc_bytes c0)) <$> l) with (pairs l); lia).
      assert (match start_sequence (hb_buffer h) with Some first => n <? sat_sub first 1 | None => false end = false) as ->.
      { unfold covered in Hc. destruct (start_sequence _) as [first|]; [|done]. apply Z.ltb_ge. unfold sat_sub. lia. }
      cbn [orb andb]. rewrite Z.add_0_r. lia. }
    clearbody ranges_size replay. unfold sat64, MACHINE_OUTPUT_BYTES, MACHINE_CONTROL_BYTES, MACHINE_FRAME_OVERHEAD, u64_max in *. lia. }
  split_and!; [| | |by eapply snapshot_gap_range|by exists size].
  - destruct Hok. by split.
  - assert (0 ≤ size) by (pose proof (zlen_nonneg history); unfold MACHINE_FRAME_OVERHEAD in Hsize; lia). split; try done.
    + change (MACHINE_OUTPUT_BYTES - MACHINE_CONTROL_BYTES - size + 0 + (size + (MACHINE_CONTROL_BYTES + 0)) + 0 = MACHINE_OUTPUT_BYTES). lia.
    + split_and!; try done; [cbn; lia|]. by repeat constructor.
    + cbn. lia.
  - done.
Qed.


(** ** A replay that is not charged *)

Definition big_image : list HubStep := [HPublish ([x1b] ++ bytes_of "_Ga=T;" ++ replicate 1500 x41 ++ [x1b; x5c]) None].

(** A new client's replay comes from the retained history but is charged for the ring: here the ring
    is empty and 1,509 bytes are sent for a charge of 616, so that a replay may exceed the budget it
    was checked against. *)
Theorem machine_undercharged : ∃ m a size, (subscribe_machine None (hub_run big_image (hub_new 100 (from_text_capacity 100)))).2 = Ok (m, a) ∧ mc_held m = [size; MACHINE_CONTROL_BYTES] ∧ size = 616 ∧ zlen (at_history a) = 1509.
Proof. do 3 eexists. split; [vm_compute; reflexivity|]. split; [reflexivity|]. split; vm_compute; reflexivity. Qed.

(** ** Witnesses *)

Definition machine_steps : list WStep :=
  [WHub (HPublish (bytes_of "five.") None); WPoll; WSend; WTake; WHub (HPublish (bytes_of "six.") None); WRelease 0; WSend; WPoll; WHub (HResize 70 30); WTake; WHub (HPublish (bytes_of "seven.") None); WSend].
